(* ===== verification/_CoqProject ===== *)
-Q . S2P
Prelude.v
Endian.v
Intset.v
Crc.v
Util.v
Sds.v
SdsText.v
Dict.v
DictScan.v
DictIter.v
TSet.v
Listpack.v
Bitops.v
Lzf.v
ServerDefs.v
Protocol.v
Multi.v
Serving.v
Reply.v
Rdb.v
RdbSet.v
ZSkip.v
ZOps.v
Zset.v
Stream.v
Repl.v
AofLoad.v
Aof.v
AofCrash.v
ZiplistDefs.v
Ziplist.v
ZiplistOps.v
THash.v
QuicklistDefs.v
Quicklist.v
QuicklistOps.v
TList.v
