(* ===== verification/Prelude.v ===== *)
(** * Verification of the Redis 5.0.7 server: data structures, requests, transactions,
    replies, dumps, replication, the append only file

    The repository is a meeting planner: a small Node.js web application
    ([app/], [index.js]) that keeps its sessions in the Redis server whose C
    sources are in [redis-5.0.7/].  This development verifies that server's own
    core, the code in [redis-5.0.7/src]: the memory representations of values,
    the parser that turns bytes from a socket into commands, the way of a command
    through the server with transactions, the way of its reply to the socket, the
    format values are dumped in, the stream of commands for the replicas and the
    append only file.

    ** How the code is translated

    A C function is a Rocq function on the data it reads and writes.  A machine
    integer is a [Z] and every operation that can leave its type is wrapped
    explicitly ([u8] ... [u64], [s8] ... [s64] below).  A block of memory is a
    list of bytes; [load], [store], [getb], [put] and [memmove] have no value
    ([None]) when an access leaves the block, and [malloc] and [realloc] fill new
    bytes from an arbitrary function [junk].  So a function returns [None] exactly
    when the C code would read or write out of bounds, fail an assertion or
    shift by too much, and every theorem of the form "returns [Some]" is a
    memory-safety statement.  A C-level failure the caller sees (a null pointer, a
    zero status) is a value: a [bool] or an inner [option].  A loop is a
    [Fixpoint] on the data it walks where that is structural; otherwise it has a
    fuel argument and gives [None] when the fuel runs out, and the theorems prove
    that the fuel its caller supplies is enough: the number of elements for a
    search or an iteration, the size of a table plus one for a walk over
    buckets, the length of the input plus one for a parser.

    ** The parts

    - [Prelude]: machine integers, blocks of memory, the development's tactics
      and hint databases, lemmas on lists and bits.
    - [Endian]: [endianconv.c], for both host byte orders.
    - [Intset]: [intset.c], the sorted array of integers of 16, 32 or 64 bits.
    - [Crc]: [crc16.c] and [crc64.c], against polynomial division bit by bit.
    - [Util]: the integer conversions of [util.c].
    - [Sds] and [SdsText]: [sds.c] and [sds.h], the string representation; a type
      class states what [SdsText] (splitting, joining, quoting, parsing of
      arguments) needs of the strings, and [Sds] provides the instance.
    - [Dict], [DictScan], [DictIter]: [dict.c] and [dict.h], the hash table with
      incremental rehashing, its scan cursor, its iterators and sampling.
    - [TSet]: the set objects of [t_set.c], built from [Intset], [Dict], [Util]
      and [Sds], with the conversion between the two encodings.
    - [Listpack]: [listpack.c], the compact list encoding.
    - [Bitops]: the bit functions of [bitops.c].
    - [Lzf]: [lzf_c.c] and [lzf_d.c], the compression of dumps.
    - [ServerDefs]: the constants of [server.h] the next parts share.
    - [Protocol]: the request side of [networking.c], on [Sds] buffers, with
      [Util] for the lengths and [SdsText] for inline commands.
    - [Multi]: [multi.c] with [processCommand], [call] and [propagate] of
      [server.c]: the guards of a command, queueing, EXEC, watched keys.
    - [Serving]: both together.  The type class [CommandContract] of [Protocol] says
      what the parser relies on when it runs a command; the [processCommand] of
      [Multi] is shown to be an instance.
    - [Reply]: the reply side of [networking.c]: the reply functions, lengths
      that are set later, the two-stage output buffer, writing to the socket.
    - [Rdb]: the streams of [rio.h] over a backend that is a type class, and the
      lengths, integers and strings of [rdb.c], with [Lzf], [Crc], [Util].
    - [RdbSet]: set objects in dumps, from [rdb.c], with [TSet] and its parts.
    - [ZSkip]: the skip list of [t_zset.c], nodes in a heap, with levels, spans and
      backward pointers; [ZOps]: its operations against a sorted list.
    - [Zset]: sorted sets of [t_zset.c], a skip list and a [Dict] that share the
      scores, and the commands that read and delete ranges.
    - [Stream]: what the stream for replicas and the append only file have in
      common: requests, with SELECT for the database of the ones that follow.
    - [Repl]: the master's side of [replication.c]: backlog, feeding, SYNC and PSYNC,
      replication IDs and their change on promotion; the bytes are those of [Reply].
    - [AofLoad]: the loader of [aof.c] and [redis-check-aof.c]; [Aof]: logging, flush,
      fsync and rewrite of [aof.c]; [AofCrash]: both together.
    - [ZiplistDefs]: [ziplist.c], the compact list whose entries hold the length of the
      entry before; [Ziplist]: what a block represents, reading and searching it;
      [ZiplistOps]: insertion, deletion and merging with their cascading updates.
    - [THash]: the hash objects of [t_hash.c] and the handlers of their commands, on
      [ZiplistOps] or [Dict], with replies of [Reply].
    - [QuicklistDefs]: [quicklist.c], a list of nodes that hold a ziplist each, compressed
      with LZF away from the ends; [Quicklist]: compression and both ends, for every depth;
      [QuicklistOps]: the middle of a list that is not compressed, look-up, insertion with
      splitting and merging, ranges and iterators.
    - [TList]: the list objects of [t_list.c] and the handlers of the commands that do not
      block, over a key space of quicklists.

    ** What is proved

    Refinement: for each container an abstract type (a finite map, a set, a
    list, a string of bytes), a simulation between the operations of the code
    and those of the abstract type, and a theorem on every sequence of operations
    ([dict_refines_gmap], [intset_refines_gset], [sds_refines_bytes],
    [listpack_refines_list], [ziplist_refines_list], [quicklist_deque_refines],
    [set_type_refines], [zset_refines]).  The well-formedness invariant
    is part of each of them; for the ziplist it includes the cascade of updates of the
    length fields, whose result is proved equal to the entries' own lengths, with
    the exception of the wide fields the code keeps on purpose.  The scan cursor ([scan_guarantee],
    [scan_full_pass]), iteration ([iterate_complete], [set_iteration]) and rehashing
    ([rehash_completes]) have their completeness and termination theorems.

    Encodings: round trips for decimal notation, listpack entries, bit fields,
    quoted arguments, split strings and compressed blocks; decompression is safe
    on any input ([lzf_decompress_safe]).  A walk over a ziplist in either direction visits
    the elements in order ([ziplist_walk]), and the search finds the first match at the
    stride that is asked for ([ziplist_find_correct]).

    Equivalence: the table-driven checksums and the word-parallel population
    count with their one-line definitions.

    The parser: any list of requests, cut into any pieces by the network, is
    run exactly once each and in order, up to a command that stops the client or frees
    it ([requests_served]); on any byte stream the parser stays within its buffer and
    reaches no assertion ([protocol_safe]).  Both hold for every [processCommand] that
    keeps to the contract, and the one of [Multi] does ([multi_commands]).

    Transactions: an invariant of all reachable states of the server with its
    clients ([transaction_invariant]), the guarantee of WATCH ([watch_guarantee]),
    EXEC as one step, or refused on a read-only replica ([exec_atomic]), and which errors
    mark a transaction ([queueing_errors]).

    Dumps: strings and sets survive a save and a load ([rdb_string_roundtrip],
    [rdb_set_roundtrip]), stated with two relations, [emits] and [consumes], that
    compose along the monad of the code, and of which the first lets a save fail only
    when the stream refuses a write ([refused]); on arbitrary bytes loading a string is
    defined except in two cases that are named ([rdb_load_bounds]).

    Replies: for any answers and any behaviour of the socket the client receives
    the encoded replies in order ([replies_delivered]), and all of them when its
    socket accepts bytes ([pending_flushed]).

    Sorted sets: every reachable set is well formed ([zset_wellformed]), every call
    on it completes ([zset_calls_complete]), the pointers between dictionary and
    skip list stay live and nothing leaks ([zset_pointers_live]), and ranks and
    ranges are inverse ([zset_rank_roundtrip]).  The heap's allocator may return any
    address that is not in use; a search is given as fuel the number of elements
    plus one.

    Hashes: any sequence of hash commands on a key answers as a finite map does, in whatever
    encoding the hash is ([hash_commands_refine]); the compact encoding stays within the
    configured limits ([hash_encoding_limits]) and HGETALL sends every pair once
    ([hgetall_complete]).

    Lists: pushes and pops at both ends of a quicklist are those of a double-ended queue for
    every fill factor and compression depth ([quicklist_deque_refines]); without
    compression any sequence of list commands over any keys answers as plain lists do
    ([list_commands_refine]), where LREM and LINSERT change the list they iterate over and
    RPOPLPUSH may push to the list it pops from.  With compression the latter does not hold:
    [lpop_of_compressed_head] shows commands after which the head is a compressed block that is
    read as a ziplist.  The loops over a list are given the number of its elements plus one as
    fuel, those over nodes the number of nodes.

    Replication: for every run of commands, connections, dumps and changes of role,
    an invariant ties the backlog and what each replica was sent to the history
    ([replication_progress]); a replica that is granted a partial resynchronization
    gets exactly what it misses, also from a promoted replica with its second ID
    ([psync_consistent]), one that waits for a dump gets what follows the dump
    ([full_resync_consistent]), and commands run in their databases
    ([replica_databases]).

    The append only file: file and buffer are the complete log while logging is on
    ([aof_log_complete]), a rewrite loses nothing ([aof_rewrite_complete]), commands
    are logged with absolute times, as a specification of its own says
    ([aof_feed_logs], [logged_as]), a flush is durable
    ([aof_flush_durable]); a log that is cut anywhere is loaded up to its last whole
    item ([aof_truncated_load]), as the checker says ([aof_check_agrees]); together:
    crash consistency ([aof_crash_consistent]).

    Bounds: overflow checks of bit fields, and the places where 32-bit sizes
    wrap ([intsetResize_wraps], [oversized_element_overflows]) or a 64-bit index is
    negated ([smallest_index_overflows]); the theorems on ziplists, hashes and lists ask for contents
    below 4 GB, as the 32-bit header of a ziplist does.

    ** What is not modelled

    The web application, which is glue over packages that are not in the
    sources; the vendored libraries; everything that is mainly a conversation
    with the operating system (event loop, sockets, files, forks, threads, the
    allocator), with other processes (the replica's side of replication, cluster,
    sentinel) or with another language (Lua scripts, modules); diagnostics and command line tools;
    floating point notation, distances and the cardinality estimator (doubles are
    compared and added as IEEE 754 does, on their bit patterns).
    Handlers of ordinary commands are represented by parameters where the parser
    and [call] run them; the handlers of hashes are given what is found at the key, those of
    lists a map of keys.  Commands that block a client are left out.
    Hash functions, random numbers and fresh memory are parameters too, and the
    theorems hold for all of them. *)

From stdpp Require Export prelude list_numbers sorting.
From Stdlib Require Export ZArith Lia.
From Stdlib Require Ascii String.

Local Open Scope Z_scope.

(** ** Machine integers *)

(** Conversion of a mathematical integer to an unsigned [w]-bit C type. *)
Definition uwrap (w z : Z) : Z := z mod 2 ^ w.

(** Conversion to a signed two's complement [w]-bit C type. *)
Definition swrap (w z : Z) : Z :=
  let u := z mod 2 ^ w in
  if u <? 2 ^ (w - 1) then u else u - 2 ^ w.

Abbreviation u8 := (uwrap 8).
Abbreviation u16 := (uwrap 16).
Abbreviation u32 := (uwrap 32).
Abbreviation u64 := (uwrap 64).
Abbreviation s8 := (swrap 8).
Abbreviation s16 := (swrap 16).
Abbreviation s32 := (swrap 32).
Abbreviation s64 := (swrap 64).

Definition INT16_MIN : Z := - 2 ^ 15.
Definition INT16_MAX : Z := 2 ^ 15 - 1.
Definition INT32_MIN : Z := - 2 ^ 31.
Definition INT32_MAX : Z := 2 ^ 31 - 1.
Definition LLONG_MIN : Z := - 2 ^ 63.
Definition LLONG_MAX : Z := 2 ^ 63 - 1.
Definition ULLONG_MAX : Z := 2 ^ 64 - 1.

(** The value lies in the signed [w]-bit range. *)
Definition in_s (w z : Z) : Prop := - 2 ^ (w - 1) <= z < 2 ^ (w - 1).

Create HintDb redis.

(** Unfold the numeric limits and the powers of two they are made of. *)
Ltac limits :=
  unfold INT16_MIN, INT16_MAX, INT32_MIN, INT32_MAX, LLONG_MIN, LLONG_MAX,
    ULLONG_MAX, in_s in *; simpl Z.sub in *;
  change (2 ^ 7) with 128 in *; change (2 ^ 8) with 256 in *;
  change (2 ^ 15) with 32768 in *; change (2 ^ 16) with 65536 in *;
  change (2 ^ 31) with 2147483648 in *; change (2 ^ 32) with 4294967296 in *;
  change (2 ^ 63) with 9223372036854775808 in *;
  change (2 ^ 64) with 18446744073709551616 in *.

(** Turn boolean comparisons in the context into propositions. *)
Ltac zbool :=
  repeat match goal with
  | H : (_ <? _) = true |- _ => apply Z.ltb_lt in H
  | H : (_ <? _) = false |- _ => apply Z.ltb_ge in H
  | H : (_ <=? _) = true |- _ => apply Z.leb_le in H
  | H : (_ <=? _) = false |- _ => apply Z.leb_gt in H
  | H : (_ =? _) = true |- _ => apply Z.eqb_eq in H
  | H : (_ =? _) = false |- _ => apply Z.eqb_neq in H
  | H : (_ >? _) = _ |- _ => rewrite Z.gtb_ltb in H
  | H : (_ >=? _) = _ |- _ => rewrite Z.geb_leb in H
  | H : _ && _ = true |- _ => apply andb_true_iff in H as [? ?]
  | H : _ || _ = false |- _ => apply orb_false_iff in H as [? ?]
  end.
Ltac zlia := zbool; lia.

Section wrap.
Implicit Types w z : Z.

Lemma uwrap_range w z : 0 <= w -> 0 <= uwrap w z < 2 ^ w.
Proof. intros. apply Z.mod_pos_bound. apply Z.pow_pos_nonneg; lia. Qed.

Lemma uwrap_small w z : 0 <= z < 2 ^ w -> uwrap w z = z.
Proof. apply Z.mod_small. Qed.

Lemma uwrap_uwrap w z : uwrap w (uwrap w z) = uwrap w z.
Proof. apply Zmod_mod. Qed.

Lemma pow2_half w : 0 < w -> 2 ^ w = 2 * 2 ^ (w - 1).
Proof. intros. replace w with (Z.succ (w - 1)) at 1 by lia. rewrite Z.pow_succ_r; lia. Qed.

Lemma swrap_range w z : 0 < w -> in_s w (swrap w z).
Proof.
  intros. unfold in_s, swrap. pose proof (uwrap_range w z) as H1.
  unfold uwrap in H1. rewrite (pow2_half w) in * by done.
  destruct (_ <? _) eqn:?; lia.
Qed.

Lemma swrap_small w z : 0 < w -> in_s w z -> swrap w z = z.
Proof.
  intros Hw Hz. unfold swrap, in_s in *.
  pose proof (pow2_half w Hw).
  destruct (decide (0 <= z)).
  - rewrite Z.mod_small by lia. destruct (_ <? _) eqn:?; lia.
  - assert (z mod 2 ^ w = z + 2 ^ w) as ->.
    { rewrite <- (Z_mod_plus_full z 1), Z.mul_1_l. apply Z.mod_small. lia. }
    destruct (_ <? _) eqn:?; lia.
Qed.

Lemma swrap_uwrap w z : swrap w (uwrap w z) = swrap w z.
Proof. unfold swrap, uwrap. by rewrite Zmod_mod. Qed.

Lemma in_s_mono w w' z : 0 < w <= w' -> in_s w z -> in_s w' z.
Proof.
  unfold in_s. intros Hw Hz.
  pose proof (Z.pow_le_mono_r 2 (w - 1) (w' - 1)). lia.
Qed.
End wrap.

(** ** Bytes and little-endian integers *)

(** A byte is an integer in [0, 256); a buffer is a list of bytes. *)
Abbreviation byte := Z.
Definition is_byte (b : byte) : Prop := 0 <= b < 256.
Abbreviation bytes_ok := (Forall is_byte).

(** The bytes of a C string literal, without the terminating NUL. *)
Definition bytes_of (s : String.string) : list byte :=
  (fun c => Z.of_nat (Ascii.nat_of_ascii c)) <$> String.list_ascii_of_string s.

Fixpoint le_bytes (n : nat) (z : Z) : list byte :=
  match n with
  | O => []
  | S n => z mod 256 :: le_bytes n (z / 256)
  end.

Fixpoint le_val (bs : list byte) : Z :=
  match bs with
  | [] => 0
  | b :: bs => b + 256 * le_val bs
  end.

Lemma le_bytes_length n z : length (le_bytes n z) = n.
Proof. revert z. induction n; intros; simpl; auto. Qed.

Lemma le_bytes_ok n z : bytes_ok (le_bytes n z).
Proof.
  revert z. induction n; intros; simpl; constructor; auto.
  apply Z.mod_pos_bound; lia.
Qed.

Lemma le_val_range bs : bytes_ok bs -> 0 <= le_val bs < 2 ^ (8 * Z.of_nat (length bs)).
Proof.
  induction 1 as [|b bs Hb Hbs IH]; simpl length; simpl le_val; [lia|].
  replace (8 * Z.of_nat (S (length bs))) with (8 + 8 * Z.of_nat (length bs)) by lia.
  rewrite Z.pow_add_r by lia. change (2 ^ 8) with 256. unfold is_byte in Hb. lia.
Qed.

Lemma le_val_bytes n z : le_val (le_bytes n z) = uwrap (8 * Z.of_nat n) z.
Proof.
  revert z. induction n as [|n IH]; intros z; simpl le_bytes; simpl le_val.
  { unfold uwrap. by rewrite Z.mod_1_r. }
  rewrite IH. unfold uwrap.
  replace (8 * Z.of_nat (S n)) with (8 + 8 * Z.of_nat n) by lia.
  rewrite Z.pow_add_r by lia. change (2 ^ 8) with 256.
  rewrite Z.rem_mul_r by lia. lia.
Qed.

Lemma le_bytes_val bs : bytes_ok bs -> le_bytes (length bs) (le_val bs) = bs.
Proof.
  induction 1 as [|b bs Hb Hbs IH]; simpl; auto. unfold is_byte in Hb.
  rewrite (Z.mul_comm 256), Z_mod_plus_full, Z.mod_small by lia.
  rewrite Z_div_plus_full, Z.div_small by lia. by rewrite Z.add_0_l, IH.
Qed.

(** Signed round trip through [n] little-endian bytes. *)
Lemma le_bytes_uwrap n z : le_bytes n (uwrap (8 * Z.of_nat n) z) = le_bytes n z.
Proof.
  rewrite <- le_val_bytes. pose proof (le_bytes_val (le_bytes n z) (le_bytes_ok n z)) as H.
  by rewrite le_bytes_length in H.
Qed.

Lemma swrap_le_val_bytes (n : nat) z :
  (0 < n)%nat -> in_s (8 * Z.of_nat n) z ->
  swrap (8 * Z.of_nat n) (le_val (le_bytes n z)) = z.
Proof. intros. rewrite le_val_bytes, swrap_uwrap. apply swrap_small; [lia|done]. Qed.

#[export] Hint Resolve le_bytes_length le_bytes_ok : redis.
#[global] Arguments le_bytes : simpl never.
#[global] Arguments le_val : simpl never.

(** A decidable statement about every integer in [0, n), for proofs by
    computation. *)
Definition all_below (n : Z) (P : Z -> bool) : bool := forallb P (seqZ 0 n).

Lemma all_below_spec n P : all_below n P = true -> forall b, 0 <= b < n -> P b = true.
Proof.
  intros H b Hb. unfold all_below in H. rewrite forallb_forall in H. apply H.
  apply list_elem_of_In, elem_of_seqZ. lia.
Qed.

Lemma decide_below n (P : Z -> Prop) `{!forall b, Decision (P b)} :
  all_below n (fun b => bool_decide (P b)) = true -> forall b, 0 <= b < n -> P b.
Proof. intros Hall b Hb. apply (bool_decide_eq_true_1 (P b)). by apply (all_below_spec n _ Hall). Qed.

(** ** Bounds-checked memory *)

(** [load m off n] are the [n] bytes at offset [off]; an access outside the
    block has no value. *)
Definition load (m : list byte) (off n : Z) : option (list byte) :=
  if (0 <=? off) && (0 <=? n) && (off + n <=? Z.of_nat (length m))
  then Some (take (Z.to_nat n) (drop (Z.to_nat off) m)) else None.

Definition store (m : list byte) (off : Z) (bs : list byte) : option (list byte) :=
  if (0 <=? off) && (off + Z.of_nat (length bs) <=? Z.of_nat (length m))
  then Some (take (Z.to_nat off) m ++ bs ++
             drop (Z.to_nat off + length bs) m) else None.

(** [m[i]] *)
Definition getb (m : list byte) (i : Z) : option byte :=
  if 0 <=? i then m !! Z.to_nat i else None.

(** A freshly allocated block: its bytes are indeterminate. *)
Definition malloc (junk : nat -> byte) (n : Z) : list byte := junk <$> seq 0 (Z.to_nat n).

(** memmove(3): the source is read before the destination is written. *)
Definition memmove (m : list byte) (dst src n : Z) : option (list byte) :=
  bs ← load m src n; store m dst bs.

(** realloc(3): the common prefix is kept, bytes beyond the old size are
    indeterminate ([junk]). *)
Definition realloc (junk : nat -> byte) (m : list byte) (n : Z) : list byte :=
  take (Z.to_nat n) m ++
  (junk <$> seq (length m) (Z.to_nat n - length m)).

Section memory.
Implicit Types m bs : list byte.

Lemma load_Some m off n :
  0 <= off -> 0 <= n -> off + n <= Z.of_nat (length m) ->
  load m off n = Some (take (Z.to_nat n) (drop (Z.to_nat off) m)).
Proof.
  intros. unfold load. by rewrite !(proj2 (Z.leb_le _ _)) by lia.
Qed.

Lemma store_Some m off bs :
  0 <= off -> off + Z.of_nat (length bs) <= Z.of_nat (length m) ->
  store m off bs =
    Some (take (Z.to_nat off) m ++ bs ++ drop (Z.to_nat off + length bs) m).
Proof.
  intros. unfold store. by rewrite !(proj2 (Z.leb_le _ _)) by lia.
Qed.

(** A store at the end of a known prefix replaces what is there. *)
Lemma store_app p q r bs off :
  off = Z.of_nat (length p) -> length q = length bs ->
  store (p ++ q ++ r) off bs = Some (p ++ bs ++ r).
Proof.
  intros -> Hq. rewrite store_Some by (rewrite ?length_app; lia).
  rewrite Nat2Z.id, take_app_length. do 3 f_equal.
  rewrite app_assoc, drop_app_length'; [done|]. rewrite length_app. lia.
Qed.

Lemma load_app p q r off n :
  off = Z.of_nat (length p) -> n = Z.of_nat (length q) ->
  load (p ++ q ++ r) off n = Some q.
Proof.
  intros -> ->. rewrite load_Some by (rewrite ?length_app; lia).
  by rewrite !Nat2Z.id, drop_app_length, take_app_length.
Qed.

Lemma getb_app p x r i : i = Z.of_nat (length p) -> getb (p ++ x :: r) i = Some x.
Proof.
  intros ->. unfold getb. rewrite (proj2 (Z.leb_le 0 _)) by lia.
  by rewrite Nat2Z.id, list_lookup_middle.
Qed.

Lemma getb_Some m i : 0 <= i -> getb m i = m !! Z.to_nat i.
Proof. intros. unfold getb. by rewrite (proj2 (Z.leb_le 0 _)). Qed.

Lemma malloc_length junk n : 0 <= n -> Z.of_nat (length (malloc junk n)) = n.
Proof. intros. unfold malloc. rewrite length_fmap, length_seq. lia. Qed.

Lemma realloc_length junk m n : 0 <= n -> Z.of_nat (length (realloc junk m n)) = n.
Proof.
  intros. unfold realloc. rewrite length_app, length_take, length_fmap, length_seq. lia.
Qed.

Lemma realloc_shrink junk m n :
  0 <= n <= Z.of_nat (length m) -> realloc junk m n = take (Z.to_nat n) m.
Proof.
  intros. unfold realloc. replace (Z.to_nat n - length m)%nat with 0%nat by lia.
  by rewrite app_nil_r.
Qed.

(** Growing a block appends indeterminate bytes. *)
Lemma realloc_grow junk m n :
  Z.of_nat (length m) <= n ->
  exists q, realloc junk m n = m ++ q /\ Z.of_nat (length q) = n - Z.of_nat (length m).
Proof.
  intros. eexists. unfold realloc. rewrite take_ge by lia. split; [done|].
  rewrite length_fmap, length_seq. lia.
Qed.
End memory.

(** Moving a tail [b] of a block so that the gap before it changes from the bytes
    [r] to [n] bytes; [j] is the spare room after the tail. *)
Lemma memmove_tail (p r b j : list byte) n dst src k :
  dst = Z.of_nat (length p) + Z.of_nat n -> src = Z.of_nat (length p + length r) ->
  k = Z.of_nat (length b) -> (n <= length r + length j)%nat ->
  exists x y, memmove (p ++ r ++ b ++ j) dst src k = Some (p ++ x ++ b ++ y) /\
    length x = n /\ (n + length y = length r + length j)%nat.
Proof.
  intros -> -> -> Hn. unfold memmove.
  assert (load (p ++ r ++ b ++ j) (Z.of_nat (length p + length r)) (Z.of_nat (length b)) = Some b) as ->.
  { rewrite app_assoc. apply load_app; [rewrite length_app; lia|done]. }
  cbn [mbind option_bind].
  rewrite store_Some by (rewrite ?length_app; lia).
  exists (take n (r ++ b ++ j)), (drop (n + length b) (r ++ b ++ j)). split_and!.
  - replace (Z.to_nat (Z.of_nat (length p) + Z.of_nat n)) with (length p + n)%nat by lia.
    rewrite take_app_add, <- app_assoc. do 3 f_equal.
    rewrite <- Nat.add_assoc, drop_app_add. done.
  - rewrite length_take, !length_app. lia.
  - rewrite length_drop, !length_app. lia.
Qed.

(** ** Bits *)

Lemma lor_shiftl a b k : 0 <= k -> 0 <= a < 2 ^ k -> Z.lor a (Z.shiftl b k) = a + b * 2 ^ k.
Proof.
  intros Hk Ha. rewrite <- Z.shiftl_mul_pow2 by done.
  assert (Z.land a (Z.shiftl b k) = 0) as Hl.
  { apply Z.bits_inj'. intros i Hi. rewrite Z.land_spec, Z.shiftl_spec, Z.bits_0 by done.
    destruct (decide (i < k)); [by rewrite (Z.testbit_neg_r b), andb_false_r by lia|].
    rewrite <- (Z.mod_small a (2 ^ k)) by done. by rewrite Z.mod_pow2_bits_high by lia. }
  rewrite Z.add_nocarry_lxor by done. by rewrite Z.lxor_lor.
Qed.

Lemma land_255 v : Z.land v 255 = v mod 256.
Proof. change 255 with (Z.ones 8). by rewrite Z.land_ones by lia. Qed.

Lemma byte_of v k : 0 <= k -> Z.land (Z.shiftr v k) 255 = v / 2 ^ k mod 256.
Proof. intros. by rewrite land_255, Z.shiftr_div_pow2. Qed.

(** ** Strictly increasing lists *)

Section increasing.
Implicit Types l : list Z.

Lemma increasing_lookup l i j x y :
  StronglySorted Z.lt l -> l !! i = Some x -> l !! j = Some y -> (i < j)%nat -> x < y.
Proof.
  intros Hs. revert i j. induction Hs as [|a l Hs IH Ha]; intros i j Hi Hj Hij; [done|].
  destruct j as [|j]; [lia|]. destruct i as [|i]; simpl in *.
  - simplify_eq. by eapply Forall_lookup_1 in Ha.
  - eapply IH; eauto. lia.
Qed.

(** Splitting an increasing list around an absent value. *)
Lemma increasing_insert l1 l2 v :
  StronglySorted Z.lt (l1 ++ l2) -> Forall (fun x => x < v) l1 -> Forall (Z.lt v) l2 ->
  StronglySorted Z.lt (l1 ++ v :: l2).
Proof.
  rewrite !StronglySorted_app, StronglySorted_cons, !Forall_forall. set_solver.
Qed.

Lemma increasing_delete l1 l2 v :
  StronglySorted Z.lt (l1 ++ v :: l2) -> StronglySorted Z.lt (l1 ++ l2) /\ v ∉ l1 ++ l2.
Proof.
  rewrite !StronglySorted_app, StronglySorted_cons, Forall_forall.
  intros (Hlr & H1 & Hv & H2). split; [set_solver|].
  intros [Hx|Hx]%elem_of_app; [specialize (Hlr v v Hx)|specialize (Hv v Hx)]; set_solver by lia.
Qed.

Lemma split_take_drop l (k : nat) v :
  (k <= length l)%nat ->
  (forall i x, l !! i = Some x -> (i < k)%nat -> x < v) ->
  (forall i x, l !! i = Some x -> (k <= i)%nat -> v < x) ->
  Forall (fun x => x < v) (take k l) /\ Forall (Z.lt v) (drop k l).
Proof.
  intros Hk Hlo Hhi. split; apply Forall_lookup_2; intros i x Hi.
  - apply lookup_take_Some in Hi as [Hi ?]. eauto.
  - rewrite lookup_drop in Hi. eapply Hhi; eauto. lia.
Qed.
End increasing.

(** ** Filters *)

Section filters.
Context {A : Type} (P : A -> Prop) `{!forall x, Decision (P x)}.

Lemma filter_none l : Forall (fun x => ~ P x) l -> filter P l = [].
Proof. induction 1; [done|]. by rewrite filter_cons_False. Qed.

Lemma filter_all l : Forall P l -> filter P l = l.
Proof. induction 1; [done|]. rewrite filter_cons_True by done. by f_equal. Qed.
End filters.
