(* ===== verification/Endian.v ===== *)
(** * Byte order conversion (src/redis-5.0.7/src/endianconv.c, endianconv.h)

    The in-place byte swaps [memrev16], [memrev32], [memrev64], their value
    variants and the [*ifbe] macros, over a host whose byte order is a class
    parameter.  [ifbe_le] is the contract the serialised containers rely on:
    whatever the host, a value passed through [memrevNifbe] is stored in
    little-endian order. *)

From S2P Require Import Prelude.
Local Open Scope Z_scope.

(** BYTE_ORDER of the compilation target: [true] is BIG_ENDIAN. *)
Class Host := big_endian : bool.

(** Object representation of an [n]-byte integer on the host. *)
Definition host_bytes `{Host} (n : nat) (v : Z) : list byte :=
  if big_endian then reverse (le_bytes n v) else le_bytes n v.

Definition host_val `{Host} (bs : list byte) : Z :=
  if big_endian then le_val (reverse bs) else le_val bs.

(** [t = x[i]; x[i] = x[j]; x[j] = t] *)
Definition swap_at (i j : nat) (x : list byte) : list byte :=
  match x !! i, x !! j with
  | Some t, Some u => <[j:=t]> (<[i:=u]> x)
  | _, _ => x
  end.

Definition memrev16 (x : list byte) : list byte := swap_at 0 1 x.

Definition memrev32 (x : list byte) : list byte := swap_at 1 2 (swap_at 0 3 x).

Definition memrev64 (x : list byte) : list byte :=
  swap_at 3 4 (swap_at 2 5 (swap_at 1 6 (swap_at 0 7 x))).

Definition intrev16 `{Host} (v : Z) : Z := host_val (memrev16 (host_bytes 2 v)).

Definition intrev32 `{Host} (v : Z) : Z := host_val (memrev32 (host_bytes 4 v)).

Definition intrev64 `{Host} (v : Z) : Z := host_val (memrev64 (host_bytes 8 v)).

Definition memrev16ifbe `{Host} (x : list byte) : list byte :=
  if big_endian then memrev16 x else x.

Definition memrev32ifbe `{Host} (x : list byte) : list byte :=
  if big_endian then memrev32 x else x.

Definition memrev64ifbe `{Host} (x : list byte) : list byte :=
  if big_endian then memrev64 x else x.

Definition intrev16ifbe `{Host} (v : Z) : Z := if big_endian then intrev16 v else v.

Definition intrev32ifbe `{Host} (v : Z) : Z := if big_endian then intrev32 v else v.

Definition intrev64ifbe `{Host} (v : Z) : Z := if big_endian then intrev64 v else v.

(** Network byte order. *)
Definition htonu64 `{Host} (v : Z) : Z := if big_endian then v else intrev64 v.

Section endian.
Context `{H : Host}.
Implicit Types x : list byte.

Lemma memrev16_reverse x r : length x = 2%nat -> memrev16 (x ++ r) = reverse x ++ r.
Proof.
  intros Hl. destruct x as [|? [|? [|]]]; try discriminate. reflexivity.
Qed.

Lemma memrev32_reverse x r : length x = 4%nat -> memrev32 (x ++ r) = reverse x ++ r.
Proof.
  intros Hl. destruct x as [|? [|? [|? [|? [|]]]]]; try discriminate. reflexivity.
Qed.

Lemma memrev64_reverse x r : length x = 8%nat -> memrev64 (x ++ r) = reverse x ++ r.
Proof.
  intros Hl. destruct x as [|? [|? [|? [|? [|? [|? [|? [|? [|]]]]]]]]]; try discriminate.
  reflexivity.
Qed.

Lemma host_bytes_length n v : length (host_bytes n v) = n.
Proof. unfold host_bytes. destruct big_endian; rewrite ?length_reverse; auto with redis. Qed.

Lemma host_val_bytes n v : host_val (host_bytes n v) = uwrap (8 * Z.of_nat n) v.
Proof.
  unfold host_val, host_bytes. destruct big_endian; rewrite ?reverse_involutive; apply le_val_bytes.
Qed.

(** The three widths of a conversion pair share one specification: [n] bytes,
    reversed exactly on a big-endian host. *)
Definition rev_ifbe (x : list byte) : list byte :=
  if big_endian then reverse x else x.

Lemma memrev16ifbe_spec x : length x = 2%nat -> memrev16ifbe x = rev_ifbe x.
Proof.
  intros. unfold memrev16ifbe, rev_ifbe. destruct big_endian; [|done].
  by rewrite <- (app_nil_r x) at 1; rewrite memrev16_reverse, app_nil_r.
Qed.

Lemma memrev32ifbe_spec x : length x = 4%nat -> memrev32ifbe x = rev_ifbe x.
Proof.
  intros. unfold memrev32ifbe, rev_ifbe. destruct big_endian; [|done].
  by rewrite <- (app_nil_r x) at 1; rewrite memrev32_reverse, app_nil_r.
Qed.

Lemma memrev64ifbe_spec x : length x = 8%nat -> memrev64ifbe x = rev_ifbe x.
Proof.
  intros. unfold memrev64ifbe, rev_ifbe. destruct big_endian; [|done].
  by rewrite <- (app_nil_r x) at 1; rewrite memrev64_reverse, app_nil_r.
Qed.

Lemma rev_ifbe_host_bytes n v : rev_ifbe (host_bytes n v) = le_bytes n v.
Proof.
  unfold rev_ifbe, host_bytes. destruct big_endian; [apply reverse_involutive|done].
Qed.

Lemma host_val_rev_ifbe x : host_val (rev_ifbe x) = le_val x.
Proof.
  unfold rev_ifbe, host_val. destruct big_endian; [by rewrite reverse_involutive|done].
Qed.

Lemma intrev32_val v : intrev32 v = host_val (reverse (host_bytes 4 v)).
Proof.
  unfold intrev32. rewrite <- (app_nil_r (host_bytes 4 v)) at 1.
  by rewrite memrev32_reverse, app_nil_r by apply host_bytes_length.
Qed.

Lemma intrev64_val v : intrev64 v = host_val (reverse (host_bytes 8 v)).
Proof.
  unfold intrev64. rewrite <- (app_nil_r (host_bytes 8 v)) at 1.
  by rewrite memrev64_reverse, app_nil_r by apply host_bytes_length.
Qed.

Lemma host_bytes_val x : bytes_ok x -> host_bytes (length x) (host_val x) = x.
Proof.
  intros Hx. unfold host_bytes, host_val. destruct big_endian.
  - rewrite <- (length_reverse x), le_bytes_val; [apply reverse_involutive|].
    by apply Forall_reverse.
  - by apply le_bytes_val.
Qed.

Lemma host_bytes_ok n v : bytes_ok (host_bytes n v).
Proof.
  unfold host_bytes. destruct big_endian; [apply Forall_reverse|]; auto with redis.
Qed.

Lemma reverse_swap_involutive n v :
  host_val (reverse (host_bytes n (host_val (reverse (host_bytes n v)))))
  = uwrap (8 * Z.of_nat n) v.
Proof.
  pose proof (host_bytes_val (reverse (host_bytes n v))) as Hb.
  rewrite length_reverse, host_bytes_length in Hb.
  rewrite Hb by (apply Forall_reverse, host_bytes_ok).
  rewrite reverse_involutive. apply host_val_bytes.
Qed.

Lemma intrev32ifbe_involutive v : 0 <= v < 2 ^ 32 -> intrev32ifbe (intrev32ifbe v) = v.
Proof.
  intros Hv. unfold intrev32ifbe. destruct big_endian eqn:E; [|done].
  rewrite !intrev32_val, reverse_swap_involutive. by apply uwrap_small.
Qed.

Lemma intrev32ifbe_range v : 0 <= v < 2 ^ 32 -> 0 <= intrev32ifbe v < 2 ^ 32.
Proof.
  intros Hv. unfold intrev32ifbe. destruct big_endian eqn:E; [|done].
  rewrite intrev32_val. unfold host_val. rewrite E, reverse_involutive.
  pose proof (le_val_range (host_bytes 4 v)) as Hr.
  rewrite host_bytes_length in Hr. apply Hr, host_bytes_ok.
Qed.
(** On either host byte order, [memrev16ifbe], [memrev32ifbe] and
    [memrev64ifbe] turn the host representation of a value into its
    little-endian bytes, and reading those bytes back through the same macro
    gives the value modulo its width. *)
Theorem ifbe_stores_little_endian v :
  (memrev16ifbe (host_bytes 2 v) = le_bytes 2 v /\
   host_val (memrev16ifbe (le_bytes 2 v)) = u16 v) /\
  (memrev32ifbe (host_bytes 4 v) = le_bytes 4 v /\
   host_val (memrev32ifbe (le_bytes 4 v)) = u32 v) /\
  (memrev64ifbe (host_bytes 8 v) = le_bytes 8 v /\
   host_val (memrev64ifbe (le_bytes 8 v)) = u64 v).
Proof.
  rewrite !memrev16ifbe_spec, !memrev32ifbe_spec, !memrev64ifbe_spec
    by (rewrite ?host_bytes_length; auto with redis).
  rewrite !rev_ifbe_host_bytes, !host_val_rev_ifbe, !le_val_bytes. auto.
Qed.
End endian.

