(* ===== verification/Intset.v ===== *)
(** * Integer sets (src/redis-5.0.7/src/intset.c, intset.h)

    The compact sorted set of integers.  The blob is modelled byte for byte:
    two 32-bit header fields kept in host order behind [intrev32ifbe] and the
    contents array, whose elements are 2, 4 or 8 bytes wide.  Every access to
    the array goes through the bounds-checked [load], [store] and [memmove] of
    the prelude, so a result [Some _] also says that no access left the block.
    [junk] stands for the indeterminate bytes realloc(3) appends. *)

From S2P Require Import Prelude Endian.
From stdpp Require Import sorting gmap.
Local Open Scope Z_scope.

(** ** Data *)

Record intset := mkIntset {
  is_encoding : Z;          (* uint32_t *)
  is_length : Z;            (* uint32_t *)
  is_contents : list byte;  (* int8_t[] *)
}.

Definition INTSET_ENC_INT16 : Z := 2.
Definition INTSET_ENC_INT32 : Z := 4.
Definition INTSET_ENC_INT64 : Z := 8.

Section intset.
Context `{Host} (junk : nat -> byte).
Implicit Types s : intset.
Implicit Types l : list Z.

(** ** Operations *)

Definition _intsetValueEncoding (v : Z) : Z :=
  if (v <? INT32_MIN) || (INT32_MAX <? v) then INTSET_ENC_INT64
  else if (v <? INT16_MIN) || (INT16_MAX <? v) then INTSET_ENC_INT32
  else INTSET_ENC_INT16.

Definition _intsetGetEncoded s (pos enc : Z) : option Z :=
  if enc =? INTSET_ENC_INT64 then
    v64 ← load (is_contents s) (8 * pos) 8;
    Some (s64 (host_val (memrev64ifbe v64)))
  else if enc =? INTSET_ENC_INT32 then
    v32 ← load (is_contents s) (4 * pos) 4;
    Some (s32 (host_val (memrev32ifbe v32)))
  else
    v16 ← load (is_contents s) (2 * pos) 2;
    Some (s16 (host_val (memrev16ifbe v16))).

Definition _intsetGet s (pos : Z) : option Z :=
  _intsetGetEncoded s pos (intrev32ifbe (is_encoding s)).

(** Assignment of [value] to element [pos] of the contents seen as an array of
    [n]-byte integers, followed by [memrev] of the element in place. *)
Definition set_slot (n : nat) (memrev : list byte -> list byte)
    (m : list byte) (pos value : Z) : option (list byte) :=
  m1 ← store m (Z.of_nat n * pos) (host_bytes n value);
  x ← load m1 (Z.of_nat n * pos) (Z.of_nat n);
  store m1 (Z.of_nat n * pos) (memrev x).

Definition _intsetSet s (pos value : Z) : option intset :=
  let encoding := intrev32ifbe (is_encoding s) in
  m ← (if encoding =? INTSET_ENC_INT64 then set_slot 8 memrev64ifbe (is_contents s) pos value
       else if encoding =? INTSET_ENC_INT32 then set_slot 4 memrev32ifbe (is_contents s) pos value
       else set_slot 2 memrev16ifbe (is_contents s) pos value);
  Some (mkIntset (is_encoding s) (is_length s) m).

Definition intsetNew : intset := mkIntset (intrev32ifbe INTSET_ENC_INT16) 0 [].

Definition intsetResize s (len : Z) : intset :=
  let size := u32 (len * intrev32ifbe (is_encoding s)) in
  mkIntset (is_encoding s) (is_length s) (realloc junk (is_contents s) size).

(** The [while(max >= min)] loop; [fuel] bounds the number of iterations and
    the loop has no result when it runs out. *)
Fixpoint intsetSearch_loop (fuel : nat) s (value min max mid cur : Z)
    : option (Z * Z * Z) :=
  if max >=? min then
    match fuel with
    | O => None
    | S fuel =>
        let mid := s32 (Z.shiftr (u32 (u32 min + u32 max)) 1) in
        cur ← _intsetGet s mid;
        if value >? cur then intsetSearch_loop fuel s value (mid + 1) max mid cur
        else if value <? cur then intsetSearch_loop fuel s value min (mid - 1) mid cur
        else Some (min, mid, cur)
    end
  else Some (min, mid, cur).

(** Returns the found flag and [*pos]. *)
Definition intsetSearch s (value : Z) : option (bool * Z) :=
  let len := intrev32ifbe (is_length s) in
  let max := s32 (u32 (len - 1)) in
  let loop :=
    r ← intsetSearch_loop (S (Z.to_nat len)) s value 0 max (-1) (-1);
    let '(min, mid, cur) := r in
    if value =? cur then Some (true, mid) else Some (false, min) in
  if len =? 0 then Some (false, 0)
  else
    last ← _intsetGet s max;
    if value >? last then Some (false, len)
    else
      first ← _intsetGet s 0;
      if value <? first then Some (false, 0) else loop.

(** [while(length--) _intsetSet(is,length+prepend,_intsetGetEncoded(is,length,curenc));] *)
Fixpoint upgrade_loop (length : nat) s (prepend curenc : Z) : option intset :=
  match length with
  | O => Some s
  | S length =>
      v ← _intsetGetEncoded s (Z.of_nat length) curenc;
      s ← _intsetSet s (Z.of_nat length + prepend) v;
      upgrade_loop length s prepend curenc
  end.

Definition intsetUpgradeAndAdd s (value : Z) : option intset :=
  let curenc := u8 (intrev32ifbe (is_encoding s)) in
  let newenc := _intsetValueEncoding value in
  let length := s32 (intrev32ifbe (is_length s)) in
  let prepend := if value <? 0 then 1 else 0 in
  let s := mkIntset (intrev32ifbe newenc) (is_length s) (is_contents s) in
  let s := intsetResize s (u32 (intrev32ifbe (is_length s) + 1)) in
  s ← upgrade_loop (Z.to_nat length) s prepend curenc;
  s ← (if prepend =? 1 then _intsetSet s 0 value
        else _intsetSet s (intrev32ifbe (is_length s)) value);
  Some (mkIntset (is_encoding s)
          (intrev32ifbe (u32 (intrev32ifbe (is_length s) + 1))) (is_contents s)).

Definition intsetMoveTail s (from to : Z) : option intset :=
  let bytes := u32 (intrev32ifbe (is_length s) - from) in
  let encoding := intrev32ifbe (is_encoding s) in
  let size := if encoding =? INTSET_ENC_INT64 then 8
              else if encoding =? INTSET_ENC_INT32 then 4 else 2 in
  m ← memmove (is_contents s) (size * to) (size * from) (u32 (bytes * size));
  Some (mkIntset (is_encoding s) (is_length s) m).

(** Returns the set and [*success]. *)
Definition intsetAdd s (value : Z) : option (intset * bool) :=
  let valenc := _intsetValueEncoding value in
  if valenc >? intrev32ifbe (is_encoding s) then
    s ← intsetUpgradeAndAdd s value; Some (s, true)
  else
    r ← intsetSearch s value;
    let '(found, pos) := r in
    if (found : bool) then Some (s, false)
    else
      let s := intsetResize s (u32 (intrev32ifbe (is_length s) + 1)) in
      s ← (if pos <? intrev32ifbe (is_length s)
            then intsetMoveTail s pos (u32 (pos + 1)) else Some s);
      s ← _intsetSet s pos value;
      Some (mkIntset (is_encoding s)
              (intrev32ifbe (u32 (intrev32ifbe (is_length s) + 1))) (is_contents s), true).

Definition intsetRemove s (value : Z) : option (intset * bool) :=
  let valenc := _intsetValueEncoding value in
  if valenc <=? intrev32ifbe (is_encoding s) then
    r ← intsetSearch s value;
    let '(found, pos) := r in
    if (found : bool) then
      let len := intrev32ifbe (is_length s) in
      s ← (if pos <? u32 (len - 1) then intsetMoveTail s (u32 (pos + 1)) pos else Some s);
      let s := intsetResize s (u32 (len - 1)) in
      Some (mkIntset (is_encoding s) (intrev32ifbe (u32 (len - 1))) (is_contents s), true)
    else Some (s, false)
  else Some (s, false).

Definition intsetFind s (value : Z) : option bool :=
  let valenc := _intsetValueEncoding value in
  if valenc <=? intrev32ifbe (is_encoding s) then
    r ← intsetSearch s value; Some (r.1)
  else Some false.

Definition intsetGet s (pos : Z) : option (option Z) :=
  if pos <? intrev32ifbe (is_length s) then v ← _intsetGet s pos; Some (Some v)
  else Some None.

(** [rand] is the value rand(3) returns. *)
Definition intsetRandom s (rand : Z) : option Z :=
  _intsetGet s (s32 (rand mod intrev32ifbe (is_length s))).

Definition intsetLen s : Z := intrev32ifbe (is_length s).

Definition intsetBlobLen s : Z :=
  8 + u32 (intrev32ifbe (is_length s) * intrev32ifbe (is_encoding s)).


(** ** Representation *)

(** The elements of [l] as consecutive [n]-byte little-endian integers. *)
Definition flat (n : nat) (l : list Z) : list byte := l ≫= le_bytes n.

Definition width_ok (n : nat) : Prop := n = 2%nat \/ n = 4%nat \/ n = 8%nat.

(** [s] stores exactly the integers [l], each on [n] bytes. *)
Record repr s (n : nat) (l : list Z) : Prop := {
  repr_width : width_ok n;
  repr_enc : intrev32ifbe (is_encoding s) = Z.of_nat n;
  repr_len : intrev32ifbe (is_length s) = Z.of_nat (length l);
  repr_contents : is_contents s = flat n l;
  repr_range : Forall (in_s (8 * Z.of_nat n)) l;
}.

Lemma flat_app n l1 l2 : flat n (l1 ++ l2) = flat n l1 ++ flat n l2.
Proof. apply bind_app. Qed.

Lemma flat_cons n x l : flat n (x :: l) = le_bytes n x ++ flat n l.
Proof. done. Qed.

Lemma flat_length n l : length (flat n l) = (n * length l)%nat.
Proof.
  induction l as [|x l IH]; [simpl; lia|].
  rewrite flat_cons, length_app, le_bytes_length, IH. simpl. lia.
Qed.

(** The three branches of the accessors are one operation on [n] bytes. *)
Lemma get_encoded_at s (n : nat) pos p r x :
  width_ok n -> in_s (8 * Z.of_nat n) x ->
  is_contents s = p ++ le_bytes n x ++ r ->
  Z.of_nat (length p) = Z.of_nat n * pos ->
  _intsetGetEncoded s pos (Z.of_nat n) = Some x.
Proof.
  intros Hn Hx Hc Hp. unfold _intsetGetEncoded. rewrite Hc.
  pose proof (le_bytes_length n x) as Hl.
  assert (swrap (8 * Z.of_nat n) (le_val (le_bytes n x)) = x) as Hv
    by (destruct Hn as [-> | [-> | ->]]; by apply swrap_le_val_bytes; [lia|]).
  generalize dependent (le_bytes n x). intros q Hq Hl Hv.
  destruct Hn as [-> | [-> | ->]]; simpl;
    rewrite load_app by lia; simpl; f_equal;
    rewrite ?memrev16ifbe_spec, ?memrev32ifbe_spec, ?memrev64ifbe_spec by done;
    by rewrite host_val_rev_ifbe.
Qed.

Lemma set_slot_at n memrev p q r pos v :
  (forall x, length x = n -> memrev x = rev_ifbe x) ->
  Z.of_nat (length p) = Z.of_nat n * pos -> length q = n ->
  set_slot n memrev (p ++ q ++ r) pos v = Some (p ++ le_bytes n v ++ r).
Proof.
  intros Hrev Hp Hq. unfold set_slot. pose proof (host_bytes_length n v) as Hh.
  rewrite (store_app p q r) by lia. simpl.
  rewrite load_app by lia. simpl.
  rewrite Hrev by done. rewrite rev_ifbe_host_bytes.
  apply store_app; [lia|]. by rewrite le_bytes_length.
Qed.

Lemma intsetSet_at s (n : nat) p q r pos v :
  width_ok n -> intrev32ifbe (is_encoding s) = Z.of_nat n ->
  is_contents s = p ++ q ++ r ->
  Z.of_nat (length p) = Z.of_nat n * pos -> length q = n ->
  _intsetSet s pos v =
    Some (mkIntset (is_encoding s) (is_length s) (p ++ le_bytes n v ++ r)).
Proof.
  intros Hn He Hc Hp Hq. unfold _intsetSet. rewrite He, Hc.
  destruct Hn as [-> | [-> | ->]]; simpl;
    erewrite set_slot_at;
    eauto using memrev16ifbe_spec, memrev32ifbe_spec, memrev64ifbe_spec.
Qed.

Lemma get_repr s n l i x :
  repr s n l -> l !! i = Some x -> _intsetGet s (Z.of_nat i) = Some x.
Proof.
  intros [Hn He Hl Hc Hr] Hi. unfold _intsetGet. rewrite He.
  pose proof (Forall_lookup_1 _ _ _ _ Hr Hi) as Hx.
  apply take_drop_middle in Hi as Hsp. rewrite <- Hsp, flat_app, flat_cons in Hc.
  eapply get_encoded_at; eauto.
  apply lookup_lt_Some in Hi. rewrite flat_length, length_take. lia.
Qed.

(** ** Binary search *)

(** Position [k] separates the elements below [v] from those above it. *)
Definition below l (k v : Z) : Prop :=
  forall i x, l !! i = Some x -> Z.of_nat i < k -> x < v.
Definition above l (k v : Z) : Prop :=
  forall i x, l !! i = Some x -> k <= Z.of_nat i -> v < x.

Lemma midpoint_between min max :
  0 <= min <= max -> max < 2 ^ 31 ->
  min <= s32 (Z.shiftr (u32 (u32 min + u32 max)) 1) <= max.
Proof.
  intros Hm Hx. limits. rewrite (uwrap_small 32 min), (uwrap_small 32 max) by (limits; lia).
  rewrite uwrap_small by (limits; lia). rewrite Z.shiftr_div_pow2 by lia. change (2 ^ 1) with 2.
  pose proof (Z.div_mod (min + max) 2 ltac:(lia)). pose proof (Z.mod_pos_bound (min + max) 2).
  rewrite swrap_small; limits; lia.
Qed.

Lemma search_loop_spec s n l v : repr s n l -> StronglySorted Z.lt l ->
  Z.of_nat (length l) < 2 ^ 31 ->
  forall fuel min max mid cur,
  0 <= min <= max + 1 -> max < Z.of_nat (length l) -> max - min + 1 <= Z.of_nat fuel ->
  below l min v -> above l (max + 1) v -> (max < min -> cur <> v) ->
  exists min' mid' cur', intsetSearch_loop fuel s v min max mid cur = Some (min', mid', cur') /\
    (cur' = v /\ 0 <= mid' /\ l !! Z.to_nat mid' = Some v \/
     cur' <> v /\ 0 <= min' <= Z.of_nat (length l) /\ below l min' v /\ above l min' v).
Proof.
  intros Hrep Hs Hlen. induction fuel as [|fuel IH]; intros min max mid cur Hm Hmax Hf Hb Ha Hc; simpl.
  all: destruct (max >=? min) eqn:Hcmp; [|exists min, mid, cur; split; [done|]; right;
    split_and!; try lia; [done | intros i x Hi ?; eapply Ha; eauto; lia]].
  { lia. }
  pose proof (midpoint_between min max ltac:(lia) ltac:(lia)) as Hmid.
  set (m := s32 _) in *.
  destruct (lookup_lt_is_Some_2 l (Z.to_nat m)) as [x Hx]; [lia|].
  pose proof (get_repr _ _ _ _ _ Hrep Hx) as Hget. rewrite Z2Nat.id in Hget by lia.
  rewrite Hget; simpl.
  destruct (v >? x) eqn:Hgt; [|destruct (v <? x) eqn:Hlt].
  - apply IH; try lia; try done. intros i y Hi ?.
    destruct (decide (i = Z.to_nat m)) as [-> |]; [simplify_eq; lia|].
    pose proof (increasing_lookup l i (Z.to_nat m) y x Hs Hi Hx). lia.
  - apply IH; try lia; try done. intros i y Hi ?.
    destruct (decide (i = Z.to_nat m)) as [-> |]; [simplify_eq; lia|].
    pose proof (increasing_lookup l (Z.to_nat m) i x y Hs Hx Hi). lia.
  - exists min, m, x. split; [done|]. left. split_and!; [lia|lia|]. rewrite Hx. f_equal. lia.
Qed.

Lemma split_at_pos l k v :
  0 <= k <= Z.of_nat (length l) -> below l k v -> above l k v ->
  exists l1 l2, l = l1 ++ l2 /\ k = Z.of_nat (length l1) /\
    Forall (fun x => x < v) l1 /\ Forall (Z.lt v) l2.
Proof.
  intros Hk Hb Ha. exists (take (Z.to_nat k) l), (drop (Z.to_nat k) l).
  rewrite take_drop, length_take. split_and!; [done|lia|..];
    apply split_take_drop; try lia; intros; [eapply Hb|eapply Ha|eapply Hb|eapply Ha]; eauto; lia.
Qed.

(** The two outcomes of a search. *)
Definition search_result l v (found : bool) (pos : Z) : Prop :=
  exists l1 l2, pos = Z.of_nat (length l1) /\
  if found then l = l1 ++ v :: l2
  else l = l1 ++ l2 /\ Forall (fun x => x < v) l1 /\ Forall (Z.lt v) l2.

Lemma not_found_at l v k :
  0 <= k <= Z.of_nat (length l) -> below l k v -> above l k v -> search_result l v false k.
Proof.
  intros Hk Hb Ha. destruct (split_at_pos l k v Hk Hb Ha) as (l1 & l2 & -> & -> & ?).
  exists l1, l2. auto.
Qed.

Lemma intsetSearch_spec s n l v : repr s n l -> StronglySorted Z.lt l ->
  Z.of_nat (length l) < 2 ^ 31 ->
  exists found pos, intsetSearch s v = Some (found, pos) /\ search_result l v found pos.
Proof.
  intros Hrep Hs Hlen. unfold intsetSearch. rewrite (repr_len _ _ _ Hrep).
  destruct (Z.of_nat (length l) =? 0) eqn:E0.
  { exists false, 0. split; [done|]. apply not_found_at; [lia|..]; intros i x Hi;
      apply lookup_lt_Some in Hi; lia. }
  rewrite (uwrap_small 32), swrap_small by (limits; lia).
  destruct (lookup_lt_is_Some_2 l (length l - 1)) as [last Hlast]; [lia|].
  pose proof (get_repr _ _ _ _ _ Hrep Hlast) as Hg.
  replace (Z.of_nat (length l - 1)) with (Z.of_nat (length l) - 1) in Hg by lia.
  rewrite Hg; cbn [mbind option_bind].
  destruct (v >? last) eqn:Egt.
  { eexists _, _. split; [done|]. apply not_found_at; [lia|..]; intros i x Hi Hk;
      pose proof (lookup_lt_Some _ _ _ Hi); [|lia].
    destruct (decide (i = length l - 1)%nat) as [-> |]; [simplify_eq; lia|].
    pose proof (increasing_lookup l _ _ _ _ Hs Hi Hlast). lia. }
  destruct (lookup_lt_is_Some_2 l 0) as [first Hfirst]; [lia|].
  rewrite (get_repr _ _ _ _ _ Hrep Hfirst : _intsetGet s 0 = _); cbn [mbind option_bind].
  destruct (v <? first) eqn:Elt.
  { eexists _, _. split; [done|]. apply not_found_at; [lia|..]; intros i x Hi Hk; [lia|].
    destruct (decide (i = 0%nat)) as [-> |]; [simplify_eq; lia|].
    pose proof (increasing_lookup l _ _ _ _ Hs Hfirst Hi). lia. }
  destruct (search_loop_spec s n l v Hrep Hs Hlen (S (Z.to_nat (Z.of_nat (length l))))
    0 (Z.of_nat (length l) - 1) (-1) (-1)) as (min' & mid' & cur' & -> & Hres); try lia.
  { intros i x Hi; lia. }
  { intros i x Hi; apply lookup_lt_Some in Hi; lia. }
  cbn [mbind option_bind]. destruct Hres as [(-> & Hm & Hi)|(Hne & Hm & Hb & Ha)].
  - rewrite Z.eqb_refl. eexists _, _. split; [done|].
    apply take_drop_middle in Hi as Hsp. eexists _, _. split; [|by rewrite Hsp].
    apply lookup_lt_Some in Hi. rewrite length_take. lia.
  - destruct (v =? cur') eqn:?; [lia|]. eexists _, _. split; [done|]. by apply not_found_at.
Qed.

(** ** Encodings *)

Lemma value_encoding_spec v : in_s 64 v ->
  exists m, width_ok m /\ _intsetValueEncoding v = Z.of_nat m /\ in_s (8 * Z.of_nat m) v /\
    forall n, width_ok n -> (n < m)%nat -> ~ in_s (8 * Z.of_nat n) v.
Proof.
  intros Hv. unfold _intsetValueEncoding, INTSET_ENC_INT16, INTSET_ENC_INT32, INTSET_ENC_INT64.
  destruct ((v <? INT32_MIN) || (INT32_MAX <? v)) eqn:E32;
    [exists 8%nat|destruct ((v <? INT16_MIN) || (INT16_MAX <? v)) eqn:E16;
      [exists 4%nat|exists 2%nat]];
    unfold width_ok; (split_and!; [lia|done|limits; lia|]);
    intros n [-> | [-> | ->]] Hlt; limits; lia.
Qed.

(** A value that needs a wider encoding lies outside the range of all the
    stored ones, on the side its sign says. *)
Lemma upgrade_outside n v l : width_ok n -> ~ in_s (8 * Z.of_nat n) v ->
  Forall (in_s (8 * Z.of_nat n)) l ->
  if v <? 0 then Forall (Z.lt v) l else Forall (fun x => x < v) l.
Proof.
  intros Hn Hv Hl. destruct (v <? 0) eqn:E; eapply Forall_impl; try exact Hl; intros x Hx; simpl in *;
    destruct Hn as [-> | [-> | ->]]; limits; lia.
Qed.

(** ** Upgrade *)

Lemma upgrade_loop_spec (cur new : nat) p : width_ok cur -> width_ok new -> (cur < new)%nat ->
  0 <= p <= 1 -> forall l s A B rest,
  intrev32ifbe (is_encoding s) = Z.of_nat new -> Forall (in_s (8 * Z.of_nat cur)) l ->
  is_contents s = A ++ B -> A = flat cur l ++ rest ->
  Z.of_nat (length A) = (Z.of_nat (length l) + p) * Z.of_nat new ->
  exists A', Z.of_nat (length A') = p * Z.of_nat new /\
  upgrade_loop (length l) s p (Z.of_nat cur) =
    Some (mkIntset (is_encoding s) (is_length s) (A' ++ flat new l ++ B)).
Proof.
  intros Hc Hn Hlt Hp. induction l as [|x l IH] using rev_ind; intros s A B rest He Hr HA Hrest HlA.
  { exists A. split; [simpl in *; lia|]. destruct s; simpl in *. by subst. }
  rewrite length_app, Nat.add_comm. cbn [length Nat.add upgrade_loop].
  apply Forall_app in Hr as [Hr [Hx _]%Forall_cons].
  rewrite flat_app, flat_cons, app_nil_r, <- !app_assoc in Hrest.
  pose proof (flat_length cur l) as Hfl. rewrite length_app in HlA. simpl in HlA.
  assert (is_contents s = flat cur l ++ le_bytes cur x ++ (rest ++ B)) as Hget
    by (by rewrite HA, Hrest, <- !app_assoc).
  rewrite (get_encoded_at s cur _ _ _ _ Hc Hx Hget) by (rewrite Hfl; lia).
  cbn [mbind option_bind].
  set (k := ((length l + Z.to_nat p) * new)%nat).
  rewrite <- (take_drop k A), <- app_assoc in HA.
  assert (length (take k A) = k /\ length (drop k A) = new) as [Hk1 Hk2].
  { rewrite length_take, length_drop. subst k. lia. }
  rewrite (intsetSet_at s new _ _ _ _ _ Hn He HA) by (rewrite ?Hk1; subst k; lia).
  cbn [mbind option_bind].
  edestruct (IH (mkIntset (is_encoding s) (is_length s) (take k A ++ le_bytes new x ++ B))
    (take k A) (le_bytes new x ++ B)) as (A' & HA' & ->); try done.
  - rewrite Hrest, take_app_ge; [reflexivity|]. rewrite flat_length. subst k.
    nia.
  - rewrite Hk1. subst k. lia.
  - exists A'. split; [done|]. simpl. by rewrite flat_app, flat_cons, app_nil_r, <- !app_assoc.
Qed.

(** Resizing to [k] elements of the current width, below the 32-bit limit of
    the size computation. *)
Lemma resize_contents s (n k : nat) :
  width_ok n -> intrev32ifbe (is_encoding s) = Z.of_nat n -> Z.of_nat k < 2 ^ 29 ->
  intsetResize s (u32 (Z.of_nat k)) =
    mkIntset (is_encoding s) (is_length s)
      (realloc junk (is_contents s) (Z.of_nat k * Z.of_nat n)).
Proof.
  intros Hn He Hk. unfold intsetResize. rewrite He.
  rewrite (uwrap_small 32 (Z.of_nat k)) by lia.
  rewrite uwrap_small; [done|]. destruct Hn as [-> | [-> | ->]]; lia.
Qed.

Lemma len_succ s (k : nat) : Z.of_nat (S k) < 2 ^ 32 ->
  intrev32ifbe (is_length s) = Z.of_nat k ->
  intrev32ifbe (intrev32ifbe (u32 (intrev32ifbe (is_length s) + 1))) = Z.of_nat (S k).
Proof.
  intros Hk ->. rewrite intrev32ifbe_involutive by (apply uwrap_range; lia).
  rewrite uwrap_small; lia.
Qed.

Lemma width_enc n : width_ok n -> intrev32ifbe (intrev32ifbe (Z.of_nat n)) = Z.of_nat n.
Proof. intros Hn. apply intrev32ifbe_involutive. destruct Hn as [-> | [-> | ->]]; lia. Qed.

Lemma upgrade_spec s n m l v :
  repr s n l -> width_ok m -> (n < m)%nat -> _intsetValueEncoding v = Z.of_nat m ->
  in_s (8 * Z.of_nat m) v -> Z.of_nat (length l) + 1 < 2 ^ 29 ->
  exists s', intsetUpgradeAndAdd s v = Some s' /\
    repr s' m (if v <? 0 then v :: l else l ++ [v]).
Proof.
  intros [Hn He Hl Hc Hr] Hm Hnm Hv Hin Hlen. unfold intsetUpgradeAndAdd. rewrite Hv, He, Hl.
  set (s1 := mkIntset (intrev32ifbe (Z.of_nat m)) (is_length s) (is_contents s)).
  replace (Z.of_nat (length l) + 1) with (Z.of_nat (S (length l))) by lia.
  assert (intrev32ifbe (is_encoding s1) = Z.of_nat m) as He1 by (by apply width_enc).
  replace (intrev32ifbe (is_length s1)) with (Z.of_nat (length l)) by (subst s1; simpl; congruence).
  replace (Z.of_nat (length l) + 1) with (Z.of_nat (S (length l))) by lia.
  rewrite (resize_contents s1 m) by (done || lia).
  replace (u8 (Z.of_nat n)) with (Z.of_nat n) by (destruct Hn as [-> | [-> | ->]]; done).
  rewrite (swrap_small 32) by (limits; lia). rewrite Nat2Z.id.
  pose proof (flat_length n l) as Hfl.
  destruct (realloc_grow junk (is_contents s1) (Z.of_nat (S (length l)) * Z.of_nat m)) as (q & Hq & Hlq).
  { subst s1; simpl. rewrite Hc, Hfl. nia. }
  rewrite Hq. set (s2 := mkIntset _ _ _). set (p := if v <? 0 then 1 else 0).
  assert (0 <= p <= 1) as Hp by (subst p; destruct (v <? 0); lia).
  set (k := ((length l + Z.to_nat p) * m)%nat).
  set (C := flat n l ++ q). assert (is_contents s2 = C) as HC by (subst s2 C s1; simpl; by rewrite Hc).
  assert (length C = (S (length l) * m)%nat) as HlC
    by (subst C s1; simpl in Hlq; rewrite Hc in Hlq; rewrite length_app; lia).
  edestruct (upgrade_loop_spec n m p Hn Hm Hnm Hp l s2 (take k C) (drop k C)) as (A' & HA' & Hloop);
    [exact He1|done|by rewrite take_drop| | |].
  { subst C. apply take_app_ge. rewrite Hfl. subst k. nia. }
  { rewrite length_take, HlC. subst k. nia. }
  rewrite Hloop. cbn [mbind option_bind].
  assert (intrev32ifbe (intrev32ifbe (u32 (intrev32ifbe (is_length s2) + 1)))
          = Z.of_nat (S (length l))) as Hsucc by (apply len_succ; [lia|done]).
  assert (Forall (in_s (8 * Z.of_nat m)) l) as Hr'.
  { eapply Forall_impl; [exact Hr|]. intros x. apply in_s_mono.
    destruct Hn as [-> | [-> | ->]]; lia. }
  subst p. destruct (v <? 0); cbn [Z.eqb] in *.
  - rewrite (intsetSet_at _ m [] A' (flat m l ++ drop k C)) by (done || simpl; lia).
    eexists. split; [reflexivity|]. split; cbn [is_encoding is_length is_contents]; auto.
    rewrite drop_ge, app_nil_r; [done|]. rewrite HlC. subst k. lia.
  - destruct A'; [|simpl in HA'; lia].
    rewrite (intsetSet_at _ m (flat m l) (drop k C) []).
    2-3: done. 2: cbn [is_contents]; by rewrite app_nil_r.
    2: cbn [is_length]; rewrite flat_length; replace (intrev32ifbe (is_length s2)) with
         (Z.of_nat (length l)) by (symmetry; exact Hl); lia.
    2: rewrite length_drop, HlC; subst k; lia.
    eexists. split; [reflexivity|]. split; cbn [is_encoding is_length is_contents]; auto.
    + rewrite length_app, Nat.add_1_r. exact Hsucc.
    + by rewrite flat_app, flat_cons.
    + apply Forall_app. auto.
Qed.

(** ** Moving the tail *)

Lemma intsetMoveTail_spec s (n : nat) from to k :
  width_ok n -> intrev32ifbe (is_encoding s) = Z.of_nat n ->
  intrev32ifbe (is_length s) - from = k -> 0 <= k < 2 ^ 29 ->
  intsetMoveTail s from to =
    m ← memmove (is_contents s) (Z.of_nat n * to) (Z.of_nat n * from) (Z.of_nat n * k);
    Some (mkIntset (is_encoding s) (is_length s) m).
Proof.
  intros Hn He <- Hk. unfold intsetMoveTail. rewrite He.
  set (k := intrev32ifbe (is_length s) - from) in *.
  rewrite (uwrap_small 32 k) by lia.
  assert (u32 (k * Z.of_nat n) = Z.of_nat n * k) as Hu
    by (rewrite uwrap_small; [lia|]; destruct Hn as [-> | [-> | ->]]; lia).
  assert ((if Z.of_nat n =? INTSET_ENC_INT64 then 8
           else if Z.of_nat n =? INTSET_ENC_INT32 then 4 else 2) = Z.of_nat n) as ->
    by (by destruct Hn as [-> | [-> | ->]]).
  by rewrite Hu.
Qed.

(** Shifting a block right by [|X|] bytes over indeterminate space. *)
Lemma memmove_right (p t q : list byte) dst src k :
  src = Z.of_nat (length p) -> k = Z.of_nat (length t) ->
  dst = Z.of_nat (length p + length q) ->
  exists x, length x = length q /\ memmove (p ++ t ++ q) dst src k = Some (p ++ x ++ t).
Proof.
  intros -> -> ->. exists (take (length q) (t ++ q)). split.
  { rewrite length_take, length_app. lia. }
  unfold memmove. rewrite load_app by done. cbn [mbind option_bind].
  rewrite <- (take_drop (length q) (t ++ q)) at 1.
  rewrite app_assoc, <- (app_nil_r (drop _ _)), (store_app _ _ []).
  - by rewrite app_nil_r, <- app_assoc.
  - rewrite !length_app, length_take, length_app. lia.
  - rewrite length_drop, length_app. lia.
Qed.

(** Shifting a block left over [x]. *)
Lemma memmove_left (p x t : list byte) dst src k :
  src = Z.of_nat (length p + length x) -> k = Z.of_nat (length t) ->
  dst = Z.of_nat (length p) ->
  exists y, memmove (p ++ x ++ t) dst src k = Some (p ++ t ++ y).
Proof.
  intros -> -> ->. exists (drop (length t) (x ++ t)). unfold memmove.
  replace (p ++ x ++ t) with ((p ++ x) ++ t ++ []) at 1 by (by rewrite app_nil_r, <- app_assoc).
  rewrite load_app by (rewrite ?length_app; lia). cbn [mbind option_bind].
  rewrite <- (take_drop (length t) (x ++ t)) at 1.
  apply store_app; [done|]. rewrite length_take, length_app. lia.
Qed.

(** ** Specifications over lists *)

Lemma intsetAdd_new s n l1 l2 v :
  repr s n (l1 ++ l2) -> in_s (8 * Z.of_nat n) v -> Z.of_nat (length (l1 ++ l2)) + 1 < 2 ^ 29 ->
  let s1 := intsetResize s (u32 (intrev32ifbe (is_length s) + 1)) in
  exists s', (s2 ← (if Z.of_nat (length l1) <? intrev32ifbe (is_length s1)
                   then intsetMoveTail s1 (Z.of_nat (length l1)) (u32 (Z.of_nat (length l1) + 1))
                   else Some s1);
              s3 ← _intsetSet s2 (Z.of_nat (length l1)) v;
              Some (mkIntset (is_encoding s3)
                (intrev32ifbe (u32 (intrev32ifbe (is_length s3) + 1))) (is_contents s3), true))
             = Some (s', true) /\ repr s' n (l1 ++ v :: l2).
Proof.
  intros [Hn He Hl Hc Hr] Hv Hlen. rewrite length_app in *. rewrite Hl.
  replace (Z.of_nat (length l1 + length l2) + 1) with (Z.of_nat (S (length l1 + length l2))) by lia.
  rewrite (resize_contents s n) by (done || lia). cbn zeta.
  pose proof (flat_length n l1) as Hf1. pose proof (flat_length n l2) as Hf2.
  destruct (realloc_grow junk (is_contents s)
    (Z.of_nat (S (length l1 + length l2)) * Z.of_nat n)) as (q & Hq & Hlq).
  { rewrite Hc, flat_length, length_app. nia. }
  rewrite Hc, flat_length, length_app in Hlq. assert (length q = n) as Hlq' by lia.
  rewrite Hq, Hc, flat_app, <- app_assoc.
  set (s1 := mkIntset _ _ _). cbn [is_length].
  assert (exists x, length x = n /\
    (if Z.of_nat (length l1) <? Z.of_nat (length l1 + length l2)
     then intsetMoveTail s1 (Z.of_nat (length l1)) (u32 (Z.of_nat (length l1) + 1)) else Some s1)
    = Some (mkIntset (is_encoding s) (is_length s) (flat n l1 ++ x ++ flat n l2))) as (x & Hx & Hmv).
  { destruct (_ <? _) eqn:E.
    - rewrite (intsetMoveTail_spec s1 n _ _ (Z.of_nat (length l2))) by (done || simpl; lia).
      rewrite (uwrap_small 32) by lia.
      destruct (memmove_right (flat n l1) (flat n l2) q (Z.of_nat n * (Z.of_nat (length l1) + 1))
        (Z.of_nat n * Z.of_nat (length l1)) (Z.of_nat n * Z.of_nat (length l2)))
        as (x & Hx & Hmm); [lia..|].
      exists x. split; [lia|]. subst s1. cbn [is_contents]. by rewrite Hmm.
    - assert (l2 = []) as -> by (apply nil_length_inv; zlia). exists q. split; [done|]. subst s1. simpl. by rewrite app_nil_r. }
  replace (intrev32ifbe (is_length s1)) with (Z.of_nat (length l1 + length l2)) by (by symmetry).
  rewrite Hmv. cbn [mbind option_bind].
  rewrite (intsetSet_at _ n (flat n l1) x (flat n l2)) by (done || lia).
  eexists. split; [reflexivity|]. split; cbn [is_encoding is_length is_contents]; auto.
  - rewrite (len_succ s (length l1 + length l2)) by lia. rewrite length_app. simpl. lia.
  - by rewrite flat_app, flat_cons.
  - apply Forall_app in Hr as [??]. apply Forall_app. auto.
Qed.

Lemma intsetRemove_present s n l1 l2 v :
  repr s n (l1 ++ v :: l2) -> Z.of_nat (length (l1 ++ v :: l2)) < 2 ^ 29 ->
  let len := intrev32ifbe (is_length s) in
  exists s', (s2 ← (if Z.of_nat (length l1) <? u32 (len - 1)
                   then intsetMoveTail s (u32 (Z.of_nat (length l1) + 1)) (Z.of_nat (length l1))
                   else Some s);
              let s3 := intsetResize s2 (u32 (len - 1)) in
              Some (mkIntset (is_encoding s3) (intrev32ifbe (u32 (len - 1))) (is_contents s3), true))
             = Some (s', true) /\ repr s' n (l1 ++ l2).
Proof.
  intros [Hn He Hl Hc Hr] Hlen. rewrite length_app in *. simpl in Hlen, Hl. cbn zeta. rewrite Hl.
  replace (Z.of_nat (length l1 + S (length l2)) - 1) with (Z.of_nat (length l1 + length l2)) by lia.
  rewrite (uwrap_small 32 (Z.of_nat _ + 1)) by lia.
  rewrite flat_app, flat_cons in Hc.
  pose proof (flat_length n l1) as Hf1. pose proof (flat_length n l2) as Hf2.
  pose proof (le_bytes_length n v) as Hf3.
  assert (exists y,
    (if Z.of_nat (length l1) <? u32 (Z.of_nat (length l1 + length l2))
     then intsetMoveTail s (Z.of_nat (length l1) + 1) (Z.of_nat (length l1)) else Some s)
    = Some (mkIntset (is_encoding s) (is_length s) (flat n l1 ++ flat n l2 ++ y))) as (y & Hmv).
  { rewrite (uwrap_small 32) by lia. destruct (_ <? _) eqn:E.
    - rewrite (intsetMoveTail_spec s n _ _ (Z.of_nat (length l2))) by (done || lia).
      destruct (memmove_left (flat n l1) (le_bytes n v) (flat n l2) (Z.of_nat n * Z.of_nat (length l1))
        (Z.of_nat n * (Z.of_nat (length l1) + 1)) (Z.of_nat n * Z.of_nat (length l2)))
        as (y & Hmm); [lia..|].
      exists y. rewrite Hc. by rewrite Hmm.
    - assert (l2 = []) as -> by (apply nil_length_inv; zlia). exists (le_bytes n v). destruct s; simpl in *. subst.
      by rewrite app_nil_r. }
  rewrite Hmv. cbn [mbind option_bind].
  rewrite (resize_contents _ n) by (done || lia).
  eexists. split; [reflexivity|]. split; cbn [is_encoding is_length is_contents]; auto.
  - rewrite intrev32ifbe_involutive by (apply uwrap_range; lia).
    rewrite uwrap_small, length_app by lia. done.
  - rewrite realloc_shrink by (rewrite !length_app; lia).
    rewrite app_assoc, take_app_length'; [by rewrite flat_app|]. rewrite length_app. lia.
  - apply Forall_app in Hr as [? [??]%Forall_cons]. apply Forall_app. auto.
Qed.

(** ** Refinement of finite sets of integers *)

(** [s] is a well-formed intset that holds the set [X]. *)
Definition models s (X : gset Z) : Prop :=
  exists n l, repr s n l /\ StronglySorted Z.lt l /\ X = list_to_set l.

Lemma increasing_NoDup l : StronglySorted Z.lt l -> NoDup l.
Proof.
  induction 1 as [|x l Hs IH Hx]; constructor; [|done].
  intros Hin. rewrite Forall_forall in Hx. specialize (Hx x Hin). lia.
Qed.

Lemma models_length s n l (X : gset Z) :
  repr s n l -> StronglySorted Z.lt l -> X = list_to_set l -> size X = length l.
Proof. intros ? ? ->. apply size_list_to_set. by apply increasing_NoDup. Qed.

Lemma models_insert s n l1 l2 v :
  repr s n (l1 ++ v :: l2) -> StronglySorted Z.lt (l1 ++ l2) ->
  Forall (fun x => x < v) l1 -> Forall (Z.lt v) l2 ->
  models s ({[v]} ∪ list_to_set (l1 ++ l2)).
Proof.
  intros Hr Hs H1 H2. exists n, (l1 ++ v :: l2). split_and!; [done|by apply increasing_insert|].
  rewrite !list_to_set_app_L. simpl. set_solver.
Qed.

Lemma not_between l1 l2 v :
  Forall (fun x => x < v) l1 -> Forall (Z.lt v) l2 -> v ∉ l1 ++ l2.
Proof.
  rewrite !Forall_forall. intros H1 H2 [Hx|Hx]%elem_of_app; [specialize (H1 _ Hx)|specialize (H2 _ Hx)]; lia.
Qed.

Lemma search_result_elem l v found pos :
  search_result l v found pos -> StronglySorted Z.lt l -> found = bool_decide (v ∈ l).
Proof.
  intros (l1 & l2 & _ & Hres) Hs. destruct found.
  - subst. symmetry. apply bool_decide_eq_true_2. set_solver.
  - destruct Hres as (-> & H1 & H2). symmetry. by apply bool_decide_eq_false_2, not_between.
Qed.

Lemma intsetAdd_spec s X v :
  models s X -> in_s 64 v -> Z.of_nat (size X) + 1 < 2 ^ 29 ->
  exists s', intsetAdd s v = Some (s', bool_decide (v ∉ X)) /\ models s' ({[v]} ∪ X).
Proof.
  intros (n & l & Hrep & Hs & HX) Hv Hlen. rewrite (models_length _ _ _ _ Hrep Hs HX) in Hlen.
  destruct (value_encoding_spec v Hv) as (m & Hm & Henc & Hin & Hmin).
  pose proof Hrep as [Hn He Hl Hc Hr]. unfold intsetAdd. rewrite Henc, He.
  destruct (Z.of_nat m >? Z.of_nat n) eqn:Hgt.
  - destruct (upgrade_spec s n m l v) as (s' & -> & Hrep'); try (done || zlia).
    pose proof (upgrade_outside n v l Hn (Hmin n Hn ltac:(zlia)) Hr) as Hout.
    exists s'. cbn [mbind option_bind]. destruct (v <? 0).
    + rewrite bool_decide_eq_true_2.
      2: { subst X. rewrite elem_of_list_to_set. by apply (not_between [] l v). }
      split; [done|]. subst X. by apply (models_insert s' m [] l).
    + rewrite bool_decide_eq_true_2.
      2: { subst X. rewrite elem_of_list_to_set, <- (app_nil_r l). by apply (not_between l [] v). }
      split; [done|]. subst X. rewrite <- (app_nil_r l). apply (models_insert s' m l []); auto.
      by rewrite app_nil_r.
  - destruct (intsetSearch_spec s n l v Hrep Hs ltac:(lia)) as (found & pos & -> & Hres).
    pose proof (search_result_elem _ _ _ _ Hres Hs) as Hf. cbn [mbind option_bind].
    destruct Hres as (l1 & l2 & -> & Hres). destruct found.
    + exists s. rewrite bool_decide_eq_false_2; [split; [done|]|subst; set_solver].
      exists n, l. split_and!; [done..|]. subst. set_solver.
    + destruct Hres as (-> & H1 & H2).
      destruct (intsetAdd_new s n l1 l2 v Hrep) as (s' & -> & Hrep'); [|lia|].
      { eapply in_s_mono; [|exact Hin]. destruct Hm as [-> | [-> | ->]]; zlia. }
      exists s'. subst X. rewrite bool_decide_eq_true_2.
      * split; [done|]. by eapply models_insert.
      * rewrite elem_of_list_to_set. by apply not_between.
Qed.

(** A value that needs more room than the current width is not a member. *)
Lemma wide_not_elem n m v l : width_ok n -> (n < m)%nat ->
  (forall n, width_ok n -> (n < m)%nat -> ~ in_s (8 * Z.of_nat n) v) ->
  Forall (in_s (8 * Z.of_nat n)) l -> v ∉ l.
Proof. intros Hn Hlt Hmin Hr Hin. rewrite Forall_forall in Hr. by apply (Hmin n Hn Hlt), Hr. Qed.

Lemma intsetRemove_spec s X v :
  models s X -> in_s 64 v -> Z.of_nat (size X) < 2 ^ 29 ->
  exists s', intsetRemove s v = Some (s', bool_decide (v ∈ X)) /\ models s' (X ∖ {[v]}).
Proof.
  intros (n & l & Hrep & Hs & HX) Hv Hlen. rewrite (models_length _ _ _ _ Hrep Hs HX) in Hlen.
  destruct (value_encoding_spec v Hv) as (m & Hm & Henc & Hin & Hmin).
  pose proof Hrep as [Hn He Hl Hc Hr]. unfold intsetRemove. rewrite Henc, He.
  assert (v ∉ X -> models s (X ∖ {[v]})) as Hsame.
  { intros. exists n, l. split_and!; [done..|]. set_solver. }
  destruct (Z.of_nat m <=? Z.of_nat n) eqn:Hle.
  - destruct (intsetSearch_spec s n l v Hrep Hs ltac:(lia)) as (found & pos & -> & Hres).
    pose proof (search_result_elem _ _ _ _ Hres Hs) as Hf. cbn [mbind option_bind].
    destruct Hres as (l1 & l2 & -> & Hres). destruct found.
    + subst l. destruct (intsetRemove_present s n l1 l2 v Hrep Hlen) as (s' & Heq & Hrep').
      destruct (increasing_delete l1 l2 v Hs) as [Hs' Hnot].
      exists s'. rewrite bool_decide_eq_true_2; [split; [exact Heq|]|set_solver].
      exists n, (l1 ++ l2). split_and!; [done..|]. set_solver.
    + symmetry in Hf. apply bool_decide_eq_false in Hf.
      exists s. rewrite bool_decide_eq_false_2; [split; [done|apply Hsame]|]; set_solver.
  - pose proof (wide_not_elem n m v l Hn ltac:(zlia) Hmin Hr).
    exists s. rewrite bool_decide_eq_false_2; [split; [done|apply Hsame]|]; set_solver.
Qed.

Lemma intsetFind_spec s X v :
  models s X -> in_s 64 v -> Z.of_nat (size X) < 2 ^ 29 ->
  intsetFind s v = Some (bool_decide (v ∈ X)).
Proof.
  intros (n & l & Hrep & Hs & HX) Hv Hlen. rewrite (models_length _ _ _ _ Hrep Hs HX) in Hlen.
  destruct (value_encoding_spec v Hv) as (m & Hm & Henc & Hin & Hmin).
  pose proof Hrep as [Hn He Hl Hc Hr]. unfold intsetFind. rewrite Henc, He.
  assert (bool_decide (v ∈ X) = bool_decide (v ∈ l)) as -> by (apply bool_decide_ext; set_solver).
  destruct (Z.of_nat m <=? Z.of_nat n) eqn:Hle.
  - destruct (intsetSearch_spec s n l v Hrep Hs ltac:(lia)) as (found & pos & -> & Hres).
    by rewrite <- (search_result_elem _ _ _ _ Hres Hs).
  - rewrite bool_decide_eq_false_2; [done|]. apply (wide_not_elem n m v l); auto. zlia.
Qed.

Lemma intsetNew_models : models intsetNew ∅.
Proof.
  exists 2%nat, []. split_and!; [|constructor|done]. split; auto; [by left|..].
  - by apply (width_enc 2); left.
  - unfold intrev32ifbe. simpl. destruct big_endian eqn:E; [|done].
    rewrite intrev32_val. unfold host_val, host_bytes. by rewrite E.
Qed.

Lemma intsetGet_spec s X :
  models s X ->
  exists l, StronglySorted Z.lt l /\ X = list_to_set l /\ intsetLen s = Z.of_nat (length l) /\
    forall i : nat, intsetGet s (Z.of_nat i) = Some (l !! i).
Proof.
  intros (n & l & Hrep & Hs & HX). exists l. split_and!; [done..|apply (repr_len _ _ _ Hrep)|].
  intros i. unfold intsetGet. rewrite (repr_len _ _ _ Hrep).
  destruct (Z.of_nat i <? Z.of_nat (length l)) eqn:E.
  - destruct (lookup_lt_is_Some_2 l i) as [x Hx]; [zlia|].
    by rewrite (get_repr _ _ _ _ _ Hrep Hx), Hx.
  - rewrite lookup_ge_None_2; [done|zlia].
Qed.

Lemma models_range s X : models s X -> forall x, x ∈ X -> in_s 64 x.
Proof.
  intros (n & l & Hrep & _ & ->) x Hx. apply elem_of_list_to_set in Hx.
  pose proof (repr_range _ _ _ Hrep) as Hr. rewrite Forall_forall in Hr.
  apply (in_s_mono (8 * Z.of_nat n)); [|by apply Hr].
  destruct (repr_width _ _ _ Hrep) as [->|[->| ->]]; lia.
Qed.

(** [intsetGet] enumerates the set in increasing order: position [i] holds
    the [i]-th smallest member, and positions from [intsetLen] on are refused. *)
Theorem intsetGet_enumerates s X :
  models s X ->
  exists l, StronglySorted Z.lt l /\ X = list_to_set l /\ intsetLen s = Z.of_nat (length l) /\
    forall i : nat, intsetGet s (Z.of_nat i) = Some (l !! i).
Proof. apply intsetGet_spec. Qed.

(** Adding a 64-bit integer to a well-formed intset never accesses memory
    out of bounds, returns 1 exactly when the value was absent, and yields a
    well-formed intset holding the old elements and the value; this covers the
    encoding upgrade and holds on either host byte order and whatever bytes
    realloc appends.  The bound keeps the 32-bit size computation exact. *)
Theorem intsetAdd_correct s X v :
  models s X -> in_s 64 v -> Z.of_nat (size X) + 1 < 2 ^ 29 ->
  exists s', intsetAdd s v = Some (s', bool_decide (v ∉ X)) /\ models s' ({[v]} ∪ X).
Proof. apply intsetAdd_spec. Qed.

(** Removing a value never accesses memory out of bounds, reports whether
    it was a member, and leaves a well-formed intset without it. *)
Theorem intsetRemove_correct s X v :
  models s X -> in_s 64 v -> Z.of_nat (size X) < 2 ^ 29 ->
  exists s', intsetRemove s v = Some (s', bool_decide (v ∈ X)) /\ models s' (X ∖ {[v]}).
Proof. apply intsetRemove_spec. Qed.

(** ** Sequences of operations *)

Inductive set_op := SAdd (v : Z) | SRem (v : Z) | SFind (v : Z).

Definition op_value (o : set_op) : Z := match o with SAdd v | SRem v | SFind v => v end.

(** One command on the intset; the reply is the success or membership flag. *)
Definition intset_step s (o : set_op) : option (intset * bool) :=
  match o with
  | SAdd v => intsetAdd s v
  | SRem v => intsetRemove s v
  | SFind v => b ← intsetFind s v; Some (s, b)
  end.

(** The same command on a mathematical set. *)
Definition gset_step (X : gset Z) (o : set_op) : gset Z * bool :=
  match o with
  | SAdd v => ({[v]} ∪ X, bool_decide (v ∉ X))
  | SRem v => (X ∖ {[v]}, bool_decide (v ∈ X))
  | SFind v => (X, bool_decide (v ∈ X))
  end.

Fixpoint intset_run s (os : list set_op) : option (intset * list bool) :=
  match os with
  | [] => Some (s, [])
  | o :: os => r ← intset_step s o; q ← intset_run r.1 os; Some (q.1, r.2 :: q.2)
  end.

Fixpoint gset_run (X : gset Z) (os : list set_op) : gset Z * list bool :=
  match os with
  | [] => (X, [])
  | o :: os => let r := gset_step X o in let q := gset_run r.1 os in (q.1, r.2 :: q.2)
  end.

Lemma intset_step_sim s X o :
  models s X -> in_s 64 (op_value o) -> Z.of_nat (size X) + 1 < 2 ^ 29 ->
  exists s', intset_step s o = Some (s', (gset_step X o).2) /\ models s' (gset_step X o).1 /\
    (size (gset_step X o).1 <= size X + 1)%nat.
Proof.
  intros Hm Hv Hsz. destruct o as [v|v|v]; simpl in *.
  - destruct (intsetAdd_spec s X v) as (s' & -> & Hm'); [done..|].
    exists s'. split_and!; [done..|]. pose proof (size_union_alt {[v]} X) as Hu.
    rewrite size_singleton in Hu. pose proof (subseteq_size (X ∖ {[v]}) X ltac:(set_solver)). lia.
  - destruct (intsetRemove_spec s X v) as (s' & -> & Hm'); [done..|lia|].
    exists s'. split_and!; [done..|]. pose proof (subseteq_size (X ∖ {[v]}) X ltac:(set_solver)). lia.
  - rewrite (intsetFind_spec s X v) by (done || lia). exists s. split_and!; [done..|]. lia.
Qed.

Lemma intset_run_sim os : forall s X,
  models s X -> Forall (fun o => in_s 64 (op_value o)) os ->
  Z.of_nat (size X) + Z.of_nat (length os) < 2 ^ 29 ->
  exists s', intset_run s os = Some (s', (gset_run X os).2) /\ models s' (gset_run X os).1.
Proof.
  induction os as [|o os IH]; intros s X Hm Hos Hsz; simpl.
  { by exists s. }
  apply Forall_cons in Hos as [Ho Hos]. simpl in Hsz.
  destruct (intset_step_sim s X o Hm Ho ltac:(lia)) as (s1 & -> & Hm1 & Hsz1).
  cbn [mbind option_bind]. simpl.
  destruct (IH s1 (gset_step X o).1 Hm1 Hos ltac:(lia)) as (s2 & -> & Hm2).
  exists s2. done.
Qed.

(** C18: any sequence of additions, removals and membership tests run from an
    empty intset, of fewer than 2^29 commands, completes with every access in
    bounds and answers exactly as the mathematical set would; the final intset
    is well formed and holds the final set. *)
Theorem intset_refines_gset os :
  Forall (fun o => in_s 64 (op_value o)) os -> Z.of_nat (length os) < 2 ^ 29 ->
  exists s', intset_run intsetNew os = Some (s', (gset_run ∅ os).2) /\
    models s' (gset_run ∅ os).1.
Proof.
  intros Hos Hlen. apply intset_run_sim; [apply intsetNew_models|done|].
  rewrite size_empty. lia.
Qed.

(** [intsetResize] computes the new size in 32 bits: at 2^29 elements of
    8 bytes the size wraps to 0 and the whole contents array is given back,
    while the callers go on to write element 2^29 - 1. *)
Theorem intsetResize_wraps s :
  intrev32ifbe (is_encoding s) = INTSET_ENC_INT64 ->
  is_contents (intsetResize s (2 ^ 29)) = [].
Proof.
  intros He. unfold intsetResize. rewrite He. cbn [is_contents].
  replace (u32 (2 ^ 29 * INTSET_ENC_INT64)) with 0 by reflexivity.
  apply nil_length_inv. pose proof (realloc_length junk (is_contents s) 0). lia.
Qed.
End intset.

(** ** Witnesses on a little-endian host *)

Definition le_host : Host := false.
#[local] Existing Instance le_host.
Definition junk_a5 : nat -> byte := fun _ => 165.
Definition sample_ops : list set_op := [SAdd 5; SAdd (-70000); SAdd 5; SRem 5; SFind (-70000)].

Lemma sample_models : exists s, models s {[ 5 ]}.
Proof.
  destruct (intsetAdd_spec junk_a5 intsetNew ∅ 5) as (s & _ & Hm);
    [apply intsetNew_models|limits; lia|rewrite size_empty; lia|].
  exists s. by rewrite union_empty_r_L in Hm.
Qed.

Lemma intsetAdd_correct_witness : exists s s' : intset,
  intsetAdd junk_a5 s 100000 = Some (s', true) /\
  models s' {[ 100000; 5 ]}.
Proof.
  destruct sample_models as [s Hs].
  destruct (intsetAdd_correct junk_a5 s {[ 5 ]} 100000 Hs) as (s' & He & Hm);
    [limits; lia|rewrite size_singleton; lia|]. exists s, s'. split; [exact He|exact Hm].
Defined.

Lemma intsetRemove_correct_witness : exists s s' : intset,
  intsetRemove junk_a5 s 5 = Some (s', true) /\ models s' ({[ 5 ]} ∖ {[ 5 ]}).
Proof.
  destruct sample_models as [s Hs].
  destruct (intsetRemove_correct junk_a5 s {[ 5 ]} 5 Hs) as (s' & He & Hm);
    [limits; lia|rewrite size_singleton; lia|]. exists s, s'. split; [exact He|exact Hm].
Defined.

Lemma intsetGet_enumerates_witness : exists (s : intset) (l : list Z),
  ({[ 5 ]} : gset Z) = list_to_set l /\ intsetLen s = Z.of_nat (length l).
Proof.
  destruct sample_models as [s Hs].
  destruct (intsetGet_enumerates s {[ 5 ]} Hs) as (l & _ & HX & Hl & _).
  exists s, l. auto.
Defined.

Lemma intset_refines_gset_witness : exists s,
  intset_run junk_a5 intsetNew sample_ops = Some (s, [true; true; false; true; true]).
Proof.
  destruct (intset_refines_gset junk_a5 sample_ops) as (s & He & _).
  - unfold sample_ops. repeat constructor; limits; simpl; lia.
  - simpl. lia.
  - exists s. exact He.
Defined.

Lemma intsetResize_wraps_witness :
  is_contents (intsetResize junk_a5 (mkIntset 8 1 [1;0;0;0;0;0;0;0]) (2 ^ 29)) = [].
Proof. apply (intsetResize_wraps junk_a5). reflexivity. Defined.
