(* ===== verification/Crc.v ===== *)
(** * Cyclic redundancy checks (src/redis-5.0.7/src/crc16.c, crc64.c)

    CRC16-CCITT (XMODEM), used for the cluster key slots, and the reflected
    CRC64 "Jones" used for RDB files and DUMP payloads.  Both are table driven;
    the theorems show that the tables and the byte loops compute the bit-by-bit
    polynomial division they abbreviate. *)

From S2P Require Import Prelude.
From coqutil Require Import Z.bitblast.
Local Open Scope Z_scope.

(** ** Code *)

Definition crc16tab : list Z :=
  [0x0000; 0x1021; 0x2042; 0x3063; 0x4084; 0x50a5; 0x60c6; 0x70e7;
   0x8108; 0x9129; 0xa14a; 0xb16b; 0xc18c; 0xd1ad; 0xe1ce; 0xf1ef;
   0x1231; 0x0210; 0x3273; 0x2252; 0x52b5; 0x4294; 0x72f7; 0x62d6;
   0x9339; 0x8318; 0xb37b; 0xa35a; 0xd3bd; 0xc39c; 0xf3ff; 0xe3de;
   0x2462; 0x3443; 0x0420; 0x1401; 0x64e6; 0x74c7; 0x44a4; 0x5485;
   0xa56a; 0xb54b; 0x8528; 0x9509; 0xe5ee; 0xf5cf; 0xc5ac; 0xd58d;
   0x3653; 0x2672; 0x1611; 0x0630; 0x76d7; 0x66f6; 0x5695; 0x46b4;
   0xb75b; 0xa77a; 0x9719; 0x8738; 0xf7df; 0xe7fe; 0xd79d; 0xc7bc;
   0x48c4; 0x58e5; 0x6886; 0x78a7; 0x0840; 0x1861; 0x2802; 0x3823;
   0xc9cc; 0xd9ed; 0xe98e; 0xf9af; 0x8948; 0x9969; 0xa90a; 0xb92b;
   0x5af5; 0x4ad4; 0x7ab7; 0x6a96; 0x1a71; 0x0a50; 0x3a33; 0x2a12;
   0xdbfd; 0xcbdc; 0xfbbf; 0xeb9e; 0x9b79; 0x8b58; 0xbb3b; 0xab1a;
   0x6ca6; 0x7c87; 0x4ce4; 0x5cc5; 0x2c22; 0x3c03; 0x0c60; 0x1c41;
   0xedae; 0xfd8f; 0xcdec; 0xddcd; 0xad2a; 0xbd0b; 0x8d68; 0x9d49;
   0x7e97; 0x6eb6; 0x5ed5; 0x4ef4; 0x3e13; 0x2e32; 0x1e51; 0x0e70;
   0xff9f; 0xefbe; 0xdfdd; 0xcffc; 0xbf1b; 0xaf3a; 0x9f59; 0x8f78;
   0x9188; 0x81a9; 0xb1ca; 0xa1eb; 0xd10c; 0xc12d; 0xf14e; 0xe16f;
   0x1080; 0x00a1; 0x30c2; 0x20e3; 0x5004; 0x4025; 0x7046; 0x6067;
   0x83b9; 0x9398; 0xa3fb; 0xb3da; 0xc33d; 0xd31c; 0xe37f; 0xf35e;
   0x02b1; 0x1290; 0x22f3; 0x32d2; 0x4235; 0x5214; 0x6277; 0x7256;
   0xb5ea; 0xa5cb; 0x95a8; 0x8589; 0xf56e; 0xe54f; 0xd52c; 0xc50d;
   0x34e2; 0x24c3; 0x14a0; 0x0481; 0x7466; 0x6447; 0x5424; 0x4405;
   0xa7db; 0xb7fa; 0x8799; 0x97b8; 0xe75f; 0xf77e; 0xc71d; 0xd73c;
   0x26d3; 0x36f2; 0x0691; 0x16b0; 0x6657; 0x7676; 0x4615; 0x5634;
   0xd94c; 0xc96d; 0xf90e; 0xe92f; 0x99c8; 0x89e9; 0xb98a; 0xa9ab;
   0x5844; 0x4865; 0x7806; 0x6827; 0x18c0; 0x08e1; 0x3882; 0x28a3;
   0xcb7d; 0xdb5c; 0xeb3f; 0xfb1e; 0x8bf9; 0x9bd8; 0xabbb; 0xbb9a;
   0x4a75; 0x5a54; 0x6a37; 0x7a16; 0x0af1; 0x1ad0; 0x2ab3; 0x3a92;
   0xfd2e; 0xed0f; 0xdd6c; 0xcd4d; 0xbdaa; 0xad8b; 0x9de8; 0x8dc9;
   0x7c26; 0x6c07; 0x5c64; 0x4c45; 0x3ca2; 0x2c83; 0x1ce0; 0x0cc1;
   0xef1f; 0xff3e; 0xcf5d; 0xdf7c; 0xaf9b; 0xbfba; 0x8fd9; 0x9ff8;
   0x6e17; 0x7e36; 0x4e55; 0x5e74; 0x2e93; 0x3eb2; 0x0ed1; 0x1ef0].

Definition crc16 (buf : list byte) : Z :=
  foldl (fun crc b =>
    u16 (Z.lxor (Z.shiftl crc 8)
      (nth (Z.to_nat (Z.land (Z.lxor (Z.shiftr crc 8) b) 0xff)) crc16tab 0))) 0 buf.

Definition crc64_tab : list Z :=
  [0x0000000000000000; 0x7ad870c830358979; 0xf5b0e190606b12f2; 0x8f689158505e9b8b;
   0xc038e5739841b68f; 0xbae095bba8743ff6; 0x358804e3f82aa47d; 0x4f50742bc81f2d04;
   0xab28ecb46814fe75; 0xd1f09c7c5821770c; 0x5e980d24087fec87; 0x24407dec384a65fe;
   0x6b1009c7f05548fa; 0x11c8790fc060c183; 0x9ea0e857903e5a08; 0xe478989fa00bd371;
   0x7d08ff3b88be6f81; 0x07d08ff3b88be6f8; 0x88b81eabe8d57d73; 0xf2606e63d8e0f40a;
   0xbd301a4810ffd90e; 0xc7e86a8020ca5077; 0x4880fbd87094cbfc; 0x32588b1040a14285;
   0xd620138fe0aa91f4; 0xacf86347d09f188d; 0x2390f21f80c18306; 0x594882d7b0f40a7f;
   0x1618f6fc78eb277b; 0x6cc0863448deae02; 0xe3a8176c18803589; 0x997067a428b5bcf0;
   0xfa11fe77117cdf02; 0x80c98ebf2149567b; 0x0fa11fe77117cdf0; 0x75796f2f41224489;
   0x3a291b04893d698d; 0x40f16bccb908e0f4; 0xcf99fa94e9567b7f; 0xb5418a5cd963f206;
   0x513912c379682177; 0x2be1620b495da80e; 0xa489f35319033385; 0xde51839b2936bafc;
   0x9101f7b0e12997f8; 0xebd98778d11c1e81; 0x64b116208142850a; 0x1e6966e8b1770c73;
   0x8719014c99c2b083; 0xfdc17184a9f739fa; 0x72a9e0dcf9a9a271; 0x08719014c99c2b08;
   0x4721e43f0183060c; 0x3df994f731b68f75; 0xb29105af61e814fe; 0xc849756751dd9d87;
   0x2c31edf8f1d64ef6; 0x56e99d30c1e3c78f; 0xd9810c6891bd5c04; 0xa3597ca0a188d57d;
   0xec09088b6997f879; 0x96d1784359a27100; 0x19b9e91b09fcea8b; 0x636199d339c963f2;
   0xdf7adabd7a6e2d6f; 0xa5a2aa754a5ba416; 0x2aca3b2d1a053f9d; 0x50124be52a30b6e4;
   0x1f423fcee22f9be0; 0x659a4f06d21a1299; 0xeaf2de5e82448912; 0x902aae96b271006b;
   0x74523609127ad31a; 0x0e8a46c1224f5a63; 0x81e2d7997211c1e8; 0xfb3aa75142244891;
   0xb46ad37a8a3b6595; 0xceb2a3b2ba0eecec; 0x41da32eaea507767; 0x3b024222da65fe1e;
   0xa2722586f2d042ee; 0xd8aa554ec2e5cb97; 0x57c2c41692bb501c; 0x2d1ab4dea28ed965;
   0x624ac0f56a91f461; 0x1892b03d5aa47d18; 0x97fa21650afae693; 0xed2251ad3acf6fea;
   0x095ac9329ac4bc9b; 0x7382b9faaaf135e2; 0xfcea28a2faafae69; 0x8632586aca9a2710;
   0xc9622c4102850a14; 0xb3ba5c8932b0836d; 0x3cd2cdd162ee18e6; 0x460abd1952db919f;
   0x256b24ca6b12f26d; 0x5fb354025b277b14; 0xd0dbc55a0b79e09f; 0xaa03b5923b4c69e6;
   0xe553c1b9f35344e2; 0x9f8bb171c366cd9b; 0x10e3202993385610; 0x6a3b50e1a30ddf69;
   0x8e43c87e03060c18; 0xf49bb8b633338561; 0x7bf329ee636d1eea; 0x012b592653589793;
   0x4e7b2d0d9b47ba97; 0x34a35dc5ab7233ee; 0xbbcbcc9dfb2ca865; 0xc113bc55cb19211c;
   0x5863dbf1e3ac9dec; 0x22bbab39d3991495; 0xadd33a6183c78f1e; 0xd70b4aa9b3f20667;
   0x985b3e827bed2b63; 0xe2834e4a4bd8a21a; 0x6debdf121b863991; 0x1733afda2bb3b0e8;
   0xf34b37458bb86399; 0x8993478dbb8deae0; 0x06fbd6d5ebd3716b; 0x7c23a61ddbe6f812;
   0x3373d23613f9d516; 0x49aba2fe23cc5c6f; 0xc6c333a67392c7e4; 0xbc1b436e43a74e9d;
   0x95ac9329ac4bc9b5; 0xef74e3e19c7e40cc; 0x601c72b9cc20db47; 0x1ac40271fc15523e;
   0x5594765a340a7f3a; 0x2f4c0692043ff643; 0xa02497ca54616dc8; 0xdafce7026454e4b1;
   0x3e847f9dc45f37c0; 0x445c0f55f46abeb9; 0xcb349e0da4342532; 0xb1eceec59401ac4b;
   0xfebc9aee5c1e814f; 0x8464ea266c2b0836; 0x0b0c7b7e3c7593bd; 0x71d40bb60c401ac4;
   0xe8a46c1224f5a634; 0x927c1cda14c02f4d; 0x1d148d82449eb4c6; 0x67ccfd4a74ab3dbf;
   0x289c8961bcb410bb; 0x5244f9a98c8199c2; 0xdd2c68f1dcdf0249; 0xa7f41839ecea8b30;
   0x438c80a64ce15841; 0x3954f06e7cd4d138; 0xb63c61362c8a4ab3; 0xcce411fe1cbfc3ca;
   0x83b465d5d4a0eece; 0xf96c151de49567b7; 0x76048445b4cbfc3c; 0x0cdcf48d84fe7545;
   0x6fbd6d5ebd3716b7; 0x15651d968d029fce; 0x9a0d8ccedd5c0445; 0xe0d5fc06ed698d3c;
   0xaf85882d2576a038; 0xd55df8e515432941; 0x5a3569bd451db2ca; 0x20ed197575283bb3;
   0xc49581ead523e8c2; 0xbe4df122e51661bb; 0x3125607ab548fa30; 0x4bfd10b2857d7349;
   0x04ad64994d625e4d; 0x7e7514517d57d734; 0xf11d85092d094cbf; 0x8bc5f5c11d3cc5c6;
   0x12b5926535897936; 0x686de2ad05bcf04f; 0xe70573f555e26bc4; 0x9ddd033d65d7e2bd;
   0xd28d7716adc8cfb9; 0xa85507de9dfd46c0; 0x273d9686cda3dd4b; 0x5de5e64efd965432;
   0xb99d7ed15d9d8743; 0xc3450e196da80e3a; 0x4c2d9f413df695b1; 0x36f5ef890dc31cc8;
   0x79a59ba2c5dc31cc; 0x037deb6af5e9b8b5; 0x8c157a32a5b7233e; 0xf6cd0afa9582aa47;
   0x4ad64994d625e4da; 0x300e395ce6106da3; 0xbf66a804b64ef628; 0xc5bed8cc867b7f51;
   0x8aeeace74e645255; 0xf036dc2f7e51db2c; 0x7f5e4d772e0f40a7; 0x05863dbf1e3ac9de;
   0xe1fea520be311aaf; 0x9b26d5e88e0493d6; 0x144e44b0de5a085d; 0x6e963478ee6f8124;
   0x21c640532670ac20; 0x5b1e309b16452559; 0xd476a1c3461bbed2; 0xaeaed10b762e37ab;
   0x37deb6af5e9b8b5b; 0x4d06c6676eae0222; 0xc26e573f3ef099a9; 0xb8b627f70ec510d0;
   0xf7e653dcc6da3dd4; 0x8d3e2314f6efb4ad; 0x0256b24ca6b12f26; 0x788ec2849684a65f;
   0x9cf65a1b368f752e; 0xe62e2ad306bafc57; 0x6946bb8b56e467dc; 0x139ecb4366d1eea5;
   0x5ccebf68aecec3a1; 0x2616cfa09efb4ad8; 0xa97e5ef8cea5d153; 0xd3a62e30fe90582a;
   0xb0c7b7e3c7593bd8; 0xca1fc72bf76cb2a1; 0x45775673a732292a; 0x3faf26bb9707a053;
   0x70ff52905f188d57; 0x0a2722586f2d042e; 0x854fb3003f739fa5; 0xff97c3c80f4616dc;
   0x1bef5b57af4dc5ad; 0x61372b9f9f784cd4; 0xee5fbac7cf26d75f; 0x9487ca0fff135e26;
   0xdbd7be24370c7322; 0xa10fceec0739fa5b; 0x2e675fb4576761d0; 0x54bf2f7c6752e8a9;
   0xcdcf48d84fe75459; 0xb71738107fd2dd20; 0x387fa9482f8c46ab; 0x42a7d9801fb9cfd2;
   0x0df7adabd7a6e2d6; 0x772fdd63e7936baf; 0xf8474c3bb7cdf024; 0x829f3cf387f8795d;
   0x66e7a46c27f3aa2c; 0x1c3fd4a417c62355; 0x935745fc4798b8de; 0xe98f353477ad31a7;
   0xa6df411fbfb21ca3; 0xdc0731d78f8795da; 0x536fa08fdfd90e51; 0x29b7d047efec8728].

Definition crc64 (crc : Z) (s : list byte) : Z :=
  foldl (fun crc byte =>
    Z.lxor (nth (Z.to_nat (Z.lxor (u8 crc) byte)) crc64_tab 0) (Z.shiftr crc 8)) crc s.

(** ** Reference: one bit of polynomial division at a time *)

(** MSB first, polynomial 0x1021. *)
Definition crc16_bit (c : Z) : Z :=
  Z.lxor (u16 (Z.shiftl c 1)) (if Z.testbit c 15 then 0x1021 else 0).

Definition crc16_ref (buf : list byte) : Z :=
  foldl (fun c b => Nat.iter 8 crc16_bit (Z.lxor c (Z.shiftl b 8))) 0 buf.

(** LSB first, polynomial 0xad93d23594c935a9 with its 64 bits reversed. *)
Definition crc64_poly_reflected : Z := 0x95ac9329ac4bc9b5.

Definition crc64_bit (c : Z) : Z :=
  Z.lxor (Z.shiftr c 1) (if Z.testbit c 0 then crc64_poly_reflected else 0).

Definition crc64_ref (crc : Z) (s : list byte) : Z :=
  foldl (fun c b => Nat.iter 8 crc64_bit (Z.lxor c b)) crc s.

(** ** Linearity of the division over exclusive or *)

Definition linear (f : Z -> Z) : Prop := forall a b, f (Z.lxor a b) = Z.lxor (f a) (f b).

Lemma linear_iter f n : linear f -> linear (Nat.iter n f).
Proof.
  intros Hf. induction n as [|n IH]; intros a b; simpl; [done|]. by rewrite IH, Hf.
Qed.

Lemma lxor_select (p q : bool) x :
  (if xorb p q then x else 0) = Z.lxor (if p then x else 0) (if q then x else 0).
Proof. destruct p, q; simpl; by rewrite ?Z.lxor_nilpotent, ?Z.lxor_0_l, ?Z.lxor_0_r. Qed.

Lemma lxor_swap a b c d : Z.lxor (Z.lxor a b) (Z.lxor c d) = Z.lxor (Z.lxor a c) (Z.lxor b d).
Proof. rewrite !Z.lxor_assoc. f_equal. rewrite <- !Z.lxor_assoc. f_equal. apply Z.lxor_comm. Qed.

Lemma uwrap_lxor w a b : 0 <= w -> uwrap w (Z.lxor a b) = Z.lxor (uwrap w a) (uwrap w b).
Proof.
  intros Hw. unfold uwrap. apply Z.bits_inj'. intros i Hi.
  rewrite Z.lxor_spec, !Z.testbit_mod_pow2, Z.lxor_spec by done. by destruct (i <? w).
Qed.

Lemma crc16_bit_linear : linear crc16_bit.
Proof.
  intros a b. unfold crc16_bit.
  rewrite Z.shiftl_lxor, uwrap_lxor, Z.lxor_spec, lxor_select by lia. apply lxor_swap.
Qed.

Lemma crc64_bit_linear : linear crc64_bit.
Proof.
  intros a b. unfold crc64_bit.
  rewrite Z.shiftr_lxor, Z.lxor_spec, lxor_select. apply lxor_swap.
Qed.

(** ** The tables *)

Lemma crc16tab_spec i : 0 <= i < 256 ->
  nth (Z.to_nat i) crc16tab 0 = Nat.iter 8 crc16_bit (Z.shiftl i 8).
Proof.
  intros Hi. apply Z.eqb_eq. revert i Hi. apply (all_below_spec 256 (fun i => _ =? _)). vm_compute. reflexivity.
Qed.

Lemma crc16_low i : 0 <= i < 256 -> Nat.iter 8 crc16_bit i = Z.shiftl i 8.
Proof.
  intros Hi. apply Z.eqb_eq. revert i Hi. apply (all_below_spec 256 (fun i => _ =? _)). vm_compute. reflexivity.
Qed.

Lemma crc64_tab_spec i : 0 <= i < 256 ->
  nth (Z.to_nat i) crc64_tab 0 = Nat.iter 8 crc64_bit i.
Proof.
  intros Hi. apply Z.eqb_eq. revert i Hi. apply (all_below_spec 256 (fun i => _ =? _)). vm_compute. reflexivity.
Qed.

Lemma lxor_range w a b : 0 <= w -> 0 <= a < 2 ^ w -> 0 <= b < 2 ^ w -> 0 <= Z.lxor a b < 2 ^ w.
Proof.
  intros Hw Ha Hb. rewrite <- (uwrap_small w a), <- (uwrap_small w b), <- uwrap_lxor by done.
  by apply uwrap_range.
Qed.

(** An integer is its low byte and the rest, joined by exclusive or. *)
Lemma split_low8 c : c = Z.lxor (u8 c) (Z.shiftl (Z.shiftr c 8) 8).
Proof.
  unfold uwrap. apply Z.bits_inj'. intros i Hi.
  rewrite Z.lxor_spec, Z.testbit_mod_pow2, Z.shiftl_spec by lia.
  destruct (Z.ltb_spec i 8).
  - rewrite (Z.testbit_neg_r _ (i - 8)) by lia. by destruct (Z.testbit c i).
  - rewrite Z.shiftr_spec by lia. replace (i - 8 + 8) with i by lia. by destruct (Z.testbit c i).
Qed.

(** ** CRC16 *)

Lemma crc16tab_range i : 0 <= i < 256 -> 0 <= nth (Z.to_nat i) crc16tab 0 < 2 ^ 16.
Proof.
  intros Hi.
  assert (((0 <=? nth (Z.to_nat i) crc16tab 0) && (nth (Z.to_nat i) crc16tab 0 <? 2 ^ 16)) = true) as Hb;
    [|zlia].
  revert i Hi. apply (all_below_spec 256 (fun i => (0 <=? nth (Z.to_nat i) crc16tab 0) &&
    (nth (Z.to_nat i) crc16tab 0 <? 2 ^ 16))). vm_compute. reflexivity.
Qed.

Lemma u16_shiftl8 c : u16 (Z.shiftl c 8) = Z.shiftl (u8 c) 8.
Proof.
  unfold uwrap. apply Z.bits_inj'. intros i Hi.
  rewrite Z.testbit_mod_pow2, !Z.shiftl_spec, Z.testbit_mod_pow2 by lia. f_equal. lia.
Qed.

Lemma crc16_byte c b : 0 <= c < 2 ^ 16 -> is_byte b ->
  u16 (Z.lxor (Z.shiftl c 8)
    (nth (Z.to_nat (Z.land (Z.lxor (Z.shiftr c 8) b) 0xff)) crc16tab 0)) =
  Nat.iter 8 crc16_bit (Z.lxor c (Z.shiftl b 8)).
Proof.
  intros Hc Hb.
  assert (0 <= Z.shiftr c 8 < 2 ^ 8) as Hh.
  { rewrite Z.shiftr_div_pow2 by lia. split; [apply Z.div_pos; lia|].
    apply Z.div_lt_upper_bound; lia. }
  pose proof (lxor_range 8 _ b ltac:(lia) Hh Hb) as Hidx.
  set (idx := Z.lxor (Z.shiftr c 8) b) in *.
  change 0xff with (Z.ones 8). rewrite Z.land_ones, Z.mod_small by lia.
  rewrite uwrap_lxor, u16_shiftl8, (uwrap_small 16 (nth _ _ _)) by (apply crc16tab_range || lia; lia).
  rewrite crc16tab_spec, <- crc16_low, <- (linear_iter _ 8 crc16_bit_linear)
    by (apply uwrap_range || idtac; lia).
  f_equal. subst idx. rewrite (split_low8 c) at 3.
  by rewrite Z.shiftl_lxor, <- Z.lxor_assoc.
Qed.

Lemma crc16_bit_range c : 0 <= c < 2 ^ 16 -> 0 <= crc16_bit c < 2 ^ 16.
Proof.
  intros Hc. apply lxor_range; [lia|by apply uwrap_range|]. destruct (Z.testbit c 15); lia.
Qed.

Lemma iter_range (f : Z -> Z) w n c : (forall x, 0 <= x < w -> 0 <= f x < w) ->
  0 <= c < w -> 0 <= Nat.iter n f c < w.
Proof. intros Hf Hc. induction n; simpl; auto. Qed.

Lemma crc16_fold buf : bytes_ok buf -> forall c, 0 <= c < 2 ^ 16 ->
  foldl (fun crc b => u16 (Z.lxor (Z.shiftl crc 8)
    (nth (Z.to_nat (Z.land (Z.lxor (Z.shiftr crc 8) b) 0xff)) crc16tab 0))) c buf =
  foldl (fun c b => Nat.iter 8 crc16_bit (Z.lxor c (Z.shiftl b 8))) c buf.
Proof.
  induction 1 as [|b buf Hb Hbuf IH]; intros c Hc; [done|]. cbn [foldl].
  rewrite crc16_byte by done. apply IH. apply iter_range; [apply crc16_bit_range|].
  apply lxor_range; [lia|done|]. rewrite Z.shiftl_mul_pow2 by lia. unfold is_byte in Hb. lia.
Qed.

(** The table-driven CRC16 of the cluster slot hash is the bit-by-bit
    CRC16-CCITT division of the buffer by 0x1021, for every buffer. *)
Theorem crc16_correct buf : bytes_ok buf -> crc16 buf = crc16_ref buf.
Proof. intros Hb. apply crc16_fold; [done|lia]. Qed.

(** ** CRC64 *)

Lemma crc64_bit_even x n : Nat.iter n crc64_bit (Z.shiftl x (Z.of_nat n)) = x.
Proof.
  revert x. induction n as [|n IH]; intros x; [apply Z.shiftl_0_r|].
  rewrite Nat.iter_succ_r. rewrite <- (IH x) at 2. f_equal. unfold crc64_bit.
  replace (Z.of_nat (S n)) with (Z.of_nat n + 1) by lia.
  rewrite <- Z.shiftl_shiftl by lia. rewrite Z.shiftr_shiftl_l, Z.sub_diag, Z.shiftl_0_r by lia.
  rewrite Z.shiftl_spec_low by lia. apply Z.lxor_0_r.
Qed.

Lemma crc64_byte c b : is_byte b ->
  Z.lxor (nth (Z.to_nat (Z.lxor (u8 c) b)) crc64_tab 0) (Z.shiftr c 8) =
  Nat.iter 8 crc64_bit (Z.lxor c b).
Proof.
  intros Hb. rewrite crc64_tab_spec by (apply (lxor_range 8); [lia|by apply uwrap_range|exact Hb]).
  rewrite <- (crc64_bit_even (Z.shiftr c 8) 8), <- (linear_iter _ 8 crc64_bit_linear).
  f_equal. rewrite (split_low8 c) at 3.
  change (Z.of_nat 8) with 8. rewrite !Z.lxor_assoc. f_equal. apply Z.lxor_comm.
Qed.

Lemma crc64_is_ref crc s : bytes_ok s -> crc64 crc s = crc64_ref crc s.
Proof.
  intros Hs. revert crc. induction Hs as [|b s Hb Hs IH]; intros crc; [done|].
  unfold crc64, crc64_ref in *. cbn [foldl]. by rewrite crc64_byte, IH.
Qed.

(** C32: the table-driven CRC64 is the bit-by-bit division by the reflected
    Jones polynomial, from any initial value, for every buffer. *)
Theorem crc64_correct crc s : bytes_ok s -> crc64 crc s = crc64_ref crc s.
Proof. apply crc64_is_ref. Qed.

(** The division step loses no information on 64-bit words. *)
Lemma crc64_bit_zero c : 0 <= c < 2 ^ 64 -> crc64_bit c = 0 -> c = 0.
Proof.
  intros Hc H. unfold crc64_bit in H. rewrite Z.shiftr_div_pow2 in H by lia. change (2 ^ 1) with 2 in H.
  pose proof (Z.div_mod c 2 ltac:(lia)) as Hd. rewrite Z.bit0_odd in H.
  rewrite <- Z.bit0_mod, Z.bit0_odd in Hd. destruct (Z.odd c); simpl Z.b2z in Hd.
  - apply Z.lxor_eq in H. unfold crc64_poly_reflected in H. limits. lia.
  - rewrite Z.lxor_0_r in H. lia.
Qed.

Lemma crc64_bit_range c : 0 <= c < 2 ^ 64 -> 0 <= crc64_bit c < 2 ^ 64.
Proof.
  intros Hc. apply lxor_range; [lia| |].
  - rewrite Z.shiftr_div_pow2 by lia. change (2 ^ 1) with 2.
    pose proof (Z.div_mod c 2 ltac:(lia)). pose proof (Z.mod_pos_bound c 2). limits. lia.
  - destruct (Z.testbit c 0); unfold crc64_poly_reflected; limits; lia.
Qed.

Lemma crc64_iter_inj n a b : 0 <= a < 2 ^ 64 -> 0 <= b < 2 ^ 64 ->
  Nat.iter n crc64_bit a = Nat.iter n crc64_bit b -> a = b.
Proof.
  intros Ha Hb. induction n as [|n IH]; simpl; [done|]. intros H. apply IH.
  apply Z.lxor_eq, crc64_bit_zero.
  - apply lxor_range; [lia|..]; apply iter_range; auto using crc64_bit_range.
  - rewrite crc64_bit_linear, H. apply Z.lxor_nilpotent.
Qed.

Lemma crc64_ref_range s : bytes_ok s -> forall c, 0 <= c < 2 ^ 64 -> 0 <= crc64_ref c s < 2 ^ 64.
Proof.
  induction 1 as [|b s Hb Hs IH]; intros c Hc; [done|]. unfold crc64_ref in *. cbn [foldl]. apply IH.
  apply iter_range; [apply crc64_bit_range|]. apply lxor_range; [lia|done|].
  unfold is_byte in Hb. limits. lia.
Qed.

Lemma crc64_ref_inj s : bytes_ok s -> forall a b, 0 <= a < 2 ^ 64 -> 0 <= b < 2 ^ 64 ->
  crc64_ref a s = crc64_ref b s -> a = b.
Proof.
  induction 1 as [|x s Hx Hs IH]; intros a b Ha Hb He; [done|].
  unfold crc64_ref in He. cbn [foldl] in He.
  assert (0 <= x < 2 ^ 64) by (unfold is_byte in Hx; limits; lia).
  assert (Z.lxor a x = Z.lxor b x) as Hl.
  { apply (crc64_iter_inj 8); [apply lxor_range; [lia|done..].. |].
    apply IH; [| |exact He]; apply iter_range; auto using crc64_bit_range;
      apply lxor_range; (lia || done). }
  assert (Z.lxor (Z.lxor a x) x = Z.lxor (Z.lxor b x) x) by congruence.
  by rewrite !Z.lxor_assoc, Z.lxor_nilpotent, !Z.lxor_0_r in *.
Qed.

(** A single corrupted byte anywhere in a payload always changes its CRC64,
    so the footer check of DUMP payloads and RDB files detects it. *)
Theorem crc64_detects_byte_error crc p x y q :
  0 <= crc < 2 ^ 64 -> bytes_ok (p ++ x :: q) -> is_byte y -> x <> y ->
  crc64 crc (p ++ x :: q) <> crc64 crc (p ++ y :: q).
Proof.
  intros Hc Hok Hy Hne He. apply Forall_app in Hok as [Hp [Hx Hq]%Forall_cons].
  rewrite !crc64_is_ref in He by (apply Forall_app; auto).
  unfold crc64_ref in He. rewrite !foldl_app in He. cbn [foldl] in He.
  fold (crc64_ref crc p) in He. pose proof (crc64_ref_range p Hp crc Hc) as Hr.
  set (c := crc64_ref crc p) in *.
  assert (forall z, is_byte z -> 0 <= Z.lxor c z < 2 ^ 64) as Hrange.
  { intros z Hz. apply lxor_range; [lia|done|]. unfold is_byte in Hz. limits. lia. }
  apply crc64_ref_inj in He; [|done|apply iter_range; auto using crc64_bit_range..].
  apply crc64_iter_inj in He; [|auto..]. apply Hne.
  assert (Z.lxor c (Z.lxor c x) = Z.lxor c (Z.lxor c y)) by congruence.
  by rewrite <- !Z.lxor_assoc, Z.lxor_nilpotent, !Z.lxor_0_l in *.
Qed.

(** ** Witnesses: the check values the source documents *)

Definition check_string : list byte := [49; 50; 51; 52; 53; 54; 55; 56; 57].

Lemma check_string_ok : bytes_ok check_string.
Proof. repeat constructor; unfold is_byte; lia. Qed.

Lemma crc16_correct_witness : crc16_ref check_string = 0x31c3.
Proof. rewrite <- crc16_correct by apply check_string_ok. vm_compute. reflexivity. Defined.

Lemma crc64_correct_witness : crc64_ref 0 check_string = 0xe9c6d914c4b8d9ca.
Proof. rewrite <- crc64_correct by apply check_string_ok. vm_compute. reflexivity. Defined.

Lemma crc64_detects_byte_error_witness :
  crc64 0 ([49; 50] ++ 51 :: [52]) <> crc64 0 ([49; 50] ++ 52 :: [52]).
Proof.
  apply crc64_detects_byte_error; [lia| |unfold is_byte; lia|lia].
  repeat constructor; unfold is_byte; lia.
Defined.
