(* ===== verification/Util.v ===== *)
(** * Integer/string conversion (src/redis-5.0.7/src/util.c)

    [digits10], [sdigits10], [ll2string], [string2ll] and [string2l].  A C
    string is a list of bytes; the destination buffer of [ll2string] is a block
    of [dstlen] bytes accessed through the bounds-checked [store].  [decimal] is
    the reference notation both conversions are proved against. *)

From S2P Require Import Prelude.
From stdpp Require Import strings.
Local Open Scope Z_scope.

(** ** Code *)

(** [fuel] bounds the recursion on [v / 10^12]; two levels are enough for 64
    bits. *)
Fixpoint digits10_rec (fuel : nat) (v : Z) : Z :=
  if v <? 10 then 1
  else if v <? 100 then 2
  else if v <? 1000 then 3
  else if v <? 1000000000000 then
    if v <? 100000000 then
      if v <? 1000000 then
        if v <? 10000 then 4 else 5 + Z.b2z (v >=? 100000)
      else 7 + Z.b2z (v >=? 10000000)
    else if v <? 10000000000 then 9 + Z.b2z (v >=? 1000000000)
    else 11 + Z.b2z (v >=? 100000000000)
  else match fuel with
       | O => 0
       | S fuel => 12 + digits10_rec fuel (v / 1000000000000)
       end.

Definition digits10 (v : Z) : Z := digits10_rec 2 v.

Definition sdigits10 (v : Z) : Z :=
  if v <? 0 then
    let uv := if negb (v =? LLONG_MIN) then u64 (- v) else u64 (LLONG_MAX + 1) in
    digits10 uv + 1
  else digits10 v.

(** The character pairs "00" to "99". *)
Definition digits : list byte := bytes_of
  ("0001020304050607080910111213141516171819" ++
   "2021222324252627282930313233343536373839" ++
   "4041424344454647484950515253545556575859" ++
   "6061626364656667686970717273747576777879" ++
   "8081828384858687888990919293949596979899")%string.

(** [dst[i] = c] *)
Definition put (dst : list byte) (i c : Z) : option (list byte) := store dst i [c].

(** The [while (value >= 100)] loop: two digits per round from the end. *)
Fixpoint ll2string_loop (fuel : nat) (dst : list byte) (value next : Z)
    : option (list byte * Z * Z) :=
  if value >=? 100 then
    match fuel with
    | O => None
    | S fuel =>
        let i := value mod 100 * 2 in
        let value := value / 100 in
        c1 ← digits !! Z.to_nat (i + 1);
        dst ← put dst next c1;
        c0 ← digits !! Z.to_nat i;
        dst ← put dst (u32 (next - 1)) c0;
        ll2string_loop fuel dst value (u32 (next - 2))
    end
  else Some (dst, value, next).

(** Returns the buffer and the returned length. *)
Definition ll2string (dst : list byte) (dstlen svalue : Z) : option (list byte * Z) :=
  let negative := svalue <? 0 in
  let value :=
    if negative then
      if negb (svalue =? LLONG_MIN) then u64 (- svalue) else u64 (LLONG_MAX + 1)
    else svalue in
  let length := u32 (digits10 value + Z.b2z negative) in
  if length >=? dstlen then Some (dst, 0)
  else
    dst ← put dst length 0;
    r ← ll2string_loop 10 dst value (u32 (length - 1));
    let '(dst, value, next) := r in
    dst ← (if value <? 10 then put dst next (48 + value)
           else
             let i := value * 2 in
             c1 ← digits !! Z.to_nat (i + 1);
             dst ← put dst next c1;
             c0 ← digits !! Z.to_nat i;
             put dst (u32 (next - 1)) c0);
    dst ← (if (negative : bool) then put dst 0 45 else Some dst);
    Some (dst, length).

Definition is_digit (c : byte) : bool := (48 <=? c) && (c <=? 57).

(** The digit loop: stops at the first byte that is not a digit, fails when the
    accumulator would leave 64 bits. *)
Fixpoint string2ll_loop (p : list byte) (v : Z) : option (Z * list byte) :=
  match p with
  | c :: p' =>
      if is_digit c then
        if v >? ULLONG_MAX / 10 then None
        else
          let v := u64 (v * 10) in
          if v >? ULLONG_MAX - (c - 48) then None
          else string2ll_loop p' (u64 (v + (c - 48)))
      else Some (v, p)
  | [] => Some (v, [])
  end.

(** [None] is the return value 0, [Some v] is 1 with [*value = v]. *)
Definition string2ll (s : list byte) : option Z :=
  match s with
  | [] => None
  | c0 :: s' =>
      if (length s =? 1)%nat && (c0 =? 48) then Some 0
      else
        let negative := c0 =? 45 in
        let p := if negative then s' else s in
        match p with
        | [] => None
        | c :: p =>
            if (49 <=? c) && (c <=? 57) then
              r ← string2ll_loop p (c - 48);
              let '(v, rest) := r in
              match rest with
              | _ :: _ => None
              | [] =>
                  if (negative : bool) then
                    if v >? u64 (u64 (- (LLONG_MIN + 1)) + 1) then None
                    else Some (s64 (u64 (- v)))
                  else if v >? LLONG_MAX then None else Some v
              end
            else None
        end
  end.

(** [long] has 64 bits on the LP64 targets. *)
Definition string2l (s : list byte) : option Z :=
  llval ← string2ll s;
  if (llval <? LLONG_MIN) || (LLONG_MAX <? llval) then None else Some (s64 llval).

(** ** Reference notation *)

(** The decimal digits of [z >= 0], most significant first; [k] bounds their
    number. *)
Fixpoint dec (k : nat) (z : Z) : list byte :=
  match k with
  | O => []
  | S k => if z <? 10 then [48 + z] else dec k (z / 10) ++ [48 + z mod 10]
  end.

(** Every 64-bit integer has at most 20 digits. *)
Definition decimal (v : Z) : list byte :=
  if v <? 0 then 45 :: dec 20 (- v) else dec 20 v.


(** ** Decimal notation *)

Lemma div10 z : 0 <= z -> z = 10 * (z / 10) + z mod 10 /\ 0 <= z mod 10 < 10 /\ 0 <= z / 10.
Proof.
  intros. pose proof (Z.div_mod z 10). pose proof (Z.mod_pos_bound z 10).
  pose proof (Z.div_pos z 10). lia.
Qed.

Lemma pow10_S (k : nat) : 10 ^ Z.of_nat (S k) = 10 * 10 ^ Z.of_nat k.
Proof. rewrite Nat2Z.inj_succ, Z.pow_succ_r; lia. Qed.

Lemma dec_fuel k : forall k' z, 0 <= z < 10 ^ Z.of_nat k -> z < 10 ^ Z.of_nat k' ->
  (0 < k)%nat -> (0 < k')%nat -> dec k z = dec k' z.
Proof.
  induction k as [|k IH]; intros [|k'] z Hz Hz' Hk Hk'; try lia. simpl.
  destruct (z <? 10) eqn:E; [done|]. zbool. f_equal.
  rewrite pow10_S in *. pose proof (div10 z ltac:(lia)).
  apply IH; try lia; [destruct k|destruct k']; simpl in *; lia.
Qed.

Lemma dec20_step z : 10 <= z < 10 ^ 20 -> dec 20 z = dec 20 (z / 10) ++ [48 + z mod 10].
Proof.
  intros Hz. rewrite (dec_fuel 20 19 (z / 10)); [|pose proof (div10 z); lia..].
  cbn [dec]. by rewrite (proj2 (Z.ltb_ge z 10)) by lia.
Qed.

Lemma dec20_small z : z < 10 -> dec 20 z = [48 + z].
Proof. intros. cbn [dec]. by rewrite (proj2 (Z.ltb_lt z 10)) by lia. Qed.

(** Induction that peels the last digit. *)
Lemma dec20_ind (P : Z -> Prop) :
  (forall z, 0 <= z < 10 -> P z) -> (forall z, 10 <= z < 10 ^ 20 -> P (z / 10) -> P z) ->
  forall z, 0 <= z < 10 ^ 20 -> P z.
Proof.
  intros Hs Hstep z Hz. destruct Hz as [H0 H20]. revert z H0 H20.
  apply (Zlt_0_ind (fun z => z < 10 ^ 20 -> P z)). intros z IH H0 H20.
  destruct (decide (z < 10)); [apply Hs; lia|].
  pose proof (div10 z H0). apply Hstep; [lia|]. apply IH; lia.
Qed.

Lemma dec_length_le k : forall z, (length (dec k z) <= k)%nat.
Proof.
  induction k as [|k IH]; intros z; [done|]. simpl. destruct (z <? 10); simpl; [lia|].
  rewrite length_app. specialize (IH (z / 10)). simpl. lia.
Qed.

#[local] Opaque dec.

(** Value of a digit string continued from [v]. *)
Definition dval (v : Z) (ds : list byte) : Z := foldl (fun a c => a * 10 + (c - 48)) v ds.

Lemma dval_app v a b : dval v (a ++ b) = dval (dval v a) b.
Proof. apply foldl_app. Qed.

Lemma dec_dval z : 0 <= z < 10 ^ 20 -> dval 0 (dec 20 z) = z.
Proof.
  revert z. apply (dec20_ind (fun z => dval 0 (dec 20 z) = z)); intros z Hz.
  - rewrite dec20_small by lia. unfold dval. simpl. lia.
  - intros IH. rewrite dec20_step, dval_app, IH by lia. unfold dval. simpl.
    pose proof (div10 z). lia.
Qed.

Definition digit (c : byte) : Prop := 48 <= c <= 57.

Lemma is_digit_spec c : is_digit c = true <-> digit c.
Proof. unfold is_digit, digit. rewrite andb_true_iff, !Z.leb_le. done. Qed.

(** The notation of a positive number: a nonzero digit, then digits. *)
Lemma dec_canonical z : 0 < z < 10 ^ 20 ->
  exists c ds, dec 20 z = c :: ds /\ 49 <= c <= 57 /\ Forall digit ds.
Proof.
  intros Hz. cut (0 < z -> exists c ds, dec 20 z = c :: ds /\ 49 <= c <= 57 /\ Forall digit ds);
    [intros H; apply H; lia|].
  assert (0 <= z < 10 ^ 20) as Hz' by lia. clear Hz. revert z Hz'.
  apply (dec20_ind (fun z => 0 < z -> exists c ds,
    dec 20 z = c :: ds /\ 49 <= c <= 57 /\ Forall digit ds)); intros z Hz.
  - intros. rewrite dec20_small by lia. exists (48 + z), []. split_and!; auto; lia.
  - intros IH _. pose proof (div10 z). destruct IH as (c & ds & Hd & Hc & Hds); [lia|].
    rewrite dec20_step, Hd by lia. exists c, (ds ++ [48 + z mod 10]). split_and!; auto; try lia.
    apply Forall_app. split; [done|]. constructor; [|done]. unfold digit. lia.
Qed.

Lemma dval_mono ds : Forall digit ds -> forall v, 0 <= v -> v <= dval v ds.
Proof.
  induction 1 as [|c ds Hc Hds IH]; intros v Hv; [done|]. unfold dval in *. cbn [foldl].
  unfold digit in Hc. etransitivity; [|apply IH; lia]. lia.
Qed.

(** A canonical digit string is the notation of its value. *)
Lemma dec_unique c ds : 49 <= c <= 57 -> Forall digit ds -> dval (c - 48) ds < 10 ^ 20 ->
  dec 20 (dval (c - 48) ds) = c :: ds.
Proof.
  intros Hc. induction ds as [|d ds IH] using rev_ind; intros Hds Hlt.
  - unfold dval in *. cbn [foldl] in *. rewrite dec20_small by lia. f_equal. lia.
  - apply Forall_app in Hds as [Hds [Hd _]%Forall_cons]. rewrite dval_app in *.
    unfold dval at 1 in Hlt. unfold dval at 1. cbn [foldl] in *. unfold digit in Hd.
    pose proof (dval_mono ds Hds (c - 48) ltac:(lia)) as Hm. set (w := dval (c - 48) ds) in *.
    assert ((w * 10 + (d - 48)) / 10 = w /\ (w * 10 + (d - 48)) mod 10 = d - 48) as [Hq Hr].
    { split; symmetry; [apply (Z.div_unique_pos _ 10 w (d - 48))|
        apply (Z.mod_unique_pos _ 10 w (d - 48))]; lia. }
    rewrite dec20_step by lia. rewrite Hq, Hr, IH by (done || lia).
    simpl. do 3 f_equal. lia.
Qed.

(** ** Counting digits *)

Lemma dec_length_pos z : 0 <= z < 10 ^ 20 -> (0 < length (dec 20 z))%nat.
Proof.
  intros Hz. destruct (decide (z < 10)); [by rewrite dec20_small by lia; simpl; lia|].
  rewrite dec20_step, length_app by lia. simpl. lia.
Qed.

Lemma dec_length_div j : forall z, 10 ^ Z.of_nat j <= z < 10 ^ 20 ->
  length (dec 20 z) = (j + length (dec 20 (z / 10 ^ Z.of_nat j)))%nat.
Proof.
  induction j as [|j IH]; intros z Hz; [by rewrite Z.div_1_r|].
  rewrite pow10_S in *. pose proof (Z.pow_pos_nonneg 10 (Z.of_nat j)) as Hp.
  pose proof (div10 z ltac:(lia)). rewrite dec20_step, length_app by lia. cbn [length].
  rewrite IH by (split; [apply Z.div_le_lower_bound|]; lia).
  rewrite Z.div_div by lia. lia.
Qed.

(** The number of digits is read off the power of ten below the number. *)
Lemma dec_length_between (n : nat) z : 10 ^ Z.of_nat n <= z < 10 ^ Z.of_nat (S n) -> z < 10 ^ 20 ->
  Z.of_nat (length (dec 20 z)) = Z.of_nat (S n).
Proof.
  intros Hz H20. rewrite (dec_length_div n) by lia. rewrite pow10_S in Hz.
  rewrite dec20_small; [cbn [length]; lia|]. apply Z.div_lt_upper_bound; lia.
Qed.

(** Close a goal about a number known to have [n]+1 digits. *)
Ltac digits_between n := symmetry; apply (dec_length_between n); cbn; lia.

Lemma digits10_rec_small v fuel : 0 <= v < 10 ^ 12 ->
  digits10_rec fuel v = Z.of_nat (length (dec 20 v)).
Proof.
  intros Hv. assert (v < 10 ^ 12) as H12 by lia. cbn in H12.
  destruct fuel; unfold digits10_rec;
  (destruct (v <? 10) eqn:E1; zbool; [by rewrite dec20_small by lia|];
   destruct (v <? 100) eqn:E2; zbool; [digits_between 1%nat|];
   destruct (v <? 1000) eqn:E3; zbool; [digits_between 2%nat|];
   rewrite (proj2 (Z.ltb_lt v 1000000000000)) by lia;
   destruct (v <? 100000000) eqn:E4; zbool;
   [destruct (v <? 1000000) eqn:E5; zbool;
    [destruct (v <? 10000) eqn:E6; zbool; [digits_between 3%nat|];
     destruct (v >=? 100000) eqn:E7; zbool; [digits_between 5%nat|digits_between 4%nat]|
     destruct (v >=? 10000000) eqn:E7; zbool; [digits_between 7%nat|digits_between 6%nat]]|
    destruct (v <? 10000000000) eqn:E5; zbool;
    [destruct (v >=? 1000000000) eqn:E7; zbool; [digits_between 9%nat|digits_between 8%nat]|
     destruct (v >=? 100000000000) eqn:E7; zbool; [digits_between 11%nat|digits_between 10%nat]]]).
Qed.

Lemma digits10_spec v : 0 <= v < 2 ^ 64 -> digits10 v = Z.of_nat (length (dec 20 v)).
Proof.
  intros Hv. unfold digits10. limits.
  destruct (decide (v < 10 ^ 12)); [apply digits10_rec_small; lia|].
  cbn in n. cbn [digits10_rec].
  rewrite (proj2 (Z.ltb_ge v 10)), (proj2 (Z.ltb_ge v 100)), (proj2 (Z.ltb_ge v 1000)),
    (proj2 (Z.ltb_ge v 1000000000000)) by lia.
  change (12 + digits10_rec 1 (v / 1000000000000) = Z.of_nat (length (dec 20 v))).
  rewrite digits10_rec_small.
  - rewrite (dec_length_div 12 v) by (cbn; lia).
    change (10 ^ Z.of_nat 12) with 1000000000000. lia.
  - cbn. split; [apply Z.div_pos; lia|apply Z.div_lt_upper_bound; lia].
Qed.

(** ** Parsing *)

Lemma ULLONG_MAX_div10 : ULLONG_MAX / 10 = 1844674407370955161.
Proof. reflexivity. Qed.

(** The loop consumes the longest digit prefix, or overflows. *)
Lemma string2ll_loop_sound p : forall v r rest, 0 <= v <= ULLONG_MAX ->
  string2ll_loop p v = Some (r, rest) ->
  exists ds, p = ds ++ rest /\ Forall digit ds /\ r = dval v ds /\ r <= ULLONG_MAX.
Proof.
  induction p as [|c p IH]; intros v r rest Hv Hl; simpl in Hl.
  { simplify_eq. exists []. by split_and!; [|constructor| |lia]. }
  destruct (is_digit c) eqn:Hc; [|simplify_eq; exists []; by split_and!; [|constructor| |lia]].
  apply is_digit_spec in Hc. unfold digit in Hc.
  destruct (v >? ULLONG_MAX / 10) eqn:E1; [done|]. rewrite ULLONG_MAX_div10 in E1. zbool. limits. rewrite (uwrap_small 64 (v * 10)) in Hl by (limits; lia).
  destruct (v * 10 >? _) eqn:E2; [done|]. zbool.
  rewrite uwrap_small in Hl by (limits; lia).
  destruct (IH (v * 10 + (c - 48)) r rest ltac:(lia) Hl) as (ds & -> & Hds & -> & Hle).
  exists (c :: ds). split_and!; auto.
Qed.

Lemma string2ll_loop_complete ds : Forall digit ds -> forall v, 0 <= v ->
  dval v ds <= ULLONG_MAX -> string2ll_loop ds v = Some (dval v ds, []).
Proof.
  induction 1 as [|c ds Hc Hds IH]; intros v Hv Hle; [done|]. simpl.
  pose proof Hc as Hc'. apply is_digit_spec in Hc' as ->. unfold digit in Hc.
  unfold dval in Hle. cbn [foldl] in Hle. fold (dval (v * 10 + (c - 48)) ds) in Hle.
  pose proof (dval_mono ds Hds (v * 10 + (c - 48)) ltac:(lia)) as Hm.
  rewrite ULLONG_MAX_div10. limits. destruct (v >? _) eqn:E1; [zlia|]. rewrite (uwrap_small 64 (v * 10)) by (limits; lia).
  destruct (v * 10 >? _) eqn:E2; [zlia|]. rewrite uwrap_small by (limits; lia).
  rewrite IH by lia. done.
Qed.

Lemma dec_20_bound v : 0 <= v <= ULLONG_MAX -> v < 10 ^ 20.
Proof. unfold ULLONG_MAX. limits. lia. Qed.

Lemma string2ll_sound s v : string2ll s = Some v -> in_s 64 v /\ s = decimal v.
Proof.
  destruct s as [|c0 s]; [done|]. simpl. intros Hs.
  destruct ((length s =? 0)%nat && (c0 =? 48)) eqn:E0.
  { simplify_eq. apply andb_true_iff in E0 as [E0 ->%Z.eqb_eq].
    apply Nat.eqb_eq, nil_length_inv in E0 as ->. split; [limits; lia|].
    unfold decimal. by rewrite dec20_small. }
  destruct (if c0 =? 45 then s else c0 :: s) as [|c p] eqn:Ep; [done|].
  destruct ((49 <=? c) && (c <=? 57)) eqn:Ec; [|done]. zbool.
  destruct (string2ll_loop p (c - 48)) as [[w [|]]|] eqn:El; simpl in Hs; try done.
  apply string2ll_loop_sound in El as (ds & -> & Hds & -> & Hle); [|limits; lia].
  rewrite app_nil_r in Ep. pose proof (dval_mono ds Hds (c - 48) ltac:(lia)) as Hm.
  pose proof (dec_unique c ds ltac:(lia) Hds (dec_20_bound (dval (c - 48) ds) ltac:(lia))) as Hu.
  generalize dependent (dval (c - 48) ds). intros w Hle Hs Hm Hu. unfold decimal.
  destruct (c0 =? 45) eqn:En; zbool.
  - change (u64 (u64 (- (LLONG_MIN + 1)) + 1)) with (2 ^ 63) in Hs.
    destruct (w >? 2 ^ 63) eqn:Eo; [done|]. zbool. simplify_eq.
    rewrite swrap_uwrap, swrap_small by (limits; lia). split; [limits; lia|].
    rewrite (proj2 (Z.ltb_lt (- w) 0)) by lia. by rewrite Z.opp_involutive, Hu.
  - destruct (w >? LLONG_MAX) eqn:Eo; [done|]. zbool. simplify_eq. split; [limits; lia|].
    by rewrite (proj2 (Z.ltb_ge v 0)) by lia.
Qed.

Lemma string2ll_complete v : in_s 64 v -> string2ll (decimal v) = Some v.
Proof.
  intros Hv. unfold decimal. destruct (v <? 0) eqn:E; zbool.
  - destruct (dec_canonical (- v)) as (c & ds & Hd & Hc & Hds); [limits; lia|].
    pose proof (dec_dval (- v) ltac:(limits; lia)) as Hval. rewrite Hd in *. simpl.
    rewrite (proj2 (Z.leb_le 49 c)), (proj2 (Z.leb_le c 57)) by lia. simpl.
    unfold dval in Hval. cbn [foldl] in Hval. rewrite Z.mul_0_l, Z.add_0_l in Hval. fold (dval (c - 48) ds) in Hval.
    rewrite string2ll_loop_complete, Hval by (done || limits; lia). simpl.
    change (u64 (u64 (- (LLONG_MIN + 1)) + 1)) with (2 ^ 63).
    destruct (- v >? 2 ^ 63) eqn:Eo; [limits; zlia|].
    by rewrite Z.opp_involutive, swrap_uwrap, swrap_small.
  - destruct (decide (v = 0)) as [-> |]; [by rewrite dec20_small|].
    destruct (dec_canonical v) as (c & ds & Hd & Hc & Hds); [limits; lia|].
    pose proof (dec_dval v ltac:(limits; lia)) as Hval. rewrite Hd in *. simpl.
    rewrite (proj2 (Z.eqb_neq c 48)), andb_false_r, (proj2 (Z.eqb_neq c 45)) by lia.
    rewrite (proj2 (Z.leb_le 49 c)), (proj2 (Z.leb_le c 57)) by lia. simpl.
    unfold dval in Hval. cbn [foldl] in Hval. rewrite Z.mul_0_l, Z.add_0_l in Hval. fold (dval (c - 48) ds) in Hval.
    rewrite string2ll_loop_complete, Hval by (done || limits; lia). simpl.
    destruct (v >? LLONG_MAX) eqn:Eo; [limits; zlia|done].
Qed.

(** [string2ll] accepts exactly the canonical decimal notations of the
    64-bit signed integers (no leading zero, sign or space, no overflow) and
    returns their value; so a number it accepts can be printed back without
    loss. *)
Theorem string2ll_correct s v : string2ll s = Some v <-> in_s 64 v /\ s = decimal v.
Proof.
  split; [apply string2ll_sound|]. intros [Hv ->]. by apply string2ll_complete.
Qed.

(** ** Printing *)

Lemma digits_pair i : 0 <= i < 100 ->
  digits !! Z.to_nat (i * 2) = Some (48 + i / 10) /\
  digits !! Z.to_nat (i * 2 + 1) = Some (48 + i mod 10).
Proof.
  intros Hi. cut (bool_decide (digits !! Z.to_nat (i * 2) = Some (48 + i / 10) /\
    digits !! Z.to_nat (i * 2 + 1) = Some (48 + i mod 10)) = true); [apply bool_decide_eq_true_1|].
  revert i Hi. apply (all_below_spec 100 (fun i => bool_decide _)). vm_compute. reflexivity.
Qed.

Lemma put_app p q r x i : i = Z.of_nat (length p) ->
  put (p ++ q :: r) i x = Some (p ++ x :: r).
Proof. intros. unfold put. by apply (store_app p [q] r [x]). Qed.

(** Two digits at a time. *)
Lemma dec20_step2 z : 100 <= z < 10 ^ 20 ->
  dec 20 z = dec 20 (z / 100) ++ [48 + z mod 100 / 10; 48 + z mod 100 mod 10].
Proof.
  intros Hz. pose proof (div10 z). rewrite !dec20_step by lia.
  rewrite Z.div_div by lia. rewrite <- app_assoc. change (10 * 10) with 100. simpl.
  assert (z mod 100 = z mod 10 + 10 * ((z / 10) mod 10)) as Hm
    by (change 100 with (10 * 10); apply Z.rem_mul_r; lia).
  pose proof (div10 (z mod 100)). pose proof (div10 (z / 10)). pose proof (Z.mod_pos_bound z 100).
  do 3 f_equal; [|f_equal]; lia.
Qed.

(** The last two digits are written over the two slots before [next]. *)
Lemma snoc2 {A} (l : list A) n : length l = S (S n) -> exists p x y, l = p ++ [x; y] /\ length p = n.
Proof.
  intros Hl. pose proof (take_drop n l) as Htd.
  assert (length (drop n l) = 2%nat) as Hd by (rewrite length_drop; lia).
  destruct (drop n l) as [|x [|y [|]]]; try done. exists (take n l), x, y. split; [done|].
  rewrite length_take. lia.
Qed.

Lemma ll2string_loop_spec fuel : forall neg A suffix value,
  0 <= value < 10 ^ 20 -> value < 100 ^ Z.of_nat (S fuel) -> 0 <= neg <= 1 ->
  Z.of_nat (length A) = neg + Z.of_nat (length (dec 20 value)) ->
  exists A' value' written,
    ll2string_loop fuel (A ++ suffix) value (Z.of_nat (length A) - 1)
      = Some (A' ++ written ++ suffix, value', Z.of_nat (length A') - 1) /\
    0 <= value' < 100 /\ dec 20 value = dec 20 value' ++ written /\
    Z.of_nat (length A') = neg + Z.of_nat (length (dec 20 value')).
Proof.
  induction fuel as [|fuel IH]; intros neg A suffix value Hv Hf Hneg HA; simpl.
  all: destruct (value >=? 100) eqn:E; zbool;
    [|exists A, value, []; by split_and!; [|lia|lia|rewrite app_nil_r|]].
  { change (100 ^ Z.of_nat 1) with 100 in Hf. lia. }
  rewrite dec20_step2, length_app in HA by lia. cbn [length] in HA.
  assert (0 <= value / 100 < 10 ^ 20) as Hq.
  { split; [apply Z.div_pos; lia|]. apply Z.div_lt_upper_bound; lia. }
  pose proof (dec_length_pos _ Hq).
  destruct (snoc2 A (length A - 2)) as (p & x & y & -> & Hp); [lia|].
  destruct (digits_pair (value mod 100) (Z.mod_pos_bound value 100 ltac:(lia))) as [H0 H1].
  rewrite length_app in *. cbn [length] in *.
  pose proof (dec_length_le 20 (value / 100)) as Hp31.
  rewrite H1. cbn [mbind option_bind].
  rewrite <- app_assoc. cbn [app]. change (p ++ x :: y :: suffix) with (p ++ [x] ++ y :: suffix).
  rewrite app_assoc, put_app by (rewrite length_app; simpl; lia). cbn [mbind option_bind].
  rewrite H0. cbn [mbind option_bind]. rewrite <- app_assoc. cbn [app].
  rewrite !uwrap_small by (limits; lia). rewrite put_app by lia. cbn [mbind option_bind].
  destruct (IH neg p (48 + value mod 100 / 10 :: 48 + value mod 100 mod 10 :: suffix) (value / 100))
    as (A' & value' & w & Hl & Hv' & Hd & HA'); [done| |done|lia|].
  { rewrite Nat2Z.inj_succ, Z.pow_succ_r in Hf by lia. apply Z.div_lt_upper_bound; lia. }
  replace (Z.of_nat (length p + 2) - 1 - 2) with (Z.of_nat (length p) - 1) by lia.
  rewrite Hl. 
  exists A', value', (w ++ [48 + value mod 100 / 10; 48 + value mod 100 mod 10]). rewrite <- app_assoc. split_and!; [done|lia|lia| |done].
  by rewrite dec20_step2, Hd, <- app_assoc by lia.
Qed.

(** The magnitude of a 64-bit value, as the code computes it. *)
Lemma magnitude v : in_s 64 v ->
  (if v <? 0 then if negb (v =? LLONG_MIN) then u64 (- v) else u64 (LLONG_MAX + 1) else v)
  = Z.abs v.
Proof.
  intros Hv. destruct (v <? 0) eqn:E; zbool; [|lia].
  destruct (v =? LLONG_MIN) eqn:E2; zbool; simpl.
  - subst. done.
  - rewrite uwrap_small; limits; lia.
Qed.

Lemma decimal_abs v : decimal v = (if v <? 0 then [45] else []) ++ dec 20 (Z.abs v).
Proof. unfold decimal. destruct (v <? 0) eqn:E; zbool; simpl; repeat f_equal; lia. Qed.

(** The last one or two digits. *)
Lemma last_digits neg A value suffix : 0 <= value < 100 -> 0 <= neg <= 1 ->
  Z.of_nat (length A) = neg + Z.of_nat (length (dec 20 value)) ->
  exists A', Z.of_nat (length A') = neg /\
  (if value <? 10 then put (A ++ suffix) (Z.of_nat (length A) - 1) (48 + value)
   else
     c1 ← digits !! Z.to_nat (value * 2 + 1);
     dst ← put (A ++ suffix) (Z.of_nat (length A) - 1) c1;
     c0 ← digits !! Z.to_nat (value * 2);
     put dst (u32 (Z.of_nat (length A) - 1 - 1)) c0) = Some (A' ++ dec 20 value ++ suffix).
Proof.
  intros Hv Hneg HA. destruct (value <? 10) eqn:E; zbool.
  - rewrite dec20_small in * by lia. cbn [length] in HA.
    destruct A as [|y p _] using rev_ind; [simpl in HA; lia|]. rewrite length_app in *. cbn [length] in *.
    exists p. split; [lia|]. rewrite <- app_assoc. cbn [app]. by rewrite put_app by lia.
  - rewrite dec20_step, (dec20_small (value / 10)) in * by (pose proof (div10 value); lia).
    rewrite length_app in HA. cbn [length] in HA.
    destruct (snoc2 A (length A - 2)) as (p & x & y & -> & Hp); [lia|].
    destruct (digits_pair value Hv) as [H0 H1].
    rewrite length_app in *. cbn [length] in *. rewrite H0, H1. cbn [mbind option_bind].
    exists p. split; [lia|]. rewrite <- !app_assoc. cbn [app].
    change (p ++ x :: y :: suffix) with (p ++ [x] ++ y :: suffix).
    rewrite app_assoc, put_app by (rewrite length_app; simpl; lia). cbn [mbind option_bind].
    rewrite <- app_assoc. cbn [app]. rewrite uwrap_small by (limits; lia). by rewrite put_app by lia.
Qed.

Lemma ll2string_spec dst v : in_s 64 v ->
  ll2string dst (Z.of_nat (length dst)) v =
    if Z.of_nat (length (decimal v)) <? Z.of_nat (length dst)
    then Some (decimal v ++ 0 :: drop (S (length (decimal v))) dst, Z.of_nat (length (decimal v)))
    else Some (dst, 0).
Proof.
  intros Hv. unfold ll2string. rewrite magnitude by done. rewrite decimal_abs.
  assert (0 <= Z.abs v < 2 ^ 64) as Ha by (limits; lia).
  pose proof (dec_length_le 20 (Z.abs v)) as H20.
  rewrite digits10_spec by done.
  set (neg := Z.b2z (v <? 0)).
  assert (0 <= neg <= 1) as Hneg by (subst neg; destruct (v <? 0); simpl; lia).
  assert (Z.of_nat (length ((if v <? 0 then [45] else []) ++ dec 20 (Z.abs v)))
    = Z.of_nat (length (dec 20 (Z.abs v))) + neg) as Hlen.
  { subst neg. rewrite length_app. destruct (v <? 0); simpl; lia. }
  rewrite Hlen, (uwrap_small 32) by (limits; lia). set (n := Z.of_nat (length (dec _ _)) + neg) in *.
  rewrite Z.geb_leb, Z.leb_antisym. destruct (n <? _) eqn:E; zbool; simpl negb; [|done].
  assert (0 <= Z.abs v < 10 ^ 20) as Ha' by (limits; lia). pose proof (dec_length_pos _ Ha').
  rewrite (uwrap_small 32) by (limits; lia).
  destruct (lookup_lt_is_Some_2 dst (Z.to_nat n)) as [q Hq]; [lia|].
  apply take_drop_middle in Hq. set (A := take (Z.to_nat n) dst) in *.
  assert (Z.of_nat (length A) = n) as HA by (subst A; rewrite length_take; lia).
  replace (S (length _)) with (S (Z.to_nat n)) by lia. set (rest := drop (S (Z.to_nat n)) dst) in *.
  rewrite <- Hq, <- HA. rewrite put_app by done. cbn [mbind option_bind].
  destruct (ll2string_loop_spec 10 neg A (0 :: rest) (Z.abs v)) as (A1 & v1 & w & -> & Hv1 & Hd & HA1);
    [done|limits; lia|done|lia|]. cbn [mbind option_bind].
  destruct (last_digits neg A1 v1 (w ++ 0 :: rest) Hv1 Hneg HA1) as (A2 & HA2 & ->).
  cbn [mbind option_bind]. rewrite (app_assoc (dec 20 v1)), <- Hd. subst neg.
  destruct (v <? 0); simpl in HA2.
  - destruct A2 as [|a [|]]; simpl in HA2; try lia.
    by rewrite (put_app [] a _ 45 0 eq_refl : put ([a] ++ _) 0 45 = _).
  - destruct A2; [done|simpl in HA2; lia].
Qed.

(** [ll2string] writes the decimal notation of a 64-bit integer and a
    terminating NUL at the start of the buffer, leaves the rest of the buffer
    alone and returns the length; it returns 0 and writes nothing exactly when
    the notation and the NUL do not fit.  No write leaves the buffer. *)
Theorem ll2string_correct dst v : in_s 64 v ->
  ll2string dst (Z.of_nat (length dst)) v =
    if Z.of_nat (length (decimal v)) <? Z.of_nat (length dst)
    then Some (decimal v ++ 0 :: drop (S (length (decimal v))) dst, Z.of_nat (length (decimal v)))
    else Some (dst, 0).
Proof. apply ll2string_spec. Qed.

Lemma decimal_length v : (1 <= length (decimal v) <= 21)%nat.
Proof.
  pose proof (dec_length_le 20 v). pose proof (dec_length_le 20 (- v)). unfold decimal.
  destruct (v <? 0); cbn [length]; [lia|]. split; [|lia]. destruct (dec 20 v) eqn:E; [|simpl; lia].
  cbn [dec] in E. destruct (v <? 10); [done|]. by apply app_eq_nil in E as [_ ?].
Qed.

Lemma decimal_short v : in_s 64 v -> Z.of_nat (length (decimal v)) < 21.
Proof.
  intros Hv. unfold decimal. pose proof (dec_length_le 20 v). pose proof (dec_length_le 20 (- v)).
  destruct (v <? 0) eqn:E; simpl; zbool; [|lia].
  rewrite (dec_fuel 20 19) in * by (limits; lia). pose proof (dec_length_le 19 (- v)). lia.
Qed.

(** Printing into a fresh buffer. *)
Lemma print_ll junk n v : in_s 64 v -> 21 <= n -> exists r, ll2string (malloc junk n) n v = Some r /\ load r.1 0 r.2 = Some (decimal v).
Proof.
  intros Hv Hn. pose proof (malloc_length junk n ltac:(lia)) as Hl. pose proof (decimal_short v Hv).
  pose proof (ll2string_spec (malloc junk n) v Hv) as Hs. rewrite Hl in Hs. rewrite Hs, (proj2 (Z.ltb_lt _ _)) by lia.
  eexists. split; [done|]. cbn [fst snd]. apply (load_app [] (decimal v)); done.
Qed.

(** Printing then parsing is the identity on every 64-bit integer: what
    [ll2string] leaves in a 21-byte or larger buffer, [string2ll] reads back. *)
Theorem ll2string_string2ll dst v : in_s 64 v -> 21 <= Z.of_nat (length dst) ->
  exists dst' n, ll2string dst (Z.of_nat (length dst)) v = Some (dst', Z.of_nat n) /\
    string2ll (take n dst') = Some v.
Proof.
  intros Hv Hd. rewrite ll2string_spec by done.
  pose proof (decimal_short v Hv).
  rewrite (proj2 (Z.ltb_lt _ _)) by lia. eexists _, _. split; [done|].
  rewrite take_app_length. by apply string2ll_complete.
Qed.

(** [sdigits10] is the length of the text [ll2string] produces. *)
Theorem sdigits10_correct v : in_s 64 v -> sdigits10 v = Z.of_nat (length (decimal v)).
Proof.
  intros Hv. unfold sdigits10. pose proof (magnitude v Hv) as Hm. rewrite decimal_abs, length_app.
  destruct (v <? 0) eqn:E; zbool; cbn [length app].
  - rewrite Hm, digits10_spec by (limits; lia). lia.
  - rewrite digits10_spec by (limits; lia). by rewrite Z.abs_eq.
Qed.

#[local] Transparent dec.

(** ** Witnesses *)

Lemma ll2string_correct_witness :
  ll2string (replicate 8 170) 8 (-1234) = Some ([45; 49; 50; 51; 52; 0; 170; 170], 5) /\
  ll2string (replicate 5 170) 5 (-1234) = Some (replicate 5 170, 0).
Proof.
  split.
  - etransitivity; [apply (ll2string_correct (replicate 8 170) (-1234)); limits; lia|reflexivity].
  - etransitivity; [apply (ll2string_correct (replicate 5 170) (-1234)); limits; lia|reflexivity].
Defined.

Lemma ll2string_string2ll_witness : exists dst' n,
  ll2string (replicate 21 0) 21 LLONG_MIN = Some (dst', Z.of_nat n) /\
  string2ll (take n dst') = Some LLONG_MIN.
Proof. apply (ll2string_string2ll (replicate 21 0) LLONG_MIN); limits; simpl; lia. Defined.

Lemma sdigits10_correct_witness : sdigits10 LLONG_MIN = 20.
Proof. rewrite sdigits10_correct by (limits; lia). reflexivity. Defined.
