(* ===== verification/Sds.v ===== *)
(** * Dynamic strings (src/redis-5.0.7/src/sds.c, sds.h)

    An sds is a header (flags byte, length and allocation fields of the width
    the type selects) followed by a byte buffer that holds the string, a
    terminating NUL and free space.  The record [sds] is that block; buffer
    accesses are bounds-checked and a failed assertion has no value.  Freshly
    allocated bytes are indeterminate ([junk]); like zmalloc, allocation does not
    fail.  [content] relates an sds to the byte string it stands for. *)

From S2P Require Import Prelude Util.
From stdpp Require Import strings.
Local Open Scope Z_scope.

(** ** Data *)

Record sds := mkSds {
  s_flags : Z;   (* unsigned char: 3 lsb of type, 5 msb of length for type 5 *)
  s_len : Z;     (* sdshdrN.len, N the width of the type *)
  s_alloc : Z;   (* sdshdrN.alloc *)
  s_buf : list byte;
}.

Definition SDS_MAX_PREALLOC : Z := 1024 * 1024.
Definition SDS_TYPE_5 : Z := 0.
Definition SDS_TYPE_8 : Z := 1.
Definition SDS_TYPE_16 : Z := 2.
Definition SDS_TYPE_32 : Z := 3.
Definition SDS_TYPE_64 : Z := 4.
Definition SDS_TYPE_MASK : Z := 7.
Definition SDS_TYPE_BITS : Z := 3.
Definition SDS_LLSTR_SIZE : Z := 21.

(** ** Header access (sds.h) *)

Definition sds_type (s : sds) : Z := Z.land (s_flags s) SDS_TYPE_MASK.

(** The width of [len] and [alloc]; type 5 and unknown types have no fields. *)
Definition hdr_width (type : Z) : option Z :=
  if type =? SDS_TYPE_8 then Some 8
  else if type =? SDS_TYPE_16 then Some 16
  else if type =? SDS_TYPE_32 then Some 32
  else if type =? SDS_TYPE_64 then Some 64
  else None.

Definition SDS_TYPE_5_LEN (f : Z) : Z := Z.shiftr f SDS_TYPE_BITS.

Definition sdslen (s : sds) : Z :=
  if sds_type s =? SDS_TYPE_5 then SDS_TYPE_5_LEN (s_flags s)
  else match hdr_width (sds_type s) with Some _ => s_len s | None => 0 end.

(** Types 8 and 16 subtract as int, converted to size_t on return. *)
Definition sdsavail (s : sds) : Z :=
  if sds_type s =? SDS_TYPE_5 then 0
  else match hdr_width (sds_type s) with
       | Some w => if w =? 32 then u32 (s_alloc s - s_len s) else u64 (s_alloc s - s_len s)
       | None => 0
       end.

Definition sdssetlen (s : sds) (newlen : Z) : sds :=
  if sds_type s =? SDS_TYPE_5 then
    mkSds (u8 (Z.lor SDS_TYPE_5 (Z.shiftl newlen SDS_TYPE_BITS))) (s_len s) (s_alloc s) (s_buf s)
  else match hdr_width (sds_type s) with
       | Some w => mkSds (s_flags s) (uwrap w newlen) (s_alloc s) (s_buf s)
       | None => s
       end.

Definition sdsalloc (s : sds) : Z :=
  if sds_type s =? SDS_TYPE_5 then SDS_TYPE_5_LEN (s_flags s)
  else match hdr_width (sds_type s) with Some _ => s_alloc s | None => 0 end.

Definition sdssetalloc (s : sds) (newlen : Z) : sds :=
  match hdr_width (sds_type s) with
  | Some w => mkSds (s_flags s) (s_len s) (uwrap w newlen) (s_buf s)
  | None => s
  end.

(** [s[i] = c], [memcpy(s+i, t, len)] *)
Definition sds_write (s : sds) (i : Z) (t : list byte) : option sds :=
  b ← store (s_buf s) i t; Some (mkSds (s_flags s) (s_len s) (s_alloc s) b).

(** ** Allocation (sds.c) *)

Definition sdsHdrSize (type : Z) : Z :=
  let type := Z.land type SDS_TYPE_MASK in
  if type =? SDS_TYPE_5 then 1
  else if type =? SDS_TYPE_8 then 3
  else if type =? SDS_TYPE_16 then 5
  else if type =? SDS_TYPE_32 then 9
  else if type =? SDS_TYPE_64 then 17
  else 0.

Definition sdsReqType (string_size : Z) : Z :=
  if string_size <? 2 ^ 5 then SDS_TYPE_5
  else if string_size <? 2 ^ 8 then SDS_TYPE_8
  else if string_size <? 2 ^ 16 then SDS_TYPE_16
  else if string_size <? 2 ^ 32 then SDS_TYPE_32
  else SDS_TYPE_64.

Section alloc.
Context (junk : nat -> byte).

(** The argument [init] of [sdsnewlen]: a pointer to the bytes to copy, NULL or
    SDS_NOINIT. *)
Inductive sds_init := InitBytes (t : list byte) | InitNULL | InitNOINIT.

(** [memset] zeroes the header as well, but every field is assigned below. *)
Definition sdsnewlen (init : sds_init) (initlen : Z) : option sds :=
  let type := sdsReqType initlen in
  let type := if (type =? SDS_TYPE_5) && (initlen =? 0) then SDS_TYPE_8 else type in
  let hdrlen := sdsHdrSize type in
  let buflen := u64 (hdrlen + initlen + 1) - hdrlen in
  let buf := match init with
             | InitNULL => replicate (Z.to_nat buflen) 0
             | _ => malloc junk buflen
             end in
  let s := if type =? SDS_TYPE_5
           then mkSds (u8 (Z.lor type (Z.shiftl initlen SDS_TYPE_BITS))) 0 0 buf
           else match hdr_width type with
                | Some w => mkSds type (uwrap w initlen) (uwrap w initlen) buf
                | None => mkSds type 0 0 buf
                end in
  s ← (match init with
       | InitBytes t =>
           if initlen =? 0 then Some s else bs ← load t 0 initlen; sds_write s 0 bs
       | _ => Some s
       end);
  sds_write s initlen [0].

Definition sdsempty : option sds := sdsnewlen (InitBytes []) 0.

Definition sdsdup (s : sds) : option sds := sdsnewlen (InitBytes (s_buf s)) (sdslen s).

Definition sdsclear (s : sds) : option sds := sds_write (sdssetlen s 0) 0 [0].

Definition sdsMakeRoomFor (s : sds) (addlen : Z) : option sds :=
  let avail := sdsavail s in
  let oldtype := Z.land (s_flags s) SDS_TYPE_MASK in
  if avail >=? addlen then Some s
  else
    let len := sdslen s in
    let newlen := u64 (len + addlen) in
    let newlen := if newlen <? SDS_MAX_PREALLOC then u64 (newlen * 2) else u64 (newlen + SDS_MAX_PREALLOC) in
    let type := sdsReqType newlen in
    let type := if type =? SDS_TYPE_5 then SDS_TYPE_8 else type in
    let hdrlen := sdsHdrSize type in
    let buflen := u64 (hdrlen + newlen + 1) - hdrlen in
    s ← (if oldtype =? type then
           Some (mkSds (s_flags s) (s_len s) (s_alloc s) (realloc junk (s_buf s) buflen))
         else
           bs ← load (s_buf s) 0 (len + 1);
           buf ← store (malloc junk buflen) 0 bs;
           (* the two fields of the new header are set below *)
           Some (sdssetlen (mkSds type 0 0 buf) len));
    Some (sdssetalloc s newlen).

Definition sdsRemoveFreeSpace (s : sds) : option sds :=
  let oldtype := Z.land (s_flags s) SDS_TYPE_MASK in
  let oldhdrlen := sdsHdrSize oldtype in
  let len := sdslen s in
  let avail := sdsavail s in
  if avail =? 0 then Some s
  else
    let type := sdsReqType len in
    let hdrlen := sdsHdrSize type in
    s ← (if (oldtype =? type) || (type >? SDS_TYPE_8) then
           Some (mkSds (s_flags s) (s_len s) (s_alloc s)
                   (realloc junk (s_buf s) (u64 (oldhdrlen + len + 1) - oldhdrlen)))
         else
           bs ← load (s_buf s) 0 (len + 1);
           buf ← store (malloc junk (u64 (hdrlen + len + 1) - hdrlen)) 0 bs;
           Some (sdssetlen (mkSds type 0 0 buf) len));
    Some (sdssetalloc s len).

Definition sdsAllocSize (s : sds) : Z := u64 (sdsHdrSize (s_flags s) + sdsalloc s + 1).

(** [incr] is a ssize_t; the assertion and the casts differ with the type. *)
Definition sdsIncrLen (s : sds) (incr : Z) : option sds :=
  if sds_type s =? SDS_TYPE_5 then
    let oldlen := SDS_TYPE_5_LEN (s_flags s) in
    if ((incr >? 0) && (oldlen + incr <? 32)) || ((incr <? 0) && (oldlen >=? u32 (- incr))) then
      sds_write (mkSds (u8 (Z.lor SDS_TYPE_5 (Z.shiftl (oldlen + incr) SDS_TYPE_BITS)))
                   (s_len s) (s_alloc s) (s_buf s))
        (u64 (oldlen + incr)) [0]
    else None
  else
    match hdr_width (sds_type s) with
    | Some w =>
        let room :=
          if w =? 64 then u64 (s_alloc s - s_len s) >=? u64 incr
          else if w =? 32 then u32 (s_alloc s - s_len s) >=? u32 incr
          else s_alloc s - s_len s >=? incr in
        let back := s_len s >=? (if w =? 64 then u64 (- incr) else u32 (- incr)) in
        if ((incr >=? 0) && room) || ((incr <? 0) && back) then
          let len := uwrap w (s_len s + incr) in
          sds_write (mkSds (s_flags s) len (s_alloc s) (s_buf s)) len [0]
        else None
    | None => sds_write s 0 [0]
    end.

Definition sdsgrowzero (s : sds) (len : Z) : option sds :=
  let curlen := sdslen s in
  if len <=? curlen then Some s
  else
    s ← sdsMakeRoomFor s (u64 (len - curlen));
    s ← sds_write s curlen (replicate (Z.to_nat (u64 (len - curlen + 1))) 0);
    Some (sdssetlen s len).

(** [t] is the block of [len] bytes copied. *)
Definition sdscatlen (s : sds) (t : list byte) (len : Z) : option sds :=
  let curlen := sdslen s in
  s ← sdsMakeRoomFor s len;
  bs ← load t 0 len;
  s ← sds_write s curlen bs;
  let s := sdssetlen s (u64 (curlen + len)) in
  sds_write s (u64 (curlen + len)) [0].

Definition sdscatsds (s t : sds) : option sds := sdscatlen s (s_buf t) (sdslen t).

Definition sdscpylen (s : sds) (t : list byte) (len : Z) : option sds :=
  s ← (if sdsalloc s <? len then sdsMakeRoomFor s (u64 (len - sdslen s)) else Some s);
  bs ← load t 0 len;
  s ← sds_write s 0 bs;
  s ← sds_write s len [0];
  Some (sdssetlen s len).
End alloc.

(** ** In-place operations *)

(** strchr(3) != NULL: the terminating NUL of [cset] is found as well. *)
Definition strchr (cset : list byte) (c : byte) : bool := bool_decide (c ∈ cset) || (c =? 0).

(** [while(sp <= end && strchr(cset, *sp)) sp++] *)
Fixpoint trim_left (fuel : nat) (buf : list byte) (cset : list byte) (sp last : Z) : option Z :=
  if sp <=? last then
    c ← getb buf sp;
    if strchr cset c then
      match fuel with O => None | S fuel => trim_left fuel buf cset (sp + 1) last end
    else Some sp
  else Some sp.

(** [while(ep > sp && strchr(cset, *ep)) ep--] *)
Fixpoint trim_right (fuel : nat) (buf : list byte) (cset : list byte) (sp ep : Z) : option Z :=
  if ep >? sp then
    c ← getb buf ep;
    if strchr cset c then
      match fuel with O => None | S fuel => trim_right fuel buf cset sp (ep - 1) end
    else Some ep
  else Some ep.

(** Pointers are offsets from [s]. *)
Definition sdstrim (s : sds) (cset : list byte) : option sds :=
  let last := sdslen s - 1 in
  let fuel := Z.to_nat (sdslen s) in
  sp ← trim_left fuel (s_buf s) cset 0 last;
  ep ← trim_right fuel (s_buf s) cset sp last;
  let len := if sp >? ep then 0 else ep - sp + 1 in
  buf ← (if sp =? 0 then Some (s_buf s) else memmove (s_buf s) 0 sp len);
  s ← sds_write (mkSds (s_flags s) (s_len s) (s_alloc s) buf) len [0];
  Some (sdssetlen s len).

(** [start], [end] are ssize_t, [newlen] and [len] size_t. *)
Definition sdsrange (s : sds) (start end_ : Z) : option sds :=
  let len := sdslen s in
  if len =? 0 then Some s
  else
    let start := if start <? 0
                 then let x := s64 (len + start) in if x <? 0 then 0 else x else start in
    let end_ := if end_ <? 0
                then let x := s64 (len + end_) in if x <? 0 then 0 else x else end_ in
    let newlen := if start >? end_ then 0 else u64 (s64 (s64 (end_ - start) + 1)) in
    let '(start, newlen) :=
      if negb (newlen =? 0) then
        if start >=? s64 len then (start, 0)
        else if end_ >=? s64 len then
          let end_ := s64 (len - 1) in
          (start, if start >? end_ then 0 else u64 (s64 (s64 (end_ - start) + 1)))
        else (start, newlen)
      else (0, newlen) in
    buf ← (if negb (start =? 0) && negb (newlen =? 0)
           then memmove (s_buf s) 0 start newlen else Some (s_buf s));
    s ← sds_write (mkSds (s_flags s) (s_len s) (s_alloc s) buf) newlen [0];
    Some (sdssetlen s newlen).

(** tolower(3) and toupper(3) in the C locale. *)
Definition tolower (c : byte) : byte := if (65 <=? c) && (c <=? 90) then c + 32 else c.
Definition toupper (c : byte) : byte := if (97 <=? c) && (c <=? 122) then c - 32 else c.

(** [for (j = 0; j < len; j++) s[j] = f(s[j])] *)
Fixpoint map_loop (n : nat) (f : byte -> byte) (buf : list byte) (j : Z) : option (list byte) :=
  match n with
  | O => Some buf
  | S n => c ← getb buf j; buf ← store buf j [f c]; map_loop n f buf (j + 1)
  end.

Definition map_sds (f : byte -> byte) (s : sds) : option sds :=
  buf ← map_loop (Z.to_nat (sdslen s)) f (s_buf s) 0;
  Some (mkSds (s_flags s) (s_len s) (s_alloc s) buf).

Definition sdstolower (s : sds) : option sds := map_sds tolower s.
Definition sdstoupper (s : sds) : option sds := map_sds toupper s.

(** The inner loop of [sdsmapchars]. *)
Fixpoint map_char (from to : list byte) (c : byte) : byte :=
  match from, to with
  | f :: from, t :: to => if c =? f then t else map_char from to c
  | _, _ => c
  end.

Definition sdsmapchars (s : sds) (from to : list byte) (setlen : Z) : option sds :=
  from ← load from 0 setlen;
  to ← load to 0 setlen;
  map_sds (map_char from to) s.

(** memcmp(3): the difference of the first bytes that differ. *)
Fixpoint memcmp (a b : list byte) : Z :=
  match a, b with
  | x :: a, y :: b => if x =? y then memcmp a b else x - y
  | _, _ => 0
  end.

Definition sdscmp (s1 s2 : sds) : option Z :=
  let l1 := sdslen s1 in
  let l2 := sdslen s2 in
  let minlen := if l1 <? l2 then l1 else l2 in
  a ← load (s_buf s1) 0 minlen;
  b ← load (s_buf s2) 0 minlen;
  let cmp := memcmp a b in
  Some (if cmp =? 0 then (if l1 >? l2 then 1 else if l1 <? l2 then -1 else 0) else cmp).

(** ** Integers *)

(** [do { *p++ = '0'+(v%10); v /= 10; } while(v)]; 20 rounds suffice for 64 bits. *)
Fixpoint ll2str_loop (fuel : nat) (buf : list byte) (p v : Z) : option (list byte * Z) :=
  match fuel with
  | O => None
  | S fuel =>
      buf ← put buf p (48 + v mod 10);
      let v := v / 10 in
      if v =? 0 then Some (buf, p + 1) else ll2str_loop fuel buf (p + 1) v
  end.

(** [while(s < p) { aux = *s; *s = *p; *p = aux; s++; p--; }] *)
Fixpoint reverse_loop (fuel : nat) (buf : list byte) (s p : Z) : option (list byte) :=
  if s <? p then
    match fuel with
    | O => None
    | S fuel =>
        aux ← getb buf s;
        c ← getb buf p;
        buf ← put buf s c;
        buf ← put buf p aux;
        reverse_loop fuel buf (s + 1) (p - 1)
    end
  else Some buf.

(** Returns the buffer and the length. *)
Definition sdsll2str (buf : list byte) (value : Z) : option (list byte * Z) :=
  let v := if value <? 0 then u64 (s64 (- value)) else u64 value in
  r ← ll2str_loop 20 buf 0 v;
  let '(buf, p) := r in
  r ← (if value <? 0 then buf ← put buf p 45; Some (buf, p + 1) else Some (buf, p));
  let '(buf, p) := r in
  let l := p in
  buf ← put buf p 0;
  buf ← reverse_loop 20 buf 0 (p - 1);
  Some (buf, l).

Definition sdsull2str (buf : list byte) (v : Z) : option (list byte * Z) :=
  r ← ll2str_loop 20 buf 0 v;
  let '(buf, p) := r in
  let l := p in
  buf ← put buf p 0;
  buf ← reverse_loop 20 buf 0 (p - 1);
  Some (buf, l).

Definition sdsfromlonglong (junk : nat -> byte) (value : Z) : option sds :=
  r ← sdsll2str (malloc junk SDS_LLSTR_SIZE) value;
  sdsnewlen junk (InitBytes r.1) r.2.

(** The bytes of an sds: [sdslen] bytes at [s]. *)
Definition sds_bytes (s : sds) : option (list byte) := load (s_buf s) 0 (sdslen s).

(** ** Representation *)

(** A header of a known type whose allocation fits its field and the buffer. *)
Record block_ok (s : sds) : Prop := {
  b_flags : 0 <= s_flags s < 256;
  b_type : 0 <= sds_type s <= 4;
  b_alloc : 0 <= sdsalloc s;
  b_width : forall w, hdr_width (sds_type s) = Some w -> sdsalloc s < 2 ^ w;
  b_buf : sdsalloc s + 1 <= Z.of_nat (length (s_buf s));
}.

(** [s] is a valid sds that holds the byte string [l]. *)
Record content (s : sds) (l : list byte) : Prop := {
  c_block : block_ok s;
  c_len : sdslen s = Z.of_nat (length l);
  c_fit : Z.of_nat (length l) <= sdsalloc s;
  c_buf : exists tail, s_buf s = l ++ 0 :: tail;
}.

Lemma type_cases t : 0 <= t <= 4 ->
  (t = SDS_TYPE_5 /\ hdr_width t = None) \/
  (exists w, hdr_width t = Some w /\ (t =? SDS_TYPE_5) = false /\ 8 <= w <= 64 /\ 0 < 2 ^ w <= 2 ^ 64 /\
             (w = 32 \/ (w =? 32) = false)).
Proof.
  intros Ht. assert (t = 0 \/ t = 1 \/ t = 2 \/ t = 3 \/ t = 4) as Hc by lia.
  destruct Hc as [->|[->|[->|[->| ->]]]]; [by left|right..];
    [exists 8|exists 16|exists 32|exists 64]; split_and!; try done; by (lia || left || right).
Qed.

(** The length and allocation of a type with fields. *)
Lemma typed_fields s w : hdr_width (sds_type s) = Some w -> (sds_type s =? SDS_TYPE_5) = false ->
  sdslen s = s_len s /\ sdsalloc s = s_alloc s.
Proof. intros Hw Ht. unfold sdslen, sdsalloc. by rewrite Ht, Hw. Qed.

Lemma type5_flags s : block_ok s -> sds_type s = SDS_TYPE_5 ->
  sdslen s = SDS_TYPE_5_LEN (s_flags s) /\ sdsalloc s = SDS_TYPE_5_LEN (s_flags s) /\
  0 <= SDS_TYPE_5_LEN (s_flags s) < 32.
Proof.
  intros Hb Ht. unfold sdslen, sdsalloc. rewrite Ht. split_and!; [done..| |];
    pose proof (b_flags _ Hb); unfold SDS_TYPE_5_LEN; rewrite Z.shiftr_div_pow2 by (unfold SDS_TYPE_BITS; lia);
    change (2 ^ SDS_TYPE_BITS) with 8; [apply Z.div_pos|apply Z.div_lt_upper_bound]; lia.
Qed.

Lemma type5_encode n : 0 <= n < 32 ->
  let f := u8 (Z.lor SDS_TYPE_5 (Z.shiftl n SDS_TYPE_BITS)) in
  0 <= f < 256 /\ Z.land f SDS_TYPE_MASK = 0 /\ SDS_TYPE_5_LEN f = n.
Proof.
  revert n. refine (decide_below 32 (fun n =>
    0 <= u8 (Z.lor SDS_TYPE_5 (Z.shiftl n SDS_TYPE_BITS)) < 256 /\
    Z.land (u8 (Z.lor SDS_TYPE_5 (Z.shiftl n SDS_TYPE_BITS))) SDS_TYPE_MASK = 0 /\
    SDS_TYPE_5_LEN (u8 (Z.lor SDS_TYPE_5 (Z.shiftl n SDS_TYPE_BITS))) = n) _).
  vm_compute. reflexivity.
Qed.

Lemma setlen_spec s n : block_ok s -> 0 <= n <= sdsalloc s ->
  block_ok (sdssetlen s n) /\ sdslen (sdssetlen s n) = n /\ n <= sdsalloc (sdssetlen s n) /\
  s_buf (sdssetlen s n) = s_buf s /\ sds_type (sdssetlen s n) = sds_type s.
Proof.
  intros Hb Hn. destruct (type_cases _ (b_type _ Hb)) as [[Ht Hw]|(w & Hw & Ht & Hr)].
  - destruct (type5_flags s Hb Ht) as (Hl & Ha & Hlen).
    destruct (type5_encode n ltac:(lia)) as (Hf & Hty & Hdec).
    unfold sdssetlen. rewrite Ht. change (SDS_TYPE_5 =? SDS_TYPE_5) with true. cbv iota.
    set (f := u8 _) in *. set (s' := mkSds f _ _ _).
    assert (sds_type s' = 0) as Hs' by done. assert (sdsalloc s' = n) as Ha' by (unfold sdsalloc; by rewrite Hs').
    split_and!; [|unfold sdslen; by rewrite Hs'|lia|done|done].
    split; [done|lia|lia|by rewrite Hs'|]. rewrite Ha'. pose proof (b_buf _ Hb). simpl. lia.
  - destruct (typed_fields s w Hw Ht) as [Hl Ha]. pose proof (b_width _ Hb w Hw).
    unfold sdssetlen. rewrite Ht, Hw. set (s' := mkSds _ _ _ _).
    assert (sds_type s' = sds_type s) as Hs' by done.
    destruct (typed_fields s' w) as [Hl' Ha']; [by rewrite Hs'..|].
    assert (sdsalloc s' = sdsalloc s) as Haa by (rewrite Ha', Ha; done).
    split_and!; [|rewrite Hl'; apply uwrap_small; lia|lia|done|done].
    destruct Hb as [B1 B2 B3 B4 B5]. split; rewrite ?Haa, ?Hs'; done.
Qed.

Lemma write_spec s p q r t i : block_ok s -> s_buf s = p ++ q ++ r -> length q = length t ->
  i = Z.of_nat (length p) ->
  exists s', sds_write s i t = Some s' /\ s_buf s' = p ++ t ++ r /\ block_ok s' /\
    sdslen s' = sdslen s /\ sdsalloc s' = sdsalloc s /\ sds_type s' = sds_type s.
Proof.
  intros [B1 B2 B3 B4 B5] Hbuf Hlen ->. unfold sds_write. rewrite Hbuf, store_app by done.
  eexists. split; [done|]. split_and!; try done. split; try done. simpl.
  rewrite Hbuf in B5. rewrite !length_app in *. change (sdsalloc (mkSds _ _ _ _)) with (sdsalloc s). lia.
Qed.

(** Ending an operation: terminate the string and set its length, in either order. *)
Lemma terminate s l x tail : block_ok s -> s_buf s = l ++ x :: tail ->
  Z.of_nat (length l) <= sdsalloc s ->
  (exists s', sds_write (sdssetlen s (Z.of_nat (length l))) (Z.of_nat (length l)) [0] = Some s' /\ content s' l) /\
  (exists s', sds_write s (Z.of_nat (length l)) [0] = Some s' /\ content (sdssetlen s' (Z.of_nat (length l))) l).
Proof.
  intros Hb Hbuf Hfit. split.
  - destruct (setlen_spec s (Z.of_nat (length l)) Hb ltac:(lia)) as (Hb' & Hl & Ha & Hbuf' & _).
    rewrite Hbuf in Hbuf'.
    destruct (write_spec _ l [x] tail [0] _ Hb' Hbuf' eq_refl eq_refl) as (s' & Hw & Hbs & Hb2 & Hl2 & Ha2 & _).
    exists s'. split; [done|]. split; [done|lia|lia|by exists tail].
  - destruct (write_spec s l [x] tail [0] _ Hb Hbuf eq_refl eq_refl) as (s' & Hw & Hbs & Hb2 & Hl2 & Ha2 & _).
    exists s'. split; [done|]. destruct (setlen_spec s' (Z.of_nat (length l)) Hb2 ltac:(lia)) as (Hb' & Hl & Ha & Hbuf' & _).
    split; [done|lia|lia|]. exists tail. by rewrite Hbuf', Hbs.
Qed.

Lemma avail_spec s l : content s l -> sdsavail s = sdsalloc s - Z.of_nat (length l).
Proof.
  intros [Hb Hl Hf _]. destruct (type_cases _ (b_type _ Hb)) as [[Ht Hw]|(w & Hw & Ht & Hr & Hp & H32)].
  - destruct (type5_flags s Hb Ht) as (Hl' & Ha & _). unfold sdsavail. rewrite Ht. simpl. lia.
  - destruct (typed_fields s w Hw Ht) as [Hl' Ha]. pose proof (b_width _ Hb w Hw).
    unfold sdsavail. rewrite Ht, Hw. rewrite <- Hl', <- Ha, Hl. destruct H32 as [->|H32].
    + simpl. rewrite uwrap_small by lia. done.
    + rewrite H32, uwrap_small by lia. done.
Qed.

(** ** Allocating operations *)

Lemma reqtype_spec n : 0 <= n < 2 ^ 64 ->
  (sdsReqType n = SDS_TYPE_5 /\ n < 32) \/
  (exists w, 1 <= sdsReqType n <= 4 /\ hdr_width (sdsReqType n) = Some w /\ n < 2 ^ w).
Proof.
  intros Hn. unfold sdsReqType.
  destruct (Z.ltb_spec n (2 ^ 5)); [left; split; [done|lia]|right].
  destruct (Z.ltb_spec n (2 ^ 8)); [exists 8; by split_and!|].
  destruct (Z.ltb_spec n (2 ^ 16)); [exists 16; by split_and!|].
  destruct (Z.ltb_spec n (2 ^ 32)); [exists 32|exists 64]; by split_and!; try lia.
Qed.

Lemma hdrsize_range t : 0 <= t <= 4 -> 1 <= sdsHdrSize t <= 17.
Proof.
  intros Ht. assert (t = 0 \/ t = 1 \/ t = 2 \/ t = 3 \/ t = 4) as Hc by lia.
  by destruct Hc as [->|[->|[->|[->| ->]]]].
Qed.

Lemma typed_content f w l tail a : 0 <= f < 256 -> 1 <= Z.land f SDS_TYPE_MASK <= 4 ->
  hdr_width (Z.land f SDS_TYPE_MASK) = Some w -> Z.of_nat (length l) <= a < 2 ^ w ->
  a + 1 <= Z.of_nat (length (l ++ 0 :: tail)) ->
  content (mkSds f (Z.of_nat (length l)) a (l ++ 0 :: tail)) l.
Proof.
  intros Hf Ht Hw Ha Hbuf. set (s := mkSds _ _ _ _).
  assert (sds_type s = Z.land f SDS_TYPE_MASK) as Hs by done.
  assert ((sds_type s =? SDS_TYPE_5) = false) as H5 by (rewrite Hs; apply Z.eqb_neq; unfold SDS_TYPE_5; lia).
  destruct (typed_fields s w) as [Hl Hal]; [by rewrite Hs|done|].
  change (s_len s) with (Z.of_nat (length l)) in Hl. change (s_alloc s) with a in Hal.
  split; [|lia|lia|by exists tail]. split; [done|lia|lia| |rewrite Hal; exact Hbuf].
  intros w'. rewrite Hs, Hw. intros [= <-]. lia.
Qed.

Lemma type_small t : 0 <= t <= 4 -> Z.land t SDS_TYPE_MASK = t.
Proof.
  intros Ht. assert (t = 0 \/ t = 1 \/ t = 2 \/ t = 3 \/ t = 4) as Hc by lia.
  by destruct Hc as [->|[->|[->|[->| ->]]]].
Qed.

(** Writing the fields of a header that has them. *)
Lemma set_fields t w x y buf len a : 1 <= t <= 4 -> hdr_width t = Some w ->
  0 <= len < 2 ^ w -> 0 <= a < 2 ^ w ->
  sdssetalloc (sdssetlen (mkSds t x y buf) len) a = mkSds t len a buf.
Proof.
  intros Ht Hw Hl Ha. unfold sdssetlen, sdssetalloc, sds_type. simpl. rewrite (type_small t) by lia.
  rewrite (proj2 (Z.eqb_neq t SDS_TYPE_5)), Hw by (unfold SDS_TYPE_5; lia). simpl.
  rewrite (type_small t), Hw by lia. by rewrite !uwrap_small.
Qed.

(** A block copied to a fresh allocation. *)
Lemma copy_to_new junk l tail n : Z.of_nat (length l) + 1 <= n ->
  exists tail', load (l ++ 0 :: tail) 0 (Z.of_nat (length l) + 1) = Some (l ++ [0]) /\
    store (malloc junk n) 0 (l ++ [0]) = Some (l ++ 0 :: tail') /\
    Z.of_nat (length (l ++ 0 :: tail')) = n.
Proof.
  intros Hn. exists (drop (length l + 1) (malloc junk n)).
  pose proof (malloc_length junk n ltac:(lia)) as Hm. split_and!.
  - replace (l ++ 0 :: tail) with ([] ++ (l ++ [0]) ++ tail) by (by rewrite <- app_assoc).
    apply load_app; [done|]. rewrite length_app. simpl. lia.
  - rewrite store_Some by (rewrite ?length_app; simpl; lia). simpl. rewrite length_app, <- app_assoc. done.
  - rewrite length_app. simpl. rewrite length_drop. lia.
Qed.

Lemma setalloc_typed s w a : hdr_width (sds_type s) = Some w -> 0 <= a < 2 ^ w ->
  sdssetalloc s a = mkSds (s_flags s) (s_len s) a (s_buf s).
Proof. intros Hw Ha. unfold sdssetalloc. by rewrite Hw, uwrap_small. Qed.

(** realloc(3) of the block with another allocation, and the copy to a block of
    another type: the two ways to change the allocation to [newlen]. *)
Lemma realloc_content junk s l w newlen : content s l -> hdr_width (sds_type s) = Some w ->
  Z.of_nat (length l) <= newlen < 2 ^ w ->
  let s' := sdssetalloc (mkSds (s_flags s) (s_len s) (s_alloc s) (realloc junk (s_buf s) (newlen + 1))) newlen in
  content s' l /\ sdsalloc s' = newlen.
Proof.
  intros [Hb Hl Hf [tail Hbuf]] Hw Hnew. destruct (type_cases _ (b_type _ Hb)) as [[_ ?]|(w' & Hw' & Ht & _)];
    [congruence|]. simplify_eq. destruct (typed_fields s w Hw Ht) as [Hsl Hsa].
  erewrite setalloc_typed; [|exact Hw|lia]. cbn [s_flags s_len s_buf].
  pose proof (realloc_length junk (s_buf s) (newlen + 1) ltac:(lia)) as Hrl.
  assert (exists tail', realloc junk (s_buf s) (newlen + 1) = l ++ 0 :: tail') as [tail' Ht'].
  { unfold realloc. rewrite Hbuf. destruct (Z.to_nat (newlen + 1)) as [|n] eqn:En; [lia|].
    rewrite take_app_ge by lia.
    destruct (S n - length l)%nat as [|m] eqn:Em; [lia|]. simpl. rewrite <- app_assoc. by eexists. }
  rewrite <- Hsl, Hl, Ht' in *. pose proof (b_type _ Hb). split.
  - apply typed_content with (w := w); [apply Hb| |done|lia|lia].
    apply Z.eqb_neq in Ht. unfold sds_type, SDS_TYPE_5 in *. lia.
  - unfold sdsalloc. change (sds_type (mkSds _ _ _ _)) with (sds_type s). by rewrite Ht, Hw.
Qed.

Lemma copy_content junk l tail t w newlen : 1 <= t <= 4 -> hdr_width t = Some w ->
  Z.of_nat (length l) <= newlen < 2 ^ w ->
  exists buf, (bs ← load (l ++ 0 :: tail) 0 (Z.of_nat (length l) + 1);
               store (malloc junk (newlen + 1)) 0 bs) = Some buf /\
    let s' := sdssetalloc (sdssetlen (mkSds t 0 0 buf) (Z.of_nat (length l))) newlen in
    content s' l /\ sdsalloc s' = newlen.
Proof.
  intros Ht Hw Hnew. destruct (copy_to_new junk l tail (newlen + 1) ltac:(lia)) as (tail' & Hld & Hst & Hlen).
  exists (l ++ 0 :: tail'). rewrite Hld. cbn [mbind option_bind]. rewrite Hst. split; [done|].
  rewrite (set_fields t w) by (done || lia). split.
  - apply typed_content with (w := w); rewrite ?type_small by lia; done || lia.
  - unfold sdsalloc, sds_type. simpl. rewrite type_small by lia. rewrite Hw.
    by rewrite (proj2 (Z.eqb_neq t SDS_TYPE_5)) by (unfold SDS_TYPE_5; lia).
Qed.

(** The largest string for which the size computations are exact. *)
Definition max_sds : Z := 2 ^ 62.

Lemma sdsMakeRoomFor_spec junk s l addlen : content s l -> 0 <= addlen ->
  Z.of_nat (length l) + addlen < max_sds ->
  exists s', sdsMakeRoomFor junk s addlen = Some s' /\ content s' l /\
    Z.of_nat (length l) + addlen <= sdsalloc s'.
Proof.
  unfold max_sds. intros Hc Ha Hmax. unfold sdsMakeRoomFor. rewrite (avail_spec s l Hc), Z.geb_leb.
  destruct (Z.leb_spec addlen (sdsalloc s - Z.of_nat (length l))) as [Hle|Hlt].
  { exists s. split_and!; [done|done|lia]. }
  rewrite (uwrap_small 64 (sdslen s + addlen)) by (rewrite (c_len _ _ Hc); lia).
  set (newlen := if _ <? SDS_MAX_PREALLOC then _ else _).
  assert (Z.of_nat (length l) + addlen <= newlen < 2 ^ 63) as Hnew.
  { subst newlen. rewrite (c_len _ _ Hc). unfold SDS_MAX_PREALLOC.
    destruct (Z.ltb_spec (Z.of_nat (length l) + addlen) (1024 * 1024)); rewrite uwrap_small by lia; lia. }
  set (t := if sdsReqType newlen =? SDS_TYPE_5 then SDS_TYPE_8 else sdsReqType newlen).
  assert (exists w, 1 <= t <= 4 /\ hdr_width t = Some w /\ newlen < 2 ^ w) as (w & Ht & Hw & Hnw).
  { subst t. destruct (reqtype_spec newlen ltac:(lia)) as [[-> H5]|(w & H1 & H2 & H3)].
    - exists 8. split_and!; done || lia.
    - exists w. rewrite (proj2 (Z.eqb_neq _ SDS_TYPE_5)) by (unfold SDS_TYPE_5; lia). done. }
  pose proof (hdrsize_range t ltac:(lia)) as Hh. rewrite (uwrap_small 64 (sdsHdrSize t + newlen + 1)) by lia.
  replace (sdsHdrSize t + newlen + 1 - sdsHdrSize t) with (newlen + 1) by lia. fold (sds_type s).
  destruct (Z.eqb_spec (sds_type s) t) as [E|E].
  - rewrite <- E in Hw. destruct (realloc_content junk s l w newlen Hc Hw ltac:(lia)) as [Hc' Ha'].
    cbn [mbind option_bind]. eexists. split_and!; [done|done|lia].
  - pose proof (c_len _ _ Hc) as Hlen. destruct (c_buf _ _ Hc) as [tail Hbuf]. rewrite Hlen, Hbuf.
    destruct (copy_content junk l tail t w newlen Ht Hw ltac:(lia)) as (buf & Hcopy & Hc' & Ha').
    destruct (load _ _ _) as [bs|]; [|done]. cbn [mbind option_bind] in *. rewrite Hcopy.
    cbn [mbind option_bind]. eexists. split_and!; [done|done|lia].
Qed.

(** A fresh sds of [n] bytes, before its bytes are written. *)
Lemma fresh_block type n buf : 0 <= n < 2 ^ 63 -> type = sdsReqType n \/ (n = 0 /\ type = SDS_TYPE_8) ->
  Z.of_nat (length buf) = n + 1 ->
  let s := if type =? SDS_TYPE_5
           then mkSds (u8 (Z.lor type (Z.shiftl n SDS_TYPE_BITS))) 0 0 buf
           else match hdr_width type with
                | Some w => mkSds type (uwrap w n) (uwrap w n) buf
                | None => mkSds type 0 0 buf
                end in
  block_ok s /\ sdslen s = n /\ sdsalloc s = n /\ s_buf s = buf.
Proof.
  intros Hn Hty Hbuf.
  assert ((type = SDS_TYPE_5 /\ n < 32) \/ exists w, 1 <= type <= 4 /\ hdr_width type = Some w /\ n < 2 ^ w) as Hc.
  { destruct Hty as [-> | [-> ->]]; [apply reqtype_spec; lia|right; exists 8; by split_and!]. }
  destruct Hc as [[-> H5]|(w & Ht & Hw & Hlt)].
  - change (SDS_TYPE_5 =? SDS_TYPE_5) with true. cbv iota zeta.
    destruct (type5_encode n ltac:(lia)) as (Hf & Hty5 & Hdec). set (f := u8 _) in *.
    set (s := mkSds _ _ _ _). assert (sds_type s = 0) as Hs by done.
    assert (sdsalloc s = n) as Ha by (unfold sdsalloc; by rewrite Hs).
    split_and!; [|unfold sdslen; by rewrite Hs|done|done].
    split; [done|lia|lia|by rewrite Hs|]. rewrite Ha. change (s_buf s) with buf. lia.
  - rewrite (proj2 (Z.eqb_neq type SDS_TYPE_5)), Hw by (unfold SDS_TYPE_5; lia). cbv zeta.
    rewrite !uwrap_small by lia. set (s := mkSds _ _ _ _).
    assert (sds_type s = type) as Hs by (apply type_small; lia).
    destruct (typed_fields s w) as [Hl Ha]; [by rewrite Hs|rewrite Hs; apply Z.eqb_neq; unfold SDS_TYPE_5; lia|].
    change (s_len s) with n in Hl. change (s_alloc s) with n in Ha.
    split_and!; [|done..]. split; rewrite ?Ha, ?Hs; [change (s_flags s) with type; lia|lia|lia| |].
    + rewrite Hw. intros w' [= <-]. done.
    + change (s_buf s) with buf. lia.
Qed.

Lemma split_last (buf : list byte) n : length buf = S n -> exists p x, buf = p ++ [x] /\ length p = n.
Proof.
  intros Hb. destruct buf as [|b buf _] using rev_ind; [done|]. rewrite length_app in Hb. simpl in Hb.
  exists buf, b. split; [done|lia].
Qed.

Lemma split_at (l : list byte) n : (n < length l)%nat -> exists q x r, l = q ++ x :: r /\ length q = n.
Proof.
  intros Hn. destruct (lookup_lt_is_Some_2 l n Hn) as [x Hx]. apply take_drop_middle in Hx.
  exists (take n l), x, (drop (S n) l). split; [done|]. rewrite length_take. lia.
Qed.

Lemma load_all t len : len = Z.of_nat (length t) -> load t 0 len = Some t.
Proof. intros ->. rewrite load_Some by lia. by rewrite Nat2Z.id, drop_0, firstn_all. Qed.

Lemma load_prefix t rest len : len = Z.of_nat (length t) -> load (t ++ rest) 0 len = Some t.
Proof. intros ->. by apply (load_app [] t rest). Qed.

Lemma sdsnewlen_spec junk t rest : Z.of_nat (length t) < max_sds ->
  exists s, sdsnewlen junk (InitBytes (t ++ rest)) (Z.of_nat (length t)) = Some s /\ content s t.
Proof.
  unfold max_sds. intros Hmax. unfold sdsnewlen. remember (Z.of_nat (length t)) as n eqn:Hn.
  set (type := if _ && _ then _ else _).
  assert (type = sdsReqType n \/ (n = 0 /\ type = SDS_TYPE_8)) as Hty.
  { subst type. destruct (sdsReqType n =? SDS_TYPE_5); [|by left]. simpl.
    destruct (Z.eqb_spec n 0); [by right|by left]. }
  assert (1 <= sdsHdrSize type <= 17) as Hh.
  { destruct Hty as [-> | [_ ->]]; [apply hdrsize_range|done].
    destruct (reqtype_spec n ltac:(lia)) as [[-> _]|(w & ? & _)]; [done|lia]. }
  rewrite (uwrap_small 64 (sdsHdrSize type + n + 1)) by lia.
  replace (sdsHdrSize type + n + 1 - sdsHdrSize type) with (n + 1) by lia.
  pose proof (malloc_length junk (n + 1) ltac:(lia)) as Hm. set (buf := malloc junk (n + 1)) in *.
  destruct (fresh_block type n buf ltac:(lia) Hty Hm) as (Hb & Hl & Ha & Hbuf).
  set (s := if type =? SDS_TYPE_5 then _ else _) in *.
  destruct (split_last buf (length t)) as (p & x & Hp & Hpl); [lia|].
  assert (exists s1, (if n =? 0 then Some s else bs ← load (t ++ rest) 0 n; sds_write s 0 bs) = Some s1 /\
    block_ok s1 /\ sdslen s1 = n /\ sdsalloc s1 = n /\ s_buf s1 = t ++ [x]) as (s1 & Hs1 & Hb1 & Hl1 & Ha1 & Hbuf1).
  { destruct (Z.eqb_spec n 0) as [E|E].
    - exists s. split_and!; [done..|]. destruct t; [|simpl in Hn; lia]. destruct p; [|done]. by rewrite Hbuf, Hp.
    - rewrite load_prefix by done. cbn [mbind option_bind].
      destruct (write_spec s [] p [x] t 0 Hb) as (s1 & Hw & Hbuf1 & Hb1 & Hl1 & Ha1 & _);
        [by rewrite Hbuf|done|done|]. exists s1. split_and!; [done|done|lia|lia|done]. }
  rewrite Hs1. cbn [mbind option_bind].
  destruct (write_spec s1 t [x] [] [0] n Hb1) as (s2 & Hw & Hbuf2 & Hb2 & Hl2 & Ha2 & _); [done..|].
  exists s2. split; [done|]. split; [done|lia|lia|by exists []].
Qed.

(** With SDS_NOINIT the bytes are those of the fresh block. *)
Lemma sdsnewlen_noinit junk n : 0 <= n < max_sds ->
  exists s t, sdsnewlen junk InitNOINIT n = Some s /\ content s t.
Proof.
  unfold max_sds. intros Hmax. unfold sdsnewlen. set (type := if _ && _ then _ else _).
  assert (type = sdsReqType n \/ (n = 0 /\ type = SDS_TYPE_8)) as Hty.
  { subst type. destruct (sdsReqType n =? SDS_TYPE_5); [|by left]. simpl.
    destruct (Z.eqb_spec n 0); [by right|by left]. }
  assert (1 <= sdsHdrSize type <= 17) as Hh.
  { destruct Hty as [-> | [_ ->]]; [apply hdrsize_range|done].
    destruct (reqtype_spec n ltac:(lia)) as [[-> _]|(w & ? & _)]; [done|lia]. }
  rewrite (uwrap_small 64 (sdsHdrSize type + n + 1)) by lia.
  replace (sdsHdrSize type + n + 1 - sdsHdrSize type) with (n + 1) by lia.
  pose proof (malloc_length junk (n + 1) ltac:(lia)) as Hm. set (buf := malloc junk (n + 1)) in *.
  destruct (fresh_block type n buf ltac:(lia) Hty Hm) as (Hb & Hl & Ha & Hbuf).
  set (s := if type =? SDS_TYPE_5 then _ else _) in *. cbn [mbind option_bind].
  destruct (split_last buf (Z.to_nat n)) as (p & x & Hp & Hpl); [lia|].
  destruct (write_spec s p [x] [] [0] n Hb) as (s2 & Hw & Hbuf2 & Hb2 & Hl2 & Ha2 & _); [by rewrite Hbuf, Hp|done|lia|].
  exists s2, p. split; [done|]. split; [done|lia|lia|by exists []].
Qed.

Lemma sdsempty_spec junk : exists s, sdsempty junk = Some s /\ content s [].
Proof. apply (sdsnewlen_spec junk [] []). unfold max_sds. simpl. lia. Qed.

Lemma sdsdup_spec junk s l : content s l -> Z.of_nat (length l) < max_sds ->
  exists s', sdsdup junk s = Some s' /\ content s' l.
Proof.
  intros [_ Hl _ [tail Hbuf]] Hmax. unfold sdsdup. rewrite Hl, Hbuf. by apply sdsnewlen_spec.
Qed.

Lemma sdscatlen_spec junk s l t rest : content s l ->
  Z.of_nat (length l) + Z.of_nat (length t) < max_sds ->
  exists s', sdscatlen junk s (t ++ rest) (Z.of_nat (length t)) = Some s' /\ content s' (l ++ t).
Proof.
  intros Hc Hmax. unfold sdscatlen. rewrite (c_len _ _ Hc).
  destruct (sdsMakeRoomFor_spec junk s l _ Hc (Nat2Z.is_nonneg (length t)) Hmax) as (s1 & -> & [Hb Hl Hf [tail Hbuf]] & Ha).
  cbn [mbind option_bind]. rewrite load_prefix by done. cbn [mbind option_bind].
  pose proof (b_buf _ Hb) as Hlen. rewrite Hbuf, length_app in Hlen. simpl in Hlen.
  destruct (split_at (0 :: tail) (length t)) as (q & x & r & Hq & Hql); [simpl; lia|].
  rewrite Hq in Hbuf.
  destruct (write_spec s1 l q (x :: r) t _ Hb Hbuf Hql eq_refl) as (s2 & -> & Hbuf2 & Hb2 & Hl2 & Ha2 & _).
  cbn [mbind option_bind]. rewrite app_assoc in Hbuf2. rewrite uwrap_small by (unfold max_sds in *; lia).
  rewrite <- Nat2Z.inj_add, <- length_app.
  apply (terminate s2 (l ++ t) x r Hb2 Hbuf2). rewrite length_app. lia.
Qed.

Lemma sdscatsds_spec junk s l s' l' : content s l -> content s' l' ->
  Z.of_nat (length l) + Z.of_nat (length l') < max_sds ->
  exists s2, sdscatsds junk s s' = Some s2 /\ content s2 (l ++ l').
Proof.
  intros Hc [_ Hl _ [tail Hbuf]] Hmax. unfold sdscatsds. rewrite Hl, Hbuf. by apply sdscatlen_spec.
Qed.

Lemma sdsclear_spec s l : content s l -> exists s', sdsclear s = Some s' /\ content s' [].
Proof.
  intros [Hb Hl Hf [tail Hbuf]]. unfold sdsclear.
  destruct (split_at (l ++ 0 :: tail) 0) as ([|] & x & r & Hq & Hql); [rewrite length_app; simpl; lia| |done].
  rewrite Hq in Hbuf. apply (terminate s [] x r Hb Hbuf). simpl. lia.
Qed.

Lemma sdscpylen_spec junk s l t rest : content s l -> Z.of_nat (length t) < max_sds ->
  exists s', sdscpylen junk s (t ++ rest) (Z.of_nat (length t)) = Some s' /\ content s' t.
Proof.
  intros Hc Hmax. unfold sdscpylen. pose proof (c_fit _ _ Hc).
  assert (exists s1, (if sdsalloc s <? Z.of_nat (length t)
    then sdsMakeRoomFor junk s (u64 (Z.of_nat (length t) - sdslen s)) else Some s) = Some s1 /\
    content s1 l /\ Z.of_nat (length t) <= sdsalloc s1) as (s1 & -> & [Hb Hl Hf [tail Hbuf]] & Ha).
  { destruct (Z.ltb_spec (sdsalloc s) (Z.of_nat (length t))) as [Hlt|Hge]; [|by exists s].
    rewrite (c_len _ _ Hc). unfold max_sds in Hmax. rewrite uwrap_small by lia.
    destruct (sdsMakeRoomFor_spec junk s l (Z.of_nat (length t) - Z.of_nat (length l)) Hc) as (s1 & H1 & H2 & H3);
      [lia|unfold max_sds; lia|]. exists s1. split_and!; [done|done|lia]. }
  cbn [mbind option_bind]. rewrite load_prefix by done. cbn [mbind option_bind].
  destruct (split_at (s_buf s1) (length t)) as (q & x & r & Hq & Hql); [pose proof (b_buf _ Hb); lia|].
  destruct (write_spec s1 [] q (x :: r) t 0 Hb Hq Hql eq_refl) as (s2 & -> & Hbuf2 & Hb2 & Hl2 & Ha2 & _).
  cbn [mbind option_bind]. destruct (terminate s2 t x r Hb2 Hbuf2 ltac:(lia)) as [_ (s3 & -> & Hc3)].
  by eexists.
Qed.

Lemma sdsgrowzero_spec junk s l n : content s l -> 0 <= n < max_sds ->
  exists s', sdsgrowzero junk s n = Some s' /\ content s' (l ++ replicate (Z.to_nat n - length l) 0).
Proof.
  intros Hc Hn. unfold sdsgrowzero, max_sds in *. rewrite (c_len _ _ Hc).
  destruct (Z.leb_spec n (Z.of_nat (length l))) as [Hle|Hgt].
  { exists s. split; [done|]. replace (Z.to_nat n - length l)%nat with 0%nat by lia. by rewrite app_nil_r. }
  rewrite !uwrap_small by lia.
  destruct (sdsMakeRoomFor_spec junk s l (n - Z.of_nat (length l)) Hc) as (s1 & -> & [Hb Hl Hf [tail Hbuf]] & Ha);
    [lia|unfold max_sds; lia|]. cbn [mbind option_bind].
  set (k := (Z.to_nat n - length l)%nat). replace (Z.to_nat (n - Z.of_nat (length l) + 1)) with (S k) by lia.
  pose proof (b_buf _ Hb) as Hbl. rewrite Hbuf, length_app in Hbl. simpl in Hbl.
  destruct (split_at (0 :: tail) k) as (q & x & r & Hq & Hql); [simpl; lia|].
  rewrite Hq in Hbuf. replace (l ++ q ++ x :: r) with (l ++ (q ++ [x]) ++ r) in Hbuf by (by rewrite <- !app_assoc).
  destruct (write_spec s1 l (q ++ [x]) r (replicate (S k) 0) (Z.of_nat (length l)) Hb Hbuf) as (s2 & -> & Hbuf2 & Hb2 & Hl2 & Ha2 & _);
    [rewrite length_app, length_replicate; simpl; lia|done|].
  cbn [mbind option_bind]. eexists. split; [done|].
  destruct (setlen_spec s2 n Hb2 ltac:(lia)) as (Hb3 & Hl3 & Ha3 & Hbuf3 & _).
  split; [done|rewrite length_app, length_replicate; lia..|]. exists r.
  by rewrite Hbuf3, Hbuf2, replicate_S_end, <- !app_assoc.
Qed.

Lemma type5_copy junk l tail : Z.of_nat (length l) < 32 ->
  exists buf, (bs ← load (l ++ 0 :: tail) 0 (Z.of_nat (length l) + 1);
               store (malloc junk (Z.of_nat (length l) + 1)) 0 bs) = Some buf /\
    content (sdssetlen (mkSds SDS_TYPE_5 0 0 buf) (Z.of_nat (length l))) l.
Proof.
  intros H32. destruct (copy_to_new junk l tail (Z.of_nat (length l) + 1) ltac:(lia)) as (tail' & Hld & Hst & Hlen).
  exists (l ++ 0 :: tail'). rewrite Hld. cbn [mbind option_bind]. rewrite Hst. split; [done|].
  destruct (type5_encode (Z.of_nat (length l)) ltac:(lia)) as (Hf & Hty5 & Hdec).
  change (sdssetlen _ _) with (mkSds (u8 (Z.lor SDS_TYPE_5 (Z.shiftl (Z.of_nat (length l)) SDS_TYPE_BITS))) 0 0 (l ++ 0 :: tail')).
  set (f := u8 _) in *. set (s := mkSds _ _ _ _). assert (sds_type s = 0) as Hs by done.
  assert (sdsalloc s = Z.of_nat (length l)) as Ha by (unfold sdsalloc; by rewrite Hs).
  split; [|unfold sdslen; by rewrite Hs|lia|by exists tail'].
  split; [done|lia|lia|by rewrite Hs|]. rewrite Ha. change (s_buf s) with (l ++ 0 :: tail'). lia.
Qed.

Lemma sdsRemoveFreeSpace_spec junk s l : content s l -> Z.of_nat (length l) < max_sds ->
  exists s', sdsRemoveFreeSpace junk s = Some s' /\ content s' l /\ sdsavail s' = 0.
Proof.
  intros Hc Hmax. unfold sdsRemoveFreeSpace, max_sds in *. fold (sds_type s).
  rewrite (c_len _ _ Hc). destruct (Z.eqb_spec (sdsavail s) 0) as [E|E]; [by exists s|].
  pose proof (c_block _ _ Hc) as Hb. pose proof (c_fit _ _ Hc) as Hf.
  set (n := Z.of_nat (length l)) in *. destruct (c_buf _ _ Hc) as [tail Hbuf].
  destruct (type_cases _ (b_type _ Hb)) as [[Ht _]|(w & Hw & Ht & _)].
  { exfalso. apply E. unfold sdsavail. by rewrite Ht. }
  pose proof (b_width _ Hb w Hw) as Hwa. pose proof (hdrsize_range _ (b_type _ Hb)) as Hh.
  destruct ((sds_type s =? sdsReqType n) || (sdsReqType n >? SDS_TYPE_8)) eqn:Ek.
  - rewrite uwrap_small by lia.
    replace (sdsHdrSize (sds_type s) + n + 1 - sdsHdrSize (sds_type s)) with (n + 1) by lia.
    destruct (realloc_content junk s l w n Hc Hw ltac:(lia)) as [Hc' Ha']. cbn [mbind option_bind].
    eexists. split_and!; [done|done|]. rewrite (avail_spec _ _ Hc'). lia.
  - apply orb_false_iff in Ek as [_ E8]. rewrite Hbuf. rewrite Z.gtb_ltb in E8. apply Z.ltb_ge in E8.
    unfold SDS_TYPE_8 in E8.
    assert (1 <= sdsHdrSize (sdsReqType n) <= 17) as Hh'.
    { apply hdrsize_range. destruct (reqtype_spec n ltac:(lia)) as [[-> _]|(w' & ? & _)]; [done|lia]. }
    rewrite (uwrap_small 64 (sdsHdrSize (sdsReqType n) + n + 1)) by lia.
    replace (sdsHdrSize (sdsReqType n) + n + 1 - sdsHdrSize (sdsReqType n)) with (n + 1) by lia.
    destruct (reqtype_spec n ltac:(lia)) as [[-> H5]|(w' & Ht' & Hw' & Hn')].
    + destruct (type5_copy junk l tail H5) as (buf & Hcopy & Hc'). fold n in Hcopy, Hc'.
      destruct (load _ _ _) as [bs|]; [|done]. cbn [mbind option_bind] in *. rewrite Hcopy.
      cbn [mbind option_bind]. eexists. split; [done|]. 
      set (s' := sdssetlen (mkSds SDS_TYPE_5 0 0 buf) n) in *.
      assert (sds_type s' = SDS_TYPE_5) as Ht5.
      { unfold s', sdssetlen. simpl. apply type5_encode. lia. }
      assert (sdssetalloc s' n = s') as -> by (unfold sdssetalloc; by rewrite Ht5).
      split; [done|]. unfold sdsavail. by rewrite Ht5.
    + destruct (copy_content junk l tail (sdsReqType n) w' n Ht' Hw' ltac:(lia)) as (buf & Hcopy & Hc' & Ha').
      fold n in Hcopy, Hc', Ha'.
      destruct (load _ _ _) as [bs|]; [|done]. cbn [mbind option_bind] in *. rewrite Hcopy.
      cbn [mbind option_bind]. eexists. split_and!; [done|done|]. rewrite (avail_spec _ _ Hc'). lia.
Qed.

(** The caller wrote [t] after the string and accounts for it. *)
Lemma sdsIncrLen_spec s l t x r : block_ok s -> sdslen s = Z.of_nat (length l) ->
  s_buf s = (l ++ t) ++ x :: r -> Z.of_nat (length l) + Z.of_nat (length t) <= sdsalloc s ->
  sds_type s <> SDS_TYPE_5 ->
  exists s', sdsIncrLen s (Z.of_nat (length t)) = Some s' /\ content s' (l ++ t).
Proof.
  intros Hb Hl Hbuf Hfit Hne. destruct (type_cases _ (b_type _ Hb)) as [[? _]|(w & Hw & Ht & Hr & Hp & H32)]; [done|].
  destruct (typed_fields s w Hw Ht) as [Hsl Hsa]. pose proof (b_width _ Hb w Hw).
  unfold sdsIncrLen. rewrite Ht, Hw, <- Hsl, <- Hsa, Hl.
  rewrite (proj2 (Z.geb_le (Z.of_nat (length t)) 0)) by lia. rewrite andb_true_l.
  set (room := if w =? 64 then _ else _).
  assert (room = true) as ->.
  { subst room. destruct (Z.eqb_spec w 64) as [E|E].
    - rewrite !uwrap_small by lia. apply Z.geb_le. lia.
    - destruct (Z.eqb_spec w 32) as [->|]; [rewrite !uwrap_small by lia|]; apply Z.geb_le; lia. }
  rewrite orb_true_l, <- Nat2Z.inj_add, <- length_app.
  assert (Z.of_nat (length (l ++ t)) <= sdsalloc s) as Hfit' by (rewrite length_app; lia).
  destruct (terminate s (l ++ t) x r Hb Hbuf Hfit') as [(s' & Hs' & Hc') _].
  exists s'. split; [|done]. unfold sdssetlen in Hs'. rewrite Ht, Hw in Hs'.
  rewrite (uwrap_small w (Z.of_nat (length (l ++ t)))) in * by lia. rewrite Hsa. exact Hs'.
Qed.

(** A negative increment trims the string on the right. *)
Lemma sdsIncrLen_neg s a x b : content s (a ++ x :: b) -> Z.of_nat (length (a ++ x :: b)) < max_sds ->
  exists s', sdsIncrLen s (- Z.of_nat (S (length b))) = Some s' /\ content s' a.
Proof.
  intros Hc Hmax. pose proof Hc as [Hb Hl Hf [tail Hbuf]]. set (k := Z.of_nat (S (length b))).
  assert (Z.of_nat (length (a ++ x :: b)) = Z.of_nat (length a) + k) as Hlen.
  { rewrite length_app. simpl. lia. }
  rewrite <- app_assoc in Hbuf. simpl in Hbuf.
  destruct (terminate s a x (b ++ 0 :: tail) Hb Hbuf ltac:(lia)) as [(s' & Hs' & Hc') _].
  exists s'. split; [|done]. rewrite <- Hs'. unfold sdsIncrLen, sdssetlen, max_sds in *.
  rewrite (proj2 (Z.ltb_lt (- k) 0)) by lia. rewrite Z.opp_involutive.
  destruct (type_cases _ (b_type _ Hb)) as [[Ht _]|(w & Hw & Ht & Hr & Hp & H32)].
  - rewrite Ht. change (SDS_TYPE_5 =? SDS_TYPE_5) with true. cbv iota.
    destruct (type5_flags s Hb Ht) as (Hl' & _ & Hlt). rewrite <- Hl', Hl in *.
    rewrite (uwrap_small 32) by lia. rewrite (proj2 (Z.geb_le _ k)) by lia. rewrite orb_true_r.
    replace (Z.of_nat (length (a ++ x :: b)) + - k) with (Z.of_nat (length a)) by lia.
    by rewrite (uwrap_small 64) by lia.
  - rewrite Ht, Hw. destruct (typed_fields s w Hw Ht) as [Hsl Hsa]. pose proof (b_width _ Hb w Hw).
    rewrite <- Hsl, Hl. rewrite (proj2 (Z.geb_le (Z.of_nat (length (a ++ x :: b))) _)), orb_true_r.
    + replace (Z.of_nat (length (a ++ x :: b)) + - k) with (Z.of_nat (length a)) by lia.
      by rewrite (uwrap_small w (Z.of_nat (length a))) by lia.
    + destruct (Z.eqb_spec w 64); [rewrite uwrap_small by lia; lia|].
      assert (2 ^ w <= 2 ^ 32 \/ w > 32) as [Hw32|Hw32] by (destruct (decide (w <= 32)); [left; apply Z.pow_le_mono_r; lia|lia]).
      * rewrite uwrap_small by lia. lia.
      * exfalso. unfold hdr_width in Hw. repeat case_match; simplify_eq; lia.
Qed.

(** ** In-place operations *)

Lemma map_loop_spec f p l r : map_loop (length l) f (p ++ l ++ r) (Z.of_nat (length p)) = Some (p ++ map f l ++ r).
Proof.
  revert p. induction l as [|c l IH]; intros p; simpl; [done|].
  rewrite getb_app by done. cbn [mbind option_bind].
  rewrite (store_app p [c] (l ++ r) [f c]) by done. cbn [mbind option_bind].
  specialize (IH (p ++ [f c])). rewrite length_app, <- !app_assoc in IH. simpl in IH.
  replace (Z.of_nat (length p) + 1) with (Z.of_nat (length p + 1)) by lia. exact IH.
Qed.

(** Rewriting the bytes of the string in place. *)
Lemma rewrite_content s l l' tail : content s l -> length l' = length l ->
  Z.of_nat (length (l' ++ 0 :: tail)) = Z.of_nat (length (s_buf s)) ->
  content (mkSds (s_flags s) (s_len s) (s_alloc s) (l' ++ 0 :: tail)) l'.
Proof.
  intros [[B1 B2 B3 B4 B5] Hl Hf _] Hlen Hbuf. split; rewrite ?Hlen; [|done..|by exists tail].
  split; try done. simpl. change (sdsalloc (mkSds _ _ _ _)) with (sdsalloc s). lia.
Qed.

Lemma map_sds_spec f s l : content s l -> exists s', map_sds f s = Some s' /\ content s' (map f l).
Proof.
  intros Hc. unfold map_sds. rewrite (c_len _ _ Hc), Nat2Z.id. destruct (c_buf _ _ Hc) as [tail Hbuf].
  rewrite Hbuf. pose proof (map_loop_spec f [] l (0 :: tail)) as Hm. change (Z.of_nat (length [])) with 0 in Hm. simpl app in Hm. rewrite Hm.
  cbn [mbind option_bind]. eexists. split; [done|].
  apply (rewrite_content s l); [done|by rewrite length_map|].
  rewrite Hbuf, !length_app, length_map. done.
Qed.

(** Keeping a substring, moved to the front: the end of [sdstrim] and [sdsrange]. *)
Lemma keep_range s l a b c : content s l -> l = a ++ b ++ c ->
  exists s', (buf ← (if Z.of_nat (length a) =? 0 then Some (s_buf s)
                     else memmove (s_buf s) 0 (Z.of_nat (length a)) (Z.of_nat (length b)));
              s ← sds_write (mkSds (s_flags s) (s_len s) (s_alloc s) buf) (Z.of_nat (length b)) [0];
              Some (sdssetlen s (Z.of_nat (length b)))) = Some s' /\ content s' b.
Proof.
  intros Hc Hl. destruct Hc as [Hb Hlen Hf [tail Hbuf]].
  assert (exists buf x r, (if Z.of_nat (length a) =? 0 then Some (s_buf s)
      else memmove (s_buf s) 0 (Z.of_nat (length a)) (Z.of_nat (length b))) = Some buf /\
      buf = b ++ x :: r /\ length buf = length (s_buf s)) as (buf & x & r & -> & Hb' & Hbl).
  { destruct (Z.eqb_spec (Z.of_nat (length a)) 0) as [E|E].
    - destruct a; [|simpl in E; lia]. destruct (split_at (c ++ 0 :: tail) 0) as ([|] & x & r & Hx & ?);
        [rewrite length_app; simpl; lia| |done]. exists (s_buf s), x, r. split_and!; [done| |done].
      rewrite Hbuf, Hl. simpl. rewrite <- app_assoc. by f_equal.
    - unfold memmove. rewrite Hbuf, Hl. rewrite <- !app_assoc.
      rewrite load_app by done. cbn [mbind option_bind].
      rewrite store_Some by (rewrite ?length_app; simpl; lia). simpl.
      destruct (split_at (drop (length b) (a ++ b ++ c ++ 0 :: tail)) 0) as ([|] & x & r & Hx & ?);
        [rewrite length_drop, !length_app; simpl; lia| |done].
      rewrite Hx. exists (b ++ x :: r), x, r. split_and!; [done|done|].
      apply (f_equal length) in Hx. rewrite length_drop, !length_app in Hx. simpl in Hx. rewrite !length_app. simpl. lia. }
  cbn [mbind option_bind]. set (s1 := mkSds _ _ _ _).
  assert (block_ok s1) as Hb1.
  { destruct Hb as [B1 B2 B3 B4 B5]. split; try done. change (sdsalloc s1) with (sdsalloc s). simpl. lia. }
  destruct (terminate s1 b x r Hb1 Hb') as [_ (s2 & -> & Hc2)].
  { change (sdsalloc s1) with (sdsalloc s). rewrite Hl, !length_app in Hf. lia. }
  by eexists.
Qed.

(** Reference definitions: trimming and ranges of byte strings. *)
Fixpoint drop_while (P : byte -> bool) (l : list byte) : list byte :=
  match l with
  | [] => []
  | c :: l' => if P c then drop_while P l' else l
  end.

Definition rstrip (P : byte -> bool) (l : list byte) : list byte := reverse (drop_while P (reverse l)).
Definition str_trim (P : byte -> bool) (l : list byte) : list byte := rstrip P (drop_while P l).

Lemma drop_while_suffix P l : exists a, l = a ++ drop_while P l.
Proof.
  induction l as [|c l [a IH]]; simpl; [by exists []|]. destruct (P c); [|by exists []].
  exists (c :: a). simpl. by f_equal.
Qed.

Lemma rstrip_prefix P l : exists c, l = rstrip P l ++ c.
Proof.
  destruct (drop_while_suffix P (reverse l)) as [a Ha]. exists (reverse a). unfold rstrip.
  rewrite <- reverse_app, <- Ha, reverse_involutive. done.
Qed.

Lemma rstrip_snoc P l c : rstrip P (l ++ [c]) = if P c then rstrip P l else l ++ [c].
Proof.
  unfold rstrip. rewrite reverse_app. simpl. destruct (P c); [done|].
  change (c :: reverse l) with ([c] ++ reverse l). by rewrite reverse_app, reverse_involutive.
Qed.

Lemma drop_while_head P l c m : drop_while P l = c :: m -> P c = false.
Proof. induction l as [|x l IH]; simpl; [done|]. destruct (P x) eqn:E; [done|]. intros [= -> _]. done. Qed.

Lemma trim_left_spec fuel cset r l : forall p, (length l <= fuel)%nat ->
  trim_left fuel (p ++ l ++ r) cset (Z.of_nat (length p)) (Z.of_nat (length p) + Z.of_nat (length l) - 1) =
    Some (Z.of_nat (length p) + Z.of_nat (length l) - Z.of_nat (length (drop_while (strchr cset) l))).
Proof.
  revert fuel. induction l as [|c l IH]; intros fuel p Hf.
  - destruct fuel; cbn [trim_left]; rewrite (proj2 (Z.leb_gt _ _)) by (simpl; lia);
      (f_equal; simpl; lia).
  - simpl in Hf. destruct fuel as [|fuel]; [lia|]. cbn [trim_left]. simpl length.
    rewrite (proj2 (Z.leb_le _ _)) by lia. simpl app. rewrite getb_app by done. cbn [mbind option_bind].
    cbn [drop_while]. destruct (strchr cset c).
    + specialize (IH fuel (p ++ [c]) ltac:(lia)). rewrite length_app, <- app_assoc in IH. simpl in IH.
      replace (Z.of_nat (length p) + Z.of_nat (S (length l)) - 1)
        with (Z.of_nat (length p + 1) + Z.of_nat (length l) - 1) by lia.
      replace (Z.of_nat (length p) + 1) with (Z.of_nat (length p + 1)) by lia. rewrite IH. f_equal. lia.
    + simpl length. f_equal. lia.
Qed.

Lemma trim_right_spec fuel cset p l : forall r, (length l <= fuel)%nat ->
  (forall c m, l = c :: m -> strchr cset c = false) -> l <> [] ->
  trim_right fuel (p ++ l ++ r) cset (Z.of_nat (length p)) (Z.of_nat (length p) + Z.of_nat (length l) - 1) =
    Some (Z.of_nat (length p) + Z.of_nat (length (rstrip (strchr cset) l)) - 1).
Proof.
  revert fuel. induction l as [|c l IH] using rev_ind; intros fuel r Hf Hhd Hne; [done|].
  rewrite length_app in *. simpl in *. destruct fuel as [|fuel]; [lia|]. cbn [trim_right].
  rewrite Z.gtb_ltb. rewrite rstrip_snoc. destruct l as [|c0 l].
  - simpl. rewrite (proj2 (Z.ltb_ge _ _)) by lia. by rewrite (Hhd c []).
  - rewrite (proj2 (Z.ltb_lt _ _)) by (simpl; lia).
    replace (p ++ ((c0 :: l) ++ [c]) ++ r) with ((p ++ c0 :: l) ++ c :: r) by (by rewrite <- !app_assoc).
    rewrite getb_app by (rewrite length_app; simpl; lia). cbn [mbind option_bind].
    destruct (strchr cset c).
    + specialize (IH fuel (c :: r) ltac:(simpl in *; lia)).
      rewrite <- app_assoc. rewrite <- IH; [f_equal; simpl; lia| |done].
      intros c1 m [= <- _]. by apply (Hhd c0 (l ++ [c])).
    + f_equal. rewrite length_app. simpl. lia.
Qed.

Lemma sdstrim_spec s l cset : content s l ->
  exists s', sdstrim s cset = Some s' /\ content s' (str_trim (strchr cset) l).
Proof.
  intros Hc. unfold sdstrim, str_trim. rewrite (c_len _ _ Hc), Nat2Z.id. destruct (c_buf _ _ Hc) as [tail Hbuf].
  pose proof (trim_left_spec (length l) cset (0 :: tail) l [] ltac:(lia)) as Hl. simpl app in Hl.
  change (Z.of_nat (length [])) with 0 in Hl. rewrite !Z.add_0_l, <- Hbuf in Hl. rewrite Hl.
  cbn [mbind option_bind].
  destruct (drop_while_suffix (strchr cset) l) as [a Ha]. set (m := drop_while (strchr cset) l) in *.
  assert (length l = length a + length m)%nat as Hlen by (rewrite Ha at 1; by rewrite length_app).
  replace (Z.of_nat (length l) - Z.of_nat (length m)) with (Z.of_nat (length a)) by lia.
  destruct (decide (m = [])) as [Hm|Hm].
  - rewrite Hm in *. simpl in Hlen. rewrite app_nil_r in Ha. subst a.
    assert (forall f buf, trim_right f buf cset (Z.of_nat (length l)) (Z.of_nat (length l) - 1) = Some (Z.of_nat (length l) - 1)) as Hr.
    { intros [|f] buf; simpl; rewrite Z.gtb_ltb, (proj2 (Z.ltb_ge _ _)) by lia; done. }
    rewrite Hr. cbn [mbind option_bind]. rewrite Z.gtb_ltb, (proj2 (Z.ltb_lt _ _)) by lia.
    apply (keep_range s l l [] [] Hc). by rewrite !app_nil_r.
  - destruct (rstrip_prefix (strchr cset) m) as [c Hc']. set (b := rstrip (strchr cset) m) in *.
    pose proof (trim_right_spec (length l) cset a m (0 :: tail) ltac:(lia)) as Hr.
    rewrite app_assoc, <- Ha, <- Hbuf in Hr.
    replace (Z.of_nat (length a) + Z.of_nat (length m) - 1) with (Z.of_nat (length l) - 1) in Hr by lia.
    rewrite Hr; [|intros c0 m0; apply drop_while_head|done]. fold b. cbn [mbind option_bind].
    set (len := if Z.of_nat (length a) >? _ then 0 else _).
    assert (len = Z.of_nat (length b)) as ->.
    { subst len. rewrite Z.gtb_ltb. destruct (Z.ltb_spec (Z.of_nat (length a) + Z.of_nat (length b) - 1) (Z.of_nat (length a))); lia. }
    apply (keep_range s l a b c Hc). by rewrite <- Hc'.
Qed.

(** The inclusive range with negative positions counted from the end. *)
Definition str_range (l : list byte) (start end_ : Z) : list byte :=
  let n := Z.of_nat (length l) in
  let st := if start <? 0 then Z.max 0 (n + start) else start in
  let en := if end_ <? 0 then Z.max 0 (n + end_) else end_ in
  take (Z.to_nat (en - st + 1)) (drop (Z.to_nat st) l).

Lemma u64_s64 x : u64 (s64 x) = u64 x.
Proof.
  unfold uwrap, swrap. destruct (_ <? _); [apply Zmod_mod|].
  rewrite <- (Z_mod_plus_full (_ - _) 1), Z.mul_1_l. rewrite Z.sub_add. apply Zmod_mod.
Qed.

Lemma sdsrange_spec s l start end_ : content s l -> Z.of_nat (length l) < max_sds ->
  in_s 64 start -> in_s 64 end_ ->
  exists s', sdsrange s start end_ = Some s' /\ content s' (str_range l start end_).
Proof.
  intros Hc Hmax Hst Hen. unfold sdsrange, str_range, max_sds in *. rewrite (c_len _ _ Hc).
  set (n := Z.of_nat (length l)) in *.
  destruct (Z.eqb_spec n 0) as [E|E].
  { exists s. split; [done|]. destruct l; [|done]. by rewrite drop_nil, take_nil. }
  assert (forall x, in_s 64 x -> (if x <? 0 then let y := s64 (n + x) in if y <? 0 then 0 else y else x) =
    (if x <? 0 then Z.max 0 (n + x) else x)) as Hnorm.
  { intros x Hx. destruct (Z.ltb_spec x 0); [|done]. rewrite swrap_small by (limits; lia).
    cbv zeta. destruct (Z.ltb_spec (n + x) 0); lia. }
  rewrite !Hnorm by done.
  assert (forall x, in_s 64 x -> 0 <= (if x <? 0 then Z.max 0 (n + x) else x) < 2 ^ 63) as Hrange.
  { intros x Hx. destruct (Z.ltb_spec x 0); limits; lia. }
  pose proof (Hrange _ Hst) as Hs0. pose proof (Hrange _ Hen) as He0.
  set (a := if start <? 0 then _ else _) in *. set (b := if end_ <? 0 then _ else _) in *.
  clearbody a b. clear Hnorm Hrange. rewrite !(swrap_small 64 n) by (limits; lia).
  rewrite (swrap_small 64 (n - 1)) by (limits; lia).
  assert (forall x y, 0 <= x <= y -> y < 2 ^ 63 -> u64 (s64 (s64 (y - x) + 1)) = y - x + 1) as Hlen.
  { intros x y Hxy Hy. rewrite (swrap_small 64 (y - x)) by (limits; lia). rewrite u64_s64. apply uwrap_small. lia. }
  rewrite !Z.gtb_ltb, !Z.geb_leb.
  (* the substring kept *)
  set (k := Z.to_nat (b - a + 1)). set (i := Z.to_nat a).
  destruct (Z.ltb_spec b a) as [Hba|Hba].
  { simpl. replace k with 0%nat by lia. rewrite take_0. apply (keep_range s l [] [] l Hc eq_refl). }
  rewrite (Hlen a b) by lia. rewrite (proj2 (Z.eqb_neq (b - a + 1) 0)) by lia. simpl negb. cbv iota.
  destruct (Z.leb_spec n a) as [Hna|Hna].
  { rewrite andb_false_r. rewrite drop_ge, take_nil by lia.
    apply (keep_range s l [] [] l Hc eq_refl). }
  assert (forall m, m = Z.of_nat (length (take k (drop i l))) -> 0 < m -> exists s',
    (buf ← (if negb (a =? 0) && negb (m =? 0) then memmove (s_buf s) 0 a m else Some (s_buf s));
     s ← sds_write (mkSds (s_flags s) (s_len s) (s_alloc s) buf) m [0]; Some (sdssetlen s m)) = Some s' /\
    content s' (take k (drop i l))) as Hkeep.
  { intros m Hm Hpos. rewrite (proj2 (Z.eqb_neq m 0)), andb_true_r by lia.
    destruct (keep_range s l (take i l) (take k (drop i l)) (drop k (drop i l)) Hc) as (s' & Hs' & Hc').
    { by rewrite !take_drop. }
    exists s'. split; [|done]. rewrite <- Hm, length_take in Hs'.
    replace (Z.of_nat (i `min` length l)) with a in Hs' by lia. by destruct (a =? 0). }
  destruct (Z.leb_spec n b) as [Hnb|Hnb].
  - rewrite (proj2 (Z.ltb_ge (n - 1) a)), Hlen by lia. apply Hkeep; [|lia].
    rewrite length_take, length_drop. lia.
  - apply Hkeep; [|lia]. rewrite length_take, length_drop. lia.
Qed.

(** ** Comparison *)

(** The lexicographic order on byte strings. *)
Fixpoint lex_lt (a b : list byte) : bool :=
  match a, b with
  | _, [] => false
  | [], _ :: _ => true
  | x :: a, y :: b => (x <? y) || ((x =? y) && lex_lt a b)
  end.

Lemma memcmp_take a : forall b n, (length a <= n \/ length b <= n)%nat ->
  memcmp (take n a) (take n b) = memcmp a b.
Proof.
  induction a as [|x a IH]; intros [|y b] [|n] Hn; simpl in *; try done; [lia|].
  destruct (x =? y); [|done]. apply IH. lia.
Qed.

Lemma lex_spec a : forall b,
  let c := if memcmp a b =? 0
           then if Z.of_nat (length a) >? Z.of_nat (length b) then 1
                else if Z.of_nat (length a) <? Z.of_nat (length b) then -1 else 0
           else memcmp a b in
  (c < 0 <-> lex_lt a b = true) /\ (c = 0 <-> a = b) /\ (c > 0 <-> lex_lt b a = true).
Proof.
  induction a as [|x a IH]; intros [|y b]; cbn [memcmp lex_lt]; cbv zeta.
  - simpl. split_and!; (split; [lia || done|done]).
  - rewrite (Z.eqb_refl 0), Z.gtb_ltb. simpl. split_and!; (split; [lia || done|done]).
  - rewrite (Z.eqb_refl 0), Z.gtb_ltb. simpl. split_and!; (split; [lia || done|done]).
  - destruct (Z.eqb_spec x y) as [->|Hne].
    + rewrite Z.ltb_irrefl, Z.eqb_refl. simpl orb. simpl andb. specialize (IH b). cbv zeta in IH.
      simpl length. replace (Z.of_nat (S (length a)) >? Z.of_nat (S (length b))) with (Z.of_nat (length a) >? Z.of_nat (length b))
        by (rewrite !Z.gtb_ltb; apply eq_true_iff_eq; rewrite !Z.ltb_lt; lia).
      replace (Z.of_nat (S (length a)) <? Z.of_nat (S (length b))) with (Z.of_nat (length a) <? Z.of_nat (length b))
        by (apply eq_true_iff_eq; rewrite !Z.ltb_lt; lia).
      destruct IH as (I1 & I2 & I3). split_and!; [done| |done]. rewrite I2. split; [by intros ->|by intros [= ->]].
    + rewrite (proj2 (Z.eqb_neq (x - y) 0)) by lia. rewrite (proj2 (Z.eqb_neq y x)) by lia.
      simpl andb. rewrite !orb_false_r, !Z.ltb_lt. split_and!; [lia| |lia].
      split; [lia|]. by intros [= -> _].
Qed.

Lemma sdscmp_spec s1 l1 s2 l2 : content s1 l1 -> content s2 l2 ->
  exists c, sdscmp s1 s2 = Some c /\ (c < 0 <-> lex_lt l1 l2 = true) /\ (c = 0 <-> l1 = l2) /\
    (c > 0 <-> lex_lt l2 l1 = true).
Proof.
  intros [_ H1 _ [t1 B1]] [_ H2 _ [t2 B2]]. unfold sdscmp. rewrite H1, H2, B1, B2.
  set (m := if Z.of_nat (length l1) <? Z.of_nat (length l2) then Z.of_nat (length l1) else Z.of_nat (length l2)).
  assert (m = Z.of_nat (length l1 `min` length l2)) as ->.
  { subst m. destruct (Z.ltb_spec (Z.of_nat (length l1)) (Z.of_nat (length l2))); lia. }
  rewrite !load_Some by (rewrite ?length_app; lia). cbn [mbind option_bind]. eexists. split; [done|].
  change (Z.to_nat 0) with 0%nat. rewrite !drop_0, Nat2Z.id, !take_app_le by lia.
  rewrite memcmp_take by lia. apply lex_spec.
Qed.

(** ** Integers *)

#[local] Opaque dec.

Lemma dec20_snoc_or v : 0 <= v < 10 ^ 20 ->
  dec 20 v = (if v / 10 =? 0 then [] else dec 20 (v / 10)) ++ [48 + v mod 10].
Proof.
  intros Hv. destruct (Z.eqb_spec (v / 10) 0) as [E|E].
  - assert (v < 10) by (pose proof (Z.div_mod v 10 ltac:(lia)); pose proof (Z.mod_pos_bound v 10 ltac:(lia)); lia).
    rewrite dec20_small by done. by rewrite Z.mod_small by lia.
  - apply dec20_step. split; [|lia]. pose proof (Z.div_small v 10). lia.
Qed.

Lemma ll2str_loop_spec fuel : forall v p q, 0 <= v < 10 ^ Z.of_nat (S fuel) -> v < 10 ^ 20 ->
  (length (dec 20 v) <= length q)%nat ->
  ll2str_loop (S fuel) (p ++ q) (Z.of_nat (length p)) v =
    Some (p ++ reverse (dec 20 v) ++ drop (length (dec 20 v)) q, Z.of_nat (length p + length (dec 20 v))).
Proof.
  induction fuel as [|fuel IH]; intros v p q Hv Hv20 Hq;
    rewrite (dec20_snoc_or v) in * by lia; rewrite length_app in *; simpl length in *;
    destruct q as [|c q]; [simpl in Hq; lia| |simpl in Hq; lia|].
  all: remember (S fuel) as f eqn:Hf || idtac; cbn [ll2str_loop];
    rewrite (put_app p c q) by done; cbn [mbind option_bind].
  - rewrite (Z.div_small v 10) by lia. simpl. rewrite Z.add_0_l || idtac. do 2 f_equal. lia.
  - destruct (Z.eqb_spec (v / 10) 0) as [E|E].
    + simpl. do 2 f_equal. lia.
    + rewrite reverse_app. replace (Z.of_nat (length p) + 1) with (Z.of_nat (length (p ++ [48 + v mod 10])))
        by (rewrite length_app; simpl; lia).
      replace (p ++ 48 + v mod 10 :: q) with ((p ++ [48 + v mod 10]) ++ q) by (by rewrite <- app_assoc).
      subst f. rewrite IH.
      * rewrite <- !app_assoc, length_app. simpl. rewrite (Nat.add_1_r (length (dec 20 (v / 10)))). simpl. do 2 f_equal. lia.
      * rewrite (Nat2Z.inj_succ (S fuel)), Z.pow_succ_r in Hv by lia.
        split; [apply Z.div_pos; lia|apply Z.div_lt_upper_bound; lia].
      * apply Z.div_lt_upper_bound; lia.
      * simpl in Hq. lia.
Qed.

Lemma reverse_loop_spec fuel : forall p m r, (length m <= 2 * fuel + 1)%nat ->
  reverse_loop fuel (p ++ m ++ r) (Z.of_nat (length p)) (Z.of_nat (length p) + Z.of_nat (length m) - 1) =
    Some (p ++ reverse m ++ r).
Proof.
  induction fuel as [|fuel IH]; intros p m r Hm.
  all: destruct (decide (length m <= 1)%nat) as [Hs|Hs];
    [cbn [reverse_loop]; rewrite (proj2 (Z.ltb_ge _ _)) by lia; by destruct m as [|? [|? ?]]; simpl in Hs; try lia|].
  { lia. }
  cbn [reverse_loop]. rewrite (proj2 (Z.ltb_lt _ _)) by lia.
  destruct m as [|x m]; [simpl in Hs; lia|]. destruct m as [|y m _] using rev_ind; [simpl in Hs; lia|].
  simpl length in *. rewrite length_app in *. simpl length in *.
  change ((x :: m ++ [y]) ++ r) with (x :: (m ++ [y]) ++ r).
  rewrite (getb_app p x _ (Z.of_nat (length p)) eq_refl). cbn [mbind option_bind].
  replace (p ++ x :: (m ++ [y]) ++ r) with ((p ++ x :: m) ++ y :: r) by (by rewrite <- !app_assoc).
  rewrite getb_app by (rewrite length_app; simpl; lia). cbn [mbind option_bind].
  replace ((p ++ x :: m) ++ y :: r) with (p ++ x :: m ++ y :: r) by (by rewrite <- !app_assoc).
  rewrite (put_app p x) by done. cbn [mbind option_bind].
  replace (p ++ y :: m ++ y :: r) with ((p ++ y :: m) ++ y :: r) by (by rewrite <- !app_assoc).
  rewrite (put_app (p ++ y :: m) y) by (rewrite ?length_app; simpl; lia). cbn [mbind option_bind].
  specialize (IH (p ++ [y]) m (x :: r) ltac:(lia)). rewrite length_app in IH. simpl length in IH.
  replace ((p ++ y :: m) ++ x :: r) with ((p ++ [y]) ++ m ++ x :: r) by (by rewrite <- !app_assoc).
  replace (Z.of_nat (length p) + 1) with (Z.of_nat (length p + 1)) by lia.
  replace (Z.of_nat (length p) + Z.of_nat (S (length m + 1)) - 1 - 1)
    with (Z.of_nat (length p + 1) + Z.of_nat (length m) - 1) by lia.
  rewrite IH. rewrite reverse_cons, reverse_app. simpl. by rewrite <- !app_assoc.
Qed.

(** The common end of [sdsll2str] and [sdsull2str]: terminate and reverse. *)
Lemma finish_reversed w q : (length w <= 21)%nat -> (0 < length w)%nat -> (0 < length q)%nat ->
  (buf ← put (w ++ q) (Z.of_nat (length w)) 0;
   buf ← reverse_loop 20 buf 0 (Z.of_nat (length w) - 1);
   Some (buf, Z.of_nat (length w))) =
  Some (reverse w ++ 0 :: drop 1 q, Z.of_nat (length w)).
Proof.
  intros Hw Hw0 Hq. destruct q as [|c q]; [simpl in Hq; lia|]. rewrite put_app by done.
  cbn [mbind option_bind].
  pose proof (reverse_loop_spec 20 [] w (0 :: q) ltac:(lia)) as Hr. simpl app in Hr.
  change (Z.of_nat (length [])) with 0 in Hr. rewrite Z.add_0_l in Hr. rewrite Hr. done.
Qed.

Lemma sdsll2str_spec buf v : in_s 64 v -> (21 <= length buf)%nat ->
  sdsll2str buf v = Some (decimal v ++ 0 :: drop (S (length (decimal v))) buf, Z.of_nat (length (decimal v))).
Proof.
  intros Hv Hbuf. unfold sdsll2str.
  assert ((if v <? 0 then u64 (s64 (- v)) else u64 v) = Z.abs v) as ->.
  { destruct (Z.ltb_spec v 0); [rewrite u64_s64|]; rewrite uwrap_small by (limits; lia); lia. }
  assert (0 <= Z.abs v < 2 ^ 63 + 1) as Ha by (limits; lia).
  assert (Z.abs v < 10 ^ 19) as H19 by lia.
  assert (length (dec 20 (Z.abs v)) <= 19)%nat as Hd.
  { rewrite (dec_fuel 20 19) by lia. apply dec_length_le. }
  pose proof (dec_length_pos (Z.abs v) ltac:(lia)) as Hd0. rewrite decimal_abs.
  pose proof (ll2str_loop_spec 19 (Z.abs v) [] buf ltac:(lia) ltac:(lia) ltac:(lia)) as Hl.
  change (Z.of_nat (length [])) with 0 in Hl. cbn [app] in Hl. rewrite Hl. cbn [mbind option_bind].
  set (D := dec 20 (Z.abs v)) in *. clearbody D. clear Hl. set (q := drop (length D) buf).
  assert (length q = length buf - length D)%nat as Hq by (subst q; by rewrite length_drop).
  assert (length (reverse D) = length D) as Hrl by apply length_reverse.
  destruct (v <? 0).
  - destruct q as [|c q'] eqn:Eq; [simpl in Hq; lia|]. change (length [] + length D)%nat with (length D).
    rewrite (put_app (reverse D) c q') by lia. cbn [mbind option_bind].
    replace (reverse D ++ 45 :: q') with ((reverse D ++ [45]) ++ q') by (by rewrite <- app_assoc).
    replace (Z.of_nat (length D) + 1) with (Z.of_nat (length (reverse D ++ [45]))) by (rewrite length_app; simpl; lia).
    rewrite finish_reversed by (rewrite ?length_app; simpl in Hq |- *; lia).
    rewrite reverse_app, reverse_involutive, length_app, Hrl.
    assert (drop 1 q' = drop (S (S (length D))) buf) as ->.
    { change (drop 1 q') with (drop 2 (c :: q')). rewrite <- Eq. subst q. rewrite drop_drop. f_equal. lia. }
    simpl. by rewrite Nat.add_1_r.
  - change (length [] + length D)%nat with (length D). cbn [app mbind option_bind].
    replace (Z.of_nat (length D)) with (Z.of_nat (length (reverse D))) by lia.
    rewrite finish_reversed by lia. rewrite reverse_involutive, Hrl. subst q.
    rewrite drop_drop. simpl. by rewrite Nat.add_1_r.
Qed.

Lemma sdsfromlonglong_spec junk v : in_s 64 v ->
  exists s, sdsfromlonglong junk v = Some s /\ content s (decimal v).
Proof.
  intros Hv. unfold sdsfromlonglong.
  rewrite sdsll2str_spec; [|done|unfold malloc; rewrite length_fmap, length_seq; done].
  cbn [mbind option_bind fst snd]. apply sdsnewlen_spec.
  rewrite decimal_abs, length_app. pose proof (dec_length_le 20 (Z.abs v)).
  unfold max_sds. destruct (v <? 0); simpl; lia.
Qed.

Lemma sdsull2str_spec buf v : 0 <= v < 2 ^ 64 -> (21 <= length buf)%nat ->
  sdsull2str buf v = Some (dec 20 v ++ 0 :: drop (S (length (dec 20 v))) buf, Z.of_nat (length (dec 20 v))).
Proof.
  intros Hv Hbuf. unfold sdsull2str.
  pose proof (dec_length_le 20 v) as Hd. pose proof (dec_length_pos v ltac:(lia)) as Hd0.
  pose proof (ll2str_loop_spec 19 v [] buf ltac:(lia) ltac:(lia) ltac:(lia)) as Hl.
  change (Z.of_nat (length [])) with 0 in Hl. cbn [app] in Hl. rewrite Hl. cbn [mbind option_bind].
  set (D := dec 20 v) in *. clearbody D. clear Hl. change (length [] + length D)%nat with (length D).
  pose proof (length_reverse D) as Hrl.
  replace (Z.of_nat (length D)) with (Z.of_nat (length (reverse D))) by lia.
  rewrite finish_reversed by (rewrite ?length_drop; lia). rewrite reverse_involutive, Hrl.
  rewrite drop_drop. by rewrite Nat.add_1_r.
Qed.

(** ** Sequences of operations *)

Inductive sds_op :=
  | OCat (t : list byte) | OCpy (t : list byte) | OAppend (t : list byte)
  | OTrim (cset : list byte) | ORange (start end_ : Z) | OClear | OGrowZero (n : Z)
  | ORemoveFree | OMakeRoom (n : Z) | OLower | OUpper | OMapChars (from to : list byte) | ODup.

(** The idiom of the comment of [sdsIncrLen]: make room, let another function
    write at the end, account for the bytes. *)
Definition sds_append (junk : nat -> byte) (s : sds) (t : list byte) : option sds :=
  let oldlen := sdslen s in
  s ← sdsMakeRoomFor junk s (Z.of_nat (length t));
  s ← sds_write s oldlen t;
  sdsIncrLen s (Z.of_nat (length t)).

Definition sds_step (junk : nat -> byte) (s : sds) (o : sds_op) : option sds :=
  match o with
  | OCat t => sdscatlen junk s t (Z.of_nat (length t))
  | OCpy t => sdscpylen junk s t (Z.of_nat (length t))
  | OAppend t => sds_append junk s t
  | OTrim cset => sdstrim s cset
  | ORange st en => sdsrange s st en
  | OClear => sdsclear s
  | OGrowZero n => sdsgrowzero junk s n
  | ORemoveFree => sdsRemoveFreeSpace junk s
  | OMakeRoom n => sdsMakeRoomFor junk s n
  | OLower => sdstolower s
  | OUpper => sdstoupper s
  | OMapChars from to => sdsmapchars s from to (Z.of_nat (length from))
  | ODup => sdsdup junk s
  end.

(** The same operation on a byte string. *)
Definition str_step (l : list byte) (o : sds_op) : list byte :=
  match o with
  | OCat t | OAppend t => l ++ t
  | OCpy t => t
  | OTrim cset => str_trim (strchr cset) l
  | ORange st en => str_range l st en
  | OClear => []
  | OGrowZero n => l ++ replicate (Z.to_nat n - length l) 0
  | ORemoveFree | OMakeRoom _ | ODup => l
  | OLower => map tolower l
  | OUpper => map toupper l
  | OMapChars from to => map (map_char from to) l
  end.

(** The preconditions of an operation, and the bytes it may add. *)
Definition op_ok (o : sds_op) : Prop :=
  match o with
  | OAppend t => t <> []
  | ORange st en => in_s 64 st /\ in_s 64 en
  | OGrowZero n | OMakeRoom n => 0 <= n
  | OMapChars from to => length from = length to
  | _ => True
  end.

Definition op_cost (o : sds_op) : Z :=
  match o with
  | OCat t | OAppend t | OCpy t => Z.of_nat (length t)
  | OGrowZero n | OMakeRoom n => n
  | _ => 0
  end.

Fixpoint sds_run (junk : nat -> byte) (s : sds) (os : list sds_op) : option sds :=
  match os with
  | [] => Some s
  | o :: os => s ← sds_step junk s o; sds_run junk s os
  end.

(** Room is made, possibly more than needed, the bytes are written at the end of
    the string and accounted for. *)
Lemma append_room junk s l t room : content s l -> t <> [] -> Z.of_nat (length t) <= room ->
  Z.of_nat (length l) + room < max_sds ->
  exists s1 s2 s', sdsMakeRoomFor junk s room = Some s1 /\ content s1 l /\
    sds_write s1 (Z.of_nat (length l)) t = Some s2 /\ sdsIncrLen s2 (Z.of_nat (length t)) = Some s' /\ content s' (l ++ t).
Proof.
  intros Hc Hne Hle Hmax.
  destruct (sdsMakeRoomFor_spec junk s l room Hc ltac:(lia) Hmax) as (s1 & Hs1 & Hc1 & Ha).
  exists s1. pose proof Hc1 as [Hb Hl Hf [tail Hbuf]]. pose proof (b_buf _ Hb) as Hlen.
  rewrite Hbuf, length_app in Hlen. simpl in Hlen.
  destruct (split_at (0 :: tail) (length t)) as (q & x & r & Hq & Hql); [simpl; lia|]. rewrite Hq in Hbuf.
  destruct (write_spec s1 l q (x :: r) t _ Hb Hbuf Hql eq_refl) as (s2 & Hw & Hbuf2 & Hb2 & Hl2 & Ha2 & Ht2).
  rewrite app_assoc in Hbuf2.
  destruct (sdsIncrLen_spec s2 l t x r Hb2 ltac:(lia) Hbuf2 ltac:(lia)) as (s' & Hi & Hc').
  { intros H5. destruct (type5_flags s2 Hb2 H5) as (H1 & H2 & _). destruct t; [done|]. simpl in Hle. lia. }
  exists s2, s'. done.
Qed.

Lemma sds_append_spec junk s l t : content s l -> t <> [] ->
  Z.of_nat (length l) + Z.of_nat (length t) < max_sds ->
  exists s', sds_append junk s t = Some s' /\ content s' (l ++ t).
Proof.
  intros Hc Hne Hmax. unfold sds_append. rewrite (c_len _ _ Hc).
  destruct (append_room junk s l t _ Hc Hne (Z.le_refl _) Hmax) as (s1 & s2 & s' & -> & _ & Hw & Hi & Hc').
  exists s'. cbn [mbind option_bind]. rewrite Hw. done.
Qed.

Lemma str_trim_length P l : (length (str_trim P l) <= length l)%nat.
Proof.
  unfold str_trim. destruct (drop_while_suffix P l) as [a Ha].
  destruct (rstrip_prefix P (drop_while P l)) as [c Hc].
  apply (f_equal length) in Ha, Hc. rewrite length_app in Ha, Hc. lia.
Qed.

Lemma sds_step_sim junk s l o : content s l -> op_ok o -> Z.of_nat (length l) + op_cost o < max_sds ->
  exists s', sds_step junk s o = Some s' /\ content s' (str_step l o) /\
    Z.of_nat (length (str_step l o)) <= Z.of_nat (length l) + op_cost o.
Proof.
  intros Hc Hok Hmax. destruct o as [t|t|t|cset|st en| |n| |n| | |from to|]; simpl in *.
  - destruct (sdscatlen_spec junk s l t [] Hc Hmax) as (s' & H1 & H2). rewrite app_nil_r in H1.
    exists s'. rewrite length_app. split_and!; [done|done|lia].
  - destruct (sdscpylen_spec junk s l t [] Hc ltac:(lia)) as (s' & H1 & H2). rewrite app_nil_r in H1.
    exists s'. split_and!; [done|done|lia].
  - destruct (sds_append_spec junk s l t Hc Hok Hmax) as (s' & H1 & H2).
    exists s'. rewrite length_app. split_and!; [done|done|lia].
  - destruct (sdstrim_spec s l cset Hc) as (s' & H1 & H2). exists s'.
    pose proof (str_trim_length (strchr cset) l). split_and!; [done|done|lia].
  - destruct Hok. destruct (sdsrange_spec s l st en Hc ltac:(lia)) as (s' & H1 & H2); [done..|]. exists s'.
    split_and!; [done|done|]. unfold str_range. rewrite length_take, length_drop. lia.
  - destruct (sdsclear_spec s l Hc) as (s' & H1 & H2). exists s'. split_and!; [done|done|simpl; lia].
  - destruct (sdsgrowzero_spec junk s l n Hc ltac:(lia)) as (s' & H1 & H2). exists s'.
    rewrite length_app, length_replicate. split_and!; [done|done|lia].
  - destruct (sdsRemoveFreeSpace_spec junk s l Hc ltac:(lia)) as (s' & H1 & H2 & _). exists s'.
    split_and!; [done|done|lia].
  - destruct (sdsMakeRoomFor_spec junk s l n Hc Hok Hmax) as (s' & H1 & H2 & _). exists s'.
    split_and!; [done|done|lia].
  - destruct (map_sds_spec tolower s l Hc) as (s' & H1 & H2). exists s'. rewrite length_map. split_and!; [done|done|lia].
  - destruct (map_sds_spec toupper s l Hc) as (s' & H1 & H2). exists s'. rewrite length_map. split_and!; [done|done|lia].
  - unfold sdsmapchars. rewrite !load_all by (done || by rewrite Hok). cbn [mbind option_bind].
    destruct (map_sds_spec (map_char from to) s l Hc) as (s' & H1 & H2). exists s'.
    rewrite length_map. split_and!; [done|done|lia].
  - destruct (sdsdup_spec junk s l Hc ltac:(lia)) as (s' & H1 & H2). exists s'. split_and!; [done|done|lia].
Qed.

Definition total_cost (os : list sds_op) : Z := foldr (fun o n => op_cost o + n) 0 os.

Lemma op_cost_nonneg o : op_ok o -> 0 <= op_cost o.
Proof. destruct o; simpl; lia. Qed.

Lemma total_cost_nonneg os : Forall op_ok os -> 0 <= total_cost os.
Proof.
  induction 1 as [|o os Ho _ IH]; [done|]. pose proof (op_cost_nonneg o Ho).
  change (0 <= op_cost o + total_cost os). lia.
Qed.

Lemma sds_run_sim junk os : forall s l, content s l -> Forall op_ok os ->
  Z.of_nat (length l) + total_cost os < max_sds ->
  exists s', sds_run junk s os = Some s' /\ content s' (foldl str_step l os).
Proof.
  induction os as [|o os IH]; intros s l Hc Hok Hmax; simpl; [by exists s|].
  apply Forall_cons in Hok as [Ho Hok]. change (total_cost (o :: os)) with (op_cost o + total_cost os) in Hmax.
  pose proof (total_cost_nonneg os Hok).
  destruct (sds_step_sim junk s l o Hc Ho ltac:(lia)) as (s1 & -> & Hc1 & Hl1). cbn [mbind option_bind].
  apply IH; [done|done|lia].
Qed.

(** C19: sds strings implement byte strings: from the empty string, any sequence
    of appends, copies, in-place trims, ranges, case changes, character maps,
    zero-fills, clears, changes of the allocation and duplications (going on with
    the duplicate) that adds fewer than 2^62 bytes completes with every buffer access in bounds and every assertion
    satisfied, whatever the allocator returns, and leaves a well-formed header
    with the NUL-terminated bytes the string operations give. *)
Theorem sds_refines_bytes junk os : Forall op_ok os -> total_cost os < max_sds ->
  exists s0 s, sdsempty junk = Some s0 /\ sds_run junk s0 os = Some s /\ content s (foldl str_step [] os).
Proof.
  intros Hok Hmax. destruct (sdsempty_spec junk) as (s0 & Hs0 & Hc0).
  destruct (sds_run_sim junk os s0 [] Hc0 Hok) as (s & Hs & Hc); [simpl; lia|]. by exists s0, s.
Qed.

(** [sdsll2str] writes the decimal notation of a 64-bit integer, LLONG_MIN
    included, and a terminating NUL into any buffer of SDS_LLSTR_SIZE bytes
    without leaving it, and returns its length; [sdsull2str] does so for
    unsigned integers. *)
Theorem sdsll2str_correct buf v : in_s 64 v -> (21 <= length buf)%nat ->
  sdsll2str buf v = Some (decimal v ++ 0 :: drop (S (length (decimal v))) buf, Z.of_nat (length (decimal v))) /\
  sdsull2str buf (u64 v) = Some (dec 20 (u64 v) ++ 0 :: drop (S (length (dec 20 (u64 v)))) buf,
                                 Z.of_nat (length (dec 20 (u64 v)))).
Proof.
  intros Hv Hb. split; [by apply sdsll2str_spec|]. apply sdsull2str_spec; [apply uwrap_range; lia|done].
Qed.

(** [sdscmp] compares the contents of two strings in the lexicographic order
    of their bytes, a proper prefix being smaller. *)
Theorem sdscmp_correct s1 l1 s2 l2 : content s1 l1 -> content s2 l2 ->
  exists c, sdscmp s1 s2 = Some c /\ (c < 0 <-> lex_lt l1 l2 = true) /\ (c = 0 <-> l1 = l2) /\
    (c > 0 <-> lex_lt l2 l1 = true).
Proof. apply sdscmp_spec. Qed.

(** ** Witnesses *)

Definition sample_sds_ops : list sds_op :=
  [OCat (bytes_of "  Hello World  "); OTrim (bytes_of " "); ORange (-5) (-1); OUpper;
   OAppend (bytes_of "!"); ORemoveFree; ODup; OGrowZero 8].

Lemma sds_refines_bytes_witness : exists s0 s, sdsempty (fun _ => 165) = Some s0 /\
  sds_run (fun _ => 165) s0 sample_sds_ops = Some s /\ content s (bytes_of "WORLD!" ++ [0; 0]).
Proof.
  apply (sds_refines_bytes (fun _ => 165) sample_sds_ops).
  - unfold sample_sds_ops. repeat constructor; simpl; limits; try lia. done.
  - unfold max_sds. vm_compute. done.
Defined.

Lemma sdsll2str_correct_witness :
  sdsll2str (replicate 21 165) (-1205) = Some (bytes_of "-1205" ++ 0 :: replicate 15 165, 5).
Proof. apply (sdsll2str_correct (replicate 21 165) (-1205)); [limits; lia|simpl; lia]. Defined.

Lemma sdscmp_correct_witness : exists s1 s2 c, content s1 (bytes_of "abc") /\ content s2 (bytes_of "abd") /\
  sdscmp s1 s2 = Some c /\ c < 0.
Proof.
  destruct (sdsnewlen_spec (fun _ => 165) (bytes_of "abc") []) as (s1 & _ & H1); [unfold max_sds; simpl; lia|].
  destruct (sdsnewlen_spec (fun _ => 165) (bytes_of "abd") []) as (s2 & _ & H2); [unfold max_sds; simpl; lia|].
  destruct (sdscmp_correct s1 _ s2 _ H1 H2) as (c & Hc & Hlt & _). exists s1, s2, c.
  split_and!; [done..|]. by apply Hlt.
Defined.
