(* ===== verification/SdsText.v ===== *)
(** * Splitting, joining and quoting strings (src/redis-5.0.7/src/sds.c)

    [sdssplitlen], [sdsjoinsds], [sdscatrepr] and [sdssplitargs], written against
    the interface [StringBuilder]: what the text functions need of dynamic
    strings.  The sds strings of Sds.v implement it ([sds_builder]).  A C string is
    the list of its bytes before the terminating NUL. *)

From S2P Require Import Prelude Util Sds.
From stdpp Require Import strings.
Local Open Scope Z_scope.

(** ** Interface *)

(** A mutable string type whose values hold byte strings of fewer than
    [max_sds] bytes. *)
Class StringBuilder (B : Type) := {
  sb_holds : B -> list byte -> Prop;
  sb_newlen : list byte -> option B;
  sb_catlen : B -> list byte -> option B;
  sb_get : B -> option (list byte);
  sb_newlen_ok : forall t, Z.of_nat (length t) < max_sds ->
    exists b, sb_newlen t = Some b /\ sb_holds b t;
  sb_catlen_ok : forall b l t, sb_holds b l -> Z.of_nat (length l) + Z.of_nat (length t) < max_sds ->
    exists b', sb_catlen b t = Some b' /\ sb_holds b' (l ++ t);
  sb_get_ok : forall b l, sb_holds b l -> sb_get b = Some l;
}.

#[export] Instance sds_builder (junk : nat -> byte) : StringBuilder sds.
Proof.
  refine {| sb_holds := content;
            sb_newlen t := sdsnewlen junk (InitBytes t) (Z.of_nat (length t));
            sb_catlen s t := sdscatlen junk s t (Z.of_nat (length t));
            sb_get s := load (s_buf s) 0 (sdslen s) |}.
  - intros t Ht. destruct (sdsnewlen_spec junk t [] Ht) as (s & Hs & Hc). rewrite app_nil_r in Hs. eauto.
  - intros s l t Hc Hmax. destruct (sdscatlen_spec junk s l t [] Hc Hmax) as (s' & Hs & Hc').
    rewrite app_nil_r in Hs. eauto.
  - intros s l [_ Hl _ [tail Hb]]. rewrite Hl, Hb. by apply load_prefix.
Defined.

Section text.
Context {B : Type} `{!StringBuilder B}.

(** ** Splitting and joining by a separator *)

(** [(seplen == 1 && *(s+j) == sep[0]) || memcmp(s+j,sep,seplen) == 0] *)
Definition sep_at (s sep : list byte) (j seplen : Z) : option bool :=
  c ← getb s j;
  c0 ← getb sep 0;
  if (seplen =? 1) && (c =? c0) then Some true
  else a ← load s j seplen; b ← load sep 0 seplen; Some (memcmp a b =? 0).

(** The [for] loop; the array of tokens is a list, so its growing has no
    counterpart.  [fuel] bounds the rounds, one per position at most. *)
Fixpoint split_loop (fuel : nat) (s : list byte) (len : Z) (sep : list byte) (seplen : Z)
    (tokens : list B) (start j : Z) : option (list B * Z) :=
  if j <? len - (seplen - 1) then
    match fuel with
    | O => None
    | S fuel =>
        m ← sep_at s sep j seplen;
        if (m : bool) then
          bs ← load s start (j - start);
          t ← sb_newlen bs;
          split_loop fuel s len sep seplen (tokens ++ [t]) (j + seplen) (j + seplen - 1 + 1)
        else split_loop fuel s len sep seplen tokens start (j + 1)
    end
  else Some (tokens, start).

(** [None] inside is the NULL result. *)
Definition sdssplitlen (s : list byte) (len : Z) (sep : list byte) (seplen : Z)
    : option (option (list B)) :=
  if (seplen <? 1) || (len <? 0) then Some None
  else if len =? 0 then Some (Some [])
  else
    r ← split_loop (Z.to_nat len) s len sep seplen [] 0 0;
    let '(tokens, start) := r in
    bs ← load s start (len - start);
    t ← sb_newlen bs;
    Some (Some (tokens ++ [t])).

(** [for (j = 0; j < argc; j++) { ...; if (j != argc-1) ... }] *)
Fixpoint join_loop (join : B) (argv : list B) (sep : list byte) : option B :=
  match argv with
  | [] => Some join
  | a :: argv =>
      t ← sb_get a;
      join ← sb_catlen join t;
      join ← (match argv with [] => Some join | _ => sb_catlen join sep end);
      join_loop join argv sep
  end.

Definition sdsjoinsds (argv : list B) (sep : list byte) : option B :=
  join ← sb_newlen [];
  join_loop join argv sep.

(** ** Quoting *)

(** isprint(3) and isspace(3) in the C locale. *)
Definition isprint (c : byte) : bool := (32 <=? c) && (c <=? 126).
Definition isspace (c : byte) : bool := (c =? 32) || ((9 <=? c) && (c <=? 13)).

(** The lower-case hexadecimal digit of printf's %x. *)
Definition hex_digit (n : Z) : byte := if n <? 10 then 48 + n else 87 + n.

(** What the body of the loop of [sdscatrepr] appends for the byte [c]; the
    formats "\\%c", "%c" and "\\x%02x" are expanded. *)
Definition repr_char (c : byte) : list byte :=
  if (c =? 92) || (c =? 34) then [92; c]
  else if c =? 10 then [92; 110]
  else if c =? 13 then [92; 114]
  else if c =? 9 then [92; 116]
  else if c =? 7 then [92; 97]
  else if c =? 8 then [92; 98]
  else if isprint c then [c]
  else [92; 120; hex_digit (c / 16); hex_digit (c mod 16)].

Fixpoint repr_loop (s : B) (p : list byte) : option B :=
  match p with
  | [] => Some s
  | c :: p => s ← sb_catlen s (repr_char c); repr_loop s p
  end.

Definition sdscatrepr (s : B) (p : list byte) : option B :=
  s ← sb_catlen s [34];
  s ← repr_loop s p;
  sb_catlen s [34].

(** ** Splitting a line into arguments *)

Definition is_hex_digit (c : byte) : bool :=
  ((48 <=? c) && (c <=? 57)) || ((97 <=? c) && (c <=? 102)) || ((65 <=? c) && (c <=? 70)).

Definition hex_digit_to_int (c : byte) : Z :=
  if (48 <=? c) && (c <=? 57) then c - 48
  else if (97 <=? c) && (c <=? 102) then c - 87
  else if (65 <=? c) && (c <=? 70) then c - 55
  else 0.

(** [*(p+n)]: the byte, or the terminating NUL. *)
Definition at_ (p : list byte) (n : nat) : byte := nth n p 0.

Definition escape_char (c : byte) : byte :=
  if c =? 110 then 10
  else if c =? 114 then 13
  else if c =? 116 then 9
  else if c =? 98 then 8
  else if c =? 97 then 7
  else c.

(** Between quotes, outside quotes. *)
Inductive quote := InQ | InSQ | NoQ.

(** The outcome of one round of the [while(!done)] loop, before [if ( *p) p++]. *)
Inductive round := Err | Done (p : list byte) | More (p : list byte) (q : quote) (out : list byte).

Definition token_round (p : list byte) (q : quote) : round :=
  let c := at_ p 0 in
  match q with
  | InQ =>
      if (c =? 92) && (at_ p 1 =? 120) && is_hex_digit (at_ p 2) && is_hex_digit (at_ p 3) then
        More (drop 3 p) InQ [u8 (hex_digit_to_int (at_ p 2) * 16 + hex_digit_to_int (at_ p 3))]
      else if (c =? 92) && negb (at_ p 1 =? 0) then More (drop 1 p) InQ [escape_char (at_ p 1)]
      else if c =? 34 then
        if negb (at_ p 1 =? 0) && negb (isspace (at_ p 1)) then Err else Done p
      else if c =? 0 then Err
      else More p InQ [c]
  | InSQ =>
      if (c =? 92) && (at_ p 1 =? 39) then More (drop 1 p) InSQ [39]
      else if c =? 39 then
        if negb (at_ p 1 =? 0) && negb (isspace (at_ p 1)) then Err else Done p
      else if c =? 0 then Err
      else More p InSQ [c]
  | NoQ =>
      if (c =? 32) || (c =? 10) || (c =? 13) || (c =? 9) || (c =? 0) then Done p
      else if c =? 34 then More p InQ []
      else if c =? 39 then More p InSQ []
      else More p NoQ [c]
  end.

(** [if ( *p) p++] *)
Definition advance (p : list byte) : list byte := if at_ p 0 =? 0 then p else tl p.

(** The [while(!done)] loop: the inner [None] is [goto err]. *)
Fixpoint token_loop (fuel : nat) (p : list byte) (q : quote) (current : B)
    : option (option (list byte * B)) :=
  match fuel with
  | O => None
  | S fuel =>
      match token_round p q with
      | Err => Some None
      | Done p => Some (Some (advance p, current))
      | More p q out =>
          current ← (match out with [] => Some current | _ => sb_catlen current out end);
          token_loop fuel (advance p) q current
      end
  end.

(** [while( *p && isspace( *p)) p++] *)
Fixpoint skip_blanks (p : list byte) : list byte :=
  match p with
  | c :: p' => if negb (c =? 0) && isspace c then skip_blanks p' else p
  | [] => []
  end.

(** The [while(1)] loop. *)
Fixpoint args_loop (fuel : nat) (p : list byte) (vector : list B) : option (option (list B)) :=
  let p := skip_blanks p in
  if at_ p 0 =? 0 then Some (Some vector)
  else
    match fuel with
    | O => None
    | S fuel =>
        current ← sb_newlen [];
        r ← token_loop (S (length p)) p NoQ current;
        match r with
        | None => Some None
        | Some (p, current) => args_loop fuel p (vector ++ [current])
        end
    end.

(** [Some None] is the NULL result.  The length of the vector stands for [*argc]. *)
Definition sdssplitargs (line : list byte) : option (option (list B)) :=
  args_loop (length line) line [].

(** ** Quoting round trip *)

(** The quoted form of a byte string. *)
Definition quoted (l : list byte) : list byte := 34 :: (l ≫= repr_char) ++ [34].

Lemma repr_char_length c : (1 <= length (repr_char c) <= 4)%nat.
Proof. unfold repr_char. repeat case_match; simpl; lia. Qed.

Lemma quoted_body_length l : (length l <= length (l ≫= repr_char) <= 4 * length l)%nat.
Proof.
  induction l as [|c l IH]; [simpl; lia|]. rewrite bind_cons, length_app. simpl length.
  pose proof (repr_char_length c). lia.
Qed.

Lemma repr_loop_ok p : forall s l, sb_holds s l ->
  Z.of_nat (length l) + Z.of_nat (length (p ≫= repr_char)) < max_sds ->
  exists s', repr_loop s p = Some s' /\ sb_holds s' (l ++ p ≫= repr_char).
Proof.
  induction p as [|c p IH]; intros s l Hs Hmax; cbn [repr_loop].
  - exists s. by rewrite app_nil_r.
  - rewrite bind_cons, length_app in Hmax. rewrite bind_cons.
    destruct (sb_catlen_ok s l (repr_char c) Hs ltac:(lia)) as (s1 & -> & Hs1). cbn [mbind option_bind].
    destruct (IH s1 _ Hs1) as (s2 & -> & Hs2); [rewrite length_app; lia|].
    exists s2. by rewrite app_assoc.
Qed.

Lemma sdscatrepr_ok s l p : sb_holds s l -> Z.of_nat (length l) + Z.of_nat (length (quoted p)) < max_sds ->
  exists s', sdscatrepr s p = Some s' /\ sb_holds s' (l ++ quoted p).
Proof.
  unfold quoted. simpl length. rewrite length_app. simpl length. intros Hs Hmax. unfold sdscatrepr.
  destruct (sb_catlen_ok s l [34] Hs ltac:(simpl; lia)) as (s1 & -> & Hs1). cbn [mbind option_bind].
  destruct (repr_loop_ok p s1 _ Hs1) as (s2 & -> & Hs2); [rewrite length_app; simpl; lia|]. cbn [mbind option_bind].
  destruct (sb_catlen_ok s2 _ [34] Hs2) as (s3 & -> & Hs3); [rewrite !length_app; simpl; lia|].
  exists s3. split; [done|]. by rewrite <- !app_assoc in Hs3.
Qed.

Lemma hex_digit_spec n : 0 <= n < 16 ->
  is_hex_digit (hex_digit n) = true /\ hex_digit_to_int (hex_digit n) = n /\ hex_digit n <> 0.
Proof.
  revert n. refine (decide_below 16 (fun n => is_hex_digit (hex_digit n) = true /\
    hex_digit_to_int (hex_digit n) = n /\ hex_digit n <> 0) _). vm_compute. reflexivity.
Qed.

(** One round between quotes undoes the quoting of one byte. *)
Lemma round_repr c rest : is_byte c ->
  exists p, token_round (repr_char c ++ rest) InQ = More p InQ [c] /\ advance p = rest.
Proof.
  unfold is_byte. intros Hc. unfold repr_char.
  destruct (Z.eqb_spec c 92) as [->|H92]; [by eexists|]. destruct (Z.eqb_spec c 34) as [->|H34]; [by eexists|].
  destruct (Z.eqb_spec c 10) as [->|_]; [by eexists|]. destruct (Z.eqb_spec c 13) as [->|_]; [by eexists|].
  destruct (Z.eqb_spec c 9) as [->|_]; [by eexists|]. destruct (Z.eqb_spec c 7) as [->|_]; [by eexists|].
  destruct (Z.eqb_spec c 8) as [->|_]; [by eexists|]. simpl orb. cbv iota.
  destruct (isprint c) eqn:Ep.
  - unfold isprint in Ep. zbool. unfold token_round, at_. simpl.
    rewrite (proj2 (Z.eqb_neq c 92)), (proj2 (Z.eqb_neq c 34)), (proj2 (Z.eqb_neq c 0)) by lia. simpl.
    eexists. split; [done|]. unfold advance, at_. simpl. by rewrite (proj2 (Z.eqb_neq c 0)) by lia.
  - destruct (hex_digit_spec (c / 16)) as (H1 & V1 & N1).
    { split; [apply Z.div_pos; lia|apply Z.div_lt_upper_bound; lia]. }
    destruct (hex_digit_spec (c mod 16)) as (H2 & V2 & N2); [apply Z.mod_pos_bound; lia|].
    unfold token_round, at_. simpl. rewrite H1, H2, V1, V2. simpl.
    rewrite uwrap_small; [|pose proof (Z.div_mod c 16); lia].
    replace (c / 16 * 16 + c mod 16) with c by (pose proof (Z.div_mod c 16); lia).
    eexists. split; [done|]. unfold advance, at_. simpl. by rewrite (proj2 (Z.eqb_neq _ 0)).
Qed.

(** The end of a line or a blank after a closing quote. *)
Definition ends_token (rest : list byte) : Prop := at_ rest 0 = 0 \/ isspace (at_ rest 0) = true.

Lemma token_loop_quoted l : forall fuel cur acc rest, bytes_ok l -> sb_holds cur acc ->
  Z.of_nat (length acc) + Z.of_nat (length l) < max_sds -> ends_token rest -> (length l < fuel)%nat ->
  exists b, token_loop fuel ((l ≫= repr_char) ++ 34 :: rest) InQ cur = Some (Some (rest, b)) /\ sb_holds b (acc ++ l).
Proof.
  induction l as [|c l IH]; intros fuel cur acc rest Hl Hcur Hmax Hrest Hf; (destruct fuel as [|fuel]; [simpl in Hf; lia|]).
  - exists cur. rewrite app_nil_r. split; [|done]. cbn [token_loop]. unfold ends_token, token_round, at_ in *. simpl.
    destruct Hrest as [Hr|Hr]; simpl in Hr.
    + destruct rest as [|x rest]; [done|]. cbn [nth] in Hr |- *. by rewrite Hr.
    + destruct rest as [|x rest]; [done|]. cbn [nth] in Hr |- *. by rewrite Hr, andb_false_r.
  - apply Forall_cons in Hl as [Hc Hl]. simpl in Hmax, Hf.
    rewrite bind_cons, <- app_assoc.
    destruct (round_repr c ((l ≫= repr_char) ++ 34 :: rest) Hc) as (p & Hround & Hadv).
    cbn [token_loop]. rewrite Hround, Hadv.
    destruct (sb_catlen_ok cur acc [c] Hcur) as (cur' & -> & Hcur'); [simpl; lia|]. cbn [mbind option_bind].
    destruct (IH fuel cur' _ rest Hl Hcur') as (b & Hb & Hh); [rewrite length_app; simpl; lia|done|lia|].
    exists b. split; [done|]. by rewrite <- app_assoc in Hh.
Qed.

(** A line of quoted arguments separated by blanks, built as the MONITOR feed
    builds it. *)
Fixpoint repr_line (s : B) (args : list (list byte)) : option B :=
  match args with
  | [] => Some s
  | a :: args =>
      s ← sdscatrepr s a;
      s ← (match args with [] => Some s | _ => sb_catlen s [32] end);
      repr_line s args
  end.

Fixpoint line_of (args : list (list byte)) : list byte :=
  match args with
  | [] => []
  | a :: args => quoted a ++ match args with [] => [] | _ => 32 :: line_of args end
  end.

Lemma repr_line_ok args : forall s l, sb_holds s l ->
  Z.of_nat (length l) + Z.of_nat (length (line_of args)) < max_sds ->
  exists s', repr_line s args = Some s' /\ sb_holds s' (l ++ line_of args).
Proof.
  induction args as [|a args IH]; intros s l Hs Hmax; cbn [repr_line line_of] in *.
  - exists s. by rewrite app_nil_r.
  - rewrite length_app in Hmax.
    destruct (sdscatrepr_ok s l a Hs ltac:(lia)) as (s1 & -> & Hs1). cbn [mbind option_bind].
    destruct args as [|a' args].
    + cbn [mbind option_bind repr_line]. exists s1. split; [done|]. by rewrite app_nil_r.
    + destruct (sb_catlen_ok s1 _ [32] Hs1) as (s2 & -> & Hs2).
      { rewrite length_app. simpl length in *. lia. }
      cbn [mbind option_bind]. destruct (IH s2 _ Hs2) as (s3 & -> & Hs3).
      { rewrite !length_app. simpl length in *. lia. }
      exists s3. split; [done|]. by rewrite <- !app_assoc in Hs3.
Qed.

Lemma line_of_skip args : skip_blanks (line_of args) = line_of args.
Proof. by destruct args. Qed.

Lemma open_quote n p (cur : B) : token_loop (S n) (34 :: p) NoQ cur = token_loop n p InQ cur.
Proof. reflexivity. Qed.

Lemma args_loop_line args : forall fuel p (vec : list B) done_,
  skip_blanks p = line_of args -> Forall bytes_ok args -> Forall (fun a => Z.of_nat (length a) < max_sds) args ->
  (length args <= fuel)%nat -> Forall2 sb_holds vec done_ ->
  exists vec', args_loop fuel p vec = Some (Some vec') /\ Forall2 sb_holds vec' (done_ ++ args).
Proof.
  induction args as [|a args IH]; intros fuel p vec done_ Hp Hb Hl Hf Hvec.
  { exists vec. rewrite app_nil_r. split; [|done]. destruct fuel; cbn [args_loop]; by rewrite Hp. }
  apply Forall_cons in Hb as [Ha Hb]. apply Forall_cons in Hl as [Hla Hl].
  destruct fuel as [|fuel]; [simpl in Hf; lia|]. cbn [args_loop]. rewrite Hp.
  set (rest := match args with [] => [] | _ => 32 :: line_of args end).
  assert (line_of (a :: args) = 34 :: (a ≫= repr_char) ++ 34 :: rest) as Hline.
  { cbn [line_of]. fold rest. unfold quoted. simpl. by rewrite <- app_assoc. }
  rewrite Hline. change (at_ (34 :: _) 0 =? 0) with false. cbv iota.
  destruct (sb_newlen_ok []) as (cur & -> & Hcur); [unfold max_sds; simpl; lia|]. cbn [mbind option_bind].
  rewrite open_quote.
  destruct (token_loop_quoted a (length (34 :: (a ≫= repr_char) ++ 34 :: rest)) cur [] rest)
    as (b & -> & Hbh); [done..| | |].
  { subst rest. unfold ends_token. destruct args; [by left|by right]. }
  { simpl. rewrite length_app. pose proof (quoted_body_length a). simpl. lia. }
  cbn [mbind option_bind]. destruct (IH fuel rest (vec ++ [b]) (done_ ++ [a])) as (vec' & -> & Hv').
  - subst rest. destruct args; [done|]. exact (line_of_skip (_ :: args)).
  - done.
  - done.
  - simpl in Hf. lia.
  - apply Forall2_app; [done|]. by constructor.
  - exists vec'. by rewrite <- app_assoc in Hv'.
Qed.

Lemma line_of_length args : (length args <= length (line_of args))%nat.
Proof.
  induction args as [|a args IH]; simpl; [lia|]. rewrite !length_app. simpl.
  destruct args; simpl in *; lia.
Qed.

Lemma line_of_arg_length args : Forall (fun a => (length a <= length (line_of args))%nat) args.
Proof.
  induction args as [|a args IH]; [done|]. constructor.
  - simpl. rewrite !length_app. pose proof (quoted_body_length a). lia.
  - eapply Forall_impl; [exact IH|]. intros b Hb. simpl in *. rewrite !length_app.
    destruct args; simpl in *; lia.
Qed.

(** C21: quoting and splitting are inverse: the line of arguments that
    [sdscatrepr] quotes, separated by blanks, whatever bytes the arguments hold,
    is split by [sdssplitargs] into exactly those arguments. *)
Theorem splitargs_catrepr args : Forall bytes_ok args -> Z.of_nat (length (line_of args)) < max_sds ->
  exists s0 s line vec, sb_newlen [] = Some s0 /\ repr_line s0 args = Some s /\ sb_get s = Some line /\
    sdssplitargs line = Some (Some vec) /\ Forall2 sb_holds vec args.
Proof.
  intros Hb Hmax. destruct (sb_newlen_ok []) as (s0 & Hs0 & Hh0); [unfold max_sds; simpl; lia|].
  destruct (repr_line_ok args s0 [] Hh0 ltac:(simpl; lia)) as (s & Hs & Hh). simpl in Hh.
  destruct (args_loop_line args (length (line_of args)) (line_of args) [] []) as (vec & Hv & Hv').
  - apply line_of_skip.
  - done.
  - eapply Forall_impl; [apply line_of_arg_length|]. simpl. intros; lia.
  - apply line_of_length.
  - done.
  - exists s0, s, (line_of args), vec. split_and!; [done..|by apply sb_get_ok|done|done].
Qed.

(** ** Termination of [sdssplitargs] *)

Definition cstring (p : list byte) : Prop := Forall (fun c => c <> 0) p.

Lemma at_nonzero p n : at_ p n <> 0 -> (n < length p)%nat.
Proof. intros Hn. destruct (decide (n < length p)%nat); [done|]. exfalso. apply Hn, nth_overflow. lia. Qed.

Lemma advance_shorter p n : at_ p n <> 0 -> (length (advance (drop n p)) < length p)%nat.
Proof.
  intros Hn. pose proof (at_nonzero p n Hn) as Hlt. unfold advance, at_ in *.
  destruct (drop n p) as [|c q] eqn:E; [apply (f_equal length) in E; rewrite length_drop in E; simpl in E; lia|].
  assert (length (c :: q) <= length p)%nat as Hq by (rewrite <- E, length_drop; lia).
  simpl. destruct (Z.eqb_spec c 0) as [->|]; simpl in *; [|lia].
  exfalso. apply Hn. rewrite <- (take_drop n p), E, app_nth2; rewrite length_take; [|lia].
  replace (n - n `min` length p)%nat with 0%nat by lia. done.
Qed.

Lemma advance_cstring p : cstring p -> cstring (advance p).
Proof. unfold advance. intros Hp. case_match; [done|]. by destruct Hp. Qed.

Lemma drop_cstring n p : cstring p -> cstring (drop n p).
Proof. apply Forall_drop. Qed.

Lemma round_progress p q : cstring p ->
  match token_round p q with
  | Err => True
  | Done p' => p' = p
  | More p' _ out => (length (advance p') < length p)%nat /\ cstring (advance p') /\ (length out <= 1)%nat
  end.
Proof.
  intros Hp. assert (forall n, at_ p n <> 0 ->
    (length (advance (drop n p)) < length p)%nat /\ cstring (advance (drop n p))) as Hadv.
  { intros n Hn. split; [by apply advance_shorter|]. by apply advance_cstring, drop_cstring. }
  pose proof (Hadv 0%nat) as Hadv0. rewrite drop_0 in Hadv0.
  assert (is_hex_digit (at_ p 3) = true -> at_ p 3 <> 0) as Hhex
    by (intros Hh E; by rewrite E in Hh).
  assert (at_ p 0 <> 0 -> forall out : list byte, (length out <= 1)%nat ->
    (length (advance p) < length p)%nat /\ cstring (advance p) /\ (length out <= 1)%nat) as Hplain
    by (intros H0 out Hout; destruct (Hadv0 H0); done).
  unfold token_round. destruct q;
    repeat match goal with |- context [if ?b then _ else _] => destruct b eqn:? end; try done;
    try (apply Hplain; [zbool; lia|simpl; lia]); zbool.
  - destruct (Hadv 3%nat) as [? ?]; [by apply Hhex|]. simpl; auto with lia.
  - destruct (Hadv 1%nat) as [? ?]; [by apply Z.eqb_neq, negb_true_iff|]. simpl; auto with lia.
  - destruct (Hadv 1%nat) as [? ?]; [lia|]. simpl; auto with lia.
Qed.

Lemma token_loop_total fuel : forall p q cur acc, cstring p -> (length p < fuel)%nat -> sb_holds cur acc ->
  Z.of_nat (length acc) + Z.of_nat (length p) < max_sds ->
  exists r, token_loop fuel p q cur = Some r /\
    match r with
    | None => True
    | Some (p', b) => cstring p' /\ (length p' <= length p)%nat /\ exists l, sb_holds b l
    end.
Proof.
  induction fuel as [|fuel IH]; intros p q cur acc Hp Hf Hcur Hmax; [lia|].
  cbn [token_loop]. pose proof (round_progress p q Hp) as Hr.
  destruct (token_round p q) as [|p'|p' q' out].
  - by exists None.
  - subst p'. eexists. split; [done|]. split_and!; [by apply advance_cstring| |by exists acc].
    unfold advance. case_match; [lia|]. destruct p; simpl; lia.
  - destruct Hr as (Hlt & Hp' & Hout).
    assert (exists cur', (match out with [] => Some cur | _ => sb_catlen cur out end) = Some cur' /\
      sb_holds cur' (acc ++ out)) as (cur' & -> & Hcur').
    { destruct out as [|c out]; [exists cur; by rewrite app_nil_r|]. apply sb_catlen_ok; [done|]. lia. }
    cbn [mbind option_bind]. destruct (IH (advance p') q' cur' (acc ++ out) Hp' ltac:(lia) Hcur') as (r & -> & Hr).
    { rewrite length_app. lia. }
    exists r. split; [done|]. destruct r as [[p2 b]|]; [|done]. destruct Hr as (? & ? & ?). split_and!; [done|lia|done].
Qed.

Lemma skip_blanks_spec p : cstring p -> cstring (skip_blanks p) /\ (length (skip_blanks p) <= length p)%nat /\
  (at_ (skip_blanks p) 0 <> 0 -> isspace (at_ (skip_blanks p) 0) = false).
Proof.
  induction p as [|c p IH]; intros Hp; simpl; [done|]. apply Forall_cons in Hp as [Hc Hp].
  destruct (negb (c =? 0) && isspace c) eqn:E.
  - destruct (IH Hp) as (H1 & H2 & H3). split_and!; [done|lia|done].
  - split_and!; [by constructor|done|]. unfold at_. simpl. rewrite (proj2 (Z.eqb_neq c 0)) in E by done. done.
Qed.

Lemma first_round p : at_ p 0 <> 0 -> isspace (at_ p 0) = false -> forall p', token_round p NoQ <> Done p'.
Proof.
  intros H0 Hs p'. unfold token_round, isspace in *. apply orb_false_iff in Hs as [H32 Hs].
  rewrite H32, (proj2 (Z.eqb_neq _ _) H0).
  destruct (Z.eqb_spec (at_ p 0) 10) as [E|_]; [by rewrite E in Hs|].
  destruct (Z.eqb_spec (at_ p 0) 13) as [E|_]; [by rewrite E in Hs|].
  destruct (Z.eqb_spec (at_ p 0) 9) as [E|_]; [by rewrite E in Hs|].
  simpl. by repeat case_match.
Qed.

Lemma args_loop_total fuel : forall p vec, cstring p -> (length p <= fuel)%nat ->
  Z.of_nat (length p) < max_sds -> Forall (fun b => exists l, sb_holds b l) vec ->
  exists r, args_loop fuel p vec = Some r /\
    match r with Some vec' => Forall (fun b => exists l, sb_holds b l) vec' | None => True end.
Proof.
  induction fuel as [|fuel IH]; intros p vec Hp Hf Hmax Hvec; cbn [args_loop].
  { destruct p; [|simpl in Hf; lia]. by exists (Some vec). }
  destruct (skip_blanks_spec p Hp) as (Hp1 & Hl1 & Hsp). set (p1 := skip_blanks p) in *.
  destruct (Z.eqb_spec (at_ p1 0) 0) as [E|E]; [by exists (Some vec)|].
  destruct (sb_newlen_ok []) as (cur & -> & Hcur); [unfold max_sds; simpl; lia|]. cbn [mbind option_bind].
  cbn [token_loop]. pose proof (first_round p1 E (Hsp E)) as Hfirst.
  pose proof (round_progress p1 NoQ Hp1) as Hr.
  destruct (token_round p1 NoQ) as [|p'|p' q' out]; [by exists None|by destruct (Hfirst p')|].
  destruct Hr as (Hlt & Hp' & Hout).
  assert (exists cur', (match out with [] => Some cur | _ => sb_catlen cur out end) = Some cur' /\
    sb_holds cur' out) as (cur' & -> & Hcur').
  { destruct out as [|c out]; [by exists cur|]. apply (sb_catlen_ok cur []); [done|]. simpl in *. lia. }
  cbn [mbind option_bind].
  destruct (token_loop_total (length p1) (advance p') q' cur' out Hp' ltac:(lia) Hcur' ltac:(lia)) as (r & -> & Hr').
  cbn [mbind option_bind]. destruct r as [[p2 b]|]; [|by exists None].
  destruct Hr' as (? & ? & ?). apply IH; [done|lia|lia|]. apply Forall_app. by split; [|constructor].
Qed.

(** [sdssplitargs] terminates on every line: each round of its loops consumes
    input, so it returns a vector or the error result (unbalanced quotes, or a
    closing quote followed by another character). *)
Theorem splitargs_total line : cstring line -> Z.of_nat (length line) < max_sds ->
  exists r : option (list B), sdssplitargs line = Some r.
Proof.
  intros Hl Hmax. destruct (args_loop_total (length line) line [] Hl ltac:(lia) Hmax) as (r & Hr & _); [constructor|by exists r].
Qed.

Lemma splitargs_holds line : cstring line -> Z.of_nat (length line) < max_sds ->
  exists r, sdssplitargs line = Some r /\
    match r with Some vec => Forall (fun b : B => exists l, sb_holds b l) vec | None => True end.
Proof. intros Hl Hmax. apply (args_loop_total (length line) line [] Hl ltac:(lia) Hmax). constructor. Qed.

(** ** Splitting by a separator *)

Lemma memcmp_zero a : forall b, length a = length b -> memcmp a b = 0 <-> a = b.
Proof.
  induction a as [|x a IH]; intros [|y b] Hl; simpl in *; try done.
  destruct (Z.eqb_spec x y) as [->|Hne].
  - rewrite IH by lia. split; [by intros ->|by intros [= ->]].
  - split; [lia|]. by intros [= -> _].
Qed.

Definition sep_occurs (s sep : list byte) (j : nat) : Prop := take (length sep) (drop j s) = sep.

#[local] Instance sep_occurs_dec s sep j : Decision (sep_occurs s sep j).
Proof. unfold sep_occurs. apply _. Defined.

Lemma sep_at_spec s sep (j : nat) : sep <> [] -> (j + length sep <= length s)%nat ->
  sep_at s sep (Z.of_nat j) (Z.of_nat (length sep)) = Some (bool_decide (sep_occurs s sep j)).
Proof.
  intros Hne Hj. destruct sep as [|c0 sep]; [done|]. unfold sep_at.
  destruct (lookup_lt_is_Some_2 s j) as [c Hc]; [simpl in Hj; lia|].
  rewrite (getb_Some s (Z.of_nat j)) by lia. rewrite Nat2Z.id, Hc. cbn [mbind option_bind].
  change (getb (c0 :: sep) 0) with (Some c0). cbn [mbind option_bind].
  assert (exists tl_, drop j s = c :: tl_) as [tl_ Htl].
  { exists (drop (S j) s). by apply drop_S. }
  destruct (_ && _) eqn:E.
  - apply andb_true_iff in E as [E1 E2]. apply Z.eqb_eq in E1, E2. subst c0.
    destruct sep; [|simpl in E1; lia].
    rewrite bool_decide_eq_true_2; [done|]. unfold sep_occurs. by rewrite Htl.
  - rewrite (load_Some s) by (simpl in *; lia). cbn [mbind option_bind].
    rewrite load_all by done. cbn [mbind option_bind]. rewrite !Nat2Z.id. f_equal.
    apply eq_true_iff_eq. rewrite Z.eqb_eq, bool_decide_eq_true. apply memcmp_zero.
    rewrite length_take, length_drop. lia.
Qed.

(** The tokens put back together. *)
Fixpoint str_join (ts : list (list byte)) (sep : list byte) : list byte :=
  match ts with
  | [] => []
  | t :: ts => t ++ match ts with [] => [] | _ => sep ++ str_join ts sep end
  end.

Definition sep_free (sep t : list byte) : Prop := ~ exists a b, t = a ++ sep ++ b.

Lemma range_sep_free s sep (start k : nat) : (start + k <= length s)%nat ->
  (forall i, (start <= i)%nat -> (i + length sep <= start + k)%nat -> ~ sep_occurs s sep i) ->
  sep_free sep (take k (drop start s)).
Proof.
  intros Hk Hno (a & b & Heq).
  assert (length (take k (drop start s)) = k) as Hlen by (rewrite length_take, length_drop; lia).
  rewrite Heq, !length_app in Hlen. apply (Hno (start + length a)%nat); [lia|lia|].
  unfold sep_occurs.
  rewrite <- drop_drop. rewrite <- (take_drop k (drop start s)), Heq.
  rewrite <- !app_assoc, drop_app_length, take_app_length. done.
Qed.

(** The tokens found so far, each followed by the separator. *)
Definition with_sep (ts : list (list byte)) (sep : list byte) : list byte := concat (map (fun t => t ++ sep) ts).

Lemma with_sep_snoc ts t sep : with_sep (ts ++ [t]) sep = with_sep ts sep ++ t ++ sep.
Proof. unfold with_sep. rewrite map_app, concat_app. simpl. by rewrite app_nil_r. Qed.

Lemma join_with_sep ts t sep : str_join (ts ++ [t]) sep = with_sep ts sep ++ t.
Proof.
  induction ts as [|t0 ts IH]; simpl; [by rewrite app_nil_r|]. unfold with_sep in *. simpl.
  rewrite IH. destruct (ts ++ [t]) eqn:E; [by destruct ts|]. by rewrite <- !app_assoc.
Qed.

Lemma split_loop_spec (s sep : list byte) : sep <> [] -> Z.of_nat (length s) < max_sds ->
  forall fuel (tokens : list B) ts (start j : nat),
  Forall2 sb_holds tokens ts -> (start <= j <= length s)%nat -> (length s - j <= fuel)%nat ->
  s = with_sep ts sep ++ drop start s -> Forall (sep_free sep) ts ->
  (forall i, (start <= i < j)%nat -> ~ sep_occurs s sep i) ->
  exists tokens' ts' (start' : nat),
    split_loop fuel s (Z.of_nat (length s)) sep (Z.of_nat (length sep)) tokens (Z.of_nat start) (Z.of_nat j)
      = Some (tokens', Z.of_nat start') /\
    Forall2 sb_holds tokens' ts' /\ (start' <= length s)%nat /\ s = with_sep ts' sep ++ drop start' s /\
    Forall (sep_free sep) ts' /\ sep_free sep (drop start' s).
Proof.
  intros Hsep Hmax. assert (0 < length sep)%nat as Hsl by (destruct sep; [done|simpl; lia]).
  induction fuel as [|fuel IH]; intros tokens ts start j Htok Hj Hf Hs Hfree Hno; cbn [split_loop].
  all: destruct (Z.ltb_spec (Z.of_nat j) (Z.of_nat (length s) - (Z.of_nat (length sep) - 1))) as [Hlt|Hge].
  1: lia.
  1, 3: exists tokens, ts, start; split_and!; [done|done|lia|done|done|];
    rewrite <- (firstn_all (drop start s)); rewrite length_drop;
    apply range_sep_free; [lia|]; intros i Hi Hi2; apply Hno; lia.
  rewrite sep_at_spec by (done || lia). cbn [mbind option_bind]. case_bool_decide as Hocc.
  - assert (length (take (j - start) (drop start s)) = (j - start)%nat) as Hlen by (rewrite length_take, length_drop; lia).
    rewrite load_Some by lia. cbn [mbind option_bind].
    replace (Z.to_nat (Z.of_nat j - Z.of_nat start)) with (j - start)%nat by lia. rewrite Nat2Z.id.
    destruct (sb_newlen_ok (take (j - start) (drop start s))) as (t & -> & Ht); [lia|]. cbn [mbind option_bind].
    replace (Z.of_nat j + Z.of_nat (length sep) - 1 + 1) with (Z.of_nat (j + length sep)) by lia.
    replace (Z.of_nat j + Z.of_nat (length sep)) with (Z.of_nat (j + length sep)) by lia.
    apply IH with (ts := ts ++ [take (j - start) (drop start s)]).
    + apply Forall2_app; [done|by constructor].
    + lia.
    + lia.
    + rewrite with_sep_snoc. rewrite Hs at 1. rewrite <- !app_assoc. f_equal.
      rewrite <- (take_drop (j - start) (drop start s)) at 1. f_equal. rewrite drop_drop.
      replace (start + (j - start))%nat with j by lia. rewrite <- (take_drop (length sep) (drop j s)) at 1.
      by rewrite Hocc, drop_drop.
    + apply Forall_app. split; [done|]. constructor; [|done]. apply range_sep_free; [lia|].
      intros i Hi Hi2. apply Hno. lia.
    + intros i Hi. lia.
  - replace (Z.of_nat j + 1) with (Z.of_nat (S j)) by lia. apply (IH tokens ts); [done|lia|lia|done|done|].
    intros i Hi. destruct (decide (i = j)) as [->|]; [done|]. apply Hno. lia.
Qed.

Lemma join_loop_ok argv ts sep : Forall2 sb_holds argv ts -> forall join l, sb_holds join l ->
  Z.of_nat (length l) + Z.of_nat (length (str_join ts sep)) < max_sds ->
  exists b, join_loop join argv sep = Some b /\ sb_holds b (l ++ str_join ts sep).
Proof.
  induction 1 as [|a t argv ts Ha Hrest IH]; intros join l Hj Hmax; cbn [join_loop str_join] in *.
  - exists join. by rewrite app_nil_r.
  - rewrite length_app in Hmax. rewrite (sb_get_ok a t Ha). cbn [mbind option_bind].
    destruct (sb_catlen_ok join l t Hj ltac:(lia)) as (j1 & -> & Hj1). cbn [mbind option_bind].
    destruct Hrest as [|a' t' argv ts Ha' Hrest].
    + cbn [mbind option_bind join_loop]. exists j1. by rewrite app_nil_r.
    + rewrite length_app in Hmax. destruct (sb_catlen_ok j1 _ sep Hj1) as (j2 & -> & Hj2); [rewrite length_app; lia|].
      cbn [mbind option_bind]. destruct (IH j2 _ Hj2) as (b & -> & Hb); [rewrite !length_app; lia|].
      exists b. split; [done|]. by rewrite <- !app_assoc in Hb.
Qed.

(** [sdssplitlen] splits a non-empty string at the separator: no token
    contains the separator, and joining the tokens with [sdsjoinsds] gives the
    string back. *)
Theorem splitlen_join s sep : s <> [] -> sep <> [] -> Z.of_nat (length s) < max_sds ->
  exists (tokens : list B) ts b,
    sdssplitlen s (Z.of_nat (length s)) sep (Z.of_nat (length sep)) = Some (Some tokens) /\
    Forall2 sb_holds tokens ts /\ Forall (sep_free sep) ts /\
    sdsjoinsds tokens sep = Some b /\ sb_holds b s.
Proof.
  intros Hs Hsep Hmax. unfold sdssplitlen.
  assert (0 < length sep)%nat as Hsl by (destruct sep; [done|simpl; lia]).
  assert (0 < length s)%nat as Hl by (destruct s; [done|simpl; lia]).
  rewrite (proj2 (Z.ltb_ge _ 1)), (proj2 (Z.ltb_ge _ 0)), (proj2 (Z.eqb_neq _ 0)) by lia. simpl orb. cbv iota.
  destruct (split_loop_spec s sep Hsep Hmax (Z.to_nat (Z.of_nat (length s))) [] [] 0 0)
    as (tokens & ts & start & Hloop & Htok & Hst & Heq & Hfree & Hlast); [done|lia|lia|by rewrite drop_0|done|lia|].
  change (Z.of_nat 0) with 0 in Hloop. rewrite Hloop. cbn [mbind option_bind].
  rewrite load_Some by lia. cbn [mbind option_bind].
  rewrite Nat2Z.id, firstn_all2 by (rewrite length_drop; lia).
  destruct (sb_newlen_ok (drop start s)) as (t & -> & Ht); [rewrite length_drop; lia|]. cbn [mbind option_bind].
  assert (Forall2 sb_holds (tokens ++ [t]) (ts ++ [drop start s])) as Hall by (apply Forall2_app; [done|by constructor]).
  destruct (sb_newlen_ok []) as (j0 & Hj0 & Hj0'); [unfold max_sds; simpl; lia|].
  destruct (join_loop_ok _ _ sep Hall j0 [] Hj0') as (b & Hb & Hb').
  { rewrite join_with_sep, <- Heq. simpl. lia. }
  rewrite join_with_sep, <- Heq in Hb'. exists (tokens ++ [t]), (ts ++ [drop start s]), b.
  split_and!; [done|done| |by unfold sdsjoinsds; rewrite Hj0|done]. apply Forall_app. split; [done|by constructor].
Qed.
End text.

(** ** Witnesses with sds strings *)

#[local] Existing Instance sds_builder.
Definition junk_text : nat -> byte := fun _ => 165.

Lemma splitargs_catrepr_witness : exists (s0 s : sds) line vec, sb_newlen (StringBuilder := sds_builder junk_text) [] = Some s0 /\
  repr_line (StringBuilder0 := sds_builder junk_text) s0 [bytes_of "SET"; [0; 255; 34; 92; 10]; []] = Some s /\
  sb_get (StringBuilder := sds_builder junk_text) s = Some line /\
  sdssplitargs (StringBuilder0 := sds_builder junk_text) line = Some (Some vec) /\
  Forall2 content vec [bytes_of "SET"; [0; 255; 34; 92; 10]; []].
Proof.
  apply (splitargs_catrepr (StringBuilder0 := sds_builder junk_text) [bytes_of "SET"; [0; 255; 34; 92; 10]; []]).
  - repeat constructor; simpl; lia.
  - unfold max_sds. vm_compute. reflexivity.
Defined.

Lemma splitargs_total_witness : exists r : option (list sds),
  sdssplitargs (StringBuilder0 := sds_builder junk_text) (bytes_of "get 'unbalanced") = Some r.
Proof.
  apply (splitargs_total (StringBuilder0 := sds_builder junk_text)); [|unfold max_sds; simpl; lia].
  apply (bool_decide_eq_true_1 (Forall (fun c => c <> 0) (bytes_of "get 'unbalanced"))). vm_compute. reflexivity.
Defined.

Lemma splitlen_join_witness : exists (tokens : list sds) ts b,
  sdssplitlen (StringBuilder0 := sds_builder junk_text) (bytes_of "a_-_b_-__-_c") 12 (bytes_of "_-_") 3 = Some (Some tokens) /\
  Forall2 content tokens ts /\ Forall (sep_free (bytes_of "_-_")) ts /\
  sdsjoinsds (StringBuilder0 := sds_builder junk_text) tokens (bytes_of "_-_") = Some b /\ content b (bytes_of "a_-_b_-__-_c").
Proof.
  apply (splitlen_join (StringBuilder0 := sds_builder junk_text) (bytes_of "a_-_b_-__-_c") (bytes_of "_-_"));
    [done|done|unfold max_sds; simpl; lia].
Defined.
