(* ===== verification/Dict.v ===== *)
(** * Hash tables with incremental rehashing (src/redis-5.0.7/src/dict.c, dict.h)

    A dictionary owns two chained hash tables; while [rehashidx] is not -1 the
    buckets of the first are being moved to the second, a few at a time, by the
    ordinary operations.  Chains are lists of entries, a table is the list of
    its chains (the empty list is the NULL table), and an access to a bucket
    outside the table has no value.  Keys are compared by equality and hashed by
    the type's [hashFunction], a parameter.  The static flag [dict_can_resize]
    is an argument of the operations that read it. *)

From S2P Require Import Prelude.
From stdpp Require Import gmap.
Local Open Scope Z_scope.

Section dict.
Context {K V : Type} `{Countable K}.
(** [dictType.hashFunction] *)
Context (hashFunction : K -> Z).
(** The indeterminate value of a freshly allocated entry. *)
Context (uninit : V).

(** ** Data *)

Abbreviation dictEntry := (K * V)%type.

Record dictht := mkHt {
  ht_table : list (list dictEntry);
  ht_size : Z;       (* unsigned long *)
  ht_sizemask : Z;   (* unsigned long *)
  ht_used : Z;       (* unsigned long *)
}.

Record dict := mkDict {
  ht0 : dictht;
  ht1 : dictht;
  rehashidx : Z;     (* long *)
  iterators : Z;     (* unsigned long *)
}.

Implicit Types (h : dictht) (d : dict) (key : K) (val : V) (chain : list dictEntry).

Definition DICT_HT_INITIAL_SIZE : Z := 4.
Definition dict_force_resize_ratio : Z := 5.

Definition dictIsRehashing d : bool := negb (rehashidx d =? -1).
Definition dictSize d : Z := u64 (ht_used (ht0 d) + ht_used (ht1 d)).
Definition dictHashKey key : Z := u64 (hashFunction key).

(** [table[i]], and its update. *)
Definition bucket h (i : Z) : option (list dictEntry) :=
  if 0 <=? i then ht_table h !! Z.to_nat i else None.

Definition set_bucket h (i : Z) (b : list dictEntry) : dictht :=
  mkHt (<[Z.to_nat i := b]> (ht_table h)) (ht_size h) (ht_sizemask h) (ht_used h).

Definition set_used h (n : Z) : dictht :=
  mkHt (ht_table h) (ht_size h) (ht_sizemask h) (u64 n).

(** ** Operations *)

Definition _dictReset : dictht := mkHt [] 0 0 0.

Definition dictCreate : dict := mkDict _dictReset _dictReset (-1) 0.

(** [while(1) { if (i >= size) return i; i *= 2; }] *)
Fixpoint next_power_loop (fuel : nat) (i size : Z) : option Z :=
  if i >=? size then Some i
  else match fuel with
       | O => None
       | S fuel => next_power_loop fuel (u64 (i * 2)) size
       end.

Definition _dictNextPower (size : Z) : option Z :=
  if size >=? LLONG_MAX then Some (u64 (LLONG_MAX + 1))
  else next_power_loop 64 DICT_HT_INITIAL_SIZE size.

(** The flag is DICT_OK. *)
Definition dictExpand d (size : Z) : option (dict * bool) :=
  if dictIsRehashing d || (ht_used (ht0 d) >? size) then Some (d, false)
  else
    realsize ← _dictNextPower size;
    if realsize =? ht_size (ht0 d) then Some (d, false)
    else
      let n := mkHt (replicate (Z.to_nat realsize) []) realsize (u64 (realsize - 1)) 0 in
      match ht_table (ht0 d) with
      | [] => Some (mkDict n (ht1 d) (rehashidx d) (iterators d), true)
      | _ => Some (mkDict (ht0 d) n 0 (iterators d), true)
      end.

Definition dictResize (dict_can_resize : bool) d : option (dict * bool) :=
  if negb dict_can_resize || dictIsRehashing d then Some (d, false)
  else
    let minimal := s32 (ht_used (ht0 d)) in
    let minimal := if minimal <? DICT_HT_INITIAL_SIZE then DICT_HT_INITIAL_SIZE else minimal in
    dictExpand d minimal.

(** [while(table[rehashidx] == NULL) { rehashidx++; if (--empty_visits == 0) return 1; }];
    the flag says that the function returned. *)
Fixpoint skip_empty (fuel : nat) d (empty_visits : Z) : option (dict * Z * bool) :=
  b ← bucket (ht0 d) (rehashidx d);
  match b with
  | _ :: _ => Some (d, empty_visits, false)
  | [] =>
      match fuel with
      | O => None
      | S fuel =>
          let d := mkDict (ht0 d) (ht1 d) (rehashidx d + 1) (iterators d) in
          let empty_visits := s32 (empty_visits - 1) in
          if empty_visits =? 0 then Some (d, empty_visits, true)
          else skip_empty fuel d empty_visits
      end
  end.

(** The [while(de)] loop of [dictRehash]: push every entry on its new bucket. *)
Fixpoint move_chain d (de : list dictEntry) : option dict :=
  match de with
  | [] => Some d
  | e :: nextde =>
      let h := Z.land (dictHashKey e.1) (ht_sizemask (ht1 d)) in
      b ← bucket (ht1 d) h;
      let t1 := set_bucket (ht1 d) h (e :: b) in
      move_chain (mkDict (set_used (ht0 d) (ht_used (ht0 d) - 1))
                         (set_used t1 (ht_used t1 + 1)) (rehashidx d) (iterators d)) nextde
  end.

(** The [while(n-- && ht[0].used != 0)] loop, for [n] that is not negative, as all
    callers have it; the flag says that the function returned 1 from inside. *)
Fixpoint rehash_loop (n : nat) d (empty_visits : Z) : option (dict * bool) :=
  match n with
  | O => Some (d, false)
  | S n =>
      if ht_used (ht0 d) =? 0 then Some (d, false)
      else if negb (ht_size (ht0 d) >? u64 (rehashidx d)) then None (* assert *)
      else
        r ← skip_empty (S (length (ht_table (ht0 d)))) d empty_visits;
        let '(d, empty_visits, stop) := r in
        if (stop : bool) then Some (d, true)
        else
          de ← bucket (ht0 d) (rehashidx d);
          d ← move_chain d de;
          rehash_loop n (mkDict (set_bucket (ht0 d) (rehashidx d) []) (ht1 d)
                                (rehashidx d + 1) (iterators d)) empty_visits
  end.

(** The flag is the return value 1: there are still keys to move. *)
Definition dictRehash d (n : Z) : option (dict * bool) :=
  let empty_visits := s32 (n * 10) in
  if negb (dictIsRehashing d) then Some (d, false)
  else
    r ← rehash_loop (Z.to_nat n) d empty_visits;
    let '(d, early) := r in
    if (early : bool) then Some (d, true)
    else if ht_used (ht0 d) =? 0 then
      Some (mkDict (ht1 d) _dictReset (-1) (iterators d), false)
    else Some (d, true).

Definition _dictRehashStep d : option dict :=
  if iterators d =? 0 then r ← dictRehash d 1; Some r.1 else Some d.

Definition _dictExpandIfNeeded (dict_can_resize : bool) d : option (dict * bool) :=
  if dictIsRehashing d then Some (d, true)
  else if ht_size (ht0 d) =? 0 then dictExpand d DICT_HT_INITIAL_SIZE
  else if (ht_used (ht0 d) >=? ht_size (ht0 d)) &&
          (dict_can_resize ||
           (ht_used (ht0 d) / ht_size (ht0 d) >? dict_force_resize_ratio))
  then dictExpand d (u64 (ht_used (ht0 d) * 2))
  else Some (d, true).

(** Walk along a chain. *)
Fixpoint chain_find key chain : option dictEntry :=
  match chain with
  | [] => None
  | he :: next => if decide (key = he.1) then Some he else chain_find key next
  end.

(** The loop over the two tables shared by the look-ups: the first chain that
    holds the key, and the index of the last bucket visited. *)
Definition find_tables d key (hash : Z) : option (option dictEntry * Z) :=
  let idx := Z.land hash (ht_sizemask (ht0 d)) in
  b ← bucket (ht0 d) idx;
  match chain_find key b with
  | Some he => Some (Some he, idx)
  | None =>
      if negb (dictIsRehashing d) then Some (None, idx)
      else
        let idx := Z.land hash (ht_sizemask (ht1 d)) in
        b ← bucket (ht1 d) idx;
        Some (chain_find key b, idx)
  end.

(** Returns the index, -1 when the key exists or no table could be made, and
    [*existing]. *)
Definition _dictKeyIndex (dict_can_resize : bool) d key (hash : Z)
    : option (dict * Z * option dictEntry) :=
  r ← _dictExpandIfNeeded dict_can_resize d;
  let '(d, ok) := r in
  if negb ok then Some (d, -1, None)
  else
    q ← find_tables d key hash;
    match q with
    | (Some he, _) => Some (d, -1, Some he)
    | (None, idx) => Some (d, idx, None)
    end.

(** Returns whether an entry was added, and [*existing]. *)
Definition dictAddRaw (dict_can_resize : bool) d key : option (dict * bool * option dictEntry) :=
  d ← (if dictIsRehashing d then _dictRehashStep d else Some d);
  r ← _dictKeyIndex dict_can_resize d key (dictHashKey key);
  let '(d, index, existing) := r in
  if index =? -1 then Some (d, false, existing)
  else
    let ht := if dictIsRehashing d then ht1 d else ht0 d in
    b ← bucket ht index;
    let ht := set_bucket ht index ((key, uninit) :: b) in
    let ht := set_used ht (ht_used ht + 1) in
    Some (if dictIsRehashing d then mkDict (ht0 d) ht (rehashidx d) (iterators d)
          else mkDict ht (ht1 d) (rehashidx d) (iterators d), true, None).

(** [entry->v.val = val] for the entry of [key]. *)
Definition set_entry key val (e : dictEntry) : dictEntry :=
  if decide (e.1 = key) then (e.1, val) else e.

Definition ht_map (f : dictEntry -> dictEntry) h : dictht :=
  mkHt (map (map f) (ht_table h)) (ht_size h) (ht_sizemask h) (ht_used h).

Definition dictSetVal d key val : dict :=
  mkDict (ht_map (set_entry key val) (ht0 d)) (ht_map (set_entry key val) (ht1 d))
    (rehashidx d) (iterators d).

(** The flag is DICT_OK. *)
Definition dictAdd (dict_can_resize : bool) d key val : option (dict * bool) :=
  r ← dictAddRaw dict_can_resize d key;
  let '(d, added, _) := r in
  if negb added then Some (d, false) else Some (dictSetVal d key val, true).

(** The flag is the return value 1: the key was added from scratch. *)
Definition dictReplace (dict_can_resize : bool) d key val : option (dict * bool) :=
  r ← dictAddRaw dict_can_resize d key;
  let '(d, added, existing) := r in
  if (added : bool) then Some (dictSetVal d key val, true)
  else
    match existing with
    | Some he => Some (dictSetVal d he.1 val, false)
    | None => None (* dereference of NULL *)
    end.

(** Unlink the first entry of [key] from a chain. *)
Fixpoint chain_unlink key chain : option (dictEntry * list dictEntry) :=
  match chain with
  | [] => None
  | he :: next =>
      if decide (key = he.1) then Some (he, next)
      else r ← chain_unlink key next; Some (r.1, he :: r.2)
  end.

(** Returns the unlinked entry. *)
Definition dictGenericDelete d key : option (dict * option dictEntry) :=
  if (ht_used (ht0 d) =? 0) && (ht_used (ht1 d) =? 0) then Some (d, None)
  else
    d ← (if dictIsRehashing d then _dictRehashStep d else Some d);
    let h := dictHashKey key in
    let idx := Z.land h (ht_sizemask (ht0 d)) in
    b ← bucket (ht0 d) idx;
    match chain_unlink key b with
    | Some (he, b') =>
        let t := set_bucket (ht0 d) idx b' in
        Some (mkDict (set_used t (ht_used t - 1)) (ht1 d) (rehashidx d) (iterators d), Some he)
    | None =>
        if negb (dictIsRehashing d) then Some (d, None)
        else
          let idx := Z.land h (ht_sizemask (ht1 d)) in
          b ← bucket (ht1 d) idx;
          match chain_unlink key b with
          | Some (he, b') =>
              let t := set_bucket (ht1 d) idx b' in
              Some (mkDict (ht0 d) (set_used t (ht_used t - 1)) (rehashidx d) (iterators d), Some he)
          | None => Some (d, None)
          end
    end.

Definition dictDelete d key : option (dict * bool) :=
  r ← dictGenericDelete d key; Some (r.1, bool_decide (is_Some r.2)).

Definition dictUnlink d key : option (dict * option dictEntry) := dictGenericDelete d key.

Definition dictFind d key : option (dict * option dictEntry) :=
  if u64 (ht_used (ht0 d) + ht_used (ht1 d)) =? 0 then Some (d, None)
  else
    d ← (if dictIsRehashing d then _dictRehashStep d else Some d);
    r ← find_tables d key (dictHashKey key);
    Some (d, r.1).

Definition dictFetchValue d key : option (dict * option V) :=
  r ← dictFind d key; Some (r.1, option_map snd r.2).

Definition dictAddOrFind (dict_can_resize : bool) d key : option (dict * option K) :=
  r ← dictAddRaw dict_can_resize d key;
  let '(d, added, existing) := r in
  Some (d, if (added : bool) then Some key else option_map fst existing).

(** [for (i = 0; i < size && used > 0; i++)]: free every chain; returns the
    entries freed and the final [used]. *)
Fixpoint clear_loop (tbl : list (list dictEntry)) (used : Z) : list dictEntry * Z :=
  match tbl with
  | [] => ([], used)
  | he :: tbl =>
      if used >? 0 then
        let r := clear_loop tbl (u64 (used - Z.of_nat (length he))) in (he ++ r.1, r.2)
      else ([], used)
  end.

(** Returns the reset table and the entries freed. *)
Definition _dictClear h : dictht * list dictEntry :=
  (_dictReset, (clear_loop (ht_table h) (ht_used h)).1).

Definition dictEmpty d : dict * list dictEntry :=
  let r0 := _dictClear (ht0 d) in
  let r1 := _dictClear (ht1 d) in
  (mkDict r0.1 r1.1 (-1) 0, r0.2 ++ r1.2).


(** ** Well-formedness *)

Definition entries h : list dictEntry := concat (ht_table h).
Definition dict_entries d : list dictEntry := entries (ht0 d) ++ entries (ht1 d).

(** Every entry sits in the bucket its hash selects. *)
Definition placed (mask : Z) (tbl : list (list dictEntry)) : Prop :=
  forall i b, tbl !! i = Some b ->
    Forall (fun e => Z.land (dictHashKey e.1) mask = Z.of_nat i) b.

(** An allocated table: a power of two of buckets, exact counters. *)
Record ht_ok h : Prop := {
  ok_pow : exists k, 2 <= k <= 62 /\ ht_size h = 2 ^ k;
  ok_len : ht_size h = Z.of_nat (length (ht_table h));
  ok_mask : ht_sizemask h = ht_size h - 1;
  ok_used : ht_used h = Z.of_nat (length (entries h));
  ok_placed : placed (ht_sizemask h) (ht_table h);
}.

(** Rehashing: both tables are allocated and the buckets before [rehashidx]
    have been moved. *)
Record rehashing d : Prop := {
  rh_ok0 : ht_ok (ht0 d);
  rh_ok1 : ht_ok (ht1 d);
  rh_idx : 0 <= rehashidx d <= ht_size (ht0 d);
  rh_moved : forall i, Z.of_nat i < rehashidx d -> ht_table (ht0 d) !! i = Some [];
}.

(** The life cycle of a dictionary: no table yet, one table, or rehashing. *)
Inductive dict_state d : Prop :=
  | state_empty : ht0 d = _dictReset -> ht1 d = _dictReset -> rehashidx d = -1 -> dict_state d
  | state_idle : ht_ok (ht0 d) -> ht1 d = _dictReset -> rehashidx d = -1 -> dict_state d
  | state_rehashing : rehashing d -> dict_state d.

(** The bound on the number of entries that keeps the counters exact. *)
Definition max_entries : Z := 2 ^ 61.

(** [d] is well formed and holds the map [m]. *)
Record models d (m : gmap K V) : Prop := {
  m_state : dict_state d;
  m_entries : dict_entries d ≡ₚ map_to_list m;
  m_size : Z.of_nat (size m) < max_entries;
}.

(** ** Tables *)

Lemma concat_bucket (tbl : list (list dictEntry)) i b : tbl !! i = Some b ->
  exists rest, concat tbl ≡ₚ b ++ rest /\ forall b', concat (<[i:=b']> tbl) ≡ₚ b' ++ rest.
Proof.
  intros Hi. exists (concat (take i tbl) ++ concat (drop (S i) tbl)). split.
  - rewrite <- (take_drop_middle tbl i b Hi) at 1. rewrite concat_app. simpl. solve_Permutation.
  - intros b'. rewrite insert_take_drop by (by eapply lookup_lt_Some). rewrite concat_app. simpl.
    solve_Permutation.
Qed.

Lemma land_mask_range x k : 0 <= k -> 0 <= Z.land x (2 ^ k - 1) < 2 ^ k.
Proof.
  intros Hk. replace (2 ^ k - 1) with (Z.ones k) by (rewrite Z.ones_equiv; lia).
  rewrite Z.land_ones by done. apply Z.mod_pos_bound. lia.
Qed.

Lemma ok_bucket h x : ht_ok h ->
  exists b, bucket h (Z.land x (ht_sizemask h)) = Some b /\
    0 <= Z.land x (ht_sizemask h) < ht_size h /\
    ht_table h !! Z.to_nat (Z.land x (ht_sizemask h)) = Some b.
Proof.
  intros [(k & Hk & Hs) Hl Hm _ _].
  pose proof (land_mask_range x k ltac:(lia)) as Hr. rewrite <- Hs in Hr. rewrite Hm, Hs in *.
  unfold bucket. rewrite (proj2 (Z.leb_le 0 _)) by lia.
  destruct (lookup_lt_is_Some_2 (ht_table h) (Z.to_nat (Z.land x (2 ^ k - 1)))) as [b Hb]; [lia|].
  eauto.
Qed.

(** A key can only be in the chain its hash selects. *)
Lemma bucket_entries h key b v : ht_ok h ->
  bucket h (Z.land (dictHashKey key) (ht_sizemask h)) = Some b ->
  (key, v) ∈ entries h <-> (key, v) ∈ b.
Proof.
  intros Hok Hb. destruct (ok_bucket h (dictHashKey key) Hok) as (b' & Hb' & Hr & Hl).
  simplify_eq. unfold entries. rewrite list_elem_of_In, in_concat. split.
  - intros (c & Hc & Hin). apply list_elem_of_In in Hc. apply list_elem_of_In in Hin.
    apply list_elem_of_lookup in Hc as [i Hi].
    pose proof (ok_placed _ Hok i c Hi) as Hp. rewrite Forall_forall in Hp.
    specialize (Hp _ Hin). simpl in Hp. rewrite Hp, Nat2Z.id in Hl. congruence.
  - intros Hin. exists b. rewrite <- !list_elem_of_In. split; [|done].
    by eapply list_elem_of_lookup_2.
Qed.

Lemma placed_insert mask tbl i b : placed mask tbl ->
  Forall (fun e => Z.land (dictHashKey e.1) mask = Z.of_nat i) b -> placed mask (<[i:=b]> tbl).
Proof.
  intros Hp Hb j c Hj. apply list_lookup_insert_Some in Hj as [(-> & -> & _)|[_ Hj]]; [done|].
  by apply Hp.
Qed.

(** Replacing one chain by another of entries that belong there. *)
Lemma set_bucket_ok h x b b' rest n : ht_ok h -> 0 <= x -> ht_table h !! Z.to_nat x = Some b ->
  concat (<[Z.to_nat x:=b']> (ht_table h)) ≡ₚ b' ++ rest ->
  Forall (fun e => Z.land (dictHashKey e.1) (ht_sizemask h) = x) b' ->
  n = Z.of_nat (length (b' ++ rest)) -> n < 2 ^ 64 ->
  ht_ok (set_used (set_bucket h x b') n).
Proof.
  intros [Hp Hl Hm Hu Hpl] Hx Hi He' Hb -> Hlt. split; simpl; auto.
  - by rewrite length_insert.
  - unfold entries. simpl. rewrite He', uwrap_small by lia. done.
  - apply placed_insert; [done|]. by rewrite Z2Nat.id.
Qed.

Lemma push_ok h e b : ht_ok h -> bucket h (Z.land (dictHashKey e.1) (ht_sizemask h)) = Some b ->
  Z.of_nat (length (entries h)) + 1 < 2 ^ 64 ->
  let t := set_bucket h (Z.land (dictHashKey e.1) (ht_sizemask h)) (e :: b) in
  let h' := set_used t (ht_used t + 1) in
  ht_ok h' /\ entries h' ≡ₚ e :: entries h /\ ht_size h' = ht_size h /\ ht_sizemask h' = ht_sizemask h.
Proof.
  intros Hok Hb Hlt. destruct (ok_bucket h (dictHashKey e.1) Hok) as (b0 & Hb0 & Hr & Hl).
  simplify_eq. set (x := Z.land _ _) in *. destruct (concat_bucket _ _ _ Hl) as (rest & He & He').
  specialize (He' (e :: b)). simpl.
  assert (length (entries h) = length (b ++ rest)) as Hlen by (by apply Permutation_length).
  split; [|split; [unfold entries; simpl; by rewrite He', He|done]].
  pose proof (ok_placed _ Hok _ _ Hl) as Hp. rewrite Z2Nat.id in Hp by lia.
  eapply set_bucket_ok; eauto; [lia|rewrite (ok_used _ Hok), Hlen; simpl; lia|].
  rewrite (ok_used _ Hok). lia.
Qed.

Lemma unlink_ok h key e b b' : ht_ok h ->
  bucket h (Z.land (dictHashKey key) (ht_sizemask h)) = Some b -> b ≡ₚ e :: b' ->
  Z.of_nat (length (entries h)) < 2 ^ 64 ->
  let t := set_bucket h (Z.land (dictHashKey key) (ht_sizemask h)) b' in
  let h' := set_used t (ht_used t - 1) in
  ht_ok h' /\ entries h ≡ₚ e :: entries h' /\ ht_size h' = ht_size h.
Proof.
  intros Hok Hb Hperm Hlt. destruct (ok_bucket h (dictHashKey key) Hok) as (b0 & Hb0 & Hr & Hl).
  simplify_eq. set (x := Z.land _ _) in *. destruct (concat_bucket _ _ _ Hl) as (rest & He & He').
  specialize (He' b'). simpl.
  assert (length (entries h) = S (length (b' ++ rest))) as Hlen.
  { unfold entries. rewrite He, Hperm. done. }
  split; [|split; [unfold entries; simpl; by rewrite He', He, Hperm|done]].
  pose proof (ok_placed _ Hok _ _ Hl) as Hp. rewrite Hperm, Z2Nat.id in Hp by lia.
  eapply set_bucket_ok; eauto; [lia|by inversion Hp|rewrite (ok_used _ Hok), Hlen; lia|].
  rewrite (ok_used _ Hok). lia.
Qed.

(** ** Chains *)

Lemma chain_find_Some key chain e : chain_find key chain = Some e -> e ∈ chain /\ e.1 = key.
Proof.
  induction chain as [|he chain IH]; simpl; [done|]. case_decide; intros; simplify_eq; [set_solver|].
  destruct IH; set_solver.
Qed.

Lemma chain_find_None key chain : chain_find key chain = None -> forall v, (key, v) ∉ chain.
Proof.
  induction chain as [|he chain IH]; simpl; [set_solver|]. case_decide; [done|].
  intros Hf v [<- |Hin]%elem_of_cons; [done|]. by eapply IH.
Qed.

Lemma chain_unlink_Some key chain e chain' : chain_unlink key chain = Some (e, chain') ->
  e.1 = key /\ chain ≡ₚ e :: chain'.
Proof.
  revert chain'. induction chain as [|he chain IH]; intros chain' Hf; simpl in *; [done|].
  case_decide; [by simplify_eq|].
  destruct (chain_unlink key chain) as [[e' c']|]; simplify_eq/=.
  destruct (IH c' eq_refl) as [-> ->]. split; [done|]. solve_Permutation.
Qed.

Lemma chain_unlink_None key chain : chain_unlink key chain = None -> forall v, (key, v) ∉ chain.
Proof.
  induction chain as [|he chain IH]; simpl; [set_solver|]. case_decide; [done|].
  destruct (chain_unlink key chain); [done|]. intros _ v [<- |Hin]%elem_of_cons; [done|]. by eapply IH.
Qed.

(** ** Rehashing *)

Definition total d : Z := Z.of_nat (length (dict_entries d)).

Lemma move_chain_spec es : forall d, ht_ok (ht1 d) ->
  Z.of_nat (length es) <= ht_used (ht0 d) < 2 ^ 64 ->
  Z.of_nat (length (entries (ht1 d)) + length es) < 2 ^ 64 ->
  exists d', move_chain d es = Some d' /\
    ht0 d' = mkHt (ht_table (ht0 d)) (ht_size (ht0 d)) (ht_sizemask (ht0 d))
               (ht_used (ht0 d) - Z.of_nat (length es)) /\
    ht_ok (ht1 d') /\ entries (ht1 d') ≡ₚ es ++ entries (ht1 d) /\
    ht_size (ht1 d') = ht_size (ht1 d) /\
    rehashidx d' = rehashidx d /\ iterators d' = iterators d.
Proof.
  induction es as [|e es IH]; intros d Hok Hu Hl.
  { exists d. split_and!; auto. destruct d as [[] ?]; simpl. by rewrite Z.sub_0_r. }
  cbn [move_chain]. destruct (ok_bucket (ht1 d) (dictHashKey e.1) Hok) as (b & Hb & _).
  rewrite Hb. cbn [mbind option_bind length] in *.
  destruct (push_ok (ht1 d) e b Hok Hb ltac:(lia)) as (Hok' & He' & Hsz & _).
  simpl in Hok', He', Hsz.
  match goal with |- context [move_chain ?x es] =>
    destruct (IH x) as (d' & -> & H0 & H1 & He & Hs1 & Hi & Hit) end; simpl in *; auto.
  - rewrite uwrap_small by lia. lia.
  - rewrite (Permutation_length He'). simpl. lia.
  - exists d'. rewrite H0, uwrap_small by lia.
    split_and!; [done|f_equal; lia|done|rewrite He, He'; solve_Permutation|congruence..].
Qed.

Lemma used_nonzero_bucket h : ht_ok h -> ht_used h <> 0 ->
  exists j e b, ht_table h !! j = Some (e :: b).
Proof.
  intros Hok Hu. rewrite (ok_used _ Hok) in Hu.
  destruct (entries h) as [|e es] eqn:E; [done|].
  assert (e ∈ concat (ht_table h)) as Hin by (unfold entries in E; rewrite E; set_solver).
  apply list_elem_of_In, in_concat in Hin as (c & Hc & He).
  apply list_elem_of_In, list_elem_of_lookup in Hc as [j Hj].
  destruct c as [|e' c]; [done|]. eauto.
Qed.

Lemma skip_empty_spec fuel : forall d ev j e b, rehashing d ->
  ht_table (ht0 d) !! j = Some (e :: b) -> Z.of_nat j - rehashidx d < Z.of_nat fuel ->
  exists i ev' stop, skip_empty fuel d ev = Some (mkDict (ht0 d) (ht1 d) i (iterators d), ev', stop) /\
    rehashing (mkDict (ht0 d) (ht1 d) i (iterators d)) /\ rehashidx d <= i /\
    if (stop : bool) then rehashidx d < i
    else exists e' b', ht_table (ht0 d) !! Z.to_nat i = Some (e' :: b').
Proof.
  induction fuel as [|fuel IH]; intros d ev j e b Hrh Hj Hf.
  all: destruct Hrh as [H0 H1 Hi Hm].
  all: assert (rehashidx d <= Z.of_nat j) as Hle
    by (destruct (decide (Z.of_nat j < rehashidx d)) as [Hlt|]; [specialize (Hm j Hlt); congruence|lia]).
  { lia. }
  simpl. pose proof (lookup_lt_Some _ _ _ Hj) as Hjl. unfold bucket.
  rewrite (proj2 (Z.leb_le 0 _)) by lia.
  destruct (lookup_lt_is_Some_2 (ht_table (ht0 d)) (Z.to_nat (rehashidx d))) as [c Hc]; [lia|].
  rewrite Hc; cbn [mbind option_bind]. destruct c as [|e' c].
  - set (d' := mkDict (ht0 d) (ht1 d) (rehashidx d + 1) (iterators d)).
    assert (Z.of_nat j <> rehashidx d) by (intros Heq; rewrite <- Heq, Nat2Z.id in Hc; congruence).
    assert (rehashing d') as Hrh'.
    { split; simpl; auto.
      - rewrite (ok_len _ H0). lia.
      - intros i Hlt. destruct (decide (Z.of_nat i < rehashidx d)); [auto|].
        replace i with (Z.to_nat (rehashidx d)) by lia. done. }
    destruct (s32 (ev - 1) =? 0) eqn:E.
    + exists (rehashidx d + 1), (s32 (ev - 1)), true. split_and!; [done|done|lia|lia].
    + destruct (IH d' (s32 (ev - 1)) j e b Hrh' Hj ltac:(simpl; lia)) as (i & ev' & stop & Hs & Hr & Hle' & Hst).
      simpl in Hs, Hr, Hle', Hst. exists i, ev', stop. split_and!; [done|done|lia|].
      destruct stop; [lia|done].
  - exists (rehashidx d), ev, false. split_and!; [by destruct d|by destruct d|lia|eauto].
Qed.

(** Emptying the bucket whose entries have been moved. *)
Lemma cleared_ok h i b : ht_ok h -> ht_table h !! i = Some b ->
  Z.of_nat (length (entries h)) < 2 ^ 64 ->
  let h' := mkHt (<[i:=[]]> (ht_table h)) (ht_size h) (ht_sizemask h)
              (ht_used h - Z.of_nat (length b)) in
  ht_ok h' /\ entries h ≡ₚ b ++ entries h'.
Proof.
  intros Hok Hi Hlt. destruct (concat_bucket _ _ _ Hi) as (rest & He & He'). specialize (He' []).
  simpl in *. destruct Hok as [Hp Hl Hm Hu Hpl].
  assert (entries h ≡ₚ b ++ rest) as Heq by done.
  split; [|unfold entries; simpl; by rewrite He', He].
  split; simpl; auto.
  - by rewrite length_insert.
  - unfold entries; simpl. rewrite He', Hu, Heq, length_app. lia.
  - by apply placed_insert.
Qed.

Lemma rehash_loop_spec n : forall d ev, rehashing d -> total d < 2 ^ 64 ->
  exists d' early, rehash_loop n d ev = Some (d', early) /\ rehashing d' /\
    dict_entries d' ≡ₚ dict_entries d /\ iterators d' = iterators d /\
    ht_size (ht0 d') = ht_size (ht0 d) /\ rehashidx d <= rehashidx d' /\
    ((0 < n)%nat -> ht_used (ht0 d) <> 0 -> rehashidx d < rehashidx d') /\
    (ht_used (ht0 d) = 0 -> d' = d /\ early = false).
Proof.
  unfold total, dict_entries. induction n as [|n IH]; intros d ev Hrh Ht; cbn [rehash_loop].
  { exists d, false. split_and!; auto; lia. }
  destruct (ht_used (ht0 d) =? 0) eqn:Hu; zbool.
  { exists d, false. split_and!; auto; lia. }
  pose proof Hrh as [H0 H1 Hi Hm]. rewrite length_app in Ht.
  destruct (used_nonzero_bucket _ H0 Hu) as (j & e & b & Hj).
  pose proof (lookup_lt_Some _ _ _ Hj) as Hjl.
  assert (rehashidx d <= Z.of_nat j) as Hle
    by (destruct (decide (Z.of_nat j < rehashidx d)) as [Hlt|]; [specialize (Hm j Hlt); congruence|lia]).
  pose proof (ok_len _ H0) as Hlen. pose proof (ok_pow _ H0) as (k & Hk & Hpow).
  assert (2 ^ k <= 2 ^ 63) by (apply Z.pow_le_mono_r; lia).
  rewrite uwrap_small by lia.
  destruct (ht_size (ht0 d) >? rehashidx d) eqn:Hgt; zbool; [simpl negb; cbv iota|lia].
  destruct (skip_empty_spec (S (length (ht_table (ht0 d)))) d ev j e b Hrh Hj ltac:(lia))
    as (i & ev' & stop & -> & Hrh' & Hile & Hst). cbn [mbind option_bind].
  destruct stop.
  { eexists _, true. split_and!; [done|done|done|done|done|simpl; lia|simpl; lia|done]. }
  destruct Hst as (e' & b' & Hb'). destruct Hrh' as [_ _ Hi' Hm']. simpl in Hi', Hm'.
  unfold bucket at 1; cbn [ht0 rehashidx]. rewrite (proj2 (Z.leb_le 0 _)) by lia.
  rewrite Hb'. cbn [mbind option_bind].
  destruct (cleared_ok (ht0 d) _ _ H0 Hb' ltac:(lia)) as [Hok0 Hent0].
  pose proof (Permutation_length Hent0) as Hlen0. rewrite length_app in Hlen0.
  destruct (move_chain_spec (e' :: b') (mkDict (ht0 d) (ht1 d) i (iterators d)))
    as (d2 & -> & E0 & Hok1 & Hent1 & Hsz1 & Ei & Eit); cbn [ht0 ht1 rehashidx iterators] in *; auto.
  { rewrite (ok_used _ H0). lia. }
  { lia. }
  cbn [mbind option_bind].
  match goal with |- context [rehash_loop n ?x ev'] => set (d3 := x) end.
  assert (ht0 d3 = mkHt (<[Z.to_nat i:=[]]> (ht_table (ht0 d))) (ht_size (ht0 d))
     (ht_sizemask (ht0 d)) (ht_used (ht0 d) - Z.of_nat (length (e' :: b')))) as E3.
  { subst d3. simpl. rewrite E0, Ei. done. }
  assert (rehashing d3) as Hrh3.
  { split.
    - by rewrite E3.
    - done.
    - rewrite E3. subst d3. simpl. rewrite Ei.
      pose proof (lookup_lt_Some _ _ _ Hb'). lia.
    - rewrite E3. subst d3. simpl. rewrite Ei. intros x Hx.
      destruct (decide (x = Z.to_nat i)) as [-> |].
      + apply list_lookup_insert_eq. by eapply lookup_lt_Some.
      + rewrite list_lookup_insert_ne by done. apply Hm'. lia. }
  assert (entries (ht0 d3) ++ entries (ht1 d3) ≡ₚ entries (ht0 d) ++ entries (ht1 d)) as He3.
  { rewrite Hent0. change (ht1 d3) with (ht1 d2). rewrite Hent1, E3. solve_Permutation. }
  destruct (IH d3 ev' Hrh3) as (d4 & early & -> & Hrh4 & He4 & Hit4 & Hsz4 & Hle4 & _ & _).
  { rewrite (Permutation_length He3), length_app. lia. }
  exists d4, early. subst d3. simpl in *. rewrite Ei in *. split_and!; auto.
  - by rewrite He4.
  - by rewrite Hit4.
  - rewrite Hsz4. by rewrite E0.
  - lia.
  - lia.
  - done.
Qed.

Lemma reset_entries : entries _dictReset = [].
Proof. done. Qed.

Lemma is_rehashing_idle d : rehashidx d = -1 -> dictIsRehashing d = false.
Proof. unfold dictIsRehashing. by intros ->. Qed.

Lemma is_rehashing_busy d : rehashing d -> dictIsRehashing d = true.
Proof.
  intros [_ _ Hi _]. unfold dictIsRehashing. by rewrite (proj2 (Z.eqb_neq _ _)) by lia.
Qed.

Lemma dictRehash_spec d n : dict_state d -> total d < 2 ^ 64 ->
  exists d' more, dictRehash d n = Some (d', more) /\ dict_state d' /\
    dict_entries d' ≡ₚ dict_entries d /\ iterators d' = iterators d /\
    (ht0 d <> _dictReset -> ht0 d' <> _dictReset) /\
    (if (more : bool) then rehashing d' /\ ht_size (ht0 d') = ht_size (ht0 d) /\
       (0 < n -> rehashidx d < rehashidx d')
     else rehashidx d' = -1).
Proof.
  intros Hst Ht. unfold dictRehash.
  destruct Hst as [H0 H1 Hi|H0 H1 Hi|Hrh].
  1,2: rewrite is_rehashing_idle by done; exists d, false;
    split_and!; [done|by eauto using dict_state|done..].
  rewrite is_rehashing_busy by done. simpl negb. cbv iota.
  destruct (rehash_loop_spec (Z.to_nat n) d (s32 (n * 10)) Hrh Ht)
    as (d' & early & -> & Hrh' & He & Hit & Hsz & Hle & Hlt & Hnop). cbn [mbind option_bind].
  assert (forall h, ht_ok h -> h <> _dictReset) as Hne.
  { intros h [(k & Hk & Hs) _ _ _ _] ->. simpl in Hs. assert (0 < 2 ^ k) by lia. lia. }
  destruct early.
  { exists d', true. split_and!; [done|by apply state_rehashing|done|done| |done|done|].
    - intros _. apply Hne, Hrh'.
    - intros Hn. apply Hlt; [lia|]. intros Hu. by apply Hnop in Hu as [_ ?]. }
  destruct (ht_used (ht0 d') =? 0) eqn:Hu; zbool.
  - eexists _, false. pose proof Hrh' as [Hok0 Hok1 _ _]. split_and!; [done| | |done| |done].
    + by apply state_idle.
    + unfold dict_entries in *. simpl. rewrite reset_entries, app_nil_r, <- He.
      rewrite (ok_used _ Hok0) in Hu. destruct (entries (ht0 d')); [done|simpl in Hu; lia].
    + intros _. simpl. by apply Hne.
  - exists d', true. split_and!; [done|by apply state_rehashing|done|done| |done|done|].
    + intros _. apply Hne, Hrh'.
    + intros Hn. apply Hlt; [lia|]. intros Hu0. destruct (Hnop Hu0) as [-> _]. congruence.
Qed.

Lemma rehash_step_spec d : dict_state d -> total d < 2 ^ 64 ->
  exists d', (if dictIsRehashing d then _dictRehashStep d else Some d) = Some d' /\ dict_state d' /\
    dict_entries d' ≡ₚ dict_entries d /\ (ht0 d <> _dictReset -> ht0 d' <> _dictReset).
Proof.
  intros Hst Ht. destruct (dictIsRehashing d); [|by exists d].
  unfold _dictRehashStep. destruct (iterators d =? 0); [|by exists d].
  destruct (dictRehash_spec d 1 Hst Ht) as (d' & more & -> & Hst' & He & _ & Hne & _).
  by exists d'.
Qed.

(** ** Growing *)

Lemma next_power_loop_spec fuel : forall k size, 2 <= k <= 62 -> 62 <= k + Z.of_nat fuel ->
  0 <= size <= 2 ^ 62 ->
  exists k', next_power_loop fuel (2 ^ k) size = Some (2 ^ k') /\ k <= k' <= 62 /\ size <= 2 ^ k'.
Proof.
  induction fuel as [|fuel IH]; intros k size Hk Hf Hs; cbn [next_power_loop];
    (destruct (2 ^ k >=? size) eqn:E; zbool; [exists k; split_and!; [done|lia..]|]).
  { assert (k = 62) as -> by lia. lia. }
  assert (k <> 62) by (intros ->; lia).
  rewrite uwrap_small.
  - replace (2 ^ k * 2) with (2 ^ (k + 1)) by (rewrite Z.pow_add_r; lia).
    destruct (IH (k + 1) size ltac:(lia) ltac:(lia) Hs) as (k' & -> & ? & ?).
    exists k'. split_and!; [done|lia..].
  - replace (2 ^ k * 2) with (2 ^ (k + 1)) by (rewrite Z.pow_add_r; lia).
    pose proof (Z.pow_lt_mono_r 2 (k + 1) 64). lia.
Qed.

Lemma _dictNextPower_spec size : 0 <= size <= 2 ^ 62 ->
  exists k, _dictNextPower size = Some (2 ^ k) /\ 2 <= k <= 62 /\ size <= 2 ^ k.
Proof.
  intros Hs. unfold _dictNextPower. destruct (size >=? LLONG_MAX) eqn:E; zbool.
  - limits; lia.
  - destruct (next_power_loop_spec 64 2 size) as (k & Hk & ? & ?); [lia|lia|lia|].
    exists k. split_and!; [done|lia..].
Qed.

Lemma new_table_ok k : 2 <= k <= 62 ->
  ht_ok (mkHt (replicate (Z.to_nat (2 ^ k)) []) (2 ^ k) (u64 (2 ^ k - 1)) 0) /\
  entries (mkHt (replicate (Z.to_nat (2 ^ k)) []) (2 ^ k) (u64 (2 ^ k - 1)) 0) = [].
Proof.
  intros Hk. assert (0 < 2 ^ k < 2 ^ 64) as Hp
    by (split; [lia|apply Z.pow_lt_mono_r; lia]).
  assert (concat (replicate (Z.to_nat (2 ^ k)) ([] : list dictEntry)) = []) as Hc
    by (generalize (Z.to_nat (2 ^ k)); intros x; by induction x).
  split; [|exact Hc]. split; cbn [ht_table ht_size ht_sizemask ht_used]; eauto.
  - rewrite length_replicate. lia.
  - apply uwrap_small. lia.
  - unfold entries. cbn [ht_table]. by rewrite Hc.
  - intros i b Hi. apply lookup_replicate in Hi as [-> _]. constructor.
Qed.

(** Expanding never touches the contents; it fails only while rehashing, when
    the size is too small, or when the table already has that size. *)
Lemma dictExpand_spec d size : dict_state d -> 0 <= size <= 2 ^ 62 ->
  exists d' ok, dictExpand d size = Some (d', ok) /\ dict_state d' /\
    dict_entries d' = dict_entries d /\
    ((ok : bool) = false -> d' = d) /\
    (rehashidx d = -1 -> ht_used (ht0 d) <= size ->
      (forall k, size <= 2 ^ k -> 2 <= k -> ht_size (ht0 d) <> 2 ^ k) ->
      ok = true /\ ht0 d' <> _dictReset).
Proof.
  intros Hst Hs. unfold dictExpand.
  destruct Hst as [H0 H1 Hi|H0 H1 Hi|Hrh].
  3: { rewrite is_rehashing_busy by done. exists d, false. simpl.
       split_and!; [done|by apply state_rehashing|done|done|]. destruct Hrh as [_ _ ? _]. lia. }
  all: rewrite is_rehashing_idle by done; simpl orb;
    destruct (ht_used (ht0 d) >? size) eqn:E; zbool;
    [exists d, false; split_and!; [done|by eauto using dict_state|done|done|lia]|];
    destruct (_dictNextPower_spec size Hs) as (k & -> & Hk & Hle); cbn [mbind option_bind];
    destruct (new_table_ok k Hk) as [Hok Hent];
    destruct (2 ^ k =? ht_size (ht0 d)) eqn:Esz; zbool.
  1,3: exists d, false; split_and!; [done|by eauto using dict_state|done|done|];
    intros _ Hu Hno; exfalso; eapply (Hno k); [done|lia|done].
  - rewrite H0. cbn [ht_table _dictReset]. eexists _, true. split_and!; [done|by apply state_idle| |done|].
    + unfold dict_entries. cbn [ht0 ht1]. by rewrite Hent, H0.
    + intros _ _ _. split; [done|]. cbn [ht0]. intros Heq. apply (f_equal ht_size) in Heq. simpl in Heq. lia.
  - destruct (ht_table (ht0 d)) as [|c tbl] eqn:Etbl.
    { pose proof (ok_len _ H0) as Hl. pose proof (ok_pow _ H0) as (k' & ? & Hk').
      rewrite Etbl in Hl. simpl in Hl. lia. }
    eexists _, true. split_and!; [done| | |done|].
    + apply state_rehashing. split; cbn [ht0 ht1 rehashidx]; auto; [|lia].
      rewrite (ok_len _ H0). lia.
    + unfold dict_entries. cbn [ht0 ht1]. by rewrite Hent, H1.
    + intros _ _ _. split; [done|]. cbn [ht0]. intros Heq. by rewrite Heq in Etbl.
Qed.

Lemma ok_not_reset h : ht_ok h -> h <> _dictReset.
Proof. intros [(k & Hk & Hs) _ _ _ _] ->. simpl in Hs. lia. Qed.

Lemma state_ok0 d : dict_state d -> ht0 d <> _dictReset -> ht_ok (ht0 d).
Proof. intros [|? ?|[]]; done. Qed.

Lemma _dictExpandIfNeeded_spec c d : dict_state d -> total d < max_entries ->
  exists d', _dictExpandIfNeeded c d = Some (d', true) /\ dict_state d' /\
    dict_entries d' = dict_entries d /\ ht0 d' <> _dictReset.
Proof.
  intros Hst Ht. unfold _dictExpandIfNeeded.
  destruct (dictIsRehashing d) eqn:Er.
  { exists d. split_and!; [done..|]. destruct Hst as [? ? Hi|? ? Hi|[? ? ? ?]];
      [by rewrite is_rehashing_idle in Er..|by apply ok_not_reset]. }
  assert (rehashidx d = -1) as Hidx
    by (destruct Hst as [? ? Hi|? ? Hi|Hr]; [done..|by rewrite is_rehashing_busy in Er]).
  assert (0 <= DICT_HT_INITIAL_SIZE <= 2 ^ 62) as H4 by (unfold DICT_HT_INITIAL_SIZE; lia).
  destruct (ht_size (ht0 d) =? 0) eqn:Esz; zbool.
  - destruct (dictExpand_spec d DICT_HT_INITIAL_SIZE Hst H4) as (d' & ok & -> & Hst' & He & _ & Hok).
    destruct Hok as [-> Hne]; [done| |intros; lia|by exists d'].
    destruct Hst as [-> _ _|H0 _ _|[H0 _ _ _]]; [simpl; unfold DICT_HT_INITIAL_SIZE; lia|..];
      destruct (ok_pow _ H0) as (k & ? & ?); lia.
  - assert (ht_ok (ht0 d)) as H0 by (apply state_ok0; [done|intros Heq; by rewrite Heq in Esz]).
    pose proof (ok_used _ H0) as Hu. unfold total, dict_entries, max_entries in Ht. rewrite length_app in Ht.
    destruct (_ && _) eqn:Ec; [|exists d; split_and!; [done..|by apply ok_not_reset]]. zbool.
    rewrite uwrap_small by lia.
    destruct (dictExpand_spec d (ht_used (ht0 d) * 2) Hst ltac:(lia)) as (d' & ok & -> & Hst' & He & _ & Hok).
    destruct Hok as [-> Hne]; [done|lia| |by exists d'].
    intros k Hk1 Hk2 Hk3. lia.
Qed.

(** What a look-up over the two tables returns, in terms of the entries. *)
Definition lookup_result d key (r : option dictEntry) : Prop :=
  match r with
  | Some e => e ∈ dict_entries d /\ e.1 = key
  | None => forall v, (key, v) ∉ dict_entries d
  end.

Lemma find_tables_spec d key : dict_state d -> ht0 d <> _dictReset ->
  exists r idx, find_tables d key (dictHashKey key) = Some (r, idx) /\ lookup_result d key r /\
    (r = None -> idx = Z.land (dictHashKey key)
                  (ht_sizemask (if dictIsRehashing d then ht1 d else ht0 d))).
Proof.
  intros Hst Hne. pose proof (state_ok0 d Hst Hne) as H0. unfold find_tables, lookup_result, dict_entries.
  destruct (ok_bucket (ht0 d) (dictHashKey key) H0) as (b & Hb & _). rewrite Hb; cbn [mbind option_bind].
  destruct (chain_find key b) as [[k v]|] eqn:Ef.
  { eexists (Some (k, v)), _. split_and!; [done|..|done].
    - apply chain_find_Some in Ef as [Hin Heq]. simpl in Heq. subst k.
      apply elem_of_app. left. by eapply bucket_entries.
    - by apply chain_find_Some in Ef as [_ ?]. }
  pose proof (chain_find_None _ _ Ef) as Hno.
  destruct Hst as [Hr|_ H1 Hi|Hrh].
  { done. }
  - rewrite is_rehashing_idle by done. simpl negb. cbv iota. eexists None, _. split_and!; [done| |done].
    intros v. rewrite H1, reset_entries, app_nil_r, bucket_entries by done. apply Hno.
  - rewrite is_rehashing_busy by done. simpl negb. cbv iota.
    destruct Hrh as [_ H1 _ _].
    destruct (ok_bucket (ht1 d) (dictHashKey key) H1) as (b1 & Hb1 & _). rewrite Hb1; cbn [mbind option_bind].
    eexists _, _. split_and!; [done| |done].
    destruct (chain_find key b1) as [[k v]|] eqn:Ef1.
    + apply chain_find_Some in Ef1 as [Hin Heq]. simpl in Heq. subst k. split; [|done].
      apply elem_of_app. right. by eapply bucket_entries.
    + intros v [Hin|Hin]%elem_of_app; rewrite bucket_entries in Hin by done; [by eapply Hno|].
      by eapply chain_find_None.
Qed.

(** ** Refinement of finite maps *)

Lemma models_total d (m : gmap K V) : models d m -> total d = Z.of_nat (size m).
Proof.
  intros [_ He _]. unfold total. by rewrite (Permutation_length He), length_map_to_list.
Qed.

Lemma models_total_bounds d (m : gmap K V) : models d m -> total d < max_entries /\ total d < 2 ^ 64.
Proof. intros Hm. rewrite (models_total _ _ Hm). pose proof (m_size _ _ Hm). unfold max_entries in *. lia. Qed.

Lemma models_lookup d (m : gmap K V) key r : models d m -> lookup_result d key r ->
  r = pair key <$> m !! key.
Proof.
  intros [_ He _] Hr. destruct r as [[k v]|]; simpl in Hr.
  - destruct Hr as [Hin <-]. rewrite He, elem_of_map_to_list in Hin. by rewrite Hin.
  - destruct (m !! key) as [v|] eqn:E; [|done]. exfalso. apply (Hr v).
    by rewrite He, elem_of_map_to_list.
Qed.

Lemma models_perm d d' (m : gmap K V) : models d m -> dict_state d' ->
  dict_entries d' ≡ₚ dict_entries d -> models d' m.
Proof. intros [Hs He Hz] Hst Hp. split; [done|by rewrite Hp|done]. Qed.

Lemma dictAddRaw_spec c d (m : gmap K V) key : models d m -> Z.of_nat (size m) + 1 < max_entries ->
  exists d', dictAddRaw c d key = Some (d', bool_decide (m !! key = None), pair key <$> m !! key) /\
    models d' (match m !! key with Some _ => m | None => <[key:=uninit]> m end).
Proof.
  intros Hm Hsz. unfold dictAddRaw. destruct (models_total_bounds _ _ Hm) as [Hb1 Hb2].
  destruct (rehash_step_spec d (m_state _ _ Hm) Hb2) as (d1 & -> & Hst1 & He1 & _). cbn [mbind option_bind].
  pose proof (models_perm _ _ _ Hm Hst1 He1) as Hm1. unfold _dictKeyIndex.
  destruct (models_total_bounds _ _ Hm1) as [Hb1' _].
  destruct (_dictExpandIfNeeded_spec c d1 Hst1 Hb1') as (d2 & -> & Hst2 & He2 & Hne). cbn [mbind option_bind negb].
  assert (models d2 m) as Hm2 by (eapply models_perm; [exact Hm1|done|by rewrite He2]).
  destruct (find_tables_spec d2 key Hst2 Hne) as (r & idx & -> & Hr & Hidx). cbn [mbind option_bind].
  pose proof (models_lookup _ _ _ _ Hm2 Hr) as ->.
  destruct (m !! key) as [v|] eqn:Hlk; simpl fmap.
  { exists d2. by rewrite bool_decide_eq_false_2. }
  cbn [mbind option_bind]. specialize (Hidx eq_refl). rewrite bool_decide_eq_true_2 by done.
  set (h := if dictIsRehashing d2 then ht1 d2 else ht0 d2) in *.
  assert (ht_ok h) as Hok.
  { subst h. destruct Hst2 as [? ? ?|? ? ?|Hrh]; [done|by rewrite is_rehashing_idle|].
    rewrite is_rehashing_busy by done. by destruct Hrh. }
  destruct (ok_bucket h (dictHashKey key) Hok) as (b & Hb & Hrange & _).
  rewrite <- Hidx in Hb, Hrange. rewrite (proj2 (Z.eqb_neq idx (-1))) by lia. rewrite Hb. cbn [mbind option_bind].
  pose proof (models_total _ _ Hm2) as Htot. unfold total, dict_entries in Htot. rewrite length_app in Htot.
  subst idx. destruct (push_ok h (key, uninit) b Hok Hb) as (Hok' & He' & Hsz' & _).
  { unfold max_entries in Hsz. subst h. destruct (dictIsRehashing d2); lia. }
  eexists. split; [reflexivity|]. simpl in *.
  assert (dict_entries d2 ≡ₚ map_to_list m) as Hent by apply Hm2. unfold dict_entries in Hent.
  split; [| |rewrite map_size_insert_None by done; lia].
  - subst h. destruct Hst2 as [? ? ?|? H1 Hi|Hrh]; [done|..].
    + rewrite is_rehashing_idle in * by done. by apply state_idle.
    + rewrite is_rehashing_busy in * by done. destruct Hrh. apply state_rehashing. by split.
  - rewrite map_to_list_insert by done. rewrite <- Hent. unfold dict_entries. subst h.
    destruct (dictIsRehashing d2); cbn [ht0 ht1]; rewrite He'; solve_Permutation.
Qed.

Lemma ht_map_ok key val h : ht_ok h -> ht_ok (ht_map (set_entry key val) h).
Proof.
  intros [Hp Hl Hm Hu Hpl]. split; simpl; auto.
  - by rewrite length_map.
  - unfold entries. simpl. by rewrite <- concat_map, length_map.
  - intros i b Hi. rewrite list_lookup_fmap in Hi.
    destruct (ht_table h !! i) as [c|] eqn:Hc; simplify_eq/=.
    apply Forall_fmap. eapply Forall_impl; [by apply Hpl|]. intros [k v] Hk. unfold set_entry. simpl.
    by case_decide.
Qed.

Lemma set_entry_id key val (m : gmap K V) : m !! key = None ->
  map (set_entry key val) (map_to_list m) = map_to_list m.
Proof.
  intros Hk. rewrite <- (list_fmap_id (map_to_list m)) at 2. apply list_fmap_ext.
  intros i [k v] Hi. apply list_elem_of_lookup_2, elem_of_map_to_list in Hi.
  unfold set_entry. simpl. case_decide; [congruence|done].
Qed.

Lemma dictSetVal_spec d (m : gmap K V) key val : models d m -> is_Some (m !! key) ->
  models (dictSetVal d key val) (<[key:=val]> m).
Proof.
  intros [Hst He Hsz] [w Hw]. split.
  - destruct Hst as [H0 H1 Hi|H0 H1 Hi|[H0 H1 Hi Hmv]].
    + apply state_empty; simpl; [by rewrite H0|by rewrite H1|done].
    + apply state_idle; simpl; [by apply ht_map_ok|by rewrite H1|done].
    + apply state_rehashing. split; simpl; auto using ht_map_ok.
      intros i Hlt. rewrite list_lookup_fmap, Hmv by done. done.
  - unfold dict_entries, entries. simpl. rewrite <- !concat_map, <- map_app.
    rewrite (Permutation_map _ He).
    rewrite <- (map_to_list_delete m key w Hw). simpl.
    rewrite set_entry_id by apply lookup_delete_eq. unfold set_entry at 1. simpl.
    rewrite decide_True by done.
    rewrite <- (map_to_list_insert (delete key m) key val) by apply lookup_delete_eq.
    by rewrite insert_delete_eq.
  - rewrite map_size_insert_Some; [done|by exists w].
Qed.

Lemma used_sum d : dict_state d ->
  ht_used (ht0 d) = Z.of_nat (length (entries (ht0 d))) /\
  ht_used (ht1 d) = Z.of_nat (length (entries (ht1 d))).
Proof.
  intros [H0 H1 _|H0 H1 _|[H0 H1 _ _]]; rewrite ?H0, ?H1; try done.
  - split; [apply H0|done].
  - split; [apply H0|apply H1].
Qed.

Lemma models_empty_lookup d (m : gmap K V) : models d m -> total d = 0 -> m = ∅.
Proof. intros Hm Ht. rewrite (models_total _ _ Hm) in Ht. apply map_size_empty_inv. lia. Qed.

Lemma nonempty_table d : dict_state d -> total d <> 0 -> ht0 d <> _dictReset.
Proof.
  intros [H0 H1 _|H0 _ _|[H0 _ _ _]] Ht Heq.
  - unfold total, dict_entries in Ht. by rewrite H0, H1 in Ht.
  - by apply (ok_not_reset _ H0).
  - by apply (ok_not_reset _ H0).
Qed.

Lemma dictAdd_spec c d (m : gmap K V) key val : models d m -> Z.of_nat (size m) + 1 < max_entries ->
  exists d', dictAdd c d key val = Some (d', bool_decide (m !! key = None)) /\
    models d' (match m !! key with Some _ => m | None => <[key:=val]> m end).
Proof.
  intros Hm Hsz. unfold dictAdd.
  destruct (dictAddRaw_spec c d m key Hm Hsz) as (d1 & -> & Hm1). cbn [mbind option_bind].
  destruct (m !! key) as [w|] eqn:Hk.
  - rewrite !bool_decide_eq_false_2 by done. by exists d1.
  - rewrite !bool_decide_eq_true_2 by done. eexists. split; [done|].
    rewrite <- (insert_insert_eq m key val uninit). apply dictSetVal_spec; [done|].
    rewrite lookup_insert_eq. eauto.
Qed.

Lemma dictReplace_spec c d (m : gmap K V) key val : models d m -> Z.of_nat (size m) + 1 < max_entries ->
  exists d', dictReplace c d key val = Some (d', bool_decide (m !! key = None)) /\
    models d' (<[key:=val]> m).
Proof.
  intros Hm Hsz. unfold dictReplace.
  destruct (dictAddRaw_spec c d m key Hm Hsz) as (d1 & -> & Hm1). cbn [mbind option_bind].
  destruct (m !! key) as [w|] eqn:Hk.
  - rewrite !bool_decide_eq_false_2 by done. simpl. eexists. split; [done|].
    apply dictSetVal_spec; [done|]. by exists w.
  - rewrite !bool_decide_eq_true_2 by done. eexists. split; [done|].
    rewrite <- (insert_insert_eq m key val uninit). apply dictSetVal_spec; [done|].
    rewrite lookup_insert_eq. eauto.
Qed.

(** Deleting the entry [e] found in the chain [b] of table [h]. *)
Lemma models_delete d' (m : gmap K V) e es : dict_state d' -> Z.of_nat (size m) < max_entries ->
  es ≡ₚ map_to_list m -> es ≡ₚ e :: dict_entries d' ->
  m !! e.1 = Some e.2 /\ models d' (delete e.1 m).
Proof.
  intros Hst Hsz Hm He. destruct e as [k v]. simpl.
  assert (m !! k = Some v) as Hk.
  { apply elem_of_map_to_list. rewrite <- Hm, He. set_solver. }
  split; [done|]. split; [done| |].
  - apply (Permutation_cons_inv (a := (k, v))). by rewrite map_to_list_delete, <- Hm, He.
  - rewrite map_size_delete, Hk. simpl. lia.
Qed.

Lemma dictGenericDelete_spec d (m : gmap K V) key : models d m ->
  exists d', dictGenericDelete d key = Some (d', pair key <$> m !! key) /\ models d' (delete key m).
Proof.
  intros Hm. unfold dictGenericDelete. destruct (models_total_bounds _ _ Hm) as [Hb1 Hb2].
  destruct (used_sum d (m_state _ _ Hm)) as [Hu0 Hu1].
  destruct ((ht_used (ht0 d) =? 0) && (ht_used (ht1 d) =? 0)) eqn:Eu.
  { zbool. assert (m = ∅) as ->.
    { eapply models_empty_lookup; [done|]. unfold total, dict_entries. rewrite length_app. lia. }
    exists d. rewrite lookup_empty, delete_empty. done. }
  assert (total d <> 0) as Ht.
  { unfold total, dict_entries. rewrite length_app. intros Ht.
    rewrite Hu0, Hu1 in Eu. apply andb_false_iff in Eu as [Eu|Eu]; zbool; lia. }
  destruct (rehash_step_spec d (m_state _ _ Hm) Hb2) as (d1 & -> & Hst1 & He1 & Hne1). cbn [mbind option_bind].
  specialize (Hne1 (nonempty_table d (m_state _ _ Hm) Ht)).
  pose proof (models_perm _ _ _ Hm Hst1 He1) as Hm1. clear Hu0 Hu1 Eu Ht Hb1 Hb2 He1.
  destruct (models_total_bounds _ _ Hm1) as [_ Hb2]. unfold total, dict_entries in Hb2. rewrite length_app in Hb2.
  pose proof (state_ok0 d1 Hst1 Hne1) as H0.
  destruct (ok_bucket (ht0 d1) (dictHashKey key) H0) as (b & Hb & _). rewrite Hb; cbn [mbind option_bind].
  pose proof (m_entries _ _ Hm1) as Hent. unfold dict_entries in Hent.
  destruct (chain_unlink key b) as [[e b']|] eqn:Ef.
  - apply chain_unlink_Some in Ef as [<- Hperm].
    destruct (unlink_ok (ht0 d1) e.1 e b b' H0 Hb Hperm ltac:(lia)) as (Hok & He & Hsz).
    eexists. match goal with |- Some (?x, _) = _ /\ _ => assert (dict_state x) as Hst2 end.
    { destruct Hst1 as [?|_ H1 Hi|[_ H1 Hi Hmv]]; [done|by apply state_idle|].
      apply state_rehashing. split; [done|done|exact Hi|]. intros i Hlt. simpl. specialize (Hmv i Hlt).
      destruct (decide (i = Z.to_nat (Z.land (dictHashKey e.1) (ht_sizemask (ht0 d1))))) as [-> |].
      + unfold bucket in Hb. destruct (0 <=? _); [|done]. rewrite Hmv in Hb. simplify_eq.
        by apply Permutation_nil_cons in Hperm.
      + by rewrite list_lookup_insert_ne. }
    destruct (models_delete _ m e _ Hst2 (m_size _ _ Hm1) Hent) as [Hk Hm2].
    { unfold dict_entries. cbn [ht0 ht1]. rewrite He. simpl. done. }
    rewrite Hk. split; [|done]. by destruct e.
  - pose proof (chain_unlink_None _ _ Ef) as Hno.
    destruct Hst1 as [?|_ H1 Hi|Hrh]; [done|..].
    + rewrite is_rehashing_idle by done. simpl negb. cbv iota. exists d1.
      assert (m !! key = None) as Hk.
      { destruct (m !! key) as [v|] eqn:Hk; [|done]. exfalso. apply (Hno v).
        rewrite <- bucket_entries by done.
        rewrite H1, reset_entries, app_nil_r in Hent. by rewrite Hent, elem_of_map_to_list. }
      rewrite Hk, delete_id by done. done.
    + rewrite is_rehashing_busy by done. simpl negb. cbv iota. destruct Hrh as [_ H1 Hi Hmv].
      destruct (ok_bucket (ht1 d1) (dictHashKey key) H1) as (b1 & Hb1 & _). rewrite Hb1; cbn [mbind option_bind].
      destruct (chain_unlink key b1) as [[e b']|] eqn:Ef1.
      * apply chain_unlink_Some in Ef1 as [<- Hperm].
        destruct (unlink_ok (ht1 d1) e.1 e b1 b' H1 Hb1 Hperm ltac:(lia)) as (Hok & He & Hsz).
        eexists. match goal with |- Some (?x, _) = _ /\ _ => assert (dict_state x) as Hst2 end.
        { apply state_rehashing. by split. }
        destruct (models_delete _ m e _ Hst2 (m_size _ _ Hm1) Hent) as [Hk Hm2].
        { unfold dict_entries. cbn [ht0 ht1]. rewrite He. simpl. solve_Permutation. }
        rewrite Hk. split; [|done]. by destruct e.
      * pose proof (chain_unlink_None _ _ Ef1) as Hno1. exists d1.
        assert (m !! key = None) as Hk.
        { destruct (m !! key) as [v|] eqn:Hk; [|done]. exfalso.
          assert ((key, v) ∈ entries (ht0 d1) ++ entries (ht1 d1)) as Hin
            by (by rewrite Hent, elem_of_map_to_list).
          apply elem_of_app in Hin as [Hin|Hin]; rewrite bucket_entries in Hin by done;
            [by apply (Hno v)|by apply (Hno1 v)]. }
        rewrite Hk, delete_id by done. done.
Qed.

Lemma dictFind_spec d (m : gmap K V) key : models d m ->
  exists d', dictFind d key = Some (d', pair key <$> m !! key) /\ models d' m.
Proof.
  intros Hm. unfold dictFind. destruct (models_total_bounds _ _ Hm) as [Hb1 Hb2].
  destruct (used_sum d (m_state _ _ Hm)) as [Hu0 Hu1].
  assert (ht_used (ht0 d) + ht_used (ht1 d) = total d) as Hsum.
  { unfold total, dict_entries. rewrite length_app. lia. }
  rewrite Hsum, uwrap_small by (unfold total in *; lia).
  destruct (total d =? 0) eqn:Et; zbool.
  { assert (m = ∅) as -> by (by eapply models_empty_lookup). exists d. by rewrite lookup_empty. }
  destruct (rehash_step_spec d (m_state _ _ Hm) Hb2) as (d1 & -> & Hst1 & He1 & Hne1). cbn [mbind option_bind].
  pose proof (models_perm _ _ _ Hm Hst1 He1) as Hm1.
  destruct (find_tables_spec d1 key Hst1) as (r & idx & -> & Hr & _).
  { by apply Hne1, nonempty_table; [apply Hm|]. }
  rewrite (models_lookup _ _ _ _ Hm1 Hr). by exists d1.
Qed.

Lemma dictResize_spec c d (m : gmap K V) : models d m ->
  exists d' ok, dictResize c d = Some (d', ok) /\ models d' m.
Proof.
  intros Hm. unfold dictResize.
  destruct (negb c || dictIsRehashing d); [by exists d, false|].
  set (x := s32 _). set (y := if x <? _ then _ else x).
  assert (0 <= y <= 2 ^ 62) as Hy.
  { pose proof (swrap_range 32 (ht_used (ht0 d)) ltac:(lia)) as Hx. fold x in Hx. unfold in_s in Hx.
    subst y. unfold DICT_HT_INITIAL_SIZE. destruct (x <? 4) eqn:E; zbool; lia. }
  destruct (dictExpand_spec d y (m_state _ _ Hm) Hy) as (d' & ok & -> & Hst & He & _).
  exists d', ok. split; [done|]. eapply models_perm; [exact Hm|done|by rewrite He].
Qed.

Lemma clear_loop_spec tbl : Z.of_nat (length (concat tbl)) < 2 ^ 64 ->
  clear_loop tbl (Z.of_nat (length (concat tbl))) = (concat tbl, 0).
Proof.
  induction tbl as [|c tbl IH]; intros Hlt; [done|]. simpl in *. rewrite length_app in *.
  destruct (_ >? 0) eqn:E; zbool.
  - replace (Z.of_nat (length c + length (concat tbl)) - Z.of_nat (length c))
      with (Z.of_nat (length (concat tbl))) by lia.
    rewrite uwrap_small, IH by lia. done.
  - destruct c; [|simpl in E; lia]. destruct (concat tbl); [done|simpl in E; lia].
Qed.

(** [dictEmpty] frees every entry of both tables exactly once and leaves a
    fresh empty dictionary, also in the middle of a rehashing. *)
Theorem dictEmpty_correct d (m : gmap K V) : models d m ->
  (dictEmpty d).1 = dictCreate /\ (dictEmpty d).2 ≡ₚ map_to_list m.
Proof.
  intros Hm. split; [done|]. unfold dictEmpty, _dictClear. simpl.
  destruct (used_sum d (m_state _ _ Hm)) as [-> ->].
  destruct (models_total_bounds _ _ Hm) as [_ Hb]. unfold total, dict_entries in Hb.
  rewrite length_app in Hb. unfold entries in *.
  rewrite !clear_loop_spec by lia. apply (m_entries _ _ Hm).
Qed.

(** ** Sequences of commands *)

Inductive dict_op :=
  | DAdd (key : K) (val : V)
  | DReplace (key : K) (val : V)
  | DDelete (key : K)
  | DUnlink (key : K)
  | DFind (key : K)
  | DRehash (n : Z)
  | DResize.

(** What a command answers; the results of rehashing and resizing depend on the
    layout and are not part of the contract. *)
Inductive dict_reply := RFlag (b : bool) | REntry (e : option dictEntry) | RNone.

(** One command, run with the current value of [dict_can_resize]. *)
Definition dict_step d (o : bool * dict_op) : option (dict * dict_reply) :=
  match o.2 with
  | DAdd k v => r ← dictAdd o.1 d k v; Some (r.1, RFlag r.2)
  | DReplace k v => r ← dictReplace o.1 d k v; Some (r.1, RFlag r.2)
  | DDelete k => r ← dictDelete d k; Some (r.1, RFlag r.2)
  | DUnlink k => r ← dictUnlink d k; Some (r.1, REntry r.2)
  | DFind k => r ← dictFind d k; Some (r.1, REntry r.2)
  | DRehash n => r ← dictRehash d n; Some (r.1, RNone)
  | DResize => r ← dictResize o.1 d; Some (r.1, RNone)
  end.

(** The same command on a mathematical map. *)
Definition gmap_step (m : gmap K V) (o : dict_op) : gmap K V * dict_reply :=
  match o with
  | DAdd k v => (match m !! k with Some _ => m | None => <[k:=v]> m end,
                 RFlag (bool_decide (m !! k = None)))
  | DReplace k v => (<[k:=v]> m, RFlag (bool_decide (m !! k = None)))
  | DDelete k => (delete k m, RFlag (bool_decide (is_Some (m !! k))))
  | DUnlink k => (delete k m, REntry (pair k <$> m !! k))
  | DFind k => (m, REntry (pair k <$> m !! k))
  | DRehash _ | DResize => (m, RNone)
  end.

Fixpoint dict_run d (os : list (bool * dict_op)) : option (dict * list dict_reply) :=
  match os with
  | [] => Some (d, [])
  | o :: os => r ← dict_step d o; q ← dict_run r.1 os; Some (q.1, r.2 :: q.2)
  end.

Fixpoint gmap_run (m : gmap K V) (os : list (bool * dict_op)) : gmap K V * list dict_reply :=
  match os with
  | [] => (m, [])
  | o :: os =>
      let r := gmap_step m o.2 in let q := gmap_run r.1 os in (q.1, r.2 :: q.2)
  end.

Lemma dict_step_sim d (m : gmap K V) o : models d m -> Z.of_nat (size m) + 1 < max_entries ->
  exists d', dict_step d o = Some (d', (gmap_step m o.2).2) /\ models d' (gmap_step m o.2).1 /\
    (size (gmap_step m o.2).1 <= size m + 1)%nat.
Proof.
  intros Hm Hsz. destruct o as [c [k v|k v|k|k|k|n|]]; unfold dict_step; cbn [fst snd gmap_step].
  - destruct (dictAdd_spec c d m k v Hm Hsz) as (d' & -> & Hm'). exists d'. split_and!; [done..|].
    destruct (m !! k) eqn:E; [lia|]. rewrite map_size_insert_None by done. lia.
  - destruct (dictReplace_spec c d m k v Hm Hsz) as (d' & -> & Hm'). exists d'. split_and!; [done..|].
    rewrite map_size_insert. destruct (m !! k); simpl; lia.
  - unfold dictDelete. destruct (dictGenericDelete_spec d m k Hm) as (d' & -> & Hm').
    exists d'. split_and!; [|done|].
    + simpl. do 3 f_equal. apply bool_decide_ext. by rewrite fmap_is_Some.
    + rewrite map_size_delete. destruct (m !! k); simpl; lia.
  - unfold dictUnlink. destruct (dictGenericDelete_spec d m k Hm) as (d' & -> & Hm').
    exists d'. split_and!; [done..|]. rewrite map_size_delete. destruct (m !! k); simpl; lia.
  - destruct (dictFind_spec d m k Hm) as (d' & -> & Hm'). exists d'. split_and!; [done..|lia].
  - destruct (dictRehash_spec d n (m_state _ _ Hm)) as (d' & more & -> & Hst & He & _).
    { by apply (models_total_bounds d m). }
    exists d'. split_and!; [done|by eapply models_perm|lia].
  - destruct (dictResize_spec c d m Hm) as (d' & ok & -> & Hm'). exists d'. split_and!; [done..|lia].
Qed.

Lemma dict_run_sim os : forall d (m : gmap K V), models d m ->
  Z.of_nat (size m) + Z.of_nat (length os) < max_entries ->
  exists d', dict_run d os = Some (d', (gmap_run m os).2) /\ models d' (gmap_run m os).1.
Proof.
  induction os as [|o os IH]; intros d m Hm Hsz; simpl; [by exists d|]. simpl in Hsz.
  destruct (dict_step_sim d m o Hm ltac:(lia)) as (d1 & -> & Hm1 & Hsz1). cbn [mbind option_bind]. simpl.
  destruct (IH d1 (gmap_step m o.2).1 Hm1 ltac:(lia)) as (d2 & -> & Hm2). by exists d2.
Qed.

Lemma dictCreate_models : models dictCreate ∅.
Proof. split; [by apply state_empty|by rewrite map_to_list_empty|]. rewrite map_size_empty. done. Qed.

(** C4: the incrementally rehashed dictionary refines a finite map: any sequence
    of fewer than 2^61 add, replace, delete, unlink, find, rehash and resize
    commands from an empty dictionary, whatever the resize policy at each
    command and whatever the hash function, completes with every bucket access
    in range and every assertion satisfied, and answers as the map would. *)
Theorem dict_refines_gmap os : Z.of_nat (length os) < max_entries ->
  exists d', dict_run dictCreate os = Some (d', (gmap_run ∅ os).2) /\ models d' (gmap_run ∅ os).1.
Proof.
  intros Hlen. apply dict_run_sim; [apply dictCreate_models|]. rewrite map_size_empty. lia.
Qed.

(** ** Completion of a rehashing *)

Lemma rehash_completes_from (n k : nat) : forall d (m : gmap K V), (0 < n)%nat -> models d m ->
  (dictIsRehashing d = true -> ht_size (ht0 d) - rehashidx d <= Z.of_nat k) ->
  exists d', Nat.iter (S k) (fun o => d0 ← o; r ← dictRehash d0 (Z.of_nat n); Some r.1) (Some d) = Some d' /\
    dictIsRehashing d' = false /\ models d' m.
Proof.
  induction k as [|k IH]; intros d m Hn Hm Hk.
  all: destruct (dictRehash_spec d (Z.of_nat n) (m_state _ _ Hm)) as (d1 & more & Hr & Hst & He & _ & _ & Hmore);
    [by apply (models_total_bounds d m)|].
  all: pose proof (models_perm _ _ _ Hm Hst He) as Hm1.
  - simpl. rewrite Hr. cbn [mbind option_bind]. exists d1. split_and!; [done| |done].
    destruct more; [|by apply is_rehashing_idle].
    destruct Hmore as ([_ _ Hi _] & Hsz & Hlt). exfalso.
    destruct (dictIsRehashing d) eqn:Er; [specialize (Hk eq_refl); lia|].
    unfold dictRehash in Hr. rewrite Er in Hr. done.
  - rewrite Nat.iter_succ_r. cbn [mbind option_bind]. rewrite Hr. cbn [mbind option_bind fst].
    destruct (IH d1 m Hn Hm1) as (d' & Hd' & Hr' & Hm').
    { intros Hb. destruct more; [|rewrite is_rehashing_idle in Hb; done].
      destruct Hmore as (_ & Hsz & Hlt).
      destruct (dictIsRehashing d) eqn:Er; [specialize (Hk eq_refl); lia|].
      unfold dictRehash in Hr. rewrite Er in Hr. done. }
    exists d'. done.
Qed.

(** Incremental rehashing terminates: calling [dictRehash] with any positive
    number of steps at most [size + 1] times (the size of the old table) ends
    the rehashing, and the dictionary still holds the same map. *)
Theorem rehash_completes d (m : gmap K V) (n : nat) : (0 < n)%nat -> models d m ->
  exists k d', (k <= S (length (ht_table (ht0 d))))%nat /\
    Nat.iter k (fun o => d0 ← o; r ← dictRehash d0 (Z.of_nat n); Some r.1) (Some d) = Some d' /\
    dictIsRehashing d' = false /\ models d' m.
Proof.
  intros Hn Hm.
  destruct (rehash_completes_from n (length (ht_table (ht0 d))) d m Hn Hm) as (d' & Hd & Hr & Hm').
  - intros Hb. destruct (m_state _ _ Hm) as [? ? Hi|? ? Hi|[H0 _ Hi _]];
      [by rewrite is_rehashing_idle in Hb..|]. rewrite (ok_len _ H0). lia.
  - by exists (S (length (ht_table (ht0 d)))), d'.
Qed.
End dict.

Arguments dictht : clear implicits.
Arguments dict : clear implicits.
Arguments dict_op : clear implicits.
Arguments dict_reply : clear implicits.

(** ** Witnesses: integer keys hashed to themselves *)

Definition id_hash : Z -> Z := fun k => k.

Definition sample_ops : list (bool * dict_op Z Z) :=
  [(true, DAdd 1 10); (true, DAdd 5 50); (true, DAdd 9 90); (true, DReplace 5 51); (true, DAdd 1 11);
   (true, DAdd 13 130); (true, DAdd 17 170); (false, DFind 17); (true, DDelete 1); (true, DRehash 1);
   (true, DFind 1)].

Lemma dict_refines_gmap_witness : exists d',
  dict_run id_hash 0 dictCreate sample_ops =
    Some (d', [RFlag true; RFlag true; RFlag true; RFlag false; RFlag false; RFlag true;
               RFlag true; REntry (Some (17, 170)); RFlag true; RNone; REntry None]).
Proof.
  destruct (dict_refines_gmap id_hash 0 sample_ops) as (d' & Hd & _); [simpl; unfold max_entries; lia|].
  exists d'. rewrite Hd. reflexivity.
Defined.

Lemma sample_dict_models : exists d, models id_hash d ({[ 1 := 10 ]} : gmap Z Z).
Proof.
  destruct (dictAdd_spec id_hash 0 true dictCreate (∅ : gmap Z Z) 1 10) as (d & _ & Hm);
    [apply dictCreate_models|rewrite map_size_empty; unfold max_entries; lia|].
  exists d. exact Hm.
Qed.

Lemma dictEmpty_correct_witness : exists d, (dictEmpty d).2 ≡ₚ [(1, 10)].
Proof.
  destruct sample_dict_models as [d Hd]. exists d.
  destruct (dictEmpty_correct id_hash d {[ 1 := 10 ]} Hd) as [_ ->].
  by rewrite map_to_list_singleton.
Defined.

Lemma rehash_completes_witness : exists d k d', models id_hash d ({[ 1 := 10 ]} : gmap Z Z) /\
  (k <= S (length (ht_table (ht0 d))))%nat /\
  Nat.iter k (fun o => d0 ← o; r ← dictRehash id_hash d0 1; Some r.1) (Some d) = Some d'.
Proof.
  destruct sample_dict_models as [d Hd]. exists d.
  destruct (rehash_completes id_hash d _ 1 ltac:(lia) Hd) as (k & d' & Hk & Hi & _).
  by exists k, d'.
Defined.
