(* ===== verification/DictScan.v ===== *)
(** * The stateless cursor iteration (src/redis-5.0.7/src/dict.c, dictScan)

    [dictScan] visits the buckets by incrementing the bit-reversed cursor.  Read
    in reversed order, a call with a table of [2^k] buckets emits the interval of
    hashes that contains the cursor at granularity [2^(64-k)] and moves the cursor
    to its end, so the guarantee of SCAN survives any resizing between calls. *)

From S2P Require Import Prelude Dict.
From coqutil Require Import Z.bitblast.
From stdpp Require Import gmap.
Local Open Scope Z_scope.

(** ** Code *)

(** [while ((s >>= 1) > 0) { mask ^= (mask << s);
     v = ((v >> s) & mask) | ((v << s) & ~mask); }] *)
Fixpoint rev_loop (fuel : nat) (s mask v : Z) : Z :=
  match fuel with
  | O => v
  | S fuel =>
      let s := Z.shiftr s 1 in
      if s >? 0 then
        let mask := Z.lxor mask (u64 (Z.shiftl mask s)) in
        rev_loop fuel s mask
          (Z.lor (Z.land (Z.shiftr v s) mask) (Z.land (u64 (Z.shiftl v s)) (u64 (Z.lnot mask))))
      else v
  end.

(** Seven rounds halve the 64-bit word size down to zero. *)
Definition rev (v : Z) : Z := rev_loop 7 64 (u64 (Z.lnot 0)) v.

(** [v |= ~m; v = rev(v); v++; v = rev(v);] *)
Definition next_cursor (m v : Z) : Z :=
  rev (u64 (rev (Z.lor v (u64 (Z.lnot m))) + 1)).

Section scan_code.
Context {K V : Type}.

(** The [do ... while (v & (m0 ^ m1))] loop over the expansions in the larger
    table. *)
Fixpoint scan_loop (fuel : nat) (t1 : dictht K V) (m0 m1 v : Z) : option (Z * list (K * V)) :=
  match fuel with
  | O => None
  | S fuel =>
      de ← bucket t1 (Z.land v m1);
      let v := next_cursor m1 v in
      if Z.land v (Z.lxor m0 m1) =? 0 then Some (v, de)
      else r ← scan_loop fuel t1 m0 m1 v; Some (r.1, de ++ r.2)
  end.

(** Returns the new cursor and the entries passed to [fn], in order. *)
Definition dictScan (d : dict K V) (v : Z) : option (Z * list (K * V)) :=
  if dictSize d =? 0 then Some (0, [])
  else if negb (dictIsRehashing d) then
    let t0 := ht0 d in
    let m0 := ht_sizemask t0 in
    de ← bucket t0 (Z.land v m0);
    Some (next_cursor m0 v, de)
  else
    let swap := ht_size (ht0 d) >? ht_size (ht1 d) in
    let t0 := if swap then ht1 d else ht0 d in
    let t1 := if swap then ht0 d else ht1 d in
    let m0 := ht_sizemask t0 in
    let m1 := ht_sizemask t1 in
    de ← bucket t0 (Z.land v m0);
    r ← scan_loop (length (ht_table t1)) t1 m0 m1 v;
    Some (r.1, de ++ r.2).
End scan_code.

(** ** Bit reversal *)

Definition stage (s mask v : Z) : Z :=
  Z.lor (Z.land (Z.shiftr v s) mask) (Z.land (u64 (Z.shiftl v s)) (u64 (Z.lnot mask))).

Lemma rev_stages v : rev v =
  stage 1 0x5555555555555555 (stage 2 0x3333333333333333 (stage 4 0x0f0f0f0f0f0f0f0f
    (stage 8 0x00ff00ff00ff00ff (stage 16 0x0000ffff0000ffff (stage 32 0x00000000ffffffff v))))).
Proof. reflexivity. Qed.

(** Which bit a stage moves to position [i]. *)
Definition partner (s mask i : Z) : Z := if Z.testbit mask i then i + s else i - s.

Lemma stage_bits s mask v i : 0 <= i < 64 ->
  Z.testbit (stage s mask v) i = Z.testbit v (partner s mask i).
Proof.
  intros Hi. unfold stage, partner, uwrap.
  rewrite Z.lor_spec, !Z.land_spec, Z.shiftr_spec, !Z.testbit_mod_pow2, Z.shiftl_spec, Z.lnot_spec by lia.
  rewrite (proj2 (Z.ltb_lt i 64)) by lia.
  destruct (Z.testbit mask i); simpl; by rewrite ?andb_true_r, ?andb_false_r, ?orb_false_r.
Qed.

Definition partners (i : Z) : list Z :=
  let i1 := partner 1 0x5555555555555555 i in
  let i2 := partner 2 0x3333333333333333 i1 in
  let i3 := partner 4 0x0f0f0f0f0f0f0f0f i2 in
  let i4 := partner 8 0x00ff00ff00ff00ff i3 in
  let i5 := partner 16 0x0000ffff0000ffff i4 in
  [i1; i2; i3; i4; i5; partner 32 0x00000000ffffffff i5].

Lemma partners_spec i : 0 <= i < 64 ->
  Forall (fun j => 0 <= j < 64) (partners i) /\ List.last (partners i) 0 = 63 - i.
Proof.
  intros Hi. apply (bool_decide_eq_true_1 (Forall (fun j => 0 <= j < 64) (partners i) /\
    List.last (partners i) 0 = 63 - i)). revert i Hi.
  apply (all_below_spec 64 (fun i => bool_decide (Forall (fun j => 0 <= j < 64) (partners i) /\
    List.last (partners i) 0 = 63 - i))). vm_compute. reflexivity.
Qed.

(** [rev] reverses the 64 bits. *)
Lemma rev_bits v i : 0 <= i < 64 -> Z.testbit (rev v) i = Z.testbit v (63 - i).
Proof.
  intros Hi. destruct (partners_spec i Hi) as [Hall <-]. unfold partners in *.
  apply Forall_cons in Hall as [H1 Hall]. apply Forall_cons in Hall as [H2 Hall].
  apply Forall_cons in Hall as [H3 Hall]. apply Forall_cons in Hall as [H4 Hall].
  apply Forall_cons in Hall as [H5 _]. simpl List.last.
  rewrite rev_stages. by rewrite !stage_bits.
Qed.

Lemma bits_range v : 0 <= v -> (forall i, 64 <= i -> Z.testbit v i = false) -> v < 2 ^ 64.
Proof.
  intros Hv Hb. assert (v = v mod 2 ^ 64) as ->; [|apply Z.mod_pos_bound; lia].
  apply Z.bits_inj'. intros i Hi. rewrite Z.testbit_mod_pow2 by lia.
  destruct (Z.ltb_spec i 64); [done|]. by rewrite Hb by lia.
Qed.

Lemma high_bits v i : 0 <= v < 2 ^ 64 -> 64 <= i -> Z.testbit v i = false.
Proof.
  intros Hv Hi. rewrite <- (Z.mod_small v (2 ^ 64)) by done. apply Z.mod_pow2_bits_high. lia.
Qed.

Lemma stage_range s mask v : 0 <= s -> 0 <= mask < 2 ^ 64 -> 0 <= v -> 0 <= stage s mask v < 2 ^ 64.
Proof.
  intros Hs Hm Hv. unfold stage.
  assert (0 <= Z.lor (Z.land (Z.shiftr v s) mask) (Z.land (u64 (Z.shiftl v s)) (u64 (Z.lnot mask)))) as Hp.
  { apply Z.lor_nonneg. split; apply Z.land_nonneg; [right; lia|left; apply uwrap_range; lia]. }
  split; [done|]. apply bits_range; [done|]. intros i Hi.
  rewrite Z.lor_spec, !Z.land_spec, (high_bits mask) by (done || lia).
  unfold uwrap. rewrite !Z.mod_pow2_bits_high by lia. by rewrite !andb_false_r.
Qed.

Lemma rev_range v : 0 <= v -> 0 <= rev v < 2 ^ 64.
Proof.
  intros Hv. rewrite rev_stages.
  apply stage_range; [lia|lia|]. do 5 (apply stage_range; [lia|lia|]). done.
Qed.

Lemma eq_by_bits a b : 0 <= a < 2 ^ 64 -> 0 <= b < 2 ^ 64 ->
  (forall i, 0 <= i < 64 -> Z.testbit a i = Z.testbit b i) -> a = b.
Proof.
  intros Ha Hb H. apply Z.bits_inj'. intros i Hi. destruct (decide (i < 64)); [auto with lia|].
  by rewrite !high_bits by (done || lia).
Qed.

Lemma rev_involutive v : 0 <= v < 2 ^ 64 -> rev (rev v) = v.
Proof.
  intros Hv. pose proof (rev_range v ltac:(lia)). apply eq_by_bits; [apply rev_range; lia|done|].
  intros i Hi. rewrite !rev_bits by lia. f_equal. lia.
Qed.

(** ** The cursor in reversed order

    With a mask of [k] bits the cursor advances in steps of [2^(64-k)]. *)

Lemma mask_bits k i : 0 <= k -> 0 <= i -> Z.testbit (2 ^ k - 1) i = (i <? k).
Proof.
  intros Hk Hi. replace (2 ^ k - 1) with (Z.ones k) by (rewrite Z.ones_equiv; lia).
  destruct (Z.ltb_spec i k); [by apply Z.ones_spec_low|by apply Z.ones_spec_high].
Qed.

Lemma lor_ones r n : 0 <= n -> Z.lor r (Z.ones n) = r / 2 ^ n * 2 ^ n + (2 ^ n - 1).
Proof.
  intros Hn. rewrite <- Z.shiftr_div_pow2, <- Z.shiftl_mul_pow2 by done.
  replace (2 ^ n - 1) with (Z.ones n) by (rewrite Z.ones_equiv; lia).
  rewrite <- Z.or_to_plus.
  - apply Z.bits_inj'. intros i Hi. rewrite !Z.lor_spec, Z.shiftl_spec by done.
    destruct (Z.ltb_spec i n).
    + by rewrite Z.ones_spec_low, !orb_true_r by lia.
    + rewrite Z.shiftr_spec by lia. by replace (i - n + n) with i by lia.
  - apply Z.bits_inj'. intros i Hi. rewrite Z.land_spec, Z.shiftl_spec, Z.bits_0 by done.
    destruct (Z.ltb_spec i n).
    + by rewrite Z.testbit_neg_r by lia.
    + by rewrite Z.ones_spec_high, andb_false_r by lia.
Qed.

Lemma rev_fill v k : 0 <= v < 2 ^ 64 -> 0 <= k <= 64 ->
  rev (Z.lor v (u64 (Z.lnot (2 ^ k - 1)))) = Z.lor (rev v) (Z.ones (64 - k)).
Proof.
  intros Hv Hk. pose proof (rev_range v ltac:(lia)).
  pose proof (uwrap_range 64 (Z.lnot (2 ^ k - 1)) ltac:(lia)).
  assert (0 <= Z.lor (rev v) (Z.ones (64 - k))) by
    (apply Z.lor_nonneg; split; [lia|]; rewrite Z.ones_equiv; lia).
  apply eq_by_bits; [apply rev_range, Z.lor_nonneg; lia| |].
  - split; [done|]. apply bits_range; [done|]. intros i Hi.
    by rewrite Z.lor_spec, high_bits, Z.ones_spec_high by lia.
  - intros i Hi. rewrite rev_bits, !Z.lor_spec, rev_bits by done. f_equal. unfold uwrap.
    rewrite Z.testbit_mod_pow2, Z.lnot_spec, mask_bits by lia.
    rewrite (proj2 (Z.ltb_lt (63 - i) 64)) by lia.
    destruct (Z.ltb_spec i (64 - k)), (Z.ltb_spec (63 - i) k); try lia.
    + by rewrite Z.ones_spec_low by lia.
    + by rewrite Z.ones_spec_high by lia.
Qed.

(** The end of the interval of size [2^n] that contains [r]. *)
Definition block_end (n r : Z) : Z := (r / 2 ^ n + 1) * 2 ^ n.

Lemma next_cursor_range m v : 0 <= next_cursor m v < 2 ^ 64.
Proof. apply rev_range. apply uwrap_range. lia. Qed.

Lemma rev_next_cursor v k : 0 <= v < 2 ^ 64 -> 0 <= k <= 64 ->
  rev (next_cursor (2 ^ k - 1) v) = u64 (block_end (64 - k) (rev v)).
Proof.
  intros Hv Hk. unfold next_cursor. rewrite rev_involutive by (apply uwrap_range; lia).
  rewrite rev_fill, lor_ones by lia. f_equal. unfold block_end. lia.
Qed.

(** Two hashes select the same bucket when their reversals are in the same block. *)
Lemma same_bucket v h k : 0 <= v < 2 ^ 64 -> 0 <= h < 2 ^ 64 -> 0 <= k <= 64 ->
  Z.land h (2 ^ k - 1) = Z.land v (2 ^ k - 1) <-> rev h / 2 ^ (64 - k) = rev v / 2 ^ (64 - k).
Proof.
  intros Hv Hh Hk. rewrite <- !Z.shiftr_div_pow2 by lia. split; intros E.
  - apply Z.bits_inj'. intros i Hi. rewrite !Z.shiftr_spec by done.
    destruct (decide (i < k)).
    + rewrite !rev_bits by lia. set (j := 63 - (i + (64 - k))).
      assert (Z.testbit (Z.land h (2 ^ k - 1)) j = Z.testbit (Z.land v (2 ^ k - 1)) j) as Hj by (by rewrite E).
      rewrite !Z.land_spec, mask_bits in Hj by lia.
      rewrite (proj2 (Z.ltb_lt j k)) in Hj by lia. by rewrite !andb_true_r in Hj.
    + by rewrite !high_bits by (apply rev_range || idtac; lia).
  - apply Z.bits_inj'. intros i Hi. rewrite !Z.land_spec, mask_bits by lia.
    destruct (Z.ltb_spec i k); [|by rewrite !andb_false_r]. rewrite !andb_true_r.
    assert (Z.testbit (Z.shiftr (rev h) (64 - k)) (k - 1 - i) =
            Z.testbit (Z.shiftr (rev v) (64 - k)) (k - 1 - i)) as Hj by (by rewrite E).
    rewrite !Z.shiftr_spec, !rev_bits in Hj by lia.
    by replace (63 - (k - 1 - i + (64 - k))) with i in Hj by lia.
Qed.

(** The test [v & (m0 ^ m1)] asks whether the block of the smaller table ends. *)
Lemma block_test v k0 k1 : 0 <= v < 2 ^ 64 -> 0 <= k0 <= k1 -> k1 <= 64 ->
  rev v mod 2 ^ (64 - k1) = 0 ->
  Z.land v (Z.lxor (2 ^ k0 - 1) (2 ^ k1 - 1)) = 0 <-> rev v mod 2 ^ (64 - k0) = 0.
Proof.
  intros Hv Hk Hk1 Hal. split; intros E; apply Z.bits_inj'; intros i Hi; rewrite Z.bits_0.
  - rewrite Z.testbit_mod_pow2 by lia. destruct (Z.ltb_spec i (64 - k0)); [|done]. simpl.
    destruct (decide (i < 64 - k1)).
    + assert (Z.testbit (rev v mod 2 ^ (64 - k1)) i = false) as Hb by (by rewrite Hal, Z.bits_0).
      rewrite Z.testbit_mod_pow2 in Hb by lia. by rewrite (proj2 (Z.ltb_lt i (64 - k1))) in Hb by lia.
    + rewrite rev_bits by lia.
      assert (Z.testbit (Z.land v (Z.lxor (2 ^ k0 - 1) (2 ^ k1 - 1))) (63 - i) = false) as Hb
        by (by rewrite E, Z.bits_0).
      rewrite Z.land_spec, Z.lxor_spec, !mask_bits in Hb by lia.
      rewrite (proj2 (Z.ltb_ge (63 - i) k0)), (proj2 (Z.ltb_lt (63 - i) k1)) in Hb by lia.
      by rewrite andb_true_r in Hb.
  - rewrite Z.land_spec, Z.lxor_spec, !mask_bits by lia.
    destruct (Z.ltb_spec i k0), (Z.ltb_spec i k1); simpl; rewrite ?andb_false_r; try done; [lia|].
    rewrite andb_true_r. replace i with (63 - (63 - i)) by lia. rewrite <- rev_bits by lia.
    assert (Z.testbit (rev v mod 2 ^ (64 - k0)) (63 - i) = false) as Hb by (by rewrite E, Z.bits_0).
    rewrite Z.testbit_mod_pow2 in Hb by lia. by rewrite (proj2 (Z.ltb_lt (63 - i) (64 - k0))) in Hb by lia.
Qed.

(** Blocks: arithmetic of nested intervals. *)
Lemma block_end_bounds n r : 0 <= n -> r < block_end n r <= r + 2 ^ n.
Proof.
  intros Hn. unfold block_end. pose proof (Z.mod_pos_bound r (2 ^ n) ltac:(lia)).
  pose proof (Z.div_mod r (2 ^ n) ltac:(lia)). lia.
Qed.

Lemma block_end_aligned n r : 0 <= n -> block_end n r mod 2 ^ n = 0.
Proof. intros. apply Z_mod_mult. Qed.

Lemma block_end_max n r : 0 <= n <= 64 -> 0 <= r < 2 ^ 64 -> block_end n r <= 2 ^ 64.
Proof.
  intros Hn Hr. unfold block_end. replace 64 with ((64 - n) + n) in * by lia.
  rewrite Z.pow_add_r in * by lia.
  assert (r / 2 ^ n < 2 ^ (64 - n)) by (apply Z.div_lt_upper_bound; lia). nia.
Qed.

Lemma block_end_nested a b r : 0 <= a <= b -> block_end a r <= block_end b r.
Proof.
  intros H. unfold block_end. replace b with ((b - a) + a) by lia. rewrite Z.pow_add_r by lia.
  rewrite (Z.mul_comm (2 ^ (b - a))), <- Z.div_div by lia. set (q := r / 2 ^ a).
  pose proof (Z.mod_pos_bound q (2 ^ (b - a)) ltac:(lia)).
  pose proof (Z.div_mod q (2 ^ (b - a)) ltac:(lia)).
  rewrite (Z.mul_comm (2 ^ a)), Z.mul_assoc. apply Z.mul_le_mono_nonneg_r; lia.
Qed.

Lemma block_end_same b r r' : 0 <= b -> r <= r' < block_end b r -> block_end b r' = block_end b r.
Proof.
  intros Hb Hr. unfold block_end in *. do 2 f_equal.
  pose proof (Z.mod_pos_bound r (2 ^ b) ltac:(lia)). pose proof (Z.div_mod r (2 ^ b) ltac:(lia)).
  symmetry. apply Z.div_unique with (r' - r / 2 ^ b * 2 ^ b); lia.
Qed.

Lemma block_end_first b r e : 0 <= b -> r < e <= block_end b r -> e mod 2 ^ b = 0 -> e = block_end b r.
Proof.
  intros Hb He Hm. unfold block_end in *. pose proof (Z.mod_pos_bound r (2 ^ b) ltac:(lia)).
  pose proof (Z.div_mod r (2 ^ b) ltac:(lia)). pose proof (Z.div_mod e (2 ^ b) ltac:(lia)).
  rewrite Hm, Z.add_0_r in *. set (B := 2 ^ b) in *. set (q := r / B) in *. set (p := e / B) in *.
  assert (0 < B) by lia. assert (q < p) by nia. assert (p <= q + 1) by nia.
  assert (p = q + 1) as Hp by lia. rewrite Hp in *. lia.
Qed.

Lemma aligned_small n x : 0 <= n <= 64 -> 0 <= x <= 2 ^ 64 -> u64 x mod 2 ^ n = x mod 2 ^ n.
Proof.
  intros Hn Hx. unfold uwrap. destruct (decide (x = 2 ^ 64)) as [->|]; [|by rewrite (Z.mod_small x (2 ^ 64)) by lia].
  rewrite Z_mod_same_full, Z.mod_0_l by lia. replace 64 with ((64 - n) + n) by lia.
  rewrite Z.pow_add_r by lia. by rewrite Z_mod_mult.
Qed.

(** ** The entries a call visits *)

Lemma filter_disjoint {A} (P Q R : A -> Prop) `{!forall x, Decision (P x), !forall x, Decision (Q x),
    !forall x, Decision (R x)} (l : list A) :
  (forall x, x ∈ l -> R x <-> P x \/ Q x) -> (forall x, x ∈ l -> P x -> ~ Q x) ->
  filter R l ≡ₚ filter P l ++ filter Q l.
Proof.
  induction l as [|x l IH]; intros HR HD; [done|].
  specialize (IH ltac:(set_solver) ltac:(set_solver)).
  pose proof (HR x ltac:(set_solver)). pose proof (HD x ltac:(set_solver)).
  rewrite !filter_cons. repeat case_decide; try tauto; rewrite IH; solve_Permutation.
Qed.

Section scan.
Context {K V : Type} `{Countable K} (hashFunction : K -> Z).
Implicit Types (h : dictht K V) (d : dict K V).

(** The position of an entry in the order of the scan. *)
Definition pos (e : K * V) : Z := rev (dictHashKey hashFunction e.1).

Lemma hash_range (k : K) : 0 <= dictHashKey hashFunction k < 2 ^ 64.
Proof. apply uwrap_range. lia. Qed.

Lemma pos_range e : 0 <= pos e < 2 ^ 64.
Proof. apply rev_range. apply hash_range. Qed.

(** A bucket is the block of entries around the cursor. *)
Lemma bucket_filter h k v : ht_ok hashFunction h -> ht_size h = 2 ^ k -> 0 <= k <= 64 -> 0 <= v < 2 ^ 64 ->
  exists b, bucket h (Z.land v (ht_sizemask h)) = Some b /\
    b = filter (fun e => pos e / 2 ^ (64 - k) = rev v / 2 ^ (64 - k)) (entries h).
Proof.
  intros Hok Hk Hk64 Hv. destruct (ok_bucket hashFunction h v Hok) as (b & Hb & Hr & Hl).
  exists b. split; [done|]. pose proof (ok_placed _ _ Hok) as Hp.
  rewrite (ok_mask _ _ Hok), Hk in *. unfold entries.
  revert Hl Hp. set (i := Z.to_nat _). intros Hl Hp.
  assert (forall e j, Z.land (dictHashKey hashFunction e.1) (2 ^ k - 1) = Z.of_nat j ->
    pos e / 2 ^ (64 - k) = rev v / 2 ^ (64 - k) <-> j = i) as Hsel.
  { intros e j He. unfold pos. rewrite <- same_bucket by (done || apply hash_range). lia. }
  rewrite <- (take_drop_middle _ _ _ Hl), concat_app, filter_app. simpl. rewrite filter_app.
  assert (forall tbl, (forall c, c ∈ tbl -> exists j, j <> i /\ ht_table h !! j = Some c) ->
     filter (fun e => pos e / 2 ^ (64 - k) = rev v / 2 ^ (64 - k)) (concat tbl) = []) as Hnil.
  { induction tbl as [|c tbl IH]; intros Hc; [done|]. simpl. rewrite filter_app, IH by set_solver.
    rewrite app_nil_r. destruct (Hc c ltac:(set_solver)) as (j & Hj & Hc').
    apply filter_none. specialize (Hp _ _ Hc'). rewrite Forall_forall in Hp |- *.
    intros e He Hx. apply Hj. by apply (Hsel e j (Hp e He)). }
  rewrite (Hnil (take i _)), (Hnil (drop (S i) _)), app_nil_r; simpl.
  - symmetry. apply filter_all. specialize (Hp _ _ Hl). rewrite Forall_forall in Hp |- *.
    intros e He. by apply (Hsel e i (Hp e He)).
  - intros c Hc. apply list_elem_of_lookup in Hc as [j Hj]. rewrite lookup_drop in Hj.
    exists (S i + j)%nat. split; [lia|done].
  - intros c Hc. apply list_elem_of_lookup in Hc as [j Hj]. apply lookup_take_Some in Hj as [Hj ?].
    exists j. split; [lia|done].
Qed.

(** The blocks of the larger table up to the end of the block of the smaller one. *)
Lemma scan_loop_spec t1 k0 k1 n : ht_ok hashFunction t1 -> ht_size t1 = 2 ^ k1 ->
  0 <= k0 <= k1 -> k1 <= 64 -> forall v, 0 <= v < 2 ^ 64 ->
  block_end (64 - k0) (rev v) - rev v / 2 ^ (64 - k1) * 2 ^ (64 - k1) <= Z.of_nat n * 2 ^ (64 - k1) ->
  exists v' es, scan_loop n t1 (2 ^ k0 - 1) (2 ^ k1 - 1) v = Some (v', es) /\
    0 <= v' < 2 ^ 64 /\ rev v' = u64 (block_end (64 - k0) (rev v)) /\
    es ≡ₚ filter (fun e => rev v / 2 ^ (64 - k1) <= pos e / 2 ^ (64 - k1) /\
                          pos e < block_end (64 - k0) (rev v)) (entries t1).
Proof.
  intros Hok Hs Hk Hk1. set (A := 64 - k1). set (B := 64 - k0).
  induction n as [|n IH]; intros v Hv Hn.
  { pose proof (block_end_bounds B (rev v) ltac:(lia)).
    pose proof (Z.mul_div_le (rev v) (2 ^ A) ltac:(lia)). lia. }
  pose proof (rev_range v ltac:(lia)) as Hr.
  destruct (bucket_filter t1 k1 v Hok Hs ltac:(lia) Hv) as (b & Hb & Hbe).
  rewrite (ok_mask _ _ Hok), Hs in Hb. cbn [scan_loop]. rewrite Hb. cbn [mbind option_bind].
  set (v1 := next_cursor (2 ^ k1 - 1) v). pose proof (next_cursor_range (2 ^ k1 - 1) v) as Hv1.
  fold v1 in Hv1. pose proof (rev_next_cursor v k1 Hv ltac:(lia)) as Hrv1. fold v1 A in Hrv1.
  set (E := block_end A (rev v)) in *. set (F := block_end B (rev v)) in *.
  pose proof (block_end_bounds A (rev v) ltac:(lia)) as HE. fold E in HE.
  pose proof (block_end_nested A B (rev v) ltac:(lia)) as HEF. fold E F in HEF.
  pose proof (block_end_max B (rev v) ltac:(lia) Hr) as HF. fold F in HF.
  assert (rev v1 mod 2 ^ B = E mod 2 ^ B) as HmodB by (rewrite Hrv1; apply aligned_small; lia).
  assert (rev v1 mod 2 ^ A = 0) as HmodA.
  { rewrite Hrv1, aligned_small by lia. apply block_end_aligned. lia. }
  assert (forall e, pos e / 2 ^ A = rev v / 2 ^ A <-> rev v / 2 ^ A <= pos e / 2 ^ A /\ pos e < E) as Hone.
  { intros e. unfold E, block_end. pose proof (Z.mod_pos_bound (pos e) (2 ^ A) ltac:(lia)).
    pose proof (Z.div_mod (pos e) (2 ^ A) ltac:(lia)). nia. }
  pose proof (block_test v1 k0 k1 Hv1 Hk Hk1 HmodA) as Htest. fold B in Htest.
  destruct (Z.eqb_spec (Z.land v1 (Z.lxor (2 ^ k0 - 1) (2 ^ k1 - 1))) 0) as [E0|E0].
  - apply Htest in E0. rewrite HmodB in E0.
    pose proof (block_end_first B (rev v) E ltac:(lia) ltac:(lia) E0) as HEeq. fold F in HEeq.
    exists v1, b. split_and!; [done|lia|lia|congruence|]. rewrite Hbe, <- HEeq.
    erewrite list_filter_iff; [done|]. done.
  - assert (E < F) as HltEF.
    { destruct (decide (E = F)) as [Heq|]; [|lia]. exfalso. apply E0, Htest. rewrite HmodB, Heq.
      apply block_end_aligned. lia. }
    rewrite uwrap_small in Hrv1 by lia.
    assert (block_end B (rev v1) = F) as HF1 by (rewrite Hrv1; apply block_end_same; lia).
    assert (E / 2 ^ A = rev v / 2 ^ A + 1) as HEA by (apply Z.div_mul; lia).
    destruct (IH v1 Hv1) as (v' & es & -> & Hv' & Hrv' & Hes).
    { rewrite HF1, Hrv1, HEA. lia. }
    rewrite HF1, Hrv1, HEA in *. cbn [mbind option_bind]. exists v', (b ++ es).
    split_and!; [done|lia|lia|done|]. rewrite Hes, Hbe. symmetry. apply filter_disjoint.
    + intros e _. fold A. rewrite (Hone e). split; [|intros [?|?]; lia]. intros [? ?].
      destruct (decide (pos e < E)); [by left|right]. split; [|done].
      rewrite <- HEA. apply Z.div_le_mono; lia.
    + intros e _ H1 [H2 _]. fold A in H1. lia.
Qed.

(** The number of bits of the cursor a call consumes: the size of the smaller
    allocated table. *)
Definition scan_bits d (k : Z) : Prop :=
  if dictIsRehashing d then 2 ^ k = Z.min (ht_size (ht0 d)) (ht_size (ht1 d))
  else ht_size (ht0 d) = 2 ^ k.

Definition in_block (k v : Z) (e : K * V) : Prop := rev v <= pos e < block_end (64 - k) (rev v).

#[local] Instance in_block_dec k v e : Decision (in_block k v e).
Proof. unfold in_block. apply _. Defined.

(** [es] holds the entries of [src] in the block after the cursor: all of them,
    nothing that is not in [src], and exactly them when the cursor is at the start
    of a block (it is not when it comes from a larger table). *)
Record emits (k v : Z) (src es : list (K * V)) : Prop := {
  em_sound : forall e, e ∈ es -> e ∈ src;
  em_complete : forall e, e ∈ src -> in_block k v e -> e ∈ es;
  em_exact : rev v mod 2 ^ (64 - k) = 0 -> es ≡ₚ filter (in_block k v) src;
}.

Lemma emits_app k v src1 src2 es1 es2 : emits k v src1 es1 -> emits k v src2 es2 ->
  emits k v (src1 ++ src2) (es1 ++ es2).
Proof.
  intros [S1 C1 E1] [S2 C2 E2]. split.
  - set_solver.
  - set_solver.
  - intros Ha. by rewrite filter_app, E1, E2.
Qed.

#[local] Instance emits_proper k v : Proper ((≡ₚ) ==> (≡ₚ) ==> iff) (emits k v).
Proof.
  intros s s' Hs e e' He. split; intros [S C E]; split.
  1,4: intros x; rewrite <- ?Hs, <- ?He || rewrite ?Hs, ?He; by apply S.
  1,3: intros x; rewrite <- ?Hs, <- ?He || rewrite ?Hs, ?He; by apply C.
  - intros Ha. rewrite <- He, (E Ha). by rewrite Hs.
  - intros Ha. rewrite He, (E Ha). by rewrite Hs.
Qed.

Lemma emits_bucket k v src : 0 <= k <= 63 ->
  emits k v src (filter (fun e => pos e / 2 ^ (64 - k) = rev v / 2 ^ (64 - k)) src).
Proof.
  intros Hk. set (B := 64 - k).
  assert (forall e, in_block k v e -> pos e / 2 ^ B = rev v / 2 ^ B) as Hin.
  { intros e [H1 H2]. pose proof (block_end_same B (rev v) (pos e) ltac:(lia) ltac:(unfold B; lia)) as He.
    unfold block_end in He. nia. }
  split.
  - intros e He. by apply list_elem_of_filter in He as [_ He].
  - intros e He Hb. apply list_elem_of_filter. auto.
  - intros Ha. erewrite list_filter_iff; [done|]. intros e. split; [|by apply Hin].
    intros He. fold B in He, Ha. pose proof (Z.div_mod (rev v) (2 ^ B) ltac:(lia)).
    pose proof (Z.div_mod (pos e) (2 ^ B) ltac:(lia)). pose proof (Z.mod_pos_bound (pos e) (2 ^ B) ltac:(lia)).
    unfold in_block, block_end. fold B. rewrite <- He in *. lia.
Qed.

Lemma emits_blocks k0 k1 v src : 0 <= k0 <= k1 -> k1 <= 63 ->
  emits k0 v src (filter (fun e => rev v / 2 ^ (64 - k1) <= pos e / 2 ^ (64 - k1) /\
                                   pos e < block_end (64 - k0) (rev v)) src).
Proof.
  intros Hk Hk1. split.
  - intros e He. by apply list_elem_of_filter in He as [_ He].
  - intros e He [H1 H2]. apply list_elem_of_filter. split_and!; [apply Z.div_le_mono; lia|done|done].
  - intros Ha. erewrite list_filter_iff; [done|]. intros e. unfold in_block.
    enough (rev v / 2 ^ (64 - k1) <= pos e / 2 ^ (64 - k1) <-> rev v <= pos e) by lia.
    split; [|intros; apply Z.div_le_mono; lia]. intros Hle.
    assert (rev v mod 2 ^ (64 - k1) = 0) as Ha1.
    { apply Z.mod_divide; [lia|]. apply Z.mod_divide in Ha; [|lia]. etransitivity; [|exact Ha].
      exists (2 ^ (k1 - k0)). rewrite <- Z.pow_add_r by lia. f_equal. lia. }
    pose proof (Z.div_mod (rev v) (2 ^ (64 - k1)) ltac:(lia)).
    pose proof (Z.div_mod (pos e) (2 ^ (64 - k1)) ltac:(lia)).
    pose proof (Z.mod_pos_bound (pos e) (2 ^ (64 - k1)) ltac:(lia)). nia.
Qed.

Lemma scan_two t0 t1 k0 k1 v : ht_ok hashFunction t0 -> ht_ok hashFunction t1 ->
  ht_size t0 = 2 ^ k0 -> ht_size t1 = 2 ^ k1 -> 0 <= k0 <= k1 -> k1 <= 63 -> 0 <= v < 2 ^ 64 ->
  exists b v' es, bucket t0 (Z.land v (ht_sizemask t0)) = Some b /\
    scan_loop (length (ht_table t1)) t1 (ht_sizemask t0) (ht_sizemask t1) v = Some (v', es) /\
    0 <= v' < 2 ^ 64 /\ rev v' = u64 (block_end (64 - k0) (rev v)) /\
    emits k0 v (entries t0 ++ entries t1) (b ++ es).
Proof.
  intros H0 H1 Hs0 Hs1 Hk Hk1 Hv.
  destruct (bucket_filter t0 k0 v H0 Hs0 ltac:(lia) Hv) as (b & Hb & ->).
  destruct (scan_loop_spec t1 k0 k1 (length (ht_table t1)) H1 Hs1 Hk ltac:(lia) v Hv)
    as (v' & es & Hl & Hv' & Hr & Hes).
  { rewrite <- (ok_len _ _ H1), Hs1, <- Z.pow_add_r by lia. replace (k1 + (64 - k1)) with 64 by lia.
    pose proof (rev_range v ltac:(lia)) as Hrv.
    pose proof (block_end_max (64 - k0) (rev v) ltac:(lia) Hrv).
    pose proof (Z.div_pos (rev v) (2 ^ (64 - k1)) ltac:(lia) ltac:(lia)). nia. }
  rewrite (ok_mask _ _ H0), (ok_mask _ _ H1), Hs0, Hs1 in *.
  eexists _, v', es. split_and!; [done|done|lia|lia|done|]. rewrite Hes.
  apply emits_app; [apply emits_bucket|apply emits_blocks]; lia.
Qed.

Lemma dictScan_spec d (m : gmap K V) v : models hashFunction d m -> m <> ∅ -> 0 <= v < 2 ^ 64 ->
  exists k v' es, scan_bits d k /\ 0 <= k <= 63 /\ dictScan d v = Some (v', es) /\
    0 <= v' < 2 ^ 64 /\ rev v' = u64 (block_end (64 - k) (rev v)) /\ emits k v (dict_entries d) es.
Proof.
  intros Hm Hne Hv. pose proof (m_state _ _ _ Hm) as Hst. unfold dictScan, dictSize.
  destruct (used_sum _ d Hst) as [-> ->]. rewrite <- Nat2Z.inj_add, <- length_app.
  pose proof (models_total_bounds _ _ _ Hm) as [_ Hb]. unfold Dict.total in Hb. fold (dict_entries d).
  rewrite uwrap_small by lia.
  destruct (Z.eqb_spec (Z.of_nat (length (dict_entries d))) 0) as [E|E].
  { exfalso. apply Hne. by apply (models_empty_lookup hashFunction d m). }
  destruct Hst as [H0 H1 Hi|H0 H1 Hi|Hr].
  - unfold dict_entries in E. by rewrite H0, H1 in E.
  - unfold scan_bits. rewrite is_rehashing_idle by done. simpl negb. cbv iota.
    destruct (ok_pow _ _ H0) as (k & Hk & Hs).
    destruct (bucket_filter (ht0 d) k v H0 Hs ltac:(lia) Hv) as (b & -> & ->).
    eexists k, _, _. split_and!; [done|lia|lia|done|apply next_cursor_range|apply next_cursor_range| |].
    + rewrite (ok_mask _ _ H0), Hs. apply rev_next_cursor; lia.
    + unfold dict_entries. rewrite H1, reset_entries, app_nil_r. apply emits_bucket. lia.
  - unfold scan_bits. rewrite (is_rehashing_busy hashFunction) by done. simpl negb. cbv iota.
    destruct Hr as [H0 H1 _ _]. destruct (ok_pow _ _ H0) as (k0 & Hk0 & Hs0).
    destruct (ok_pow _ _ H1) as (k1 & Hk1 & Hs1). rewrite Z.gtb_ltb. unfold dict_entries.
    destruct (Z.ltb_spec (ht_size (ht1 d)) (ht_size (ht0 d))) as [Hlt|Hle].
    + rewrite Hs0, Hs1 in Hlt. apply Z.pow_lt_mono_r_iff in Hlt; [|lia|lia].
      destruct (scan_two (ht1 d) (ht0 d) k1 k0 v) as (b & v' & es & -> & Hl & Hv' & Hr & Hes); try done; [lia|lia|].
      cbn [mbind option_bind]. rewrite Hl. cbn [mbind option_bind]. eexists k1, v', _.
      split_and!; [|lia|lia|done|lia|lia|done|by rewrite (Permutation_app_comm (entries (ht0 d)))].
      rewrite Hs0, Hs1. pose proof (Z.pow_le_mono_r 2 k1 k0 ltac:(lia) ltac:(lia)). lia.
    + rewrite Hs0, Hs1 in Hle. apply Z.pow_le_mono_r_iff in Hle; [|lia|lia].
      destruct (scan_two (ht0 d) (ht1 d) k0 k1 v) as (b & v' & es & -> & Hl & Hv' & Hr & Hes); try done; [lia|lia|].
      cbn [mbind option_bind]. rewrite Hl. cbn [mbind option_bind]. eexists k0, v', _.
      split_and!; [|lia|lia|done|lia|lia|done|done].
      rewrite Hs0, Hs1. pose proof (Z.pow_le_mono_r 2 k0 k1 ltac:(lia) ltac:(lia)). lia.
Qed.

(** ** Complete iterations *)

(** Calls on the successive states of a dictionary that changes between them,
    each with the cursor the previous one returned. *)
Fixpoint scan_run (ds : list (dict K V)) (v : Z) : option (Z * list (K * V)) :=
  match ds with
  | [] => Some (v, [])
  | d :: ds => r ← dictScan d v; q ← scan_run ds r.1; Some (q.1, r.2 ++ q.2)
  end.

Lemma scan_run_snoc ds d v :
  scan_run (ds ++ [d]) v = r ← scan_run ds v; q ← dictScan d r.1; Some (q.1, r.2 ++ q.2).
Proof.
  revert v. induction ds as [|d0 ds IH]; intros v; simpl.
  - destruct (dictScan d v) as [[v' es]|]; simpl; [by rewrite app_nil_r|done].
  - destruct (dictScan d0 v) as [[v' es]|]; simpl; [|done]. rewrite IH.
    destruct (scan_run ds v') as [[v2 es2]|]; simpl; [|done].
    destruct (dictScan d v2) as [[v3 es3]|]; simpl; [by rewrite app_assoc|done].
Qed.

Lemma rev_0 : rev 0 = 0.
Proof. reflexivity. Qed.

Lemma rev_zero v : 0 <= v < 2 ^ 64 -> rev v = 0 -> v = 0.
Proof. intros Hv E. by rewrite <- (rev_involutive v), E. Qed.

Lemma nonempty_size (m : gmap K V) key x : m !! key = Some x -> m <> ∅.
Proof. intros Hk ->. by rewrite lookup_empty in Hk. Qed.

(** A key that stays in the dictionary, at or after the cursor, is emitted by the
    time the cursor is back at zero. *)
Lemma scan_run_from ds key : forall v, 0 <= v < 2 ^ 64 ->
  Forall (fun d => exists (m : gmap K V) x, models hashFunction d m /\ m !! key = Some x) ds ->
  exists v' es, scan_run ds v = Some (v', es) /\ 0 <= v' < 2 ^ 64 /\
    (ds <> [] -> v' = 0 -> rev v <= rev (dictHashKey hashFunction key) -> exists x, (key, x) ∈ es).
Proof.
  induction ds as [|d ds IH]; intros v Hv Hall; [by exists v, []|].
  apply Forall_cons in Hall as [(m & x & Hm & Hk) Hall].
  destruct (dictScan_spec d m v Hm (nonempty_size _ _ _ Hk) Hv)
    as (k & v1 & es1 & _ & Hk63 & Hs & Hv1 & Hr1 & [_ Hcov _]).
  destruct (IH v1 Hv1 Hall) as (v2 & es2 & Hrun & Hv2 & Hrest).
  exists v2, (es1 ++ es2). cbn [scan_run]. rewrite Hs. cbn [mbind option_bind fst snd]. rewrite Hrun.
  split_and!; [done|lia|lia|]. intros _ -> Hle.
  assert ((key, x) ∈ dict_entries d) as Hin.
  { by rewrite (m_entries _ _ _ Hm), elem_of_map_to_list. }
  specialize (Hcov _ Hin). unfold in_block in Hcov. change (pos (key, x)) with (rev (dictHashKey hashFunction key)) in Hcov.
  destruct (decide (rev (dictHashKey hashFunction key) < block_end (64 - k) (rev v))).
  { exists x. set_solver. }
  pose proof (rev_range (dictHashKey hashFunction key) (proj1 (hash_range key))) as Hkr.
  pose proof (block_end_bounds (64 - k) (rev v) ltac:(lia)). pose proof (rev_range v ltac:(lia)).
  rewrite uwrap_small in Hr1 by lia.
  destruct Hrest as [y Hy]; [|done|lia|exists y; set_solver].
  intros ->. simpl in Hrun. simplify_eq. rewrite rev_0 in Hr1. lia.
Qed.

(** An empty dictionary, with or without allocated tables. *)
Lemma dictScan_empty d v : models hashFunction d (∅ : gmap K V) -> dictScan d v = Some (0, []).
Proof.
  intros Hm. unfold dictScan, dictSize.
  destruct (used_sum _ d (m_state _ _ _ Hm)) as [-> ->]. rewrite <- Nat2Z.inj_add, <- length_app. fold (dict_entries d).
  pose proof (m_entries _ _ _ Hm) as He. rewrite map_to_list_empty in He. apply Permutation_nil_r in He. by rewrite He.
Qed.

(** A call on any well-formed dictionary, the empty one included, returns a cursor
    and emits entries of the dictionary. *)
Lemma dictScan_total d (m : gmap K V) v : models hashFunction d m -> 0 <= v < 2 ^ 64 ->
  exists v' es, dictScan d v = Some (v', es) /\ 0 <= v' < 2 ^ 64 /\ forall e, e ∈ es -> m !! e.1 = Some e.2.
Proof.
  intros Hm Hv. destruct (decide (m = ∅)) as [-> |Hne].
  - exists 0, []. split_and!; [by apply dictScan_empty|done|done|set_solver].
  - destruct (dictScan_spec d m v Hm Hne Hv) as (k & v' & es & _ & _ & Hs & Hv' & _ & [Hsound _ _]).
    exists v', es. split_and!; [done|lia|lia|]. intros e He%Hsound. rewrite (m_entries _ _ _ Hm) in He.
    destruct e. by apply elem_of_map_to_list.
Qed.

Lemma scan_run_total ds : Forall (fun d => exists m : gmap K V, models hashFunction d m) ds ->
  forall v, 0 <= v < 2 ^ 64 -> exists v' es, scan_run ds v = Some (v', es) /\ 0 <= v' < 2 ^ 64 /\
    forall e, e ∈ es -> exists d (m : gmap K V), d ∈ ds /\ models hashFunction d m /\ m !! e.1 = Some e.2.
Proof.
  induction 1 as [|d ds [m Hm] _ IH]; intros v Hv; [exists v, []; split_and!; [done|lia|lia|set_solver]|].
  destruct (dictScan_total d m v Hm Hv) as (v1 & es1 & Hs & Hv1 & Hes1).
  destruct (IH v1 Hv1) as (v2 & es2 & Hrun & Hv2 & Hes2). exists v2, (es1 ++ es2). cbn [scan_run].
  rewrite Hs. cbn [mbind option_bind fst snd]. rewrite Hrun. split_and!; [done|lia|lia|].
  intros e [He|He]%elem_of_app; [exists d, m; split_and!; [set_solver|done|by apply Hes1]|].
  destruct (Hes2 e He) as (d' & m' & ? & ? & ?). exists d', m'. split_and!; [set_solver|done|done].
Qed.

(** C7: the guarantee of SCAN under concurrent modification: calls of [dictScan]
    on any succession of well-formed states of a dictionary, empty ones included and
    whatever was added, deleted, resized or rehashed between them, never fail and
    emit only entries of those states; and when the cursor is back at zero after
    the last call, every key that was present at all the calls has been emitted. *)
Theorem scan_guarantee ds : Forall (fun d => exists m : gmap K V, models hashFunction d m) ds ->
  exists v' es, scan_run ds 0 = Some (v', es) /\
    (forall e, e ∈ es -> exists d (m : gmap K V), d ∈ ds /\ models hashFunction d m /\ m !! e.1 = Some e.2) /\
    forall key, ds <> [] -> v' = 0 ->
      Forall (fun d => exists (m : gmap K V) x, models hashFunction d m /\ m !! key = Some x) ds -> exists x, (key, x) ∈ es.
Proof.
  intros Hds. destruct (scan_run_total ds Hds 0 ltac:(lia)) as (v' & es & Hr & _ & Hes). exists v', es. split_and!; [done..|].
  intros key Hne -> Hall. destruct (scan_run_from ds key 0 ltac:(lia) Hall) as (v2 & es2 & Hr2 & _ & Hc).
  rewrite Hr in Hr2. simplify_eq. apply Hc; [done|done|]. rewrite rev_0. apply rev_range, hash_range.
Qed.

Lemma scan_bits_inj d k k' : 0 <= k -> 0 <= k' -> scan_bits d k -> scan_bits d k' -> k = k'.
Proof.
  unfold scan_bits. intros Hk Hk'. destruct (dictIsRehashing d); intros H1 H2;
    (apply (Z.pow_inj_r 2); lia).
Qed.

Lemma full_pass_from d (m : gmap K V) k (i : nat) : models hashFunction d m -> m <> ∅ ->
  scan_bits d k -> 0 <= k <= 63 -> Z.of_nat i <= 2 ^ k ->
  exists v es, scan_run (replicate i d) 0 = Some (v, es) /\ 0 <= v < 2 ^ 64 /\
    rev v = u64 (Z.of_nat i * 2 ^ (64 - k)) /\
    es ≡ₚ filter (fun e => pos e < Z.of_nat i * 2 ^ (64 - k)) (dict_entries d).
Proof.
  intros Hm Hne Hb Hk. set (B := 2 ^ (64 - k)). assert (0 < B) as HB by lia.
  assert (2 ^ k * B = 2 ^ 64) as Hprod by (unfold B; rewrite <- Z.pow_add_r by lia; f_equal; lia).
  induction i as [|i IH]; intros Hi.
  { exists 0, []. split_and!; [done|lia|lia|done|]. rewrite filter_none; [done|].
    apply Forall_forall. intros e _. pose proof (pos_range e). lia. }
  destruct IH as (v & es & Hrun & Hv & Hr & Hes); [lia|].
  rewrite uwrap_small in Hr by nia.
  destruct (dictScan_spec d m v Hm Hne Hv) as (k' & v1 & es1 & Hb' & Hk' & Hs & Hv1 & Hr1 & [_ _ Hex]).
  assert (k' = k) as -> by (eapply scan_bits_inj; eauto; lia). fold B in Hr1, Hex.
  assert (block_end (64 - k) (rev v) = Z.of_nat (S i) * B) as Hend.
  { unfold block_end. fold B. rewrite Hr, Z.div_mul by lia. lia. }
  rewrite Hend in Hr1. exists v1, (es ++ es1).
  rewrite replicate_S_end, scan_run_snoc, Hrun. cbn [mbind option_bind fst snd]. rewrite Hs.
  split_and!; [done|lia|lia|done|].
  rewrite Hes, Hex by (rewrite Hr; apply Z_mod_mult). symmetry. apply filter_disjoint.
  - intros e _. unfold in_block. rewrite Hend, Hr. pose proof (pos_range e). nia.
  - intros e _ H1 [H2 _]. rewrite Hr in H2. lia.
Qed.

(** C31: an iteration over a dictionary that does not change, also one that is in
    the middle of a rehashing, is complete and exact.  If the dictionary is not empty:
    after as many calls as the smaller allocated table has buckets, and no fewer, the
    cursor is back at zero and every entry has been emitted exactly once.  On an
    empty dictionary, whatever tables it has, the first call ends the iteration. *)
Theorem scan_full_pass d (m : gmap K V) : models hashFunction d m ->
  exists n : nat,
    Z.of_nat n = (if decide (m = ∅) then 1
                  else if dictIsRehashing d then Z.min (ht_size (ht0 d)) (ht_size (ht1 d))
                  else ht_size (ht0 d)) /\
    (exists es, scan_run (replicate n d) 0 = Some (0, es) /\ es ≡ₚ map_to_list m) /\
    (forall i : nat, (0 < i < n)%nat ->
       exists v es, scan_run (replicate i d) 0 = Some (v, es) /\ v <> 0).
Proof.
  intros Hm. destruct (decide (m = ∅)) as [-> |Hne].
  { exists 1%nat. split_and!; [done| |lia]. exists []. cbn [replicate scan_run].
    rewrite dictScan_empty by done. split; [done|]. by rewrite map_to_list_empty. }
  destruct (dictScan_spec d m 0 Hm Hne ltac:(lia)) as (k & _ & _ & Hb & Hk & _).
  exists (Z.to_nat (2 ^ k)). rewrite Z2Nat.id by lia. split_and!.
  - unfold scan_bits in Hb. by destruct (dictIsRehashing d).
  - destruct (full_pass_from d m k (Z.to_nat (2 ^ k)) Hm Hne Hb Hk ltac:(lia)) as (v & es & Hrun & Hv & Hr & Hes).
    rewrite Z2Nat.id, <- Z.pow_add_r in * by lia. replace (k + (64 - k)) with 64 in * by lia.
    apply rev_zero in Hr as ->; [|done]. exists es. split; [done|].
    rewrite Hes, filter_all; [apply (m_entries _ _ _ Hm)|].
    apply Forall_forall. intros e _. apply pos_range.
  - intros i Hi. destruct (full_pass_from d m k i Hm Hne Hb Hk ltac:(lia)) as (v & es & Hrun & _ & Hr & _).
    exists v, es. split; [done|]. intros ->. rewrite rev_0 in Hr.
    assert (2 ^ k * 2 ^ (64 - k) = 2 ^ 64) by (rewrite <- Z.pow_add_r by lia; f_equal; lia).
    rewrite uwrap_small in Hr by nia. nia.
Qed.
End scan.

(** The dictionary is scanned while it holds one key, then when it has none. *)
Lemma scan_guarantee_witness : exists (d : dict Z Z) es,
  scan_run [d; d; d; d] 0 = Some (0, es) /\ (exists x, (1, x) ∈ es) /\
  exists v2 es2, scan_run [d; dictCreate; d] 0 = Some (v2, es2).
Proof.
  destruct (dictAdd_spec id_hash 0 true dictCreate (∅ : gmap Z Z) 1 10) as (d & Hadd & Hd);
    [apply dictCreate_models|rewrite map_size_empty; unfold max_entries; lia|].
  assert (exists es, scan_run [d; d; d; d] 0 = Some (0, es)) as [es Hes].
  { vm_compute in Hadd. injection Hadd as <-. eexists. vm_compute. reflexivity. }
  exists d, es. split; [done|]. split.
  - destruct (scan_guarantee id_hash [d; d; d; d]) as (v' & es' & Hr & _ & Hc); [repeat constructor; by eexists|].
    rewrite Hes in Hr. injection Hr as <- <-. apply Hc; [done|done|].
    repeat constructor; exists {[1 := 10]}, 10; (split; [done|apply lookup_singleton_eq]).
  - destruct (scan_guarantee id_hash [d; dictCreate; d]) as (v' & es' & Hr & _); [|by eexists _, _].
    repeat constructor; (by eexists) || (exists ∅; apply dictCreate_models).
Defined.

Lemma scan_full_pass_witness : exists (d : dict Z Z) (n : nat) es,
  scan_run (replicate n d) 0 = Some (0, es) /\ es ≡ₚ [(1, 10)].
Proof.
  destruct sample_dict_models as [d Hd].
  destruct (scan_full_pass id_hash d _ Hd) as (n & _ & (es & Hr & Hes) & _).
  exists d, n, es. split; [done|]. by rewrite Hes, map_to_list_singleton.
Defined.
