(* ===== verification/DictIter.v ===== *)
(** * Iterators and sampling of dictionaries (src/redis-5.0.7/src/dict.c)

    An iterator walks the chains of both tables; [it_entry] and [it_next] are the
    chains that start at the entries of the same name, the empty list being NULL.
    random(3) is a parameter: the functions that call it consume a list of its
    results and have no value when the list runs out. *)

From S2P Require Import Prelude Dict.
From stdpp Require Import gmap.
Local Open Scope Z_scope.

Section iter.
Context {K V : Type} `{Countable K}.
Context (hashFunction : K -> Z).
Implicit Types (d : dict K V) (h : dictht K V).

(** ** Code *)

Record dictIterator := mkIter {
  it_table : Z;
  it_index : Z;
  it_safe : bool;
  it_entry : list (K * V);
  it_next : list (K * V);
  it_fingerprint : Z;
}.

(** One step of the loop of [dictFingerprint]: Wang's 64-bit integer hash.  The
    shifts of a signed value are two's complement. *)
Definition fingerprint_step (hash x : Z) : Z :=
  let hash := s64 (hash + x) in
  let hash := s64 (Z.lnot hash + s64 (Z.shiftl hash 21)) in
  let hash := Z.lxor hash (Z.shiftr hash 24) in
  let hash := s64 (s64 (hash + s64 (Z.shiftl hash 3)) + s64 (Z.shiftl hash 8)) in
  let hash := Z.lxor hash (Z.shiftr hash 14) in
  let hash := s64 (s64 (hash + s64 (Z.shiftl hash 2)) + s64 (Z.shiftl hash 4)) in
  let hash := Z.lxor hash (Z.shiftr hash 28) in
  s64 (hash + s64 (Z.shiftl hash 31)).

(** [tables] are the addresses of the two tables. *)
Definition dictFingerprint (tables : Z * Z) d : Z :=
  foldl fingerprint_step 0
    [s64 tables.1; s64 (ht_size (ht0 d)); s64 (ht_used (ht0 d));
     s64 tables.2; s64 (ht_size (ht1 d)); s64 (ht_used (ht1 d))].

Definition dictGetIterator : dictIterator := mkIter 0 (-1) false [] [] 0.

Definition dictGetSafeIterator : dictIterator := mkIter 0 (-1) true [] [] 0.

Definition nth_table d (t : Z) : dictht K V := if t =? 0 then ht0 d else ht1 d.

(** The [while(1)] loop; returns the dictionary (its count of iterators may
    change), the iterator and the entry. *)
Fixpoint dictNext_loop (fuel : nat) (tables : Z * Z) d (it : dictIterator)
    : option (dict K V * dictIterator * option (K * V)) :=
  match fuel with
  | O => None
  | S fuel =>
      r ← (match it_entry it with
           | [] =>
               let first := (it_index it =? -1) && (it_table it =? 0) in
               let d := if first && it_safe it
                        then mkDict (ht0 d) (ht1 d) (rehashidx d) (u64 (iterators d + 1)) else d in
               let fp := if first && negb (it_safe it) then dictFingerprint tables d
                         else it_fingerprint it in
               let index := it_index it + 1 in
               let ht := nth_table d (it_table it) in
               if index >=? s64 (ht_size ht) then
                 if dictIsRehashing d && (it_table it =? 0) then
                   e ← bucket (ht1 d) 0;
                   Some (inl (d, mkIter 1 0 (it_safe it) e (it_next it) fp))
                 else Some (inr (d, mkIter (it_table it) index (it_safe it) [] (it_next it) fp))
               else
                 e ← bucket ht index;
                 Some (inl (d, mkIter (it_table it) index (it_safe it) e (it_next it) fp))
           | _ :: _ =>
               Some (inl (d, mkIter (it_table it) (it_index it) (it_safe it) (it_next it) (it_next it)
                               (it_fingerprint it)))
           end);
      match r with
      | inr (d, it) => Some (d, it, None)
      | inl (d, it) =>
          match it_entry it with
          | e :: next =>
              Some (d, mkIter (it_table it) (it_index it) (it_safe it) (e :: next) next
                         (it_fingerprint it), Some e)
          | [] => dictNext_loop fuel tables d it
          end
      end
  end.

(** A call visits every bucket at most once, and makes one more round. *)
Definition dictNext (tables : Z * Z) d (it : dictIterator) :=
  dictNext_loop (length (ht_table (ht0 d)) + length (ht_table (ht1 d)) + 3) tables d it.

Definition dictReleaseIterator (tables : Z * Z) d (it : dictIterator) : option (dict K V) :=
  if negb ((it_index it =? -1) && (it_table it =? 0)) then
    if it_safe it then Some (mkDict (ht0 d) (ht1 d) (rehashidx d) (u64 (iterators d - 1)))
    else if it_fingerprint it =? dictFingerprint tables d then Some d else None (* assert *)
  else Some d.

(** Call [dictNext] until it returns NULL. *)
Fixpoint iterate (fuel : nat) (tables : Z * Z) d (it : dictIterator)
    : option (dict K V * dictIterator * list (K * V)) :=
  match fuel with
  | O => None
  | S fuel =>
      r ← dictNext tables d it;
      match r with
      | (d, it, None) => Some (d, it, [])
      | (d, it, Some e) => q ← iterate fuel tables d it; Some (q.1, e :: q.2)
      end
  end.

(** ** Sampling *)

(** The [do ... while(he == NULL)] loops of [dictGetRandomKey]. *)
Fixpoint random_bucket (d : dict K V) (rnd : list Z) : option (list (K * V) * list Z) :=
  match rnd with
  | [] => None
  | r :: rnd =>
      he ← (if dictIsRehashing d then
              let h := u64 (rehashidx d +
                            r mod (u64 (ht_size (ht0 d) + ht_size (ht1 d) - rehashidx d))) in
              if h >=? ht_size (ht0 d) then bucket (ht1 d) (h - ht_size (ht0 d))
              else bucket (ht0 d) h
            else bucket (ht0 d) (Z.land r (ht_sizemask (ht0 d))));
      match he with
      | [] => random_bucket d rnd
      | _ :: _ => Some (he, rnd)
      end
  end.

(** The inner [None] is NULL. *)
Definition dictGetRandomKey d (rnd : list Z) : option (dict K V * option (K * V)) :=
  if dictSize d =? 0 then Some (d, None)
  else
    d ← (if dictIsRehashing d then _dictRehashStep hashFunction d else Some d);
    q ← random_bucket d rnd;
    let '(he, rnd) := q in
    r ← head rnd;
    e ← he !! Z.to_nat (r mod Z.of_nat (length he));
    Some (d, Some e).

(** [for (j = 0; j < count; j++) if (dictIsRehashing(d)) _dictRehashStep(d); else break;] *)
Fixpoint rehash_steps (count : nat) d : option (dict K V) :=
  match count with
  | O => Some d
  | S count => if dictIsRehashing d then d ← _dictRehashStep hashFunction d; rehash_steps count d else Some d
  end.

(** The variables of the loops of [dictGetSomeKeys]: position, length of the
    current run of empty buckets, entries stored, results of random(3) left. *)
Record sampling := mkSampling {
  sm_i : Z;
  sm_emptylen : Z;
  sm_des : list (K * V);
  sm_rnd : list Z;
}.

(** The body of [for (j = 0; j < tables; j++)]; the flag says that the function
    returned. *)
Definition sample_table d (rehash : bool) (count maxsizemask j : Z) (st : sampling) : option (sampling * bool) :=
  let skip := rehash && (j =? 0) && (sm_i st <? u64 (rehashidx d)) in
  if skip && (sm_i st <? ht_size (ht1 d)) then Some (st, false)
  else
    let i := if skip then u64 (rehashidx d) else sm_i st in
    let st := mkSampling i (sm_emptylen st) (sm_des st) (sm_rnd st) in
    let ht := nth_table d j in
    if i >=? ht_size ht then Some (st, false)
    else
      he ← bucket ht i;
      match he with
      | [] =>
          let emptylen := u64 (sm_emptylen st + 1) in
          if (emptylen >=? 5) && (emptylen >? count) then
            r ← head (sm_rnd st);
            Some (mkSampling (Z.land r maxsizemask) 0 (sm_des st) (tail (sm_rnd st)), false)
          else Some (mkSampling i emptylen (sm_des st) (sm_rnd st), false)
      | _ =>
          let des := sm_des st ++ take (Z.to_nat count - length (sm_des st)) he in
          Some (mkSampling i 0 des (sm_rnd st), Z.of_nat (length des) =? count)
      end.

(** [while(stored < count && maxsteps--)] *)
Fixpoint sample_loop (maxsteps : nat) d (rehash : bool) (count maxsizemask : Z) (st : sampling)
    : option (list (K * V)) :=
  match maxsteps with
  | O => Some (sm_des st)
  | S maxsteps =>
      if Z.of_nat (length (sm_des st)) <? count then
        r ← sample_table d rehash count maxsizemask 0 st;
        let '(st, ret) := r in
        if (ret : bool) then Some (sm_des st)
        else
          r ← (if rehash then sample_table d rehash count maxsizemask 1 st else Some (st, false));
          let '(st, ret) := r in
          if (ret : bool) then Some (sm_des st)
          else
            sample_loop maxsteps d rehash count maxsizemask
              (mkSampling (Z.land (u64 (sm_i st + 1)) maxsizemask) (sm_emptylen st) (sm_des st) (sm_rnd st))
      else Some (sm_des st)
  end.

(** Returns the dictionary and the entries stored in [des]. *)
Definition dictGetSomeKeys d (count : Z) (rnd : list Z) : option (dict K V * list (K * V)) :=
  let count := if dictSize d <? count then u32 (dictSize d) else count in
  let maxsteps := u32 (count * 10) in
  d ← rehash_steps (Z.to_nat count) d;
  let rehash := dictIsRehashing d in
  let maxsizemask := ht_sizemask (ht0 d) in
  let maxsizemask := if rehash && (maxsizemask <? ht_sizemask (ht1 d)) then ht_sizemask (ht1 d) else maxsizemask in
  r ← head rnd;
  des ← sample_loop (Z.to_nat maxsteps) d rehash count maxsizemask
          (mkSampling (Z.land r maxsizemask) 0 [] (tail rnd));
  Some (d, des).

(** ** What remains to be visited *)

(** The shape of the tables an iteration relies on. *)
Record walkable d : Prop := {
  w_size0 : ht_size (ht0 d) = Z.of_nat (length (ht_table (ht0 d))) /\ ht_size (ht0 d) < 2 ^ 63;
  w_size1 : ht_size (ht1 d) = Z.of_nat (length (ht_table (ht1 d))) /\ ht_size (ht1 d) < 2 ^ 63;
  w_rehash : dictIsRehashing d = true -> 0 < ht_size (ht1 d);
}.

Definition next_tables d (t : Z) : list (list (K * V)) :=
  if (t =? 0) && dictIsRehashing d then ht_table (ht1 d) else [].

(** The chains after the current bucket. *)
Definition buckets_left d (it : dictIterator) : list (list (K * V)) :=
  drop (Z.to_nat (it_index it + 1)) (ht_table (nth_table d (it_table it))) ++ next_tables d (it_table it).

Definition remaining d (it : dictIterator) : list (K * V) :=
  (match it_entry it with [] => [] | _ => it_next it end) ++ concat (buckets_left d it).

Definition started (it : dictIterator) : bool := negb ((it_index it =? -1) && (it_table it =? 0)).

(** The dictionary as a started safe iterator leaves it. *)
Definition counted d (it : dictIterator) : dict K V :=
  if it_safe it && started it then mkDict (ht0 d) (ht1 d) (rehashidx d) (u64 (iterators d + 1)) else d.

Record iter_inv (tables : Z * Z) d (it : dictIterator) : Prop := {
  i_pos : (it_table it = 0 /\ -1 <= it_index it) \/
          (it_table it = 1 /\ 0 <= it_index it /\ dictIsRehashing d = true);
  i_fp : it_safe it = false -> started it = true -> it_fingerprint it = dictFingerprint tables d;
  i_entry : it_index it = -1 -> it_entry it = [];
}.

Lemma counted_same d it :
  ht0 (counted d it) = ht0 d /\ ht1 (counted d it) = ht1 d /\ rehashidx (counted d it) = rehashidx d.
Proof. unfold counted. by destruct (_ && _). Qed.

Lemma counted_fp tables d it : dictFingerprint tables (counted d it) = dictFingerprint tables d.
Proof. unfold dictFingerprint. by destruct (counted_same d it) as (-> & -> & _). Qed.

Lemma counted_rehashing d it : dictIsRehashing (counted d it) = dictIsRehashing d.
Proof. unfold dictIsRehashing. by destruct (counted_same d it) as (_ & _ & ->). Qed.

Lemma counted_table d it t : nth_table (counted d it) t = nth_table d t.
Proof. unfold nth_table. by destruct (counted_same d it) as (-> & -> & _). Qed.

(** Moving to the next bucket: where the round of the loop with no current
    entry leads. *)
Definition goto (it : dictIterator) (t index : Z) (e : list (K * V)) (fp : Z) : dictIterator :=
  mkIter t index (it_safe it) e (it_next it) fp.

(** One round of the loop without an entry, started or not. *)
Lemma next_round fuel tables d it : walkable d -> iter_inv tables d it -> it_entry it = [] ->
  match buckets_left d it with
  | [] => exists it', dictNext_loop (S fuel) tables (counted d it) it = Some (counted d it', it', None) /\
            iter_inv tables d it' /\ remaining d it' = [] /\ it_safe it' = it_safe it
  | b :: bs => exists it', buckets_left d it' = bs /\ it_entry it' = b /\ iter_inv tables d it' /\ it_index it' <> -1 /\
      it_safe it' = it_safe it /\
      dictNext_loop (S fuel) tables (counted d it) it =
        match b with
        | e :: next => Some (counted d it', mkIter (it_table it') (it_index it') (it_safe it') b next (it_fingerprint it'), Some e)
        | [] => dictNext_loop fuel tables (counted d it') it'
        end
  end.
Proof.
  intros [[L0 B0] [L1 B1] Hre] [Hpos Hfp Hent] He. cbn [dictNext_loop]. rewrite He.
  (* the state after the first-call actions *)
  set (first := (it_index it =? -1) && (it_table it =? 0)).
  set (fp := if first && negb (it_safe it) then _ else it_fingerprint it).
  assert ((it_index it + 1 =? -1) = false) as Hidx by (apply Z.eqb_neq; lia).
  assert (forall t i e, (i =? -1) = false -> (if first && it_safe it then
      mkDict (ht0 (counted d it)) (ht1 (counted d it)) (rehashidx (counted d it)) (u64 (iterators (counted d it) + 1))
      else counted d it) = counted d (goto it t i e fp)) as Hd.
  { intros t i e Hi. unfold counted, started, goto. simpl. fold first. rewrite Hi. simpl.
    destruct first; simpl; rewrite ?andb_true_r, ?andb_false_r; by destruct (it_safe it). }
  assert (forall t i e, it_safe (goto it t i e fp) = false -> started (goto it t i e fp) = true ->
    it_fingerprint (goto it t i e fp) = dictFingerprint tables d) as Hfp'.
  { intros t i e Hs _. simpl in *. subst fp. rewrite Hs, andb_true_r. destruct first eqn:Ef.
    - apply counted_fp.
    - apply Hfp; [done|]. unfold started. by fold first; rewrite Ef. }
  rewrite (Hd (it_table it) (it_index it + 1) [] Hidx).
  assert (forall t i e, (i =? -1) = false -> counted d (goto it t i e fp) = counted d (goto it (it_table it) (it_index it + 1) [] fp)) as Hsame.
  { intros t i e Hi. by rewrite <- (Hd t i e Hi), <- (Hd (it_table it) (it_index it + 1) [] Hidx). }
  rewrite counted_rehashing, counted_table.
  assert (0 <= it_index it + 1) as Hi0 by lia.
  assert (ht_size (nth_table d (it_table it)) = Z.of_nat (length (ht_table (nth_table d (it_table it)))) /\
          ht_size (nth_table d (it_table it)) < 2 ^ 63) as [Lt Bt].
  { unfold nth_table. by destruct (it_table it =? 0). }
  rewrite swrap_small by (limits; lia). rewrite Lt, Z.geb_leb.
  unfold buckets_left, next_tables.
  destruct (Z.leb_spec (Z.of_nat (length (ht_table (nth_table d (it_table it))))) (it_index it + 1)) as [Hge|Hlt].
  - rewrite (drop_ge _ (Z.to_nat (it_index it + 1))) by lia. rewrite app_nil_l.
    rewrite (andb_comm (it_table it =? 0)).
    destruct (dictIsRehashing d && (it_table it =? 0)) eqn:Er.
    + apply andb_true_iff in Er as [Er E0].
      pose proof (Hre Er) as Hpos1. destruct (ht_table (ht1 d)) as [|b bs] eqn:Et; [simpl in L1; lia|].
      exists (goto it 1 0 b fp). split_and!.
      * unfold buckets_left, next_tables, nth_table. simpl. rewrite Et. simpl. by rewrite drop_0, app_nil_r.
      * done.
      * split; [right; simpl; lia || (split_and!; [done|lia|done])|apply Hfp'|done].
      * done.
      * done.
      * destruct (counted_same d (goto it (it_table it) (it_index it + 1) [] fp)) as (_ & -> & _).
        unfold bucket at 1. rewrite Et. simpl. fold (goto it 1 0 b fp). rewrite (Hsame 1 0 b eq_refl). by destruct b.
    + eexists. split; [cbn [mbind option_bind]; fold (goto it (it_table it) (it_index it + 1) [] fp); done|].
      split_and!.
      * split; [|apply Hfp'|simpl; lia]. simpl. destruct Hpos as [[? ?]|(? & ? & ?)]; [left|right]; split_and!; try done; lia.
      * unfold remaining, buckets_left, next_tables. simpl. rewrite drop_ge by lia.
        rewrite (andb_comm (it_table it =? 0)), Er. done.
      * done.
  - destruct (lookup_lt_is_Some_2 (ht_table (nth_table d (it_table it))) (Z.to_nat (it_index it + 1))) as [b Hb]; [lia|].
    rewrite (drop_S _ b _ Hb). simpl app. exists (goto it (it_table it) (it_index it + 1) b fp). split_and!.
    + unfold buckets_left, next_tables. simpl. by replace (Z.to_nat (it_index it + 1 + 1)) with (S (Z.to_nat (it_index it + 1))) by lia.
    + done.
    + split; [|apply Hfp'|simpl; lia]. simpl. destruct Hpos as [[? ?]|(? & ? & ?)]; [left|right]; split_and!; try done; lia.
    + simpl. lia.
    + done.
    + unfold bucket at 1. rewrite (proj2 (Z.leb_le 0 _)), Hb by lia. simpl. 
      fold (goto it (it_table it) (it_index it + 1) b fp). rewrite (Hsame (it_table it) (it_index it + 1) b Hidx). by destruct b.
Qed.

Lemma inv_entry tables d it e next : iter_inv tables d it -> it_index it <> -1 ->
  iter_inv tables d (mkIter (it_table it) (it_index it) (it_safe it) e next (it_fingerprint it)).
Proof. intros [Hp Hf _] Hi. split; [exact Hp|exact Hf|done]. Qed.

Lemma next_no_entry tables d fuel : walkable d -> forall it, iter_inv tables d it -> it_entry it = [] ->
  (length (buckets_left d it) < fuel)%nat ->
  exists it', dictNext_loop fuel tables (counted d it) it = Some (counted d it', it', head (remaining d it)) /\
    iter_inv tables d it' /\ remaining d it' = tail (remaining d it) /\ it_safe it' = it_safe it.
Proof.
  intros Hw. induction fuel as [|fuel IH]; intros it Hinv He Hf; [lia|].
  pose proof (next_round fuel tables d it Hw Hinv He) as Hr. unfold remaining at 1 3. rewrite He. simpl app.
  destruct (buckets_left d it) as [|b bs] eqn:Eb.
  - destruct Hr as (it' & Hn & Hi & Hrem & Hsafe). exists it'. split_and!; [exact Hn|done|by rewrite Hrem|done].
  - destruct Hr as (it1 & Hbs & Hb & Hi & Hidx & Hsafe & ->). destruct b as [|e next].
    + destruct (IH it1 Hi Hb) as (it' & Hn & Hi' & Hrem & Hs'); [rewrite Hbs; simpl in Hf; lia|].
      exists it'. rewrite Hn, Hrem, Hs'. unfold remaining. rewrite Hb, Hbs. done.
    + exists (mkIter (it_table it1) (it_index it1) (it_safe it1) (e :: next) next (it_fingerprint it1)).
      split; [reflexivity|]. split; [by apply inv_entry|]. split; [|done].
      unfold remaining, buckets_left in *. simpl in *. by rewrite Hbs.
Qed.

Lemma buckets_left_length d it : (length (buckets_left d it) <=
  length (ht_table (ht0 d)) + length (ht_table (ht1 d)))%nat.
Proof.
  unfold buckets_left, next_tables, nth_table. rewrite length_app, length_drop.
  destruct (it_table it =? 0); simpl; [destruct (dictIsRehashing d)|]; simpl; lia.
Qed.

(** A call returns the next entry, or NULL at the end. *)
Lemma dictNext_spec tables d it : walkable d -> iter_inv tables d it ->
  exists it', dictNext tables (counted d it) it = Some (counted d it', it', head (remaining d it)) /\
    iter_inv tables d it' /\ remaining d it' = tail (remaining d it) /\ it_safe it' = it_safe it.
Proof.
  intros Hw Hinv. unfold dictNext. destruct (counted_same d it) as (-> & -> & _).
  pose proof (buckets_left_length d it) as Hlen.
  rewrite (Nat.add_succ_r _ 2 : _ = S _). set (n := (length (ht_table (ht0 d)) + length (ht_table (ht1 d)) + 2)%nat) in *.
  destruct (it_entry it) as [|c rest] eqn:Ee; [apply next_no_entry; [done..|lia]|].
  cbn [dictNext_loop]. rewrite Ee. cbn [mbind option_bind it_entry].
  assert (it_index it <> -1) as Hidx by (intros Hi; by rewrite (i_entry _ _ _ Hinv Hi) in Ee).
  destruct (it_next it) as [|e next] eqn:Enx.
  - pose proof (inv_entry tables d it [] [] Hinv Hidx) as Hinv'.
    destruct (next_no_entry tables d n Hw _ Hinv' eq_refl) as (it' & Hn & Hi & Hrem & Hs').
    { change (buckets_left d _) with (buckets_left d it). lia. }
    exists it'. unfold remaining at 1 3. rewrite Ee, Enx. split_and!; [exact Hn|done|exact Hrem|exact Hs'].
  - exists (mkIter (it_table it) (it_index it) (it_safe it) (e :: next) next (it_fingerprint it)).
    split; [|split; [by apply inv_entry|split; [|done]]].
    + unfold remaining. rewrite Ee, Enx. reflexivity.
    + unfold remaining, buckets_left. simpl. by rewrite Ee, Enx.
Qed.

Lemma iterate_spec tables d fuel : walkable d -> forall it, iter_inv tables d it ->
  (length (remaining d it) < fuel)%nat ->
  exists it', iterate fuel tables (counted d it) it = Some (counted d it', it', remaining d it) /\
    iter_inv tables d it' /\ remaining d it' = [].
Proof.
  intros Hw. induction fuel as [|fuel IH]; intros it Hinv Hf; [lia|]. cbn [iterate].
  destruct (dictNext_spec tables d it Hw Hinv) as (it1 & -> & Hi1 & Hr1 & _). cbn [mbind option_bind].
  destruct (remaining d it) as [|e es] eqn:Er; simpl.
  - exists it1. by split_and!.
  - simpl in Hr1, Hf. destruct (IH it1 Hi1) as (it' & -> & Hi' & Hr'); [rewrite Hr1; lia|].
    cbn [mbind option_bind fst snd]. exists it'. rewrite Hr1. done.
Qed.

Lemma state_walkable d : dict_state hashFunction d -> walkable d.
Proof.
  assert (forall h, ht_ok hashFunction h -> ht_size h = Z.of_nat (length (ht_table h)) /\ 0 < ht_size h < 2 ^ 63) as Hok.
  { intros h Hh. split; [apply (ok_len _ _ Hh)|]. destruct (ok_pow _ _ Hh) as (k & Hk & ->).
    split; [lia|]. apply Z.pow_lt_mono_r; lia. }
  intros [H0 H1 Hi|H0 H1 Hi|[H0 H1 Hi _]]; split; rewrite ?H0, ?H1 by done; try done;
    try (by rewrite is_rehashing_idle).
  - destruct (Hok _ H0). split; [done|lia].
  - destruct (Hok _ H0). split; [done|lia].
  - destruct (Hok _ H1). split; [done|lia].
  - destruct (Hok _ H1). intros _. lia.
Qed.

Lemma release_counted tables d it : 0 <= iterators d < 2 ^ 64 -> iter_inv tables d it ->
  dictReleaseIterator tables (counted d it) it = Some d.
Proof.
  intros Hit [_ Hfp _]. unfold dictReleaseIterator. fold (started it). rewrite counted_fp.
  unfold counted. destruct (started it) eqn:Es; [|by rewrite andb_false_r].
  destruct (it_safe it); simpl.
  - f_equal. destruct d as [h0 h1 ri n]. simpl in *. f_equal. unfold uwrap.
    rewrite Zminus_mod_idemp_l. replace (n + 1 - 1) with n by lia. apply Z.mod_small. lia.
  - by rewrite Hfp, Z.eqb_refl.
Qed.

Lemma fresh_remaining d (m : gmap K V) (safe : bool) : models hashFunction d m ->
  remaining d (if safe then dictGetSafeIterator else dictGetIterator) = dict_entries d.
Proof.
  intros Hm. unfold remaining, buckets_left, next_tables, nth_table, dict_entries, entries.
  destruct safe; simpl; rewrite drop_0, concat_app; f_equal;
    (destruct (m_state _ _ _ Hm) as [? H1 ?|? H1 ?|?]; [rewrite H1..|];
     [by destruct (dictIsRehashing d)..|by rewrite (is_rehashing_busy hashFunction)]).
Qed.

(** An iterator, safe or not, over a dictionary that does not change, also
    one that is being rehashed, returns every entry exactly once and then NULL;
    releasing it satisfies the fingerprint assertion and restores the dictionary. *)
Theorem iterate_complete tables d (m : gmap K V) safe : models hashFunction d m ->
  0 <= iterators d < 2 ^ 64 ->
  exists d' it' es,
    iterate (S (size m)) tables d (if (safe : bool) then dictGetSafeIterator else dictGetIterator) = Some (d', it', es) /\
    es ≡ₚ map_to_list m /\ dictReleaseIterator tables d' it' = Some d.
Proof.
  intros Hm Hit. pose proof (state_walkable d (m_state _ _ _ Hm)) as Hw.
  set (it := if safe then _ else _).
  assert (iter_inv tables d it) as Hinv by (subst it; destruct safe; (split; [by left|done|done])).
  assert (counted d it = d) as Hc by (subst it; destruct safe; done).
  assert (remaining d it = dict_entries d) as Hrem by (by apply (fresh_remaining d m)).
  destruct (iterate_spec tables d (S (size m)) Hw it Hinv) as (it' & Hi & Hinv' & _).
  { rewrite Hrem, (Permutation_length (m_entries _ _ _ Hm)), length_map_to_list. lia. }
  rewrite Hc, Hrem in Hi. exists (counted d it'), it', (dict_entries d).
  split_and!; [done|apply (m_entries _ _ _ Hm)|by apply release_counted].
Qed.

(** ** Sampling *)

Lemma bucket_sub h i b e : bucket h i = Some b -> e ∈ b -> e ∈ entries h.
Proof.
  unfold bucket. case_match; [|done]. intros Hb He. unfold entries. rewrite list_elem_of_In, in_concat.
  exists b. rewrite <- !list_elem_of_In. split; [by eapply list_elem_of_lookup_2|done].
Qed.

Lemma entries_sub0 d e : e ∈ entries (ht0 d) -> e ∈ dict_entries d.
Proof. unfold dict_entries. rewrite elem_of_app. by left. Qed.

Lemma entries_sub1 d e : e ∈ entries (ht1 d) -> e ∈ dict_entries d.
Proof. unfold dict_entries. rewrite elem_of_app. by right. Qed.

Lemma random_bucket_sound d rnd : forall he rnd', random_bucket d rnd = Some (he, rnd') ->
  forall e, e ∈ he -> e ∈ dict_entries d.
Proof.
  induction rnd as [|r rnd IH]; intros he rnd' Hr e He; [done|]. cbn [random_bucket] in Hr.
  destruct (if dictIsRehashing d then _ else _) as [b|] eqn:Eb; [|done]. cbn [mbind option_bind] in Hr.
  destruct b as [|x b]; [by eapply IH|]. simplify_eq.
  destruct (dictIsRehashing d); [case_match|].
  - eapply entries_sub1, bucket_sub; eauto.
  - eapply entries_sub0, bucket_sub; eauto.
  - eapply entries_sub0, bucket_sub; eauto.
Qed.

(** A draw that reaches the bucket of a given entry. *)
Lemma random_bucket_complete d e : dict_state hashFunction d -> e ∈ dict_entries d ->
  ht_size (ht0 d) + ht_size (ht1 d) <= 2 ^ 31 ->
  exists r he, 0 <= r < 2 ^ 31 /\ e ∈ he /\ (length he <= length (dict_entries d))%nat /\
    forall rnd, random_bucket d (r :: rnd) = Some (he, rnd).
Proof.
  intros Hst He Hsz.
  assert (forall h, e ∈ entries h -> exists (i : nat) b, ht_table h !! i = Some b /\ e ∈ b /\
    (length b <= length (entries h))%nat) as Hfind.
  { intros h Hin. unfold entries in Hin. rewrite list_elem_of_In, in_concat in Hin.
    destruct Hin as (b & Hb & Heb). rewrite <- list_elem_of_In in Hb; rewrite <- list_elem_of_In in Heb.
    apply list_elem_of_lookup in Hb as [i Hi]. exists i, b. split_and!; [done|done|].
    destruct (concat_bucket _ _ _ Hi) as (rest & Hp & _). unfold entries. rewrite Hp, length_app. lia. }
  unfold dict_entries in He. apply elem_of_app in He. destruct Hst as [H0 H1 Hi|H0 H1 Hi|[H0 H1 Hidx Hmv]].
  - rewrite H0, H1, reset_entries in He. set_solver.
  - rewrite H1, reset_entries in He. destruct He as [He|He]; [|set_solver].
    destruct (Hfind _ He) as (i & b & Hb & Heb & Hbl). pose proof (lookup_lt_Some _ _ _ Hb) as Hlt.
    rewrite <- (Nat2Z.id (length _)), <- (ok_len _ _ H0) in Hlt. rewrite H1 in Hsz. simpl in Hsz.
    exists (Z.of_nat i), b. split_and!; [lia|lia|done|unfold dict_entries; rewrite length_app; lia|].
    intros rnd. cbn [random_bucket]. rewrite is_rehashing_idle by done. destruct (ok_pow _ _ H0) as (k & Hk & Hs).
    rewrite (ok_mask _ _ H0), Hs. replace (2 ^ k - 1) with (Z.ones k) by (rewrite Z.ones_equiv; lia).
    rewrite Z.land_ones, Z.mod_small by lia. unfold bucket. rewrite (proj2 (Z.leb_le 0 _)), Nat2Z.id, Hb by lia.
    cbn [mbind option_bind]. destruct b; [set_solver|done].
  - pose proof (ok_len _ _ H0) as L0. pose proof (ok_len _ _ H1) as L1.
    assert (dictIsRehashing d = true) as Hre by (by apply (is_rehashing_busy hashFunction)).
    assert (forall (p : Z) b, rehashidx d <= p < ht_size (ht0 d) + ht_size (ht1 d) ->
      (if p >=? ht_size (ht0 d) then bucket (ht1 d) (p - ht_size (ht0 d)) else bucket (ht0 d) p) = Some b ->
      e ∈ b -> (length b <= length (dict_entries d))%nat -> exists r he, 0 <= r < 2 ^ 31 /\ e ∈ he /\
      (length he <= length (dict_entries d))%nat /\ forall rnd, random_bucket d (r :: rnd) = Some (he, rnd)) as Hdraw.
    { intros p b Hp Hb Heb Hbl. exists (p - rehashidx d), b. split_and!; [lia|lia|done|done|]. intros rnd.
      cbn [random_bucket]. rewrite Hre, (uwrap_small 64 (ht_size (ht0 d) + ht_size (ht1 d) - rehashidx d)) by lia.
      rewrite Z.mod_small by lia. replace (rehashidx d + (p - rehashidx d)) with p by lia.
      rewrite uwrap_small by lia. rewrite Hb. cbn [mbind option_bind]. destruct b; [set_solver|done]. }
    destruct He as [He|He]; destruct (Hfind _ He) as (i & b & Hb & Heb & Hbl); pose proof (lookup_lt_Some _ _ _ Hb) as Hlt.
    + apply (Hdraw (Z.of_nat i) b); [|rewrite Z.geb_leb, (proj2 (Z.leb_gt _ _)) by lia|done|
        unfold dict_entries; rewrite length_app; lia].
      * destruct (decide (Z.of_nat i < rehashidx d)) as [Hm|]; [|lia]. rewrite (Hmv i Hm) in Hb. simplify_eq. set_solver.
      * unfold bucket. by rewrite (proj2 (Z.leb_le 0 _)), Nat2Z.id by lia.
    + apply (Hdraw (ht_size (ht0 d) + Z.of_nat i) b); [lia|rewrite Z.geb_leb, (proj2 (Z.leb_le _ _)) by lia|done|
        unfold dict_entries; rewrite length_app; lia].
      replace (ht_size (ht0 d) + Z.of_nat i - ht_size (ht0 d)) with (Z.of_nat i) by lia.
      unfold bucket. by rewrite (proj2 (Z.leb_le 0 _)), Nat2Z.id by lia.
Qed.

Lemma models_elem d (m : gmap K V) k x : models hashFunction d m -> (k, x) ∈ dict_entries d <-> m !! k = Some x.
Proof. intros Hm. by rewrite (m_entries _ _ _ Hm), elem_of_map_to_list. Qed.

Lemma dictSize_models d (m : gmap K V) : models hashFunction d m -> dictSize d = Z.of_nat (size m).
Proof.
  intros Hm. unfold dictSize. destruct (used_sum _ d (m_state _ _ _ Hm)) as [-> ->].
  pose proof (models_total _ _ _ Hm) as Ht. pose proof (models_total_bounds _ _ _ Hm) as [_ Hb].
  unfold Dict.total, dict_entries in *. rewrite length_app in *. rewrite uwrap_small by lia. lia.
Qed.

Lemma step_models d (m : gmap K V) : models hashFunction d m ->
  exists d', (if dictIsRehashing d then _dictRehashStep hashFunction d else Some d) = Some d' /\
    models hashFunction d' m.
Proof.
  intros Hm. destruct (rehash_step_spec hashFunction d (m_state _ _ _ Hm)) as (d' & Hd & Hst & He & _).
  { by apply (models_total_bounds hashFunction d m). }
  exists d'. split; [done|]. by eapply models_perm.
Qed.

(** [dictGetRandomKey] only ever returns an entry of the dictionary, and
    can return any of them: for every key there are results of random(3) that
    make it the answer (for tables of at most 2^31 buckets, the range of
    random(3)).  The dictionary keeps its contents. *)
Theorem random_key_correct d (m : gmap K V) : models hashFunction d m -> m <> ∅ -> Z.of_nat (size m) <= 2 ^ 31 ->
  exists d', models hashFunction d' m /\
    (forall rnd d2 e, dictGetRandomKey d rnd = Some (d2, e) -> d2 = d' /\ exists k x, e = Some (k, x) /\ m !! k = Some x) /\
    (ht_size (ht0 d') + ht_size (ht1 d') <= 2 ^ 31 -> forall k x, m !! k = Some x ->
      exists rnd, Forall (fun r => 0 <= r < 2 ^ 31) rnd /\ dictGetRandomKey d rnd = Some (d', Some (k, x))).
Proof.
  intros Hm Hne Hsz. destruct (step_models d m Hm) as (d' & Hstep & Hm'). exists d'. split; [done|].
  assert ((dictSize d =? 0) = false) as Hsize.
  { apply Z.eqb_neq. rewrite (dictSize_models d m Hm). intros E. apply Hne. apply map_size_empty_inv. lia. }
  split.
  - intros rnd d2 e. unfold dictGetRandomKey. rewrite Hsize, Hstep. cbn [mbind option_bind].
    destruct (random_bucket d' rnd) as [[he rnd']|] eqn:Eb; [|done]. cbn [mbind option_bind].
    destruct (head rnd') as [r|]; [|done]. cbn [mbind option_bind].
    destruct (he !! _) as [[k x]|] eqn:El; [|done]. cbn [mbind option_bind]. intros [= <- <-]. split; [done|].
    exists k, x. split; [done|]. apply (models_elem d' m k x Hm').
    eapply random_bucket_sound; [exact Eb|]. by eapply list_elem_of_lookup_2.
  - intros Hts k x Hk. apply (models_elem d' m k x Hm') in Hk.
    destruct (random_bucket_complete d' (k, x) (m_state _ _ _ Hm') Hk Hts) as (r & he & Hr & Hin & Hlen & Hb).
    apply list_elem_of_lookup in Hin as [i Hi]. pose proof (lookup_lt_Some _ _ _ Hi) as Hlt.
    rewrite (Permutation_length (m_entries _ _ _ Hm')), length_map_to_list in Hlen.
    exists [r; Z.of_nat i]. split; [repeat constructor; lia|].
    unfold dictGetRandomKey. rewrite Hsize, Hstep. cbn [mbind option_bind]. rewrite Hb. cbn [mbind option_bind head].
    rewrite Z.mod_small, Nat2Z.id, Hi by lia. done.
Qed.

Record sample_inv d (count : Z) (need : nat) (st : sampling) : Prop := {
  si_i : 0 <= sm_i st;
  si_des : forall e, e ∈ sm_des st -> e ∈ dict_entries d;
  si_len : Z.of_nat (length (sm_des st)) <= count;
  si_rnd : (need <= length (sm_rnd st))%nat;
  si_pos : Forall (fun r => 0 <= r) (sm_rnd st);
}.

(** The sizes are the lengths of the tables. *)
Definition sized d : Prop :=
  ht_size (ht0 d) = Z.of_nat (length (ht_table (ht0 d))) /\
  ht_size (ht1 d) = Z.of_nat (length (ht_table (ht1 d))).

Lemma state_sized d : dict_state hashFunction d -> sized d.
Proof.
  intros [H0 H1 _|H0 H1 _|[H0 H1 _ _]]; split; try (by rewrite ?H0, ?H1);
    first [apply (ok_len _ _ H0)|apply (ok_len _ _ H1)].
Qed.

Lemma sample_table_spec d rehash count mask j st need : sized d -> 0 <= mask -> (j = 0 \/ j = 1) ->
  sample_inv d count (S need) st ->
  exists st' ret, sample_table d rehash count mask j st = Some (st', ret) /\ sample_inv d count need st'.
Proof.
  intros [L0 L1] Hmask Hj [Hi Hdes Hlen Hrnd Hpos]. unfold sample_table.
  set (skip := rehash && (j =? 0) && _). destruct (skip && (sm_i st <? ht_size (ht1 d))).
  { eexists _, _. split; [done|]. split; [done..|lia|done]. }
  set (i := if skip then u64 (rehashidx d) else sm_i st).
  assert (0 <= i) as Hi' by (subst i; destruct skip; [apply uwrap_range; lia|done]).
  assert (ht_size (nth_table d j) = Z.of_nat (length (ht_table (nth_table d j)))) as Lj
    by (unfold nth_table; destruct Hj as [->| ->]; done).
  assert (forall e, e ∈ entries (nth_table d j) -> e ∈ dict_entries d) as Hsub.
  { intros e. unfold nth_table. destruct Hj as [->| ->]; [apply entries_sub0|apply entries_sub1]. }
  clearbody i skip. cbn [sm_emptylen sm_des sm_rnd]. rewrite Z.geb_leb.
  destruct (Z.leb_spec (ht_size (nth_table d j)) i) as [Hge|Hlt].
  { eexists _, _. split; [done|]. split; simpl; [done..|lia|done]. }
  destruct (lookup_lt_is_Some_2 (ht_table (nth_table d j)) (Z.to_nat i)) as [he Hhe]; [lia|].
  assert (bucket (nth_table d j) i = Some he) as Hb by (unfold bucket; by rewrite (proj2 (Z.leb_le 0 _))).
  rewrite Hb. cbn [mbind option_bind]. destruct he as [|e0 he].
  - destruct (_ && _).
    + destruct (sm_rnd st) as [|r rnd]; [simpl in Hrnd; lia|]. apply Forall_cons in Hpos as [Hr Hpos]. simpl.
      eexists _, _. split; [reflexivity|]. split; simpl; [|done|done|simpl in Hrnd; lia|done].
      apply Z.land_nonneg. by left.
    + eexists _, _. split; [done|]. split; simpl; [done..|lia|done].
  - eexists _, _. split; [done|]. split; cbn [sm_i sm_des sm_rnd]; [done| | |lia|done].
    + intros e He. apply elem_of_app in He as [He|He]; [by apply Hdes|]. apply Hsub.
      eapply bucket_sub; [exact Hb|]. by eapply list_elem_of_take_1 || (apply elem_of_take in He as (? & ? & ?); by eapply list_elem_of_lookup_2).
    + rewrite length_app, length_take. lia.
Qed.

Lemma sample_loop_spec d rehash count mask steps : sized d -> 0 <= mask ->
  forall st, sample_inv d count (2 * steps) st ->
  exists des, sample_loop steps d rehash count mask st = Some des /\
    (forall e, e ∈ des -> e ∈ dict_entries d) /\ Z.of_nat (length des) <= count.
Proof.
  intros Hw Hmask. induction steps as [|steps IH]; intros st Hst; cbn [sample_loop].
  { exists (sm_des st). destruct Hst; done. }
  destruct (Z.of_nat (length (sm_des st)) <? count); [|exists (sm_des st); destruct Hst; done].
  replace (2 * S steps)%nat with (S (S (2 * steps))) in Hst by lia.
  destruct (sample_table_spec d rehash count mask 0 st _ Hw Hmask (or_introl eq_refl) Hst) as (st1 & ret & -> & H1).
  cbn [mbind option_bind]. destruct ret; [exists (sm_des st1); destruct H1; done|].
  assert (exists st2 ret2, (if rehash then sample_table d rehash count mask 1 st1 else Some (st1, false)) = Some (st2, ret2) /\
    sample_inv d count (2 * steps) st2) as (st2 & ret2 & -> & H2).
  { destruct rehash; [by apply sample_table_spec; [..|right|]|]. exists st1, false. split; [done|].
    destruct H1. split; try done. lia. }
  cbn [mbind option_bind]. destruct ret2; [exists (sm_des st2); destruct H2; done|].
  apply IH. destruct H2. split; simpl; try done. apply Z.land_nonneg. left. apply uwrap_range. lia.
Qed.

Lemma rehash_steps_models n : forall d (m : gmap K V), models hashFunction d m ->
  exists d', rehash_steps n d = Some d' /\ models hashFunction d' m.
Proof.
  induction n as [|n IH]; intros d m Hm; cbn [rehash_steps]; [by exists d|].
  destruct (step_models d m Hm) as (d' & Hd & Hm'). destruct (dictIsRehashing d); [|by exists d].
  rewrite Hd. cbn [mbind option_bind]. by apply IH.
Qed.

Lemma mask_nonneg d : dict_state hashFunction d -> 0 <= ht_sizemask (ht0 d) /\ 0 <= ht_sizemask (ht1 d).
Proof.
  assert (forall h, ht_ok hashFunction h -> 0 <= ht_sizemask h) as Hok.
  { intros h Hh. rewrite (ok_mask _ _ Hh). destruct (ok_pow _ _ Hh) as (k & Hk & ->). lia. }
  intros [H0 H1 _|H0 H1 _|[H0 H1 _ _]]; rewrite ?H1; split; try (by apply Hok); try done. by rewrite H0.
Qed.

(** [dictGetSomeKeys] samples safely: for any number of keys asked and any
    results of random(3) it ends within its step bound without touching a bucket
    out of range, stores at most the number asked, and only entries of the
    dictionary, whose contents it keeps. *)
Theorem some_keys_correct d (m : gmap K V) count rnd : models hashFunction d m -> 0 <= count < 2 ^ 32 ->
  1 + 20 * count <= Z.of_nat (length rnd) -> Forall (fun r => 0 <= r) rnd ->
  exists d' des, dictGetSomeKeys d count rnd = Some (d', des) /\ models hashFunction d' m /\
    Z.of_nat (length des) <= count /\ forall k x, (k, x) ∈ des -> m !! k = Some x.
Proof.
  intros Hm Hc Hrnd Hpos. unfold dictGetSomeKeys. rewrite (dictSize_models d m Hm).
  set (c := if _ <? count then _ else count).
  assert (0 <= c <= count) as Hc'.
  { subst c. destruct (Z.ltb_spec (Z.of_nat (size m)) count); [rewrite uwrap_small by lia|]; lia. }
  assert (0 <= u32 (c * 10) <= c * 10) as Hsteps.
  { split; [apply uwrap_range; lia|apply Z.mod_le; lia]. }
  destruct (rehash_steps_models (Z.to_nat c) d m Hm) as (d' & -> & Hm'). cbn [mbind option_bind].
  destruct (mask_nonneg d' (m_state _ _ _ Hm')) as [M0 M1].
  set (mask := if dictIsRehashing d' && _ then _ else _).
  assert (0 <= mask) as Hmask by (subst mask; by destruct (_ && _)).
  destruct rnd as [|r rnd]; [simpl in Hrnd; lia|]. apply Forall_cons in Hpos as [Hr Hpos].
  cbn [head tail mbind option_bind].
  destruct (sample_loop_spec d' (dictIsRehashing d') c mask (Z.to_nat (u32 (c * 10)))
    (state_sized d' (m_state _ _ _ Hm')) Hmask (mkSampling (Z.land r mask) 0 [] rnd)) as (des & -> & Hsub & Hlen).
  { split; simpl; [|set_solver|lia|simpl in Hrnd; lia|done]. apply Z.land_nonneg. by left. }
  cbn [mbind option_bind]. exists d', des. split_and!; [done|done|lia|].
  intros k x Hin. apply (models_elem d' m k x Hm'). by apply Hsub.
Qed.
End iter.

(** ** Witnesses *)

Lemma iterate_complete_witness : exists (d d' : dict Z Z) it' es, models id_hash d {[ 1 := 10 ]} /\
  iterate 2 (0, 0) d dictGetSafeIterator = Some (d', it', es) /\ es ≡ₚ [(1, 10)].
Proof.
  destruct (dictAdd_spec id_hash 0 true dictCreate (∅ : gmap Z Z) 1 10) as (d & Hd & Hm);
    [apply dictCreate_models|rewrite map_size_empty; unfold max_entries; lia|].
  assert (models id_hash d ({[ 1 := 10 ]} : gmap Z Z)) as Hs by exact Hm. clear Hm.
  vm_compute in Hd. injection Hd as Hd.
  destruct (iterate_complete id_hash (0, 0) d {[ 1 := 10 ]} true Hs) as (d' & it' & es & Hi & Hes & _); [by subst d; vm_compute|].
  exists d, d', it', es. split_and!; [done|exact Hi|]. by rewrite Hes, map_to_list_singleton.
Defined.

Lemma random_key_correct_witness : exists d d' : dict Z Z, models id_hash d {[ 1 := 10 ]} /\
  forall rnd d2 e, dictGetRandomKey id_hash d rnd = Some (d2, e) -> d2 = d' /\ exists k x, e = Some (k, x).
Proof.
  destruct sample_dict_models as [d Hd].
  destruct (random_key_correct id_hash d _ Hd (insert_non_empty _ _ _)) as (d' & _ & Hs & _);
    [rewrite map_size_singleton; lia|].
  exists d, d'. split; [done|]. intros rnd d2 e He. destruct (Hs rnd d2 e He) as (-> & k & x & -> & _). eauto.
Defined.

Lemma some_keys_correct_witness : exists (d d' : dict Z Z) des,
  dictGetSomeKeys id_hash d 1 (replicate 21 0) = Some (d', des) /\ Z.of_nat (length des) <= 1.
Proof.
  destruct sample_dict_models as [d Hd].
  destruct (some_keys_correct id_hash d _ 1 (replicate 21 0) Hd) as (d' & des & He & _ & Hl & _);
    [lia|rewrite length_replicate; lia|by apply Forall_replicate|]. by exists d, d', des.
Defined.
