(* ===== verification/TSet.v ===== *)
(** * The set type (src/redis-5.0.7/src/t_set.c, set API)

    A set object is an intset while all members are integers and few enough, and
    a dictionary of sds keys otherwise; the operations dispatch on the encoding
    and convert when they must.  Keys of the dictionary are compared and hashed by
    content, so they are byte strings.  The server parameters
    (set_max_intset_entries, whether dictionaries may be resized) and the hash
    function are section variables. *)

From S2P Require Import Prelude Endian Intset Util Sds Dict DictIter.
From stdpp Require Import gmap strings.
Local Open Scope Z_scope.

Section tset.
Context `{Host} (junk : nat -> byte).
Context (hash : list byte -> Z).            (* dictSdsHash *)
Context (dict_can_resize : bool).
Context (set_max_intset_entries : Z).       (* server.set_max_intset_entries *)

(** ** Code *)

(** [robj] of type OBJ_SET, with its encoding. *)
Inductive setobj :=
  | SetHT (ht : dict (list byte) unit)
  | SetIntset (s : intset).

Definition createSetObject : setobj := SetHT dictCreate.
Definition createIntsetObject : setobj := SetIntset intsetNew.

Definition isSdsRepresentableAsLongLong (s : list byte) : option Z := string2ll s.

Definition setTypeCreate (value : list byte) : setobj :=
  match isSdsRepresentableAsLongLong value with
  | Some _ => createIntsetObject
  | None => createSetObject
  end.

Definition HASHTABLE_MIN_FILL : Z := 10.

Definition htNeedsResize {V} (d : dict (list byte) V) : bool :=
  let size := s64 (u64 (ht_size (ht0 d) + ht_size (ht1 d))) in
  let used := s64 (dictSize d) in
  (size >? DICT_HT_INITIAL_SIZE) && (Z.quot (s64 (used * 100)) size <? HASHTABLE_MIN_FILL).

(** The loop of [setTypeConvert]: [ii] is the position of the set iterator. *)
Fixpoint convert_loop (fuel : nat) (s : intset) (ii : Z) (d : dict (list byte) unit)
    : option (dict (list byte) unit) :=
  match fuel with
  | O => None
  | S fuel =>
      next ← intsetGet s (u32 ii);
      match next with
      | None => Some d
      | Some intele =>
          element ← sdsfromlonglong junk intele;
          key ← sds_bytes element;
          r ← dictAdd hash tt dict_can_resize d key tt;
          let '(d, ok) := r in
          if (ok : bool) then convert_loop fuel s (s32 (ii + 1)) d else None (* serverAssert *)
      end
  end.

(** [setTypeConvert(setobj, OBJ_ENCODING_HT)] *)
Definition setTypeConvert (o : setobj) : option setobj :=
  match o with
  | SetIntset s =>
      r ← dictExpand dictCreate (intsetLen s);
      d ← convert_loop (S (Z.to_nat (intsetLen s))) s 0 r.1;
      Some (SetHT d)
  | SetHT _ => None (* serverAssert *)
  end.

(** Returns the object and whether the value was added. *)
Definition setTypeAdd (subject : setobj) (value : list byte) : option (setobj * bool) :=
  match subject with
  | SetHT ht =>
      r ← dictAddRaw hash tt dict_can_resize ht value;
      let '(ht, added, _) := r in
      if (added : bool) then Some (SetHT (dictSetVal ht value tt), true)
      else Some (SetHT ht, false)
  | SetIntset s =>
      match isSdsRepresentableAsLongLong value with
      | Some llval =>
          r ← intsetAdd junk s llval;
          let '(s, success) := r in
          if (success : bool) then
            if intsetLen s >? set_max_intset_entries
            then o ← setTypeConvert (SetIntset s); Some (o, true)
            else Some (SetIntset s, true)
          else Some (SetIntset s, false)
      | None =>
          o ← setTypeConvert (SetIntset s);
          match o with
          | SetHT d =>
              r ← dictAdd hash tt dict_can_resize d value tt;
              if (r.2 : bool) then Some (SetHT r.1, true) else None (* serverAssert *)
          | SetIntset _ => None
          end
      end
  end.

Definition setTypeRemove (o : setobj) (value : list byte) : option (setobj * bool) :=
  match o with
  | SetHT d =>
      r ← dictDelete hash d value;
      let '(d, ok) := r in
      if (ok : bool) then
        if htNeedsResize d then q ← dictResize dict_can_resize d; Some (SetHT q.1, true)
        else Some (SetHT d, true)
      else Some (SetHT d, false)
  | SetIntset s =>
      match isSdsRepresentableAsLongLong value with
      | Some llval => r ← intsetRemove junk s llval; Some (SetIntset r.1, r.2)
      | None => Some (o, false)
      end
  end.

(** A look-up in a dictionary may rehash it. *)
Definition setTypeIsMember (o : setobj) (value : list byte) : option (setobj * bool) :=
  match o with
  | SetHT d => r ← dictFind hash d value; Some (SetHT r.1, bool_decide (is_Some r.2))
  | SetIntset s =>
      match isSdsRepresentableAsLongLong value with
      | Some llval => b ← intsetFind s llval; Some (o, b)
      | None => Some (o, false)
      end
  end.

Definition setTypeSize (o : setobj) : Z :=
  match o with
  | SetHT d => dictSize d
  | SetIntset s => intsetLen s
  end.

(** ** Iteration *)

(** [setTypeIterator]: a dictionary iterator or a position. *)
Inductive setTypeIterator := SIdict (di : dictIterator (K := list byte) (V := unit)) | SIint (ii : Z).

Definition setTypeInitIterator (o : setobj) : setTypeIterator :=
  match o with SetHT _ => SIdict dictGetIterator | SetIntset _ => SIint 0 end.

(** What [setTypeNext] stores: an sds or an integer. *)
Inductive setele := ESds (e : list byte) | EInt (v : Z).

(** The inner [None] is -1.  The iterator is not a safe one, so the dictionary
    does not change; [tables] are the addresses its fingerprint reads. *)
Definition setTypeNext (tables : Z * Z) (o : setobj) (si : setTypeIterator)
    : option (setTypeIterator * option setele) :=
  match o, si with
  | SetHT d, SIdict di =>
      r ← dictNext tables d di;
      Some (SIdict r.1.2, option_map (fun e => ESds (fst e)) r.2)
  | SetIntset s, SIint ii =>
      v ← intsetGet s (u32 ii);
      Some (SIint (s32 (ii + 1)), option_map EInt v)
  | _, _ => None
  end.

(** The element as a new sds. *)
Definition setTypeNextObject (tables : Z * Z) (o : setobj) (si : setTypeIterator)
    : option (setTypeIterator * option (list byte)) :=
  r ← setTypeNext tables o si;
  match r.2 with
  | None => Some (r.1, None)
  | Some (EInt v) => x ← sdsfromlonglong junk v; e ← sds_bytes x; Some (r.1, Some e)
  | Some (ESds e) => Some (r.1, Some e)
  end.

Definition setTypeReleaseIterator (tables : Z * Z) (o : setobj) (si : setTypeIterator) : option setobj :=
  match o, si with
  | SetHT d, SIdict di => d ← dictReleaseIterator tables d di; Some (SetHT d)
  | SetIntset _, SIint _ => Some o
  | _, _ => None
  end.

(** ** Representation *)

(** The object is well formed and stands for the set of byte strings [X]. *)
Definition set_models (o : setobj) (X : gset (list byte)) : Prop :=
  match o with
  | SetHT d => exists m, Dict.models hash d m /\ X = dom m
  | SetIntset s => exists Y : gset Z, Intset.models s Y /\ X = set_map decimal Y
  end.

(** The bound on the cardinality that keeps the sizes of both encodings exact. *)
Definition max_set : Z := 2 ^ 29.

Lemma decimal_inj v w : in_s 64 v -> in_s 64 w -> decimal v = decimal w -> v = w.
Proof.
  intros Hv Hw E. pose proof (string2ll_complete v Hv) as H1. rewrite E, (string2ll_complete w Hw) in H1. congruence.
Qed.

Lemma sdsfromlonglong_key v : in_s 64 v ->
  exists s, sdsfromlonglong junk v = Some s /\ sds_bytes s = Some (decimal v).
Proof.
  intros Hv. destruct (sdsfromlonglong_spec junk v Hv) as (s & Hs & [_ Hl _ [tail Hb]]).
  exists s. split; [done|]. unfold sds_bytes. rewrite Hl, Hb. by apply load_prefix.
Qed.

Lemma decimal_elem v (Y : gset Z) : in_s 64 v -> (forall y, y ∈ Y -> in_s 64 y) ->
  decimal v ∈ (set_map decimal Y : gset (list byte)) <-> v ∈ Y.
Proof.
  intros Hv HY. rewrite elem_of_map. split.
  - intros (y & E & Hy). by rewrite (decimal_inj v y Hv (HY y Hy) E).
  - intros Hin. by exists v.
Qed.

Lemma not_integer_elem value (Y : gset Z) : string2ll value = None -> (forall y, y ∈ Y -> in_s 64 y) ->
  value ∉ (set_map decimal Y : gset (list byte)).
Proof.
  intros Hn HY Hin. apply elem_of_map in Hin as (y & -> & Hy). rewrite string2ll_complete in Hn by auto. done.
Qed.

Lemma decimal_map_size (Y : gset Z) : (forall y, y ∈ Y -> in_s 64 y) ->
  size (set_map decimal Y : gset (list byte)) = size Y.
Proof.
  induction Y as [|y Y Hy IH] using set_ind_L; intros HY; [by rewrite set_map_empty|].
  rewrite set_map_union_L, set_map_singleton_L.
  assert (decimal y ∉ (set_map decimal Y : gset (list byte))) as Hd.
  { rewrite decimal_elem; [done|apply HY; set_solver|intros z Hz; apply HY; set_solver]. }
  rewrite (size_union {[decimal y]}), (size_union {[y]}), !size_singleton, IH; [done| |set_solver..].
  intros z Hz. apply HY. set_solver.
Qed.

Lemma size_union_le `{Countable A} (X Y : gset A) : (size (X ∪ Y) <= size X + size Y)%nat.
Proof. rewrite size_union_alt. pose proof (subseteq_size (Y ∖ X) Y ltac:(set_solver)). lia. Qed.

Lemma size_list_to_set_le `{Countable A} (l : list A) : (size (list_to_set l : gset A) <= length l)%nat.
Proof.
  induction l as [|x l IH]; [by vm_compute|]. cbn [list_to_set length].
  pose proof (size_union_le {[x]} (list_to_set l : gset A)). rewrite size_singleton in *. lia.
Qed.

(** ** Conversion *)

Lemma dict_add_key (d : dict (list byte) unit) (m : gmap (list byte) unit) key : Dict.models hash d m -> Z.of_nat (size m) < max_set ->
  exists d' m', dictAdd hash tt dict_can_resize d key tt = Some (d', bool_decide (key ∉ dom m)) /\
    Dict.models hash d' m' /\ dom m' = {[key]} ∪ dom m.
Proof.
  intros Hm Hsz. destruct (dictAdd_spec hash tt dict_can_resize d m key tt Hm) as (d' & Hd & Hm').
  { unfold max_entries, max_set in *. lia. }
  eexists d', _. split_and!; [|exact Hm'|].
  - rewrite Hd. do 2 f_equal. apply bool_decide_ext. by rewrite not_elem_of_dom.
  - destruct (m !! key) eqn:E; [|by rewrite dom_insert_L]. apply elem_of_dom_2 in E. set_solver.
Qed.

Lemma convert_loop_spec s l : (forall i : nat, intsetGet s (Z.of_nat i) = Some (l !! i)) ->
  StronglySorted Z.lt l -> Forall (in_s 64) l -> Z.of_nat (length l) < max_set ->
  forall fuel i (d : dict (list byte) unit) m, (length l - i < fuel)%nat -> (i <= length l)%nat ->
  Dict.models hash d m -> dom m = list_to_set (decimal <$> take i l) ->
  exists d' m', convert_loop fuel s (Z.of_nat i) d = Some d' /\ Dict.models hash d' m' /\
    dom m' = list_to_set (decimal <$> l).
Proof.
  intros Hget Hs Hr Hmax. unfold max_set in Hmax. induction fuel as [|fuel IH]; intros i d m Hf Hi Hm Hdom; [lia|].
  cbn [convert_loop]. rewrite uwrap_small, Hget by lia. cbn [mbind option_bind].
  destruct (l !! i) as [v|] eqn:Hv.
  - assert (in_s 64 v) as Hv64 by (by apply (Forall_lookup_1 _ _ _ _ Hr Hv)).
    destruct (sdsfromlonglong_key v Hv64) as (x & -> & Hx). cbn [mbind option_bind]. rewrite Hx. cbn [mbind option_bind].
    assert (decimal v ∉ dom m) as Hnew.
    { rewrite Hdom, elem_of_list_to_set, list_elem_of_fmap. intros (w & E & Hw).
      apply list_elem_of_lookup in Hw as [j Hj]. apply lookup_take_Some in Hj as [Hj Hlt].
      pose proof (increasing_lookup l j i w v Hs Hj Hv Hlt).
      assert (v = w); [|lia]. apply decimal_inj; [done| |done]. by apply (Forall_lookup_1 _ _ _ _ Hr Hj). }
    assert (size m <= length l)%nat as Hsz.
    { rewrite <- size_dom, Hdom. etransitivity; [apply size_list_to_set_le|]. rewrite length_fmap, length_take. lia. }
    destruct (dict_add_key d m (decimal v) Hm) as (d1 & m1 & -> & Hm1 & Hd1); [unfold max_set; lia|].
    cbn [mbind option_bind]. rewrite bool_decide_eq_true_2 by done.
    rewrite swrap_small by (limits; lia). replace (Z.of_nat i + 1) with (Z.of_nat (S i)) by lia.
    pose proof (lookup_lt_Some _ _ _ Hv). apply (IH (S i) d1 m1); [lia|lia|done|].
    rewrite Hd1, Hdom, (take_S_r _ _ v) by done. rewrite fmap_app, list_to_set_app_L. simpl. set_solver.
  - apply lookup_ge_None in Hv. exists d, m. split_and!; [done|done|]. by rewrite firstn_all2 in Hdom by lia.
Qed.

Lemma size_models_intset s (Y : gset Z) : Intset.models s Y -> intsetLen s = Z.of_nat (size Y).
Proof.
  intros Hm. destruct (intsetGet_spec s Y Hm) as (l & Hs & -> & -> & _).
  rewrite size_list_to_set; [done|]. by apply increasing_NoDup.
Qed.

Lemma setTypeConvert_spec s (Y : gset Z) : Intset.models s Y -> Z.of_nat (size Y) < max_set ->
  exists d m, setTypeConvert (SetIntset s) = Some (SetHT d) /\ Dict.models hash d m /\ dom m = set_map decimal Y.
Proof.
  intros Hm Hsz. pose proof (models_range s Y Hm) as HY. rewrite (eq_sym (size_models_intset s Y Hm) : _ = _) in Hsz.
  destruct (intsetGet_spec s Y Hm) as (l & Hs & -> & Hl & Hget). cbn [setTypeConvert]. rewrite Hl in *.
  destruct (dictExpand_spec (V := unit) hash dictCreate (Z.of_nat (length l)) (m_state _ _ _ (dictCreate_models hash)) ltac:(unfold max_set in Hsz; lia))
    as (d0 & ok & -> & Hst & He & _).
  cbn [mbind option_bind fst].
  assert (Dict.models hash d0 (∅ : gmap (list byte) unit)) as Hm0.
  { eapply models_perm; [apply dictCreate_models|done|by rewrite He]. }
  destruct (convert_loop_spec s l Hget Hs) with (fuel := S (Z.to_nat (Z.of_nat (length l)))) (i := 0%nat) (d := d0)
    (m := ∅ : gmap (list byte) unit) as (d & m & Hloop & Hmd & Hdom); try done; [|lia|lia|].
  { apply Forall_forall. intros x Hx. apply HY. by apply elem_of_list_to_set. }
  change (Z.of_nat 0) with 0 in Hloop. rewrite Hloop. cbn [mbind option_bind]. exists d, m. split_and!; [done|done|].
  rewrite Hdom. symmetry. apply set_eq. intros x. rewrite elem_of_map, elem_of_list_to_set, list_elem_of_fmap. set_solver.
Qed.

(** ** Operations *)

Lemma set_size_bound o X : set_models o X -> Z.of_nat (size X) < max_set -> setTypeSize o = Z.of_nat (size X).
Proof.
  destruct o as [d|s]; simpl.
  - intros (m & Hm & ->) _. rewrite (dictSize_models hash d m Hm). by rewrite size_dom.
  - intros (Y & Hm & ->) _. rewrite (decimal_map_size Y (models_range s Y Hm)). by apply size_models_intset.
Qed.

Lemma dict_add_raw (d : dict (list byte) unit) (m : gmap (list byte) unit) value : Dict.models hash d m -> Z.of_nat (size m) < max_set ->
  exists d' m', setTypeAdd (SetHT d) value = Some (SetHT d', bool_decide (value ∉ dom m)) /\
    Dict.models hash d' m' /\ dom m' = {[value]} ∪ dom m.
Proof.
  intros Hm Hsz. destruct (dict_add_key d m value Hm Hsz) as (d' & m' & Hd & Hm' & Hdom).
  unfold dictAdd in Hd. simpl. destruct (dictAddRaw hash tt dict_can_resize d value) as [[[d1 added] ex]|]; [|done].
  cbn [mbind option_bind] in *. exists d', m'. split; [|done]. destruct added; simpl in Hd;
    injection Hd as Hd' Hb; by rewrite <- Hd', <- Hb.
Qed.

Lemma setTypeAdd_spec o X value : set_models o X -> Z.of_nat (size X) + 1 < max_set ->
  exists o', setTypeAdd o value = Some (o', bool_decide (value ∉ X)) /\ set_models o' ({[value]} ∪ X).
Proof.
  destruct o as [d|s].
  - intros (m & Hm & ->) Hsz. rewrite size_dom in Hsz.
    destruct (dict_add_raw d m value Hm ltac:(lia)) as (d' & m' & Hd & Hm' & Hdom).
    exists (SetHT d'). split; [done|]. by exists m'.
  - intros (Y & Hm & ->) Hsz. pose proof (models_range s Y Hm) as HY. rewrite decimal_map_size in Hsz by done.
    cbn [setTypeAdd]. unfold isSdsRepresentableAsLongLong.
    destruct (string2ll value) as [v|] eqn:Ev.
    + apply string2ll_sound in Ev as [Hv ->].
      destruct (intsetAdd_spec junk s Y v Hm Hv Hsz) as (s' & -> & Hm'). cbn [mbind option_bind].
      assert (bool_decide (v ∉ Y) = bool_decide (decimal v ∉ (set_map decimal Y : gset (list byte)))) as Hdec.
      { apply bool_decide_ext. by rewrite decimal_elem. }
      assert (set_map decimal ({[v]} ∪ Y) = {[decimal v]} ∪ (set_map decimal Y : gset (list byte))) as Hmap.
      { by rewrite set_map_union_L, set_map_singleton_L. }
      rewrite <- Hdec. case_bool_decide as Hin.
      * destruct (_ >? _).
        -- destruct (setTypeConvert_spec s' _ Hm') as (d & m & -> & Hmd & Hdom).
           { pose proof (size_union_le {[v]} Y). rewrite size_singleton in *. unfold max_set in *. lia. }
           cbn [mbind option_bind]. exists (SetHT d). split; [done|]. exists m. split; [done|]. by rewrite Hdom, Hmap.
        -- exists (SetIntset s'). split; [done|]. exists ({[v]} ∪ Y). split; [done|]. by rewrite Hmap.
      * exists (SetIntset s'). split; [done|]. exists ({[v]} ∪ Y). split; [done|]. by rewrite Hmap.
    + destruct (setTypeConvert_spec s Y Hm ltac:(lia)) as (d & m & -> & Hmd & Hdom). cbn [mbind option_bind].
      assert (size m = size Y) as Hsm by (by rewrite <- size_dom, Hdom, decimal_map_size).
      destruct (dict_add_key d m value Hmd ltac:(lia)) as (d' & m' & -> & Hm' & Hdom'). cbn [mbind option_bind fst snd].
      pose proof (not_integer_elem value Y Ev HY) as Hnot. rewrite Hdom.
      rewrite !bool_decide_eq_true_2 by done. exists (SetHT d'). split; [done|]. exists m'. split; [done|].
      by rewrite Hdom', Hdom.
Qed.

Lemma dict_delete_key (d : dict (list byte) unit) (m : gmap (list byte) unit) value : Dict.models hash d m ->
  exists d', setTypeRemove (SetHT d) value = Some (SetHT d', bool_decide (value ∈ dom m)) /\
    Dict.models hash d' (delete value m).
Proof.
  intros Hm. simpl. unfold dictDelete. destruct (dictGenericDelete_spec hash d m value Hm) as (d1 & -> & Hm1).
  cbn [mbind option_bind fst snd].
  assert (bool_decide (is_Some (pair value <$> m !! value)) = bool_decide (value ∈ dom m)) as ->.
  { apply bool_decide_ext. by rewrite fmap_is_Some, elem_of_dom. }
  case_bool_decide; [|by exists d1]. destruct (htNeedsResize d1); [|by exists d1].
  destruct (dictResize_spec hash dict_can_resize d1 _ Hm1) as (d2 & ok & -> & Hm2).
  cbn [mbind option_bind fst]. by exists d2.
Qed.

Lemma setTypeRemove_spec o X value : set_models o X -> Z.of_nat (size X) < max_set ->
  exists o', setTypeRemove o value = Some (o', bool_decide (value ∈ X)) /\ set_models o' (X ∖ {[value]}).
Proof.
  destruct o as [d|s].
  - intros (m & Hm & ->) _. destruct (dict_delete_key d m value Hm) as (d' & -> & Hm').
    exists (SetHT d'). split; [done|]. exists (delete value m). split; [done|]. by rewrite dom_delete_L.
  - intros (Y & Hm & ->) Hsz. pose proof (models_range s Y Hm) as HY. rewrite decimal_map_size in Hsz by done.
    cbn [setTypeRemove]. unfold isSdsRepresentableAsLongLong.
    destruct (string2ll value) as [v|] eqn:Ev.
    + apply string2ll_sound in Ev as [Hv ->].
      destruct (intsetRemove_spec junk s Y v Hm Hv Hsz) as (s' & -> & Hm'). cbn [mbind option_bind fst snd].
      exists (SetIntset s'). split.
      * do 2 f_equal. apply bool_decide_ext. by rewrite decimal_elem.
      * exists (Y ∖ {[v]}). split; [done|]. apply set_eq. intros x.
        rewrite elem_of_difference, elem_of_singleton, !elem_of_map. split.
        -- intros [(y & -> & Hy) Hne]. exists y. split; [done|]. set_solver.
        -- intros (y & -> & [Hy Hne]%elem_of_difference). split; [by exists y|]. intros E.
           apply Hne, elem_of_singleton. apply decimal_inj; auto.
    + pose proof (not_integer_elem value Y Ev HY) as Hnot. exists (SetIntset s).
      rewrite bool_decide_eq_false_2 by done. split; [done|]. exists Y. split; [done|]. set_solver.
Qed.

Lemma setTypeIsMember_spec o X value : set_models o X -> Z.of_nat (size X) < max_set ->
  exists o', setTypeIsMember o value = Some (o', bool_decide (value ∈ X)) /\ set_models o' X.
Proof.
  destruct o as [d|s].
  - intros (m & Hm & ->) _. simpl. destruct (dictFind_spec hash d m value Hm) as (d' & -> & Hm').
    cbn [mbind option_bind fst snd]. exists (SetHT d'). split; [|by exists m].
    do 2 f_equal. apply bool_decide_ext. by rewrite fmap_is_Some, elem_of_dom.
  - intros (Y & Hm & ->) Hsz. pose proof (models_range s Y Hm) as HY. rewrite decimal_map_size in Hsz by done.
    cbn [setTypeIsMember]. unfold isSdsRepresentableAsLongLong. exists (SetIntset s).
    destruct (string2ll value) as [v|] eqn:Ev.
    + apply string2ll_sound in Ev as [Hv ->]. rewrite (intsetFind_spec junk s Y v Hm Hv Hsz). cbn [mbind option_bind].
      split; [|by exists Y]. do 2 f_equal. apply bool_decide_ext. by rewrite decimal_elem.
    + rewrite bool_decide_eq_false_2 by (by apply not_integer_elem). split; [done|by exists Y].
Qed.

Lemma setTypeCreate_spec value : set_models (setTypeCreate value) ∅.
Proof.
  unfold setTypeCreate. destruct (isSdsRepresentableAsLongLong value).
  - exists ∅. split; [apply intsetNew_models|]. by rewrite set_map_empty.
  - exists ∅. split; [apply dictCreate_models|]. by rewrite dom_empty_L.
Qed.

(** ** Iteration *)

(** The content of an element. *)
Definition ele_bytes (e : setele) : list byte := match e with ESds l => l | EInt v => decimal v end.

(** The integers of an intset are 64-bit, and of the encoding of the object. *)
Definition ele_ok (o : setobj) (e : setele) : Prop :=
  match o, e with
  | SetHT _, ESds _ => True
  | SetIntset _, EInt v => in_s 64 v
  | _, _ => False
  end.

(** The iterator of [o] has exactly the elements [es] left. *)
Definition iter_left (tables : Z * Z) (o : setobj) (si : setTypeIterator) (es : list setele) : Prop :=
  match o, si with
  | SetHT d, SIdict di =>
      walkable d /\ iter_inv tables d di /\ it_safe di = false /\
      es = map (fun e => ESds (fst e)) (remaining d di)
  | SetIntset s, SIint ii =>
      exists l (i : nat), (forall i : nat, intsetGet s (Z.of_nat i) = Some (l !! i)) /\
        Z.of_nat (length l) < max_set /\ Forall (in_s 64) l /\ ii = Z.of_nat i /\ es = map EInt (drop i l) /\
        (i <= length l + 1)%nat
  | _, _ => False
  end.

Lemma counted_unsafe (d : dict (list byte) unit) di : it_safe di = false -> counted d di = d.
Proof. intros Hs. unfold counted. by rewrite Hs. Qed.

Lemma setTypeNext_spec tables o si es : iter_left tables o si es ->
  exists si', setTypeNext tables o si = Some (si', head es) /\ (es <> [] -> iter_left tables o si' (tail es)).
Proof.
  destruct o as [d|s], si as [di|ii]; try done.
  - intros (Hw & Hinv & Hs & ->). destruct (dictNext_spec tables d di Hw Hinv) as (di' & Hn & Hinv' & Hrem & Hs').
    rewrite (counted_unsafe d di Hs) in Hn. simpl. rewrite Hn. cbn [mbind option_bind].
    exists (SIdict di'). split; [by destruct (remaining d di)|]. intros _.
    split_and!; [done|done|congruence|]. rewrite Hrem. by destruct (remaining d di).
  - intros (l & i & Hget & Hmax & Hr & -> & -> & Hi). unfold max_set in Hmax. simpl.
    rewrite uwrap_small, Hget by lia. cbn [mbind option_bind]. eexists. split; [|].
    + f_equal. f_equal. destruct (l !! i) as [v|] eqn:Hv; [by rewrite (drop_S _ _ _ Hv)|].
      apply lookup_ge_None in Hv. by rewrite drop_ge.
    + intros Hne. exists l, (S i). rewrite swrap_small by (limits; lia). split_and!; try done; [lia| |].
      * destruct (l !! i) as [v|] eqn:Hv; [by rewrite (drop_S _ _ _ Hv)|].
        apply lookup_ge_None in Hv. rewrite drop_ge in Hne by done. done.
      * destruct (decide (i < length l)%nat); [lia|]. rewrite drop_ge in Hne by lia. done.
Qed.

Lemma iter_left_ok tables o si es : iter_left tables o si es -> Forall (ele_ok o) es.
Proof.
  destruct o as [d|s], si as [di|ii]; try done.
  - intros (_ & _ & _ & ->). apply Forall_forall. intros e He. apply list_elem_of_fmap in He as (x & -> & _). done.
  - intros (l & i & _ & _ & Hr & _ & -> & _). apply Forall_forall. intros e He. apply list_elem_of_fmap in He as (x & -> & Hx).
    pose proof (Forall_drop _ i _ Hr) as Hd. rewrite Forall_forall in Hd. by apply Hd.
Qed.

Lemma setTypeNextObject_spec tables o si es : iter_left tables o si es ->
  exists si', setTypeNextObject tables o si = Some (si', head (map ele_bytes es)) /\
    (es <> [] -> iter_left tables o si' (tail es)).
Proof.
  intros Hl. pose proof (iter_left_ok _ _ _ _ Hl) as Hok. unfold setTypeNextObject.
  destruct (setTypeNext_spec tables o si es Hl) as (si' & -> & Htl). cbn [mbind option_bind fst snd].
  exists si'. split; [|done]. destruct es as [|[e|v] es]; simpl; [done..|].
  apply Forall_cons in Hok as [Hv _]. destruct o; [done|]. simpl in Hv.
  destruct (sdsfromlonglong_key v Hv) as (x & -> & Hx). cbn [mbind option_bind]. by rewrite Hx.
Qed.

(** A fresh iterator has every member left, once. *)
Lemma setTypeInitIterator_spec tables o X : set_models o X -> Z.of_nat (size X) < max_set ->
  exists es, iter_left tables o (setTypeInitIterator o) es /\ NoDup (map ele_bytes es) /\
    X = list_to_set (map ele_bytes es).
Proof.
  destruct o as [d|s].
  - intros (m & Hm & ->) _. set (it := dictGetIterator : dictIterator (K := list byte) (V := unit)).
    exists (map (fun e => ESds (fst e)) (remaining d it)).
    assert (remaining d it = dict_entries d) as Hrem by (by apply (fresh_remaining hash d m false)).
    rewrite Hrem, map_map. split; [|split].
    + simpl. split_and!; [by apply (state_walkable hash), (m_state _ _ _ Hm)|by split; [left|..]|done|by rewrite <- Hrem].
    + rewrite (m_entries _ _ _ Hm). apply NoDup_fst_map_to_list.
    + apply set_eq. intros k. rewrite elem_of_dom, elem_of_list_to_set, (m_entries _ _ _ Hm).
      rewrite list_elem_of_In, in_map_iff. split.
      * intros [x Hx]. exists (k, x). split; [done|]. by rewrite <- list_elem_of_In, elem_of_map_to_list.
      * intros ([k' x] & <- & Hin). rewrite <- list_elem_of_In, elem_of_map_to_list in Hin. by exists x.
  - intros (Y & Hm & ->) Hsz. pose proof (models_range s Y Hm) as HY.
    rewrite decimal_map_size in Hsz by done. rewrite <- (size_models_intset s Y Hm) in Hsz.
    destruct (intsetGet_spec s Y Hm) as (l & Hs & -> & Hl & Hget). rewrite Hl in Hsz.
    assert (Forall (in_s 64) l) as Hr by (apply Forall_forall; intros; apply HY; by apply elem_of_list_to_set).
    exists (map EInt l). rewrite map_map. split; [|split].
    + exists l, 0%nat. split_and!; try done. lia.
    + apply NoDup_fmap_2_strong; [|by apply increasing_NoDup].
      rewrite Forall_forall in Hr. intros x y Hx Hy. apply decimal_inj; auto.
    + apply set_eq. intros k. rewrite elem_of_map, elem_of_list_to_set, list_elem_of_In, in_map_iff.
      split; intros (v & E & Hv); exists v; (split; [done|]).
      * by rewrite <- list_elem_of_In, <- (elem_of_list_to_set (C := gset Z)).
      * by rewrite elem_of_list_to_set, list_elem_of_In.
Qed.

(** Call [setTypeNextObject] until it returns NULL, then release the iterator. *)
Fixpoint set_walk (fuel : nat) (tables : Z * Z) (o : setobj) (si : setTypeIterator)
    : option (setTypeIterator * list (list byte)) :=
  match fuel with
  | O => None
  | S fuel =>
      r ← setTypeNextObject tables o si;
      match r.2 with
      | None => Some (r.1, [])
      | Some e => q ← set_walk fuel tables o r.1; Some (q.1, e :: q.2)
      end
  end.

Lemma set_walk_spec fuel tables o : forall si es, iter_left tables o si es -> (length es < fuel)%nat ->
  exists si', set_walk fuel tables o si = Some (si', map ele_bytes es).
Proof.
  induction fuel as [|fuel IH]; intros si es Hl Hf; [lia|]. cbn [set_walk].
  destruct (setTypeNextObject_spec tables o si es Hl) as (si1 & -> & Htl). cbn [mbind option_bind fst snd].
  destruct es as [|e es]; simpl; [by eexists|]. simpl in Hf.
  destruct (IH si1 es (Htl ltac:(done)) ltac:(lia)) as (si' & ->). by eexists.
Qed.

(** ** Sequences of operations *)

Inductive st_op := STAdd (v : list byte) | STRem (v : list byte) | STIsMember (v : list byte).

Definition st_step (o : setobj) (op : st_op) : option (setobj * bool) :=
  match op with
  | STAdd v => setTypeAdd o v
  | STRem v => setTypeRemove o v
  | STIsMember v => setTypeIsMember o v
  end.

Definition strset_step (X : gset (list byte)) (op : st_op) : gset (list byte) * bool :=
  match op with
  | STAdd v => ({[v]} ∪ X, bool_decide (v ∉ X))
  | STRem v => (X ∖ {[v]}, bool_decide (v ∈ X))
  | STIsMember v => (X, bool_decide (v ∈ X))
  end.

Fixpoint st_run (o : setobj) (ops : list st_op) : option (setobj * list bool) :=
  match ops with
  | [] => Some (o, [])
  | op :: ops => r ← st_step o op; q ← st_run r.1 ops; Some (q.1, r.2 :: q.2)
  end.

Fixpoint strset_run (X : gset (list byte)) (ops : list st_op) : gset (list byte) * list bool :=
  match ops with
  | [] => (X, [])
  | op :: ops => let r := strset_step X op in let q := strset_run r.1 ops in (q.1, r.2 :: q.2)
  end.

Lemma st_step_sim o X op : set_models o X -> Z.of_nat (size X) + 1 < max_set ->
  exists o', st_step o op = Some (o', (strset_step X op).2) /\ set_models o' (strset_step X op).1 /\
    (size (strset_step X op).1 <= size X + 1)%nat.
Proof.
  intros Hm Hsz. destruct op as [v|v|v]; simpl.
  - destruct (setTypeAdd_spec o X v Hm Hsz) as (o' & -> & Hm'). exists o'. split_and!; [done..|].
    pose proof (size_union_le {[v]} X). rewrite size_singleton in *. lia.
  - destruct (setTypeRemove_spec o X v Hm ltac:(lia)) as (o' & -> & Hm'). exists o'. split_and!; [done..|].
    pose proof (subseteq_size (X ∖ {[v]}) X ltac:(set_solver)). lia.
  - destruct (setTypeIsMember_spec o X v Hm ltac:(lia)) as (o' & -> & Hm'). exists o'. split_and!; [done..|lia].
Qed.

Lemma st_run_sim ops : forall o X, set_models o X -> Z.of_nat (size X) + Z.of_nat (length ops) < max_set ->
  exists o', st_run o ops = Some (o', (strset_run X ops).2) /\ set_models o' (strset_run X ops).1 /\
    (size (strset_run X ops).1 <= size X + length ops)%nat.
Proof.
  induction ops as [|op ops IH]; intros o X Hm Hsz; simpl; [exists o; split_and!; [done..|lia]|].
  simpl in Hsz. destruct (st_step_sim o X op Hm ltac:(lia)) as (o1 & -> & Hm1 & Hs1). cbn [mbind option_bind fst snd].
  destruct (IH o1 _ Hm1 ltac:(lia)) as (o2 & -> & Hm2 & Hs2). exists o2. split_and!; [done..|lia].
Qed.

(** C20: a set object behaves as a mathematical set of byte strings whatever its
    encoding: from [setTypeCreate], any sequence of fewer than 2^29 additions,
    removals and membership tests completes, converting from intset to hash table
    when a member is not an integer or the intset grows past the configured
    limit, answers as the set would, and reports its cardinality. *)
Theorem set_type_refines first ops : Z.of_nat (length ops) < max_set ->
  exists o, st_run (setTypeCreate first) ops = Some (o, (strset_run ∅ ops).2) /\
    set_models o (strset_run ∅ ops).1 /\ setTypeSize o = Z.of_nat (size (strset_run ∅ ops).1).
Proof.
  intros Hlen. destruct (st_run_sim ops (setTypeCreate first) ∅ (setTypeCreate_spec first)) as (o & Ho & Hm & Hs).
  { rewrite size_empty. lia. }
  exists o. split_and!; [done..|]. apply set_size_bound; [done|]. rewrite size_empty in Hs. lia.
Qed.

(** Iterating over a set object with [setTypeNextObject] yields every member
    exactly once, as a string, whatever the encoding. *)
Theorem set_iteration tables o X : set_models o X -> Z.of_nat (size X) < max_set ->
  exists si es, set_walk (S (size X)) tables o (setTypeInitIterator o) = Some (si, es) /\
    NoDup es /\ X = list_to_set es.
Proof.
  intros Hm Hsz. destruct (setTypeInitIterator_spec tables o X Hm Hsz) as (es & Hl & Hnd & HX).
  destruct (set_walk_spec (S (size X)) tables o _ es Hl) as (si & Hw).
  { rewrite HX, size_list_to_set, length_map by done. lia. }
  by exists si, (map ele_bytes es).
Qed.
End tset.

(** ** Witnesses *)

#[local] Existing Instance le_host.

Definition sum_hash (s : list byte) : Z := foldr Z.add 0 s.

Definition sample_set_ops : list st_op :=
  [STAdd (bytes_of "12"); STAdd (bytes_of "-7"); STAdd (bytes_of "12"); STRem (bytes_of "-7");
   STAdd (bytes_of "foo"); STIsMember (bytes_of "12"); STIsMember (bytes_of "012")].

Lemma set_type_refines_witness : exists o,
  st_run junk_a5 sum_hash true 512 (setTypeCreate (bytes_of "12")) sample_set_ops =
    Some (o, [true; true; false; true; true; true; false]) /\ setTypeSize o = 2.
Proof.
  destruct (set_type_refines junk_a5 sum_hash true 512 (bytes_of "12") sample_set_ops) as (o & Ho & _ & Hs);
    [unfold max_set; simpl; lia|].
  exists o. rewrite Ho, Hs. split; vm_compute; reflexivity.
Defined.

Lemma set_iteration_witness : exists o si es,
  set_walk junk_a5 1 (0, 0) o (setTypeInitIterator o) = Some (si, es) /\ es = [].
Proof.
  exists createIntsetObject.
  destruct (set_iteration junk_a5 sum_hash (0, 0) createIntsetObject ∅) as (si & es & Hw & _ & HX).
  - exists ∅. split; [apply intsetNew_models|by rewrite set_map_empty].
  - rewrite size_empty. unfold max_set. lia.
  - exists si, es. split; [exact Hw|]. destruct es as [|e es]; [done|]. set_solver.
Defined.
