(* ===== verification/Listpack.v ===== *)
(** * Listpacks (src/redis-5.0.7/src/listpack.c)

    A listpack is one block of bytes: a header (total bytes, number of elements),
    the entries (encoding, data, and the entry length to be read backwards) and an
    end byte.  The block is a list of bytes, a pointer into it an offset, and an
    access outside the block has no value; NULL is an inner [None].  Elements are
    byte strings, those that are the decimal notation of a 64-bit integer being
    stored as integers. *)

From S2P Require Import Prelude Util.
From stdpp Require Import strings.
Local Open Scope Z_scope.

(** ** Constants and header *)

Definition LP_HDR_SIZE : Z := 6.
Definition LP_HDR_NUMELE_UNKNOWN : Z := 65535.
Definition LP_EOF : Z := 255.
Definition LP_BEFORE : Z := 0.
Definition LP_AFTER : Z := 1.
Definition LP_REPLACE : Z := 2.

Definition is_7bit_uint (b : byte) : bool := Z.land b 0x80 =? 0.
Definition is_6bit_str (b : byte) : bool := Z.land b 0xC0 =? 0x80.
Definition is_13bit_int (b : byte) : bool := Z.land b 0xE0 =? 0xC0.
Definition is_12bit_str (b : byte) : bool := Z.land b 0xF0 =? 0xE0.
Definition is_16bit_int (b : byte) : bool := Z.land b 0xFF =? 0xF1.
Definition is_24bit_int (b : byte) : bool := Z.land b 0xFF =? 0xF2.
Definition is_32bit_int (b : byte) : bool := Z.land b 0xFF =? 0xF3.
Definition is_64bit_int (b : byte) : bool := Z.land b 0xFF =? 0xF4.
Definition is_32bit_str (b : byte) : bool := Z.land b 0xFF =? 0xF0.

(** Four bytes combined as [b0<<0 | b1<<8 | b2<<16 | b3<<24]. *)
Definition or32 (b0 b1 b2 b3 : byte) : Z :=
  Z.lor (Z.lor (Z.lor (Z.shiftl b0 0) (Z.shiftl b1 8)) (Z.shiftl b2 16)) (Z.shiftl b3 24).

Definition str_len_6bit (b0 : byte) : Z := Z.land b0 0x3F.
Definition str_len_12bit (b0 b1 : byte) : Z := Z.lor (Z.shiftl (Z.land b0 0xF) 8) b1.

Definition lpGetTotalBytes (lp : list byte) : option Z :=
  b0 ← getb lp 0; b1 ← getb lp 1; b2 ← getb lp 2; b3 ← getb lp 3; Some (or32 b0 b1 b2 b3).

Definition lpGetNumElements (lp : list byte) : option Z :=
  b4 ← getb lp 4; b5 ← getb lp 5; Some (Z.lor (Z.shiftl b4 0) (Z.shiftl b5 8)).

Definition lpSetTotalBytes (lp : list byte) (v : Z) : option (list byte) :=
  lp ← put lp 0 (Z.land v 0xff);
  lp ← put lp 1 (Z.land (Z.shiftr v 8) 0xff);
  lp ← put lp 2 (Z.land (Z.shiftr v 16) 0xff);
  put lp 3 (Z.land (Z.shiftr v 24) 0xff).

Definition lpSetNumElements (lp : list byte) (v : Z) : option (list byte) :=
  lp ← put lp 4 (Z.land v 0xff);
  put lp 5 (Z.land (Z.shiftr v 8) 0xff).

(** ** Encoding *)

(** The digit loop and the rest of [lpStringToInt64]; the loop is that of
    [string2ll]. *)
Definition lpStringToInt64 (s : list byte) : option Z :=
  match s with
  | [] => None
  | c0 :: s' =>
      if (length s =? 1)%nat && (c0 =? 48) then Some 0
      else
        let negative := c0 =? 45 in
        let p := if negative then s' else s in
        match p with
        | [] => None
        | c :: p =>
            if (49 <=? c) && (c <=? 57) then
              r ← string2ll_loop p (c - 48);
              let '(v, rest) := r in
              match rest with
              | _ :: _ => None
              | [] =>
                  if (negative : bool) then
                    if v >? u64 (u64 (- (LLONG_MIN + 1)) + 1) then None
                    else Some (s64 (u64 (- v)))
                  else if v >? LLONG_MAX then None else Some v
              end
            else if (c =? 48) && (length s =? 1)%nat then Some 0
            else None
        end
  end.

(** The encoding chosen: the bytes of [intenc], or the length of a string. *)
Inductive lp_enc := EncInt (intenc : list byte) | EncString (enclen : Z).

Definition lpEncodeGetType (ele : list byte) (size : Z) : lp_enc :=
  match lpStringToInt64 ele with
  | Some v =>
      if (v >=? 0) && (v <=? 127) then EncInt [u8 v]
      else if (v >=? -4096) && (v <=? 4095) then
        let v := if v <? 0 then Z.shiftl 1 13 + v else v in
        EncInt [u8 (Z.lor (Z.shiftr v 8) 0xC0); u8 (Z.land v 0xff)]
      else if (v >=? -32768) && (v <=? 32767) then
        let v := if v <? 0 then Z.shiftl 1 16 + v else v in
        EncInt [0xF1; Z.land v 0xff; u8 (Z.shiftr v 8)]
      else if (v >=? -8388608) && (v <=? 8388607) then
        let v := if v <? 0 then Z.shiftl 1 24 + v else v in
        EncInt [0xF2; Z.land v 0xff; Z.land (Z.shiftr v 8) 0xff; u8 (Z.shiftr v 16)]
      else if (v >=? -2147483648) && (v <=? 2147483647) then
        let v := if v <? 0 then Z.shiftl 1 32 + v else v in
        EncInt [0xF3; Z.land v 0xff; Z.land (Z.shiftr v 8) 0xff; Z.land (Z.shiftr v 16) 0xff;
                u8 (Z.shiftr v 24)]
      else
        let uv := u64 v in
        EncInt [0xF4; Z.land uv 0xff; Z.land (Z.shiftr uv 8) 0xff; Z.land (Z.shiftr uv 16) 0xff;
                Z.land (Z.shiftr uv 24) 0xff; Z.land (Z.shiftr uv 32) 0xff; Z.land (Z.shiftr uv 40) 0xff;
                Z.land (Z.shiftr uv 48) 0xff; u8 (Z.shiftr uv 56)]
  | None =>
      EncString (if size <? 64 then 1 + size else if size <? 4096 then 2 + size
                 else u32 (5 + size))
  end.

Definition enc_len (e : lp_enc) : Z :=
  match e with EncInt intenc => Z.of_nat (length intenc) | EncString enclen => enclen end.

(** The bytes written to [buf]; their number is the result. *)
Definition lpEncodeBacklen (l : Z) : list byte :=
  if l <=? 127 then [u8 l]
  else if l <? 16383 then [u8 (Z.shiftr l 7); Z.lor (Z.land l 127) 128]
  else if l <? 2097151 then
    [u8 (Z.shiftr l 14); Z.lor (Z.land (Z.shiftr l 7) 127) 128; Z.lor (Z.land l 127) 128]
  else if l <? 268435455 then
    [u8 (Z.shiftr l 21); Z.lor (Z.land (Z.shiftr l 14) 127) 128;
     Z.lor (Z.land (Z.shiftr l 7) 127) 128; Z.lor (Z.land l 127) 128]
  else
    [u8 (Z.shiftr l 28); Z.lor (Z.land (Z.shiftr l 21) 127) 128; Z.lor (Z.land (Z.shiftr l 14) 127) 128;
     Z.lor (Z.land (Z.shiftr l 7) 127) 128; Z.lor (Z.land l 127) 128].

Definition backlen_size (l : Z) : Z := Z.of_nat (length (lpEncodeBacklen l)).

(** The [do ... while(1)] loop; [shift] is at most 28, so five rounds. *)
Fixpoint backlen_loop (fuel : nat) (lp : list byte) (p val shift : Z) : option Z :=
  match fuel with
  | O => None
  | S fuel =>
      b ← getb lp p;
      let val := Z.lor val (u64 (Z.shiftl (Z.land b 127) shift)) in
      if Z.land b 128 =? 0 then Some val
      else
        let shift := shift + 7 in
        if shift >? 28 then Some ULLONG_MAX
        else backlen_loop fuel lp (p - 1) val shift
  end.

Definition lpDecodeBacklen (lp : list byte) (p : Z) : option Z := backlen_loop 5 lp p 0 0.

(** Writes at [dst] of the block. *)
Definition lpEncodeString (lp : list byte) (dst : Z) (s : list byte) (len : Z) : option (list byte) :=
  if len <? 64 then
    lp ← put lp dst (u8 (Z.lor len 0x80));
    bs ← load s 0 len; store lp (dst + 1) bs
  else if len <? 4096 then
    lp ← put lp dst (u8 (Z.lor (Z.shiftr len 8) 0xE0));
    lp ← put lp (dst + 1) (Z.land len 0xff);
    bs ← load s 0 len; store lp (dst + 2) bs
  else
    lp ← put lp dst 0xF0;
    lp ← put lp (dst + 1) (Z.land len 0xff);
    lp ← put lp (dst + 2) (Z.land (Z.shiftr len 8) 0xff);
    lp ← put lp (dst + 3) (Z.land (Z.shiftr len 16) 0xff);
    lp ← put lp (dst + 4) (Z.land (Z.shiftr len 24) 0xff);
    bs ← load s 0 len; store lp (dst + 5) bs.

(** ** Navigation *)

Definition lpCurrentEncodedSize (lp : list byte) (p : Z) : option Z :=
  b ← getb lp p;
  if is_7bit_uint b then Some 1
  else if is_6bit_str b then Some (1 + str_len_6bit b)
  else if is_13bit_int b then Some 2
  else if is_16bit_int b then Some 3
  else if is_24bit_int b then Some 4
  else if is_32bit_int b then Some 5
  else if is_64bit_int b then Some 9
  else if is_12bit_str b then b1 ← getb lp (p + 1); Some (2 + str_len_12bit b b1)
  else if is_32bit_str b then
    b1 ← getb lp (p + 1); b2 ← getb lp (p + 2); b3 ← getb lp (p + 3); b4 ← getb lp (p + 4);
    Some (u32 (5 + or32 b1 b2 b3 b4))
  else if b =? LP_EOF then Some 1
  else Some 0.

Definition lpSkip (lp : list byte) (p : Z) : option Z :=
  entrylen ← lpCurrentEncodedSize lp p;
  Some (p + (entrylen + backlen_size entrylen)).

Definition lpNext (lp : list byte) (p : Z) : option (option Z) :=
  p ← lpSkip lp p;
  b ← getb lp p;
  if b =? LP_EOF then Some None else Some (Some p).

Definition lpPrev (lp : list byte) (p : Z) : option (option Z) :=
  if p =? LP_HDR_SIZE then Some None
  else
    let p := p - 1 in
    prevlen ← lpDecodeBacklen lp p;
    let prevlen := prevlen + backlen_size prevlen in
    Some (Some (p - prevlen + 1)).

Definition lpFirst (lp : list byte) : option (option Z) :=
  b ← getb lp LP_HDR_SIZE;
  if b =? LP_EOF then Some None else Some (Some LP_HDR_SIZE).

Definition lpLast (lp : list byte) : option (option Z) :=
  total ← lpGetTotalBytes lp;
  lpPrev lp (total - 1).

(** [while(p) { count++; p = lpNext(lp,p); }]; an entry takes two bytes at
    least. *)
Fixpoint length_loop (fuel : nat) (lp : list byte) (p : option Z) (count : Z) : option Z :=
  match p with
  | None => Some count
  | Some p =>
      match fuel with
      | O => None
      | S fuel => p ← lpNext lp p; length_loop fuel lp p (u32 (count + 1))
      end
  end.

(** Returns the block, whose header may be updated, and the number. *)
Definition lpLength (lp : list byte) : option (list byte * Z) :=
  numele ← lpGetNumElements lp;
  if negb (numele =? LP_HDR_NUMELE_UNKNOWN) then Some (lp, numele)
  else
    p ← lpFirst lp;
    count ← length_loop (length lp) lp p 0;
    lp ← (if count <? LP_HDR_NUMELE_UNKNOWN then lpSetNumElements lp count else Some lp);
    Some (lp, count).

(** ** Access *)

(** What [lpGet] returns without [intbuf]: an integer, or the string at an
    offset with its length. *)
Inductive lp_value := LpInt (val : Z) | LpStr (p count : Z).

(** The conversion of the unsigned value at the end of [lpGet]. *)
Definition to_signed (uval negstart negmax : Z) : Z :=
  if uval >=? negstart then
    let uval := u64 (negmax - uval) in
    s64 (- s64 uval - 1)
  else s64 uval.

Definition lpGet (lp : list byte) (p : Z) : option lp_value :=
  b ← getb lp p;
  if is_7bit_uint b then Some (LpInt (to_signed (Z.land b 0x7f) ULLONG_MAX 0))
  else if is_6bit_str b then Some (LpStr (p + 1) (str_len_6bit b))
  else if is_13bit_int b then
    b1 ← getb lp (p + 1);
    Some (LpInt (to_signed (Z.lor (Z.shiftl (Z.land b 0x1f) 8) b1) (Z.shiftl 1 12) 8191))
  else if is_16bit_int b then
    b1 ← getb lp (p + 1); b2 ← getb lp (p + 2);
    Some (LpInt (to_signed (Z.lor b1 (Z.shiftl b2 8)) (Z.shiftl 1 15) 65535))
  else if is_24bit_int b then
    b1 ← getb lp (p + 1); b2 ← getb lp (p + 2); b3 ← getb lp (p + 3);
    Some (LpInt (to_signed (Z.lor (Z.lor b1 (Z.shiftl b2 8)) (Z.shiftl b3 16)) (Z.shiftl 1 23) 16777215))
  else if is_32bit_int b then
    b1 ← getb lp (p + 1); b2 ← getb lp (p + 2); b3 ← getb lp (p + 3); b4 ← getb lp (p + 4);
    Some (LpInt (to_signed (Z.lor (Z.lor (Z.lor b1 (Z.shiftl b2 8)) (Z.shiftl b3 16)) (Z.shiftl b4 24))
                   (Z.shiftl 1 31) 4294967295))
  else if is_64bit_int b then
    b1 ← getb lp (p + 1); b2 ← getb lp (p + 2); b3 ← getb lp (p + 3); b4 ← getb lp (p + 4);
    b5 ← getb lp (p + 5); b6 ← getb lp (p + 6); b7 ← getb lp (p + 7); b8 ← getb lp (p + 8);
    Some (LpInt (to_signed
      (Z.lor (Z.lor (Z.lor (Z.lor (Z.lor (Z.lor (Z.lor b1 (Z.shiftl b2 8)) (Z.shiftl b3 16)) (Z.shiftl b4 24))
        (Z.shiftl b5 32)) (Z.shiftl b6 40)) (Z.shiftl b7 48)) (Z.shiftl b8 56))
      (Z.shiftl 1 63) ULLONG_MAX))
  else if is_12bit_str b then b1 ← getb lp (p + 1); Some (LpStr (p + 2) (str_len_12bit b b1))
  else if is_32bit_str b then
    b1 ← getb lp (p + 1); b2 ← getb lp (p + 2); b3 ← getb lp (p + 3); b4 ← getb lp (p + 4);
    Some (LpStr (p + 5) (or32 b1 b2 b3 b4))
  else Some (LpInt (to_signed (12345678900000000 + b) ULLONG_MAX 0)).

(** With [intbuf], integers are printed with snprintf(3): the element is always
    returned as a string. *)
Definition lpGetString (lp : list byte) (p : Z) : option (list byte) :=
  v ← lpGet lp p;
  match v with
  | LpInt val => Some (decimal val)
  | LpStr p count => load lp p count
  end.

(** ** Modification *)

(** Returns NULL, or the new block and [*newp]. *)
Definition lpInsert (junk : nat -> byte) (lp : list byte) (ele : option (list byte)) (p where_ : Z)
    : option (option (list byte * option Z)) :=
  let where_ := match ele with None => LP_REPLACE | Some _ => where_ end in
  r ← (if where_ =? LP_AFTER then p ← lpSkip lp p; Some (p, LP_BEFORE) else Some (p, where_));
  let '(poff, where_) := r in
  let enc := match ele with
             | Some e => Some (lpEncodeGetType e (Z.of_nat (length e)))
             | None => None
             end in
  let enclen := match enc with Some e => enc_len e | None => 0 end in
  let backlen := match ele with Some _ => lpEncodeBacklen enclen | None => [] end in
  let backlen_size := Z.of_nat (length backlen) in
  old_listpack_bytes ← lpGetTotalBytes lp;
  replaced_len ← (if where_ =? LP_REPLACE then
                    n ← lpCurrentEncodedSize lp poff;
                    Some (u32 (n + Listpack.backlen_size n))
                  else Some 0);
  let new_listpack_bytes := u64 (old_listpack_bytes + enclen + backlen_size - replaced_len) in
  if new_listpack_bytes >? 2 ^ 32 - 1 then Some None
  else
    let lp := if new_listpack_bytes >? old_listpack_bytes
              then realloc junk lp new_listpack_bytes else lp in
    lp ← (if where_ =? LP_BEFORE then
            memmove lp (poff + enclen + backlen_size) poff (u64 (old_listpack_bytes - poff))
          else
            let lendiff := s64 (u64 (enclen + backlen_size - replaced_len)) in
            memmove lp (poff + replaced_len + lendiff) (poff + replaced_len)
              (u64 (old_listpack_bytes - poff - replaced_len)));
    let lp := if new_listpack_bytes <? old_listpack_bytes
              then realloc junk lp new_listpack_bytes else lp in
    newp ← (match ele with
            | Some _ => Some (Some poff)
            | None => b ← getb lp poff; Some (if b =? LP_EOF then None else Some poff)
            end);
    lp ← (match enc, ele with
          | Some (EncInt intenc), Some _ =>
              lp ← store lp poff intenc; store lp (poff + enclen) backlen
          | Some (EncString _), Some e =>
              lp ← lpEncodeString lp poff e (Z.of_nat (length e));
              store lp (poff + enclen) backlen
          | _, _ => Some lp
          end);
    lp ← (if negb (where_ =? LP_REPLACE) || negb (bool_decide (is_Some ele)) then
            num_elements ← lpGetNumElements lp;
            if negb (num_elements =? LP_HDR_NUMELE_UNKNOWN) then
              match ele with
              | Some _ => lpSetNumElements lp (u32 (num_elements + 1))
              | None => lpSetNumElements lp (u32 (num_elements - 1))
              end
            else Some lp
          else Some lp);
    lp ← lpSetTotalBytes lp new_listpack_bytes;
    Some (Some (lp, newp)).

Definition lpNew (junk : nat -> byte) : option (list byte) :=
  let lp := malloc junk (LP_HDR_SIZE + 1) in
  lp ← lpSetTotalBytes lp (LP_HDR_SIZE + 1);
  lp ← lpSetNumElements lp 0;
  put lp LP_HDR_SIZE LP_EOF.

Definition lpAppend (junk : nat -> byte) (lp ele : list byte) : option (option (list byte * option Z)) :=
  listpack_bytes ← lpGetTotalBytes lp;
  lpInsert junk lp (Some ele) (listpack_bytes - 1) LP_BEFORE.

Definition lpDelete (junk : nat -> byte) (lp : list byte) (p : Z) : option (option (list byte * option Z)) :=
  lpInsert junk lp None p LP_REPLACE.

Definition lpBytes (lp : list byte) : option Z := lpGetTotalBytes lp.

(** [while (index > 0 && ele) { ele = lpNext(lp,ele); index--; }] *)
Fixpoint seek_forward (fuel : nat) (lp : list byte) (ele : option Z) (index : Z) : option (option Z) :=
  match ele with
  | Some p =>
      if index >? 0 then
        match fuel with
        | O => None
        | S fuel => ele ← lpNext lp p; seek_forward fuel lp ele (index - 1)
        end
      else Some ele
  | None => Some None
  end.

(** [while (index < -1 && ele) { ele = lpPrev(lp,ele); index++; }] *)
Fixpoint seek_backward (fuel : nat) (lp : list byte) (ele : option Z) (index : Z) : option (option Z) :=
  match ele with
  | Some p =>
      if index <? -1 then
        match fuel with
        | O => None
        | S fuel => ele ← lpPrev lp p; seek_backward fuel lp ele (index + 1)
        end
      else Some ele
  | None => Some None
  end.

(** [index] and [numele] are compared as long. *)
Definition lpSeek (lp : list byte) (index : Z) : option (option Z) :=
  numele ← lpGetNumElements lp;
  let known := negb (numele =? LP_HDR_NUMELE_UNKNOWN) in
  let index' := if known && (index <? 0) then numele + index else index in
  if known && ((index' <? 0) || (index' >=? numele)) then Some None
  else
    let forward := if known then negb (index' >? numele / 2) else negb (index' <? 0) in
    let index := if known && negb forward then index' - numele else index' in
    if (forward : bool) then ele ← lpFirst lp; seek_forward (length lp) lp ele index
    else ele ← lpLast lp; seek_backward (length lp) lp ele index.

(** ** Bytes and the header *)

Lemma getb_at p l k : 0 <= k -> getb (p ++ l) (Z.of_nat (length p) + k) = getb l k.
Proof.
  intros Hk. unfold getb. rewrite !(proj2 (Z.leb_le 0 _)) by lia.
  rewrite lookup_app_r by lia. f_equal. lia.
Qed.

Lemma or32_le b0 b1 b2 b3 : is_byte b0 -> is_byte b1 -> is_byte b2 -> is_byte b3 ->
  or32 b0 b1 b2 b3 = le_val [b0; b1; b2; b3].
Proof.
  unfold is_byte, or32. intros. rewrite Z.shiftl_0_r, (lor_shiftl b0 b1 8), (lor_shiftl _ b2 16), (lor_shiftl _ b3 24) by lia.
  unfold le_val. lia.
Qed.

Lemma or16_le b0 b1 : is_byte b0 -> is_byte b1 -> Z.lor b0 (Z.shiftl b1 8) = le_val [b0; b1].
Proof. unfold is_byte. intros. rewrite lor_shiftl by lia. unfold le_val. lia. Qed.

Lemma or24_le b0 b1 b2 : is_byte b0 -> is_byte b1 -> is_byte b2 ->
  Z.lor (Z.lor b0 (Z.shiftl b1 8)) (Z.shiftl b2 16) = le_val [b0; b1; b2].
Proof.
  unfold is_byte. intros. rewrite (lor_shiftl b0 b1 8), (lor_shiftl _ b2 16) by lia. unfold le_val. lia.
Qed.

Lemma or32_le' b0 b1 b2 b3 : is_byte b0 -> is_byte b1 -> is_byte b2 -> is_byte b3 ->
  Z.lor (Z.lor (Z.lor b0 (Z.shiftl b1 8)) (Z.shiftl b2 16)) (Z.shiftl b3 24) = le_val [b0; b1; b2; b3].
Proof. intros. rewrite <- or32_le by done. unfold or32. by rewrite Z.shiftl_0_r. Qed.

Lemma or64_le b0 b1 b2 b3 b4 b5 b6 b7 : is_byte b0 -> is_byte b1 -> is_byte b2 -> is_byte b3 ->
  is_byte b4 -> is_byte b5 -> is_byte b6 -> is_byte b7 ->
  Z.lor (Z.lor (Z.lor (Z.lor (Z.lor (Z.lor (Z.lor b0 (Z.shiftl b1 8)) (Z.shiftl b2 16)) (Z.shiftl b3 24))
    (Z.shiftl b4 32)) (Z.shiftl b5 40)) (Z.shiftl b6 48)) (Z.shiftl b7 56) = le_val [b0; b1; b2; b3; b4; b5; b6; b7].
Proof.
  unfold is_byte. intros.
  rewrite (lor_shiftl b0 b1 8), (lor_shiftl _ b2 16), (lor_shiftl _ b3 24), (lor_shiftl _ b4 32),
    (lor_shiftl _ b5 40), (lor_shiftl _ b6 48), (lor_shiftl _ b7 56) by lia. unfold le_val. lia.
Qed.

(** The bytes the code extracts are those of [le_bytes]. *)
Lemma le_bytes_S n v : le_bytes (S n) v = v mod 256 :: le_bytes n (v / 256).
Proof. done. Qed.

Lemma le_bytes_2 v : le_bytes 2 v = [Z.land v 255; Z.land (Z.shiftr v 8) 255].
Proof. rewrite !byte_of, land_255 by lia. done. Qed.

Lemma le_bytes_3 v : le_bytes 3 v = [Z.land v 255; Z.land (Z.shiftr v 8) 255; Z.land (Z.shiftr v 16) 255].
Proof. rewrite !byte_of, land_255 by lia. unfold le_bytes. by rewrite Z.div_div by lia. Qed.

Lemma le_bytes_4 v : le_bytes 4 v =
  [Z.land v 255; Z.land (Z.shiftr v 8) 255; Z.land (Z.shiftr v 16) 255; Z.land (Z.shiftr v 24) 255].
Proof. rewrite !byte_of, land_255 by lia. unfold le_bytes. by rewrite !Z.div_div by lia. Qed.

Lemma le_bytes_8 v : le_bytes 8 v =
  [Z.land v 255; Z.land (Z.shiftr v 8) 255; Z.land (Z.shiftr v 16) 255; Z.land (Z.shiftr v 24) 255;
   Z.land (Z.shiftr v 32) 255; Z.land (Z.shiftr v 40) 255; Z.land (Z.shiftr v 48) 255; Z.land (Z.shiftr v 56) 255].
Proof. rewrite !byte_of, land_255 by lia. unfold le_bytes. by rewrite !Z.div_div by lia. Qed.

Lemma u8_land v k : 0 <= k -> u8 (Z.shiftr v k) = Z.land (Z.shiftr v k) 255.
Proof. intros. by rewrite land_255. Qed.

(** Reading and writing the header. *)
Lemma get_header total num body : 0 <= total < 2 ^ 32 -> 0 <= num < 65536 ->
  lpGetTotalBytes (le_bytes 4 total ++ le_bytes 2 num ++ body) = Some total /\
  lpGetNumElements (le_bytes 4 total ++ le_bytes 2 num ++ body) = Some num.
Proof.
  intros Ht Hn. pose proof (le_val_bytes 4 total) as H4. pose proof (le_val_bytes 2 num) as H2.
  pose proof (le_bytes_ok 4 total) as B4. pose proof (le_bytes_ok 2 num) as B2.
  pose proof (le_bytes_length 4 total) as L4. pose proof (le_bytes_length 2 num) as L2.
  destruct (le_bytes 4 total) as [|a [|b [|c [|d [|]]]]]; try done.
  destruct (le_bytes 2 num) as [|e [|f [|]]]; try done.
  repeat match goal with H : bytes_ok (_ :: _) |- _ => apply Forall_cons in H as [? H] end.
  split.
  - change (Some (or32 a b c d) = Some total). rewrite or32_le by done. rewrite H4. f_equal. by apply uwrap_small.
  - change (Some (Z.lor (Z.shiftl e 0) (Z.shiftl f 8)) = Some num). rewrite Z.shiftl_0_r, or16_le by done.
    rewrite H2. f_equal. by apply uwrap_small.
Qed.

(** Writes at the first positions of a block. *)
Lemma put_0 a r x : put (a :: r) 0 x = Some (x :: r).
Proof. exact (put_app [] a r x 0 eq_refl). Qed.
Lemma put_1 a b r x : put (a :: b :: r) 1 x = Some (a :: x :: r).
Proof. exact (put_app [a] b r x 1 eq_refl). Qed.
Lemma put_2 a b c r x : put (a :: b :: c :: r) 2 x = Some (a :: b :: x :: r).
Proof. exact (put_app [a; b] c r x 2 eq_refl). Qed.
Lemma put_3 a b c d r x : put (a :: b :: c :: d :: r) 3 x = Some (a :: b :: c :: x :: r).
Proof. exact (put_app [a; b; c] d r x 3 eq_refl). Qed.
Lemma put_4 a b c d e r x : put (a :: b :: c :: d :: e :: r) 4 x = Some (a :: b :: c :: d :: x :: r).
Proof. exact (put_app [a; b; c; d] e r x 4 eq_refl). Qed.
Lemma put_5 a b c d e f r x : put (a :: b :: c :: d :: e :: f :: r) 5 x = Some (a :: b :: c :: d :: e :: x :: r).
Proof. exact (put_app [a; b; c; d; e] f r x 5 eq_refl). Qed.

Lemma set_total a b c d rest v : lpSetTotalBytes (a :: b :: c :: d :: rest) v = Some (le_bytes 4 v ++ rest).
Proof.
  unfold lpSetTotalBytes. rewrite put_0. cbn [mbind option_bind]. rewrite put_1. cbn [mbind option_bind].
  rewrite put_2. cbn [mbind option_bind]. rewrite put_3. by rewrite le_bytes_4.
Qed.

Lemma set_num a b c d e f rest v :
  lpSetNumElements (a :: b :: c :: d :: e :: f :: rest) v = Some ([a; b; c; d] ++ le_bytes 2 v ++ rest).
Proof.
  unfold lpSetNumElements. rewrite put_4. cbn [mbind option_bind]. rewrite put_5. by rewrite le_bytes_2.
Qed.

Lemma set_headers h body total num : length h = 6%nat ->
  lpSetTotalBytes (h ++ body) total = Some (le_bytes 4 total ++ drop 4 h ++ body) /\
  lpSetNumElements (h ++ body) num = Some (take 4 h ++ le_bytes 2 num ++ body).
Proof.
  intros Hh. destruct h as [|a [|b [|c [|d [|e [|f [|]]]]]]]; try done. split; [apply set_total|apply set_num].
Qed.

(** ** Encoded elements *)

Lemma lpStringToInt64_eq s : lpStringToInt64 s = string2ll s.
Proof.
  destruct s as [|c0 s]; [done|]. unfold lpStringToInt64, string2ll.
  destruct ((length (c0 :: s) =? 1)%nat && (c0 =? 48)) eqn:E0; [done|].
  destruct (c0 =? 45) eqn:En; cbn zeta.
  - destruct s as [|c s]; [done|]. destruct ((49 <=? c) && (c <=? 57)); [done|].
    by rewrite (proj2 (Nat.eqb_neq (length (c0 :: c :: s)) 1)), andb_false_r by (simpl; lia).
  - destruct ((49 <=? c0) && (c0 <=? 57)); [done|]. by rewrite andb_comm, E0.
Qed.

(** The bytes of an integer: one byte, two bytes, or a tag and the little-endian
    value. *)
Definition int_bytes (v : Z) : list byte :=
  if (v >=? 0) && (v <=? 127) then [v]
  else if (v >=? -4096) && (v <=? 4095) then [0xC0 + v mod 8192 / 256; v mod 256]
  else if (v >=? -32768) && (v <=? 32767) then 0xF1 :: le_bytes 2 v
  else if (v >=? -8388608) && (v <=? 8388607) then 0xF2 :: le_bytes 3 v
  else if (v >=? -2147483648) && (v <=? 2147483647) then 0xF3 :: le_bytes 4 v
  else 0xF4 :: le_bytes 8 v.

Definition str_header (n : Z) : list byte :=
  if n <? 64 then [0x80 + n]
  else if n <? 4096 then [0xE0 + n / 256; n mod 256]
  else 0xF0 :: le_bytes 4 n.

Definition encode (e : list byte) : list byte :=
  match string2ll e with
  | Some v => int_bytes v
  | None => str_header (Z.of_nat (length e)) ++ e
  end.

(** An entry: the encoded element and its length, to be read backwards. *)
Definition entry (e : list byte) : list byte :=
  encode e ++ lpEncodeBacklen (Z.of_nat (length (encode e))).

Lemma le_bytes_wrap n k v : k = 2 ^ (8 * Z.of_nat n) -> le_bytes n (if v <? 0 then k + v else v) = le_bytes n v.
Proof.
  intros ->. destruct (v <? 0); [|done]. rewrite <- le_bytes_uwrap, <- (le_bytes_uwrap n v). f_equal.
  unfold uwrap. rewrite <- Z.add_mod_idemp_l by lia. by rewrite Z_mod_same_full.
Qed.

Lemma lpEncodeGetType_int e v size : string2ll e = Some v -> lpEncodeGetType e size = EncInt (int_bytes v).
Proof.
  intros Hv. apply string2ll_sound in Hv as Hr. destruct Hr as [Hr _]. limits.
  unfold lpEncodeGetType. rewrite lpStringToInt64_eq, Hv. unfold int_bytes.
  destruct ((v >=? 0) && (v <=? 127)) eqn:E1.
  { rewrite uwrap_small by (limits; zlia). done. }
  destruct ((v >=? -4096) && (v <=? 4095)) eqn:E2; zbool.
  { change (Z.shiftl 1 13) with 8192. set (w := if v <? 0 then 8192 + v else v).
    assert (0 <= w < 8192 /\ w = v mod 8192) as [Hw Hm].
    { subst w. destruct (v <? 0) eqn:E; zbool; (split; [lia|]); Z.to_euclidean_division_equations; lia. }
    rewrite Z.shiftr_div_pow2, land_255 by lia. change (2 ^ 8) with 256. do 2 f_equal.
    - rewrite <- Hm. assert (0 <= w / 256 < 32) as Hq by (Z.to_euclidean_division_equations; lia). revert Hq. generalize (w / 256).
      refine (decide_below 32 (fun q => u8 (Z.lor q 192) = 192 + q) _). vm_compute. reflexivity.
    - clearbody w. f_equal. rewrite (Z.div_mod v 8192), <- Hm by lia.
      replace (8192 * (v / 8192) + w) with (w + (32 * (v / 8192)) * 256) by lia. rewrite Z_mod_plus_full. apply Zmod_mod. }
  cbv zeta. rewrite !u8_land by lia.
  destruct ((v >=? -32768) && (v <=? 32767)).
  { rewrite <- le_bytes_2. by rewrite (le_bytes_wrap 2). }
  destruct ((v >=? -8388608) && (v <=? 8388607)).
  { rewrite <- le_bytes_3. by rewrite (le_bytes_wrap 3). }
  destruct ((v >=? -2147483648) && (v <=? 2147483647)).
  { rewrite <- le_bytes_4. by rewrite (le_bytes_wrap 4). }
  rewrite <- le_bytes_8. by rewrite (le_bytes_uwrap 8).
Qed.

(** ** Decoding *)

Lemma to_signed_uwrap k v : 0 < k <= 64 -> in_s k v -> to_signed (uwrap k v) (2 ^ (k - 1)) (2 ^ k - 1) = v.
Proof.
  intros Hk Hv. pose proof (in_s_mono k 64 v ltac:(lia) Hv) as H64. unfold in_s in *.
  pose proof (pow2_half k ltac:(lia)) as Hp. limits. unfold to_signed.
  destruct (decide (0 <= v)) as [Hs|Hs].
  - rewrite uwrap_small by lia. destruct (v >=? 2 ^ (k - 1)) eqn:E; [zlia|]. apply swrap_small; [lia|]. limits; lia.
  - assert (uwrap k v = v + 2 ^ k) as ->.
    { unfold uwrap. rewrite <- (Z_mod_plus_full v 1), Z.mul_1_l. apply Z.mod_small. lia. }
    destruct (v + 2 ^ k >=? 2 ^ (k - 1)) eqn:E; [|zlia]. cbv zeta.
    replace (2 ^ k - 1 - (v + 2 ^ k)) with (- v - 1) by lia.
    rewrite (uwrap_small 64), (swrap_small 64 (- v - 1)) by (limits; lia).
    replace (- (- v - 1) - 1) with v by lia. apply swrap_small; limits; lia.
Qed.

(** The value of the [n] bytes after a tag. *)
Lemma signed_bytes n v k : (0 < n <= 8)%nat -> k = 8 * Z.of_nat n -> in_s k v ->
  to_signed (le_val (le_bytes n v)) (2 ^ (k - 1)) (2 ^ k - 1) = v.
Proof. intros Hn -> Hv. rewrite le_val_bytes. apply to_signed_uwrap; [lia|done]. Qed.

Lemma getb_0 a l : getb (a :: l) 0 = Some a.
Proof. done. Qed.

Lemma getb_S a l k : 0 < k -> getb (a :: l) k = getb l (k - 1).
Proof.
  intros. rewrite !getb_Some by lia. replace (Z.to_nat k) with (S (Z.to_nat (k - 1))) by lia. done.
Qed.

(** Reads of a known prefix at the end of [p]. *)
Ltac reads :=
  repeat (first [rewrite getb_at by lia | rewrite getb_S by lia; simpl Z.sub | rewrite getb_0; cbn [mbind option_bind]]).

(** Names the bytes of a little-endian block. *)
Ltac name_bytes n v :=
  let Hl := fresh in let Hok := fresh in
  pose proof (le_bytes_length n v) as Hl; pose proof (le_bytes_ok n v) as Hok;
  destruct (le_bytes n v) as [|?b1 ?l] eqn:?Hb; try done;
  simpl in Hl; repeat match type of Hl with context [length ?l] => is_var l; destruct l as [|?b ?l]; try done; simpl in Hl end;
  clear Hl; repeat match type of Hok with Forall _ (_ :: _) => apply Forall_cons in Hok as [? Hok] end;
  clear Hok.

(** Evaluates the tests of a constant first byte. *)
Ltac eval_test f :=
  repeat match goal with
  | |- context [f (Zpos ?c)] => let v := eval vm_compute in (f (Zpos c)) in change (f (Zpos c)) with v
  end.
Ltac eval_tests :=
  eval_test is_7bit_uint; eval_test is_6bit_str; eval_test is_13bit_int; eval_test is_16bit_int;
  eval_test is_24bit_int; eval_test is_32bit_int; eval_test is_64bit_int; eval_test is_12bit_str;
  eval_test is_32bit_str.
Ltac decode_tag :=
  unfold lpGet, lpCurrentEncodedSize; cbn [app]; rewrite <- !Z.add_assoc, ?Z.add_0_l; reads; eval_tests; cbv iota; reads.

Lemma lpGet_7bit p b r : 0 <= b < 128 ->
  lpGet (p ++ b :: r) (Z.of_nat (length p) + 0) = Some (LpInt b) /\
  lpCurrentEncodedSize (p ++ b :: r) (Z.of_nat (length p) + 0) = Some 1.
Proof.
  intros Hb. unfold lpGet, lpCurrentEncodedSize. reads.
  assert (is_7bit_uint b = true /\ to_signed (Z.land b 0x7f) ULLONG_MAX 0 = b) as [-> ->]; [|done].
  revert b Hb. refine (decide_below 128 (fun b => _ /\ _) _). vm_compute. reflexivity.
Qed.

Lemma lpGet_13bit p q c r : 0 <= q < 32 -> is_byte c ->
  lpGet (p ++ 0xC0 + q :: c :: r) (Z.of_nat (length p) + 0) =
    Some (LpInt (to_signed (q * 256 + c) (2 ^ 12) (2 ^ 13 - 1))) /\
  lpCurrentEncodedSize (p ++ 0xC0 + q :: c :: r) (Z.of_nat (length p) + 0) = Some 2.
Proof.
  intros Hq Hc. decode_tag.
  assert (is_7bit_uint (192 + q) = false /\ is_6bit_str (192 + q) = false /\ is_13bit_int (192 + q) = true /\
    Z.land (192 + q) 0x1f = q) as (-> & -> & -> & ->).
  { revert q Hq. refine (decide_below 32 (fun q => _ /\ _ /\ _ /\ _) _). vm_compute. reflexivity. }
  split; [|done]. rewrite Z.lor_comm, lor_shiftl by (unfold is_byte in Hc; lia). do 3 f_equal. lia.
Qed.

Lemma lpGet_int p v r : in_s 64 v ->
  lpGet (p ++ int_bytes v ++ r) (Z.of_nat (length p) + 0) = Some (LpInt v) /\
  lpCurrentEncodedSize (p ++ int_bytes v ++ r) (Z.of_nat (length p) + 0) = Some (Z.of_nat (length (int_bytes v))).
Proof.
  intros Hv. unfold int_bytes.
  destruct ((v >=? 0) && (v <=? 127)) eqn:E1; [zbool; apply lpGet_7bit; lia|].
  destruct ((v >=? -4096) && (v <=? 4095)) eqn:E2; zbool.
  { pose proof (Z.mod_pos_bound v 256 ltac:(lia)).
    pose proof (Z.mod_pos_bound v 8192 ltac:(lia)) as Hm.
    assert (0 <= v mod 8192 / 256 < 32) by (Z.to_euclidean_division_equations; lia).
    cbn [app]. destruct (lpGet_13bit p (v mod 8192 / 256) (v mod 256) r) as [-> ->]; [done|done|]. split; [|done].
    assert (v mod 8192 / 256 * 256 + v mod 256 = uwrap 13 v) as ->.
    { unfold uwrap. change (2 ^ 13) with 8192. assert (v mod 256 = v mod 8192 mod 256) as ->.
      { symmetry. apply Z.mod_mod_divide. by exists 32. }
      Z.to_euclidean_division_equations; lia. }
    do 2 f_equal. apply to_signed_uwrap; [lia|]. limits. lia. }
  destruct ((v >=? -32768) && (v <=? 32767)) eqn:E3; [|destruct ((v >=? -8388608) && (v <=? 8388607)) eqn:E4;
    [|destruct ((v >=? -2147483648) && (v <=? 2147483647)) eqn:E5]]; zbool.
  - pose proof (signed_bytes 2 v 16 ltac:(lia) eq_refl ltac:(limits; lia)) as Hs. name_bytes 2%nat v.
    decode_tag. rewrite or16_le by done. split; [do 2 f_equal; exact Hs|done].
  - pose proof (signed_bytes 3 v 24 ltac:(lia) eq_refl ltac:(limits; lia)) as Hs. name_bytes 3%nat v.
    decode_tag. rewrite or24_le by done. split; [do 2 f_equal; exact Hs|done].
  - pose proof (signed_bytes 4 v 32 ltac:(lia) eq_refl ltac:(limits; lia)) as Hs. name_bytes 4%nat v.
    decode_tag. rewrite or32_le' by done. split; [do 2 f_equal; exact Hs|done].
  - pose proof (signed_bytes 8 v 64 ltac:(lia) eq_refl Hv) as Hs. name_bytes 8%nat v.
    decode_tag. rewrite or64_le by done. split; [do 2 f_equal; exact Hs|done].
Qed.

Lemma lpGet_str p n r : 0 <= n < 2 ^ 32 - 5 ->
  lpGet (p ++ str_header n ++ r) (Z.of_nat (length p) + 0) =
    Some (LpStr (Z.of_nat (length p) + Z.of_nat (length (str_header n))) n) /\
  lpCurrentEncodedSize (p ++ str_header n ++ r) (Z.of_nat (length p) + 0) =
    Some (Z.of_nat (length (str_header n)) + n).
Proof.
  intros Hn. unfold str_header. destruct (n <? 64) eqn:E1; [|destruct (n <? 4096) eqn:E2]; zbool.
  - decode_tag.
    assert (is_7bit_uint (128 + n) = false /\ is_6bit_str (128 + n) = true /\ str_len_6bit (128 + n) = n)
      as (-> & -> & ->).
    { assert (0 <= n < 64) as H by lia. clear Hn E1. revert n H.
      refine (decide_below 64 (fun n => _ /\ _ /\ _) _). vm_compute. reflexivity. }
    done.
  - decode_tag. assert (0 <= n / 256 < 16) as Hq by (Z.to_euclidean_division_equations; lia).
    pose proof (Z.div_mod n 256 ltac:(lia)) as Hd. pose proof (Z.mod_pos_bound n 256 ltac:(lia)) as Hm.
    revert Hd Hm. generalize (n mod 256). revert Hq. generalize (n / 256). intros q Hq c Hd Hm.
    assert (is_7bit_uint (224 + q) = false /\ is_6bit_str (224 + q) = false /\ is_13bit_int (224 + q) = false /\
      is_16bit_int (224 + q) = false /\ is_24bit_int (224 + q) = false /\ is_32bit_int (224 + q) = false /\
      is_64bit_int (224 + q) = false /\ is_12bit_str (224 + q) = true /\ Z.land (224 + q) 0xF = q)
      as (-> & -> & -> & -> & -> & -> & -> & -> & Hl).
    { clear Hd. revert q Hq. refine (decide_below 16 (fun n => _ /\ _ /\ _ /\ _ /\ _ /\ _ /\ _ /\ _ /\ _) _).
      vm_compute. reflexivity. }
    assert (str_len_12bit (224 + q) c = n) as Hlen.
    { unfold str_len_12bit. rewrite Hl, Z.lor_comm, lor_shiftl by lia. lia. }
    rewrite Hlen. done.
  - pose proof (le_val_bytes 4 n) as Hv. rewrite uwrap_small in Hv by (simpl; lia). name_bytes 4%nat n.
    decode_tag. rewrite or32_le, Hv by done. rewrite uwrap_small by lia. done.
Qed.

Lemma str_header_length n : 1 <= Z.of_nat (length (str_header n)) <= 5.
Proof. unfold str_header. destruct (n <? 64); [|destruct (n <? 4096)]; simpl; lia. Qed.

Lemma int_bytes_length v : 1 <= Z.of_nat (length (int_bytes v)) <= 9.
Proof. unfold int_bytes. repeat case_match; simpl; lia. Qed.

Lemma encode_length e : 1 <= Z.of_nat (length (encode e)) <= Z.of_nat (length e) + 9.
Proof.
  unfold encode. pose proof (str_header_length (Z.of_nat (length e))).
  destruct (string2ll e) as [v|]; [pose proof (int_bytes_length v); lia|]. rewrite length_app. lia.
Qed.

(** Elements the callers can insert: [size] is a uint32_t and the encoded length
    must be one too. *)
Abbreviation max_ele := (2 ^ 32 - 5).
Definition ele_ok (e : list byte) : Prop := Z.of_nat (length e) < max_ele.

(** At an encoded element, its length and the element are read back. *)
Lemma decode_encode p e r : ele_ok e ->
  lpCurrentEncodedSize (p ++ encode e ++ r) (Z.of_nat (length p)) = Some (Z.of_nat (length (encode e))) /\
  lpGetString (p ++ encode e ++ r) (Z.of_nat (length p)) = Some e.
Proof.
  intros He. rewrite <- (Z.add_0_r (Z.of_nat (length p))). unfold lpGetString, encode.
  destruct (string2ll e) as [v|] eqn:Ev.
  - apply string2ll_sound in Ev as [Hv ->]. destruct (lpGet_int p v r Hv) as [-> ->]. done.
  - rewrite <- app_assoc. destruct (lpGet_str p (Z.of_nat (length e)) (e ++ r)) as [-> ->];
      [unfold ele_ok in He; lia|].
    split; [rewrite length_app; f_equal; lia|]. cbn [mbind option_bind].
    rewrite app_assoc. apply load_app; [|done]. rewrite length_app. lia.
Qed.

Lemma encode_not_eof e : ele_ok e -> exists b l, encode e = b :: l /\ b <> LP_EOF.
Proof.
  intros He. unfold LP_EOF, encode, ele_ok in *. destruct (string2ll e) as [v|].
  - unfold int_bytes. destruct ((v >=? 0) && (v <=? 127)) eqn:E1; zbool; [by eexists _, _; split; [done|lia]|].
    pose proof (Z.mod_pos_bound v 8192 ltac:(lia)) as Hm.
    assert (v mod 8192 / 256 < 32) by (Z.to_euclidean_division_equations; lia).
    repeat (case_match; [eexists _, _; split; [done|lia]|]). eexists _, _; split; [done|lia].
  - unfold str_header. destruct (_ <? 64) eqn:E1; [|destruct (_ <? 4096) eqn:E2]; zbool;
      eexists _, _; (split; [done|]); Z.to_euclidean_division_equations; lia.
Qed.

(** ** Entry lengths read backwards *)

Lemma backlen_step fuel lp p y val shift : getb lp p = Some (Z.lor (Z.land y 127) 128) ->
  0 <= shift <= 21 -> 0 <= val < 2 ^ shift ->
  backlen_loop (S fuel) lp p val shift = backlen_loop fuel lp (p - 1) (val + y mod 128 * 2 ^ shift) (shift + 7).
Proof.
  intros Hb Hs Hv. cbn [backlen_loop]. rewrite Hb. cbn [mbind option_bind].
  change 127 with (Z.ones 7). rewrite Z.land_ones by lia. change (2 ^ 7) with 128.
  pose proof (Z.mod_pos_bound y 128 ltac:(lia)) as Hx. revert Hx. generalize (y mod 128). intros x Hx.
  assert (Z.land (Z.lor x 128) (Z.ones 7) = x /\ (Z.land (Z.lor x 128) 128 =? 0) = false) as [-> ->].
  { revert x Hx. refine (decide_below 128 (fun x => _ /\ _) _). vm_compute. reflexivity. }
  rewrite uwrap_small.
  - rewrite lor_shiftl by lia. destruct (shift + 7 >? 28) eqn:E; [zlia|done].
  - rewrite Z.shiftl_mul_pow2 by lia. pose proof (Z.pow_le_mono_r 2 shift 21 ltac:(lia) ltac:(lia)). limits. nia.
Qed.

Lemma backlen_last fuel lp p x val shift : getb lp p = Some (u8 x) -> 0 <= x < 128 ->
  0 <= shift <= 28 -> 0 <= val < 2 ^ shift ->
  backlen_loop (S fuel) lp p val shift = Some (val + x * 2 ^ shift).
Proof.
  intros Hb Hx Hs Hv. rewrite uwrap_small in Hb by lia. cbn [backlen_loop]. rewrite Hb. cbn [mbind option_bind].
  assert (Z.land x 127 = x /\ (Z.land x 128 =? 0) = true) as [-> ->].
  { clear Hb. revert x Hx. refine (decide_below 128 (fun x => _ /\ _) _). vm_compute. reflexivity. }
  rewrite uwrap_small; [by rewrite lor_shiftl by lia|].
  rewrite Z.shiftl_mul_pow2 by lia. pose proof (Z.pow_le_mono_r 2 shift 28 ltac:(lia) ltac:(lia)). limits. nia.
Qed.

(** A number below [128 ^ (k + 1)] is the sum of its groups of seven bits. *)
Lemma groups7 l : 0 <= l ->
  l = l mod 128 + l / 128 * 128 /\ l / 128 = l / 128 mod 128 + l / 16384 * 128 /\
  l / 16384 = l / 16384 mod 128 + l / 2097152 * 128 /\ l / 2097152 = l / 2097152 mod 128 + l / 268435456 * 128 /\
  0 <= l mod 128 < 128 /\ 0 <= l / 128 mod 128 < 128 /\ 0 <= l / 16384 mod 128 < 128 /\
  0 <= l / 2097152 mod 128 < 128 /\ 0 <= l / 268435456.
Proof.
  intros Hl. change 268435456 with (128 * (128 * (128 * 128))). change 2097152 with (128 * (128 * 128)).
  change 16384 with (128 * 128). rewrite <- !Z.div_div by lia.
  pose proof (Z.div_mod l 128). pose proof (Z.div_mod (l / 128) 128). pose proof (Z.div_mod (l / 128 / 128) 128).
  pose proof (Z.div_mod (l / 128 / 128 / 128) 128). pose proof (Z.mod_pos_bound l 128).
  pose proof (Z.mod_pos_bound (l / 128) 128). pose proof (Z.mod_pos_bound (l / 128 / 128) 128).
  pose proof (Z.mod_pos_bound (l / 128 / 128 / 128) 128).
  pose proof (Z.div_pos (l / 128 / 128 / 128) 128). pose proof (Z.div_pos (l / 128 / 128) 128).
  pose proof (Z.div_pos (l / 128) 128). pose proof (Z.div_pos l 128). lia.
Qed.

(** One round of the loop on the group [y], and the last one. *)
Ltac group y :=
  rewrite (backlen_step _ _ _ y); [|by reads|simpl; lia..]; rewrite <- Z.add_sub_assoc; simpl Z.sub.
Ltac last_group y := rewrite (backlen_last _ _ _ y); [f_equal; simpl Z.pow; lia|by reads|simpl; lia..].

Lemma decode_backlen p l r i : 0 <= l < 2 ^ 35 ->
  i = Z.of_nat (length (p ++ lpEncodeBacklen l)) - 1 ->
  lpDecodeBacklen (p ++ lpEncodeBacklen l ++ r) i = Some l.
Proof.
  intros Hl ->. rewrite length_app, Nat2Z.inj_add. unfold lpDecodeBacklen, lpEncodeBacklen.
  destruct (groups7 l ltac:(lia)) as (H0 & H1 & H2 & H3 & ? & ? & ? & ? & ?).
  rewrite !Z.shiftr_div_pow2 by lia. change (2 ^ 7) with 128. change (2 ^ 14) with 16384.
  change (2 ^ 21) with 2097152. change (2 ^ 28) with 268435456.
  destruct (l <=? 127) eqn:E1; [|destruct (l <? 16383) eqn:E2; [|destruct (l <? 2097151) eqn:E3;
    [|destruct (l <? 268435455) eqn:E4]]]; zbool; cbn [length app]; rewrite <- Z.add_sub_assoc; simpl Z.sub.
  - last_group l.
  - group l. last_group (l / 128).
  - group l. group (l / 128). last_group (l / 16384).
  - group l. group (l / 128). group (l / 16384). last_group (l / 2097152).
  - group l. group (l / 128). group (l / 16384). group (l / 2097152). last_group (l / 268435456).
Qed.

(** ** The block of a list of elements *)

Definition header (total num : Z) : list byte := le_bytes 4 total ++ le_bytes 2 num.
Definition body (es : list (list byte)) : list byte := es ≫= entry.

(** The offset of the element after [es1], and the pointer to the first element
    of [es2] after [es1]. *)
Definition pos (es1 : list (list byte)) : Z := 6 + Z.of_nat (length (body es1)).
Definition cursor (es1 es2 : list (list byte)) : option Z :=
  match es2 with [] => None | _ :: _ => Some (pos es1) end.

(** The block represents [es]; the count in the header may be unknown. *)
Definition lp_repr (lp : list byte) (es : list (list byte)) : Prop :=
  exists num, lp = header (Z.of_nat (length lp)) num ++ body es ++ [LP_EOF] /\
    Z.of_nat (length lp) < 2 ^ 32 /\ Forall ele_ok es /\
    (num = Z.of_nat (length es) /\ num < 65535 \/ num = 65535).

Lemma header_length total num : length (header total num) = 6%nat.
Proof. done. Qed.

Lemma body_app es1 es2 : body (es1 ++ es2) = body es1 ++ body es2.
Proof. apply bind_app. Qed.

Lemma body_one e : body [e] = entry e.
Proof. apply app_nil_r. Qed.

Lemma pos_nil : pos [] = 6.
Proof. done. Qed.

Lemma pos_snoc es1 e : pos (es1 ++ [e]) = pos es1 + Z.of_nat (length (entry e)).
Proof. unfold pos. rewrite body_app, body_one, length_app. lia. Qed.

Lemma backlen_length l : 1 <= Z.of_nat (length (lpEncodeBacklen l)) <= 5.
Proof. unfold lpEncodeBacklen. repeat case_match; simpl; lia. Qed.

Lemma entry_length e : 2 <= Z.of_nat (length (entry e)).
Proof.
  unfold entry. rewrite length_app. pose proof (encode_length e).
  pose proof (backlen_length (Z.of_nat (length (encode e)))). lia.
Qed.

Lemma body_length es : 2 * Z.of_nat (length es) <= Z.of_nat (length (body es)).
Proof.
  induction es as [|e es IH]; [done|]. change (body (e :: es)) with (entry e ++ body es).
  rewrite length_app. pose proof (entry_length e). simpl. lia.
Qed.

Lemma getb_body p es1 es2 : Forall ele_ok es2 -> exists b,
  getb (p ++ body es2 ++ [LP_EOF]) (Z.of_nat (length p)) = Some b /\
  (if b =? LP_EOF then None else Some (pos es1)) = cursor es1 es2.
Proof.
  intros [|e es2' He Hes].
  - exists LP_EOF. split; [by apply getb_app|done].
  - destruct (encode_not_eof e He) as (b & l & Hb & Hne). exists b. split.
    + change (body (e :: es2')) with (entry e ++ body es2'). unfold entry. rewrite Hb. cbn [app]. by apply getb_app.
    + by rewrite (proj2 (Z.eqb_neq b LP_EOF)) by done.
Qed.

Section navigation.
Context (lp : list byte).

(** The block cut at an element. *)
Lemma repr_split es1 es2 : lp_repr lp (es1 ++ es2) -> exists p,
  lp = p ++ body es2 ++ [LP_EOF] /\ Z.of_nat (length p) = pos es1 /\ Z.of_nat (length lp) < 2 ^ 32.
Proof.
  intros (num & Hlp & Hlen & _). rewrite body_app in Hlp. eexists (header _ num ++ body es1). split_and!; [..|done].
  - by rewrite <- !app_assoc in Hlp |- *.
  - rewrite length_app, header_length. unfold pos. lia.
Qed.

Lemma repr_ok es1 e es2 : lp_repr lp (es1 ++ e :: es2) -> ele_ok e.
Proof. intros (num & _ & _ & Hok & _). by apply Forall_app in Hok as [_ [? _]%Forall_cons]. Qed.

Lemma repr_encode_length es1 e es2 : lp_repr lp (es1 ++ e :: es2) ->
  Z.of_nat (length (encode e)) < 2 ^ 32 /\ Z.of_nat (length (entry e)) < 2 ^ 32.
Proof.
  intros H. destruct (repr_split es1 (e :: es2) H) as (p & Hlp & _ & Hlen). rewrite Hlp in Hlen.
  change (body (e :: es2)) with (entry e ++ body es2) in Hlen. rewrite !length_app in Hlen. simpl in Hlen.
  unfold entry in *. rewrite length_app in *. lia.
Qed.

Lemma header_repr es : lp_repr lp es -> exists num, lpGetTotalBytes lp = Some (Z.of_nat (length lp)) /\
  lpGetNumElements lp = Some num /\ lp = header (Z.of_nat (length lp)) num ++ body es ++ [LP_EOF] /\
  (num = Z.of_nat (length es) /\ num < 65535 \/ num = 65535).
Proof.
  intros (num & Hlp & Hlen & _ & Hnum). exists num.
  destruct (get_header (Z.of_nat (length lp)) num (body es ++ [LP_EOF])) as [Ht Hn]; [lia..|].
  rewrite app_assoc in Ht, Hn. fold (header (Z.of_nat (length lp)) num) in Ht, Hn. rewrite <- Hlp in Ht, Hn. done.
Qed.

Lemma repr_length es : lp_repr lp es -> Z.of_nat (length lp) = 7 + Z.of_nat (length (body es)).
Proof.
  intros (num & Hlp & _). apply (f_equal length) in Hlp. rewrite !length_app, header_length in Hlp. simpl in Hlp. lia.
Qed.

(** The byte at a position: not the end marker unless no element follows. *)
Lemma getb_pos es1 es2 : lp_repr lp (es1 ++ es2) -> exists b,
  getb lp (pos es1) = Some b /\ (if b =? LP_EOF then None else Some (pos es1)) = cursor es1 es2.
Proof.
  intros H. destruct (repr_split es1 es2 H) as (p & Hlp & Hp & _).
  destruct (getb_body p es1 es2) as (b & Hb & Hc); [by destruct H as (_ & _ & _ & [_ ?]%Forall_app & _)|].
  exists b. by rewrite Hlp, <- Hp at 1.
Qed.

Lemma read_repr es1 e es2 : lp_repr lp (es1 ++ e :: es2) ->
  lpCurrentEncodedSize lp (pos es1) = Some (Z.of_nat (length (encode e))) /\
  lpGetString lp (pos es1) = Some e /\ lpSkip lp (pos es1) = Some (pos (es1 ++ [e])).
Proof.
  intros H. destruct (repr_split es1 (e :: es2) H) as (p & Hlp & Hp & _).
  change (body (e :: es2)) with (entry e ++ body es2) in Hlp. unfold entry in Hlp. rewrite <- !app_assoc in Hlp.
  pose proof (decode_encode p e (lpEncodeBacklen (Z.of_nat (length (encode e))) ++ body es2 ++ [LP_EOF]) (repr_ok _ _ _ H))
    as [Hs Hg]. rewrite <- Hlp, Hp in Hs, Hg. split_and!; [done|done|].
  unfold lpSkip. rewrite Hs. cbn [mbind option_bind]. f_equal. rewrite pos_snoc. unfold entry, backlen_size.
  rewrite length_app. lia.
Qed.

Lemma next_repr es1 e es2 : lp_repr lp (es1 ++ e :: es2) -> lpNext lp (pos es1) = Some (cursor (es1 ++ [e]) es2).
Proof.
  intros H. unfold lpNext. destruct (read_repr es1 e es2 H) as (_ & _ & ->). cbn [mbind option_bind].
  rewrite cons_middle, app_assoc in H. destruct (getb_pos (es1 ++ [e]) es2 H) as (b & -> & Hc).
  cbn [mbind option_bind]. rewrite <- Hc. by destruct (b =? LP_EOF).
Qed.

Lemma prev_repr es1 e es2 : lp_repr lp (es1 ++ e :: es2) -> lpPrev lp (pos (es1 ++ [e])) = Some (Some (pos es1)).
Proof.
  intros H. destruct (repr_encode_length es1 e es2 H) as [Hl _].
  destruct (repr_split es1 (e :: es2) H) as (p & Hlp & Hp & _).
  change (body (e :: es2)) with (entry e ++ body es2) in Hlp. unfold entry in Hlp. rewrite <- !app_assoc in Hlp.
  unfold lpPrev. pose proof (entry_length e). assert (6 <= pos es1) by (unfold pos; lia).
  rewrite (proj2 (Z.eqb_neq (pos (es1 ++ [e])) LP_HDR_SIZE)) by (rewrite pos_snoc; unfold LP_HDR_SIZE; lia).
  rewrite Hlp, app_assoc. rewrite decode_backlen; [|lia|].
  - cbn [mbind option_bind]. unfold backlen_size. do 2 f_equal. rewrite pos_snoc. unfold entry. rewrite length_app. lia.
  - rewrite pos_snoc. unfold entry. rewrite !length_app. lia.
Qed.

Lemma first_repr es : lp_repr lp es -> lpFirst lp = Some (cursor [] es).
Proof.
  intros H. unfold lpFirst. destruct (getb_pos [] es H) as (b & Hb & Hc). rewrite pos_nil in Hb.
  change LP_HDR_SIZE with 6. rewrite Hb. cbn [mbind option_bind]. rewrite <- Hc. by destruct (b =? LP_EOF).
Qed.

Lemma last_repr es : lp_repr lp es ->
  lpLast lp = Some (match es with [] => None | _ => Some (pos (removelast es)) end).
Proof.
  intros H. unfold lpLast. destruct (header_repr es H) as (num & -> & _). cbn [mbind option_bind].
  rewrite (repr_length es H). replace (7 + _ - 1) with (pos es) by (unfold pos; lia).
  destruct es as [|e' es'] eqn:E using rev_ind; [done|]. rewrite removelast_last.
  rewrite (prev_repr es' e' []) by done. by destruct es'.
Qed.

(** *** Counting *)

Lemma length_loop_repr es2 : forall es1 fuel count, lp_repr lp (es1 ++ es2) -> (length es2 <= fuel)%nat ->
  0 <= count -> count + Z.of_nat (length es2) < 2 ^ 32 ->
  length_loop fuel lp (cursor es1 es2) count = Some (count + Z.of_nat (length es2)).
Proof.
  induction es2 as [|e es2 IH]; intros es1 fuel count H Hf Hc Hlt; simpl in Hf, Hlt.
  { destruct fuel; simpl; f_equal; lia. }
  destruct fuel as [|fuel]; [lia|]. cbn [cursor length_loop]. rewrite (next_repr es1 e es2 H). cbn [mbind option_bind].
  rewrite uwrap_small, IH by (lia || by rewrite <- app_assoc). f_equal. simpl. lia.
Qed.

(** *** Seeking *)

Lemma seek_forward_repr es2 : forall es1 fuel i, lp_repr lp (es1 ++ es2) -> (length es2 <= fuel)%nat -> 0 <= i ->
  seek_forward fuel lp (cursor es1 es2) i =
    Some (cursor (es1 ++ take (Z.to_nat i) es2) (drop (Z.to_nat i) es2)).
Proof.
  induction es2 as [|e es2 IH]; intros es1 fuel i H Hf Hi; simpl in Hf.
  { rewrite take_nil, drop_nil. by destruct fuel. }
  destruct (decide (i = 0)) as [-> |].
  { rewrite app_nil_r. by destruct fuel. }
  destruct fuel as [|fuel]; [lia|]. cbn [cursor seek_forward]. rewrite (proj2 (Z.gtb_lt i 0)) by lia.
  rewrite (next_repr es1 e es2 H). cbn [mbind option_bind]. rewrite IH by (lia || by rewrite <- app_assoc).
  replace (Z.to_nat i) with (S (Z.to_nat (i - 1))) by lia. cbn [take drop]. by rewrite <- app_assoc.
Qed.

Lemma seek_backward_repr es1 : forall es2 fuel i, lp_repr lp (es1 ++ es2) -> es2 <> [] ->
  (length es1 < fuel)%nat -> i < 0 ->
  seek_backward fuel lp (Some (pos es1)) i = Some (
    let k := Z.of_nat (length es1) + 1 + i in if k <? 0 then None else Some (pos (take (Z.to_nat k) es1))).
Proof.
  induction es1 as [|e es1 IH] using rev_ind; intros es2 fuel i H Hne Hf Hi; (destruct fuel as [|fuel]; [lia|]);
    cbn [seek_backward]; destruct (i <? -1) eqn:E; zbool.
  - cbn [pos]. replace (lpPrev lp (pos [])) with (Some (@None Z)) by done. cbn [mbind option_bind].
    cbv zeta. rewrite (proj2 (Z.ltb_lt _ 0)) by (simpl; lia). by destruct fuel.
  - replace i with (-1) by lia. done.
  - rewrite <- app_assoc in H. cbn [app] in H. rewrite (prev_repr es1 e es2 H). cbn [mbind option_bind].
    rewrite length_app in Hf |- *. simpl in Hf |- *. rewrite (IH (e :: es2)) by (done || lia).
    cbv zeta. replace (Z.of_nat (length es1 + 1) + 1 + i) with (Z.of_nat (length es1) + 1 + (i + 1)) by lia.
    destruct (_ <? 0) eqn:E2; [done|]. zbool. rewrite take_app_le by lia. done.
  - replace i with (-1) by lia. cbv zeta. rewrite (proj2 (Z.ltb_ge _ 0)) by lia. rewrite take_ge by lia. done.
Qed.
End navigation.

(** The position of an index, counted from the end when negative. *)
Definition index_of (es : list (list byte)) (index : Z) : option nat :=
  let k := if index <? 0 then Z.of_nat (length es) + index else index in
  if (0 <=? k) && (k <? Z.of_nat (length es)) then Some (Z.to_nat k) else None.

Lemma cursor_take es i : 0 <= i ->
  cursor (take (Z.to_nat i) es) (drop (Z.to_nat i) es) = (fun k => pos (take k es)) <$> index_of es i.
Proof.
  intros Hi. unfold index_of. rewrite (proj2 (Z.ltb_ge i 0)), (proj2 (Z.leb_le 0 i)) by lia. simpl.
  destruct (i <? Z.of_nat (length es)) eqn:E; zbool.
  - destruct (drop (Z.to_nat i) es) as [|e l] eqn:Ed; [|done].
    apply (f_equal length) in Ed. rewrite length_drop in Ed. simpl in Ed. lia.
  - by rewrite drop_ge by lia.
Qed.

Lemma repr_fuel lp es : lp_repr lp es -> (2 * length es + 7 <= length lp)%nat.
Proof. intros H. pose proof (repr_length lp es H). pose proof (body_length es). lia. Qed.

Lemma seek_first lp es i : lp_repr lp es -> 0 <= i ->
  (ele ← lpFirst lp; seek_forward (length lp) lp ele i) = Some ((fun k => pos (take k es)) <$> index_of es i).
Proof.
  intros H Hi. rewrite (first_repr lp es H). cbn [mbind option_bind].
  rewrite (seek_forward_repr lp es []); [|done|pose proof (repr_fuel lp es H); lia|done].
  by rewrite <- cursor_take.
Qed.

Lemma seek_last lp es i : lp_repr lp es -> i < 0 ->
  (ele ← lpLast lp; seek_backward (length lp) lp ele i) = Some ((fun k => pos (take k es)) <$> index_of es i).
Proof.
  intros H Hi. rewrite (last_repr lp es H). cbn [mbind option_bind].
  assert (exists n, length lp = S n) as [n Hn] by (pose proof (repr_fuel lp es H); exists (pred (length lp)); lia).
  unfold index_of. rewrite (proj2 (Z.ltb_lt i 0)) by done.
  destruct es as [|e es] using rev_ind; [rewrite Hn; by destruct i|].
  rewrite removelast_last. pose proof (repr_fuel lp _ H) as Hf. rewrite length_app in *. simpl in Hf.
  destruct (es ++ [e]) eqn:E; [by destruct es|]. rewrite <- E in *. clear E.
  rewrite (seek_backward_repr lp es [e]) by (done || lia). cbv zeta. f_equal. cbn [length].
  replace (Z.of_nat (length es + 1) + i) with (Z.of_nat (length es) + 1 + i) by lia.
  destruct (_ <? 0) eqn:E; zbool.
  - by rewrite (proj2 (Z.leb_gt 0 _)) by lia.
  - rewrite (proj2 (Z.leb_le 0 _)), (proj2 (Z.ltb_lt _ (Z.of_nat (length es + 1)))) by lia. simpl.
    by rewrite take_app_le by lia.
Qed.

Lemma seek_repr lp es i : lp_repr lp es ->
  lpSeek lp i = Some ((fun k => pos (take k es)) <$> index_of es i).
Proof.
  intros H. unfold lpSeek. destruct (header_repr lp es H) as (num & _ & -> & _ & Hnum).
  cbn [mbind option_bind]. unfold LP_HDR_NUMELE_UNKNOWN. destruct Hnum as [[-> Hnum] | ->].
  - rewrite (proj2 (Z.eqb_neq _ 65535)) by lia. cbn [negb andb]. cbv zeta.
    assert (index_of es i = index_of es (if i <? 0 then Z.of_nat (length es) + i else i) \/
            (if i <? 0 then Z.of_nat (length es) + i else i) < 0) as Hi.
    { unfold index_of. destruct (i <? 0) eqn:E; [|left; by rewrite E]. zbool.
      destruct (Z.of_nat (length es) + i <? 0) eqn:E2; zbool; [by right|by left]. }
    set (k := if i <? 0 then _ else _) in *. assert (index_of es i = if (0 <=? k) && (k <? Z.of_nat (length es))
      then Some (Z.to_nat k) else None) as Hix by done. clearbody k.
    destruct ((k <? 0) || (k >=? Z.of_nat (length es))) eqn:Eo.
    { rewrite Hix. apply orb_true_iff in Eo as [Eo|Eo]; zbool.
      - by rewrite (proj2 (Z.leb_gt 0 k)) by lia.
      - by rewrite (proj2 (Z.ltb_ge k _)), andb_false_r by lia. }
    zbool. destruct Hi as [-> | ?]; [|lia]. destruct (k >? Z.of_nat (length es) / 2) eqn:Ef; cbn [negb].
    + rewrite (seek_last lp es) by (done || lia). do 2 f_equal. unfold index_of.
      rewrite (proj2 (Z.ltb_lt (k - _) 0)), (proj2 (Z.ltb_ge k 0)) by lia. by rewrite Zplus_minus.
    + by apply seek_first.
  - cbn [Z.eqb Pos.eqb negb andb]. cbv zeta. destruct (i <? 0) eqn:E; cbn [negb]; zbool; cbv iota.
    + by apply seek_last.
    + by apply seek_first.
Qed.

Lemma repr_set_num lp es num : lp_repr lp es -> num = Z.of_nat (length es) -> num < 65535 ->
  exists lp', lpSetNumElements lp num = Some lp' /\ lp_repr lp' es.
Proof.
  intros (num0 & Hlp & Hlen & Hok & Hnum) Hn Hlt.
  set (h := header (Z.of_nat (length lp)) num0) in Hlp. assert (length h = 6%nat) as Hh by done.
  destruct (set_headers h (body es ++ [LP_EOF]) 0 num Hh) as [_ Hset]. rewrite <- Hlp in Hset.
  eexists. split; [exact Hset|]. exists num.
  assert (take 4 h = le_bytes 4 (Z.of_nat (length lp))) as -> by done.
  assert (length (le_bytes 4 (Z.of_nat (length lp)) ++ le_bytes 2 num ++ body es ++ [LP_EOF]) = length lp) as ->.
  { rewrite Hlp at 2. rewrite !length_app, !le_bytes_length, Hh. lia. }
  split_and!; [by rewrite app_assoc|done|done|by left].
Qed.

Lemma length_repr lp es : lp_repr lp es ->
  exists lp', lpLength lp = Some (lp', Z.of_nat (length es)) /\ lp_repr lp' es.
Proof.
  intros H. unfold lpLength. destruct (header_repr lp es H) as (num & _ & -> & _ & Hnum).
  cbn [mbind option_bind]. unfold LP_HDR_NUMELE_UNKNOWN. destruct Hnum as [[-> Hnum] | ->].
  - rewrite (proj2 (Z.eqb_neq _ 65535)) by lia. by exists lp.
  - cbn [Z.eqb Pos.eqb negb]. rewrite (first_repr lp es H). cbn [mbind option_bind].
    pose proof (repr_fuel lp es H). assert (Z.of_nat (length lp) < 2 ^ 32) by (by destruct H as (? & _ & ? & _)).
    rewrite (length_loop_repr lp es []) by (done || lia). rewrite Z.add_0_l. cbn [mbind option_bind].
    destruct (_ <? 65535) eqn:E; zbool; [|by exists lp].
    destruct (repr_set_num lp es _ H eq_refl E) as (lp' & -> & ?). by exists lp'.
Qed.

(** ** Insertion, replacement and deletion *)

Lemma enc_len_encode e : ele_ok e ->
  enc_len (lpEncodeGetType e (Z.of_nat (length e))) = Z.of_nat (length (encode e)).
Proof.
  intros He. unfold encode, ele_ok in *. destruct (string2ll e) as [v|] eqn:Ev.
  - by rewrite (lpEncodeGetType_int e v).
  - unfold lpEncodeGetType. rewrite lpStringToInt64_eq, Ev. cbn [enc_len]. rewrite length_app.
    unfold str_header. destruct (_ <? 64) eqn:E1; [|destruct (_ <? 4096) eqn:E2]; zbool;
      rewrite ?uwrap_small by lia; cbn [length]; rewrite ?le_bytes_length; lia.
Qed.

Lemma store_at p l k bs : 0 <= k -> store (p ++ l) (Z.of_nat (length p) + k) bs = (p ++.) <$> store l k bs.
Proof.
  intros Hk. unfold store. rewrite length_app, !(proj2 (Z.leb_le 0 _)) by lia. cbn [andb].
  destruct (k + Z.of_nat (length bs) <=? Z.of_nat (length l)) eqn:E; zbool.
  - rewrite (proj2 (Z.leb_le _ _)) by lia. cbn. f_equal.
    replace (Z.to_nat (Z.of_nat (length p) + k)) with (length p + Z.to_nat k)%nat by lia.
    rewrite take_app_add, <- Nat.add_assoc, drop_app_add. by rewrite <- app_assoc.
  - by rewrite (proj2 (Z.leb_gt _ _)) by lia.
Qed.

Lemma put_at p l k x : 0 <= k -> put (p ++ l) (Z.of_nat (length p) + k) x = (p ++.) <$> put l k x.
Proof. apply store_at. Qed.

(** Writes to the start of the room [x] after [p]. *)
Ltac writes :=
  repeat (first
    [rewrite put_at by lia | rewrite put_0 | rewrite put_1 | rewrite put_2 | rewrite put_3 | rewrite put_4];
    cbn [mbind option_bind fmap option_fmap option_map]).

Ltac finish_store h x r e k :=
  let Hs := fresh in
  pose proof (store_app h x r e k eq_refl ltac:(done)) as Hs; cbn [app] in Hs; rewrite Hs; done.

Lemma lpEncodeString_spec p x e r : ele_ok e -> length x = length (str_header (Z.of_nat (length e)) ++ e) ->
  lpEncodeString (p ++ x ++ r) (Z.of_nat (length p) + 0) e (Z.of_nat (length e)) =
    Some (p ++ str_header (Z.of_nat (length e)) ++ e ++ r).
Proof.
  intros He Hx. unfold ele_ok in He. unfold lpEncodeString.
  assert (load e 0 (Z.of_nat (length e)) = Some e) as ->.
  { rewrite load_Some by lia. by rewrite Nat2Z.id, take_ge. }
  rewrite <- !Z.add_assoc, !Z.add_0_l. unfold str_header in *. set (n := Z.of_nat (length e)) in *.
  destruct (n <? 64) eqn:E1; [|destruct (n <? 4096) eqn:E2]; zbool.
  - destruct x as [|a x]; [done|]. injection Hx as Hx. cbn [app]. writes.
    assert (u8 (Z.lor n 128) = 128 + n) as ->.
    { assert (0 <= n < 64) as Hn by lia. revert Hn. generalize n.
      refine (decide_below 64 (fun n => u8 (Z.lor n 128) = 128 + n) _). vm_compute. reflexivity. }
    rewrite store_at by lia. finish_store [128 + n] x r e 1.
  - destruct x as [|a [|b x]]; [done..|]. injection Hx as Hx. cbn [app]. writes.
    rewrite land_255, Z.shiftr_div_pow2 by lia. change (2 ^ 8) with 256.
    assert (u8 (Z.lor (n / 256) 224) = 224 + n / 256) as ->.
    { assert (0 <= n / 256 < 16) as Hn by (Z.to_euclidean_division_equations; lia). revert Hn. generalize (n / 256).
      refine (decide_below 16 (fun n => u8 (Z.lor n 224) = 224 + n) _). vm_compute. reflexivity. }
    rewrite store_at by lia. finish_store [224 + n / 256; n mod 256] x r e 2.
  - destruct x as [|a [|b [|c [|d [|f x]]]]]; [done..|]. injection Hx as Hx. cbn [app]. writes.
    rewrite store_at by lia. rewrite le_bytes_4.
    match goal with |- context [store (?a :: ?b :: ?c :: ?d :: ?f :: x ++ r) 5 e] =>
      finish_store [a; b; c; d; f] x r e 5 end.
Qed.

(** The element and the backward length are written over the room made for them. *)
Lemma write_entry p x e r enc : ele_ok e -> length x = length (entry e) ->
  enc = lpEncodeGetType e (Z.of_nat (length e)) ->
  match enc with
  | EncInt intenc =>
      lp ← store (p ++ x ++ r) (Z.of_nat (length p)) intenc;
      store lp (Z.of_nat (length p) + Z.of_nat (length (encode e))) (lpEncodeBacklen (Z.of_nat (length (encode e))))
  | EncString _ =>
      lp ← lpEncodeString (p ++ x ++ r) (Z.of_nat (length p)) e (Z.of_nat (length e));
      store lp (Z.of_nat (length p) + Z.of_nat (length (encode e))) (lpEncodeBacklen (Z.of_nat (length (encode e))))
  end = Some (p ++ entry e ++ r).
Proof.
  intros He Hx ->. unfold entry in Hx. rewrite length_app in Hx.
  rewrite <- (take_drop (length (encode e)) x).
  set (x1 := take (length (encode e)) x). set (x2 := drop (length (encode e)) x).
  assert (length x1 = length (encode e)) as H1 by (unfold x1; rewrite length_take; lia).
  assert (length x2 = length (lpEncodeBacklen (Z.of_nat (length (encode e))))) as H2
    by (unfold x2; rewrite length_drop; lia).
  clearbody x1 x2. rewrite <- !app_assoc.
  assert (forall lp, lp = Some (p ++ encode e ++ x2 ++ r) ->
    (lp ← lp; store lp (Z.of_nat (length p) + Z.of_nat (length (encode e)))
       (lpEncodeBacklen (Z.of_nat (length (encode e))))) = Some (p ++ entry e ++ r)) as Hback.
  { intros lp ->. cbn [mbind option_bind]. rewrite app_assoc, (store_app (p ++ encode e) x2 r);
      [|rewrite length_app; lia|done]. unfold entry. by rewrite <- !app_assoc. }
  unfold encode in H1 at 1. destruct (string2ll e) as [v|] eqn:Ev.
  - rewrite (lpEncodeGetType_int e v) by done. apply Hback. unfold encode. rewrite Ev.
    by apply (store_app p x1 (x2 ++ r)).
  - unfold lpEncodeGetType. rewrite lpStringToInt64_eq, Ev. apply Hback.
    rewrite <- (Z.add_0_r (Z.of_nat (length p))). rewrite lpEncodeString_spec by done.
    unfold encode. rewrite Ev. by rewrite <- app_assoc.
Qed.

(** The block is resized, when it grows before and when it shrinks after its tail
    is moved: the bytes [r] between [p] and [b] become [n] bytes. *)
Lemma resize_move junk (p r b : list byte) n dst src k old new :
  old = Z.of_nat (length (p ++ r ++ b)) -> new = old + Z.of_nat n - Z.of_nat (length r) ->
  dst = Z.of_nat (length p) + Z.of_nat n -> src = Z.of_nat (length p + length r) -> k = Z.of_nat (length b) ->
  exists lp1 x, memmove (if new >? old then realloc junk (p ++ r ++ b) new else p ++ r ++ b) dst src k = Some lp1 /\
    (if new <? old then realloc junk lp1 new else lp1) = p ++ x ++ b /\ length x = n.
Proof.
  intros Hold Hnew Hdst Hsrc Hk. rewrite !length_app in Hold.
  destruct (new >? old) eqn:Eg; zbool.
  - rewrite (proj2 (Z.ltb_ge new old)) by lia.
    destruct (realloc_grow junk (p ++ r ++ b) new) as (q & -> & Hq); [rewrite !length_app; lia|].
    rewrite !length_app in Hq. rewrite <- !app_assoc.
    destruct (memmove_tail p r b q n dst src k) as (x & y & -> & Hx & Hy); [done..|lia|].
    exists (p ++ x ++ b ++ y), x. split_and!; [done| |done].
    destruct y as [|? y]; [by rewrite app_nil_r|]. simpl in Hy. lia.
  - destruct (memmove_tail p r b [] n dst src k) as (x & y & Hm & Hx & Hy); [done..|simpl; lia|].
    rewrite app_nil_r in Hm. rewrite Hm. exists (p ++ x ++ b ++ y), x. split_and!; [done| |done].
    destruct (new <? old) eqn:Es; zbool.
    + rewrite realloc_shrink by (rewrite !length_app; lia). rewrite !app_assoc. rewrite take_app_length'; [done|].
      rewrite !length_app. simpl in Hy. lia.
    + destruct y as [|? y]; [by rewrite app_nil_r|]. simpl in Hy. lia.
Qed.

(** The header is brought up to date. *)
Lemma finish_insert total num new (es es' : list (list byte)) (upd : bool) d lp :
  lp = header total num ++ body es' ++ [LP_EOF] -> 0 <= total < 2 ^ 32 ->
  new = Z.of_nat (length lp) -> new < 2 ^ 32 -> Forall ele_ok es' ->
  num = Z.of_nat (length es) /\ num < 65535 \/ num = 65535 ->
  Z.of_nat (length es') = Z.of_nat (length es) + (if upd then d else 0) -> -1 <= d <= 1 ->
  exists lp', (lp ← (if upd then
                 n ← lpGetNumElements lp;
                 if negb (n =? LP_HDR_NUMELE_UNKNOWN) then lpSetNumElements lp (u32 (n + d)) else Some lp
               else Some lp);
               lpSetTotalBytes lp new) = Some lp' /\ lp_repr lp' es'.
Proof.
  intros -> Ht Hnew Hlt Hok Hnum Hlen Hd.
  assert (forall num', num' = Z.of_nat (length es') /\ num' < 65535 \/ num' = 65535 ->
    exists lp', lpSetTotalBytes (header total num' ++ body es' ++ [LP_EOF]) new = Some lp' /\ lp_repr lp' es') as Hfin.
  { intros num' Hnum'. destruct (set_headers (header total num') (body es' ++ [LP_EOF]) new 0 eq_refl) as [-> _].
    eexists. split; [done|]. exists num'. rewrite !length_app, header_length in Hnew.
    assert (Z.of_nat (length (le_bytes 4 new ++ drop 4 (header total num') ++ body es' ++ [LP_EOF])) = new) as ->.
    { rewrite !length_app, le_bytes_length. change (length (drop 4 (header total num'))) with 2%nat. lia. }
    split_and!; [|done..]. change (drop 4 (header total num')) with (le_bytes 2 num'). unfold header. by rewrite <- app_assoc. }
  destruct upd.
  - assert (lpGetNumElements (header total num ++ body es' ++ [LP_EOF]) = Some num) as ->.
    { unfold header. rewrite <- app_assoc. apply get_header; [done|lia]. }
    cbn [mbind option_bind]. unfold LP_HDR_NUMELE_UNKNOWN. destruct (num =? 65535) eqn:E; zbool; cbn [negb].
    { apply Hfin. by right. }
    destruct (set_headers (header total num) (body es' ++ [LP_EOF]) 0 (u32 (num + d)) eq_refl) as [_ ->].
    cbn [mbind option_bind]. change (take 4 (header total num)) with (le_bytes 4 total). rewrite app_assoc.
    fold (header total (u32 (num + d))). apply Hfin. rewrite uwrap_small by lia. lia.
  - cbn [mbind option_bind]. apply Hfin. lia.
Qed.

(** What follows the move of the tail: [x] is the room for the new element. *)
Lemma insert_bytes lp es1 rs es2 num new (ns : list (list byte)) x (upd : bool) d :
  lp_repr lp (es1 ++ rs ++ es2) -> lp = header (Z.of_nat (length lp)) num ++ body (es1 ++ rs ++ es2) ++ [LP_EOF] ->
  num = Z.of_nat (length (es1 ++ rs ++ es2)) /\ num < 65535 \/ num = 65535 ->
  Forall ele_ok ns -> new = Z.of_nat (length lp) + Z.of_nat (length (body ns)) - Z.of_nat (length (body rs)) ->
  new < 2 ^ 32 -> Z.of_nat (length ns) = Z.of_nat (length rs) + (if upd then d else 0) -> -1 <= d <= 1 ->
  x = (header (Z.of_nat (length lp)) num ++ body es1) ++ body ns ++ body es2 ++ [LP_EOF] ->
  exists lp', (lp ← (if upd then
                 n ← lpGetNumElements x;
                 if negb (n =? LP_HDR_NUMELE_UNKNOWN) then lpSetNumElements x (u32 (n + d)) else Some x
               else Some x);
               lpSetTotalBytes lp new) = Some lp' /\ lp_repr lp' (es1 ++ ns ++ es2).
Proof.
  intros Hrepr Hlp Hnum Hns Hnew Hlt Hd Hd1 ->. destruct Hrepr as (num0 & _ & Hlen & Hok & _).
  apply (finish_insert (Z.of_nat (length lp)) num new (es1 ++ rs ++ es2)); try done.
  - by rewrite !body_app, <- !app_assoc.
  - lia.
  - pose proof (f_equal length Hlp) as Hl. rewrite !body_app, !length_app in *. lia.
  - rewrite !Forall_app in *. naive_solver.
  - rewrite !length_app. lia.
Qed.

Definition seg (ele : option (list byte)) : list (list byte) := match ele with Some e => [e] | None => [] end.

Lemma replaced_repr lp es1 rs es2 where_ : lp_repr lp (es1 ++ rs ++ es2) ->
  (where_ = LP_BEFORE /\ rs = [] \/ where_ = LP_REPLACE /\ length rs = 1%nat) ->
  (if where_ =? LP_REPLACE then
     n ← lpCurrentEncodedSize lp (pos es1); Some (u32 (n + backlen_size n)) else Some 0) =
  Some (Z.of_nat (length (body rs))).
Proof.
  intros H [[-> ->]|[-> Hrs]]; [done|]. destruct rs as [|x [|]]; try done. cbn [app] in H.
  destruct (repr_encode_length lp es1 x es2 H) as [_ Hx]. cbn [Z.eqb LP_REPLACE Pos.eqb].
  destruct (read_repr lp es1 x es2 H) as (-> & _). cbn [mbind option_bind]. rewrite body_one.
  unfold entry, backlen_size in *. rewrite length_app in *. rewrite uwrap_small by lia. f_equal. lia.
Qed.

(** The two calls of memmove(3) are the same move of the tail. *)
Lemma move_args lp where_ poff enclen bl old rl :
  where_ = LP_BEFORE /\ rl = 0 \/ where_ = LP_REPLACE -> 0 <= poff -> 0 <= rl -> poff + rl <= old < 2 ^ 32 ->
  0 <= enclen < 2 ^ 33 -> 0 <= bl <= 5 ->
  (if where_ =? LP_BEFORE then memmove lp (poff + enclen + bl) poff (u64 (old - poff))
   else memmove lp (poff + rl + s64 (u64 (enclen + bl - rl))) (poff + rl) (u64 (old - poff - rl))) =
  memmove lp (poff + enclen + bl) (poff + rl) (old - poff - rl).
Proof.
  intros Hm Hp Hr Ho He Hb. rewrite swrap_uwrap, swrap_small, !(uwrap_small 64) by (limits; lia).
  destruct Hm as [[-> ->] | ->]; cbn [Z.eqb LP_BEFORE LP_REPLACE]; f_equal; lia.
Qed.

Lemma insert_core junk lp es1 rs es2 ele where_ size :
  lp_repr lp (es1 ++ rs ++ es2) -> Forall ele_ok (seg ele) ->
  (where_ = LP_BEFORE /\ rs = [] /\ is_Some ele \/ where_ = LP_REPLACE /\ length rs = 1%nat) ->
  size = Z.of_nat (length lp) + Z.of_nat (length (body (seg ele))) - Z.of_nat (length (body rs)) ->
  if size >? 2 ^ 32 - 1 then lpInsert junk lp ele (pos es1) where_ = Some None
  else exists lp', lpInsert junk lp ele (pos es1) where_ = Some (Some (lp', cursor es1 (seg ele ++ es2))) /\
    lp_repr lp' (es1 ++ seg ele ++ es2).
Proof.
  intros Hrepr Hok Hmode Hsize. pose proof Hrepr as (_ & _ & Hlen & _).
  destruct (header_repr lp _ Hrepr) as (num & Ht & _ & Hlp & Hnum).
  assert (match ele with Some _ => where_ | None => LP_REPLACE end = where_) as Hw.
  { destruct ele; [done|]. destruct Hmode as [(_ & _ & []%is_Some_None)|[-> _]]. done. }
  assert ((where_ =? LP_AFTER) = false) as Ha by (by destruct Hmode as [[-> _]|[-> _]]).
  unfold lpInsert. rewrite Hw, Ha. cbn [mbind option_bind]. rewrite Ht. cbn [mbind option_bind].
  rewrite (replaced_repr lp es1 rs es2) by (done || naive_solver). cbn [mbind option_bind].
  set (enclen := match _ with Some e => enc_len e | None => 0 end).
  set (back := match ele with Some _ => lpEncodeBacklen enclen | None => [] end).
  assert (enclen = match ele with Some e => Z.of_nat (length (encode e)) | None => 0 end) as He.
  { subst enclen. destruct ele as [e|]; [|done]. apply enc_len_encode. by apply Forall_cons in Hok as [? _]. }
  assert (Z.of_nat (length (body (seg ele))) = enclen + Z.of_nat (length back)) as Hns.
  { subst back. rewrite He. destruct ele as [e|]; [|done]. cbn [seg]. rewrite body_one. unfold entry. rewrite length_app. lia. }
  assert (0 <= enclen < 2 ^ 33 /\ Z.of_nat (length back) <= 5) as [Hel Hbl].
  { subst back. rewrite He. destruct ele as [e|]; [|simpl; lia]. apply Forall_cons in Hok as [Hoke _].
    pose proof (encode_length e). pose proof (backlen_length (Z.of_nat (length (encode e)))). unfold ele_ok in Hoke. lia. }
  assert (Z.of_nat (length (body rs)) <= Z.of_nat (length lp)) as Hrl.
  { pose proof (f_equal length Hlp) as Hl. rewrite !body_app, !length_app in Hl. lia. }
  rewrite (uwrap_small 64) by lia. replace (_ + enclen + Z.of_nat (length back) - _) with size by lia.
  destruct (size >? 2 ^ 32 - 1) eqn:Es; [done|]. zbool.
  assert (pos es1 + Z.of_nat (length (body rs)) <= Z.of_nat (length lp)) as Hpr.
  { pose proof (f_equal length Hlp) as Hl. rewrite !body_app, !length_app, header_length in Hl. unfold pos. lia. }
  rewrite move_args by (unfold pos; naive_solver lia).
  set (h := header (Z.of_nat (length lp)) num) in *.
  assert (lp = (h ++ body es1) ++ body rs ++ body es2 ++ [LP_EOF]) as Hlp'.
  { by rewrite Hlp at 1; rewrite !body_app, <- !app_assoc. }
  assert (Z.of_nat (length (h ++ body es1)) = pos es1) as Hpos by (rewrite length_app; change (length h) with 6%nat; unfold pos; lia).
  destruct (resize_move junk (h ++ body es1) (body rs) (body es2 ++ [LP_EOF]) (length (body (seg ele)))
    (pos es1 + enclen + Z.of_nat (length back)) (pos es1 + Z.of_nat (length (body rs)))
    (Z.of_nat (length lp) - pos es1 - Z.of_nat (length (body rs))) (Z.of_nat (length lp)) size)
    as (lp1 & x & Hmm & Hsh & Hx); [by rewrite <- Hlp'|lia|lia|lia| |].
  { pose proof (f_equal length Hlp') as Hl. rewrite !length_app in *. lia. }
  rewrite <- Hlp' in Hmm. rewrite Hmm. cbn [mbind option_bind]. rewrite Hsh. clear Hmm Hsh lp1.
  subst enclen back. destruct ele as [e|]; cbn [mbind option_bind seg] in *.
  - pose proof Hok as [Hoke _]%Forall_cons. rewrite body_one in Hx.
    rewrite <- Hpos, enc_len_encode, write_entry by done. cbn [mbind option_bind].
    destruct (insert_bytes lp es1 rs es2 num size [e] ((h ++ body es1) ++ body [e] ++ body es2 ++ [LP_EOF])
      (negb (where_ =? LP_REPLACE) || negb (bool_decide (is_Some (Some e)))) 1) as (lp' & Hfin & Hr'); try done; [lia| |].
    { by destruct Hmode as [(-> & -> & _)|[-> ->]]. }
    exists lp'. split; [|done]. rewrite body_one in Hfin.
    apply bind_Some in Hfin as (lp2 & -> & Hset). cbn [mbind option_bind]. by rewrite Hset, Hpos.
  - destruct x as [|]; [|done]. cbn [app] in *.
    destruct (getb_body (h ++ body es1) es1 es2) as (b & Hb & Hc); [by destruct Hrepr as (_ & _ & _ & ? & _); decompose_Forall|].
    rewrite Hpos in Hb. rewrite Hb. cbn [mbind option_bind].
    destruct (insert_bytes lp es1 rs es2 num size [] ((h ++ body es1) ++ body [] ++ body es2 ++ [LP_EOF])
      (negb (where_ =? LP_REPLACE) || negb (bool_decide (is_Some (@None (list byte))))) (-1)) as (lp' & Hfin & Hr'); try done; [lia| |].
    { destruct Hmode as [(_ & _ & []%is_Some_None)|[-> ->]]. done. }
    exists lp'. split; [|done]. cbn [app body mbind list_bind] in Hfin.
    apply bind_Some in Hfin as (lp2 & Hset & Htot). refine (eq_trans (f_equal (fun o => o ≫= _) Hset) _).
    cbn [mbind option_bind]. by rewrite Htot, <- Hc.
Qed.

(** *** The operations *)

Lemma new_repr junk : exists lp, lpNew junk = Some lp /\ lp_repr lp [].
Proof. eexists. split; [reflexivity|]. exists 0. split_and!; [done|done|constructor|by left]. Qed.

Definition lp_size (es : list (list byte)) : Z := 7 + Z.of_nat (length (body es)).

Lemma insert_before_repr junk lp es1 es2 e : lp_repr lp (es1 ++ es2) -> ele_ok e ->
  if lp_size (es1 ++ e :: es2) >? 2 ^ 32 - 1 then lpInsert junk lp (Some e) (pos es1) LP_BEFORE = Some None
  else exists lp', lpInsert junk lp (Some e) (pos es1) LP_BEFORE = Some (Some (lp', Some (pos es1))) /\
    lp_repr lp' (es1 ++ e :: es2).
Proof.
  intros H He. pose proof (repr_length lp _ H) as Hl.
  apply (insert_core junk lp es1 [] es2 (Some e) LP_BEFORE); [done|by constructor|by left|].
  cbn [seg]. rewrite body_one. unfold lp_size. rewrite !body_app in *. change (body (e :: es2)) with (entry e ++ body es2).
  rewrite !length_app in *. simpl. lia.
Qed.

Lemma insert_after_repr junk lp es1 x es2 e : lp_repr lp (es1 ++ x :: es2) -> ele_ok e ->
  if lp_size (es1 ++ x :: e :: es2) >? 2 ^ 32 - 1 then lpInsert junk lp (Some e) (pos es1) LP_AFTER = Some None
  else exists lp', lpInsert junk lp (Some e) (pos es1) LP_AFTER = Some (Some (lp', Some (pos (es1 ++ [x])))) /\
    lp_repr lp' (es1 ++ x :: e :: es2).
Proof.
  intros H He. assert (lpInsert junk lp (Some e) (pos es1) LP_AFTER =
    lpInsert junk lp (Some e) (pos (es1 ++ [x])) LP_BEFORE) as ->.
  { unfold lpInsert. destruct (read_repr lp es1 x es2 H) as (_ & _ & Hskip). by rewrite Hskip. }
  rewrite (cons_middle x es1), app_assoc in H. rewrite (cons_middle x es1 (e :: es2)), app_assoc.
  by apply insert_before_repr.
Qed.

Lemma replace_repr junk lp es1 x es2 e : lp_repr lp (es1 ++ x :: es2) -> ele_ok e ->
  if lp_size (es1 ++ e :: es2) >? 2 ^ 32 - 1 then lpInsert junk lp (Some e) (pos es1) LP_REPLACE = Some None
  else exists lp', lpInsert junk lp (Some e) (pos es1) LP_REPLACE = Some (Some (lp', Some (pos es1))) /\
    lp_repr lp' (es1 ++ e :: es2).
Proof.
  intros H He. pose proof (repr_length lp _ H) as Hl.
  apply (insert_core junk lp es1 [x] es2 (Some e) LP_REPLACE); [done|by constructor|by right|].
  cbn [seg]. rewrite !body_one. unfold lp_size. rewrite !body_app in *.
  change (body (e :: es2)) with (entry e ++ body es2). change (body (x :: es2)) with (entry x ++ body es2) in Hl.
  rewrite !length_app in *. lia.
Qed.

Lemma delete_repr junk lp es1 x es2 : lp_repr lp (es1 ++ x :: es2) ->
  exists lp', lpDelete junk lp (pos es1) = Some (Some (lp', cursor es1 es2)) /\ lp_repr lp' (es1 ++ es2).
Proof.
  intros H. pose proof H as (_ & _ & Hlen & _).
  pose proof (insert_core junk lp es1 [x] es2 None LP_REPLACE
    (Z.of_nat (length lp) - Z.of_nat (length (body [x]))) H) as Hcore.
  destruct (_ >? _) eqn:E in Hcore; [zlia|]. apply Hcore; [constructor|by right|simpl; lia].
Qed.

(** ** The listpack as a list of strings *)

(** Calls of a client: the element an operation is about is found by its index. *)
Inductive lp_cmd :=
  | CAppend (e : list byte)
  | CInsert (index where_ : Z) (e : list byte)
  | CDelete (index : Z)
  | CLength.

(** The block after the call and what the client learns: the number of elements,
    or 1 for success, 0 for NULL (the block is kept) and -1 for a missing index. *)
Definition lp_exec (junk : nat -> byte) (lp : list byte) (c : lp_cmd) : option (list byte * Z) :=
  let ret r := match r with Some (lp', _) => Some (lp', 1) | None => Some (lp, 0) end in
  match c with
  | CAppend e => r ← lpAppend junk lp e; ret r
  | CInsert index where_ e =>
      p ← lpSeek lp index;
      match p with
      | Some p => r ← lpInsert junk lp (Some e) p where_; ret r
      | None => Some (lp, -1)
      end
  | CDelete index =>
      p ← lpSeek lp index;
      match p with Some p => r ← lpDelete junk lp p; ret r | None => Some (lp, -1) end
  | CLength => lpLength lp
  end.

Fixpoint lp_execs (junk : nat -> byte) (lp : list byte) (cs : list lp_cmd) : option (list byte * list Z) :=
  match cs with
  | [] => Some (lp, [])
  | c :: cs =>
      r ← lp_exec junk lp c;
      rs ← lp_execs junk r.1 cs;
      Some (rs.1, r.2 :: rs.2)
  end.

(** The specification on lists; a result that does not fit 32 bits is refused. *)
Definition spec_insert (es : list (list byte)) (k : nat) (where_ : Z) (e : list byte) : list (list byte) :=
  if where_ =? LP_BEFORE then take k es ++ e :: drop k es
  else if where_ =? LP_AFTER then take (S k) es ++ e :: drop (S k) es
  else <[k := e]> es.

Definition spec_fit (es es' : list (list byte)) : list (list byte) * Z :=
  if lp_size es' >? 2 ^ 32 - 1 then (es, 0) else (es', 1).

Definition spec_exec (es : list (list byte)) (c : lp_cmd) : list (list byte) * Z :=
  match c with
  | CAppend e => spec_fit es (es ++ [e])
  | CInsert index where_ e =>
      match index_of es index with Some k => spec_fit es (spec_insert es k where_ e) | None => (es, -1) end
  | CDelete index =>
      match index_of es index with Some k => (delete k es, 1) | None => (es, -1) end
  | CLength => (es, Z.of_nat (length es))
  end.

Fixpoint spec_execs (es : list (list byte)) (cs : list lp_cmd) : list (list byte) * list Z :=
  match cs with
  | [] => (es, [])
  | c :: cs => let r := spec_exec es c in let rs := spec_execs r.1 cs in (rs.1, r.2 :: rs.2)
  end.

Definition cmd_ok (c : lp_cmd) : Prop :=
  match c with
  | CAppend e => ele_ok e
  | CInsert _ where_ e => ele_ok e /\ (where_ = LP_BEFORE \/ where_ = LP_AFTER \/ where_ = LP_REPLACE)
  | _ => True
  end.

Lemma index_of_split es i k : index_of es i = Some k -> exists e, es !! k = Some e /\ es = take k es ++ e :: drop (S k) es.
Proof.
  unfold index_of. set (j := if i <? 0 then _ else _). destruct (_ && _) eqn:E; [|done]. intros [= <-]. zbool.
  destruct (lookup_lt_is_Some_2 es (Z.to_nat j)) as [e He]; [lia|]. exists e. split; [done|].
  by rewrite take_drop_middle.
Qed.

(** An insertion that obeys its specification makes the command obey its own. *)
Lemma exec_fit lp es es' (r : option (option (list byte * option Z))) np :
  lp_repr lp es ->
  (if lp_size es' >? 2 ^ 32 - 1 then r = Some None else exists lp', r = Some (Some (lp', np)) /\ lp_repr lp' es') ->
  exists lp', (r ← r; match r with Some (lp', _) => Some (lp', 1) | None => Some (lp, 0) end) =
    Some (lp', (spec_fit es es').2) /\ lp_repr lp' (spec_fit es es').1.
Proof.
  intros H Hr. unfold spec_fit. destruct (_ >? _); [subst r; by exists lp|].
  destruct Hr as (lp' & -> & ?). by exists lp'.
Qed.

Lemma insert_repr junk lp es k e where_ x : lp_repr lp es -> es !! k = Some x -> ele_ok e ->
  where_ = LP_BEFORE \/ where_ = LP_AFTER \/ where_ = LP_REPLACE ->
  exists np, if lp_size (spec_insert es k where_ e) >? 2 ^ 32 - 1
    then lpInsert junk lp (Some e) (pos (take k es)) where_ = Some None
    else exists lp', lpInsert junk lp (Some e) (pos (take k es)) where_ = Some (Some (lp', np)) /\
      lp_repr lp' (spec_insert es k where_ e).
Proof.
  intros H Hx He Hw. pose proof (take_drop_middle es k x Hx) as Hes. rewrite <- Hes in H at 1.
  destruct Hw as [-> | [-> | ->]]; cbn [spec_insert Z.eqb LP_BEFORE LP_AFTER LP_REPLACE Pos.eqb]; eexists.
  - rewrite (drop_S es x k Hx). by apply insert_before_repr.
  - rewrite (take_S_r es k x Hx), <- app_assoc. by apply insert_after_repr.
  - rewrite insert_take_drop by (by eapply lookup_lt_Some). by eapply replace_repr.
Qed.

Lemma exec_repr junk lp es c : lp_repr lp es -> cmd_ok c ->
  exists lp', lp_exec junk lp c = Some (lp', (spec_exec es c).2) /\ lp_repr lp' (spec_exec es c).1.
Proof.
  intros H Hc. destruct c as [e|i where_ e|i|]; cbn [lp_exec spec_exec cmd_ok] in *.
  - apply (exec_fit lp es (es ++ [e]) (lpAppend junk lp e) (Some (pos es)) H). unfold lpAppend.
    destruct (header_repr lp es H) as (num & -> & _). cbn [mbind option_bind].
    rewrite (repr_length lp es H). replace (7 + _ - 1) with (pos es) by (unfold pos; lia).
    apply insert_before_repr; [by rewrite app_nil_r|done].
  - rewrite (seek_repr lp es i H). cbn [mbind option_bind]. destruct (index_of es i) as [k|] eqn:Ek; [|by exists lp].
    cbn [fmap option_fmap option_map]. destruct (index_of_split es i k Ek) as (x & Hx & _). destruct Hc as [He Hw].
    destruct (insert_repr junk lp es k e where_ x H Hx He Hw) as [np Hr]. by eapply exec_fit.
  - rewrite (seek_repr lp es i H). cbn [mbind option_bind]. destruct (index_of es i) as [k|] eqn:Ek; [|by exists lp].
    cbn [fmap option_fmap option_map]. destruct (index_of_split es i k Ek) as (x & Hx & Hes). rewrite Hes in H at 1.
    destruct (delete_repr junk lp (take k es) x (drop (S k) es) H) as (lp' & -> & Hr). exists lp'.
    split; [done|]. by rewrite delete_take_drop.
  - by apply length_repr.
Qed.

Lemma execs_repr junk cs : forall lp es, lp_repr lp es -> Forall cmd_ok cs ->
  exists lp', lp_execs junk lp cs = Some (lp', (spec_execs es cs).2) /\ lp_repr lp' (spec_execs es cs).1.
Proof.
  induction cs as [|c cs IH]; intros lp es H Hok; [by exists lp|]. apply Forall_cons in Hok as [Hc Hok].
  destruct (exec_repr junk lp es c H Hc) as (lp1 & H1 & Hr1). cbn [lp_execs spec_execs]. rewrite H1.
  cbn [mbind option_bind fst snd]. destruct (IH lp1 _ Hr1 Hok) as (lp2 & -> & Hr2). by exists lp2.
Qed.

(** The element at an index, as a client reads it. *)
Definition lp_nth (lp : list byte) (index : Z) : option (option (list byte)) :=
  p ← lpSeek lp index;
  match p with Some p => e ← lpGetString lp p; Some (Some e) | None => Some None end.

Lemma nth_repr lp es i : lp_repr lp es -> lp_nth lp i = Some (k ← index_of es i; es !! k).
Proof.
  intros H. unfold lp_nth. rewrite (seek_repr lp es i H). cbn [mbind option_bind].
  destruct (index_of es i) as [k|] eqn:Ek; [|done]. cbn [fmap option_fmap option_map mbind option_bind].
  destruct (index_of_split es i k Ek) as (x & Hx & Hes). rewrite Hes in H at 1.
  destruct (read_repr lp _ _ _ H) as (_ & -> & _). by rewrite Hx.
Qed.

(** *** Elements close to 4 GB *)

Lemma store_keeps m off bs m' : store m off bs = Some m' -> length m' = length m.
Proof.
  unfold store. destruct (_ && _) eqn:E; [|done]. intros [= <-]. zbool. rewrite !length_app, length_take, length_drop. lia.
Qed.

Lemma encode_string_overflows lp dst e : 4096 <= Z.of_nat (length e) -> Z.of_nat (length lp) < Z.of_nat (length e) -> 0 <= dst ->
  lpEncodeString lp dst e (Z.of_nat (length e)) = None.
Proof.
  intros He Hlp Hdst. unfold lpEncodeString, put. rewrite (proj2 (Z.ltb_ge _ 64)), (proj2 (Z.ltb_ge _ 4096)) by lia.
  do 5 (match goal with |- context [store ?m ?o [?b]] =>
    let H := fresh "Hs" in destruct (store m o [b]) as [?|] eqn:H; [|done]; cbn [mbind option_bind]; apply store_keeps in H end).
  rewrite load_Some by lia. cbn [mbind option_bind]. unfold store. rewrite drop_0, length_take.
  destruct ((_ <=? _) && _) eqn:Es; [|done]. zbool. lia.
Qed.

(** The encoded length of an element of at least 2^32 - 5 bytes is computed in 32
    bits: the block is made too small and the element is written past its end,
    instead of being refused. *)
Lemma oversized_element_overflows junk lp e p : lpGetTotalBytes lp = Some (Z.of_nat (length lp)) -> Z.of_nat (length lp) < 2 ^ 31 ->
  2 ^ 32 - 5 <= Z.of_nat (length e) < 2 ^ 32 -> 0 <= p -> lpInsert junk lp (Some e) p LP_BEFORE = None.
Proof.
  intros Htot Hlp He Hp. unfold lpInsert. cbn [mbind option_bind]. change (LP_BEFORE =? LP_AFTER) with false.
  change (LP_BEFORE =? LP_REPLACE) with false. change (LP_BEFORE =? LP_BEFORE) with true. cbv beta iota.
  assert (lpEncodeGetType e (Z.of_nat (length e)) = EncString (Z.of_nat (length e) + 5 - 2 ^ 32)) as ->.
  { unfold lpEncodeGetType. rewrite lpStringToInt64_eq. destruct (string2ll e) as [v|] eqn:Ev.
    - apply string2ll_sound in Ev as [Hv ->]. pose proof (decimal_short v Hv). lia.
    - rewrite (proj2 (Z.ltb_ge _ 64)), (proj2 (Z.ltb_ge _ 4096)) by lia. f_equal. unfold uwrap.
      symmetry. apply (Z.mod_unique_pos _ _ 1); lia. }
  cbn [enc_len]. set (enclen := Z.of_nat (length e) + 5 - 2 ^ 32). set (back := lpEncodeBacklen enclen).
  pose proof (backlen_length enclen) as Hb. fold back in Hb. rewrite Htot. cbn [mbind option_bind].
  assert (0 <= enclen < 5) as Hen by (subst enclen; lia). clearbody enclen.
  change (LP_BEFORE =? LP_REPLACE) with false. change (LP_BEFORE =? LP_BEFORE) with true. cbn [mbind option_bind].
  rewrite (uwrap_small 64 (Z.of_nat (length lp) + enclen + Z.of_nat (length back) - 0)) by lia.
  set (new := Z.of_nat (length lp) + enclen + Z.of_nat (length back) - 0). assert (Z.of_nat (length lp) < new <= Z.of_nat (length lp) + 9) as Hnew by (subst new; lia).
  rewrite !Z.gtb_ltb, (proj2 (Z.ltb_ge (2 ^ 32 - 1) new)), (proj2 (Z.ltb_lt (Z.of_nat (length lp)) new)), (proj2 (Z.ltb_ge new _)) by lia. clearbody new.
  set (lp1 := realloc _ _ _). assert (Z.of_nat (length lp1) <= Z.of_nat (length lp) + 9) as Hl1 by (subst lp1; rewrite realloc_length; lia).
  destruct (memmove lp1 _ _ _) as [lp2|] eqn:Em; [|done]. cbn [mbind option_bind].
  unfold memmove in Em. destruct (load lp1 _ _) as [bs|]; [|done]. cbn [mbind option_bind] in Em. apply store_keeps in Em.
  rewrite encode_string_overflows by lia. done.
Qed.

(** C15: A listpack implements a list of strings: any sequence of appends, insertions
    before and after an element, replacements, deletions and counts on a new
    listpack, with elements shorter than 2^32 - 5 bytes, answers as the list
    operations do; an operation whose block would exceed 32 bits returns NULL.  In
    the final block [lpBytes] is its size and [lpSeek] with [lpGet] reads every
    element, from either end. *)
Theorem listpack_refines_list junk cs : Forall cmd_ok cs ->
  let '(es, outs) := spec_execs [] cs in
  exists lp0 lp, lpNew junk = Some lp0 /\ lp_execs junk lp0 cs = Some (lp, outs) /\
    lpBytes lp = Some (lp_size es) /\ lp_size es = Z.of_nat (length lp) /\
    forall i, lp_nth lp i = Some (k ← index_of es i; es !! k).
Proof.
  intros Hok. destruct (new_repr junk) as (lp0 & Hnew & H0). destruct (execs_repr junk cs lp0 [] H0 Hok) as (lp & Hex & Hr).
  destruct (spec_execs [] cs) as [es outs]. exists lp0, lp. pose proof (repr_length lp es Hr) as Hl.
  split_and!; [done|done| |done|intros i; by apply nth_repr].
  unfold lpBytes. destruct (header_repr lp es Hr) as (num & -> & _). by rewrite Hl.
Qed.

(** The entry written for an element can be read from both ends: at its first
    byte [lpCurrentEncodedSize] and [lpGet] give the encoded length and the
    element, and the length read backwards from its last byte leads back. *)
Theorem listpack_entry_roundtrip p e r : ele_ok e ->
  let lp := p ++ entry e ++ r in
  let off := Z.of_nat (length p) in
  lpCurrentEncodedSize lp off = Some (Z.of_nat (length (encode e))) /\
  lpGetString lp off = Some e /\
  lpSkip lp off = Some (off + Z.of_nat (length (entry e))) /\
  (off = LP_HDR_SIZE -> lpPrev lp off = Some None) /\
  (6 <= off -> lpPrev lp (off + Z.of_nat (length (entry e))) = Some (Some off)).
Proof.
  intros He lp off. subst off.
  assert (lp = p ++ encode e ++ lpEncodeBacklen (Z.of_nat (length (encode e))) ++ r) as ->
    by (subst lp; unfold entry; by rewrite <- !app_assoc).
  destruct (decode_encode p e (lpEncodeBacklen (Z.of_nat (length (encode e))) ++ r) He) as [Hs Hg].
  pose proof (encode_length e). pose proof (entry_length e). split_and!; [done|done|..].
  - unfold lpSkip. rewrite Hs. cbn [mbind option_bind]. f_equal. unfold entry, backlen_size. rewrite length_app. lia.
  - intros ->. done.
  - intros Hoff. unfold lpPrev. rewrite (proj2 (Z.eqb_neq _ LP_HDR_SIZE)) by (unfold LP_HDR_SIZE; lia).
    unfold entry. rewrite (app_assoc p (encode e)), decode_backlen.
    + cbn [mbind option_bind]. unfold backlen_size. do 2 f_equal. rewrite !length_app. lia.
    + unfold ele_ok in He. lia.
    + rewrite !length_app. lia.
Qed.

Definition junk_lp (i : nat) : byte := Z.of_nat i mod 256.

Lemma listpack_refines_list_witness : exists lp0 lp, lpNew junk_lp = Some lp0 /\
  lp_execs junk_lp lp0 [CAppend (bytes_of "hello"); CAppend (bytes_of "-4096"); CInsert (-1) LP_BEFORE (bytes_of "1024");
                        CInsert 0 LP_REPLACE (bytes_of "99"); CDelete 1; CDelete 7; CLength] = Some (lp, [1; 1; 1; 1; 1; -1; 2]) /\
  forall i, lp_nth lp i = Some (k ← index_of [bytes_of "99"; bytes_of "-4096"] i; [bytes_of "99"; bytes_of "-4096"] !! k).
Proof.
  destruct (listpack_refines_list junk_lp [CAppend (bytes_of "hello"); CAppend (bytes_of "-4096");
    CInsert (-1) LP_BEFORE (bytes_of "1024"); CInsert 0 LP_REPLACE (bytes_of "99"); CDelete 1; CDelete 7; CLength])
    as (lp0 & lp & Hnew & Hex & _ & _ & Hnth).
  { repeat constructor; by right; right. }
  exists lp0, lp. split_and!; [exact Hnew|exact Hex|exact Hnth].
Defined.

Lemma listpack_entry_roundtrip_witness :
  lpGetString (replicate 6 0 ++ entry (bytes_of "-70000") ++ [LP_EOF]) 6 = Some (bytes_of "-70000").
Proof. apply (listpack_entry_roundtrip (replicate 6 0) (bytes_of "-70000") [LP_EOF]). vm_compute. reflexivity. Defined.
