(* ===== verification/Bitops.v ===== *)
(** * Bitmaps (src/redis-5.0.7/src/bitops.c)

    The bit functions behind BITCOUNT, BITPOS and BITFIELD: the population count
    that handles 28 bytes at a time, the search of the first bit by words, integers
    of any width at any bit position, and the overflow checks of BITFIELD.  A
    bitmap is a block of bytes at an address, whose alignment decides which loop
    handles which byte.  A shift by the width of its operand or more is undefined
    in C and has no value. *)

From S2P Require Import Prelude Endian Util.
Local Open Scope Z_scope.

(** ** Counting *)

Definition bitsinbyte : list Z :=
  [
   0; 1; 1; 2; 1; 2; 2; 3; 1; 2; 2; 3; 2; 3; 3; 4; 1; 2; 2; 3; 2; 3; 3; 4; 2; 3; 3; 4; 3; 4; 4; 5;
   1; 2; 2; 3; 2; 3; 3; 4; 2; 3; 3; 4; 3; 4; 4; 5; 2; 3; 3; 4; 3; 4; 4; 5; 3; 4; 4; 5; 4; 5; 5; 6;
   1; 2; 2; 3; 2; 3; 3; 4; 2; 3; 3; 4; 3; 4; 4; 5; 2; 3; 3; 4; 3; 4; 4; 5; 3; 4; 4; 5; 4; 5; 5; 6;
   2; 3; 3; 4; 3; 4; 4; 5; 3; 4; 4; 5; 4; 5; 5; 6; 3; 4; 4; 5; 4; 5; 5; 6; 4; 5; 5; 6; 5; 6; 6; 7;
   1; 2; 2; 3; 2; 3; 3; 4; 2; 3; 3; 4; 3; 4; 4; 5; 2; 3; 3; 4; 3; 4; 4; 5; 3; 4; 4; 5; 4; 5; 5; 6;
   2; 3; 3; 4; 3; 4; 4; 5; 3; 4; 4; 5; 4; 5; 5; 6; 3; 4; 4; 5; 4; 5; 5; 6; 4; 5; 5; 6; 5; 6; 6; 7;
   2; 3; 3; 4; 3; 4; 4; 5; 3; 4; 4; 5; 4; 5; 5; 6; 3; 4; 4; 5; 4; 5; 5; 6; 4; 5; 5; 6; 5; 6; 6; 7;
   3; 4; 4; 5; 4; 5; 5; 6; 4; 5; 5; 6; 5; 6; 6; 7; 4; 5; 5; 6; 5; 6; 6; 7; 5; 6; 6; 7; 6; 7; 7; 8].

Definition bits_in_byte (b : byte) : option Z := getb bitsinbyte b.

(** The byte loops before the first aligned address and after the last word:
    [n] bytes at [p]. *)
Fixpoint count_bytes (n : nat) (s : list byte) (p bits : Z) : option (Z * Z) :=
  match n with
  | O => Some (p, bits)
  | S n => b ← getb s p; c ← bits_in_byte b; count_bytes n s (p + 1) (u64 (bits + c))
  end.

(** Rounds of [while((unsigned long)p & 3 && count)]. *)
Definition unaligned (addr count w : Z) : Z := Z.min ((- addr) mod w) count.

(** The two reductions of one word. *)
Definition swar (aux : Z) : Z :=
  let aux := u32 (aux - Z.land (Z.shiftr aux 1) 0x55555555) in
  u32 (Z.land aux 0x33333333 + Z.land (Z.shiftr aux 2) 0x33333333).

Definition swar_add (aux : Z) : Z := Z.land (u32 (aux + Z.shiftr aux 4)) 0x0F0F0F0F.

(** Seven words at [p]. *)
Fixpoint load_words `{Host} (n : nat) (s : list byte) (p : Z) : option (list Z) :=
  match n with
  | O => Some []
  | S n => bs ← load s p 4; aux ← load_words n s (p + 4); Some (host_val bs :: aux)
  end.

(** [while(count>=28)]: the offset, the bytes left and the count. *)
Fixpoint count_words `{Host} (fuel : nat) (s : list byte) (p count bits : Z) : option (Z * Z * Z) :=
  if count >=? 28 then
    match fuel with
    | O => None
    | S fuel =>
        aux ← load_words 7 s p;
        let sum := foldl (fun a x => u32 (a + swar_add (swar x))) 0 aux in
        count_words fuel s (p + 28) (count - 28) (u64 (bits + Z.shiftr (u32 (sum * 0x01010101)) 24))
    end
  else Some (p, count, bits).

Definition redisPopcount `{Host} (addr : Z) (s : list byte) (count : Z) : option Z :=
  let n := unaligned addr count 4 in
  r ← count_bytes (Z.to_nat n) s 0 0;
  let '(p, bits) := r in
  r ← count_words (Z.to_nat count) s p (count - n) bits;
  let '(p, count, bits) := r in
  r ← count_bytes (Z.to_nat count) s p bits;
  Some r.2.

(** ** Searching *)

(** The unaligned bytes: [found], the offset, the bytes left and the position. *)
Fixpoint skip_bytes (n : nat) (s : list byte) (skipval c count pos : Z) : option (bool * Z * Z * Z) :=
  match n with
  | O => Some (false, c, count, pos)
  | S n =>
      b ← getb s c;
      if negb (b =? skipval) then Some (true, c, count, pos)
      else skip_bytes n s skipval (c + 1) (count - 1) (pos + 8)
  end.

(** Full words; [sizeof(unsigned long)] is 8. *)
Fixpoint skip_words `{Host} (fuel : nat) (s : list byte) (skipval l count pos : Z) : option (Z * Z * Z) :=
  if count >=? 8 then
    match fuel with
    | O => None
    | S fuel =>
        bs ← load s l 8;
        if negb (host_val bs =? skipval) then Some (l, count, pos)
        else skip_words fuel s skipval (l + 8) (count - 8) (pos + 64)
    end
  else Some (l, count, pos).

(** The last word, its first byte the most significant, padded with zeros. *)
Fixpoint load_last (n : nat) (s : list byte) (c count word : Z) : option Z :=
  match n with
  | O => Some word
  | S n =>
      let word := u64 (Z.shiftl word 8) in
      if negb (count =? 0) then
        b ← getb s c; load_last n s (c + 1) (count - 1) (Z.lor word b)
      else load_last n s c count word
  end.

(** [while(one)]; after the loop the code panics. *)
Fixpoint scan_word (fuel : nat) (one word pos bit : Z) : option Z :=
  if one =? 0 then None
  else
    match fuel with
    | O => None
    | S fuel =>
        if Z.b2z (negb (Z.land one word =? 0)) =? bit then Some pos
        else scan_word fuel (Z.shiftr one 1) word (pos + 1) bit
    end.

Definition redisBitpos `{Host} (addr : Z) (s : list byte) (count bit : Z) : option Z :=
  let skipval := if negb (bit =? 0) then 0 else 255 in
  r ← skip_bytes (Z.to_nat (unaligned addr count 8)) s skipval 0 count 0;
  let '(found, c, count, pos) := r in
  r ← (if (found : bool) then Some (c, count, pos)
       else skip_words (Z.to_nat count) s (if negb (bit =? 0) then 0 else ULLONG_MAX) c count pos);
  let '(c, count, pos) := r in
  word ← load_last 8 s c count 0;
  if (bit =? 1) && (word =? 0) then Some (-1)
  else scan_word 64 (ULLONG_MAX - Z.shiftr ULLONG_MAX 1) word pos bit.

(** ** Bit fields *)

(** [v << n] on uint64_t. *)
Definition shl64 (v n : Z) : option Z := if n <? 64 then Some (u64 (Z.shiftl v n)) else None.

(** The loop of [setUnsignedBitfield] with [n] rounds left, [n = bits - j]. *)
Fixpoint set_bits (n : nat) (p : list byte) (offset value : Z) : option (list byte) :=
  match n with
  | O => Some p
  | S n =>
      m ← shl64 1 (Z.of_nat n);
      let bitval := Z.b2z (negb (Z.land value m =? 0)) in
      let byte := Z.shiftr offset 3 in
      let bit := 7 - Z.land offset 7 in
      byteval ← getb p byte;
      let byteval := Z.land byteval (Z.lnot (Z.shiftl 1 bit)) in
      let byteval := Z.lor byteval (Z.shiftl bitval bit) in
      p ← put p byte (Z.land byteval 255);
      set_bits n p (offset + 1) value
  end.

Definition setUnsignedBitfield (p : list byte) (offset bits value : Z) : option (list byte) :=
  set_bits (Z.to_nat bits) p offset value.

Definition setSignedBitfield (p : list byte) (offset bits value : Z) : option (list byte) :=
  setUnsignedBitfield p offset bits (u64 value).

Fixpoint get_bits (n : nat) (p : list byte) (offset value : Z) : option Z :=
  match n with
  | O => Some value
  | S n =>
      let byte := Z.shiftr offset 3 in
      let bit := 7 - Z.land offset 7 in
      byteval ← getb p byte;
      let bitval := Z.land (Z.shiftr byteval bit) 1 in
      get_bits n p (offset + 1) (Z.lor (u64 (Z.shiftl value 1)) bitval)
  end.

Definition getUnsignedBitfield (p : list byte) (offset bits : Z) : option Z :=
  get_bits (Z.to_nat bits) p offset 0.

Definition getSignedBitfield (p : list byte) (offset bits : Z) : option Z :=
  u ← getUnsignedBitfield p offset bits;
  m ← shl64 1 (bits - 1);
  if negb (Z.land u m =? 0) then mask ← shl64 ULLONG_MAX bits; Some (s64 (Z.lor u mask))
  else Some (s64 u).

(** ** Overflow checks of BITFIELD *)

Definition BFOVERFLOW_WRAP : Z := 0.
Definition BFOVERFLOW_SAT : Z := 1.
Definition BFOVERFLOW_FAIL : Z := 2.

(** The return value, and [*limit] when it is set. *)
Definition checkUnsignedBitfieldOverflow (value incr bits owtype : Z) : option (Z * option Z) :=
  max ← (if bits =? 64 then Some ULLONG_MAX else m ← shl64 1 bits; Some (u64 (m - 1)));
  let maxincr := s64 (u64 (max - value)) in
  let minincr := s64 (u64 (- value)) in
  let handle_wrap :=
    mask ← shl64 ULLONG_MAX bits;
    let res := u64 (value + incr) in
    Some (1, Some (Z.land res (ULLONG_MAX - mask))) in
  if (value >? max) || ((incr >? 0) && (incr >? maxincr)) then
    if owtype =? BFOVERFLOW_WRAP then handle_wrap
    else if owtype =? BFOVERFLOW_SAT then Some (1, Some max) else Some (1, None)
  else if (incr <? 0) && (incr <? minincr) then
    if owtype =? BFOVERFLOW_WRAP then handle_wrap
    else if owtype =? BFOVERFLOW_SAT then Some (-1, Some 0) else Some (-1, None)
  else Some (0, None).

(** [maxincr] and [minincr] may overflow; the subtraction wraps around, as
    compiled code does. *)
Definition checkSignedBitfieldOverflow (value incr bits owtype : Z) : option (Z * option Z) :=
  max ← (if bits =? 64 then Some LLONG_MAX else m ← shl64 1 (bits - 1); Some (s64 (m - 1)));
  let min := s64 (- max - 1) in
  let maxincr := s64 (max - value) in
  let minincr := s64 (min - value) in
  let handle_wrap :=
    mask ← shl64 ULLONG_MAX bits;
    msb ← shl64 1 (bits - 1);
    let c := u64 (u64 value + u64 incr) in
    let c := if negb (Z.land c msb =? 0) then Z.lor c mask else Z.land c (ULLONG_MAX - mask) in
    Some (1, Some (s64 c)) in
  if (value >? max) || (negb (bits =? 64) && (incr >? maxincr)) ||
     ((value >=? 0) && (incr >? 0) && (incr >? maxincr)) then
    if owtype =? BFOVERFLOW_WRAP then handle_wrap
    else if owtype =? BFOVERFLOW_SAT then Some (1, Some max) else Some (1, None)
  else if (value <? min) || (negb (bits =? 64) && (incr <? minincr)) ||
          ((value <? 0) && (incr <? 0) && (incr <? minincr)) then
    if owtype =? BFOVERFLOW_WRAP then handle_wrap
    else if owtype =? BFOVERFLOW_SAT then Some (-1, Some min) else Some (-1, None)
  else Some (0, None).

(** ** Words as lists of bytes *)

Lemma testbit_high x k i : 0 <= x < 2 ^ k -> 0 <= k <= i -> Z.testbit x i = false.
Proof. intros Hx Hi. by apply (Z.bounded_iff_bits_nonneg k x); lia. Qed.

Lemma land_small x m k : 0 <= k -> 0 <= m < 2 ^ k -> 0 <= Z.land x m < 2 ^ k.
Proof.
  intros Hk Hm. assert (0 <= Z.land x m) by (apply Z.land_nonneg; lia). split; [done|].
  apply Z.bounded_iff_bits_nonneg; [done..|]. intros i Hi. rewrite Z.land_spec, (testbit_high m k i) by lia.
  apply andb_false_r.
Qed.

Lemma le_val_cons b bs : le_val (b :: bs) = b + 256 * le_val bs.
Proof. done. Qed.

(** A shift and a mask act on each byte when the mask hides the bits shifted in. *)
Lemma land_shiftr_cons j a b m0 m : 0 <= j <= 8 -> is_byte a -> 0 <= m0 < 2 ^ (8 - j) ->
  Z.land (Z.shiftr (a + 256 * b) j) (m0 + 256 * m) = Z.land (Z.shiftr a j) m0 + 256 * Z.land (Z.shiftr b j) m.
Proof.
  intros Hj Ha Hm. unfold is_byte in Ha.
  assert (2 ^ (8 - j) <= 2 ^ 8) as Hp by (apply Z.pow_le_mono_r; lia).
  rewrite !(Z.mul_comm 256). change 256 with (2 ^ 8).
  rewrite <- !lor_shiftl by (try apply land_small; lia).
  apply Z.bits_inj'. intros i Hi.
  rewrite !Z.land_spec, Z.shiftr_spec, !Z.lor_spec, Z.land_spec, !Z.shiftl_spec, Z.land_spec, Z.shiftr_spec by lia.
  destruct (decide (i < 8 - j)); [|rewrite (testbit_high m0 (8 - j) i) by lia; destruct (decide (i < 8))].
  - rewrite !(Z.testbit_neg_r _ (i - 8)), (Z.testbit_neg_r _ (i + j - 8)) by lia. by rewrite !orb_false_r.
  - rewrite !(Z.testbit_neg_r _ (i - 8)) by lia. simpl. by rewrite !andb_false_r.
  - rewrite (testbit_high a 8 (i + j)), (Z.shiftr_spec b) by lia. rewrite andb_false_r, !orb_false_l. do 2 f_equal. lia.
Qed.

(** ** Population count *)

Definition byte_ones (b : byte) : Z := foldr (fun i n => Z.b2z (Z.testbit b i) + n) 0 (seqZ 0 8).
Definition ones (bs : list byte) : Z := foldr (fun b n => byte_ones b + n) 0 bs.

Lemma ones_cons b bs : ones (b :: bs) = byte_ones b + ones bs.
Proof. done. Qed.

Lemma ones_app a b : ones (a ++ b) = ones a + ones b.
Proof. induction a as [|x a IH]; [done|]. cbn [app]. rewrite !ones_cons, IH. lia. Qed.

Lemma byte_ones_range b : is_byte b -> 0 <= byte_ones b <= 8.
Proof. revert b. refine (decide_below 256 (fun b => 0 <= byte_ones b <= 8) _). vm_compute. reflexivity. Qed.

Lemma ones_range bs : bytes_ok bs -> 0 <= ones bs <= 8 * Z.of_nat (length bs).
Proof.
  induction 1 as [|b bs Hb _ IH]; [done|]. rewrite ones_cons. pose proof (byte_ones_range b Hb). simpl length. lia.
Qed.

Lemma bits_in_byte_spec b : is_byte b -> bits_in_byte b = Some (byte_ones b).
Proof. revert b. refine (decide_below 256 (fun b => bits_in_byte b = Some (byte_ones b)) _). vm_compute. reflexivity. Qed.

(** One byte of the two reductions: two counts of four bits. *)
Definition swar_byte (b : byte) : Z :=
  let b := b - Z.land (Z.shiftr b 1) 0x55 in Z.land b 0x33 + Z.land (Z.shiftr b 2) 0x33.

Lemma swar_byte_spec b : is_byte b ->
  is_byte (b - Z.land (Z.shiftr b 1) 0x55) /\ 0 <= swar_byte b mod 16 <= 4 /\ 0 <= swar_byte b / 16 <= 4 /\
  swar_byte b mod 16 + swar_byte b / 16 = byte_ones b.
Proof.
  revert b. refine (decide_below 256 (fun b => 0 <= b - Z.land (Z.shiftr b 1) 0x55 < 256 /\ 0 <= swar_byte b mod 16 <= 4 /\
    0 <= swar_byte b / 16 <= 4 /\ swar_byte b mod 16 + swar_byte b / 16 = byte_ones b) _). vm_compute. reflexivity.
Qed.

Lemma land_shiftr_4 j a b c d m : 0 <= j <= 8 -> is_byte a -> is_byte b -> is_byte c -> is_byte d -> 0 <= m < 2 ^ (8 - j) ->
  Z.land (Z.shiftr (le_val [a; b; c; d]) j) (le_val [m; m; m; m]) =
  le_val [Z.land (Z.shiftr a j) m; Z.land (Z.shiftr b j) m; Z.land (Z.shiftr c j) m; Z.land (Z.shiftr d j) m].
Proof. intros. rewrite !le_val_cons, !land_shiftr_cons by done. change (le_val []) with 0. by rewrite Z.land_0_r. Qed.

Lemma land_4 a b c d m : is_byte a -> is_byte b -> is_byte c -> is_byte d -> is_byte m ->
  Z.land (le_val [a; b; c; d]) (le_val [m; m; m; m]) = le_val [Z.land a m; Z.land b m; Z.land c m; Z.land d m].
Proof. intros. pose proof (land_shiftr_4 0 a b c d m) as Hx. rewrite !Z.shiftr_0_r in Hx. by apply Hx. Qed.

Lemma le_val_4 a b c d : le_val [a; b; c; d] = a + 256 * b + 65536 * c + 16777216 * d.
Proof. unfold le_val. lia. Qed.

Lemma swar_4 a b c d : is_byte a -> is_byte b -> is_byte c -> is_byte d ->
  swar (le_val [a; b; c; d]) = le_val [swar_byte a; swar_byte b; swar_byte c; swar_byte d].
Proof.
  intros Ha Hb Hc Hd. unfold swar. change 0x55555555 with (le_val [0x55; 0x55; 0x55; 0x55]).
  change 0x33333333 with (le_val [0x33; 0x33; 0x33; 0x33]).
  destruct (swar_byte_spec a Ha) as (Ha1 & Ha2 & Ha3 & _). destruct (swar_byte_spec b Hb) as (Hb1 & Hb2 & Hb3 & _).
  destruct (swar_byte_spec c Hc) as (Hc1 & Hc2 & Hc3 & _). destruct (swar_byte_spec d Hd) as (Hd1 & Hd2 & Hd3 & _).
  rewrite land_shiftr_4 by (done || lia).
  assert (forall x y z w x' y' z' w', le_val [x; y; z; w] - le_val [x'; y'; z'; w'] =
    le_val [x - x'; y - y'; z - z'; w - w']) as -> by (intros; rewrite !le_val_4; lia).
  rewrite (uwrap_small 32 (le_val [a - _; b - _; c - _; d - _])) by (rewrite le_val_4; unfold is_byte in *; lia). cbv zeta.
  rewrite land_4, land_shiftr_4 by (done || lia).
  assert (forall x y z w x' y' z' w', le_val [x; y; z; w] + le_val [x'; y'; z'; w'] =
    le_val [x + x'; y + y'; z + z'; w + w']) as -> by (intros; rewrite !le_val_4; lia).
  apply uwrap_small. fold (swar_byte a) (swar_byte b) (swar_byte c) (swar_byte d).
  rewrite le_val_4. Z.to_euclidean_division_equations; lia.
Qed.

Lemma swar_add_nibbles l0 h0 l1 h1 l2 h2 l3 h3 :
  0 <= l0 <= 4 -> 0 <= h0 <= 4 -> 0 <= l1 <= 4 -> 0 <= h1 <= 4 -> 0 <= l2 <= 4 -> 0 <= h2 <= 4 -> 0 <= l3 <= 4 -> 0 <= h3 <= 4 ->
  swar_add (le_val [16 * h0 + l0; 16 * h1 + l1; 16 * h2 + l2; 16 * h3 + l3]) = le_val [l0 + h0; l1 + h1; l2 + h2; l3 + h3].
Proof.
  intros. unfold swar_add. rewrite Z.shiftr_div_pow2 by lia. change (2 ^ 4) with 16.
  assert (le_val [16 * h0 + l0; 16 * h1 + l1; 16 * h2 + l2; 16 * h3 + l3] / 16 =
    le_val [h0 + 16 * l1; h1 + 16 * l2; h2 + 16 * l3; h3]) as ->.
  { symmetry. apply (Z.div_unique_pos _ 16 _ l0); rewrite ?le_val_4; lia. }
  assert (le_val [16 * h0 + l0; 16 * h1 + l1; 16 * h2 + l2; 16 * h3 + l3] +
      le_val [h0 + 16 * l1; h1 + 16 * l2; h2 + 16 * l3; h3] =
    le_val [l0 + h0 + 16 * (h0 + l1); l1 + h1 + 16 * (h1 + l2); l2 + h2 + 16 * (h2 + l3); l3 + h3 + 16 * h3]) as ->
    by (rewrite !le_val_4; lia).
  rewrite uwrap_small by (rewrite le_val_4; lia). change 0x0F0F0F0F with (le_val [15; 15; 15; 15]).
  rewrite land_4 by (unfold is_byte; lia). change 15 with (Z.ones 4). rewrite !Z.land_ones by lia.
  change (2 ^ 4) with 16. repeat f_equal; rewrite Z.mul_comm, Z_mod_plus_full; apply Z.mod_small; lia.
Qed.

Lemma swar_add_4 a b c d : is_byte a -> is_byte b -> is_byte c -> is_byte d ->
  swar_add (swar (le_val [a; b; c; d])) = le_val [byte_ones a; byte_ones b; byte_ones c; byte_ones d].
Proof.
  intros Ha Hb Hc Hd. rewrite swar_4 by done.
  destruct (swar_byte_spec a Ha) as (_ & Ha2 & Ha3 & <-). destruct (swar_byte_spec b Hb) as (_ & Hb2 & Hb3 & <-).
  destruct (swar_byte_spec c Hc) as (_ & Hc2 & Hc3 & <-). destruct (swar_byte_spec d Hd) as (_ & Hd2 & Hd3 & <-).
  rewrite <- swar_add_nibbles by done. f_equal. rewrite <- !Z.div_mod by lia. done.
Qed.

(** The multiplication adds the four bytes. *)
Lemma mul_sum a b c d : 0 <= a -> 0 <= b -> 0 <= c -> 0 <= d -> a + b + c + d < 256 ->
  Z.shiftr (u32 (le_val [a; b; c; d] * 0x01010101)) 24 = a + b + c + d.
Proof.
  intros. rewrite Z.shiftr_div_pow2, le_val_4 by lia. unfold uwrap. symmetry.
  apply (Z.div_unique_pos _ (2 ^ 24) _ (a + 256 * (a + b) + 65536 * (a + b + c))); [lia|].
  symmetry. apply (Z.mod_unique_pos _ (2 ^ 32) (b + c + d + 256 * (c + d) + 65536 * d)); lia.
Qed.

Section popcount.
Context `{Host}.

(** A word of four bytes, whatever the byte order. *)
Lemma swar_block bs : bytes_ok bs -> length bs = 4%nat -> exists a b c d,
  swar_add (swar (host_val bs)) = le_val [a; b; c; d] /\ a + b + c + d = ones bs /\
  0 <= a <= 8 /\ 0 <= b <= 8 /\ 0 <= c <= 8 /\ 0 <= d <= 8.
Proof.
  intros Hok Hl. destruct bs as [|a [|b [|c [|d [|]]]]]; try done. decompose_Forall.
  unfold host_val. destruct big_endian.
  - change (reverse [a; b; c; d]) with [d; c; b; a]. rewrite swar_add_4 by done.
    eexists _, _, _, _. split; [done|].
    split_and!; try (apply byte_ones_range; done). lia.
  - rewrite swar_add_4 by done. eexists _, _, _, _. split; [done|].
    split_and!; try (apply byte_ones_range; done). lia.
Qed.

Lemma load_words_spec n : forall p q r k a b c d, length q = (4 * n)%nat -> bytes_ok q ->
  k + Z.of_nat n <= 31 -> 0 <= a <= 8 * k -> 0 <= b <= 8 * k -> 0 <= c <= 8 * k -> 0 <= d <= 8 * k ->
  exists aux a' b' c' d', load_words n (p ++ q ++ r) (Z.of_nat (length p)) = Some aux /\
    foldl (fun a x => u32 (a + swar_add (swar x))) (le_val [a; b; c; d]) aux = le_val [a'; b'; c'; d'] /\
    a' + b' + c' + d' = a + b + c + d + ones q /\ 0 <= a' /\ 0 <= b' /\ 0 <= c' /\ 0 <= d'.
Proof.
  induction n as [|n IH]; intros p q r k a b c d Hq Hok Hk Ha Hb Hc Hd.
  { destruct q; [|done]. eexists [], a, b, c, d. split_and!; try done; unfold ones; cbn; lia. }
  assert (exists q1 q2, q = q1 ++ q2 /\ length q1 = 4%nat /\ length q2 = (4 * n)%nat) as (q1 & q2 & -> & H1 & H2).
  { exists (take 4 q), (drop 4 q). rewrite take_drop, length_take, length_drop. split_and!; [done|lia..]. }
  apply Forall_app in Hok as [Hok1 Hok2].
  destruct (swar_block q1 Hok1 H1) as (a1 & b1 & c1 & d1 & Hsw & Hsum & ? & ? & ? & ?).
  destruct (IH (p ++ q1) q2 r (k + 1) (a + a1) (b + b1) (c + c1) (d + d1)) as (aux & a' & b' & c' & d' & Hl & Hf & Hs & ?);
    [done|done|lia..|].
  exists (host_val q1 :: aux), a', b', c', d'. cbn [load_words foldl]. rewrite <- app_assoc, load_app by (done || lia).
  cbn [mbind option_bind]. rewrite <- app_assoc, length_app, H1 in Hl.
  replace (Z.of_nat (length p) + 4) with (Z.of_nat (length p + 4)) by lia. rewrite Hl. split_and!; try tauto.
  - rewrite Hsw, <- Hf. f_equal. rewrite uwrap_small; rewrite !le_val_4; lia.
  - rewrite ones_app. lia.
Qed.

Lemma count_bytes_spec q : forall p r bits, bytes_ok q -> 0 <= bits -> bits + 8 * Z.of_nat (length q) < 2 ^ 64 ->
  count_bytes (length q) (p ++ q ++ r) (Z.of_nat (length p)) bits =
    Some (Z.of_nat (length (p ++ q)), bits + ones q).
Proof.
  induction q as [|b q IH]; intros p r bits Hok Hb Hlt.
  { cbn. rewrite app_nil_r. do 2 f_equal. lia. }
  apply Forall_cons in Hok as [Hbok Hok]. pose proof (byte_ones_range b Hbok). cbn [length] in *.
  cbn [count_bytes app]. rewrite getb_app by done. cbn [mbind option_bind].
  rewrite bits_in_byte_spec by done. cbn [mbind option_bind].
  rewrite uwrap_small by lia. specialize (IH (p ++ [b]) r (bits + byte_ones b) Hok ltac:(lia) ltac:(lia)).
  rewrite <- !app_assoc, (length_app p [b]) in IH. cbn [app length] in IH.
  replace (Z.of_nat (length p) + 1) with (Z.of_nat (length p + 1)) by lia. rewrite IH, ones_cons. do 2 f_equal. lia.
Qed.

Lemma count_words_spec fuel : forall p q r bits, bytes_ok q -> (length q <= fuel)%nat -> 0 <= bits ->
  bits + 8 * Z.of_nat (length q) < 2 ^ 64 ->
  exists q1 q2, q = q1 ++ q2 /\
    count_words fuel (p ++ q ++ r) (Z.of_nat (length p)) (Z.of_nat (length q)) bits =
      Some (Z.of_nat (length (p ++ q1)), Z.of_nat (length q2), bits + ones q1).
Proof.
  induction fuel as [|fuel IH]; intros p q r bits Hok Hf Hb Hlt; cbn [count_words].
  { exists [], q. destruct q; [|simpl in Hf; lia]. cbn. rewrite app_nil_r. split; [done|]. do 2 f_equal. lia. }
  destruct (Z.of_nat (length q) >=? 28) eqn:E; zbool.
  2:{ exists [], q. cbn. rewrite app_nil_r. split; [done|]. do 2 f_equal. lia. }
  assert (exists q1 q2, q = q1 ++ q2 /\ length q1 = 28%nat) as (q1 & q2 & -> & H1).
  { exists (take 28 q), (drop 28 q). rewrite take_drop, length_take. split; [done|lia]. }
  apply Forall_app in Hok as [Hok1 Hok2]. rewrite length_app in *. rewrite H1 in *.
  destruct (load_words_spec 7 p q1 (q2 ++ r) 0 0 0 0 0) as (aux & a & b & c & d & Hl & Hs & Hsum & ? & ? & ? & ?);
    [done|done|lia..|]. rewrite <- app_assoc, Hl. cbn [mbind option_bind]. change (le_val [0; 0; 0; 0]) with 0 in Hs.
  rewrite Hs. pose proof (ones_range q1 Hok1) as Ho. rewrite H1 in Ho. rewrite mul_sum, uwrap_small by lia.
  destruct (IH (p ++ q1) q2 r (bits + (a + b + c + d)) Hok2 ltac:(lia) ltac:(lia) ltac:(lia)) as (q3 & q4 & -> & Hw).
  exists (q1 ++ q3), q4. split; [by rewrite app_assoc|]. rewrite <- app_assoc, length_app, H1 in Hw.
  replace (Z.of_nat (length p) + 28) with (Z.of_nat (length p + 28)) by lia.
  replace (Z.of_nat (28 + length (q3 ++ q4)) - 28) with (Z.of_nat (length (q3 ++ q4))) by lia.
  rewrite Hw. rewrite (ones_app q1). rewrite <- !app_assoc. do 2 f_equal. lia.
Qed.

Lemma popcount_spec addr s count : bytes_ok s -> 0 <= count <= Z.of_nat (length s) -> count < 2 ^ 61 ->
  redisPopcount addr s count = Some (ones (take (Z.to_nat count) s)).
Proof.
  intros Hok Hc Hlt. pose proof (Forall_take is_byte (Z.to_nat count) s Hok) as Hq.
  assert (Z.of_nat (length (take (Z.to_nat count) s)) = count) as Hl by (rewrite length_take; lia).
  rewrite <- (take_drop (Z.to_nat count) s) at 1. revert Hq Hl.
  generalize (take (Z.to_nat count) s) (drop (Z.to_nat count) s). clear Hok Hc. intros q r Hq Hl.
  unfold redisPopcount. pose proof (Z.mod_pos_bound (- addr) 4 ltac:(lia)) as Hmod.
  assert (0 <= unaligned addr count 4 <= count) as Hn by (unfold unaligned; lia).
  assert (exists q1 q2, q = q1 ++ q2 /\ Z.of_nat (length q1) = unaligned addr count 4) as (q1 & q2 & -> & H1).
  { exists (take (Z.to_nat (unaligned addr count 4)) q), (drop (Z.to_nat (unaligned addr count 4)) q).
    rewrite take_drop, length_take. split; [done|lia]. }
  rewrite <- H1, Nat2Z.id. clear Hn Hmod. rewrite length_app in Hl. apply Forall_app in Hq as [Hq1 Hq2].
  pose proof (ones_range q1 Hq1). pose proof (ones_range q2 Hq2).
  rewrite <- app_assoc. pose proof (count_bytes_spec q1 [] (q2 ++ r) 0 Hq1 ltac:(lia) ltac:(lia)) as Hhead.
  cbn [app length] in Hhead. change (Z.of_nat 0) with 0 in Hhead. rewrite Hhead. cbn [mbind option_bind].
  replace (count - Z.of_nat (length q1)) with (Z.of_nat (length q2)) by lia.
  destruct (count_words_spec (Z.to_nat count) q1 q2 r (0 + ones q1)) as (q3 & q4 & -> & ->); [done|lia..|].
  cbn [mbind option_bind]. rewrite Nat2Z.id, <- app_assoc, (app_assoc q1). apply Forall_app in Hq2 as [Hq3 Hq4].
  rewrite !ones_app in *. pose proof (ones_range q3 Hq3). rewrite length_app in Hl.
  rewrite (count_bytes_spec q4 (q1 ++ q3) r) by (done || lia). cbn. f_equal. lia.
Qed.
End popcount.

(** ** Bits of a bitmap *)

(** Bit [i], the most significant bit of a byte first. *)
Definition bit_at (p : list byte) (i : Z) : option bool :=
  b ← getb p (i / 8); Some (Z.testbit b (7 - i mod 8)).

Lemma bit_index offset : Z.shiftr offset 3 = offset / 8 /\ Z.land offset 7 = offset mod 8.
Proof. split; [by apply Z.shiftr_div_pow2|]. change 7 with (Z.ones 3). by apply Z.land_ones. Qed.

Lemma getb_length p i : 0 <= i < Z.of_nat (length p) -> exists b, getb p i = Some b.
Proof.
  intros Hi. rewrite getb_Some by lia. destruct (lookup_lt_is_Some_2 p (Z.to_nat i)) as [b Hb]; [lia|]. by exists b.
Qed.

Lemma getb_ok p i b : bytes_ok p -> getb p i = Some b -> is_byte b.
Proof.
  intros Hok Hb. unfold getb in Hb. destruct (0 <=? i); [|done]. by apply (Forall_lookup_1 _ _ _ _ Hok Hb).
Qed.

Lemma put_spec p i x : 0 <= i < Z.of_nat (length p) -> put p i x = Some (<[Z.to_nat i := x]> p).
Proof.
  intros Hi. unfold put. rewrite store_Some by (simpl; lia). rewrite insert_take_drop by lia. cbn [length].
  by rewrite Nat.add_1_r.
Qed.

(** Writing one bit of a byte. *)
Lemma set_bit_byte b k (v : bool) : is_byte b -> 0 <= k < 8 ->
  let b' := Z.land (Z.lor (Z.land b (Z.lnot (Z.shiftl 1 k))) (Z.shiftl (Z.b2z v) k)) 255 in
  is_byte b' /\ forall j, 0 <= j < 8 -> Z.testbit b' j = if decide (j = k) then v else Z.testbit b j.
Proof.
  intros Hb Hk b'. split; [unfold b', is_byte; rewrite land_255; apply Z.mod_pos_bound; lia|].
  intros j Hj. unfold b'. change 255 with (Z.ones 8).
  rewrite Z.land_spec, Z.lor_spec, Z.land_spec, Z.lnot_spec, !Z.shiftl_spec, Z.ones_spec_low, andb_true_r by lia.
  destruct (decide (j = k)) as [-> | Hne].
  - rewrite Z.sub_diag. destruct v; cbn; by rewrite ?andb_false_r, ?orb_true_r.
  - assert (Z.testbit 1 (j - k) = false /\ Z.testbit (Z.b2z v) (j - k) = false) as [-> ->].
    { destruct (decide (j < k)); [split; by apply Z.testbit_neg_r; lia|].
      split; apply (testbit_high _ 1); destruct v; cbn; lia. }
    by rewrite andb_true_r, orb_false_r.
Qed.

Lemma bit_at_insert p i x j : bytes_ok p -> 0 <= i < Z.of_nat (length p) -> 0 <= j ->
  bit_at (<[Z.to_nat i := x]> p) j = if decide (j / 8 = i) then Some (Z.testbit x (7 - j mod 8)) else bit_at p j.
Proof.
  intros Hok Hi Hj. unfold bit_at. assert (0 <= j / 8) by (apply Z.div_pos; lia). rewrite !getb_Some by done.
  destruct (decide (j / 8 = i)) as [-> | Hne].
  - by rewrite list_lookup_insert_eq by lia.
  - by rewrite list_lookup_insert_ne by lia.
Qed.

(** One round of [setUnsignedBitfield]. *)
Lemma set_one_bit p offset (v : bool) : bytes_ok p -> 0 <= offset < 8 * Z.of_nat (length p) ->
  exists b p', getb p (Z.shiftr offset 3) = Some b /\
    put p (Z.shiftr offset 3) (Z.land (Z.lor (Z.land b (Z.lnot (Z.shiftl 1 (7 - Z.land offset 7))))
      (Z.shiftl (Z.b2z v) (7 - Z.land offset 7))) 255) = Some p' /\
    bytes_ok p' /\ length p' = length p /\
    forall i, 0 <= i -> bit_at p' i = if decide (i = offset) then Some v else bit_at p i.
Proof.
  intros Hok Ho. destruct (bit_index offset) as [-> ->].
  pose proof (Z.div_mod offset 8 ltac:(lia)) as Hd. pose proof (Z.mod_pos_bound offset 8 ltac:(lia)) as Hm.
  assert (0 <= offset / 8 < Z.of_nat (length p)) as Hi by lia.
  destruct (getb_length p (offset / 8) Hi) as [b Hb]. pose proof (getb_ok _ _ _ Hok Hb) as Hbok.
  destruct (set_bit_byte b (7 - offset mod 8) v Hbok ltac:(lia)) as [Hb' Hbits]. cbv zeta in Hb', Hbits.
  exists b. eexists. rewrite put_spec by done. split_and!; [done|done| | |].
  - apply Forall_insert; [done|done].
  - by rewrite length_insert.
  - intros i Hi0. rewrite bit_at_insert by done. pose proof (Z.div_mod i 8 ltac:(lia)) as Hdi.
    pose proof (Z.mod_pos_bound i 8 ltac:(lia)). destruct (decide (i / 8 = offset / 8)) as [E|Hne].
    + rewrite Hbits by lia. destruct (decide (i = offset)) as [-> |]; [by rewrite decide_True|].
      rewrite decide_False by lia. unfold bit_at. by rewrite E, Hb.
    + rewrite decide_False by congruence. done.
Qed.

Lemma land_pow2_testbit v n : 0 <= n -> negb (Z.land v (2 ^ n) =? 0) = Z.testbit v n.
Proof.
  intros Hn. destruct (Z.testbit v n) eqn:E; destruct (Z.land v (2 ^ n) =? 0) eqn:E2; zbool; try done.
  - apply (f_equal (fun x => Z.testbit x n)) in E2.
    rewrite Z.land_spec, Z.pow2_bits_true, E, Z.bits_0 in E2 by lia. done.
  - exfalso. apply E2. apply Z.bits_inj'. intros i Hi. rewrite Z.land_spec, Z.bits_0.
    destruct (decide (i = n)) as [-> |]; [by rewrite E|]. by rewrite Z.pow2_bits_false, andb_false_r by lia.
Qed.

Lemma shl64_pow n : 0 <= n < 64 -> shl64 1 n = Some (2 ^ n).
Proof.
  intros Hn. unfold shl64. rewrite (proj2 (Z.ltb_lt n 64)) by lia. rewrite Z.shiftl_1_l, uwrap_small; [done|].
  pose proof (Z.pow_lt_mono_r 2 n 64). lia.
Qed.

Lemma set_bits_spec n : forall p offset value, (n <= 64)%nat -> bytes_ok p -> 0 <= offset ->
  offset + Z.of_nat n <= 8 * Z.of_nat (length p) ->
  exists p', set_bits n p offset value = Some p' /\ bytes_ok p' /\ length p' = length p /\
    forall i, 0 <= i -> bit_at p' i = if decide (offset <= i < offset + Z.of_nat n)
      then Some (Z.testbit value (Z.of_nat n - 1 - (i - offset))) else bit_at p i.
Proof.
  induction n as [|n IH]; intros p offset value Hn Hok Ho Hle.
  { exists p. split_and!; [done..|]. intros i Hi. by rewrite decide_False by lia. }
  cbn [set_bits]. rewrite shl64_pow by lia. cbn [mbind option_bind]. rewrite land_pow2_testbit by lia.
  destruct (set_one_bit p offset (Z.testbit value (Z.of_nat n)) Hok ltac:(lia)) as (b & p1 & -> & Hput & Hok1 & Hl1 & H1).
  cbn [mbind option_bind]. rewrite Hput. cbn [mbind option_bind].
  destruct (IH p1 (offset + 1) value) as (p' & -> & Hok' & Hl' & H'); [lia|done|lia|rewrite Hl1; lia|].
  exists p'. split_and!; [done|done|congruence|]. intros i Hi. rewrite H' by done.
  destruct (decide (offset + 1 <= i < offset + 1 + Z.of_nat n)).
  - rewrite decide_True by lia. do 2 f_equal. lia.
  - rewrite H1 by done. destruct (decide (i = offset)) as [-> |].
    + rewrite decide_True by lia. do 2 f_equal. lia.
    + rewrite decide_False by lia. done.
Qed.

Lemma get_bits_spec n : forall p offset value w, 0 <= offset -> 0 <= value ->
  (value + 1) * 2 ^ Z.of_nat n <= 2 ^ 64 ->
  (forall j, 0 <= j < Z.of_nat n -> bit_at p (offset + j) = Some (Z.testbit w (Z.of_nat n - 1 - j))) ->
  get_bits n p offset value = Some (value * 2 ^ Z.of_nat n + w mod 2 ^ Z.of_nat n).
Proof.
  induction n as [|n IH]; intros p offset value w Ho Hv Hle Hbits.
  { cbn. rewrite Z.mod_1_r. f_equal. lia. }
  cbn [get_bits]. destruct (bit_index offset) as [-> ->].
  pose proof (Hbits 0 ltac:(lia)) as H0. rewrite Z.add_0_r in H0. unfold bit_at in H0.
  destruct (getb p (offset / 8)) as [b|]; [|done]. cbn [mbind option_bind] in *. injection H0 as H0.
  pose proof (Z.pow_succ_r 2 (Z.of_nat n) ltac:(lia)) as Hp. rewrite <- Nat2Z.inj_succ in Hp.
  pose proof (Z.pow_pos_nonneg 2 (Z.of_nat n) ltac:(lia) ltac:(lia)) as Hpos.
  rewrite (uwrap_small 64) by (rewrite Z.shiftl_mul_pow2 by lia; nia).
  assert (Z.land (Z.shiftr b (7 - offset mod 8)) 1 = Z.b2z (Z.testbit w (Z.of_nat n))) as ->.
  { change 1 with (Z.ones 1) at 1. rewrite Z.land_ones by lia. change (2 ^ 1) with 2.
    rewrite <- Z.bit0_mod, Z.shiftr_spec, Z.add_0_l by lia. rewrite H0. do 2 f_equal. lia. }
  assert (0 <= Z.b2z (Z.testbit w (Z.of_nat n)) <= 1) as Hbv by (destruct (Z.testbit w (Z.of_nat n)); simpl; lia).
  rewrite Z.lor_comm, lor_shiftl by (change (2 ^ 1) with 2; lia). change (2 ^ 1) with 2.
  rewrite (IH p (offset + 1) _ w); [|lia|lia|nia|].
  - f_equal. rewrite Hp, (Z.mul_comm 2 (2 ^ Z.of_nat n)). rewrite Z.rem_mul_r by lia.
    rewrite <- Z.shiftr_div_pow2, <- Z.bit0_mod, Z.shiftr_spec, Z.add_0_l by lia. nia.
  - intros j Hj. rewrite <- Z.add_assoc. rewrite Hbits by lia. do 2 f_equal. lia.
Qed.

(** A bit field written with [setUnsignedBitfield] is read back modulo its width,
    no other bit of the bitmap changes and no byte outside it is touched. *)
Theorem bitfield_roundtrip p offset bits value : bytes_ok p -> 0 <= offset -> 0 <= bits <= 64 ->
  offset + bits <= 8 * Z.of_nat (length p) ->
  exists p', setUnsignedBitfield p offset bits value = Some p' /\ length p' = length p /\ bytes_ok p' /\
    getUnsignedBitfield p' offset bits = Some (uwrap bits value) /\
    forall i, 0 <= i -> i < offset \/ offset + bits <= i -> bit_at p' i = bit_at p i.
Proof.
  intros Hok Ho Hb Hle. unfold setUnsignedBitfield, getUnsignedBitfield.
  destruct (set_bits_spec (Z.to_nat bits) p offset value) as (p' & Hset & Hok' & Hl & Hbits); [lia|done|done|lia|].
  rewrite Z2Nat.id in Hbits by lia. exists p'. split_and!; [done|done|done| |].
  - rewrite (get_bits_spec _ p' offset 0 value); [|done|done| |].
    + by rewrite Z2Nat.id, Z.mul_0_l by lia.
    + rewrite Z2Nat.id, Z.mul_1_l by lia. apply Z.pow_le_mono_r; lia.
    + rewrite Z2Nat.id by lia. intros j Hj. rewrite Hbits, decide_True by lia. do 2 f_equal. lia.
  - intros i Hi Hout. by rewrite Hbits, decide_False by lia.
Qed.

Lemma bitfield_roundtrip_witness : exists p', setUnsignedBitfield [0; 0] 7 5 23 = Some p' /\ length p' = 2%nat /\
  bytes_ok p' /\ getUnsignedBitfield p' 7 5 = Some 23 /\ forall i, 0 <= i -> i < 7 \/ 12 <= i -> bit_at p' i = bit_at [0; 0] i.
Proof. apply (bitfield_roundtrip [0; 0] 7 5 23); [repeat constructor; done|lia..|simpl; lia]. Defined.

(** Sign extension. *)
Lemma sign_extend u bits : 0 < bits < 64 -> 0 <= u < 2 ^ bits -> Z.testbit u (bits - 1) = true ->
  s64 (Z.lor u (u64 (Z.shiftl ULLONG_MAX bits))) = u - 2 ^ bits.
Proof.
  intros Hb Hu Hbit. assert (u64 (Z.shiftl ULLONG_MAX bits) = Z.shiftl (2 ^ (64 - bits) - 1) bits) as ->.
  { rewrite !Z.shiftl_mul_pow2 by lia. unfold uwrap, ULLONG_MAX.
    assert (2 ^ 64 = 2 ^ (64 - bits) * 2 ^ bits) as E by (rewrite <- Z.pow_add_r by lia; f_equal; lia).
    symmetry. apply (Z.mod_unique_pos _ _ (2 ^ bits - 1)); pose proof (Z.pow_pos_nonneg 2 bits); nia. }
  rewrite lor_shiftl by lia. rewrite Z.mul_sub_distr_r, Z.mul_1_l, <- Z.pow_add_r by lia.
  replace (64 - bits + bits) with 64 by lia.
  replace (u + (2 ^ 64 - 2 ^ bits)) with (u - 2 ^ bits + 1 * 2 ^ 64) by lia.
  pose proof (Z.pow_lt_mono_r 2 bits 64 ltac:(lia) ltac:(lia) ltac:(lia)).
  assert (swrap 64 (u - 2 ^ bits + 1 * 2 ^ 64) = swrap 64 (u - 2 ^ bits)) as ->
    by (unfold swrap; by rewrite Z_mod_plus_full).
  apply swrap_small; [lia|]. pose proof (Z.pow_le_mono_r 2 bits 63 ltac:(lia) ltac:(lia)). unfold in_s. limits. lia.
Qed.

Lemma uwrap_testbit bits value : 0 < bits -> in_s bits value -> Z.testbit (uwrap bits value) (bits - 1) = (value <? 0).
Proof.
  intros Hb Hv. unfold in_s in Hv. pose proof (pow2_half bits Hb) as Hh. unfold uwrap.
  rewrite Z.mod_pow2_bits_low by lia. destruct (value <? 0) eqn:E; zbool.
  - replace value with (- (2 ^ bits - (2 ^ bits + value))) by lia.
    rewrite <- (Z.mod_pow2_bits_low _ bits) by lia.
    replace ((- (2 ^ bits - (2 ^ bits + value))) mod 2 ^ bits) with (2 ^ bits + value)
      by (apply (Z.mod_unique_pos _ _ (-1)); lia).
    replace (2 ^ bits + value) with (2 ^ bits + value - 2 ^ (bits - 1) + 1 * 2 ^ (bits - 1)) by lia.
    rewrite <- lor_shiftl, Z.lor_spec, Z.shiftl_spec by lia. rewrite Z.sub_diag. apply orb_true_r.
  - apply (testbit_high _ (bits - 1)); lia.
Qed.

(** A signed bit field of up to 63 bits written with [setSignedBitfield] is read
    back by [getSignedBitfield], sign included. *)
Theorem signed_bitfield_roundtrip p offset bits value : bytes_ok p -> 0 <= offset -> 0 < bits < 64 ->
  offset + bits <= 8 * Z.of_nat (length p) -> in_s bits value ->
  exists p', setSignedBitfield p offset bits value = Some p' /\ getSignedBitfield p' offset bits = Some value.
Proof.
  intros Hok Ho Hb Hle Hv. unfold setSignedBitfield, setUnsignedBitfield, getSignedBitfield, getUnsignedBitfield.
  destruct (set_bits_spec (Z.to_nat bits) p offset (u64 value)) as (p' & Hset & Hok' & Hl & Hbits); [lia|done|done|lia|].
  rewrite Z2Nat.id in Hbits by lia. exists p'. split; [done|].
  rewrite (get_bits_spec _ p' offset 0 (u64 value)); [|done|done| |].
  - rewrite Z2Nat.id, Z.mul_0_l, Z.add_0_l by lia. cbn [mbind option_bind]. rewrite shl64_pow by lia.
    cbn [mbind option_bind]. rewrite land_pow2_testbit by lia.
    assert (u64 value mod 2 ^ bits = uwrap bits value) as ->.
    { unfold uwrap. apply Z.mod_mod_divide. exists (2 ^ (64 - bits)). rewrite <- Z.pow_add_r by lia. f_equal. lia. }
    rewrite uwrap_testbit by (done || lia). pose proof (uwrap_range bits value ltac:(lia)) as Hr.
    unfold in_s in Hv. pose proof (pow2_half bits ltac:(lia)). destruct (value <? 0) eqn:E; zbool.
    + unfold shl64. rewrite (proj2 (Z.ltb_lt bits 64)) by lia. cbn [mbind option_bind].
      rewrite sign_extend; [|done|done|rewrite uwrap_testbit by (done || lia); by apply Z.ltb_lt].
      f_equal. unfold uwrap in *. replace (value mod 2 ^ bits) with (value + 2 ^ bits); [lia|].
      apply (Z.mod_unique_pos _ _ (-1)); lia.
    + rewrite uwrap_small by lia. f_equal. apply swrap_small; [lia|]. apply (in_s_mono bits); [lia|]. done.
  - rewrite Z2Nat.id, Z.mul_1_l by lia. apply Z.pow_le_mono_r; lia.
  - rewrite Z2Nat.id by lia. intros j Hj. rewrite Hbits, decide_True by lia. do 2 f_equal. lia.
Qed.

Lemma signed_bitfield_roundtrip_witness : exists p', setSignedBitfield [255; 0; 7] 3 13 (-4096) = Some p' /\
  getSignedBitfield p' 3 13 = Some (-4096).
Proof. apply (signed_bitfield_roundtrip [255; 0; 7] 3 13 (-4096)); [repeat constructor; done|lia..|simpl; lia|split; done]. Defined.

(** Reading a negative signed field of 64 bits, a width BITFIELD accepts, shifts a
    64-bit value by 64: the result is undefined. *)
Theorem signed_bitfield_64_undefined p offset u :
  getUnsignedBitfield p offset 64 = Some u -> Z.testbit u 63 = true -> getSignedBitfield p offset 64 = None.
Proof.
  intros Hu Hbit. unfold getSignedBitfield. change (64 - 1) with 63. rewrite Hu. cbn [mbind option_bind]. rewrite shl64_pow by lia.
  cbn [mbind option_bind]. by rewrite land_pow2_testbit, Hbit by lia.
Qed.

Lemma signed_bitfield_64_undefined_witness : getSignedBitfield (replicate 8 255) 0 64 = None.
Proof. apply (signed_bitfield_64_undefined (replicate 8 255) 0 ULLONG_MAX); vm_compute; reflexivity. Defined.

(** ** Overflow checks *)

(** What the checks must answer for the exact result [z] of an operation on a
    field with the range [lo, hi]: 0 when it fits, else the direction and the
    value to store ([wrapped], or the nearest bound when saturating).  Wrapping
    reports 1 in both directions. *)
Definition overflow_spec (owtype lo hi wrapped z : Z) : Z * option Z :=
  if (lo <=? z) && (z <=? hi) then (0, None)
  else if owtype =? BFOVERFLOW_WRAP then (1, Some wrapped)
  else
    let dir := if hi <? z then 1 else -1 in
    if owtype =? BFOVERFLOW_SAT then (dir, Some (if hi <? z then hi else lo)) else (dir, None).

Lemma mask_ones bits : 0 <= bits < 64 ->
  shl64 ULLONG_MAX bits = Some (2 ^ 64 - 2 ^ bits) /\ ULLONG_MAX - (2 ^ 64 - 2 ^ bits) = Z.ones bits.
Proof.
  intros Hb. split; [|rewrite Z.ones_equiv; unfold ULLONG_MAX; lia].
  unfold shl64. rewrite (proj2 (Z.ltb_lt bits 64)) by lia. f_equal. rewrite Z.shiftl_mul_pow2 by lia.
  unfold uwrap, ULLONG_MAX. pose proof (Z.pow_lt_mono_r 2 bits 64). pose proof (Z.pow_pos_nonneg 2 bits).
  symmetry. apply (Z.mod_unique_pos _ _ (2 ^ bits - 1)); nia.
Qed.

Lemma pow_le_63 bits : 0 <= bits <= 63 -> 1 <= 2 ^ bits <= 2 ^ 63.
Proof. intros. pose proof (Z.pow_le_mono_r 2 bits 63). pose proof (Z.pow_pos_nonneg 2 bits). lia. Qed.

Lemma uwrap_land_ones bits z : 0 <= bits < 64 -> Z.land (u64 z) (Z.ones bits) = uwrap bits z.
Proof.
  intros Hb. rewrite Z.land_ones by lia. unfold uwrap. apply Z.mod_mod_divide. exists (2 ^ (64 - bits)).
  rewrite <- Z.pow_add_r by lia. f_equal. lia.
Qed.

Lemma check_unsigned_spec value incr bits owtype : 0 < bits <= 63 -> 0 <= value < 2 ^ 64 -> in_s 64 incr ->
  incr = 0 \/ value < 2 ^ bits ->
  checkUnsignedBitfieldOverflow value incr bits owtype =
    Some (overflow_spec owtype 0 (2 ^ bits - 1) (uwrap bits (value + incr)) (value + incr)).
Proof.
  intros Hb Hv Hi Hor. unfold checkUnsignedBitfieldOverflow, overflow_spec.
  rewrite (proj2 (Z.eqb_neq bits 64)), shl64_pow by lia. cbn [mbind option_bind].
  pose proof (pow_le_63 bits ltac:(lia)) as Hp.
  destruct (mask_ones bits ltac:(lia)) as [-> Hmask]. cbn [mbind option_bind]. rewrite Hmask, uwrap_land_ones by lia.
  limits. rewrite (uwrap_small 64 (2 ^ bits - 1)) by (limits; lia).
  cbv zeta. destruct (decide (value <= 2 ^ bits - 1)) as [Hle|Hgt].
  - rewrite !swrap_uwrap, !swrap_small by (limits; lia).
    rewrite Z.gtb_ltb, (proj2 (Z.ltb_ge (2 ^ bits - 1) value)) by lia. cbn [orb].
    destruct (incr >? 2 ^ bits - 1 - value) eqn:E1; zbool.
    { rewrite (proj2 (Z.gtb_gt incr 0)) by lia. cbn [andb].
      rewrite (proj2 (Z.leb_gt (value + incr) _)), andb_false_r, (proj2 (Z.ltb_lt _ (value + incr))) by lia.
      repeat case_match; done. }
    rewrite andb_false_r, (proj2 (Z.leb_le (value + incr) (2 ^ bits - 1))), andb_true_r by lia.
    destruct (incr <? - value) eqn:E2; zbool.
    + rewrite (proj2 (Z.ltb_lt incr 0)), (proj2 (Z.leb_gt 0 (value + incr))),
        (proj2 (Z.ltb_ge _ (value + incr))) by lia. repeat case_match; done.
    + rewrite andb_false_r, (proj2 (Z.leb_le 0 (value + incr))) by lia. done.
  - destruct Hor as [-> | ?]; [|lia]. rewrite Z.add_0_r.
    rewrite Z.gtb_ltb, (proj2 (Z.ltb_lt (2 ^ bits - 1) value)), (proj2 (Z.leb_gt value _)), andb_false_r by lia.
    cbn [orb]. repeat case_match; done.
Qed.

Lemma top_bit u bits : 0 < bits -> 0 <= u < 2 ^ bits -> Z.testbit u (bits - 1) = negb (u <? 2 ^ (bits - 1)).
Proof.
  intros Hb Hu. pose proof (pow2_half bits Hb) as Hh. destruct (u <? 2 ^ (bits - 1)) eqn:E; zbool; cbn [negb].
  - apply (testbit_high _ (bits - 1)); lia.
  - replace u with (u - 2 ^ (bits - 1) + 1 * 2 ^ (bits - 1)) by lia.
    rewrite <- lor_shiftl, Z.lor_spec, Z.shiftl_spec by lia. rewrite Z.sub_diag. apply orb_true_r.
Qed.

(** The high bits of the sum do not matter under the mask. *)
Lemma lor_mask z bits : 0 < bits < 64 ->
  Z.lor (u64 z) (2 ^ 64 - 2 ^ bits) = Z.lor (uwrap bits z) (2 ^ 64 - 2 ^ bits).
Proof.
  intros Hb. assert (2 ^ 64 - 2 ^ bits = Z.shiftl (Z.ones (64 - bits)) bits) as ->.
  { rewrite Z.shiftl_mul_pow2, Z.ones_equiv by lia.
    rewrite <- Z.sub_1_r, Z.mul_sub_distr_r, Z.mul_1_l, <- Z.pow_add_r by lia. do 2 f_equal. lia. }
  apply Z.bits_inj'. intros i Hi. rewrite !Z.lor_spec, Z.shiftl_spec by done. unfold uwrap.
  destruct (decide (i < bits)); [by rewrite !Z.mod_pow2_bits_low by lia|].
  destruct (decide (i < 64)).
  - rewrite Z.ones_spec_low by lia. by rewrite !orb_true_r.
  - by rewrite !Z.mod_pow2_bits_high by lia.
Qed.

Lemma signed_wrap z bits : 0 < bits < 64 ->
  s64 (if negb (Z.land (u64 z) (2 ^ (bits - 1)) =? 0) then Z.lor (u64 z) (2 ^ 64 - 2 ^ bits)
       else Z.land (u64 z) (ULLONG_MAX - (2 ^ 64 - 2 ^ bits))) = swrap bits z.
Proof.
  intros Hb. rewrite land_pow2_testbit by lia. destruct (mask_ones bits ltac:(lia)) as [Hsh ->].
  pose proof (uwrap_range bits z ltac:(lia)) as Hu.
  assert (Z.testbit (u64 z) (bits - 1) = Z.testbit (uwrap bits z) (bits - 1)) as ->
    by (unfold uwrap; by rewrite !Z.mod_pow2_bits_low by lia).
  rewrite lor_mask, uwrap_land_ones by lia. unfold swrap at 2. fold (uwrap bits z).
  rewrite (top_bit (uwrap bits z)) by (done || lia). destruct (uwrap bits z <? 2 ^ (bits - 1)) eqn:E; cbn [negb].
  - zbool. apply swrap_small; [lia|]. pose proof (Z.pow_le_mono_r 2 (bits - 1) 63 ltac:(lia) ltac:(lia)). unfold in_s. limits. lia.
  - unfold shl64 in Hsh. rewrite (proj2 (Z.ltb_lt bits 64)) in Hsh by lia. injection Hsh as <-.
    apply sign_extend; [done|done|]. by rewrite top_bit, E by (done || lia).
Qed.

Section signed_conditions.
Context (value incr bits H : Z) (Hb : 0 < bits <= 64) (HH : H = 2 ^ (bits - 1)) (Hv : in_s 64 value) (Hi : in_s 64 incr)
  (Hor : incr = 0 /\ H - 1 - LLONG_MAX <= value \/ in_s bits value).

Lemma half_range : bits = 64 /\ H = 2 ^ 63 \/ bits <> 64 /\ 1 <= H <= 2 ^ 62.
Proof.
  destruct (decide (bits = 64)) as [E|]; [left; by subst|right]. split; [done|]. subst H.
  pose proof (Z.pow_le_mono_r 2 (bits - 1) 62). pose proof (Z.pow_pos_nonneg 2 (bits - 1)). lia.
Qed.

Lemma check_signed_over :
  (value >? H - 1) || (negb (bits =? 64) && (incr >? s64 (H - 1 - value))) ||
    ((value >=? 0) && (incr >? 0) && (incr >? s64 (H - 1 - value))) = (H - 1 <? value + incr).
Proof.
  pose proof half_range as Hr. unfold in_s in *. rewrite <- HH in Hor. limits. destruct Hr as [[-> E]|[Hne E]].
  - destruct (value >=? 0) eqn:Ev; zbool; [|cbn; lia]. rewrite swrap_small by (limits; lia). cbn. lia.
  - rewrite (proj2 (Z.eqb_neq bits 64)) by done. cbn [negb andb].
    destruct (value >? H - 1) eqn:Ev; zbool; [cbn; lia|]. rewrite swrap_small by (limits; lia). cbn. lia.
Qed.

Lemma check_signed_under : value + incr <= H - 1 ->
  (value <? - H) || (negb (bits =? 64) && (incr <? s64 (- H - value))) ||
    ((value <? 0) && (incr <? 0) && (incr <? s64 (- H - value))) = (value + incr <? - H).
Proof.
  intros Hle. pose proof half_range as Hr. unfold in_s in *. rewrite <- HH in Hor. limits. destruct Hr as [[-> E]|[Hne E]].
  - destruct (value <? 0) eqn:Ev; zbool; [|cbn; lia]. rewrite swrap_small by (limits; lia). cbn. lia.
  - rewrite (proj2 (Z.eqb_neq bits 64)) by done. cbn [negb andb].
    destruct (value <? - H) eqn:Ev; zbool; [cbn; lia|]. rewrite swrap_small by (limits; lia). cbn. lia.
Qed.
End signed_conditions.

Lemma check_signed_spec value incr bits owtype : 0 < bits <= 64 -> in_s 64 value -> in_s 64 incr ->
  incr = 0 /\ 2 ^ (bits - 1) - 1 - LLONG_MAX <= value \/ in_s bits value ->
  bits < 64 \/ owtype <> BFOVERFLOW_WRAP ->
  checkSignedBitfieldOverflow value incr bits owtype =
    Some (overflow_spec owtype (- 2 ^ (bits - 1)) (2 ^ (bits - 1) - 1) (swrap bits (value + incr)) (value + incr)).
Proof.
  intros Hb Hv Hi Hor How. pose proof (pow_le_63 (bits - 1) ltac:(lia)) as Hp. unfold checkSignedBitfieldOverflow.
  assert ((if bits =? 64 then Some LLONG_MAX else m ← shl64 1 (bits - 1); Some (s64 (m - 1))) = Some (2 ^ (bits - 1) - 1)) as ->.
  { destruct (bits =? 64) eqn:E; zbool; [by subst bits|]. rewrite shl64_pow by lia. cbn [mbind option_bind].
    f_equal. apply swrap_small; limits; lia. }
  cbn [mbind option_bind]. rewrite (swrap_small 64 (- (2 ^ (bits - 1) - 1) - 1)) by (limits; lia).
  replace (- (2 ^ (bits - 1) - 1) - 1) with (- 2 ^ (bits - 1)) by lia.
  set (H := 2 ^ (bits - 1)) in *. cbv zeta.
  set (wrap := shl64 ULLONG_MAX bits ≫= _).
  assert (owtype = BFOVERFLOW_WRAP -> wrap = Some (1, Some (swrap bits (value + incr)))) as Hwrap.
  { intros ->. destruct How as [How|]; [|done]. unfold wrap. destruct (mask_ones bits ltac:(lia)) as [-> _].
    cbn [mbind option_bind]. rewrite shl64_pow by lia. cbn [mbind option_bind]. do 3 f_equal.
    rewrite <- (signed_wrap (value + incr) bits) by lia. unfold uwrap. by rewrite <- Z.add_mod by lia. }
  clearbody wrap. unfold overflow_spec.
  assert (forall dir lim, (if owtype =? BFOVERFLOW_WRAP then wrap
    else if owtype =? BFOVERFLOW_SAT then Some (dir, Some lim) else Some (dir, None)) =
    Some (if owtype =? BFOVERFLOW_WRAP then (1, Some (swrap bits (value + incr)))
      else if owtype =? BFOVERFLOW_SAT then (dir, Some lim) else (dir, None))) as Hcases.
  { intros dir lim. destruct (owtype =? BFOVERFLOW_WRAP) eqn:E; zbool; [by apply Hwrap|]. by destruct (owtype =? _). }
  rewrite !Hcases. clear Hcases Hwrap How wrap.
  rewrite (check_signed_over value incr bits H) by done. destruct (H - 1 <? value + incr) eqn:Eo; zbool.
  { by rewrite (proj2 (Z.leb_gt (value + incr) _)), andb_false_r by lia. }
  rewrite (check_signed_under value incr bits H) by done. rewrite (proj2 (Z.leb_le (value + incr) _)), andb_true_r by lia.
  destruct (value + incr <? - H) eqn:Eu; zbool.
  - by rewrite (proj2 (Z.leb_gt (- H) _)) by lia.
  - by rewrite (proj2 (Z.leb_le (- H) _)) by lia.
Qed.

(** The overflow checks of BITFIELD answer for the exact sum: 0 when it fits the
    field, the direction otherwise, and the limit is the sum wrapped to the
    field's width or the nearest bound.  Unsigned fields have up to 63 bits; a
    wrapping signed field has less than 64. *)
Theorem overflow_checks_correct value incr bits owtype : in_s 64 incr ->
  (0 < bits <= 63 -> 0 <= value < 2 ^ 64 -> incr = 0 \/ value < 2 ^ bits ->
   checkUnsignedBitfieldOverflow value incr bits owtype =
     Some (overflow_spec owtype 0 (2 ^ bits - 1) (uwrap bits (value + incr)) (value + incr))) /\
  (0 < bits <= 64 -> in_s 64 value ->
   incr = 0 /\ 2 ^ (bits - 1) - 1 - LLONG_MAX <= value \/ in_s bits value ->
   bits < 64 \/ owtype <> BFOVERFLOW_WRAP ->
   checkSignedBitfieldOverflow value incr bits owtype =
     Some (overflow_spec owtype (- 2 ^ (bits - 1)) (2 ^ (bits - 1) - 1) (swrap bits (value + incr)) (value + incr))).
Proof. intros Hi. split; intros; [by apply check_unsigned_spec|by apply check_signed_spec]. Qed.

Lemma overflow_checks_correct_witness :
  checkUnsignedBitfieldOverflow 250 10 8 BFOVERFLOW_SAT = Some (1, Some 255) /\
  checkSignedBitfieldOverflow (-120) (-10) 8 BFOVERFLOW_WRAP = Some (1, Some 126).
Proof.
  split; [exact (proj1 (overflow_checks_correct 250 10 8 BFOVERFLOW_SAT ltac:(split; done)) ltac:(lia) ltac:(lia) ltac:(right; lia))|].
  exact (proj2 (overflow_checks_correct (-120) (-10) 8 BFOVERFLOW_WRAP ltac:(split; done)) ltac:(lia) ltac:(split; done)
    ltac:(right; split; done) ltac:(left; lia)).
Defined.

(** [maxincr] overflows for a value far below the minimum of the field, which SET
    passes with no increment: the check then reports an overflow, and saturating
    stores the maximum in place of the minimum. *)
Theorem signed_set_saturates_up bits value : 0 < bits < 64 -> LLONG_MIN <= value < 2 ^ (bits - 1) - 1 - LLONG_MAX ->
  checkSignedBitfieldOverflow value 0 bits BFOVERFLOW_SAT = Some (1, Some (2 ^ (bits - 1) - 1)).
Proof.
  intros Hb Hv. pose proof (Z.pow_le_mono_r 2 (bits - 1) 62 ltac:(lia) ltac:(lia)) as Hp.
  pose proof (Z.pow_pos_nonneg 2 (bits - 1) ltac:(lia) ltac:(lia)).
  unfold checkSignedBitfieldOverflow. rewrite (proj2 (Z.eqb_neq bits 64)), shl64_pow by lia. cbn [mbind option_bind negb andb].
  rewrite (swrap_small 64 (2 ^ (bits - 1) - 1)) by (limits; lia). limits.
  assert (s64 (2 ^ (bits - 1) - 1 - value) = 2 ^ (bits - 1) - 1 - value - 2 ^ 64) as ->.
  { rewrite <- (swrap_small 64 (2 ^ (bits - 1) - 1 - value - 2 ^ 64)) by (limits; lia). unfold swrap.
    by rewrite <- (Z_mod_plus_full (_ - 2 ^ 64) 1), Z.mul_1_l, Z.sub_add. }
  rewrite (proj2 (Z.gtb_gt 0 _)) by (limits; lia). by rewrite orb_true_r.
Qed.

Lemma signed_set_saturates_up_witness :
  checkSignedBitfieldOverflow LLONG_MIN 0 63 BFOVERFLOW_SAT = Some (1, Some (2 ^ 62 - 1)).
Proof. apply (signed_set_saturates_up 63 LLONG_MIN); [lia|]. split; done. Defined.

(** ** First bit *)

(** The big-endian value of [n] bytes of a list padded with zeros. *)
Fixpoint be (n : nat) (l : list byte) : Z :=
  match n with
  | O => 0
  | S n => match l with
           | b :: l => b * 2 ^ (8 * Z.of_nat n) + be n l
           | [] => 0
           end
  end.

Lemma be_range n : forall l, bytes_ok l -> 0 <= be n l < 2 ^ (8 * Z.of_nat n).
Proof.
  induction n as [|n IH]; intros l Hl; [cbn; lia|]. replace (8 * Z.of_nat (S n)) with (8 + 8 * Z.of_nat n) by lia.
  rewrite Z.pow_add_r by lia. pose proof (Z.pow_pos_nonneg 2 (8 * Z.of_nat n)). change (2 ^ 8) with 256.
  destruct Hl as [|b l Hb Hl]; cbn [be]; [lia|]. specialize (IH l Hl). unfold is_byte in Hb. nia.
Qed.

(** Bit [k] of a bitmap padded with zeros. *)
Definition padbit (l : list byte) (k : Z) : bool := default false (bit_at l k).

Lemma bit_at_cons b l k : 0 <= k ->
  bit_at (b :: l) k = if k <? 8 then Some (Z.testbit b (7 - k)) else bit_at l (k - 8).
Proof.
  intros Hk. unfold bit_at. destruct (k <? 8) eqn:E; zbool.
  - rewrite Z.div_small, Z.mod_small by lia. done.
  - assert (0 <= (k - 8) / 8) by (apply Z.div_pos; lia).
    replace (k / 8) with ((k - 8) / 8 + 1) by (rewrite <- Z.div_add by lia; f_equal; lia).
    replace (k mod 8) with ((k - 8) mod 8) by (replace k with (k - 8 + 1 * 8) at 2 by lia; by rewrite Z_mod_plus_full).
    rewrite !getb_Some by lia. replace (Z.to_nat ((k - 8) / 8 + 1)) with (S (Z.to_nat ((k - 8) / 8))) by lia. done.
Qed.

Lemma bit_at_nil k : bit_at [] k = None.
Proof. unfold bit_at, getb. by destruct (0 <=? k / 8). Qed.

Lemma bit_at_Some l : forall k, 0 <= k -> is_Some (bit_at l k) <-> k < 8 * Z.of_nat (length l).
Proof.
  induction l as [|b l IH]; intros k Hk; [rewrite bit_at_nil; simpl; split; [by intros []|lia]|].
  rewrite bit_at_cons by done. cbn [length]. destruct (k <? 8) eqn:E; zbool; [split; [lia|by eexists]|].
  rewrite IH by lia. lia.
Qed.

Lemma be_bits n : forall l k, bytes_ok l -> 0 <= k < 8 * Z.of_nat n ->
  Z.testbit (be n l) (8 * Z.of_nat n - 1 - k) = padbit l k.
Proof.
  induction n as [|n IH]; intros l k Hl Hk; [lia|]. unfold padbit. destruct Hl as [|b l Hb Hl].
  { by rewrite bit_at_nil, Z.bits_0. }
  rewrite bit_at_cons by lia. cbn [be]. pose proof (be_range n l Hl) as Hr.
  rewrite Z.add_comm, <- lor_shiftl, Z.lor_spec, Z.shiftl_spec by lia. destruct (k <? 8) eqn:E; zbool.
  - rewrite (testbit_high (be n l) (8 * Z.of_nat n)) by lia. cbn [orb from_option id]. unfold id. f_equal. lia.
  - rewrite (Z.testbit_neg_r b) by lia.
    rewrite orb_false_r. replace (8 * Z.of_nat (S n) - 1 - k) with (8 * Z.of_nat n - 1 - (k - 8)) by lia.
    rewrite IH by (done || lia). done.
Qed.

Lemma load_last_spec n : forall p q r word, bytes_ok q -> 0 <= word -> (word + 1) * 2 ^ (8 * Z.of_nat n) <= 2 ^ 64 ->
  load_last n (p ++ q ++ r) (Z.of_nat (length p)) (Z.of_nat (length q)) word = Some (word * 2 ^ (8 * Z.of_nat n) + be n q).
Proof.
  induction n as [|n IH]; intros p q r word Hok Hw Hle; [cbn; f_equal; lia|].
  replace (8 * Z.of_nat (S n)) with (8 + 8 * Z.of_nat n) in * by lia. rewrite Z.pow_add_r in * by lia.
  pose proof (Z.pow_pos_nonneg 2 (8 * Z.of_nat n) ltac:(lia) ltac:(lia)). change (2 ^ 8) with 256 in *.
  cbn [load_last]. rewrite (uwrap_small 64) by (rewrite Z.shiftl_mul_pow2 by lia; change (2 ^ 8) with 256; nia).
  destruct Hok as [|b q Hb Hok]; cbn [length].
  - cbn [Z.of_nat Z.eqb negb]. rewrite (IH p [] r) by (try constructor; rewrite Z.shiftl_mul_pow2 by lia; change (2 ^ 8) with 256; nia).
    rewrite Z.shiftl_mul_pow2 by lia. change (2 ^ 8) with 256. cbn [be]. f_equal. destruct n; cbn [be]; nia.
  - rewrite (proj2 (Z.eqb_neq _ 0)) by lia. cbn [negb app]. rewrite getb_app by done. cbn [mbind option_bind].
    unfold is_byte in Hb. rewrite Z.lor_comm, lor_shiftl by (change (2 ^ 8) with 256; lia). change (2 ^ 8) with 256.
    replace (Z.of_nat (length p) + 1) with (Z.of_nat (length (p ++ [b]))) by (rewrite length_app; simpl; lia).
    replace (Z.of_nat (S (length q)) - 1) with (Z.of_nat (length q)) by lia.
    pose proof (IH (p ++ [b]) q r (b + word * 256) Hok ltac:(lia) ltac:(nia)) as HI.
    rewrite <- app_assoc in HI. cbn [app] in HI. rewrite HI. cbn [be]. f_equal. nia.
Qed.

(** The bit loop finds the first match. *)
Lemma scan_word_spec j : forall word pos (bv : bool),
  (exists k, 0 <= k <= Z.of_nat j /\ Z.testbit word (Z.of_nat j - k) = bv) ->
  exists m, scan_word (S j) (2 ^ Z.of_nat j) word pos (Z.b2z bv) = Some (pos + m) /\ 0 <= m <= Z.of_nat j /\
    Z.testbit word (Z.of_nat j - m) = bv /\ forall i, 0 <= i < m -> Z.testbit word (Z.of_nat j - i) = negb bv.
Proof.
  induction j as [|j IH]; intros word pos bv (k & Hk & Hbit);
    cbn [scan_word]; rewrite (proj2 (Z.eqb_neq (2 ^ _) 0)) by (pose proof (Z.pow_pos_nonneg 2); lia);
    rewrite (Z.land_comm (2 ^ _)), land_pow2_testbit by lia.
  - change (Z.of_nat 0) with 0 in *. replace k with 0 in Hbit by lia. rewrite Z.sub_0_r in Hbit. rewrite Hbit, Z.eqb_refl.
    exists 0. rewrite Z.sub_0_r. split_and!; [f_equal; lia|lia|lia|done|lia].
  - destruct (decide (Z.testbit word (Z.of_nat (S j)) = bv)) as [E|E].
    + rewrite E, Z.eqb_refl. exists 0. rewrite Z.sub_0_r. split_and!; [f_equal; lia|lia|lia|done|lia].
    + rewrite (proj2 (Z.eqb_neq _ _)) by (by intros ?%Z.b2z_inj).
      assert (Z.shiftr (2 ^ Z.of_nat (S j)) 1 = 2 ^ Z.of_nat j) as ->.
      { rewrite Z.shiftr_div_pow2, Nat2Z.inj_succ, Z.pow_succ_r by lia. rewrite Z.mul_comm. by apply Z.div_mul. }
      assert (k <> 0) by (intros ->; by rewrite Z.sub_0_r in Hbit).
      destruct (IH word (pos + 1) bv) as (m & Hm & Hmr & Hmb & Hlt).
      { exists (k - 1). split; [lia|]. rewrite <- Hbit. f_equal. lia. }
      exists (m + 1). cbn [scan_word] in Hm. rewrite Hm. split_and!; [f_equal; lia|lia|lia|rewrite <- Hmb; f_equal; lia|].
      intros i Hi. destruct (decide (i = 0)) as [-> |]; [rewrite Z.sub_0_r; by destruct (Z.testbit word (Z.of_nat (S j))), bv|].
      rewrite <- (Hlt (i - 1)) by lia. f_equal. lia.
Qed.

(** The bytes skipped when searching [bv]: all of their bits differ from it. *)
Definition skip_byte (bv : bool) : byte := if bv then 0 else 255.

Lemma skip_byte_bit bv k : 0 <= k < 8 -> Z.testbit (skip_byte bv) (7 - k) = negb bv.
Proof.
  intros Hk. destruct bv; [apply Z.bits_0|]. change (skip_byte false) with (Z.ones 8). apply Z.ones_spec_low. lia.
Qed.

(** A byte that is not skipped holds the bit. *)
Lemma found_byte bv b : is_byte b -> b <> skip_byte bv -> exists k, 0 <= k < 8 /\ Z.testbit b (7 - k) = bv.
Proof.
  intros Hb. assert (b = skip_byte bv \/ Exists (fun k => Z.testbit b (7 - k) = bv) (seqZ 0 8)) as [E|HE]; [|done|].
  { revert b Hb. destruct bv.
    - refine (decide_below 256 (fun b => b = skip_byte true \/ Exists (fun k => Z.testbit b (7 - k) = true) (seqZ 0 8)) _).
      vm_compute. reflexivity.
    - refine (decide_below 256 (fun b => b = skip_byte false \/ Exists (fun k => Z.testbit b (7 - k) = false) (seqZ 0 8)) _).
      vm_compute. reflexivity. }
  intros _. apply Exists_exists in HE as (k & Hk%elem_of_seqZ & Hbit). exists k. split; [lia|done].
Qed.

(** Bits of lists of bytes. *)
Lemma bit_at_app p q k : 0 <= k ->
  bit_at (p ++ q) k = if k <? 8 * Z.of_nat (length p) then bit_at p k else bit_at q (k - 8 * Z.of_nat (length p)).
Proof.
  revert k. induction p as [|b p IH]; intros k Hk; cbn [app length].
  { rewrite (proj2 (Z.ltb_ge k _)) by (simpl; lia). f_equal. simpl. lia. }
  rewrite !bit_at_cons by done. destruct (k <? 8) eqn:E; zbool; [by rewrite (proj2 (Z.ltb_lt k _)) by lia|].
  rewrite IH by lia. destruct (k <? 8 * Z.of_nat (S (length p))) eqn:E2; zbool.
  - by rewrite (proj2 (Z.ltb_lt (k - 8) _)) by lia.
  - rewrite (proj2 (Z.ltb_ge (k - 8) _)) by lia. f_equal. lia.
Qed.

Lemma skipped_bits bv p : Forall (fun b => b = skip_byte bv) p ->
  forall k, 0 <= k < 8 * Z.of_nat (length p) -> bit_at p k = Some (negb bv).
Proof.
  induction 1 as [|b p -> _ IH]; intros k Hk; [simpl in Hk; lia|]. rewrite bit_at_cons by lia. cbn [length] in Hk.
  destruct (k <? 8) eqn:E; zbool; [by rewrite skip_byte_bit by lia|]. apply IH. lia.
Qed.

(** Some byte of the first [n] is not skipped, or the bitmap ends within them. *)
Definition stops (bv : bool) (n : nat) (q : list byte) : Prop :=
  (length q < n)%nat \/ Exists (fun b => b <> skip_byte bv) (take n q).

Lemma stops_mono bv n n' q : (n <= n')%nat -> stops bv n q -> stops bv n' q.
Proof.
  intros Hn [Hs|Hs]; [left; lia|]. right. replace n with (n `min` n')%nat in Hs by lia.
  rewrite <- take_take in Hs. rewrite Exists_exists in Hs |- *. destruct Hs as (x & Hx & Hne). exists x. split; [|done].
  by apply elem_of_take in Hx as (i & Hx%list_elem_of_lookup_2 & _).
Qed.

Lemma exists_bit bv q : bytes_ok q -> Exists (fun b => b <> skip_byte bv) q ->
  exists k, 0 <= k < 8 * Z.of_nat (length q) /\ bit_at q k = Some bv.
Proof.
  intros Hok. induction 1 as [b q Hne|b q _ IH]; apply Forall_cons in Hok as [Hb Hok].
  - destruct (found_byte bv b Hb Hne) as (k & Hk & Hbit). exists k. cbn [length]. split; [lia|].
    rewrite bit_at_cons, (proj2 (Z.ltb_lt k 8)) by lia. by f_equal.
  - destruct (IH Hok) as (k & Hk & Hbit). exists (k + 8). cbn [length]. split; [lia|].
    rewrite bit_at_cons, (proj2 (Z.ltb_ge (k + 8) 8)) by lia. rewrite <- Hbit. f_equal. lia.
Qed.

Section bitpos.
Context `{Host} (bv : bool).

Definition skip_word : Z := if bv then 0 else ULLONG_MAX.

Lemma host_val_skip bs : bytes_ok bs -> length bs = 8%nat ->
  host_val bs = skip_word <-> Forall (fun b => b = skip_byte bv) bs.
Proof.
  intros Hok Hl. assert (forall l, bytes_ok l -> length l = 8%nat -> le_val l = skip_word <-> l = replicate 8 (skip_byte bv)) as Hle.
  { intros l Hlok Hll. assert (skip_word = le_val (replicate 8 (skip_byte bv))) as -> by (by unfold skip_word; destruct bv).
    split; [|by intros ->]. intros E. rewrite <- (le_bytes_val l Hlok), Hll, E.
    apply (le_bytes_val (replicate 8 (skip_byte bv))). apply Forall_replicate. destruct bv; unfold is_byte; cbn; lia. }
  assert (bs = replicate 8 (skip_byte bv) <-> Forall (fun b => b = skip_byte bv) bs) as <-.
  { split; [intros ->; by apply Forall_replicate|]. intros Hall. symmetry. apply replicate_as_Forall_2; [done|].
    eapply Forall_impl; [exact Hall|]. done. }
  unfold host_val. destruct big_endian; [|by apply Hle]. rewrite Hle; [|by apply Forall_reverse|by rewrite length_reverse].
  split; intros E; [|subst; apply reverse_replicate]. rewrite <- (reverse_involutive bs), E. apply reverse_replicate.
Qed.

Lemma skip_bytes_spec q : forall n p r, (n <= length q)%nat -> exists found q1 q2,
  q = q1 ++ q2 /\ Forall (fun b => b = skip_byte bv) q1 /\ (found = true -> stops bv 1 q2) /\
  skip_bytes n (p ++ q ++ r) (skip_byte bv) (Z.of_nat (length p)) (Z.of_nat (length q)) (8 * Z.of_nat (length p)) =
    Some (found, Z.of_nat (length (p ++ q1)), Z.of_nat (length q2), 8 * Z.of_nat (length (p ++ q1))).
Proof.
  induction q as [|b q IH]; intros n p r Hn; simpl in Hn.
  { destruct n; [|lia]. exists false, [], []. rewrite (app_nil_r p). split_and!; [done|by apply Forall_nil|done|done]. }
  destruct n as [|n]; [exists false, [], (b :: q); rewrite (app_nil_r p); split_and!; [done|by apply Forall_nil|done|done]|].
  cbn [skip_bytes app]. rewrite getb_app by done. cbn [mbind option_bind]. destruct (b =? skip_byte bv) eqn:E; zbool; cbn [negb].
  - destruct (IH n (p ++ [b]) r ltac:(lia)) as (found & q1 & q2 & -> & Hq1 & Hf & Hs).
    exists found, (b :: q1), q2. split_and!; [done|by constructor|done|].
    rewrite <- (app_assoc p [b]) in Hs. cbn [app] in Hs. rewrite <- (app_assoc p [b] q1) in Hs. cbn [app] in Hs.
    rewrite <- Hs, length_app. cbn [length]. f_equal; lia.
  - exists true, [], (b :: q). rewrite (app_nil_r p). split_and!; [done|by apply Forall_nil| |done].
    intros _. right. cbn [take]. by constructor.
Qed.

Lemma skip_words_spec fuel : forall p q r, bytes_ok q -> (length q <= fuel)%nat -> exists q1 q2,
  q = q1 ++ q2 /\ Forall (fun b => b = skip_byte bv) q1 /\ stops bv 8 q2 /\
  skip_words fuel (p ++ q ++ r) skip_word (Z.of_nat (length p)) (Z.of_nat (length q)) (8 * Z.of_nat (length p)) =
    Some (Z.of_nat (length (p ++ q1)), Z.of_nat (length q2), 8 * Z.of_nat (length (p ++ q1))).
Proof.
  induction fuel as [|fuel IH]; intros p q r Hok Hf; cbn [skip_words].
  { destruct q; [|simpl in Hf; lia]. exists [], []. rewrite (app_nil_r p). split_and!; [done|by apply Forall_nil|left; simpl; lia|done]. }
  destruct (Z.of_nat (length q) >=? 8) eqn:E; zbool.
  2:{ exists [], q. rewrite (app_nil_r p). split_and!; [done|by apply Forall_nil|left; lia|done]. }
  assert (exists q1 q2, q = q1 ++ q2 /\ length q1 = 8%nat) as (q1 & q2 & -> & H1).
  { exists (take 8 q), (drop 8 q). rewrite take_drop, length_take. split; [done|lia]. }
  pose proof Hok as [Hok1 Hok2]%Forall_app. rewrite <- app_assoc, load_app by (done || lia). cbn [mbind option_bind].
  pose proof (host_val_skip q1 Hok1 H1) as Hskip. destruct (host_val q1 =? skip_word) eqn:Es; zbool; cbn [negb].
  - rewrite length_app, H1 in Hf. destruct (IH (p ++ q1) q2 r Hok2 ltac:(lia)) as (q3 & q4 & -> & Hq3 & Hst & Hs).
    exists (q1 ++ q3), q4. split_and!; [by rewrite app_assoc|apply Forall_app; split; [by apply Hskip|done]|done|].
    rewrite <- !app_assoc in *. rewrite <- Hs, !length_app, H1. f_equal; lia.
  - exists [], (q1 ++ q2). rewrite (app_nil_r p), app_assoc. split_and!; [done|by apply Forall_nil| |done].
    right. rewrite take_app_length' by done. apply not_Forall_Exists; [apply _|]. tauto.
Qed.

(** The last word holds the bit looked for, or none is left. *)
Lemma last_word q : bytes_ok q -> stops bv 8 q ->
  (exists k, 0 <= k <= 63 /\ Z.testbit (be 8 q) (63 - k) = bv) \/
  bv = true /\ be 8 q = 0 /\ forall k, 0 <= k < 8 * Z.of_nat (length q) -> bit_at q k = Some false.
Proof.
  intros Hok Hst. assert (forall k, 0 <= k <= 63 -> Z.testbit (be 8 q) (63 - k) = padbit q k) as Hbe.
  { intros k Hk. pose proof (be_bits 8 q k Hok ltac:(lia)) as <-. f_equal. }
  destruct (decide (Exists (fun b => b <> skip_byte bv) (take 8 q))) as [HE|HE].
  - left. destruct (exists_bit bv (take 8 q)) as (k & Hk & Hbit); [by apply Forall_take|done|].
    rewrite length_take in Hk. exists k. split; [lia|]. rewrite Hbe by lia. unfold padbit.
    rewrite <- (take_drop 8 q), bit_at_app, length_take, (proj2 (Z.ltb_lt k _)), Hbit by lia. done.
  - destruct Hst as [Hlt|]; [|done]. rewrite take_ge in HE by lia.
    assert (Forall (fun b => b = skip_byte bv) q) as Hall.
    { apply Forall_forall. intros b Hb. destruct (decide (b = skip_byte bv)); [done|]. exfalso. apply HE, Exists_exists. by exists b. }
    destruct bv.
    + right. split_and!; [done| |by apply (skipped_bits true)]. apply Z.bits_inj'. intros i Hi. rewrite Z.bits_0.
      destruct (decide (i <= 63)); [|apply (testbit_high _ 64); [apply (be_range 8 q Hok)|lia]].
      replace i with (63 - (63 - i)) by lia. rewrite Hbe by lia. unfold padbit.
      destruct (decide (63 - i < 8 * Z.of_nat (length q))); [by rewrite (skipped_bits true q) by (done || lia)|].
      destruct (bit_at q (63 - i)) eqn:Ek; [|done]. assert (is_Some (bit_at q (63 - i))) as Hs by done.
      apply bit_at_Some in Hs; lia.
    + left. exists (8 * Z.of_nat (length q)). split; [lia|]. rewrite Hbe by lia. unfold padbit.
      destruct (bit_at q _) eqn:Ek; [|done]. assert (is_Some (bit_at q (8 * Z.of_nat (length q)))) as Hs by done.
      apply bit_at_Some in Hs; lia.
Qed.
End bitpos.

(** What the search returns for the bits of [q]. *)
Definition first_bit (bv : bool) (q : list byte) (r : Z) : Prop :=
  r = -1 /\ bv = true /\ (forall i, 0 <= i < 8 * Z.of_nat (length q) -> bit_at q i = Some false) \/
  0 <= r <= 8 * Z.of_nat (length q) /\ (forall i, 0 <= i < r -> bit_at q i = Some (negb bv)) /\
    (r < 8 * Z.of_nat (length q) -> bit_at q r = Some bv) /\ (r = 8 * Z.of_nat (length q) -> bv = false).

Lemma padbit_Some l k b : 0 <= k < 8 * Z.of_nat (length l) -> padbit l k = b -> bit_at l k = Some b.
Proof. intros Hk <-. destruct (proj2 (bit_at_Some l k ltac:(lia)) ltac:(lia)) as [b Hb]. unfold padbit. by rewrite Hb. Qed.

Lemma padbit_out l k : 8 * Z.of_nat (length l) <= k -> padbit l k = false.
Proof.
  intros Hk. unfold padbit. destruct (bit_at l k) eqn:E; [|done]. assert (is_Some (bit_at l k)) as Hs by done.
  apply bit_at_Some in Hs; lia.
Qed.

(** The scan of the last word, after skipped bytes. *)
Lemma scan_last bv p q : Forall (fun b => b = skip_byte bv) p -> bytes_ok q -> stops bv 8 q ->
  exists r, (if (Z.b2z bv =? 1) && (be 8 q =? 0) then Some (-1)
    else scan_word 64 (2 ^ 63) (be 8 q) (8 * Z.of_nat (length p)) (Z.b2z bv)) = Some r /\ first_bit bv (p ++ q) r.
Proof.
  intros Hp Hok Hst. destruct (last_word bv q Hok Hst) as [Hex|(-> & Hz & Hall)].
  2:{ rewrite Hz. exists (-1). split; [done|]. left. split_and!; [done..|]. intros i Hi. rewrite length_app in Hi.
      rewrite bit_at_app by lia. destruct (i <? _) eqn:E; zbool; [apply (skipped_bits true); [done|lia]|]. apply Hall. lia. }
  assert ((Z.b2z bv =? 1) && (be 8 q =? 0) = false) as ->.
  { destruct bv; [|done]. destruct Hex as (k & Hk & Hbit). destruct (be 8 q =? 0) eqn:E; [|done]. zbool.
    by rewrite E, Z.bits_0 in Hbit. }
  destruct (scan_word_spec 63 (be 8 q) (8 * Z.of_nat (length p)) bv Hex) as (m & Hm & Hmr & Hmb & Hlt).
  exists (8 * Z.of_nat (length p) + m). split; [exact Hm|]. change (Z.of_nat 63) with 63 in *.
  assert (forall k, 0 <= k <= 63 -> Z.testbit (be 8 q) (63 - k) = padbit q k) as Hbe.
  { intros k Hk. pose proof (be_bits 8 q k Hok ltac:(lia)) as <-. f_equal. }
  rewrite Hbe in Hmb by lia. right.
  assert (m <= 8 * Z.of_nat (length q) /\ (m = 8 * Z.of_nat (length q) -> bv = false)) as [Hle Heq].
  { split; [|intros ->; by rewrite padbit_out in Hmb]. apply Z.le_ngt. intros Hgt.
    rewrite padbit_out in Hmb by lia. subst bv. specialize (Hlt (8 * Z.of_nat (length q)) ltac:(lia)).
    rewrite Hbe, padbit_out in Hlt by lia. done. }
  rewrite length_app. split_and!; [lia|lia| | |intros ?; apply Heq; lia].
  - intros i Hi. rewrite bit_at_app by lia. destruct (i <? _) eqn:E; zbool; [apply (skipped_bits bv); [done|lia]|].
    apply padbit_Some; [lia|]. rewrite <- Hbe by lia. apply Hlt. lia.
  - intros Hr. rewrite bit_at_app by lia. rewrite (proj2 (Z.ltb_ge _ _)) by lia.
    apply padbit_Some; [lia|]. rewrite <- Hmb. f_equal. lia.
Qed.

Lemma bitpos_spec `{Host} addr s count bv : bytes_ok s -> 0 <= count <= Z.of_nat (length s) ->
  exists r, redisBitpos addr s count (Z.b2z bv) = Some r /\ first_bit bv (take (Z.to_nat count) s) r.
Proof.
  intros Hok Hc. pose proof (Forall_take is_byte (Z.to_nat count) s Hok) as Hq.
  assert (Z.of_nat (length (take (Z.to_nat count) s)) = count) as Hl by (rewrite length_take; lia).
  pose proof (take_drop (Z.to_nat count) s) as Hs. revert Hq Hl Hs.
  generalize (take (Z.to_nat count) s) (drop (Z.to_nat count) s). intros q r Hq Hl <-. clear Hok Hc. unfold redisBitpos.
  pose proof (Z.mod_pos_bound (- addr) 8 ltac:(lia)).
  assert ((if negb (Z.b2z bv =? 0) then 0 else 255) = skip_byte bv) as -> by (by destruct bv).
  assert ((if negb (Z.b2z bv =? 0) then 0 else ULLONG_MAX) = skip_word bv) as -> by (by destruct bv).
  destruct (skip_bytes_spec bv q (Z.to_nat (unaligned addr count 8)) [] r) as (found & q1 & q2 & -> & Hq1 & Hf & Hs).
  { unfold unaligned. lia. }
  cbn [app length] in Hs. change (Z.of_nat 0) with 0 in Hs. rewrite Z.mul_0_r, Hl in Hs. rewrite Hs. cbn [mbind option_bind].
  pose proof Hq as [Hok1 Hok2]%Forall_app. rewrite length_app in Hl.
  assert (exists q3 q4, q2 = q3 ++ q4 /\ Forall (fun b => b = skip_byte bv) q3 /\ stops bv 8 q4 /\
    (if found then Some (Z.of_nat (length q1), Z.of_nat (length q2), 8 * Z.of_nat (length q1))
     else skip_words (Z.to_nat (Z.of_nat (length q2))) ((q1 ++ q2) ++ r) (skip_word bv) (Z.of_nat (length q1))
       (Z.of_nat (length q2)) (8 * Z.of_nat (length q1))) =
    Some (Z.of_nat (length (q1 ++ q3)), Z.of_nat (length q4), 8 * Z.of_nat (length (q1 ++ q3)))) as (q3 & q4 & -> & Hq3 & Hst & ->).
  { destruct found.
    - exists [], q2. rewrite (app_nil_r q1). split_and!; [done|by apply Forall_nil| |done]. apply (stops_mono bv 1); [lia|by apply Hf].
    - destruct (skip_words_spec bv (Z.to_nat (Z.of_nat (length q2))) q1 q2 r Hok2 ltac:(lia)) as (q3 & q4 & E & ? & ? & Hw).
      exists q3, q4. rewrite <- app_assoc. done. }
  cbn [mbind option_bind]. apply Forall_app in Hok2 as [_ Hok4]. rewrite (app_assoc q1), <- (app_assoc _ q4).
  rewrite load_last_spec by (done || lia). cbn [mbind option_bind]. rewrite Z.mul_0_l, Z.add_0_l.
  apply (scan_last bv (q1 ++ q3) q4); [by apply Forall_app|done|done].
Qed.

(** [redisPopcount] is the number of one bits of the first [count] bytes, for every
    alignment of the block and either byte order of the host. *)
Theorem popcount_correct `{Host} addr s count : bytes_ok s -> 0 <= count <= Z.of_nat (length s) -> count < 2 ^ 61 ->
  redisPopcount addr s count = Some (ones (take (Z.to_nat count) s)).
Proof. apply popcount_spec. Qed.

(** [redisBitpos] returns the first position of the bit in the first [count] bytes,
    for every alignment and byte order: -1 when no bit is one, and the length of
    the bitmap when no bit is zero.  It never panics. *)
Theorem bitpos_correct `{Host} addr s count (bv : bool) : bytes_ok s -> 0 <= count <= Z.of_nat (length s) ->
  exists r, redisBitpos addr s count (Z.b2z bv) = Some r /\ first_bit bv (take (Z.to_nat count) s) r.
Proof. apply bitpos_spec. Qed.

Lemma popcount_correct_witness : redisPopcount (H := false) 3 (replicate 40 255 ++ [0; 5]) 41 = Some 320.
Proof.
  rewrite (popcount_correct (H := false) 3 (replicate 40 255 ++ [0; 5]) 41); [vm_compute; reflexivity| |split; vm_compute; done|done].
  by apply (bool_decide_unpack _); vm_compute.
Defined.

Lemma bitpos_correct_witness : exists r, redisBitpos (H := true) 1 (replicate 20 255 ++ [239]) 21 0 = Some r /\
  first_bit false (replicate 20 255 ++ [239]) r.
Proof.
  apply (bitpos_correct (H := true) 1 (replicate 20 255 ++ [239]) 21 false); [|split; vm_compute; done].
  by apply (bool_decide_unpack _); vm_compute.
Defined.
