(* ===== verification/Lzf.v ===== *)
(** * LZF compression (src/redis-5.0.7/src/lzf_c.c, lzf_d.c, lzfP.h)

    The compressor and the decompressor of strings in dumps and of list nodes,
    as configured by lzfP.h on a 64-bit x86 host: a hash table of 2^16 offsets
    that is not initialised ([uninit] gives its contents), unaligned 16-bit
    comparisons, checked input.  Pointers into the input and the output are
    offsets ([ip], [op], [ref]) into their blocks.  The compressed format is
    described by the relation [decodes]; the compressor produces only such codes
    and the decompressor expands them, which gives the round trip. *)

From S2P Require Import Prelude.
From stdpp Require Import strings.

Local Open Scope Z_scope.

(** ** The compressor *)

Definition HLOG : Z := 16.
Definition HSIZE : Z := Z.shiftl 1 HLOG.
Definition MAX_LIT : Z := Z.shiftl 1 5.
Definition MAX_OFF : Z := Z.shiftl 1 13.
Definition MAX_REF : Z := Z.shiftl 1 8 + Z.shiftl 1 3.

Definition FRST (inp : list byte) (p : Z) : option Z :=
  b0 ← getb inp p; b1 ← getb inp (p + 1); Some (Z.lor (Z.shiftl b0 8) b1).

Definition NEXT (v : Z) (inp : list byte) (p : Z) : option Z :=
  b2 ← getb inp (p + 2); Some (Z.lor (u32 (Z.shiftl v 8)) b2).

Definition IDX (h : Z) : Z :=
  Z.land (u32 (Z.shiftr h (3 * 8 - HLOG) - u32 (h * 5))) (HSIZE - 1).

(** The variables of [lzf_compress] that its loops change. *)
Record lzf_state := mkLz {
  lz_ip : Z;
  lz_op : Z;
  lz_lit : Z;
  lz_hval : Z;
  lz_htab : Z -> Z;
  lz_out : list byte
}.

(** Assignment to a slot of the hash table. *)
Definition htab_set (htab : Z -> Z) (i v : Z) : Z -> Z :=
  fun j => if j =? i then u32 v else htab j.

(** The copies of [len++; if (ref [len] != ip [len]) break;]: the length and
    whether a difference was found. *)
Fixpoint unrolled (n : nat) (inp : list byte) (ref ip len : Z) : option (Z * bool) :=
  match n with
  | O => Some (len, false)
  | S n =>
      let len := len + 1 in
      a ← getb inp (ref + len);
      b ← getb inp (ip + len);
      if negb (a =? b) then Some (len, true) else unrolled n inp ref ip len
  end.

(** [do len++; while (len < maxlen && ref[len] == ip[len]);] *)
Fixpoint match_tail (fuel : nat) (inp : list byte) (ref ip maxlen len : Z) : option Z :=
  match fuel with
  | O => None
  | S fuel =>
      let len := len + 1 in
      if len <? maxlen then
        a ← getb inp (ref + len);
        b ← getb inp (ip + len);
        if a =? b then match_tail fuel inp ref ip maxlen len else Some len
      else Some len
  end.

(** The [for (;;)] block: the number of equal bytes found. *)
Definition match_len (inp : list byte) (ref ip maxlen : Z) : option Z :=
  if maxlen >? 16 then
    r ← unrolled 16 inp ref ip 2;
    let '(len, stop) := r in
    if (stop : bool) then Some len
    else match_tail (S (Z.to_nat MAX_REF)) inp ref ip maxlen len
  else match_tail (S (Z.to_nat MAX_REF)) inp ref ip maxlen 2.

(** The comparison of the 16-bit values at [ref] and [ip]. *)
Definition same_u16 (inp : list byte) (ref ip : Z) : option bool :=
  a ← load inp ref 2; b ← load inp ip 2; Some (bool_decide (a = b)).

(** The condition of a match: [ref] is in the window and three bytes agree. *)
Definition is_match (inp : list byte) (ref ip : Z) : option bool :=
  let off := u64 (ip - ref - 1) in
  if negb (off <? MAX_OFF) then Some false
  else if negb (ref >? 0) then Some false
  else
    a ← getb inp (ref + 2);
    b ← getb inp (ip + 2);
    if negb (a =? b) then Some false else same_u16 inp ref ip.

(** [op [- lit - 1] = lit - 1] *)
Definition stop_run (out : list byte) (op lit : Z) : option (list byte) :=
  store out (op - lit - 1) [u8 (lit - 1)].

(** The back reference and the start of a new run: the output and [op]. *)
Definition emit_ref (out : list byte) (op off len : Z) : option (list byte * Z) :=
  r ← (if len <? 7 then
         out ← store out op [u8 (Z.shiftr off 8 + Z.shiftl len 5)];
         Some (out, op + 1)
       else
         out ← store out op [u8 (Z.shiftr off 8 + Z.shiftl 7 5)];
         out ← store out (op + 1) [u8 (len - 7)];
         Some (out, op + 2));
  let '(out, op) := r in
  out ← store out op [u8 off];
  Some (out, op + 1 + 1).

(** The branch where a match was found.  [inl] is the return value 0, with the
    output written so far; the flag is the [break] of the main loop. *)
Definition take_match (inp : list byte) (out_len ref : Z) (st : lzf_state) : option (list byte + lzf_state * bool) :=
  let in_len := Z.of_nat (length inp) in
  let ip := lz_ip st in
  let op := lz_op st in
  let lit := lz_lit st in
  let off := u64 (ip - ref - 1) in
  let maxlen := u32 (in_len - ip - 2) in
  let maxlen := if maxlen >? MAX_REF then MAX_REF else maxlen in
  let notlit := if lit =? 0 then 1 else 0 in
  if (op + 3 + 1 >=? out_len) && (op - notlit + 3 + 1 >=? out_len) then Some (inl (lz_out st))
  else
    out ← stop_run (lz_out st) op lit;
    let op := op - notlit in
    len ← match_len inp ref ip maxlen;
    let len := len - 2 in
    let ip := ip + 1 in
    r ← emit_ref out op off len;
    let '(out, op) := r in
    let ip := ip + (len + 1) in
    if ip >=? in_len - 2 then Some (inr (mkLz ip op 0 (lz_hval st) (lz_htab st) out, true))
    else
      let ip := ip - 1 - 1 in
      hval ← FRST inp ip;
      hval ← NEXT hval inp ip;
      let htab := htab_set (lz_htab st) (IDX hval) ip in
      let ip := ip + 1 in
      hval ← NEXT hval inp ip;
      let htab := htab_set htab (IDX hval) ip in
      let ip := ip + 1 in
      Some (inr (mkLz ip op 0 hval htab out, false)).

(** [lit++; *op++ = *ip++;] and the end of a run of [MAX_LIT] bytes. *)
Definition copy_literal (inp : list byte) (st : lzf_state) : option lzf_state :=
  let lit := lz_lit st + 1 in
  b ← getb inp (lz_ip st);
  out ← store (lz_out st) (lz_op st) [b];
  let op := lz_op st + 1 in
  let ip := lz_ip st + 1 in
  if lit =? MAX_LIT then
    out ← stop_run out op lit;
    Some (mkLz ip (op + 1) 0 (lz_hval st) (lz_htab st) out)
  else Some (mkLz ip op lit (lz_hval st) (lz_htab st) out).

(** The main loop; [inl] is the return value 0, with the output. *)
Fixpoint compress_loop (fuel : nat) (inp : list byte) (out_len : Z) (st : lzf_state) : option (list byte + lzf_state) :=
  if lz_ip st <? Z.of_nat (length inp) - 2 then
    match fuel with
    | O => None
    | S fuel =>
        let ip := lz_ip st in
        hval ← NEXT (lz_hval st) inp ip;
        let ref := lz_htab st (IDX hval) in
        let st := mkLz ip (lz_op st) (lz_lit st) hval (htab_set (lz_htab st) (IDX hval) ip) (lz_out st) in
        m ← is_match inp ref ip;
        if (m : bool) then
          r ← take_match inp out_len ref st;
          match r with
          | inl out => Some (inl out)
          | inr (st, true) => Some (inr st)
          | inr (st, false) => compress_loop fuel inp out_len st
          end
        else if lz_op st >=? out_len then Some (inl (lz_out st))
        else st ← copy_literal inp st; compress_loop fuel inp out_len st
    end
  else Some (inr st).

(** [while (ip < in_end)]: the last bytes. *)
Fixpoint last_literals (fuel : nat) (inp : list byte) (st : lzf_state) : option lzf_state :=
  if lz_ip st <? Z.of_nat (length inp) then
    match fuel with
    | O => None
    | S fuel => st ← copy_literal inp st; last_literals fuel inp st
    end
  else Some st.

(** The output block and the return value.  [uninit] are the contents of the
    hash table on the stack. *)
Definition lzf_compress (uninit : Z -> Z) (inp out : list byte) : option (list byte * Z) :=
  let in_len := Z.of_nat (length inp) in
  let out_len := Z.of_nat (length out) in
  if (in_len =? 0) || (out_len =? 0) then Some (out, 0)
  else
    hval ← FRST inp 0;
    r ← compress_loop (length inp) inp out_len (mkLz 0 1 0 hval (fun i => u32 (uninit i)) out);
    match r with
    | inl out => Some (out, 0)
    | inr st =>
        if lz_op st + 3 >? out_len then Some (lz_out st, 0)
        else
          st ← last_literals 3 inp st;
          out ← stop_run (lz_out st) (lz_op st) (lz_lit st);
          Some (out, u32 (lz_op st - (if lz_lit st =? 0 then 1 else 0)))
    end.

(** ** The decompressor *)

Inductive errno := E2BIG | EINVAL.

#[export] Instance errno_eq_dec : EqDecision errno.
Proof. solve_decision. Defined.

(** [n] times [*op++ = *ref++] within the output. *)
Fixpoint copy_octets (n : nat) (out : list byte) (op ref : Z) : option (list byte) :=
  match n with
  | O => Some out
  | S n =>
      b ← getb out ref;
      out ← store out op [b];
      copy_octets n out (op + 1) (ref + 1)
  end.

(** The [switch (len)] that copies a back reference. *)
Definition copy_ref (out : list byte) (op ref len : Z) : option (list byte) :=
  if (0 <=? len) && (len <=? 9) then copy_octets (Z.to_nat (len + 2)) out op ref
  else
    let len := len + 2 in
    if op >=? ref + len then bs ← load out ref len; store out op bs
    else copy_octets (Z.to_nat len) out op ref.

(** One round of the loop: the output with [ip] and [op], or the error. *)
Definition decompress_round (inp out : list byte) (ip op : Z) : option (list byte * Z * Z + errno) :=
  let in_end := Z.of_nat (length inp) in
  let out_end := Z.of_nat (length out) in
  ctrl ← getb inp ip;
  let ip := ip + 1 in
  if ctrl <? Z.shiftl 1 5 then
    let ctrl := ctrl + 1 in
    if op + ctrl >? out_end then Some (inr E2BIG)
    else if ip + ctrl >? in_end then Some (inr EINVAL)
    else
      bs ← load inp ip ctrl;
      out ← store out op bs;
      Some (inl (out, ip + ctrl, op + ctrl))
  else
    let len := Z.shiftr ctrl 5 in
    let ref := op - Z.shiftl (Z.land ctrl 31) 8 - 1 in
    if ip >=? in_end then Some (inr EINVAL)
    else
      r ← (if len =? 7 then
             b ← getb inp ip;
             let ip := ip + 1 in
             Some (len + b, ip, ip >=? in_end)
           else Some (len, ip, false));
      let '(len, ip, stop) := r in
      if (stop : bool) then Some (inr EINVAL)
      else
        b ← getb inp ip;
        let ip := ip + 1 in
        let ref := ref - b in
        if op + len + 2 >? out_end then Some (inr E2BIG)
        else if ref <? 0 then Some (inr EINVAL)
        else
          out ← copy_ref out op ref len;
          Some (inl (out, ip, op + (len + 2))).

(** [do { ... } while (ip < in_end)]: the output block and, when there is no
    error, [op].  On an error the block holds what the earlier rounds wrote. *)
Fixpoint decompress_loop (fuel : nat) (inp out : list byte) (ip op : Z) : option (list byte * (Z + errno)) :=
  match fuel with
  | O => None
  | S fuel =>
      r ← decompress_round inp out ip op;
      match r with
      | inr e => Some (out, inr e)
      | inl (out, ip, op) =>
          if ip <? Z.of_nat (length inp) then decompress_loop fuel inp out ip op
          else Some (out, inl op)
      end
  end.

(** The output block, the return value and [errno] when it is set. *)
Definition lzf_decompress (inp out : list byte) : option (list byte * Z * option errno) :=
  r ← decompress_loop (length inp) inp out 0 0;
  match r with
  | (out, inl op) => Some (out, u32 op, None)
  | (out, inr e) => Some (out, 0, Some e)
  end.

(** ** The compressed format *)

(** [s] repeats the bytes [off + 1] positions back, after the text [t]. *)
Definition repeats (t : list byte) (off : nat) (s : list byte) : Prop :=
  (off < length t)%nat /\
  forall i, (i < length s)%nat -> (t ++ s) !! (length t + i)%nat = (t ++ s) !! (length t + i - S off)%nat.

Definition ref_code (off len : nat) : list byte :=
  let o := Z.of_nat off in
  let n := Z.of_nat len - 2 in
  if n <? 7 then [o / 256 + n * 32; o mod 256] else [o / 256 + 224; n - 7; o mod 256].

(** [decodes c t]: the code [c] stands for the text [t]. *)
Inductive decodes : list byte -> list byte -> Prop :=
  | decodes_nil : decodes [] []
  | decodes_lit c t l : decodes c t -> (1 <= length l <= 32)%nat ->
      decodes (c ++ (Z.of_nat (length l) - 1) :: l) (t ++ l)
  | decodes_ref c t off s : decodes c t -> repeats t off s -> Z.of_nat off < MAX_OFF ->
      (3 <= length s <= 264)%nat -> decodes (c ++ ref_code off (length s)) (t ++ s).

Lemma repeats_cons t off x s : repeats t off (x :: s) ->
  t !! (length t - S off)%nat = Some x /\ repeats (t ++ [x]) off s.
Proof.
  intros [Ho H]. split.
  - pose proof (H 0%nat ltac:(simpl; lia)) as H0. rewrite Nat.add_0_r, list_lookup_middle in H0 by done.
    rewrite lookup_app_l in H0 by lia. done.
  - split; [rewrite length_app; simpl; lia|]. intros i Hi. specialize (H (S i) ltac:(simpl; lia)).
    rewrite length_app, <- app_assoc. simpl length. simpl app.
    by replace (length t + 1 + i)%nat with (length t + S i)%nat by lia.
Qed.

(** Copying forward octet by octet writes the repetition, also when source and
    target overlap. *)
Lemma copy_octets_spec s : forall t off q r, repeats t off s -> length q = length s ->
  copy_octets (length s) (t ++ q ++ r) (Z.of_nat (length t)) (Z.of_nat (length t) - Z.of_nat off - 1) =
    Some (t ++ s ++ r).
Proof.
  induction s as [|x s IH]; intros t off q r Hr Hq; destruct q as [|y q]; try done.
  destruct (repeats_cons _ _ _ _ Hr) as [Hx Hr']. destruct Hr as [Ho _]. cbn [length copy_octets].
  rewrite getb_Some by lia.
  replace (Z.to_nat _) with (length t - S off)%nat by lia.
  rewrite lookup_app_l, Hx by lia. cbn [mbind option_bind].
  change ((y :: q) ++ r) with ([y] ++ (q ++ r)). rewrite (store_app t [y] (q ++ r) [x]) by done.
  cbn [mbind option_bind].
  replace (t ++ [x] ++ q ++ r) with ((t ++ [x]) ++ q ++ r) by by rewrite <- app_assoc.
  replace (Z.of_nat (length t) + 1) with (Z.of_nat (length (t ++ [x]))) by (rewrite length_app; simpl; lia).
  replace (Z.of_nat (length t) - Z.of_nat off - 1 + 1)
    with (Z.of_nat (length (t ++ [x])) - Z.of_nat off - 1) by (rewrite length_app; simpl; lia).
  rewrite IH; [by rewrite <- app_assoc|done|by injection Hq].
Qed.

(** The three ways of copying agree. *)
Lemma copy_ref_spec s t off q r : repeats t off s -> length q = length s -> (2 <= length s)%nat ->
  copy_ref (t ++ q ++ r) (Z.of_nat (length t)) (Z.of_nat (length t) - Z.of_nat off - 1) (Z.of_nat (length s) - 2) =
    Some (t ++ s ++ r).
Proof.
  intros Hr Hq Hs. unfold copy_ref.
  replace (Z.of_nat (length s) - 2 + 2) with (Z.of_nat (length s)) by lia. rewrite Nat2Z.id.
  destruct ((_ <=? _) && _); [by apply copy_octets_spec|]. destruct (_ >=? _) eqn:Hd; [|by apply copy_octets_spec].
  zbool. pose proof Hr as [Ho Hrep]. rewrite load_Some by (rewrite ?length_app; lia). cbn [mbind option_bind].
  rewrite Nat2Z.id, drop_app_le, take_app_le by (rewrite ?length_drop; lia).
  assert (take (length s) (drop (Z.to_nat (Z.of_nat (length t) - Z.of_nat off - 1)) t) = s) as ->.
  { apply list_eq_same_length with (length s); [done|rewrite length_take, length_drop; lia|].
    intros i x y Hi Hx Hy. specialize (Hrep i Hi).
    rewrite lookup_app_r, Nat.add_sub', Hy, lookup_app_l in Hrep by lia.
    rewrite lookup_take_lt, lookup_drop in Hx by done.
    replace (Z.to_nat (Z.of_nat (length t) - Z.of_nat off - 1) + i)%nat with (length t + i - S off)%nat in Hx by lia.
    congruence. }
  by rewrite (store_app t q r s).
Qed.

Lemma decompress_lit c l r t q x : (1 <= length l <= 32)%nat -> length q = length l ->
  decompress_round (c ++ ((Z.of_nat (length l) - 1) :: l) ++ r) (t ++ q ++ x) (Z.of_nat (length c)) (Z.of_nat (length t)) =
    Some (inl (t ++ l ++ x, Z.of_nat (length c) + 1 + Z.of_nat (length l), Z.of_nat (length t) + Z.of_nat (length l))).
Proof.
  intros Hl Hq. unfold decompress_round. cbn [app]. rewrite (getb_app c _ _ (Z.of_nat (length c))) by done. cbn [mbind option_bind].
  change (Z.shiftl 1 5) with 32.
  rewrite (proj2 (Z.ltb_lt _ 32)) by lia. rewrite Z.sub_add.
  rewrite !Z.gtb_ltb, !(proj2 (Z.ltb_ge _ _)) by (rewrite !length_app; cbn [length]; rewrite ?length_app; lia).
  rewrite cons_middle, (app_assoc c). rewrite load_app by (rewrite ?length_app; simpl; lia). cbn [mbind option_bind].
  by rewrite (store_app t q x l).
Qed.

Lemma decompress_ref c r t off s q x : repeats t off s -> Z.of_nat off < MAX_OFF -> (3 <= length s <= 264)%nat ->
  length q = length s ->
  decompress_round (c ++ ref_code off (length s) ++ r) (t ++ q ++ x) (Z.of_nat (length c)) (Z.of_nat (length t)) =
    Some (inl (t ++ s ++ x, Z.of_nat (length c + length (ref_code off (length s))),
               Z.of_nat (length t) + Z.of_nat (length s))).
Proof.
  intros Hr Ho Hs Hq. change MAX_OFF with 8192 in Ho. pose proof Hr as [Hot _].
  assert (forall k, 0 <= k < 8 -> Z.shiftr (Z.of_nat off / 256 + k * 32) 5 = k /\
    Z.shiftl (Z.land (Z.of_nat off / 256 + k * 32) 31) 8 = Z.of_nat off / 256 * 256) as Hbits.
  { intros k Hk. change 31 with (Z.ones 5). rewrite Z.shiftr_div_pow2, Z.land_ones, Z.shiftl_mul_pow2 by lia.
    change (2 ^ 5) with 32. change (2 ^ 8) with 256. Z.to_euclidean_division_equations; lia. }
  unfold decompress_round, ref_code. change (Z.shiftl 1 5) with 32.
  set (o := Z.of_nat off) in *. set (n := Z.of_nat (length s)) in *.
  assert (0 <= o / 256 < 32 /\ 0 <= o mod 256 < 256 /\ o = o / 256 * 256 + o mod 256) as (Hdiv & Hmod & Heq)
    by (Z.to_euclidean_division_equations; lia).
  assert (forall z, z = n - 2 -> copy_ref (t ++ q ++ x) (Z.of_nat (length t))
     (Z.of_nat (length t) - o / 256 * 256 - 1 - o mod 256) z = Some (t ++ s ++ x)) as Hcopy.
  { intros z ->. rewrite <- (copy_ref_spec s t off q x) by (done || lia). f_equal; lia. }
  destruct (n - 2 <? 7) eqn:H7; zbool.
  - cbn [app]. rewrite (getb_app c _ _ (Z.of_nat (length c))) by done. cbn [mbind option_bind].
    destruct (Hbits (n - 2) ltac:(lia)) as [-> ->].
    rewrite (proj2 (Z.ltb_ge _ 32)) by lia.
    rewrite Z.geb_leb, (proj2 (Z.leb_gt _ _)) by (rewrite length_app; simpl; lia).
    rewrite (proj2 (Z.eqb_neq _ 7)) by lia. cbn [mbind option_bind].
    rewrite (cons_middle _ c), (app_assoc c), (getb_app (c ++ [_])) by (rewrite length_app; simpl; lia). cbn [mbind option_bind].
    rewrite Z.gtb_ltb, (proj2 (Z.ltb_ge _ _)) by (rewrite !length_app; lia).
    rewrite (proj2 (Z.ltb_ge _ _)) by lia. rewrite (Hcopy (n - 2)) by lia. cbn [mbind option_bind length].
    do 3 f_equal; [f_equal|]; lia.
  - cbn [app]. rewrite (getb_app c _ _ (Z.of_nat (length c))) by done. cbn [mbind option_bind].
    destruct (Hbits 7 ltac:(lia)) as [H1 H2]. change (7 * 32) with 224 in *. rewrite H1, H2.
    rewrite (proj2 (Z.ltb_ge _ 32)) by lia.
    rewrite Z.geb_leb, (proj2 (Z.leb_gt _ _)) by (rewrite length_app; simpl; lia).
    change (7 =? 7) with true. cbv iota.
    rewrite (cons_middle _ c), (app_assoc c), (getb_app (c ++ [_])) by (rewrite length_app; simpl; lia). cbn [mbind option_bind].
    rewrite Z.geb_leb, (proj2 (Z.leb_gt _ _)) by (rewrite !length_app; simpl; lia). 
    rewrite (cons_middle _ (c ++ [_])), (app_assoc (c ++ [_])), (getb_app ((c ++ [_]) ++ [_])) by (rewrite !length_app; simpl; lia). cbn [mbind option_bind].
    rewrite Z.gtb_ltb, (proj2 (Z.ltb_ge _ _)) by (rewrite !length_app; lia).
    rewrite (proj2 (Z.ltb_ge _ _)) by lia. rewrite (Hcopy (7 + (n - 2 - 7))) by lia. cbn [mbind option_bind length].
    do 3 f_equal; [f_equal|]; lia.
Qed.

Lemma ref_code_length off len : (2 <= length (ref_code off len) <= 3)%nat.
Proof. unfold ref_code. destruct (_ <? 7); simpl; lia. Qed.

(** The decompressor consumes a code and leaves its text at the start of the
    output. *)
Lemma decompress_decodes inp out c t : decodes c t -> forall rest, inp = c ++ rest -> inp <> [] ->
  (length t <= length out)%nat ->
  exists k, (k <= length c)%nat /\ forall fuel,
    decompress_loop (k + fuel) inp out 0 0 =
      if Z.of_nat (length c) <? Z.of_nat (length inp)
      then decompress_loop fuel inp (t ++ drop (length t) out) (Z.of_nat (length c)) (Z.of_nat (length t))
      else Some (t ++ drop (length t) out, inl (Z.of_nat (length t))).
Proof.
  intros Hd. induction Hd as [|c t l Hd IH Hl|c t off s Hd IH Hr Ho Hs]; intros rest Hin Hne Hout.
  - exists 0%nat. split; [simpl; lia|]. intros fuel.
    rewrite (proj2 (Z.ltb_lt _ _)); [done|]. destruct inp; [done|simpl; lia].
  - rewrite length_app in Hout. destruct (IH (((Z.of_nat (length l) - 1) :: l) ++ rest)) as (k & Hk & Hrun); [by rewrite Hin, <- app_assoc|done|lia|].
    exists (k + 1)%nat. split; [rewrite length_app; simpl; lia|]. intros fuel.
    rewrite <- Nat.add_assoc, Hrun, (proj2 (Z.ltb_lt _ _)) by (rewrite Hin, !length_app; simpl; lia).
    cbn [Nat.add decompress_loop].
    replace (drop (length t) out) with (take (length l) (drop (length t) out) ++ drop (length (t ++ l)) out)
      by (rewrite length_app, <- drop_drop; apply take_drop).
    pose proof (decompress_lit c l rest t (take (length l) (drop (length t) out)) (drop (length (t ++ l)) out) Hl
      ltac:(rewrite length_take, length_drop; lia)) as Hround.
    rewrite Hin, <- (app_assoc c). rewrite Hround. cbn [mbind option_bind].
    rewrite (app_assoc t l). rewrite !(length_app c), (length_app t l). cbn [length].
    replace (Z.of_nat (length c + S (length l))) with (Z.of_nat (length c) + 1 + Z.of_nat (length l)) by lia.
    by rewrite (Nat2Z.inj_add (length t)).
  - rewrite length_app in Hout. destruct (IH (ref_code off (length s) ++ rest)) as (k & Hk & Hrun); [by rewrite Hin, <- app_assoc|done|lia|].
    pose proof (ref_code_length off (length s)) as Hrc.
    exists (k + 1)%nat. split; [rewrite length_app; lia|]. intros fuel.
    rewrite <- Nat.add_assoc, Hrun, (proj2 (Z.ltb_lt _ _)) by (rewrite Hin, !length_app; lia).
    cbn [Nat.add decompress_loop].
    replace (drop (length t) out) with (take (length s) (drop (length t) out) ++ drop (length (t ++ s)) out)
      by (rewrite length_app, <- drop_drop; apply take_drop).
    pose proof (decompress_ref c rest t off s (take (length s) (drop (length t) out)) (drop (length (t ++ s)) out) Hr Ho Hs
      ltac:(rewrite length_take, length_drop; lia)) as Hround.
    rewrite Hin, <- (app_assoc c). rewrite Hround. cbn [mbind option_bind].
    rewrite (app_assoc t s). rewrite !(length_app c), (length_app t s).
    by rewrite (Nat2Z.inj_add (length t)).
Qed.

Lemma lzf_decompress_decodes c t out : decodes c t -> c <> [] -> (length t <= length out)%nat ->
  Z.of_nat (length t) < 2 ^ 32 ->
  lzf_decompress c out = Some (t ++ drop (length t) out, Z.of_nat (length t), None).
Proof.
  intros Hd Hc Hout Hlt. destruct (decompress_decodes c out c t Hd [] (eq_sym (app_nil_r c)) Hc Hout) as (k & Hk & Hrun).
  unfold lzf_decompress. replace (length c) with (k + (length c - k))%nat by lia.
  rewrite Hrun, Z.ltb_irrefl. cbn [mbind option_bind]. by rewrite uwrap_small by lia.
Qed.

(** *** Any input at all *)

Lemma copy_octets_safe n : forall out op ref, 0 <= ref < op -> op + Z.of_nat n <= Z.of_nat (length out) ->
  exists out', copy_octets n out op ref = Some out' /\ length out' = length out /\
    take (Z.to_nat op) out' = take (Z.to_nat op) out /\
    drop (Z.to_nat op + n) out' = drop (Z.to_nat op + n) out.
Proof.
  induction n as [|n IH]; intros out op ref Hr Ho; [by exists out|]. cbn [copy_octets].
  rewrite getb_Some by lia. destruct (lookup_lt_is_Some_2 out (Z.to_nat ref)) as [b ->]; [lia|]. cbn [mbind option_bind].
  rewrite store_Some by (simpl; lia). cbn [mbind option_bind]. set (out1 := _ ++ [b] ++ _).
  assert (length out1 = length out) as Hl1 by (subst out1; rewrite !length_app, length_take, length_drop; simpl; lia).
  assert (take (Z.to_nat op) out1 = take (Z.to_nat op) out) as Ht1
    by (subst out1; rewrite take_app_le, take_take by (rewrite length_take; lia); f_equal; lia).
  assert (drop (Z.to_nat op + 1) out1 = drop (Z.to_nat op + 1) out) as Hd1.
  { subst out1. rewrite app_assoc, drop_app_length'; [done|]. rewrite length_app, length_take. simpl; lia. }
  destruct (IH out1 (op + 1) (ref + 1)) as (out' & -> & Hl & Ht & Hd); [lia|lia|]. exists out'. split_and!.
  - done.
  - lia.
  - apply (f_equal (take (Z.to_nat op))) in Ht. rewrite !take_take in Ht.
    replace (Z.to_nat op `min` Z.to_nat (op + 1))%nat with (Z.to_nat op) in Ht by lia. congruence.
  - replace (Z.to_nat op + S n)%nat with (Z.to_nat (op + 1) + n)%nat by lia. rewrite Hd.
    replace (Z.to_nat (op + 1) + n)%nat with ((Z.to_nat op + 1) + n)%nat by lia.
    by rewrite <- !(drop_drop _ _ (Z.to_nat op + 1)), Hd1.
Qed.

Lemma store_safe (out bs : list byte) op : 0 <= op -> op + Z.of_nat (length bs) <= Z.of_nat (length out) ->
  exists out', store out op bs = Some out' /\ length out' = length out /\
    take (Z.to_nat op) out' = take (Z.to_nat op) out /\
    drop (Z.to_nat op + length bs) out' = drop (Z.to_nat op + length bs) out.
Proof.
  intros Ho Hb. rewrite store_Some by lia. eexists. split_and!; [done|..].
  - rewrite !length_app, length_take, length_drop. lia.
  - rewrite take_app_le, take_take by (rewrite length_take; lia). f_equal; lia.
  - rewrite app_assoc, drop_app_length'; [done|]. rewrite length_app, length_take. lia.
Qed.

Lemma copy_ref_safe out op ref len : 0 <= ref < op -> 0 <= len -> op + len + 2 <= Z.of_nat (length out) ->
  exists out', copy_ref out op ref len = Some out' /\ length out' = length out /\
    take (Z.to_nat op) out' = take (Z.to_nat op) out /\
    drop (Z.to_nat (op + (len + 2))) out' = drop (Z.to_nat (op + (len + 2))) out.
Proof.
  intros Hr Hl Ho. unfold copy_ref.
  assert (exists out', copy_octets (Z.to_nat (len + 2)) out op ref = Some out' /\ length out' = length out /\
    take (Z.to_nat op) out' = take (Z.to_nat op) out /\
    drop (Z.to_nat (op + (len + 2))) out' = drop (Z.to_nat (op + (len + 2))) out) as Hoct.
  { destruct (copy_octets_safe (Z.to_nat (len + 2)) out op ref) as (o & ? & ? & ? & ?); [lia|lia|].
    exists o. by rewrite !(Z2Nat.inj_add op) by lia. }
  destruct ((_ <=? _) && _); [done|]. destruct (_ >=? _) eqn:Hd; [|done]. zbool.
  rewrite load_Some by lia. cbn [mbind option_bind]. set (bs := take _ _).
  assert (Z.of_nat (length bs) = len + 2) as Hbs by (subst bs; rewrite length_take, length_drop; lia).
  destruct (store_safe out bs op) as (o & ? & ? & ? & ?); [lia|lia|]. exists o.
  replace (Z.to_nat (op + (len + 2))) with (Z.to_nat op + length bs)%nat by lia. done.
Qed.

(** A round stays within both blocks and makes progress. *)
Lemma decompress_round_safe inp out ip op : bytes_ok inp -> 0 <= ip < Z.of_nat (length inp) ->
  0 <= op <= Z.of_nat (length out) ->
  exists r, decompress_round inp out ip op = Some r /\
    forall out' ip' op', r = inl (out', ip', op') ->
      length out' = length out /\ ip < ip' <= Z.of_nat (length inp) /\ op < op' <= Z.of_nat (length out) /\
      drop (Z.to_nat op') out' = drop (Z.to_nat op') out.
Proof.
  intros Hb Hip Hop. unfold decompress_round.
  assert (forall i, 0 <= i < Z.of_nat (length inp) -> exists b, getb inp i = Some b /\ is_byte b) as Hget.
  { intros i Hi. rewrite getb_Some by lia. destruct (lookup_lt_is_Some_2 inp (Z.to_nat i)) as [b Hlk]; [lia|].
    exists b. split; [done|]. by eapply Forall_lookup_1 in Hb. }
  destruct (Hget ip) as (ctrl & -> & Hctrl); [lia|]. unfold is_byte in Hctrl. cbn [mbind option_bind].
  change (Z.shiftl 1 5) with 32.
  assert (Z.shiftr ctrl 5 = ctrl / 32 /\ Z.shiftl (Z.land ctrl 31) 8 = ctrl mod 32 * 256) as [-> ->].
  { change 31 with (Z.ones 5). by rewrite Z.shiftr_div_pow2, Z.land_ones, Z.shiftl_mul_pow2 by lia. }
  destruct (ctrl <? 32) eqn:H32; zbool.
  - destruct (op + (ctrl + 1) >? Z.of_nat (length out)) eqn:H1; [by exists (inr E2BIG)|].
    destruct (ip + 1 + (ctrl + 1) >? Z.of_nat (length inp)) eqn:H2; [by exists (inr EINVAL)|]. zbool.
    rewrite load_Some by lia. cbn [mbind option_bind]. set (bs := take _ _).
    assert (Z.of_nat (length bs) = ctrl + 1) as Hbs by (subst bs; rewrite length_take, length_drop; lia).
    destruct (store_safe out bs op) as (o & -> & ? & ? & Hd); [lia|lia|]. eexists. split; [done|].
    intros ??? [= <- <- <-]. split_and!; try lia.
    by replace (Z.to_nat (op + (ctrl + 1))) with (Z.to_nat op + length bs)%nat by lia.
  - assert (1 <= ctrl / 32 <= 7 /\ 0 <= ctrl mod 32 < 32) as [Hq Hm] by (Z.to_euclidean_division_equations; lia).
    destruct (ip + 1 >=? _) eqn:H1; [by exists (inr EINVAL)|]. zbool.
    assert (exists len ip1 stop, (if ctrl / 32 =? 7 then b ← getb inp (ip + 1);
         Some (ctrl / 32 + b, ip + 1 + 1, ip + 1 + 1 >=? Z.of_nat (length inp)) else Some (ctrl / 32, ip + 1, false)) =
       Some (len, ip1, stop) /\ 1 <= len /\ ip < ip1 /\ (stop = false -> ip1 < Z.of_nat (length inp))) as (len & ip1 & stop & -> & Hlen & Hi1 & Hstop).
    { destruct (_ =? 7).
      - destruct (Hget (ip + 1)) as (b & -> & Hb1); [lia|]. cbn [mbind option_bind]. unfold is_byte in Hb1.
        do 3 eexists. split; [done|]. split_and!; [lia|lia|]. intros. zlia.
      - do 3 eexists. split; [done|]. split_and!; lia. }
    cbn [mbind option_bind]. destruct stop; [by exists (inr EINVAL)|]. specialize (Hstop eq_refl).
    destruct (Hget ip1) as (b & -> & Hb1); [lia|]. cbn [mbind option_bind]. unfold is_byte in Hb1.
    destruct (op + len + 2 >? _) eqn:H2; [by exists (inr E2BIG)|].
    destruct (op - ctrl mod 32 * 256 - 1 - b <? 0) eqn:H3; [by exists (inr EINVAL)|]. zbool.
    destruct (copy_ref_safe out op (op - ctrl mod 32 * 256 - 1 - b) len) as (o & -> & ? & ? & ?); [lia|lia|lia|].
    eexists. split; [done|]. intros ??? [= <- <- <-]. split_and!; try done; lia.
Qed.

Lemma decompress_loop_safe inp fuel : forall out ip op, bytes_ok inp -> 0 <= ip < Z.of_nat (length inp) ->
  0 <= op <= Z.of_nat (length out) -> Z.of_nat (length inp) - ip <= Z.of_nat fuel ->
  exists out' r, decompress_loop fuel inp out ip op = Some (out', r) /\ length out' = length out /\
    forall n, r = inl n -> op < n <= Z.of_nat (length out) /\ drop (Z.to_nat n) out' = drop (Z.to_nat n) out.
Proof.
  induction fuel as [|fuel IH]; intros out ip op Hb Hip Hop Hf; [lia|]. cbn [decompress_loop].
  destruct (decompress_round_safe inp out ip op Hb Hip Hop) as (r & -> & Hr). cbn [mbind option_bind].
  destruct r as [[[out1 ip1] op1]|e]; [|by exists out, (inr e)].
  destruct (Hr _ _ _ eq_refl) as (Hl & Hi & Ho & Hd).
  destruct (ip1 <? _) eqn:Hlt; zbool.
  - destruct (IH out1 ip1 op1) as (o & r & -> & Hl2 & Hn); [done|lia|lia|lia|]. exists o, r. split_and!; [done|lia|].
    intros n ->. destruct (Hn n eq_refl) as [Hn1 Hn2]. split; [lia|]. rewrite Hn2.
    replace (Z.to_nat n) with (Z.to_nat op1 + (Z.to_nat n - Z.to_nat op1))%nat by lia.
    rewrite <- !(drop_drop _ _ (Z.to_nat op1)). by rewrite Hd.
  - exists out1, (inl op1). split_and!; [done|done|]. intros n [= <-]. done.
Qed.

(** ** Correctness of the compressor *)

Definition agree (inp : list byte) (r p k : nat) : Prop :=
  forall i, (i < k)%nat -> inp !! (r + i)%nat = inp !! (p + i)%nat.

Lemma agree_snoc inp r p k a b : agree inp r p k -> inp !! (r + k)%nat = Some a -> inp !! (p + k)%nat = Some b ->
  a = b -> agree inp r p (S k).
Proof.
  intros Ha Hr Hp -> i Hi. destruct (decide (i = k)) as [->|]; [congruence|]. apply Ha. lia.
Qed.

Lemma getb_in_range inp r k : (r + k < length inp)%nat ->
  exists b, getb inp (Z.of_nat r + Z.of_nat k) = Some b /\ inp !! (r + k)%nat = Some b.
Proof.
  intros H. rewrite getb_Some by lia. replace (Z.to_nat _) with (r + k)%nat by lia.
  destruct (lookup_lt_is_Some_2 inp (r + k)) as [b ->]; [done|]. by exists b.
Qed.

Lemma unrolled_spec inp r p n : forall k, (r < p)%nat -> (p + k + n < length inp)%nat -> agree inp r p (S k) ->
  exists k' stop, unrolled n inp (Z.of_nat r) (Z.of_nat p) (Z.of_nat k) = Some (Z.of_nat k', stop) /\
    (k <= k' <= k + n)%nat /\ (if (stop : bool) then (k < k')%nat /\ agree inp r p k' else k' = (k + n)%nat /\ agree inp r p (S k')).
Proof.
  induction n as [|n IH]; intros k Hrp Hlen Ha; cbn [unrolled].
  { exists k, false. split; [done|]. split; [lia|]. by split; [lia|]. }
  replace (Z.of_nat k + 1) with (Z.of_nat (S k)) by lia.
  destruct (getb_in_range inp r (S k)) as (a & -> & Hr); [lia|].
  destruct (getb_in_range inp p (S k)) as (b & -> & Hp); [lia|]. cbn [mbind option_bind].
  destruct (a =? b) eqn:Hab; cbn [negb]; zbool.
  - destruct (IH (S k)) as (k' & stop & -> & Hk & Hs); [done|lia|by eapply agree_snoc|].
    exists k', stop. split; [done|]. split; [lia|]. destruct stop; [split; [lia|tauto]|].
    destruct Hs as [-> ?]. split; [lia|done].
  - exists (S k), true. split; [done|]. split; [lia|]. split; [lia|done].
Qed.

Lemma match_tail_spec inp r p fuel : forall k m, (r < p)%nat -> (p + m <= length inp)%nat ->
  agree inp r p (S k) -> (m - k < fuel)%nat ->
  exists k', match_tail fuel inp (Z.of_nat r) (Z.of_nat p) (Z.of_nat m) (Z.of_nat k) = Some (Z.of_nat k') /\
    (k < k' <= Nat.max (S k) m)%nat /\ agree inp r p k'.
Proof.
  induction fuel as [|fuel IH]; intros k m Hrp Hlen Ha Hf; [lia|]. cbn [match_tail].
  replace (Z.of_nat k + 1) with (Z.of_nat (S k)) by lia.
  destruct (_ <? _) eqn:Hlt; zbool.
  - destruct (getb_in_range inp r (S k)) as (a & -> & Hr); [lia|].
    destruct (getb_in_range inp p (S k)) as (b & -> & Hp); [lia|]. cbn [mbind option_bind].
    destruct (a =? b) eqn:Hab; zbool.
    + destruct (IH (S k) m) as (k' & -> & Hk & Hag); [done|lia|by eapply agree_snoc|lia|].
      exists k'. split; [done|]. split; [lia|done].
    + exists (S k). split; [done|]. split; [lia|done].
  - exists (S k). split; [done|]. split; [lia|done].
Qed.

Lemma match_len_spec inp r p m : (r < p)%nat -> (p + 3 <= length inp)%nat -> agree inp r p 3 ->
  Z.of_nat m = Z.min MAX_REF (Z.of_nat (length inp) - Z.of_nat p - 2) ->
  exists k, match_len inp (Z.of_nat r) (Z.of_nat p) (Z.of_nat m) = Some (Z.of_nat k) /\
    (3 <= k <= 264)%nat /\ (p + k <= length inp)%nat /\ agree inp r p k.
Proof.
  intros Hrp Hp Ha Hm. change MAX_REF with 264 in *. unfold match_len.
  destruct (_ >? _) eqn:H16; zbool.
  - destruct (unrolled_spec inp r p 16 2) as (k & stop & Hu & Hk & Hs); [done|lia|done|].
    change (Z.of_nat 2) with 2 in Hu. rewrite Hu. cbn [mbind option_bind].
    destruct stop; [exists k; split; [done|]; split_and!; [lia|lia|lia|tauto]|]. destruct Hs as [-> Hs].
    destruct (match_tail_spec inp r p (S (Z.to_nat MAX_REF)) (2 + 16) m) as (k' & -> & Hk' & Hag);
      [done|lia|done|change MAX_REF with 264; lia|].
    exists k'. split; [done|]. split_and!; [lia|lia|lia|done].
  - destruct (match_tail_spec inp r p (S (Z.to_nat MAX_REF)) 2 m) as (k' & Ht & Hk' & Hag);
      [done|lia|done|change MAX_REF with 264; lia|].
    change (Z.of_nat 2) with 2 in Ht. rewrite Ht. exists k'. split; [done|]. split_and!; [lia|lia|lia|done].
Qed.

(** A match is a repetition. *)
Lemma agree_repeats inp r p k : (r < p)%nat -> (p + k <= length inp)%nat -> agree inp r p k ->
  repeats (take p inp) (p - r - 1) (take k (drop p inp)).
Proof.
  intros Hrp Hlen Ha. assert (length (take p inp) = p) as Hl by (rewrite length_take; lia).
  split; [lia|]. rewrite Hl, length_take, length_drop. intros i Hi.
  rewrite take_take_drop, !lookup_take_lt by lia.
  replace (p + i - S (p - r - 1))%nat with (r + i)%nat by lia. symmetry. apply Ha. lia.
Qed.

Lemma is_match_spec inp ref p : (p + 3 <= length inp)%nat -> Z.of_nat (length inp) < 2 ^ 32 -> 0 <= ref < 2 ^ 32 ->
  exists m, is_match inp ref (Z.of_nat p) = Some m /\
    (m = true -> exists r, ref = Z.of_nat r /\ (r < p)%nat /\ Z.of_nat p - ref - 1 < MAX_OFF /\ agree inp r p 3).
Proof.
  intros Hp Hin Hr. unfold is_match. destruct (_ <? MAX_OFF) eqn:Hoff; [|by exists false]. zbool.
  assert (ref < Z.of_nat p) as Hlt.
  { destruct (decide (ref < Z.of_nat p)); [done|]. unfold uwrap in Hoff. exfalso.
    change MAX_OFF with 8192 in Hoff. rewrite <- (Z_mod_plus_full _ 1) in Hoff.
    rewrite Z.mod_small in Hoff; lia. }
  rewrite uwrap_small in Hoff by lia. cbn [negb].
  destruct (ref >? 0) eqn:Hpos; [|by exists false]. zbool. cbn [negb].
  destruct (getb_in_range inp (Z.to_nat ref) 2) as (a & Ha & Hla); [lia|].
  destruct (getb_in_range inp p 2) as (b & Hb & Hlb); [lia|].
  rewrite Z2Nat.id in Ha by lia. change (Z.of_nat 2) with 2 in *. rewrite Ha, Hb. cbn [mbind option_bind].
  destruct (a =? b) eqn:Hab; [|by exists false]. zbool. cbn [negb]. unfold same_u16.
  rewrite !load_Some by lia. cbn [mbind option_bind]. eexists. split; [done|].
  intros H16%bool_decide_eq_true_1. exists (Z.to_nat ref). split_and!; [lia|lia|lia|].
  eapply agree_snoc; [|done|done|done]. intros i Hi. rewrite Nat2Z.id in H16.
  apply (f_equal (.!! i)) in H16. rewrite !lookup_take_lt, !lookup_drop in H16 by lia. done.
Qed.

(** The state of the compressor after [p] bytes of input: the output starts with a
    code [c] of the text [t], followed by an unfinished run of the literals [l].
    Codes are at most 33/32 times as long as their texts. *)
Record lz_inv (inp : list byte) (olen : nat) (st : lzf_state) (p : nat) (c t l : list byte) : Prop := {
  inv_ip : lz_ip st = Z.of_nat p;
  inv_in : (p <= length inp)%nat;
  inv_text : take p inp = t ++ l;
  inv_code : decodes c t;
  inv_lit : lz_lit st = Z.of_nat (length l);
  inv_run : (length l < 32)%nat;
  inv_op : lz_op st = Z.of_nat (length c) + 1 + Z.of_nat (length l);
  inv_len : length (lz_out st) = olen;
  inv_out : exists q, lz_out st = c ++ q /\ (l = [] \/ exists h r, q = h :: l ++ r);
  inv_htab : forall j, 0 <= lz_htab st j < 2 ^ 32;
  inv_size : (32 * length c <= 33 * length t)%nat
}.

Lemma inv_room inp olen st p c t l n : lz_inv inp olen st p c t l -> (length c + 1 + length l + n <= olen)%nat ->
  exists h x r, lz_out st = c ++ h :: l ++ x ++ r /\ length x = n.
Proof.
  intros [? ? ? ? ? ? ? Hlen (q & Hq & Hl) ? ?] Hn. rewrite Hq, length_app in Hlen.
  assert (exists h r, q = h :: l ++ r) as (h & r & ->).
  { destruct Hl as [->|?]; [|done]. destruct q as [|h r]; [simpl in *; lia|]. by exists h, r. }
  cbn [length] in Hlen. rewrite length_app in Hlen.
  exists h, (take n r), (drop n r). rewrite take_drop. split; [done|]. rewrite length_take. lia.
Qed.

(** What the code becomes when the run of literals ends. *)
Definition end_run (c l : list byte) : list byte :=
  match l with [] => c | _ => c ++ (Z.of_nat (length l) - 1) :: l end.

Lemma end_run_decodes c t l : decodes c t -> (length l <= 32)%nat -> decodes (end_run c l) (t ++ l).
Proof.
  intros Hd Hl. destruct l as [|x l]; [by rewrite app_nil_r|]. apply decodes_lit; [done|]. simpl in *; lia.
Qed.

Lemma end_run_length c l :
  Z.of_nat (length (end_run c l)) = Z.of_nat (length c) + 1 + Z.of_nat (length l) - (if Z.of_nat (length l) =? 0 then 1 else 0).
Proof. destruct l; cbn [end_run length]; [change (Z.of_nat 0 =? 0) with true; cbv iota; lia|]. rewrite length_app. cbn [length]. case_match; zlia. Qed.

Lemma stop_run_spec c h l r op : (length l <= 32)%nat -> op = Z.of_nat (length c) + 1 + Z.of_nat (length l) ->
  exists q, stop_run (c ++ h :: l ++ r) op (Z.of_nat (length l)) = Some (end_run c l ++ q) /\
    (length q = length r + if (length l =? 0)%nat then 1 else 0)%nat.
Proof.
  intros Hl ->. unfold stop_run.
  replace (_ + _ - _ - _) with (Z.of_nat (length c)) by lia.
  change (c ++ h :: l ++ r) with (c ++ [h] ++ (l ++ r)). rewrite (store_app c [h] (l ++ r)) by done.
  destruct l as [|x l].
  - eexists. split; [done|]. simpl. lia.
  - exists r. split; [|simpl; lia]. cbn [end_run]. rewrite <- app_assoc. cbn [app].
    rewrite uwrap_small by (simpl in *; lia). done.
Qed.

Lemma take_snoc (inp : list byte) p b : inp !! p = Some b -> take (p + 1) inp = take p inp ++ [b].
Proof. intros. rewrite Nat.add_1_r. by apply take_S_r. Qed.

Lemma copy_literal_spec inp olen st p c t l : lz_inv inp olen st p c t l -> (p < length inp)%nat ->
  (length c + 1 + length l < olen)%nat ->
  exists st' c' t' l', copy_literal inp st = Some st' /\ lz_inv inp olen st' (p + 1) c' t' l' /\
    (length c' + length l' <= length c + length l + 1 + (if (length l =? 31)%nat then 1 else 0))%nat /\
    (length l = 31%nat -> l' = []).
Proof.
  intros Hinv Hp Ho. destruct (inv_room _ _ _ _ _ _ _ 1 Hinv ltac:(lia)) as (h & x & r & Hout & Hx).
  destruct x as [|x [|]]; try done. destruct Hinv as [Hip Hin Htext Hcode Hlit Hrun Hop Hlen _ Htab Hsize].
  unfold copy_literal. destruct (lookup_lt_is_Some_2 inp p) as [b Hb]; [done|].
  rewrite Hip, getb_Some, Nat2Z.id, Hb by lia. cbn [mbind option_bind].
  assert (store (lz_out st) (lz_op st) [b] = Some (c ++ h :: (l ++ [b]) ++ r)) as ->.
  { rewrite Hout, Hop. replace (c ++ h :: l ++ [x] ++ r) with ((c ++ h :: l) ++ [x] ++ r) by by rewrite <- app_assoc.
    rewrite store_app; [|rewrite length_app; simpl; lia|done]. by rewrite <- !app_assoc. }
  cbn [mbind option_bind]. rewrite Hlit.
  assert (length (c ++ h :: (l ++ [b]) ++ r) = olen) as Hlen'.
  { rewrite <- Hlen, Hout, !length_app. cbn [length]. rewrite !length_app. simpl; lia. }
  assert (take (p + 1) inp = t ++ l ++ [b]) as Htext' by (rewrite (take_snoc _ _ b), Htext, app_assoc by done; done).
  replace (Z.of_nat (length l) + 1) with (Z.of_nat (length (l ++ [b]))) by (rewrite length_app; simpl; lia).
  destruct (_ =? MAX_LIT) eqn:H32; change MAX_LIT with 32 in H32; zbool; rewrite length_app in H32; cbn [length] in H32.
  - destruct (stop_run_spec c h (l ++ [b]) r (lz_op st + 1)) as (q & -> & Hq);
      [rewrite length_app; simpl; lia|rewrite length_app; simpl; lia|]. cbn [mbind option_bind].
    eexists _, (end_run c (l ++ [b])), (t ++ (l ++ [b])), []. split; [done|].
    assert (length (end_run c (l ++ [b])) = length c + 33)%nat as Hlc.
    { pose proof (end_run_length c (l ++ [b])) as He. rewrite length_app in He. simpl length in He.
      destruct (_ =? 0) eqn:?; zbool; lia. }
    split; [|split; [|done]; replace (length l) with 31%nat by lia; simpl; lia].
    split; cbn; try done; try lia.
    + by rewrite app_nil_r.
    + apply end_run_decodes; [done|]. rewrite length_app. simpl; lia.
    + rewrite <- Hlen', !length_app. cbn [length]. rewrite !length_app. rewrite Hlc, Hq, length_app. simpl.
      destruct (length l + 1)%nat eqn:?; simpl; lia.
    + exists q. split; [done|by left].
    + rewrite Hlc, !length_app. simpl. lia.
  - eexists _, c, t, (l ++ [b]). split; [done|].
    split; [|rewrite length_app; split; [simpl; lia|lia]].
    split; cbn; try done; try (rewrite ?length_app; simpl; lia).
    exists (h :: (l ++ [b]) ++ r). split; [done|]. right. by exists h, r.
Qed.

Lemma emit_ref_spec c q off len : (3 <= length q)%nat -> Z.of_nat off < MAX_OFF -> (3 <= len <= 264)%nat ->
  exists q', emit_ref (c ++ q) (Z.of_nat (length c)) (Z.of_nat off) (Z.of_nat len - 2) =
    Some (c ++ ref_code off len ++ q', Z.of_nat (length c) + Z.of_nat (length (ref_code off len)) + 1) /\
    (length (ref_code off len) + length q' = length q)%nat.
Proof.
  intros Hq Ho Hl. change MAX_OFF with 8192 in Ho. destruct q as [|x [|y [|z q]]]; try (simpl in Hq; lia).
  unfold emit_ref, ref_code. set (o := Z.of_nat off) in *. set (n := Z.of_nat len - 2).
  rewrite !Z.shiftr_div_pow2, !Z.shiftl_mul_pow2 by lia. change (2 ^ 8) with 256. change (2 ^ 5) with 32.
  change (7 * 32) with 224.
  assert (0 <= o / 256 < 32) by (Z.to_euclidean_division_equations; lia).
  change (u8 o) with (o mod 256).
  destruct (n <? 7) eqn:H7; zbool; rewrite !uwrap_small by (change (2 ^ 8) with 256; lia).
  - rewrite (store_app c [x] (y :: z :: q)) by done. cbn [mbind option_bind].
    rewrite (app_assoc c). change (y :: z :: q) with ([y] ++ (z :: q)).
    rewrite store_app; [|rewrite length_app; simpl; lia|done]. cbn [mbind option_bind].
    rewrite <- app_assoc. exists (z :: q). split; [|simpl; lia]. do 2 f_equal. simpl; lia.
  - rewrite (store_app c [x] (y :: z :: q)) by done. cbn [mbind option_bind].
    rewrite (app_assoc c). change (y :: z :: q) with ([y] ++ (z :: q)).
    rewrite store_app; [|rewrite length_app; simpl; lia|done]. cbn [mbind option_bind].
    rewrite (app_assoc (c ++ _)). change (z :: q) with ([z] ++ q).
    rewrite store_app; [|rewrite !length_app; simpl; lia|done]. cbn [mbind option_bind].
    rewrite <- !app_assoc. exists q. split; [|simpl; lia]. do 2 f_equal. simpl; lia.
Qed.

Lemma htab_set_ok htab i v : (forall j, 0 <= htab j < 2 ^ 32) -> forall j, 0 <= htab_set htab i v j < 2 ^ 32.
Proof. intros H j. unfold htab_set. destruct (_ =? _); [by apply uwrap_range|done]. Qed.

Lemma FRST_Some inp p : 0 <= p -> p + 1 < Z.of_nat (length inp) -> exists v, FRST inp p = Some v.
Proof.
  intros Hp Hl. unfold FRST. rewrite !getb_Some by lia.
  destruct (lookup_lt_is_Some_2 inp (Z.to_nat p)) as [a ->]; [lia|].
  destruct (lookup_lt_is_Some_2 inp (Z.to_nat (p + 1))) as [b ->]; [lia|]. by eexists.
Qed.

Lemma NEXT_Some v inp p : 0 <= p -> p + 2 < Z.of_nat (length inp) -> exists h, NEXT v inp p = Some h.
Proof.
  intros Hp Hl. unfold NEXT. rewrite !getb_Some by lia.
  destruct (lookup_lt_is_Some_2 inp (Z.to_nat (p + 2))) as [b ->]; [lia|]. by eexists.
Qed.

(** The output is too short for the input: the only reason to give up. *)
Definition too_short (inp : list byte) (olen : nat) : Prop :=
  (32 * olen <= 33 * length inp + 160)%nat.

Lemma take_match_spec inp olen st p r c t l : lz_inv inp olen st p c t l -> (r < p)%nat ->
  (p + 3 <= length inp)%nat -> Z.of_nat (length inp) < 2 ^ 32 -> Z.of_nat p - Z.of_nat r - 1 < MAX_OFF -> agree inp r p 3 ->
  exists res, take_match inp (Z.of_nat olen) (Z.of_nat r) st = Some res /\
    match res with
    | inl out => length out = olen /\ too_short inp olen
    | inr (st', stop) => exists p' c', (p < p')%nat /\ lz_inv inp olen st' p' c' (take p' inp) [] /\
        (stop = true -> (length inp - 2 <= p')%nat)
    end.
Proof.
  intros Hinv Hrp Hp Hin Ho Ha. unfold take_match. pose proof (inv_room _ _ _ _ _ _ _ 3 Hinv) as Hroom.
  destruct Hinv as [Hip Hin' Htext Hcode Hlit Hrun Hop Hlen Hout Htab Hsize]. rewrite Hip, Hlit.
  pose proof (end_run_length c l) as Her. set (nl := if Z.of_nat (length l) =? 0 then 1 else 0) in *.
  assert (0 <= nl <= 1) by (subst nl; case_match; lia).
  assert (length t + length l = p)%nat as Hpl by (rewrite <- length_app, <- Htext, length_take; lia).
  destruct ((_ >=? _) && _) eqn:Hfull.
  { zbool. exists (inl (lz_out st)). split; [done|]. split; [done|]. unfold too_short. lia. }
  assert (length (end_run c l) + 4 < olen)%nat as Hfree by (apply andb_false_iff in Hfull as [?|?]; zlia).
  destruct Hroom as (h & x & r0 & Ho' & Hx); [lia|].
  destruct (stop_run_spec c h l (x ++ r0) (lz_op st)) as (q & Hstop & Hq); [lia|lia|].
  rewrite Ho', Hstop. cbn [mbind option_bind]. clear Hout.
  assert (length (end_run c l ++ q) = olen) as Hlen1.
  { rewrite <- Hlen, Ho', !length_app. cbn [length]. rewrite !length_app, Hq, length_app.
    destruct l; simpl in *; lia. }
  replace (u64 (Z.of_nat p - Z.of_nat r - 1)) with (Z.of_nat (p - r - 1)) by (rewrite uwrap_small; lia).
  rewrite (uwrap_small 32) by lia.
  replace (if Z.of_nat (length inp) - Z.of_nat p - 2 >? MAX_REF then MAX_REF else Z.of_nat (length inp) - Z.of_nat p - 2)
    with (Z.of_nat (Z.to_nat (Z.min MAX_REF (Z.of_nat (length inp) - Z.of_nat p - 2))))
    by (change MAX_REF with 264; destruct (_ >? _) eqn:?; zlia).
  destruct (match_len_spec inp r p (Z.to_nat (Z.min MAX_REF (Z.of_nat (length inp) - Z.of_nat p - 2))))
    as (k & -> & Hk & Hpk & Hag); [done|done|done|change MAX_REF with 264; lia|]. cbn [mbind option_bind].
  rewrite length_app in Hlen1.
  destruct (emit_ref_spec (end_run c l) q (p - r - 1) k) as (q' & Hemit & Hq'); [lia|lia|lia|].
  replace (lz_op st - nl) with (Z.of_nat (length (end_run c l))) by lia.
  rewrite Hemit. cbn [mbind option_bind].
  replace (Z.of_nat p + 1 + (Z.of_nat k - 2 + 1)) with (Z.of_nat (p + k)) by lia.
  assert (take (p + k) inp = take p inp ++ take k (drop p inp)) as Htk by by rewrite take_take_drop.
  assert (decodes (end_run c l ++ ref_code (p - r - 1) k) (take (p + k) inp)) as Hdec.
  { rewrite Htk. assert (length (take k (drop p inp)) = k) as Hlk by (rewrite length_take, length_drop; lia).
    rewrite <- Hlk at 1. apply decodes_ref; [|by apply agree_repeats|lia|lia].
    rewrite Htext. apply end_run_decodes; [done|lia]. }
  pose proof (ref_code_length (p - r - 1) k) as Hrc.
  assert (length (ref_code (p - r - 1) k) <= 2 \/ 9 <= k)%nat as Hrck.
  { unfold ref_code. destruct (_ <? 7) eqn:?; [simpl; lia|]. right. zlia. }
  assert (forall hv tb, (forall j, 0 <= tb j < 2 ^ 32) ->
    lz_inv inp olen (mkLz (Z.of_nat (p + k)) (Z.of_nat (length (end_run c l)) + Z.of_nat (length (ref_code (p - r - 1) k)) + 1)
       0 hv tb (end_run c l ++ ref_code (p - r - 1) k ++ q')) (p + k) (end_run c l ++ ref_code (p - r - 1) k) (take (p + k) inp) []) as Hnew.
  { intros hv tb Htb. split; cbn; try done; try lia.
    - by rewrite app_nil_r.
    - rewrite length_app. lia.
    - rewrite !length_app. lia.
    - exists q'. split; [by rewrite app_assoc|by left].
    - rewrite length_app, length_take. lia. }
  destruct (Z.of_nat (p + k) >=? Z.of_nat (length inp) - 2) eqn:Hend; zbool.
  - eexists. split; [done|]. cbn beta iota. exists (p + k)%nat, (end_run c l ++ ref_code (p - r - 1) k). split; [lia|].
    split; [by apply Hnew|]. lia.
  - destruct (FRST_Some inp (Z.of_nat (p + k) - 1 - 1)) as [v1 ->]; [lia|lia|]. cbn [mbind option_bind].
    destruct (NEXT_Some v1 inp (Z.of_nat (p + k) - 1 - 1)) as [v2 ->]; [lia|lia|]. cbn [mbind option_bind].
    destruct (NEXT_Some v2 inp (Z.of_nat (p + k) - 1 - 1 + 1)) as [v3 ->]; [lia|lia|]. cbn [mbind option_bind].
    eexists. split; [done|]. cbn beta iota. exists (p + k)%nat, (end_run c l ++ ref_code (p - r - 1) k). split; [lia|].
    replace (Z.of_nat (p + k) - 1 - 1 + 1 + 1) with (Z.of_nat (p + k)) by lia.
    split; [|done]. apply Hnew. by apply htab_set_ok, htab_set_ok.
Qed.

Lemma compress_loop_spec inp olen fuel : forall st p c t l, lz_inv inp olen st p c t l ->
  Z.of_nat (length inp) < 2 ^ 32 -> (length inp - p <= fuel)%nat ->
  exists res, compress_loop fuel inp (Z.of_nat olen) st = Some res /\
    match res with
    | inl out => length out = olen /\ too_short inp olen
    | inr st' => exists p' c' t' l', lz_inv inp olen st' p' c' t' l' /\ (length inp - 2 <= p')%nat
    end.
Proof.
  induction fuel as [|fuel IH]; intros st p c t l Hinv Hin Hf;
    pose proof (inv_ip _ _ _ _ _ _ _ Hinv) as Hip; pose proof (inv_in _ _ _ _ _ _ _ Hinv) as Hp;
    cbn [compress_loop]; rewrite Hip; (destruct (Z.of_nat p <? Z.of_nat (length inp) - 2) eqn:Hlt; zbool;
      [|exists (inr st); split; [done|]; exists p, c, t, l; split; [done|lia]]); [lia|].
  destruct (NEXT_Some (lz_hval st) inp (Z.of_nat p)) as [hval ->]; [lia|lia|]. cbn [mbind option_bind].
  set (st1 := mkLz _ _ _ _ _ _).
  assert (lz_inv inp olen st1 p c t l) as Hinv1.
  { destruct Hinv. split; try done. by apply htab_set_ok. }
  destruct (is_match_spec inp (lz_htab st (IDX hval)) p) as (m & -> & Hm); [lia|done|apply Hinv|].
  cbn [mbind option_bind]. destruct m.
  - destruct (Hm eq_refl) as (r & -> & Hr & Hoff & Ha).
    destruct (take_match_spec inp olen st1 p r c t l) as (res & -> & Hres); [done|done|lia|done|done|done|].
    cbn [mbind option_bind]. destruct res as [out|[st2 stop]]; [by exists (inl out)|].
    destruct Hres as (p' & c' & Hp' & Hinv2 & Hstop). destruct stop.
    + exists (inr st2). split; [done|]. exists p', c', (take p' inp), []. split; [done|]. by apply Hstop.
    + apply (IH _ _ _ _ _ Hinv2 Hin). lia.
  - cbn [lz_op st1]. destruct (lz_op st >=? _) eqn:Hfull; zbool.
    + exists (inl (lz_out st)). split; [done|]. pose proof Hinv as [? ? Htext ? ? ? Hop ? ? ? ?]. split; [done|].
      assert (length t + length l = p)%nat by (rewrite <- length_app, <- Htext, length_take; lia).
      unfold too_short. lia.
    + pose proof Hinv as [? ? ? ? ? ? Hop ? ? ? ?].
      destruct (copy_literal_spec inp olen st1 p c t l Hinv1) as (st2 & c2 & t2 & l2 & -> & Hinv2 & _); [lia|lia|].
      cbn [mbind option_bind]. apply (IH _ _ _ _ _ Hinv2 Hin). lia.
Qed.

Lemma last_literals_spec inp olen st p c t l : lz_inv inp olen st p c t l -> (length inp - 2 <= p)%nat ->
  (length c + 1 + length l + 3 <= olen)%nat ->
  exists st' c' t' l', last_literals 3 inp st = Some st' /\ lz_inv inp olen st' (length inp) c' t' l' /\
    (length c' + 1 + length l' <= olen)%nat.
Proof.
  intros Hinv Hp Ho. pose proof (inv_in _ _ _ _ _ _ _ Hinv) as Hin.
  assert (forall n st p c t l, lz_inv inp olen st p c t l -> p = length inp -> last_literals n inp st = Some st) as Hend.
  { intros n ? ? ? ? ? [Hip ? ? ? ? ? ? ? ? ? ?] ->. destruct n; cbn [last_literals]; by rewrite Hip, Z.ltb_irrefl. }
  destruct (decide (p = length inp)) as [->|Hne].
  { rewrite (Hend _ _ _ _ _ _ Hinv eq_refl). exists st, c, t, l. split; [done|]. split; [done|lia]. }
  destruct (copy_literal_spec inp olen st p c t l Hinv) as (st1 & c1 & t1 & l1 & H1 & Hinv1 & Hs1 & Hz); [lia|lia|].
  assert (last_literals 3 inp st = last_literals 2 inp st1) as ->.
  { cbn [last_literals]. rewrite (inv_ip _ _ _ _ _ _ _ Hinv), (proj2 (Z.ltb_lt _ _)) by lia. by rewrite H1. }
  destruct (decide (p + 1 = length inp)%nat) as [Hl|Hne1].
  { rewrite (Hend _ _ _ _ _ _ Hinv1 Hl). exists st1, c1, t1, l1. rewrite <- Hl. split; [done|]. split; [done|].
    destruct (length l =? 31)%nat; lia. }
  destruct (copy_literal_spec inp olen st1 (p + 1) c1 t1 l1 Hinv1) as (st2 & c2 & t2 & l2 & H2 & Hinv2 & Hs2 & _);
    [lia|destruct (length l =? 31)%nat; lia|].
  assert (last_literals 2 inp st1 = last_literals 1 inp st2) as ->.
  { cbn [last_literals]. rewrite (inv_ip _ _ _ _ _ _ _ Hinv1), (proj2 (Z.ltb_lt _ _)) by lia. by rewrite H2. }
  assert (p + 1 + 1 = length inp)%nat as Hl by lia.
  rewrite (Hend _ _ _ _ _ _ Hinv2 Hl). exists st2, c2, t2, l2. rewrite <- Hl. split; [done|]. split; [done|].
  destruct (length l =? 31)%nat eqn:He; [|destruct (length l1 =? 31)%nat; lia].
  apply Nat.eqb_eq in He. rewrite (Hz He) in Hs2. simpl in Hs2. rewrite (Hz He) in Hs1. simpl in Hs1. lia.
Qed.

Lemma decodes_nil_inv t : decodes [] t -> t = [].
Proof.
  intros Hd. remember [] as c eqn:Hc. destruct Hd as [|c t l _ _|c t off s _ _ _ _]; [done|by destruct c|].
  pose proof (ref_code_length off (length s)) as Hl. apply (f_equal length) in Hc. rewrite length_app in Hc. simpl in Hc. lia.
Qed.

Lemma lzf_compress_spec uninit inp out : (2 <= length inp)%nat -> Z.of_nat (length inp) < 2 ^ 32 ->
  Z.of_nat (length out) < 2 ^ 32 ->
  exists out' n, lzf_compress uninit inp out = Some (out', n) /\ length out' = length out /\
    0 <= n <= Z.of_nat (length out) /\
    (n = 0 /\ too_short inp (length out) \/
     decodes (take (Z.to_nat n) out') inp /\ n <> 0).
Proof.
  intros H2 Hin Hout. unfold lzf_compress.
  rewrite (proj2 (Z.eqb_neq (Z.of_nat (length inp)) 0)) by lia. cbn [orb].
  destruct (_ =? 0) eqn:H0; zbool.
  { exists out, 0. split; [done|]. split_and!; [done|lia|lia|]. left. split; [done|]. unfold too_short. lia. }
  destruct (FRST_Some inp 0) as [hval ->]; [lia|lia|]. cbn [mbind option_bind].
  destruct (compress_loop_spec inp (length out) (length inp) (mkLz 0 1 0 hval (fun i => u32 (uninit i)) out) 0 [] [] [])
    as (res & -> & Hres); [|done|lia|].
  { split; cbn; try done; try lia; [constructor|by exists out; split; [|left]|intros; by apply uwrap_range]. }
  cbn [mbind option_bind]. destruct res as [out'|st].
  { destruct Hres as [Hl Hs]. exists out', 0. split; [done|]. split_and!; [done|lia|lia|by left]. }
  destruct Hres as (p & c & t & l & Hinv & Hp). pose proof Hinv as [Hip Hpin Htext Hcode Hlit Hrun Hop Hlen _ Htab Hsize].
  assert (length t + length l = p)%nat as Htl by (rewrite <- length_app, <- Htext, length_take; lia).
  destruct (_ >? _) eqn:Hfull; zbool.
  { exists (lz_out st), 0. split; [done|]. split_and!; [done|lia|lia|]. left. split; [done|]. unfold too_short. lia. }
  destruct (last_literals_spec inp (length out) st p c t l Hinv Hp) as (st' & c' & t' & l' & -> & Hinv' & Ho'); [lia|].
  cbn [mbind option_bind]. destruct (inv_room _ _ _ _ _ _ _ 0 Hinv' ltac:(lia)) as (h & x & r & Hst & Hx).
  destruct x; [|done]. cbn [app] in Hst. destruct Hinv' as [Hip' _ Htext' Hcode' Hlit' Hrun' Hop' Hlen' _ _ _].
  destruct (stop_run_spec c' h l' r (lz_op st')) as (q & Hs & Hq); [lia|lia|].
  rewrite Hst, Hlit', Hs. cbn [mbind option_bind]. eexists _, _. split; [done|].
  rewrite Hop'. pose proof (end_run_length c' l') as Her. rewrite <- Her.
  assert (t' ++ l' = inp) as Hti by (by rewrite <- Htext', firstn_all).
  assert (length (end_run c' l' ++ q) = length out) as Hlo.
  { rewrite <- Hlen', Hst, !length_app. cbn [length]. rewrite length_app, Hq. destruct l'; simpl in *; lia. }
  assert (decodes (end_run c' l') inp) as Hdec by (rewrite <- Hti; apply end_run_decodes; [done|lia]).
  rewrite length_app in Hlo. rewrite uwrap_small by lia. split_and!.
  - by rewrite length_app.
  - lia.
  - lia.
  - right. rewrite Nat2Z.id, take_app_length. split; [done|].
    intros Hz. destruct (end_run c' l'); [|simpl in Hz; lia]. apply decodes_nil_inv in Hdec. subst inp.
    rewrite Hdec in H2. simpl in H2; lia.
Qed.

(** C35: Compression followed by decompression is the identity.  For every input of at
    least two bytes, every contents of the uninitialised hash table and every
    output block, [lzf_compress] stays within both blocks and returns the length
    of a code, which [lzf_decompress] expands to the input, or zero; it returns
    zero only if the output block is shorter than 33/32 of the input plus five
    bytes. *)
Theorem lzf_roundtrip uninit inp out : (2 <= length inp)%nat -> Z.of_nat (length inp) < 2 ^ 32 ->
  Z.of_nat (length out) < 2 ^ 32 ->
  exists out' n, lzf_compress uninit inp out = Some (out', n) /\ length out' = length out /\
    0 <= n <= Z.of_nat (length out) /\
    (n = 0 -> 32 * Z.of_nat (length out) <= 33 * Z.of_nat (length inp) + 160) /\
    (n <> 0 -> forall dst, (length inp <= length dst)%nat ->
       lzf_decompress (take (Z.to_nat n) out') dst =
         Some (inp ++ drop (length inp) dst, Z.of_nat (length inp), None)).
Proof.
  intros H2 Hin Hout. destruct (lzf_compress_spec uninit inp out H2 Hin Hout) as (out' & n & -> & Hl & Hn & Hres).
  exists out', n. split; [done|]. split; [done|]. split; [done|]. split.
  - intros ->. destruct Hres as [[_ Hs]|[_ ?]]; [|done]. unfold too_short in Hs. lia.
  - intros Hnz dst Hdst. destruct Hres as [[? _]|[Hd _]]; [done|].
    apply lzf_decompress_decodes; [done| |done|done].
    intros Hnil. apply (f_equal length) in Hnil. rewrite length_take in Hnil. simpl in Hnil. lia.
Qed.

Definition lzf_sample : list byte := bytes_of "abcabcabcabcabcabcabcabcabcabc planner planner planner".

Lemma lzf_roundtrip_witness :
  exists out' n, lzf_compress (fun i => 3 * i) lzf_sample (replicate 40 0) = Some (out', n) /\ n = 23 /\
    lzf_decompress (take 23 out') (replicate 60 255) = Some (lzf_sample ++ replicate 6 255, 54, None).
Proof.
  destruct (lzf_roundtrip (fun i => 3 * i) lzf_sample (replicate 40 0)) as (out' & n & Hc & Hl & Hn & _ & Hd);
    [vm_compute; lia|reflexivity|reflexivity|].
  exists out', n. split; [exact Hc|]. assert (n = 23) as -> by (vm_compute in Hc; congruence). split; [reflexivity|].
  apply (Hd ltac:(lia) (replicate 60 255)). vm_compute. lia.
Defined.

(** C36: The decompressor is safe on corrupt data: whatever the (nonempty) input,
    it reads only the input, writes only the output block, and returns zero
    exactly when it sets [errno]; without an error nothing of the output past the
    length it returns is changed. *)
Theorem lzf_decompress_safe inp out : bytes_ok inp -> inp <> [] -> Z.of_nat (length out) < 2 ^ 32 ->
  exists out' n err, lzf_decompress inp out = Some (out', n, err) /\ length out' = length out /\
    0 <= n <= Z.of_nat (length out) /\ (err = None <-> 0 < n) /\
    (err = None -> drop (Z.to_nat n) out' = drop (Z.to_nat n) out).
Proof.
  intros Hb Hne Hlen. unfold lzf_decompress.
  destruct (decompress_loop_safe inp (length inp) out 0 0) as (out' & r & -> & Hl & Hr);
    [done|destruct inp; [done|simpl; lia]|lia|lia|]. cbn [mbind option_bind].
  destruct r as [n|e].
  - destruct (Hr n eq_refl) as [Hn Hd]. rewrite uwrap_small by lia. exists out', n, None.
    split_and!; try done; try lia; split; intros; (done || lia).
  - exists out', 0, (Some e). split_and!; try done; try lia; split; intros; (done || lia).
Qed.

Lemma lzf_decompress_safe_witness :
  exists out' n err, lzf_decompress [32; 3; 1; 7; 8] (replicate 8 0) = Some (out', n, err) /\ err = Some EINVAL.
Proof.
  destruct (lzf_decompress_safe [32; 3; 1; 7; 8] (replicate 8 0)) as (out' & n & err & Hd & _);
    [repeat constructor; unfold is_byte; lia|done|reflexivity|].
  exists out', n, err. split; [exact Hd|]. vm_compute in Hd. congruence.
Defined.

(** On an input of one byte the compressor reads the byte after it. *)
Lemma lzf_compress_one_byte uninit b x out : lzf_compress uninit [b] (x :: out) = None.
Proof. done. Qed.
