(* ===== verification/ServerDefs.v ===== *)
(** * Constants of the server (src/redis-5.0.7/src/server.h)

    Sizes of the protocol, client flags, command flags and propagation flags, and
    the test of a flag. *)

From S2P Require Import Prelude.

Local Open Scope Z_scope.

Definition PROTO_IOBUF_LEN : Z := 1024 * 16.
Definition PROTO_INLINE_MAX_SIZE : Z := 1024 * 64.
Definition PROTO_MBULK_BIG_ARG : Z := 1024 * 32.
Definition PROTO_REQ_INLINE : Z := 1.
Definition PROTO_REQ_MULTIBULK : Z := 2.
Definition CLIENT_SLAVE : Z := Z.shiftl 1 0.
Definition CLIENT_MASTER : Z := Z.shiftl 1 1.
Definition CLIENT_MULTI : Z := Z.shiftl 1 3.
Definition CLIENT_BLOCKED : Z := Z.shiftl 1 4.
Definition CLIENT_CLOSE_AFTER_REPLY : Z := Z.shiftl 1 6.
Definition CLIENT_ASKING : Z := Z.shiftl 1 9.
Definition CLIENT_CLOSE_ASAP : Z := Z.shiftl 1 10.
Definition CLIENT_REPLY_SKIP_NEXT : Z := Z.shiftl 1 23.
Definition CLIENT_REPLY_SKIP : Z := Z.shiftl 1 24.
Definition BLOCKED_MODULE : Z := 3.
Definition CLIENT_DIRTY_CAS : Z := Z.shiftl 1 5.
Definition CLIENT_DIRTY_EXEC : Z := Z.shiftl 1 12.
Definition CLIENT_FORCE_AOF : Z := Z.shiftl 1 14.
Definition CLIENT_FORCE_REPL : Z := Z.shiftl 1 15.
Definition CLIENT_PUBSUB : Z := Z.shiftl 1 18.
Definition CLIENT_PREVENT_AOF_PROP : Z := Z.shiftl 1 19.
Definition CLIENT_PREVENT_REPL_PROP : Z := Z.shiftl 1 20.
Definition CLIENT_PREVENT_PROP : Z := Z.lor CLIENT_PREVENT_AOF_PROP CLIENT_PREVENT_REPL_PROP.
Definition CLIENT_LUA : Z := Z.shiftl 1 8.
Definition CLIENT_MASTER_FORCE_REPLY : Z := Z.shiftl 1 13.
Definition CLIENT_PENDING_WRITE : Z := Z.shiftl 1 21.
Definition CLIENT_REPLY_OFF : Z := Z.shiftl 1 22.
Definition CLIENT_MODULE : Z := Z.shiftl 1 27.
Definition CLIENT_PROTECTED : Z := Z.shiftl 1 28.
Definition PROTO_REPLY_CHUNK_BYTES : Z := 16 * 1024.
Definition NET_MAX_WRITES_PER_EVENT : Z := 1024 * 64.
Definition OBJ_SHARED_BULKHDR_LEN : Z := 32.
Definition CMD_WRITE : Z := Z.shiftl 1 0.
Definition CMD_READONLY : Z := Z.shiftl 1 1.
Definition CMD_DENYOOM : Z := Z.shiftl 1 2.
Definition CMD_MODULE : Z := Z.shiftl 1 3.
Definition CMD_ADMIN : Z := Z.shiftl 1 4.
Definition CMD_LOADING : Z := Z.shiftl 1 9.
Definition CMD_STALE : Z := Z.shiftl 1 10.
Definition CMD_CALL_NONE : Z := 0.
Definition CMD_CALL_SLOWLOG : Z := Z.shiftl 1 0.
Definition CMD_CALL_STATS : Z := Z.shiftl 1 1.
Definition CMD_CALL_PROPAGATE_AOF : Z := Z.shiftl 1 2.
Definition CMD_CALL_PROPAGATE_REPL : Z := Z.shiftl 1 3.
Definition CMD_CALL_PROPAGATE : Z := Z.lor CMD_CALL_PROPAGATE_AOF CMD_CALL_PROPAGATE_REPL.
Definition CMD_CALL_FULL : Z := Z.lor (Z.lor CMD_CALL_SLOWLOG CMD_CALL_STATS) CMD_CALL_PROPAGATE.
Definition PROPAGATE_NONE : Z := 0.
Definition PROPAGATE_AOF : Z := 1.
Definition PROPAGATE_REPL : Z := 2.

(** [flags & mask] as a condition. *)
Definition flag_on (flags mask : Z) : bool := negb (Z.land flags mask =? 0).

Lemma flag_on_bit flags k : 0 <= k -> flag_on flags (Z.shiftl 1 k) = Z.testbit flags k.
Proof.
  intros Hk. unfold flag_on. rewrite Z.shiftl_1_l. destruct (Z.testbit flags k) eqn:Hb.
  - destruct (_ =? 0) eqn:He; [|done]. zbool. apply (f_equal (fun z => Z.testbit z k)) in He.
    rewrite Z.land_spec, Hb, Z.pow2_bits_true, Z.bits_0 in He by done. done.
  - assert (Z.land flags (2 ^ k) = 0) as ->; [|done]. apply Z.bits_inj'. intros i Hi.
    rewrite Z.land_spec, Z.bits_0. destruct (decide (i = k)) as [->|]; [by rewrite Hb|].
    by rewrite Z.pow2_bits_false, andb_false_r.
Qed.
