(* ===== verification/Protocol.v ===== *)
(** * The request protocol (src/redis-5.0.7/src/networking.c)

    Reading queries: [readQueryFromClient] appends what a read(2) call delivered to
    the query buffer, [processInputBuffer] parses the buffer, as inline commands or
    as RESP arrays of bulk strings, and runs every complete command.  The parser
    keeps its position in the client between calls, so a command may arrive in any
    number of pieces.  The query buffer is an sds of [Sds.v]; arguments are the
    byte strings of the objects created for them.  [None] is an access outside the
    buffer, a failed assertion or a panic.  Executing a command is a parameter, as
    is the rest of the server's state [srv]: what the parser relies on is the
    interface [CommandContract], which the model of [processCommand] in [Multi.v]
    implements (see [Serving.v]).  Statistics, the log and nested runs of the event
    loop are left out. *)

From S2P Require Import Prelude Util Sds SdsText ServerDefs.
From stdpp Require Import strings.
Local Open Scope Z_scope.

(** ** The client *)

(** The fields of [client] the parser uses.  [argc] is the length of [argv];
    [reply] collects the error messages of the parser, not the replies of commands;
    [cmd_asking] is [c->cmd->proc == askingCommand]. *)
Record client := mkClient {
  querybuf : sds;
  qb_pos : Z;
  reqtype : Z;
  argv : list (list byte);
  multibulklen : Z;
  bulklen : Z;
  flags : Z;
  btype : Z;
  cmd_asking : bool;
  reply : list (list byte);
  reploff : Z;
  read_reploff : Z;
  pending_querybuf : sds;
}.

Definition with_buf (c : client) (qb : sds) (pos : Z) : client :=
  mkClient qb pos (reqtype c) (argv c) (multibulklen c) (bulklen c) (flags c) (btype c) (cmd_asking c)
    (reply c) (reploff c) (read_reploff c) (pending_querybuf c).

Definition with_req (c : client) (rt : Z) (av : list (list byte)) (mbl bl : Z) : client :=
  mkClient (querybuf c) (qb_pos c) rt av mbl bl (flags c) (btype c) (cmd_asking c)
    (reply c) (reploff c) (read_reploff c) (pending_querybuf c).

Definition with_flags (c : client) (f : Z) : client :=
  mkClient (querybuf c) (qb_pos c) (reqtype c) (argv c) (multibulklen c) (bulklen c) f (btype c) (cmd_asking c)
    (reply c) (reploff c) (read_reploff c) (pending_querybuf c).

Definition with_cmd (c : client) (asking : bool) : client :=
  mkClient (querybuf c) (qb_pos c) (reqtype c) (argv c) (multibulklen c) (bulklen c) (flags c) (btype c) asking
    (reply c) (reploff c) (read_reploff c) (pending_querybuf c).

Definition with_repl (c : client) (off roff : Z) (pq : sds) : client :=
  mkClient (querybuf c) (qb_pos c) (reqtype c) (argv c) (multibulklen c) (bulklen c) (flags c) (btype c) (cmd_asking c)
    (reply c) off roff pq.

Definition has_flag (c : client) (f : Z) : bool := negb (Z.land (flags c) f =? 0).

Definition addReplyError (c : client) (err : list byte) : client :=
  mkClient (querybuf c) (qb_pos c) (reqtype c) (argv c) (multibulklen c) (bulklen c) (flags c) (btype c) (cmd_asking c)
    (reply c ++ [err]) (reploff c) (read_reploff c) (pending_querybuf c).

(** The log entry is left out. *)
Definition setProtocolError (c : client) : client := with_flags c (Z.lor (flags c) CLIENT_CLOSE_AFTER_REPLY).

Definition protocol_error (c : client) (err : String.string) : client :=
  setProtocolError (addReplyError c (bytes_of err)).

Definition freeClientArgv (c : client) : client :=
  with_cmd (with_req c (reqtype c) [] (multibulklen c) (bulklen c)) false.

Definition resetClient (c : client) : client :=
  let prev_asking := cmd_asking c in
  let c := freeClientArgv c in
  let c := with_req c 0 (argv c) 0 (-1) in
  let c := if negb (has_flag c CLIENT_MULTI) && negb prev_asking
           then with_flags c (Z.land (flags c) (Z.lnot CLIENT_ASKING)) else c in
  let c := with_flags c (Z.land (flags c) (Z.lnot CLIENT_REPLY_SKIP)) in
  if has_flag c CLIENT_REPLY_SKIP_NEXT then
    with_flags c (Z.land (Z.lor (flags c) CLIENT_REPLY_SKIP) (Z.lnot CLIENT_REPLY_SKIP_NEXT))
  else c.

(** ** Parsing *)

(** strchr(3) on the bytes [l] from a position on: the distance to the first [c]
    before a NUL.  Running off the block has no value. *)
Fixpoint strchr_in (l : list byte) (c : byte) : option (option Z) :=
  match l with
  | [] => None
  | b :: l =>
      if b =? c then Some (Some 0)
      else if b =? 0 then Some None
      else r ← strchr_in l c; Some (match r with Some k => Some (k + 1) | None => None end)
  end.

Definition strchr_qb (c : client) (ch : byte) : option (option Z) :=
  strchr_in (drop (Z.to_nat (qb_pos c)) (s_buf (querybuf c))) ch.

(** [sdslen(c->querybuf)-c->qb_pos] *)
Definition qb_left (c : client) : Z := u64 (sdslen (querybuf c) - qb_pos c).

Section parser.
Context (junk : nat -> byte) (proto_max_bulk_len client_max_querybuf_len : Z).
#[local] Existing Instance sds_builder.

(** The objects of the arguments that are not empty. *)
Fixpoint inline_args (argv : list sds) : option (list (list byte)) :=
  match argv with
  | [] => Some []
  | a :: argv =>
      r ← inline_args argv;
      if negb (sdslen a =? 0) then b ← sds_bytes a; Some (b :: r) else Some r
  end.

(** The result is [C_OK]. *)
Definition processInlineBuffer (c : client) : option (client * bool) :=
  newline ← strchr_qb c 10;
  match newline with
  | None =>
      Some (if qb_left c >? PROTO_INLINE_MAX_SIZE
            then protocol_error c "Protocol error: too big inline request" else c, false)
  | Some nl =>
      r ← (if negb (nl =? 0) then
             b ← getb (s_buf (querybuf c)) (qb_pos c + nl - 1);
             Some (if b =? 13 then (nl - 1, 2) else (nl, 1))
           else Some (nl, 1));
      let '(querylen, linefeed_chars) := r in
      aux ← load (s_buf (querybuf c)) (qb_pos c) querylen;
      args ← sdssplitargs (StringBuilder0 := sds_builder junk) aux;
      match args with
      | None => Some (protocol_error c "Protocol error: unbalanced quotes in request", false)
      | Some args =>
          let c := with_buf c (querybuf c) (u64 (qb_pos c + querylen + linefeed_chars)) in
          av ← inline_args args;
          Some (with_req c (reqtype c) av (multibulklen c) (bulklen c), true)
      end
  end.

(** How a step of the multibulk parser ends: go on, wait for more data
    ([break] or [return C_ERR]), protocol error. *)
Inductive verdict := Go | Wait | Error.

(** [newline-(c->querybuf+c->qb_pos) > (ssize_t)(sdslen(c->querybuf)-c->qb_pos-2)] *)
Definition no_linefeed (c : client) (nl : Z) : bool := nl >? s64 (u64 (sdslen (querybuf c) - qb_pos c - 2)).

(** The line at the position: the bytes between its first character and the
    newline, with the verdict when it is not there yet. *)
Definition header_line (c : client) (err : String.string) : option (client * (verdict * Z)) :=
  newline ← strchr_qb c 13;
  match newline with
  | None =>
      if qb_left c >? PROTO_INLINE_MAX_SIZE then Some (protocol_error c err, (Error, 0)) else Some (c, (Wait, 0))
  | Some nl => Some (c, (if no_linefeed c nl then Wait else Go, nl))
  end.

(** The part of [processMultibulkBuffer] under [c->multibulklen == 0].  The flag
    says that the function returns [C_OK] at once. *)
Definition read_multibulklen (c : client) : option (client * verdict * bool) :=
  if negb (length (argv c) =? 0)%nat then None
  else
    r ← header_line c "Protocol error: too big mbulk count string";
    let '(c, (v, nl)) := r in
    match v with
    | Go =>
        first ← getb (s_buf (querybuf c)) (qb_pos c);
        if negb (first =? 42) then None
        else
          line ← load (s_buf (querybuf c)) (qb_pos c + 1) (nl - 1);
          match string2ll line with
          | Some ll =>
              if ll >? 1024 * 1024
              then Some (protocol_error c "Protocol error: invalid multibulk length", Error, false)
              else
                let c := with_buf c (querybuf c) (qb_pos c + nl + 2) in
                if ll <=? 0 then Some (c, Go, true)
                else Some (with_req c (reqtype c) (argv c) ll (bulklen c), Go, false)
          | None => Some (protocol_error c "Protocol error: invalid multibulk length", Error, false)
          end
    | _ => Some (c, v, false)
    end.

(** A large bulk is moved to the start of the buffer, with room for the rest. *)
Definition prepare_big_arg (c : client) (ll : Z) : option client :=
  if ll >=? PROTO_MBULK_BIG_ARG then
    if qb_left c <=? u64 (ll + 2) then
      qb ← sdsrange (querybuf c) (qb_pos c) (-1);
      qb ← sdsMakeRoomFor junk qb (u64 (ll + 2));
      Some (with_buf c qb 0)
    else Some c
  else Some c.

(** The part of the loop under [c->bulklen == -1]. *)
Definition read_bulklen (c : client) : option (client * verdict) :=
  r ← header_line c "Protocol error: too big bulk count string";
  let '(c, (v, nl)) := r in
  match v with
  | Go =>
      first ← getb (s_buf (querybuf c)) (qb_pos c);
      if negb (first =? 36) then
        Some (setProtocolError (addReplyError c (bytes_of "Protocol error: expected '$', got '" ++ [first] ++ bytes_of "'")), Error)
      else
        line ← load (s_buf (querybuf c)) (qb_pos c + 1) (nl - 1);
        match string2ll line with
        | Some ll =>
            if (ll <? 0) || (ll >? proto_max_bulk_len)
            then Some (protocol_error c "Protocol error: invalid bulk length", Error)
            else
              let c := with_buf c (querybuf c) (qb_pos c + nl + 2) in
              c ← prepare_big_arg c ll;
              Some (with_req c (reqtype c) (argv c) (multibulklen c) ll, Go)
        | None => Some (protocol_error c "Protocol error: invalid bulk length", Error)
        end
  | _ => Some (c, v)
  end.

(** The bulk is in the buffer: the whole buffer becomes the argument, or its bytes
    are copied. *)
Definition read_bulk (c : client) : option client :=
  let done c av := with_req c (reqtype c) av (multibulklen c - 1) (-1) in
  if (qb_pos c =? 0) && (bulklen c >=? PROTO_MBULK_BIG_ARG) && (sdslen (querybuf c) =? u64 (bulklen c + 2)) then
    qb ← sdsIncrLen (querybuf c) (-2);
    arg ← sds_bytes qb;
    qb ← sdsnewlen junk InitNOINIT (u64 (bulklen c + 2));
    qb ← sdsclear qb;
    Some (done (with_buf c qb (qb_pos c)) (argv c ++ [arg]))
  else
    arg ← load (s_buf (querybuf c)) (qb_pos c) (bulklen c);
    Some (done (with_buf c (querybuf c) (u64 (qb_pos c + bulklen c + 2))) (argv c ++ [arg])).

(** [while(c->multibulklen)]; the result is [C_OK]. *)
Fixpoint multibulk_loop (fuel : nat) (c : client) : option (client * bool) :=
  if multibulklen c =? 0 then Some (c, true)
  else
    match fuel with
    | O => None
    | S fuel =>
        r ← (if bulklen c =? -1 then read_bulklen c else Some (c, Go));
        let '(c, v) := r in
        match v with
        | Go =>
            if qb_left c <? u64 (bulklen c + 2) then Some (c, false)
            else c ← read_bulk c; multibulk_loop fuel c
        | _ => Some (c, false)
        end
    end.

Definition processMultibulkBuffer (c : client) : option (client * bool) :=
  r ← (if multibulklen c =? 0 then read_multibulklen c else Some (c, Go, false));
  let '(c, v, ok) := r in
  match v with
  | Go => if (ok : bool) then Some (c, true) else multibulk_loop (Z.to_nat (multibulklen c)) c
  | _ => Some (c, false)
  end.

(** ** The input loop *)

Section input.
Context {srv : Type} (processCommand : srv -> client -> option (srv * option client * bool))
  (clientsArePaused lua_timedout : srv -> bool)
  (replicationFeedSlavesFromMasterStream : srv -> sds -> Z -> srv).

(** A client that was freed is [None]: [server.current_client] is [NULL] then. *)

(** The conditions of [break] at the top of the loop. *)
Definition must_stop (s : srv) (c : client) : bool :=
  (negb (has_flag c CLIENT_SLAVE) && clientsArePaused s) || has_flag c CLIENT_BLOCKED ||
  (lua_timedout s && has_flag c CLIENT_MASTER) ||
  has_flag c (Z.lor CLIENT_CLOSE_AFTER_REPLY CLIENT_CLOSE_ASAP).

(** The client after [processCommand] returned, [C_OK] or not. *)
Definition command_done (c : client) (ok : bool) : client :=
  if ok then
    let c := if has_flag c CLIENT_MASTER && negb (has_flag c CLIENT_MULTI)
             then with_repl c (read_reploff c - sdslen (querybuf c) + qb_pos c) (read_reploff c) (pending_querybuf c)
             else c in
    if negb (has_flag c CLIENT_BLOCKED) || negb (btype c =? BLOCKED_MODULE) then resetClient c else c
  else c.

(** The command is parsed and run.  The result is whether the loop goes on.  After
    [C_OK] the client is used again, so it must not have been freed. *)
Definition process_one (s : srv) (c : client) : option (srv * option client * bool) :=
  c ← (if reqtype c =? 0 then
         first ← getb (s_buf (querybuf c)) (qb_pos c);
         Some (with_req c (if first =? 42 then PROTO_REQ_MULTIBULK else PROTO_REQ_INLINE)
                 (argv c) (multibulklen c) (bulklen c))
       else Some c);
  r ← (if reqtype c =? PROTO_REQ_INLINE then processInlineBuffer c
       else if reqtype c =? PROTO_REQ_MULTIBULK then processMultibulkBuffer c
       else None);
  let '(c, ok) := r in
  if negb ok then Some (s, Some c, false)
  else if (length (argv c) =? 0)%nat then Some (s, Some (resetClient c), true)
  else
    r ← processCommand s c;
    match r with
    | (s, Some c, ok) => Some (s, Some (command_done c ok), true)
    | (s, None, false) => Some (s, None, false)
    | (s, None, true) => None
    end.

(** [while(c->qb_pos < sdslen(c->querybuf))] *)
Fixpoint input_loop (fuel : nat) (s : srv) (c : client) : option (srv * option client) :=
  if negb (qb_pos c <? sdslen (querybuf c)) then Some (s, Some c)
  else if must_stop s c then Some (s, Some c)
  else
    match fuel with
    | O => None
    | S fuel =>
        r ← process_one s c;
        match r with
        | (s, Some c, true) => input_loop fuel s c
        | (s, oc, _) => Some (s, oc)
        end
    end.

Definition processInputBuffer (s : srv) (c : client) : option (srv * option client) :=
  r ← input_loop (length (s_buf (querybuf c))) s c;
  match r with
  | (s, Some c) =>
      if negb (qb_pos c =? 0) then
        qb ← sdsrange (querybuf c) (qb_pos c) (-1); Some (s, Some (with_buf c qb 0))
      else Some (s, Some c)
  | (s, None) => Some (s, None)
  end.

(** The client of the master is used after the loop, so it must not have been
    freed. *)
Definition processInputBufferAndReplicate (s : srv) (c : client) : option (srv * option client) :=
  if negb (has_flag c CLIENT_MASTER) then processInputBuffer s c
  else
    let prev_offset := reploff c in
    r ← processInputBuffer s c;
    match r with
    | (s, Some c) =>
        let applied := u64 (reploff c - prev_offset) in
        if negb (applied =? 0) then
          let s := replicationFeedSlavesFromMasterStream s (pending_querybuf c) applied in
          pq ← sdsrange (pending_querybuf c) applied (-1);
          Some (s, Some (with_repl c (reploff c) (read_reploff c) pq))
        else Some (s, Some c)
    | (_, None) => None
    end.

(** [readlen]: a large bulk is read up to its end. *)
Definition read_length (c : client) : Z :=
  if (reqtype c =? PROTO_REQ_MULTIBULK) && negb (multibulklen c =? 0) && negb (bulklen c =? -1) &&
     (bulklen c >=? PROTO_MBULK_BIG_ARG)
  then
    let remaining := s64 (u64 (bulklen c + 2 - sdslen (querybuf c))) in
    if (remaining >? 0) && (remaining <? PROTO_IOBUF_LEN) then remaining else PROTO_IOBUF_LEN
  else PROTO_IOBUF_LEN.

(** What read(2) returns: EAGAIN, another error, the end of the stream, or bytes
    of the socket, no more than asked for. *)
Inductive read_result := ReadAgain | ReadError | ReadEOF | ReadData (bs : list byte).

Definition readQueryFromClient (s : srv) (c : client) (read : Z -> read_result) : option (srv * option client) :=
  let readlen := read_length c in
  let qblen := sdslen (querybuf c) in
  qb ← sdsMakeRoomFor junk (querybuf c) readlen;
  let c := with_buf c qb (qb_pos c) in
  match read readlen with
  | ReadAgain => Some (s, Some c)
  | ReadError | ReadEOF => Some (s, None)
  | ReadData bs =>
      let nread := Z.of_nat (length bs) in
      qb ← sds_write (querybuf c) qblen bs;
      c ← (if has_flag c CLIENT_MASTER then
             pq ← sdscatlen junk (pending_querybuf c) bs nread;
             Some (with_repl c (reploff c) (read_reploff c) pq)
           else Some c);
      qb ← sdsIncrLen qb nread;
      let c := with_buf c qb (qb_pos c) in
      let c := if has_flag c CLIENT_MASTER
               then with_repl c (reploff c) (read_reploff c + nread) (pending_querybuf c) else c in
      if sdslen (querybuf c) >? client_max_querybuf_len then Some (s, None)
      else processInputBufferAndReplicate s c
  end.
End input.
End parser.

(** ** The wire format *)

Definition CRLF : list byte := [13; 10].
Definition bulk (a : list byte) : list byte := 36 :: decimal (Z.of_nat (length a)) ++ CRLF ++ a ++ CRLF.
Definition bulks (args : list (list byte)) : list byte := args ≫= bulk.
Definition request (args : list (list byte)) : list byte :=
  42 :: decimal (Z.of_nat (length args)) ++ CRLF ++ bulks args.
Definition requests (cmds : list (list (list byte))) : list byte := cmds ≫= request.

(** A byte that neither ends a line nor a C string. *)
Definition plain_byte (b : byte) : Prop := b <> 13 /\ b <> 0.

Lemma decimal_plain v : in_s 64 v -> Forall plain_byte (decimal v) /\ (length (decimal v) <= 21)%nat.
Proof.
  intros Hv. rewrite decimal_abs. assert (0 <= Z.abs v < 10 ^ 20) as Ha by (limits; lia).
  assert (Forall digit (dec 20 (Z.abs v))) as Hd.
  { destruct (decide (v = 0)) as [-> |]; [by repeat constructor|].
    destruct (dec_canonical (Z.abs v) ltac:(lia)) as (c & ds & -> & Hc & Hds). constructor; [unfold digit; lia|done]. }
  pose proof (dec_length_le 20 (Z.abs v)). split.
  - apply Forall_app. split; [destruct (v <? 0); by repeat constructor|].
    eapply Forall_impl; [exact Hd|]. unfold digit, plain_byte. intros; lia.
  - rewrite length_app. destruct (v <? 0); cbn [length]; lia.
Qed.

Lemma strchr_in_none p r ch : Forall plain_byte p -> ch = 13 -> strchr_in (p ++ 0 :: r) ch = Some None.
Proof.
  intros Hp ->. induction Hp as [|b p [H1 H2] _ IH]; [done|]. cbn [strchr_in app].
  rewrite (proj2 (Z.eqb_neq b 13)), (proj2 (Z.eqb_neq b 0)) by done. by rewrite IH.
Qed.

Lemma strchr_in_some p r ch : Forall plain_byte p -> ch = 13 ->
  strchr_in (p ++ 13 :: r) ch = Some (Some (Z.of_nat (length p))).
Proof.
  intros Hp ->. induction Hp as [|b p [H1 H2] _ IH]; [done|]. cbn [strchr_in app length].
  rewrite (proj2 (Z.eqb_neq b 13)), (proj2 (Z.eqb_neq b 0)) by done. rewrite IH. cbn [mbind option_bind]. do 2 f_equal. lia.
Qed.

(** ** The buffer *)

(** The unparsed bytes of the query buffer are [u]; the buffer holds at most [n]
    bytes. *)
Definition buffered (n : Z) (c : client) (u : list byte) : Prop :=
  exists p, content (querybuf c) (p ++ u) /\ qb_pos c = Z.of_nat (length p) /\ Z.of_nat (length (p ++ u)) <= n.

Section buffer.
Context (n : Z) (Hn : n < 2 ^ 60).

Lemma buffered_left c u : buffered n c u -> qb_left c = Z.of_nat (length u).
Proof.
  intros (p & Hc & Hp & Hl). unfold qb_left. rewrite (c_len _ _ Hc), Hp, length_app in *.
  rewrite uwrap_small by lia. lia.
Qed.

Lemma buffered_drop c u : buffered n c u -> exists tail,
  drop (Z.to_nat (qb_pos c)) (s_buf (querybuf c)) = u ++ 0 :: tail.
Proof.
  intros (p & [_ _ _ [tail Hb]] & Hp & _). exists tail. rewrite Hp, Hb, Nat2Z.id, <- app_assoc. apply drop_app_length.
Qed.

Lemma buffered_load c a u k : buffered n c (a ++ u) -> k = Z.of_nat (length a) ->
  load (s_buf (querybuf c)) (qb_pos c) k = Some a.
Proof.
  intros (p & [_ _ _ [tail Hb]] & Hp & _) ->. rewrite Hb, Hp, <- !app_assoc. by apply load_app.
Qed.

Lemma buffered_load_1 c b a u k : buffered n c (b :: a ++ u) -> k = Z.of_nat (length a) ->
  load (s_buf (querybuf c)) (qb_pos c + 1) k = Some a.
Proof.
  intros (p & [_ _ _ [tail Hb]] & Hp & _) ->.
  assert (s_buf (querybuf c) = (p ++ [b]) ++ a ++ (u ++ 0 :: tail)) as ->.
  { rewrite Hb, <- !app_assoc. cbn [app]. by rewrite <- app_assoc. }
  apply load_app; [|done]. rewrite length_app. simpl. lia.
Qed.

Lemma buffered_get c b u : buffered n c (b :: u) -> getb (s_buf (querybuf c)) (qb_pos c) = Some b.
Proof. intros (p & [_ _ _ [tail Hb]] & Hp & _). rewrite Hb, Hp, <- app_assoc. by apply getb_app. Qed.

(** Only the position moves. *)
Lemma buffered_advance c a u k : buffered n c (a ++ u) -> k = qb_pos c + Z.of_nat (length a) ->
  buffered n (with_buf c (querybuf c) k) u.
Proof.
  intros (p & Hc & Hp & Hl) ->. exists (p ++ a). rewrite <- app_assoc. split_and!; [done| |done].
  cbn. rewrite length_app. lia.
Qed.

(** Trimming to the position. *)
Lemma buffered_trim c u : buffered n c u -> exists qb, sdsrange (querybuf c) (qb_pos c) (-1) = Some qb /\ content qb u.
Proof.
  intros (p & Hc & Hp & Hl). rewrite Hp. rewrite length_app in Hl.
  destruct (sdsrange_spec (querybuf c) (p ++ u) (Z.of_nat (length p)) (-1) Hc) as (qb & Hr & Hqb).
  - unfold max_sds. rewrite length_app. lia.
  - limits. lia.
  - limits. lia.
  - exists qb. split; [done|]. unfold str_range in Hqb. rewrite length_app in Hqb.
    rewrite (proj2 (Z.ltb_ge (Z.of_nat (length p)) 0)) in Hqb by lia. change (-1 <? 0) with true in Hqb. cbv iota in Hqb.
    rewrite Nat2Z.id, drop_app_length in Hqb. rewrite take_ge in Hqb; [done|]. lia.
Qed.

Lemma buffered_pos c u : buffered n c u -> (qb_pos c <? sdslen (querybuf c)) = negb (bool_decide (u = [])).
Proof.
  intros (p & Hc & Hp & Hl). rewrite (c_len _ _ Hc), Hp, length_app. destruct u as [|b u].
  - rewrite bool_decide_eq_true_2 by done. apply Z.ltb_ge. simpl. lia.
  - rewrite bool_decide_eq_false_2 by done. apply Z.ltb_lt. simpl. lia.
Qed.

(** A line that is there, is not there yet, or lacks its line feed. *)
Lemma header_line_spec c u rest h tail err : buffered n c u -> u ++ rest = h ++ CRLF ++ tail -> Forall plain_byte h ->
  Z.of_nat (length h) <= 100 ->
  (exists u', u = h ++ CRLF ++ u' /\ header_line c err = Some (c, (Go, Z.of_nat (length h)))) \/
  (rest <> [] /\ exists k, header_line c err = Some (c, (Wait, k))).
Proof.
  intros Hb Hu Hh Hlen. pose proof (buffered_left c u Hb) as Hleft. destruct (buffered_drop c u Hb) as [junk' Hd].
  unfold header_line, strchr_qb. rewrite Hd, Hleft.
  destruct (decide (length u <= length h)%nat) as [Hle|Hgt].
  - right. assert (exists h2, h = u ++ h2) as [h2 ->].
    { exists (drop (length u) h). apply (f_equal (take (length u))) in Hu.
      rewrite take_app_length, take_app_le in Hu by done. rewrite Hu at 1. by rewrite take_drop. }
    split.
    { intros ->. apply (f_equal length) in Hu. rewrite !length_app in Hu. simpl in Hu. lia. }
    apply Forall_app in Hh as [Hh _]. rewrite strchr_in_none by done. cbn [mbind option_bind].
    rewrite length_app in Hlen. assert ((Z.of_nat (length u) >? PROTO_INLINE_MAX_SIZE) = false) as ->.
    { unfold PROTO_INLINE_MAX_SIZE. rewrite Z.gtb_ltb. apply Z.ltb_ge. lia. }
    by exists 0.
  - assert (exists v, u = h ++ v /\ v <> [] /\ v ++ rest = CRLF ++ tail) as (v & -> & Hv & Hvr).
    { exists (drop (length h) u). apply (f_equal (take (length h))) in Hu as Ht.
      rewrite take_app_length, take_app_le in Ht by lia. rewrite <- Ht at 1. rewrite take_drop.
      apply (f_equal (drop (length h))) in Hu. rewrite drop_app_length, drop_app_le in Hu by lia.
      split_and!; [done| |done]. intros Hnil. apply (f_equal length) in Hnil. rewrite length_drop in Hnil. simpl in Hnil. lia. }
    destruct v as [|b v]; [done|]. injection Hvr as -> Hvr. rewrite <- app_assoc. cbn [app].
    rewrite strchr_in_some by done. cbn [mbind option_bind]. destruct Hb as (p & Hc & Hp & Hl).
    unfold no_linefeed. rewrite (c_len _ _ Hc), Hp, !length_app. rewrite !length_app in Hl. cbn [length] in *.
    replace (Z.of_nat (length p + (length h + S (length v))) - Z.of_nat (length p) - 2)
      with (Z.of_nat (length h) + Z.of_nat (length v) - 1) by lia.
    rewrite swrap_uwrap, swrap_small by (limits; lia). destruct v as [|b v].
    + right. split; [intros ->; by simpl in Hvr|]. eexists. rewrite (proj2 (Z.gtb_gt _ _)) by (simpl; lia). done.
    + left. injection Hvr as -> _. exists v. split; [done|].
      destruct (_ >? _) eqn:E; [zbool; cbn [length] in E; lia|done].
Qed.
End buffer.

(** ** Parsing a request *)

(** The fields parsing an argument does not touch. *)
Definition rest_of (c : client) :=
  (reqtype c, flags c, btype c, cmd_asking c, reply c, reploff c, read_reploff c, pending_querybuf c).

Lemma content_bytes s l : content s l -> sds_bytes s = Some l.
Proof. intros [_ Hl _ [tail Hb]]. unfold sds_bytes. rewrite Hl, Hb. by apply load_prefix. Qed.

Section request.
Context (junk : nat -> byte) (pmax n : Z) (Hpmax : pmax < 2 ^ 60) (Hn : n < 2 ^ 60).

Lemma prepare_big_arg_spec c u ll : buffered n c u -> 0 <= ll <= pmax -> exists c', prepare_big_arg junk c ll = Some c' /\
  buffered n c' u /\ rest_of c' = rest_of c /\ argv c' = argv c /\ multibulklen c' = multibulklen c.
Proof.
  intros Hb Hll. unfold prepare_big_arg. destruct (ll >=? _); [|by exists c]. destruct (qb_left c <=? _); [|by exists c].
  destruct (buffered_trim n Hn c u Hb) as (qb & -> & Hqb). cbn [mbind option_bind].
  assert (Z.of_nat (length u) <= n) as Hu by (destruct Hb as (p & _ & _ & Hl); rewrite length_app in Hl; lia).
  destruct (sdsMakeRoomFor_spec junk qb u (u64 (ll + 2)) Hqb) as (qb' & -> & Hqb' & _).
  { apply uwrap_range. lia. }
  { rewrite uwrap_small by lia. unfold max_sds. lia. }
  cbn [mbind option_bind]. eexists. split; [done|]. split_and!; try done. by exists [].
Qed.

Lemma read_bulklen_spec c u rest a tail : buffered n c u -> u ++ rest = bulk a ++ tail -> Z.of_nat (length a) <= pmax ->
  (exists c' u', read_bulklen junk pmax c = Some (c', Go) /\ buffered n c' u' /\ u' ++ rest = a ++ CRLF ++ tail /\
     (length u' < length u)%nat /\ rest_of c' = rest_of c /\ argv c' = argv c /\ multibulklen c' = multibulklen c /\
     bulklen c' = Z.of_nat (length a)) \/
  (rest <> [] /\ read_bulklen junk pmax c = Some (c, Wait)).
Proof.
  intros Hb Hu Ha. assert (in_s 64 (Z.of_nat (length a))) as Hs by (limits; lia).
  destruct (decimal_plain _ Hs) as [Hp Hlen]. unfold bulk in Hu.
  set (ds := decimal (Z.of_nat (length a))) in *. unfold read_bulklen.
  destruct (header_line_spec n Hn c u rest (36 :: ds) (a ++ CRLF ++ tail) "Protocol error: too big bulk count string" Hb)
    as [(u' & -> & ->)|(Hr & k & ->)].
  - rewrite Hu. cbn [app]. by rewrite <- !app_assoc.
  - by constructor.
  - cbn [length]. lia.
  - left. cbn [mbind option_bind app] in *. rewrite (buffered_get n c _ _ Hb). cbn [mbind option_bind Z.eqb Pos.eqb negb].
    rewrite (buffered_load_1 n c 36 ds (CRLF ++ u') _ Hb) by (cbn [length]; lia). cbn [mbind option_bind].
    unfold ds at 1. rewrite string2ll_complete by done.
    rewrite (proj2 (Z.ltb_ge _ 0)), Z.gtb_ltb, (proj2 (Z.ltb_ge pmax _)) by lia. cbn [orb].
    destruct (prepare_big_arg_spec (with_buf c (querybuf c) (qb_pos c + Z.of_nat (length (36 :: ds)) + 2)) u'
      (Z.of_nat (length a))) as (c' & -> & Hb' & Hrest & Hav & Hm).
    { apply (buffered_advance n c (36 :: ds ++ CRLF)); [cbn [app]; by rewrite <- app_assoc|].
      cbn [length]. rewrite length_app. simpl. lia. }
    { lia. }
    cbn [mbind option_bind]. eexists _, u'. split; [done|]. split_and!; try done.
    + rewrite <- !app_assoc in Hu. cbn [app] in Hu. injection Hu as Hu. rewrite <- ?app_assoc in Hu.
      apply app_inv_head in Hu. injection Hu as Hu. done.
    + cbn [length]. rewrite length_app. simpl. lia.
  - right. split; [done|]. done.
Qed.

(** The two bytes after the bulk are skipped, whatever they are. *)
Lemma read_bulk_any c a x y u : buffered n c (a ++ [x; y] ++ u) -> bulklen c = Z.of_nat (length a) ->
  exists c', read_bulk junk c = Some c' /\ buffered n c' u /\ rest_of c' = rest_of c /\ argv c' = argv c ++ [a] /\
    multibulklen c' = multibulklen c - 1 /\ bulklen c' = -1.
Proof.
  intros Hb Hbl. pose proof Hb as (p & Hc & Hp & Hl). rewrite !length_app in Hl. cbn [length] in Hl.
  unfold read_bulk. rewrite Hbl, (uwrap_small 64) by lia.
  destruct ((qb_pos c =? 0) && _ && _) eqn:E.
  - apply andb_true_iff in E as [[E1 E2]%andb_true_iff E3]. zbool. destruct p as [|]; [|simpl in Hp; lia].
    rewrite (c_len _ _ Hc) in E3. cbn [app] in *. rewrite !length_app in E3. cbn [length] in E3.
    destruct u as [|]; [|simpl in E3; lia].
    destruct (sdsIncrLen_neg (querybuf c) a x [y] Hc) as (qb & Hi & Hqb).
    { rewrite length_app. unfold max_sds. simpl in *. lia. }
    change (- Z.of_nat (S (length [y]))) with (-2) in Hi. rewrite Hi. cbn [mbind option_bind].
    rewrite (content_bytes _ _ Hqb). cbn [mbind option_bind].
    destruct (sdsnewlen_noinit junk (Z.of_nat (length a) + 2)) as (qb2 & t & -> & Ht); [unfold max_sds; lia|].
    cbn [mbind option_bind]. destruct (sdsclear_spec qb2 t Ht) as (qb3 & -> & Hq3). cbn [mbind option_bind].
    eexists. split; [done|]. split_and!; try done. exists []. cbn. split_and!; [done|done|]. simpl in Hl. lia.
  - rewrite (buffered_load n c a ([x; y] ++ u) _ Hb) by done. cbn [mbind option_bind]. rewrite (uwrap_small 64) by lia.
    eexists. split; [done|]. split_and!; try done.
    refine (buffered_advance n c (a ++ [x; y]) u _ _ _); [by rewrite <- app_assoc|]. rewrite length_app. simpl. lia.
Qed.

Lemma read_bulk_spec c a u : buffered n c (a ++ CRLF ++ u) -> bulklen c = Z.of_nat (length a) ->
  exists c', read_bulk junk c = Some c' /\ buffered n c' u /\ rest_of c' = rest_of c /\ argv c' = argv c ++ [a] /\
    multibulklen c' = multibulklen c - 1 /\ bulklen c' = -1.
Proof. apply read_bulk_any. Qed.

(** What is still to come of the arguments [todo], of which the first may have its
    length read already. *)
Definition todo_bytes (bl : Z) (todo : list (list byte)) : list byte :=
  if bl =? -1 then bulks todo
  else match todo with a :: todo => a ++ CRLF ++ bulks todo | [] => [] end.

(** The parser is in the middle of a request with [todo] to read. *)
Definition in_args (c : client) (todo : list (list byte)) : Prop :=
  multibulklen c = Z.of_nat (length todo) /\
  (bulklen c = -1 \/ exists a todo', todo = a :: todo' /\ bulklen c = Z.of_nat (length a)).

Definition args_ok (args : list (list byte)) : Prop := Forall (fun a => Z.of_nat (length a) <= pmax) args.

Lemma bulks_cons a todo : bulks (a :: todo) = bulk a ++ bulks todo.
Proof. done. Qed.

(** The length of the next argument is known, or more data is needed. *)
Lemma next_bulk c u rest a todo tail : buffered n c u -> in_args c (a :: todo) -> Z.of_nat (length a) <= pmax ->
  u ++ rest = todo_bytes (bulklen c) (a :: todo) ++ tail ->
  (exists c' u', (if bulklen c =? -1 then read_bulklen junk pmax c else Some (c, Go)) = Some (c', Go) /\
     buffered n c' u' /\ u' ++ rest = a ++ CRLF ++ bulks todo ++ tail /\ (length u' <= length u)%nat /\
     rest_of c' = rest_of c /\ argv c' = argv c /\ multibulklen c' = multibulklen c /\ bulklen c' = Z.of_nat (length a)) \/
  (rest <> [] /\ (if bulklen c =? -1 then read_bulklen junk pmax c else Some (c, Go)) = Some (c, Wait)).
Proof.
  intros Hb [Hm Hbl] Ha Hu. unfold todo_bytes in Hu. destruct (bulklen c =? -1) eqn:E; zbool.
  - rewrite bulks_cons, <- app_assoc in Hu.
    destruct (read_bulklen_spec c u rest a (bulks todo ++ tail) Hb Hu Ha) as [(c' & u' & ? & ? & ? & ? & ? & ? & ? & ?)|?]; [|by right].
    left. exists c', u'. split_and!; try done. lia.
  - destruct Hbl as [|(a' & todo' & [= <- <-] & Hbl)]; [done|]. left. exists c, u. rewrite <- !app_assoc in Hu.
    split_and!; done.
Qed.

Lemma multibulk_loop_spec rest fuel : forall c u todo tail, buffered n c u -> (length todo <= fuel)%nat -> in_args c todo ->
  args_ok todo -> u ++ rest = todo_bytes (bulklen c) todo ++ tail ->
  exists c' u', rest_of c' = rest_of c /\ buffered n c' u' /\
    ((multibulk_loop junk pmax fuel c = Some (c', true) /\ in_args c' [] /\ bulklen c' = -1 /\
      argv c' = argv c ++ todo /\ u' ++ rest = tail /\ (length u' + length todo <= length u)%nat) \/
     (rest <> [] /\ multibulk_loop junk pmax fuel c = Some (c', false) /\
      exists todo1 todo2, todo = todo1 ++ todo2 /\ todo2 <> [] /\ argv c' = argv c ++ todo1 /\ in_args c' todo2 /\
        u' ++ rest = todo_bytes (bulklen c') todo2 ++ tail)).
Proof.
  induction fuel as [|fuel IH]; intros c u todo tail Hb Hf Hin Hok Hu.
  { destruct todo; [|simpl in Hf; lia]. exists c, u. split_and!; [done..|]. left. destruct Hin as [Hm [Hbl|(? & ? & ? & _)]]; [|done].
    cbn [multibulk_loop]. rewrite Hm. cbn. rewrite app_nil_r. rewrite Hbl in Hu. split_and!; try done; [|lia]. split; [done|by left]. }
  destruct todo as [|a todo].
  { exists c, u. split_and!; [done..|]. left. destruct Hin as [Hm [Hbl|(? & ? & ? & _)]]; [|done].
    cbn [multibulk_loop]. rewrite Hm. cbn. rewrite app_nil_r. rewrite Hbl in Hu. split_and!; try done; [|lia]. split; [done|by left]. }
  pose proof Hin as [Hm _]. cbn [multibulk_loop]. rewrite Hm, (proj2 (Z.eqb_neq _ 0)) by (simpl; lia).
  apply Forall_cons in Hok as [Ha Hok].
  destruct (next_bulk c u rest a todo tail Hb Hin Ha Hu) as [(c1 & u1 & -> & Hb1 & Hu1 & Hl1 & Hr1 & Hav1 & Hm1 & Hbl1)|[Hr ->]].
  2:{ exists c, u. split_and!; [done..|]. right. split_and!; [done|done|]. exists [], (a :: todo). rewrite app_nil_r. done. }
  cbn [mbind option_bind]. rewrite (buffered_left n Hn c1 u1 Hb1), Hbl1.
  pose proof Hpmax as Hpm. rewrite (uwrap_small 64) by lia.
  destruct (Z.of_nat (length u1) <? Z.of_nat (length a) + 2) eqn:E; zbool.
  - exists c1, u1. split_and!; [done..|]. right. split_and!; [|done|].
    { intros ->. apply (f_equal length) in Hu1. rewrite !length_app in Hu1. simpl in Hu1. lia. }
    exists [], (a :: todo). rewrite app_nil_r. split_and!; try done.
    + split; [congruence|]. right. by exists a, todo.
    + unfold todo_bytes. rewrite Hbl1, (proj2 (Z.eqb_neq _ (-1))) by lia. rewrite <- !app_assoc. done.
  - assert (exists u2, u1 = a ++ CRLF ++ u2) as [u2 ->].
    { exists (drop (length (a ++ CRLF)) u1). apply (f_equal (take (length (a ++ CRLF)))) in Hu1. rewrite app_assoc in Hu1.
      rewrite take_app_length, take_app_le in Hu1 by (rewrite length_app; simpl; lia).
      rewrite app_assoc. rewrite <- Hu1 at 1. by rewrite take_drop. }
    destruct (read_bulk_spec c1 a u2 Hb1 Hbl1) as (c2 & -> & Hb2 & Hr2 & Hav2 & Hm2 & Hbl2). cbn [mbind option_bind].
    rewrite <- !app_assoc in Hu1. apply app_inv_head in Hu1. apply app_inv_head in Hu1.
    destruct (IH c2 u2 todo tail) as (c' & u' & Hr' & Hb' & Hcase).
    { done. } { simpl in Hf. lia. } { split; [rewrite Hm2, Hm1, Hm; simpl; lia|by left]. } { done. }
    { unfold todo_bytes. rewrite Hbl2. done. }
    exists c', u'. split_and!; [congruence|done|]. rewrite !length_app in Hl1. change (length CRLF) with 2%nat in Hl1.
    destruct Hcase as [(H1 & H2 & H3 & H4 & H5 & H6)|(H1 & H2 & todo1 & todo2 & -> & H3 & H4 & H5 & H6)].
    + left. split_and!; try done; [|simpl; lia]. rewrite H4, Hav2, Hav1, <- app_assoc. done.
    + right. split_and!; try done. exists (a :: todo1), todo2. split_and!; try done.
      rewrite H4, Hav2, Hav1, <- app_assoc. done.
Qed.
End request.

(** ** Parsing and running a stream of requests *)

Section stream.
Context (junk : nat -> byte) (pmax cmax n : Z) (Hpmax : pmax < 2 ^ 60) (Hn : n < 2 ^ 60).

Definition req_ok (cmd : list (list byte)) : Prop :=
  cmd <> [] /\ Z.of_nat (length cmd) <= 1024 * 1024 /\ args_ok pmax cmd.

Definition idle (c : client) : Prop := multibulklen c = 0 /\ bulklen c = -1 /\ argv c = [].

(** The unparsed bytes [u], with those still to arrive, hold the rest of [cmd]
    and [tail]; the parser is before it or among its arguments. *)
Definition pending (c : client) (cmd : list (list byte)) (tail u rest : list byte) : Prop :=
  (idle c /\ u ++ rest = request cmd ++ tail) \/
  (exists todo, todo <> [] /\ in_args c todo /\ argv c ++ todo = cmd /\
    u ++ rest = todo_bytes (bulklen c) todo ++ tail).

(** The array length at the start of a request. *)
Lemma read_multibulklen_spec c u rest cmd tail : buffered n c u -> idle c -> req_ok cmd ->
  u ++ rest = request cmd ++ tail ->
  (exists u', let c' := with_req (with_buf c (querybuf c) (qb_pos c + Z.of_nat (length u) - Z.of_nat (length u')))
                          (reqtype c) (argv c) (Z.of_nat (length cmd)) (bulklen c) in
     read_multibulklen c = Some (c', Go, false) /\ buffered n c' u' /\ u' ++ rest = bulks cmd ++ tail /\
     (length u' < length u)%nat) \/
  (rest <> [] /\ read_multibulklen c = Some (c, Wait, false)).
Proof.
  intros Hb (Hm & Hbl & Hav) (Hne & Hlen & Hok) Hu. assert (in_s 64 (Z.of_nat (length cmd))) as Hs by (limits; lia).
  destruct (decimal_plain _ Hs) as [Hp Hl]. unfold request in Hu. set (ds := decimal (Z.of_nat (length cmd))) in *.
  unfold read_multibulklen. rewrite Hav. cbn [length Nat.eqb negb].
  destruct (header_line_spec n Hn c u rest (42 :: ds) (bulks cmd ++ tail) "Protocol error: too big mbulk count string" Hb)
    as [(u' & -> & ->)|(Hr & k & ->)].
  - rewrite Hu. cbn [app]. by rewrite <- !app_assoc.
  - by constructor.
  - cbn [length]. lia.
  - left. cbn [mbind option_bind app] in *. rewrite (buffered_get n c _ _ Hb). cbn [mbind option_bind Z.eqb Pos.eqb negb].
    rewrite (buffered_load_1 n c 42 ds (CRLF ++ u') _ Hb) by (cbn [length]; lia). cbn [mbind option_bind].
    unfold ds at 1. rewrite string2ll_complete by done.
    rewrite Z.gtb_ltb, (proj2 (Z.ltb_ge _ _)) by lia.
    rewrite (proj2 (Z.leb_gt _ 0)) by (destruct cmd; [done|simpl; lia]).
    exists u'. replace (qb_pos c + Z.of_nat (length (42 :: ds ++ CRLF ++ u')) - Z.of_nat (length u'))
      with (qb_pos c + Z.of_nat (length (42 :: ds)) + 2) by (cbn [length]; rewrite !length_app; simpl; lia).
    split_and!.
    + cbn. by rewrite Hav.
    + refine (buffered_advance n c (42 :: ds ++ CRLF) u' _ _ _); [cbn [app]; by rewrite <- app_assoc|].
      cbn [length]. rewrite length_app. simpl. lia.
    + rewrite <- !app_assoc in Hu. cbn [app] in Hu. injection Hu as Hu. rewrite <- ?app_assoc in Hu.
      apply app_inv_head in Hu. by injection Hu as Hu.
    + cbn [length]. rewrite length_app. simpl. lia.
  - right. done.
Qed.

Lemma multibulk_spec c u rest cmd tail : buffered n c u -> req_ok cmd -> pending c cmd tail u rest ->
  exists c' u', rest_of c' = rest_of c /\ buffered n c' u' /\
    ((processMultibulkBuffer junk pmax c = Some (c', true) /\ argv c' = cmd /\ u' ++ rest = tail /\ (length u' < length u)%nat) \/
     (rest <> [] /\ processMultibulkBuffer junk pmax c = Some (c', false) /\ pending c' cmd tail u' rest)).
Proof.
  intros Hb Hcmd Hpend. pose proof Hcmd as (Hne & Hlen & Hok). unfold processMultibulkBuffer.
  destruct Hpend as [[Hidle Hu]|(todo & Htodo & Hin & Hcat & Hu)].
  - pose proof Hidle as (Hm & Hbl & Hav). rewrite Hm. cbn [Z.eqb].
    destruct (read_multibulklen_spec c u rest cmd tail Hb Hidle Hcmd Hu) as [(u1 & -> & Hb1 & Hu1 & Hl1)|(Hr & ->)].
    2:{ exists c, u. split_and!; [done..|]. right. split_and!; try done. by left. }
    cbn [mbind option_bind]. set (c1 := with_req _ _ _ _ _) in *.
    destruct (multibulk_loop_spec junk pmax n Hpmax Hn rest (Z.to_nat (multibulklen c1)) c1 u1 cmd tail Hb1)
      as (c' & u' & Hr' & Hb' & Hcase).
    { cbn. lia. } { split; [done|by left]. } { done. } { cbn. by rewrite Hbl. }
    exists c', u'. split_and!; [done|done|].
    destruct Hcase as [(H1 & H2 & H3 & H4 & H5 & H6)|(H1 & H2 & todo1 & todo2 & E & H3 & H4 & H5 & H6)].
    + left. split_and!; try done; [|lia]. rewrite H4. cbn. by rewrite Hav.
    + right. split_and!; try done. right. exists todo2. split_and!; try done. rewrite H4. cbn. by rewrite Hav, E.
  - pose proof Hin as [Hm _]. rewrite (proj2 (Z.eqb_neq (multibulklen c) 0)) by (rewrite Hm; destruct todo; [done|simpl; lia]).
    cbn [mbind option_bind].
    destruct (multibulk_loop_spec junk pmax n Hpmax Hn rest (Z.to_nat (multibulklen c)) c u todo tail Hb)
      as (c' & u' & Hr' & Hb' & Hcase).
    { lia. } { done. } { unfold args_ok in *. rewrite <- Hcat in Hok. by apply Forall_app in Hok as [_ ?]. } { done. }
    exists c', u'. split_and!; [done|done|].
    destruct Hcase as [(H1 & H2 & H3 & H4 & H5 & H6)|(H1 & H2 & todo1 & todo2 & E & H3 & H4 & H5 & H6)].
    + left. split_and!; try done; [congruence|]. destruct todo; [done|simpl in H6; lia].
    + right. split_and!; try done. right. exists todo2. split_and!; try done. by rewrite H4, <- app_assoc, <- E.
Qed.
End stream.

(** ** Serving a connection *)

(** A socket on which [sock] is still to be delivered, with [avail] bytes of it
    now. *)
Definition socket_read (sock : list byte) (avail : Z) (len : Z) : read_result :=
  match take (Z.to_nat (Z.min avail len)) sock with
  | [] => ReadAgain
  | bs => ReadData bs
  end.

(** ** Running commands *)

(** What a command sees of its client and may change, besides the arguments. *)
Definition session (c : client) := (flags c, btype c, cmd_asking c, reply c, reploff c, read_reploff c, pending_querybuf c).

(** The state of the parser, which commands leave alone. *)
Definition parser_state (c : client) := (querybuf c, qb_pos c, reqtype c, multibulklen c, bulklen c).

Definition CLOSING : Z := Z.lor CLIENT_CLOSE_AFTER_REPLY CLIENT_CLOSE_ASAP.

(** What reading requests relies on.  [processCommand] runs on every client that
    is not the master, and does not touch the state of the parser or send protocol
    errors; it may set and clear flags, rewrite the arguments, block the client or
    free it.  When it does not return [C_OK] the client is to be closed or was freed,
    and a freed client is not returned with [C_OK].  [command_inv] is what it needs
    of the server and of the client's flags. *)
Class CommandContract {srv : Type} (processCommand : srv -> client -> option (srv * option client * bool)) := {
  command_inv : srv -> Z -> Prop;
  command_reset s c : command_inv s (flags c) -> command_inv s (flags (resetClient c));
  command_runs s c : command_inv s (flags c) -> has_flag c CLIENT_MASTER = false -> argv c <> [] ->
    exists s' oc ok, processCommand s c = Some (s', oc, ok) /\
      match oc with
      | None => ok = false
      | Some c' => parser_state c' = parser_state c /\ reply c' = reply c /\ has_flag c' CLIENT_MASTER = false /\
          command_inv s' (flags c') /\ (ok = false -> has_flag c' CLOSING = true)
      end;
}.

Section serve.
Context (junk : nat -> byte) (pmax cmax : Z)
  {srv : Type} (processCommand : srv -> client -> option (srv * option client * bool))
  (clientsArePaused lua_timedout : srv -> bool)
  (replicationFeed : srv -> sds -> Z -> srv).

(** Readable events, each with the number of bytes available then: the final
    state, the client unless it was freed, and what was not read. *)
Fixpoint serve (avails : list Z) (sock : list byte) (s : srv) (c : client) : option (srv * option client * list byte) :=
  match avails with
  | [] => Some (s, Some c, sock)
  | avail :: avails =>
      let k := Z.to_nat (Z.min avail (read_length c)) in
      r ← readQueryFromClient junk pmax cmax processCommand clientsArePaused lua_timedout
            replicationFeed s c (socket_read sock avail);
      match r.2 with
      | Some c => serve avails (drop k sock) r.1 c
      | None => Some (r.1, None, drop k sock)
      end
  end.

(** The commands [cmds] are run one after the other, each once: every one is passed to
    [processCommand] as the arguments of the client, in the state of the server and
    of the session its predecessor left, unless that one stopped the client. *)
Inductive served : srv -> Z * Z * bool * list (list byte) * Z * Z * sds -> list (list (list byte)) -> srv ->
    option (Z * Z * bool * list (list byte) * Z * Z * sds) -> Prop :=
  | served_nil s ses : served s ses [] s (Some ses)
  | served_freed s c s' : must_stop clientsArePaused lua_timedout s c = false ->
      processCommand s c = Some (s', None, false) -> served s (session c) [argv c] s' None
  | served_command s c s1 c1 ok cmds s' o : must_stop clientsArePaused lua_timedout s c = false ->
      processCommand s c = Some (s1, Some c1, ok) ->
      served s1 (session (command_done c1 ok)) cmds s' o -> served s (session c) (argv c :: cmds) s' o.

Lemma served_app s ses cmds1 s1 ses1 : served s ses cmds1 s1 (Some ses1) ->
  forall cmds2 s2 o, served s1 ses1 cmds2 s2 o -> served s ses (cmds1 ++ cmds2) s2 o.
Proof.
  intros H. remember (Some ses1) as o1 eqn:E. revert E.
  induction H as [s ses|s c s' Hs Hp|s c s' c' ok cmds s2 o Hs Hp _ IH]; intros E cmds2 s3 o3 H3; simplify_eq; [done|].
  cbn [app]. eapply served_command; [done..|]. by apply IH.
Qed.

Context `{!CommandContract processCommand} (n : Z) (Hpmax : pmax < 2 ^ 60) (Hn : n < 2 ^ 60).

Abbreviation stops := (must_stop clientsArePaused lua_timedout).

Definition ready (c : client) : Prop := idle c /\ reqtype c = 0 /\ has_flag c CLIENT_MASTER = false.

(** Between two steps: [cmds] are still to run, their bytes are the unparsed ones
    and those still to arrive; or the client was stopped before [cmds]. *)
Definition streaming (s : srv) (c : client) (cmds : list (list (list byte))) (u rest : list byte) : Prop :=
  buffered n c u /\ has_flag c CLIENT_MASTER = false /\
  ((cmds = [] /\ ready c /\ command_inv s (flags c) /\ u ++ rest = []) \/
   (exists cmd cmds', cmds = cmd :: cmds' /\ pending c cmd (requests cmds') u rest /\ command_inv s (flags c) /\
      (reqtype c = 0 /\ idle c \/ reqtype c = PROTO_REQ_MULTIBULK /\ stops s c = false)) \/
   (stops s c = true /\ u ++ rest = requests cmds)).

Lemma master_bit c : has_flag c CLIENT_MASTER = Z.testbit (flags c) 1.
Proof. exact (flag_on_bit (flags c) 1 ltac:(lia)). Qed.

Lemma reset_spec c : idle (resetClient c) /\ reqtype (resetClient c) = 0 /\ reply (resetClient c) = reply c /\
  has_flag (resetClient c) CLIENT_MASTER = has_flag c CLIENT_MASTER /\
  querybuf (resetClient c) = querybuf c /\ qb_pos (resetClient c) = qb_pos c.
Proof.
  rewrite !master_bit. destruct c as [qb pos rt av mbl bl f bt ask rep off roff pq]. unfold resetClient. cbv zeta.
  destruct (negb _ && negb _), (has_flag _ CLIENT_REPLY_SKIP_NEXT); cbn [flags with_flags freeClientArgv with_cmd with_req];
    rewrite ?Z.land_spec, ?Z.lor_spec, ?Z.land_spec, ?Z.lnot_spec by lia; split_and!; try done;
    by rewrite ?andb_true_r, ?orb_false_r, ?andb_true_r.
Qed.

Lemma ready_streaming s c cmds u rest : ready c -> command_inv s (flags c) -> buffered n c u -> u ++ rest = requests cmds ->
  streaming s c cmds u rest.
Proof.
  intros (Hi & Hr & Hm) Hinv Hb Hu. split_and!; [done|done|]. destruct cmds as [|cmd cmds]; [by left|]. right; left.
  exists cmd, cmds. split_and!; [done| |done|by left]. by left.
Qed.

(** The flag tests of the loop read the session only. *)
Lemma stops_session s c c' : session c' = session c -> stops s c' = stops s c /\ flags c' = flags c.
Proof. intros E. injection E as Ef _ _ _ _ _ _. unfold must_stop, has_flag. by rewrite Ef. Qed.

Lemma rest_session c c' : rest_of c' = rest_of c -> session c' = session c /\ reqtype c' = reqtype c.
Proof. unfold rest_of, session. by intros [= -> -> -> -> -> -> -> ->]. Qed.

(** A command returned: the client was reset, or it is stopped. *)
Lemma command_done_spec s c ok : has_flag c CLIENT_MASTER = false -> command_inv s (flags c) ->
  (ok = false -> has_flag c CLOSING = true) ->
  parser_state (command_done c ok) = parser_state c /\ stops s (command_done c ok) = true \/
  command_done c ok = resetClient c.
Proof.
  intros Hm Hinv Hcl. unfold command_done, must_stop. destruct ok.
  - rewrite Hm. cbn [andb]. destruct (has_flag c CLIENT_BLOCKED) eqn:Eb; cbn [negb orb]; [|by right].
    destruct (btype c =? BLOCKED_MODULE); cbn [negb]; [|by right]. left. rewrite Eb. by rewrite orb_true_r.
  - left. fold CLOSING. rewrite Hcl by done. by rewrite !orb_true_r.
Qed.

Lemma command_streaming s c c1 ok cmds u rest : buffered n c1 u -> u ++ rest = requests cmds ->
  parser_state c = parser_state c1 -> has_flag c CLIENT_MASTER = false -> command_inv s (flags c) ->
  (ok = false -> has_flag c CLOSING = true) -> streaming s (command_done c ok) cmds u rest.
Proof.
  intros Hb Hu Hps Hm Hinv Hcl. assert (has_flag (command_done c ok) CLIENT_MASTER = false) as Hm'.
  { unfold command_done. destruct ok; [|done]. rewrite Hm. cbn [andb]. destruct (_ || _); [|done].
    by destruct (reset_spec c) as (_ & _ & _ & -> & _). }
  assert (forall c2, querybuf c2 = querybuf c1 -> qb_pos c2 = qb_pos c1 -> buffered n c2 u) as Hbuf.
  { destruct Hb as (p & ? & ? & ?). intros c2 E1 E2. exists p. by rewrite E1, E2. }
  injection Hps as E1 E2 _ _ _. destruct (command_done_spec s c ok Hm Hinv Hcl) as [[Hp Hs]|E].
  - injection Hp as E3 E4 _ _ _. split_and!; [apply Hbuf; congruence|done|]. by right; right.
  - rewrite E in *. destruct (reset_spec c) as (? & ? & _ & _ & E3 & E4).
    apply ready_streaming; [done|by apply command_reset|apply Hbuf; congruence|done].
Qed.

(** The first byte of the unparsed ones, when a request starts there. *)
Lemma request_first cmd tail u rest : u <> [] -> u ++ rest = request cmd ++ tail -> exists u', u = 42 :: u'.
Proof. intros Hne Hu. destruct u as [|b u]; [done|]. injection Hu as -> _. by exists u. Qed.

Abbreviation one := (process_one junk pmax processCommand).

Lemma process_one_spec s c cmd cmds u rest : streaming s c (cmd :: cmds) u rest -> stops s c = false -> u <> [] -> req_ok pmax cmd ->
  (exists c1 s1 oc ok, argv c1 = cmd /\ session c1 = session c /\ processCommand s c1 = Some (s1, oc, ok) /\
     match oc with
     | None => ok = false /\ one s c = Some (s1, None, false)
     | Some c2 => one s c = Some (s1, Some (command_done c2 ok), true) /\
         exists u', streaming s1 (command_done c2 ok) cmds u' rest /\ (length u' < length u)%nat
     end) \/
  (exists c' u', rest <> [] /\ one s c = Some (s, Some c', false) /\ session c' = session c /\
     streaming s c' (cmd :: cmds) u' rest).
Proof.
  intros (Hb & Hm & [[[=] _]|[(? & ? & [= <- <-] & Hpend & Hinv & Hreq)|[Hs _]]]) Hst Hne Hok; [|congruence]. unfold process_one.
  set (c1 := with_req c PROTO_REQ_MULTIBULK (argv c) (multibulklen c) (bulklen c)).
  assert ((if reqtype c =? 0 then
      first ← getb (s_buf (querybuf c)) (qb_pos c);
      Some (with_req c (if first =? 42 then PROTO_REQ_MULTIBULK else PROTO_REQ_INLINE) (argv c) (multibulklen c) (bulklen c))
    else Some c) = Some c1) as ->.
  { destruct Hreq as [[Hr0 Hid]|[Hr2 _]].
    - rewrite Hr0. cbn [Z.eqb]. destruct Hpend as [[_ Hu]|(todo & Ht & [Hml _] & _)].
      + destruct (request_first _ _ _ _ Hne Hu) as [u' ->]. by rewrite (buffered_get n c _ _ Hb).
      + destruct Hid as (Hm0 & _). rewrite Hm0 in Hml. destruct todo; [done|simpl in Hml; lia].
    - rewrite Hr2. cbn. f_equal. unfold c1. rewrite <- Hr2. by destruct c. }
  cbn [mbind option_bind]. replace (reqtype c1 =? PROTO_REQ_INLINE) with false by done.
  replace (reqtype c1 =? PROTO_REQ_MULTIBULK) with true by done.
  destruct (multibulk_spec junk pmax n Hpmax Hn c1 u rest cmd (requests cmds) Hb Hok Hpend) as (c' & u' & Hrest & Hb' & Hcase).
  destruct (rest_session _ _ Hrest) as [Hses Hreq']. change (session c1) with (session c) in Hses.
  destruct (stops_session s _ _ Hses) as [Hst' Hf']. assert (has_flag c' CLIENT_MASTER = false) as Hm'
    by (unfold has_flag; by rewrite Hf').
  destruct Hcase as [(-> & Hav & Hu' & Hl)|(Hr & -> & Hp')]; cbn [mbind option_bind negb].
  - left. destruct Hok as (Hcne & _). rewrite Hav. replace (length cmd =? 0)%nat with false by (by destruct cmd).
    destruct (command_runs s c') as (s1 & oc & ok & Hp & Hoc); [by rewrite Hf'|done|by rewrite Hav|].
    exists c', s1, oc, ok. rewrite Hp. cbn [mbind option_bind]. split_and!; [done..|]. destruct oc as [c2|].
    + destruct Hoc as (Hps & _ & Hm2 & Hinv2 & Hcl). split; [done|]. exists u'. split; [|done]. by apply (command_streaming s1 c2 c').
    + by subst ok.
  - right. exists c', u'. split_and!; [done..|]. split_and!; [done|done|]. right; left.
    exists cmd, cmds. split_and!; [done|done|by rewrite Hf'|]. right. split; [by rewrite Hreq'|congruence].
Qed.

Abbreviation the_loop := (input_loop junk pmax processCommand clientsArePaused lua_timedout).

(** What is left when the loop ends: it ended because there is nothing to parse, or
    because the client is stopped. *)
Definition loop_result (rest : list byte) (s' : srv) (oc : option client) (left : list (list (list byte))) : Prop :=
  match oc with
  | None => True
  | Some c' => exists u', streaming s' c' left u' rest /\ (rest = [] -> u' = [] \/ stops s' c' = true)
  end.

Lemma input_loop_spec rest fuel : forall s c cmds u, streaming s c cmds u rest -> (length u <= fuel)%nat -> Forall (req_ok pmax) cmds ->
  exists s' oc run left, the_loop fuel s c = Some (s', oc) /\ cmds = run ++ left /\
    served s (session c) run s' (session <$> oc) /\ loop_result rest s' oc left.
Proof.
  induction fuel as [|fuel IH]; intros s c cmds u Hst Hfuel Hok; cbn [input_loop].
  all: pose proof Hst as (Hb & Hm & Hcase); rewrite (buffered_pos n c u Hb), negb_involutive;
    destruct (bool_decide_reflect (u = [])) as [-> |Hne];
    [exists s, (Some c), [], cmds; split_and!; [done|done|constructor|]; exists []; split; [done|by left]|].
  all: destruct (stops s c) eqn:Hstop;
    [exists s, (Some c), [], cmds; split_and!; [done|done|constructor|]; exists u; split; [done|by right]|].
  { destruct u; [done|simpl in Hfuel; lia]. }
  destruct cmds as [|cmd cmds].
  { destruct Hcase as [(_ & _ & _ & Hnil)|[(? & ? & [=] & _)|[? _]]]; [by destruct u|congruence]. }
  pose proof Hok as [Hcok Hok']%Forall_cons.
  destruct (process_one_spec s c cmd cmds u rest Hst Hstop Hne Hcok)
    as [(c1 & s1 & oc & ok & Hav & Hses & Hp & Hone)|(c' & u' & Hr & -> & Hses & Hst')]; cbn [mbind option_bind].
  - destruct (stops_session s _ _ Hses) as [Hs1 _]. rewrite Hstop in Hs1. rewrite <- Hses, <- Hav. destruct oc as [c2|].
    + destruct Hone as (-> & u' & Hst' & Hl). cbn [mbind option_bind].
      destruct (IH s1 _ cmds u' Hst' ltac:(lia) Hok') as (s2 & o2 & run & left & -> & -> & Hserved & Hres).
      exists s2, o2, (argv c1 :: run), left. split_and!; [done|done| |done]. by eapply served_command.
    + destruct Hone as (-> & ->). cbn [mbind option_bind]. exists s1, None, [argv c1], cmds. split_and!; [done|done| |done].
      by apply served_freed.
  - exists s, (Some c'), [], (cmd :: cmds). split_and!; [done|done| |].
    + cbn [fmap option_fmap option_map]. rewrite Hses. constructor.
    + exists u'. split; [done|]. by intros ->.
Qed.

Lemma streaming_trim s c cmds u rest qb : streaming s c cmds u rest -> content qb u -> streaming s (with_buf c qb 0) cmds u rest.
Proof.
  intros (Hb & Hm & Hcase) Hqb. split_and!; [|done|done]. exists []. split_and!; [done|done|].
  destruct Hb as (p & _ & _ & Hl). rewrite length_app in Hl. cbn [app]. lia.
Qed.

Definition read_result_ok (rest : list byte) (s' : srv) (oc : option client) (left : list (list (list byte))) : Prop :=
  loop_result rest s' oc left /\ forall c', oc = Some c' -> qb_pos c' = 0.

Lemma processInputBuffer_spec rest s c cmds u : streaming s c cmds u rest -> Forall (req_ok pmax) cmds ->
  exists s' oc run left,
    processInputBuffer junk pmax processCommand clientsArePaused lua_timedout s c = Some (s', oc) /\ cmds = run ++ left /\
    served s (session c) run s' (session <$> oc) /\ read_result_ok rest s' oc left.
Proof.
  intros Hst Hok. unfold processInputBuffer. pose proof Hst as ((p & Hc & Hp & Hl) & _).
  destruct (input_loop_spec rest (length (s_buf (querybuf c))) s c cmds u Hst) as (s' & oc & run & left & -> & Hcat & Hserved & Hres).
  { destruct Hc as [_ _ _ [tail ->]]. rewrite !length_app. lia. } { done. }
  cbn [mbind option_bind]. destruct oc as [c'|]; [|by exists s', None, run, left; split_and!].
  destruct (qb_pos c' =? 0) eqn:E; cbn [negb]; zbool.
  { exists s', (Some c'), run, left. split_and!; [done..|]. split; [done|]. by intros ? [= <-]. }
  destruct Hres as (u' & Hst' & Hrest). pose proof Hst' as (Hb' & _).
  destruct (buffered_trim n Hn c' u' Hb') as (qb & -> & Hqb). cbn [mbind option_bind].
  exists s', (Some (with_buf c' qb 0)), run, left. split_and!; [done..|]. split; [|by intros ? [= <-]].
  exists u'. split; [by apply streaming_trim|done].
Qed.

(** What is buffered or to arrive is no longer than the requests to run. *)
Lemma todo_bytes_length bl todo : (length (todo_bytes bl todo) <= length (bulks todo))%nat.
Proof.
  unfold todo_bytes. destruct (bl =? -1); [done|]. destruct todo as [|a todo]; [done|].
  rewrite bulks_cons. unfold bulk. cbn [app length]. rewrite !length_app. lia.
Qed.

Lemma streaming_length s c cmds u rest : streaming s c cmds u rest -> (length (u ++ rest) <= length (requests cmds))%nat.
Proof.
  intros (_ & _ & [(-> & _ & _ & ->)|[(cmd & cmds' & -> & [[_ ->]|(todo & _ & _ & <- & ->)] & _)|[_ ->]]]); [done|done| |done].
  change (requests (?a :: cmds')) with (request a ++ requests cmds'). rewrite !length_app.
  pose proof (todo_bytes_length (bulklen c) todo). unfold request. cbn [length]. rewrite !length_app.
  unfold bulks at 1. rewrite bind_app, length_app. fold (bulks todo). lia.
Qed.

Lemma requests_app_length a b : (length (requests b) <= length (requests (a ++ b)))%nat.
Proof. unfold requests. rewrite bind_app, length_app. lia. Qed.

Lemma read_length_range c : 1 <= read_length c <= PROTO_IOBUF_LEN.
Proof.
  unfold read_length, PROTO_IOBUF_LEN. destruct (_ && _); [|lia]. destruct (_ && _) eqn:E; [|lia]. zbool. lia.
Qed.

(** Bytes are appended to the unparsed ones. *)
Lemma streaming_append s c cmds u chunk rest qb : streaming s c cmds u (chunk ++ rest) -> content qb (u ++ chunk) ->
  Z.of_nat (length (u ++ chunk)) <= n -> streaming s (with_buf c qb 0) cmds (u ++ chunk) rest.
Proof.
  intros (Hb & Hm & Hcase) Hqb Hl. split_and!; [|done|].
  - exists []. split_and!; done.
  - destruct Hcase as [(-> & Hready & Hinv & Hu)|[(cmd & cmds' & -> & Hpend & Hinv & Hreq)|[Hs Hu]]].
    + left. split_and!; [done..|]. by rewrite <- app_assoc.
    + right; left. exists cmd, cmds'. split_and!; [done| |done|done]. unfold pending in *. by rewrite <- !app_assoc.
    + right; right. split; [done|]. by rewrite <- app_assoc.
Qed.

Abbreviation read_query := (readQueryFromClient junk pmax cmax processCommand clientsArePaused lua_timedout replicationFeed).

(** One readable event. *)
Lemma read_spec sock avail s c cmds u : streaming s c cmds u sock -> qb_pos c = 0 -> (sock = [] -> u = [] \/ stops s c = true) ->
  Forall (req_ok pmax) cmds -> 1 <= avail -> Z.of_nat (length (requests cmds)) <= n -> n <= cmax ->
  let k := Z.to_nat (Z.min avail (read_length c)) in
  exists s' oc run left, read_query s c (socket_read sock avail) = Some (s', oc) /\ cmds = run ++ left /\
    served s (session c) run s' (session <$> oc) /\ read_result_ok (drop k sock) s' oc left.
Proof.
  intros Hst Hpos Hdone Hok Hav Hlen Hmax k. pose proof (read_length_range c) as Hrl. unfold PROTO_IOBUF_LEN in Hrl.
  pose proof Hst as ((p & Hc & Hp & Hl) & Hm & _). destruct p as [|]; [|simpl in Hp; lia]. cbn [app] in Hc, Hl.
  pose proof (streaming_length s c cmds u sock Hst) as Hsl. rewrite length_app in Hsl.
  unfold readQueryFromClient, socket_read. fold k. remember (take k sock) as chunk eqn:Hch.
  assert (sock = chunk ++ drop k sock) as Hsock by (by rewrite Hch, take_drop).
  destruct chunk as [|b chunk'] eqn:Echunk.
  - assert (sock = []) as ->.
    { destruct sock as [|x sock]; [done|]. exfalso. assert (k <> 0%nat) by lia. destruct k; [lia|done]. }
    destruct (sdsMakeRoomFor_spec junk (querybuf c) u (read_length c) Hc) as (qb & -> & Hqb & _); [lia|unfold max_sds; lia|].
    cbn [mbind option_bind]. exists s, (Some (with_buf c qb (qb_pos c))), [], cmds. rewrite drop_nil.
    split_and!; [done|done|constructor|]. split; [|by intros ? [= <-]]. exists u. split; [|done].
    rewrite Hpos. by apply streaming_trim.
  - rewrite <- Echunk in *. assert (chunk <> []) as Hne by (by rewrite Echunk).
    assert (Z.of_nat (length chunk) <= read_length c) as Hcl by (rewrite Hch, length_take; lia).
    destruct (append_room junk (querybuf c) u chunk (read_length c) Hc Hne Hcl) as (qb1 & qb2 & qb & -> & _ & Hw & Hi & Hqb);
      [unfold max_sds; lia|]. cbn [mbind option_bind]. rewrite (c_len _ _ Hc). cbn [querybuf with_buf]. rewrite Hw.
    assert (forall x y, has_flag (with_buf c x y) CLIENT_MASTER = false) as Hnm by (by intros).
    cbn [mbind option_bind]. rewrite Hnm. cbn [mbind option_bind]. rewrite Hi.
    cbn [mbind option_bind]. match goal with |- context [if has_flag ?x CLIENT_MASTER then _ else ?y] =>
      replace x with (with_buf c qb 0) by (unfold with_buf; cbn; by rewrite Hpos) end. rewrite Hnm. cbn [querybuf with_buf].
    assert (Z.of_nat (length (u ++ chunk)) <= n) as Hn2.
    { apply (f_equal length) in Hsock. rewrite !length_app in *. lia. }
    rewrite (c_len _ _ Hqb), Z.gtb_ltb, (proj2 (Z.ltb_ge cmax _)) by lia. rewrite Hsock in Hst.
    pose proof (streaming_append s c cmds u chunk (drop k sock) qb Hst Hqb Hn2) as Hst2.
    unfold processInputBufferAndReplicate. rewrite Hnm. cbn [negb].
    exact (processInputBuffer_spec (drop k sock) s (with_buf c qb 0) cmds (u ++ chunk) Hst2 Hok).
Qed.

(** How the connection is found when all bytes were read. *)
Definition served_out (s' : srv) (oc : option client) (left : list (list (list byte))) (sock' : list byte) : Prop :=
  match oc with
  | None => True
  | Some c' => sock' = [] /\ qb_pos c' = 0 /\ content (querybuf c') (requests left) /\
      (left = [] /\ ready c' \/ stops s' c' = true)
  end.

Lemma serve_spec avails : forall sock s c cmds u, streaming s c cmds u sock -> qb_pos c = 0 -> (sock = [] -> u = [] \/ stops s c = true) ->
  Forall (req_ok pmax) cmds -> Forall (fun a => 1 <= a) avails -> Z.of_nat (length (requests cmds)) <= n -> n <= cmax ->
  (length sock <= length avails)%nat ->
  exists s' oc sock' run left, serve avails sock s c = Some (s', oc, sock') /\ cmds = run ++ left /\
    served s (session c) run s' (session <$> oc) /\ served_out s' oc left sock'.
Proof.
  induction avails as [|avail avails IH]; intros sock s c cmds u Hst Hpos Hdone Hok Hav Hlen Hmax Hsock; simpl in Hsock.
  - destruct sock; [|simpl in Hsock; lia]. specialize (Hdone eq_refl). exists s, (Some c), [], [], cmds.
    split_and!; [done|done|constructor|]. split_and!; [done|done|..];
    destruct Hst as ((p & Hc & Hp & _) & Hm & Hcase); (destruct p; [|simpl in Hp; lia]); cbn [app] in Hc; rewrite ?app_nil_r in Hcase.
    + destruct Hcase as [(-> & _ & _ & ->)|[(cmd & cmds' & -> & Hpend & _ & Hreq)|[_ <-]]]; [done| |done].
      destruct Hpend as [[_ Hu]|(todo & Hne & [Hml Hbl] & _ & Hu)]; [rewrite app_nil_r in Hu; by subst u|]. exfalso.
      destruct Hreq as [[_ (Hm0 & _)]|[_ Hs]]; [rewrite Hm0 in Hml; destruct todo; [done|simpl in Hml; lia]|].
      destruct Hdone as [-> |]; [|congruence]. rewrite app_nil_r in Hu. symmetry in Hu. apply app_nil in Hu as [Hu _].
      unfold todo_bytes in Hu. destruct todo as [|a todo]; [done|]. destruct (bulklen c =? -1); [done|]. by destruct a.
    + destruct Hcase as [(-> & Hready & _)|[(cmd & cmds' & -> & Hpend & _ & Hreq)|[Hs _]]]; [by left| |by right].
      destruct Hdone as [-> |]; [|by right]. exfalso.
      destruct Hpend as [[_ [=]]|(todo & Hne & [_ Hbl] & _ & Hu)]. symmetry in Hu. apply app_nil in Hu as [Hu _].
      unfold todo_bytes in Hu. destruct todo as [|a todo]; [done|]. destruct (bulklen c =? -1); [done|]. by destruct a.
  - apply Forall_cons in Hav as [Ha Hav]. cbn [serve].
    destruct (read_spec sock avail s c cmds u Hst Hpos Hdone Hok Ha Hlen Hmax)
      as (s1 & oc & run1 & left1 & -> & -> & Hserved1 & Hres & Hpos1).
    cbn [mbind option_bind fst snd]. destruct oc as [c1|]; [|by eexists s1, None, _, run1, left1].
    destruct Hres as (u1 & Hst1 & Hdone1). apply Forall_app in Hok as [_ Hok]. pose proof (requests_app_length run1 left1).
    destruct (IH (drop (Z.to_nat (Z.min avail (read_length c))) sock) s1 c1 left1 u1 Hst1 (Hpos1 _ eq_refl) Hdone1 Hok Hav)
      as (s2 & o2 & sock2 & run2 & left2 & -> & -> & Hserved2 & Hout); [lia|done| |].
    { rewrite length_drop. pose proof (read_length_range c). lia. }
    exists s2, o2, sock2, (run1 ++ run2), left2. split_and!; [done|by rewrite app_assoc| |done].
    by eapply served_app.
Qed.

(** C5: Any list of requests, with arguments of arbitrary bytes, encoded and sent over
    a connection that delivers the bytes in pieces of any size, is parsed and run
    exactly: the commands are passed to [processCommand] one after the other, every one
    once and with its arguments, each in the state of server and session the one before
    left.  All of them are run, and the client is ready for the next request, unless a
    command stops the client (it is to be closed, blocked or paused), in which case
    the requests after that command stay in the query buffer, or frees it.
    [processCommand] may do whatever [CommandContract] allows.  The client is not
    the connection to a master. *)
Theorem requests_served cmds avails s c : Forall (req_ok pmax) cmds -> Forall (fun a => 1 <= a) avails ->
  Z.of_nat (length (requests cmds)) <= n -> n <= cmax -> (length (requests cmds) <= length avails)%nat ->
  ready c -> command_inv s (flags c) -> qb_pos c = 0 -> content (querybuf c) [] ->
  exists s' oc sock' run left, serve avails (requests cmds) s c = Some (s', oc, sock') /\ cmds = run ++ left /\
    served s (session c) run s' (session <$> oc) /\ served_out s' oc left sock'.
Proof.
  intros Hok Hav Hlen Hmax Hsock Hready Hinv Hpos Hc. apply (serve_spec avails (requests cmds) s c cmds []); try done; [|by left].
  apply ready_streaming; [done|done| |done]. exists []. split_and!; [done|done|]. simpl. lia.
Qed.
End serve.

(** A new connection. *)
Definition junk_qb : nat -> byte := fun _ => 13.
Definition new_client (qb : sds) : client := mkClient qb 0 0 [] 0 (-1) 0 0 false [] 0 0 qb.

(** ** Arbitrary input *)

Lemma strchr_total ch u tail : ch <> 0 ->
  strchr_in (u ++ 0 :: tail) ch = Some None \/
  exists a b, u = a ++ ch :: b /\ Forall (fun x => x <> 0 /\ x <> ch) a /\
    strchr_in (u ++ 0 :: tail) ch = Some (Some (Z.of_nat (length a))).
Proof.
  intros Hch. induction u as [|x u IH]; cbn [strchr_in app].
  { rewrite (proj2 (Z.eqb_neq 0 ch)) by done. by left. }
  destruct (x =? ch) eqn:E; zbool; [subst; right; by exists [], u|].
  destruct (x =? 0) eqn:E0; zbool; [by left|].
  destruct IH as [-> |(a & b & -> & Ha & ->)]; [by left|]. right. exists (x :: a), b. split_and!; [done|by constructor|].
  cbn [mbind option_bind length]. do 2 f_equal. lia.
Qed.

(** The client is closed once its replies are written. *)
Definition closing (c : client) : Prop := has_flag c CLIENT_CLOSE_AFTER_REPLY = true.

Section safety.
Context (junk : nat -> byte) (pmax n : Z) (Hpmax : 0 <= pmax < 2 ^ 60) (Hn : n < 2 ^ 60).

Lemma header_line_total c u err : buffered n c u ->
  (exists a b, u = a ++ 13 :: b /\ b <> [] /\ Forall (fun x => x <> 0 /\ x <> 13) a /\
     header_line c err = Some (c, (Go, Z.of_nat (length a)))) \/
  (exists k, header_line c err = Some (c, (Wait, k))) \/ header_line c err = Some (protocol_error c err, (Error, 0)).
Proof.
  intros Hb. destruct (buffered_drop n c u Hb) as [tail Hd]. unfold header_line, strchr_qb. rewrite Hd.
  destruct (strchr_total 13 u tail) as [-> |(a & b & -> & Ha & ->)]; [done| |]; cbn [mbind option_bind].
  - destruct (_ >? _); [by right; right|]. right; left. by eexists.
  - unfold no_linefeed. destruct Hb as (p & Hc & Hp & Hl). rewrite (c_len _ _ Hc), Hp, !length_app. rewrite !length_app in Hl.
    cbn [length] in *. replace (Z.of_nat (length p + (length a + S (length b))) - Z.of_nat (length p) - 2)
      with (Z.of_nat (length a) + Z.of_nat (length b) - 1) by lia.
    rewrite swrap_uwrap, swrap_small by (limits; lia). destruct (_ >? _) eqn:E; [right; left; by eexists|]. zbool.
    left. exists a, b. split_and!; try done. intros ->. simpl in E. lia.
Qed.

(** The line without its first character, and what follows the newline. *)
Lemma header_parts c x a b : buffered n c ((x :: a) ++ 13 :: b) -> b <> [] ->
  load (s_buf (querybuf c)) (qb_pos c + 1) (Z.of_nat (length (x :: a)) - 1) = Some a /\
  exists y u', b = y :: u' /\ buffered n (with_buf c (querybuf c) (qb_pos c + Z.of_nat (length (x :: a)) + 2)) u'.
Proof.
  intros Hb Hne. split.
  - apply (buffered_load_1 n c x a (13 :: b)); [done|]. cbn [length]. lia.
  - destruct b as [|y u']; [done|]. exists y, u'. split; [done|].
    apply (buffered_advance n c ((x :: a) ++ [13; y]) u'); [by rewrite <- app_assoc|]. rewrite length_app. cbn [length]. lia.
Qed.

(** Parsing keeps the other fields, or reports an error and closes. *)
Definition steps_to (c c' : client) : Prop :=
  reqtype c' = reqtype c /\ (rest_of c' = rest_of c \/ flags c' = Z.lor (flags c) CLIENT_CLOSE_AFTER_REPLY).

Lemma steps_same c c' : rest_of c' = rest_of c -> steps_to c c'.
Proof. intros H. split; [|by left]. unfold rest_of in H. by injection H. Qed.

Lemma steps_trans c c1 c2 : rest_of c1 = rest_of c -> steps_to c1 c2 -> steps_to c c2.
Proof.
  intros H1 [H2 H3]. unfold steps_to. pose proof H1 as E. unfold rest_of in E. injection E as Er Ef _ _ _ _ _ _.
  rewrite Er in H2. rewrite Ef in H3. split; [done|]. destruct H3 as [H3|H3]; [left; congruence|by right].
Qed.

(** An error result. *)
Ltac fails := eexists; split; [done|]; split; [done|]; split; [|done]; split; [done|by right].

Lemma read_bulklen_total c u : buffered n c u ->
  (exists c' u', read_bulklen junk pmax c = Some (c', Go) /\ buffered n c' u' /\ (length u' <= length u)%nat /\
     rest_of c' = rest_of c /\ argv c' = argv c /\ multibulklen c' = multibulklen c /\ 0 <= bulklen c' <= pmax) \/
  read_bulklen junk pmax c = Some (c, Wait) \/
  (exists c', read_bulklen junk pmax c = Some (c', Error) /\ buffered n c' u /\ steps_to c c' /\
     flags c' = Z.lor (flags c) CLIENT_CLOSE_AFTER_REPLY).
Proof.
  intros Hb. unfold read_bulklen.
  destruct (header_line_total c u "Protocol error: too big bulk count string" Hb) as [(a & b & -> & Hne & Ha & ->)|[[k ->]| ->]];
    cbn [mbind option_bind].
  2:{ by right; left. }
  2:{ right; right. fails. }
  destruct a as [|x a].
  { cbn [app] in Hb. rewrite (buffered_get n c _ _ Hb). cbn. right; right. fails. }
  pose proof Hb as Hb0. cbn [app] in Hb0. rewrite (buffered_get n c _ _ Hb0). cbn [mbind option_bind].
  destruct (x =? 36) eqn:Ex; cbn [negb].
  2:{ right; right. fails. }
  destruct (header_parts c x a b Hb Hne) as (-> & y & u' & -> & Hb'). cbn [mbind option_bind].
  destruct (string2ll a) as [ll|].
  2:{ right; right. fails. }
  destruct ((ll <? 0) || (ll >? pmax)) eqn:El.
  { right; right. fails. }
  zbool. destruct (prepare_big_arg_spec junk pmax n ltac:(lia) Hn _ u' ll Hb' ltac:(lia)) as (c' & -> & Hbc & Hr & Hav & Hm).
  cbn [mbind option_bind]. left. eexists _, u'. split; [done|]. split_and!; try done; rewrite length_app; simpl; lia.
Qed.

Lemma split_bulk (u : list byte) k : 0 <= k -> k + 2 <= Z.of_nat (length u) ->
  exists a x y u', u = a ++ [x; y] ++ u' /\ Z.of_nat (length a) = k.
Proof.
  intros Hk Hle. exists (take (Z.to_nat k) u). destruct (drop (Z.to_nat k) u) as [|x [|y u']] eqn:E;
    [apply (f_equal length) in E; rewrite length_drop in E; simpl in E; lia..|].
  exists x, y, u'. cbn [app]. rewrite <- E, take_drop, length_take. split; [done|lia].
Qed.

(** The state between two calls of the multibulk parser. *)
Definition args_wf (c : client) : Prop := 0 < multibulklen c /\ (bulklen c = -1 \/ 0 <= bulklen c <= pmax).

Lemma multibulk_loop_total fuel : forall c u, buffered n c u -> multibulklen c <= Z.of_nat fuel ->
  0 <= multibulklen c -> (bulklen c = -1 \/ 0 < multibulklen c /\ 0 <= bulklen c <= pmax) ->
  exists c' ok u', multibulk_loop junk pmax fuel c = Some (c', ok) /\ buffered n c' u' /\ steps_to c c' /\
    (length u' <= length u)%nat /\
    if (ok : bool) then multibulklen c' = 0 /\ bulklen c' = -1 /\ rest_of c' = rest_of c /\
        Z.of_nat (length (argv c')) = Z.of_nat (length (argv c)) + multibulklen c /\
        (0 < multibulklen c -> (length u' < length u)%nat)
    else args_wf c' \/ flags c' = Z.lor (flags c) CLIENT_CLOSE_AFTER_REPLY.
Proof.
  induction fuel as [|fuel IH]; intros c u Hb Hf Hm Hbl; cbn [multibulk_loop];
    (destruct (multibulklen c =? 0) eqn:E0; zbool;
      [exists c, true, u; split_and!; [done|done|by apply steps_same|done|done|lia|done|lia|lia]|]); [lia|].
  assert (exists c1 v u1, (if bulklen c =? -1 then read_bulklen junk pmax c else Some (c, Go)) = Some (c1, v) /\
    buffered n c1 u1 /\ (length u1 <= length u)%nat /\ steps_to c c1 /\
    (v = Go -> rest_of c1 = rest_of c /\ argv c1 = argv c /\ multibulklen c1 = multibulklen c /\ 0 <= bulklen c1 <= pmax) /\
    (v <> Go -> c1 = c /\ bulklen c = -1 \/ flags c1 = Z.lor (flags c) CLIENT_CLOSE_AFTER_REPLY))
    as (c1 & v & u1 & -> & Hb1 & Hl1 & Hs1 & Hgo & Hstop).
  { destruct (bulklen c =? -1) eqn:Ebl; zbool.
    - destruct (read_bulklen_total c u Hb) as [(c' & u' & -> & ? & ? & ? & ? & ? & ?)|[-> |(c' & -> & ? & ? & ?)]].
      + exists c', Go, u'. split_and!; try done. by apply steps_same.
      + exists c, Wait, u. split_and!; try done; [by apply steps_same|]. intros _. by left.
      + exists c', Error, u. split_and!; try done. intros _. by right.
    - exists c, Go, u. split_and!; try done; [by apply steps_same|]. intros _. split_and!; try done; lia. }
  cbn [mbind option_bind]. destruct v; [|clear Hgo..].
  2,3: exists c1, false, u1; split_and!; try done; destruct (Hstop ltac:(done)) as [[-> Hb0]|?]; [left; split; [lia|by left]|by right].
  destruct (Hgo eq_refl) as (Hr1 & Hav1 & Hm1 & Hbl1). clear Hgo Hstop. rewrite (buffered_left n Hn c1 u1 Hb1).
  rewrite (uwrap_small 64) by lia. destruct (Z.of_nat (length u1) <? bulklen c1 + 2) eqn:E; zbool.
  { exists c1, false, u1. split_and!; try done. left. split; [lia|by right]. }
  destruct (split_bulk u1 (bulklen c1)) as (a & x & y & u2 & -> & Ha); [lia|lia|].
  destruct (read_bulk_any junk n Hn c1 a x y u2 Hb1 ltac:(lia)) as (c2 & -> & Hb2 & Hr2 & Hav2 & Hm2 & Hbl2).
  cbn [mbind option_bind].
  destruct (IH c2 u2 Hb2 ltac:(lia) ltac:(lia) ltac:(by left)) as (c' & ok & u' & -> & Hb' & Hs' & Hl' & Hcase).
  rewrite !length_app in *. simpl in Hl1. assert (rest_of c2 = rest_of c) as Hr20 by congruence.
  exists c', ok, u'. split_and!; [done|done|by eapply steps_trans|lia|]. destruct ok.
  - destruct Hcase as (H1 & H2 & H3 & H4 & H5). split_and!; [done|done|congruence| |lia].
    rewrite H4, Hav2, length_app, Hav1. simpl. lia.
  - destruct Hcase as [?|Hfl]; [by left|]. right. rewrite Hfl. f_equal. unfold rest_of in Hr20. by injection Hr20.
Qed.

(** The connection between two calls of the parser. *)
Definition conn_wf (c : client) (u : list byte) : Prop :=
  (reqtype c = 0 \/ reqtype c = PROTO_REQ_INLINE) /\ idle c \/
  reqtype c = PROTO_REQ_MULTIBULK /\ (idle c /\ (exists u', u = 42 :: u') \/ args_wf c).

Lemma read_multibulklen_total c u : buffered n c (42 :: u) -> idle c ->
  (exists c' ok u', read_multibulklen c = Some (c', Go, ok) /\ buffered n c' u' /\ (length u' <= length u)%nat /\
     rest_of c' = rest_of c /\ bulklen c' = -1 /\ 0 <= multibulklen c' /\ argv c' = [] /\
     (ok = false -> 0 < multibulklen c')) \/
  read_multibulklen c = Some (c, Wait, false) \/
  (exists c', read_multibulklen c = Some (c', Error, false) /\ buffered n c' (42 :: u) /\ steps_to c c' /\
     flags c' = Z.lor (flags c) CLIENT_CLOSE_AFTER_REPLY).
Proof.
  intros Hb (Hm & Hbl & Hav). unfold read_multibulklen. rewrite Hav. cbn [length Nat.eqb negb].
  destruct (header_line_total c _ "Protocol error: too big mbulk count string" Hb) as [(a & b & Hu & Hne & Ha & ->)|[[k ->]| ->]];
    cbn [mbind option_bind].
  2:{ by right; left. }
  2:{ right; right. fails. }
  rewrite (buffered_get n c _ _ Hb). cbn [mbind option_bind Z.eqb Pos.eqb negb].
  destruct a as [|x a]; [done|]. injection Hu as <- Hu. rewrite Hu in Hb.
  destruct (header_parts c 42 a b Hb Hne) as (-> & y & u' & -> & Hb'). cbn [mbind option_bind]. rewrite <- Hu in Hb.
  destruct (string2ll a) as [ll|]; [|right; right; fails].
  destruct (ll >? 1024 * 1024) eqn:El; [right; right; fails|]. zbool.
  left. assert (length u' <= length u)%nat as Hlu by (rewrite Hu, length_app; simpl; lia).
  destruct (ll <=? 0) eqn:E0; zbool.
  - eexists _, true, u'. split; [done|]. split_and!; try done. cbn. lia.
  - eexists _, false, u'. split; [done|]. split_and!; try done; cbn; lia.
Qed.

Lemma multibulk_total c u : buffered n c u -> reqtype c = PROTO_REQ_MULTIBULK -> conn_wf c u ->
  exists c' ok u', processMultibulkBuffer junk pmax c = Some (c', ok) /\ buffered n c' u' /\ steps_to c c' /\
    (length u' <= length u)%nat /\
    if (ok : bool) then rest_of c' = rest_of c /\ (length u' < length u)%nat
    else conn_wf c' u' \/ flags c' = Z.lor (flags c) CLIENT_CLOSE_AFTER_REPLY.
Proof.
  intros Hb Hreq Hwf. unfold processMultibulkBuffer.
  destruct Hwf as [[[Hr|Hr] _]|(_ & [[Hidle [u' ->]]|Hargs])]; [by rewrite Hreq in Hr..| |].
  - pose proof Hidle as (Hm & _). rewrite Hm. cbn [Z.eqb].
    destruct (read_multibulklen_total c u' Hb Hidle) as [(c1 & ok & u1 & -> & Hb1 & Hl1 & Hr1 & Hbl1 & Hm1 & Hav1 & Hpos)|[-> |(c1 & -> & Hb1 & Hs1 & Hf1)]];
      cbn [mbind option_bind].
    + destruct ok.
      { exists c1, true, u1. split_and!; try done; [by apply steps_same|simpl; lia|simpl; lia]. }
      destruct (multibulk_loop_total (Z.to_nat (multibulklen c1)) c1 u1 Hb1 ltac:(lia) ltac:(lia) ltac:(by left))
        as (c' & ok & u2 & -> & Hb' & Hs' & Hl' & Hcase).
      exists c', ok, u2. split_and!; [done|done|by eapply steps_trans|simpl; lia|]. destruct ok.
      * destruct Hcase as (_ & _ & ? & _). split; [congruence|simpl; lia].
      * assert (flags c1 = flags c /\ reqtype c1 = reqtype c) as [Hf Hrq] by (unfold rest_of in Hr1; by injection Hr1).
        destruct Hcase as [?|Hfl]; [|right; congruence]. left. right. destruct Hs' as [Hreq' _].
        split; [congruence|by right].
    + exists c, false, (42 :: u'). split_and!; try done; [by apply steps_same|]. left. right. split; [done|]. left. eauto.
    + exists c1, false, (42 :: u'). split_and!; try done. by right.
  - pose proof Hargs as [Hm Hbl]. rewrite (proj2 (Z.eqb_neq (multibulklen c) 0)) by lia. cbn [mbind option_bind].
    destruct (multibulk_loop_total (Z.to_nat (multibulklen c)) c u Hb ltac:(lia) ltac:(lia) ltac:(lia))
      as (c' & ok & u2 & -> & Hb' & Hs' & Hl' & Hcase).
    exists c', ok, u2. split_and!; [done|done|done|done|]. destruct ok.
    + destruct Hcase as (_ & _ & ? & _ & Hlt). split; [done|auto].
    + destruct Hcase as [?|?]; [|by right]. left. right. destruct Hs' as [Hreq' _]. split; [congruence|by right].
Qed.

Lemma inline_args_total vec : Forall (fun b => exists l, content b l) vec -> is_Some (inline_args vec).
Proof.
  induction 1 as [|b vec [l Hl] _ [r IH]]; [by eexists|]. cbn [inline_args]. rewrite IH. cbn [mbind option_bind].
  destruct (negb _); [|by eexists]. rewrite (content_bytes _ _ Hl). by eexists.
Qed.

Lemma inline_total c u : buffered n c u ->
  exists c' ok u', processInlineBuffer junk c = Some (c', ok) /\ buffered n c' u' /\ steps_to c c' /\
    (length u' <= length u)%nat /\
    if (ok : bool) then rest_of c' = rest_of c /\ (length u' < length u)%nat
    else c' = c /\ u' = u \/ flags c' = Z.lor (flags c) CLIENT_CLOSE_AFTER_REPLY.
Proof.
  intros Hb. destruct (buffered_drop n c u Hb) as [tail Hd]. unfold processInlineBuffer, strchr_qb. rewrite Hd.
  destruct (strchr_total 10 u tail) as [-> |(a & b & -> & Ha & ->)]; [done| |]; cbn [mbind option_bind].
  { destruct (_ >? _).
    - exists (protocol_error c "Protocol error: too big inline request"), false, u.
      split_and!; try done; [split; [done|by right]|by right].
    - exists c, false, u. split_and!; try done; [by apply steps_same|by left]. }
  assert (exists a' lf, a = a' ++ lf /\
    (if negb (Z.of_nat (length a) =? 0) then
       b0 ← getb (s_buf (querybuf c)) (qb_pos c + Z.of_nat (length a) - 1);
       Some (if b0 =? 13 then (Z.of_nat (length a) - 1, 2) else (Z.of_nat (length a), 1))
     else Some (Z.of_nat (length a), 1)) = Some (Z.of_nat (length a'), Z.of_nat (length lf) + 1)) as (a' & lf & -> & ->).
  { destruct a as [|z a0 _] eqn:Ea using rev_ind; [by exists [], []|]. rewrite length_app. cbn [length].
    rewrite (proj2 (Z.eqb_neq _ 0)) by lia. cbn [negb]. destruct Hb as (p & [_ _ _ [tl Hbuf]] & Hp & _).
    rewrite Hbuf, Hp. replace (Z.of_nat (length p) + Z.of_nat (length a0 + 1) - 1) with (Z.of_nat (length (p ++ a0)))
      by (rewrite length_app; lia).
    rewrite <- !app_assoc, (app_assoc p a0). cbn [app]. rewrite getb_app by done. cbn [mbind option_bind].
    destruct (z =? 13); [exists a0, [z]; split; [done|]; do 2 f_equal; simpl; lia|].
    exists (a0 ++ [z]), []. rewrite app_nil_r, length_app. split; [done|]. do 2 f_equal; simpl; lia. }
  cbn [mbind option_bind]. rewrite <- app_assoc in Hb. rewrite (buffered_load n c a' _ _ Hb) by done. cbn [mbind option_bind].
  apply Forall_app in Ha as [Ha _].
  assert (Z.of_nat (length a') < max_sds) as Hmax.
  { destruct Hb as (p & _ & _ & Hl). rewrite !length_app in Hl. unfold max_sds. lia. }
  assert (cstring a') as Hcs by (eapply Forall_impl; [exact Ha|]; tauto).
  destruct (splitargs_holds (StringBuilder0 := sds_builder junk) a' Hcs Hmax) as (r & -> & Hr). cbn [mbind option_bind].
  assert (steps_to c (protocol_error c "Protocol error: unbalanced quotes in request")) as Herr by (split; [done|by right]).
  destruct r as [vec|].
  2:{ exists (protocol_error c "Protocol error: unbalanced quotes in request"), false, (a' ++ lf ++ 10 :: b).
      rewrite <- app_assoc. split_and!; try done. by right. }
  destruct (inline_args_total vec Hr) as [av ->]. cbn [mbind option_bind].
  eexists _, true, b. split; [done|]. split_and!; try done; [|by apply steps_same|rewrite !length_app; simpl; lia..].
  refine (buffered_advance n c (a' ++ lf ++ [10]) b _ _ _); [by rewrite <- !app_assoc|].
  destruct Hb as (p & _ & Hp & Hl). rewrite !length_app in *. simpl in *. rewrite uwrap_small by lia. lia.
Qed.
End safety.

Section serve_safety.
Context (junk : nat -> byte) (pmax cmax : Z)
  {srv : Type} (processCommand : srv -> client -> option (srv * option client * bool))
  (clientsArePaused lua_timedout : srv -> bool)
  (replicationFeed : srv -> sds -> Z -> srv)
  `{!CommandContract processCommand}
  (n : Z) (Hpmax : 0 <= pmax < 2 ^ 60) (Hn : n < 2 ^ 60) (errors : list (list byte)).

Abbreviation stops := (must_stop clientsArePaused lua_timedout).

(** The connection is well formed, or stopped for good; a client that was sent a
    protocol error is to be closed. *)
Definition conn_inv (s : srv) (c : client) (u : list byte) : Prop :=
  buffered n c u /\ has_flag c CLIENT_MASTER = false /\ (stops s c = true \/ command_inv s (flags c) /\ conn_wf pmax c u) /\
  (reply c <> errors -> closing c).

Lemma close_bit c : has_flag c CLIENT_CLOSE_AFTER_REPLY = Z.testbit (flags c) 6.
Proof. exact (flag_on_bit (flags c) 6 ltac:(lia)). Qed.

Lemma closing_stops s c : closing c -> stops s c = true.
Proof.
  unfold closing, must_stop, has_flag. intros H. rewrite Z.land_lor_distr_r. destruct (Z.lor _ _ =? 0) eqn:E; zbool; cbn [negb];
    [|by rewrite !orb_true_r]. apply Z.lor_eq_0_iff in E as [E _]. by rewrite E in H.
Qed.

(** A step of the parser: the session is kept, or an error closes the client. *)
Lemma steps_conn c c' : steps_to c c' -> session c' = session c \/
  (closing c' /\ has_flag c' CLIENT_MASTER = has_flag c CLIENT_MASTER).
Proof.
  intros [_ [Hr|Hf]]; [left; by apply rest_session|right]. unfold closing. rewrite close_bit, !master_bit, Hf, !Z.lor_spec.
  by rewrite orb_true_r, orb_false_r.
Qed.

Lemma reset_conn s c u : buffered n c u -> has_flag c CLIENT_MASTER = false -> command_inv s (flags c) -> reply c = errors ->
  conn_inv s (resetClient c) u.
Proof.
  intros (p & H1 & H2 & H3) Hm Hinv He. destruct (reset_spec c) as (Hi & Hrq & Hrep & Hm' & Hqb & Hpos).
  split_and!; [exists p; by rewrite Hqb, Hpos|congruence| |congruence].
  right. split; [by apply command_reset|]. left. split; [by left|done].
Qed.

Lemma command_conn s c c1 ok u : buffered n c1 u -> parser_state c = parser_state c1 -> has_flag c CLIENT_MASTER = false ->
  command_inv s (flags c) -> (ok = false -> has_flag c CLOSING = true) -> reply c = errors ->
  conn_inv s (command_done c ok) u.
Proof.
  intros (p & H1 & H2 & H3) Hps Hm Hinv Hcl He. injection Hps as E1 E2 _ _ _.
  assert (buffered n c u) as Hb by (exists p; by rewrite E1, E2).
  destruct (command_done_spec processCommand clientsArePaused lua_timedout s c ok Hm Hinv Hcl) as [[Hp Hs]| ->];
    [|by apply reset_conn].
  unfold command_done in *. destruct ok; [|split_and!; [done|done|by left|congruence]]. rewrite Hm in *. cbn [andb] in *.
  destruct (_ || _); [by apply reset_conn|]. split_and!; [done|done|by left|congruence].
Qed.

Lemma process_one_total s c u : conn_inv s c u -> stops s c = false -> u <> [] ->
  exists s' oc go, process_one junk pmax processCommand s c = Some (s', oc, go) /\
    forall c', oc = Some c' -> exists u', conn_inv s' c' u' /\ (length u' <= length u)%nat /\ (go = true -> (length u' < length u)%nat).
Proof.
  intros (Hb & Hm & [Hs|[Hinv Hwf]] & Hrep) Hst Hne; [congruence|]. unfold process_one. destruct u as [|x u]; [done|].
  assert (reply c = errors) as He.
  { destruct (decide (reply c = errors)) as [|Hn0]; [done|]. apply Hrep, (closing_stops s) in Hn0. congruence. }
  assert (exists c1, (if reqtype c =? 0 then
      first ← getb (s_buf (querybuf c)) (qb_pos c);
      Some (with_req c (if first =? 42 then PROTO_REQ_MULTIBULK else PROTO_REQ_INLINE) (argv c) (multibulklen c) (bulklen c))
    else Some c) = Some c1 /\ buffered n c1 (x :: u) /\ session c1 = session c /\ conn_wf pmax c1 (x :: u) /\
    (reqtype c1 = PROTO_REQ_INLINE \/ reqtype c1 = PROTO_REQ_MULTIBULK)) as (c1 & -> & Hb1 & Hses1 & Hwf1 & Hreq1).
  { destruct (reqtype c =? 0) eqn:E; zbool.
    - rewrite (buffered_get n c _ _ Hb). cbn [mbind option_bind]. eexists. split; [done|].
      destruct Hwf as [[_ Hid]|[Hr _]]; [|by rewrite Hr in E]. destruct (x =? 42) eqn:Ex; zbool.
      + split_and!; try done; [|by right]. right. split; [done|]. left. split; [done|]. subst x. by exists u.
      + split_and!; try done; [|by left]. left. split; [by right|done].
    - exists c. split_and!; try done. destruct Hwf as [[[?|?] _]|[? _]]; [done|by left|by right]. }
  cbn [mbind option_bind].
  assert (exists c' ok u', (if reqtype c1 =? PROTO_REQ_INLINE then processInlineBuffer junk c1
      else if reqtype c1 =? PROTO_REQ_MULTIBULK then processMultibulkBuffer junk pmax c1 else None) = Some (c', ok) /\
    buffered n c' u' /\ steps_to c1 c' /\ (length u' <= length (x :: u))%nat /\
    if (ok : bool) then rest_of c' = rest_of c1 /\ (length u' < length (x :: u))%nat
    else conn_wf pmax c' u' \/ flags c' = Z.lor (flags c1) CLIENT_CLOSE_AFTER_REPLY)
    as (c' & ok & u' & -> & Hb' & Hs & Hl & Hcase).
  { destruct Hreq1 as [Hr|Hr]; rewrite Hr; cbn.
    - destruct (inline_total junk pmax n Hpmax Hn c1 (x :: u) Hb1) as (c' & ok & u' & -> & ? & ? & ? & Hcase).
      exists c', ok, u'. split_and!; try done. destruct ok; [done|]. destruct Hcase as [[-> ->]|?]; [by left|by right].
    - by apply (multibulk_total junk pmax n Hpmax Hn c1 (x :: u)). }
  assert (forall c2, session c2 = session c1 -> has_flag c2 CLIENT_MASTER = false /\ command_inv s (flags c2) /\ reply c2 = errors)
    as Hkeep.
  { intros c2 E. rewrite Hses1 in E. injection E as Ef _ _ Er _ _ _. unfold has_flag. rewrite Ef, Er. done. }
  cbn [mbind option_bind]. destruct ok; cbn [negb].
  - destruct Hcase as [Hr Hlt]. destruct (Hkeep c') as (Hm' & Hinv' & He'); [by apply rest_session|].
    destruct (length (argv c') =? 0)%nat eqn:E0.
    + eexists s, _, true. split; [done|]. intros ? [= <-]. exists u'. split; [by apply reset_conn|done].
    + destruct (command_runs s c' Hinv' Hm') as (s1 & oc & ok & -> & Hoc); [by destruct (argv c')|]. cbn [mbind option_bind].
      destruct oc as [c2|]; [|subst ok; by eexists s1, None, false]. destruct Hoc as (Hps & Hr2 & Hm2 & Hinv2 & Hcl).
      eexists s1, _, true. split; [done|]. intros ? [= <-]. exists u'. split; [|done].
      by apply (command_conn s1 c2 c'); [..|congruence].
  - eexists s, _, false. split; [done|]. intros ? [= <-]. exists u'. split; [|done].
    destruct (Hkeep c1 eq_refl) as (Hm1 & _). destruct (steps_conn c1 c' Hs) as [E|[Hcl Hm']].
    + destruct (Hkeep c' E) as (Hm' & Hinv' & He'). split_and!; [done|done| |congruence].
      destruct Hcase as [?|Hf]; [by right|]. left. apply closing_stops. unfold closing.
      rewrite close_bit, Hf, Z.lor_spec. by rewrite orb_true_r.
    + split_and!; [done|congruence|left; by apply closing_stops|done].
Qed.

Lemma input_loop_total fuel : forall s c u, conn_inv s c u -> (length u <= fuel)%nat ->
  exists s' oc, input_loop junk pmax processCommand clientsArePaused lua_timedout fuel s c = Some (s', oc) /\
    forall c', oc = Some c' -> exists u', conn_inv s' c' u' /\ (length u' <= length u)%nat.
Proof.
  induction fuel as [|fuel IH]; intros s c u Hinv Hfuel; cbn [input_loop]; pose proof Hinv as (Hb & _);
    rewrite (buffered_pos n c u Hb), negb_involutive;
    (destruct (bool_decide_reflect (u = [])) as [-> |Hne]; [eexists s, _; split; [done|]; intros ? [= <-]; by exists []|]);
    (destruct (stops s c) eqn:Hstop; [eexists s, _; split; [done|]; intros ? [= <-]; by exists u|]).
  { destruct u; [done|simpl in Hfuel; lia]. }
  destruct (process_one_total s c u Hinv Hstop Hne) as (s1 & oc & go & -> & Hoc). cbn [mbind option_bind].
  destruct oc as [c1|]; [|by eexists s1, None; destruct go]. destruct (Hoc c1 eq_refl) as (u1 & Hinv1 & Hl & Hlt).
  destruct go; [|eexists s1, _; split; [done|]; intros ? [= <-]; by exists u1].
  destruct (IH s1 c1 u1 Hinv1) as (s2 & o2 & -> & Ho2); [specialize (Hlt eq_refl); lia|].
  exists s2, o2. split; [done|]. intros c2 E. destruct (Ho2 c2 E) as (u2 & ? & ?). exists u2. split; [done|lia].
Qed.

Lemma conn_trim s c u qb : conn_inv s c u -> content qb u -> conn_inv s (with_buf c qb 0) u.
Proof.
  intros ((p & _ & _ & Hl) & Hcase) Hqb. rewrite length_app in Hl. split; [|done]. exists []. split_and!; [done|done|simpl; lia].
Qed.

Lemma conn_append s c u chunk qb : conn_inv s c u -> content qb (u ++ chunk) -> Z.of_nat (length (u ++ chunk)) <= n ->
  conn_inv s (with_buf c qb 0) (u ++ chunk).
Proof.
  intros (_ & Hm & Hcase & Hrep) Hqb Hl. split_and!; [exists []; split_and!; done|done| |done].
  destruct Hcase as [?|(? & Hwf)]; [by left|]. right. split; [done|].
  destruct Hwf as [?|(? & [[? [u' ->]]|?])]; [by left|right..]; (split; [done|]); [left|by right].
  split; [done|]. by exists (u' ++ chunk).
Qed.

Lemma read_total sock avail s c u : conn_inv s c u -> qb_pos c = 0 -> Z.of_nat (length (u ++ sock)) <= n ->
  exists s' oc, readQueryFromClient junk pmax cmax processCommand clientsArePaused lua_timedout
      replicationFeed s c (socket_read sock avail) = Some (s', oc) /\
    forall c', oc = Some c' -> exists u', conn_inv s' c' u' /\ qb_pos c' = 0 /\
      Z.of_nat (length (u' ++ drop (Z.to_nat (Z.min avail (read_length c))) sock)) <= n.
Proof.
  intros Hinv Hpos Hlen. set (k := Z.to_nat _). pose proof (read_length_range c) as Hrl. unfold PROTO_IOBUF_LEN in Hrl.
  pose proof Hinv as ((p & Hc & Hp & _) & Hm & _). destruct p as [|]; [|simpl in Hp; lia]. cbn [app] in Hc.
  unfold readQueryFromClient, socket_read. fold k. remember (take k sock) as chunk eqn:Hch.
  assert (length (u ++ sock) = length (u ++ chunk) + length (drop k sock))%nat as Hsplit.
  { rewrite Hch, !length_app, length_take, length_drop. lia. }
  destruct chunk as [|b chunk'] eqn:Echunk.
  - destruct (sdsMakeRoomFor_spec junk (querybuf c) u (read_length c) Hc) as (qb & -> & Hqb & _);
      [lia|rewrite length_app in Hlen; unfold max_sds; lia|].
    cbn [mbind option_bind]. eexists _, _. split; [done|]. intros c' [= <-]. exists u. rewrite Hpos.
    split_and!; [by apply conn_trim|done|]. rewrite app_nil_r in Hsplit. rewrite length_app. lia.
  - rewrite <- Echunk in *. assert (chunk <> []) as Hne by (by rewrite Echunk).
    assert (Z.of_nat (length chunk) <= read_length c) as Hcl by (rewrite Hch, length_take; lia).
    destruct (append_room junk (querybuf c) u chunk (read_length c) Hc Hne Hcl) as (qb1 & qb2 & qb & -> & _ & Hw & Hi & Hqb);
      [rewrite length_app in Hlen; unfold max_sds; lia|]. cbn [mbind option_bind]. rewrite (c_len _ _ Hc). cbn [querybuf with_buf].
    rewrite Hw. cbn [mbind option_bind].
    assert (forall x y, has_flag (with_buf c x y) CLIENT_MASTER = false) as Hnm by (by intros).
    rewrite Hnm. cbn [mbind option_bind]. rewrite Hi. cbn [mbind option_bind].
    match goal with |- context [if has_flag ?x CLIENT_MASTER then _ else ?y] =>
      replace x with (with_buf c qb 0) by (unfold with_buf; cbn; by rewrite Hpos) end.
    rewrite Hnm. cbn [querybuf with_buf].
    destruct (_ >? cmax); [eexists _, None; split; [done|]; done|].
    pose proof (conn_append s c u chunk qb Hinv Hqb ltac:(lia)) as Hinv2.
    unfold processInputBufferAndReplicate, processInputBuffer. rewrite Hnm. cbn [negb].
    destruct (input_loop_total (length (s_buf qb)) s (with_buf c qb 0) (u ++ chunk) Hinv2) as (s' & oc & Hloop & Hoc).
    { destruct Hqb as [_ _ _ [tail ->]]. rewrite !length_app. lia. }
    cbn [querybuf with_buf]. rewrite Hloop. cbn [mbind option_bind]. destruct oc as [c'|]; [|by eexists _, None].
    destruct (Hoc c' eq_refl) as (u' & Hinv' & Hl'). destruct (qb_pos c' =? 0) eqn:E; cbn [negb]; zbool.
    + eexists _, _. split; [done|]. intros ? [= <-]. exists u'. split_and!; try done. rewrite length_app. lia.
    + pose proof Hinv' as [Hb' _]. destruct (buffered_trim n Hn c' u' Hb') as (qb' & -> & Hqb'). cbn [mbind option_bind].
      eexists _, _. split; [done|]. intros ? [= <-]. exists u'. split_and!; [by apply conn_trim|done|]. rewrite length_app. lia.
Qed.

Lemma serve_total avails : forall sock s c u, conn_inv s c u -> qb_pos c = 0 -> Z.of_nat (length (u ++ sock)) <= n ->
  exists s' oc sock', serve junk pmax cmax processCommand clientsArePaused lua_timedout replicationFeed
      avails sock s c = Some (s', oc, sock') /\
    forall c', oc = Some c' -> exists u', conn_inv s' c' u' /\ qb_pos c' = 0.
Proof.
  induction avails as [|avail avails IH]; intros sock s c u Hinv Hpos Hlen; cbn [serve].
  - exists s, (Some c), sock. split; [done|]. intros c' [= <-]. by exists u.
  - destruct (read_total sock avail s c u Hinv Hpos Hlen) as (s1 & oc & -> & Hoc). cbn [mbind option_bind fst snd].
    destruct oc as [c1|]; [|by exists s1, None, (drop (Z.to_nat (Z.min avail (read_length c))) sock)].
    destruct (Hoc c1 eq_refl) as (u1 & Hinv1 & Hpos1 & Hlen1). by apply (IH _ s1 c1 u1).
Qed.

(** C17: Reading requests is safe on every input: whatever bytes arrive on a connection
    that is not to a master, in whatever pieces, no access leaves the query buffer, no
    assertion fails, no panic is reached and no freed client is used, and the state of
    the connection stays well formed.  A client that was sent a protocol error is
    marked to be closed.  The commands found in the input are run by any
    [processCommand] within [CommandContract]: it may change flags, block, close
    or free the client. *)
Theorem protocol_safe avails sock s c : ready c -> command_inv s (flags c) -> qb_pos c = 0 -> content (querybuf c) [] ->
  reply c = errors -> Z.of_nat (length sock) <= n ->
  exists s' oc sock', serve junk pmax cmax processCommand clientsArePaused lua_timedout replicationFeed
      avails sock s c = Some (s', oc, sock') /\
    forall c', oc = Some c' -> (exists u', conn_inv s' c' u' /\ qb_pos c' = 0) /\ (reply c' <> errors -> closing c').
Proof.
  intros (Hi & Hr & Hm) Hinv Hpos Hc Hrep Hlen.
  destruct (serve_total avails sock s c []) as (s' & oc & sock' & -> & Hoc); [|done|done|].
  - split_and!; [exists []; split_and!; [done|done|simpl; lia]|done| |congruence]. right. split; [done|]. left. split; [by left|done].
  - exists s', oc, sock'. split; [done|]. intros c' ->. destruct (Hoc c' eq_refl) as (u' & Hinv' & Hp).
    split; [by exists u'|]. by apply Hinv'.
Qed.
End serve_safety.
