(* ===== verification/Multi.v ===== *)
(** * Transactions and optimistic locking (src/redis-5.0.7/src/multi.c, server.c)

    The commands MULTI, EXEC, DISCARD, WATCH and UNWATCH, the marking of
    clients whose watched keys are modified, and the way of a command through the
    server: the guards of [processCommand], the queueing of commands inside a
    transaction, [call] and the propagation to the append only file and to the
    replicas.  The clients are a finite map; the [watched_keys] dictionaries of
    the databases are one finite map from (database, key) to the list of the
    clients that watch it.  What ordinary commands do to the data set is a
    parameter, [run]: its result says which keys it reported as modified, which
    databases it flushed, which clients it killed.  Left out: monitors, the slow
    log, statistics, blocked clients, Lua clients and
    module filters.  [None] is a failed
    assertion, a null pointer, or a nesting of transactions. *)

From S2P Require Import Prelude ServerDefs.
From stdpp Require Import gmap strings.

Local Open Scope Z_scope.

(** ** Commands *)

(** The functions of the command table that the code compares with. *)
Inductive proc :=
  | PAuth | PExec | PDiscard | PMulti | PWatch | PUnwatch | PPing
  | PSubscribe | PUnsubscribe | PPsubscribe | PPunsubscribe
  | PReplconf | PShutdown | PScript | POther (n : nat).

#[export] Instance proc_eq_dec : EqDecision proc.
Proof. solve_decision. Defined.

(** [cmd_getkeys] is [getkeys_proc != NULL]. *)
Record redisCommand := mkCmd {
  cmd_name : list byte;
  cmd_proc : proc;
  cmd_arity : Z;
  cmd_flags : Z;
  cmd_getkeys : bool;
  cmd_firstkey : Z
}.

Definition cmd_is (cmd : redisCommand) (p : proc) : bool := bool_decide (cmd_proc cmd = p).

Record multiCmd := mkMc { mc_argv : list (list byte); mc_cmd : redisCommand }.

Inductive reply :=
  | RShared (name : string)
  | RError (msg : string)
  | RMultiBulkLen (n : Z)
  | RData (bs : list byte).

(** ** Clients and server *)

Record client := mkClient {
  c_flags : Z;
  c_db : Z;
  c_authenticated : bool;
  c_argv : list (list byte);
  c_cmd : option redisCommand;
  mstate_commands : list multiCmd;
  mstate_cmd_flags : Z;
  watched_keys : list (Z * list byte);
  c_reply : list reply
}.

Definition set_flags (f : Z -> Z) (c : client) : client :=
  mkClient (f (c_flags c)) (c_db c) (c_authenticated c) (c_argv c) (c_cmd c)
    (mstate_commands c) (mstate_cmd_flags c) (watched_keys c) (c_reply c).

Definition set_cmd (argv : list (list byte)) (cmd : option redisCommand) (c : client) : client :=
  mkClient (c_flags c) (c_db c) (c_authenticated c) argv cmd
    (mstate_commands c) (mstate_cmd_flags c) (watched_keys c) (c_reply c).

Definition set_mstate (cmds : list multiCmd) (fl : Z) (c : client) : client :=
  mkClient (c_flags c) (c_db c) (c_authenticated c) (c_argv c) (c_cmd c)
    cmds fl (watched_keys c) (c_reply c).

Definition set_watched (l : list (Z * list byte)) (c : client) : client :=
  mkClient (c_flags c) (c_db c) (c_authenticated c) (c_argv c) (c_cmd c)
    (mstate_commands c) (mstate_cmd_flags c) l (c_reply c).

Definition set_session (db : Z) (auth : bool) (c : client) : client :=
  mkClient (c_flags c) db auth (c_argv c) (c_cmd c)
    (mstate_commands c) (mstate_cmd_flags c) (watched_keys c) (c_reply c).

Definition add_reply (r : list reply) (c : client) : client :=
  mkClient (c_flags c) (c_db c) (c_authenticated c) (c_argv c) (c_cmd c)
    (mstate_commands c) (mstate_cmd_flags c) (watched_keys c) (c_reply c ++ r).

Definition c_flag (c : client) (mask : Z) : bool := flag_on (c_flags c) mask.

Definition initClientMultiState (c : client) : client := set_mstate [] 0 c.

Definition flagTransaction (c : client) : client :=
  if c_flag c CLIENT_MULTI then set_flags (fun f => Z.lor f CLIENT_DIRTY_EXEC) c else c.

(** Add the current command to the queue. *)
Definition queueMultiCommand (c : client) : option client :=
  cmd ← c_cmd c;
  Some (set_mstate (mstate_commands c ++ [mkMc (c_argv c) cmd]) (Z.lor (mstate_cmd_flags c) (cmd_flags cmd)) c).

Section server.
Context {D : Type}.

(** What a command did besides answering: a key it modified, a database it is
    about to flush (with the data set at that time), a client it closed. *)
Inductive event :=
  | EvTouch (db : Z) (key : list byte)
  | EvFlush (dbid : Z) (data : D)
  | EvKill (id : nat).

(** The result of an ordinary command.  [o_flags] are propagation flags it set
    on the client; [o_also] are the commands it passed to [alsoPropagate] with
    their targets. *)
Record outcome := mkOut {
  o_data : D;
  o_dirty : Z;
  o_events : list event;
  o_argv : list (list byte);
  o_cmd : redisCommand;
  o_reply : list reply;
  o_flags : Z;
  o_also : list (list (list byte) * Z);
  o_db : Z;
  o_auth : bool;
  o_master : bool
}.

(** [masterhost] is [server.masterhost != NULL].  [aof] and [repl] are the
    commands sent to the append only file and to the replicas.  [history] is not
    part of the program: it records the events, to state theorems about them. *)
Record server := mkServer {
  clients : gmap nat client;
  watchers : gmap (Z * list byte) (list nat);
  data : D;
  dirty : Z;
  masterhost : bool;
  aof : list (list (list byte));
  repl : list (list (list byte));
  history : list event
}.

(** The settings and conditions that are fixed while a command is processed.
    [redirected]: [getNodeByQuery] does not give this node; [disk_error]: the
    result of [writeCommandsDeniedByDiskError], [Some true] for the RDB error;
    [few_good_slaves]: the options for a minimum of replicas are set and there are
    fewer. *)
Record env := mkEnv {
  loading : bool;
  aof_on : bool;
  has_backlog : bool;
  has_slaves : bool;
  requirepass : bool;
  cluster_enabled : bool;
  redirected : bool;
  maxmemory : bool;
  lua_timedout : bool;
  disk_error : option bool;
  few_good_slaves : bool;
  repl_slave_ro : bool;
  repl_connected : bool;
  repl_serve_stale_data : bool
}.

Implicit Types (s : server) (id : nat) (e : env).

Definition set_clients (f : gmap nat client -> gmap nat client) s : server :=
  mkServer (f (clients s)) (watchers s) (data s) (dirty s) (masterhost s) (aof s) (repl s) (history s).

Definition set_watchers (f : gmap (Z * list byte) (list nat) -> gmap (Z * list byte) (list nat)) s : server :=
  mkServer (clients s) (f (watchers s)) (data s) (dirty s) (masterhost s) (aof s) (repl s) (history s).

Definition set_data (d : D) (n : Z) (m : bool) s : server :=
  mkServer (clients s) (watchers s) d n m (aof s) (repl s) (history s).

Definition feed (toaof torepl : list (list (list byte))) s : server :=
  mkServer (clients s) (watchers s) (data s) (dirty s) (masterhost s) (aof s ++ toaof) (repl s ++ torepl) (history s).

Definition record_event (ev : event) s : server :=
  mkServer (clients s) (watchers s) (data s) (dirty s) (masterhost s) (aof s) (repl s) (history s ++ [ev]).

(** Change the client [id]. *)
Definition upd id (f : client -> client) s : server := set_clients (alter f id) s.

Definition addReply id (r : reply) s : server := upd id (add_reply [r]) s.

(** ** Watched keys *)

Definition watchForKey s id (key : list byte) : option server :=
  c ← clients s !! id;
  if bool_decide ((c_db c, key) ∈ watched_keys c) then Some s
  else
    let wk := (c_db c, key) in
    let l := default [] (watchers s !! wk) in
    let s := set_watchers <[wk := l ++ [id]]> s in
    Some (upd id (fun c => set_watched (watched_keys c ++ [wk]) c) s).

(** [listDelNode(clients, listSearchKey(clients, c))] *)
Fixpoint remove_client id (l : list nat) : option (list nat) :=
  match l with
  | [] => None
  | x :: l => if decide (x = id) then Some l else l' ← remove_client id l; Some (x :: l')
  end.

(** The loop over the client's list; every round removes one key from it. *)
Fixpoint unwatch_loop s id (wks : list (Z * list byte)) : option server :=
  match wks with
  | [] => Some s
  | wk :: wks =>
      l ← watchers s !! wk;
      l ← remove_client id l;
      let s := set_watchers (if bool_decide (l = []) then delete wk else <[wk := l]>) s in
      unwatch_loop (upd id (set_watched wks) s) id wks
  end.

Definition unwatchAllKeys s id : option server :=
  c ← clients s !! id;
  unwatch_loop s id (watched_keys c).

Definition dirty_cas (c : client) : client := set_flags (fun f => Z.lor f CLIENT_DIRTY_CAS) c.

(** A database without watched keys has no entry for the key. *)
Definition touchWatchedKey s (db : Z) (key : list byte) : server :=
  match watchers s !! (db, key) with
  | None => s
  | Some l => foldl (fun s id => upd id dirty_cas s) s l
  end.

Context (key_exists : D -> Z -> list byte -> bool).

(** The data set is the one about to be flushed. *)
Definition flush_hits (d : D) (dbid : Z) (wk : Z * list byte) : bool :=
  ((dbid =? -1) || (wk.1 =? dbid)) && key_exists d wk.1 wk.2.

Definition touchWatchedKeysOnFlush s (d : D) (dbid : Z) : server :=
  set_clients (fmap (fun c => if existsb (flush_hits d dbid) (watched_keys c) then dirty_cas c else c)) s.

(** ** Transactions *)

Definition discardTransaction s id : option server :=
  let s := upd id (fun c => set_flags (fun f => Z.land f (Z.lnot (Z.lor (Z.lor CLIENT_MULTI CLIENT_DIRTY_CAS) CLIENT_DIRTY_EXEC)))
                              (initClientMultiState c)) s in
  unwatchAllKeys s id.

(** The parts of [freeClient] that concern transactions; the client is gone. *)
Definition freeClient s id : option server :=
  match clients s !! id with
  | None => Some s
  | Some _ => s ← unwatchAllKeys s id; Some (set_clients (delete id) s)
  end.

Definition multiCommand s id : option server :=
  c ← clients s !! id;
  if c_flag c CLIENT_MULTI then Some (addReply id (RError "MULTI calls can not be nested") s)
  else Some (addReply id (RShared "ok") (upd id (set_flags (fun f => Z.lor f CLIENT_MULTI)) s)).

Definition discardCommand s id : option server :=
  c ← clients s !! id;
  if negb (c_flag c CLIENT_MULTI) then Some (addReply id (RError "DISCARD without MULTI") s)
  else s ← discardTransaction s id; Some (addReply id (RShared "ok") s).

Fixpoint watch_loop s id (keys : list (list byte)) : option server :=
  match keys with
  | [] => Some s
  | key :: keys => s ← watchForKey s id key; watch_loop s id keys
  end.

Definition watchCommand s id : option server :=
  c ← clients s !! id;
  if c_flag c CLIENT_MULTI then Some (addReply id (RError "WATCH inside MULTI is not allowed") s)
  else s ← watch_loop s id (tail (c_argv c)); Some (addReply id (RShared "ok") s).

Definition unwatchCommand s id : option server :=
  s ← unwatchAllKeys s id;
  let s := upd id (set_flags (fun f => Z.land f (Z.lnot CLIENT_DIRTY_CAS))) s in
  Some (addReply id (RShared "ok") s).

(** ** Propagation *)

(** Whether [replicationFeedSlaves] feeds anybody. *)
Definition feeds_slaves e s : bool := negb (masterhost s) && (has_backlog e || has_slaves e).

Definition propagate e s (argv : list (list byte)) (flags : Z) : server :=
  feed (if aof_on e && flag_on flags PROPAGATE_AOF then [argv] else [])
       (if flag_on flags PROPAGATE_REPL && feeds_slaves e s then [argv] else []) s.

Definition execCommandPropagateMulti e s : server :=
  propagate e s [bytes_of "MULTI"] (Z.lor PROPAGATE_AOF PROPAGATE_REPL).

(** The flags [call] passes to [propagate] for the command itself. *)
Definition propagate_flags (c : client) (flags dirty : Z) : Z :=
  let p := PROPAGATE_NONE in
  let p := if negb (dirty =? 0) then Z.lor p (Z.lor PROPAGATE_AOF PROPAGATE_REPL) else p in
  let p := if c_flag c CLIENT_FORCE_REPL then Z.lor p PROPAGATE_REPL else p in
  let p := if c_flag c CLIENT_FORCE_AOF then Z.lor p PROPAGATE_AOF else p in
  let p := if c_flag c CLIENT_PREVENT_REPL_PROP || negb (flag_on flags CMD_CALL_PROPAGATE_REPL)
           then Z.land p (Z.lnot PROPAGATE_REPL) else p in
  if c_flag c CLIENT_PREVENT_AOF_PROP || negb (flag_on flags CMD_CALL_PROPAGATE_AOF)
  then Z.land p (Z.lnot PROPAGATE_AOF) else p.

Definition also_target (flags target : Z) : Z :=
  let t := if negb (flag_on flags CMD_CALL_PROPAGATE_AOF) then Z.land target (Z.lnot PROPAGATE_AOF) else target in
  if negb (flag_on flags CMD_CALL_PROPAGATE_REPL) then Z.land t (Z.lnot PROPAGATE_REPL) else t.

(** The [server.also_propagate] array at the end of [call]. *)
Definition propagate_also e s (flags : Z) (ops : list (list (list byte) * Z)) : server :=
  if flag_on flags CMD_CALL_PROPAGATE then
    foldl (fun s op => let t := also_target flags op.2 in
                       if t =? 0 then s else propagate e s op.1 t) s ops
  else s.

Definition PROP_FLAGS : Z := Z.lor (Z.lor CLIENT_FORCE_AOF CLIENT_FORCE_REPL) CLIENT_PREVENT_PROP.

(** ** Running a command *)

Context (run : D -> Z -> list (list byte) -> redisCommand -> bool -> outcome).

(** A command that closes its own client, [self], only marks it. *)
Definition apply_event (self : option nat) s (ev : event) : option server :=
  let s := record_event ev s in
  match ev with
  | EvTouch db key => Some (touchWatchedKey s db key)
  | EvFlush dbid d => Some (touchWatchedKeysOnFlush s d dbid)
  | EvKill k =>
      if decide (self = Some k) then Some (upd k (set_flags (fun f => Z.lor f CLIENT_CLOSE_AFTER_REPLY)) s)
      else freeClient s k
  end.

Fixpoint apply_events (self : option nat) s (evs : list event) : option server :=
  match evs with
  | [] => Some s
  | ev :: evs => s ← apply_event self s ev; apply_events self s evs
  end.

(** [c->cmd->proc(c)] for an ordinary command, with its [alsoPropagate] calls. *)
Definition ordinary s id (c : client) (cmd : redisCommand) : option (server * list (list (list byte) * Z)) :=
  let o := run (data s) (c_db c) (c_argv c) cmd (masterhost s) in
  s ← apply_events (Some id) s (o_events o);
  let s := set_data (o_data o) (dirty s + o_dirty o) (o_master o) s in
  let s := upd id (fun c => add_reply (o_reply o) (set_session (o_db o) (o_auth o)
                    (set_cmd (o_argv o) (Some (o_cmd o)) (set_flags (fun f => Z.lor f (Z.land (o_flags o) PROP_FLAGS)) c)))) s in
  Some (s, o_also o).

(** The loop over the queue; [done] are the entries already run and restored. *)
Fixpoint exec_loop (call : Z -> server -> nat -> option server) e s id
    (done todo : list multiCmd) (must_propagate : bool) : option (server * bool) :=
  match todo with
  | [] => Some (s, must_propagate)
  | mc :: todo =>
      let s := upd id (set_cmd (mc_argv mc) (Some (mc_cmd mc))) s in
      let first := negb must_propagate && negb (flag_on (cmd_flags (mc_cmd mc)) (Z.lor CMD_READONLY CMD_ADMIN)) in
      let s := if first then execCommandPropagateMulti e s else s in
      let must_propagate := must_propagate || first in
      s ← call (if loading e then CMD_CALL_NONE else CMD_CALL_FULL) s id;
      c ← clients s !! id;
      cmd ← c_cmd c;
      let done := done ++ [mkMc (c_argv c) cmd] in
      let s := upd id (fun c => set_mstate (done ++ todo) (mstate_cmd_flags c) c) s in
      exec_loop call e s id done todo must_propagate
  end.

Definition execCommand (call : Z -> server -> nat -> option server) e s id : option server :=
  c ← clients s !! id;
  let was_master := negb (masterhost s) in
  if negb (c_flag c CLIENT_MULTI) then Some (addReply id (RError "EXEC without MULTI") s)
  else if c_flag c (Z.lor CLIENT_DIRTY_CAS CLIENT_DIRTY_EXEC) then
    discardTransaction
      (addReply id (RShared (if c_flag c CLIENT_DIRTY_EXEC then "execaborterr" else "nullmultibulk")) s) id
  else if negb (loading e) && masterhost s && repl_slave_ro e && negb (c_flag c CLIENT_MASTER) &&
          flag_on (mstate_cmd_flags c) CMD_WRITE then
    discardTransaction
      (addReply id (RError "Transaction contains write commands but instance is now a read-only slave. EXEC aborted.") s) id
  else
    s ← unwatchAllKeys s id;
    let s := addReply id (RMultiBulkLen (Z.of_nat (length (mstate_commands c)))) s in
    r ← exec_loop call e s id [] (mstate_commands c) false;
    let '(s, must_propagate) := r in
    let s := upd id (set_cmd (c_argv c) (c_cmd c)) s in
    s ← discardTransaction s id;
    if (must_propagate : bool) then
      let is_master := negb (masterhost s) in
      let s := set_data (data s) (dirty s + 1) (masterhost s) s in
      Some (if has_backlog e && was_master && negb is_master
            then feed [] [[bytes_of "EXEC"]] s else s)
    else Some s.

Definition call_proc (call : Z -> server -> nat -> option server) e s id (c : client) (cmd : redisCommand)
    : option (server * list (list (list byte) * Z)) :=
  match cmd_proc cmd with
  | PMulti => s ← multiCommand s id; Some (s, [])
  | PExec => s ← execCommand call e s id; Some (s, [])
  | PDiscard => s ← discardCommand s id; Some (s, [])
  | PWatch => s ← watchCommand s id; Some (s, [])
  | PUnwatch => s ← unwatchCommand s id; Some (s, [])
  | _ => ordinary s id c cmd
  end.

(** The part of [call] after the command ran: [dirty0] and [client_old_flags] are
    the values from before, [also] the array [server.also_propagate]. *)
Definition after_call e (flags client_old_flags dirty0 : Z) s id (also : list (list (list byte) * Z)) : option server :=
  let d := Z.max 0 (dirty s - dirty0) in
  c ← clients s !! id;
  cmd ← c_cmd c;
  let s :=
    if flag_on flags CMD_CALL_PROPAGATE && negb (Z.land (c_flags c) CLIENT_PREVENT_PROP =? CLIENT_PREVENT_PROP) then
      let p := propagate_flags c flags d in
      if negb (p =? PROPAGATE_NONE) && negb (flag_on (cmd_flags cmd) CMD_MODULE)
      then propagate e s (c_argv c) p else s
    else s in
  let s := upd id (set_flags (fun f => Z.lor (Z.land f (Z.lnot PROP_FLAGS)) (Z.land client_old_flags PROP_FLAGS))) s in
  Some (propagate_also e s flags also).

(** [depth] bounds the nesting of [call] through [execCommand]. *)
Fixpoint call (depth : nat) e (flags : Z) s id : option server :=
  match depth with
  | O => None
  | S depth =>
      c ← clients s !! id;
      cmd ← c_cmd c;
      let s' := upd id (set_flags (fun f => Z.land f (Z.lnot PROP_FLAGS))) s in
      r ← call_proc (call depth e) e s' id c cmd;
      after_call e flags (c_flags c) (dirty s) r.1 id r.2
  end.

(** ** Accepting a command *)

Context (lookupCommand : list byte -> option redisCommand).
Context (freeMemory : D -> D * list event * bool).

Definition tolower (b : byte) : byte := if (65 <=? b) && (b <=? 90) then b + 32 else b.

(** [tolower(((char* )argv[1]->ptr)[0]) == c] on an argument. *)
Definition arg1_starts (c : client) (b : byte) : bool :=
  match c_argv c with
  | [_; a] => match a with x :: _ => tolower x =? b | [] => 0 =? b end
  | _ => false
  end.

(** A refused command: the error is sent, inside a transaction after marking it. *)
Definition reject (flag : bool) id (r : reply) s : server :=
  addReply id r (if flag then upd id flagTransaction s else s).

(** The verdict of the guards after the command was found, in their order:
    the answer and whether [flagTransaction] is called. *)
Definition guards e s (c : client) (cmd : redisCommand) (out_of_memory : bool) : option (reply * bool) :=
  let argc := Z.of_nat (length (c_argv c)) in
  if maxmemory e && negb (lua_timedout e) && out_of_memory &&
     (flag_on (cmd_flags cmd) CMD_DENYOOM || (c_flag c CLIENT_MULTI && negb (cmd_is cmd PExec)))
  then Some (RShared "oomerr", true)
  else if bool_decide (is_Some (disk_error e)) && negb (masterhost s) &&
          (flag_on (cmd_flags cmd) CMD_WRITE || cmd_is cmd PPing)
  then Some (if bool_decide (disk_error e = Some true) then RShared "bgsaveerr"
             else RError "-MISCONF Errors writing to the AOF file", true)
  else if negb (masterhost s) && few_good_slaves e && flag_on (cmd_flags cmd) CMD_WRITE
  then Some (RShared "noreplicaserr", true)
  else if masterhost s && repl_slave_ro e && negb (c_flag c CLIENT_MASTER) && flag_on (cmd_flags cmd) CMD_WRITE
  then Some (RShared "roslaveerr", false)
  else if c_flag c CLIENT_PUBSUB && negb (cmd_is cmd PPing) && negb (cmd_is cmd PSubscribe) &&
          negb (cmd_is cmd PUnsubscribe) && negb (cmd_is cmd PPsubscribe) && negb (cmd_is cmd PPunsubscribe)
  then Some (RError "only (P)SUBSCRIBE / (P)UNSUBSCRIBE / PING / QUIT allowed in this context", false)
  else if masterhost s && negb (repl_connected e) && negb (repl_serve_stale_data e) &&
          negb (flag_on (cmd_flags cmd) CMD_STALE)
  then Some (RShared "masterdownerr", true)
  else if loading e && negb (flag_on (cmd_flags cmd) CMD_LOADING)
  then Some (RShared "loadingerr", false)
  else if lua_timedout e && negb (cmd_is cmd PAuth) && negb (cmd_is cmd PReplconf) &&
          negb (cmd_is cmd PShutdown && (argc =? 2) && arg1_starts c 110) &&
          negb (cmd_is cmd PScript && (argc =? 2) && arg1_starts c 107)
  then Some (RShared "slowscripterr", true)
  else None.

Definition wrong_arity (cmd : redisCommand) (argc : Z) : bool :=
  ((cmd_arity cmd >? 0) && negb (cmd_arity cmd =? argc)) || (argc <? - cmd_arity cmd).

(** The commands that are not queued. *)
Definition queued_now (c : client) (cmd : redisCommand) : bool :=
  c_flag c CLIENT_MULTI && negb (cmd_is cmd PExec) && negb (cmd_is cmd PDiscard) &&
  negb (cmd_is cmd PMulti) && negb (cmd_is cmd PWatch).

(** The C string at the start of an argument. *)
Fixpoint cstring (l : list byte) : list byte :=
  match l with [] => [] | b :: l => if b =? 0 then [] else b :: cstring l end.

(** Process the command in the client's arguments: the server and whether the
    return value is [C_OK].  Freeing memory may close the client itself. *)
Definition processCommand e s id : option (server * bool) :=
  c ← clients s !! id;
  name ← head (c_argv c);
  if bool_decide (tolower <$> cstring name = bytes_of "quit") then
    Some (upd id (set_flags (fun f => Z.lor f CLIENT_CLOSE_AFTER_REPLY)) (addReply id (RShared "ok") s), false)
  else
    let s := upd id (set_cmd (c_argv c) (lookupCommand name)) s in
    match lookupCommand name with
    | None => Some (reject true id (RError "unknown command") s, true)
    | Some cmd =>
        if wrong_arity cmd (Z.of_nat (length (c_argv c))) then
          Some (reject true id (RError "wrong number of arguments") s, true)
        else if requirepass e && negb (c_authenticated c) && negb (cmd_is cmd PAuth) then
          Some (reject true id (RShared "noautherr") s, true)
        else if cluster_enabled e && negb (c_flag c CLIENT_MASTER) &&
                negb (negb (cmd_getkeys cmd) && (cmd_firstkey cmd =? 0) && negb (cmd_is cmd PExec)) &&
                redirected e then
          s ← (if cmd_is cmd PExec then discardTransaction s id else Some (upd id flagTransaction s));
          Some (addReply id (RError "redirection") s, true)
        else
          r ← (if maxmemory e && negb (lua_timedout e) then
                 let '(d, evs, oom) := freeMemory (data s) in
                 s ← apply_events None s evs;
                 Some (set_data d (dirty s) (masterhost s) s, oom)
               else Some (s, false));
          let '(s, oom) := r in
          match clients s !! id with
          | None => Some (s, false)
          | Some c =>
              match guards e s c cmd oom with
              | Some (rep, flag) => Some (reject flag id rep s, true)
              | None =>
                  if queued_now c cmd then
                    c' ← queueMultiCommand c;
                    Some (addReply id (RShared "queued") (upd id (fun _ => c') s), true)
                  else s ← call 2 e CMD_CALL_FULL s id; Some (s, true)
              end
          end
    end.
End server.

(** ** Flags *)

#[local] Arguments Z.testbit : simpl never.
#[local] Arguments Z.lor : simpl never.
#[local] Arguments Z.land : simpl never.
#[local] Arguments Z.lnot : simpl never.

Lemma flag_on_lor f a b : flag_on f (Z.lor a b) = flag_on f a || flag_on f b.
Proof.
  unfold flag_on. rewrite Z.land_lor_distr_r.
  destruct (Z.land f a =? 0) eqn:Ha, (Z.land f b =? 0) eqn:Hb; zbool; cbn;
    destruct (_ =? 0) eqn:H; zbool; try done; exfalso.
  - apply H. by rewrite Ha, Hb.
  - apply Z.lor_eq_0_iff in H as [? ?]; done.
  - apply Z.lor_eq_0_iff in H as [? ?]; done.
  - apply Z.lor_eq_0_iff in H as [? ?]; done.
Qed.

(** The three flags of a transaction. *)
Definition in_multi (c : client) : bool := Z.testbit (c_flags c) 3.
Definition is_dirty (c : client) : bool := Z.testbit (c_flags c) 5.
Definition is_failed (c : client) : bool := Z.testbit (c_flags c) 12.

Lemma multi_flag c : c_flag c CLIENT_MULTI = in_multi c.
Proof. by apply flag_on_bit. Qed.
Lemma failed_flag c : c_flag c CLIENT_DIRTY_EXEC = is_failed c.
Proof. by apply flag_on_bit. Qed.
Lemma abort_flag c : c_flag c (Z.lor CLIENT_DIRTY_CAS CLIENT_DIRTY_EXEC) = is_dirty c || is_failed c.
Proof. unfold c_flag. rewrite flag_on_lor. f_equal; by apply flag_on_bit. Qed.

(** Evaluate the bits of flag expressions. *)
Ltac flag_bits :=
  repeat (rewrite Z.lor_spec || rewrite Z.land_spec || rewrite Z.lnot_spec by lia);
  repeat match goal with
  | |- context [Z.testbit ?m ?k] =>
      let v := eval vm_compute in (Z.testbit m k) in
      match v with true => idtac | false => idtac end; change (Z.testbit m k) with v
  end;
  cbn [negb andb orb];
  rewrite ?andb_true_r, ?andb_false_r, ?orb_true_r, ?orb_false_r.

(** ** The invariant *)

(** Queued commands are not transaction commands. *)
Definition plain (mc : multiCmd) : Prop :=
  match cmd_proc (mc_cmd mc) with PExec | PDiscard | PMulti | PWatch => False | _ => True end.

Definition client_ok (c : client) : Prop :=
  NoDup (watched_keys c) /\
  (in_multi c = false -> mstate_commands c = []) /\
  (is_failed c = true -> in_multi c = true) /\
  Forall plain (mstate_commands c).

Section invariant.
Context {D : Type}.
Implicit Types s : @server D.

(** The lists of watchers and the clients' lists of watched keys are inverse. *)
Record inv s : Prop := {
  inv_client : forall id c, clients s !! id = Some c -> client_ok c;
  inv_list : forall wk l, watchers s !! wk = Some l -> l <> [] /\ NoDup l;
  inv_link : forall id wk, (exists l, watchers s !! wk = Some l /\ id ∈ l) <->
                           (exists c, clients s !! id = Some c /\ wk ∈ watched_keys c)
}.

(** [s'] differs from [s] in nothing that the invariant sees. *)
Lemma inv_same s s' : clients s' = clients s -> watchers s' = watchers s -> inv s -> inv s'.
Proof. intros Hc Hw [H1 H2 H3]. split; rewrite ?Hc, ?Hw; done. Qed.

Lemma upd_lookup s id f k :
  clients (upd id f s) !! k = if decide (k = id) then f <$> clients s !! k else clients s !! k.
Proof.
  unfold upd, set_clients. simpl. destruct (decide (k = id)) as [->|].
  - by rewrite lookup_alter_eq.
  - by rewrite lookup_alter_ne.
Qed.

Lemma inv_clients s s' : watchers s' = watchers s ->
  (forall k, clients s !! k = None -> clients s' !! k = None) ->
  (forall k c, clients s !! k = Some c -> exists c', clients s' !! k = Some c' /\
     watched_keys c' = watched_keys c /\ (client_ok c -> client_ok c')) ->
  inv s -> inv s'.
Proof.
  intros Hw Hn Hs [H1 H2 H3]. split.
  - intros id c' Hc'. destruct (clients s !! id) as [c|] eqn:Hc; [|by rewrite Hn in Hc'].
    destruct (Hs _ _ Hc) as (c1 & Hc1 & _ & Hok). simplify_eq. eauto.
  - intros wk l. rewrite Hw. apply H2.
  - intros id wk. rewrite Hw, H3. split.
    + intros (c & Hc & Hwk). destruct (Hs _ _ Hc) as (c' & Hc' & Heq & _). exists c'. by rewrite Heq.
    + intros (c' & Hc' & Hwk). destruct (clients s !! id) as [c|] eqn:Hc; [|by rewrite Hn in Hc'].
      destruct (Hs _ _ Hc) as (c1 & Hc1 & Heq & _). simplify_eq. exists c. by rewrite <- Heq.
Qed.

(** Changes of a client that keep its watched keys. *)
Lemma inv_upd s id f : (forall c, clients s !! id = Some c -> watched_keys (f c) = watched_keys c /\ (client_ok c -> client_ok (f c))) ->
  inv s -> inv (upd id f s).
Proof.
  intros Hf. apply inv_clients; [done|..]; intros k; [intros Hk|intros c Hk]; rewrite upd_lookup.
  - rewrite Hk. by destruct (decide _).
  - rewrite Hk. destruct (decide _) as [->|].
    + exists (f c). split; [done|]. by apply Hf.
    + by exists c.
Qed.

Lemma remove_client_spec id l : NoDup l -> id ∈ l ->
  exists l', remove_client id l = Some l' /\ NoDup l' /\ (forall k, k ∈ l' <-> k ∈ l /\ k <> id).
Proof.
  induction l as [|x l IH]; intros Hnd Hin; [set_solver|]. apply NoDup_cons in Hnd as [Hx Hnd]. simpl.
  destruct (decide (x = id)) as [->|Hne].
  - exists l. split; [done|]. split; [done|]. set_solver.
  - destruct IH as (l' & -> & Hnd' & Hl'); [done|set_solver|]. exists (x :: l'). split; [done|].
    split; [apply NoDup_cons; set_solver|set_solver].
Qed.

(** The fields that have nothing to do with clients. *)
Definition same_world s s' : Prop :=
  data s' = data s /\ dirty s' = dirty s /\ masterhost s' = masterhost s /\ aof s' = aof s /\ repl s' = repl s /\
  history s' = history s.

Lemma same_world_refl s : same_world s s.
Proof. done. Qed.
Lemma same_world_trans s1 s2 s3 : same_world s1 s2 -> same_world s2 s3 -> same_world s1 s3.
Proof. unfold same_world. intros (?&?&?&?&?&?) (?&?&?&?&?&?). repeat split; congruence. Qed.
Lemma same_world_upd s id f : same_world s (upd id f s).
Proof. done. Qed.

Lemma unwatch_loop_spec wks : forall s id c, inv s -> clients s !! id = Some c -> watched_keys c = wks ->
  exists s', unwatch_loop s id wks = Some s' /\ inv s' /\ same_world s s' /\
    clients s' = <[id := set_watched [] c]> (clients s).
Proof.
  induction wks as [|wk wks IH]; intros s id c Hinv Hc Hwks; cbn [unwatch_loop].
  { exists s. split; [done|]. split; [done|]. split; [done|]. rewrite insert_id; [done|].
    rewrite Hc. f_equal. destruct c; simpl in *; by subst. }
  pose proof Hinv as [H1 H2 H3]. destruct (proj2 (H3 id wk)) as (l & Hl & Hin); [exists c; split; [done|]; rewrite Hwks; set_solver|].
  destruct (H2 _ _ Hl) as [Hne Hnd]. destruct (remove_client_spec id l Hnd Hin) as (l' & Hr & Hnd' & Hl').
  rewrite Hl. cbn [mbind option_bind]. rewrite Hr. cbn [mbind option_bind].
  pose proof (H1 _ _ Hc) as (Hwnd & Hok2). rewrite Hwks in Hwnd. apply NoDup_cons in Hwnd as [Hwk Hwnd].
  set (s1 := upd id (set_watched wks) _).
  assert (clients s1 = <[id := set_watched wks c]> (clients s)) as Hs1.
  { apply map_eq. intros k. subst s1. rewrite upd_lookup. simpl. destruct (decide (k = id)) as [->|].
    - by rewrite Hc, lookup_insert_eq.
    - by rewrite lookup_insert_ne. }
  assert (forall wk', watchers s1 !! wk' = if decide (wk' = wk) then (if bool_decide (l' = []) then None else Some l') else watchers s !! wk') as Hw1.
  { intros wk'. subst s1. simpl. destruct (decide (wk' = wk)) as [->|Hn]; case_bool_decide;
      rewrite ?lookup_delete_eq, ?lookup_insert_eq, ?lookup_delete_ne, ?lookup_insert_ne by done; done. }
  assert (inv s1) as Hinv1.
  { split.
    - intros k c'. rewrite Hs1. destruct (decide (k = id)) as [->|].
      + rewrite lookup_insert_eq. intros [= <-]. split; [done|apply Hok2].
      + rewrite lookup_insert_ne by done. apply H1.
    - intros wk' l''. rewrite Hw1. destruct (decide _); [|apply H2]. case_bool_decide; [done|]. by intros [= <-].
    - intros k wk'. rewrite Hw1, Hs1. destruct (decide (k = id)) as [->|Hk]; destruct (decide (wk' = wk)) as [->|Hwk'];
        rewrite ?lookup_insert_eq, ?lookup_insert_ne by done.
      + split; [|by intros (? & [= <-] & ?)]. intros (l0 & Hl0 & Hk). case_bool_decide; [done|]. simplify_eq. by apply Hl' in Hk as [_ ?].
      + rewrite H3. split; intros (c' & Hc' & Hin'); [|simplify_eq; exists c; split; [done|]; rewrite Hwks; set_solver].
        rewrite Hc in Hc'. simplify_eq. eexists. split; [done|]. rewrite Hwks in Hin'. simpl. set_solver.
      + rewrite <- H3. split.
        * intros (l0 & Hl0 & Hin0). case_bool_decide; [done|]. simplify_eq. exists l. split; [done|]. by apply Hl'.
        * intros (l0 & Hl0 & Hin0). simplify_eq. assert (k ∈ l') as Hkl by by apply Hl'.
          exists l'. case_bool_decide; [by subst; set_solver|done].
      + apply H3. }
  destruct (IH s1 id (set_watched wks c) Hinv1) as (s' & Hs' & Hinv' & Hsame & Hcl);
    [by rewrite Hs1, lookup_insert_eq|done|].
  exists s'. split; [done|]. split; [done|]. split; [done|]. rewrite Hcl, Hs1, insert_insert_eq. done.
Qed.

Lemma unwatch_spec s id c : inv s -> clients s !! id = Some c ->
  exists s', unwatchAllKeys s id = Some s' /\ inv s' /\ same_world s s' /\
    clients s' = <[id := set_watched [] c]> (clients s).
Proof. intros Hinv Hc. unfold unwatchAllKeys. rewrite Hc. by apply unwatch_loop_spec. Qed.
End invariant.

(** ** What events do to the clients *)

Section events.
Context {D : Type} (key_exists : D -> Z -> list byte -> bool).
Implicit Types (s : @server D) (evs : list (@event D)).

(** The event is a modification of the watched key. *)
Definition modifies (wk : Z * list byte) (ev : @event D) : bool :=
  match ev with
  | EvTouch db key => bool_decide (wk = (db, key))
  | EvFlush dbid d => flush_hits key_exists d dbid wk
  | EvKill _ => false
  end.

(** One of the keys was modified. *)
Definition hit evs (wks : list (Z * list byte)) : bool :=
  existsb (fun ev => existsb (fun wk => modifies wk ev) wks) evs.

Lemma hit_app evs1 evs2 wks : hit (evs1 ++ evs2) wks = hit evs1 wks || hit evs2 wks.
Proof. apply existsb_app. Qed.

(** From [s] to [s'], where [evs] happened: watched keys stay, and exactly the
    clients that watch a modified key become dirty. *)
Record quiet s s' evs : Prop := {
  q_inv : inv s';
  q_hist : history s' = history s ++ evs;
  q_client : forall k c', clients s' !! k = Some c' -> exists c, clients s !! k = Some c /\
    watched_keys c' = watched_keys c /\ is_dirty c' = is_dirty c || hit evs (watched_keys c)
}.

Lemma quiet_refl s : inv s -> quiet s s [].
Proof.
  intros H. split; [done|by rewrite app_nil_r|]. intros k c ?. exists c. split; [done|]. split; [done|].
  simpl. by rewrite orb_false_r.
Qed.

Lemma quiet_trans s1 s2 s3 evs1 evs2 : quiet s1 s2 evs1 -> quiet s2 s3 evs2 -> quiet s1 s3 (evs1 ++ evs2).
Proof.
  intros [_ Hh1 Hc1] [Hi Hh2 Hc2]. split; [done|by rewrite Hh2, Hh1, app_assoc|].
  intros k c3 H3. destruct (Hc2 _ _ H3) as (c2 & H2 & Hw2 & Hd2). destruct (Hc1 _ _ H2) as (c1 & H1 & Hw1 & Hd1).
  exists c1. split; [done|]. split; [congruence|]. by rewrite Hd2, Hd1, Hw1, hit_app, orb_assoc.
Qed.

(** A change of one client that concerns neither its keys nor its dirty flag. *)
Lemma quiet_upd s id f : inv s ->
  (forall c, clients s !! id = Some c -> watched_keys (f c) = watched_keys c /\ is_dirty (f c) = is_dirty c /\ (client_ok c -> client_ok (f c))) ->
  quiet s (upd id f s) [].
Proof.
  intros Hinv Hf. split.
  - apply inv_upd; [|done]. intros c Hc. destruct (Hf c Hc) as (? & _ & ?). done.
  - by rewrite app_nil_r.
  - intros k c'. rewrite upd_lookup. destruct (decide (k = id)) as [->|].
    + destruct (clients s !! id) as [c|]; [|done]. intros [= <-]. exists c. destruct (Hf c eq_refl) as (-> & -> & _).
      split; [done|]. split; [done|]. by rewrite orb_false_r.
    + intros Hc. exists c'. split; [done|]. split; [done|]. by rewrite orb_false_r.
Qed.

(** A change of the server that the clients do not see. *)
Lemma quiet_world s s' : inv s -> clients s' = clients s -> watchers s' = watchers s -> history s' = history s ->
  quiet s s' [].
Proof.
  intros Hinv Hc Hw Hh. split; [by eapply inv_same|by rewrite app_nil_r|].
  intros k c. rewrite Hc. intros Hk. exists c. split; [done|]. split; [done|]. by rewrite orb_false_r.
Qed.

Lemma dirty_cas_dirty c : is_dirty (dirty_cas c) = true.
Proof. unfold is_dirty. cbn. by flag_bits. Qed.

Lemma dirty_cas_ok c : client_ok c -> client_ok (dirty_cas c).
Proof.
  unfold client_ok, in_multi, is_failed. cbn. flag_bits. done.
Qed.

(** Marking the clients that satisfy [P], with any map [g] that does so. *)
Lemma quiet_mark s s' ev (P : nat -> client -> bool) : inv s -> watchers s' = watchers s ->
  history s' = history s ++ [ev] ->
  (forall k, clients s' !! k = (fun c => if P k c then dirty_cas c else c) <$> clients s !! k) ->
  (forall k c, clients s !! k = Some c -> P k c = existsb (fun wk => modifies wk ev) (watched_keys c)) ->
  quiet s s' [ev].
Proof.
  intros Hinv Hw Hh Hcl HP. split; [|done|].
  - apply (inv_clients s); [done|..|done].
    + intros k Hk. by rewrite Hcl, Hk.
    + intros k c Hk. rewrite Hcl, Hk. cbn. eexists. split; [done|].
      destruct (P k c); [|done]. split; [done|apply dirty_cas_ok].
  - intros k c'. rewrite Hcl. destruct (clients s !! k) as [c|] eqn:Hk; [|done]. cbn. intros [= <-].
    exists c. split; [done|]. rewrite orb_false_r, <- (HP k c Hk).
    destruct (P k c); [|by rewrite orb_false_r]. split; [done|]. by rewrite dirty_cas_dirty, orb_true_r.
Qed.

Lemma mark_list_lookup l : forall s k, NoDup l ->
  clients (foldl (fun s id => upd id dirty_cas s) s l) !! k =
    (fun c => if bool_decide (k ∈ l) then dirty_cas c else c) <$> clients s !! k.
Proof.
  induction l as [|x l IH]; intros s k Hnd; cbn [foldl].
  { rewrite bool_decide_eq_false_2 by set_solver. by destruct (clients s !! k). }
  apply NoDup_cons in Hnd as [Hx Hnd]. rewrite IH, upd_lookup by done. destruct (decide (k = x)) as [->|Hne].
  - rewrite bool_decide_eq_false_2, bool_decide_eq_true_2 by set_solver. by destruct (clients s !! x).
  - destruct (clients s !! k); [|done]. cbn. f_equal. case_bool_decide as H1; case_bool_decide as H2; done || set_solver.
Qed.

Lemma mark_list_world l : forall s, watchers (foldl (fun s id => upd id dirty_cas s) s l) = watchers s /\
  same_world s (foldl (fun s id => upd id dirty_cas s) s l).
Proof. induction l as [|x l IH]; intros s; [done|]. cbn [foldl]. destruct (IH (upd x dirty_cas s)) as [Hw Hs]. done. Qed.

(** Nothing but the two flags an event may set was changed. *)
Definition only_marked (c c' : client) : Prop :=
  exists m, c' = set_flags (fun f => Z.lor f m) c /\ forall i, i <> 5 -> i <> 6 -> Z.testbit m i = false.

Lemma only_marked_refl c : only_marked c c.
Proof. exists 0. split; [|intros; apply Z.bits_0]. destruct c; cbn. unfold set_flags. cbn. by rewrite Z.lor_0_r. Qed.

Lemma only_marked_trans c1 c2 c3 : only_marked c1 c2 -> only_marked c2 c3 -> only_marked c1 c3.
Proof.
  intros (m1 & -> & H1) (m2 & -> & H2). exists (Z.lor m1 m2). split.
  - unfold set_flags. cbn. by rewrite Z.lor_assoc.
  - intros i ??. rewrite Z.lor_spec, H1, H2 by done. done.
Qed.

Lemma only_marked_dirty c : only_marked c (dirty_cas c).
Proof.
  exists CLIENT_DIRTY_CAS. split; [done|]. intros i Hi _. destruct (decide (0 <= i)); [|by rewrite Z.testbit_neg_r by lia].
  unfold CLIENT_DIRTY_CAS. rewrite Z.shiftl_1_l. by apply Z.pow2_bits_false.
Qed.

Lemma only_marked_close c : only_marked c (set_flags (fun f => Z.lor f CLIENT_CLOSE_AFTER_REPLY) c).
Proof.
  exists CLIENT_CLOSE_AFTER_REPLY. split; [done|]. intros i _ Hi. destruct (decide (0 <= i)); [|by rewrite Z.testbit_neg_r by lia].
  unfold CLIENT_CLOSE_AFTER_REPLY. rewrite Z.shiftl_1_l. by apply Z.pow2_bits_false.
Qed.

(** Everything but the clients and the history is as before. *)
Definition same_data s s' : Prop :=
  data s' = data s /\ dirty s' = dirty s /\ masterhost s' = masterhost s /\ aof s' = aof s /\ repl s' = repl s.

Lemma same_data_trans s1 s2 s3 : same_data s1 s2 -> same_data s2 s3 -> same_data s1 s3.
Proof. unfold same_data. intros (?&?&?&?&?) (?&?&?&?&?). repeat split; congruence. Qed.

Lemma inv_delete s id c : inv s -> clients s !! id = Some c -> watched_keys c = [] -> inv (set_clients (delete id) s).
Proof.
  intros [H1 H2 H3] Hc Hw. split; cbn.
  - intros k c' [_ Hk]%lookup_delete_Some. by eapply H1.
  - done.
  - intros k wk. rewrite H3. split.
    + intros (c' & Hc' & Hin). exists c'. split; [|done]. apply lookup_delete_Some. split; [|done].
      intros <-. simplify_eq. rewrite Hw in Hin. set_solver.
    + intros (c' & [_ Hc']%lookup_delete_Some & Hin). eauto.
Qed.

Lemma freeClient_quiet s id : inv s ->
  exists s', freeClient s id = Some s' /\ quiet s s' [] /\ same_data s s' /\ clients s' = delete id (clients s).
Proof.
  intros Hinv. unfold freeClient. destruct (clients s !! id) as [c|] eqn:Hc.
  - destruct (unwatch_spec s id c Hinv Hc) as (s1 & -> & Hi1 & (Hd&Hdi&Hm&Ha&Hr&Hh) & Hcl). cbn [mbind option_bind].
    eexists. split; [done|].
    assert (clients (set_clients (delete id) s1) = delete id (clients s)) as Hdel.
    { cbn. rewrite Hcl. apply delete_insert_eq. }
    split; [|by split].
    split.
    + eapply inv_delete; [done|by rewrite Hcl, lookup_insert_eq|done].
    + by rewrite app_nil_r.
    + intros k c'. rewrite Hdel. intros [_ Hk]%lookup_delete_Some. exists c'. split; [done|]. split; [done|]. by rewrite orb_false_r.
  - exists s. split; [done|]. split; [by apply quiet_refl|]. split; [done|]. by rewrite delete_id.
Qed.

Lemma apply_event_quiet self s ev : inv s ->
  exists s', apply_event key_exists self s ev = Some s' /\ quiet s s' [ev] /\ same_data s s' /\
    forall id c, self = Some id -> clients s !! id = Some c -> exists c', clients s' !! id = Some c' /\ only_marked c c'.
Proof.
  intros Hinv. pose proof (inv_same s (record_event ev s) eq_refl eq_refl Hinv) as Hinv1. destruct ev as [db key|dbid d|k]; cbn [apply_event].
  - eexists. split; [done|]. unfold touchWatchedKey. cbn [watchers record_event].
    destruct (watchers s !! (db, key)) as [l|] eqn:Hl.
    + destruct (mark_list_world l (record_event (EvTouch db key) s)) as [Hw (Hd&Hdi&Hm&Ha&Hr&Hh)].
      destruct (inv_list s Hinv _ _ Hl) as [_ Hnd].
      pose proof (fun k => mark_list_lookup l (record_event (EvTouch db key) s) k Hnd) as Hcl. split; [|split].
      * apply (quiet_mark s _ _ (fun k _ => bool_decide (k ∈ l))); try done.
        intros k c Hk. apply eq_bool_prop_intro. rewrite bool_decide_spec, Is_true_true, existsb_exists.
        split.
        -- intros Hin. exists (db, key). split; [|by apply bool_decide_eq_true_2].
           destruct (proj1 (inv_link s Hinv k (db, key))) as (c' & Hc' & Hin'); [by exists l|]. simplify_eq. by apply list_elem_of_In.
        -- intros (wk & Hin & Hb%bool_decide_eq_true_1). subst wk. apply list_elem_of_In in Hin.
           destruct (proj2 (inv_link s Hinv k (db, key))) as (l' & Hl' & Hin'); [by exists c|]. by simplify_eq.
      * by split.
      * intros id c _ Hc. rewrite Hcl. cbn [clients record_event]. rewrite Hc. cbn. eexists. split; [done|].
        case_bool_decide; [apply only_marked_dirty|apply only_marked_refl].
    + split; [|split; [done|]].
      * apply (quiet_mark s _ _ (fun _ _ => false)); try done; [intros k; cbn; by destruct (clients s !! k)|].
        intros k c Hk. symmetry. apply not_true_iff_false. rewrite existsb_exists.
        intros (wk & Hin & Hb%bool_decide_eq_true_1). subst wk. apply list_elem_of_In in Hin.
        destruct (proj2 (inv_link s Hinv k (db, key))) as (l' & Hl' & Hin'); [by exists c|]. congruence.
      * intros id c _ Hc. exists c. split; [done|apply only_marked_refl].
  - eexists. split; [done|]. split; [|split; [done|]].
    + apply (quiet_mark s _ _ (fun _ c => existsb (flush_hits key_exists d dbid) (watched_keys c))); try done.
      intros k. cbn. apply lookup_fmap.
    + intros id c _ Hc. cbn. rewrite lookup_fmap, Hc. cbn. eexists. split; [done|].
      destruct (existsb _ _); [apply only_marked_dirty|apply only_marked_refl].
  - assert (quiet s (record_event (EvKill k) s) [EvKill k]) as Hq.
    { split; [done|done|]. intros k' c' Hk'. exists c'. split; [done|]. split; [done|].
      assert (existsb (fun _ : Z * list byte => false) (watched_keys c') = false) as Hex by (induction (watched_keys c'); done).
      cbn. rewrite Hex. cbn. by rewrite orb_false_r. }
    destruct (decide (self = Some k)) as [->|Hne].
    + eexists. split; [done|]. split; [|split; [done|]].
      * rewrite <- (app_nil_r [EvKill k]). eapply quiet_trans; [exact Hq|]. apply quiet_upd; [done|]. intros c _.
        split; [done|]. unfold client_ok, in_multi, is_failed, is_dirty. cbn. flag_bits. done.
      * intros id c [= ->] Hc. rewrite upd_lookup, decide_True by done. cbn [clients record_event]. rewrite Hc. cbn.
        eexists. split; [done|apply only_marked_close].
    + destruct (freeClient_quiet (record_event (EvKill k) s) k Hinv1) as (s' & Hf & Hq' & Hd & Hcl).
      exists s'. split; [done|]. split; [|split; [done|]].
      * rewrite <- (app_nil_r [EvKill k]). by eapply quiet_trans.
      * intros id c -> Hc. exists c. split; [|apply only_marked_refl]. rewrite Hcl. rewrite lookup_delete_ne; [done|congruence].
Qed.

Lemma apply_events_quiet self evs : forall s, inv s ->
  exists s', apply_events key_exists self s evs = Some s' /\ quiet s s' evs /\ same_data s s' /\
    forall id c, self = Some id -> clients s !! id = Some c -> exists c', clients s' !! id = Some c' /\ only_marked c c'.
Proof.
  induction evs as [|ev evs IH]; intros s Hinv; cbn [apply_events].
  { exists s. split; [done|]. split; [by apply quiet_refl|]. split; [done|]. intros id c _ Hc. exists c.
    split; [done|apply only_marked_refl]. }
  destruct (apply_event_quiet self s ev Hinv) as (s1 & -> & Hq1 & Hd1 & Hs1). cbn [mbind option_bind].
  destruct (IH s1 (q_inv _ _ _ Hq1)) as (s2 & -> & Hq2 & Hd2 & Hs2). exists s2. split; [done|].
  split; [by apply (quiet_trans s s1 s2 [ev] evs)|]. split; [by eapply same_data_trans|].
  intros id c Hself Hc. destruct (Hs1 _ _ Hself Hc) as (c1 & Hc1 & Hm1). destruct (Hs2 _ _ Hself Hc1) as (c2 & Hc2 & Hm2).
  exists c2. split; [done|]. by eapply only_marked_trans.
Qed.
End events.

(** ** Commands *)

Section commands.
Context {D : Type} (key_exists : D -> Z -> list byte -> bool).
Context (run : D -> Z -> list (list byte) -> redisCommand -> bool -> @outcome D).
Implicit Types (s : @server D) (e : env) (evs : list (@event D)).

Abbreviation quiet := (quiet key_exists).
Abbreviation hit := (hit key_exists).

(** Commands are rewritten, for propagation, to ordinary commands only. *)
Definition plain_cmd (cmd : redisCommand) : Prop := plain (mkMc [] cmd).
Hypothesis run_plain : forall d db argv cmd m, plain_cmd cmd -> plain_cmd (o_cmd (run d db argv cmd m)).

(** As [quiet], for all clients but [id]. *)
Record others id s s' evs : Prop := {
  ot_inv : inv s';
  ot_hist : history s' = history s ++ evs;
  ot_client : forall k c', k <> id -> clients s' !! k = Some c' -> exists c, clients s !! k = Some c /\
    watched_keys c' = watched_keys c /\ is_dirty c' = is_dirty c || hit evs (watched_keys c)
}.

Lemma quiet_others id s s' evs : quiet s s' evs -> others id s s' evs.
Proof. intros [? ? H]. split; [done|done|]. intros. by apply H. Qed.

Lemma others_trans id s1 s2 s3 evs1 evs2 : others id s1 s2 evs1 -> others id s2 s3 evs2 -> others id s1 s3 (evs1 ++ evs2).
Proof.
  intros [_ Hh1 Hc1] [Hi Hh2 Hc2]. split; [done|by rewrite Hh2, Hh1, app_assoc|].
  intros k c3 Hk H3. destruct (Hc2 _ _ Hk H3) as (c2 & H2 & Hw2 & Hd2). destruct (Hc1 _ _ Hk H2) as (c1 & H1 & Hw1 & Hd1).
  exists c1. split; [done|]. split; [congruence|]. by rewrite Hd2, Hd1, Hw1, hit_app, orb_assoc.
Qed.

(** A change of the client [id] alone. *)
Lemma others_one id s s' : inv s' -> history s' = history s -> (forall k, k <> id -> clients s' !! k = clients s !! k) ->
  others id s s' [].
Proof.
  intros Hi Hh Hc. split; [done|by rewrite app_nil_r|]. intros k c' Hk. rewrite Hc by done. intros Hc'.
  exists c'. split; [done|]. split; [done|]. by rewrite orb_false_r.
Qed.

Lemma unwatch_others s id c : inv s -> clients s !! id = Some c ->
  exists s', unwatchAllKeys s id = Some s' /\ others id s s' [] /\ same_data s s' /\
    clients s' !! id = Some (set_watched [] c).
Proof.
  intros Hinv Hc. destruct (unwatch_spec s id c Hinv Hc) as (s' & -> & Hi & (?&?&?&?&?&?) & Hcl).
  exists s'. split; [done|]. split; [|split; [by split|by rewrite Hcl, lookup_insert_eq]].
  apply others_one; [done|done|]. intros k Hk. by rewrite Hcl, lookup_insert_ne.
Qed.

(** The client after [discardTransaction]. *)
Definition discarded (c : client) : client :=
  set_watched [] (set_flags (fun f => Z.land f (Z.lnot (Z.lor (Z.lor CLIENT_MULTI CLIENT_DIRTY_CAS) CLIENT_DIRTY_EXEC)))
    (initClientMultiState c)).

Lemma discarded_bits c : in_multi (discarded c) = false /\ is_dirty (discarded c) = false /\ is_failed (discarded c) = false.
Proof. unfold in_multi, is_dirty, is_failed. cbn. split_and!; by flag_bits. Qed.

Lemma discard_others s id c : inv s -> clients s !! id = Some c ->
  exists s', discardTransaction s id = Some s' /\ others id s s' [] /\ same_data s s' /\
    clients s' !! id = Some (discarded c).
Proof.
  intros Hinv Hc. unfold discardTransaction. set (s1 := upd id _ s).
  assert (inv s1) as Hi1.
  { subst s1. apply inv_upd; [|done]. intros c0 Hc0. simplify_eq. split; [done|]. unfold client_ok, in_multi, is_failed. cbn.
    flag_bits. intros (? & _). split_and!; try done. }
  assert (clients s1 !! id = Some (set_flags (fun f => Z.land f (Z.lnot (Z.lor (Z.lor CLIENT_MULTI CLIENT_DIRTY_CAS) CLIENT_DIRTY_EXEC)))
    (initClientMultiState c))) as Hc1 by (subst s1; rewrite upd_lookup, decide_True, Hc by done; done).
  destruct (unwatch_others s1 id _ Hi1 Hc1) as (s' & -> & Ho & Hd & Hcl). exists s'. split; [done|]. split; [|by split].
  rewrite <- (app_nil_l []). eapply others_trans; [|exact Ho]. apply others_one; [done|done|].
  intros k Hk. subst s1. by rewrite upd_lookup, decide_False.
Qed.

(** *** The frame of [call] *)

Lemma propagate_clients e s argv p : clients (propagate e s argv p) = clients s /\ watchers (propagate e s argv p) = watchers s /\
  data (propagate e s argv p) = data s /\ dirty (propagate e s argv p) = dirty s /\
  masterhost (propagate e s argv p) = masterhost s /\ history (propagate e s argv p) = history s.
Proof. done. Qed.

Lemma propagate_also_clients e flags also : forall s, clients (propagate_also e s flags also) = clients s /\
  watchers (propagate_also e s flags also) = watchers s /\ data (propagate_also e s flags also) = data s /\
  dirty (propagate_also e s flags also) = dirty s /\
  masterhost (propagate_also e s flags also) = masterhost s /\ history (propagate_also e s flags also) = history s.
Proof.
  unfold propagate_also. destruct (flag_on _ _); [|done]. induction also as [|op also IH]; intros s; [done|]. cbn [foldl].
  destruct (IH (if also_target flags op.2 =? 0 then s else propagate e s op.1 (also_target flags op.2))) as (-> & -> & -> & -> & -> & ->).
  destruct (_ =? 0); done.
Qed.

Definition restored (old : Z) (c : client) : client :=
  set_flags (fun f => Z.lor (Z.land f (Z.lnot PROP_FLAGS)) (Z.land old PROP_FLAGS)) c.

Lemma restored_bits old c : in_multi (restored old c) = in_multi c /\ is_dirty (restored old c) = is_dirty c /\
  is_failed (restored old c) = is_failed c.
Proof. unfold in_multi, is_dirty, is_failed. cbn. split_and!; by flag_bits. Qed.

Lemma after_call_spec e flags old d0 s id also c cmd : inv s -> clients s !! id = Some c -> c_cmd c = Some cmd ->
  exists s', after_call e flags old d0 s id also = Some s' /\ quiet s s' [] /\
    clients s' !! id = Some (restored old c) /\ data s' = data s /\ dirty s' = dirty s /\ masterhost s' = masterhost s.
Proof.
  intros Hinv Hc Hcmd. unfold after_call. rewrite Hc. cbn [mbind option_bind]. rewrite Hcmd. cbn [mbind option_bind].
  eexists. split; [done|]. set (s1 := if flag_on flags CMD_CALL_PROPAGATE && _ then _ else _).
  assert (clients s1 = clients s /\ watchers s1 = watchers s /\ data s1 = data s /\ dirty s1 = dirty s /\
    masterhost s1 = masterhost s /\ history s1 = history s) as (H1 & H2 & H3 & H4 & H5 & H6).
  { subst s1. destruct (_ && _); [|done]. cbv zeta. destruct (_ && _); done. }
  set (s2 := upd id _ s1). pose proof (propagate_also_clients e flags also s2) as (P1 & P2 & P3 & P4 & P5 & P6).
  split; [|split_and!].
  - assert (quiet s s1 []) as Hq1 by by apply quiet_world.
    assert (quiet s1 s2 []) as Hq2.
    { apply quiet_upd; [apply Hq1|]. intros c0 _. destruct (restored_bits old c0) as (Hb1 & Hb2 & Hb3).
      fold (restored old c0). split; [done|]. split; [done|]. unfold client_ok. by rewrite Hb1, Hb3. }
    apply (quiet_trans key_exists s s1 _ [] []); [done|].
    apply (quiet_trans key_exists s1 s2 _ [] []); [done|]. apply quiet_world; [apply Hq2|done..].
  - rewrite P1. subst s2. rewrite upd_lookup, decide_True, H1, Hc by done. done.
  - by rewrite P3.
  - by rewrite P4.
  - by rewrite P5.
Qed.

Definition cleared (c : client) : client := set_flags (fun f => Z.land f (Z.lnot PROP_FLAGS)) c.

Lemma cleared_bits c : in_multi (cleared c) = in_multi c /\ is_dirty (cleared c) = is_dirty c /\ is_failed (cleared c) = is_failed c.
Proof. unfold in_multi, is_dirty, is_failed. cbn. split_and!; by flag_bits. Qed.

Lemma cleared_quiet s id : inv s -> quiet s (upd id cleared s) [].
Proof.
  intros Hinv. apply quiet_upd; [done|]. intros c _. destruct (cleared_bits c) as (H1 & H2 & H3).
  split; [done|]. split; [done|]. unfold client_ok. by rewrite H1, H3.
Qed.

Lemma only_marked_bits c c' : only_marked c c' -> in_multi c' = in_multi c /\ is_failed c' = is_failed c.
Proof.
  intros (m & -> & Hm). unfold in_multi, is_failed. cbn. rewrite !Z.lor_spec, !Hm by lia. by rewrite !orb_false_r.
Qed.

(** *** Ordinary commands *)

(** The client after an ordinary command, apart from the marks. *)
Definition finished (o : @outcome D) (c : client) : client :=
  add_reply (o_reply o) (set_session (o_db o) (o_auth o)
    (set_cmd (o_argv o) (Some (o_cmd o)) (set_flags (fun f => Z.lor f (Z.land (o_flags o) PROP_FLAGS)) c))).

Lemma finished_bits o c : in_multi (finished o c) = in_multi c /\ is_dirty (finished o c) = is_dirty c /\
  is_failed (finished o c) = is_failed c.
Proof. unfold in_multi, is_dirty, is_failed. cbn. split_and!; by flag_bits. Qed.

Lemma ordinary_spec s id c c0 cmd : inv s -> clients s !! id = Some c ->
  let o := run (data s) (c_db c0) (c_argv c0) cmd (masterhost s) in
  exists s' c1, ordinary key_exists run s id c0 cmd = Some (s', o_also o) /\ quiet s s' (o_events o) /\
    only_marked c c1 /\ clients s' !! id = Some (finished o c1) /\ data s' = o_data o /\ masterhost s' = o_master o.
Proof.
  intros Hinv Hc o. unfold ordinary. fold o.
  destruct (apply_events_quiet key_exists (Some id) (o_events o) s Hinv) as (s1 & -> & Hq & Hd & Hself). cbn [mbind option_bind].
  destruct (Hself id c eq_refl Hc) as (c1 & Hc1 & Hm). eexists _, c1. split; [done|]. split; [|split; [done|]].
  - rewrite <- (app_nil_r (o_events o)). eapply quiet_trans; [exact Hq|]. set (s2 := set_data _ _ _ s1).
    assert (quiet s1 s2 []) as Hq2 by (apply quiet_world; [apply Hq|done..]).
    apply (quiet_trans key_exists s1 s2 _ [] []); [done|]. apply quiet_upd; [apply Hq2|].
    intros c2 _. fold (finished o c2). destruct (finished_bits o c2) as (H1 & H2 & H3). split; [done|]. split; [done|].
    unfold client_ok. by rewrite H1, H3.
  - rewrite upd_lookup, decide_True by done. cbn [clients set_data]. rewrite Hc1. done.
Qed.

(** *** The commands of a transaction, one after the other *)

(** The effect of a queued command on the data set, the selected database, the
    role of the server and the answers. *)
Definition queue_step (st : D * Z * bool * list reply) (mc : multiCmd) : D * Z * bool * list reply :=
  let '(d, db, m, r) := st in
  if cmd_is (mc_cmd mc) PUnwatch then (d, db, m, r ++ [RShared "ok"])
  else let o := run d db (mc_argv mc) (mc_cmd mc) m in (o_data o, o_db o, o_master o, r ++ o_reply o).

Definition view s (c : client) : D * Z * bool * list reply := (data s, c_db c, masterhost s, c_reply c).

Lemma hit_nil evs : hit evs [] = false.
Proof. induction evs; done. Qed.

Lemma quiet_idle s s' evs id c c' : quiet s s' evs -> clients s !! id = Some c -> clients s' !! id = Some c' ->
  watched_keys c = [] -> is_dirty c = false -> watched_keys c' = [] /\ is_dirty c' = false.
Proof.
  intros [_ _ Hq] Hc Hc' Hw Hd. destruct (Hq _ _ Hc') as (c0 & Hc0 & -> & ->). simplify_eq. by rewrite Hw, Hd, hit_nil.
Qed.

Lemma call_proc_plain n e s id c cmd : plain_cmd cmd -> cmd_proc cmd <> PUnwatch ->
  call_proc key_exists run (call key_exists run n e) e s id c cmd = ordinary key_exists run s id c cmd.
Proof. unfold plain_cmd, plain, call_proc. cbn. by destruct (cmd_proc cmd). Qed.

Lemma call_queued n e flags s id c cmd : inv s -> clients s !! id = Some c -> c_cmd c = Some cmd -> plain_cmd cmd ->
  watched_keys c = [] -> is_dirty c = false ->
  exists s' evs c' cmd', call key_exists run (S n) e flags s id = Some s' /\ quiet s s' evs /\
    clients s' !! id = Some c' /\ in_multi c' = in_multi c /\ mstate_commands c' = mstate_commands c /\
    c_cmd c' = Some cmd' /\ plain_cmd cmd' /\ view s' c' = queue_step (view s c) (mkMc (c_argv c) cmd).
Proof.
  intros Hinv Hc Hcmd Hp Hw Hd. cbn [call]. rewrite Hc. cbn [mbind option_bind]. rewrite Hcmd. cbn [mbind option_bind].
  pose proof (cleared_quiet s id Hinv) as Hq0. pose proof (q_inv _ _ _ _ Hq0) as Hi0.
  change (upd id (set_flags (fun f => Z.land f (Z.lnot PROP_FLAGS))) s) with (upd id cleared s).
  set (s0 := upd id cleared s) in *.
  assert (clients s0 !! id = Some (cleared c)) as Hc0 by (subst s0; rewrite upd_lookup, decide_True, Hc by done; done).
  destruct (cleared_bits c) as (B1 & B2 & B3). unfold queue_step, view, cmd_is. cbn [mc_cmd mc_argv].
  destruct (decide (cmd_proc cmd = PUnwatch)) as [Hu|Hu].
  - unfold call_proc. rewrite Hu, bool_decide_eq_true_2 by done. unfold unwatchCommand, unwatchAllKeys.
    rewrite Hc0. cbn [mbind option_bind watched_keys cleared set_flags]. rewrite Hw. cbn [unwatch_loop mbind option_bind].
    set (s1 := addReply id _ _). cbn [fst snd].
    set (c1 := add_reply [RShared "ok"] (set_flags (fun f => Z.land f (Z.lnot CLIENT_DIRTY_CAS)) (cleared c))).
    assert (clients s1 !! id = Some c1) as Hc1.
    { subst s1. unfold addReply. rewrite upd_lookup, decide_True, upd_lookup, decide_True, Hc0 by done. done. }
    assert (quiet s0 s1 []) as Hq1.
    { set (s2 := upd id (set_flags (fun f => Z.land f (Z.lnot CLIENT_DIRTY_CAS))) s0).
      assert (quiet s0 s2 []) as Hq2.
      { apply quiet_upd; [done|]. intros c2 Hc2. simplify_eq. split; [done|]. unfold is_dirty, client_ok, in_multi, is_failed in *. cbn in *.
        split; [|by flag_bits]. rewrite B2, Hd. by flag_bits. }
      apply (quiet_trans key_exists s0 s2 s1 [] []); [done|]. apply quiet_upd; [apply Hq2|]. done. }
    destruct (after_call_spec e flags (c_flags c) (dirty s) s1 id [] c1 cmd) as (s' & -> & Hq' & Hc' & Hd' & _ & Hm');
      [apply Hq1|done|done|].
    destruct (restored_bits (c_flags c) c1) as (R1 & R2 & R3).
    exists s', [], (restored (c_flags c) c1), cmd. split; [done|]. split.
    { apply (quiet_trans key_exists s s0 s' [] []); [done|]. by apply (quiet_trans key_exists s0 s1 s' [] []). }
    split; [done|]. split; [rewrite R1; unfold in_multi; cbn; by flag_bits|]. split; [done|]. split; [done|]. split; [done|].
    by rewrite Hd', Hm'.
  - rewrite bool_decide_eq_false_2 by done. rewrite call_proc_plain by done.
    destruct (ordinary_spec s0 id (cleared c) c cmd Hi0 Hc0) as (s1 & c1 & -> & Hq1 & Hm1 & Hc1 & Hd1 & Hma1).
    cbn [mbind option_bind fst snd]. cbv zeta in *.
    set (o := run (data s0) (c_db c) (c_argv c) cmd (masterhost s0)) in *.
    destruct (after_call_spec e flags (c_flags c) (dirty s) s1 id (o_also o) (finished o c1) (o_cmd o)) as (s' & -> & Hq' & Hc' & Hd' & _ & Hm');
      [apply Hq1|done|done|].
    destruct (restored_bits (c_flags c) (finished o c1)) as (R1 & R2 & R3). destruct (finished_bits o c1) as (F1 & F2 & F3).
    destruct (only_marked_bits _ _ Hm1) as [M1 M3].
    exists s', (o_events o), (restored (c_flags c) (finished o c1)), (o_cmd o). split; [done|]. split.
    { rewrite <- (app_nil_l (o_events o)). apply (quiet_trans key_exists s s0 s' []); [done|].
      rewrite <- (app_nil_r (o_events o)). by apply (quiet_trans key_exists s0 s1 s'). }
    split; [done|]. split; [by rewrite R1, F1, M1, B1|]. destruct Hm1 as (m & -> & _).
    split; [done|]. split; [done|]. split; [by apply run_plain|].
    rewrite Hd', Hm', Hd1, Hma1. done.
Qed.

Lemma exec_loop_spec n e id todo : forall s c done mp, inv s -> clients s !! id = Some c -> in_multi c = true ->
  watched_keys c = [] -> is_dirty c = false -> mstate_commands c = done ++ todo ->
  exists s' evs c' mp', exec_loop (call key_exists run (S n) e) e s id done todo mp = Some (s', mp') /\
    quiet s s' evs /\ clients s' !! id = Some c' /\ view s' c' = foldl queue_step (view s c) todo.
Proof.
  induction todo as [|mc todo IH]; intros s c done mp Hinv Hc Hm Hw Hd Hq; cbn [exec_loop].
  { exists s, [], c, mp. split; [done|]. split; [by apply quiet_refl|]. done. }
  set (c1 := set_cmd (mc_argv mc) (Some (mc_cmd mc)) c). set (s1 := upd id (set_cmd (mc_argv mc) (Some (mc_cmd mc))) s).
  assert (clients s1 !! id = Some c1) as Hc1 by (subst s1; rewrite upd_lookup, decide_True, Hc by done; done).
  assert (quiet s s1 []) as Hq1 by (apply quiet_upd; [done|]; done).
  set (first := negb mp && _). set (s2 := if first then execCommandPropagateMulti e s1 else s1).
  assert (clients s2 = clients s1 /\ data s2 = data s1 /\ masterhost s2 = masterhost s1) as (Hcl2 & Hda2 & Hma2) by (subst s2; by destruct first).
  assert (quiet s1 s2 []) as Hq2 by (apply quiet_world; [apply Hq1|subst s2; by destruct first..]).
  assert (clients s2 !! id = Some c1) as Hc2 by by rewrite Hcl2.
  pose proof (inv_client _ Hinv _ _ Hc) as (Hnd & _ & _ & Hplain). rewrite Hq, Forall_app, Forall_cons in Hplain.
  destruct Hplain as (Hpd & Hpm & Hpt).
  destruct (call_queued n e (if loading e then CMD_CALL_NONE else CMD_CALL_FULL) s2 id c1 (mc_cmd mc))
    as (s3 & evs3 & c3 & cmd3 & -> & Hq3 & Hc3 & Hm3 & Hms3 & Hcmd3 & Hp3 & Hv3); [apply Hq2|done|done|done|done|done|].
  destruct (quiet_idle _ _ _ _ _ _ Hq3 Hc2 Hc3 Hw Hd) as [Hw3 Hd3].
  cbn [mbind option_bind]. rewrite Hc3. cbn [mbind option_bind]. rewrite Hcmd3. cbn [mbind option_bind].
  set (done' := done ++ [mkMc (c_argv c3) cmd3]). set (s4 := upd id _ s3).
  set (c4 := set_mstate (done' ++ todo) (mstate_cmd_flags c3) c3).
  assert (clients s4 !! id = Some c4) as Hc4 by (subst s4; rewrite upd_lookup, decide_True, Hc3 by done; done).
  assert (quiet s3 s4 []) as Hq4.
  { apply quiet_upd; [apply Hq3|]. intros c0 Hc0. simplify_eq. split; [done|]. split; [done|].
    intros (Hn0 & _ & Hf0 & _). split; [done|]. unfold in_multi in *. cbn in *. rewrite Hm3, Hm. split; [done|]. split; [done|].
    subst done'. rewrite !Forall_app, Forall_singleton. done. }
  destruct (IH s4 c4 done' (mp || first)) as (s' & evs & c' & mp' & -> & Hq' & Hc' & Hv'); [apply Hq4|done|by unfold in_multi in *; cbn in *; rewrite Hm3|done|done|done|].
  exists s', (evs3 ++ evs), c', mp'. split; [done|]. split; [|split; [done|]].
  - apply (quiet_trans key_exists s s1 s' []); [done|]. apply (quiet_trans key_exists s1 s2 s' []); [done|].
    eapply quiet_trans; [exact Hq3|]. by apply (quiet_trans key_exists s3 s4 s' []).
  - rewrite Hv'. cbn [foldl]. f_equal. unfold view in Hv3. rewrite Hda2, Hma2 in Hv3. destruct mc. exact Hv3.
Qed.

(** *** EXEC *)

(** The transaction is refused on a replica that became read-only. *)
Definition exec_refused e s (c : client) : bool :=
  negb (loading e) && masterhost s && repl_slave_ro e && negb (c_flag c CLIENT_MASTER) && flag_on (mstate_cmd_flags c) CMD_WRITE.

Lemma addReply_quiet s id r : inv s -> quiet s (addReply id r s) [].
Proof. intros. apply quiet_upd; done. Qed.

Lemma addReply_lookup s id r c : clients s !! id = Some c -> clients (addReply id r s) !! id = Some (add_reply [r] c).
Proof. intros Hc. unfold addReply. rewrite upd_lookup, decide_True, Hc by done. done. Qed.

Lemma reply_discard s id c r : inv s -> clients s !! id = Some c ->
  exists s', discardTransaction (addReply id r s) id = Some s' /\ others id s s' [] /\ same_data s s' /\
    clients s' !! id = Some (discarded (add_reply [r] c)).
Proof.
  intros Hinv Hc. pose proof (addReply_quiet s id r Hinv) as Hq.
  destruct (discard_others (addReply id r s) id (add_reply [r] c)) as (s' & -> & Ho & Hd & Hc');
    [apply Hq|by apply addReply_lookup|].
  exists s'. split; [done|]. split; [|by split].
  apply (others_trans id s (addReply id r s) s' [] []); [by apply quiet_others|done].
Qed.

(** A dirty transaction runs nothing. *)
Lemma exec_aborts cl e s id c : inv s -> clients s !! id = Some c -> in_multi c = true ->
  is_dirty c || is_failed c = true ->
  exists s', execCommand cl e s id = Some s' /\ others id s s' [] /\ same_data s s' /\
    clients s' !! id = Some (discarded (add_reply [RShared (if is_failed c then "execaborterr" else "nullmultibulk")] c)).
Proof.
  intros Hinv Hc Hm Ha. unfold execCommand. rewrite Hc. cbn [mbind option_bind].
  rewrite multi_flag, Hm, abort_flag, Ha, failed_flag. cbn [negb]. by apply reply_discard.
Qed.

(** The answer when the transaction is refused on a read-only replica. *)
Definition refused_reply : reply :=
  RError "Transaction contains write commands but instance is now a read-only slave. EXEC aborted.".

Lemma exec_refuses cl e s id c : inv s -> clients s !! id = Some c -> in_multi c = true ->
  is_dirty c || is_failed c = false -> exec_refused e s c = true ->
  exists s', execCommand cl e s id = Some s' /\ same_data s s' /\ clients s' !! id = Some (discarded (add_reply [refused_reply] c)).
Proof.
  intros Hinv Hc Hm Ha Hr. unfold execCommand. rewrite Hc. cbn [mbind option_bind].
  rewrite multi_flag, Hm, abort_flag, Ha. cbn [negb]. unfold exec_refused in Hr. rewrite Hr. fold refused_reply.
  destruct (reply_discard s id c refused_reply Hinv Hc) as (s' & -> & _ & Hd & Hc'). by exists s'.
Qed.

Lemma exec_runs n e s id c : inv s -> clients s !! id = Some c -> in_multi c = true ->
  is_dirty c || is_failed c = false -> exec_refused e s c = false ->
  exists s' evs c', execCommand (call key_exists run (S n) e) e s id = Some s' /\ others id s s' evs /\
    clients s' !! id = Some (discarded c') /\ c_cmd c' = c_cmd c /\
    view s' c' = foldl queue_step (view s (add_reply [RMultiBulkLen (Z.of_nat (length (mstate_commands c)))] c)) (mstate_commands c).
Proof.
  intros Hinv Hc Hm Ha Hr. unfold execCommand. rewrite Hc. cbn [mbind option_bind].
  rewrite multi_flag, Hm, abort_flag, Ha. cbn [negb]. unfold exec_refused in Hr. rewrite Hr.
  destruct (unwatch_others s id c Hinv Hc) as (s1 & -> & Ho1 & (Hd1 & _ & Hm1 & _) & Hc1). cbn [mbind option_bind].
  set (r := RMultiBulkLen _). pose proof (addReply_quiet s1 id r (ot_inv _ _ _ _ Ho1)) as Hq2.
  pose proof (addReply_lookup s1 id r _ Hc1) as Hc2. set (s2 := addReply id r s1) in *.
  apply orb_false_iff in Ha as [Hdirty Hfail].
  destruct (exec_loop_spec n e id (mstate_commands c) s2 (add_reply [r] (set_watched [] c)) [] false)
    as (s3 & evs & c3 & mp & -> & Hq3 & Hc3 & Hv3); [apply Hq2|done|done|done|done|done|]. cbn [mbind option_bind].
  set (c4 := set_cmd (c_argv c) (c_cmd c) c3). set (s4 := upd id _ s3).
  assert (clients s4 !! id = Some c4) as Hc4 by (subst s4; rewrite upd_lookup, decide_True, Hc3 by done; done).
  assert (quiet s3 s4 []) as Hq4 by (apply quiet_upd; [apply Hq3|]; done).
  destruct (discard_others s4 id c4) as (s5 & -> & Ho5 & (Hd5 & _ & Hm5 & _) & Hc5); [apply Hq4|done|]. cbn [mbind option_bind].
  assert (others id s s5 evs) as Ho.
  { apply (others_trans id s s1 s5 []); [done|]. apply (others_trans id s1 s2 s5 []); [by apply quiet_others|].
    rewrite <- (app_nil_r evs). apply (others_trans id s2 s3); [by apply quiet_others|].
    apply (others_trans id s3 s4 s5 [] []); [by apply quiet_others|done]. }
  assert (view s5 c4 = foldl queue_step (view s (add_reply [r] c)) (mstate_commands c)) as Hv.
  { unfold view in *. cbn in *. rewrite Hd5, Hm5. rewrite Hd1, Hm1 in Hv3. exact Hv3. }
  destruct mp.
  - set (s6 := if has_backlog e && _ && _ then _ else _).
    assert (clients s6 = clients s5 /\ watchers s6 = watchers s5 /\ history s6 = history s5 /\ data s6 = data s5 /\ masterhost s6 = masterhost s5)
      as (E1 & E2 & E3 & E4 & E5) by (subst s6; case_match; done).
    exists s6, evs, c4. split; [done|]. split_and!.
    + rewrite <- (app_nil_r evs). eapply others_trans; [exact Ho|]. apply quiet_others, quiet_world; [apply Ho|done..].
    + by rewrite E1.
    + done.
    + unfold view. by rewrite E4, E5.
  - exists s5, evs, c4. done.
Qed.

Lemma exec_spec n e s id c : inv s -> clients s !! id = Some c ->
  exists s' evs c', execCommand (call key_exists run (S n) e) e s id = Some s' /\ others id s s' evs /\
    clients s' !! id = Some c' /\ c_cmd c' = c_cmd c /\
    (in_multi c = true /\ watched_keys c' = [] /\ is_dirty c' = false \/
     in_multi c = false /\ c' = add_reply [RError "EXEC without MULTI"] c /\ evs = []).
Proof.
  intros Hinv Hc. destruct (in_multi c) eqn:Hm.
  - destruct (is_dirty c || is_failed c) eqn:Ha.
    { destruct (exec_aborts (call key_exists run (S n) e) e s id c Hinv Hc Hm Ha) as (s' & -> & Ho & _ & Hc').
      eexists s', [], _. split; [done|]. split; [done|]. split; [done|]. split; [done|]. left. split; [done|].
      split; [done|apply discarded_bits]. }
    destruct (exec_refused e s c) eqn:Hr.
    { unfold execCommand. rewrite Hc. cbn [mbind option_bind]. rewrite multi_flag, Hm, abort_flag, Ha. cbn [negb].
      unfold exec_refused in Hr. rewrite Hr.
      match goal with |- context [addReply id ?r s] => destruct (reply_discard s id c r Hinv Hc) as (s' & -> & Ho & _ & Hc') end.
      eexists s', [], _. split; [done|]. split; [done|]. split; [done|]. split; [done|]. left. split; [done|].
      split; [done|apply discarded_bits]. }
    destruct (exec_runs n e s id c Hinv Hc Hm Ha Hr) as (s' & evs & c' & -> & Ho & Hc' & Hcmd & _).
    eexists s', evs, _. split; [done|]. split; [done|]. split; [done|]. split; [done|]. left. split; [done|].
    split; [done|apply discarded_bits].
  - unfold execCommand. rewrite Hc. cbn [mbind option_bind]. rewrite multi_flag, Hm. cbn [negb].
    eexists _, [], _. split; [done|]. split; [by apply quiet_others, addReply_quiet|]. split; [by apply addReply_lookup|].
    split; [done|]. by right.
Qed.

(** *** Any command *)

(** The client that issued a command: it has dropped its watched keys, or kept
    them and was marked by the events. *)
Definition own_step evs (c c' : client) : Prop :=
  watched_keys c' = [] /\ is_dirty c' = false \/
  watched_keys c ⊆ watched_keys c' /\ is_dirty c' = is_dirty c || hit evs (watched_keys c).

Record moves id s s' evs : Prop := {
  mv_others : others id s s' evs;
  mv_own : forall c', clients s' !! id = Some c' -> exists c, clients s !! id = Some c /\ own_step evs c c'
}.

Lemma quiet_moves id s s' evs : quiet s s' evs -> moves id s s' evs.
Proof.
  intros Hq. split; [by apply quiet_others|]. intros c' Hc'. destruct (q_client _ _ _ _ Hq _ _ Hc') as (c & Hc & Hw & Hd).
  exists c. split; [done|]. right. by rewrite Hw.
Qed.

Lemma quiet_moves_trans id s1 s2 s3 evs1 evs2 : quiet s1 s2 evs1 -> moves id s2 s3 evs2 -> moves id s1 s3 (evs1 ++ evs2).
Proof.
  intros Hq [Ho Hown]. split; [eapply others_trans; [by apply quiet_others|done]|].
  intros c3 Hc3. destruct (Hown _ Hc3) as (c2 & Hc2 & Hst). destruct (q_client _ _ _ _ Hq _ _ Hc2) as (c1 & Hc1 & Hw & Hd).
  exists c1. split; [done|]. destruct Hst as [?|[Hsub Hdd]]; [by left|]. right. rewrite <- Hw. split; [done|].
  by rewrite Hdd, Hd, Hw, hit_app, orb_assoc.
Qed.

Lemma moves_quiet_trans id s1 s2 s3 evs : moves id s1 s2 evs -> quiet s2 s3 [] -> moves id s1 s3 evs.
Proof.
  intros [Ho Hown] Hq. split; [rewrite <- (app_nil_r evs); eapply others_trans; [done|by apply quiet_others]|].
  intros c3 Hc3. destruct (q_client _ _ _ _ Hq _ _ Hc3) as (c2 & Hc2 & Hw & Hd). destruct (Hown _ Hc2) as (c1 & Hc1 & Hst).
  exists c1. split; [done|]. unfold own_step. rewrite Hw, Hd, orb_false_r. done.
Qed.

(** One client changed its keys itself. *)
Lemma others_moves id s s' evs c c' : others id s s' evs -> clients s !! id = Some c -> clients s' !! id = Some c' ->
  own_step evs c c' -> moves id s s' evs.
Proof. intros Ho Hc Hc' Hst. split; [done|]. intros c0 Hc0. simplify_eq. by exists c. Qed.

Lemma watchForKey_spec s id c key : inv s -> clients s !! id = Some c ->
  exists s' ws, watchForKey s id key = Some s' /\ inv s' /\ same_world s s' /\
    clients s' = <[id := set_watched ws c]> (clients s) /\ watched_keys c ⊆ ws /\ (c_db c, key) ∈ ws.
Proof.
  intros Hinv Hc. unfold watchForKey. rewrite Hc. cbn [mbind option_bind]. case_bool_decide as Hin.
  { exists s, (watched_keys c). split; [done|]. split; [done|]. split; [done|]. split; [|done].
    rewrite insert_id; [done|]. rewrite Hc. f_equal. by destruct c. }
  set (wk := (c_db c, key)) in *. set (l := default [] (watchers s !! wk)). eexists _, (watched_keys c ++ [wk]).
  split; [done|]. set (s1 := upd id _ _).
  assert (clients s1 = <[id := set_watched (watched_keys c ++ [wk]) c]> (clients s)) as Hcl.
  { apply map_eq. intros k. subst s1. rewrite upd_lookup. cbn. destruct (decide (k = id)) as [->|].
    - by rewrite Hc, lookup_insert_eq.
    - by rewrite lookup_insert_ne. }
  pose proof Hinv as [H1 H2 H3].
  assert (id ∉ l) as Hid.
  { subst l. destruct (watchers s !! wk) as [l0|] eqn:Hl0; cbn; [|set_solver]. intros Hid.
    destruct (proj1 (H3 id wk)) as (c' & Hc' & ?); [by exists l0|]. simplify_eq. done. }
  assert (NoDup l) as Hndl.
  { subst l. destruct (watchers s !! wk) as [l0|] eqn:Hl0; cbn; [by apply (H2 wk)|constructor]. }
  split; [|split; [done|]; split; [done|]; split; [set_solver|set_solver]].
  split.
  - intros k c'. rewrite Hcl. destruct (decide (k = id)) as [->|].
    + rewrite lookup_insert_eq. intros [= <-]. destruct (H1 _ _ Hc) as (Hnd & Hrest). split; [|done]. cbn.
      apply NoDup_app. split; [done|]. split; [|apply NoDup_singleton]. intros x Hx ->%list_elem_of_singleton. done.
    + rewrite lookup_insert_ne by done. apply H1.
  - intros wk' l'. cbn. destruct (decide (wk' = wk)) as [->|].
    + rewrite lookup_insert_eq. intros [= <-]. split; [by destruct l|]. apply NoDup_app. split; [done|].
      split; [|apply NoDup_singleton]. intros x Hx ->%list_elem_of_singleton. done.
    + rewrite lookup_insert_ne by done. apply H2.
  - intros k wk'. rewrite Hcl. cbn [watchers s1 upd set_clients set_watchers].
    assert ((exists l0, watchers s !! wk' = Some l0 /\ k ∈ l0) <-> k ∈ default [] (watchers s !! wk')) as Hdef.
    { destruct (watchers s !! wk') as [l0|]; cbn; [|set_solver]. split; [by intros (? & [= <-] & ?)|by eauto]. }
    specialize (H3 k wk'). rewrite Hdef in H3.
    destruct (decide (wk' = wk)) as [->|Hwk]; [rewrite lookup_insert_eq|rewrite lookup_insert_ne by done];
      destruct (decide (k = id)) as [->|Hk]; rewrite ?lookup_insert_eq, ?lookup_insert_ne by done.
    + split; intros _; [|exists (l ++ [id]); set_solver]. eexists. split; [done|]. cbn. set_solver.
    + rewrite <- H3. fold l. split; [intros (? & [= <-] & ?); set_solver|]. intros. exists (l ++ [id]). set_solver.
    + rewrite Hdef, H3, Hc. split; intros (? & [= <-] & Hx); [eexists; split; [done|]; cbn; set_solver|].
      exists c. split; [done|]. cbn in Hx. set_solver.
    + by rewrite Hdef.
Qed.

Lemma watch_loop_spec id keys : forall s c, inv s -> clients s !! id = Some c ->
  exists s' ws, watch_loop s id keys = Some s' /\ inv s' /\ same_world s s' /\
    clients s' = <[id := set_watched ws c]> (clients s) /\ watched_keys c ⊆ ws /\ forall key, key ∈ keys -> (c_db c, key) ∈ ws.
Proof.
  induction keys as [|key keys IH]; intros s c Hinv Hc; cbn [watch_loop].
  { exists s, (watched_keys c). split; [done|]. split; [done|]. split; [done|]. split; [|set_solver].
    rewrite insert_id; [done|]. rewrite Hc. f_equal. by destruct c. }
  destruct (watchForKey_spec s id c key Hinv Hc) as (s1 & ws1 & -> & Hi1 & Hw1 & Hc1 & Hsub1 & Hin1). cbn [mbind option_bind].
  destruct (IH s1 (set_watched ws1 c)) as (s2 & ws2 & -> & Hi2 & Hw2 & Hc2 & Hsub2 & Hin2); [done|by rewrite Hc1, lookup_insert_eq|].
  exists s2, ws2. split; [done|]. split; [done|]. split; [by eapply same_world_trans|]. split; [by rewrite Hc2, Hc1, insert_insert_eq|].
  cbn in *. split; [set_solver|]. set_solver.
Qed.

Lemma watchCommand_spec s id c : inv s -> clients s !! id = Some c ->
  exists s' c', watchCommand s id = Some s' /\ moves id s s' [] /\ clients s' !! id = Some c' /\ c_cmd c' = c_cmd c /\
    (in_multi c = false -> forall key, key ∈ tail (c_argv c) -> (c_db c, key) ∈ watched_keys c').
Proof.
  intros Hinv Hc. unfold watchCommand. rewrite Hc. cbn [mbind option_bind]. rewrite multi_flag. destruct (in_multi c) eqn:Hm.
  - eexists _, _. split; [done|]. split; [by apply quiet_moves, addReply_quiet|]. split; [by apply addReply_lookup|]. done.
  - destruct (watch_loop_spec id (tail (c_argv c)) s c Hinv Hc) as (s1 & ws & -> & Hi1 & (_&_&_&_&_&Hh) & Hc1 & Hsub & Hin).
    cbn [mbind option_bind]. assert (clients s1 !! id = Some (set_watched ws c)) as Hc1' by by rewrite Hc1, lookup_insert_eq.
    eexists _, _. split; [done|]. split; [|split; [by apply addReply_lookup|done]].
    eapply moves_quiet_trans; [|by apply addReply_quiet].
    eapply others_moves; [|done|done|].
    + apply others_one; [done|done|]. intros k Hk. by rewrite Hc1, lookup_insert_ne.
    + right. cbn. split; [done|]. unfold is_dirty. cbn. by rewrite orb_false_r.
Qed.

Lemma discardCommand_spec s id c : inv s -> clients s !! id = Some c ->
  exists s' c', discardCommand s id = Some s' /\ moves id s s' [] /\ clients s' !! id = Some c' /\ c_cmd c' = c_cmd c.
Proof.
  intros Hinv Hc. unfold discardCommand. rewrite Hc. cbn [mbind option_bind]. destruct (negb _).
  - eexists _, _. split; [done|]. split; [by apply quiet_moves, addReply_quiet|]. split; [by apply addReply_lookup|]. done.
  - destruct (discard_others s id c Hinv Hc) as (s1 & -> & Ho & _ & Hc1). cbn [mbind option_bind].
    eexists _, _. split; [done|]. split; [|split; [by apply addReply_lookup|done]].
    eapply moves_quiet_trans; [|apply addReply_quiet, Ho]. eapply others_moves; [done..|]. left. split; [done|apply discarded_bits].
Qed.

Lemma unwatchCommand_spec s id c : inv s -> clients s !! id = Some c ->
  exists s' c', unwatchCommand s id = Some s' /\ moves id s s' [] /\ clients s' !! id = Some c' /\ c_cmd c' = c_cmd c.
Proof.
  intros Hinv Hc. unfold unwatchCommand. destruct (unwatch_others s id c Hinv Hc) as (s1 & -> & Ho & _ & Hc1). cbn [mbind option_bind].
  set (s2 := upd id _ s1). set (c2 := set_flags (fun f => Z.land f (Z.lnot CLIENT_DIRTY_CAS)) (set_watched [] c)).
  assert (clients s2 !! id = Some c2) as Hc2 by (subst s2; rewrite upd_lookup, decide_True, Hc1 by done; done).
  assert (inv s2) as Hi2.
  { apply inv_upd; [|apply Ho]. intros c0 _. split; [done|]. unfold client_ok, in_multi, is_failed. cbn. by flag_bits. }
  eexists _, _. split; [done|]. split; [|split; [by apply addReply_lookup|done]].
  eapply moves_quiet_trans; [|by apply addReply_quiet]. apply (others_moves id s s2 [] c c2); [|done|done|].
  - apply (others_trans id s s1 s2 [] []); [done|]. apply others_one; [done|done|].
    intros k Hk. subst s2. by rewrite upd_lookup, decide_False.
  - left. split; [done|]. unfold is_dirty. cbn. by flag_bits.
Qed.

Lemma multiCommand_spec s id c : inv s -> clients s !! id = Some c ->
  exists s' c', multiCommand s id = Some s' /\ quiet s s' [] /\ clients s' !! id = Some c' /\ c_cmd c' = c_cmd c.
Proof.
  intros Hinv Hc. unfold multiCommand. rewrite Hc. cbn [mbind option_bind]. destruct (c_flag c CLIENT_MULTI).
  - eexists _, _. split; [done|]. split; [by apply addReply_quiet|]. split; [by apply addReply_lookup|]. done.
  - set (s1 := upd id _ s). assert (quiet s s1 []) as Hq.
    { apply quiet_upd; [done|]. intros c0 _. split; [done|]. unfold is_dirty, client_ok, in_multi, is_failed. cbn. flag_bits.
      split; [done|]. intros (? & _ & ? & ?). split_and!; done. }
    eexists _, (add_reply [RShared "ok"] (set_flags (fun f => Z.lor f CLIENT_MULTI) c)). split; [done|].
    split; [apply (quiet_trans key_exists s s1 _ [] []); [done|apply addReply_quiet, Hq]|].
    split; [|done]. apply addReply_lookup. subst s1. rewrite upd_lookup, decide_True, Hc by done. done.
Qed.

Lemma call_moves n e flags s id c cmd : inv s -> clients s !! id = Some c -> c_cmd c = Some cmd ->
  exists s' evs, call key_exists run (S (S n)) e flags s id = Some s' /\ moves id s s' evs.
Proof.
  intros Hinv Hc Hcmd. remember (S n) as m eqn:Hm. cbn [call]. rewrite Hc. cbn [mbind option_bind]. rewrite Hcmd. cbn [mbind option_bind].
  pose proof (cleared_quiet s id Hinv) as Hq0. pose proof (q_inv _ _ _ _ Hq0) as Hi0.
  change (upd id (set_flags (fun f => Z.land f (Z.lnot PROP_FLAGS))) s) with (upd id cleared s).
  set (s0 := upd id cleared s) in *.
  assert (clients s0 !! id = Some (cleared c)) as Hc0 by (subst s0; rewrite upd_lookup, decide_True, Hc by done; done).
  assert (exists s1 evs c1 cmd1 also, call_proc key_exists run (call key_exists run m e) e s0 id c cmd = Some (s1, also) /\
    moves id s0 s1 evs /\ clients s1 !! id = Some c1 /\ c_cmd c1 = Some cmd1) as (s1 & evs & c1 & cmd1 & also & -> & Hm1 & Hc1 & Hcmd1).
  { assert (c_cmd (cleared c) = Some cmd) as Hcmd0 by done. unfold call_proc.
    assert (exists s1 evs c1 cmd1 also, ordinary key_exists run s0 id c cmd = Some (s1, also) /\
      moves id s0 s1 evs /\ clients s1 !! id = Some c1 /\ c_cmd c1 = Some cmd1) as Hord.
    { destruct (ordinary_spec s0 id (cleared c) c cmd Hi0 Hc0) as (s1 & c1 & -> & Hq1 & Hm1 & Hc1 & _).
      eexists _, _, _, _, _. split; [done|]. split; [by apply quiet_moves|]. by split. }
    destruct (cmd_proc cmd); try exact Hord.
    - subst m. destruct (exec_spec n e s0 id _ Hi0 Hc0) as (s1 & evs & c1 & -> & Ho & Hc1 & Hcmd1 & Hres). cbn [mbind option_bind].
      exists s1, evs, c1, cmd, []. split; [done|]. split; [|split; [done|congruence]].
      eapply others_moves; [done..|]. destruct Hres as [(_ & ? & ?)|(_ & -> & ->)]; [by left|]. right.
      unfold is_dirty. cbn. by rewrite orb_false_r.
    - destruct (discardCommand_spec s0 id _ Hi0 Hc0) as (s1 & c1 & -> & Hmv & Hc1 & Hcmd1). cbn [mbind option_bind].
      exists s1, [], c1, cmd, []. split; [done|]. split; [done|]. split; [done|congruence].
    - destruct (multiCommand_spec s0 id _ Hi0 Hc0) as (s1 & c1 & -> & Hmv & Hc1 & Hcmd1). cbn [mbind option_bind].
      exists s1, [], c1, cmd, []. split; [done|]. split; [by apply quiet_moves|]. split; [done|congruence].
    - destruct (watchCommand_spec s0 id _ Hi0 Hc0) as (s1 & c1 & -> & Hmv & Hc1 & Hcmd1 & _). cbn [mbind option_bind].
      exists s1, [], c1, cmd, []. split; [done|]. split; [done|]. split; [done|congruence].
    - destruct (unwatchCommand_spec s0 id _ Hi0 Hc0) as (s1 & c1 & -> & Hmv & Hc1 & Hcmd1). cbn [mbind option_bind].
      exists s1, [], c1, cmd, []. split; [done|]. split; [done|]. split; [done|congruence]. }
  cbn [mbind option_bind fst snd].
  destruct (after_call_spec e flags (c_flags c) (dirty s) s1 id also c1 cmd1) as (s' & -> & Hq' & _); [apply Hm1|done|done|].
  exists s', evs. split; [done|]. rewrite <- (app_nil_l evs). eapply quiet_moves_trans; [done|]. by eapply moves_quiet_trans.
Qed.

(** *** [processCommand] *)

Context (lookupCommand : list byte -> option redisCommand).
Context (freeMemory : D -> D * list (@event D) * bool).

Abbreviation processCommand := (processCommand key_exists run lookupCommand freeMemory).

Lemma flagTransaction_spec c : watched_keys (flagTransaction c) = watched_keys c /\
  is_dirty (flagTransaction c) = is_dirty c /\ in_multi (flagTransaction c) = in_multi c /\
  (client_ok c -> client_ok (flagTransaction c)) /\
  mstate_commands (flagTransaction c) = mstate_commands c /\ c_reply (flagTransaction c) = c_reply c /\
  (in_multi c = true -> is_failed (flagTransaction c) = true).
Proof.
  unfold flagTransaction. rewrite multi_flag. destruct (in_multi c) eqn:Hm; [|done].
  unfold client_ok, is_dirty, in_multi, is_failed in *. cbn. flag_bits. rewrite Hm. split_and!; try done.
  intros (? & ? & ? & ?). split_and!; done.
Qed.

Lemma reject_quiet s id flag r : inv s -> quiet s (reject flag id r s) [].
Proof.
  intros Hinv. unfold reject. destruct flag; [|by apply addReply_quiet].
  assert (quiet s (upd id flagTransaction s) []) as Hq.
  { apply quiet_upd; [done|]. intros c _. destruct (flagTransaction_spec c) as (? & ? & _ & ? & _). done. }
  apply (quiet_trans key_exists s (upd id flagTransaction s) _ [] []); [done|]. apply addReply_quiet, Hq.
Qed.

Lemma reject_lookup s id flag r c : clients s !! id = Some c ->
  clients (reject flag id r s) !! id = Some (add_reply [r] (if flag then flagTransaction c else c)).
Proof.
  intros Hc. unfold reject. apply addReply_lookup. destruct flag; [|done]. by rewrite upd_lookup, decide_True, Hc.
Qed.

Lemma queued_plain c cmd : queued_now c cmd = true -> in_multi c = true /\ plain_cmd cmd.
Proof.
  unfold queued_now, cmd_is. rewrite multi_flag. intros H. zbool. split; [done|]. unfold plain_cmd, plain. cbn.
  destruct (cmd_proc cmd); try done; by rewrite bool_decide_eq_true_2 in *.
Qed.

(** The client after its command was queued. *)
Definition enqueued (cmd : redisCommand) (c : client) : client :=
  set_mstate (mstate_commands c ++ [mkMc (c_argv c) cmd]) (Z.lor (mstate_cmd_flags c) (cmd_flags cmd)) c.

Lemma enqueue_quiet s id c cmd : inv s -> clients s !! id = Some c -> in_multi c = true -> plain_cmd cmd ->
  quiet s (upd id (fun _ => enqueued cmd c) s) [].
Proof.
  intros Hinv Hc Hm Hp. apply quiet_upd; [done|]. intros c0 Hc0. simplify_eq. split; [done|]. split; [done|].
  unfold client_ok, in_multi, is_failed in *. cbn. rewrite Hm. intros (? & _ & ? & ?). split_and!; try done.
  apply Forall_app. split; [done|]. by apply Forall_singleton.
Qed.

(** Events of other clients change nothing of a client but its flags. *)
Lemma apply_events_frozen evs : forall s s', apply_events key_exists None s evs = Some s' -> inv s ->
  forall k c', clients s' !! k = Some c' -> exists c, clients s !! k = Some c /\ only_marked c c'.
Proof.
  induction evs as [|ev evs IH]; intros s s' Happ Hinv k c' Hc'; cbn [apply_events] in Happ.
  { simplify_eq. exists c'. split; [done|apply only_marked_refl]. }
  destruct (apply_event_quiet key_exists None s ev Hinv) as (s1 & Hs1 & Hq & _ & _). rewrite Hs1 in Happ. cbn [mbind option_bind] in Happ.
  destruct (IH s1 s' Happ (q_inv _ _ _ _ Hq) k c' Hc') as (c1 & Hc1 & Hm).
  assert (exists c, clients s !! k = Some c /\ only_marked c c1) as (c & Hc & Hm'); [|exists c; split; [done|by eapply only_marked_trans]].
  destruct ev as [db key|dbid d|j]; cbn [apply_event] in Hs1.
  - simplify_eq. unfold touchWatchedKey in Hc1. cbn in Hc1. destruct (watchers s !! (db, key)) as [l|] eqn:Hl.
    + rewrite mark_list_lookup in Hc1 by apply (inv_list _ Hinv _ _ Hl). cbn in Hc1. destruct (clients s !! k) as [c|]; [|done].
      cbn in Hc1. simplify_eq. exists c. split; [done|]. case_bool_decide; [apply only_marked_dirty|apply only_marked_refl].
    + exists c1. split; [done|apply only_marked_refl].
  - simplify_eq. cbn in Hc1. rewrite lookup_fmap in Hc1. destruct (clients s !! k) as [c|]; [|done]. cbn in Hc1. simplify_eq.
    exists c. split; [done|]. destruct (existsb _ _); [apply only_marked_dirty|apply only_marked_refl].
  - destruct (freeClient_quiet key_exists (record_event (EvKill j) s) j) as (s2 & Hf & _ & _ & Hcl); [by apply (inv_same s)|].
    rewrite decide_False in Hs1 by done. rewrite Hf in Hs1. simplify_eq. rewrite Hcl in Hc1. apply lookup_delete_Some in Hc1 as [_ Hc1].
    exists c1. split; [done|apply only_marked_refl].
Qed.

(** The step before the guards: [c->cmd] is set, memory is freed. *)
Lemma free_memory_spec (b : bool) s : inv s ->
  exists s' oom evs, (if b then let '(d, evs, oom) := freeMemory (data s) in
      s ← apply_events key_exists None s evs; Some (set_data d (dirty s) (masterhost s) s, oom)
    else Some (s, false)) = Some (s', oom) /\ quiet s s' evs /\ masterhost s' = masterhost s /\
    forall k c', clients s' !! k = Some c' -> exists c, clients s !! k = Some c /\ only_marked c c'.
Proof.
  intros Hinv. destruct b; [|exists s, false, []; split; [done|]; split; [by apply quiet_refl|split; [done|]];
    intros k c Hk; exists c; split; [done|apply only_marked_refl]].
  destruct (freeMemory (data s)) as [[d evs] oom].
  destruct (apply_events_quiet key_exists None evs s Hinv) as (s1 & Happ & Hq & (_ & _ & Hm & _) & _).
  rewrite Happ. cbn [mbind option_bind].
  eexists _, _, evs. split; [done|]. split; [|split; [done|by apply (apply_events_frozen evs s s1)]]. rewrite <- (app_nil_r evs). eapply quiet_trans; [done|].
  apply quiet_world; [apply Hq|done..].
Qed.

Lemma set_cmd_quiet s id argv cmd : inv s -> quiet s (upd id (set_cmd argv cmd) s) [].
Proof. intros. by apply quiet_upd. Qed.

Lemma quiet_cmd s s' evs id c c' : quiet s s' evs -> clients s !! id = Some c -> clients s' !! id = Some c' ->
  watched_keys c' = watched_keys c.
Proof. intros [_ _ H] Hc Hc'. destruct (H _ _ Hc') as (c0 & ? & ? & _). by simplify_eq. Qed.

Lemma processCommand_moves e s id c : inv s -> clients s !! id = Some c -> c_argv c <> [] ->
  exists s' ok evs, processCommand e s id = Some (s', ok) /\ moves id s s' evs.
Proof.
  intros Hinv Hc Hargv. unfold Multi.processCommand. rewrite Hc. cbn [mbind option_bind].
  destruct (c_argv c) as [|name args] eqn:Hav; [done|]. cbn [head mbind option_bind]. rewrite <- Hav.
  assert (forall s' (ok : bool), quiet s s' [] -> exists s'' ok' evs, Some (s', ok) = Some (s'', ok') /\ moves id s s'' evs) as Hquiet.
  { intros s' ok Hq. exists s', ok, []. split; [done|]. by apply quiet_moves. }
  case_bool_decide.
  { apply Hquiet. apply (quiet_trans key_exists s (addReply id (RShared "ok") s) _ [] []); [by apply addReply_quiet|].
    apply quiet_upd; [by apply addReply_quiet|]. intros c0 _. split; [done|].
    unfold is_dirty, client_ok, in_multi, is_failed. cbn. by flag_bits. }
  set (s1 := upd id (set_cmd (c_argv c) (lookupCommand name)) s).
  pose proof (set_cmd_quiet s id (c_argv c) (lookupCommand name) Hinv : quiet s s1 []) as Hq1.
  pose proof (q_inv _ _ _ _ Hq1) as Hi1.
  assert (clients s1 !! id = Some (set_cmd (c_argv c) (lookupCommand name) c)) as Hc1
    by (subst s1; rewrite upd_lookup, decide_True, Hc by done; done).
  assert (forall flag r, quiet s (reject flag id r s1) []) as Hrej.
  { intros. apply (quiet_trans key_exists s s1 _ [] []); [done|]. by apply reject_quiet. }
  destruct (lookupCommand name) as [cmd|] eqn:Hlook; [|by apply Hquiet].
  destruct (wrong_arity _ _); [by apply Hquiet|]. destruct (requirepass e && _ && _); [by apply Hquiet|].
  destruct (cluster_enabled e && _ && _ && _).
  { destruct (cmd_is cmd PExec).
    - destruct (discard_others s1 id _ Hi1 Hc1) as (s2 & -> & Ho & _ & Hc2). cbn [mbind option_bind].
      eexists _, _, []. split; [done|]. rewrite <- (app_nil_r []). eapply quiet_moves_trans; [exact Hq1|].
      eapply moves_quiet_trans; [|apply addReply_quiet, Ho]. eapply others_moves; [done..|]. left. split; [done|apply discarded_bits].
    - cbn [mbind option_bind]. apply Hquiet. exact (Hrej true (RError "redirection")). }
  destruct (free_memory_spec (maxmemory e && negb (lua_timedout e)) s1 Hi1) as (s2 & oom & evs & -> & Hq2 & _ & Hfr). cbn [mbind option_bind].
  pose proof (quiet_trans key_exists s s1 s2 [] evs Hq1 Hq2) as Hq02. cbn [app] in Hq02. pose proof (q_inv _ _ _ _ Hq2) as Hi2.
  destruct (clients s2 !! id) as [c2|] eqn:Hc2; [|by exists s2, false, evs; split; [|apply quiet_moves]].
  assert (forall s' (ok : bool), quiet s2 s' [] -> exists s'' ok' evs', Some (s', ok) = Some (s'', ok') /\ moves id s s'' evs') as Hquiet2.
  { intros s' ok Hq. exists s', ok, evs. split; [done|]. apply quiet_moves. rewrite <- (app_nil_r evs). by eapply quiet_trans. }
  destruct (guards e s2 c2 cmd oom) as [[r flag]|]; [by apply Hquiet2, reject_quiet|].
  assert (c_cmd c2 = Some cmd) as Hcmd2.
  { destruct (Hfr id c2 Hc2) as (c3 & Hc3 & m & -> & _). by simplify_eq. }
  destruct (queued_now c2 cmd) eqn:Hqn.
  - destruct (queued_plain _ _ Hqn) as [Hm Hp]. unfold queueMultiCommand. rewrite Hcmd2. cbn [mbind option_bind]. apply Hquiet2.
    apply (quiet_trans key_exists s2 (upd id (fun _ => enqueued cmd c2) s2) _ [] []); [by apply enqueue_quiet|].
    by apply addReply_quiet, enqueue_quiet.
  - destruct (call_moves 0 e CMD_CALL_FULL s2 id c2 cmd Hi2 Hc2 Hcmd2) as (s3 & evs3 & -> & Hm3). cbn [mbind option_bind].
    exists s3, true, (evs ++ evs3). split; [done|]. by eapply quiet_moves_trans.
Qed.

(** ** The server as a state machine *)

Definition new_client (authenticated : bool) : client := mkClient 0 0 authenticated [] None [] 0 [] [].

(** A step of the server: a client connects, sends a command or disconnects, or
    the server changes its data set by itself, as when keys expire. *)
Inductive step s : server -> Prop :=
  | step_connect id a : clients s !! id = None -> step s (set_clients <[id := new_client a]> s)
  | step_command e id c argv s' ok : clients s !! id = Some c -> argv <> [] ->
      processCommand e (upd id (set_cmd argv (c_cmd c)) s) id = Some (s', ok) -> step s s'
  | step_close id s' : freeClient s id = Some s' -> step s s'
  | step_background d evs s' : apply_events key_exists None s evs = Some s' ->
      step s (set_data d (dirty s') (masterhost s') s').

Inductive reachable : server -> Prop :=
  | reach_init d m : reachable (mkServer ∅ ∅ d 0 m [] [] [])
  | reach_step s s' : reachable s -> step s s' -> reachable s'.

(** What a step does, seen by the client [k]. *)
Definition step_client evs s s' : Prop := forall k c', clients s' !! k = Some c' ->
  (clients s !! k = None /\ watched_keys c' = []) \/ exists c, clients s !! k = Some c /\ own_step evs c c'.

Lemma step_spec s s' : step s s' -> inv s ->
  inv s' /\ exists evs, history s' = history s ++ evs /\ step_client evs s s'.
Proof.
  assert (forall s s' evs, quiet s s' evs -> inv s' /\ exists evs, history s' = history s ++ evs /\ step_client evs s s') as Hquiet.
  { intros s0 s0' evs Hq. split; [apply Hq|]. exists evs. split; [apply Hq|]. intros k c' Hc'. right.
    destruct (q_client _ _ _ _ Hq _ _ Hc') as (c & Hc & Hw & Hd). exists c. split; [done|]. right. by rewrite Hw. }
  intros Hst Hinv. destruct Hst as [id a Hid|e id c argv s' ok Hc Ha Hp|id s' Hf|d evs s' Happ].
  - pose proof Hinv as [H1 H2 H3]. split.
    + split; [|done|].
      * intros k c. cbn. destruct (decide (k = id)) as [->|].
        -- rewrite lookup_insert_eq. intros [= <-]. split; [constructor|]. split; [done|]. by split.
        -- rewrite lookup_insert_ne by done. apply H1.
      * intros k wk. cbn [watchers set_clients clients]. rewrite H3. destruct (decide (k = id)) as [->|].
        -- rewrite lookup_insert_eq, Hid. split; [by intros (? & ? & _)|]. intros (? & [= <-] & Hw). cbn in Hw. set_solver.
        -- by rewrite lookup_insert_ne.
    + exists []. split; [by rewrite app_nil_r|]. intros k c'. cbn. destruct (decide (k = id)) as [->|].
      * rewrite lookup_insert_eq. intros [= <-]. by left.
      * rewrite lookup_insert_ne by done. intros Hk. right. exists c'. split; [done|]. right. by rewrite orb_false_r.
  - pose proof (set_cmd_quiet s id argv (c_cmd c) Hinv) as Hq.
    destruct (processCommand_moves e (upd id (set_cmd argv (c_cmd c)) s) id (set_cmd argv (c_cmd c) c)) as (s1 & ok1 & evs & Hp1 & Hm);
      [apply Hq|by rewrite upd_lookup, decide_True, Hc|done|].
    rewrite Hp in Hp1. simplify_eq. pose proof (quiet_moves_trans _ _ _ _ _ _ Hq Hm) as [Ho Hown]. cbn [app] in *.
    split; [apply Ho|]. exists evs. split; [apply Ho|]. intros k c' Hc'. right. destruct (decide (k = id)) as [->|Hk].
    + by apply Hown.
    + destruct (ot_client _ _ _ _ Ho _ _ Hk Hc') as (c0 & Hc0 & Hw & Hd). exists c0. split; [done|]. right. by rewrite Hw.
  - destruct (freeClient_quiet key_exists s id Hinv) as (s1 & Hf1 & Hq & _). rewrite Hf in Hf1. simplify_eq. by eapply Hquiet.
  - destruct (apply_events_quiet key_exists None evs s Hinv) as (s1 & Hs1 & Hq & _). rewrite Happ in Hs1. simplify_eq.
    eapply Hquiet. eapply quiet_trans; [exact Hq|]. apply quiet_world; [apply Hq|done..].
Qed.

Lemma reachable_inv s : reachable s -> inv s.
Proof.
  induction 1 as [d m|s s' _ IH Hst]; [|by apply (step_spec s s')]. split; cbn.
  - intros id c. by rewrite lookup_empty.
  - intros wk l. by rewrite lookup_empty.
  - intros id wk. rewrite !lookup_empty. by split; intros (? & ? & _).
Qed.

(** C38: The transaction state is consistent in every reachable state: a client is in the
    list of watchers of a key exactly if it watches the key, no list is empty or
    names a client twice, a client outside a transaction has an empty queue, and
    queues hold no transaction commands.  Hence no command fails an assertion or
    follows a null pointer, and transactions never nest. *)
Theorem transaction_invariant s : reachable s ->
  inv s /\
  forall e id c argv, clients s !! id = Some c -> argv <> [] ->
    exists s' ok, processCommand e (upd id (set_cmd argv (c_cmd c)) s) id = Some (s', ok).
Proof.
  intros Hr. pose proof (reachable_inv s Hr) as Hinv. split; [done|]. intros e id c argv Hc Ha.
  pose proof (set_cmd_quiet s id argv (c_cmd c) Hinv) as Hq.
  destruct (processCommand_moves e (upd id (set_cmd argv (c_cmd c)) s) id (set_cmd argv (c_cmd c) c)) as (s1 & ok1 & evs & Hp1 & _);
    [apply Hq|by rewrite upd_lookup, decide_True, Hc|done|]. by exists s1, ok1.
Qed.

(** Client [k] watches [wk] in all states from [s] to [s']. *)
Definition watches s (k : nat) (wk : Z * list byte) : Prop :=
  exists c, clients s !! k = Some c /\ wk ∈ watched_keys c.

Inductive watching (k : nat) (wk : Z * list byte) (s : server) : server -> Prop :=
  | watching_start : watches s k wk -> watching k wk s s
  | watching_step s1 s2 : watching k wk s s1 -> step s1 s2 -> watches s2 k wk -> watching k wk s s2.

Lemma existsb_mono {A} (f : A -> bool) l1 l2 : l1 ⊆ l2 -> existsb f l1 = true -> existsb f l2 = true.
Proof.
  intros Hs H. apply existsb_exists in H as (x & Hx & Hf). apply existsb_exists. exists x. split; [|done].
  apply list_elem_of_In. apply Hs. by apply list_elem_of_In.
Qed.

Lemma hit_mono evs l1 l2 : l1 ⊆ l2 -> hit evs l1 = true -> hit evs l2 = true.
Proof.
  intros Hs H. unfold Multi.hit in *. apply existsb_exists in H as (ev & Hev & Hx). apply existsb_exists. exists ev.
  split; [done|]. by eapply existsb_mono.
Qed.

Lemma hit_elem evs wk wks : wk ∈ wks -> existsb (modifies key_exists wk) evs = true -> hit evs wks = true.
Proof.
  intros Hin H. apply existsb_exists in H as (ev & Hev & Hx). apply existsb_exists. exists ev. split; [done|].
  apply existsb_exists. exists wk. split; [by apply list_elem_of_In|done].
Qed.

(** While a key is watched, the dirty flag says whether a watched key was
    modified. *)
Lemma watching_dirty k wk s s' : watching k wk s s' -> inv s ->
  inv s' /\ exists evs c c', history s' = history s ++ evs /\ clients s !! k = Some c /\ clients s' !! k = Some c' /\
    watched_keys c ⊆ watched_keys c' /\ wk ∈ watched_keys c' /\
    (is_dirty c = true -> is_dirty c' = true) /\
    (existsb (modifies key_exists wk) evs = true -> is_dirty c' = true) /\
    (is_dirty c' = true -> is_dirty c = true \/ hit evs (watched_keys c') = true).
Proof.
  intros Hw Hinv. induction Hw as [(c & Hc & Hin)|s1 s2 _ IH Hst (c2 & Hc2 & Hin2)].
  { split; [done|]. exists [], c, c. split; [by rewrite app_nil_r|]. split_and!; try done. by left. }
  destruct IH as (Hi1 & evs1 & c & c1 & Hh1 & Hc & Hc1 & Hsub1 & Hin1 & Hmon1 & Hhit1 & Hback1).
  destruct (step_spec _ _ Hst Hi1) as (Hi2 & evs2 & Hh2 & Hcl). split; [done|].
  exists (evs1 ++ evs2), c, c2. split; [by rewrite Hh2, Hh1, app_assoc|]. split; [done|]. split; [done|].
  destruct (Hcl k c2 Hc2) as [[Hn _]|(c1' & Hc1' & Hown)]; [congruence|]. simplify_eq.
  destruct Hown as [[Hnil _]|[Hsub Hd]]; [rewrite Hnil in Hin2; set_solver|].
  split; [by etrans|]. split; [done|]. rewrite Hd, existsb_app, hit_app. split_and!.
  - intros Hdc. by rewrite Hmon1.
  - intros [H|H]%orb_true_iff; [by rewrite Hhit1|]. rewrite (hit_elem evs2 wk) by done. apply orb_true_r.
  - intros [H|H]%orb_true_iff.
    + destruct (Hback1 H) as [?|?]; [by left|]. right. by rewrite (hit_mono evs1 (watched_keys c1)).
    + right. rewrite (hit_mono evs2 (watched_keys c1)) by done. apply orb_true_r.
Qed.

(** C6: Optimistic locking works.  Suppose a client watches a key from [s] to [s'],
    whatever all clients do meanwhile.  If on the way the key is reported as modified,
    by a command or by the server itself, or is flushed while it exists, then EXEC
    inside MULTI runs none of the queued commands: the data set and what was propagated
    stay as they are, the answer is the null reply, or the abort error if a queueing
    error also marked the transaction, and the queue and the watched keys are dropped.
    Conversely a client that is marked as dirty was so at [s], or one of the keys
    it watches was reported as modified or flushed since.  A key that expires without
    being reported does not count. *)
Theorem watch_guarantee s s' k wk evs c' : reachable s -> watching k wk s s' ->
  history s' = history s ++ evs -> clients s' !! k = Some c' ->
  (existsb (modifies key_exists wk) evs = true -> in_multi c' = true ->
   forall n e, exists s2 c2, execCommand (call key_exists run n e) e s' k = Some s2 /\ same_data s' s2 /\
     clients s2 !! k = Some c2 /\ mstate_commands c2 = [] /\ watched_keys c2 = [] /\ in_multi c2 = false /\
     c_reply c2 = c_reply c' ++ [RShared (if is_failed c' then "execaborterr" else "nullmultibulk")]) /\
  (is_dirty c' = true -> (exists c, clients s !! k = Some c /\ is_dirty c = true) \/ hit evs (watched_keys c') = true).
Proof.
  intros Hr Hw Hh Hc'. pose proof (reachable_inv s Hr) as Hinv.
  destruct (watching_dirty k wk s s' Hw Hinv) as (Hi' & evs' & c & c0 & Hh' & Hc & Hc0 & _ & _ & _ & Hhit & Hback).
  rewrite Hh in Hh'. simplify_eq. split.
  - intros Hmod Hm n e. destruct (exec_aborts (call key_exists run n e) e s' k c' Hi' Hc' Hm) as (s2 & -> & _ & Hd & Hc2);
      [by rewrite Hhit|].
    eexists s2, _. split; [done|]. split; [done|]. split; [done|]. split; [done|]. split; [done|]. split; [apply discarded_bits|]. done.
  - intros Hd. destruct (Hback Hd); [left; by exists c|by right].
Qed.

(** C37: EXEC is all or nothing.  A transaction that is not marked runs its queued
    commands in the order they were queued, each exactly once and with nothing
    in between, and their answers follow the array header in the same order; unless
    it has write commands and the server has become a read-only replica (and is not
    loading, and the client is not its master): then nothing is run or propagated
    and the answer is an error.  In both cases the client leaves the transaction. *)
Theorem exec_atomic s id c e n : reachable s -> clients s !! id = Some c -> in_multi c = true ->
  is_dirty c = false -> is_failed c = false ->
  exists s' c', execCommand (call key_exists run (S n) e) e s id = Some s' /\ clients s' !! id = Some c' /\
    (if exec_refused e s c then same_data s s' /\ c_reply c' = c_reply c ++ [refused_reply]
     else (data s', c_db c', masterhost s', c_reply c') =
       foldl queue_step (data s, c_db c, masterhost s,
         c_reply c ++ [RMultiBulkLen (Z.of_nat (length (mstate_commands c)))]) (mstate_commands c)) /\
    in_multi c' = false /\ mstate_commands c' = [] /\ watched_keys c' = [] /\ is_dirty c' = false.
Proof.
  intros Hr Hc Hm Hd Hf. pose proof (reachable_inv s Hr) as Hinv. destruct (exec_refused e s c) eqn:Href.
  - destruct (exec_refuses (call key_exists run (S n) e) e s id c Hinv Hc Hm) as (s' & -> & Hsd & Hc'); [by rewrite Hd, Hf|done|].
    eexists s', _. split; [done|]. split; [exact Hc'|]. split; [by split|].
    destruct (discarded_bits (add_reply [refused_reply] c)) as (H1 & H2 & _). done.
  - destruct (exec_runs n e s id c Hinv Hc Hm) as (s' & evs & c' & -> & _ & Hc' & _ & Hv); [by rewrite Hd, Hf|done|].
    exists s', (discarded c'). split; [done|]. split; [done|]. destruct (discarded_bits c') as (H1 & H2 & _). done.
Qed.

(** The guards that refuse a command without marking the transaction. *)
Definition unmarked (r : reply) : Prop :=
  r = RShared "roslaveerr" \/ r = RShared "loadingerr" \/
  r = RError "only (P)SUBSCRIBE / (P)UNSUBSCRIBE / PING / QUIT allowed in this context".

Lemma guards_unmarked e s c cmd oom r : guards e s c cmd oom = Some (r, false) -> unmarked r.
Proof.
  unfold guards, unmarked. intros H. repeat (destruct (_ && _) in H; [simplify_eq; tauto|]). done.
Qed.

(** The answer to MULTI and WATCH inside a transaction. *)
Definition nested_reply (cmd : redisCommand) : option reply :=
  match cmd_proc cmd with
  | PMulti => Some (RError "MULTI calls can not be nested")
  | PWatch => Some (RError "WATCH inside MULTI is not allowed")
  | _ => None
  end.

Lemma nested_call n e flags s id c cmd r : inv s -> clients s !! id = Some c -> c_cmd c = Some cmd -> in_multi c = true ->
  nested_reply cmd = Some r ->
  exists s', call key_exists run (S n) e flags s id = Some s' /\
    clients s' !! id = Some (restored (c_flags c) (add_reply [r] (cleared c))).
Proof.
  intros Hinv Hc Hcmd Hm Hr. cbn [call]. rewrite Hc. cbn [mbind option_bind]. rewrite Hcmd. cbn [mbind option_bind].
  pose proof (cleared_quiet s id Hinv) as Hq0. change (upd id (set_flags (fun f => Z.land f (Z.lnot PROP_FLAGS))) s) with (upd id cleared s).
  set (s0 := upd id cleared s) in *.
  assert (clients s0 !! id = Some (cleared c)) as Hc0 by (subst s0; rewrite upd_lookup, decide_True, Hc by done; done).
  assert (c_flag (cleared c) CLIENT_MULTI = true) as Hm0 by (rewrite multi_flag; by destruct (cleared_bits c) as (-> & _)).
  assert (call_proc key_exists run (call key_exists run n e) e s0 id c cmd = Some (addReply id r s0, [])) as ->.
  { unfold nested_reply in Hr. unfold call_proc, multiCommand, watchCommand. rewrite Hc0. cbn [mbind option_bind]. rewrite Hm0.
    by destruct (cmd_proc cmd); simplify_eq. }
  cbn [mbind option_bind fst snd].
  destruct (after_call_spec e flags (c_flags c) (dirty s) (addReply id r s0) id [] (add_reply [r] (cleared c)) cmd) as (s' & -> & _ & Hc' & _);
    [apply addReply_quiet, Hq0|by apply addReply_lookup|done|]. by exists s'.
Qed.

(** C39: Inside a transaction a command other than EXEC, DISCARD (and QUIT, which
    closes the client) has one of four outcomes.  It is queued; or it marks the transaction
    so that EXEC fails; or it is refused by one of three guards without a mark: a
    write on a read-only replica, a server that is loading its data, a client in
    publish/subscribe mode; or it is MULTI or WATCH, which are answered with an error
    and neither queued nor a reason to mark the transaction. *)
Theorem queueing_errors e s id c name args s' c' : reachable s -> clients s !! id = Some c -> in_multi c = true ->
  (forall cmd, lookupCommand name = Some cmd -> cmd_proc cmd <> PExec /\ cmd_proc cmd <> PDiscard) ->
  processCommand e (upd id (set_cmd (name :: args) (c_cmd c)) s) id = Some (s', true) -> clients s' !! id = Some c' ->
  (exists cmd, lookupCommand name = Some cmd /\
     mstate_commands c' = mstate_commands c ++ [mkMc (name :: args) cmd] /\ c_reply c' = c_reply c ++ [RShared "queued"]) \/
  (mstate_commands c' = mstate_commands c /\ is_failed c' = true) \/
  (mstate_commands c' = mstate_commands c /\ exists r, c_reply c' = c_reply c ++ [r] /\ unmarked r) \/
  (mstate_commands c' = mstate_commands c /\ in_multi c' = true /\ is_failed c' = is_failed c /\
     exists cmd r, lookupCommand name = Some cmd /\ nested_reply cmd = Some r /\ c_reply c' = c_reply c ++ [r]).
Proof.
  intros Hr Hc Hm Hplain Hp Hc'. pose proof (reachable_inv s Hr) as Hinv0.
  set (s0 := upd id (set_cmd (name :: args) (c_cmd c)) s) in *. set (c0 := set_cmd (name :: args) (c_cmd c) c).
  assert (clients s0 !! id = Some c0) as Hc0 by (subst s0; rewrite upd_lookup, decide_True, Hc by done; done).
  pose proof (q_inv _ _ _ _ (set_cmd_quiet s id (name :: args) (c_cmd c) Hinv0) : inv s0) as Hinv.
  unfold Multi.processCommand in Hp. rewrite Hc0 in Hp. cbn [mbind option_bind c_argv set_cmd head c0] in Hp.
  case_bool_decide; [done|].
  set (s1 := upd id (set_cmd (name :: args) (lookupCommand name)) s0) in *. set (c1 := set_cmd (name :: args) (lookupCommand name) c0).
  assert (clients s1 !! id = Some c1) as Hc1 by (subst s1; rewrite upd_lookup, decide_True, Hc0 by done; done).
  assert (forall r, clients (reject true id r s1) !! id = Some c' ->
    mstate_commands c' = mstate_commands c /\ is_failed c' = true) as Hrej.
  { intros r Hr1. rewrite (reject_lookup _ _ _ _ c1 Hc1) in Hr1. simplify_eq.
    destruct (flagTransaction_spec c1) as (_ & _ & _ & _ & Hq & _ & Hf). split; [exact Hq|]. by apply Hf. }
  destruct (lookupCommand name) as [cmd|] eqn:Hl; [|simplify_eq; right; left; by eapply Hrej].
  destruct (wrong_arity _ _) in Hp; [simplify_eq; right; left; by eapply Hrej|].
  destruct (requirepass e && _ && _) in Hp; [simplify_eq; right; left; by eapply Hrej|].
  assert (cmd_is cmd PExec = false) as Hne.
  { unfold cmd_is. apply bool_decide_eq_false_2. by apply Hplain. }
  rewrite Hne in Hp. destruct (cluster_enabled e && _ && _ && _) in Hp.
  { cbn [mbind option_bind] in Hp. simplify_eq. right. left. exact (Hrej _ Hc'). }
  pose proof (q_inv _ _ _ _ (set_cmd_quiet s0 id (name :: args) (Some cmd) Hinv) : inv s1) as Hi1.
  destruct (free_memory_spec (maxmemory e && negb (lua_timedout e)) s1 Hi1) as (s2 & oom & evs & Hfm & Hq2 & _ & Hfr).
  rewrite Hfm in Hp. cbn [mbind option_bind] in Hp.
  destruct (clients s2 !! id) as [c2|] eqn:Hc2; [|done]. destruct (Hfr id c2 Hc2) as (c1' & Hc1' & Hmk). simplify_eq.
  destruct (only_marked_bits _ _ Hmk) as [Hm2 Hf2]. destruct Hmk as (m & -> & _).
  destruct (guards e s2 _ cmd oom) as [[r flag]|] eqn:Hg.
  - simplify_eq. rewrite (reject_lookup _ _ _ _ _ Hc2) in Hc'. simplify_eq. destruct flag.
    + right. left. set (c2 := set_flags _ _) in *. destruct (flagTransaction_spec c2) as (_ & _ & _ & _ & Hq & _ & Hf).
      split; [exact Hq|]. apply Hf. rewrite Hm2. exact Hm.
    + right. right. left. split; [done|]. exists r. split; [done|]. by eapply guards_unmarked.
  - destruct (nested_reply cmd) as [r|] eqn:Hn.
    { assert (queued_now (set_flags (fun f => Z.lor f m) c1) cmd = false) as Hqn.
      { unfold queued_now, cmd_is. unfold nested_reply in Hn. destruct (cmd_proc cmd); try done; cbn; by rewrite !andb_false_r. }
      rewrite Hqn in Hp. set (c2 := set_flags _ _) in *.
      destruct (nested_call 1 e CMD_CALL_FULL s2 id c2 cmd r (q_inv _ _ _ _ Hq2) Hc2 eq_refl) as (s3 & Hcall & Hc3); [by rewrite Hm2|done|].
      rewrite Hcall in Hp. cbn [mbind option_bind] in Hp. simplify_eq. right; right; right.
      destruct (restored_bits (c_flags c2) (add_reply [r] (cleared c2))) as (-> & _ & ->).
      change (in_multi (add_reply [r] (cleared c2))) with (in_multi (cleared c2)).
      change (is_failed (add_reply [r] (cleared c2))) with (is_failed (cleared c2)).
      destruct (cleared_bits c2) as (-> & _ & ->). split_and!; [done|by rewrite Hm2|by rewrite Hf2|]. by exists cmd, r. }
    assert (queued_now (set_flags (fun f => Z.lor f m) c1) cmd = true) as Hqn.
    { unfold queued_now. rewrite multi_flag, Hm2. assert (in_multi c1 = true) as -> by exact Hm.
      destruct (Hplain cmd eq_refl) as [Hpe Hpd]. unfold nested_reply in Hn. unfold cmd_is. by destruct (cmd_proc cmd). }
    rewrite Hqn in Hp. cbn in Hp. simplify_eq. left. exists cmd. split; [done|].
    unfold addReply in Hc'. rewrite upd_lookup, decide_True, upd_lookup, decide_True, Hc2 in Hc' by done. cbn in Hc'. simplify_eq. done.
Qed.
End commands.

(** ** A small server *)

(** The data set is a set of keys; SET adds its first argument in the client's
    database and reports it as modified. *)
Definition toy_exists (d : list (Z * list byte)) (db : Z) (key : list byte) : bool := bool_decide ((db, key) ∈ d).

Definition toy_run (d : list (Z * list byte)) (db : Z) (argv : list (list byte)) (cmd : redisCommand) (m : bool)
    : @outcome (list (Z * list byte)) :=
  match cmd_proc cmd, argv with
  | POther 0, [_; key] => mkOut ((db, key) :: d) 1 [EvTouch db key] argv cmd [RShared "ok"] 0 [] db true m
  | _, _ => mkOut d 0 [] argv cmd [RShared "pong"] 0 [] db true m
  end.

Definition toy_cmd (name : string) (p : proc) (flags : Z) : redisCommand := mkCmd (bytes_of name) p (-1) flags false 0.

Definition toy_lookup (name : list byte) : option redisCommand :=
  if bool_decide (name = bytes_of "multi") then Some (toy_cmd "multi" PMulti 0)
  else if bool_decide (name = bytes_of "exec") then Some (toy_cmd "exec" PExec 0)
  else if bool_decide (name = bytes_of "watch") then Some (toy_cmd "watch" PWatch 0)
  else if bool_decide (name = bytes_of "set") then Some (toy_cmd "set" (POther 0) CMD_WRITE)
  else None.

Definition toy_env : env :=
  mkEnv false true true true false false false false false None false true true true.

Definition toy_free (d : list (Z * list byte)) : list (Z * list byte) * list (@event (list (Z * list byte))) * bool := (d, [], false).

Abbreviation toy_process := (processCommand toy_exists toy_run toy_lookup toy_free).

Definition toy_send (s : server) (id : nat) (argv : list (list byte)) : server :=
  match clients s !! id with
  | Some c => match toy_process toy_env (upd id (set_cmd argv (c_cmd c)) s) id with Some (s', _) => s' | None => s end
  | None => s
  end.

Lemma toy_plain d db argv cmd m : plain_cmd cmd -> plain_cmd (o_cmd (toy_run d db argv cmd m)).
Proof. unfold toy_run. destruct (cmd_proc cmd) as [| | | | | | | | | | | | | |[|]]; destruct argv as [|? [|? [|? ?]]]; done. Qed.

Abbreviation toy_reachable := (reachable toy_exists toy_run toy_lookup toy_free).
Abbreviation toy_step := (step toy_exists toy_run toy_lookup toy_free).

Lemma toy_send_step s id argv c : clients s !! id = Some c -> argv <> [] ->
  is_Some (toy_process toy_env (upd id (set_cmd argv (c_cmd c)) s) id) -> toy_step s (toy_send s id argv).
Proof.
  intros Hc Ha [[s' ok] Hs]. unfold toy_send. rewrite Hc, Hs. by apply (step_command _ _ _ _ s toy_env id c argv s' ok).
Qed.

Definition toy0 : @server (list (Z * list byte)) := mkServer ∅ ∅ [] 0 false [] [] [].
Definition toy1 := set_clients <[1%nat := new_client true]> toy0.
Definition toy2 := set_clients <[2%nat := new_client true]> toy1.
Definition toy3 := toy_send toy2 1 [bytes_of "watch"; bytes_of "x"].
Definition toy4 := toy_send toy3 2 [bytes_of "set"; bytes_of "x"].
Definition toy5 := toy_send toy4 1 [bytes_of "multi"].
Definition toy6 := toy_send toy5 1 [bytes_of "set"; bytes_of "y"].

Ltac toy_step := eapply toy_send_step; [vm_compute; reflexivity|done|vm_compute; by eexists].

Lemma toy2_reachable : toy_reachable toy2.
Proof. do 2 (eapply reach_step; [|by apply step_connect]). apply reach_init. Qed.

Lemma toy3_reachable : toy_reachable toy3.
Proof. eapply reach_step; [apply toy2_reachable|toy_step]. Qed.

(** Client 1 in a state. *)
Definition toy_client (s : @server (list (Z * list byte))) : client := default (new_client true) (clients s !! 1%nat).

Lemma transaction_invariant_witness : toy_reachable toy3 /\ inv toy3 /\
  exists s' ok, toy_process toy_env (upd 1 (set_cmd [bytes_of "exec"] (c_cmd (toy_client toy3))) toy3) 1 = Some (s', ok).
Proof.
  split; [apply toy3_reachable|].
  destruct (transaction_invariant toy_exists toy_run toy_plain toy_lookup toy_free toy3 toy3_reachable) as [Hi Hp].
  split; [exact Hi|]. apply Hp; [vm_compute; reflexivity|done].
Defined.

(** Client 1 watches x, client 2 sets it, client 1 queues a write and calls EXEC. *)
Lemma watch_guarantee_witness : length (mstate_commands (toy_client toy6)) = 1%nat /\
  exists s' c', execCommand (call toy_exists toy_run 1 toy_env) toy_env toy6 1 = Some s' /\ data s' = data toy6 /\
  clients s' !! 1%nat = Some c' /\ c_reply c' = c_reply (toy_client toy6) ++ [RShared "nullmultibulk"].
Proof.
  split; [vm_compute; reflexivity|].
  assert (watching toy_exists toy_run toy_lookup toy_free 1 (0, bytes_of "x") toy3 toy6) as Hw.
  { apply (watching_step _ _ _ _ _ _ _ toy5 toy6); [apply (watching_step _ _ _ _ _ _ _ toy4 toy5);
      [apply (watching_step _ _ _ _ _ _ _ toy3 toy4); [apply watching_start|toy_step|]|toy_step|]|toy_step|];
      (eexists; split; [vm_compute; reflexivity|vm_compute; left]). }
  destruct (watch_guarantee toy_exists toy_run toy_plain toy_lookup toy_free toy3 toy6 1 (0, bytes_of "x") [EvTouch 0 (bytes_of "x")]
    (toy_client toy6) toy3_reachable Hw) as [Habort _]; [vm_compute; reflexivity|vm_compute; reflexivity|].
  destruct (Habort ltac:(vm_compute; reflexivity) ltac:(vm_compute; reflexivity) 1%nat toy_env)
    as (s' & c' & He & (Hd & _) & Hc' & _ & _ & _ & Hrep).
  exists s', c'. split; [exact He|]. split; [exact Hd|]. split; [exact Hc'|exact Hrep].
Defined.

Definition toy7 := toy_send (toy_send toy3 1 [bytes_of "multi"]) 1 [bytes_of "set"; bytes_of "y"].

Lemma toy_multi_reachable : toy_reachable (toy_send toy3 1 [bytes_of "multi"]).
Proof. eapply reach_step; [apply toy3_reachable|toy_step]. Qed.

Lemma toy7_reachable : toy_reachable toy7.
Proof. eapply reach_step; [apply toy_multi_reachable|toy_step]. Qed.

Lemma exec_atomic_witness : exists s' c', execCommand (call toy_exists toy_run 1 toy_env) toy_env toy7 1 = Some s' /\
  clients s' !! 1%nat = Some c' /\
  (data s', c_db c', masterhost s', c_reply c') =
    ([(0, bytes_of "y")], 0, false, [RShared "ok"; RShared "ok"; RShared "queued"; RMultiBulkLen 1; RShared "ok"]).
Proof.
  destruct (exec_atomic toy_exists toy_run toy_plain toy_lookup toy_free toy7 1 (toy_client toy7) toy_env 0 toy7_reachable)
    as (s' & c' & He & Hc' & Hv & _); [vm_compute; reflexivity..|].
  exists s', c'. split; [exact He|]. split; [exact Hc'|]. rewrite Hv. vm_compute. reflexivity.
Defined.

Lemma queueing_errors_witness : exists s', toy_process toy_env (upd 1 (set_cmd [bytes_of "get"] (c_cmd (toy_client toy7))) toy7) 1 = Some (s', true) /\
  mstate_commands (toy_client s') = mstate_commands (toy_client toy7) /\ is_failed (toy_client s') = true.
Proof.
  eexists. split; [vm_compute; reflexivity|].
  destruct (queueing_errors toy_exists toy_run toy_plain toy_lookup toy_free toy_env toy7 1 (toy_client toy7) (bytes_of "get") []
    (toy_send toy7 1 [bytes_of "get"]) (toy_client (toy_send toy7 1 [bytes_of "get"])) toy7_reachable)
    as [(cmd & Hl & _)|[H|[(_ & r & Hr & Hu)|(_ & _ & _ & cmd & r & Hl & _)]]].
  - vm_compute. reflexivity.
  - vm_compute. reflexivity.
  - intros cmd Hl. vm_compute in Hl. discriminate Hl.
  - vm_compute. reflexivity.
  - vm_compute. reflexivity.
  - vm_compute in Hl. discriminate Hl.
  - vm_compute in H |- *. exact H.
  - exfalso. destruct Hu as [->|[->| ->]]; vm_compute in Hr; discriminate Hr.
  - vm_compute in Hl. discriminate Hl.
Defined.

(** On a replica that became read-only inside a transaction, a refused write is
    answered with an error but does not mark the transaction. *)
Definition readonly_toy : server := set_data (data toy7) 0 true toy7.
Lemma readonly_refusal_unmarked :
  let c := toy_client (toy_send readonly_toy 1 [bytes_of "set"; bytes_of "z"]) in
  last (c_reply c) = Some (RShared "roslaveerr") /\ is_failed c = false /\ length (mstate_commands c) = 1%nat.
Proof. vm_compute. done. Qed.
