(* ===== verification/Serving.v ===== *)
(** * Serving a client (src/redis-5.0.7/src/networking.c with server.c and multi.c)

    The parser of [Protocol.v] passes every command to [processCommand]; [Multi.v]
    models that function with the command queue of transactions, the guards and
    [call].  Here the two are put together: [run_command] runs [processCommand] for
    the client whose input is read, and [multi_commands] shows that it implements
    the interface the parser relies on.  The two files keep their own views of the
    client; flags and arguments, which both use, are handed over before and after
    the command. *)

From S2P Require Import Prelude Sds ServerDefs Protocol Multi.
From stdpp Require Import gmap strings.
Local Open Scope Z_scope.

#[local] Arguments Z.testbit : simpl never.
#[local] Arguments Z.lor : simpl never.
#[local] Arguments Z.land : simpl never.
#[local] Arguments Z.lnot : simpl never.

Definition is_master (c : Multi.client) : bool := Z.testbit (c_flags c) 1.

(** ** Commands do not make a client a master *)

Section keeps.
Context {D : Type} (key_exists : D -> Z -> list byte -> bool)
  (run : D -> Z -> list (list byte) -> redisCommand -> bool -> @outcome D)
  (lookupCommand : list byte -> option redisCommand) (freeMemory : D -> D * list (@event D) * bool).
Implicit Types s : @server D.

(** Clients are freed, or keep the flag of a master. *)
Definition keeps s s' : Prop := forall k c', clients s' !! k = Some c' ->
  exists c, clients s !! k = Some c /\ is_master c' = is_master c.

Lemma keeps_trans s1 s2 s3 : keeps s1 s2 -> keeps s2 s3 -> keeps s1 s3.
Proof.
  intros H1 H2 k c3 Hc3. destruct (H2 k c3 Hc3) as (c2 & Hc2 & ->). destruct (H1 k c2 Hc2) as (c1 & Hc1 & ->). by exists c1.
Qed.

Lemma keeps_same s s' : clients s' = clients s -> keeps s s'.
Proof. intros E k c Hc. rewrite E in Hc. by exists c. Qed.

Lemma keeps_upd s id f : (forall c, is_master (f c) = is_master c) -> keeps s (upd id f s).
Proof.
  intros Hf k c'. rewrite upd_lookup. destruct (decide (k = id)); [|intros Hc; by exists c'].
  intros (c & Hc & ->)%fmap_Some. by exists c.
Qed.

Lemma master_flags f c : Z.testbit (f (c_flags c)) 1 = Z.testbit (c_flags c) 1 -> is_master (set_flags f c) = is_master c.
Proof. done. Qed.

Ltac keep_bits := intros ?; apply master_flags; by flag_bits.

Lemma keeps_reply s id r : keeps s (addReply id r s).
Proof. by apply keeps_upd. Qed.

Lemma keeps_flagTransaction s id : keeps s (upd id flagTransaction s).
Proof. apply keeps_upd. intros c. unfold flagTransaction. destruct (c_flag c CLIENT_MULTI); [|done]. apply master_flags. by flag_bits. Qed.

Lemma keeps_touch s db key : keeps s (touchWatchedKey s db key).
Proof.
  unfold touchWatchedKey. destruct (watchers s !! (db, key)) as [l|]; [|by apply keeps_same]. revert s.
  induction l as [|id l IH]; intros s; [by apply keeps_same|]. cbn [foldl]. eapply keeps_trans; [|apply IH].
  apply keeps_upd. keep_bits.
Qed.

Lemma keeps_flush s d dbid : keeps s (touchWatchedKeysOnFlush key_exists s d dbid).
Proof.
  intros k c'. cbn. rewrite lookup_fmap. intros (c & Hc & ->)%fmap_Some. exists c. split; [done|].
  destruct (existsb _ _); [|done]. apply master_flags. by flag_bits.
Qed.

Lemma keeps_unwatch s id s' : unwatchAllKeys s id = Some s' -> keeps s s'.
Proof.
  unfold unwatchAllKeys. destruct (clients s !! id) as [c|]; [|done]. cbn [mbind option_bind]. revert s.
  induction (watched_keys c) as [|wk wks IH]; intros s H; cbn [unwatch_loop] in H; [simplify_eq; by apply keeps_same|].
  destruct (watchers s !! wk); [|done]. cbn [mbind option_bind] in H. destruct (remove_client id _); [|done].
  cbn [mbind option_bind] in H. apply IH in H. eapply keeps_trans; [|exact H].
  set (s1 := set_watchers _ s). apply (keeps_trans s s1); [by apply keeps_same|by apply keeps_upd].
Qed.

Lemma keeps_free s id s' : freeClient s id = Some s' -> keeps s s'.
Proof.
  unfold freeClient. destruct (clients s !! id); [|intros [= <-]; by apply keeps_same].
  destruct (unwatchAllKeys s id) as [s1|] eqn:E; [|done]. cbn [mbind option_bind]. intros [= <-].
  eapply keeps_trans; [by eapply keeps_unwatch|]. intros k c'. cbn. intros [_ Hc]%lookup_delete_Some. by exists c'.
Qed.

Lemma keeps_discard s id s' : discardTransaction s id = Some s' -> keeps s s'.
Proof. intros H%keeps_unwatch. eapply keeps_trans; [|exact H]. apply keeps_upd. intros c. unfold is_master. cbn. by flag_bits. Qed.

Lemma keeps_events self evs : forall s s', apply_events key_exists self s evs = Some s' -> keeps s s'.
Proof.
  induction evs as [|ev evs IH]; intros s s' H; cbn [apply_events] in H; [simplify_eq; by apply keeps_same|].
  destruct (apply_event key_exists self s ev) as [s1|] eqn:E; [|done]. cbn [mbind option_bind] in H. apply IH in H.
  eapply keeps_trans; [|exact H]. apply (keeps_trans s (record_event ev s)); [by apply keeps_same|].
  unfold apply_event in E. cbv zeta in E. destruct ev as [db key|dbid d|k].
  - simplify_eq. apply keeps_touch.
  - simplify_eq. apply keeps_flush.
  - destruct (decide _); [simplify_eq; apply keeps_upd; keep_bits|by eapply keeps_free].
Qed.

Lemma keeps_propagate e s argv fl : keeps s (propagate e s argv fl).
Proof. by apply keeps_same. Qed.

(** The commands of a transaction, EXEC apart. *)
Lemma keeps_commands s id s' :
  (multiCommand s id = Some s' -> keeps s s') /\ (discardCommand s id = Some s' -> keeps s s') /\
  (watchCommand s id = Some s' -> keeps s s') /\ (unwatchCommand s id = Some s' -> keeps s s').
Proof.
  unfold multiCommand, discardCommand, watchCommand, unwatchCommand. split_and!.
  - destruct (clients s !! id) as [c|]; [|done]. cbn [mbind option_bind]. destruct (c_flag c CLIENT_MULTI); intros [= <-].
    + apply keeps_reply.
    + eapply keeps_trans; [|apply keeps_reply]. apply keeps_upd. keep_bits.
  - destruct (clients s !! id) as [c|]; [|done]. cbn [mbind option_bind]. destruct (negb _); [intros [= <-]; apply keeps_reply|].
    destruct (discardTransaction s id) as [s1|] eqn:E; [|done]. cbn [mbind option_bind]. intros [= <-].
    eapply keeps_trans; [by eapply keeps_discard|apply keeps_reply].
  - destruct (clients s !! id) as [c|]; [|done]. cbn [mbind option_bind]. destruct (c_flag c CLIENT_MULTI); [intros [= <-]; apply keeps_reply|].
    destruct (watch_loop s id _) as [s1|] eqn:E; [|done]. cbn [mbind option_bind]. intros [= <-].
    eapply keeps_trans; [|apply keeps_reply]. revert s s1 E. induction (tail (c_argv c)) as [|key keys IH]; intros s s1 E; cbn [watch_loop] in E.
    { simplify_eq. by apply keeps_same. }
    unfold watchForKey in E. destruct (clients s !! id) as [c0|]; [|done]. cbn [mbind option_bind] in E.
    destruct (bool_decide _); cbn [mbind option_bind] in E; [by apply IH|]. apply IH in E. eapply keeps_trans; [|exact E].
    set (s2 := set_watchers _ s). apply (keeps_trans s s2); [by apply keeps_same|by apply keeps_upd].
  - destruct (unwatchAllKeys s id) as [s1|] eqn:E; [|done]. cbn [mbind option_bind]. intros [= <-].
    eapply keeps_trans; [by eapply keeps_unwatch|]. eapply keeps_trans; [|apply keeps_reply]. apply keeps_upd. keep_bits.
Qed.

Lemma keeps_ordinary s id c cmd s' also : ordinary key_exists run s id c cmd = Some (s', also) -> keeps s s'.
Proof.
  unfold ordinary. destruct (apply_events _ _ _ _) as [s1|] eqn:E; [|done]. cbn [mbind option_bind]. intros [= <- _].
  eapply keeps_trans; [by eapply keeps_events|]. set (s2 := set_data _ _ _ s1).
  apply (keeps_trans s1 s2); [by apply keeps_same|]. apply keeps_upd. intros c0. unfold is_master. cbn. flag_bits. done.
Qed.

Definition call_keeps (call : Z -> @server D -> nat -> option (@server D)) : Prop :=
  forall fl s id s', call fl s id = Some s' -> keeps s s'.

Lemma keeps_exec_loop call e id todo : call_keeps call -> forall s done mp s' mp',
  exec_loop call e s id done todo mp = Some (s', mp') -> keeps s s'.
Proof.
  intros Hcall. induction todo as [|mc todo IH]; intros s dn mp s' mp' H; cbn [exec_loop] in H; [simplify_eq; by apply keeps_same|].
  set (s1 := upd id _ s) in H. set (s2 := if negb mp && _ then _ else s1) in H.
  destruct (call _ s2 id) as [s3|] eqn:E; [|done]. cbn [mbind option_bind] in H.
  destruct (clients s3 !! id) as [c|]; [|done]. cbn [mbind option_bind] in H. destruct (c_cmd c); [|done]. cbn [mbind option_bind] in H.
  apply IH in H. apply (keeps_trans s s1); [by apply keeps_upd|].
  apply (keeps_trans s1 s2); [subst s2; destruct (_ && _); by apply keeps_same|].
  apply (keeps_trans s2 s3); [by eapply Hcall|]. eapply keeps_trans; [|exact H]. by apply keeps_upd.
Qed.

Lemma keeps_exec call e s id s' : call_keeps call -> execCommand call e s id = Some s' -> keeps s s'.
Proof.
  intros Hcall. unfold execCommand. destruct (clients s !! id) as [c|]; [|done]. cbn [mbind option_bind].
  destruct (negb _); [intros [= <-]; apply keeps_reply|].
  destruct (c_flag c _); [intros H%keeps_discard; eapply keeps_trans; [apply keeps_reply|exact H]|].
  destruct (_ && _); [intros H%keeps_discard; eapply keeps_trans; [apply keeps_reply|exact H]|].
  destruct (unwatchAllKeys s id) as [s1|] eqn:E1; [|done]. cbn [mbind option_bind].
  destruct (exec_loop _ _ _ _ _ _ _) as [[s2 mp]|] eqn:E2; [|done]. cbn [mbind option_bind].
  set (s3 := upd id _ s2). destruct (discardTransaction s3 id) as [s4|] eqn:E4; [|done]. cbn [mbind option_bind]. intros H.
  apply (keeps_trans s s1); [by eapply keeps_unwatch|]. eapply keeps_trans; [apply keeps_reply|].
  eapply keeps_trans; [by eapply keeps_exec_loop|]. apply (keeps_trans s2 s3); [by apply keeps_upd|].
  apply (keeps_trans s3 s4); [by eapply keeps_discard|].
  destruct mp; [|simplify_eq; by apply keeps_same]. injection H as <-. apply keeps_same. by destruct (_ && _).
Qed.

Lemma keeps_call depth e : call_keeps (call key_exists run depth e).
Proof.
  induction depth as [|depth IH]; intros fl s id s' H; cbn [call] in H; [done|].
  destruct (clients s !! id) as [c|]; [|done]. cbn [mbind option_bind] in H. destruct (c_cmd c) as [cmd|]; [|done].
  cbn [mbind option_bind] in H. set (s1 := upd id _ s) in H.
  destruct (call_proc _ _ _ _ _ _ _ _) as [[s2 also]|] eqn:E; [|done]. cbn [mbind option_bind fst snd] in H.
  apply (keeps_trans s s1); [apply keeps_upd; keep_bits|]. apply (keeps_trans s1 s2).
  - unfold call_proc in E. destruct (keeps_commands s1 id s2) as (H1 & H2 & H3 & H4).
    destruct (cmd_proc cmd); first [by eapply keeps_ordinary
      | match type of E with (?x ≫= _) = _ => destruct x as [s3|] eqn:E3; [|done] end; cbn [mbind option_bind] in E; simplify_eq;
        first [by apply H1|by apply H2|by apply H3|by apply H4|by eapply keeps_exec]].
  - unfold after_call in H. destruct (clients s2 !! id) as [c2|]; [|done]. cbn [mbind option_bind] in H.
    destruct (c_cmd c2) as [cmd2|]; [|done]. cbn [mbind option_bind] in H. injection H as <-.
    set (s3 := if flag_on fl _ && _ then _ else s2). apply (keeps_trans s2 s3); [subst s3; repeat case_match; by apply keeps_same|].
    set (s4 := upd id _ s3). apply (keeps_trans s3 s4); [subst s4; apply keeps_upd; intros c3; apply master_flags; by flag_bits|].
    unfold propagate_also. destruct (flag_on fl _); [|by apply keeps_same]. generalize s4. clear.
    induction also as [|op also IH]; intros s; [by apply keeps_same|]. cbn [foldl]. eapply keeps_trans; [|apply IH].
    destruct (_ =? 0); by apply keeps_same.
Qed.
End keeps.

(** ** [processCommand] for the client that is served *)

Section served_client.
Context {D : Type} (key_exists : D -> Z -> list byte -> bool)
  (run : D -> Z -> list (list byte) -> redisCommand -> bool -> @outcome D)
  (lookupCommand : list byte -> option redisCommand) (freeMemory : D -> D * list (@event D) * bool)
  (asking : option redisCommand -> bool) (e : @env) (id : nat).
Implicit Types s : @server D.

Abbreviation process := (Multi.processCommand key_exists run lookupCommand freeMemory).

Lemma call_present depth fl s s' : call key_exists run depth e fl s id = Some s' -> is_Some (clients s' !! id).
Proof.
  destruct depth as [|depth]; cbn [call]; [done|]. destruct (clients s !! id) as [c|]; [|done]. cbn [mbind option_bind].
  destruct (c_cmd c) as [cmd|]; [|done]. cbn [mbind option_bind]. destruct (call_proc _ _ _ _ _ _ _ _) as [[s2 also]|]; [|done].
  cbn [mbind option_bind fst snd]. unfold after_call. destruct (clients s2 !! id) as [c2|] eqn:E2; [|done]. cbn [mbind option_bind].
  destruct (c_cmd c2) as [cmd2|]; [|done]. cbn [mbind option_bind]. intros [= <-].
  set (s3 := if flag_on fl _ && _ then _ else s2). assert (clients s3 !! id = Some c2) as E3 by (subst s3; repeat case_match; done).
  set (s4 := upd id _ s3). assert (is_Some (clients s4 !! id)) as E4 by (subst s4; rewrite upd_lookup, decide_True, E3 by done; by eexists).
  unfold propagate_also. destruct (flag_on fl _); [|done]. clearbody s4. revert s4 E4. clear.
  induction also as [|op also IH]; intros s E; [done|]. cbn [foldl]. apply IH. by destruct (_ =? 0).
Qed.

Lemma present_upd s f : is_Some (clients s !! id) -> is_Some (clients (upd id f s) !! id).
Proof. intros [c Hc]. rewrite upd_lookup, decide_True, Hc by done. by eexists. Qed.

Lemma unwatch_present s s' : unwatchAllKeys s id = Some s' -> is_Some (clients s' !! id).
Proof.
  unfold unwatchAllKeys. destruct (clients s !! id) as [c|] eqn:Hc; [|done]. cbn [mbind option_bind].
  assert (is_Some (clients s !! id)) as Hs by (by rewrite Hc). clear Hc. revert s Hs.
  induction (watched_keys c) as [|wk wks IH]; intros s Hs H; cbn [unwatch_loop] in H; [by simplify_eq|].
  destruct (watchers s !! wk); [|done]. cbn [mbind option_bind] in H. destruct (remove_client id _); [|done].
  cbn [mbind option_bind] in H. eapply IH, H. by apply present_upd.
Qed.

Lemma reject_present s flag r : is_Some (clients s !! id) -> keeps s (reject flag id r s) /\ is_Some (clients (reject flag id r s) !! id).
Proof.
  intros Hs. unfold reject. destruct flag.
  - split; [eapply keeps_trans; [apply keeps_flagTransaction|apply keeps_reply]|by do 2 apply present_upd].
  - split; [apply keeps_reply|by apply present_upd].
Qed.

(** The client is there after [C_OK], and to be closed or gone otherwise. *)
Definition returned s (sok : @server D * bool) : Prop :=
  keeps s sok.1 /\
  if sok.2 then is_Some (clients sok.1 !! id)
  else forall c', clients sok.1 !! id = Some c' -> Z.testbit (c_flags c') 6 = true.

Lemma returned_trans s1 s2 r : keeps s1 s2 -> returned s2 r -> returned s1 r.
Proof. intros H1 [H2 H3]. split; [by eapply keeps_trans|done]. Qed.

Lemma processCommand_returned s r : process e s id = Some r -> returned s r.
Proof.
  unfold Multi.processCommand. destruct (clients s !! id) as [c|] eqn:Hc; [|done]. cbn [mbind option_bind].
  destruct (head (c_argv c)) as [name|]; [|done]. cbn [mbind option_bind]. destruct (bool_decide _).
  { intros [= <-]. split; cbn [fst snd].
    - eapply keeps_trans; [apply keeps_reply|]. apply keeps_upd. intros c0. apply master_flags. by flag_bits.
    - intros c'. rewrite upd_lookup, decide_True by done. intros (c0 & _ & ->)%fmap_Some. cbn. by flag_bits. }
  set (s1 := upd id _ s). assert (is_Some (clients s1 !! id)) as Hp1 by (subst s1; apply present_upd; by rewrite Hc).
  intros H. apply (returned_trans s s1); [by apply keeps_upd|]. clearbody s1. clear Hc.
  assert (forall flag rep, returned s1 (reject flag id rep s1, true)) as Hrej by (intros; by apply reject_present).
  destruct (lookupCommand name) as [cmd|]; [|simplify_eq; apply Hrej].
  destruct (wrong_arity _ _); [simplify_eq; apply Hrej|]. destruct (requirepass e && _ && _); [simplify_eq; apply Hrej|].
  destruct (cluster_enabled e && _ && _ && _).
  { destruct (cmd_is cmd PExec); [|cbn [mbind option_bind] in H; simplify_eq; exact (Hrej true _)].
    destruct (discardTransaction s1 id) as [s2|] eqn:E; [|done]. cbn [mbind option_bind] in H. simplify_eq. split; cbn [fst snd].
    - eapply keeps_trans; [by eapply keeps_discard|apply keeps_reply].
    - apply present_upd. by eapply unwatch_present. }
  destruct (if maxmemory e && _ then _ else _) as [[s2 oom]|] eqn:E; [|done]. cbn [mbind option_bind] in H.
  assert (keeps s1 s2) as Hk.
  { destruct (maxmemory e && _); [|simplify_eq; by apply keeps_same]. destruct (freeMemory (data s1)) as [[d evs] oom'].
    destruct (apply_events _ _ _ _) as [s3|] eqn:E3; [|done]. cbn [mbind option_bind] in E. simplify_eq.
    apply (keeps_trans s1 s3); [by eapply keeps_events|by apply keeps_same]. }
  apply (returned_trans s1 s2); [done|]. destruct (clients s2 !! id) as [c2|] eqn:Hc2.
  2:{ simplify_eq. split; cbn [fst snd]; [by apply keeps_same|]. intros c' Hc'. by rewrite Hc2 in Hc'. }
  assert (is_Some (clients s2 !! id)) as Hp2 by (by rewrite Hc2).
  destruct (guards e s2 c2 cmd oom) as [[rep flag]|]; [simplify_eq; by apply reject_present|].
  destruct (queued_now c2 cmd).
  - unfold queueMultiCommand in H. destruct (c_cmd c2) as [cmd2|]; [|done]. cbn [mbind option_bind] in H. simplify_eq.
    split; cbn [fst snd]; [|by do 2 apply present_upd]. eapply keeps_trans; [|apply keeps_reply].
    intros k c'. rewrite upd_lookup. destruct (decide (k = id)) as [->|]; [|intros ?; by exists c'].
    rewrite Hc2. cbn. intros [= <-]. by exists c2.
  - destruct (call _ _ _ _ _ s2 id) as [s3|] eqn:E3; [|done]. cbn [mbind option_bind] in H. simplify_eq.
    split; cbn [fst snd]; [by eapply keeps_call|by eapply call_present].
Qed.

(** Flags and arguments of the parser's client, handed over to the command and
    back; [asking] says that the command is ASKING. *)
Definition hand_over (c : Protocol.client) (m : Multi.client) : Multi.client :=
  set_flags (fun _ => Protocol.flags c) (set_cmd (argv c) (c_cmd m) m).

Definition take_back (c : Protocol.client) (m : Multi.client) : Protocol.client :=
  Protocol.mkClient (querybuf c) (qb_pos c) (reqtype c) (c_argv m) (multibulklen c) (bulklen c) (c_flags m) (btype c)
    (asking (c_cmd m)) (Protocol.reply c) (reploff c) (read_reploff c) (pending_querybuf c).

Definition run_command s (c : Protocol.client) : option (@server D * option Protocol.client * bool) :=
  r ← process e (upd id (hand_over c) s) id;
  Some (r.1, take_back c <$> clients r.1 !! id, r.2).

(** The flags of a transaction. *)
Definition same_multi (f g : Z) : Prop :=
  Z.testbit f 3 = Z.testbit g 3 /\ Z.testbit f 5 = Z.testbit g 5 /\ Z.testbit f 12 = Z.testbit g 12.

Lemma same_multi_reset c : same_multi (flags (resetClient c)) (flags c).
Proof.
  destruct c as [qb pos rt av mbl bl f bt ask rep off roff pq]. unfold resetClient, same_multi. cbv zeta.
  destruct (negb _ && negb _), (has_flag _ CLIENT_REPLY_SKIP_NEXT); cbn [flags with_flags freeClientArgv with_cmd with_req];
    split_and!; by flag_bits.
Qed.

(** The server is consistent and has the client, with the flags the parser sees. *)
Definition serving s (f : Z) : Prop := inv s /\ exists m, clients s !! id = Some m /\ same_multi f (c_flags m).

Lemma serving_hand_over s c m : clients s !! id = Some m -> same_multi (flags c) (c_flags m) -> inv s ->
  inv (upd id (hand_over c) s).
Proof.
  intros Hm (H3 & H5 & H12) Hinv. apply inv_upd; [|done]. intros m' Hm'. simplify_eq. split; [done|].
  unfold client_ok, in_multi, is_failed. cbn. by rewrite H3, H12.
Qed.

Lemma run_command_spec s c : (forall d db argv cmd m, plain_cmd cmd -> plain_cmd (o_cmd (run d db argv cmd m))) ->
  serving s (flags c) -> has_flag c CLIENT_MASTER = false -> argv c <> [] ->
  exists s' oc ok, run_command s c = Some (s', oc, ok) /\
    match oc with
    | None => ok = false
    | Some c' => parser_state c' = parser_state c /\ Protocol.reply c' = Protocol.reply c /\ has_flag c' CLIENT_MASTER = false /\
        serving s' (flags c') /\ (ok = false -> has_flag c' CLOSING = true)
    end.
Proof.
  intros Hrun (Hinv & m & Hm & Hsame) Hmaster Hav. unfold run_command.
  pose proof (serving_hand_over s c m Hm Hsame Hinv) as Hinv1.
  assert (clients (upd id (hand_over c) s) !! id = Some (hand_over c m)) as Hm1 by (rewrite upd_lookup, decide_True, Hm by done; done).
  destruct (processCommand_moves key_exists run Hrun lookupCommand freeMemory e _ id _ Hinv1 Hm1 Hav)
    as (s' & ok & evs & Hp & [Ho _]). rewrite Hp. cbn [mbind option_bind fst snd].
  destruct (processCommand_returned _ _ Hp) as [Hk Hret]. cbn [fst snd] in Hk, Hret.
  exists s', (take_back c <$> clients s' !! id), ok. split; [done|]. destruct (clients s' !! id) as [m'|] eqn:Hm'; cbn.
  - split_and!; [done..| | |].
    + rewrite master_bit. cbn. destruct (Hk id m' Hm') as (m1 & Hm1' & E). simplify_eq. unfold is_master in E. rewrite E. cbn.
      by rewrite <- master_bit.
    + split; [apply Ho|]. by exists m'.
    + intros ->. specialize (Hret m' eq_refl). unfold CLOSING, has_flag. cbn.
      change (negb (Z.land (c_flags m') (Z.lor CLIENT_CLOSE_AFTER_REPLY CLIENT_CLOSE_ASAP) =? 0))
        with (flag_on (c_flags m') (Z.lor CLIENT_CLOSE_AFTER_REPLY CLIENT_CLOSE_ASAP)).
      rewrite flag_on_lor. apply orb_true_iff. left. by rewrite <- (flag_on_bit (c_flags m') 6) in Hret by lia.
  - destruct ok; [|done]. by destruct Hret.
Qed.
End served_client.

(** The model of [processCommand] implements the interface of the parser. *)
#[export] Instance multi_commands {D : Type} key_exists run lookupCommand freeMemory asking e id
    (run_plain : forall d db argv cmd m, plain_cmd cmd -> plain_cmd (o_cmd (run d db argv cmd m))) :
  CommandContract (@run_command D key_exists run lookupCommand freeMemory asking e id).
Proof.
  refine {| command_inv := serving id |}.
  - intros s c (Hinv & m & Hm & H3 & H5 & H12). split; [done|]. exists m. split; [done|].
    destruct (same_multi_reset c) as (E3 & E5 & E12). unfold same_multi. by rewrite E3, E5, E12.
  - intros s c. by apply run_command_spec.
Defined.

(** ** A connection to the small server of [Multi.v] *)

Definition toy_asking (cmd : option redisCommand) : bool := false.
Abbreviation toy_command := (run_command toy_exists toy_run toy_lookup toy_free toy_asking toy_env 1).
Abbreviation toy_contract := (multi_commands toy_exists toy_run toy_lookup toy_free toy_asking toy_env 1 toy_plain).
Abbreviation never := (fun _ => false).

Lemma toy_serving : serving 1 toy2 0.
Proof. split; [apply (reachable_inv _ _ toy_plain _ _ _ toy2_reachable)|]. eexists. split; [vm_compute; reflexivity|done]. Qed.

(** A transaction, then QUIT: the last command is not run. *)
Definition toy_requests : list (list (list byte)) :=
  [[bytes_of "multi"]; [bytes_of "set"; [13; 10; 0; 42]]; [bytes_of "exec"]; [bytes_of "quit"]; [bytes_of "set"; bytes_of "z"]].

(** Serving [toy_requests] in pieces of three bytes: the data, the queue, what stays
    in the query buffer. *)
Definition toy_result (r : option (@server (list (Z * list byte)) * option Protocol.client * list byte)) :=
  match r with
  | Some (s, Some c, sock) =>
      Some (data s, c_reply (toy_client s), sds_bytes (querybuf c), has_flag c CLIENT_CLOSE_AFTER_REPLY, sock)
  | _ => None
  end.

Lemma requests_served_witness : exists qb, sdsempty junk_qb = Some qb /\
  toy_result (serve junk_qb 512 1024 toy_command never never (fun s _ _ => s) (replicate 200 3) (requests toy_requests) toy2 (Protocol.new_client qb)) =
    Some ([(0, [13; 10; 0; 42])], [RShared "ok"; RShared "queued"; RMultiBulkLen 1; RShared "ok"; RShared "ok"],
      Some (request [bytes_of "set"; bytes_of "z"]), true, []) /\
  exists s' oc sock' run left,
    serve junk_qb 512 1024 toy_command never never (fun s _ _ => s) (replicate 200 3) (requests toy_requests) toy2 (Protocol.new_client qb) =
      Some (s', oc, sock') /\ toy_requests = run ++ left /\
    served toy_command never never toy2 (session (Protocol.new_client qb)) run s' (session <$> oc) /\
    served_out never never s' oc left sock'.
Proof.
  destruct (sdsempty_spec junk_qb) as (qb & Hqb & Hc). exists qb. split; [done|]. split.
  - vm_compute in Hqb. injection Hqb as <-. vm_compute. reflexivity.
  - apply (requests_served junk_qb 512 1024 toy_command never never (fun s _ _ => s) (CommandContract0 := toy_contract) 1000
      ltac:(lia) ltac:(lia) toy_requests (replicate 200 3) toy2 (Protocol.new_client qb)).
    + repeat constructor; try done; vm_compute; done.
    + apply Forall_replicate. lia.
    + vm_compute. done.
    + lia.
    + vm_compute. lia.
    + done.
    + exact toy_serving.
    + done.
    + done.
Defined.

Lemma protocol_safe_witness : exists qb s' oc sock', sdsempty junk_qb = Some qb /\
  serve junk_qb 512 1024 toy_command never never (fun s _ _ => s)
    [4; 100; 7] (bytes_of "*2" ++ CRLF ++ bytes_of "$3" ++ CRLF ++ bytes_of "GET??!x" ++ CRLF) toy2 (Protocol.new_client qb) = Some (s', oc, sock') /\
  forall c', oc = Some c' -> Protocol.reply c' <> [] -> closing c'.
Proof.
  destruct (sdsempty_spec junk_qb) as (qb & Hqb & Hc). exists qb.
  destruct (protocol_safe junk_qb 512 1024 toy_command never never (fun s _ _ => s) (CommandContract0 := toy_contract) 1000
    ltac:(lia) ltac:(lia) [] [4; 100; 7] (bytes_of "*2" ++ CRLF ++ bytes_of "$3" ++ CRLF ++ bytes_of "GET??!x" ++ CRLF) toy2 (Protocol.new_client qb))
    as (s' & oc & sock' & Hs & Hoc).
  - done.
  - exact toy_serving.
  - done.
  - done.
  - done.
  - vm_compute. done.
  - exists s', oc, sock'. split; [done|]. split; [done|]. intros c' E. by apply Hoc.
Defined.
