(* ===== verification/Reply.v ===== *)
(** * Replies (src/redis-5.0.7/src/networking.c)

    The output side of a client: the static buffer and the list of reply blocks,
    the functions commands answer with, replies whose length is filled in later,
    and [writeToClient], which hands the output to the socket as far as write(2)
    takes it.  A block is a list of bytes of its allocated size; a list node that
    waits for its length is [None].  The size the allocator really provides is a
    parameter, [usable]; so is what write(2) answers.  [None] is an access outside a
    buffer, a null pointer or a failed assertion.  Statistics and the log are left
    out, and closing a client whose buffers exceed the limits is reduced to
    setting its flag. *)

From S2P Require Import Prelude Util ServerDefs.
From stdpp Require Import strings.

Local Open Scope Z_scope.

(** ** The client *)

Definition CRLF : list byte := [13; 10].

Record clientReplyBlock := mkBlock { blk_used : Z; blk_buf : list byte }.

Definition blk_size (b : clientReplyBlock) : Z := Z.of_nat (length (blk_buf b)).

(** The fields of [client] for output.  [online]: [replstate] allows writing;
    [handler]: a write handler is installed in the event loop; [listed]: the client
    is in [server.clients_pending_write]. *)
Record client := mkClient {
  r_flags : Z;
  fd : Z;
  buf : list byte;
  bufpos : Z;
  sentlen : Z;
  reply : list (option clientReplyBlock);
  reply_bytes : Z;
  soft_limit_time : Z;
  online : bool;
  handler : bool;
  listed : bool
}.

Definition with_flags (c : client) (f : Z) : client :=
  mkClient f (fd c) (buf c) (bufpos c) (sentlen c) (reply c) (reply_bytes c) (soft_limit_time c) (online c) (handler c) (listed c).

Definition with_buf (c : client) (b : list byte) (pos : Z) : client :=
  mkClient (r_flags c) (fd c) b pos (sentlen c) (reply c) (reply_bytes c) (soft_limit_time c) (online c) (handler c) (listed c).

Definition with_reply (c : client) (r : list (option clientReplyBlock)) (n : Z) : client :=
  mkClient (r_flags c) (fd c) (buf c) (bufpos c) (sentlen c) r n (soft_limit_time c) (online c) (handler c) (listed c).

Definition with_sent (c : client) (n : Z) : client :=
  mkClient (r_flags c) (fd c) (buf c) (bufpos c) n (reply c) (reply_bytes c) (soft_limit_time c) (online c) (handler c) (listed c).

Definition with_soft (c : client) (t : Z) : client :=
  mkClient (r_flags c) (fd c) (buf c) (bufpos c) (sentlen c) (reply c) (reply_bytes c) t (online c) (handler c) (listed c).

Definition with_events (c : client) (h l : bool) : client :=
  mkClient (r_flags c) (fd c) (buf c) (bufpos c) (sentlen c) (reply c) (reply_bytes c) (soft_limit_time c) (online c) h l.

Definition on (c : client) (mask : Z) : bool := flag_on (r_flags c) mask.

Definition clientHasPendingReplies (c : client) : bool :=
  negb (bufpos c =? 0) || negb (length (reply c) =? 0)%nat.

Definition clientInstallWriteHandler (c : client) : client :=
  if negb (on c CLIENT_PENDING_WRITE) && online c
  then with_events (with_flags c (Z.lor (r_flags c) CLIENT_PENDING_WRITE)) (handler c) true
  else c.

(** The flag is [C_OK]. *)
Definition prepareClientToWrite (c : client) : client * bool :=
  if on c (Z.lor CLIENT_LUA CLIENT_MODULE) then (c, true)
  else if on c (Z.lor CLIENT_REPLY_OFF CLIENT_REPLY_SKIP) then (c, false)
  else if on c CLIENT_MASTER && negb (on c CLIENT_MASTER_FORCE_REPLY) then (c, false)
  else if fd c <=? 0 then (c, false)
  else (if clientHasPendingReplies c then c else clientInstallWriteHandler c, true).

(** ** Output limits *)

Section limits.
(** The limits of the client's class, [unixtime], and the memory its output takes. *)
Context (hard_limit soft_limit soft_seconds unixtime : Z) (memory_usage : client -> Z).

Definition checkClientOutputBufferLimits (c : client) : client * bool :=
  let used_mem := memory_usage c in
  let hard := negb (hard_limit =? 0) && (used_mem >=? hard_limit) in
  let soft := negb (soft_limit =? 0) && (used_mem >=? soft_limit) in
  if soft then
    if soft_limit_time c =? 0 then (with_soft c unixtime, hard)
    else
      let elapsed := unixtime - soft_limit_time c in
      (c, negb (elapsed <=? soft_seconds) || hard)
  else (with_soft c 0, hard).

Definition asyncCloseClientOnOutputBufferLimitReached (c : client) : option client :=
  if fd c =? -1 then Some c
  else if negb (reply_bytes c <? ULLONG_MAX - 1024 * 64) then None
  else if (reply_bytes c =? 0) || on c CLIENT_CLOSE_ASAP then Some c
  else
    let r := checkClientOutputBufferLimits c in
    Some (if r.2 then with_flags r.1 (Z.lor (r_flags r.1) CLIENT_CLOSE_ASAP) else r.1).

(** ** Adding output *)

Context (junk : nat -> byte) (usable : Z -> Z).

(** The flag is [C_OK]. *)
Definition _addReplyToBuffer (c : client) (s : list byte) : option (client * bool) :=
  let available := u64 (Z.of_nat (length (buf c)) - bufpos c) in
  if on c CLIENT_CLOSE_AFTER_REPLY then Some (c, true)
  else if negb (length (reply c) =? 0)%nat then Some (c, false)
  else if Z.of_nat (length s) >? available then Some (c, false)
  else
    b ← store (buf c) (bufpos c) s;
    Some (with_buf c b (bufpos c + Z.of_nat (length s)), true).

(** A new block that holds [s], of the size the allocator provides. *)
Definition new_block (size : Z) (s : list byte) : option clientReplyBlock :=
  b ← store (malloc junk (usable (size + 16) - 16)) 0 s;
  Some (mkBlock (Z.of_nat (length s)) b).

(** Fill the tail block as far as possible: the block and the rest of [s]. *)
Definition fill_tail (tail : clientReplyBlock) (s : list byte) : option (clientReplyBlock * list byte) :=
  let avail := u64 (blk_size tail - blk_used tail) in
  let copy := if avail >=? Z.of_nat (length s) then Z.of_nat (length s) else avail in
  b ← store (blk_buf tail) (blk_used tail) (take (Z.to_nat copy) s);
  Some (mkBlock (blk_used tail + copy) b, drop (Z.to_nat copy) s).

Definition _addReplyStringToList (c : client) (s : list byte) : option client :=
  if on c CLIENT_CLOSE_AFTER_REPLY then Some c
  else
    r ← (match last (reply c) with
         | Some (Some tail) =>
             r ← fill_tail tail s;
             Some (<[pred (length (reply c)) := Some r.1]> (reply c), r.2)
         | _ => Some (reply c, s)
         end);
    let '(nodes, s) := r in
    c ← (if negb (length s =? 0)%nat then
           let size := if Z.of_nat (length s) <? PROTO_REPLY_CHUNK_BYTES then PROTO_REPLY_CHUNK_BYTES else Z.of_nat (length s) in
           b ← new_block size s;
           Some (with_reply c (nodes ++ [Some b]) (u64 (reply_bytes c + blk_size b)))
         else Some (with_reply c nodes (reply_bytes c)));
    asyncCloseClientOnOutputBufferLimitReached c.

(** The common part: the static buffer first, then the list. *)
Definition add_bytes (c : client) (s : list byte) : option client :=
  r ← _addReplyToBuffer c s;
  let '(c, ok) := r in
  if (ok : bool) then Some c else _addReplyStringToList c s.

Definition addReplyString (c : client) (s : list byte) : option client :=
  let '(c, ok) := prepareClientToWrite c in
  if negb ok then Some c else add_bytes c s.

(** A string object: an sds, or an integer. *)
Inductive robj := OSds (s : list byte) | OInt (n : Z).

Definition addReply (c : client) (obj : robj) : option client :=
  let '(c, ok) := prepareClientToWrite c in
  if negb ok then Some c
  else
    match obj with
    | OSds s => add_bytes c s
    | OInt n =>
        r ← ll2string (malloc junk 32) 32 n;
        s ← load r.1 0 r.2;
        add_bytes c s
    end.

Definition addReplySds (c : client) (s : list byte) : option client :=
  let '(c, ok) := prepareClientToWrite c in
  if negb ok then Some c else add_bytes c s.

(** The shared objects the replies use. *)
Definition shared_czero : robj := OSds (58 :: decimal 0 ++ CRLF).
Definition shared_cone : robj := OSds (58 :: decimal 1 ++ CRLF).
Definition shared_crlf : robj := OSds CRLF.
Definition shared_nullbulk : robj := OSds (36 :: decimal (-1) ++ CRLF).
Definition shared_mbulkhdr (j : Z) : option robj :=
  if (0 <=? j) && (j <? OBJ_SHARED_BULKHDR_LEN) then Some (OSds (42 :: decimal j ++ CRLF)) else None.
Definition shared_bulkhdr (j : Z) : option robj :=
  if (0 <=? j) && (j <? OBJ_SHARED_BULKHDR_LEN) then Some (OSds (36 :: decimal j ++ CRLF)) else None.

Definition addReplyErrorLength (c : client) (s : list byte) : option client :=
  c ← (if (length s =? 0)%nat || negb (bool_decide (head s = Some 45)) then addReplyString c (bytes_of "-ERR ") else Some c);
  c ← addReplyString c s;
  addReplyString c CRLF.

Definition addReplyStatusLength (c : client) (s : list byte) : option client :=
  c ← addReplyString c (bytes_of "+");
  c ← addReplyString c s;
  addReplyString c CRLF.

Definition addReplyLongLongWithPrefix (c : client) (ll : Z) (prefix : byte) : option client :=
  if (prefix =? 42) && (ll <? OBJ_SHARED_BULKHDR_LEN) && (ll >=? 0) then
    o ← shared_mbulkhdr ll; addReply c o
  else if (prefix =? 36) && (ll <? OBJ_SHARED_BULKHDR_LEN) && (ll >=? 0) then
    o ← shared_bulkhdr ll; addReply c o
  else
    b ← store (malloc junk 128) 0 [prefix];
    r ← ll2string (drop 1 b) 127 ll;
    let '(tl, len) := r in
    b ← store (take 1 b ++ tl) (len + 1) [13];
    b ← store b (len + 2) [10];
    s ← load b 0 (len + 3);
    addReplyString c s.

Definition addReplyLongLong (c : client) (ll : Z) : option client :=
  if ll =? 0 then addReply c shared_czero
  else if ll =? 1 then addReply c shared_cone
  else addReplyLongLongWithPrefix c ll 58.

Definition addReplyMultiBulkLen (c : client) (length : Z) : option client :=
  if length <? OBJ_SHARED_BULKHDR_LEN then o ← shared_mbulkhdr length; addReply c o
  else addReplyLongLongWithPrefix c length 42.

(** [while((n = n/10) != 0) len++;] *)
Fixpoint int_digits (fuel : nat) (n len : Z) : option Z :=
  match fuel with
  | O => None
  | S fuel =>
      let n := Z.quot n 10 in
      if n =? 0 then Some len else int_digits fuel n (len + 1)
  end.

Definition addReplyBulkLen (c : client) (obj : robj) : option client :=
  len ← (match obj with
         | OSds s => Some (Z.of_nat (length s))
         | OInt n => if n <? 0 then int_digits 20 (s64 (- n)) 2 else int_digits 20 n 1
         end);
  if len <? OBJ_SHARED_BULKHDR_LEN then o ← shared_bulkhdr len; addReply c o
  else addReplyLongLongWithPrefix c len 36.

Definition addReplyBulk (c : client) (obj : robj) : option client :=
  c ← addReplyBulkLen c obj;
  c ← addReply c obj;
  addReply c shared_crlf.

Definition addReplyBulkCBuffer (c : client) (p : list byte) : option client :=
  c ← addReplyLongLongWithPrefix c (Z.of_nat (length p)) 36;
  c ← addReplyString c p;
  addReply c shared_crlf.

Definition addReplyBulkSds (c : client) (s : list byte) : option client :=
  c ← addReplyLongLongWithPrefix c (Z.of_nat (length s)) 36;
  c ← addReplySds c s;
  addReply c shared_crlf.

Definition addReplyBulkCString (c : client) (s : option (list byte)) : option client :=
  match s with
  | None => addReply c shared_nullbulk
  | Some s => addReplyBulkCBuffer c s
  end.

Definition addReplyBulkLongLong (c : client) (ll : Z) : option client :=
  r ← ll2string (malloc junk 64) 64 ll;
  s ← load r.1 0 r.2;
  addReplyBulkCBuffer c s.

(** ** Lengths that are filled in later *)

(** The node is its index in the list: while it is empty, nodes are only added
    or removed after it. *)
Definition addDeferredMultiBulkLength (c : client) : client * option nat :=
  let '(c, ok) := prepareClientToWrite c in
  if negb ok then (c, None)
  else (with_reply c (reply c ++ [None]) (reply_bytes c), Some (length (reply c))).

(** The block after the node can take the length in front of its bytes. *)
Definition can_glue (next : clientReplyBlock) (lenstr_len : Z) : bool :=
  (u64 (blk_size next - blk_used next) >=? lenstr_len) && (blk_used next <? PROTO_REPLY_CHUNK_BYTES * 4).

Definition glue (next : clientReplyBlock) (lenstr : list byte) : option clientReplyBlock :=
  b ← memmove (blk_buf next) (Z.of_nat (length lenstr)) 0 (blk_used next);
  b ← store b 0 lenstr;
  Some (mkBlock (blk_used next + Z.of_nat (length lenstr)) b).

Definition setDeferredMultiBulkLength (c : client) (node : option nat) (len : Z) : option client :=
  let lenstr := 42 :: decimal len ++ CRLF in
  match node with
  | None => Some c
  | Some i =>
      match reply c !! i with
      | Some None =>
          c ← (match reply c !! S i with
               | Some (Some next) =>
                   if can_glue next (Z.of_nat (length lenstr)) then
                     next ← glue next lenstr;
                     Some (with_reply c (delete i (<[S i := Some next]> (reply c))) (reply_bytes c))
                   else
                     b ← new_block (Z.of_nat (length lenstr)) lenstr;
                     Some (with_reply c (<[i := Some b]> (reply c)) (u64 (reply_bytes c + blk_size b)))
               | _ =>
                   b ← new_block (Z.of_nat (length lenstr)) lenstr;
                   Some (with_reply c (<[i := Some b]> (reply c)) (u64 (reply_bytes c + blk_size b)))
               end);
          asyncCloseClientOnOutputBufferLimitReached c
      | _ => None
      end
  end.
End limits.

(** ** Writing to the socket *)

(** An answer of write(2). *)
Inductive wres := Wrote (n : Z) | Again | Fail.

(** The bytes [bs] are offered: the value returned, at most their number, and
    the answers for later calls.  A socket that has no more answers is full. *)
Definition sys_write (bs : list byte) (ws : list wres) : Z * bool * list wres :=
  match ws with
  | Wrote n :: ws => (Z.max 0 (Z.min n (Z.of_nat (length bs))), false, ws)
  | Again :: ws => (-1, false, ws)
  | Fail :: ws => (-1, true, ws)
  | [] => (-1, false, [])
  end.

(** How the loop ended: nothing pending or enough for now, the socket took nothing,
    or it failed. *)
Inductive wend := Finished | Blocked | Broken.

(** [while(clientHasPendingReplies(c))]; the bytes handed to the socket are
    returned too.  [may_pause]: memory is below the limit and the client is not a
    replica. *)
Fixpoint write_loop (fuel : nat) (may_pause : bool) (c : client) (ws : list wres) (totwritten : Z)
    : option (client * list byte * wend) :=
  if negb (clientHasPendingReplies c) then Some (c, [], Finished)
  else
    match fuel with
    | O => None
    | S fuel =>
        let more c ws sent tot :=
          if (tot >? NET_MAX_WRITES_PER_EVENT) && may_pause then Some (c, sent, Finished)
          else r ← write_loop fuel may_pause c ws tot;
               let '(c, rest, e) := r in Some (c, sent ++ rest, e) in
        if bufpos c >? 0 then
          bs ← load (buf c) (sentlen c) (bufpos c - sentlen c);
          let '(nwritten, err, ws) := sys_write bs ws in
          if nwritten <=? 0 then Some (c, [], if err then Broken else Blocked)
          else
            let c := with_sent c (sentlen c + nwritten) in
            let c := if sentlen c =? bufpos c then with_sent (with_buf c (buf c) 0) 0 else c in
            more c ws (take (Z.to_nat nwritten) bs) (totwritten + nwritten)
        else
          match reply c with
          | Some o :: nodes =>
              let objlen := blk_used o in
              if objlen =? 0 then
                write_loop fuel may_pause (with_reply c nodes (u64 (reply_bytes c - blk_size o))) ws totwritten
              else
                bs ← load (blk_buf o) (sentlen c) (objlen - sentlen c);
                let '(nwritten, err, ws) := sys_write bs ws in
                if nwritten <=? 0 then Some (c, [], if err then Broken else Blocked)
                else
                  let c := with_sent c (sentlen c + nwritten) in
                  if sentlen c =? objlen then
                    let c := with_sent (with_reply c nodes (u64 (reply_bytes c - blk_size o))) 0 in
                    if (length (reply c) =? 0)%nat && negb (reply_bytes c =? 0) then None
                    else more c ws (take (Z.to_nat nwritten) bs) (totwritten + nwritten)
                  else more c ws (take (Z.to_nat nwritten) bs) (totwritten + nwritten)
          | _ => None
          end
    end.

(** Enough rounds: every round sends a byte or removes a block. *)
Definition write_fuel (c : client) : nat :=
  S (Z.to_nat (bufpos c) + length (reply c) +
     sum_list (map (fun o => match o with Some b => Z.to_nat (blk_used b) | None => 0 end) (reply c)))%nat.

(** The client, or [None] inside when it was freed, and the bytes sent. *)
Definition writeToClient (may_pause : bool) (c : client) (handler_installed : bool) (ws : list wres)
    : option (option client * list byte) :=
  r ← write_loop (write_fuel c) may_pause c ws 0;
  let '(c, sent, e) := r in
  match e with
  | Broken => Some (None, sent)
  | _ =>
      if negb (clientHasPendingReplies c) then
        let c := with_sent c 0 in
        let c := if handler_installed then with_events c false (listed c) else c in
        if on c CLIENT_CLOSE_AFTER_REPLY then Some (None, sent) else Some (Some c, sent)
      else Some (Some c, sent)
  end.

(** The write handler of the event loop. *)
Definition sendReplyToClient (may_pause : bool) (c : client) (ws : list wres) : option (option client * list byte) :=
  writeToClient may_pause c true ws.

(** One round of [handleClientsWithPendingWrites]; [event_ok] is the success of
    [aeCreateFileEvent]. *)
Definition handle_pending_write (may_pause event_ok : bool) (c : client) (ws : list wres)
    : option (option client * list byte) :=
  let c := with_events (with_flags c (Z.land (r_flags c) (Z.lnot CLIENT_PENDING_WRITE))) (handler c) false in
  if on c CLIENT_PROTECTED then Some (Some c, [])
  else
    r ← writeToClient may_pause c false ws;
    let '(oc, sent) := r in
    match oc with
    | None => Some (None, sent)
    | Some c =>
        if clientHasPendingReplies c then
          Some (Some (if event_ok then with_events c true (listed c)
                      else with_flags c (Z.lor (r_flags c) CLIENT_CLOSE_ASAP)), sent)
        else Some (Some c, sent)
    end.

(** ** What the output of a client says *)

Definition blk_bytes (b : clientReplyBlock) : list byte := take (Z.to_nat (blk_used b)) (blk_buf b).
Definition node_bytes (o : option clientReplyBlock) : list byte :=
  match o with Some b => blk_bytes b | None => [] end.
Definition node_size (o : option clientReplyBlock) : Z :=
  match o with Some b => blk_size b | None => 0 end.

Definition nodes_bytes (l : list (option clientReplyBlock)) : list byte := concat (map node_bytes l).
Definition nodes_size (l : list (option clientReplyBlock)) : Z := foldr (fun o n => node_size o + n) 0 l.

(** The bytes that are still to be sent, in order. *)
Definition pending (c : client) : list byte :=
  drop (Z.to_nat (sentlen c)) (take (Z.to_nat (bufpos c)) (buf c) ++ nodes_bytes (reply c)).

Definition blk_ok (b : clientReplyBlock) : Prop := 0 <= blk_used b <= blk_size b.
Definition node_ok (o : option clientReplyBlock) : Prop := match o with Some b => blk_ok b | None => True end.
Definition filled (o : option clientReplyBlock) : Prop := is_Some o.

(** The client takes replies: it is connected and none of the flags that
    suppress or suspend them is set. *)
Definition accepts (c : client) : Prop :=
  0 < fd c /\ online c = true /\
  Forall (fun k => Z.testbit (r_flags c) k = false) [1; 6; 8; 22; 24; 27; 28].

(** Output that is pending is scheduled: the client waits in the list, a
    handler is installed, or the client will be closed. *)
Definition awaited (c : client) : Prop := listed c = true \/ handler c = true \/ Z.testbit (r_flags c) 10 = true.
Definition scheduled (c : client) : Prop :=
  listed c = Z.testbit (r_flags c) 21 /\ (clientHasPendingReplies c = true -> awaited c).

(** The length of what [sentlen] counts in: the static buffer or the first block. *)
Definition head_used (l : list (option clientReplyBlock)) : Z :=
  match l with Some b :: _ => blk_used b | _ => 0 end.
Definition head_len (c : client) : Z := if bufpos c >? 0 then bufpos c else head_used (reply c).

Record out_ok (c : client) : Prop := {
  ok_buf : 0 <= bufpos c <= Z.of_nat (length (buf c)) /\ Z.of_nat (length (buf c)) = PROTO_REPLY_CHUNK_BYTES;
  ok_nodes : Forall node_ok (reply c);
  ok_bytes : reply_bytes c = nodes_size (reply c);
  ok_total : nodes_size (reply c) < 2 ^ 63;
  ok_sent : sentlen c = 0 \/ 0 < sentlen c < head_len c;
  ok_accepts : accepts c;
  ok_sched : scheduled c
}.

(** The reply list without the nodes that wait for a length and what is before
    them: [pre] ends with such a node, or the static buffer comes before [p]. *)
Record shape (c : client) (pre p : list (option clientReplyBlock)) : Prop := {
  sh_ok : out_ok c;
  sh_list : reply c = pre ++ p;
  sh_filled : Forall filled p;
  sh_pre : pre = [] \/ last pre = Some None
}.

Definition tail_bytes (c : client) (pre p : list (option clientReplyBlock)) : list byte :=
  (match pre with [] => take (Z.to_nat (bufpos c)) (buf c) | _ => [] end) ++ nodes_bytes p.

(** [c'] has more output than [c], namely [s] at the end of the tail. *)
Record added (c c' : client) (pre p p' : list (option clientReplyBlock)) (s : list byte) (cost : Z) : Prop := {
  ad_shape : shape c' pre p';
  ad_tail : tail_bytes c' pre p' = tail_bytes c pre p ++ s;
  ad_buf : pre <> [] -> buf c' = buf c /\ bufpos c' = bufpos c;
  ad_sent : sentlen c' = sentlen c;
  ad_handler : handler c' = handler c;
  ad_size : nodes_size (reply c') <= nodes_size (reply c) + cost
}.

Lemma nodes_bytes_app l1 l2 : nodes_bytes (l1 ++ l2) = nodes_bytes l1 ++ nodes_bytes l2.
Proof. unfold nodes_bytes. by rewrite map_app, concat_app. Qed.

Lemma nodes_size_app l1 l2 : nodes_size (l1 ++ l2) = nodes_size l1 + nodes_size l2.
Proof. unfold nodes_size. induction l1 as [|x l IH]; cbn; lia. Qed.

Lemma nodes_size_cons o l : nodes_size (o :: l) = node_size o + nodes_size l.
Proof. done. Qed.
Lemma nodes_size_one o : nodes_size [o] = node_size o.
Proof. unfold nodes_size. cbn. lia. Qed.
Lemma nodes_bytes_one o : nodes_bytes [o] = node_bytes o.
Proof. unfold nodes_bytes. cbn. by rewrite app_nil_r. Qed.

Lemma node_size_nonneg o : 0 <= node_size o.
Proof. destruct o; cbn; unfold blk_size; lia. Qed.

Lemma nodes_size_nonneg l : 0 <= nodes_size l.
Proof. unfold nodes_size. induction l as [|x l IH]; cbn; [lia|]. pose proof (node_size_nonneg x). lia. Qed.
#[local] Arguments nodes_size : simpl never.
#[local] Arguments nodes_bytes : simpl never.

Lemma blk_bytes_length b : blk_ok b -> Z.of_nat (length (blk_bytes b)) = blk_used b.
Proof. unfold blk_ok, blk_size, blk_bytes. intros. rewrite length_take. lia. Qed.

(** The whole output, from the parts. *)
Lemma pending_tail c pre p : reply c = pre ++ p ->
  take (Z.to_nat (bufpos c)) (buf c) ++ nodes_bytes (reply c) =
    (match pre with [] => [] | _ => take (Z.to_nat (bufpos c)) (buf c) ++ nodes_bytes pre end) ++ tail_bytes c pre p.
Proof. intros ->. unfold tail_bytes. rewrite nodes_bytes_app. destruct pre; [done|]. cbn [app]. by rewrite app_assoc. Qed.

Lemma head_used_nonneg l : Forall node_ok l -> 0 <= head_used l.
Proof. intros [|[b|] l' Hb _]; cbn; try lia. apply Hb. Qed.

Lemma head_used_app l l' : Forall node_ok (l ++ l') -> head_used l <= head_used (l ++ l').
Proof. intros H. destruct l; [by apply head_used_nonneg|done]. Qed.

Lemma head_used_le l : Forall node_ok l -> head_used l <= Z.of_nat (length (nodes_bytes l)).
Proof.
  destruct l as [|[b|] l]; intros H; cbn [head_used]; try lia. inversion_clear H as [|? ? Hb Hl]. change (Some b :: l) with ([Some b] ++ l).
  rewrite nodes_bytes_app, nodes_bytes_one, length_app. cbn [node_bytes]. pose proof (blk_bytes_length b Hb). lia.
Qed.

Lemma sent_bound c : out_ok c -> 0 <= sentlen c <= Z.of_nat (length (take (Z.to_nat (bufpos c)) (buf c) ++ nodes_bytes (reply c))).
Proof.
  intros [[Hb _] Hn _ _ Hs _ _]. pose proof (head_used_le _ Hn). rewrite length_app, length_take. unfold head_len in Hs.
  destruct (bufpos c >? 0) eqn:?; zbool; lia.
Qed.

(** More output in front of the bytes already sent keeps the invariant. *)
Lemma sent_mono c c' : sentlen c' = sentlen c -> head_len c <= head_len c' ->
  (sentlen c = 0 \/ 0 < sentlen c < head_len c) -> sentlen c' = 0 \/ 0 < sentlen c' < head_len c'.
Proof. lia. Qed.

Lemma pending_added c c' pre p p' s cost : shape c pre p -> added c c' pre p p' s cost -> pending c' = pending c ++ s.
Proof.
  intros [Hok Hl _ _] [[Hok' Hl' _ _] Ht Hb Hs _ _]. unfold pending.
  assert (take (Z.to_nat (bufpos c')) (buf c') ++ nodes_bytes (reply c') =
    (take (Z.to_nat (bufpos c)) (buf c) ++ nodes_bytes (reply c)) ++ s) as ->.
  { rewrite (pending_tail c' pre p' Hl'), (pending_tail c pre p Hl), Ht, app_assoc. f_equal. f_equal.
    destruct pre; [done|]. destruct Hb as [-> ->]; done. }
  rewrite Hs, drop_app_le; [done|]. pose proof (sent_bound c Hok). lia.
Qed.

Lemma added_trans c1 c2 c3 pre p1 p2 p3 s1 s2 k1 k2 :
  added c1 c2 pre p1 p2 s1 k1 -> added c2 c3 pre p2 p3 s2 k2 -> added c1 c3 pre p1 p3 (s1 ++ s2) (k1 + k2).
Proof.
  intros [A1 A2 A3 A4 A5 A6] [B1 B2 B3 B4 B5 B6]. split; try done; try congruence.
  - by rewrite B2, A2, app_assoc.
  - intros Hp. destruct (A3 Hp), (B3 Hp). split; congruence.
  - lia.
Qed.

(** *** Flags *)

#[local] Arguments Z.testbit : simpl never.
#[local] Arguments Z.lor : simpl never.
#[local] Arguments Z.land : simpl never.

Lemma lor_bit f k i : 0 <= k -> Z.testbit (Z.lor f (Z.shiftl 1 k)) i = (Z.testbit f i || (i =? k)).
Proof.
  intros Hk. rewrite Z.lor_spec, Z.shiftl_1_l. f_equal. destruct (i =? k) eqn:E; zbool.
  - subst. by apply Z.pow2_bits_true.
  - destruct (decide (0 <= i)); [by apply Z.pow2_bits_false; lia|by rewrite Z.testbit_neg_r by lia].
Qed.

Lemma flag_two f a b : flag_on f (Z.lor a b) = flag_on f a || flag_on f b.
Proof.
  unfold flag_on. rewrite Z.land_lor_distr_r. apply eq_bool_prop_intro. rewrite orb_True, !negb_True, !Is_true_true, !Z.eqb_eq.
  rewrite Z.lor_eq_0_iff. destruct (decide (Z.land f a = 0)), (decide (Z.land f b = 0)); tauto.
Qed.

Lemma accepts_flags c k : accepts c -> k ∈ [1; 6; 8; 22; 24; 27; 28] -> Z.testbit (r_flags c) k = false.
Proof. intros (_ & _ & H) Hk. rewrite Forall_forall in H. by apply H. Qed.

Lemma accepts_open c : accepts c -> on c CLIENT_CLOSE_AFTER_REPLY = false.
Proof. intros H. unfold on, CLIENT_CLOSE_AFTER_REPLY. rewrite flag_on_bit by done. apply accepts_flags; [done|]. set_solver. Qed.

Lemma prepare_spec c : out_ok c -> exists c', prepareClientToWrite c = (c', true) /\
  buf c' = buf c /\ bufpos c' = bufpos c /\ reply c' = reply c /\ reply_bytes c' = reply_bytes c /\ sentlen c' = sentlen c /\
  handler c' = handler c /\ fd c' = fd c /\ accepts c' /\ listed c' = Z.testbit (r_flags c') 21 /\
  awaited c'.
Proof.
  intros [_ _ _ _ _ Ha [Hl Hs]]. pose proof Ha as (Hfd & Hon & _). unfold prepareClientToWrite, on. rewrite !flag_two.
  unfold CLIENT_LUA, CLIENT_MODULE, CLIENT_REPLY_OFF, CLIENT_REPLY_SKIP, CLIENT_MASTER. rewrite !flag_on_bit by done.
  rewrite !(accepts_flags c) by (done || set_solver). cbn [orb andb]. rewrite (proj2 (Z.leb_gt _ 0)) by done.
  destruct (clientHasPendingReplies c) eqn:Hp.
  - exists c. split; [done|]. split_and!; try done. by apply Hs.
  - unfold clientInstallWriteHandler, on. rewrite Hon, andb_true_r. unfold CLIENT_PENDING_WRITE. rewrite flag_on_bit by done.
    destruct (Z.testbit (r_flags c) 21) eqn:H21; cbn [negb].
    + exists c. split; [done|]. split_and!; try done; [congruence|]. left. congruence.
    + eexists. split; [done|]. cbn. split_and!; try done; [|by rewrite lor_bit, orb_true_r|by left].
      split; [done|]. split; [done|]. apply Forall_forall. intros k Hk. cbn. rewrite lor_bit by done.
      rewrite (accepts_flags c) by done. cbn. apply Z.eqb_neq. set_solver.
Qed.

Lemma pending_cases c : clientHasPendingReplies c = false -> bufpos c = 0 /\ reply c = [].
Proof.
  unfold clientHasPendingReplies. intros [H1 H2]%orb_false_iff. apply negb_false_iff in H1, H2. zbool.
  split; [done|]. by destruct (reply c).
Qed.

(** ** Writing, correctly *)

(** The invariant without the flags: what [write_loop] works on. *)
Record core_ok (c : client) : Prop := {
  co_buf : 0 <= bufpos c <= Z.of_nat (length (buf c)) /\ Z.of_nat (length (buf c)) = PROTO_REPLY_CHUNK_BYTES;
  co_nodes : Forall node_ok (reply c);
  co_bytes : reply_bytes c = nodes_size (reply c);
  co_total : nodes_size (reply c) < 2 ^ 63;
  co_sent : sentlen c = 0 \/ 0 < sentlen c < head_len c;
  co_filled : Forall filled (reply c)
}.

Definition same_rest (c c' : client) : Prop :=
  r_flags c' = r_flags c /\ fd c' = fd c /\ online c' = online c /\ handler c' = handler c /\ listed c' = listed c.

(** One step: [sent] goes out, [c1] remains. *)
Record sends (c : client) (sent : list byte) (c1 : client) : Prop := {
  sd_core : core_ok c1;
  sd_rest : same_rest c c1;
  sd_pending : pending c = sent ++ pending c1;
  sd_pos : bufpos c1 <= bufpos c;
  sd_nodes : (length (reply c1) <= length (reply c))%nat;
  sd_size : nodes_size (reply c1) <= nodes_size (reply c)
}.

Lemma sends_trans c c1 c2 s1 s2 : sends c s1 c1 -> sends c1 s2 c2 -> sends c (s1 ++ s2) c2.
Proof.
  intros [A1 (? & ? & ? & ? & ?) A3 A4 A5 A6] [B1 (? & ? & ? & ? & ?) B3 B4 B5 B6]. split; [done| | |lia|lia|lia].
  - split_and!; congruence.
  - by rewrite A3, B3, app_assoc.
Qed.

(** An answer of a socket that accepts bytes. *)
Definition takes (w : wres) : bool := match w with Wrote n => 0 <? n | _ => false end.

Lemma sys_write_spec bs ws : bs <> [] -> exists n err ws', sys_write bs ws = (n, err, ws') /\ n <= Z.of_nat (length bs) /\
  (err = true -> Fail ∈ ws) /\ ws' ⊆ ws /\
  (forallb takes ws = true -> ws <> [] -> 0 < n /\ forallb takes ws' = true /\ length ws = S (length ws')).
Proof.
  intros Hbs. assert (0 < Z.of_nat (length bs)) by (destruct bs; [done|cbn; lia]).
  destruct ws as [|[n| |] ws]; cbn [sys_write]; do 3 eexists; (split; [done|]); split_and!; try done; try lia; try set_solver.
  cbn. intros [? ?]%andb_true_iff _. zbool. split_and!; done || lia.
Qed.

(** Part of the static buffer. *)
Lemma send_buf c : core_ok c -> bufpos c > 0 -> exists bs, load (buf c) (sentlen c) (bufpos c - sentlen c) = Some bs /\ bs <> [] /\
  forall n, 0 < n <= Z.of_nat (length bs) ->
    let c1 := with_sent c (sentlen c + n) in
    sends c (take (Z.to_nat n) bs) (if sentlen c1 =? bufpos c1 then with_sent (with_buf c1 (buf c1) 0) 0 else c1).
Proof.
  intros [[Hb1 Hb2] Hn Hby Htot Hs Hf] Hpos. unfold head_len in Hs. rewrite (proj2 (Z.gtb_lt _ _)) in Hs by lia.
  rewrite load_Some by lia. eexists. split; [done|].
  assert (length (take (Z.to_nat (bufpos c - sentlen c)) (drop (Z.to_nat (sentlen c)) (buf c))) = Z.to_nat (bufpos c - sentlen c)) as Hlen
    by (rewrite length_take, length_drop; lia).
  split; [intros Heq; rewrite Heq in Hlen; cbn in Hlen; lia|]. rewrite Hlen. intros n Hn'. cbn [sentlen with_sent bufpos buf].
  assert (pending c = take (Z.to_nat n) (take (Z.to_nat (bufpos c - sentlen c)) (drop (Z.to_nat (sentlen c)) (buf c))) ++
    drop (Z.to_nat (sentlen c + n)) (take (Z.to_nat (bufpos c)) (buf c) ++ nodes_bytes (reply c))) as Hp.
  { unfold pending. rewrite <- (take_drop (Z.to_nat n) (drop _ (_ ++ _))), drop_drop.
    replace (Z.to_nat (sentlen c) + Z.to_nat n)%nat with (Z.to_nat (sentlen c + n)) by lia. f_equal.
    rewrite drop_app_le by (rewrite length_take; lia). rewrite take_app_le by (rewrite length_drop, length_take; lia).
    rewrite skipn_firstn_comm. do 2 f_equal. lia. }
  destruct (_ =? _) eqn:Heq; zbool.
  - split; [|done| |cbn; lia|done|done].
    + split; cbn; try done; [lia|by left].
    + rewrite Hp. f_equal. unfold pending. cbn. rewrite drop_0, Heq. apply drop_app_length'. rewrite length_take. lia.
  - split; [|done|exact Hp|done|done|done]. split; cbn; try done.
    right. unfold head_len. cbn. rewrite (proj2 (Z.gtb_lt _ _)) by lia. lia.
Qed.

Lemma pending_list c : bufpos c = 0 -> pending c = drop (Z.to_nat (sentlen c)) (nodes_bytes (reply c)).
Proof. intros H. unfold pending. by rewrite H. Qed.

Lemma nodes_bytes_cons o l : nodes_bytes (o :: l) = node_bytes o ++ nodes_bytes l.
Proof. done. Qed.

(** A block that is empty, or was sent, is removed. *)
Lemma drop_block c o nodes sent : core_ok c -> bufpos c = 0 -> reply c = Some o :: nodes ->
  drop (Z.to_nat (sentlen c)) (blk_bytes o) = sent ->
  sends c sent (with_sent (with_reply c nodes (u64 (reply_bytes c - blk_size o))) 0) /\
    reply_bytes (with_reply c nodes (u64 (reply_bytes c - blk_size o))) = nodes_size nodes.
Proof.
  intros [[Hb1 Hb2] Hn Hby Htot Hs Hf] Hpos Hr <-. unfold head_len in Hs. rewrite Hpos, Hr in *. cbn [Z.gtb Z.compare head_used] in Hs.
  apply Forall_cons in Hn as [Ho Hn], Hf as [_ Hf]. cbn in Ho. pose proof (blk_bytes_length o Ho) as Hl.
  rewrite nodes_size_cons in *. cbn [node_size] in *. pose proof (nodes_size_nonneg nodes). assert (0 <= blk_size o) by (unfold blk_size; lia).
  rewrite uwrap_small by lia. split; [|cbn; lia]. split; cbn [reply with_sent with_reply].
  - split; cbn; try done; [by rewrite Hpos|lia|lia|by left].
  - done.
  - rewrite !pending_list by done. rewrite Hr, nodes_bytes_cons. cbn [node_bytes reply with_sent with_reply sentlen]. rewrite drop_0.
    apply drop_app_le. destruct Ho. lia.
  - done.
  - rewrite Hr. cbn. lia.
  - rewrite Hr, nodes_size_cons. cbn. lia.
Qed.

(** Part of the first block. *)
Lemma send_block c o nodes : core_ok c -> bufpos c = 0 -> reply c = Some o :: nodes -> blk_used o <> 0 ->
  exists bs, load (blk_buf o) (sentlen c) (blk_used o - sentlen c) = Some bs /\ bs <> [] /\
    forall n, 0 < n <= Z.of_nat (length bs) ->
      (sentlen c + n = blk_used o -> take (Z.to_nat n) bs = drop (Z.to_nat (sentlen c)) (blk_bytes o)) /\
      (sentlen c + n <> blk_used o -> sends c (take (Z.to_nat n) bs) (with_sent c (sentlen c + n))).
Proof.
  intros Hok Hpos Hr Hu. pose proof Hok as [[Hb1 Hb2] Hn Hby Htot Hs Hf]. unfold head_len in Hs. rewrite Hpos, Hr in Hs. cbn [Z.gtb Z.compare head_used] in Hs.
  pose proof Hn as Hn'. rewrite Hr in Hn'. apply Forall_cons in Hn' as [Ho _]. cbn in Ho. pose proof Ho as Ho'. unfold blk_ok, blk_size in Ho'.
  pose proof (blk_bytes_length o Ho) as Hl. rewrite load_Some by lia. eexists. split; [done|].
  assert (take (Z.to_nat (blk_used o - sentlen c)) (drop (Z.to_nat (sentlen c)) (blk_buf o)) = drop (Z.to_nat (sentlen c)) (blk_bytes o)) as ->.
  { unfold blk_bytes. rewrite skipn_firstn_comm. f_equal. lia. }
  set (bs := drop (Z.to_nat (sentlen c)) (blk_bytes o)). assert (length bs = Z.to_nat (blk_used o - sentlen c)) as Hlen by (subst bs; rewrite length_drop; lia).
  split; [intros Heq; rewrite Heq in Hlen; cbn in Hlen; lia|]. intros n Hn2. split.
  - intros Hall. apply take_ge. lia.
  - intros Hpart. split; [|done| |done|done|done].
    + split; cbn; try done. right. unfold head_len. cbn. rewrite Hpos, Hr. cbn. lia.
    + rewrite !pending_list by done. cbn [reply with_sent sentlen]. rewrite Hr, nodes_bytes_cons. cbn [node_bytes].
      rewrite !drop_app_le by lia. fold bs. rewrite app_assoc. f_equal. subst bs.
      rewrite <- (take_drop (Z.to_nat n) (drop _ (blk_bytes o))) at 1. f_equal. rewrite drop_drop. f_equal. lia.
Qed.

Definition measure (c : client) : nat := (length (pending c) + length (reply c))%nat.

(** What a round of writing promises: the bytes sent and what is pending after
    it are what was pending before; it stops because nothing is pending, the
    socket is full, the quota is used up or the socket failed. *)
Record wrote (may_pause : bool) (c : client) (ws : list wres) (c' : client) (sent : list byte) (e : wend) : Prop := {
  wr_sends : sends c sent c';
  wr_broken : e = Broken -> Fail ∈ ws;
  wr_finished : e = Finished -> may_pause = false -> clientHasPendingReplies c' = false;
  wr_takes : forallb takes ws = true -> (length (pending c) <= length ws)%nat -> e = Finished
}.

Lemma with_sent_same c n : sentlen c = n -> with_sent c n = c.
Proof. intros <-. by destruct c. Qed.

(** The socket took nothing of [bs], which is pending. *)
Lemma wrote_blocked may_pause c ws bs n err ws' : core_ok c -> sys_write bs ws = (n, err, ws') -> bs <> [] ->
  (length bs <= length (pending c))%nat -> n <= 0 -> wrote may_pause c ws c [] (if err then Broken else Blocked).
Proof.
  intros Hok Hw Hbs Hlen Hn. destruct (sys_write_spec bs ws Hbs) as (n' & err' & ws1 & Hw' & _ & Herr & _ & Htk).
  rewrite Hw in Hw'. injection Hw' as <- <- <-. split; [by split|destruct err; [auto|done]|by destruct err|].
  intros Ht Hle. destruct ws; [|destruct Htk; done || lia]. destruct bs; [done|]. cbn in *. lia.
Qed.

(** The socket took the first [n] bytes of [bs]; the loop goes on with [c1]. *)
Lemma wrote_more may_pause fuel c ws bs n err ws1 c1 tot : sys_write bs ws = (n, err, ws1) -> bs <> [] -> 0 < n ->
  sends c (take (Z.to_nat n) bs) c1 -> (measure c < S fuel)%nat ->
  ((measure c1 < fuel)%nat -> exists c' rest e, write_loop fuel may_pause c1 ws1 tot = Some (c', rest, e) /\ wrote may_pause c1 ws1 c' rest e) ->
  exists c' sent e, (if (tot >? NET_MAX_WRITES_PER_EVENT) && may_pause then Some (c1, take (Z.to_nat n) bs, Finished)
      else r ← write_loop fuel may_pause c1 ws1 tot; let '(c, rest, e) := r in Some (c, take (Z.to_nat n) bs ++ rest, e)) = Some (c', sent, e) /\
    wrote may_pause c ws c' sent e.
Proof.
  intros Hw Hbs Hn Hs Hfuel IH. destruct (sys_write_spec bs ws Hbs) as (n' & err' & ws' & Hw' & Hle & _ & Hsub & Htk).
  rewrite Hw in Hw'. injection Hw' as <- <- <-. pose proof (sd_pending _ _ _ Hs) as Hp. apply (f_equal length) in Hp. rewrite length_app, length_take in Hp.
  destruct (_ && _) eqn:Hq.
  { eexists _, _, _. split; [done|]. split; try done. intros _ ->. by rewrite andb_false_r in Hq. }
  destruct IH as (c' & rest & e & -> & [W1 W2 W3 W4]).
  { unfold measure in *. pose proof (sd_nodes _ _ _ Hs). lia. }
  eexists _, _, _. split; [done|]. split; [by eapply sends_trans|set_solver|done|]. intros H1 H2.
  destruct Htk as (? & ? & ?); [done|intros ->; cbn in *; lia|]. apply W4; [done|lia].
Qed.

Lemma write_loop_spec may_pause fuel : forall c ws tot, core_ok c -> (measure c < fuel)%nat ->
  exists c' sent e, write_loop fuel may_pause c ws tot = Some (c', sent, e) /\ wrote may_pause c ws c' sent e.
Proof.
  induction fuel as [|fuel IH]; intros c ws tot Hok Hfuel; [lia|]. cbn [write_loop].
  destruct (clientHasPendingReplies c) eqn:Hpend; cbn [negb]; [|by exists c, [], Finished].
  assert (forall bs c1, bs <> [] -> sends c (take (Z.to_nat (Z.of_nat (length bs))) bs) c1 -> (length bs <= length (pending c))%nat) as Hlen.
  { intros bs c1 _ Hs. rewrite (sd_pending _ _ _ Hs), length_app, length_take. lia. }
  assert (forall bs : list byte, bs <> [] -> 0 < Z.of_nat (length bs)) as Hpos1 by (intros [|? ?] ?; [done|cbn; lia]).
  destruct (bufpos c >? 0) eqn:Hpos; zbool.
  - destruct (send_buf c Hok) as (bs & -> & Hbs & Hsend); [lia|]. cbn [mbind option_bind].
    destruct (sys_write bs ws) as [[n err] ws'] eqn:Hw. destruct (n <=? 0) eqn:Hn; zbool.
    + eexists _, _, _. split; [done|]. eapply wrote_blocked; try done. eapply Hlen; [done|]. apply Hsend. specialize (Hpos1 bs Hbs). lia.
    + destruct (sys_write_spec bs ws Hbs) as (n' & ? & ? & Hw' & Hle & _). rewrite Hw in Hw'. simplify_eq.
      specialize (Hsend n' ltac:(lia)). eapply wrote_more; try done. intros. apply IH; [eapply sd_core, Hsend|done].
  - pose proof Hok as [[Hb1 _] _ _ _ Hsent Hfil]. assert (bufpos c = 0) as Hpos0 by lia.
    destruct (reply c) as [|[o|] nodes] eqn:Hr; [|clear Hfil|by apply Forall_cons in Hfil as [[? ?] _]].
    { unfold clientHasPendingReplies in Hpend. rewrite Hpos0, Hr in Hpend. done. }
    pose proof (fun sent => drop_block c o nodes sent Hok Hpos0 Hr) as Hdrop.
    destruct (blk_used o =? 0) eqn:Hu; zbool.
    + unfold head_len in Hsent. rewrite Hpos0, Hr in Hsent. cbn [Z.gtb Z.compare head_used] in Hsent.
      destruct (Hdrop []) as [Hs _]; [unfold blk_bytes; rewrite Hu; by destruct (Z.to_nat (sentlen c))|]. rewrite with_sent_same in Hs by (cbn; lia).
      destruct (IH _ ws tot (sd_core _ _ _ Hs)) as (c' & sent & e & -> & [W1 W2 W3 W4]).
      { pose proof (sd_pending _ _ _ Hs) as Hp. cbn [app] in Hp. unfold measure in *. rewrite <- Hp. cbn [reply with_reply]. rewrite Hr in Hfuel. cbn in Hfuel. lia. }
      exists c', sent, e. split; [done|]. split; [by apply (sends_trans _ _ _ [] sent Hs W1)|done|done|].
      rewrite (sd_pending _ _ _ Hs). done.
    + destruct (send_block c o nodes Hok Hpos0 Hr Hu) as (bs & -> & Hbs & Hsend). cbn [mbind option_bind].
      assert (forall n, 0 < n <= Z.of_nat (length bs) -> sentlen c + n = blk_used o ->
        sends c (take (Z.to_nat n) bs) (with_sent (with_reply c nodes (u64 (reply_bytes c - blk_size o))) 0)) as Hfull.
      { intros n Hn Hall. destruct (Hsend n Hn) as [Ht _]. rewrite (Ht Hall). by apply Hdrop. }
      destruct (sys_write bs ws) as [[n err] ws'] eqn:Hw. destruct (n <=? 0) eqn:Hn; zbool.
      * eexists _, _, _. split; [done|]. eapply wrote_blocked; try done. specialize (Hpos1 bs Hbs).
        destruct (decide (sentlen c + Z.of_nat (length bs) = blk_used o)) as [He|He];
          [eapply (Hlen bs), Hfull|eapply (Hlen bs), Hsend]; done || lia.
      * assert (n <= Z.of_nat (length bs)) as Hle
          by (destruct (sys_write_spec bs ws Hbs) as (n' & ? & ? & Hw' & Hle & _); rewrite Hw in Hw'; simplify_eq; lia).
        cbn [sentlen with_sent]. destruct (_ =? _) eqn:He; zbool.
        -- specialize (Hfull n ltac:(lia) He). destruct (Hdrop _ eq_refl) as [_ Hbytes]. cbn in Hbytes.
           cbn [reply with_sent with_reply reply_bytes]. rewrite Hbytes.
           replace ((length nodes =? 0)%nat && negb (nodes_size nodes =? 0)) with false by (destruct nodes; done). rewrite <- Hbytes.
           eapply wrote_more; try done. intros. apply IH; [eapply sd_core, Hfull|done].
        -- destruct (Hsend n) as [_ Hpart]; [lia|]. specialize (Hpart He).
           eapply wrote_more; try done. intros. apply IH; [eapply sd_core, Hpart|done].
Qed.

Lemma write_fuel_enough c : core_ok c -> (measure c < write_fuel c)%nat.
Proof.
  intros [[Hb _] Hn _ _ _ Hf]. unfold measure, write_fuel, pending. rewrite length_drop, length_app, length_take.
  assert (length (nodes_bytes (reply c)) =
    sum_list (map (fun o => match o with Some b => Z.to_nat (blk_used b) | None => 0%nat end) (reply c)))%nat as ->; [|lia].
  clear Hf. induction Hn as [|[b|] l Ho _ IH]; [done| |exact IH]. rewrite nodes_bytes_cons, length_app. cbn [map sum_list node_bytes].
  pose proof (blk_bytes_length b Ho). rewrite IH. unfold id. f_equal. lia.
Qed.

Lemma core_idle c : core_ok c -> clientHasPendingReplies c = false -> sentlen c = 0 /\ pending c = [].
Proof.
  intros [_ _ _ _ Hs _] [Hp Hr]%pending_cases. unfold head_len in Hs. unfold pending. rewrite Hp, Hr in *. cbn in Hs. split; [lia|].
  by destruct (Z.to_nat (sentlen c)).
Qed.

(** What [writeToClient] promises for the client it leaves. *)
Record written (may_pause handler_installed : bool) (c : client) (ws : list wres) (c' : client) (sent : list byte) : Prop := {
  wn_core : core_ok c';
  wn_pending : pending c = sent ++ pending c';
  wn_size : nodes_size (reply c') <= nodes_size (reply c);
  wn_flags : r_flags c' = r_flags c /\ fd c' = fd c /\ online c' = online c /\ listed c' = listed c;
  wn_handler : handler c' = handler c \/ clientHasPendingReplies c' = false;
  wn_idle : clientHasPendingReplies c = false -> clientHasPendingReplies c' = false;
  wn_takes : may_pause = false -> forallb takes ws = true -> (length (pending c) <= length ws)%nat -> clientHasPendingReplies c' = false
}.

(** A client is given up only if the socket failed, or after everything was sent
    when that was asked for. *)
Definition given_up (c : client) (ws : list wres) (sent : list byte) : Prop :=
  sent `prefix_of` pending c /\ (Fail ∈ ws \/ on c CLIENT_CLOSE_AFTER_REPLY = true /\ sent = pending c).

Lemma writeToClient_spec may_pause hi c ws : core_ok c -> exists oc sent, writeToClient may_pause c hi ws = Some (oc, sent) /\
  match oc with Some c' => written may_pause hi c ws c' sent | None => given_up c ws sent end.
Proof.
  intros Hok. unfold writeToClient.
  destruct (write_loop_spec may_pause (write_fuel c) c ws 0 Hok (write_fuel_enough c Hok)) as (c' & sent & e & -> & [[Hc Hr Hp Hpos Hl Hsz] Hbr Hfin Htk]).
  cbn [mbind option_bind].
  assert (exists oc, (if negb (clientHasPendingReplies c') then
        let c := with_sent c' 0 in
        let c := if hi then with_events c false (listed c) else c in
        if on c CLIENT_CLOSE_AFTER_REPLY then Some (None, sent) else Some (Some c, sent)
      else Some (Some c', sent)) = Some (oc, sent) /\
    match oc with Some c' => e <> Broken -> written may_pause hi c ws c' sent | None => given_up c ws sent end) as (oc & Heq & Hoc).
  { destruct Hr as (R1 & R2 & R3 & R4 & R5). destruct (clientHasPendingReplies c') eqn:Hpend; cbn [negb].
    - exists (Some c'). split; [done|]. intros _. split; try done; [by left| |].
      { intros [H1 H2]%pending_cases. rewrite H1, H2 in *. destruct Hc as [[Hb _] _ _ _ _ _]. destruct (reply c') eqn:E; [|cbn in Hl; lia].
        unfold clientHasPendingReplies in Hpend. rewrite E in Hpend. by replace (bufpos c') with 0 in Hpend by lia. }
      intros Hm H1 H2. exfalso. by specialize (Hfin (Htk H1 H2) Hm).
    - destruct (core_idle c' Hc Hpend) as [Hs0 Hp0]. rewrite (with_sent_same c' 0 Hs0). cbv zeta. rewrite Hp0, app_nil_r in Hp.
      set (c2 := if hi then with_events c' false (listed c') else c').
      assert (on c2 CLIENT_CLOSE_AFTER_REPLY = on c CLIENT_CLOSE_AFTER_REPLY) as Hon by (subst c2; unfold on; destruct hi; cbn; by rewrite R1).
      rewrite Hon. destruct (on c CLIENT_CLOSE_AFTER_REPLY) eqn:Hcl.
      + exists None. split; [done|]. split; [by rewrite Hp|by right].
      + exists (Some c2). split; [done|]. intros _. subst c2. destruct hi; split; cbn; try done.
        * by destruct Hc; split.
        * change (pending (with_events c' false (listed c'))) with (pending c'). by rewrite Hp0, app_nil_r.
        * by right.
        * by rewrite Hp0, app_nil_r.
        * by left. }
  destruct e; [| |]; [exists oc, sent; split; [exact Heq|]; destruct oc; [by apply Hoc|done]..|].
  exists None, sent. split; [done|]. split; [|left; by apply Hbr]. rewrite Hp. by apply prefix_app_r.
Qed.

Definition live (c : client) : Prop := out_ok c /\ Forall filled (reply c).

Lemma live_core c : live c -> core_ok c.
Proof. by intros [[] ?]. Qed.

Lemma core_live c : core_ok c -> accepts c -> scheduled c -> live c.
Proof. by intros [] ? ?. Qed.

Lemma same_accepts c c' : r_flags c' = r_flags c -> fd c' = fd c -> online c' = online c -> accepts c -> accepts c'.
Proof. unfold accepts. by intros -> -> ->. Qed.

Lemma clear_bit f k i : 0 <= k -> Z.testbit (Z.land f (Z.lnot (Z.shiftl 1 k))) i = Z.testbit f i && negb (i =? k).
Proof.
  intros Hk. destruct (decide (0 <= i)); [|by rewrite !Z.testbit_neg_r by lia].
  rewrite Z.land_spec, Z.lnot_spec by done. do 2 f_equal. rewrite Z.shiftl_1_l, Z.pow2_bits_eqb by done. apply Z.eqb_sym.
Qed.

(** The handler of a writable socket, and a round of [handleClientsWithPendingWrites]. *)
Lemma send_reply_spec may_pause c ws : live c -> exists oc sent, sendReplyToClient may_pause c ws = Some (oc, sent) /\
  match oc with
  | Some c' => live c' /\ pending c = sent ++ pending c' /\ nodes_size (reply c') <= nodes_size (reply c)
  | None => sent `prefix_of` pending c /\ Fail ∈ ws
  end.
Proof.
  intros Hlive. pose proof Hlive as [[_ _ _ _ _ Ha [Hli Hsc]] _]. pose proof (live_core c Hlive) as Hcore.
  unfold sendReplyToClient. destruct (writeToClient_spec may_pause true c ws Hcore) as (oc & sent & -> & Hoc).
  exists oc, sent. split; [done|]. destruct oc as [c'|].
  - destruct Hoc as [W1 W2 W3 (F1 & F2 & F3 & F4) W5 Wi _]. split_and!; [|done|done]. apply core_live; [done|by eapply same_accepts|].
    split; [by rewrite F4, F1|]. intros Hp. destruct W5 as [W5|W5]; [|congruence]. unfold awaited in *. rewrite F1, F4, W5. apply Hsc.
    destruct (clientHasPendingReplies c) eqn:H0; [done|]. by rewrite Wi in Hp.
  - destruct Hoc as [Hpre [Hf|[Hcl _]]]; [done|]. by rewrite accepts_open in Hcl.
Qed.

Lemma handle_pending_spec may_pause event_ok c ws : live c -> exists oc sent, handle_pending_write may_pause event_ok c ws = Some (oc, sent) /\
  match oc with
  | Some c' => live c' /\ pending c = sent ++ pending c' /\ nodes_size (reply c') <= nodes_size (reply c) /\
      (may_pause = false -> forallb takes ws = true -> (length (pending c) <= length ws)%nat -> clientHasPendingReplies c' = false)
  | None => sent `prefix_of` pending c /\ Fail ∈ ws
  end.
Proof.
  intros Hlive. pose proof Hlive as [[_ _ _ _ _ Ha _] _]. pose proof (live_core c Hlive) as Hcore. unfold handle_pending_write.
  set (c1 := with_events _ (handler c) false).
  assert (core_ok c1) as Hcore1 by by destruct Hcore; split.
  assert (accepts c1 /\ Z.testbit (r_flags c1) 21 = false) as [Ha1 H21].
  { subst c1. cbn. unfold CLIENT_PENDING_WRITE. split; [|rewrite clear_bit by done; by rewrite andb_false_r].
    destruct Ha as (? & ? & Hf). split; [done|]. split; [done|]. eapply Forall_impl; [exact Hf|]. cbn. intros k Hk. rewrite clear_bit by done. by rewrite Hk. }
  assert (on c1 CLIENT_PROTECTED = false) as ->.
  { unfold on, CLIENT_PROTECTED. rewrite flag_on_bit by done. apply accepts_flags; [done|set_solver]. }
  destruct (writeToClient_spec may_pause false c1 ws Hcore1) as (oc & sent & -> & Hoc). cbn [mbind option_bind].
  change (pending c) with (pending c1). change (nodes_size (reply c)) with (nodes_size (reply c1)). destruct oc as [c'|].
  2:{ exists None, sent. split; [done|]. destruct Hoc as [Hpre [Hf|[Hcl _]]]; [done|]. by rewrite accepts_open in Hcl. }
  destruct Hoc as [W1 W2 W3 (F1 & F2 & F3 & F4) _ _ W7]. assert (accepts c') as Ha' by by eapply (same_accepts c1).
  assert (listed c' = Z.testbit (r_flags c') 21) as Hli by (rewrite F4, F1, H21; done).
  destruct (clientHasPendingReplies c') eqn:Hp.
  - eexists (Some _), sent. split; [done|]. cbn.
    set (c2 := if event_ok then _ else _). assert (pending c2 = pending c' /\ reply c2 = reply c' /\ core_ok c2 /\ clientHasPendingReplies c2 = true) as (E1 & E2 & Hc2 & E3)
      by (subst c2; destruct event_ok; split_and!; try done; by destruct W1; split).
    rewrite E1, E2, E3. split_and!; try done. apply core_live; [done| |]; subst c2; destruct event_ok; try done.
    + destruct Ha' as (? & ? & Hf). split; [done|]. split; [done|]. apply Forall_forall. intros k Hin. rewrite Forall_forall in Hf.
      specialize (Hf k Hin). cbn in *. unfold CLIENT_CLOSE_ASAP. rewrite lor_bit, Hf by done. cbn. apply Z.eqb_neq. set_solver.
    + split; [done|]. intros _. right. by left.
    + split; cbn; [unfold CLIENT_CLOSE_ASAP; rewrite lor_bit by done; by rewrite orb_false_r|]. intros _. right. right.
      cbn. unfold CLIENT_CLOSE_ASAP. rewrite lor_bit by done. by rewrite orb_true_r.
  - exists (Some c'), sent. split; [done|]. split_and!; try done. apply core_live; try done. split; [done|]. by rewrite Hp.
Qed.


(** ** Adding output, correctly *)

Section adding.
Context (hard_limit soft_limit soft_seconds unixtime : Z) (memory_usage : client -> Z).
Context (junk : nat -> byte) (usable : Z -> Z) (slack : Z).

(** malloc_usable_size(3): at least what was asked for, and not much more. *)
Hypothesis usable_ok : forall n, 0 <= n -> n <= usable n <= n + slack.

Abbreviation async_close := (asyncCloseClientOnOutputBufferLimitReached hard_limit soft_limit soft_seconds unixtime memory_usage).
Abbreviation to_list := (_addReplyStringToList hard_limit soft_limit soft_seconds unixtime memory_usage junk usable).
Abbreviation add_bytes := (add_bytes hard_limit soft_limit soft_seconds unixtime memory_usage junk usable).
Abbreviation addReplyString := (addReplyString hard_limit soft_limit soft_seconds unixtime memory_usage junk usable).

Lemma slack_nonneg : 0 <= slack.
Proof. pose proof (usable_ok 0). lia. Qed.

(** The most a string of [n] bytes adds to the reply list. *)
Definition block_cost (n : Z) : Z := n + PROTO_REPLY_CHUNK_BYTES + slack.

Lemma fill_tail_spec tail s : blk_ok tail -> blk_size tail < 2 ^ 63 -> exists tail' rest, fill_tail tail s = Some (tail', rest) /\
  blk_ok tail' /\ blk_size tail' = blk_size tail /\ blk_bytes tail' ++ rest = blk_bytes tail ++ s /\ (length rest <= length s)%nat.
Proof.
  unfold fill_tail, blk_ok, blk_size, blk_bytes. intros Hok Hsz. rewrite uwrap_small by lia.
  set (copy := if _ >=? _ then _ else _).
  assert (0 <= copy <= Z.of_nat (length s) /\ copy <= Z.of_nat (length (blk_buf tail)) - blk_used tail) as Hcopy
    by (subst copy; unfold blk_size in *; destruct (_ >=? _) eqn:?; zlia).
  set (s1 := take (Z.to_nat copy) s). assert (Z.of_nat (length s1) = copy) as Hs1 by (subst s1; rewrite length_take; lia).
  rewrite store_Some by lia. cbn [mbind option_bind]. eexists _, _. split; [done|]. cbn [blk_used blk_buf]. split_and!.
  - lia.
  - rewrite !length_app, length_take, length_drop. lia.
  - rewrite !length_app, length_take, length_drop. lia.
  - replace (Z.to_nat (blk_used tail + copy)) with (Z.to_nat (blk_used tail) + length s1)%nat by lia.
    rewrite app_assoc, take_app_length' by (rewrite length_app, length_take; lia).
    rewrite <- app_assoc. subst s1. by rewrite take_drop.
  - rewrite length_drop. lia.
Qed.

Lemma new_block_spec size s : Z.of_nat (length s) <= size -> exists b, new_block junk usable size s = Some b /\ blk_ok b /\
  blk_bytes b = s /\ blk_size b <= size + slack.
Proof.
  intros Hs. unfold new_block. pose proof (usable_ok (size + 16)) as Hu.
  pose proof (malloc_length junk (usable (size + 16) - 16)) as Hl.
  rewrite store_Some by lia. cbn [mbind option_bind]. eexists. split; [done|]. unfold blk_ok, blk_size, blk_bytes. cbn [blk_used blk_buf].
  rewrite Nat2Z.id, take_0. cbn [app]. rewrite take_app_length, !length_app, length_drop. split_and!; try done; lia.
Qed.

(** Two clients that differ in flags and the time of the soft limit only. *)
Record same_output (c c' : client) : Prop := {
  so_buf : buf c' = buf c;
  so_pos : bufpos c' = bufpos c;
  so_sent : sentlen c' = sentlen c;
  so_reply : reply c' = reply c;
  so_bytes : reply_bytes c' = reply_bytes c;
  so_handler : handler c' = handler c;
  so_listed : listed c' = listed c;
  so_bit : Z.testbit (r_flags c') 21 = Z.testbit (r_flags c) 21;
  so_awaited : awaited c -> awaited c';
  so_accepts : accepts c -> accepts c'
}.

Lemma async_spec c : accepts c -> 0 <= reply_bytes c < 2 ^ 63 -> exists c', async_close c = Some c' /\ same_output c c'.
Proof.
  intros Ha Hb. unfold asyncCloseClientOnOutputBufferLimitReached. pose proof Ha as (Hfd & _ & _).
  rewrite (proj2 (Z.eqb_neq (fd c) (-1))) by lia. rewrite (proj2 (Z.ltb_lt _ (ULLONG_MAX - 1024 * 64))) by (unfold ULLONG_MAX; lia).
  cbn [negb]. destruct (_ || _); [by exists c|]. eexists. split; [done|].
  unfold checkClientOutputBufferLimits.
  assert (forall c1, same_output c c1 -> same_output c (with_flags c1 (Z.lor (r_flags c1) CLIENT_CLOSE_ASAP))) as Hclose.
  { intros c1 [? ? ? ? ? ? ? ? ? Hacc]. split; cbn; try done.
    - unfold CLIENT_CLOSE_ASAP. rewrite lor_bit by done. by rewrite orb_false_r.
    - intros _. right. right. cbn. unfold CLIENT_CLOSE_ASAP. rewrite lor_bit by done. by rewrite orb_true_r.
    - intros Hac. destruct (Hacc Hac) as (? & ? & Hf). split; [done|]. split; [done|]. apply Forall_forall. intros k Hk. cbn.
      unfold CLIENT_CLOSE_ASAP. rewrite lor_bit by done. rewrite Forall_forall in Hf. rewrite (Hf k Hk). cbn. apply Z.eqb_neq. set_solver. }
  assert (same_output c c) as Hrefl by by split.
  assert (forall t, same_output c (with_soft c t)) as Hsoft by (intros t; split; done).
  destruct (negb (soft_limit =? 0) && _); [destruct (soft_limit_time c =? 0)|]; cbn [fst snd]; case_match; auto.
Qed.


(** The list after a string was put at its end. *)
Lemma list_append pre p s : Forall node_ok (pre ++ p) -> Forall filled p -> pre = [] \/ last pre = Some None ->
  nodes_size (pre ++ p) < 2 ^ 63 ->
  exists p1 rest, (match last (pre ++ p) with
         | Some (Some tail) => r ← fill_tail tail s; Some (<[pred (length (pre ++ p)) := Some r.1]> (pre ++ p), r.2)
         | _ => Some (pre ++ p, s)
         end) = Some (pre ++ p1, rest) /\ Forall node_ok (pre ++ p1) /\ Forall filled p1 /\
    nodes_bytes p1 ++ rest = nodes_bytes p ++ s /\ nodes_size p1 = nodes_size p /\ (length rest <= length s)%nat /\
    head_used (pre ++ p) <= head_used (pre ++ p1).
Proof.
  intros Hok Hf Hpre Hsz. destruct p as [|x p _] using rev_ind.
  - rewrite app_nil_r in *. exists [], s. rewrite app_nil_r. destruct Hpre as [->| ->]; done.
  - rewrite Forall_app, Forall_singleton in Hf. destruct Hf as [Hf [b ->]]. rewrite app_assoc in *. rewrite last_snoc.
    rewrite Forall_app, Forall_singleton in Hok. destruct Hok as [Hok Hb]. cbn in Hb. rewrite nodes_size_app, nodes_size_one in Hsz. cbn in Hsz.
    pose proof (nodes_size_nonneg (pre ++ p)).
    destruct (fill_tail_spec b s Hb) as (b' & rest & -> & Hb' & Hsz' & Hby & Hlen); [lia|]. cbn [mbind option_bind fst snd].
    exists (p ++ [Some b']), rest. rewrite length_app, Nat.add_1_r. cbn [pred].
    replace (<[length (pre ++ p) := Some b']> ((pre ++ p) ++ [Some b])) with ((pre ++ p) ++ [Some b'])
      by (rewrite <- (Nat.add_0_r (length (pre ++ p))), insert_app_r; done).
    rewrite <- app_assoc. split; [done|]. split_and!.
    + rewrite app_assoc, Forall_app, Forall_singleton. done.
    + rewrite Forall_app, Forall_singleton. split; [done|]. by eexists.
    + rewrite !nodes_bytes_app, !nodes_bytes_one, <- !app_assoc. cbn [node_bytes]. by rewrite Hby.
    + rewrite !nodes_size_app, !nodes_size_one. cbn. lia.
    + done.
    + rewrite app_assoc. destruct (pre ++ p); [|done]. cbn. apply (f_equal length) in Hby. rewrite !length_app in Hby.
      pose proof (blk_bytes_length b Hb). pose proof (blk_bytes_length b' Hb'). lia.
Qed.

Lemma add_spec c pre p s : shape c pre p -> nodes_size (reply c) + block_cost (Z.of_nat (length s)) < 2 ^ 63 ->
  exists c' p', addReplyString c s = Some c' /\ added c c' pre p p' s (block_cost (Z.of_nat (length s))).
Proof.
  intros [Hok Hl Hf Hpre] Hcost. unfold Reply.addReplyString.
  destruct (prepare_spec c Hok) as (c1 & -> & E1 & E2 & E3 & E4 & E5 & E6 & E7 & Ha1 & Hl1 & Hs1). cbn [negb].
  pose proof (ok_sent c Hok) as Hsent0. destruct Hok as [[Hb1 Hb2] Hn Hby Htot Hsent Ha Hsch]. pose proof slack_nonneg as Hslack. unfold block_cost in Hcost.
  assert (PROTO_REPLY_CHUNK_BYTES = 16384) as Hchunk by done.
  unfold Reply.add_bytes, _addReplyToBuffer. rewrite (accepts_open c1 Ha1), E1, E2, E3. rewrite uwrap_small by lia.
  assert (exists c' p', to_list c1 s = Some c' /\ added c c' pre p p' s (block_cost (Z.of_nat (length s)))) as Hlist.
  { unfold _addReplyStringToList. rewrite (accepts_open c1 Ha1), E3, E4. rewrite Hl in *.
    destruct (list_append pre p s Hn Hf Hpre Htot) as (p1 & rest & -> & Hn1 & Hf1 & Hbytes & Hsize & Hrest & Hhead). cbn [mbind option_bind].
    set (cont := if negb (length rest =? 0)%nat then _ else _).
    assert (exists c2 p2, cont = Some c2 /\ same_output (with_reply c1 (pre ++ p2) (nodes_size (pre ++ p2))) c2 /\
      Forall node_ok (pre ++ p2) /\ Forall filled p2 /\ nodes_bytes p2 = nodes_bytes p ++ s /\ head_used (pre ++ p) <= head_used (pre ++ p2) /\
      nodes_size (pre ++ p2) <= nodes_size (pre ++ p) + block_cost (Z.of_nat (length s))) as (c2 & p2 & -> & Hso & Hn2 & Hf2 & Hb2' & Hhead2 & Hsz2).
    { subst cont. rewrite nodes_size_app in *. pose proof (nodes_size_nonneg pre). pose proof (nodes_size_nonneg p). destruct rest as [|x rest'].
      - cbn [length Nat.eqb negb]. eexists _, p1. split; [done|]. rewrite app_nil_r in Hbytes. rewrite nodes_size_app, Hsize, Hby. unfold block_cost. split_and!; try done; lia.
      - set (rest := x :: rest') in *. change (negb (length rest =? 0)%nat) with true. cbv iota zeta. set (size := if _ <? _ then _ else _).
        assert (Z.of_nat (length rest) <= size /\ size <= Z.of_nat (length s) + PROTO_REPLY_CHUNK_BYTES) as [Hsz1 Hsz2]
          by (subst size; destruct (_ <? _) eqn:?; zlia).
        destruct (new_block_spec size rest Hsz1) as (b & Hb & Hbok & Hbb & Hbs).
        rewrite Hb. cbn [mbind option_bind].
        eexists _, (p1 ++ [Some b]). split; [done|]. rewrite !nodes_size_app, nodes_size_one, Hsize. cbn [node_size].
        assert (0 <= blk_size b) by (unfold blk_size; lia). unfold block_cost. split_and!.
        + rewrite uwrap_small by lia. split; cbn; try done; [by rewrite app_assoc|rewrite Hby; lia].
        + rewrite app_assoc, Forall_app, Forall_singleton. done.
        + rewrite Forall_app, Forall_singleton. split; [done|]. by eexists.
        + rewrite nodes_bytes_app, nodes_bytes_one. cbn [node_bytes]. by rewrite Hbb.
        + etransitivity; [exact Hhead|]. rewrite app_assoc. apply head_used_app. rewrite Forall_app, Forall_singleton. done.
        + lia. }
    cbn [mbind option_bind]. destruct Hso as [S1 S2 S3 S4 S5 S6 S7 S8 S8' S9]. cbn in *.
    pose proof (nodes_size_nonneg (pre ++ p2)). unfold block_cost in *.
    destruct (async_spec c2) as (c3 & -> & [T1 T2 T3 T4 T5 T6 T7 T8 T8' T9]); [by apply S9|lia|].
    exists c3, p2. split; [done|]. split.
    - split; [|congruence|done|done]. split.
      + rewrite T1, T2, S1, S2, E1, E2. done.
      + by rewrite T4, S4.
      + rewrite T5, T4, S4, S5. done.
      + rewrite T4, S4. lia.
      + apply (sent_mono c); [congruence| |done]. unfold head_len. rewrite T2, T4, S2, S4, E2, Hl. destruct (_ >? _); lia.
      + by apply T9, S9.
      + split; [rewrite T7, S7, T8, S8; done|]. intros _. apply T8', S8'. exact Hs1.
    - unfold tail_bytes. rewrite T1, T2, S1, S2, E1, E2, Hb2', app_assoc. done.
    - intros _. rewrite T1, T2, S1, S2, E1, E2. done.
    - congruence.
    - congruence.
    - rewrite T4, S4, Hl. lia. }
  destruct (length (reply c) =? 0)%nat eqn:H0; cbn [negb]; [|by cbn [mbind option_bind]].
  apply Nat.eqb_eq in H0. assert (reply c = []) as Hnil by by destruct (reply c).
  destruct (_ >? _) eqn:Hfit; [by cbn [mbind option_bind]|]. zbool.
  rewrite Hnil in Hl. symmetry in Hl. apply app_eq_nil in Hl as [-> ->].
  rewrite store_Some by lia. cbn [mbind option_bind]. set (b := take _ _ ++ s ++ _).
  assert (length b = length (buf c)) as Hlb by (subst b; rewrite !length_app, length_take, length_drop; lia).
  assert (take (Z.to_nat (bufpos c + Z.of_nat (length s))) b = take (Z.to_nat (bufpos c)) (buf c) ++ s) as Htb.
  { subst b. rewrite app_assoc. apply take_app_length'. rewrite length_app, length_take. lia. }
  exists (with_buf c1 b (bufpos c + Z.of_nat (length s))), []. split; [done|]. rewrite Hnil in *. cbn in Hsent, Htot.
  split; cbn; try done.
  - split; [|done|done|by left]. split; cbn; try done.
    + rewrite Hlb. lia.
    + rewrite E3. done.
    + rewrite E4, E3, Hby. done.
    + rewrite E3. done.
    + apply (sent_mono c (with_buf c1 b (bufpos c + Z.of_nat (length s)))); [done| |done].
      unfold head_len. cbn. rewrite E3, Hnil. repeat case_match; zbool; cbn; lia.
  - unfold tail_bytes. cbn. rewrite Htb. unfold nodes_bytes. cbn. by rewrite !app_nil_r.
  - rewrite E3, Hnil. cbn. unfold block_cost. lia.
Qed.


(** *** Every answer is a sequence of strings *)

Abbreviation addReply := (addReply hard_limit soft_limit soft_seconds unixtime memory_usage junk usable).
Abbreviation with_prefix := (addReplyLongLongWithPrefix hard_limit soft_limit soft_seconds unixtime memory_usage junk usable).

Lemma addReply_int c n : in_s 64 n -> addReply c (OInt n) = addReplyString c (decimal n).
Proof.
  intros Hn. unfold Reply.addReply, Reply.addReplyString. destruct (prepareClientToWrite c) as [c1 ok]. destruct (negb ok); [done|].
  destruct (print_ll junk 32 n Hn ltac:(lia)) as (r & -> & Hr). cbn [mbind option_bind]. by rewrite Hr.
Qed.

Lemma with_prefix_spec c ll prefix : in_s 64 ll ->
  with_prefix c ll prefix = addReplyString c (prefix :: decimal ll ++ CRLF).
Proof.
  intros Hll. unfold addReplyLongLongWithPrefix, shared_mbulkhdr, shared_bulkhdr.
  destruct ((prefix =? 42) && _ && _) eqn:H1.
  { zbool. subst. rewrite (proj2 (Z.leb_le 0 ll)), (proj2 (Z.ltb_lt ll _)) by lia. done. }
  destruct ((prefix =? 36) && _ && _) eqn:H2.
  { zbool. subst. rewrite (proj2 (Z.leb_le 0 ll)), (proj2 (Z.ltb_lt ll _)) by lia. done. }
  pose proof (malloc_length junk 128 ltac:(lia)) as Hl. set (m := malloc junk 128) in *.
  destruct m as [|x m]; [simpl in Hl; lia|]. cbn [length] in Hl. pose proof (decimal_length ll) as Hd.
  rewrite (store_app [] [x] m [prefix]) by done. cbn [mbind option_bind app drop take].
  replace 127 with (Z.of_nat (length m)) by lia. rewrite ll2string_spec by done. rewrite (proj2 (Z.ltb_lt _ _)) by lia.
  cbn [mbind option_bind]. set (d := decimal ll) in *.
  assert (exists y r, drop (S (length d)) m = y :: r) as (y & r & ->).
  { destruct (drop (S (length d)) m) eqn:E; [|by eexists _, _]. apply (f_equal length) in E. rewrite length_drop in E. simpl in E. lia. }
  match goal with |- context [store ?b _ [13]] => replace b with ((prefix :: d) ++ [0] ++ (y :: r)) by done end.
  rewrite store_app; [|simpl; lia|done]. cbn [mbind option_bind].
  rewrite app_assoc. change (y :: r) with ([y] ++ r). rewrite store_app; [|rewrite length_app; simpl; lia|done]. cbn [mbind option_bind].
  rewrite (app_assoc _ [10] r). rewrite <- (app_nil_l ((_ ++ _) ++ r)).
  rewrite (load_app []); [|done|rewrite !length_app; simpl; lia]. cbn [mbind option_bind]. do 2 f_equal.
  cbn. by rewrite <- !app_assoc.
Qed.

Lemma int_digits_spec k : forall n len, 0 <= n < 10 ^ Z.of_nat k -> (0 < k)%nat ->
  int_digits k n len = Some (len + Z.of_nat (length (dec k n)) - 1).
Proof.
  induction k as [|k IH]; intros n len Hn Hk; [lia|]. cbn [int_digits dec]. rewrite Z.quot_div_nonneg by lia.
  destruct (n <? 10) eqn:H10; zbool.
  - rewrite Z.div_small by lia. cbn. f_equal. lia.
  - assert (1 <= n / 10) by (Z.to_euclidean_division_equations; lia). rewrite (proj2 (Z.eqb_neq _ 0)) by lia.
    replace (10 ^ Z.of_nat (S k)) with (10 * 10 ^ Z.of_nat k) in Hn by (rewrite <- Z.pow_succ_r by lia; f_equal; lia).
    assert (n / 10 < 10 ^ Z.of_nat k) by (apply Z.div_lt_upper_bound; lia).
    rewrite IH; [|lia|destruct k; [simpl in *; lia|lia]]. rewrite length_app. cbn [length]. f_equal. lia.
Qed.

Lemma bulk_len_int n : in_s 64 n ->
  (if n <? 0 then int_digits 20 (s64 (- n)) 2 else int_digits 20 n 1) = Some (Z.of_nat (length (decimal n))).
Proof.
  intros Hn. destruct (decide (n = - 2 ^ 63)) as [->|Hmin]; [by vm_compute|].
  assert (2 ^ 63 < 10 ^ Z.of_nat 20) as Hp by (vm_compute; done). unfold in_s in Hn. change (64 - 1) with 63 in Hn.
  unfold decimal. destruct (n <? 0) eqn:H0; zbool.
  - rewrite swrap_small by (unfold in_s; change (64 - 1) with 63; lia). rewrite int_digits_spec by lia. cbn [length]. f_equal. lia.
  - rewrite int_digits_spec by lia. f_equal. lia.
Qed.

(** ** Answers *)

(** What a command answers: the functions it calls.  [Deferred n body] is a
    multi bulk reply whose length [n] is set after its elements were added. *)
#[warnings="-register-all"]
Inductive answer :=
  | Status (s : list byte)
  | Error (s : list byte)
  | Integer (n : Z)
  | Bulk (o : robj)
  | BulkBuffer (s : list byte)
  | BulkSds (s : list byte)
  | BulkString (s : option (list byte))
  | BulkInteger (n : Z)
  | MultiBulkLen (n : Z)
  | Raw (o : robj)
  | Deferred (n : Z) (body : list answer).

Definition robj_bytes (o : robj) : list byte := match o with OSds s => s | OInt n => decimal n end.

Definition bulk_header (n : Z) : list byte := 36 :: decimal n ++ CRLF.
Definition array_header (n : Z) : list byte := 42 :: decimal n ++ CRLF.

(** The strings an answer consists of. *)
Definition strings (a : answer) : list (list byte) :=
  match a with
  | Status s => [bytes_of "+"; s; CRLF]
  | Error s => (if (length s =? 0)%nat || negb (bool_decide (head s = Some 45)) then [bytes_of "-ERR "] else []) ++ [s; CRLF]
  | Integer n => [58 :: decimal n ++ CRLF]
  | Bulk o => [bulk_header (Z.of_nat (length (robj_bytes o))); robj_bytes o; CRLF]
  | BulkBuffer s | BulkSds s | BulkString (Some s) => [bulk_header (Z.of_nat (length s)); s; CRLF]
  | BulkString None => [bulk_header (-1)]
  | BulkInteger n => [bulk_header (Z.of_nat (length (decimal n))); decimal n; CRLF]
  | MultiBulkLen n => [array_header n]
  | Raw o => [robj_bytes o]
  | Deferred _ _ => []
  end.

(** The reply in the protocol. *)
Fixpoint encode (a : answer) : list byte :=
  match a with
  | Deferred n body => array_header n ++ concat (map encode body)
  | _ => concat (strings a)
  end.

(** Its call. *)
Fixpoint say (c : client) (a : answer) : option client :=
  match a with
  | Status s => addReplyStatusLength hard_limit soft_limit soft_seconds unixtime memory_usage junk usable c s
  | Error s => addReplyErrorLength hard_limit soft_limit soft_seconds unixtime memory_usage junk usable c s
  | Integer n => addReplyLongLong hard_limit soft_limit soft_seconds unixtime memory_usage junk usable c n
  | Bulk o => addReplyBulk hard_limit soft_limit soft_seconds unixtime memory_usage junk usable c o
  | BulkBuffer s => addReplyBulkCBuffer hard_limit soft_limit soft_seconds unixtime memory_usage junk usable c s
  | BulkSds s => addReplyBulkSds hard_limit soft_limit soft_seconds unixtime memory_usage junk usable c s
  | BulkString s => addReplyBulkCString hard_limit soft_limit soft_seconds unixtime memory_usage junk usable c s
  | BulkInteger n => addReplyBulkLongLong hard_limit soft_limit soft_seconds unixtime memory_usage junk usable c n
  | MultiBulkLen n => addReplyMultiBulkLen hard_limit soft_limit soft_seconds unixtime memory_usage junk usable c n
  | Raw o => addReply c o
  | Deferred n body =>
      let '(c, node) := addDeferredMultiBulkLength c in
      c ← (fix go c l := match l with [] => Some c | a :: l => c ← say c a; go c l end) c body;
      setDeferredMultiBulkLength hard_limit soft_limit soft_seconds unixtime memory_usage junk usable c node n
  end.

Fixpoint say_all (c : client) (l : list answer) : option client :=
  match l with [] => Some c | a :: l => c ← say c a; say_all c l end.

Lemma say_deferred c n body : say c (Deferred n body) =
  let '(c, node) := addDeferredMultiBulkLength c in
  c ← say_all c body; setDeferredMultiBulkLength hard_limit soft_limit soft_seconds unixtime memory_usage junk usable c node n.
Proof.
  cbn [say]. destruct (addDeferredMultiBulkLength c) as [c1 node]. f_equal.
Qed.

(** Numbers are in the range of their C types. *)
Fixpoint answer_ok (a : answer) : Prop :=
  match a with
  | Integer n | BulkInteger n => in_s 64 n
  | MultiBulkLen n => 0 <= n < 2 ^ 63
  | Bulk (OInt n) | Raw (OInt n) => in_s 64 n
  | Deferred n body => in_s 64 n /\ (fix go l := match l with [] => True | a :: l => answer_ok a /\ go l end) body
  | _ => True
  end.

Definition string_cost (s : list byte) : Z := block_cost (Z.of_nat (length s)).

Fixpoint answer_cost (a : answer) : Z :=
  match a with
  | Deferred n body => string_cost (array_header n) + (fix go l := match l with [] => 0 | a :: l => answer_cost a + go l end) body
  | _ => foldr (fun s k => string_cost s + k) 0 (strings a)
  end.

Definition answers_ok (l : list answer) : Prop := Forall answer_ok l.
Definition answers_cost (l : list answer) : Z := foldr (fun a k => answer_cost a + k) 0 l.

Lemma answer_ok_deferred n body : answer_ok (Deferred n body) <-> in_s 64 n /\ answers_ok body.
Proof.
  cbn [answer_ok]. apply Morphisms_Prop.and_iff_morphism; [done|]. unfold answers_ok.
  induction body as [|a l IH]; [by split|]. rewrite Forall_cons, <- IH. done.
Qed.

Lemma answer_cost_deferred n body : answer_cost (Deferred n body) = string_cost (array_header n) + answers_cost body.
Proof. cbn [answer_cost]. f_equal. Qed.

Lemma string_cost_nonneg s : 0 <= string_cost s.
Proof. unfold string_cost, block_cost. pose proof slack_nonneg. change PROTO_REPLY_CHUNK_BYTES with 16384. lia. Qed.

Fixpoint add_all (c : client) (ss : list (list byte)) : option client :=
  match ss with [] => Some c | s :: ss => c ← addReplyString c s; add_all c ss end.

Lemma addReply_sds c s : addReply c (OSds s) = addReplyString c s.
Proof. done. Qed.

Lemma addReply_obj c o : answer_ok (Raw o) -> addReply c o = addReplyString c (robj_bytes o).
Proof. destruct o; [done|]. apply addReply_int. Qed.

Lemma bulk_header_spec c n : 0 <= n < 2 ^ 63 -> with_prefix c n 36 = addReplyString c (bulk_header n).
Proof. intros. rewrite with_prefix_spec; [done|]. unfold in_s. change (64 - 1) with 63. lia. Qed.

Lemma bulk_len_spec c o : answer_ok (Raw o) -> Z.of_nat (length (robj_bytes o)) < 2 ^ 63 ->
  addReplyBulkLen hard_limit soft_limit soft_seconds unixtime memory_usage junk usable c o =
    addReplyString c (bulk_header (Z.of_nat (length (robj_bytes o)))).
Proof.
  intros Hok Hl. unfold addReplyBulkLen, shared_bulkhdr.
  assert (match o with OSds s => Some (Z.of_nat (length s))
     | OInt n => if n <? 0 then int_digits 20 (s64 (- n)) 2 else int_digits 20 n 1 end = Some (Z.of_nat (length (robj_bytes o)))) as ->
    by (destruct o; [done|by apply bulk_len_int]).
  cbn [mbind option_bind]. destruct (_ <? _) eqn:H32; [|by apply bulk_header_spec; lia]. zbool.
  rewrite (proj2 (Z.leb_le 0 _)) by lia. done.
Qed.

(** Follow the calls of [addReplyString] on both sides. *)
Ltac same_calls :=
  repeat match goal with
  | |- context [Reply.addReplyString _ _ _ _ _ _ _ ?c ?s ≫= _] =>
      destruct (addReplyString c s) as [?|]; cbn [mbind option_bind]; [|done]; unfold shared_crlf; rewrite ?addReply_sds
  end; done.

Lemma say_simple c a : answer_ok a -> answer_cost a < 2 ^ 63 ->
  (forall n body, a <> Deferred n body) -> say c a = add_all c (strings a).
Proof.
  assert (forall s k, string_cost s + k < 2 ^ 63 -> 0 <= k -> Z.of_nat (length s) < 2 ^ 63) as Hlen.
  { intros s k. unfold string_cost, block_cost. pose proof slack_nonneg. change PROTO_REPLY_CHUNK_BYTES with 16384. lia. }
  assert (forall x s y, string_cost x + (string_cost s + (string_cost y + 0)) < 2 ^ 63 -> Z.of_nat (length s) < 2 ^ 63) as Hmid.
  { intros x s y Hx. pose proof (string_cost_nonneg x). pose proof (string_cost_nonneg y). apply (Hlen s 0); lia. }
  intros Hok Hcost Hnd. destruct a as [s|s|n|o|s|s|s|n|n|o|n body]; [..|by destruct (Hnd n body)]; cbn [say].
  - unfold addReplyStatusLength, strings. cbn [add_all]. same_calls.
  - unfold addReplyErrorLength, strings. destruct (_ || _); cbn [add_all app mbind option_bind]; same_calls.
  - unfold addReplyLongLong, strings. cbn [add_all].
    assert (forall x, addReplyString c x = (c ← addReplyString c x; Some c)) as Hid by (intros x; same_calls).
    destruct (n =? 0) eqn:H0; [zbool; subst; apply Hid|]. destruct (n =? 1) eqn:H1; [zbool; subst; apply Hid|].
    rewrite with_prefix_spec by done. apply Hid.
  - unfold addReplyBulk, strings. cbn [add_all]. rewrite bulk_len_spec; [|by destruct o|].
    + destruct (addReplyString c _) as [c1|]; [|done]. cbn [mbind option_bind]. rewrite addReply_obj by by destruct o.
      same_calls.
    + eapply Hmid. exact Hcost.
  - unfold addReplyBulkCBuffer, strings. cbn [add_all]. rewrite bulk_header_spec; [same_calls|].
    split; [lia|]. eapply Hmid. exact Hcost.
  - unfold addReplyBulkSds, strings. cbn [add_all].
    change (addReplySds hard_limit soft_limit soft_seconds unixtime memory_usage junk usable) with addReplyString. rewrite bulk_header_spec; [same_calls|].
    split; [lia|]. eapply Hmid. exact Hcost.
  - destruct s as [s|]; cbn [addReplyBulkCString strings add_all];
      [|unfold shared_nullbulk, bulk_header; rewrite addReply_sds; same_calls].
    unfold addReplyBulkCBuffer. rewrite bulk_header_spec; [same_calls|]. split; [lia|]. eapply Hmid. exact Hcost.
  - unfold addReplyBulkLongLong, strings. destruct (print_ll junk 64 n Hok ltac:(lia)) as (r & -> & Hr). cbn [mbind option_bind].
    rewrite Hr. cbn [mbind option_bind add_all]. unfold addReplyBulkCBuffer.
    rewrite bulk_header_spec; [same_calls|]. pose proof (decimal_length n). lia.
  - unfold addReplyMultiBulkLen, strings, shared_mbulkhdr. cbn [add_all]. cbn in Hok.
    destruct (n <? _) eqn:H32.
    + rewrite (proj2 (Z.leb_le 0 n)) by lia. cbn [andb mbind option_bind]. rewrite addReply_sds. unfold array_header. same_calls.
    + rewrite with_prefix_spec; [unfold array_header; same_calls|]. unfold in_s. change (64 - 1) with 63. lia.
  - cbn [strings add_all]. rewrite addReply_obj by done. same_calls.
Qed.

Lemma strings_cost_nonneg ss : 0 <= foldr (fun s k => string_cost s + k) 0 ss.
Proof. induction ss as [|x l IH]; cbn; [lia|]. pose proof (string_cost_nonneg x). lia. Qed.

Lemma add_all_spec ss : forall c pre p, shape c pre p ->
  nodes_size (reply c) + foldr (fun s k => string_cost s + k) 0 ss < 2 ^ 63 ->
  exists c' p', add_all c ss = Some c' /\ added c c' pre p p' (concat ss) (foldr (fun s k => string_cost s + k) 0 ss).
Proof.
  induction ss as [|s ss IH]; intros c pre p Hsh Hcost; cbn [add_all foldr concat].
  { exists c, p. split; [done|]. split; try done; [by rewrite app_nil_r|lia]. }
  cbn [foldr] in Hcost.
  pose proof (strings_cost_nonneg ss).
  destruct (add_spec c pre p s Hsh) as (c1 & p1 & -> & Ha1); [fold (string_cost s); lia|]. fold (string_cost s) in Ha1. cbn [mbind option_bind].
  destruct (IH c1 pre p1) as (c2 & p2 & -> & Ha2); [apply Ha1|pose proof (ad_size _ _ _ _ _ _ _ Ha1); lia|].
  exists c2, p2. split; [done|]. by eapply added_trans.
Qed.

(** *** Lengths that are filled in later *)

Lemma glue_spec next l : blk_ok next -> blk_size next < 2 ^ 63 -> can_glue next (Z.of_nat (length l)) = true ->
  exists b, glue next l = Some b /\ blk_ok b /\ blk_size b = blk_size next /\ blk_bytes b = l ++ blk_bytes next.
Proof.
  unfold can_glue, glue, blk_ok, blk_size, blk_bytes. intros Hok Hsz Hg. destruct next as [u m]. cbn [blk_used blk_buf] in *.
  rewrite uwrap_small in Hg by lia. zbool. unfold memmove. rewrite load_Some by lia. cbn [mbind option_bind].
  rewrite drop_0. set (x := take (Z.to_nat u) m). assert (Z.of_nat (length x) = u) as Hx by (subst x; rewrite length_take; lia).
  rewrite store_Some by lia. cbn [mbind option_bind]. rewrite <- (app_nil_l (take _ m ++ _)).
  rewrite store_app; [|done|rewrite length_take; lia]. cbn [mbind option_bind app]. eexists. split; [done|]. cbn [blk_used blk_buf].
  rewrite !length_app, length_drop. split_and!; [lia|lia|lia|].
  rewrite app_assoc. apply take_app_length'. rewrite length_app. lia.
Qed.

(** [p'] is [p] with the length in front, after [q]. *)
Record fills (q p : list (option clientReplyBlock)) (lenstr : list byte) (p' : list (option clientReplyBlock)) : Prop := {
  fl_ok : Forall node_ok (q ++ p');
  fl_filled : Forall filled p';
  fl_some : p' <> [];
  fl_bytes : nodes_bytes p' = lenstr ++ nodes_bytes p;
  fl_size : nodes_size (q ++ p') <= nodes_size (q ++ p) + string_cost lenstr
}.

Lemma fill_new c q p l : Forall node_ok (q ++ p) -> Forall filled p -> reply_bytes c = nodes_size (q ++ p) ->
  nodes_size (q ++ p) + string_cost l < 2 ^ 63 ->
  exists p', (b ← new_block junk usable (Z.of_nat (length l)) l;
      Some (with_reply c (<[length q := Some b]> (q ++ None :: p)) (u64 (reply_bytes c + blk_size b)))) =
    Some (with_reply c (q ++ p') (nodes_size (q ++ p'))) /\ fills q p l p'.
Proof.
  intros Hn Hf Hby Hcost. assert (PROTO_REPLY_CHUNK_BYTES = 16384) as Hc by done. unfold string_cost, block_cost in Hcost.
  destruct (new_block_spec (Z.of_nat (length l)) l) as (b & -> & Hbok & Hbb & Hbs); [lia|]. cbn [mbind option_bind].
  pose proof (nodes_size_nonneg (q ++ p)). assert (0 <= blk_size b) by (unfold blk_size; lia). exists (Some b :: p).
  rewrite !nodes_size_app in *. rewrite nodes_size_cons. cbn [node_size]. rewrite uwrap_small by lia. split.
  - rewrite insert_app_r_alt, Nat.sub_diag by done. do 2 f_equal. lia.
  - apply Forall_app in Hn as [Hq Hp]. split.
    + rewrite Forall_app, Forall_cons. done.
    + constructor; [by eexists|done].
    + done.
    + change (Some b :: p) with ([Some b] ++ p). rewrite nodes_bytes_app, nodes_bytes_one. cbn [node_bytes]. by rewrite Hbb.
    + rewrite !nodes_size_app, nodes_size_cons. cbn [node_size]. unfold string_cost, block_cost. lia.
Qed.

Lemma fill_glue c q next p l : Forall node_ok (q ++ Some next :: p) -> Forall filled p -> reply_bytes c = nodes_size (q ++ Some next :: p) ->
  nodes_size (q ++ Some next :: p) < 2 ^ 63 -> can_glue next (Z.of_nat (length l)) = true ->
  exists p', (g ← glue next l;
      Some (with_reply c (delete (length q) (<[S (length q) := Some g]> (q ++ None :: Some next :: p))) (reply_bytes c))) =
    Some (with_reply c (q ++ p') (nodes_size (q ++ p'))) /\ fills q (Some next :: p) l p'.
Proof.
  intros [Hq Hp]%Forall_app Hf Hby Hsz Hg. inversion_clear Hp as [|? ? Hok Hp']. cbn in Hok.
  rewrite nodes_size_app, nodes_size_cons in *. cbn [node_size] in *. pose proof (nodes_size_nonneg p). pose proof (nodes_size_nonneg q).
  destruct (glue_spec next l Hok) as (g & -> & Hgok & Hgs & Hgb); [lia|done|]. cbn [mbind option_bind].
  exists (Some g :: p). split.
  - rewrite insert_app_r_alt by lia. replace (S (length q) - length q)%nat with 1%nat by lia.
    change (<[1%nat := Some g]> (None :: Some next :: p)) with (None :: Some g :: p).
    rewrite (delete_middle q (Some g :: p) None).
    rewrite nodes_size_app, nodes_size_cons. cbn [node_size]. do 2 f_equal. lia.
  - split.
    + rewrite Forall_app, Forall_cons. done.
    + constructor; [by eexists|done].
    + done.
    + change (Some g :: p) with ([Some g] ++ p). change (Some next :: p) with ([Some next] ++ p).
      rewrite !nodes_bytes_app, !nodes_bytes_one. cbn [node_bytes]. by rewrite Hgb, app_assoc.
    + rewrite !nodes_size_app, !nodes_size_cons. cbn [node_size]. pose proof (string_cost_nonneg l). lia.
Qed.

(** The empty node after [q] is replaced by the length. *)
Lemma fill_node c q p n : out_ok c -> reply c = q ++ None :: p -> Forall filled p ->
  nodes_size (reply c) + string_cost (array_header n) < 2 ^ 63 ->
  exists c' p', setDeferredMultiBulkLength hard_limit soft_limit soft_seconds unixtime memory_usage junk usable c (Some (length q)) n = Some c' /\
    same_output (with_reply c (q ++ p') (nodes_size (q ++ p'))) c' /\ fills q p (array_header n) p'.
Proof.
  intros [_ Hn Hby Htot _ Ha _] Hl Hf Hcost. rewrite Hl in *.
  assert (nodes_size (q ++ None :: p) = nodes_size (q ++ p)) as Hnone by (rewrite !nodes_size_app; done). rewrite Hnone in *.
  assert (Forall node_ok (q ++ p)) as Hn'. { rewrite Forall_app, Forall_cons in Hn. rewrite Forall_app. tauto. }
  pose proof (fill_new c q p (array_header n) Hn' Hf Hby Hcost) as Hnew. pose proof (string_cost_nonneg (array_header n)).
  unfold setDeferredMultiBulkLength. rewrite Hl, list_lookup_middle by done. fold (array_header n). cbv zeta.
  rewrite (lookup_app_r q _ (S (length q))) by lia. replace (S (length q) - length q)%nat with 1%nat by lia. cbn [lookup list_lookup].
  assert (forall o, (exists p', o = Some (with_reply c (q ++ p') (nodes_size (q ++ p'))) /\ fills q p (array_header n) p') ->
    exists c' p', (c ← o; async_close c) = Some c' /\ same_output (with_reply c (q ++ p') (nodes_size (q ++ p'))) c' /\
      fills q p (array_header n) p') as Hend.
  { intros ? (p' & -> & Hfl). cbn [mbind option_bind]. pose proof (nodes_size_nonneg (q ++ p')). pose proof (fl_size _ _ _ _ Hfl).
    destruct (async_spec (with_reply c (q ++ p') (nodes_size (q ++ p')))) as (c' & -> & Hso); [exact Ha|cbn; lia|]. by exists c', p'. }
  apply Hend. destruct p as [|[next|] p]; [exact Hnew| |exact Hnew]. cbn [lookup list_lookup]. destruct (can_glue next (Z.of_nat (length (array_header n)))) eqn:Hg; [|exact Hnew].
  inversion_clear Hf. apply fill_glue; done || lia.
Qed.

Lemma deferred_shape c pre p : shape c pre p -> exists c', addDeferredMultiBulkLength c = (c', Some (length (reply c))) /\
  shape c' (pre ++ p ++ [None]) [] /\ buf c' = buf c /\ bufpos c' = bufpos c /\ sentlen c' = sentlen c /\ handler c' = handler c /\
  nodes_size (reply c') = nodes_size (reply c).
Proof.
  intros [Hok Hl Hf Hpre]. unfold addDeferredMultiBulkLength.
  destruct (prepare_spec c Hok) as (c1 & -> & E1 & E2 & E3 & E4 & E5 & E6 & E7 & Ha1 & Hl1 & Hs1). cbn [negb].
  assert (nodes_size (reply c ++ [None]) = nodes_size (reply c)) as Hsz by (rewrite nodes_size_app, nodes_size_one; cbn; lia).
  eexists. rewrite E3. split; [done|]. cbn. split_and!; try done. destruct Hok as [Hb Hn Hby Htot Hsent Ha Hsch].
  assert (Forall node_ok (reply c ++ [None])) as Hn' by (rewrite Forall_app, Forall_singleton; done).
  split; [|by cbn; rewrite app_nil_r, Hl, app_assoc|done|right; by rewrite app_assoc, last_snoc].
  split; cbn; try done.
  - by rewrite E1, E2.
  - by rewrite Hsz, E4.
  - by rewrite Hsz.
  - apply (sent_mono c (with_reply c1 (reply c ++ [None]) (reply_bytes c1))); [done| |done]. unfold head_len. cbn. rewrite E2.
    pose proof (head_used_app _ _ Hn'). destruct (_ >? _); lia.
Qed.

(** *** Every answer *)

Lemma answer_rect_nested (P : answer -> Prop) :
  (forall a, (forall n body, a <> Deferred n body) -> P a) ->
  (forall n body, Forall P body -> P (Deferred n body)) -> forall a, P a.
Proof.
  intros Hs Hd. fix IH 1. intros a. destruct a as [| | | | | | | | | |n body]; try (apply Hs; discriminate).
  apply Hd. induction body as [|a l IHl]; constructor; [apply IH|exact IHl].
Qed.

Lemma answer_cost_nonneg a : 0 <= answer_cost a.
Proof.
  induction a as [a Hs|n body IH] using answer_rect_nested.
  - destruct a; try apply (strings_cost_nonneg (strings _)). by destruct (Hs n body).
  - rewrite answer_cost_deferred. pose proof (string_cost_nonneg (array_header n)).
    assert (0 <= answers_cost body) by (unfold answers_cost; induction IH; cbn; lia). lia.
Qed.

Lemma answers_cost_nonneg l : 0 <= answers_cost l.
Proof. unfold answers_cost. induction l as [|a l IH]; cbn; [lia|]. pose proof (answer_cost_nonneg a). lia. Qed.

(** [say] adds the reply of the protocol to the output. *)
Definition says (a : answer) : Prop := forall c pre p, answer_ok a -> shape c pre p -> nodes_size (reply c) + answer_cost a < 2 ^ 63 ->
  exists c' p', say c a = Some c' /\ added c c' pre p p' (encode a) (answer_cost a).

Lemma say_all_spec l : Forall says l -> forall c pre p, answers_ok l -> shape c pre p -> nodes_size (reply c) + answers_cost l < 2 ^ 63 ->
  exists c' p', say_all c l = Some c' /\ added c c' pre p p' (concat (map encode l)) (answers_cost l).
Proof.
  induction 1 as [|a l Ha _ IH]; intros c pre p Hok Hsh Hcost; cbn [say_all map concat].
  { exists c, p. split; [done|]. split; try done; [by rewrite app_nil_r|]. unfold answers_cost. cbn. lia. }
  inversion_clear Hok as [|? ? Hok1 Hok2]. unfold answers_cost in Hcost. cbn [foldr] in Hcost. fold (answers_cost l) in Hcost.
  pose proof (answers_cost_nonneg l).
  destruct (Ha c pre p Hok1 Hsh) as (c1 & p1 & -> & Ha1); [lia|]. cbn [mbind option_bind].
  destruct (IH c1 pre p1 Hok2) as (c2 & p2 & -> & Ha2); [apply Ha1|pose proof (ad_size _ _ _ _ _ _ _ Ha1); lia|].
  exists c2, p2. split; [done|]. by eapply added_trans.
Qed.

Lemma say_spec a : says a.
Proof.
  induction a as [a Hs|n body IH] using answer_rect_nested; intros c pre p Hok Hsh Hcost.
  - pose proof (nodes_size_nonneg (reply c)). rewrite say_simple by (done || lia).
    assert (encode a = concat (strings a) /\ answer_cost a = foldr (fun s k => string_cost s + k) 0 (strings a)) as [-> Hk]
      by (destruct a; done || by destruct (Hs n body)).
    rewrite Hk in *. by apply add_all_spec.
  - apply answer_ok_deferred in Hok as [Hn Hbody]. rewrite answer_cost_deferred in *. rewrite say_deferred.
    destruct (deferred_shape c pre p Hsh) as (c1 & -> & Hsh1 & E1 & E2 & E3 & E4 & E5).
    pose proof (string_cost_nonneg (array_header n)).
    destruct (say_all_spec body IH c1 _ _ Hbody Hsh1) as (c2 & p2 & -> & [[Hok2 Hl2 Hf2 _] Ht2 Hb2 Hs2 Hh2 Hz2]); [lia|]. cbn [mbind option_bind].
    destruct Hb2 as [Hb2 Hpos2]; [by destruct pre, p|]. destruct Hsh as [Hok Hl Hf Hpre].
    assert (reply c2 = (pre ++ p) ++ None :: p2) as Hl2' by (rewrite Hl2, <- !app_assoc; done). rewrite Hl.
    destruct (fill_node c2 (pre ++ p) p2 n Hok2 Hl2' Hf2) as (c3 & p3 & -> & [S1 S2 S3 S4 S5 S6 S7 S8 S8' S9] & [F1 F2 F3 F4 F5]); [lia|]. cbn in *.
    assert (nodes_size ((pre ++ p) ++ None :: p2) = nodes_size ((pre ++ p) ++ p2)) as Hnone by (rewrite !nodes_size_app; done).
    exists c3, (p ++ p3). split; [done|]. split.
    + split; [|by rewrite S4, app_assoc|by rewrite Forall_app|done]. destruct Hok2 as [O1 O2 O3 O4 O5 O6 O7]. split.
      * by rewrite S1, S2.
      * by rewrite S4.
      * by rewrite S5, S4.
      * rewrite S4. rewrite Hl2', Hnone in *. lia.
      * apply (sent_mono c2); [done| |done]. unfold head_len. rewrite S2, S4, Hl2'. pose proof (head_used_app _ _ F1).
        destruct (_ >? _); [done|]. destruct (pre ++ p); [by apply head_used_nonneg|by cbn].
      * by apply S9.
      * destruct O7 as [Hli Hsc]. split; [by rewrite S7, S8|]. intros _. apply S8', Hsc.
        unfold clientHasPendingReplies. rewrite Hl2'. destruct (pre ++ p); cbn; by rewrite orb_true_r.
    + assert (nodes_bytes p2 = concat (map encode body)) as Hbody2.
      { unfold tail_bytes in Ht2. destruct (pre ++ p ++ [None]) eqn:Hq; [by destruct pre, p|]. exact Ht2. }
      unfold tail_bytes. rewrite S1, S2, Hb2, Hpos2, E1, E2, !nodes_bytes_app, F4, Hbody2. by rewrite !app_assoc.
    + intros _. rewrite S1, S2, Hb2, Hpos2. done.
    + by rewrite S3, Hs2.
    + by rewrite S6, Hh2.
    + rewrite S4. rewrite Hl2', Hnone in Hz2. lia.
Qed.

(** ** A session *)

(** What happens to a client: a command answers, the event loop is about to sleep,
    its socket is writable, or clients that were marked are freed. *)
#[warnings="-register-all"]
Inductive action :=
  | Say (a : answer)
  | BeforeSleep (may_pause event_ok : bool) (ws : list wres)
  | Writable (may_pause : bool) (ws : list wres)
  | FreeAsync.

Definition act (c : client) (x : action) : option (option client * list byte) :=
  match x with
  | Say a => c ← say c a; Some (Some c, [])
  | BeforeSleep may_pause event_ok ws =>
      if listed c then handle_pending_write may_pause event_ok c ws else Some (Some c, [])
  | Writable may_pause ws => if handler c then sendReplyToClient may_pause c ws else Some (Some c, [])
  | FreeAsync => Some (if on c CLIENT_CLOSE_ASAP then None else Some c, [])
  end.

Fixpoint session (c : client) (l : list action) : option (option client * list byte) :=
  match l with
  | [] => Some (Some c, [])
  | x :: l =>
      r ← act c x;
      match r with
      | (None, sent) => Some (None, sent)
      | (Some c, sent) => r ← session c l; Some (r.1, sent ++ r.2)
      end
  end.

(** The replies of the session, as the protocol writes them. *)
Definition said (x : action) : list byte := match x with Say a => encode a | _ => [] end.
Definition action_ok (x : action) : Prop := match x with Say a => answer_ok a | _ => True end.
Definition action_cost (x : action) : Z := match x with Say a => answer_cost a | _ => 0 end.
Definition session_cost (l : list action) : Z := foldr (fun x k => action_cost x + k) 0 l.

Lemma action_cost_nonneg x : 0 <= action_cost x.
Proof. destruct x; cbn; try lia. apply answer_cost_nonneg. Qed.

Lemma session_cost_nonneg l : 0 <= session_cost l.
Proof. unfold session_cost. induction l as [|x l IH]; cbn; [lia|]. pose proof (action_cost_nonneg x). lia. Qed.

Lemma live_shape c : live c -> shape c [] (reply c).
Proof. intros [? ?]. split; try done. by left. Qed.

Lemma act_spec c x : live c -> action_ok x -> nodes_size (reply c) + action_cost x < 2 ^ 63 -> exists oc sent, act c x = Some (oc, sent) /\
  match oc with
  | Some c' => live c' /\ pending c ++ said x = sent ++ pending c' /\ nodes_size (reply c') <= nodes_size (reply c) + action_cost x
  | None => sent `prefix_of` pending c
  end.
Proof.
  intros Hl Hok Hcost. destruct x as [a|mp ev ws|mp ws|]; cbn [act said action_cost] in *; rewrite ?app_nil_r, ?Z.add_0_r in *.
  - destruct (say_spec a c [] (reply c) Hok (live_shape c Hl) Hcost) as (c' & p' & -> & Ha). cbn [mbind option_bind].
    eexists (Some c'), []. split; [done|]. cbn [app]. rewrite (pending_added _ _ _ _ _ _ _ (live_shape c Hl) Ha).
    destruct Ha as [[Hsh1 Hsh2 Hsh3 _] _ _ _ _ Hsz]. split_and!; try done. split; [done|]. by rewrite Hsh2.
  - destruct (listed c); [|by exists (Some c), []].
    destruct (handle_pending_spec mp ev c ws Hl) as (oc & sent & -> & Hoc). exists oc, sent. split; [done|].
    destruct oc; [|apply Hoc]. destruct Hoc as (? & ? & ? & _). done.
  - destruct (handler c); [|by exists (Some c), []].
    destruct (send_reply_spec mp c ws Hl) as (oc & sent & -> & Hoc). exists oc, sent. split; [done|]. destruct oc; apply Hoc.
  - eexists _, []. split; [done|]. destruct (on c _); [apply prefix_nil|done].
Qed.

Lemma session_spec l : forall c, live c -> Forall action_ok l -> nodes_size (reply c) + session_cost l < 2 ^ 63 ->
  exists oc sent, session c l = Some (oc, sent) /\
  match oc with
  | Some c' => live c' /\ pending c ++ concat (map said l) = sent ++ pending c'
  | None => sent `prefix_of` pending c ++ concat (map said l)
  end.
Proof.
  induction l as [|x l IH]; intros c Hl Hok Hcost; cbn [session map concat].
  { exists (Some c), []. split; [done|]. by rewrite app_nil_r. }
  apply Forall_cons in Hok as [Hx Hok]. unfold session_cost in Hcost. cbn [foldr] in Hcost. fold (session_cost l) in Hcost.
  pose proof (session_cost_nonneg l). destruct (act_spec c x Hl Hx) as (oc & sent & -> & Hoc); [lia|]. cbn [mbind option_bind].
  destruct oc as [c1|]; [|exists None, sent; split; [done|]; by apply prefix_app_r].
  destruct Hoc as (Hl1 & Hp1 & Hz1). destruct (IH c1 Hl1 Hok) as (oc & rest & -> & Hoc); [lia|]. cbn [mbind option_bind fst snd].
  exists oc, (sent ++ rest). split; [done|]. rewrite app_assoc, Hp1, <- app_assoc. destruct oc as [c'|].
  - destruct Hoc as [? ->]. by rewrite app_assoc.
  - by apply prefix_app.
Qed.

(** ** Properties *)

(** C8: whatever a command answers, through any of the reply functions and with
    lengths that are set before or after the elements, nested too, and however the
    socket takes the output, in pieces, full for a while, or broken: the bytes
    handed to the socket followed by those still pending are the replies of the
    protocol in the order of the commands.  No access leaves a buffer, no
    assertion fails, the loop that writes ends, and what is pending stays
    scheduled; when the connection is given up, a prefix of the replies was sent. *)
Theorem replies_delivered l c : live c -> Forall action_ok l -> nodes_size (reply c) + session_cost l < 2 ^ 63 ->
  exists oc sent, session c l = Some (oc, sent) /\
  match oc with
  | Some c' => live c' /\ pending c ++ concat (map said l) = sent ++ pending c'
  | None => sent `prefix_of` pending c ++ concat (map said l)
  end.
Proof. apply session_spec. Qed.

End adding.

(** When the event loop handles a client that waits in the list and the
    socket takes at least a byte at each call, everything that was pending is sent
    in this round, and nothing remains. *)
Theorem pending_flushed c ws event_ok : live c -> forallb takes ws = true -> (length (pending c) <= length ws)%nat ->
  exists c', handle_pending_write false event_ok c ws = Some (Some c', pending c) /\ live c' /\ clientHasPendingReplies c' = false.
Proof.
  intros Hl Htk Hlen. destruct (handle_pending_spec false event_ok c ws Hl) as (oc & sent & -> & Hoc). destruct oc as [c'|].
  - destruct Hoc as (Hl' & Hp & _ & Hall). specialize (Hall eq_refl Htk Hlen). exists c'. split; [|done].
    destruct (core_idle c' (live_core c' Hl') Hall) as [_ H0]. by rewrite Hp, H0, app_nil_r.
  - destruct Hoc as [_ Hf]. rewrite forallb_forall in Htk. apply list_elem_of_In in Hf. by specialize (Htk _ Hf).
Qed.


(** ** Examples *)

(** A client after [createClient]. *)
Definition fresh : client := mkClient 0 5 (replicate (Z.to_nat PROTO_REPLY_CHUNK_BYTES) 0) 0 0 [] 0 0 true false false.

Lemma fresh_live : live fresh.
Proof.
  split; [|done]. split; [vm_compute; intuition discriminate|done|done|done|by left| |done].
  split; [done|]. split; [done|]. repeat constructor.
Qed.

Definition example_session : list action :=
  [Say (Deferred 2 [Integer 5; Deferred 1 [Bulk (OInt 12)]]); BeforeSleep false true [Wrote 3; Again];
   Say (Status (bytes_of "OK")); Writable false [Wrote 9; Wrote 1000; Wrote 1000; Wrote 1000]].

Abbreviation run_session := (session 0 0 0 0 (fun _ => 0) (fun _ => 0) (fun n => n)).

Example example_output : exists c,
  run_session fresh example_session = Some (Some c, bytes_of "*2" ++ CRLF ++ bytes_of ":5" ++ CRLF ++ bytes_of "*1" ++ CRLF ++
    bytes_of "$2" ++ CRLF ++ bytes_of "12" ++ CRLF ++ bytes_of "+OK" ++ CRLF) /\ clientHasPendingReplies c = false.
Proof. eexists. split; vm_compute; reflexivity. Qed.

Lemma replies_delivered_witness : exists oc sent, run_session fresh example_session = Some (oc, sent) /\
  match oc with
  | Some c' => live c' /\ pending fresh ++ concat (map said example_session) = sent ++ pending c'
  | None => sent `prefix_of` pending fresh ++ concat (map said example_session)
  end.
Proof.
  apply (replies_delivered 0 0 0 0 (fun _ => 0) (fun _ => 0) (fun n => n) 0); [intros; lia|apply fresh_live| |].
  - repeat constructor; vm_compute; intuition discriminate.
  - vm_compute. reflexivity.
Defined.

(** A client with a reply, waiting in the list. *)
Definition answered : client :=
  match run_session fresh [Say (Integer 5)] with Some (Some c, _) => c | _ => fresh end.

Lemma answered_live : live answered.
Proof.
  destruct (session_spec 0 0 0 0 (fun _ => 0) (fun _ => 0) (fun n => n) 0 ltac:(cbn; intros; lia) [Say (Integer 5)] fresh fresh_live) as (oc & sent & H & Hoc).
  - repeat constructor; vm_compute; intuition discriminate.
  - vm_compute. reflexivity.
  - unfold answered. rewrite H. destruct oc; [apply Hoc|apply fresh_live].
Qed.

Lemma pending_flushed_witness : exists c', handle_pending_write false true answered (replicate 5 (Wrote 1)) = Some (Some c', pending answered) /\
  live c' /\ clientHasPendingReplies c' = false.
Proof. apply (pending_flushed answered (replicate 5 (Wrote 1)) true); [apply answered_live|reflexivity|apply Nat.leb_le; vm_compute; reflexivity]. Defined.
