(* ===== verification/Rdb.v ===== *)
(** * Strings in dumps (src/redis-5.0.7/src/rdb.c, rdb.h, rio.h, rio.c)

    The stream object [rio] with its checksum and chunked transfers, over a
    backend given by a type class, and the part of the dump format all values are
    made of: types, times, lengths, integers, strings, compressed strings.  A
    function is a computation over the stream: it returns, fails (the value -1 or
    NULL), exits (the dump is corrupt) or is undefined (it leaves a block of
    memory).  [rdb] is NULL when only the size is asked for.  An sds is
    represented by its contents; strings, the compression and the checksum come
    from the other files. *)

From S2P Require Import Prelude Endian Crc Util Lzf.
From stdpp Require Import strings.

Local Open Scope Z_scope.

(** ** Results and the monad *)

#[warnings="-register-all"]
Inductive res (A : Type) := Ret (a : A) | Fail | Exit | Undef.
Arguments Ret {_} _.
Arguments Fail {_}.
Arguments Exit {_}.
Arguments Undef {_}.

Definition M (S A : Type) : Type := S -> res A * S.

Definition ret {S A} (a : A) : M S A := fun s => (Ret a, s).
Definition stop {S A} (r : res A) : M S A := fun s => (r, s).

Definition bind {S A B} (m : M S A) (k : A -> M S B) : M S B := fun s =>
  match m s with
  | (Ret a, s) => k a s
  | (Fail, s) => (Fail, s)
  | (Exit, s) => (Exit, s)
  | (Undef, s) => (Undef, s)
  end.

(** An access that may leave its block. *)
Definition access {S A} (o : option A) : M S A := match o with Some a => ret a | None => stop Undef end.

Declare Scope rdb_scope.
Notation "'let*' x := m 'in' k" := (bind m (fun x => k)) (at level 10, x name, m at level 100, k at level 200) : rdb_scope.
Local Open Scope rdb_scope.

(** ** Streams *)

(** The backend functions: 0 is [None]. *)
Class Backend (io : Type) := {
  b_read : io -> Z -> option (list byte * io);
  b_write : io -> list byte -> option io
}.

Record rio (io : Type) := mkRio {
  r_io : io;
  update_cksum : bool;
  cksum : Z;
  processed_bytes : Z;
  max_processing_chunk : Z
}.
Arguments mkRio {_}.
Arguments r_io {_}.
Arguments update_cksum {_}.
Arguments cksum {_}.
Arguments processed_bytes {_}.
Arguments max_processing_chunk {_}.

Section streams.
Context {io : Type} `{!Backend io}.

(** [rioGenericUpdateChecksum] and the bookkeeping of a chunk. *)
Definition chunk_done (r : rio io) (i : io) (bs : list byte) : rio io :=
  mkRio i (update_cksum r) (if update_cksum r then crc64 (cksum r) bs else cksum r)
    (u64 (processed_bytes r + Z.of_nat (length bs))) (max_processing_chunk r).

Definition chunk_size (r : rio io) (len : Z) : Z :=
  if negb (max_processing_chunk r =? 0) && (max_processing_chunk r <? len) then max_processing_chunk r else len.

(** The checksum is updated before the backend writes. *)
Fixpoint rioWrite_loop (fuel : nat) (buf : list byte) : M (rio io) unit := fun r =>
  match buf, fuel with
  | [], _ => (Ret tt, r)
  | _, O => (Undef, r)
  | _, S fuel =>
      let n := Z.to_nat (chunk_size r (Z.of_nat (length buf))) in
      let r1 := chunk_done r (r_io r) (take n buf) in
      match b_write (r_io r) (take n buf) with
      | None => (Fail, mkRio (r_io r) (update_cksum r) (cksum r1) (processed_bytes r) (max_processing_chunk r))
      | Some i => rioWrite_loop fuel (drop n buf) (chunk_done r i (take n buf))
      end
  end.

Definition rioWrite (buf : list byte) : M (rio io) unit := rioWrite_loop (length buf) buf.

Fixpoint rioRead_loop (fuel : nat) (len : Z) : M (rio io) (list byte) := fun r =>
  if len =? 0 then (Ret [], r)
  else
    match fuel with
    | O => (Undef, r)
    | S fuel =>
        let n := chunk_size r len in
        match b_read (r_io r) n with
        | None => (Fail, r)
        | Some (bs, i) => (let* rest := rioRead_loop fuel (len - n) in ret (bs ++ rest)) (chunk_done r i bs)
        end
    end.

Definition rioRead (len : Z) : M (rio io) (list byte) := rioRead_loop (Z.to_nat len) len.
End streams.

(** The in-memory backend. *)
Record buffer := mkBuffer { b_ptr : list byte; b_pos : Z }.

Definition rioBufferWrite (b : buffer) (bs : list byte) : option buffer :=
  Some (mkBuffer (b_ptr b ++ bs) (b_pos b + Z.of_nat (length bs))).

Definition rioBufferRead (b : buffer) (len : Z) : option (list byte * buffer) :=
  if u64 (Z.of_nat (length (b_ptr b)) - b_pos b) <? len then None
  else bs ← load (b_ptr b) (b_pos b) len; Some (bs, mkBuffer (b_ptr b) (b_pos b + len)).

#[export] Instance buffer_backend : Backend buffer := {| b_read := rioBufferRead; b_write := rioBufferWrite |}.

Definition rioInitWithBuffer (s : list byte) : rio buffer := mkRio (mkBuffer s 0) false 0 0 0.

(** ** The format *)

Definition RDB_6BITLEN : Z := 0.
Definition RDB_14BITLEN : Z := 1.
Definition RDB_32BITLEN : Z := 0x80.
Definition RDB_64BITLEN : Z := 0x81.
Definition RDB_ENCVAL : Z := 3.
Definition RDB_LENERR : Z := ULLONG_MAX.
Definition RDB_ENC_INT8 : Z := 0.
Definition RDB_ENC_INT16 : Z := 1.
Definition RDB_ENC_INT32 : Z := 2.
Definition RDB_ENC_LZF : Z := 3.

(** The flags of the loading functions. *)
#[warnings="-register-all"]
Inductive load_flags := RDB_LOAD_NONE | RDB_LOAD_ENC | RDB_LOAD_PLAIN | RDB_LOAD_SDS.

(** What loading a string returns: a block, an sds, or an object with one of the
    encodings RAW, EMBSTR, INT. *)
#[warnings="-register-all"]
Inductive loaded := Plain (p : list byte) | SdsString (s : list byte) | RawObject (s : list byte) | EmbObject (s : list byte) | IntObject (v : Z).

Definition OBJ_ENCODING_EMBSTR_SIZE_LIMIT : Z := 44.

(** htonl(3) and ntohl(3). *)
Definition htonl `{Host} (v : Z) : Z := if big_endian then v else intrev32 v.

(** strtoll(3) in base 10 on the bytes from a pointer on: the value, clamped to
    the range, and what remains at the end pointer; [None] if the block ends
    first. *)
Definition isspace (c : byte) : bool := (c =? 32) || ((9 <=? c) && (c <=? 13)).

Fixpoint skip_spaces (s : list byte) : option (list byte) :=
  match s with [] => None | c :: r => if isspace c then skip_spaces r else Some s end.

Fixpoint take_digits (s : list byte) (v : Z) (any : bool) : option (Z * bool * list byte) :=
  match s with
  | [] => None
  | c :: r => if (48 <=? c) && (c <=? 57) then take_digits r (v * 10 + (c - 48)) true else Some (v, any, s)
  end.

Definition strtoll (s : list byte) : option (Z * list byte) :=
  t ← skip_spaces s;
  c ← head t;
  let neg := c =? 45 in
  let t := if neg || (c =? 43) then drop 1 t else t in
  r ← take_digits t 0 false;
  let '(v, any, rest) := r in
  Some (if (any : bool) then (Z.max LLONG_MIN (Z.min LLONG_MAX (if neg then - v else v)), rest) else (0, s)).

(** strlen(3). *)
Fixpoint strlen (s : list byte) : option Z :=
  match s with [] => None | c :: r => if c =? 0 then Some 0 else n ← strlen r; Some (n + 1) end.

Section rdb.
Context {io : Type} `{!Backend io} `{!Host}.
(** Fresh memory, the hash table [lzf_compress] does not initialise, and the
    configuration. *)
Context (junk : nat -> byte) (uninit : Z -> Z) (rdb_compression : bool).

Abbreviation save := (M (option (rio io)) Z).
Abbreviation loads A := (M (rio io) A).

(** *** Raw access *)

(** The result is an [int]; callers take -1 for a failure. *)
Definition rdbWriteRaw (p : list byte) : save := fun rdb =>
  let len := s32 (Z.of_nat (length p)) in
  match rdb with
  | Some r =>
      match rioWrite p r with
      | (Ret _, r) => (if len =? -1 then Fail else Ret len, Some r)
      | (Fail, r) => (Fail, Some r)
      | (Exit, r) => (Exit, Some r)
      | (Undef, r) => (Undef, Some r)
      end
  | None => (if len =? -1 then Fail else Ret len, None)
  end.

(** [rdbLoadRaw] exits when the bytes cannot be read. *)
Definition rdbLoadRaw (len : Z) : loads (list byte) := fun r =>
  match rioRead len r with (Fail, r) => (Exit, r) | x => x end.

Definition rdbSaveType (type : Z) : save := rdbWriteRaw [u8 type].

Definition rdbLoadType : loads Z :=
  let* b := rioRead 1 in access (head b).

Definition rdbSaveMillisecondTime (t : Z) : save := rdbWriteRaw (memrev64ifbe (host_bytes 8 t)).

Definition rdbLoadMillisecondTime (rdbver : Z) : loads Z :=
  let* b := rdbLoadRaw 8 in
  ret (s64 (host_val (if rdbver >=? 9 then memrev64ifbe b else b))).

(** *** Lengths *)

Definition rdbSaveLen (len : Z) : save :=
  if len <? Z.shiftl 1 6 then
    let* _ := rdbWriteRaw [Z.lor (Z.land len 255) (Z.shiftl RDB_6BITLEN 6)] in ret 1
  else if len <? Z.shiftl 1 14 then
    let* _ := rdbWriteRaw [Z.lor (Z.land (Z.shiftr len 8) 255) (Z.shiftl RDB_14BITLEN 6); Z.land len 255] in ret 2
  else if len <=? 2 ^ 32 - 1 then
    let* _ := rdbWriteRaw [RDB_32BITLEN] in
    let* _ := rdbWriteRaw (host_bytes 4 (htonl len)) in ret 5
  else
    let* _ := rdbWriteRaw [RDB_64BITLEN] in
    let* _ := rdbWriteRaw (host_bytes 8 (htonu64 len)) in ret 9.

(** The flag is [*isencoded]. *)
Definition rdbLoadLenByRef : loads (bool * Z) :=
  let* b := rioRead 1 in
  let* b0 := access (head b) in
  let type := Z.shiftr (Z.land b0 0xC0) 6 in
  if type =? RDB_ENCVAL then ret (true, Z.land b0 0x3F)
  else if type =? RDB_6BITLEN then ret (false, Z.land b0 0x3F)
  else if type =? RDB_14BITLEN then
    let* b := rioRead 1 in
    let* b1 := access (head b) in
    ret (false, Z.lor (Z.shiftl (Z.land b0 0x3F) 8) b1)
  else if b0 =? RDB_32BITLEN then
    let* b := rioRead 4 in ret (false, htonl (host_val b))
  else if b0 =? RDB_64BITLEN then
    let* b := rioRead 8 in ret (false, htonu64 (host_val b))
  else stop Exit.

(** An error is the value [RDB_LENERR]. *)
Definition rdbLoadLen : loads (bool * Z) := fun r =>
  match rdbLoadLenByRef r with (Fail, r) => (Ret (false, RDB_LENERR), r) | x => x end.

(** *** Integers *)

Definition rdbEncodeInteger (value : Z) : option (list byte) :=
  if (value >=? - Z.shiftl 1 7) && (value <=? Z.shiftl 1 7 - 1) then
    Some [Z.lor (Z.shiftl RDB_ENCVAL 6) RDB_ENC_INT8; Z.land value 255]
  else if (value >=? - Z.shiftl 1 15) && (value <=? Z.shiftl 1 15 - 1) then
    Some [Z.lor (Z.shiftl RDB_ENCVAL 6) RDB_ENC_INT16; Z.land value 255; Z.land (Z.shiftr value 8) 255]
  else if (value >=? - Z.shiftl 1 31) && (value <=? Z.shiftl 1 31 - 1) then
    Some [Z.lor (Z.shiftl RDB_ENCVAL 6) RDB_ENC_INT32; Z.land value 255; Z.land (Z.shiftr value 8) 255;
          Z.land (Z.shiftr value 16) 255; Z.land (Z.shiftr value 24) 255]
  else None.

(** [enc[0]|(enc[1]<<8)|...] *)
Definition join_bytes (enc : list byte) : Z := foldr (fun b v => Z.lor b (Z.shiftl v 8)) 0 enc.

(** Integers print into a buffer of [LONG_STR_SIZE] bytes. *)
Definition print_integer {S} (size val : Z) : M S (list byte) :=
  let* r := access (ll2string (malloc junk size) size val) in
  access (load r.1 0 r.2).

Definition rdbLoadIntegerObject (enctype : Z) (flags : load_flags) : loads loaded :=
  let* val := (if enctype =? RDB_ENC_INT8 then let* enc := rioRead 1 in ret (s8 (join_bytes enc))
               else if enctype =? RDB_ENC_INT16 then let* enc := rioRead 2 in ret (s16 (u16 (join_bytes enc)))
               else if enctype =? RDB_ENC_INT32 then let* enc := rioRead 4 in ret (s32 (u32 (join_bytes enc)))
               else stop Exit) in
  match flags with
  | RDB_LOAD_PLAIN => let* s := print_integer 21 val in ret (Plain s)
  | RDB_LOAD_SDS => let* s := print_integer 21 val in ret (SdsString s)
  | RDB_LOAD_ENC => ret (IntObject val)
  | RDB_LOAD_NONE => let* s := print_integer 21 val in ret (RawObject s)
  end.

(** [s] is the memory from the string on; the result is the encoding, if any. *)
Definition rdbTryIntegerEncoding (s : list byte) (len : Z) : option (option (list byte)) :=
  r ← strtoll s;
  let '(value, endptr) := r in
  c ← head endptr;
  if negb (c =? 0) then Some None
  else
    b ← ll2string (malloc junk 32) 32 value;
    n ← strlen b.1;
    if negb (n =? len) then Some None
    else
      x ← load b.1 0 len;
      y ← load s 0 len;
      Some (if bool_decide (x = y) then rdbEncodeInteger value else None).

(** *** Compressed strings *)

Definition rdbSaveLzfBlob (data : list byte) (compress_len original_len : Z) : save :=
  let* n0 := rdbWriteRaw [Z.lor (Z.shiftl RDB_ENCVAL 6) RDB_ENC_LZF] in
  let* n1 := rdbSaveLen compress_len in
  let* n2 := rdbSaveLen original_len in
  let* d := access (load data 0 compress_len) in
  let* n3 := rdbWriteRaw d in
  ret (n0 + n1 + n2 + n3).

(** The lengths of the compression functions are [unsigned int]. *)
Definition rdbSaveLzfStringObject (s : list byte) (len : Z) : save :=
  if len <=? 4 then ret 0
  else
    let outlen := len - 4 in
    let out := malloc junk (outlen + 1) in
    let* inp := access (load s 0 (u32 len)) in
    let* r := access (lzf_compress uninit inp (take (Z.to_nat (u32 outlen)) out)) in
    let '(out, comprlen) := r in
    if comprlen =? 0 then ret 0 else rdbSaveLzfBlob out comprlen len.

(** [sdsnewlen(SDS_NOINIT,len)]: the size with header and terminator wraps for
    the largest lengths, and the terminator is then written outside the block. *)
Definition sds_alloc (len : Z) : option unit := if len + 18 <=? ULLONG_MAX then Some tt else None.

Definition new_string (flags : load_flags) (len : Z) : option unit :=
  match flags with RDB_LOAD_PLAIN => Some tt | _ => sds_alloc len end.

Definition string_value (flags : load_flags) (s : list byte) : loaded :=
  match flags with
  | RDB_LOAD_PLAIN => Plain s
  | RDB_LOAD_SDS => SdsString s
  | RDB_LOAD_ENC => if Z.of_nat (length s) <=? OBJ_ENCODING_EMBSTR_SIZE_LIMIT then EmbObject s else RawObject s
  | RDB_LOAD_NONE => RawObject s
  end.

Definition rdbLoadLzfStringObject (flags : load_flags) : loads loaded :=
  let* l := rdbLoadLen in
  let clen := l.2 in
  if clen =? RDB_LENERR then stop Fail
  else
    let* l := rdbLoadLen in
    let len := l.2 in
    if len =? RDB_LENERR then stop Fail
    else
      let* _ := access (new_string flags len) in
      let val := malloc junk len in
      let* c := rioRead clen in
      let* r := access (lzf_decompress (take (Z.to_nat (u32 clen)) c) (take (Z.to_nat (u32 len)) val)) in
      let '(out, n, _) := r in
      if n =? 0 then stop Fail
      else
        let val := out ++ drop (Z.to_nat (u32 len)) val in
        match flags with
        | RDB_LOAD_PLAIN => ret (Plain val)
        | RDB_LOAD_SDS => ret (SdsString val)
        | _ => ret (RawObject val)
        end.

(** *** Strings *)

Definition rdbSaveRawString (s : list byte) (len : Z) : save :=
  let verbatim :=
    let* n := rdbSaveLen len in
    if len >? 0 then
      let* b := access (load s 0 len) in
      let* _ := rdbWriteRaw b in ret (n + len)
    else ret n in
  let compressed :=
    if rdb_compression && (len >? 20) then
      let* n := rdbSaveLzfStringObject s len in
      if n >? 0 then ret n else verbatim
    else verbatim in
  if len <=? 11 then
    let* enc := access (rdbTryIntegerEncoding s len) in
    match enc with
    | Some enc => let* _ := rdbWriteRaw enc in ret (Z.of_nat (length enc))
    | None => compressed
    end
  else compressed.

Definition rdbSaveLongLongAsStringObject (value : Z) : save :=
  match rdbEncodeInteger value with
  | Some enc => rdbWriteRaw enc
  | None =>
      let* s := print_integer 32 value in
      let enclen := Z.of_nat (length s) in
      let* n := rdbSaveLen enclen in
      let* m := rdbWriteRaw s in
      ret (n + m)
  end.

(** A string object: an integer, or an sds, of which [r] is the memory after the
    contents (the terminator first). *)
#[warnings="-register-all"]
Inductive string_object := ObjInt (v : Z) | ObjSds (s r : list byte).

Definition rdbSaveStringObject (o : string_object) : save :=
  match o with
  | ObjInt v => rdbSaveLongLongAsStringObject v
  | ObjSds s r => rdbSaveRawString (s ++ r) (Z.of_nat (length s))
  end.

Definition rdbGenericLoadStringObject (flags : load_flags) : loads loaded :=
  let* l := rdbLoadLen in
  let '(isencoded, len) := l in
  if (isencoded : bool) then
    if (len =? RDB_ENC_INT8) || (len =? RDB_ENC_INT16) || (len =? RDB_ENC_INT32) then rdbLoadIntegerObject len flags
    else if len =? RDB_ENC_LZF then rdbLoadLzfStringObject flags
    else stop Exit
  else if len =? RDB_LENERR then stop Fail
  else
    let* _ := access (new_string flags len) in
    let* s := rioRead len in
    ret (string_value flags s).

Definition rdbLoadStringObject : loads loaded := rdbGenericLoadStringObject RDB_LOAD_NONE.
Definition rdbLoadEncodedStringObject : loads loaded := rdbGenericLoadStringObject RDB_LOAD_ENC.
End rdb.

(** ** What backends promise *)

(** A sink appends what it accepts; a source hands out its bytes in order and
    fails exactly when too few are left. *)
Class Sink (io : Type) `{!Backend io} := {
  written : io -> list byte;
  b_write_appends i bs i' : b_write i bs = Some i' -> written i' = written i ++ bs
}.

Class Source (io : Type) `{!Backend io} := {
  avail : io -> list byte;
  source_ok : io -> Prop;
  b_read_some i n : source_ok i -> 0 <= n <= Z.of_nat (length (avail i)) ->
    exists i', b_read i n = Some (take (Z.to_nat n) (avail i), i') /\ avail i' = drop (Z.to_nat n) (avail i) /\ source_ok i';
  b_read_none i n : source_ok i -> Z.of_nat (length (avail i)) < n -> b_read i n = None
}.

#[export] Instance buffer_sink : Sink buffer.
Proof. refine {| written := b_ptr |}. intros i bs i'. cbn. unfold rioBufferWrite. by intros [= <-]. Defined.

#[export] Instance buffer_source : Source buffer.
Proof.
  refine {| avail b := drop (Z.to_nat (b_pos b)) (b_ptr b);
            source_ok b := 0 <= b_pos b <= Z.of_nat (length (b_ptr b)) /\ Z.of_nat (length (b_ptr b)) < 2 ^ 64 |}.
  - intros [p pos] n Hok Hn. cbn [b_ptr b_pos] in *. rewrite length_drop in Hn. cbn. unfold rioBufferRead. cbn [b_ptr b_pos].
    rewrite uwrap_small, (proj2 (Z.ltb_ge _ _)), load_Some by lia. cbn [mbind option_bind]. eexists. split; [done|]. cbn [b_ptr b_pos].
    rewrite drop_drop. split; [f_equal; lia|lia].
  - intros [p pos] n Hok Hn. cbn [b_ptr b_pos] in *. rewrite length_drop in Hn. cbn. unfold rioBufferRead. cbn [b_ptr b_pos].
    by rewrite uwrap_small, (proj2 (Z.ltb_lt _ _)) by lia.
Defined.

(** ** Encodings *)

Lemma crc64_app c a b : crc64 c (a ++ b) = crc64 (crc64 c a) b.
Proof. apply foldl_app. Qed.

(** The bookkeeping of a stream after the bytes [w]. *)
Record passed {io} (r : rio io) (w : list byte) (r' : rio io) : Prop := {
  ps_update : update_cksum r' = update_cksum r;
  ps_chunk : max_processing_chunk r' = max_processing_chunk r;
  ps_cksum : cksum r' = if update_cksum r then crc64 (cksum r) w else cksum r;
  ps_bytes : u64 (processed_bytes r') = u64 (processed_bytes r + Z.of_nat (length w))
}.

Lemma passed_refl {io} (r : rio io) : passed r [] r.
Proof. split; try done; [by destruct update_cksum|]. f_equal. cbn. lia. Qed.

Lemma passed_trans {io} (r1 r2 r3 : rio io) w1 w2 : passed r1 w1 r2 -> passed r2 w2 r3 -> passed r1 (w1 ++ w2) r3.
Proof.
  intros [A1 A2 A3 A4] [B1 B2 B3 B4]. split; try congruence.
  - rewrite B3, A1, A3. destruct (update_cksum r1); [by rewrite crc64_app|done].
  - rewrite B4, length_app. unfold uwrap in *. rewrite Nat2Z.inj_add, Z.add_assoc, <- Zplus_mod_idemp_l, A4, Zplus_mod_idemp_l. done.
Qed.

Lemma passed_chunk {io} (r : rio io) i w : passed r w (chunk_done r i w).
Proof. split; try done. cbn. apply uwrap_uwrap. Qed.

Section codecs.
Context {io : Type} `{!Backend io}.

(** The stream that got a first part of [w] refuses the next part of it. *)
Definition refused `{!Sink io} (r : rio io) (w : list byte) (r' : rio io) : Prop :=
  exists w1 chunk w2, w = w1 ++ chunk ++ w2 /\ chunk <> [] /\ written (r_io r') = written (r_io r) ++ w1 /\ b_write (r_io r') chunk = None.

(** [m] writes [w] and returns [n], or fails because the backend refused a write on
    the way; without a stream it returns [n]. *)
Definition emits `{!Sink io} (m : M (option (rio io)) Z) (w : list byte) (n : Z) : Prop :=
  m None = (Ret n, None) /\
  forall r, 0 <= max_processing_chunk r -> exists res r', m (Some r) = (res, Some r') /\
    ((res = Ret n /\ written (r_io r') = written (r_io r) ++ w /\ passed r w r') \/ (res = Fail /\ refused r w r')).

(** [m] reads exactly [w] and returns [a], whatever follows. *)
Definition consumes `{!Source io} {A} (m : M (rio io) A) (w : list byte) (a : A) : Prop :=
  forall r rest, source_ok (r_io r) -> 0 <= max_processing_chunk r -> avail (r_io r) = w ++ rest ->
  exists r', m r = (Ret a, r') /\ avail (r_io r') = rest /\ source_ok (r_io r') /\ passed r w r'.

Lemma emits_ret `{!Sink io} n : emits (ret n) [] n.
Proof. split; [done|]. intros r _. eexists _, r. split; [done|]. left. rewrite app_nil_r. auto using passed_refl. Qed.

Lemma refused_app_l `{!Sink io} (r r' : rio io) w1 w2 : refused r w1 r' -> refused r (w1 ++ w2) r'.
Proof. intros (a & b & c & -> & ?). exists a, b, (c ++ w2). by rewrite <- !app_assoc. Qed.

Lemma refused_app_r `{!Sink io} (r r1 r' : rio io) w1 w2 : written (r_io r1) = written (r_io r) ++ w1 -> refused r1 w2 r' -> refused r (w1 ++ w2) r'.
Proof. intros Hw (a & b & c & -> & Hne & Hw' & Hb). exists (w1 ++ a), b, c. rewrite Hw', Hw, <- !app_assoc. done. Qed.

Lemma emits_bind `{!Sink io} m k w1 w2 n1 n2 : emits m w1 n1 -> emits (k n1) w2 n2 -> emits (bind m k) (w1 ++ w2) n2.
Proof.
  intros [H1 H1'] [H2 H2']. split; [unfold bind; by rewrite H1|]. intros r Hc. unfold bind.
  destruct (H1' r Hc) as (res & r1 & -> & [(-> & Hw & Hp)|[-> Hr]]);
    [|eexists _, r1; split; [done|right]; split; [done|by apply refused_app_l]].
  destruct (H2' r1) as (res & r2 & -> & Hres); [by rewrite (ps_chunk _ _ _ Hp)|]. eexists _, r2. split; [done|].
  destruct Hres as [(-> & Hw2 & Hp2)|[-> Hr]]; [left|right; split; [done|by eapply refused_app_r]].
  split_and!; [done|by rewrite Hw2, Hw, app_assoc|by eapply passed_trans].
Qed.

(** A last step that writes nothing. *)
Lemma emits_then `{!Sink io} m k w n1 n2 : emits m w n1 -> emits (k n1) [] n2 -> emits (bind m k) w n2.
Proof. intros H1 H2. rewrite <- (app_nil_r w). by eapply emits_bind. Qed.

Lemma emits_access `{!Sink io} {A} (o : option A) a k w n : o = Some a -> emits (k a) w n -> emits (bind (access o) k) w n.
Proof. intros -> H. exact H. Qed.

Lemma consumes_ret `{!Source io} {A} (a : A) : consumes (ret a) [] a.
Proof. intros r rest Hok _ Ha. exists r. auto using passed_refl. Qed.

Lemma consumes_bind `{!Source io} {A B} (m : M (rio io) A) (k : A -> M (rio io) B) w1 w2 a b :
  consumes m w1 a -> consumes (k a) w2 b -> consumes (bind m k) (w1 ++ w2) b.
Proof.
  intros H1 H2 r rest Hok Hc Ha. rewrite <- app_assoc in Ha. destruct (H1 r _ Hok Hc Ha) as (r1 & E1 & Ha1 & Hok1 & Hp1).
  destruct (H2 r1 rest Hok1) as (r2 & E2 & Ha2 & Hok2 & Hp2); [by rewrite (ps_chunk _ _ _ Hp1)|done|].
  exists r2. unfold bind. rewrite E1. split_and!; [done..|]. by eapply passed_trans.
Qed.

Lemma consumes_access `{!Source io} {A B} (o : option A) a (k : A -> M (rio io) B) w b :
  o = Some a -> consumes (k a) w b -> consumes (bind (access o) k) w b.
Proof. intros -> H. exact H. Qed.

(** A last step that reads nothing. *)
Lemma consumes_then `{!Source io} {A B} (m : M (rio io) A) (k : A -> M (rio io) B) w a b :
  consumes m w a -> consumes (k a) [] b -> consumes (bind m k) w b.
Proof. intros H1 H2. rewrite <- (app_nil_r w). by eapply consumes_bind. Qed.

(** *** Raw bytes *)

Lemma chunk_size_range (r : rio io) len : 0 < len -> 0 <= max_processing_chunk r -> 0 < chunk_size r len <= len.
Proof. intros. unfold chunk_size. destruct (_ && _) eqn:E; zbool; lia. Qed.

Lemma rioWrite_spec `{!Sink io} fuel : forall buf (r : rio io), (length buf <= fuel)%nat -> 0 <= max_processing_chunk r ->
  exists res r', rioWrite_loop fuel buf r = (res, r') /\
    ((res = Ret tt /\ written (r_io r') = written (r_io r) ++ buf /\ passed r buf r') \/ (res = Fail /\ refused r buf r')).
Proof.
  induction fuel as [|fuel IH]; intros buf r Hf Hc.
  { destruct buf; [|cbn in Hf; lia]. eexists _, r. split; [done|]. left. rewrite app_nil_r. auto using passed_refl. }
  destruct buf as [|x buf']; [eexists _, r; split; [done|]; left; rewrite app_nil_r; auto using passed_refl|].
  set (buf := x :: buf') in *. cbn [rioWrite_loop]. pose proof (chunk_size_range r (Z.of_nat (length buf))) as Hn.
  destruct Hn as [Hn1 Hn2]; [cbn; lia|done|]. set (n := Z.to_nat (chunk_size r _)) in *.
  change (match buf with [] => _ | _ => ?x end) with x. destruct (b_write _ _) as [i|] eqn:Hw.
  2:{ eexists _, _. split; [done|]. right. split; [done|]. exists [], (take n buf), (drop n buf). cbn [app r_io].
      rewrite app_nil_r, take_drop. split_and!; [done| |done|done]. intros E%(f_equal length). rewrite length_take in E. cbn [length] in E. lia. }
  destruct (IH (drop n buf) (chunk_done r i (take n buf))) as (res & r' & -> & Hres); [rewrite length_drop; lia|done|].
  assert (written (r_io (chunk_done r i (take n buf))) = written (r_io r) ++ take n buf) as Hw1 by exact (b_write_appends _ _ _ Hw).
  eexists _, r'. split; [done|]. destruct Hres as [(-> & Hw' & Hp)|[-> Hr]].
  2:{ right. split; [done|]. rewrite <- (take_drop n buf). by eapply refused_app_r. }
  left. pose proof (passed_trans _ _ _ _ _ (passed_chunk r i (take n buf)) Hp) as Hpass. rewrite take_drop in Hpass. split_and!; [done| |done].
  rewrite Hw', Hw1, <- app_assoc. by rewrite take_drop.
Qed.

Lemma emits_raw `{!Sink io} p : Z.of_nat (length p) < 2 ^ 31 -> emits (rdbWriteRaw p) p (Z.of_nat (length p)).
Proof.
  intros Hp. unfold rdbWriteRaw. rewrite swrap_small by (done || (unfold in_s; change (2 ^ (32 - 1)) with (2 ^ 31); lia)).
  rewrite (proj2 (Z.eqb_neq _ (-1))) by lia. split; [done|]. intros r Hc.
  destruct (rioWrite_spec (length p) p r) as (res & r' & Hw & Hres); [done|done|]. unfold rioWrite. rewrite Hw.
  destruct Hres as [(-> & Hw' & Hps)|[-> Hr]]; eexists _, r'; (split; [done|]); [left|right]; done.
Qed.

Lemma rioRead_loop_spec `{!Source io} fuel : forall bs, (length bs <= fuel)%nat -> consumes (rioRead_loop fuel (Z.of_nat (length bs))) bs bs.
Proof.
  induction fuel as [|fuel IH]; intros bs Hf r rest Hok Hc Ha.
  { destruct bs; [|cbn in Hf; lia]. exists r. auto using passed_refl. }
  destruct bs as [|x bs']; [exists r; auto using passed_refl|]. set (bs := x :: bs') in *. cbn [rioRead_loop].
  rewrite (proj2 (Z.eqb_neq _ 0)) by (cbn; lia). destruct (chunk_size_range r (Z.of_nat (length bs))) as [Hn1 Hn2]; [cbn; lia|done|].
  set (n := chunk_size r (Z.of_nat (length bs))) in *.
  destruct (b_read_some (r_io r) n Hok) as (i & -> & Hi & Hoki); [rewrite Ha, length_app; lia|].
  rewrite Ha, drop_app_le in Hi by lia. rewrite Ha, take_app_le by lia.
  destruct (IH (drop (Z.to_nat n) bs) ltac:(rewrite length_drop; lia) (chunk_done r i (take (Z.to_nat n) bs)) rest) as (r' & E & Ha' & Hok' & Hp'); try done.
  exists r'. unfold bind. replace (Z.of_nat (length bs) - n) with (Z.of_nat (length (drop (Z.to_nat n) bs))) by (rewrite length_drop; lia).
  rewrite E. cbn. rewrite take_drop. split_and!; try done.
  pose proof (passed_trans _ _ _ _ _ (passed_chunk r i (take (Z.to_nat n) bs)) Hp') as Hpass. by rewrite take_drop in Hpass.
Qed.

Lemma consumes_read `{!Source io} bs n : n = Z.of_nat (length bs) -> consumes (rioRead n) bs bs.
Proof. intros ->. unfold rioRead. rewrite Nat2Z.id. by apply rioRead_loop_spec. Qed.
End codecs.

(** ** Lengths and integers *)

Section format.
Context {io : Type} `{!Backend io} `{!Host}.

Lemma htonl_twice v : 0 <= v < 2 ^ 32 -> htonl (host_val (host_bytes 4 (htonl v))) = v.
Proof.
  intros Hv. rewrite host_val_bytes. unfold htonl. destruct big_endian eqn:E.
  - by apply uwrap_small.
  - rewrite !intrev32_val. unfold uwrap at 1. change (8 * Z.of_nat 4) with 32.
    assert (host_val (reverse (host_bytes 4 v)) mod 2 ^ 32 = host_val (reverse (host_bytes 4 v))) as ->.
    { apply Z.mod_small. unfold host_val. rewrite E. pose proof (le_val_range (reverse (host_bytes 4 v))) as Hr.
      rewrite length_reverse, host_bytes_length in Hr. apply Hr, Forall_reverse, host_bytes_ok. }
    rewrite reverse_swap_involutive. by apply uwrap_small.
Qed.

Lemma htonu64_twice v : 0 <= v < 2 ^ 64 -> htonu64 (host_val (host_bytes 8 (htonu64 v))) = v.
Proof.
  intros Hv. rewrite host_val_bytes. unfold htonu64. destruct big_endian eqn:E.
  - by apply uwrap_small.
  - rewrite !intrev64_val. unfold uwrap at 1. change (8 * Z.of_nat 8) with 64.
    assert (host_val (reverse (host_bytes 8 v)) mod 2 ^ 64 = host_val (reverse (host_bytes 8 v))) as ->.
    { apply Z.mod_small. unfold host_val. rewrite E. pose proof (le_val_range (reverse (host_bytes 8 v))) as Hr.
      rewrite length_reverse, host_bytes_length in Hr. apply Hr, Forall_reverse, host_bytes_ok. }
    rewrite reverse_swap_involutive. by apply uwrap_small.
Qed.

(** The bytes of a length. *)
Definition len_bytes (len : Z) : list byte :=
  if len <? 64 then [len]
  else if len <? 16384 then [64 + len / 256; len mod 256]
  else if len <? 2 ^ 32 then RDB_32BITLEN :: host_bytes 4 (htonl len)
  else RDB_64BITLEN :: host_bytes 8 (htonu64 len).

Lemma six_bits len : 0 <= len < 64 -> Z.lor (Z.land len 255) (Z.shiftl RDB_6BITLEN 6) = len /\
  Z.shiftr (Z.land len 0xC0) 6 = 0 /\ Z.land len 0x3F = len.
Proof. revert len. apply (decide_below 64 (fun len => _ /\ _ /\ _)). vm_compute. reflexivity. Qed.

Lemma fourteen_bits h : 0 <= h < 64 -> Z.lor (Z.land h 255) (Z.shiftl RDB_14BITLEN 6) = 64 + h /\
  Z.shiftr (Z.land (64 + h) 0xC0) 6 = 1 /\ Z.land (64 + h) 0x3F = h.
Proof. revert h. apply (decide_below 64 (fun len => _ /\ _ /\ _)). vm_compute. reflexivity. Qed.

Lemma emits_len `{!Sink io} len : 0 <= len -> emits (rdbSaveLen len) (len_bytes len) (Z.of_nat (length (len_bytes len))).
Proof.
  intros Hlen. unfold rdbSaveLen, len_bytes. change (Z.shiftl 1 6) with 64. change (Z.shiftl 1 14) with 16384.
  destruct (len <? 64) eqn:H6; zbool.
  { destruct (six_bits len) as [-> _]; [lia|]. eapply emits_then; [apply emits_raw; done|apply emits_ret]. }
  destruct (len <? 16384) eqn:H14; zbool.
  { assert (0 <= Z.shiftr len 8 < 64) by (rewrite Z.shiftr_div_pow2 by done; change (2 ^ 8) with 256; Z.to_euclidean_division_equations; lia).
    destruct (fourteen_bits (Z.shiftr len 8)) as [-> _]; [done|]. rewrite Z.shiftr_div_pow2, land_255 by done. change (2 ^ 8) with 256.
    eapply emits_then; [apply emits_raw; done|apply emits_ret]. }
  replace (len <? 2 ^ 32) with (len <=? 2 ^ 32 - 1) by (destruct (len <=? 2 ^ 32 - 1) eqn:?, (len <? 2 ^ 32) eqn:?; zbool; lia).
  destruct (_ <=? _); cbn [length]; rewrite host_bytes_length.
  - change (?x :: ?l) with ([x] ++ l). eapply emits_bind; [apply emits_raw; done|].
    eapply emits_then; [apply emits_raw; by rewrite host_bytes_length|apply emits_ret].
  - change (?x :: ?l) with ([x] ++ l). eapply emits_bind; [apply emits_raw; done|].
    eapply emits_then; [apply emits_raw; by rewrite host_bytes_length|apply emits_ret].
Qed.

(** A first byte, then the rest. *)
Lemma consumes_byte `{!Source io} {A} b (k : byte -> M (rio io) A) w a : consumes (k b) w a ->
  consumes (bind (rioRead 1) (fun l => bind (access (head l)) k)) (b :: w) a.
Proof. intros Hk. change (b :: w) with ([b] ++ w). eapply consumes_bind; [by apply consumes_read|]. exact Hk. Qed.

Lemma consumes_len_ref `{!Source io} len : 0 <= len < 2 ^ 64 -> consumes rdbLoadLenByRef (len_bytes len) (false, len).
Proof.
  intros Hlen. unfold rdbLoadLenByRef, len_bytes.
  destruct (len <? 64) eqn:H6; zbool.
  { apply consumes_byte. destruct (six_bits len) as (_ & -> & ->); [lia|]. apply consumes_ret. }
  destruct (len <? 16384) eqn:H14; zbool.
  { assert (0 <= len / 256 < 64) by (Z.to_euclidean_division_equations; lia).
    apply consumes_byte. destruct (fourteen_bits (len / 256)) as (_ & -> & ->); [done|]. change (1 =? RDB_ENCVAL) with false.
    change (1 =? RDB_6BITLEN) with false. change (1 =? RDB_14BITLEN) with true. cbv iota. apply consumes_byte.
    rewrite Z.lor_comm, lor_shiftl by (done || (apply Z.mod_pos_bound; done)). change (2 ^ 8) with 256.
    replace (len mod 256 + len / 256 * 256) with len by (Z.to_euclidean_division_equations; lia). apply consumes_ret. }
  destruct (len <? 2 ^ 32) eqn:H32; zbool.
  - apply consumes_byte. cbn -[host_bytes]. eapply consumes_then; [apply consumes_read; by rewrite host_bytes_length|].
    rewrite htonl_twice by lia. apply consumes_ret.
  - apply consumes_byte. cbn -[host_bytes]. eapply consumes_then; [apply consumes_read; by rewrite host_bytes_length|].
    rewrite htonu64_twice by lia. apply consumes_ret.
Qed.

Lemma consumes_of_ref `{!Source io} w x : consumes rdbLoadLenByRef w x -> consumes rdbLoadLen w x.
Proof. intros Hm r rest Hok Hc Ha. destruct (Hm r rest Hok Hc Ha) as (r' & E & ?). exists r'. unfold rdbLoadLen. by rewrite E. Qed.

Lemma consumes_len `{!Source io} len : 0 <= len < 2 ^ 64 -> consumes rdbLoadLen (len_bytes len) (false, len).
Proof. intros. by apply consumes_of_ref, consumes_len_ref. Qed.

(** The header of an encoded value. *)
Lemma consumes_enc `{!Source io} e : 0 <= e < 64 -> consumes rdbLoadLen [Z.lor (Z.shiftl RDB_ENCVAL 6) e] (true, e).
Proof.
  intros He. apply consumes_of_ref. unfold rdbLoadLenByRef. apply consumes_byte.
  assert (Z.shiftr (Z.land (Z.lor (Z.shiftl RDB_ENCVAL 6) e) 0xC0) 6 = 3 /\ Z.land (Z.lor (Z.shiftl RDB_ENCVAL 6) e) 0x3F = e) as [-> ->]
    by (revert e He; apply (decide_below 64 (fun e => _ /\ _)); vm_compute; reflexivity).
  apply consumes_ret.
Qed.

Lemma join_bytes_val l : bytes_ok l -> join_bytes l = le_val l.
Proof.
  unfold join_bytes. induction 1 as [|b l Hb _ IH]; [done|]. cbn [foldr le_val]. rewrite IH, lor_shiftl by (done || apply Hb).
  change (2 ^ 8) with 256. change (le_val (b :: l)) with (b + 256 * le_val l). lia.
Qed.

Lemma le_bytes_shifts v : le_bytes 4 v = [Z.land v 255; Z.land (Z.shiftr v 8) 255; Z.land (Z.shiftr v 16) 255; Z.land (Z.shiftr v 24) 255].
Proof.
  rewrite !byte_of, land_255 by done. change (le_bytes 4 v) with [v mod 256; v / 256 mod 256; v / 256 / 256 mod 256; v / 256 / 256 / 256 mod 256].
  by rewrite !Z.div_div by lia.
Qed.

(** An encoded integer: the header, then the bytes of the value. *)
Lemma encode_integer_cases v enc : rdbEncodeInteger v = Some enc -> exists e k,
  enc = Z.lor (Z.shiftl RDB_ENCVAL 6) e :: le_bytes k v /\
  ((e = RDB_ENC_INT8 /\ k = 1%nat /\ in_s 8 v) \/ (e = RDB_ENC_INT16 /\ k = 2%nat /\ in_s 16 v) \/ (e = RDB_ENC_INT32 /\ k = 4%nat /\ in_s 32 v)).
Proof.
  pose proof (le_bytes_shifts v) as Hb. unfold rdbEncodeInteger, in_s.
  change (Z.shiftl 1 7) with (2 ^ (8 - 1)). change (Z.shiftl 1 15) with (2 ^ (16 - 1)). change (Z.shiftl 1 31) with (2 ^ (32 - 1)).
  destruct ((v >=? - 2 ^ (8 - 1)) && _) eqn:H8; [|destruct ((v >=? - 2 ^ (16 - 1)) && _) eqn:H16; [|destruct ((v >=? - 2 ^ (32 - 1)) && _) eqn:H32; [|done]]];
    intros [= <-]; zbool.
  - exists RDB_ENC_INT8, 1%nat. split; [|left; split_and!; done || lia]. by rewrite land_255.
  - exists RDB_ENC_INT16, 2%nat. split; [|right; left; split_and!; done || lia]. by rewrite byte_of, land_255 by done.
  - exists RDB_ENC_INT32, 4%nat. split; [|right; right; split_and!; done || lia]. f_equal. by rewrite Hb.
Qed.

Definition loaded_bytes (x : loaded) : list byte :=
  match x with Plain s | SdsString s | RawObject s | EmbObject s => s | IntObject v => decimal v end.

(** The form of the result fits the flags. *)
Definition fits (flags : load_flags) (x : loaded) : Prop :=
  match flags, x with
  | RDB_LOAD_PLAIN, Plain _ | RDB_LOAD_SDS, SdsString _ | RDB_LOAD_NONE, RawObject _ => True
  | RDB_LOAD_ENC, (RawObject _ | EmbObject _ | IntObject _) => True
  | _, _ => False
  end.

Context (junk : nat -> byte).

Lemma consumes_print `{!Source io} {A} v (k : list byte -> M (rio io) A) w a : in_s 64 v -> consumes (k (decimal v)) w a ->
  consumes (bind (print_integer junk 21 v) k) w a.
Proof.
  intros Hv Hk. destruct (print_ll junk 21 v Hv) as (r & Hr & Hl); [lia|]. unfold print_integer. rewrite Hr.
  change (consumes (bind (access (load r.1 0 r.2)) k) w a). rewrite Hl. exact Hk.
Qed.

Lemma consumes_integer `{!Source io} v enc flags : rdbEncodeInteger v = Some enc ->
  exists x, consumes (rdbGenericLoadStringObject junk flags) enc x /\ loaded_bytes x = decimal v /\ fits flags x.
Proof.
  intros Henc. destruct (encode_integer_cases v enc Henc) as (e & k & -> & Hcase).
  assert (in_s 64 v) as Hv by (destruct Hcase as [(_ & _ & Hs)|[(_ & _ & Hs)|(_ & _ & Hs)]]; eapply in_s_mono, Hs; lia).
  exists (match flags with RDB_LOAD_PLAIN => Plain (decimal v) | RDB_LOAD_SDS => SdsString (decimal v) | RDB_LOAD_ENC => IntObject v | RDB_LOAD_NONE => RawObject (decimal v) end).
  split; [|by destruct flags]. change (?x :: ?l) with ([x] ++ l). unfold rdbGenericLoadStringObject.
  assert (forall w k', w = 8 * Z.of_nat k' -> swrap w (join_bytes (le_bytes k' v)) = swrap w v) as Hjoin.
  { intros w k' ->. rewrite join_bytes_val by apply le_bytes_ok. rewrite le_val_bytes. apply swrap_uwrap. }
  eapply consumes_bind; [apply consumes_enc; by destruct Hcase as [(-> & _)|[(-> & _)|(-> & _)]]|]. cbv iota.
  assert (forall m, consumes m (le_bytes k v) v -> consumes (let* val := m in
    match flags with
    | RDB_LOAD_PLAIN => let* s := print_integer junk 21 val in ret (Plain s)
    | RDB_LOAD_SDS => let* s := print_integer junk 21 val in ret (SdsString s)
    | RDB_LOAD_ENC => ret (IntObject val)
    | RDB_LOAD_NONE => let* s := print_integer junk 21 val in ret (RawObject s)
    end) (le_bytes k v) (match flags with RDB_LOAD_PLAIN => Plain (decimal v) | RDB_LOAD_SDS => SdsString (decimal v) | RDB_LOAD_ENC => IntObject v | RDB_LOAD_NONE => RawObject (decimal v) end)) as Hval.
  { intros m Hm. eapply consumes_then; [exact Hm|]. destruct flags; try (apply consumes_print; [done|]); apply consumes_ret. }
  destruct Hcase as [(-> & -> & Hs)|[(-> & -> & Hs)|(-> & -> & Hs)]]; apply Hval; cbn [Z.eqb RDB_ENC_INT8 RDB_ENC_INT16 RDB_ENC_INT32 orb Pos.eqb].
  - eapply consumes_then; [by apply consumes_read|]. rewrite (Hjoin 8 1%nat), swrap_small by done. apply consumes_ret.
  - eapply consumes_then; [by apply consumes_read|]. rewrite swrap_uwrap, (Hjoin 16 2%nat), swrap_small by done. apply consumes_ret.
  - eapply consumes_then; [by apply consumes_read|]. rewrite swrap_uwrap, (Hjoin 32 4%nat), swrap_small by done. apply consumes_ret.
Qed.

(** *** Integers in strings *)

Lemma skip_spaces_some s r : exists t, skip_spaces (s ++ 0 :: r) = Some t /\ exists p, t = p ++ 0 :: r.
Proof.
  induction s as [|c s IH]; cbn [app skip_spaces].
  - exists (0 :: r). split; [done|]. by exists [].
  - destruct (isspace c); [done|]. eexists. split; [done|]. by exists (c :: s).
Qed.

Lemma take_digits_some s r : forall v any, exists v' any' t, take_digits (s ++ 0 :: r) v any = Some (v', any', t) /\ t <> [].
Proof.
  induction s as [|c s IH]; intros v any; cbn [app take_digits]; [by eexists _, _, _|].
  destruct (_ && _); [apply IH|by eexists _, _, _].
Qed.

Lemma clamp_range v : in_s 64 (Z.max LLONG_MIN (Z.min LLONG_MAX v)).
Proof. limits. lia. Qed.

Lemma strtoll_some s r : exists v e, strtoll (s ++ 0 :: r) = Some (v, e) /\ in_s 64 v /\ e <> [].
Proof.
  unfold strtoll. destruct (skip_spaces_some s r) as (t & -> & [p ->]). cbn [mbind option_bind].
  assert (exists c q, head (p ++ 0 :: r) = Some c /\ (if (c =? 45) || (c =? 43) then drop 1 (p ++ 0 :: r) else p ++ 0 :: r) = q ++ 0 :: r)
    as (c & q & -> & Hq).
  { destruct p as [|x p]; [by exists 0, []|]. exists x. cbn. destruct (_ || _); [by exists p|by exists (x :: p)]. }
  cbn [mbind option_bind]. rewrite Hq. destruct (take_digits_some q r 0 false) as (v & any & t & -> & Ht). cbn [mbind option_bind].
  destruct any; eexists _, _; (split; [done|]); [by split; [apply clamp_range|]|]. split; [by vm_compute|by destruct s].
Qed.

Lemma strlen_app p q : Forall (fun c => c <> 0) p -> strlen (p ++ 0 :: q) = Some (Z.of_nat (length p)).
Proof.
  induction 1 as [|c p Hc _ IH]; [done|]. cbn [app strlen]. rewrite (proj2 (Z.eqb_neq c 0)), IH by done. cbn. f_equal. lia.
Qed.

#[local] Opaque dec.

Lemma decimal_chars v : in_s 64 v -> Forall digit (if v <? 0 then drop 1 (decimal v) else decimal v) /\ (v < 0 -> head (decimal v) = Some 45).
Proof.
  intros Hv. assert (forall z, 0 <= z < 10 ^ 20 -> Forall digit (dec 20 z)) as Hd.
  { intros z Hz. destruct (decide (z = 0)) as [->|]; [rewrite dec20_small by done; by repeat constructor|].
    destruct (dec_canonical z) as (c & ds & -> & Hc & Hds); [lia|]. constructor; [unfold digit; lia|done]. }
  assert (2 ^ 63 < 10 ^ 20) by done. unfold decimal, in_s in *. change (64 - 1) with 63 in Hv.
  destruct (v <? 0) eqn:E; zbool.
  - split; [|intros _; reflexivity]. change (drop 1 (45 :: dec 20 (- v))) with (dec 20 (- v)). apply (Hd (- v)). lia.
  - split; [apply (Hd v); lia|intros; lia].
Qed.

Lemma decimal_nonzero v : in_s 64 v -> Forall (fun c => c <> 0) (decimal v).
Proof.
  intros Hv. destruct (decimal_chars v Hv) as [Hd Hh].
  assert (forall l, Forall digit l -> Forall (fun c => c <> 0) l) as Himp by (intros l Hl; eapply Forall_impl; [exact Hl|]; intros c Hc; unfold digit in Hc; lia).
  destruct (v <? 0) eqn:E; zbool; [|by apply Himp]. specialize (Hh E). destruct (decimal v) as [|c l]; [done|].
  injection Hh as ->. constructor; [done|by apply Himp].
Qed.

Lemma try_integer s r : exists e, rdbTryIntegerEncoding junk (s ++ 0 :: r) (Z.of_nat (length s)) = Some e /\
  (forall enc, e = Some enc -> exists v, s = decimal v /\ rdbEncodeInteger v = Some enc).
Proof.
  unfold rdbTryIntegerEncoding. destruct (strtoll_some s r) as (v & e & -> & Hv & He). cbn [mbind option_bind].
  destruct e as [|c e]; [done|]. cbn [head mbind option_bind]. destruct (negb _); [by exists None|].
  pose proof (malloc_length junk 32 ltac:(lia)) as Hm. pose proof (ll2string_spec (malloc junk 32) v Hv) as Hl. rewrite Hm in Hl.
  pose proof (decimal_short v Hv). rewrite Hl, (proj2 (Z.ltb_lt _ 32)) by lia. cbn [mbind option_bind fst].
  rewrite strlen_app by by apply decimal_nonzero. cbn [mbind option_bind]. destruct (_ =? _) eqn:Hn; cbn [negb]; [|by exists None]. zbool.
  rewrite <- (app_nil_l (decimal v ++ _)), (load_app []) by done. cbn [mbind option_bind].
  rewrite <- (app_nil_l (s ++ _)), (load_app []) by done. cbn [mbind option_bind]. eexists. split; [done|].
  intros enc. case_bool_decide; [|done]. subst. by exists v.
Qed.

(** *** Compressed strings *)

Context (uninit : Z -> Z).

Lemma emits_lzf `{!Sink io} `{!Source io} s r : (4 < length s)%nat -> Z.of_nat (length s) < 2 ^ 31 ->
  (emits (rdbSaveLzfStringObject junk uninit (s ++ r) (Z.of_nat (length s))) [] 0) \/
  exists w, w <> [] /\ emits (rdbSaveLzfStringObject junk uninit (s ++ r) (Z.of_nat (length s))) w (Z.of_nat (length w)) /\
    forall flags, exists x, consumes (rdbGenericLoadStringObject junk flags) w x /\ loaded_bytes x = s /\ fits flags x.
Proof.
  intros H4 Hs. unfold rdbSaveLzfStringObject. rewrite (proj2 (Z.leb_gt _ 4)) by lia. rewrite !uwrap_small by lia.
  set (len := Z.of_nat (length s)) in *. set (out := take (Z.to_nat (len - 4)) (malloc junk (len - 4 + 1))).
  pose proof (malloc_length junk (len - 4 + 1) ltac:(lia)) as Hm.
  assert (Z.of_nat (length out) = len - 4) as Hout by (subst out; rewrite length_take; lia).
  destruct (lzf_compress_spec uninit s out) as (out' & n & Hc & Hl & Hn & Hcase); [lia|lia|lia|].
  assert (load (s ++ r) 0 len = Some s) as Hload by (rewrite <- (app_nil_l (s ++ r)); by apply load_app).
  destruct Hcase as [[-> _]|[Hdec Hn0]].
  { left. eapply emits_access; [exact Hload|]. eapply emits_access; [exact Hc|]. apply emits_ret. }
  right. set (c := take (Z.to_nat n) out') in *. assert (Z.of_nat (length c) = n) as Hcl by (subst c; rewrite length_take; lia).
  set (hdr := Z.lor (Z.shiftl RDB_ENCVAL 6) RDB_ENC_LZF).
  exists ([hdr] ++ len_bytes n ++ len_bytes len ++ c). split; [done|]. split.
  - eapply emits_access; [exact Hload|]. eapply emits_access; [exact Hc|]. cbv beta iota. rewrite (proj2 (Z.eqb_neq n 0)) by done.
    unfold rdbSaveLzfBlob. eapply emits_bind; [by apply emits_raw|]. eapply emits_bind; [apply emits_len; lia|].
    eapply emits_bind; [apply emits_len; lia|]. eapply emits_access; [apply load_Some; lia|]. rewrite drop_0. fold c.
    eapply emits_then; [apply emits_raw; lia|]. rewrite !length_app, !Nat2Z.inj_add, !Z.add_assoc. apply emits_ret.
  - intros flags. exists (match flags with RDB_LOAD_PLAIN => Plain s | RDB_LOAD_SDS => SdsString s | _ => RawObject s end).
    split; [|by destruct flags]. unfold rdbGenericLoadStringObject. eapply consumes_bind; [by apply consumes_enc|].
    change (consumes (rdbLoadLzfStringObject junk flags) (len_bytes n ++ len_bytes len ++ c)
      (match flags with RDB_LOAD_PLAIN => Plain s | RDB_LOAD_SDS => SdsString s | _ => RawObject s end)).
    unfold rdbLoadLzfStringObject, RDB_LENERR, ULLONG_MAX.
    eapply consumes_bind; [apply consumes_len; lia|]. cbn [snd]. rewrite (proj2 (Z.eqb_neq n _)) by lia.
    eapply consumes_bind; [apply consumes_len; lia|]. cbn [snd]. rewrite (proj2 (Z.eqb_neq len _)) by lia.
    eapply (consumes_access _ tt); [destruct flags; cbn; unfold sds_alloc; rewrite ?(proj2 (Z.leb_le _ _)) by (unfold ULLONG_MAX; lia); done|].
    eapply consumes_then; [apply consumes_read; lia|]. rewrite !uwrap_small, (take_ge c) by lia.
    pose proof (malloc_length junk len ltac:(lia)) as Hml. rewrite (take_ge (malloc junk len)) by lia.
    eapply consumes_access; [apply (lzf_decompress_decodes c s); [done|intros ->; cbn in Hcl; lia|lia|lia]|].
    cbv beta iota. rewrite (proj2 (Z.eqb_neq _ 0)) by lia. rewrite !(drop_ge (malloc junk len)) by lia. rewrite !app_nil_r.
    destruct flags; apply consumes_ret.
Qed.

(** *** Strings *)

(** [w] is an encoding of the string [s]. *)
Definition encodes `{!Source io} (w s : list byte) : Prop :=
  forall flags, exists x, consumes (rdbGenericLoadStringObject junk flags) w x /\ loaded_bytes x = s /\ fits flags x.

Lemma verbatim_encodes `{!Source io} s : Z.of_nat (length s) < 2 ^ 31 -> encodes (len_bytes (Z.of_nat (length s)) ++ s) s.
Proof.
  intros Hs flags. exists (string_value flags s). split.
  - unfold rdbGenericLoadStringObject. eapply consumes_bind; [apply consumes_len; lia|]. cbv beta iota.
    unfold RDB_LENERR, ULLONG_MAX. rewrite (proj2 (Z.eqb_neq _ _)) by lia.
    eapply (consumes_access _ tt); [destruct flags; cbn; unfold sds_alloc; rewrite ?(proj2 (Z.leb_le _ _)) by (unfold ULLONG_MAX; lia); done|].
    eapply consumes_then; [by apply consumes_read|apply consumes_ret].
  - unfold string_value. destruct flags; cbn; try done. by destruct (_ <=? _).
Qed.

(** What trying an integer encoding may answer. *)
Definition integer_attempt (s m : list byte) : Prop := exists e, rdbTryIntegerEncoding junk m (Z.of_nat (length s)) = Some e /\
  (forall enc, e = Some enc -> exists v, s = decimal v /\ rdbEncodeInteger v = Some enc).

Lemma encode_integer_length v enc : rdbEncodeInteger v = Some enc -> (length enc <= 5)%nat.
Proof.
  intros Henc. destruct (encode_integer_cases v enc Henc) as (? & k & -> & Hk). cbn [length]. rewrite le_bytes_length.
  destruct Hk as [(_ & -> & _)|[(_ & -> & _)|(_ & -> & _)]]; lia.
Qed.

Context (rdb_compression : bool).

(** The string [s], with [r] after it in memory. *)
Lemma raw_memory `{!Sink io} `{!Source io} s r : Z.of_nat (length s) < 2 ^ 31 -> ((length s <= 11)%nat -> integer_attempt s (s ++ r)) ->
  exists w, emits (rdbSaveRawString junk uninit rdb_compression (s ++ r) (Z.of_nat (length s))) w (Z.of_nat (length w)) /\ encodes w s.
Proof.
  intros Hs Htry0. unfold rdbSaveRawString. set (len := Z.of_nat (length s)) in *. set (verbatim := let* n := rdbSaveLen len in _).
  assert (emits verbatim (len_bytes len ++ s) (Z.of_nat (length (len_bytes len ++ s)))) as Hverb.
  { subst verbatim. rewrite length_app, Nat2Z.inj_add. eapply emits_bind; [apply emits_len; lia|]. destruct (len >? 0) eqn:H0; zbool.
    - eapply emits_access; [rewrite <- (app_nil_l (s ++ r)); by apply load_app|]. eapply emits_then; [by apply emits_raw|apply emits_ret].
    - destruct s; [|cbn in *; lia]. rewrite Z.add_0_r. apply emits_ret. }
  set (compressed := if rdb_compression && _ then _ else _).
  assert (exists w, emits compressed w (Z.of_nat (length w)) /\ encodes w s) as Hcomp.
  { pose proof (verbatim_encodes s Hs) as He. subst compressed. destruct (_ && _) eqn:H20; [|by eexists].
    apply andb_true_iff in H20 as [_ H20]. zbool. destruct (emits_lzf s r) as [H0|(w & Hw & Hem & Henc)]; [lia|done| |].
    - eexists. split; [|exact He]. change (emits ?m ?w ?n) with (emits m ([] ++ w) n). eapply emits_bind; [exact H0|]. exact Hverb.
    - exists w. split; [|exact Henc]. eapply emits_then; [exact Hem|]. rewrite (proj2 (Z.gtb_lt _ 0)); [apply emits_ret|].
      destruct w; [done|cbn; lia]. }
  destruct (len <=? 11) eqn:H11; [|exact Hcomp]. zbool. destruct (Htry0 ltac:(lia)) as (e & Htry & He).
  destruct e as [enc|].
  - destruct (He enc eq_refl) as (v & -> & Henc). exists enc. split; [|intros flags; by apply consumes_integer].
    eapply emits_access; [exact Htry|]. eapply emits_then; [|apply emits_ret]. apply emits_raw.
    pose proof (encode_integer_length v enc Henc). lia.
  - destruct Hcomp as (w & Hem & Henc). exists w. split; [|done]. eapply emits_access; [exact Htry|]. exact Hem.
Qed.

Lemma raw_string `{!Sink io} `{!Source io} s r : Z.of_nat (length s) < 2 ^ 31 ->
  exists w, emits (rdbSaveRawString junk uninit rdb_compression (s ++ 0 :: r) (Z.of_nat (length s))) w (Z.of_nat (length w)) /\ encodes w s.
Proof. intros Hs. apply raw_memory; [done|]. intros _. apply try_integer. Qed.

(** Memory that starts with a byte no number starts with. *)
Lemma no_integer s c m : isspace c = false -> c <> 45 -> c <> 43 -> ~ digit c -> c <> 0 -> integer_attempt s (c :: m).
Proof.
  intros Hsp H45 H43 Hd H0. exists None. split; [|done]. unfold rdbTryIntegerEncoding, strtoll. cbn [skip_spaces]. rewrite Hsp.
  cbn [mbind option_bind head]. rewrite (proj2 (Z.eqb_neq c 45)), (proj2 (Z.eqb_neq c 43)) by done. cbn [orb take_digits].
  replace ((48 <=? c) && (c <=? 57)) with false; [|symmetry; apply not_true_iff_false; intros Ht; apply Hd; unfold digit; zbool; lia].
  cbn [mbind option_bind head]. by rewrite (proj2 (Z.eqb_neq c 0)).
Qed.

Definition object_bytes (o : string_object) : list byte := match o with ObjInt v => decimal v | ObjSds s _ => s end.

(** A string object as the server has it: a 64-bit integer, or a string followed
    by its terminator. *)
Definition object_ok (o : string_object) : Prop :=
  match o with ObjInt v => in_s 64 v | ObjSds s r => head r = Some 0 /\ Z.of_nat (length s) < 2 ^ 31 end.

Lemma string_object_saved `{!Sink io} `{!Source io} o : object_ok o ->
  exists w, emits (rdbSaveStringObject junk uninit rdb_compression o) w (Z.of_nat (length w)) /\ encodes w (object_bytes o).
Proof.
  destruct o as [v|s r]; cbn [object_ok object_bytes rdbSaveStringObject].
  - intros Hv. unfold rdbSaveLongLongAsStringObject. destruct (rdbEncodeInteger v) as [enc|] eqn:Henc.
    + exists enc. split; [|intros flags; by apply consumes_integer]. apply emits_raw.
      pose proof (encode_integer_length v enc Henc). lia.
    + pose proof (decimal_short v Hv) as Hd. exists (len_bytes (Z.of_nat (length (decimal v))) ++ decimal v). split; [|apply verbatim_encodes; lia].
      destruct (print_ll junk 32 v Hv) as (p & Hp & Hl); [lia|]. unfold print_integer. rewrite Hp.
      change (emits (bind (access (load p.1 0 p.2)) (fun s => let* n := rdbSaveLen (Z.of_nat (length s)) in let* m := rdbWriteRaw s in ret (n + m)))
        (len_bytes (Z.of_nat (length (decimal v))) ++ decimal v) (Z.of_nat (length (len_bytes (Z.of_nat (length (decimal v))) ++ decimal v)))).
      eapply emits_access; [exact Hl|]. eapply emits_bind; [apply emits_len; lia|]. eapply emits_then; [apply emits_raw; lia|].
      rewrite length_app, Nat2Z.inj_add. apply emits_ret.
  - intros [Hr Hs]. destruct r as [|z r]; [done|]. injection Hr as ->. by apply raw_string.
Qed.

(** ** Any bytes *)

Definition readable `{!Source io} (r : rio io) : Prop := source_ok (r_io r) /\ 0 <= max_processing_chunk r /\ bytes_ok (avail (r_io r)).

(** [m] has no undefined behaviour, and [P] holds of what it returns. *)
Definition safe `{!Source io} {A} (m : M (rio io) A) (P : A -> Prop) : Prop := forall r, readable r ->
  readable (m r).2 /\ match (m r).1 with Ret a => P a | Undef => False | _ => True end.

Lemma safe_ret `{!Source io} {A} (a : A) (P : A -> Prop) : P a -> safe (ret a) P.
Proof. intros HP r Hr. done. Qed.

Lemma safe_bind `{!Source io} {A B} (m : M (rio io) A) (k : A -> M (rio io) B) P Q :
  safe m P -> (forall a, P a -> safe (k a) Q) -> safe (bind m k) Q.
Proof.
  intros Hm Hk r Hr. specialize (Hm r Hr). unfold bind. destruct (m r) as [[a| | |] r']; cbn [fst snd] in *; try done; [|tauto..].
  destruct Hm as [Hr' Ha]. by apply Hk.
Qed.

Lemma safe_access `{!Source io} {A B} (o : option A) (k : A -> M (rio io) B) Q :
  is_Some o -> (forall a, o = Some a -> safe (k a) Q) -> safe (bind (access o) k) Q.
Proof. intros [a ->] Hk. apply Hk. done. Qed.

Lemma read_loop_safe `{!Source io} fuel : forall n, 0 <= n <= Z.of_nat fuel -> safe (rioRead_loop fuel n) (fun bs => Z.of_nat (length bs) = n /\ bytes_ok bs).
Proof.
  induction fuel as [|fuel IH]; intros n Hn r (Hok & Hc & Hb); cbn [rioRead_loop].
  { replace n with 0 by lia. cbn. split; [done|]. split; [done|constructor]. }
  destruct (n =? 0) eqn:H0; zbool; [subst; split; [done|]; split; [done|constructor]|].
  destruct (chunk_size_range r n) as [Hk1 Hk2]; [lia|done|]. set (k := chunk_size r n) in *.
  destruct (decide (k <= Z.of_nat (length (avail (r_io r))))) as [Hle|Hgt].
  2:{ rewrite b_read_none by (done || lia). done. }
  destruct (b_read_some (r_io r) k Hok) as (i & -> & Hi & Hoki); [lia|].
  rewrite <- (take_drop (Z.to_nat k) (avail (r_io r))) in Hb. apply Forall_app in Hb as [Hb1 Hb2].
  eapply (safe_bind _ _ (fun bs => Z.of_nat (length bs) = n - k /\ bytes_ok bs)); [apply IH; lia| |].
  - intros bs [Hl Hbs]. apply safe_ret. rewrite length_app, length_take. split; [lia|]. by apply Forall_app.
  - split_and!; [done|done|]. cbn. by rewrite Hi.
Qed.

Lemma safe_read `{!Source io} n : 0 <= n -> safe (rioRead n) (fun bs => Z.of_nat (length bs) = n /\ bytes_ok bs).
Proof. intros. apply read_loop_safe. lia. Qed.

Lemma host_val_range l : bytes_ok l -> 0 <= host_val l < 2 ^ (8 * Z.of_nat (length l)).
Proof.
  intros Hl. unfold host_val. destruct big_endian; [|by apply le_val_range].
  rewrite <- length_reverse. apply le_val_range. by apply Forall_reverse.
Qed.

Lemma swapped_range n v : 0 <= host_val (reverse (host_bytes n v)) < 2 ^ (8 * Z.of_nat n).
Proof.
  pose proof (host_val_range (reverse (host_bytes n v))) as Hr. rewrite length_reverse, host_bytes_length in Hr.
  apply Hr, Forall_reverse, host_bytes_ok.
Qed.

Lemma htonl_range v : 0 <= v < 2 ^ 32 -> 0 <= htonl v < 2 ^ 32.
Proof. intros Hv. unfold htonl. destruct big_endian; [done|]. rewrite intrev32_val. apply (swapped_range 4). Qed.

Lemma htonu64_range v : 0 <= v < 2 ^ 64 -> 0 <= htonu64 v < 2 ^ 64.
Proof. intros Hv. unfold htonu64. destruct big_endian; [done|]. rewrite intrev64_val. apply (swapped_range 8). Qed.

(** One byte. *)
Lemma safe_byte `{!Source io} {A} (k : byte -> M (rio io) A) Q : (forall b, is_byte b -> safe (k b) Q) ->
  safe (bind (rioRead 1) (fun l => bind (access (head l)) k)) Q.
Proof.
  intros Hk. eapply safe_bind; [by apply safe_read|]. cbv beta. intros l [Hl Hb]. destruct l as [|b l]; [cbn in Hl; lia|].
  apply safe_access; [done|]. intros ? [= <-]. apply Hk. by inversion_clear Hb.
Qed.

Definition length_value (x : bool * Z) : Prop := 0 <= x.2 < 2 ^ 64.

Lemma safe_len_ref `{!Source io} : safe rdbLoadLenByRef length_value.
Proof.
  unfold rdbLoadLenByRef. apply safe_byte. intros b Hb. cbv zeta.
  assert (0 <= Z.land b 0x3F < 64) as Hl
    by (revert b Hb; apply (decide_below 256 (fun b => 0 <= Z.land b 0x3F < 64)); vm_compute; reflexivity).
  destruct (_ =? RDB_ENCVAL); [apply safe_ret; unfold length_value; cbn; lia|].
  destruct (_ =? RDB_6BITLEN); [apply safe_ret; unfold length_value; cbn; lia|].
  destruct (_ =? RDB_14BITLEN).
  { apply safe_byte. intros b1 Hb1. apply safe_ret. unfold length_value, is_byte in *. cbn [snd].
    rewrite Z.lor_comm, lor_shiftl by (done || lia). change (2 ^ 8) with 256. lia. }
  destruct (b =? RDB_32BITLEN).
  { eapply safe_bind; [by apply safe_read|]. cbv beta. intros l [Hlen Hok]. apply safe_ret. unfold length_value. cbn [snd].
    pose proof (host_val_range l Hok) as Hr. rewrite Hlen in Hr. apply htonl_range in Hr. lia. }
  destruct (b =? RDB_64BITLEN); [|intros r Hr; done].
  eapply safe_bind; [by apply safe_read|]. cbv beta. intros l [Hlen Hok]. apply safe_ret. unfold length_value. cbn [snd].
  pose proof (host_val_range l Hok) as Hr. rewrite Hlen in Hr. by apply htonu64_range in Hr.
Qed.

Lemma safe_len `{!Source io} : safe rdbLoadLen length_value.
Proof.
  intros r Hr. pose proof (safe_len_ref r Hr) as [Hr' Hres]. unfold rdbLoadLen.
  destruct (rdbLoadLenByRef r) as [[x| | |] r']; cbn [fst snd] in *; try done.
Qed.

Lemma safe_integer `{!Source io} e flags : safe (rdbLoadIntegerObject junk e flags) (fun _ => True).
Proof.
  unfold rdbLoadIntegerObject. eapply (safe_bind _ _ (in_s 64)).
  - assert (forall w n (f : list byte -> Z), 0 < w <= 64 -> 0 <= n -> (forall l, in_s w (f l)) -> safe (let* enc := rioRead n in ret (f enc)) (in_s 64)) as Hread.
    { intros w n f Hw Hn Hf. eapply safe_bind; [by apply safe_read|]. intros l _. apply safe_ret. eapply in_s_mono, Hf. lia. }
    destruct (e =? RDB_ENC_INT8); [apply (Hread 8); [lia|lia|intros; by apply swrap_range]|].
    destruct (e =? RDB_ENC_INT16); [apply (Hread 16); [lia|lia|intros; by apply swrap_range]|].
    destruct (e =? RDB_ENC_INT32); [apply (Hread 32); [lia|lia|intros; by apply swrap_range]|]. intros r Hr. done.
  - intros v Hv. assert (forall f, safe (let* s := print_integer junk 21 v in ret (f s)) (fun _ : loaded => True)) as Hp.
    { intros f. destruct (print_ll junk 21 v Hv) as (p & Hp & Hl); [lia|]. unfold print_integer. rewrite Hp.
      change (safe (bind (access (load p.1 0 p.2)) (fun s => ret (f s))) (fun _ : loaded => True)). rewrite Hl. by apply safe_ret. }
    destruct flags; try apply Hp. by apply safe_ret.
Qed.

(** A length for which the size of the sds wraps. *)
Definition oversized (flags : load_flags) (len : Z) : Prop := flags <> RDB_LOAD_PLAIN /\ 2 ^ 64 - 18 <= len.

Lemma new_string_none flags len : new_string flags len = None -> oversized flags len.
Proof.
  unfold oversized. destruct flags; cbn; try done; unfold sds_alloc, ULLONG_MAX; destruct (_ <=? _) eqn:E; try done; zbool; split; done || lia.
Qed.

(** What the stream holds when loading has no defined result: a string length the
    allocation wraps for, or a compressed string with such a length or with no
    compressed bytes (as an [unsigned int]). *)
Definition bad_blob `{!Source io} (flags : load_flags) (r : rio io) : Prop :=
  exists b1 clen b2 len r1 r2, rdbLoadLen r = (Ret (b1, clen), r1) /\ rdbLoadLen r1 = (Ret (b2, len), r2) /\
    (oversized flags len \/ u32 clen = 0).

Definition bad_string `{!Source io} (flags : load_flags) (r : rio io) : Prop :=
  exists r1 len, (rdbLoadLen r = (Ret (false, len), r1) /\ oversized flags len) \/
    (rdbLoadLen r = (Ret (true, RDB_ENC_LZF), r1) /\ bad_blob flags r1).

Lemma decompress_some inp out : bytes_ok inp -> inp <> [] -> is_Some (lzf_decompress inp out).
Proof.
  intros Hb Hne. unfold lzf_decompress.
  destruct (decompress_loop_safe inp (length inp) out 0 0) as (out' & r & -> & Hl & Hr);
    [done|destruct inp; [done|cbn; lia]|lia|lia|]. cbn [mbind option_bind]. destruct r; by eexists.
Qed.

Lemma lzf_undef `{!Source io} flags r r' : readable r -> rdbLoadLzfStringObject junk flags r = (Undef, r') -> bad_blob flags r.
Proof.
  intros Hr. unfold rdbLoadLzfStringObject, bind at 1. pose proof (safe_len r Hr) as [Hr1 Hl1].
  destruct (rdbLoadLen r) as [[[b1 clen]| | |] r1] eqn:E1; cbn [fst snd] in *; try done.
  destruct (clen =? RDB_LENERR); [done|]. unfold bind at 1. pose proof (safe_len r1 Hr1) as [Hr2 Hl2].
  destruct (rdbLoadLen r1) as [[[b2 len]| | |] r2] eqn:E2; cbn [fst snd] in *; try done.
  destruct (len =? RDB_LENERR); [done|]. intros Hun. exists b1, clen, b2, len, r1, r2. split; [done|]. split; [done|].
  destruct (decide (u32 clen = 0)) as [|Hc]; [by right|].
  destruct (new_string flags len) as [[]|] eqn:Hnew.
  - exfalso. match type of Hun with ?m r2 = _ => assert (safe m (fun _ => True)) as Hsafe end.
    { apply safe_access; [done|]. intros _ _. eapply safe_bind; [apply safe_read; unfold length_value in *; cbn in *; lia|]. cbv beta. intros c [Hlc Hbc].
      apply safe_access.
      - apply decompress_some; [by apply Forall_take|]. intros Hnil. apply (f_equal length) in Hnil. rewrite length_take in Hnil. cbn in Hnil.
        pose proof (uwrap_range 32 clen ltac:(lia)). unfold length_value in Hl1. cbn in Hl1.
        assert (u32 clen <= clen) by (apply Z.mod_le; lia). lia.
      - intros [[out n] err] _. destruct (n =? 0); [intros ? ?; done|]. destruct flags; by apply safe_ret. }
    specialize (Hsafe r2 Hr2). rewrite Hun in Hsafe. destruct Hsafe as [_ []].
  - left. by apply new_string_none.
Qed.

Lemma string_undef `{!Source io} flags r r' : readable r -> rdbGenericLoadStringObject junk flags r = (Undef, r') -> bad_string flags r.
Proof.
  intros Hr. unfold rdbGenericLoadStringObject, bind at 1. pose proof (safe_len r Hr) as [Hr1 Hl1].
  destruct (rdbLoadLen r) as [[[b len]| | |] r1] eqn:E1; cbn [fst snd] in *; try done. intros Hun. exists r1, len. unfold bad_string.
  destruct b.
  - destruct ((len =? RDB_ENC_INT8) || (len =? RDB_ENC_INT16) || (len =? RDB_ENC_INT32)).
    { pose proof (safe_integer len flags r1 Hr1) as Hs. rewrite Hun in Hs. destruct Hs as [_ []]. }
    destruct (len =? RDB_ENC_LZF) eqn:El; [|done]. zbool. right. split; [by subst|]. by apply lzf_undef in Hun.
  - destruct (len =? RDB_LENERR); [done|]. left. split; [done|].
    destruct (new_string flags len) as [[]|] eqn:Hnew; [|by apply new_string_none].
    exfalso. match type of Hun with ?m r1 = _ => assert (safe m (fun _ => True)) as Hsafe end.
    { apply safe_access; [done|]. intros _ _. eapply safe_bind; [apply safe_read; apply Hl1|]. intros l _. by apply safe_ret. }
    specialize (Hsafe r1 Hr1). rewrite Hun in Hsafe. destruct Hsafe as [_ []].
Qed.

(** ** Properties *)

(** C16: a string object that is saved is loaded as the same string, for every way
    of loading it: the save reports the number of bytes it wrote (the same
    without a stream), and those bytes, whatever follows them in the file,
    load as the string in the form the flags ask for, with exactly these bytes
    consumed and the same checksum on both sides; integer encodings,
    compression, chunk sizes and the host's byte order make no difference.  The
    save fails only when the stream, having taken a first part of these bytes,
    refuses a write of the next part.  Strings are shorter than 2^31 bytes. *)
Theorem rdb_string_roundtrip `{!Sink io} `{!Source io} o : object_ok o ->
  exists w, emits (rdbSaveStringObject junk uninit rdb_compression o) w (Z.of_nat (length w)) /\
    forall flags, exists x, consumes (rdbGenericLoadStringObject junk flags) w x /\ loaded_bytes x = object_bytes o /\ fits flags x.
Proof. apply string_object_saved. Qed.

(** C40: loading a string from arbitrary bytes stays inside its blocks and gives a
    string, an error or the report of a corrupt file, unless the file declares a
    length of at least 2^64 - 18 for an sds, or a compressed string of which the
    compressed length is zero as an [unsigned int]. *)
Theorem rdb_load_bounds `{!Source io} flags r r' : readable r ->
  rdbGenericLoadStringObject junk flags r = (Undef, r') -> bad_string flags r.
Proof. apply string_undef. Qed.
End format.

(** ** Numbers in texts *)

Lemma not_digit c : c = 0 \/ c = 13 -> ~ digit c.
Proof. unfold digit. lia. Qed.

Lemma digits_read ds c r : Forall digit ds -> ~ digit c -> forall v any, take_digits (ds ++ c :: r) v any = Some (dval v ds, any || negb (length ds =? 0)%nat, c :: r).
Proof.
  intros Hds Hc. unfold digit in *. induction Hds as [|d ds Hd Hds IH]; intros v any; cbn [app take_digits].
  - destruct (48 <=? c) eqn:E1; destruct (c <=? 57) eqn:E2; cbn [andb]; zbool; try lia; by rewrite orb_false_r.
  - rewrite (proj2 (Z.leb_le 48 d)), (proj2 (Z.leb_le d 57)) by lia. cbn [andb]. rewrite IH. cbn. by rewrite orb_true_r.
Qed.

Lemma digit_first ds c r : Forall digit ds -> ds <> [] -> ~ digit c -> dval 0 ds <= LLONG_MAX -> strtoll (ds ++ c :: r) = Some (dval 0 ds, c :: r).
Proof.
  intros Hds Hne Hc Hle. destruct ds as [|d ds]; [done|]. inversion Hds as [|? ? Hd Hds']; subst. unfold digit in Hd. unfold strtoll. cbn [app skip_spaces].
  assert (isspace d = false) as -> by (unfold isspace; rewrite (proj2 (Z.eqb_neq d 32)), (proj2 (Z.leb_gt d 13)) by lia; by rewrite andb_false_r).
  cbn [mbind option_bind head]. rewrite (proj2 (Z.eqb_neq d 45)), (proj2 (Z.eqb_neq d 43)) by lia. cbn [orb]. change (d :: ds ++ c :: r) with ((d :: ds) ++ c :: r). rewrite digits_read by done. cbn [mbind option_bind length Nat.eqb negb orb].
  pose proof (dval_mono (d :: ds) Hds 0 ltac:(lia)). assert (LLONG_MIN <= 0) by done. do 2 f_equal. lia.
Qed.

Lemma decimal_digits v : 0 <= v < 2 ^ 63 -> Forall digit (decimal v) /\ decimal v <> [] /\ dval 0 (decimal v) = v.
Proof.
  intros Hv. destruct (decimal_chars v) as [Hd _]; [unfold in_s; lia|]. rewrite (proj2 (Z.ltb_ge v 0)) in Hd by lia. split_and!; [done| |].
  - pose proof (decimal_length v). intros E. rewrite E in *. cbn in *. lia.
  - unfold decimal. rewrite (proj2 (Z.ltb_ge v 0)) by lia. apply dec_dval. assert (2 ^ 63 < 10 ^ 20) by done. lia.
Qed.

(** ** Examples and findings *)

#[local] Instance little_host : Host := false.

Definition sample_object : string_object := ObjSds (bytes_of "planner planner planner planner planner") [0].

Lemma rdb_string_roundtrip_witness : exists w, emits (io := buffer) (rdbSaveStringObject (fun _ => 0) (fun _ => 0) true sample_object) w (Z.of_nat (length w)) /\
  forall flags, exists x, consumes (io := buffer) (rdbGenericLoadStringObject (fun _ => 0) flags) w x /\ loaded_bytes x = object_bytes sample_object /\ fits flags x.
Proof. apply rdb_string_roundtrip. split; [reflexivity|vm_compute; reflexivity]. Defined.

Definition save_sample (o : string_object) : res Z * option (rio buffer) :=
  rdbSaveStringObject (fun _ => 0) (fun _ => 0) true o (Some (rioInitWithBuffer [])).

Example save_integer : exists r, save_sample (ObjSds (bytes_of "-1000") [0]) = (Ret 3, Some r) /\ b_ptr (r_io r) = [0xC1; 0x18; 0xFC].
Proof. eexists. split; vm_compute; reflexivity. Qed.

(** A compressed string without compressed bytes: the decompressor reads a byte
    outside its input. *)
Definition empty_blob : list byte := [0xC3; 0; 5].

Lemma empty_blob_undefined junk flags : (rdbGenericLoadStringObject (io := buffer) junk flags (rioInitWithBuffer empty_blob)).1 = Undef.
Proof. destruct flags; vm_compute; reflexivity. Qed.

Lemma rdb_load_bounds_witness : bad_string RDB_LOAD_NONE (rioInitWithBuffer empty_blob).
Proof.
  apply (rdb_load_bounds (fun _ => 0) RDB_LOAD_NONE (rioInitWithBuffer empty_blob) (rdbGenericLoadStringObject (fun _ => 0) RDB_LOAD_NONE (rioInitWithBuffer empty_blob)).2).
  - split_and!; [vm_compute; intuition discriminate|vm_compute; discriminate|].
    vm_compute. repeat constructor; intuition discriminate.
  - vm_compute. reflexivity.
Defined.

(** The decompressed length is not compared with the declared one: a blob of two
    literal bytes that declares six leaves four bytes of the value uninitialised. *)
Lemma short_blob_uninitialised junk : (rdbGenericLoadStringObject (io := buffer) junk RDB_LOAD_NONE (rioInitWithBuffer [0xC3; 3; 6; 1; 97; 98])).1 =
  Ret (RawObject [97; 98; junk 2%nat; junk 3%nat; junk 4%nat; junk 5%nat]).
Proof. vm_compute. reflexivity. Qed.

(** A length close to 2^64: the size of the allocation wraps. *)
Lemma huge_length_undefined junk : (rdbGenericLoadStringObject (io := buffer) junk RDB_LOAD_NONE
  (rioInitWithBuffer ([0x81] ++ replicate 7 255 ++ [254]))).1 = Undef.
Proof. vm_compute. reflexivity. Qed.
