(* ===== verification/RdbSet.v ===== *)
(** * Sets in dumps (src/redis-5.0.7/src/rdb.c)

    How a set object is written to a dump and read back: an intset as its blob, a
    hash table element by element with an iterator; the loader builds the set
    with the operations of [Intset], [Dict] and [TSet], under a configuration that
    may differ from the one the set was built with. *)

From S2P Require Import Prelude Endian Intset Util Sds Dict DictIter TSet Rdb.
From stdpp Require Import gmap strings.

Local Open Scope Z_scope.
Local Open Scope rdb_scope.

Definition RDB_TYPE_SET : Z := 2.
Definition RDB_TYPE_SET_INTSET : Z := 11.

Definition rdbIsObjectType (t : Z) : bool := ((t >=? 0) && (t <=? 7)) || ((t >=? 9) && (t <=? 15)).

(** The bytes of an intset in memory, and the cast of memory to an intset. *)
Definition intset_blob `{Host} (s : intset) : list byte :=
  host_bytes 4 (is_encoding s) ++ host_bytes 4 (is_length s) ++ is_contents s.

Definition intset_at `{Host} (p : list byte) : option intset :=
  e ← load p 0 4; l ← load p 4 4; Some (mkIntset (host_val e) (host_val l) (drop 8 p)).

Section rdb_set.
Context {io : Type} `{!Backend io} `{!Host}.
Context (junk : nat -> byte) (uninit : Z -> Z) (rdb_compression : bool).
Context (hash : list byte -> Z) (dict_can_resize : bool) (set_max_intset_entries : Z).
(** The addresses of the tables, for the iterator's fingerprint. *)
Context (tables : Z * Z).

Abbreviation save := (M (option (rio io)) Z).
Abbreviation loads A := (M (rio io) A).

Definition rdbSaveObjectType (o : setobj) : save :=
  match o with
  | SetIntset _ => rdbSaveType RDB_TYPE_SET_INTSET
  | SetHT _ => rdbSaveType RDB_TYPE_SET
  end.

Definition rdbLoadObjectType : loads Z :=
  let* type := rdbLoadType in
  if rdbIsObjectType type then ret type else stop Fail.

(** [while((de = dictNext(di)) != NULL)] *)
Fixpoint save_elements (fuel : nat) (d : dict (list byte) unit) (di : dictIterator) : save :=
  match fuel with
  | O => stop Undef
  | S fuel =>
      let* r := access (dictNext tables d di) in
      match r with
      | (d, di, None) => let* _ := access (dictReleaseIterator tables d di) in ret 0
      | (d, di, Some e) =>
          let* n := rdbSaveRawString junk uninit rdb_compression (fst e ++ [0]) (Z.of_nat (length (fst e))) in
          let* m := save_elements fuel d di in
          ret (n + m)
      end
  end.

(** The branch of [rdbSaveObject] for sets. *)
Definition rdbSaveSet (o : setobj) : save :=
  match o with
  | SetHT set =>
      let* n := rdbSaveLen (dictSize set) in
      let* m := save_elements (S (Z.to_nat (dictSize set))) set dictGetIterator in
      ret (n + m)
  | SetIntset s => rdbSaveRawString junk uninit rdb_compression (intset_blob s) (intsetBlobLen s)
  end.

(** One round of the loop that loads the elements. *)
Definition load_element (len : Z) (o : setobj) : loads setobj :=
  let* x := rdbGenericLoadStringObject junk RDB_LOAD_SDS in
  let sdsele := loaded_bytes x in
  let* o := (match o with
             | SetIntset s =>
                 match isSdsRepresentableAsLongLong sdsele with
                 | Some llval => let* r := access (intsetAdd junk s llval) in ret (SetIntset r.1)
                 | None =>
                     let* o := access (setTypeConvert junk hash dict_can_resize (SetIntset s)) in
                     match o with
                     | SetHT d => let* r := access (dictExpand d len) in ret (SetHT r.1)
                     | SetIntset _ => stop Undef
                     end
                 end
             | SetHT _ => ret o
             end) in
  match o with
  | SetHT d => let* r := access (dictAdd hash tt dict_can_resize d sdsele tt) in ret (SetHT r.1)
  | SetIntset _ => ret o
  end.

Fixpoint load_elements (n : nat) (len : Z) (o : setobj) : loads setobj :=
  match n with
  | O => ret o
  | S n => let* o := load_element len o in load_elements n len o
  end.

(** The branches of [rdbLoadObject] for sets. *)
Definition rdbLoadSet : loads setobj :=
  let* l := rdbLoadLen in
  let len := l.2 in
  if len =? RDB_LENERR then stop Fail
  else
    let* o := (if len >? set_max_intset_entries then
                 if len >? DICT_HT_INITIAL_SIZE
                 then let* r := access (dictExpand dictCreate len) in ret (SetHT r.1)
                 else ret createSetObject
               else ret createIntsetObject) in
    load_elements (Z.to_nat len) len o.

Definition rdbLoadIntset : loads setobj :=
  let* x := rdbGenericLoadStringObject junk RDB_LOAD_PLAIN in
  let* s := access (intset_at (loaded_bytes x)) in
  if intsetLen s >? set_max_intset_entries
  then access (setTypeConvert junk hash dict_can_resize (SetIntset s))
  else ret (SetIntset s).

(** The whole value, with its type in front. *)
Definition save_set (o : setobj) : save :=
  let* n := rdbSaveObjectType o in
  let* m := rdbSaveSet o in
  ret (n + m).

Definition load_set : loads setobj :=
  let* type := rdbLoadObjectType in
  if type =? RDB_TYPE_SET then rdbLoadSet else if type =? RDB_TYPE_SET_INTSET then rdbLoadIntset else stop Fail.

(** ** Blobs *)

Lemma host_bytes_uwrap n v : host_bytes n (uwrap (8 * Z.of_nat n) v) = host_bytes n v.
Proof. unfold host_bytes. by rewrite le_bytes_uwrap. Qed.

(** A field of the header is stored little endian. *)
Lemma field_bytes v : host_bytes 4 v = le_bytes 4 (intrev32ifbe v).
Proof.
  unfold intrev32ifbe. destruct big_endian eqn:E.
  - rewrite intrev32_val. unfold host_val. rewrite E, reverse_involutive. pose proof (host_bytes_length 4 v) as Hl.
    rewrite <- Hl at 2. by rewrite le_bytes_val by apply host_bytes_ok.
  - unfold host_bytes. by rewrite E.
Qed.

Lemma field_loaded v : 0 <= intrev32ifbe v < 2 ^ 32 -> intrev32ifbe (host_val (host_bytes 4 v)) = intrev32ifbe v.
Proof.
  rewrite host_val_bytes. unfold intrev32ifbe. destruct big_endian.
  - intros _. rewrite !intrev32_val. change (uwrap (8 * Z.of_nat 4) v) with (uwrap (8 * Z.of_nat 4%nat) v). by rewrite host_bytes_uwrap.
  - intros Hv. by apply uwrap_small.
Qed.

Lemma blob_loaded s n l : repr s n l -> Z.of_nat (length l) < 2 ^ 32 -> exists s', intset_at (intset_blob s) = Some s' /\ repr s' n l.
Proof.
  intros [Hw He Hl Hc Hr] Hlen. unfold intset_at, intset_blob. rewrite <- (app_nil_l (host_bytes 4 (is_encoding s) ++ _)).
  rewrite (load_app [] (host_bytes 4 (is_encoding s)) _ 0 4) by (by rewrite ?host_bytes_length). cbn [mbind option_bind app].
  rewrite (load_app (host_bytes 4 (is_encoding s)) (host_bytes 4 (is_length s)) _ 4 4) by (by rewrite host_bytes_length). cbn [mbind option_bind].
  rewrite app_assoc, drop_app_length' by (rewrite length_app, !host_bytes_length; done).
  eexists. split; [done|]. assert (Z.of_nat n < 2 ^ 32) by (destruct Hw as [->|[->| ->]]; lia). split; cbn; try done.
  - by rewrite field_loaded by lia.
  - by rewrite field_loaded by lia.
Qed.

Lemma blob_length s n l : repr s n l -> Z.of_nat (length l) < 2 ^ 27 ->
  Z.of_nat (length (intset_blob s)) = intsetBlobLen s /\ intsetBlobLen s < 2 ^ 31.
Proof.
  intros [Hw He Hl Hc Hr] Hlen. unfold intsetBlobLen, intset_blob. rewrite He, Hl, Hc, !length_app, !host_bytes_length, flat_length.
  destruct Hw as [->|[->| ->]]; rewrite uwrap_small; lia.
Qed.

Lemma blob_no_integer s n l : repr s n l -> integer_attempt junk (intset_blob s) (intset_blob s).
Proof.
  intros [Hw He _ _ _]. unfold intset_blob at 2. rewrite field_bytes, He.
  destruct Hw as [->|[->| ->]]; (apply no_integer; try done; intros [Hd _]; apply Hd; reflexivity).
Qed.

Lemma set_models_intset s X : set_models hash (SetIntset s) X -> exists n l, repr s n l /\ size X = length l.
Proof.
  intros (Y & Hm & ->). rewrite (decimal_map_size Y (models_range s Y Hm)). destruct Hm as (n & l & Hrep & Hs & HX).
  exists n, l. split; [done|]. by eapply models_length.
Qed.

(** ** Elements *)

Lemma expand_models (d : dict (list byte) unit) (m : gmap (list byte) unit) len : Dict.models hash d m -> 0 <= len < 2 ^ 31 ->
  exists d' ok, dictExpand d len = Some (d', ok) /\ Dict.models hash d' m.
Proof.
  intros Hm Hlen. destruct (dictExpand_spec (V := unit) hash d len (m_state _ _ _ Hm)) as (d' & ok & -> & Hst & He & _); [lia|].
  exists d', ok. split; [done|]. eapply models_perm; [exact Hm|done|by rewrite He].
Qed.

Lemma element_loaded `{!Source io} w e len o X : encodes junk w e -> set_models hash o X -> 0 <= len < 2 ^ 31 -> Z.of_nat (size X) + 1 < max_set ->
  exists o', consumes (load_element len o) w o' /\ set_models hash o' ({[e]} ∪ X).
Proof.
  intros Hw Hm Hlen Hsz. destruct (Hw RDB_LOAD_SDS) as (x & Hx & Hb & _). unfold load_element.
  assert (forall (d : dict (list byte) unit) (m : gmap (list byte) unit), Dict.models hash d m -> Z.of_nat (size m) < max_set -> exists o',
    consumes (let* r := access (dictAdd hash tt dict_can_resize d e tt) in ret (SetHT r.1)) [] o' /\ set_models hash o' ({[e]} ∪ dom m)) as Hadd.
  { intros d m Hd Hs. destruct (dict_add_key hash dict_can_resize d m e Hd Hs) as (d' & m' & Hadd & Hm' & Hdom).
    exists (SetHT d'). split; [eapply consumes_access; [exact Hadd|apply consumes_ret]|]. exists m'. split; [done|]. by rewrite Hdom. }
  destruct o as [d|s].
  - destruct Hm as (m & Hm & ->). rewrite size_dom in Hsz. destruct (Hadd d m Hm ltac:(lia)) as (o' & Ho' & Hmo').
    exists o'. split; [|done]. eapply consumes_then; [exact Hx|]. rewrite Hb. exact Ho'.
  - destruct Hm as (Y & Hm & ->). pose proof (models_range s Y Hm) as HY. rewrite decimal_map_size in Hsz by done.
    destruct (isSdsRepresentableAsLongLong e) as [v|] eqn:Ev.
    + pose proof Ev as Ev'. apply string2ll_sound in Ev' as [Hv Hev].
      destruct (intsetAdd_spec junk s Y v Hm Hv Hsz) as (s' & Hs' & Hm').
      exists (SetIntset s'). split.
      * eapply consumes_then; [exact Hx|]. cbv zeta. rewrite Hb, Ev.
        eapply (consumes_then _ _ [] (SetIntset s')); [|apply consumes_ret]. eapply consumes_access; [exact Hs'|apply consumes_ret].
      * exists ({[v]} ∪ Y). split; [done|]. by rewrite set_map_union_L, set_map_singleton_L, Hev.
    + destruct (setTypeConvert_spec junk hash dict_can_resize s Y Hm ltac:(lia)) as (d & m & Hc & Hmd & Hdom).
      destruct (expand_models d m len Hmd Hlen) as (d1 & ok & Hexp & Hm1).
      destruct (Hadd d1 m Hm1) as (o' & Ho' & Hmo').
      { rewrite <- size_dom, Hdom, decimal_map_size by done. lia. }
      exists o'. split; [|by rewrite <- Hdom]. eapply consumes_then; [exact Hx|]. cbv zeta. rewrite Hb, Ev.
      eapply (consumes_then _ _ [] (SetHT d1)); [|exact Ho']. eapply consumes_access; [exact Hc|].
      eapply consumes_access; [exact Hexp|apply consumes_ret].
Qed.

Lemma elements_loaded `{!Source io} len es : 0 <= len < 2 ^ 31 -> forall ws o X, Forall2 (encodes junk) ws es -> set_models hash o X ->
  Z.of_nat (size X) + Z.of_nat (length es) < max_set ->
  exists o', consumes (load_elements (length es) len o) (concat ws) o' /\ set_models hash o' (list_to_set es ∪ X).
Proof.
  intros Hlen. induction es as [|e es IH]; intros ws o X Hws Hm Hsz; inversion_clear Hws as [|w ? ws' ? Hw Hws']; cbn [load_elements length concat].
  { exists o. split; [apply consumes_ret|]. by replace (list_to_set [] ∪ X) with X by set_solver. }
  cbn [length] in Hsz. destruct (element_loaded w e len o X Hw Hm Hlen) as (o1 & Ho1 & Hm1); [lia|].
  destruct (IH ws' o1 ({[e]} ∪ X) Hws' Hm1) as (o2 & Ho2 & Hm2).
  { pose proof (size_union_le {[e]} X). rewrite size_singleton in *. lia. }
  exists o2. split; [by eapply consumes_bind|]. by replace (list_to_set (e :: es) ∪ X) with (list_to_set es ∪ ({[e]} ∪ X)) by set_solver.
Qed.

Lemma elements_saved `{!Sink io} `{!Source io} (d : dict (list byte) unit) fuel : walkable d -> forall di,
  iter_inv tables d di -> it_safe di = false -> 0 <= iterators d < 2 ^ 64 ->
  Forall (fun e => Z.of_nat (length (fst e)) < 2 ^ 31) (remaining d di) -> (length (remaining d di) < fuel)%nat ->
  exists ws, Forall2 (encodes junk) ws (map fst (remaining d di)) /\ emits (save_elements fuel d di) (concat ws) (Z.of_nat (length (concat ws))).
Proof.
  intros Hw. induction fuel as [|fuel IH]; intros di Hinv Hsafe Hit Hlen Hf; [lia|]. cbn [save_elements].
  destruct (dictNext_spec tables d di Hw Hinv) as (di' & Hn & Hinv' & Hrem & Hsafe'). rewrite Hsafe in Hsafe'.
  rewrite (counted_unsafe d di Hsafe), (counted_unsafe d di' Hsafe') in Hn.
  destruct (remaining d di) as [|e es] eqn:Er; cbn [head tail] in *.
  - exists []. split; [done|]. eapply emits_access; [exact Hn|]. cbv beta iota.
    eapply (emits_access _ d); [|apply emits_ret]. pose proof (release_counted tables d di' Hit Hinv') as Hrel.
    by rewrite (counted_unsafe d di' Hsafe') in Hrel.
  - inversion_clear Hlen as [|? ? He Hes]. cbn [length] in Hf. rewrite <- Hrem in Hes. rewrite Hrem in Hes.
    destruct (raw_string junk uninit rdb_compression (fst e) [] He) as (w & Hw1 & Henc).
    destruct (IH di' Hinv' Hsafe' Hit) as (ws & Hws & Hem); [by rewrite Hrem|rewrite Hrem; lia|]. rewrite Hrem in Hws.
    exists (w :: ws). split; [by constructor|]. eapply emits_access; [exact Hn|]. cbv beta iota. cbn [concat].
    eapply emits_bind; [exact Hw1|]. eapply emits_then; [exact Hem|]. rewrite length_app, Nat2Z.inj_add. apply emits_ret.
Qed.

(** ** Saving and loading *)

Lemma consumes_type `{!Source io} t : rdbIsObjectType t = true -> u8 t = t -> consumes rdbLoadObjectType [u8 t] t.
Proof.
  intros Ht Hu. unfold rdbLoadObjectType. rewrite Hu. eapply consumes_then.
  - unfold rdbLoadType. eapply consumes_then; [by apply consumes_read|]. exact (consumes_ret t).
  - rewrite Ht. apply consumes_ret.
Qed.

(** The loader needs room for sizes: fewer than 2^27 members, each shorter than
    2^31 bytes. *)
Definition small_set (X : gset (list byte)) : Prop :=
  Z.of_nat (size X) < 2 ^ 27 /\ forall x, x ∈ X -> Z.of_nat (length x) < 2 ^ 31.

Lemma hashed_set_roundtrip `{!Sink io} `{!Source io} d X : set_models hash (SetHT d) X -> small_set X -> 0 <= iterators d < 2 ^ 64 ->
  exists w o', emits (rdbSaveSet (SetHT d)) w (Z.of_nat (length w)) /\ consumes rdbLoadSet w o' /\ set_models hash o' X.
Proof.
  intros (m & Hm & ->) [Hsz Hlen] Hit. rewrite size_dom in Hsz. set (it := dictGetIterator : dictIterator (K := list byte) (V := unit)).
  assert (remaining d it = dict_entries d) as Hrem by (by apply (fresh_remaining hash d m false)).
  pose proof (m_entries _ _ _ Hm) as Hperm. pose proof (Permutation_length Hperm) as Hplen. rewrite length_map_to_list in Hplen.
  assert (iter_inv tables d it) as Hinv by (split; [by left|done|done]).
  pose proof (dictSize_models hash d m Hm) as Hds. assert (0 <= dictSize d < 2 ^ 27) as Hdb by (rewrite Hds; lia).
  assert (forall x, x ∈ dict_entries d -> fst x ∈ dom m) as Hdom.
  { intros [k v] Hin. rewrite Hperm in Hin. apply elem_of_map_to_list in Hin. by apply elem_of_dom_2 in Hin. }
  destruct (elements_saved d (S (Z.to_nat (dictSize d))) (state_walkable hash d (m_state _ _ _ Hm)) it Hinv) as (ws & Hws & Hem); try done.
  { rewrite Hrem. apply Forall_forall. intros x Hx. by apply Hlen, Hdom. }
  { rewrite Hrem, Hplen, Hds. lia. }
  rewrite Hrem in Hws. set (es := map fst (dict_entries d)) in *.
  assert (length es = size m) as Hle by (subst es; rewrite length_map; lia).
  assert (exists o0, set_models hash o0 ∅ /\ consumes (if dictSize d >? set_max_intset_entries then
      if dictSize d >? DICT_HT_INITIAL_SIZE then let* r := access (dictExpand dictCreate (dictSize d)) in ret (SetHT r.1) else ret createSetObject
      else ret createIntsetObject) [] o0) as (o0 & Hm0 & Ho0).
  { destruct (_ >? set_max_intset_entries); [destruct (_ >? DICT_HT_INITIAL_SIZE)|].
    - destruct (expand_models dictCreate ∅ (dictSize d)) as (d0 & ok & Hexp & Hmod); [apply dictCreate_models|lia|].
      exists (SetHT d0). split; [by exists ∅|]. eapply consumes_access; [exact Hexp|apply consumes_ret].
    - exists createSetObject. split; [|apply consumes_ret]. exists ∅. split; [apply dictCreate_models|done].
    - exists createIntsetObject. split; [|apply consumes_ret]. exists ∅. split; [apply intsetNew_models|by rewrite set_map_empty]. }
  destruct (elements_loaded (dictSize d) es) with (ws := ws) (o := o0) (X := ∅ : gset (list byte)) as (o' & Ho' & Hmo'); [lia|done|done| |].
  { rewrite size_empty, Hle. unfold max_set. lia. }
  exists (len_bytes (dictSize d) ++ concat ws), o'. split_and!.
  - unfold rdbSaveSet. eapply emits_bind; [apply emits_len; lia|]. eapply emits_then; [exact Hem|]. rewrite length_app, Nat2Z.inj_add. apply emits_ret.
  - unfold rdbLoadSet. eapply consumes_bind; [apply consumes_len; lia|]. cbn [snd]. rewrite (proj2 (Z.eqb_neq _ RDB_LENERR)) by (unfold RDB_LENERR, ULLONG_MAX; lia).
    rewrite <- (app_nil_l (concat ws)). eapply consumes_bind; [exact Ho0|]. replace (Z.to_nat (dictSize d)) with (length es) by lia. exact Ho'.
  - replace (dom m) with (list_to_set es ∪ ∅ : gset (list byte)); [done|]. apply set_eq. intros k.
    rewrite elem_of_union, elem_of_list_to_set, elem_of_dom. subst es. split.
    + intros [(x & -> & Hx)%list_elem_of_fmap|?]; [|set_solver]. apply elem_of_dom. by apply Hdom.
    + intros [v Hv]. left. apply list_elem_of_fmap. exists (k, v). split; [done|]. rewrite Hperm. by apply elem_of_map_to_list.
Qed.

Lemma intset_roundtrip `{!Sink io} `{!Source io} s X : set_models hash (SetIntset s) X -> small_set X ->
  exists w o', emits (rdbSaveSet (SetIntset s)) w (Z.of_nat (length w)) /\ consumes rdbLoadIntset w o' /\ set_models hash o' X.
Proof.
  intros Hm [Hsz _]. pose proof Hm as (Y & (n & l & Hrep & Hs & HY) & HX).
  assert (length l = size X) as Hl.
  { rewrite HX, (decimal_map_size Y (models_range s Y ltac:(by exists n, l))). symmetry. by eapply models_length. }
  destruct (blob_length s n l Hrep) as [Hblob Hb31]; [lia|].
  destruct (raw_memory junk uninit rdb_compression (intset_blob s) []) as (w & Hw & Henc); [lia| |].
  { intros _. rewrite app_nil_r. by eapply blob_no_integer. }
  rewrite app_nil_r, Hblob in Hw. destruct (Henc RDB_LOAD_PLAIN) as (x & Hx & Hbx & _).
  destruct (blob_loaded s n l Hrep) as (s' & Hat & Hrep'); [lia|].
  assert (Intset.models s' Y) as Hm' by (by exists n, l).
  assert (exists o', consumes (if intsetLen s' >? set_max_intset_entries then access (setTypeConvert junk hash dict_can_resize (SetIntset s')) else ret (SetIntset s')) [] o' /\
    set_models hash o' X) as (o' & Ho' & Hmo').
  { destruct (_ >? _); [|exists (SetIntset s'); split; [apply consumes_ret|by exists Y]].
    destruct (setTypeConvert_spec junk hash dict_can_resize s' Y Hm') as (d & m & Hc & Hmd & Hdom).
    { unfold max_set. rewrite <- (decimal_map_size Y (models_range s' Y Hm')), <- HX. lia. }
    exists (SetHT d). split; [rewrite Hc; apply consumes_ret|]. exists m. split; [done|]. by rewrite HX. }
  exists w, o'. split_and!; [exact Hw| |done]. unfold rdbLoadIntset. eapply consumes_then; [exact Hx|].
  eapply consumes_access; [by rewrite Hbx|]. exact Ho'.
Qed.

(** C9: a set that is saved, with its type, is loaded as the same set: whatever
    the encoding it has and the number of entries the loading server allows in
    an intset, whatever the hash function and the state of the hash table, even in
    the middle of a rehash.  The save reports the number of its bytes, and the
    load consumes exactly these. *)
Theorem rdb_set_roundtrip `{!Sink io} `{!Source io} o X : set_models hash o X -> small_set X ->
  (forall d, o = SetHT d -> 0 <= iterators d < 2 ^ 64) ->
  exists w o', emits (save_set o) w (Z.of_nat (length w)) /\ consumes load_set w o' /\ set_models hash o' X.
Proof.
  intros Hm Hsmall Hit.
  assert (forall t m l w o', rdbIsObjectType t = true -> u8 t = t -> emits m w (Z.of_nat (length w)) -> consumes l w o' ->
    (if t =? RDB_TYPE_SET then rdbLoadSet else if t =? RDB_TYPE_SET_INTSET then rdbLoadIntset else stop Fail) = l ->
    emits (let* n := rdbSaveType t in let* k := m in ret (n + k)) ([u8 t] ++ w) (Z.of_nat (length ([u8 t] ++ w))) /\ consumes load_set ([u8 t] ++ w) o') as Htyped.
  { intros t m l w o' Ht Hu Hem Hco Hl. split.
    - eapply emits_bind; [by apply emits_raw|]. eapply emits_then; [exact Hem|]. rewrite length_app, Nat2Z.inj_add. apply emits_ret.
    - unfold load_set. eapply consumes_bind; [by apply consumes_type|]. rewrite Hl. exact Hco. }
  destruct o as [d|s].
  - destruct (hashed_set_roundtrip d X Hm Hsmall (Hit d eq_refl)) as (w & o' & Hem & Hco & Hmo').
    destruct (Htyped RDB_TYPE_SET (rdbSaveSet (SetHT d)) rdbLoadSet w o') as [H1 H2]; try done. by eexists _, o'.
  - destruct (intset_roundtrip s X Hm Hsmall) as (w & o' & Hem & Hco & Hmo').
    destruct (Htyped RDB_TYPE_SET_INTSET (rdbSaveSet (SetIntset s)) rdbLoadIntset w o') as [H1 H2]; try done. by eexists _, o'.
Qed.
End rdb_set.

(** ** Examples *)

#[local] Instance little_host : Host := false.

(** A set in a hash table, loaded where intsets may have one entry, and the blob of
    an intset. *)
Definition sample_members : list (list byte) := [bytes_of "12"; bytes_of "7"; bytes_of "planner"].

Definition build (members : list (list byte)) : option setobj :=
  foldl (fun o v => o ← o; r ← setTypeAdd (fun _ => 0) (foldr Z.add 0) true 512 o v; Some r.1) (Some createIntsetObject) members.

(** The bytes of a set in a dump, and the members after loading them. *)
Definition dump (o : setobj) : list byte :=
  match (save_set (fun _ => 0) (fun _ => 0) true (0, 0) o (Some (rioInitWithBuffer []))).2 with
  | Some r => b_ptr (r_io r)
  | None => []
  end.

Definition restore (max : Z) (bs : list byte) : option (list (list byte)) :=
  match (load_set (fun _ => 0) (foldr Z.add 0) true max (rioInitWithBuffer bs)).1 with
  | Ret o => r ← set_walk (fun _ => 0) 5 (0, 0) o (setTypeInitIterator o); Some r.2
  | _ => None
  end.

Example dump_and_restore :
  (dump <$> build sample_members) = Some [2; 3; 7; 112; 108; 97; 110; 110; 101; 114; 0xC0; 12; 0xC0; 7] /\
  (o ← build sample_members; restore 512 (dump o)) = Some [bytes_of "planner"; bytes_of "7"; bytes_of "12"].
Proof. split; vm_compute; reflexivity. Qed.

Lemma rdb_set_roundtrip_witness : exists w o', emits (io := buffer) (save_set (fun _ => 0) (fun _ => 0) true (0, 0) createIntsetObject) w (Z.of_nat (length w)) /\
  consumes (io := buffer) (load_set (fun _ => 0) (foldr Z.add 0) true 512) w o' /\ set_models (foldr Z.add 0) o' ∅.
Proof.
  apply (rdb_set_roundtrip (fun _ => 0) (fun _ => 0) true (foldr Z.add 0) true 512 (0, 0) createIntsetObject ∅).
  - exists ∅. split; [apply intsetNew_models|by rewrite set_map_empty].
  - split; [by rewrite size_empty|set_solver].
  - discriminate.
Defined.
