(* ===== verification/ZSkip.v ===== *)
(** * The skip list of sorted sets (src/redis-5.0.7/src/t_zset.c)

    Nodes live in a heap, a finite map from addresses; forward and backward
    pointers are addresses, NULL is [None].  A score is the bit pattern of a
    double, and comparisons of doubles are those of IEEE 754.  Elements are
    represented by the contents of their sds.  The arrays [update] and [rank] are
    the list of their entries.  [None] is an access to memory that is not a node, an
    index outside an array, or a failed assertion.  Addresses returned by zmalloc
    and random numbers are parameters. *)

From S2P Require Import Prelude Sds Dict.
From stdpp Require Import gmap strings.

Local Open Scope Z_scope.

(** ** Doubles *)

(** Comparison of bit patterns: sign and magnitude, except for NaN. *)
Definition double_magnitude (b : Z) : Z := Z.land b (2 ^ 63 - 1).
Definition isnan (b : Z) : bool := double_magnitude b >? Z.shiftl 0x7ff 52.
Definition double_key (b : Z) : Z := if Z.testbit b 63 then - double_magnitude b else double_magnitude b.

Definition dlt (a b : Z) : bool := negb (isnan a) && negb (isnan b) && (double_key a <? double_key b).
Definition deq (a b : Z) : bool := negb (isnan a) && negb (isnan b) && (double_key a =? double_key b).
Definition dle (a b : Z) : bool := negb (isnan a) && negb (isnan b) && (double_key a <=? double_key b).

(** [sdscmp] on contents. *)
Definition ele_cmp (a b : list byte) : Z :=
  if memcmp a b =? 0
  then if Z.of_nat (length a) >? Z.of_nat (length b) then 1
       else if Z.of_nat (length a) <? Z.of_nat (length b) then -1 else 0
  else memcmp a b.

(** ** Data *)

Definition ZSKIPLIST_MAXLEVEL : nat := 64.

Abbreviation ptr := positive.

Record zskiplistLevel := mkLevel { forward : option ptr; span : Z }.

(** [n_ele] is NULL in the header. *)
Record zskiplistNode := mkNode {
  n_ele : option (list byte);
  n_score : Z;
  n_backward : option ptr;
  n_level : list zskiplistLevel
}.

Record zskiplist := mkZsl { z_header : ptr; z_tail : option ptr; z_length : Z; z_level : nat }.

Abbreviation heap := (gmap ptr zskiplistNode).

Definition lev (h : heap) (p : ptr) (i : nat) : option zskiplistLevel := n ← h !! p; n_level n !! i.

Definition set_lev (h : heap) (p : ptr) (i : nat) (l : zskiplistLevel) : option heap :=
  n ← h !! p;
  if (i <? length (n_level n))%nat
  then Some (<[p := mkNode (n_ele n) (n_score n) (n_backward n) (<[i := l]> (n_level n))]> h)
  else None.

Definition set_backward (h : heap) (p : ptr) (b : option ptr) : option heap :=
  n ← h !! p; Some (<[p := mkNode (n_ele n) (n_score n) b (n_level n)]> h).

Definition set_score (h : heap) (p : ptr) (s : Z) : option heap :=
  n ← h !! p; Some (<[p := mkNode (n_ele n) s (n_backward n) (n_level n)]> h).

(** ** Creation *)

Section code.
(** The address a block gets, and what it holds before it is written. *)
Context (zmalloc : heap -> ptr) (junk_level : zskiplistLevel) (junk_backward : option ptr).

Definition zslCreateNode (h : heap) (level : nat) (score : Z) (ele : option (list byte)) : heap * ptr :=
  let zn := zmalloc h in
  (<[zn := mkNode ele score junk_backward (replicate level junk_level)]> h, zn).

(** [for (j = 0; j < ZSKIPLIST_MAXLEVEL; j++)] *)
Fixpoint clear_levels (n j : nat) (h : heap) (p : ptr) : option heap :=
  match n with
  | O => Some h
  | S n => h ← set_lev h p j (mkLevel None 0); clear_levels n (S j) h p
  end.

Definition zslCreate (h : heap) : option (heap * zskiplist) :=
  let '(h, header) := zslCreateNode h ZSKIPLIST_MAXLEVEL 0 None in
  h ← clear_levels ZSKIPLIST_MAXLEVEL 0 h header;
  h ← set_backward h header None;
  Some (h, mkZsl header None 0 1).

(** The values of random() are given; [None] when they run out. *)
Fixpoint random_level (rnd : list Z) (level : nat) : option (nat * list Z) :=
  match rnd with
  | [] => None
  | r :: rnd => if 4 * Z.land r 0xFFFF <? 0xFFFF then random_level rnd (S level) else Some (level, rnd)
  end.

Definition zslRandomLevel (rnd : list Z) : option (nat * list Z) :=
  r ← random_level rnd 1;
  Some (if (r.1 <? ZSKIPLIST_MAXLEVEL)%nat then r.1 else ZSKIPLIST_MAXLEVEL, r.2).

(** ** Searching *)

(** The inner loop of every search, at level [i]: go forward while the next node
    satisfies [cond], which may look at the distance walked to it.  [w] is the
    width of the counter. *)
Fixpoint walk (w : Z) (cond : zskiplistNode -> Z -> bool) (fuel : nat) (h : heap) (i : nat) (x : ptr) (rank : Z)
    : option (ptr * Z) :=
  match fuel with
  | O => None
  | S fuel =>
      l ← lev h x i;
      match forward l with
      | None => Some (x, rank)
      | Some y =>
          n ← h !! y;
          if cond n (uwrap 64 (rank + span l)) then walk w cond fuel h i y (uwrap w (rank + span l)) else Some (x, rank)
      end
  end.

Definition walk_fuel (zsl : zskiplist) : nat := S (Z.to_nat (z_length zsl)).

(** [for (i = zsl->level-1; i >= 0; i--)]: the node and the rank reached at each
    level, the entries of [update] and [rank], lowest level first. *)
Fixpoint descend (w : Z) (cond : zskiplistNode -> Z -> bool) (fuel : nat) (h : heap) (n : nat) (x : ptr) (rank : Z)
    : option (list (ptr * Z)) :=
  match n with
  | O => Some []
  | S i =>
      r ← walk w cond fuel h i x rank;
      us ← descend w cond fuel h i r.1 r.2;
      Some (us ++ [r])
  end.

(** [forward->score < score || (forward->score == score && sdscmp(forward->ele,ele) < 0)] *)
Definition node_cmp (n : zskiplistNode) (score : Z) (ele : list byte) (test : Z -> bool) : bool :=
  dlt (n_score n) score || (deq (n_score n) score && match n_ele n with Some e => test (ele_cmp e ele) | None => false end).

Definition before (score : Z) (ele : list byte) (n : zskiplistNode) (_ : Z) : bool := node_cmp n score ele (fun c => c <? 0).
Definition upto_key (score : Z) (ele : list byte) (n : zskiplistNode) (_ : Z) : bool := node_cmp n score ele (fun c => c <=? 0).

(** ** Insertion *)

(** Levels the list did not have: the header spans everything. *)
Fixpoint raise_levels (n i : nat) (h : heap) (header : ptr) (len : Z) : option heap :=
  match n with
  | O => Some h
  | S n =>
      l ← lev h header i;
      h ← set_lev h header i (mkLevel (forward l) len);
      raise_levels n (S i) h header len
  end.

(** [rank0] is [rank[0]]; the ranks are [unsigned int]. *)
Fixpoint link_levels (n i : nat) (h : heap) (x : ptr) (rank0 : Z) (us : list (ptr * Z)) : option heap :=
  match n with
  | O => Some h
  | S n =>
      u ← us !! i;
      l ← lev h u.1 i;
      h ← set_lev h x i (mkLevel (forward l) (u64 (span l - u32 (rank0 - u.2))));
      h ← set_lev h u.1 i (mkLevel (Some x) (u32 (u32 (rank0 - u.2) + 1)));
      link_levels n (S i) h x rank0 us
  end.

Fixpoint lengthen_levels (n i : nat) (h : heap) (us : list (ptr * Z)) : option heap :=
  match n with
  | O => Some h
  | S n =>
      u ← us !! i;
      l ← lev h u.1 i;
      h ← set_lev h u.1 i (mkLevel (forward l) (u64 (span l + 1)));
      lengthen_levels n (S i) h us
  end.

(** Returns the new node. *)
Definition zslInsert (h : heap) (zsl : zskiplist) (rnd : list Z) (score : Z) (ele : list byte)
    : option (heap * zskiplist * list Z * ptr) :=
  if isnan score then None
  else
    us ← descend 32 (before score ele) (walk_fuel zsl) h (z_level zsl) (z_header zsl) 0;
    r ← zslRandomLevel rnd;
    let '(level, rnd) := r in
    r ← (if (z_level zsl <? level)%nat then
           h ← raise_levels (level - z_level zsl) (z_level zsl) h (z_header zsl) (z_length zsl);
           Some (h, us ++ replicate (level - z_level zsl) (z_header zsl, 0), level)
         else Some (h, us, z_level zsl));
    let '(h, us, zlevel) := r in
    let '(h, x) := zslCreateNode h level score (Some ele) in
    u0 ← us !! 0%nat;
    h ← link_levels level 0 h x u0.2 us;
    h ← lengthen_levels (zlevel - level) level h us;
    h ← set_backward h x (if bool_decide (u0.1 = z_header zsl) then None else Some u0.1);
    l ← lev h x 0;
    r ← (match forward l with
         | Some y => h ← set_backward h y (Some x); Some (h, z_tail zsl)
         | None => Some (h, Some x)
         end);
    let '(h, tail) := r in
    Some (h, mkZsl (z_header zsl) tail (u64 (z_length zsl + 1)) zlevel, rnd, x).

(** ** Deletion *)

Fixpoint unlink_levels (n i : nat) (h : heap) (x : ptr) (us : list (ptr * Z)) : option heap :=
  match n with
  | O => Some h
  | S n =>
      u ← us !! i;
      l ← lev h u.1 i;
      h ← (if bool_decide (forward l = Some x) then
             lx ← lev h x i;
             set_lev h u.1 i (mkLevel (forward lx) (u64 (span l + u64 (span lx - 1))))
           else set_lev h u.1 i (mkLevel (forward l) (u64 (span l - 1))));
      unlink_levels n (S i) h x us
  end.

(** [while(zsl->level > 1 && ...) zsl->level--;] *)
Fixpoint lower_level (level : nat) (h : heap) (header : ptr) : option nat :=
  match level with
  | S (S k as l) =>
      e ← lev h header (S k);
      match forward e with None => lower_level l h header | Some _ => Some level end
  | _ => Some level
  end.

Definition zslDeleteNode (h : heap) (zsl : zskiplist) (x : ptr) (us : list (ptr * Z)) : option (heap * zskiplist) :=
  h ← unlink_levels (z_level zsl) 0 h x us;
  n ← h !! x;
  l ← lev h x 0;
  r ← (match forward l with
       | Some y => h ← set_backward h y (n_backward n); Some (h, z_tail zsl)
       | None => Some (h, n_backward n)
       end);
  let '(h, tail) := r in
  level ← lower_level (z_level zsl) h (z_header zsl);
  Some (h, mkZsl (z_header zsl) tail (u64 (z_length zsl - 1)) level).

Definition zslFreeNode (h : heap) (x : ptr) : heap := delete x h.

(** The node after the last of [update[0]], if any. *)
Definition after_update (h : heap) (us : list (ptr * Z)) : option (option ptr) :=
  u ← us !! 0%nat; l ← lev h u.1 0; Some (forward l).

Definition is_node (n : zskiplistNode) (score : Z) (ele : list byte) : bool :=
  deq score (n_score n) && match n_ele n with Some e => ele_cmp e ele =? 0 | None => false end.

(** With [node] NULL: the node is freed.  The flag is the value returned. *)
Definition zslDelete (h : heap) (zsl : zskiplist) (score : Z) (ele : list byte) : option (heap * zskiplist * bool) :=
  us ← descend 64 (before score ele) (walk_fuel zsl) h (z_level zsl) (z_header zsl) 0;
  x ← after_update h us;
  match x with
  | None => Some (h, zsl, false)
  | Some x =>
      n ← h !! x;
      if is_node n score ele then
        r ← zslDeleteNode h zsl x us;
        Some (zslFreeNode r.1 x, r.2, true)
      else Some (h, zsl, false)
  end.

(** The score would not move the node. *)
Definition stays (h : heap) (n : zskiplistNode) (newscore : Z) : option bool :=
  l ← n_level n !! 0%nat;
  a ← (match n_backward n with None => Some true | Some b => m ← h !! b; Some (dlt (n_score m) newscore) end);
  if negb a then Some false
  else match forward l with None => Some true | Some f => m ← h !! f; Some (dlt newscore (n_score m)) end.

Definition zslUpdateScore (h : heap) (zsl : zskiplist) (rnd : list Z) (curscore : Z) (ele : list byte) (newscore : Z)
    : option (heap * zskiplist * list Z * ptr) :=
  us ← descend 64 (before curscore ele) (walk_fuel zsl) h (z_level zsl) (z_header zsl) 0;
  x ← after_update h us;
  x ← x;
  n ← h !! x;
  if negb (is_node n curscore ele) then None
  else
    b ← stays h n newscore;
    if (b : bool) then h ← set_score h x newscore; Some (h, zsl, rnd, x)
    else
      r ← zslDeleteNode h zsl x us;
      e ← n_ele n;
      r ← zslInsert r.1 r.2 rnd newscore e;
      let '(h, zsl, rnd, newnode) := r in
      Some (zslFreeNode h x, zsl, rnd, newnode).

(** ** Ranges of scores *)

Record zrangespec := mkRange { r_min : Z; r_max : Z; r_minex : bool; r_maxex : bool }.

Definition zslValueGteMin (value : Z) (spec : zrangespec) : bool :=
  if r_minex spec then dlt (r_min spec) value else dle (r_min spec) value.

Definition zslValueLteMax (value : Z) (spec : zrangespec) : bool :=
  if r_maxex spec then dlt value (r_max spec) else dle value (r_max spec).

Definition zslIsInRange (h : heap) (zsl : zskiplist) (range : zrangespec) : option bool :=
  if dlt (r_max range) (r_min range) || (deq (r_min range) (r_max range) && (r_minex range || r_maxex range)) then Some false
  else
    match z_tail zsl with
    | None => Some false
    | Some x =>
        n ← h !! x;
        if negb (zslValueGteMin (n_score n) range) then Some false
        else
          l ← lev h (z_header zsl) 0;
          match forward l with
          | None => Some false
          | Some x => n ← h !! x; Some (zslValueLteMax (n_score n) range)
          end
    end.

Definition zslFirstInRange (h : heap) (zsl : zskiplist) (range : zrangespec) : option (option ptr) :=
  b ← zslIsInRange h zsl range;
  if negb b then Some None
  else
    us ← descend 64 (fun n _ => negb (zslValueGteMin (n_score n) range)) (walk_fuel zsl) h (z_level zsl) (z_header zsl) 0;
    x ← after_update h us;
    x ← x;
    n ← h !! x;
    Some (if zslValueLteMax (n_score n) range then Some x else None).

Definition zslLastInRange (h : heap) (zsl : zskiplist) (range : zrangespec) : option (option ptr) :=
  b ← zslIsInRange h zsl range;
  if negb b then Some None
  else
    us ← descend 64 (fun n _ => zslValueLteMax (n_score n) range) (walk_fuel zsl) h (z_level zsl) (z_header zsl) 0;
    u ← us !! 0%nat;
    n ← h !! u.1;
    Some (if zslValueGteMin (n_score n) range then Some u.1 else None).

(** ** Ranks *)

(** The outer loop tests after each level whether it is done. *)
Fixpoint seek_level (w : Z) (cond : zskiplistNode -> Z -> bool) (found : zskiplistNode -> Z -> bool) (fuel : nat) (h : heap) (n : nat) (x : ptr) (rank : Z)
    : option (option (ptr * Z)) :=
  match n with
  | O => Some None
  | S i =>
      r ← walk w cond fuel h i x rank;
      m ← h !! r.1;
      if found m r.2 then Some (Some r) else seek_level w cond found fuel h i r.1 r.2
  end.

(** 0 when the element is not found. *)
Definition zslGetRank (h : heap) (zsl : zskiplist) (score : Z) (ele : list byte) : option Z :=
  r ← seek_level 64 (upto_key score ele) (fun n _ => match n_ele n with Some e => ele_cmp e ele =? 0 | None => false end)
        (walk_fuel zsl) h (z_level zsl) (z_header zsl) 0;
  Some (match r with Some r => r.2 | None => 0 end).

Definition zslGetElementByRank (h : heap) (zsl : zskiplist) (rank : Z) : option (option ptr) :=
  r ← seek_level 64 (fun _ d => d <=? rank) (fun _ d => d =? rank) (walk_fuel zsl) h (z_level zsl) (z_header zsl) 0;
  Some (option_map fst r).

(** ** Deleting ranges *)

(** The dictionary of the sorted set loses the elements too; its values are the
    addresses of the nodes that hold the scores. *)
Context (hash : list byte -> Z).

Fixpoint delete_nodes (more : zskiplistNode -> Z -> bool) (fuel : nat) (h : heap) (zsl : zskiplist) (d : dict (list byte) ptr)
    (x : option ptr) (us : list (ptr * Z)) (traversed removed : Z) : option (heap * zskiplist * dict (list byte) ptr * Z) :=
  match x, fuel with
  | None, _ => Some (h, zsl, d, removed)
  | Some _, O => None
  | Some x, S fuel =>
      n ← h !! x;
      if more n traversed then
        l ← lev h x 0;
        r ← zslDeleteNode h zsl x us;
        e ← n_ele n;
        q ← dictDelete hash d e;
        delete_nodes more fuel (zslFreeNode r.1 x) r.2 q.1 (forward l) us (u64 (traversed + 1)) (u64 (removed + 1))
      else Some (h, zsl, d, removed)
  end.

Definition zslDeleteRangeByScore (h : heap) (zsl : zskiplist) (range : zrangespec) (d : dict (list byte) ptr)
    : option (heap * zskiplist * dict (list byte) ptr * Z) :=
  us ← descend 64 (fun n _ => if r_minex range then dle (n_score n) (r_min range) else dlt (n_score n) (r_min range))
         (walk_fuel zsl) h (z_level zsl) (z_header zsl) 0;
  x ← after_update h us;
  delete_nodes (fun n _ => if r_maxex range then dlt (n_score n) (r_max range) else dle (n_score n) (r_max range))
    (walk_fuel zsl) h zsl d x us 0 0.

(** [start] and [end_] are 1-based [unsigned int]. *)
Definition zslDeleteRangeByRank (h : heap) (zsl : zskiplist) (start end_ : Z) (d : dict (list byte) ptr)
    : option (heap * zskiplist * dict (list byte) ptr * Z) :=
  us ← descend 64 (fun _ t => t <? start) (walk_fuel zsl) h (z_level zsl) (z_header zsl) 0;
  u ← us !! 0%nat;
  x ← after_update h us;
  delete_nodes (fun _ t => t <=? end_) (walk_fuel zsl) h zsl d x us (u64 (u.2 + 1)) 0.
End code.

(** ** Reading and writing levels *)

(** What a node is, apart from its levels. *)
Definition info (h : heap) (p : ptr) : option (option (list byte) * Z * option ptr * nat) :=
  n ← h !! p; Some (n_ele n, n_score n, n_backward n, length (n_level n)).

Lemma lev_lt h p i l : lev h p i = Some l -> exists e s b k, info h p = Some (e, s, b, k) /\ (i < k)%nat.
Proof.
  unfold lev, info. destruct (h !! p) as [n|]; [|done]. cbn. intros Hl. apply lookup_lt_Some in Hl. by eexists _, _, _, _.
Qed.

(** Writing one level: everything else stays. *)
Lemma set_lev_spec h p i l e s b k : info h p = Some (e, s, b, k) -> (i < k)%nat -> exists h', set_lev h p i l = Some h' /\
  dom h' = dom h /\ (forall q, info h' q = info h q) /\
  (forall q j, lev h' q j = if decide (q = p /\ j = i) then Some l else lev h q j).
Proof.
  unfold info, lev, set_lev. destruct (h !! p) as [n|] eqn:Hp; [|done]. cbn [mbind option_bind]. intros [= <- <- <- <-] Hi.
  rewrite (proj2 (Nat.ltb_lt _ _) Hi). eexists. split; [done|]. split_and!.
  - apply set_eq. intros q. rewrite dom_insert, elem_of_union, elem_of_singleton, elem_of_dom. split; [|by right].
    intros [->|]; [by eexists|done].
  - intros q. destruct (decide (q = p)) as [->|Hq]; [|by rewrite lookup_insert_ne].
    rewrite lookup_insert_eq, Hp. cbn. by rewrite length_insert.
  - intros q j. destruct (decide (q = p)) as [->|Hq].
    + rewrite lookup_insert_eq, Hp. cbn. destruct (decide (j = i)) as [->|Hj].
      * rewrite decide_True by done. by apply list_lookup_insert_eq.
      * rewrite decide_False by tauto. by apply list_lookup_insert_ne.
    + rewrite lookup_insert_ne by done. rewrite decide_False by tauto. done.
Qed.

Lemma set_backward_spec h p b e s b0 k : info h p = Some (e, s, b0, k) -> exists h', set_backward h p b = Some h' /\
  dom h' = dom h /\ (forall q, info h' q = if decide (q = p) then Some (e, s, b, k) else info h q) /\ (forall q j, lev h' q j = lev h q j).
Proof.
  unfold info, lev, set_backward. destruct (h !! p) as [n|] eqn:Hp; [|done]. cbn. intros [= <- <- <- <-].
  eexists. split; [done|]. split_and!.
  - apply set_eq. intros q. rewrite dom_insert, elem_of_union, elem_of_singleton, elem_of_dom. split; [|by right].
    intros [->|]; [by eexists|done].
  - intros q. destruct (decide (q = p)) as [->|Hq]; [by rewrite lookup_insert_eq|by rewrite lookup_insert_ne].
  - intros q j. destruct (decide (q = p)) as [->|Hq]; [by rewrite lookup_insert_eq, Hp|by rewrite lookup_insert_ne].
Qed.

Lemma set_score_spec h p s' e s b k : info h p = Some (e, s, b, k) -> exists h', set_score h p s' = Some h' /\
  dom h' = dom h /\ (forall q, info h' q = if decide (q = p) then Some (e, s', b, k) else info h q) /\ (forall q j, lev h' q j = lev h q j).
Proof.
  unfold info, lev, set_score. destruct (h !! p) as [n|] eqn:Hp; [|done]. cbn. intros [= <- <- <- <-].
  eexists. split; [done|]. split_and!.
  - apply set_eq. intros q. rewrite dom_insert, elem_of_union, elem_of_singleton, elem_of_dom. split; [|by right].
    intros [->|]; [by eexists|done].
  - intros q. destruct (decide (q = p)) as [->|Hq]; [by rewrite lookup_insert_eq|by rewrite lookup_insert_ne].
  - intros q j. destruct (decide (q = p)) as [->|Hq]; [by rewrite lookup_insert_eq, Hp|by rewrite lookup_insert_ne].
Qed.

(** ** The list behind the levels *)

(** An element of the list: its node, the height of the node, its score and
    contents. *)
Record item := mkItem { i_ptr : ptr; i_height : nat; i_score : Z; i_ele : list byte }.

Implicit Types a b l r : list item.

(** The level-[i] entry of a node, or of the header, that [l] follows. *)
Fixpoint fwd (i : nat) (l : list item) : zskiplistLevel :=
  match l with
  | [] => mkLevel None 0
  | x :: l =>
      if (i <? i_height x)%nat then mkLevel (Some (i_ptr x)) 1
      else let e := fwd i l in mkLevel (forward e) (span e + 1)
  end.

Definition low (i : nat) (l : list item) : Prop := Forall (fun x => (i_height x <= i)%nat) l.

(** The prefix up to the last node of level [i]. *)
Fixpoint upto (i : nat) (l : list item) : list item :=
  match l with
  | [] => []
  | x :: l =>
      match upto i l with
      | [] => if (i <? i_height x)%nat then [x] else []
      | u => x :: u
      end
  end.

(** A prefix that ends with a node of level [i], or is empty. *)
Definition aligned (i : nat) (a : list item) : Prop := a = [] \/ exists a' x, a = a' ++ [x] /\ (i < i_height x)%nat.

Lemma aligned_mono i j a : (i <= j)%nat -> aligned j a -> aligned i a.
Proof. intros Hij [->|(a' & x & -> & Hx)]; [by left|]. right. exists a', x. split; [done|lia]. Qed.

Lemma fwd_low i a l : low i a -> fwd i (a ++ l) = mkLevel (forward (fwd i l)) (span (fwd i l) + Z.of_nat (length a)).
Proof.
  induction 1 as [|x a Hx _ IH]; cbn [app fwd length]; [rewrite Z.add_0_r; by destruct (fwd i l)|].
  rewrite (proj2 (Nat.ltb_ge _ _) Hx), IH. cbn. f_equal. lia.
Qed.

Lemma fwd_nil_low i l : low i l -> fwd i l = mkLevel None (Z.of_nat (length l)).
Proof. intros Hl. rewrite <- (app_nil_r l), fwd_low by done. cbn. by rewrite app_nil_r. Qed.

(** An entry that points somewhere. *)
Lemma fwd_next i l p s : fwd i l = mkLevel (Some p) s -> exists a x r, l = a ++ x :: r /\ low i a /\ (i < i_height x)%nat /\ i_ptr x = p /\
  s = Z.of_nat (length a) + 1.
Proof.
  revert s. induction l as [|x l IH]; intros s; cbn [fwd]; [done|]. destruct (_ <? _)%nat eqn:Hx.
  - intros [= <- <-]. apply Nat.ltb_lt in Hx. exists [], x, l. split_and!; try done. constructor.
  - apply Nat.ltb_ge in Hx. destruct (fwd i l) as [f s'] eqn:E. cbn. intros [= -> <-].
    destruct (IH s' eq_refl) as (a & y & r & -> & Ha & Hy & Hp & ->). exists (x :: a), y, r.
    split_and!; try done; [by constructor|]. cbn. lia.
Qed.

Lemma fwd_none i l : forward (fwd i l) = None -> low i l.
Proof.
  induction l as [|x l IH]; cbn [fwd]; [intros _; constructor|]. destruct (_ <? _)%nat eqn:Hx; [done|]. apply Nat.ltb_ge in Hx. cbn. intros. constructor; [done|by apply IH].
Qed.

(** A node of level [i] hides what is after it. *)
Lemma fwd_hide i a x r l : (i < i_height x)%nat -> fwd i ((a ++ x :: r) ++ l) = fwd i (a ++ x :: r).
Proof.
  intros Hx. induction a as [|y a IH]; cbn [app fwd].
  - by rewrite (proj2 (Nat.ltb_lt _ _) Hx).
  - by rewrite IH.
Qed.

Lemma fwd_span_range i l : 0 <= span (fwd i l) <= Z.of_nat (length l).
Proof. induction l as [|x l IH]; cbn [fwd length]; [cbn; lia|]. destruct (_ <? _)%nat; cbn; lia. Qed.

Lemma low_or i l : low i l \/ exists a x r, l = a ++ x :: r /\ (i < i_height x)%nat /\ low i r.
Proof.
  induction l as [|x l IH]; [left; constructor|]. destruct IH as [IH|(a & y & r & -> & Hy & Hr)]; [|right; by exists (x :: a), y, r].
  destruct (decide (i_height x <= i)%nat); [left; by constructor|]. right. exists [], x, l. split_and!; [done|lia|done].
Qed.

Lemma upto_low i l : low i l -> upto i l = [].
Proof. induction 1 as [|x l Hx _ IH]; cbn [upto]; [done|]. by rewrite IH, (proj2 (Nat.ltb_ge _ _) Hx). Qed.

Lemma upto_last i a x r : (i < i_height x)%nat -> low i r -> upto i (a ++ x :: r) = a ++ [x].
Proof.
  intros Hx Hr. induction a as [|y a IH]; cbn [app upto].
  - by rewrite upto_low, (proj2 (Nat.ltb_lt _ _) Hx).
  - rewrite IH. by destruct a.
Qed.

(** Every list splits there. *)
Lemma upto_split i l : exists r, l = upto i l ++ r /\ low i r /\ aligned i (upto i l).
Proof.
  destruct (low_or i l) as [Hl|(a & x & r & -> & Hx & Hr)].
  - exists l. rewrite upto_low by done. split_and!; [done..|by left].
  - exists r. rewrite upto_last by done. rewrite <- app_assoc. split_and!; [done|done|]. right. by exists a, x.
Qed.

Lemma low_mono i j l : (i <= j)%nat -> low i l -> low j l.
Proof. intros Hij Hl. eapply Forall_impl; [exact Hl|]. cbn. intros; lia. Qed.

Lemma upto_unique i a r : low i r -> aligned i a -> upto i (a ++ r) = a.
Proof.
  intros Hr [->|(a' & x & -> & Hx)]; [by apply upto_low|]. rewrite <- app_assoc. by apply upto_last.
Qed.

(** ** The order *)

Lemma lex_lt_irrefl x : lex_lt x x = false.
Proof. induction x as [|c x IH]; [done|]. cbn. by rewrite Z.ltb_irrefl, IH, andb_false_r. Qed.

Lemma lex_lt_trans x y z : lex_lt x y = true -> lex_lt y z = true -> lex_lt x z = true.
Proof.
  revert y z. induction x as [|c x IH]; intros [|d y] [|e z]; cbn; try done.
  rewrite !orb_true_iff, !andb_true_iff, !Z.ltb_lt, !Z.eqb_eq. intros [?|[-> ?]] [?|[-> ?]]; [left; lia..|right; eauto].
Qed.

Lemma ele_cmp_lt x y : (ele_cmp x y <? 0) = lex_lt x y.
Proof. destruct (lex_spec x y) as (H & _). unfold ele_cmp. apply eq_true_iff_eq. by rewrite Z.ltb_lt. Qed.

Lemma ele_cmp_eq x y : (ele_cmp x y =? 0) = bool_decide (x = y).
Proof. destruct (lex_spec x y) as (_ & H & _). unfold ele_cmp. apply eq_true_iff_eq. by rewrite Z.eqb_eq, bool_decide_eq_true. Qed.

Lemma ele_cmp_le x y : (ele_cmp x y <=? 0) = lex_lt x y || bool_decide (x = y).
Proof.
  destruct (lex_spec x y) as (H1 & H2 & _). unfold ele_cmp. apply eq_true_iff_eq. rewrite Z.leb_le, orb_true_iff, bool_decide_eq_true, <- H1, <- H2. lia.
Qed.

Lemma lex_lt_total x y : lex_lt x y = true \/ x = y \/ lex_lt y x = true.
Proof. destruct (lex_spec x y) as (H1 & H2 & H3). rewrite <- H1, <- H2, <- H3. lia. Qed.

(** The key of an element: score, then contents. *)
Definition key_lt (s1 : Z) (e1 : list byte) (s2 : Z) (e2 : list byte) : Prop :=
  double_key s1 < double_key s2 \/ (double_key s1 = double_key s2 /\ lex_lt e1 e2 = true).

Definition item_lt (x y : item) : Prop := key_lt (i_score x) (i_ele x) (i_score y) (i_ele y).

Lemma key_lt_trans s1 e1 s2 e2 s3 e3 : key_lt s1 e1 s2 e2 -> key_lt s2 e2 s3 e3 -> key_lt s1 e1 s3 e3.
Proof. unfold key_lt. intros [?|[? ?]] [?|[? ?]]; [left; lia..|]. right. split; [lia|]. by eapply lex_lt_trans. Qed.

Lemma key_lt_irrefl s e : ~ key_lt s e s e.
Proof. unfold key_lt. rewrite lex_lt_irrefl. intros [?|[_ ?]]; [lia|done]. Qed.

(** ** The representation *)

Definition ptrs (l : list item) : list ptr := map i_ptr l.

(** The last node of a prefix, and the node a search stands on. *)
Definition back (l : list item) : option ptr := i_ptr <$> last l.
Definition cursor (zsl : zskiplist) (l : list item) : ptr := default (z_header zsl) (back l).

(** [h] holds the skip list of the items [l], and the nodes [F] besides. *)
Record repr (F : gset ptr) (h : heap) (zsl : zskiplist) (l : list item) : Prop := {
  rp_dom : dom h = {[z_header zsl]} ∪ list_to_set (ptrs l) ∪ F;
  rp_nodup : NoDup (z_header zsl :: ptrs l);
  rp_frame : forall p, p ∈ F -> p ∉ z_header zsl :: ptrs l;
  rp_header : exists s, info h (z_header zsl) = Some (None, s, None, ZSKIPLIST_MAXLEVEL);
  rp_header_lev i : (i < z_level zsl)%nat -> lev h (z_header zsl) i = Some (fwd i l);
  rp_header_up i : (z_level zsl <= i < ZSKIPLIST_MAXLEVEL)%nat -> forward <$> lev h (z_header zsl) i = Some None;
  rp_info l1 x l2 : l = l1 ++ x :: l2 -> info h (i_ptr x) = Some (Some (i_ele x), i_score x, back l1, i_height x);
  rp_lev l1 x l2 i : l = l1 ++ x :: l2 -> (i < i_height x)%nat -> lev h (i_ptr x) i = Some (fwd i l2);
  rp_level : (1 <= z_level zsl <= ZSKIPLIST_MAXLEVEL)%nat;
  rp_heights : Forall (fun x => (1 <= i_height x <= z_level zsl)%nat) l;
  rp_tail : z_tail zsl = back l;
  rp_length : z_length zsl = Z.of_nat (length l);
  rp_short : Z.of_nat (length l) < 2 ^ 32;
  rp_scores : Forall (fun x => isnan (i_score x) = false) l;
  rp_sorted : StronglySorted item_lt l
}.

Lemma back_snoc l x : back (l ++ [x]) = Some (i_ptr x).
Proof. unfold back. by rewrite last_snoc. Qed.

(** The entry under the cursor. *)
Lemma cursor_lev F h zsl l1 l2 i : repr F h zsl (l1 ++ l2) -> (i < z_level zsl)%nat ->
  aligned i l1 -> lev h (cursor zsl l1) i = Some (fwd i l2).
Proof.
  intros Hr Hi [->|(a & x & -> & Hx)]; unfold cursor.
  - by apply (rp_header_lev _ _ _ _ Hr).
  - rewrite back_snoc. cbn. apply (rp_lev _ _ _ _ Hr a x l2 i); [by rewrite <- app_assoc|done].
Qed.

Lemma node_of F h zsl l1 x l2 : repr F h zsl (l1 ++ x :: l2) -> exists n, h !! i_ptr x = Some n /\
  n_ele n = Some (i_ele x) /\ n_score n = i_score x /\ n_backward n = back l1 /\ n_level n !! 0%nat = Some (fwd 0 l2).
Proof.
  intros Hr. pose proof (rp_info _ _ _ _ Hr l1 x l2 eq_refl) as Hi. pose proof (rp_heights _ _ _ _ Hr) as Hh.
  rewrite Forall_app, Forall_cons in Hh. destruct Hh as (_ & Hx & _).
  pose proof (rp_lev _ _ _ _ Hr l1 x l2 0%nat eq_refl ltac:(lia)) as Hl.
  unfold info, lev in *. destruct (h !! i_ptr x) as [n|]; [|done]. cbn in Hi, Hl. injection Hi as ? ? ? ?. by exists n.
Qed.

(** [cond] holds of exactly the first [k] nodes. *)
Definition selects (h : heap) (cond : zskiplistNode -> Z -> bool) (l : list item) (k : nat) : Prop :=
  forall l1 x l2 n, l = l1 ++ x :: l2 -> h !! i_ptr x = Some n -> cond n (Z.of_nat (length l1) + 1) = (length l1 <? k)%nat.

Lemma walk_spec F h zsl l A B cond w i fuel : repr F h zsl l -> l = A ++ B -> selects h cond l (length A) -> 32 <= w ->
  (i < z_level zsl)%nat -> forall a1 a2, A = a1 ++ a2 -> aligned i a1 -> (length a2 < fuel)%nat ->
  exists a1' a2', A = a1' ++ a2' /\ aligned i a1' /\ low i a2' /\
    walk w cond fuel h i (cursor zsl a1) (Z.of_nat (length a1)) = Some (cursor zsl a1', Z.of_nat (length a1')).
Proof.
  intros Hr -> Hsel Hw Hi. induction fuel as [|fuel IH]; intros a1 a2 HA Hal Hf; [lia|]. subst A. cbn [walk].
  pose proof (rp_short _ _ _ _ Hr) as Hshort. rewrite !length_app in Hshort.
  assert (repr F h zsl (a1 ++ a2 ++ B)) as Hr' by by rewrite app_assoc.
  rewrite (cursor_lev F h zsl a1 (a2 ++ B) i Hr' Hi Hal). cbn [mbind option_bind].
  destruct (fwd i (a2 ++ B)) as [[y|] s] eqn:Hf1; cbn [forward span].
  2:{ exists a1, a2. split_and!; try done. assert (low i (a2 ++ B)) as Hlow by (apply fwd_none; by rewrite Hf1).
      by apply Forall_app in Hlow as [? _]. }
  destruct (fwd_next i _ y s Hf1) as (m & x & r & Hsplit & Hm & Hx & <- & ->).
  assert (Hl : (a1 ++ a2) ++ B = (a1 ++ m) ++ x :: r) by (rewrite <- !app_assoc; by f_equal).
  assert (repr F h zsl ((a1 ++ m) ++ x :: r)) as Hr2 by by rewrite <- Hl.
  destruct (node_of F h zsl (a1 ++ m) x r Hr2) as (n & Hn & _). rewrite Hn. cbn [mbind option_bind].
  pose proof (f_equal length Hsplit) as Hlen. rewrite !length_app in Hlen. cbn [length] in Hlen.
  assert (2 ^ 32 <= 2 ^ w) by (apply Z.pow_le_mono_r; lia).
  rewrite (uwrap_small 64) by lia. rewrite (uwrap_small w) by lia.
  specialize (Hsel (a1 ++ m) x r n Hl Hn). rewrite length_app in Hsel.
  replace (Z.of_nat (length a1) + (Z.of_nat (length m) + 1)) with (Z.of_nat (length a1 + length m) + 1) by lia. rewrite Hsel.
  rewrite (length_app a1 a2). destruct (length a1 + length m <? length a1 + length a2)%nat eqn:Hin.
  - apply Nat.ltb_lt in Hin. assert (exists a3, a2 = m ++ x :: a3 /\ r = a3 ++ B) as (a3 & -> & ->).
    { apply app_eq_inv in Hsplit as [(k & -> & Hk)|(k & -> & Hk)]; [|rewrite !length_app in Hin; lia].
      destruct k as [|z k]; [rewrite !length_app in Hin; cbn in Hin; lia|]. injection Hk as <- ->. by exists k. }
    destruct (IH (a1 ++ m ++ [x]) a3) as (a1' & a2' & HA & Hal' & Hlow' & Hwalk).
    + by rewrite <- !app_assoc.
    + right. exists (a1 ++ m), x. by rewrite <- app_assoc.
    + rewrite length_app in Hf. cbn in Hf. lia.
    + exists a1', a2'. rewrite HA. split_and!; try done. rewrite <- Hwalk.
      assert (cursor zsl (a1 ++ m ++ [x]) = i_ptr x) as -> by by (unfold cursor; rewrite app_assoc, back_snoc).
      replace (length (a1 ++ m ++ [x])) with (length a1 + length m + 1)%nat by (rewrite !length_app; cbn; lia).
      by rewrite (Nat2Z.inj_add _ 1).
  - apply Nat.ltb_ge in Hin. exists a1, a2. split_and!; try done.
    assert (exists k, m = a2 ++ k) as (k & ->).
    { apply app_eq_inv in Hsplit as [(k & -> & Hk)|(k & -> & Hk)]; [|by exists k].
      rewrite !length_app in Hin. destruct k; [exists []; by rewrite !app_nil_r|]. cbn in Hin. lia. }
    by apply Forall_app in Hm as [? _].
Qed.

(** The entries of [update] and [rank] when the search stops after [A]. *)
Definition updates (zsl : zskiplist) (A : list item) (n : nat) : list (ptr * Z) :=
  map (fun i => (cursor zsl (upto i A), Z.of_nat (length (upto i A)))) (seq 0 n).

Lemma updates_lookup zsl A n i : (i < n)%nat -> updates zsl A n !! i = Some (cursor zsl (upto i A), Z.of_nat (length (upto i A))).
Proof. intros Hi. unfold updates. rewrite list_lookup_fmap, lookup_seq_lt by done. done. Qed.

Lemma descend_from F h zsl A B cond w fuel : repr F h zsl (A ++ B) -> selects h cond (A ++ B) (length A) -> 32 <= w ->
  (length A < fuel)%nat -> forall n a1 a2, A = a1 ++ a2 -> (n <= z_level zsl)%nat -> (forall i, (i < n)%nat -> aligned i a1) ->
  descend w cond fuel h n (cursor zsl a1) (Z.of_nat (length a1)) = Some (updates zsl A n).
Proof.
  intros Hr Hsel Hw Hf. induction n as [|i IH]; intros a1 a2 HA Hn Hal; [done|]. cbn [descend].
  destruct (walk_spec F h zsl _ A B cond w i fuel Hr eq_refl Hsel Hw ltac:(lia) a1 a2 HA (Hal i ltac:(lia))) as (a1' & a2' & HA' & Hal' & Hlow & ->).
  { rewrite HA, length_app in Hf. lia. }
  cbn [mbind option_bind fst snd]. rewrite (IH a1' a2' HA' ltac:(lia)).
  2:{ intros j Hj. apply (aligned_mono j i); [lia|done]. }
  cbn [mbind option_bind]. assert (upto i A = a1') as E by (rewrite HA'; by apply upto_unique).
  unfold updates. rewrite seq_S, map_app. cbn [map]. by rewrite Nat.add_0_l, E.
Qed.

Lemma descend_spec F h zsl A B cond w : repr F h zsl (A ++ B) -> selects h cond (A ++ B) (length A) -> 32 <= w ->
  descend w cond (walk_fuel zsl) h (z_level zsl) (z_header zsl) 0 = Some (updates zsl A (z_level zsl)).
Proof.
  intros Hr Hsel Hw. apply (descend_from F h zsl A B cond w (walk_fuel zsl) Hr Hsel Hw) with (a1 := []) (a2 := A); try done.
  - unfold walk_fuel. rewrite (rp_length _ _ _ _ Hr), Nat2Z.id, length_app. lia.
  - intros i _. by left.
Qed.

Lemma upto_0 l : Forall (fun x => (1 <= i_height x)%nat) l -> upto 0 l = l.
Proof.
  intros Hl. destruct (upto_split 0 l) as (r & E & Hlow & _). destruct r as [|x r]; [by rewrite app_nil_r in E|].
  rewrite E in Hl. apply Forall_app in Hl as [_ Hl]. inversion Hl; inversion Hlow; subst. lia.
Qed.

Lemma repr_upto_0 F h zsl A B : repr F h zsl (A ++ B) -> upto 0 A = A.
Proof.
  intros Hr. pose proof (rp_heights _ _ _ _ Hr) as Hh. apply Forall_app in Hh as [Hh _]. apply upto_0.
  eapply Forall_impl; [exact Hh|]. cbn. intros; lia.
Qed.

(** ** Cursors *)

Lemma cursor_in zsl a1 a2 : cursor zsl a1 ∈ z_header zsl :: ptrs (a1 ++ a2).
Proof.
  unfold cursor. destruct a1 as [|x a _] using rev_ind; [left|]. rewrite back_snoc. cbn. right. unfold ptrs.
  rewrite !map_app, !elem_of_app. left. right. left.
Qed.

(** The nodes of a list differ, hence its prefixes have different last nodes. *)
Lemma cursor_inj zsl a1 a2 a1' a2' : NoDup (z_header zsl :: ptrs (a1 ++ a2)) -> a1 ++ a2 = a1' ++ a2' -> cursor zsl a1 = cursor zsl a1' -> a1 = a1'.
Proof.
  assert (forall b k c, NoDup (z_header zsl :: ptrs ((b ++ k) ++ c)) -> cursor zsl b = cursor zsl (b ++ k) -> k = []) as Hk.
  { intros b k c Hnd Hc. destruct k as [|x k _] using rev_ind; [done|]. exfalso. unfold cursor at 2 in Hc. rewrite app_assoc, back_snoc in Hc. cbn in Hc.
    pose proof (cursor_in zsl b k) as Hin. rewrite Hc in Hin. assert ((b ++ k ++ [x]) ++ c = (b ++ k) ++ x :: c) as Ec by by rewrite <- !app_assoc. rewrite Ec in Hnd.
    unfold ptrs in Hnd, Hin. rewrite (map_app _ (b ++ k)) in Hnd. rewrite app_comm_cons in Hnd. apply NoDup_app in Hnd as (_ & Hd & _).
    apply (Hd (i_ptr x)); [exact Hin|left]. }
  intros Hnd E Hc. apply app_eq_inv in E as [(k & -> & ->)|(k & -> & ->)].
  - rewrite (Hk a1' k a2 Hnd (eq_sym Hc)). apply app_nil_r.
  - rewrite (Hk a1 k a2'); [by rewrite app_nil_r|by rewrite <- app_assoc|done].
Qed.

(** What is left of [A] after its last node of level [i]. *)
Definition rest (i : nat) (A : list item) : list item := drop (length (upto i A)) A.

Lemma rest_spec i A : A = upto i A ++ rest i A /\ low i (rest i A) /\ aligned i (upto i A).
Proof.
  destruct (upto_split i A) as (r & E & Hlow & Hal). unfold rest.
  assert (drop (length (upto i A)) A = r) as -> by (rewrite E at 2; apply drop_app_length). by split_and!.
Qed.

Lemma repr_nodup_l F h zsl A C : repr F h zsl (A ++ C) -> NoDup (z_header zsl :: ptrs A).
Proof.
  intros Hr. pose proof (rp_nodup _ _ _ _ Hr) as Hnd. unfold ptrs in *. rewrite map_app, app_comm_cons in Hnd. by apply NoDup_app in Hnd as (? & _ & _).
Qed.

(** When the level-[i] entry under the search is redirected, every other entry of
    the header and the nodes before it stays right. *)
Lemma relink F h h' zsl A C C' i : repr F h zsl (A ++ C) -> (i < z_level zsl)%nat ->
  (forall q, q ∈ z_header zsl :: ptrs A ->
     lev h' q i = if decide (q = cursor zsl (upto i A)) then Some (fwd i (rest i A ++ C')) else lev h q i) ->
  forall a1 a2, A = a1 ++ a2 -> aligned i a1 -> lev h' (cursor zsl a1) i = Some (fwd i (a2 ++ C')).
Proof.
  intros Hr Hi Hlev a1 a2 HA Hal. destruct (rest_spec i A) as (E & Hlow & Hal0). pose proof (repr_nodup_l _ _ _ _ _ Hr) as Hnd.
  rewrite Hlev by (rewrite HA; apply cursor_in). destruct (decide _) as [Hc|Hc].
  - assert (a1 = upto i A) as -> by (eapply (cursor_inj zsl a1 a2 _ (rest i A)); [by rewrite <- HA|by rewrite <- HA|done]).
    assert (a2 = rest i A) as -> by (apply (app_inv_head (upto i A)); by rewrite <- HA). done.
  - destruct (low_or i a2) as [Hl2|(b & x & r & -> & Hx & _)].
    + exfalso. apply Hc. f_equal. rewrite HA. by rewrite upto_unique.
    + rewrite HA, <- app_assoc in Hr. rewrite (cursor_lev F h zsl a1 _ i Hr Hi Hal). by rewrite !fwd_hide.
Qed.

(** An item of a concatenation is in one of its parts. *)
Lemma split_app (A C l1 : list item) x l2 : A ++ C = l1 ++ x :: l2 ->
  (exists a2, A = l1 ++ x :: a2 /\ l2 = a2 ++ C) \/ (exists c1, l1 = A ++ c1 /\ C = c1 ++ x :: l2).
Proof.
  intros E. apply app_eq_inv in E as [(k & -> & E)|(k & -> & E)]; [|right; by exists k].
  destruct k as [|y k]; [right; exists []; split; [by rewrite !app_nil_r|by rewrite E]|]. injection E as <- ->. left. by exists k.
Qed.

Lemma cursor_snoc zsl a x : cursor zsl (a ++ [x]) = i_ptr x.
Proof. unfold cursor. by rewrite back_snoc. Qed.

Lemma back_app a l : l <> [] -> back (a ++ l) = back l.
Proof. destruct l as [|x l _] using rev_ind; [done|]. intros _. by rewrite app_assoc, !back_snoc. Qed.

Lemma info_dom h p : is_Some (info h p) <-> p ∈ dom h.
Proof. unfold info. rewrite elem_of_dom. destruct (h !! p); cbn; [|done]. split; by eexists. Qed.

(** ** Raising the header *)

Definition with_level (zsl : zskiplist) (k : nat) : zskiplist := mkZsl (z_header zsl) (z_tail zsl) (z_length zsl) k.

(** A list low enough has nothing at this level. *)
Lemma heights_low k l : Forall (fun x => (1 <= i_height x <= k)%nat) l -> low k l.
Proof. intros Hl. eapply Forall_impl; [exact Hl|]. cbn. intros; lia. Qed.

Lemma raise_step F h zsl l : repr F h zsl l -> (z_level zsl < ZSKIPLIST_MAXLEVEL)%nat -> exists e h',
  lev h (z_header zsl) (z_level zsl) = Some e /\ set_lev h (z_header zsl) (z_level zsl) (mkLevel (forward e) (z_length zsl)) = Some h' /\
  repr F h' (with_level zsl (S (z_level zsl))) l.
Proof.
  intros Hr Hl. pose proof (rp_header_up _ _ _ _ Hr (z_level zsl) ltac:(lia)) as Hup.
  destruct (lev h (z_header zsl) (z_level zsl)) as [e|] eqn:He; [|done]. cbn in Hup. injection Hup as Hup.
  destruct (rp_header _ _ _ _ Hr) as (s & Hh). destruct (set_lev_spec h (z_header zsl) (z_level zsl) (mkLevel (forward e) (z_length zsl)) _ _ _ _ Hh Hl) as (h' & E & Hd & Hi & Hv).
  exists e, h'. split_and!; [done|done|]. pose proof (heights_low _ _ (rp_heights _ _ _ _ Hr)) as Hlow. destruct Hr. constructor; cbn [with_level z_header z_tail z_length z_level]; try done.
  - by rewrite Hd.
  - exists s. by rewrite Hi.
  - intros i Hlt. rewrite Hv. destruct (decide _) as [[_ ->]|Hne]; [rewrite fwd_nil_low, Hup, rp_length0 by done; done|].
    apply rp_header_lev0. destruct (decide (i = z_level zsl)); [tauto|lia].
  - intros i Hge. rewrite Hv, decide_False by lia. apply rp_header_up0. lia.
  - intros l1 x l2 ->. rewrite Hi. by eapply rp_info0.
  - intros l1 x l2 i -> Hx. rewrite Hv, decide_False; [by eapply rp_lev0|]. intros [Hp _]. apply NoDup_cons in rp_nodup0 as [Hn _]. apply Hn. rewrite <- Hp.
    unfold ptrs. rewrite map_app, elem_of_app. right. left.
  - lia.
  - eapply Forall_impl; [exact rp_heights0|]. cbn. intros; lia.
Qed.

Lemma raise_levels_spec F l n : forall h zsl, repr F h zsl l -> (z_level zsl + n <= ZSKIPLIST_MAXLEVEL)%nat -> exists h',
  raise_levels n (z_level zsl) h (z_header zsl) (z_length zsl) = Some h' /\ repr F h' (with_level zsl (z_level zsl + n)) l.
Proof.
  induction n as [|n IH]; intros h zsl Hr Hn; cbn [raise_levels].
  - exists h. split; [done|]. rewrite Nat.add_0_r. by destruct zsl.
  - destruct (raise_step F h zsl l Hr ltac:(lia)) as (e & h1 & -> & E & Hr1). cbn [mbind option_bind]. rewrite E. cbn [mbind option_bind].
    destruct (IH h1 _ Hr1) as (h2 & E2 & Hr2); [cbn; lia|]. cbn [with_level z_header z_length z_level] in E2, Hr2. exists h2. split; [done|].
    by rewrite Nat.add_succ_r.
Qed.

(** The arrays have their entries for the new levels. *)
Lemma updates_raised zsl A n k : low n A -> updates zsl A (n + k) = updates zsl A n ++ replicate k (z_header zsl, 0).
Proof.
  intros Hl. unfold updates. rewrite seq_app, map_app. f_equal. cbn [Nat.add].
  assert (forall m, (n <= m)%nat -> map (fun i => (cursor zsl (upto i A), Z.of_nat (length (upto i A)))) (seq m k) = replicate k (z_header zsl, 0)) as Hk; [|by apply Hk].
  induction k as [|k IH]; intros m Hm; [done|]. cbn [seq map replicate]. rewrite IH, upto_low by (first [lia|apply (low_mono n); [lia|done]]). done.
Qed.

(** ** Rewiring *)

(** Below level [k], the entries under the search lead to [C']; other entries, the
    node [x] apart, are those of [h]. *)
Record rewired (zsl : zskiplist) (x : ptr) (A C' : list item) (k : nat) (h h' : heap) : Prop := {
  rw_dom : dom h' = dom h;
  rw_info q : info h' q = info h q;
  rw_lev q j : q <> x -> lev h' q j =
    if decide ((j < k)%nat /\ q = cursor zsl (upto j A)) then Some (fwd j (rest j A ++ C')) else lev h q j
}.

Lemma rewired_0 zsl x A C' h : rewired zsl x A C' 0 h h.
Proof. constructor; [done..|]. intros. by rewrite decide_False by lia. Qed.

Lemma rewired_step zsl x A C' k h h1 e h2 : rewired zsl x A C' k h h1 -> cursor zsl (upto k A) <> x ->
  set_lev h1 (cursor zsl (upto k A)) k e = Some h2 -> is_Some (lev h (cursor zsl (upto k A)) k) -> e = fwd k (rest k A ++ C') -> rewired zsl x A C' (S k) h h2 /\
  (forall j, lev h2 x j = lev h1 x j).
Proof.
  intros [Hd Hi Hv] Hx E [e0 He0] ->. destruct (lev_lt _ _ _ _ He0) as (e' & s & b & n & Hinfo & Hk). rewrite <- Hi in Hinfo.
  destruct (set_lev_spec h1 _ k (fwd k (rest k A ++ C')) _ _ _ _ Hinfo Hk) as (h2' & E' & Hd' & Hi' & Hv').
  rewrite E in E'. injection E' as <-. split; [constructor|].
  - by rewrite Hd'.
  - intros q. by rewrite Hi'.
  - intros q j Hq. rewrite Hv'. destruct (decide (q = _ /\ j = k)) as [[-> ->]|Hne]; [by rewrite decide_True by lia|].
    rewrite Hv by done. destruct (decide (_ /\ _)) as [[Hj ->]|Hno].
    + rewrite decide_True; [done|lia].
    + rewrite decide_False; [done|]. intros [Hj ->]. destruct (decide (j = k)) as [->|]; [tauto|]. apply Hno. split; [lia|done].
  - intros j. rewrite Hv'. by rewrite decide_False by (intros [-> _]; done).
Qed.

Lemma rewired_before F zsl x A C C' h h' : repr F h zsl (A ++ C) -> x ∉ z_header zsl :: ptrs A -> rewired zsl x A C' (z_level zsl) h h' ->
  forall i a1 a2, (i < z_level zsl)%nat -> A = a1 ++ a2 -> aligned i a1 -> lev h' (cursor zsl a1) i = Some (fwd i (a2 ++ C')).
Proof.
  intros Hr Hx Hw i a1 a2 Hi HA Hal. apply (relink F h h' zsl A C C' i Hr Hi); [|done..].
  intros q Hq. rewrite (rw_lev _ _ _ _ _ _ _ Hw) by (intros ->; done). destruct (decide (q = _)) as [->|Hne].
  - by rewrite decide_True.
  - by rewrite decide_False by tauto.
Qed.

Lemma rewired_after zsl x A C C' k h h' q j : rewired zsl x A C' k h h' -> NoDup (z_header zsl :: ptrs (A ++ C)) -> q ∈ ptrs C -> q <> x -> lev h' q j = lev h q j.
Proof.
  intros Hw Hnd Hq Hx. rewrite (rw_lev _ _ _ _ _ _ _ Hw) by done. rewrite decide_False; [done|]. intros [_ ->].
  unfold ptrs in Hnd. rewrite map_app, app_comm_cons in Hnd. apply NoDup_app in Hnd as (_ & Hd & _). apply (Hd (cursor zsl (upto j A))); [|exact Hq].
  destruct (rest_spec j A) as (E & _). rewrite E at 2. apply cursor_in.
Qed.

(** What the node under the search holds at its level. *)
Lemma update_lev F h zsl A C i : repr F h zsl (A ++ C) -> (i < z_level zsl)%nat ->
  lev h (cursor zsl (upto i A)) i = Some (mkLevel (forward (fwd i C)) (span (fwd i C) + Z.of_nat (length A - length (upto i A)))).
Proof.
  intros Hr Hi. destruct (rest_spec i A) as (E & Hlow & Hal). rewrite E, <- app_assoc in Hr.
  rewrite (cursor_lev F h zsl _ _ i Hr Hi Hal), fwd_low by done. unfold rest. by rewrite length_drop.
Qed.

Lemma upto_le i A : (length (upto i A) <= length A)%nat.
Proof. destruct (rest_spec i A) as (E & _). rewrite E at 2. rewrite length_app. lia. Qed.

(** ** Insertion *)

Section insert.
Context (F : gset ptr) (h : heap) (zsl : zskiplist) (A B : list item) (X : item) (us : list (ptr * Z)).
Abbreviation x := (i_ptr X).
Context (Hr : repr ({[x]} ∪ F) h zsl (A ++ B)) (Hx : x ∉ z_header zsl :: ptrs (A ++ B)).
Context (Hshort : Z.of_nat (length (A ++ B)) + 1 < 2 ^ 32) (Hheight : (1 <= i_height X <= z_level zsl)%nat).
Context (Hus : forall i, (i < z_level zsl)%nat -> us !! i = Some (cursor zsl (upto i A), Z.of_nat (length (upto i A)))).

Lemma update_ne i : cursor zsl (upto i A) <> x.
Proof.
  intros E. apply Hx. destruct (rest_spec i A) as (EA & _). rewrite EA, <- app_assoc, <- E. apply cursor_in.
Qed.

Lemma link_levels_spec jb : info h x = Some (Some (i_ele X), i_score X, jb, i_height X) -> forall n i h1, rewired zsl x A (X :: B) i h h1 -> (i + n = i_height X)%nat ->
  (forall j, (j < i)%nat -> lev h1 x j = Some (fwd j B)) -> exists h2,
  link_levels n i h1 x (Z.of_nat (length A)) us = Some h2 /\ rewired zsl x A (X :: B) (i_height X) h h2 /\
  (forall j, (j < i_height X)%nat -> lev h2 x j = Some (fwd j B)).
Proof.
  intros Hinfo. induction n as [|n IH]; intros i h1 Hw Hn Hlx; cbn [link_levels].
  - exists h1. rewrite Nat.add_0_r in Hn. subst i. by split_and!.
  - rewrite Hus by lia. cbn [mbind option_bind fst snd]. pose proof (update_lev _ h zsl A B i Hr ltac:(lia)) as Hl. pose proof (update_ne i) as Hne.
    pose proof (upto_le i A) as Hle. rewrite length_app in Hshort. pose proof (fwd_span_range i B) as Hs.
    rewrite (rw_lev _ _ _ _ _ _ _ Hw), decide_False, Hl by (done || lia). cbn [mbind option_bind forward span].
    rewrite (uwrap_small 32 (Z.of_nat (length A) - Z.of_nat (length (upto i A)))) by lia.
    rewrite (uwrap_small 64) by lia. rewrite (uwrap_small 32) by lia.
    replace (span (fwd i B) + Z.of_nat (length A - length (upto i A)) - (Z.of_nat (length A) - Z.of_nat (length (upto i A)))) with (span (fwd i B)) by lia.
    replace (mkLevel (forward (fwd i B)) (span (fwd i B))) with (fwd i B) by by destruct (fwd i B).
    assert (info h1 x = info h x) as Hix by apply (rw_info _ _ _ _ _ _ _ Hw). rewrite Hinfo in Hix.
    destruct (set_lev_spec h1 x i (fwd i B) _ _ _ _ Hix ltac:(lia)) as (h2 & -> & Hd2 & Hi2 & Hv2). cbn [mbind option_bind].
    assert (rewired zsl x A (X :: B) i h h2) as Hw2.
    { destruct Hw as [Hd Hi Hv]. constructor; [by rewrite Hd2|intros; by rewrite Hi2|]. intros q j Hq. rewrite Hv2, decide_False by tauto. by apply Hv. }
    destruct (lev_lt _ _ _ _ Hl) as (e0 & s0 & b0 & k0 & Hi0 & Hk0). rewrite <- (rw_info _ _ _ _ _ _ _ Hw2) in Hi0.
    destruct (set_lev_spec h2 _ i (mkLevel (Some x) (Z.of_nat (length A) - Z.of_nat (length (upto i A)) + 1)) _ _ _ _ Hi0 Hk0) as (h3 & E3 & _).
    rewrite E3. cbn [mbind option_bind]. edestruct (rewired_step zsl x A (X :: B) i h h2) as (Hw3 & Hx3); [done|done|exact E3|by rewrite Hl| |].
    { destruct (rest_spec i A) as (_ & Hlow & _). rewrite fwd_low by done. cbn [fwd]. rewrite (proj2 (Nat.ltb_lt _ _)) by lia. cbn [forward span].
      unfold rest. rewrite length_drop. f_equal. lia. }
    apply IH; [done|lia|]. intros j Hj. rewrite Hx3, Hv2. destruct (decide (x = x /\ j = i)) as [[_ ->]|Hji]; [done|]. apply Hlx. destruct (decide (j = i)); [tauto|lia].
Qed.

Lemma lengthen_levels_spec n : forall i h1, rewired zsl x A (X :: B) i h h1 -> (i_height X <= i)%nat -> (i + n = z_level zsl)%nat ->
  (forall j, (j < i_height X)%nat -> lev h1 x j = Some (fwd j B)) -> exists h2,
  lengthen_levels n i h1 us = Some h2 /\ rewired zsl x A (X :: B) (z_level zsl) h h2 /\
  (forall j, (j < i_height X)%nat -> lev h2 x j = Some (fwd j B)).
Proof.
  induction n as [|n IH]; intros i h1 Hw Hge Hn Hlx; cbn [lengthen_levels].
  - exists h1. rewrite Nat.add_0_r in Hn. subst i. by split_and!.
  - rewrite Hus by lia. cbn [mbind option_bind fst snd]. pose proof (update_lev _ h zsl A B i Hr ltac:(lia)) as Hl. pose proof (update_ne i) as Hne.
    pose proof (upto_le i A) as Hle. rewrite length_app in Hshort. pose proof (fwd_span_range i B) as Hs.
    rewrite (rw_lev _ _ _ _ _ _ _ Hw), decide_False, Hl by (done || lia). cbn [mbind option_bind forward span]. rewrite (uwrap_small 64) by lia.
    destruct (lev_lt _ _ _ _ Hl) as (e0 & s0 & b0 & k0 & Hi0 & Hk0). rewrite <- (rw_info _ _ _ _ _ _ _ Hw) in Hi0.
    match goal with |- context [set_lev h1 _ i ?e] => destruct (set_lev_spec h1 _ i e _ _ _ _ Hi0 Hk0) as (h3 & E3 & _) end. rewrite E3. cbn [mbind option_bind].
    edestruct (rewired_step zsl x A (X :: B) i h h1) as (Hw3 & Hx3); [done|done|exact E3|by rewrite Hl| |].
    { destruct (rest_spec i A) as (_ & Hlow & _). rewrite fwd_low by done. cbn [fwd]. rewrite (proj2 (Nat.ltb_ge _ _)) by lia. cbn [forward span].
      unfold rest. rewrite length_drop. f_equal. lia. }
    apply IH; [done|lia|lia|]. intros j Hj. rewrite Hx3. by apply Hlx.
Qed.
End insert.

(** ** Putting the list together again *)

Lemma in_ptrs (a : list item) y l2 : i_ptr y ∈ ptrs (a ++ y :: l2).
Proof. unfold ptrs. rewrite map_app, elem_of_app. right. left. Qed.

Lemma ptrs_app l1 l2 : ptrs (l1 ++ l2) = ptrs l1 ++ ptrs l2.
Proof. apply map_app. Qed.

(** Of the pointers of a list without duplicates, the last of a prefix is the
    prefix's own. *)
Lemma back_decide zsl A B : NoDup (z_header zsl :: ptrs (A ++ B)) ->
  (if bool_decide (cursor zsl A = z_header zsl) then None else Some (cursor zsl A)) = back A.
Proof.
  intros Hnd. destruct A as [|y A _] using rev_ind; [by rewrite bool_decide_eq_true_2|]. rewrite cursor_snoc, back_snoc, bool_decide_eq_false_2; [done|].
  intros E. apply NoDup_cons in Hnd as [Hn _]. apply Hn. rewrite <- E, <- app_assoc. apply in_ptrs.
Qed.

Lemma fwd_0 l : Forall (fun x => (1 <= i_height x)%nat) l -> forward (fwd 0 l) = i_ptr <$> head l.
Proof. destruct 1 as [|x l Hx _]; [done|]. cbn. destruct (i_height x); [lia|done]. Qed.

Lemma repr_fwd_0 F h zsl A B : repr F h zsl (A ++ B) -> forward (fwd 0 B) = i_ptr <$> head B.
Proof.
  intros Hr. pose proof (rp_heights _ _ _ _ Hr) as Hh. apply Forall_app in Hh as [_ Hh]. apply fwd_0.
  eapply Forall_impl; [exact Hh|]. cbn. intros; lia.
Qed.

(** The backward pointer of the node that follows. *)
Lemma set_next F h h2 zsl A M M' B : repr F h zsl (A ++ M ++ B) -> (forall q, q ∈ ptrs B -> info h2 q = info h q) -> exists h',
  (match forward (fwd 0 B) with
   | Some y => h ← set_backward h2 y (back (A ++ M')); Some (h, z_tail zsl)
   | None => Some (h2, back (A ++ M'))
   end) = Some (h', back (A ++ M' ++ B)) /\
  dom h' = dom h2 /\ (forall q j, lev h' q j = lev h2 q j) /\ (forall q, q ∉ ptrs B -> info h' q = info h2 q) /\
  (forall c1 y l2, B = c1 ++ y :: l2 -> info h' (i_ptr y) = Some (Some (i_ele y), i_score y, back (A ++ M' ++ c1), i_height y)).
Proof.
  intros Hr Hi. pose proof Hr as Hr0. rewrite app_assoc in Hr. rewrite (repr_fwd_0 _ _ _ _ _ Hr). destruct B as [|y B]; cbn [head fmap option_fmap option_map].
  { exists h2. rewrite app_nil_r. split_and!; try done. by intros [|? ?]. }
  pose proof (rp_info _ _ _ _ Hr (A ++ M) y B eq_refl) as Hy. rewrite <- Hi in Hy by left.
  destruct (set_backward_spec h2 _ (back (A ++ M')) _ _ _ _ Hy) as (h' & E & Hd & Hinfo & Hlev). 
  rewrite E. cbn [mbind option_bind]. exists h'. split_and!; try done.
  - rewrite (rp_tail _ _ _ _ Hr0), !app_assoc. by rewrite !back_app.
  - intros q Hq. rewrite Hinfo, decide_False; [done|]. intros ->. apply Hq. left.
  - intros c1 z l2 EB. rewrite Hinfo. destruct c1 as [|y' c1].
    + injection EB as <- <-. by rewrite decide_True, app_nil_r.
    + injection EB as <- ->. pose proof (rp_nodup _ _ _ _ Hr) as Hnd. rewrite decide_False.
      * rewrite Hi by (right; apply in_ptrs). rewrite (rp_info _ _ _ _ Hr ((A ++ M) ++ y :: c1) z l2) by by rewrite <- !app_assoc.
        by rewrite !app_assoc, !back_app.
      * intros E'. apply NoDup_cons in Hnd as [_ Hnd]. rewrite ptrs_app in Hnd. apply NoDup_app in Hnd as (_ & _ & Hnd). cbn in Hnd. apply NoDup_cons in Hnd as [Hn _].
        apply Hn. rewrite <- E'. apply in_ptrs.
Qed.

(** Levels and contents of everything but the node in the middle. *)
Lemma rebuilt F h h2 h' zsl A M M' B x : repr F h zsl (A ++ M ++ B) -> x ∉ z_header zsl :: ptrs (A ++ B) ->
  rewired zsl x A (M' ++ B) (z_level zsl) h h2 ->
  (forall q j, lev h' q j = lev h2 q j) -> (forall q, q ∈ z_header zsl :: ptrs A -> info h' q = info h2 q) ->
  (forall i, (i < z_level zsl)%nat -> lev h' (z_header zsl) i = Some (fwd i (A ++ M' ++ B))) /\
  (forall i, (z_level zsl <= i)%nat -> lev h' (z_header zsl) i = lev h (z_header zsl) i) /\
  info h' (z_header zsl) = info h (z_header zsl) /\
  (forall l1 y a2, A = l1 ++ y :: a2 -> info h' (i_ptr y) = Some (Some (i_ele y), i_score y, back l1, i_height y) /\
     forall i, (i < i_height y)%nat -> lev h' (i_ptr y) i = Some (fwd i (a2 ++ M' ++ B))) /\
  (forall c1 y l2 i, B = c1 ++ y :: l2 -> (i < i_height y)%nat -> lev h' (i_ptr y) i = Some (fwd i l2)).
Proof.
  intros Hr Hx Hw Hlev Hinfo. rewrite ptrs_app, app_comm_cons, not_elem_of_app in Hx. destruct Hx as [HxA HxB].
  pose proof (rewired_before F zsl x A (M ++ B) (M' ++ B) h h2 Hr HxA Hw) as Hbefore.
  assert (x <> z_header zsl) as Hxh by (intros ->; apply HxA; left). split_and!.
  - intros i Hi. rewrite Hlev. apply (Hbefore i [] A Hi eq_refl). by left.
  - intros i Hi. rewrite Hlev, (rw_lev _ _ _ _ _ _ _ Hw), decide_False by (done || lia). done.
  - rewrite Hinfo by left. apply (rw_info _ _ _ _ _ _ _ Hw).
  - intros l1 y a2 E. split.
    + rewrite Hinfo, (rw_info _ _ _ _ _ _ _ Hw) by (right; rewrite E; apply in_ptrs). apply (rp_info _ _ _ _ Hr l1 y (a2 ++ M ++ B)). by rewrite E, <- app_assoc.
    + intros i Hi. rewrite Hlev, <- (cursor_snoc zsl l1 y). apply Hbefore.
      * pose proof (rp_heights _ _ _ _ Hr) as Hh. rewrite E, !Forall_app, Forall_cons in Hh. lia.
      * by rewrite E, <- app_assoc.
      * right. by exists l1, y.
  - intros c1 y l2 i E Hi. rewrite Hlev. rewrite (rewired_after zsl x A (M ++ B) (M' ++ B) (z_level zsl) h h2); [|done|exact (rp_nodup _ _ _ _ Hr)| |].
    + apply (rp_lev _ _ _ _ Hr (A ++ M ++ c1) y l2 i); [|done]. by rewrite E, <- !app_assoc.
    + rewrite ptrs_app, elem_of_app. right. rewrite E. apply in_ptrs.
    + intros <-. apply HxB. rewrite E. apply in_ptrs.
Qed.

Lemma set_backward_other h p (b b0 : option ptr) e s k : info h p = Some (e, s, b0, k) -> exists h', set_backward h p b = Some h' /\
  dom h' = dom h /\ info h' p = Some (e, s, b, k) /\ (forall q, q <> p -> info h' q = info h q) /\ (forall q j, lev h' q j = lev h q j).
Proof.
  intros Hi. destruct (set_backward_spec h p b _ _ _ _ Hi) as (h' & E & Hd & Hi' & Hl). exists h'. split_and!; try done.
  - by rewrite Hi', decide_True.
  - intros q Hq. by rewrite Hi', decide_False.
Qed.

(** A block that was just allocated. *)
Lemma create_repr F h zsl l x n : repr F h zsl l -> x ∉ dom h -> repr ({[x]} ∪ F) (<[x := n]> h) zsl l.
Proof.
  intros Hr Hx. assert (forall q, q ∈ z_header zsl :: ptrs l -> q <> x) as Hne.
  { intros q Hq ->. apply Hx. rewrite (rp_dom _ _ _ _ Hr). set_solver. }
  assert (forall q, q <> x -> info (<[x := n]> h) q = info h q) as Hi by (intros q Hq; unfold info; by rewrite lookup_insert_ne).
  assert (forall q i, q <> x -> lev (<[x := n]> h) q i = lev h q i) as Hv by (intros q i Hq; unfold lev; by rewrite lookup_insert_ne).
  assert (z_header zsl <> x) as Hh by (apply Hne; left). destruct Hr. constructor; try done.
  - rewrite dom_insert_L, rp_dom0. set_solver.
  - intros p [->%elem_of_singleton|Hp]%elem_of_union; [|by apply rp_frame0]. intros Hin. by apply (Hne x).
  - rewrite Hi by done. done.
  - intros i Hlt. rewrite Hv by done. by apply rp_header_lev0.
  - intros i Hlt. rewrite Hv by done. by apply rp_header_up0.
  - intros l1 y l2 ->. rewrite Hi; [by eapply rp_info0|]. apply Hne. right. apply in_ptrs.
  - intros l1 y l2 i -> Hlt. rewrite Hv; [by eapply rp_lev0|]. apply Hne. right. apply in_ptrs.
Qed.

Lemma sorted_insert A B X : StronglySorted item_lt (A ++ B) -> Forall (fun y => item_lt y X) A -> Forall (item_lt X) B -> StronglySorted item_lt (A ++ X :: B).
Proof.
  intros Hs HA HB. induction A as [|y A IH]; cbn [app] in *; [by constructor|]. inversion Hs as [|? ? Hs' Hf]; subst. inversion HA; subst.
  constructor; [by apply IH|]. rewrite Forall_app in *. split; [tauto|]. constructor; tauto.
Qed.

(** The new node is in place. *)
Lemma zsl_insert_repr F h h2 zsl A B X : repr ({[i_ptr X]} ∪ F) h zsl (A ++ B) -> i_ptr X ∉ z_header zsl :: ptrs (A ++ B) -> i_ptr X ∉ F ->
  Z.of_nat (length (A ++ B)) + 1 < 2 ^ 32 -> (1 <= i_height X <= z_level zsl)%nat -> isnan (i_score X) = false ->
  Forall (fun y => item_lt y X) A -> Forall (item_lt X) B ->
  (exists jb, info h (i_ptr X) = Some (Some (i_ele X), i_score X, jb, i_height X)) ->
  rewired zsl (i_ptr X) A (X :: B) (z_level zsl) h h2 -> (forall j, (j < i_height X)%nat -> lev h2 (i_ptr X) j = Some (fwd j B)) ->
  exists h' tail,
  (h ← set_backward h2 (i_ptr X) (if bool_decide (cursor zsl A = z_header zsl) then None else Some (cursor zsl A));
   l ← lev h (i_ptr X) 0;
   match forward l with
   | Some y => h ← set_backward h y (Some (i_ptr X)); Some (h, z_tail zsl)
   | None => Some (h, Some (i_ptr X))
   end) = Some (h', tail) /\
  repr F h' (mkZsl (z_header zsl) tail (u64 (z_length zsl + 1)) (z_level zsl)) (A ++ X :: B).
Proof.
  intros Hr Hx HxF Hshort Hheight Hnan HA HB (jb & Hj) Hw Hlx. pose proof (rp_nodup _ _ _ _ Hr) as Hnd. rewrite (back_decide zsl A B Hnd).
  rewrite <- (rw_info _ _ _ _ _ _ _ Hw) in Hj. destruct (set_backward_other h2 _ (back A) _ _ _ _ Hj) as (h3 & -> & Hd3 & Hix & Hi3 & Hv3). cbn [mbind option_bind].
  rewrite Hv3, Hlx by lia. cbn [mbind option_bind].
  assert (forall q, q ∈ z_header zsl :: ptrs (A ++ B) -> q <> i_ptr X) as Hne by (intros q Hq ->; done).
  destruct (set_next _ h h3 zsl A [] [X] B Hr) as (h' & E & Hd' & Hv' & Hi' & HB').
  { intros q Hq. rewrite Hi3, (rw_info _ _ _ _ _ _ _ Hw); [done|]. apply Hne. right. rewrite ptrs_app, elem_of_app. by right. }
  rewrite back_snoc in E. rewrite E. exists h', (back (A ++ [X] ++ B)). split; [done|]. cbn [app] in *.
  destruct (rebuilt _ h h2 h' zsl A [] [X] B (i_ptr X) Hr Hx Hw) as (Hlev & Hup & Hhd & HA' & HBlev).
  { intros q j. by rewrite Hv', Hv3. }
  { intros q Hq. rewrite Hi', Hi3; [done| |].
    - apply Hne. rewrite ptrs_app. set_solver.
    - intros Hq2. rewrite ptrs_app, app_comm_cons in Hnd. apply NoDup_app in Hnd as (_ & Hdis & _). by apply (Hdis q). }
  assert (i_ptr X ∉ ptrs B) as HxB by (rewrite ptrs_app in Hx; set_solver).
  destruct Hr. constructor; cbn [z_header z_tail z_length z_level]; try done.
  - rewrite Hd', Hd3, (rw_dom _ _ _ _ _ _ _ Hw), rp_dom0, !ptrs_app. cbn [ptrs map]. rewrite !list_to_set_app_L. cbn. unfold ptrs. set_solver.
  - rewrite ptrs_app in *. cbn. rewrite <- Permutation_middle. apply NoDup_cons in Hnd as [Hn1 Hn2]. apply NoDup_cons. split; [set_solver|]. apply NoDup_cons. split; [set_solver|done].
  - intros p Hp. pose proof (rp_frame0 p ltac:(set_solver)) as Hf. rewrite ptrs_app in *. cbn. assert (p <> i_ptr X) by (intros ->; done). unfold ptrs in *. set_solver.
  - destruct rp_header0 as (s & Hs). exists s. by rewrite Hhd.
  - intros i Hi. rewrite Hup by lia. by apply rp_header_up0.
  - intros l1 y l2 Es. apply split_app in Es as [(a2 & Ea & ->)|(c1 & -> & Ec)]; [by apply (HA' l1 y a2)|].
    destruct c1 as [|z c1]; cbn in Ec; injection Ec as <- Ec.
    + rewrite Hi', Hix, app_nil_r by done. done.
    + by apply HB' with (l2 := l2).
  - intros l1 y l2 i Es Hi. apply split_app in Es as [(a2 & Ea & ->)|(c1 & -> & Ec)]; [by apply (HA' l1 y a2)|].
    destruct c1 as [|z c1]; cbn in Ec; injection Ec as <- Ec.
    + subst l2. rewrite Hv', Hv3. by apply Hlx.
    + by apply HBlev with (c1 := c1).
  - rewrite Forall_app in *. split; [tauto|]. constructor; [lia|tauto].
  - rewrite rp_length0, uwrap_small by lia. rewrite !length_app. cbn [length]. lia.
  - rewrite length_app in Hshort |- *. cbn [length]. lia.
  - rewrite Forall_app in *. split; [tauto|]. constructor; tauto.
  - by apply sorted_insert.
Qed.

(** ** Searching by key *)

(** Where a predicate that holds of smaller items stops. *)
Lemma split_mono {T} (lt : T -> T -> Prop) (P : T -> bool) (l : list T) : StronglySorted lt l -> (forall x y, lt x y -> P y = true -> P x = true) ->
  exists A B : list T, l = A ++ B /\ Forall (fun x => P x = true) A /\ Forall (fun x => P x = false) B.
Proof.
  intros Hs Hm. induction Hs as [|x l _ (A & B & -> & HA & HB) Hx]; [by exists [], []|]. destruct (P x) eqn:Hp.
  - exists (x :: A), B. split_and!; [done|by constructor|done].
  - exists [], (x :: A ++ B). split_and!; [done|constructor|]. constructor; [done|]. eapply Forall_impl; [exact Hx|]. cbn. intros y Hlt.
    destruct (P y) eqn:Hy; [|done]. by rewrite (Hm x y Hlt Hy) in Hp.
Qed.

Lemma selects_intro F h zsl A B cond (P : item -> bool) : repr F h zsl (A ++ B) ->
  (forall x n d, n_ele n = Some (i_ele x) -> n_score n = i_score x -> cond n d = P x) ->
  Forall (fun x => P x = true) A -> Forall (fun x => P x = false) B -> selects h cond (A ++ B) (length A).
Proof.
  intros Hr HP HA HB l1 x l2 n E Hn. pose proof Hr as Hr'. rewrite E in Hr'. destruct (node_of _ _ _ _ _ _ Hr') as (n' & Hn' & He & Hs & _).
  rewrite Hn in Hn'. injection Hn' as <-. rewrite (HP x n) by done. apply split_app in E as [(a2 & -> & ->)|(c1 & -> & ->)]; rewrite ?length_app.
  - rewrite Forall_app, Forall_cons in HA. rewrite (proj2 (Nat.ltb_lt _ _)); [tauto|]. cbn. lia.
  - rewrite Forall_app, Forall_cons in HB. rewrite (proj2 (Nat.ltb_ge _ _)); [tauto|]. lia.
Qed.

Definition key_ltb (s1 : Z) (e1 : list byte) (s2 : Z) (e2 : list byte) : bool := dlt s1 s2 || (deq s1 s2 && lex_lt e1 e2).

Lemma key_ltb_spec s1 e1 s2 e2 : isnan s1 = false -> isnan s2 = false -> key_ltb s1 e1 s2 e2 = true <-> key_lt s1 e1 s2 e2.
Proof.
  intros H1 H2. unfold key_ltb, key_lt, dlt, deq. rewrite H1, H2. cbn [negb andb]. by rewrite orb_true_iff, andb_true_iff, Z.ltb_lt, Z.eqb_eq.
Qed.

Lemma before_spec s e x n d : n_ele n = Some (i_ele x) -> n_score n = i_score x -> before s e n d = key_ltb (i_score x) (i_ele x) s e.
Proof. intros He Hs. unfold before, node_cmp, key_ltb. by rewrite He, Hs, ele_cmp_lt. Qed.

Lemma sorted_scores l : Forall (fun x => isnan (i_score x) = false) l -> StronglySorted item_lt l ->
  StronglySorted (fun x y => item_lt x y /\ isnan (i_score x) = false /\ isnan (i_score y) = false) l.
Proof.
  intros Hn Hs. induction Hs as [|x l _ IH Hx]; [constructor|]. inversion Hn; subst. constructor; [by apply IH|].
  rewrite Forall_forall in *. intros y Hy. split_and!; auto.
Qed.

(** The position of a key. *)
Lemma split_key F h zsl l s e : repr F h zsl l -> isnan s = false -> exists A B, l = A ++ B /\
  Forall (fun x => key_ltb (i_score x) (i_ele x) s e = true) A /\ Forall (fun x => key_ltb (i_score x) (i_ele x) s e = false) B.
Proof.
  intros Hr Hs. apply (split_mono (fun x y => item_lt x y /\ isnan (i_score x) = false /\ isnan (i_score y) = false) (fun x => key_ltb (i_score x) (i_ele x) s e)).
  - apply sorted_scores; apply Hr.
  - intros x y (Hlt & Hx & Hy). rewrite !key_ltb_spec by done. by apply key_lt_trans.
Qed.

Lemma search_key F h zsl A B s e w : repr F h zsl (A ++ B) -> 32 <= w ->
  Forall (fun x => key_ltb (i_score x) (i_ele x) s e = true) A -> Forall (fun x => key_ltb (i_score x) (i_ele x) s e = false) B ->
  descend w (before s e) (walk_fuel zsl) h (z_level zsl) (z_header zsl) 0 = Some (updates zsl A (z_level zsl)).
Proof.
  intros Hr Hw HA HB. apply (descend_spec F h zsl A B); [done| |done].
  apply (selects_intro F h zsl A B _ (fun x => key_ltb (i_score x) (i_ele x) s e)); try done. intros. by apply before_spec.
Qed.

(** ** The contents of the list *)

Definition contents (l : list item) : list (Z * list byte) := map (fun x => (i_score x, i_ele x)) l.

Definition pair_ltb (p q : Z * list byte) : bool := key_ltb p.1 p.2 q.1 q.2.

(** Insertion into a sorted list. *)
Fixpoint sorted_add (p : Z * list byte) (l : list (Z * list byte)) : list (Z * list byte) :=
  match l with
  | [] => [p]
  | q :: l' => if pair_ltb q p then q :: sorted_add p l' else p :: l
  end.

Lemma sorted_add_spec A B X : Forall (fun x => key_ltb (i_score x) (i_ele x) (i_score X) (i_ele X) = true) A ->
  Forall (fun x => key_ltb (i_score x) (i_ele x) (i_score X) (i_ele X) = false) B ->
  sorted_add (i_score X, i_ele X) (contents (A ++ B)) = contents (A ++ X :: B).
Proof.
  intros HA HB. induction HA as [|x A Hx _ IH]; cbn [app contents map sorted_add].
  - destruct HB as [|y B Hy _]; cbn [map sorted_add]; [done|]. unfold pair_ltb. cbn [fst snd]. by rewrite Hy.
  - unfold pair_ltb. cbn [fst snd]. rewrite Hx. f_equal. exact IH.
Qed.

Lemma random_level_ge rnd : forall k (l : nat) (r : list Z), random_level rnd k = Some (l, r) -> (k <= l)%nat.
Proof.
  induction rnd as [|v rnd IH]; intros k l r; cbn [random_level]; [done|]. destruct (4 * Z.land v 0xFFFF <? 0xFFFF).
  - intros H%IH. lia.
  - intros [= <- _]. lia.
Qed.

Lemma zslRandomLevel_range rnd (l : nat) (r : list Z) : zslRandomLevel rnd = Some (l, r) -> (1 <= l <= ZSKIPLIST_MAXLEVEL)%nat.
Proof.
  unfold zslRandomLevel. destruct (random_level rnd 1) as [[l0 r0]|] eqn:E; [|done]. cbn [mbind option_bind fst snd]. apply random_level_ge in E.
  unfold ZSKIPLIST_MAXLEVEL. destruct (l0 <? 64)%nat eqn:Hlt; intros [= <- _]; [apply Nat.ltb_lt in Hlt|]; lia.
Qed.

Section allocator.
Context (zmalloc : heap -> ptr) (junk_level : zskiplistLevel) (junk_backward : option ptr).
Context (zmalloc_fresh : forall h : heap, zmalloc h ∉ dom h).

(** The key is not in the list: [B] comes after it. *)
Lemma after_key B X : Forall (fun x => isnan (i_score x) = false) B -> isnan (i_score X) = false ->
  Forall (fun y => ~ (deq (i_score y) (i_score X) = true /\ i_ele y = i_ele X)) B ->
  Forall (fun x => key_ltb (i_score x) (i_ele x) (i_score X) (i_ele X) = false) B -> Forall (item_lt X) B.
Proof.
  intros Hn HX Hk Hb. rewrite Forall_forall in *. intros y Hy. specialize (Hn y Hy). specialize (Hk y Hy). specialize (Hb y Hy). unfold item_lt, key_lt.
  assert (~ key_lt (i_score y) (i_ele y) (i_score X) (i_ele X)) as Hno by (rewrite <- key_ltb_spec by done; by rewrite Hb).
  unfold key_lt in Hno. unfold deq in Hk. rewrite Hn, HX in Hk. cbn [negb andb] in Hk. rewrite Z.eqb_eq in Hk.
  destruct (Z.lt_trichotomy (double_key (i_score X)) (double_key (i_score y))) as [?|[Heq|?]]; [by left| |tauto].
  right. split; [done|]. destruct (lex_lt_total (i_ele X) (i_ele y)) as [?|[He|?]]; [done| |]; [|exfalso; apply Hno; by right].
  exfalso. apply Hk. by split.
Qed.

Lemma zslInsert_spec F h zsl l rnd rnd' level s e : repr F h zsl l -> isnan s = false ->
  Forall (fun y => ~ (deq (i_score y) s = true /\ i_ele y = e)) l -> Z.of_nat (length l) + 1 < 2 ^ 32 -> zslRandomLevel rnd = Some (level, rnd') ->
  exists A B h' zsl' x, l = A ++ B /\ (x ∉ dom h) /\ sorted_add (s, e) (contents l) = contents (A ++ mkItem x level s e :: B) /\
  zslInsert zmalloc junk_level junk_backward h zsl rnd s e = Some (h', zsl', rnd', x) /\ repr F h' zsl' (A ++ mkItem x level s e :: B).
Proof.
  intros Hr Hs Hfresh Hshort Hrnd. pose proof (zslRandomLevel_range _ _ _ Hrnd) as Hrange. destruct (split_key F h zsl l s e Hr Hs) as (A & B & -> & HA & HB).
  unfold zslInsert. rewrite Hs, (search_key F h zsl A B s e 32 Hr ltac:(lia) HA HB), Hrnd. cbn [mbind option_bind].
  assert (exists h1, repr F h1 (with_level zsl (max (z_level zsl) level)) (A ++ B) /\ dom h1 = dom h /\
    (if (z_level zsl <? level)%nat then
       h ← raise_levels (level - z_level zsl) (z_level zsl) h (z_header zsl) (z_length zsl);
       Some (h, updates zsl A (z_level zsl) ++ replicate (level - z_level zsl) (z_header zsl, 0), level)
     else Some (h, updates zsl A (z_level zsl), z_level zsl)) =
    Some (h1, updates zsl A (max (z_level zsl) level), max (z_level zsl) level)) as (h1 & Hr1 & Hd1 & ->).
  { destruct (_ <? _)%nat eqn:Hlv; [apply Nat.ltb_lt in Hlv|apply Nat.ltb_ge in Hlv].
    - destruct (raise_levels_spec F (A ++ B) (level - z_level zsl) h zsl Hr ltac:(lia)) as (h1 & -> & Hr1). cbn [mbind option_bind]. exists h1.
      replace (max (z_level zsl) level) with (z_level zsl + (level - z_level zsl))%nat by lia. split_and!; [done| |].
      + by rewrite (rp_dom _ _ _ _ Hr1), (rp_dom _ _ _ _ Hr).
      + rewrite updates_raised; [do 2 f_equal; lia|]. pose proof (heights_low _ _ (rp_heights _ _ _ _ Hr)) as Hl. by apply Forall_app in Hl as [? _].
    - exists h. rewrite Nat.max_l by done. split_and!; [|done..]. by destruct zsl. }
  cbn [mbind option_bind]. set (k := max (z_level zsl) level) in *. set (zsl1 := with_level zsl k) in *.
  unfold zslCreateNode. set (x := zmalloc h1). pose proof (zmalloc_fresh h1) as Hx. fold x in Hx. set (X := mkItem x level s e).
  pose proof (create_repr F h1 zsl1 (A ++ B) x (mkNode (Some e) s junk_backward (replicate level junk_level)) Hr1 Hx) as Hr2.
  set (h2 := <[x := _]> h1) in *.
  assert (x ∉ z_header zsl1 :: ptrs (A ++ B)) as HxA by (rewrite (rp_dom _ _ _ _ Hr1) in Hx; set_solver).
  assert (x ∉ F) as HxF by (rewrite (rp_dom _ _ _ _ Hr1) in Hx; set_solver).
  assert (Hus : forall i, (i < z_level zsl1)%nat -> updates zsl A k !! i = Some (cursor zsl1 (upto i A), Z.of_nat (length (upto i A)))) by (intros i Hi; exact (updates_lookup zsl A k i Hi)).
  rewrite (Hus 0%nat) by (cbn; lia). cbn [mbind option_bind fst snd]. rewrite (repr_upto_0 _ _ _ _ _ Hr1).
  assert (info h2 (i_ptr X) = Some (Some (i_ele X), i_score X, junk_backward, i_height X)) as Hinfo.
  { unfold info, h2. rewrite lookup_insert_eq. cbn. by rewrite length_replicate. }
  destruct (link_levels_spec F h2 zsl1 A B X (updates zsl A k) Hr2 HxA ltac:(lia) ltac:(cbn; lia) Hus junk_backward Hinfo level 0 h2) as (h3 & E3 & Hw3 & Hx3);
    [apply rewired_0|done|lia|].
  change (i_ptr X) with x in E3. rewrite E3. cbn [mbind option_bind].
  destruct (lengthen_levels_spec F h2 zsl1 A B X (updates zsl A k) Hr2 HxA ltac:(lia) ltac:(cbn; lia) Hus (k - level) level h3) as (h4 & E4 & Hw4 & Hx4);
    [done|done|cbn; lia|done|].
  rewrite E4. cbn [mbind option_bind].
  edestruct (zsl_insert_repr F h2 h4 zsl1 A B X) as (h5 & tail & E5 & Hr5); try done; [cbn; lia| | |by eexists|].
  { pose proof (rp_scores _ _ _ _ Hr) as Hn. rewrite Forall_app in Hn. rewrite Forall_forall in *. intros y Hy. apply key_ltb_spec; [|done|by apply HA]. by apply Hn. }
  { apply after_key; try done; [pose proof (rp_scores _ _ _ _ Hr) as Hn; by apply Forall_app in Hn as [_ ?]|by apply Forall_app in Hfresh as [_ ?]]. }
  exists A, B, h5, (mkZsl (z_header zsl1) tail (u64 (z_length zsl1 + 1)) (z_level zsl1)), x. split_and!; [done|by rewrite <- Hd1|by apply sorted_add_spec with (X := X)| |done].
  clear - E5. destruct (set_backward h4 _ _) as [h6|]; [|done]. cbn [mbind option_bind] in *. change (i_ptr X) with x in E5. destruct (lev h6 x 0) as [ll|]; [|done].
  cbn [mbind option_bind] in *. change (z_tail zsl1) with (z_tail zsl) in E5. by rewrite E5.
Qed.
End allocator.

(** ** Deletion *)

Lemma fwd_in i l p : forward (fwd i l) = Some p -> p ∈ ptrs l.
Proof.
  destruct (fwd i l) as [f s] eqn:E. cbn. intros ->. destruct (fwd_next _ _ _ _ E) as (a & x & r & -> & _ & _ & <- & _). apply in_ptrs.
Qed.

Section delete.
Context (F : gset ptr) (h : heap) (zsl : zskiplist) (A B : list item) (X : item) (us : list (ptr * Z)).
Abbreviation x := (i_ptr X).
Context (Hr : repr F h zsl (A ++ X :: B)).
Context (Hus : forall i, (i < z_level zsl)%nat -> exists rank, us !! i = Some (cursor zsl (upto i A), rank)).

Lemma removed_fresh : x ∉ z_header zsl :: ptrs (A ++ B).
Proof.
  pose proof (rp_nodup _ _ _ _ Hr) as Hnd. rewrite ptrs_app in *. cbn in Hnd. rewrite <- Permutation_middle, Permutation_swap in Hnd.
  by apply NoDup_cons in Hnd as [? _].
Qed.

Lemma removed_ne i : cursor zsl (upto i A) <> x.
Proof.
  intros E. apply removed_fresh. destruct (rest_spec i A) as (EA & _). rewrite EA, <- app_assoc, <- E. apply cursor_in.
Qed.

Lemma unlink_levels_spec n : forall i h1, rewired zsl x A B i h h1 -> (i + n = z_level zsl)%nat -> (forall j, lev h1 x j = lev h x j) ->
  exists h2, unlink_levels n i h1 x us = Some h2 /\ rewired zsl x A B (z_level zsl) h h2 /\ (forall j, lev h2 x j = lev h x j).
Proof.
  induction n as [|n IH]; intros i h1 Hw Hn Hlx; cbn [unlink_levels].
  - exists h1. rewrite Nat.add_0_r in Hn. subst i. by split_and!.
  - destruct (Hus i ltac:(lia)) as (rank & ->). cbn [mbind option_bind fst snd]. pose proof (update_lev _ h zsl A (X :: B) i Hr ltac:(lia)) as Hl.
    pose proof (removed_ne i) as Hne. pose proof (upto_le i A) as Hle. pose proof (rp_short _ _ _ _ Hr) as Hshort. rewrite length_app in Hshort. cbn [length] in Hshort.
    pose proof (fwd_span_range i B) as Hs. rewrite (rw_lev _ _ _ _ _ _ _ Hw (cursor zsl (upto i A))), decide_False, Hl by (done || lia). cbn [mbind option_bind forward span].
    assert ((h ← (if bool_decide (forward (fwd i (X :: B)) = Some x)
       then lx ← lev h1 x i; set_lev h1 (cursor zsl (upto i A)) i
             (mkLevel (forward lx) (u64 (span (fwd i (X :: B)) + Z.of_nat (length A - length (upto i A)) + u64 (span lx - 1))))
       else set_lev h1 (cursor zsl (upto i A)) i
             (mkLevel (forward (fwd i (X :: B))) (u64 (span (fwd i (X :: B)) + Z.of_nat (length A - length (upto i A)) - 1)))); unlink_levels n (S i) h x us) =
       (h ← set_lev h1 (cursor zsl (upto i A)) i (fwd i (rest i A ++ B)); unlink_levels n (S i) h x us)) as ->.
    { f_equal. destruct (rest_spec i A) as (_ & Hlow & _). rewrite (fwd_low i (rest i A) B) by done. unfold rest. rewrite length_drop. cbn [fwd]. destruct (i <? i_height X)%nat eqn:Hh.
      - apply Nat.ltb_lt in Hh. cbn [forward span]. rewrite bool_decide_eq_true_2 by done. rewrite Hlx, (rp_lev _ _ _ _ Hr A X B i eq_refl Hh). cbn [mbind option_bind].
        do 2 f_equal. unfold uwrap. rewrite Z.add_mod_idemp_r by lia. rewrite Z.mod_small; lia.
      - cbn [forward span]. rewrite bool_decide_eq_false_2.
        + do 2 f_equal. rewrite uwrap_small; lia.
        + intros E%fwd_in. apply removed_fresh. right. rewrite ptrs_app, elem_of_app. by right. }
    destruct (lev_lt _ _ _ _ Hl) as (e0 & s0 & b0 & k0 & Hi0 & Hk0). rewrite <- (rw_info _ _ _ _ _ _ _ Hw) in Hi0.
    destruct (set_lev_spec h1 _ i (fwd i (rest i A ++ B)) _ _ _ _ Hi0 Hk0) as (h3 & E3 & _). rewrite E3. cbn [mbind option_bind].
    destruct (rewired_step zsl x A B i h h1 _ h3 Hw Hne E3 ltac:(by rewrite Hl) eq_refl) as (Hw3 & Hx3).
    apply IH; [done|lia|]. intros j. by rewrite Hx3.
Qed.
End delete.

(** The header is lowered past empty levels. *)
Lemma lower_repr F h zsl l k : repr F h zsl l -> z_level zsl = S (S k) -> forward <$> lev h (z_header zsl) (S k) = Some None -> repr F h (with_level zsl (S k)) l.
Proof.
  intros Hr Hk Hf. assert (low (S k) l) as Hlow.
  { apply fwd_none. rewrite (rp_header_lev _ _ _ _ Hr) in Hf by lia. by injection Hf. }
  destruct Hr. constructor; cbn [with_level z_header z_tail z_length z_level]; try done.
  - intros i Hi. apply rp_header_lev0. lia.
  - intros i Hi. destruct (decide (i = S k)) as [->|]; [done|]. apply rp_header_up0. lia.
  - lia.
  - unfold low in Hlow. rewrite Forall_forall in *. intros y Hy. specialize (Hlow y Hy). specialize (rp_heights0 y Hy). lia.
Qed.

Lemma lower_level_spec F h l k : forall zsl, z_level zsl = k -> repr F h zsl l -> exists k', lower_level k h (z_header zsl) = Some k' /\ (k' <= k)%nat /\ repr F h (with_level zsl k') l.
Proof.
  induction k as [|k IH]; intros zsl Hk Hr; [pose proof (rp_level _ _ _ _ Hr); lia|]. cbn [lower_level]. destruct k as [|k].
  { exists 1%nat. split_and!; [done|lia|]. rewrite <- Hk. by destruct zsl. }
  rewrite (rp_header_lev _ _ _ _ Hr) by lia. cbn [mbind option_bind]. destruct (forward (fwd (S k) l)) as [y|] eqn:Hf.
  - exists (S (S k)). split_and!; [done|lia|]. rewrite <- Hk. by destruct zsl.
  - destruct (IH (with_level zsl (S k)) eq_refl) as (k' & E & Hle & Hr').
    + apply lower_repr; [done|done|]. rewrite (rp_header_lev _ _ _ _ Hr) by lia. cbn. by rewrite Hf.
    + exists k'. split_and!; [exact E|lia|exact Hr'].
Qed.

Lemma sorted_remove A B X : StronglySorted item_lt (A ++ X :: B) -> StronglySorted item_lt (A ++ B).
Proof.
  induction A as [|y A IH]; cbn [app]; inversion 1 as [|? ? Hs Hf]; subst; [done|]. constructor; [by apply IH|]. rewrite Forall_app, Forall_cons in Hf. rewrite Forall_app. tauto.
Qed.

Lemma delete_node_spec F h zsl A B X us : repr F h zsl (A ++ X :: B) ->
  (forall i, (i < z_level zsl)%nat -> exists rank, us !! i = Some (cursor zsl (upto i A), rank)) -> exists h' zsl',
  zslDeleteNode h zsl (i_ptr X) us = Some (h', zsl') /\ repr ({[i_ptr X]} ∪ F) h' zsl' (A ++ B) /\
  z_header zsl' = z_header zsl /\ (z_level zsl' <= z_level zsl)%nat.
Proof.
  intros Hr Hus. unfold zslDeleteNode. pose proof (removed_fresh F h zsl A B X Hr) as Hx. pose proof (rp_nodup _ _ _ _ Hr) as Hnd.
  destruct (unlink_levels_spec F h zsl A B X us Hr Hus (z_level zsl) 0 h) as (h2 & -> & Hw & Hlx); [apply rewired_0|done|done|]. cbn [mbind option_bind].
  pose proof (rp_heights _ _ _ _ Hr) as Hh. rewrite Forall_app, Forall_cons in Hh. destruct Hh as (_ & HhX & _).
  rewrite Hlx, (rp_lev _ _ _ _ Hr A X B 0 eq_refl) by lia.
  pose proof (rp_info _ _ _ _ Hr A X B eq_refl) as Hi. rewrite <- (rw_info _ _ _ _ _ _ _ Hw) in Hi. unfold info in Hi. destruct (h2 !! i_ptr X) as [n|]; [|done].
  cbn [mbind option_bind] in *. injection Hi as _ _ Hb _. rewrite Hb.
  destruct (set_next F h h2 zsl A [X] [] B Hr) as (h3 & E & Hd3 & Hv3 & Hi3 & HB3); [intros q _; apply (rw_info _ _ _ _ _ _ _ Hw)|].
  rewrite app_nil_r in E. rewrite E. cbn [mbind option_bind app] in *.
  destruct (rebuilt F h h2 h3 zsl A [X] [] B (i_ptr X) Hr Hx Hw Hv3) as (Hlev & Hup & Hhd & HA' & HBlev).
  { intros q Hq. apply Hi3. intros Hq2. rewrite ptrs_app, app_comm_cons in Hnd. apply NoDup_app in Hnd as (_ & Hdis & _). apply (Hdis q); [done|]. by right. }
  set (zsl1 := mkZsl (z_header zsl) (back (A ++ B)) (u64 (z_length zsl - 1)) (z_level zsl)).
  assert (repr ({[i_ptr X]} ∪ F) h3 zsl1 (A ++ B)) as Hr1.
  { destruct Hr. constructor; cbn [zsl1 z_header z_tail z_length z_level]; try done.
    - rewrite Hd3, (rw_dom _ _ _ _ _ _ _ Hw), rp_dom0, !ptrs_app. cbn [ptrs map]. rewrite !list_to_set_app_L. cbn. unfold ptrs. set_solver.
    - rewrite ptrs_app in *. cbn in Hnd. rewrite <- Permutation_middle, Permutation_swap in Hnd. by apply NoDup_cons in Hnd as [_ ?].
    - intros p [->%elem_of_singleton|Hp]%elem_of_union; [done|]. specialize (rp_frame0 p Hp). rewrite ptrs_app in *. cbn in rp_frame0. unfold ptrs in *. set_solver.
    - destruct rp_header0 as (s & Hs). exists s. by rewrite Hhd.
    - intros i Hi. rewrite Hup by lia. by apply rp_header_up0.
    - intros l1 y l2 Es. apply split_app in Es as [(a2 & Ea & ->)|(c1 & -> & Ec)]; [by apply (HA' l1 y a2)|by apply HB3 with (l2 := l2)].
    - intros l1 y l2 i Es Hi. apply split_app in Es as [(a2 & Ea & ->)|(c1 & -> & Ec)]; [by apply (HA' l1 y a2)|by apply HBlev with (c1 := c1)].
    - rewrite Forall_app, Forall_cons in *. tauto.
    - rewrite rp_length0. rewrite length_app in *. cbn [length] in *. rewrite uwrap_small by lia. rewrite length_app. lia.
    - rewrite length_app in *. cbn [length] in *. lia.
    - rewrite Forall_app, Forall_cons in *. tauto.
    - by eapply sorted_remove. }
  destruct (lower_level_spec _ h3 _ (z_level zsl) zsl1 eq_refl Hr1) as (k & E2 & Hk & Hr2). cbn [zsl1 z_header] in E2. rewrite E2. cbn [mbind option_bind].
  exists h3, (with_level zsl1 k). by split_and!.
Qed.

Lemma free_repr F h zsl l x : repr ({[x]} ∪ F) h zsl l -> x ∉ F -> repr F (zslFreeNode h x) zsl l.
Proof.
  intros Hr Hx. assert (x ∉ z_header zsl :: ptrs l) as Hn by (apply (rp_frame _ _ _ _ Hr); set_solver).
  assert (forall q, q ∈ z_header zsl :: ptrs l -> q <> x) as Hne by (intros q Hq ->; done). unfold zslFreeNode.
  assert (forall q, q <> x -> info (delete x h) q = info h q) as Hi by (intros q Hq; unfold info; by rewrite lookup_delete_ne).
  assert (forall q i, q <> x -> lev (delete x h) q i = lev h q i) as Hv by (intros q i Hq; unfold lev; by rewrite lookup_delete_ne).
  assert (z_header zsl <> x) as Hh by (apply Hne; left). destruct Hr. constructor; try done.
  - rewrite dom_delete_L, rp_dom0. unfold ptrs in *. set_solver.
  - intros p Hp. apply rp_frame0. set_solver.
  - rewrite Hi by done. done.
  - intros i Hlt. rewrite Hv by done. by apply rp_header_lev0.
  - intros i Hlt. rewrite Hv by done. by apply rp_header_up0.
  - intros l1 y l2 ->. rewrite Hi; [by eapply rp_info0|]. apply Hne. right. apply in_ptrs.
  - intros l1 y l2 i -> Hlt. rewrite Hv; [by eapply rp_lev0|]. apply Hne. right. apply in_ptrs.
Qed.
