(* ===== verification/ZOps.v ===== *)
(** * Operations on skip lists, against a sorted list of keys

    Every operation of t_zset.c on skip lists (ZSkip.v) is shown to compute what it
    should on the sorted list of (score, element) pairs that the heap represents:
    insertion, deletion, moving an element, ranks, ranges of scores and ranks, and
    deleting ranges together with the dictionary's entries. *)

From S2P Require Import Prelude Sds Dict ZSkip.
From stdpp Require Import gmap strings.

Local Open Scope Z_scope.

Implicit Types a b l r : list item.

#[export] Instance item_eq_dec : EqDecision item.
Proof. solve_decision. Defined.

(** ** Keys *)

Definition pair_of (x : item) : Z * list byte := (i_score x, i_ele x).

Definition same_key (p q : Z * list byte) : bool := deq p.1 q.1 && bool_decide (q.2 = p.2).

(** Removal from a sorted list. *)
Definition sorted_del (p : Z * list byte) (l : list (Z * list byte)) : list (Z * list byte) := List.filter (fun q => negb (same_key p q)) l.

Lemma contents_app l1 l2 : contents (l1 ++ l2) = contents l1 ++ contents l2.
Proof. apply map_app. Qed.

Lemma deq_sym x y : deq x y = deq y x.
Proof. unfold deq. rewrite Z.eqb_sym. by rewrite (andb_comm (negb _)). Qed.

Lemma same_key_spec p q : isnan p.1 = false -> isnan q.1 = false -> same_key p q = true <-> double_key p.1 = double_key q.1 /\ q.2 = p.2.
Proof. intros Hp Hq. unfold same_key, deq. rewrite Hp, Hq. cbn [negb andb]. by rewrite andb_true_iff, Z.eqb_eq, bool_decide_eq_true. Qed.

Lemma lt_not_same p q : isnan p.1 = false -> isnan q.1 = false -> key_lt p.1 p.2 q.1 q.2 -> same_key p q = false /\ same_key q p = false.
Proof.
  intros Hp Hq Hlt. split; apply not_true_iff_false; rewrite same_key_spec by done; intros [E1 E2].
  all: unfold key_lt in Hlt; rewrite E1, E2, lex_lt_irrefl in Hlt; destruct Hlt as [?|[_ ?]]; [lia|done].
Qed.

(** The search either stands before the key or there is no such key. *)
Lemma found_key F h zsl A B s e : repr F h zsl (A ++ B) -> isnan s = false ->
  Forall (fun x => key_ltb (i_score x) (i_ele x) s e = true) A -> Forall (fun x => key_ltb (i_score x) (i_ele x) s e = false) B ->
  Forall (fun y => same_key (s, e) (pair_of y) = false) A /\
  match B with
  | X :: B' => if same_key (s, e) (pair_of X) then Forall (fun y => same_key (s, e) (pair_of y) = false) B' else Forall (fun y => same_key (s, e) (pair_of y) = false) B
  | [] => True
  end.
Proof.
  intros Hr Hs HA HB. pose proof (rp_scores _ _ _ _ Hr) as Hn. apply Forall_app in Hn as [HnA HnB]. split.
  { rewrite Forall_forall in *. intros y Hy. apply (lt_not_same (pair_of y) (s, e)); cbn; auto. apply key_ltb_spec; auto. }
  destruct B as [|X B]; [done|]. pose proof (rp_sorted _ _ _ _ Hr) as Hsort.
  assert (Forall (item_lt X) B) as HXB.
  { clear - Hsort. induction A as [|y A IH]; cbn [app] in Hsort; inversion Hsort; subst; auto. }
  inversion HnB; inversion HB; subst. destruct (same_key (s, e) (pair_of X)) eqn:Hsame.
  - apply same_key_spec in Hsame as [E1 E2]; [|done..]. cbn in E1, E2. rewrite Forall_forall in *. intros y Hy. apply (lt_not_same (s, e) (pair_of y)); cbn; auto.
    specialize (HXB y Hy). unfold item_lt, key_lt in *. by rewrite E1, <- E2.
  - constructor; [done|]. assert (key_lt s e (i_score X) (i_ele X)) as HX.
    { assert (Forall (item_lt (mkItem 1 1 s e)) [X]) as HF; [|by inversion HF]. apply after_key; try done; [by constructor| |by constructor].
      constructor; [|done]. cbn. intros [E1 E2]. unfold same_key in Hsame. cbn in Hsame. by rewrite deq_sym, E1, bool_decide_eq_true_2 in Hsame. }
    rewrite Forall_forall in *. intros y Hy. apply (lt_not_same (s, e) (pair_of y)); cbn; auto. eapply key_lt_trans; [exact HX|]. by apply HXB.
Qed.

(** ** Deleting an element *)

Lemma after_update_spec F h zsl A B : repr F h zsl (A ++ B) -> after_update h (updates zsl A (z_level zsl)) = Some (i_ptr <$> head B).
Proof.
  intros Hr. pose proof (rp_level _ _ _ _ Hr). unfold after_update. rewrite updates_lookup by lia. cbn [mbind option_bind fst].
  rewrite (update_lev F h zsl A B 0 Hr) by lia. cbn [mbind option_bind forward]. by rewrite (repr_fwd_0 _ _ _ _ _ Hr).
Qed.

Lemma updates_entries zsl A n : forall i, (i < n)%nat -> exists rank, updates zsl A n !! i = Some (cursor zsl (upto i A), rank).
Proof. intros i Hi. eexists. by apply updates_lookup. Qed.

Lemma is_node_spec n x s e : n_ele n = Some (i_ele x) -> n_score n = i_score x -> is_node n s e = same_key (s, e) (pair_of x).
Proof. intros He Hs. unfold is_node, same_key. by rewrite He, Hs, ele_cmp_eq. Qed.

Lemma frame_in F h zsl A X B : repr F h zsl (A ++ X :: B) -> i_ptr X ∉ F.
Proof. intros Hr Hin. apply (rp_frame _ _ _ _ Hr (i_ptr X) Hin). right. apply in_ptrs. Qed.

Definition without (p : Z * list byte) (l : list item) : list item := List.filter (fun x => negb (same_key p (pair_of x))) l.

Lemma without_none p l : Forall (fun y => same_key p (pair_of y) = false) l -> without p l = l.
Proof. induction 1 as [|y l Hy _ IH]; [done|]. cbn. rewrite Hy. cbn. by f_equal. Qed.

Lemma without_app p l1 l2 : without p (l1 ++ l2) = without p l1 ++ without p l2.
Proof. apply List.filter_app. Qed.

Lemma contents_without p l : contents (without p l) = sorted_del p (contents l).
Proof.
  induction l as [|x l IH]; [done|]. unfold without, sorted_del in *. cbn. change (i_score x, i_ele x) with (pair_of x). destruct (same_key p (pair_of x)); cbn; [done|].
  by f_equal.
Qed.

Lemma existsb_none p l : Forall (fun y => same_key p (pair_of y) = false) l -> existsb (same_key p) (contents l) = false.
Proof. induction 1 as [|y l Hy _ IH]; [done|]. cbn. change (i_score y, i_ele y) with (pair_of y). by rewrite Hy. Qed.

(** Deletion removes the element with the key, if there is one. *)
Lemma delete_spec F h zsl l s e : repr F h zsl l -> isnan s = false -> exists h' zsl',
  zslDelete h zsl s e = Some (h', zsl', existsb (same_key (s, e)) (contents l)) /\ repr F h' zsl' (without (s, e) l).
Proof.
  intros Hr Hs. destruct (split_key F h zsl l s e Hr Hs) as (A & B & -> & HA & HB). unfold zslDelete.
  rewrite (search_key F h zsl A B s e 64 Hr ltac:(lia) HA HB). cbn [mbind option_bind]. rewrite (after_update_spec _ _ _ _ _ Hr). cbn [mbind option_bind].
  destruct (found_key F h zsl A B s e Hr Hs HA HB) as [HnA HnB]. rewrite contents_app, existsb_app, (existsb_none _ A HnA). cbn [orb].
  destruct B as [|X B]; cbn [head fmap option_fmap option_map].
  { exists h, zsl. split; [done|]. rewrite without_none; [done|]. by rewrite app_nil_r. }
  destruct (node_of _ _ _ _ _ _ Hr) as (n & Hn & He & Hsc & _). rewrite Hn. cbn [mbind option_bind]. rewrite (is_node_spec n X) by done.
  destruct (same_key (s, e) (pair_of X)) eqn:Hk.
  - destruct (delete_node_spec F h zsl A B X _ Hr (updates_entries zsl A _)) as (h' & zsl' & -> & Hr' & _). cbn [mbind option_bind fst snd].
    eexists _, _. split; [cbn; change (i_score X, i_ele X) with (pair_of X); by rewrite Hk|].
    rewrite without_app, (without_none _ A) by done. cbn. rewrite Hk. cbn. fold (without (s, e) B). rewrite without_none by done.
    apply free_repr; [done|]. by eapply frame_in.
  - exists h, zsl. rewrite existsb_none by done. split; [done|]. rewrite without_none; [done|]. apply Forall_app. by split.
Qed.

(** ** Moving an element *)

Lemma dlt_spec x y : isnan x = false -> isnan y = false -> dlt x y = true <-> double_key x < double_key y.
Proof. intros Hx Hy. unfold dlt. rewrite Hx, Hy. cbn. apply Z.ltb_lt. Qed.

Lemma set_score_repr F h zsl A B X s' : repr F h zsl (A ++ X :: B) -> isnan s' = false ->
  StronglySorted item_lt (A ++ mkItem (i_ptr X) (i_height X) s' (i_ele X) :: B) -> exists h',
  set_score h (i_ptr X) s' = Some h' /\ repr F h' zsl (A ++ mkItem (i_ptr X) (i_height X) s' (i_ele X) :: B).
Proof.
  intros Hr Hs Hsort. set (X' := mkItem _ _ _ _) in *. pose proof (rp_info _ _ _ _ Hr A X B eq_refl) as Hi.
  destruct (set_score_spec h (i_ptr X) s' _ _ _ _ Hi) as (h' & E & Hd & Hinfo & Hlev). exists h'. split; [done|].
  assert (forall l1 l2, ptrs (l1 ++ X' :: l2) = ptrs (l1 ++ X :: l2)) as Hp by (intros; by rewrite !ptrs_app).
  assert (forall a i, fwd i (a ++ X' :: B) = fwd i (a ++ X :: B)) as Hfwd.
  { intros c i. induction c as [|y c IH]; cbn [app fwd]; [done|by rewrite IH]. }
  assert (forall a, back (a ++ X' :: B) = back (a ++ X :: B)) as Hback.
  { intros c. destruct B as [|z B] using rev_ind; [by rewrite !back_snoc|]. by rewrite !app_comm_cons, !app_assoc, !back_snoc. }
  pose proof (removed_fresh _ _ _ _ _ _ Hr) as Hx. rewrite ptrs_app in Hx.
  destruct Hr. constructor; rewrite ?Hp; try done.
  - by rewrite Hd.
  - destruct rp_header as (s & Hs0). exists s. rewrite Hinfo, decide_False; [done|]. set_solver.
  - intros i Hlt. rewrite Hlev, Hfwd. by apply rp_header_lev.
  - intros i Hlt. rewrite Hlev. by apply rp_header_up.
  - intros l1 y l2 Es. rewrite Hinfo. apply split_app in Es as [(a2 & Ea & ->)|(c1 & -> & Ec)].
    + rewrite decide_False; [apply (rp_info l1 y (a2 ++ X :: B)); by rewrite Ea, <- app_assoc|]. intros Ey. apply Hx. right. apply elem_of_app. left. rewrite <- Ey, Ea. apply in_ptrs.
    + destruct c1 as [|z c1]; cbn in Ec; injection Ec as <- Ec; [by rewrite decide_True, app_nil_r|].
      rewrite decide_False.
      * rewrite (rp_info (A ++ X :: c1) y l2) by by rewrite Ec, <- app_assoc. do 3 f_equal. destruct c1 as [|c c1 _] using rev_ind; [by rewrite !back_snoc|].
        by rewrite !app_comm_cons, !app_assoc, !back_snoc.
      * intros Ey. apply Hx. right. apply elem_of_app. right. rewrite <- Ey, Ec. apply in_ptrs.
  - intros l1 y l2 i Es Hlt. rewrite Hlev. apply split_app in Es as [(a2 & Ea & ->)|(c1 & -> & Ec)].
    + rewrite Hfwd. apply (rp_lev l1 y (a2 ++ X :: B)); [by rewrite Ea, <- app_assoc|done].
    + destruct c1 as [|z c1]; cbn in Ec; injection Ec as <- Ec; [subst l2; by apply (rp_lev A X B)|].
      apply (rp_lev (A ++ X :: c1) y l2); [by rewrite Ec, <- app_assoc|done].
  - rewrite Forall_app, Forall_cons in *. done.
  - by rewrite rp_tail, Hback.
  - rewrite length_app in *. done.
  - rewrite length_app in *. done.
  - rewrite Forall_app, Forall_cons in *. tauto.
Qed.

Definition fits (A B : list item) (s : Z) : bool :=
  match last A with None => true | Some y => dlt (i_score y) s end && match head B with None => true | Some y => dlt s (i_score y) end.

Lemma stays_spec F h zsl A B X n s : repr F h zsl (A ++ X :: B) -> h !! i_ptr X = Some n -> stays h n s = Some (fits A B s).
Proof.
  intros Hr Hn. destruct (node_of _ _ _ _ _ _ Hr) as (n' & Hn' & _ & _ & Hb & Hl). rewrite Hn in Hn'. injection Hn' as <-.
  unfold stays, fits. rewrite Hl, Hb. cbn [mbind option_bind].
  assert (match back A with None => Some true | Some b => m ← h !! b; Some (dlt (n_score m) s) end =
    Some (match last A with None => true | Some y => dlt (i_score y) s end)) as ->.
  { destruct A as [|y A _] using rev_ind; [done|]. rewrite back_snoc, last_snoc. rewrite <- app_assoc in Hr.
    destruct (node_of _ _ _ _ _ _ Hr) as (m & Hm & _ & Hms & _). rewrite Hm. cbn [mbind option_bind]. by rewrite Hms. }
  cbn [mbind option_bind]. destruct (match last A with None => true | Some y => dlt (i_score y) s end); [|done]. cbn [negb andb].
  assert (repr F h zsl ((A ++ [X]) ++ B)) as Hr2 by by rewrite <- app_assoc. rewrite (repr_fwd_0 _ _ _ _ _ Hr2). destruct B as [|z B]; [done|]. cbn [head fmap option_fmap option_map].
  destruct (node_of _ _ _ _ _ _ Hr2) as (m & Hm & _ & Hms & _). rewrite Hm. cbn [mbind option_bind]. by rewrite Hms.
Qed.

Lemma sorted_app_inv A B : StronglySorted item_lt (A ++ B) -> StronglySorted item_lt A /\ StronglySorted item_lt B.
Proof.
  induction A as [|x A IH]; cbn [app]; [split; [constructor|done]|]. inversion 1 as [|? ? Hs Hf]; subst. destruct (IH Hs). apply Forall_app in Hf as [? ?].
  split; [by constructor|done].
Qed.

Lemma score_le x y : item_lt x y -> double_key (i_score x) <= double_key (i_score y).
Proof. unfold item_lt, key_lt. lia. Qed.

(** Where a score fits, the whole list agrees. *)
Lemma fits_before A s e : StronglySorted item_lt A -> Forall (fun x => isnan (i_score x) = false) A -> isnan s = false ->
  match last A with None => true | Some y => dlt (i_score y) s end = true -> Forall (fun x => key_ltb (i_score x) (i_ele x) s e = true) A.
Proof.
  intros Hs Hn Hnan. destruct A as [|y A _] using rev_ind; [constructor|]. rewrite last_snoc. intros Hd.
  apply Forall_app in Hn as [HnA Hny]. rewrite Forall_singleton in Hny. apply dlt_spec in Hd; [|done..].
  assert (Forall (fun x => item_lt x y) A) as Hlt.
  { clear - Hs. induction A as [|z A IH]; [constructor|]. cbn in Hs. inversion Hs as [|? ? Hs' Hf]; subst. constructor; [|by apply IH].
    apply Forall_app in Hf as [_ Hf]. by rewrite Forall_singleton in Hf. }
  apply Forall_app. rewrite Forall_singleton, !Forall_forall in *. split.
  - intros x Hx. apply key_ltb_spec; [by apply HnA|done|]. left. pose proof (score_le _ _ (Hlt x Hx)). lia.
  - apply key_ltb_spec; [done..|]. by left.
Qed.

Lemma fits_after B s e : StronglySorted item_lt B -> Forall (fun x => isnan (i_score x) = false) B -> isnan s = false ->
  match head B with None => true | Some y => dlt s (i_score y) end = true ->
  Forall (fun x => key_ltb (i_score x) (i_ele x) s e = false) B /\ Forall (fun x => key_lt s e (i_score x) (i_ele x)) B.
Proof.
  intros Hs Hn Hnan Hd. assert (Forall (fun x => double_key s < double_key (i_score x)) B) as Hlt.
  { destruct B as [|y B]; [done|]. cbn [head] in Hd. inversion Hn; subst. apply dlt_spec in Hd; [|done..]. inversion Hs as [|? ? _ Hf]; subst.
    constructor; [done|]. eapply Forall_impl; [exact Hf|]. cbn. intros x Hx%score_le. lia. }
  rewrite !Forall_forall in *. split; intros x Hx; specialize (Hlt x Hx); [|by left].
  apply not_true_iff_false. rewrite key_ltb_spec by auto. unfold key_lt. lia.
Qed.

Section allocator.
Context (zmalloc : heap -> ptr) (junk_level : zskiplistLevel) (junk_backward : option ptr).
Context (zmalloc_fresh : forall h : heap, zmalloc h ∉ dom h).

(** Only one element may have these contents. *)
Lemma other_elements A B X s : NoDup (map i_ele (A ++ X :: B)) -> Forall (fun y => ~ (deq (i_score y) s = true /\ i_ele y = i_ele X)) (A ++ B).
Proof.
  intros Hnd. rewrite map_app in Hnd. cbn in Hnd. rewrite <- Permutation_middle in Hnd. apply NoDup_cons in Hnd as [Hn _].
  rewrite <- map_app in Hn. apply Forall_forall. intros y Hy [_ E]. apply Hn. rewrite <- E. apply list_elem_of_fmap_2. done.
Qed.

(** An element gets a new score and its new place. *)
Lemma update_spec F h zsl l rnd rnd' level s e s' : repr F h zsl l -> isnan s = false -> isnan s' = false -> NoDup (map i_ele l) ->
  existsb (same_key (s, e)) (contents l) = true -> zslRandomLevel rnd = Some (level, rnd') -> exists A B X k h' zsl' x rnd2,
  l = A ++ X :: B /\ i_ele X = e /\ 
  zslUpdateScore zmalloc junk_level junk_backward h zsl rnd s e s' = Some (h', zsl', rnd2, x) /\
  exists A' B', A ++ B = A' ++ B' /\ repr F h' zsl' (A' ++ mkItem x k s' e :: B') /\
  contents (A' ++ mkItem x k s' e :: B') = sorted_add (s', e) (sorted_del (s, e) (contents l)).
Proof.
  intros Hr Hs Hs' Hnd Hex Hrnd. destruct (split_key F h zsl l s e Hr Hs) as (A & B & -> & HA & HB). destruct (found_key F h zsl A B s e Hr Hs HA HB) as [HnA HnB].
  rewrite contents_app, existsb_app, (existsb_none _ A HnA) in Hex. cbn [orb] in Hex. destruct B as [|X B]; [done|].
  destruct (same_key (s, e) (pair_of X)) eqn:Hk; [|by rewrite (existsb_none _ _ HnB) in Hex].
  pose proof (rp_scores _ _ _ _ Hr) as Hnan. rewrite Forall_app, Forall_cons in Hnan. destruct Hnan as (HnanA & HnanX & HnanB).
  assert (i_ele X = e) as <- by by (apply same_key_spec in Hk as [_ ?]).
  assert (sorted_del (s, i_ele X) (contents (A ++ X :: B)) = contents (A ++ B)) as ->.
  { rewrite <- contents_without, without_app, (without_none _ A) by done. cbn. rewrite Hk. cbn. fold (without (s, i_ele X) B). by rewrite without_none. }
  unfold zslUpdateScore. rewrite (search_key F h zsl A (X :: B) s _ 64 Hr ltac:(lia) HA HB). cbn [mbind option_bind]. rewrite (after_update_spec _ _ _ _ _ Hr).
  cbn [mbind option_bind head fmap option_fmap option_map]. destruct (node_of _ _ _ _ _ _ Hr) as (n & Hn & He & Hsc & _). rewrite Hn. cbn [mbind option_bind].
  rewrite (is_node_spec n X), Hk by done. cbn [negb]. rewrite (stays_spec F h zsl A B X n s' Hr Hn). cbn [mbind option_bind].
  pose proof (sorted_remove _ _ _ (rp_sorted _ _ _ _ Hr)) as Hsort. destruct (sorted_app_inv _ _ Hsort) as [HsA HsB].
  destruct (fits A B s') eqn:Hfit.
  - apply andb_true_iff in Hfit as [Hf1 Hf2]. pose proof (fits_before A s' (i_ele X) HsA HnanA Hs' Hf1) as HA'.
    destruct (fits_after B s' (i_ele X) HsB HnanB Hs' Hf2) as [HB' HB'']. set (X' := mkItem (i_ptr X) (i_height X) s' (i_ele X)).
    destruct (set_score_repr F h zsl A B X s' Hr Hs') as (h' & -> & Hr').
    { apply sorted_insert; [done| |exact HB'']. rewrite Forall_forall in *. intros y Hy. apply key_ltb_spec; [by apply HnanA|done|by apply HA']. }
    cbn [mbind option_bind]. exists A, B, X, (i_height X), h', zsl, (i_ptr X), rnd. split_and!; try done. exists A, B. split_and!; [done|done|].
    symmetry. by apply (sorted_add_spec A B X').
  - destruct (delete_node_spec F h zsl A B X _ Hr (updates_entries zsl A _)) as (h1 & zsl1 & -> & Hr1 & _). cbn [mbind option_bind fst snd]. rewrite He. cbn [mbind option_bind].
    edestruct (zslInsert_spec zmalloc junk_level junk_backward zmalloc_fresh _ h1 zsl1 (A ++ B) rnd rnd' level s' (i_ele X) Hr1 Hs') as (A' & B' & h2 & zsl2 & x & E & Hx & Hadd & -> & Hr2).
    { by apply other_elements. }
    { pose proof (rp_short _ _ _ _ Hr). rewrite length_app in *. cbn [length] in *. lia. }
    { done. }
    cbn [mbind option_bind]. eexists A, B, X, level, _, zsl2, x, rnd'. split_and!; try done. exists A', B'. split_and!; [done| |done].
    apply free_repr; [done|]. by eapply frame_in.
Qed.
End allocator.

(** ** Creation *)

Lemma clear_levels_spec p e s (b : option ptr) k n : forall j h, info h p = Some (e, s, b, k) -> (j + n <= k)%nat -> exists h',
  clear_levels n j h p = Some h' /\ dom h' = dom h /\ (forall q, info h' q = info h q) /\
  (forall i, (j <= i < j + n)%nat -> lev h' p i = Some (mkLevel None 0)) /\ (forall i, (i < j)%nat -> lev h' p i = lev h p i).
Proof.
  induction n as [|n IH]; intros j h Hi Hk; cbn [clear_levels].
  - exists h. split_and!; try done. lia.
  - destruct (set_lev_spec h p j (mkLevel None 0) _ _ _ _ Hi ltac:(lia)) as (h1 & -> & Hd1 & Hi1 & Hv1). cbn [mbind option_bind].
    destruct (IH (S j) h1) as (h2 & -> & Hd2 & Hi2 & Hv2 & Hv2'); [by rewrite Hi1|lia|]. exists h2. split_and!; [done|by rewrite Hd2|intros; by rewrite Hi2| |].
    + intros i Hle. destruct (decide (i = j)) as [->|]; [|apply Hv2; lia]. rewrite Hv2' by lia. rewrite Hv1. by rewrite decide_True.
    + intros i Hlt. rewrite Hv2', Hv1 by lia. by rewrite decide_False by lia.
Qed.

Lemma create_spec (zmalloc : heap -> ptr) junk_level junk_backward (h : heap) : zmalloc h ∉ dom h -> exists h' zsl,
  zslCreate zmalloc junk_level junk_backward h = Some (h', zsl) /\ repr (dom h) h' zsl [] /\ z_header zsl = zmalloc h.
Proof.
  intros Hx. unfold zslCreate, zslCreateNode. set (p := zmalloc h) in *. set (h1 := <[p := _]> h).
  assert (info h1 p = Some (None, 0, junk_backward, ZSKIPLIST_MAXLEVEL)) as Hi by by (unfold info, h1; rewrite lookup_insert_eq).
  destruct (clear_levels_spec p _ _ _ _ ZSKIPLIST_MAXLEVEL 0 h1 Hi ltac:(lia)) as (h2 & -> & Hd2 & Hi2 & Hv2 & _). cbn [mbind option_bind].
  rewrite <- Hi2 in Hi. destruct (set_backward_other h2 p None _ _ _ _ Hi) as (h3 & -> & Hd3 & Hi3 & _ & Hv3). cbn [mbind option_bind].
  exists h3, (mkZsl p None 0 1). split_and!; [done| |done]. constructor; cbn [z_header z_tail z_length z_level ptrs map]; try done.
  - rewrite Hd3, Hd2. unfold h1. rewrite dom_insert_L. set_solver.
  - apply NoDup_singleton.
  - intros q Hq ->%list_elem_of_singleton. done.
  - by exists 0.
  - intros i Hlt. rewrite Hv3. apply Hv2. unfold ZSKIPLIST_MAXLEVEL. lia.
  - intros i Hlt. rewrite Hv3, Hv2 by lia. done.
  - by intros [].
  - by intros [].
  - unfold ZSKIPLIST_MAXLEVEL. lia.
  - constructor.
Qed.

(** ** Ranges of scores *)

Definition in_range (range : zrangespec) (x : item) : bool := zslValueGteMin (i_score x) range && zslValueLteMax (i_score x) range.

Section range.
Context (range : zrangespec) (Hmin : isnan (r_min range) = false) (Hmax : isnan (r_max range) = false).

Abbreviation gte := (fun x : item => zslValueGteMin (i_score x) range).
Abbreviation lte := (fun x : item => zslValueLteMax (i_score x) range).

Lemma gte_spec x : isnan (i_score x) = false -> gte x = true <->
  (if r_minex range then double_key (r_min range) < double_key (i_score x) else double_key (r_min range) <= double_key (i_score x)).
Proof. intros Hx. unfold zslValueGteMin, dlt, dle. rewrite Hx, Hmin. destruct (r_minex range); cbn; [apply Z.ltb_lt|apply Z.leb_le]. Qed.

Lemma lte_spec x : isnan (i_score x) = false -> lte x = true <->
  (if r_maxex range then double_key (i_score x) < double_key (r_max range) else double_key (i_score x) <= double_key (r_max range)).
Proof. intros Hx. unfold zslValueLteMax, dlt, dle. rewrite Hx, Hmax. destruct (r_maxex range); cbn; [apply Z.ltb_lt|apply Z.leb_le]. Qed.

Abbreviation ord := (fun x y : item => item_lt x y /\ isnan (i_score x) = false /\ isnan (i_score y) = false).

Lemma gte_mono x y : ord x y -> gte x = true -> gte y = true.
Proof. intros (Hlt%score_le & Hx & Hy). rewrite !gte_spec by done. destruct (r_minex range); lia. Qed.

Lemma lte_mono x y : ord x y -> lte y = true -> lte x = true.
Proof. intros (Hlt%score_le & Hx & Hy). rewrite !lte_spec by done. destruct (r_maxex range); lia. Qed.

Definition empty_range : bool := dlt (r_max range) (r_min range) || (deq (r_min range) (r_max range) && (r_minex range || r_maxex range)).

Lemma empty_range_none x : isnan (i_score x) = false -> empty_range = true -> gte x = true -> lte x = true -> False.
Proof.
  intros Hx. rewrite gte_spec, lte_spec by done. unfold empty_range, dlt, deq. rewrite Hmin, Hmax. cbn [negb andb].
  rewrite orb_true_iff, andb_true_iff, orb_true_iff, Z.ltb_lt, Z.eqb_eq. destruct (r_minex range), (r_maxex range); intros [?|[? [?|?]]]; done || lia.
Qed.

(** A list none of whose elements is in the range. *)
Lemma keep_none (P : item -> bool) l : Forall (fun x => P x = false) l -> List.filter P l = [].
Proof. induction 1 as [|x l Hx _ IH]; cbn; [done|]. by rewrite Hx. Qed.

Lemma sorted_ord F h zsl l : repr F h zsl l -> StronglySorted ord l.
Proof. intros Hr. apply sorted_scores; apply Hr. Qed.

Lemma ord_mid l1 x l2 : StronglySorted ord (l1 ++ x :: l2) -> Forall (fun y => ord y x) l1 /\ Forall (ord x) l2.
Proof.
  induction l1 as [|y l1 IH]; cbn [app]; inversion 1 as [|? ? Hs Hf]; subst; [by split|]. destruct (IH Hs) as [H1 H2]. split; [|done].
  constructor; [|done]. apply Forall_app in Hf as [_ Hf]. by inversion Hf.
Qed.

Lemma down_closed (P : item -> bool) x l : (forall x y, ord x y -> P y = true -> P x = true) -> Forall (ord x) l -> P x = false -> Forall (fun y => P y = false) l.
Proof. intros Hm Hl Hx. eapply Forall_impl; [exact Hl|]. cbn. intros y Hy. destruct (P y) eqn:E; [|done]. by rewrite (Hm x y Hy E) in Hx. Qed.

Lemma up_closed (P : item -> bool) x l : (forall x y, ord x y -> P x = true -> P y = true) -> Forall (fun y => ord y x) l -> P x = false -> Forall (fun y => P y = false) l.
Proof. intros Hm Hl Hx. eapply Forall_impl; [exact Hl|]. cbn. intros y Hy. destruct (P y) eqn:E; [|done]. by rewrite (Hm y x Hy E) in Hx. Qed.

(** The quick test: when it says no, nothing is in the range; when it says yes the
    ends of the list are on the right sides. *)
Lemma is_in_range_spec F h zsl l : repr F h zsl l -> exists b : bool, zslIsInRange h zsl range = Some b /\
  if b : bool then exists x y, last l = Some x /\ gte x = true /\ head l = Some y /\ lte y = true else List.filter (in_range range) l = [].
Proof.
  intros Hr. pose proof (sorted_ord _ _ _ _ Hr) as Hord. unfold zslIsInRange. fold empty_range. destruct empty_range eqn:He.
  { exists false. split; [done|]. apply keep_none. pose proof (rp_scores _ _ _ _ Hr) as Hs. eapply Forall_impl; [exact Hs|]. cbn. intros x Hx.
    unfold in_range. destruct (zslValueGteMin _ _) eqn:H1, (zslValueLteMax _ _) eqn:H2; try done. exfalso. by apply (empty_range_none x). }
  rewrite (rp_tail _ _ _ _ Hr). destruct l as [|x l _] using rev_ind; [by exists false|]. rewrite back_snoc.
  destruct (node_of _ _ _ _ _ _ Hr) as (n & Hn & _ & Hs & _). rewrite Hn. cbn [mbind option_bind]. rewrite Hs. destruct (zslValueGteMin (i_score x) range) eqn:Hg; cbn [negb].
  - pose proof (rp_level _ _ _ _ Hr). rewrite (rp_header_lev _ _ _ _ Hr) by lia. cbn [mbind option_bind]. rewrite (repr_fwd_0 F h zsl []) by done.
    destruct (head (l ++ [x])) as [y|] eqn:Hh; [|by destruct l]. cbn [fmap option_fmap option_map]. destruct (l ++ [x]) as [|y' l'] eqn:El; [done|]. injection Hh as ->.
    destruct (node_of F h zsl [] y l' Hr) as (m & Hm & _ & Hms & _). rewrite Hm. cbn [mbind option_bind]. rewrite Hms. exists (zslValueLteMax (i_score y) range). split; [done|].
    destruct (zslValueLteMax (i_score y) range) eqn:Hl; [exists x, y; by rewrite <- El, last_snoc|]. apply keep_none.
    inversion Hord; subst. assert (Forall (fun z => lte z = false) (y :: l')) as Hall by (constructor; [done|]; by eapply down_closed; [exact lte_mono| |]).
    eapply Forall_impl; [exact Hall|]. unfold in_range. cbn. intros z ->. apply andb_false_r.
  - exists false. split; [done|]. apply keep_none. destruct (ord_mid _ _ _ Hord) as [Hlt _].
    assert (Forall (fun z => gte z = false) (l ++ [x])) as Hall.
    { apply Forall_app. split; [|by constructor]. by eapply up_closed; [exact gte_mono| |]. }
    eapply Forall_impl; [exact Hall|]. unfold in_range. cbn. by intros z ->.
Qed.

Lemma filter_split (P : item -> bool) l1 l2 : Forall (fun x => P x = false) l1 -> List.filter P (l1 ++ l2) = List.filter P l2.
Proof. intros Hl. by rewrite List.filter_app, keep_none. Qed.

(** The first element of a range. *)
Lemma first_spec F h zsl l : repr F h zsl l -> zslFirstInRange h zsl range = Some (i_ptr <$> head (List.filter (in_range range) l)).
Proof.
  intros Hr. unfold zslFirstInRange. destruct (is_in_range_spec F h zsl l Hr) as (b & -> & Hb). cbn [mbind option_bind]. destruct b; [|by rewrite Hb]. cbn [negb].
  destruct Hb as (x & _ & Hx & Hgx & _). pose proof (sorted_ord _ _ _ _ Hr) as Hord.
  destruct (split_mono _ (fun x => negb (gte x)) l Hord) as (A & B & -> & HA & HB).
  { intros y z Hyz. rewrite !negb_true_iff. intros Hz. destruct (zslValueGteMin (i_score y) range) eqn:E; [|done]. by rewrite (gte_mono y z Hyz E) in Hz. }
  rewrite (descend_spec F h zsl A B); [|done| |lia].
  2:{ apply (selects_intro F h zsl A B _ (fun x => negb (gte x))); try done. by intros y n d _ ->. }
  cbn [mbind option_bind]. rewrite (after_update_spec _ _ _ _ _ Hr). cbn [mbind option_bind].
  destruct B as [|y B].
  { exfalso. rewrite app_nil_r in Hx. rewrite Forall_forall in HA. apply last_Some_elem_of in Hx. specialize (HA x Hx). cbn in HA. by rewrite Hgx in HA. }
  cbn [head fmap option_fmap option_map mbind option_bind]. destruct (node_of _ _ _ _ _ _ Hr) as (n & Hn & _ & Hs & _). rewrite Hn. cbn [mbind option_bind]. rewrite Hs.
  rewrite filter_split. 2:{ eapply Forall_impl; [exact HA|]. cbn. unfold in_range. by intros z ->%negb_true_iff. }
  inversion HB as [|? ? Hy HB']; subst. cbn in Hy. rewrite negb_false_iff in Hy. cbn [List.filter]. unfold in_range at 1. rewrite Hy. cbn [andb].
  destruct (zslValueLteMax (i_score y) range) eqn:Hl; [done|]. rewrite keep_none; [done|]. destruct (ord_mid _ _ _ Hord) as [_ Hafter].
  pose proof (down_closed _ y B lte_mono Hafter Hl) as Hall. eapply Forall_impl; [exact Hall|]. unfold in_range. cbn. intros z ->. apply andb_false_r.
Qed.

(** The last element of a range. *)
Lemma last_spec F h zsl l : repr F h zsl l -> zslLastInRange h zsl range = Some (i_ptr <$> last (List.filter (in_range range) l)).
Proof.
  intros Hr. unfold zslLastInRange. destruct (is_in_range_spec F h zsl l Hr) as (b & -> & Hb). cbn [mbind option_bind]. destruct b; [|by rewrite Hb]. cbn [negb].
  destruct Hb as (_ & x & _ & _ & Hx & Hlx). pose proof (sorted_ord _ _ _ _ Hr) as Hord. destruct (split_mono _ lte l Hord lte_mono) as (A & B & -> & HA & HB).
  rewrite (descend_spec F h zsl A B); [|done| |lia].
  2:{ apply (selects_intro F h zsl A B _ lte); try done. by intros y n d _ ->. }
  cbn [mbind option_bind]. pose proof (rp_level _ _ _ _ Hr). rewrite updates_lookup by lia. cbn [mbind option_bind fst]. rewrite (repr_upto_0 _ _ _ _ _ Hr).
  rewrite List.filter_app, (keep_none _ B), app_nil_r. 2:{ eapply Forall_impl; [exact HB|]. unfold in_range. cbn. intros z ->. apply andb_false_r. }
  destruct A as [|y A _] using rev_ind.
  { exfalso. cbn in Hx. destruct B as [|z B]; [done|]. injection Hx as ->. inversion HB; subst. cbn in *. congruence. }
  rewrite cursor_snoc. rewrite <- app_assoc in Hr, Hord. destruct (node_of _ _ _ _ _ _ Hr) as (n & Hn & _ & Hs & _). rewrite Hn. cbn [mbind option_bind]. rewrite Hs.
  apply Forall_app in HA as [HA Hy]. inversion Hy as [|? ? Hy' _]; subst. cbn in Hy'. rewrite List.filter_app. cbn [List.filter]. unfold in_range at 2. rewrite Hy', andb_true_r.
  destruct (zslValueGteMin (i_score y) range) eqn:Hg; [by rewrite last_snoc|]. rewrite app_nil_r, keep_none; [done|]. destruct (ord_mid _ _ _ Hord) as [Hbefore _].
  pose proof (up_closed _ y A gte_mono Hbefore Hg) as Hall. eapply Forall_impl; [exact Hall|]. unfold in_range. cbn. by intros z ->.
Qed.
End range.

(** ** Ranks *)

(** The node under the cursor exists. *)
Lemma cursor_node F h zsl A B : repr F h zsl (A ++ B) -> exists n, h !! cursor zsl A = Some n /\ n_ele n = i_ele <$> last A.
Proof.
  intros Hr. destruct A as [|x A _] using rev_ind.
  - destruct (rp_header _ _ _ _ Hr) as (s & Hi). unfold cursor, info in *. cbn. destruct (h !! z_header zsl) as [n|]; [|done]. cbn in Hi. injection Hi as ? ? ? ?. by exists n.
  - rewrite cursor_snoc, last_snoc. rewrite <- app_assoc in Hr. destruct (node_of _ _ _ _ _ _ Hr) as (n & Hn & He & _). by exists n.
Qed.

(** A search that may stop on its way down stops at the end of [A] if [good], and
    nowhere otherwise. *)
Lemma seek_from F h zsl A B cond found w fuel (good : bool) : repr F h zsl (A ++ B) -> selects h cond (A ++ B) (length A) -> 32 <= w -> (length A < fuel)%nat ->
  (forall i m, h !! cursor zsl (upto i A) = Some m -> found m (Z.of_nat (length (upto i A))) = bool_decide (upto i A = A) && good) ->
  forall n a1 a2, A = a1 ++ a2 -> (n <= z_level zsl)%nat -> (forall i, (i < n)%nat -> aligned i a1) ->
  seek_level w cond found fuel h n (cursor zsl a1) (Z.of_nat (length a1)) =
    Some (if good then if (0 <? n)%nat then Some (cursor zsl A, Z.of_nat (length A)) else None else None).
Proof.
  intros Hr Hsel Hw Hf Hfound. induction n as [|i IH]; intros a1 a2 HA Hn Hal; [by destruct good|]. cbn [seek_level].
  destruct (walk_spec F h zsl _ A B cond w i fuel Hr eq_refl Hsel Hw ltac:(lia) a1 a2 HA (Hal i ltac:(lia))) as (a1' & a2' & HA' & Hal' & Hlow & ->).
  { rewrite HA, length_app in Hf. lia. }
  cbn [mbind option_bind fst snd]. assert (upto i A = a1') as E by (rewrite HA'; by apply upto_unique).
  destruct (cursor_node F h zsl a1' (a2' ++ B)) as (m & Hm & _); [by rewrite app_assoc, <- HA'|]. rewrite Hm. cbn [mbind option_bind].
  specialize (Hfound i m). rewrite E in Hfound. rewrite Hfound by done. destruct (bool_decide (a1' = A)) eqn:Ha; cbn [andb].
  - apply bool_decide_eq_true in Ha as ->. destruct good; [done|]. apply (IH A []); [by rewrite app_nil_r|lia|]. intros j Hj. apply (aligned_mono j i); [lia|done].
  - rewrite (IH a1' a2' HA' ltac:(lia)); [|intros j Hj; apply (aligned_mono j i); [lia|done]]. destruct good; [|done]. destruct i; [|done].
    exfalso. apply bool_decide_eq_false in Ha. apply Ha. rewrite <- E. by eapply repr_upto_0.
Qed.

Lemma seek_spec F h zsl A B cond found w (good : bool) : repr F h zsl (A ++ B) -> selects h cond (A ++ B) (length A) -> 32 <= w ->
  (forall i m, h !! cursor zsl (upto i A) = Some m -> found m (Z.of_nat (length (upto i A))) = bool_decide (upto i A = A) && good) ->
  seek_level w cond found (walk_fuel zsl) h (z_level zsl) (z_header zsl) 0 = Some (if good then Some (cursor zsl A, Z.of_nat (length A)) else None).
Proof.
  intros Hr Hsel Hw Hfound. pose proof (rp_level _ _ _ _ Hr).
  assert (length A < walk_fuel zsl)%nat as Hf by (unfold walk_fuel; rewrite (rp_length _ _ _ _ Hr), Nat2Z.id, length_app; lia).
  pose proof (seek_from F h zsl A B cond found w (walk_fuel zsl) good Hr Hsel Hw Hf Hfound (z_level zsl) [] A eq_refl ltac:(lia) ltac:(by left)) as E.
  rewrite (proj2 (Nat.ltb_lt _ _)) in E by lia. exact E.
Qed.

Lemma upto_full i A : length (upto i A) = length A -> upto i A = A.
Proof.
  destruct (rest_spec i A) as (E & _). intros Hl. apply (f_equal length) in E as El. rewrite length_app in El. destruct (rest i A); [|cbn in El; lia].
  by rewrite app_nil_r in E.
Qed.

(** The element at a position. *)
Lemma by_rank_spec F h zsl l (k : nat) : repr F h zsl l -> (0 < k)%nat -> zslGetElementByRank h zsl (Z.of_nat k) = Some (i_ptr <$> l !! (k - 1)%nat).
Proof.
  intros Hr Hk. unfold zslGetElementByRank. pose proof (take_drop k l) as El. assert (repr F h zsl (take k l ++ drop k l)) as Hr' by by rewrite El.
  rewrite (seek_spec F h zsl (take k l) (drop k l) _ _ 64 (k <=? length l)%nat Hr'); [|  |lia|].
  - cbn [mbind option_bind]. destruct (k <=? length l)%nat eqn:Hle; cbn.
    + apply Nat.leb_le in Hle. destruct (lookup_lt_is_Some_2 l (k - 1)) as [x Hx]; [lia|]. rewrite Hx. cbn. do 2 f_equal.
      assert (take k l = take (k - 1) l ++ [x]) as ->; [|apply cursor_snoc]. rewrite <- (take_S_r _ _ _ Hx). f_equal. lia.
    + apply Nat.leb_gt in Hle. rewrite lookup_ge_None_2; [done|lia].
  - intros l1 x l2 n E _. rewrite El in E. rewrite length_take. apply (f_equal length) in E. rewrite length_app in E. cbn in E.
    apply eq_true_iff_eq. rewrite Z.leb_le, Nat.ltb_lt. lia.
  - intros i m _. apply eq_true_iff_eq. rewrite Z.eqb_eq, andb_true_iff, bool_decide_eq_true, Nat.leb_le. pose proof (upto_le i (take k l)) as Hle. rewrite length_take in Hle. split.
    + intros E. split; [|lia]. apply upto_full. rewrite length_take. lia.
    + intros [-> Hk2]. rewrite length_take. lia.
Qed.

Definition key_leb (s1 : Z) (e1 : list byte) (s2 : Z) (e2 : list byte) : bool := dlt s1 s2 || (deq s1 s2 && (lex_lt e1 e2 || bool_decide (e1 = e2))).

Lemma key_leb_spec s1 e1 s2 e2 : isnan s1 = false -> isnan s2 = false ->
  key_leb s1 e1 s2 e2 = true <-> key_lt s1 e1 s2 e2 \/ (double_key s1 = double_key s2 /\ e1 = e2).
Proof.
  intros H1 H2. unfold key_leb, dlt, deq, key_lt. rewrite H1, H2. cbn. rewrite orb_true_iff, andb_true_iff, orb_true_iff, Z.ltb_lt, Z.eqb_eq, bool_decide_eq_true. tauto.
Qed.

Lemma upto_key_spec s e x n d : n_ele n = Some (i_ele x) -> n_score n = i_score x -> upto_key s e n d = key_leb (i_score x) (i_ele x) s e.
Proof. intros He Hs. unfold upto_key, node_cmp, key_leb. by rewrite He, Hs, ele_cmp_le. Qed.

(** Position of a key, the key itself included. *)
Lemma split_key_le F h zsl l s e : repr F h zsl l -> isnan s = false -> exists A B, l = A ++ B /\
  Forall (fun x => key_leb (i_score x) (i_ele x) s e = true) A /\ Forall (fun x => key_leb (i_score x) (i_ele x) s e = false) B.
Proof.
  intros Hr Hs. apply (split_mono (fun x y => item_lt x y /\ isnan (i_score x) = false /\ isnan (i_score y) = false) (fun x => key_leb (i_score x) (i_ele x) s e)).
  - apply sorted_scores; apply Hr.
  - intros x y (Hlt & Hx & Hy). rewrite !key_leb_spec by done. intros [H1|[H1 H2]]; left; [by eapply key_lt_trans|]. unfold item_lt, key_lt in *. by rewrite <- H1, <- H2.
Qed.

Lemma search_rank F h zsl A B s e (good : bool) : repr F h zsl (A ++ B) ->
  Forall (fun x => key_leb (i_score x) (i_ele x) s e = true) A -> Forall (fun x => key_leb (i_score x) (i_ele x) s e = false) B ->
  (forall i, bool_decide (i_ele <$> last (upto i A) = Some e) = bool_decide (upto i A = A) && good) ->
  zslGetRank h zsl s e = Some (if good then Z.of_nat (length A) else 0).
Proof.
  intros Hr HA HB Hgood. unfold zslGetRank. rewrite (seek_spec F h zsl A B _ _ 64 good Hr); [by destruct good| |lia|].
  - apply (selects_intro F h zsl A B _ (fun x => key_leb (i_score x) (i_ele x) s e)); try done. intros. by apply upto_key_spec.
  - intros i m Hm. rewrite <- Hgood. destruct (rest_spec i A) as (E & _). rewrite E, <- app_assoc in Hr. destruct (cursor_node _ _ _ _ _ Hr) as (m' & Hm' & He).
    rewrite Hm in Hm'. injection Hm' as <-. rewrite He. destruct (last (upto i A)) as [x|]; cbn; [|done]. rewrite ele_cmp_eq. apply bool_decide_ext. split; [by intros ->|by intros [= ->]].
Qed.

(** The rank of an element of the list is its position, counted from 1. *)
Lemma rank_found F h zsl A X B : repr F h zsl (A ++ X :: B) -> NoDup (map i_ele (A ++ X :: B)) ->
  zslGetRank h zsl (i_score X) (i_ele X) = Some (Z.of_nat (length A) + 1).
Proof.
  intros Hr Hnd. pose proof (rp_scores _ _ _ _ Hr) as Hn. rewrite Forall_app, Forall_cons in Hn. destruct Hn as (HnA & HnX & HnB).
  assert (repr F h zsl ((A ++ [X]) ++ B)) as Hr' by by rewrite <- app_assoc. destruct (ord_mid _ _ _ (sorted_ord _ _ _ _ Hr)) as [HA HB].
  rewrite (search_rank F h zsl (A ++ [X]) B _ _ true Hr').
  - rewrite length_app. cbn. f_equal. lia.
  - apply Forall_app. split; [|constructor; [|done]; apply key_leb_spec; auto]. eapply Forall_impl; [exact HA|]. cbn. intros y (Hlt & Hy & _). apply key_leb_spec; auto.
  - eapply Forall_impl; [exact HB|]. cbn. intros y (Hlt & _ & Hy). apply not_true_iff_false. rewrite key_leb_spec by done. intros [Hgt|[E1 E2]].
    + eapply key_lt_irrefl, key_lt_trans; [exact Hgt|exact Hlt].
    + unfold item_lt in Hlt. unfold key_lt in Hlt. rewrite E1, E2, lex_lt_irrefl in Hlt. destruct Hlt as [?|[_ ?]]; [lia|done].
  - intros i. rewrite andb_true_r. apply bool_decide_ext. split; [|intros ->; by rewrite last_snoc]. destruct (rest_spec i (A ++ [X])) as (E & _ & _).
    destruct (rest i (A ++ [X])) as [|z r _] using rev_ind; [intros _; by rewrite app_nil_r in E|]. rewrite app_assoc in E. apply app_inj_tail in E as [E <-]. intros Hl. exfalso.
    destruct (last (upto i (A ++ [X]))) as [y|] eqn:Hy; [|done]. cbn in Hl. injection Hl as Hl. apply last_Some_elem_of in Hy.
    rewrite map_app in Hnd. apply NoDup_app in Hnd as (_ & Hdis & _). apply (Hdis (i_ele X)); [|left]. rewrite <- Hl. apply list_elem_of_fmap_2. rewrite E. apply elem_of_app. by left.
Qed.

(** An element that is not in the list has rank 0. *)
Lemma rank_missing F h zsl l s e : repr F h zsl l -> isnan s = false -> e ∉ map i_ele l -> zslGetRank h zsl s e = Some 0.
Proof.
  intros Hr Hs He. destruct (split_key_le F h zsl l s e Hr Hs) as (A & B & -> & HA & HB). rewrite (search_rank F h zsl A B s e false Hr HA HB); [done|].
  intros i. rewrite andb_false_r. apply bool_decide_eq_false. intros Hl. destruct (last (upto i A)) as [y|] eqn:Hy; [|done]. cbn in Hl. injection Hl as <-.
  apply He. apply list_elem_of_fmap_2. apply elem_of_app. left. destruct (rest_spec i A) as (-> & _). apply elem_of_app. left. by apply last_Some_elem_of.
Qed.

(** ** Deleting ranges *)

Lemma keep_all (P : item -> bool) l : Forall (fun x => P x = true) l -> List.filter P l = l.
Proof. induction 1 as [|x l Hx _ IH]; cbn; [done|]. by rewrite Hx, IH. Qed.

Lemma filter_three (P : item -> bool) A M C : Forall (fun x => P x = false) A -> Forall (fun x => P x = true) M -> Forall (fun x => P x = false) C ->
  List.filter P (A ++ M ++ C) = M /\ List.filter (fun x => negb (P x)) (A ++ M ++ C) = A ++ C.
Proof.
  intros HA HM HC. assert (forall (b : bool) (l : list item), Forall (fun x => P x = b) l -> Forall (fun x => negb (P x) = negb b) l) as Hneg.
  { intros b l Hl. eapply Forall_impl; [exact Hl|]. by intros x ->. }
  rewrite !List.filter_app, (keep_none P A), (keep_none P C), (keep_all P M), app_nil_r by done. split; [done|].
  by rewrite (keep_all _ A), (keep_all _ C), (keep_none _ M) by (by apply (Hneg true) || by apply (Hneg false)).
Qed.

(** The condition of the search is the negation of the other. *)
Lemma min_negb x range : isnan (i_score x) = false -> isnan (r_min range) = false ->
  (if r_minex range then dle (i_score x) (r_min range) else dlt (i_score x) (r_min range)) = negb (zslValueGteMin (i_score x) range).
Proof.
  intros Hx Hm. unfold zslValueGteMin, dlt, dle. rewrite Hx, Hm. destruct (r_minex range); cbn; [by rewrite Z.leb_antisym|by rewrite Z.ltb_antisym].
Qed.

(** The elements of a range are next to each other. *)
Lemma range_split F h zsl l range : repr F h zsl l -> isnan (r_min range) = false -> isnan (r_max range) = false -> exists A M C, l = A ++ M ++ C /\
  Forall (fun x => negb (zslValueGteMin (i_score x) range) = true) A /\ Forall (fun x => negb (zslValueGteMin (i_score x) range) = false) M /\
  Forall (fun x => negb (zslValueGteMin (i_score x) range) = false) C /\ Forall (fun x => zslValueLteMax (i_score x) range = true) M /\
  Forall (fun x => zslValueLteMax (i_score x) range = false) C /\
  Forall (fun x => in_range range x = false) A /\ Forall (fun x => in_range range x = true) M /\ Forall (fun x => in_range range x = false) C.
Proof.
  intros Hr Hmin Hmax. pose proof (sorted_ord _ _ _ _ Hr) as Hord. pose proof (rp_scores _ _ _ _ Hr) as Hn.
  destruct (split_mono _ (fun x => negb (zslValueGteMin (i_score x) range)) l Hord) as (A & B & -> & HA & HB).
  { intros y z Hyz. rewrite !negb_true_iff. intros Hz. destruct (zslValueGteMin (i_score y) range) eqn:E; [|done]. by rewrite (gte_mono range Hmin y z Hyz E) in Hz. }
  assert (StronglySorted (fun x y => item_lt x y /\ isnan (i_score x) = false /\ isnan (i_score y) = false) B) as HordB.
  { apply sorted_scores; [by apply Forall_app in Hn as [_ ?]|]. by destruct (sorted_app_inv _ _ (rp_sorted _ _ _ _ Hr)). }
  destruct (split_mono _ (fun x => zslValueLteMax (i_score x) range) B HordB (lte_mono range Hmax)) as (M & C & -> & HM & HC).
  apply Forall_app in HB as [HBM HBC].
  assert (Forall (fun x => in_range range x = false) A) as HA'.
  { eapply Forall_impl; [exact HA|]. unfold in_range. cbn. by intros z ->%negb_true_iff. }
  assert (Forall (fun x => in_range range x = false) C) as HC'.
  { eapply Forall_impl; [exact HC|]. unfold in_range. cbn. intros z ->. apply andb_false_r. }
  assert (Forall (fun x => in_range range x = true) M) as HM'.
  { rewrite Forall_forall in *. intros x Hx. unfold in_range. specialize (HM x Hx). specialize (HBM x Hx). cbn in *. rewrite negb_false_iff in HBM. by rewrite HM, HBM. }
  by exists A, M, C.
Qed.

Section ranges.
Context (hash : list byte -> Z).
Implicit Types (d : dict (list byte) ptr) (m : gmap (list byte) ptr).

Definition forget (m : gmap (list byte) ptr) (l : list item) : gmap (list byte) ptr := foldl (fun m x => delete (i_ele x) m) m l.

Lemma delete_nodes_spec F A C (us : list (ptr * Z)) more M : forall fuel h zsl d m t (r : Z), repr F h zsl (A ++ M ++ C) -> models hash d m ->
  (forall i, (i < z_level zsl)%nat -> exists rank, us !! i = Some (cursor zsl (upto i A), rank)) -> (length (M ++ C) < fuel)%nat ->
  0 <= t -> t + Z.of_nat (length M) < 2 ^ 64 -> 0 <= r -> r + Z.of_nat (length M) < 2 ^ 64 ->
  (forall M1 x M2 n, M = M1 ++ x :: M2 -> n_score n = i_score x -> more n (t + Z.of_nat (length M1)) = true) ->
  (forall x C' n, C = x :: C' -> n_score n = i_score x -> more n (t + Z.of_nat (length M)) = false) -> exists h' zsl' d',
  delete_nodes hash more fuel h zsl d (i_ptr <$> head (M ++ C)) us t r = Some (h', zsl', d', r + Z.of_nat (length M)) /\
  repr F h' zsl' (A ++ C) /\ models hash d' (forget m M).
Proof.
  induction M as [|X M IH]; intros fuel h zsl d m t r Hr Hd Hus Hf Ht Htb Hr0 Hrb Hmore Hstop; cbn [app length] in *.
  - exists h, zsl, d. rewrite Z.add_0_r. split; [|by split]. destruct C as [|y C]; cbn [head fmap option_fmap option_map]; [by destruct fuel|].
    destruct fuel as [|fuel]; [cbn in Hf; lia|]. cbn [delete_nodes]. destruct (node_of _ _ _ _ _ _ Hr) as (n & Hn & _ & Hs & _). rewrite Hn. cbn [mbind option_bind].
    specialize (Hstop y C n eq_refl Hs). rewrite Z.add_0_r in Hstop. by rewrite Hstop.
  - destruct fuel as [|fuel]; [lia|]. cbn [head fmap option_fmap option_map delete_nodes]. destruct (node_of _ _ _ _ _ _ Hr) as (n & Hn & He & Hs & _). rewrite Hn. cbn [mbind option_bind].
    pose proof (Hmore [] X M n eq_refl Hs) as Hm0. cbn [length] in Hm0. rewrite Z.add_0_r in Hm0. rewrite Hm0.
    pose proof (rp_heights _ _ _ _ Hr) as Hh. rewrite Forall_app, Forall_cons in Hh. rewrite (rp_lev _ _ _ _ Hr A X (M ++ C) 0 eq_refl) by lia. cbn [mbind option_bind].
    destruct (delete_node_spec F h zsl A (M ++ C) X us Hr Hus) as (h1 & zsl1 & -> & Hr1 & Hz & Hlv). cbn [mbind option_bind fst snd]. rewrite He. cbn [mbind option_bind].
    unfold dictDelete. destruct (dictGenericDelete_spec hash d m (i_ele X) Hd) as (d1 & -> & Hd1). cbn [mbind option_bind fst snd].
    assert (repr F h zsl ((A ++ [X]) ++ M ++ C)) as Hr' by by rewrite <- app_assoc. rewrite (repr_fwd_0 _ _ _ _ _ Hr'). rewrite !(uwrap_small 64) by lia.
    edestruct (IH fuel (zslFreeNode h1 (i_ptr X)) zsl1 d1 (delete (i_ele X) m) (t + 1) (r + 1)) as (h2 & zsl2 & d2 & E & Hr2 & Hd2); try done; try lia.
    + apply free_repr; [done|]. by eapply frame_in.
    + intros i Hi. destruct (Hus i ltac:(lia)) as (rank & Hu). exists rank. unfold cursor in *. by rewrite Hz.
    + intros M1 x M2 n' -> Hs'. replace (t + 1 + Z.of_nat (length M1)) with (t + Z.of_nat (length (X :: M1))) by (cbn; lia). by eapply Hmore.
    + intros x C' n' -> Hs'. replace (t + 1 + Z.of_nat (length M)) with (t + Z.of_nat (S (length M))) by lia. by eapply Hstop.
    + exists h2, zsl2, d2. split_and!; [|done|done]. rewrite E. do 2 f_equal. lia.
Qed.

Lemma short64 F h zsl l : repr F h zsl l -> Z.of_nat (length l) < 2 ^ 64.
Proof. intros Hr. pose proof (rp_short _ _ _ _ Hr). lia. Qed.

(** The elements of a range of scores, and their dictionary entries, are removed. *)
Lemma delete_by_score_spec F h zsl l range d m : repr F h zsl l -> models hash d m -> isnan (r_min range) = false -> isnan (r_max range) = false -> exists h' zsl' d',
  zslDeleteRangeByScore hash h zsl range d = Some (h', zsl', d', Z.of_nat (length (List.filter (in_range range) l))) /\
  repr F h' zsl' (List.filter (fun x => negb (in_range range x)) l) /\ models hash d' (forget m (List.filter (in_range range) l)).
Proof.
  intros Hr Hd Hmin Hmax. pose proof (short64 _ _ _ _ Hr) as Hshort. pose proof (rp_scores _ _ _ _ Hr) as Hn.
  destruct (range_split F h zsl l range Hr Hmin Hmax) as (A & M & C & -> & HA & HBM & HBC & HM & HC & HA' & HM' & HC'). rewrite !length_app in Hshort.
  destruct (filter_three (in_range range) A M C HA' HM' HC') as [-> ->]. unfold zslDeleteRangeByScore. rewrite (descend_spec F h zsl A (M ++ C)); [|done| |lia].
  2:{ apply (selects_intro F h zsl A (M ++ C) _ (fun x => if r_minex range then dle (i_score x) (r_min range) else dlt (i_score x) (r_min range))).
      - done.
      - by intros x n dd _ ->.
      - rewrite Forall_forall in *. intros x Hx. rewrite min_negb by (done || apply Hn; set_solver). by apply HA.
      - rewrite Forall_forall in *. intros x Hx. rewrite min_negb by (done || apply Hn; set_solver). apply elem_of_app in Hx as [Hx|Hx]; auto. }
  cbn [mbind option_bind]. rewrite (after_update_spec _ _ _ _ _ Hr). cbn [mbind option_bind].
  apply (delete_nodes_spec F A C _ _ M (walk_fuel zsl) h zsl d m 0 0 Hr Hd (updates_entries zsl A _)); try lia.
  - unfold walk_fuel. rewrite (rp_length _ _ _ _ Hr), Nat2Z.id, !length_app. lia.
  - intros M1 x M2 n -> Hs. rewrite Hs. rewrite Forall_app, Forall_cons in HM. apply HM.
  - intros x C' n -> Hs. rewrite Hs. inversion HC; subst. done.
Qed.

(** The elements of a range of positions, and their dictionary entries, are removed. *)
Lemma delete_by_rank_spec F h zsl l (start end_ : nat) d m : repr F h zsl l -> models hash d m -> (1 <= start)%nat -> exists h' zsl' d',
  let gone := take (end_ - (start - 1)) (drop (start - 1) l) in
  zslDeleteRangeByRank hash h zsl (Z.of_nat start) (Z.of_nat end_) d = Some (h', zsl', d', Z.of_nat (length gone)) /\
  repr F h' zsl' (take (start - 1) l ++ drop (end_ - (start - 1)) (drop (start - 1) l)) /\ models hash d' (forget m gone).
Proof.
  intros Hr Hd Hst. pose proof (rp_short _ _ _ _ Hr) as Hshort. set (A := take (start - 1) l). set (B := drop (start - 1) l).
  assert (l = A ++ B) as El by (symmetry; apply take_drop). set (k := (end_ - (start - 1))%nat). set (M := take k B). set (C := drop k B).
  assert (B = M ++ C) as EB by (symmetry; apply take_drop). rewrite El, EB in Hr, Hshort. rewrite !length_app in Hshort.
  assert (B <> [] -> length A = (start - 1)%nat) as HlA.
  { intros HB. subst A. rewrite length_take. destruct (decide (start - 1 <= length l)%nat); [lia|]. destruct HB. apply drop_ge. lia. }
  assert (C <> [] -> length M = k) as HlM.
  { intros HC. subst M. rewrite length_take. destruct (decide (k <= length B)%nat); [lia|]. destruct HC. apply drop_ge. lia. }
  assert (length M <= k)%nat as HM by apply firstn_le_length. unfold zslDeleteRangeByRank. rewrite (descend_spec F h zsl A (M ++ C)); [|done| |lia].
  2:{ intros l1 x l2 n E _. apply eq_true_iff_eq. rewrite Z.ltb_lt, Nat.ltb_lt. apply split_app in E as [(a2 & Ea & ->)|(c1 & -> & Ec)].
      - assert (length A <= start - 1)%nat as HA by apply firstn_le_length. rewrite Ea in *. rewrite length_app in *. cbn in *. lia.
      - rewrite length_app, HlA; [lia|]. rewrite EB, Ec. by destruct c1. }
  cbn [mbind option_bind]. pose proof (rp_level _ _ _ _ Hr). rewrite updates_lookup by lia. cbn [mbind option_bind fst snd]. rewrite (after_update_spec _ _ _ _ _ Hr). cbn [mbind option_bind].
  rewrite (repr_upto_0 _ _ _ _ _ Hr), uwrap_small by lia.
  apply (delete_nodes_spec F A C _ _ M (walk_fuel zsl) h zsl d m _ 0 Hr Hd (updates_entries zsl A _)); try lia.
  - unfold walk_fuel. rewrite (rp_length _ _ _ _ Hr), Nat2Z.id, !length_app. lia.
  - intros M1 x M2 n E _. apply Z.leb_le. rewrite HlA by (rewrite EB, E; by destruct M1). apply (f_equal length) in E. rewrite length_app in E. cbn in E. lia.
  - intros x C' n E _. apply Z.leb_gt. rewrite HlA, HlM by (rewrite ?EB, E; by destruct M). lia.
Qed.
End ranges.
