(* ===== verification/Zset.v ===== *)
(** * Sorted sets as skip list and dictionary (src/redis-5.0.7/src/t_zset.c)

    A sorted set in the encoding OBJ_ENCODING_SKIPLIST keeps every element twice:
    in a skip list, by score, and in a dictionary that leads from the element to the
    score.  The dictionary's value is a pointer to the score inside the node of the
    skip list, so the two share memory: here the value is the node's address and the
    score is read through the heap.  The operations are shown to refine a sorted list
    of pairs, over every sequence of calls, and the pointers never dangle. *)

From S2P Require Import Prelude Sds Dict TSet ZSkip ZOps.
From Stdlib Require Import Floats.SpecFloat.
From stdpp Require Import gmap strings.

Local Open Scope Z_scope.

(** ** Addition of doubles *)

Definition double_decode (b : Z) : spec_float :=
  let s := Z.testbit b 63 in
  let e := Z.land (Z.shiftr b 52) 0x7ff in
  let m := Z.land b (2 ^ 52 - 1) in
  if e =? 0x7ff then (if m =? 0 then S754_infinity s else S754_nan)
  else if e =? 0 then match m with Z.pos p => S754_finite s p (-1074) | _ => S754_zero s end
  else match m + 2 ^ 52 with Z.pos p => S754_finite s p (e - 1075) | _ => S754_nan end.

Definition double_encode (f : spec_float) : Z :=
  match f with
  | S754_zero s => if s then 2 ^ 63 else 0
  | S754_infinity s => (if s then 2 ^ 63 else 0) + Z.shiftl 0x7ff 52
  | S754_nan => Z.shiftl 0xfff 51
  | S754_finite s m e => (if s then 2 ^ 63 else 0) + (if Z.pos m <? 2 ^ 52 then Z.pos m else Z.shiftl (e + 1075) 52 + (Z.pos m - 2 ^ 52))
  end.

(** Round to nearest, ties to even. *)
Definition dadd (a b : Z) : Z := double_encode (SFadd 53 1024 (double_decode a) (double_decode b)).

(** ** Operations *)

Definition ZADD_INCR : Z := 1.
Definition ZADD_NX : Z := 2.
Definition ZADD_XX : Z := 4.
Definition ZADD_NOP : Z := 8.
Definition ZADD_NAN : Z := 16.
Definition ZADD_ADDED : Z := 32.
Definition ZADD_UPDATED : Z := 64.

Record zset := mkZset { zs_dict : dict (list byte) ptr; zs_zsl : zskiplist }.

Section code.
Context (zmalloc : heap -> ptr) (junk_level : zskiplistLevel) (junk_backward : option ptr).
Context (hash : list byte -> Z) (junk_value : ptr) (dict_can_resize : bool).

(** [createZsetObject] *)
Definition createZset (h : heap) : option (heap * zset) :=
  r ← zslCreate zmalloc junk_level junk_backward h;
  Some (r.1, mkZset dictCreate r.2).

Definition zsetLength (zs : zset) : Z := z_length (zs_zsl zs).

(** The double a dictionary entry points to. *)
Definition score_at (h : heap) (p : ptr) : option Z := n ← h !! p; Some (n_score n).

(** The second component is the score when the function returns C_OK. *)
Definition zsetScore (h : heap) (zs : zset) (member : list byte) : option (zset * option Z) :=
  r ← dictFind hash (zs_dict zs) member;
  match r.2 with
  | None => Some (mkZset r.1 (zs_zsl zs), None)
  | Some de => s ← score_at h de.2; Some (mkZset r.1 (zs_zsl zs), Some s)
  end.

(** What [zsetAdd] gives back: its value, the flags, and [newscore] if written. *)
Record add_result := mkAdded { ar_ret : Z; ar_flags : Z; ar_newscore : option Z }.

Definition zsetAdd (h : heap) (zs : zset) (rnd : list Z) (score : Z) (ele : list byte) (flags : Z) : option (heap * zset * add_result) :=
  let incr := negb (Z.land flags ZADD_INCR =? 0) in
  let nx := negb (Z.land flags ZADD_NX =? 0) in
  let xx := negb (Z.land flags ZADD_XX =? 0) in
  if isnan score then Some (h, zs, mkAdded 0 ZADD_NAN None)
  else
    r ← dictFind hash (zs_dict zs) ele;
    let zs := mkZset r.1 (zs_zsl zs) in
    match r.2 with
    | Some de =>
        if nx then Some (h, zs, mkAdded 1 ZADD_NOP None)
        else
          curscore ← score_at h de.2;
          let score := if incr then dadd score curscore else score in
          if incr && isnan score then Some (h, zs, mkAdded 0 ZADD_NAN None)
          else
            let newscore := if incr then Some score else None in
            if negb (deq score curscore) then
              u ← zslUpdateScore zmalloc junk_level junk_backward h (zs_zsl zs) rnd curscore ele score;
              let '(h, zsl, _, znode) := u in
              Some (h, mkZset (dictSetVal (zs_dict zs) ele znode) zsl, mkAdded 1 ZADD_UPDATED newscore)
            else Some (h, zs, mkAdded 1 0 newscore)
    | None =>
        if xx then Some (h, zs, mkAdded 1 ZADD_NOP None)
        else
          u ← zslInsert zmalloc junk_level junk_backward h (zs_zsl zs) rnd score ele;
          let '(h, zsl, _, znode) := u in
          a ← dictAdd hash junk_value dict_can_resize (zs_dict zs) ele znode;
          if negb a.2 then None
          else Some (h, mkZset a.1 zsl, mkAdded 1 ZADD_ADDED (Some score))
    end.

(** [if (htNeedsResize(dict)) dictResize(dict);] *)
Definition resize_if_needed (d : dict (list byte) ptr) : option (dict (list byte) ptr) :=
  if htNeedsResize d then r ← dictResize dict_can_resize d; Some r.1 else Some d.

Definition zsetDel (h : heap) (zs : zset) (ele : list byte) : option (heap * zset * Z) :=
  r ← dictUnlink hash (zs_dict zs) ele;
  match r.2 with
  | None => Some (h, mkZset r.1 (zs_zsl zs), 0)
  | Some de =>
      score ← score_at h de.2;
      u ← zslDelete h (zs_zsl zs) score ele;
      let '(h, zsl, retval) := u in
      if negb retval then None
      else d ← resize_if_needed r.1; Some (h, mkZset d zsl, 1)
  end.

Definition zsetRank (h : heap) (zs : zset) (ele : list byte) (reverse : bool) : option (zset * Z) :=
  let llen := zsetLength zs in
  r ← dictFind hash (zs_dict zs) ele;
  let zs := mkZset r.1 (zs_zsl zs) in
  match r.2 with
  | None => Some (zs, -1)
  | Some de =>
      score ← score_at h de.2;
      rank ← zslGetRank h (zs_zsl zs) score ele;
      if rank =? 0 then None
      else Some (zs, if reverse then s64 (u64 (llen - rank)) else s64 (u64 (rank - 1)))
  end.

(** ** Commands on this encoding *)

(** ZCOUNT *)
Definition node_rank (h : heap) (zsl : zskiplist) (p : ptr) : option Z :=
  n ← h !! p; e ← n_ele n; zslGetRank h zsl (n_score n) e.

Definition zcount (h : heap) (zs : zset) (range : zrangespec) : option Z :=
  let zsl := zs_zsl zs in
  zn ← zslFirstInRange h zsl range;
  match zn with
  | None => Some 0
  | Some zn =>
      rank ← node_rank h zsl zn;
      let count := u64 (z_length zsl - u64 (rank - 1)) in
      zn ← zslLastInRange h zsl range;
      match zn with
      | None => Some count
      | Some zn => rank ← node_rank h zsl zn; Some (u64 (count - u64 (z_length zsl - rank)))
      end
  end.

(** The indexes of ZRANGE and ZREMRANGEBYRANK, all [long]; [None]: the range is empty. *)
Definition sanitize (llen start end_ : Z) : option (Z * Z) :=
  let start := if start <? 0 then s64 (llen + start) else start in
  let end_ := if end_ <? 0 then s64 (llen + end_) else end_ in
  let start := if start <? 0 then 0 else start in
  if (start >? end_) || (start >=? llen) then None
  else Some (start, if end_ >=? llen then llen - 1 else end_).

Definition next_node (h : heap) (reverse : bool) (p : ptr) : option (option ptr) :=
  n ← h !! p;
  if reverse then Some (n_backward n) else l ← n_level n !! 0%nat; Some (forward l).

(** [while(rangelen--)]: the elements sent, with their scores. *)
Fixpoint send_nodes (rangelen : nat) (h : heap) (reverse : bool) (ln : option ptr) : option (list (Z * list byte)) :=
  match rangelen with
  | O => Some []
  | S rangelen =>
      p ← ln; n ← h !! p; e ← n_ele n;
      ln ← next_node h reverse p;
      rest ← send_nodes rangelen h reverse ln;
      Some ((n_score n, e) :: rest)
  end.

Definition zrange (h : heap) (zs : zset) (start end_ : Z) (reverse : bool) : option (list (Z * list byte)) :=
  let llen := s64 (zsetLength zs) in
  match sanitize llen start end_ with
  | None => Some []
  | Some (start, end_) =>
      let rangelen := end_ - start + 1 in
      ln ← (if reverse then if start >? 0 then zslGetElementByRank h (zs_zsl zs) (llen - start) else Some (z_tail (zs_zsl zs))
            else if start >? 0 then zslGetElementByRank h (zs_zsl zs) (start + 1)
            else l ← lev h (z_header (zs_zsl zs)) 0; Some (forward l));
      send_nodes (Z.to_nat rangelen) h reverse ln
  end.

(** [while (ln && offset--)] *)
Fixpoint skip_nodes (fuel : nat) (h : heap) (reverse : bool) (offset : Z) (ln : option ptr) : option (option ptr) :=
  match ln, fuel with
  | None, _ => Some None
  | Some _, O => None
  | Some p, S fuel => if offset =? 0 then Some ln else ln ← next_node h reverse p; skip_nodes fuel h reverse (offset - 1) ln
  end.

(** [while (ln && limit--)] *)
Fixpoint send_range (fuel : nat) (h : heap) (reverse : bool) (range : zrangespec) (limit : Z) (ln : option ptr) : option (list (Z * list byte)) :=
  match ln, fuel with
  | None, _ => Some []
  | Some _, O => None
  | Some p, S fuel =>
      if limit =? 0 then Some []
      else
        n ← h !! p;
        if negb (if reverse then zslValueGteMin (n_score n) range else zslValueLteMax (n_score n) range) then Some []
        else
          e ← n_ele n;
          ln ← next_node h reverse p;
          rest ← send_range fuel h reverse range (limit - 1) ln;
          Some ((n_score n, e) :: rest)
  end.

Definition zrangebyscore (h : heap) (zs : zset) (range : zrangespec) (offset limit : Z) (reverse : bool) : option (list (Z * list byte)) :=
  ln ← (if reverse then zslLastInRange h (zs_zsl zs) range else zslFirstInRange h (zs_zsl zs) range);
  match ln with
  | None => Some []
  | Some _ =>
      ln ← skip_nodes (walk_fuel (zs_zsl zs)) h reverse offset ln;
      send_range (walk_fuel (zs_zsl zs)) h reverse range limit ln
  end.

(** ZREMRANGEBYSCORE and ZREMRANGEBYRANK: the number of elements deleted. *)
Definition zremrangebyscore (h : heap) (zs : zset) (range : zrangespec) : option (heap * zset * Z) :=
  r ← zslDeleteRangeByScore hash h (zs_zsl zs) range (zs_dict zs);
  let '(h, zsl, d, deleted) := r in
  d ← resize_if_needed d;
  Some (h, mkZset d zsl, deleted).

Definition zremrangebyrank (h : heap) (zs : zset) (start end_ : Z) : option (heap * zset * Z) :=
  match sanitize (s64 (zsetLength zs)) start end_ with
  | None => Some (h, zs, 0)
  | Some (start, end_) =>
      r ← zslDeleteRangeByRank hash h (zs_zsl zs) (u32 (start + 1)) (u32 (end_ + 1)) (zs_dict zs);
      let '(h, zsl, d, deleted) := r in
      d ← resize_if_needed d;
      Some (h, mkZset d zsl, deleted)
  end.
End code.

(** ** Sorted lists of pairs: the specification *)

Implicit Types L : list (Z * list byte).

Definition score_in L (e : list byte) : option Z := q ← List.find (fun q => bool_decide (q.2 = e)) L; Some q.1.
Definition remove_ele (e : list byte) L : list (Z * list byte) := List.filter (fun q => negb (bool_decide (q.2 = e))) L.

(** The number of elements before [e]. *)
Fixpoint index_of (e : list byte) L : option nat :=
  match L with
  | [] => None
  | q :: L => if bool_decide (q.2 = e) then Some O else S <$> index_of e L
  end.

Definition pair_in_range (range : zrangespec) (q : Z * list byte) : bool := zslValueGteMin q.1 range && zslValueLteMax q.1 range.

(** [z < 0]: everything. *)
Definition takeZ {A} (z : Z) (l : list A) : list A := if z <? 0 then l else take (Z.to_nat z) l.

Definition spec_add L (score : Z) (e : list byte) (flags : Z) : list (Z * list byte) * add_result :=
  let incr := Z.testbit flags 0 in
  let nx := Z.testbit flags 1 in
  let xx := Z.testbit flags 2 in
  if isnan score then (L, mkAdded 0 ZADD_NAN None)
  else
    match score_in L e with
    | Some cur =>
        if nx then (L, mkAdded 1 ZADD_NOP None)
        else
          let new := if incr then dadd score cur else score in
          if isnan new then (L, mkAdded 0 ZADD_NAN None)
          else if deq new cur then (L, mkAdded 1 0 (if incr then Some new else None))
          else (sorted_add (new, e) (remove_ele e L), mkAdded 1 ZADD_UPDATED (if incr then Some new else None))
    | None => if xx then (L, mkAdded 1 ZADD_NOP None) else (sorted_add (score, e) L, mkAdded 1 ZADD_ADDED (Some score))
    end.

(** Positions as users write them: inclusive, negative ones from the end. *)
Definition position (len i : Z) : Z := if i <? 0 then len + i else i.
Definition slice {A} (start end_ : Z) (l : list A) : list A :=
  let len := Z.of_nat (length l) in
  let first := Z.max 0 (position len start) in
  take (Z.to_nat (position len end_ + 1 - first)) (drop (Z.to_nat first) l).
Definition slice_out {A} (start end_ : Z) (l : list A) : list A :=
  let len := Z.of_nat (length l) in
  let first := Z.max 0 (position len start) in
  take (Z.to_nat first) l ++ drop (Z.to_nat (position len end_ + 1 - first)) (drop (Z.to_nat first) l).

Inductive zop :=
  | ZAdd (rnd : list Z) (score : Z) (ele : list byte) (flags : Z)
  | ZRem (ele : list byte)
  | ZScore (ele : list byte)
  | ZRank (ele : list byte) (reverse : bool)
  | ZCount (range : zrangespec)
  | ZRange (start end_ : Z) (reverse : bool)
  | ZRangeByScore (range : zrangespec) (offset limit : Z) (reverse : bool)
  | ZRemRangeByScore (range : zrangespec)
  | ZRemRangeByRank (start end_ : Z).

Inductive zreply :=
  | RAdded (r : add_result)
  | RInt (n : Z)
  | RScore (s : option Z)
  | RPairs (l : list (Z * list byte)).

Definition spec_step L (o : zop) : list (Z * list byte) * zreply :=
  let dir (reverse : bool) := if reverse then rev L else L in
  match o with
  | ZAdd _ score e flags => let r := spec_add L score e flags in (r.1, RAdded r.2)
  | ZRem e => (remove_ele e L, RInt (if bool_decide (is_Some (score_in L e)) then 1 else 0))
  | ZScore e => (L, RScore (score_in L e))
  | ZRank e reverse => (L, RInt (match index_of e (dir reverse) with Some n => Z.of_nat n | None => -1 end))
  | ZCount range => (L, RInt (Z.of_nat (length (List.filter (pair_in_range range) L))))
  | ZRange start end_ reverse => (L, RPairs (slice start end_ (dir reverse)))
  | ZRangeByScore range offset limit reverse =>
      (L, RPairs (if offset <? 0 then [] else takeZ limit (drop (Z.to_nat offset) (List.filter (pair_in_range range) (dir reverse)))))
  | ZRemRangeByScore range => (List.filter (fun q => negb (pair_in_range range q)) L, RInt (Z.of_nat (length (List.filter (pair_in_range range) L))))
  | ZRemRangeByRank start end_ => (slice_out start end_ L, RInt (Z.of_nat (length (slice start end_ L))))
  end.

(** Scores of ranges are numbers, indexes fit a [long], random numbers suffice. *)
Definition range_valid (range : zrangespec) : Prop := isnan (r_min range) = false /\ isnan (r_max range) = false.
Definition is_long (z : Z) : Prop := - 2 ^ 63 <= z < 2 ^ 63.
Definition op_valid (o : zop) : Prop :=
  match o with
  | ZAdd rnd _ _ _ => is_Some (zslRandomLevel rnd)
  | ZCount range | ZRangeByScore range _ _ _ | ZRemRangeByScore range => range_valid range
  | ZRange start end_ _ | ZRemRangeByRank start end_ => is_long start /\ is_long end_
  | _ => True
  end.

(** ** The dictionary of a list of items *)

Implicit Types l : list item.

Definition ele_map l : gmap (list byte) ptr := list_to_map (map (fun x => (i_ele x, i_ptr x)) l).

Lemma ele_map_fst l : (map (fun x => (i_ele x, i_ptr x)) l).*1 = map i_ele l.
Proof. induction l as [|x l IH]; cbn; [done|by f_equal]. Qed.

Lemma ele_map_mid A X B : NoDup (map i_ele (A ++ X :: B)) -> ele_map (A ++ X :: B) = <[i_ele X := i_ptr X]> (ele_map (A ++ B)).
Proof.
  intros Hnd. unfold ele_map. rewrite <- list_to_map_cons. apply list_to_map_proper; [by rewrite ele_map_fst|].
  rewrite !map_app. cbn. by rewrite <- Permutation_middle.
Qed.

Lemma ele_map_none l e : e ∉ map i_ele l -> ele_map l !! e = None.
Proof. intros He. apply not_elem_of_list_to_map. by rewrite ele_map_fst. Qed.

Lemma nodup_mid A X B : NoDup (map i_ele (A ++ X :: B)) <-> (i_ele X ∉ map i_ele (A ++ B)) /\ NoDup (map i_ele (A ++ B)).
Proof. rewrite !map_app. cbn. rewrite <- Permutation_middle. by rewrite NoDup_cons. Qed.

Lemma ele_map_delete A X B : NoDup (map i_ele (A ++ X :: B)) -> delete (i_ele X) (ele_map (A ++ X :: B)) = ele_map (A ++ B).
Proof. intros Hnd. rewrite ele_map_mid by done. apply delete_insert_id. apply ele_map_none. by apply nodup_mid in Hnd as [? _]. Qed.

Lemma ele_map_forget A C M : NoDup (map i_ele (A ++ M ++ C)) -> forget (ele_map (A ++ M ++ C)) M = ele_map (A ++ C).
Proof.
  induction M as [|X M IH]; intros Hnd; cbn [app forget foldl]; [done|]. unfold forget in *. cbn [foldl]. rewrite ele_map_delete by done. apply IH. by apply nodup_mid in Hnd as [_ ?].
Qed.

Lemma ele_map_size l : NoDup (map i_ele l) -> size (ele_map l) = length l.
Proof. intros Hnd. unfold ele_map. rewrite map_size_list_to_map by by rewrite ele_map_fst. by rewrite length_map. Qed.

(** Looking an element up. *)
Lemma ele_map_lookup l e : NoDup (map i_ele l) ->
  (exists A X B, l = A ++ X :: B /\ i_ele X = e /\ ele_map l !! e = Some (i_ptr X)) \/ ((e ∉ map i_ele l) /\ ele_map l !! e = None).
Proof.
  intros Hnd. destruct (decide (e ∈ map i_ele l)) as [He|He]; [left|right; split; [done|by apply ele_map_none]].
  apply list_elem_of_fmap in He as (X & -> & HX). apply list_elem_of_split in HX as (A & B & ->). exists A, X, B. split_and!; try done. rewrite ele_map_mid by done. by rewrite lookup_insert_eq.
Qed.

Lemma score_in_mid A X B : NoDup (map i_ele (A ++ X :: B)) -> score_in (contents (A ++ X :: B)) (i_ele X) = Some (i_score X).
Proof.
  intros Hnd. apply nodup_mid in Hnd as [Hn _]. unfold score_in. induction A as [|y A IH]; cbn in *.
  - by rewrite bool_decide_eq_true_2.
  - rewrite bool_decide_eq_false_2 by set_solver. apply IH. set_solver.
Qed.

Lemma score_in_none l e : e ∉ map i_ele l -> score_in (contents l) e = None.
Proof.
  intros He. unfold score_in. induction l as [|y l IH]; cbn in *; [done|]. rewrite bool_decide_eq_false_2 by set_solver. apply IH. set_solver.
Qed.

Lemma remove_none l e : e ∉ map i_ele l -> remove_ele e (contents l) = contents l.
Proof.
  intros He. unfold remove_ele. induction l as [|y l IH]; cbn in *; [done|]. rewrite bool_decide_eq_false_2 by set_solver. cbn. f_equal. apply IH. set_solver.
Qed.

Lemma remove_mid A X B : NoDup (map i_ele (A ++ X :: B)) -> remove_ele (i_ele X) (contents (A ++ X :: B)) = contents (A ++ B).
Proof.
  intros Hnd. apply nodup_mid in Hnd as [Hn _]. rewrite map_app in Hn. rewrite !contents_app. unfold remove_ele. rewrite List.filter_app. cbn.
  rewrite bool_decide_eq_true_2 by done. cbn. fold (contents B). f_equal; apply remove_none; set_solver.
Qed.

Lemma index_of_mid A X B : i_ele X ∉ map i_ele A -> index_of (i_ele X) (contents (A ++ X :: B)) = Some (length A).
Proof.
  intros Hn. induction A as [|y A IH]; cbn in *; [by rewrite bool_decide_eq_true_2|]. rewrite bool_decide_eq_false_2 by set_solver.
  fold (contents (A ++ X :: B)). by rewrite IH by set_solver.
Qed.

Lemma index_of_none l e : e ∉ map i_ele l -> index_of e (contents l) = None.
Proof. intros Hn. induction l as [|y l IH]; cbn in *; [done|]. rewrite bool_decide_eq_false_2 by set_solver. fold (contents l). by rewrite IH by set_solver. Qed.

Lemma contents_rev l : contents (rev l) = rev (contents l).
Proof. apply map_rev. Qed.

Lemma notin_rev l e : e ∉ map i_ele l -> e ∉ map i_ele (rev l).
Proof. by rewrite <- Permutation_rev. Qed.

(** ** The invariant *)

Section proofs.
Context (hash : list byte -> Z).
Implicit Types (h : heap) (zs : zset).

(** Skip list and dictionary hold the same elements, and the dictionary points at
    the nodes. *)
Record zset_ok (F : gset ptr) h zs l : Prop := {
  zo_list : repr F h (zs_zsl zs) l;
  zo_dict : models hash (zs_dict zs) (ele_map l);
  zo_nodup : NoDup (map i_ele l)
}.

Lemma dict_short F h zs l : zset_ok F h zs l -> Z.of_nat (size (ele_map l)) + 1 < max_entries.
Proof. intros [Hr _ Hnd]. rewrite ele_map_size by done. pose proof (rp_short _ _ _ _ Hr). unfold max_entries. lia. Qed.

Lemma score_at_spec F h zsl A X B : repr F h zsl (A ++ X :: B) -> score_at h (i_ptr X) = Some (i_score X).
Proof. intros Hr. destruct (node_of _ _ _ _ _ _ Hr) as (n & Hn & _ & Hs & _). unfold score_at. rewrite Hn. cbn. by rewrite Hs. Qed.

(** The dictionary's lookup, and what it means for the list. *)
Lemma find_spec F h zs l e : zset_ok F h zs l -> exists d', models hash d' (ele_map l) /\
  ((exists A X B, l = A ++ X :: B /\ i_ele X = e /\ dictFind hash (zs_dict zs) e = Some (d', Some (e, i_ptr X))) \/
   ((e ∉ map i_ele l) /\ dictFind hash (zs_dict zs) e = Some (d', None))).
Proof.
  intros [Hr Hd Hnd]. destruct (dictFind_spec hash _ _ e Hd) as (d' & -> & Hd'). exists d'. split; [done|].
  destruct (ele_map_lookup l e Hnd) as [(A & X & B & -> & He & ->)|[He ->]]; [left; by exists A, X, B|by right].
Qed.

Lemma zsetScore_spec F h zs l e : zset_ok F h zs l -> exists zs', zsetScore hash h zs e = Some (zs', score_in (contents l) e) /\ zset_ok F h zs' l.
Proof.
  intros Hok. destruct (find_spec F h zs l e Hok) as (d' & Hd' & Hf). destruct Hok as [Hr Hd Hnd]. unfold zsetScore.
  destruct Hf as [(A & X & B & -> & <- & ->)|[He ->]]; cbn [mbind option_bind fst snd].
  - rewrite (score_at_spec _ _ _ _ _ _ Hr), score_in_mid by done. cbn [mbind option_bind]. by eexists.
  - rewrite score_in_none by done. by eexists.
Qed.

Lemma zsetRank_spec F h zs l e reverse : zset_ok F h zs l -> exists zs', zsetRank hash h zs e reverse =
    Some (zs', match index_of e (if reverse then rev (contents l) else contents l) with Some n => Z.of_nat n | None => -1 end) /\ zset_ok F h zs' l.
Proof.
  intros Hok. destruct (find_spec F h zs l e Hok) as (d' & Hd' & Hf). destruct Hok as [Hr Hd Hnd]. unfold zsetRank, zsetLength. rewrite (rp_length _ _ _ _ Hr). pose proof (rp_short _ _ _ _ Hr) as Hs.
  destruct Hf as [(A & X & B & -> & <- & ->)|[He ->]]; cbn [mbind option_bind fst snd].
  - rewrite (score_at_spec _ _ _ _ _ _ Hr). cbn [mbind option_bind zs_zsl]. rewrite (rank_found F h _ A X B Hr Hnd). cbn [mbind option_bind].
    rewrite (proj2 (Z.eqb_neq _ _)) by lia. exists (mkZset d' (zs_zsl zs)). split; [|by constructor]. rewrite length_app in *. cbn [length] in *.
    apply nodup_mid in Hnd as [Hn _]. rewrite map_app, not_elem_of_app in Hn. destruct reverse.
    + rewrite <- contents_rev, rev_app_distr. cbn [rev]. rewrite <- app_assoc. cbn [app]. rewrite (index_of_mid (rev B) X (rev A)), length_rev by (apply notin_rev; tauto).
      rewrite (uwrap_small 64) by lia. rewrite (swrap_small 64) by (unfold in_s; lia). do 2 f_equal. lia.
    + rewrite index_of_mid by tauto. rewrite (uwrap_small 64) by lia. rewrite (swrap_small 64) by (unfold in_s; lia). do 2 f_equal. lia.
  - rewrite <- contents_rev. exists (mkZset d' (zs_zsl zs)). split; [|by constructor]. destruct reverse; rewrite index_of_none by (done || by apply notin_rev); done.
Qed.

(** Removing an element. *)
Lemma without_mid A X B s : NoDup (map i_ele (A ++ X :: B)) -> isnan s = false -> double_key s = double_key (i_score X) -> isnan (i_score X) = false ->
  without (s, i_ele X) (A ++ X :: B) = A ++ B.
Proof.
  intros Hnd Hs Hk Hx. apply nodup_mid in Hnd as [Hn _]. rewrite map_app, not_elem_of_app in Hn.
  assert (forall l, i_ele X ∉ map i_ele l -> without (s, i_ele X) l = l) as Hw.
  { intros l Hl. apply without_none. apply Forall_forall. intros y Hy. unfold same_key. cbn. rewrite bool_decide_eq_false_2; [apply andb_false_r|]. intros E. apply Hl. rewrite <- E. by apply list_elem_of_fmap_2. }
  rewrite without_app. rewrite Hw by tauto. unfold without at 1. cbn. rewrite (proj2 (same_key_spec (s, i_ele X) (pair_of X) Hs Hx)) by done. cbn.
  fold (without (s, i_ele X) B). by rewrite Hw by tauto.
Qed.

Lemma flag_bit flags b n : 0 <= n -> b = 2 ^ n -> negb (Z.land flags b =? 0) = Z.testbit flags n.
Proof.
  intros Hn ->. apply eq_true_iff_eq. rewrite negb_true_iff, Z.eqb_neq. split.
  - intros Hne. destruct (Z.testbit flags n) eqn:E; [done|]. exfalso. apply Hne. apply Z.bits_inj'. intros m Hm. rewrite Z.land_spec, Z.pow2_bits_eqb, Z.bits_0 by done.
    destruct (n =? m) eqn:Em; [apply Z.eqb_eq in Em as ->; by rewrite E|apply andb_false_r].
  - intros Hb E. assert (Z.testbit (Z.land flags (2 ^ n)) n = true) as Hl by (rewrite Z.land_spec, Z.pow2_bits_true, Hb by done; done). by rewrite E, Z.bits_0 in Hl.
Qed.

(** ** Ranges of elements *)

Lemma contents_filter (P : Z * list byte -> bool) l : List.filter P (contents l) = contents (List.filter (fun x => P (pair_of x)) l).
Proof. induction l as [|x l IH]; [done|]. cbn. unfold pair_of at 1. destruct (P (i_score x, i_ele x)); cbn; [by f_equal|done]. Qed.

Lemma length_contents l : length (contents l) = length l.
Proof. apply length_map. Qed.

Lemma contents_take n l : contents (take n l) = take n (contents l).
Proof. apply fmap_take. Qed.

Lemma contents_drop n l : contents (drop n l) = drop n (contents l).
Proof. apply fmap_drop. Qed.

Lemma node_rank_spec F h zsl A X B : repr F h zsl (A ++ X :: B) -> NoDup (map i_ele (A ++ X :: B)) -> node_rank h zsl (i_ptr X) = Some (Z.of_nat (length A) + 1).
Proof.
  intros Hr Hnd. unfold node_rank. destruct (node_of _ _ _ _ _ _ Hr) as (n & -> & He & Hs & _). cbn [mbind option_bind]. rewrite He. cbn [mbind option_bind]. rewrite Hs. exact (rank_found F h zsl A X B Hr Hnd).
Qed.

Lemma zcount_spec F h zs l range : zset_ok F h zs l -> range_valid range ->
  zcount h zs range = Some (Z.of_nat (length (List.filter (pair_in_range range) (contents l)))).
Proof.
  intros [Hr Hd Hnd] [Hmin Hmax]. rewrite contents_filter, length_contents. change (fun x => pair_in_range range (pair_of x)) with (in_range range).
  unfold zcount. rewrite (first_spec range Hmin Hmax F h _ l Hr), (last_spec range Hmin Hmax F h _ l Hr). cbn [mbind option_bind]. rewrite (rp_length _ _ _ _ Hr).
  pose proof (rp_short _ _ _ _ Hr) as Hs.
  destruct (range_split F h _ l range Hr Hmin Hmax) as (A & M & C & -> & _ & _ & _ & _ & _ & HA & HM & HC). destruct (filter_three _ A M C HA HM HC) as [-> _].
  destruct M as [|X M]; [done|]. cbn [head fmap option_fmap option_map]. rewrite (node_rank_spec _ _ _ _ _ _ Hr Hnd). cbn [mbind option_bind].
  clear HM. destruct (exists_last (l := X :: M)) as (M' & Y & E); [done|]. rewrite E in *. rewrite last_snoc. cbn [fmap option_fmap option_map].
  assert (A ++ (M' ++ [Y]) ++ C = (A ++ M') ++ Y :: C) as E2 by by rewrite <- !app_assoc. rewrite E2 in *.
  rewrite (node_rank_spec _ _ _ _ _ _ Hr Hnd). cbn [mbind option_bind]. rewrite !length_app in *. cbn [length] in *. f_equal. unfold uwrap.
  rewrite !Zminus_mod_idemp_r, Zminus_mod_idemp_l. rewrite Z.mod_small; lia.
Qed.

(** The list in the order a command walks it. *)
Definition walked {A} (reverse : bool) (o : list A) : list A := if reverse then rev o else o.

Lemma next_spec F h zsl l (reverse : bool) a x b : repr F h zsl l -> walked reverse l = a ++ x :: b -> next_node h reverse (i_ptr x) = Some (i_ptr <$> head b).
Proof.
  intros Hr E. unfold next_node, walked in *. destruct reverse.
  - assert (l = rev b ++ x :: rev a) as -> by (rewrite <- (rev_involutive l), E, rev_app_distr; cbn; by rewrite <- app_assoc).
    destruct (node_of _ _ _ _ _ _ Hr) as (n & -> & _ & _ & Hb & _). cbn [mbind option_bind]. rewrite Hb. unfold back. destruct b as [|y b]; [done|]. cbn [rev]. by rewrite last_snoc.
  - subst l. destruct (node_of _ _ _ _ _ _ Hr) as (n & -> & _ & _ & _ & Hl). cbn [mbind option_bind]. rewrite Hl. cbn [mbind option_bind].
    assert (repr F h zsl ((a ++ [x]) ++ b)) as Hr' by by rewrite <- app_assoc. by rewrite (repr_fwd_0 _ _ _ _ _ Hr').
Qed.

Lemma walked_node F h zsl l (reverse : bool) a x b : repr F h zsl l -> walked reverse l = a ++ x :: b -> exists n, h !! i_ptr x = Some n /\ n_ele n = Some (i_ele x) /\ n_score n = i_score x.
Proof.
  intros Hr E. unfold walked in E. assert (exists A B, l = A ++ x :: B) as (A & B & ->).
  { destruct reverse; [|by exists a, b]. exists (rev b), (rev a). rewrite <- (rev_involutive l), E, rev_app_distr. cbn. by rewrite <- app_assoc. }
  destruct (node_of _ _ _ _ _ _ Hr) as (n & Hn & He & Hs & _). by exists n.
Qed.

Lemma send_nodes_spec F h zsl l (reverse : bool) n : repr F h zsl l -> forall a b, walked reverse l = a ++ b -> (n <= length b)%nat ->
  send_nodes n h reverse (i_ptr <$> head b) = Some (contents (take n b)).
Proof.
  intros Hr. induction n as [|n IH]; intros a b E Hn; [done|]. destruct b as [|x b]; [cbn in Hn; lia|]. cbn [send_nodes head fmap option_fmap option_map mbind option_bind].
  destruct (walked_node F h zsl l reverse a x b Hr E) as (m & Hm & He & Hs). rewrite Hm. cbn [mbind option_bind]. rewrite He. cbn [mbind option_bind].
  rewrite (next_spec F h zsl l reverse a x b Hr E). cbn [mbind option_bind].
  rewrite (IH (a ++ [x]) b); [|by rewrite E, <- app_assoc|cbn in Hn; lia]. cbn [mbind option_bind take contents map]. by rewrite Hs.
Qed.

Lemma head_drop l (k : nat) : head (drop k l) = l !! k.
Proof. rewrite head_lookup, lookup_drop. f_equal. lia. Qed.

Lemma rev_at l (k : nat) : (k < length l)%nat -> rev l !! k = l !! (length l - S k)%nat.
Proof. intros Hk. rewrite <- (reverse_lookup l k Hk). by rewrite rev_alt. Qed.

Lemma sanitize_spec (n : nat) start end_ : Z.of_nat n < 2 ^ 32 -> is_long start -> is_long end_ ->
  let s := Z.max 0 (position (Z.of_nat n) start) in let e := position (Z.of_nat n) end_ in
  sanitize (Z.of_nat n) start end_ = if (s >? e) || (s >=? Z.of_nat n) then None else Some (s, Z.min e (Z.of_nat n - 1)).
Proof.
  intros Hn Hs He. cbv zeta. unfold sanitize, position, is_long in *.
  assert ((if start <? 0 then s64 (Z.of_nat n + start) else start) = (if start <? 0 then Z.of_nat n + start else start)) as ->.
  { destruct (start <? 0) eqn:E; [|done]. apply Z.ltb_lt in E. apply swrap_small; [done|]. unfold in_s. lia. }
  assert ((if end_ <? 0 then s64 (Z.of_nat n + end_) else end_) = (if end_ <? 0 then Z.of_nat n + end_ else end_)) as ->.
  { destruct (end_ <? 0) eqn:E; [|done]. apply Z.ltb_lt in E. apply swrap_small; [done|]. unfold in_s. lia. }
  set (s := if start <? 0 then _ else _). set (e := if end_ <? 0 then _ else _).
  assert ((if s <? 0 then 0 else s) = Z.max 0 s) as -> by (destruct (Z.ltb_spec s 0); lia).
  destruct (_ || _); [done|]. do 2 f_equal. rewrite Z.geb_leb. destruct (Z.leb_spec (Z.of_nat n) e); lia.
Qed.

(** What the indexes select. *)
Lemma slice_sanitize {A} (l : list A) start end_ : Z.of_nat (length l) < 2 ^ 32 -> is_long start -> is_long end_ ->
  match sanitize (Z.of_nat (length l)) start end_ with
  | None => slice start end_ l = [] /\ slice_out start end_ l = l
  | Some (s, e) => 0 <= s <= e /\ e < Z.of_nat (length l) /\
      slice start end_ l = take (Z.to_nat (e - s + 1)) (drop (Z.to_nat s) l) /\
      slice_out start end_ l = take (Z.to_nat s) l ++ drop (Z.to_nat (e - s + 1)) (drop (Z.to_nat s) l)
  end.
Proof.
  intros Hl Hs He. rewrite sanitize_spec by done. unfold slice, slice_out. cbv zeta. set (s := Z.max 0 _). set (e := position _ end_).
  destruct ((s >? e) || (s >=? Z.of_nat (length l))) eqn:Hc.
  - rewrite orb_true_iff, Z.gtb_lt, Z.geb_le in Hc. destruct Hc as [Hc|Hc].
    + replace (Z.to_nat (e + 1 - s)) with O by lia. rewrite take_0, drop_0. split; [done|apply take_drop].
    + rewrite (drop_ge l) by lia. rewrite take_nil, drop_nil, app_nil_r. split; [done|]. apply take_ge. lia.
  - rewrite orb_false_iff, Z.gtb_ltb, Z.geb_leb, Z.ltb_ge, Z.leb_gt in Hc. split_and!; [lia..| |].
    + destruct (decide (e < Z.of_nat (length l))); [do 2 f_equal; lia|]. rewrite !take_ge by (rewrite length_drop; lia). done.
    + f_equal. destruct (decide (e < Z.of_nat (length l))); [do 2 f_equal; lia|]. by rewrite !(drop_ge (drop _ _)) by (rewrite length_drop; lia).
Qed.

Lemma contents_walked reverse l : contents (walked reverse l) = walked reverse (contents l).
Proof. destruct reverse; [apply contents_rev|done]. Qed.

Lemma walked_length {A} reverse (o : list A) : length (walked reverse o) = length o.
Proof. destruct reverse; [apply length_rev|done]. Qed.

Lemma zrange_start F h zsl l (reverse : bool) s : repr F h zsl l -> 0 <= s < Z.of_nat (length l) ->
  (if reverse then if s >? 0 then zslGetElementByRank h zsl (Z.of_nat (length l) - s) else Some (z_tail zsl)
   else if s >? 0 then zslGetElementByRank h zsl (s + 1) else l ← lev h (z_header zsl) 0; Some (forward l)) = Some (i_ptr <$> head (drop (Z.to_nat s) (walked reverse l))).
Proof.
  intros Hr Hs. pose proof (rp_level _ _ _ _ Hr). rewrite head_drop. destruct (Z.gtb_spec s 0).
  - destruct reverse; cbn [walked].
    + rewrite rev_at by lia. replace (Z.of_nat (length l) - s) with (Z.of_nat (length l - Z.to_nat s)) by lia. rewrite (by_rank_spec F) with (l := l) by (done || lia).
      do 3 f_equal. lia.
    + replace (s + 1) with (Z.of_nat (S (Z.to_nat s))) by lia. rewrite (by_rank_spec F) with (l := l) by (done || lia). do 3 f_equal. lia.
  - replace s with 0 by lia. destruct reverse; cbn [walked].
    + rewrite (rp_tail _ _ _ _ Hr), rev_at by lia. unfold back. rewrite last_lookup. do 3 f_equal. cbn. lia.
    + rewrite (rp_header_lev _ _ _ _ Hr) by lia. cbn [mbind option_bind]. rewrite (repr_fwd_0 F h zsl []) by done. by rewrite head_lookup.
Qed.

Lemma zrange_spec F h zs l start end_ reverse : zset_ok F h zs l -> is_long start -> is_long end_ ->
  zrange h zs start end_ reverse = Some (slice start end_ (walked reverse (contents l))).
Proof.
  intros [Hr Hd Hnd] Hs He. pose proof (rp_short _ _ _ _ Hr) as Hl. unfold zrange, zsetLength. rewrite (rp_length _ _ _ _ Hr). rewrite (swrap_small 64) by (unfold in_s; lia).
  pose proof (slice_sanitize (walked reverse (contents l)) start end_) as Hsl. rewrite walked_length, length_contents in Hsl. specialize (Hsl Hl Hs He).
  destruct (sanitize _ start end_) as [[s e]|]; [|by destruct Hsl as [-> _]]. destruct Hsl as (Hse & Hel & -> & _).
  rewrite (zrange_start F h _ l reverse s Hr) by lia. cbn [mbind option_bind].
  rewrite (send_nodes_spec F h _ l reverse _ Hr (take (Z.to_nat s) (walked reverse l))); [|by rewrite take_drop|rewrite length_drop, walked_length; lia].
  by rewrite contents_take, contents_drop, contents_walked.
Qed.

(** Skipping. *)
Lemma skip_nodes_spec F h zsl l (reverse : bool) : repr F h zsl l -> forall b a fuel offset, walked reverse l = a ++ b -> (length b < fuel)%nat ->
  skip_nodes fuel h reverse offset (i_ptr <$> head b) = Some (i_ptr <$> head (if offset <? 0 then [] else drop (Z.to_nat offset) b)).
Proof.
  intros Hr. induction b as [|x b IH]; intros a fuel offset E Hf.
  - cbn [head fmap option_fmap option_map]. destruct (offset <? 0); [|rewrite drop_nil]; by destruct fuel.
  - destruct fuel as [|fuel]; [lia|]. cbn [skip_nodes head fmap option_fmap option_map]. destruct (offset =? 0) eqn:E0; [apply Z.eqb_eq in E0 as ->; done|]. apply Z.eqb_neq in E0.
    rewrite (next_spec F h zsl l reverse a x b Hr E). cbn [mbind option_bind]. rewrite (IH (a ++ [x])); [|by rewrite E, <- app_assoc|cbn in Hf; lia].
    do 3 f_equal. destruct (Z.ltb_spec offset 0).
    + by rewrite (proj2 (Z.ltb_lt _ _)) by lia.
    + rewrite (proj2 (Z.ltb_ge _ _)) by lia. by replace (Z.to_nat offset) with (S (Z.to_nat (offset - 1))) by lia.
Qed.

Definition in_order (reverse : bool) (range : zrangespec) (x : item) : bool := if reverse then zslValueGteMin (i_score x) range else zslValueLteMax (i_score x) range.

Lemma send_range_spec F h zsl l (reverse : bool) range Q : repr F h zsl l -> Forall (fun x => in_order reverse range x = false) Q ->
  forall P a fuel limit, walked reverse l = a ++ P ++ Q -> Forall (fun x => in_order reverse range x = true) P -> (length (P ++ Q) < fuel)%nat ->
  send_range fuel h reverse range limit (i_ptr <$> head (P ++ Q)) = Some (contents (takeZ limit P)).
Proof.
  intros Hr HQ. induction P as [|x P IH]; intros a fuel limit E HP Hf; cbn [app] in *.
  - assert (contents (takeZ limit ([] : list item)) = []) as -> by (unfold takeZ; destruct (limit <? 0); [done|by rewrite take_nil]).
    destruct Q as [|y Q]; cbn [head fmap option_fmap option_map]; [by destruct fuel|]. destruct fuel as [|fuel]; [cbn in Hf; lia|]. cbn [send_range].
    destruct (limit =? 0); [done|]. destruct (walked_node F h zsl l reverse a y Q Hr E) as (n & Hn & _ & Hs). rewrite Hn. cbn [mbind option_bind]. rewrite Hs.
    inversion HQ as [|? ? Hy _]; subst. unfold in_order in Hy. by rewrite Hy.
  - destruct fuel as [|fuel]; [lia|]. cbn [send_range head fmap option_fmap option_map]. destruct (limit =? 0) eqn:E0; [apply Z.eqb_eq in E0 as ->; done|]. apply Z.eqb_neq in E0.
    destruct (walked_node F h zsl l reverse a x (P ++ Q) Hr E) as (n & Hn & He & Hs). rewrite Hn. cbn [mbind option_bind]. rewrite Hs.
    inversion HP as [|? ? Hx HP']; subst. unfold in_order in Hx. rewrite Hx. cbn [negb]. rewrite He. cbn [mbind option_bind].
    rewrite (next_spec F h zsl l reverse a x (P ++ Q) Hr E). cbn [mbind option_bind]. rewrite (IH (a ++ [x])); [|by rewrite E, <- app_assoc|done|cbn in Hf; lia].
    cbn [mbind option_bind]. f_equal. unfold takeZ. destruct (Z.ltb_spec limit 0).
    + rewrite (proj2 (Z.ltb_lt _ _)) by lia. done.
    + rewrite (proj2 (Z.ltb_ge _ _)) by lia. by replace (Z.to_nat limit) with (S (Z.to_nat (limit - 1))) by lia.
Qed.


(** The part of a walk that is in the range. *)
Lemma walked_range F h zsl l reverse range : repr F h zsl l -> range_valid range -> exists a P Q, walked reverse l = a ++ P ++ Q /\
  List.filter (in_range range) (walked reverse l) = P /\ Forall (fun x => in_order reverse range x = true) P /\ Forall (fun x => in_order reverse range x = false) Q /\
  (if reverse then zslLastInRange h zsl range else zslFirstInRange h zsl range) = Some (i_ptr <$> head P).
Proof.
  intros Hr [Hmin Hmax]. rewrite (first_spec range Hmin Hmax F h zsl l Hr), (last_spec range Hmin Hmax F h zsl l Hr).
  destruct (range_split F h zsl l range Hr Hmin Hmax) as (A & M & C & -> & HgA & HgM & _ & HlM & HlC & HA & HM & HC).
  destruct (filter_three _ A M C HA HM HC) as [-> _]. destruct reverse; cbn [walked].
  - exists (rev C), (rev M), (rev A). assert (rev (A ++ M ++ C) = rev C ++ rev M ++ rev A) as E by by rewrite !rev_app_distr, <- app_assoc. rewrite E.
    assert (forall (P : item -> Prop) (o : list item), Forall P o -> Forall P (rev o)) as Hrev by (intros P o Ho; by rewrite <- Permutation_rev).
    split_and!; [done| | | |].
    + by apply (filter_three _ (rev C) (rev M) (rev A)); apply Hrev.
    + apply Hrev. eapply Forall_impl; [exact HgM|]. cbn. by intros x ?%negb_false_iff.
    + apply Hrev. eapply Forall_impl; [exact HgA|]. cbn. by intros x ?%negb_true_iff.
    + do 2 f_equal. destruct M as [|y M _] using rev_ind; [done|]. by rewrite last_snoc, rev_app_distr.
  - exists A, M, C. split_and!; try done. by apply (filter_three _ A M C).
Qed.

Lemma zrangebyscore_spec F h zs l range offset limit reverse : zset_ok F h zs l -> range_valid range ->
  zrangebyscore h zs range offset limit reverse =
    Some (if offset <? 0 then [] else takeZ limit (drop (Z.to_nat offset) (List.filter (pair_in_range range) (walked reverse (contents l))))).
Proof.
  intros [Hr Hd Hnd] Hrange. rewrite <- contents_walked, contents_filter. change (fun x => pair_in_range range (pair_of x)) with (in_range range).
  destruct (walked_range F h _ l reverse range Hr Hrange) as (a & P & Q & E & EP & HP & HQ & Estart). unfold zrangebyscore. rewrite Estart, EP. cbn [mbind option_bind].
  assert (length (P ++ Q) < walk_fuel (zs_zsl zs))%nat as Hf.
  { unfold walk_fuel. rewrite (rp_length _ _ _ _ Hr), Nat2Z.id, <- (walked_length reverse l), E, !length_app. lia. }
  assert (takeZ limit (drop (Z.to_nat offset) (contents P)) = contents (takeZ limit (drop (Z.to_nat offset) P))) as ->.
  { rewrite <- contents_drop. unfold takeZ. destruct (limit <? 0); [done|]. by rewrite contents_take. }
  destruct P as [|x P]; cbn [head fmap option_fmap option_map].
  { rewrite drop_nil. assert (takeZ limit ([] : list item) = []) as -> by (unfold takeZ; destruct (limit <? 0); [done|apply take_nil]). by destruct (offset <? 0). }
  pose proof (skip_nodes_spec F h _ l reverse Hr (x :: P ++ Q) a (walk_fuel (zs_zsl zs)) offset E Hf) as Hskip. cbn [head fmap option_fmap option_map] in Hskip. rewrite Hskip. cbn [mbind option_bind].
  destruct (Z.ltb_spec offset 0).
  - by destruct (walk_fuel (zs_zsl zs)).
  - change (x :: P ++ Q) with ((x :: P) ++ Q) in *. rewrite drop_app. apply (send_range_spec F h _ l reverse range (drop (Z.to_nat offset - length (x :: P)) Q) Hr) with (a := a ++ take (Z.to_nat offset) ((x :: P) ++ Q)).
    + by apply Forall_drop.
    + by rewrite <- drop_app, <- app_assoc, take_drop.
    + by apply Forall_drop.
    + rewrite <- drop_app, length_drop. lia.
Qed.


(** ** Removing *)

Context (dict_can_resize : bool).

Lemma resize_spec d m : models hash d m -> exists d', resize_if_needed dict_can_resize d = Some d' /\ models hash d' m.
Proof.
  intros Hd. unfold resize_if_needed. destruct (htNeedsResize d); [|by exists d]. destruct (dictResize_spec hash dict_can_resize d m Hd) as (d' & ok & -> & Hd'). by exists d'.
Qed.

Lemma zsetDel_spec F h zs l e : zset_ok F h zs l -> exists h' zs' l', zsetDel hash dict_can_resize h zs e =
    Some (h', zs', if bool_decide (is_Some (score_in (contents l) e)) then 1 else 0) /\ zset_ok F h' zs' l' /\ contents l' = remove_ele e (contents l).
Proof.
  intros [Hr Hd Hnd]. unfold zsetDel, dictUnlink. destruct (dictGenericDelete_spec hash _ _ e Hd) as (d' & -> & Hd').
  destruct (ele_map_lookup l e Hnd) as [(A & X & B & -> & <- & ->)|[He E]]; cbn [mbind option_bind fst snd fmap option_fmap option_map].
  - rewrite (score_at_spec _ _ _ _ _ _ Hr). cbn [mbind option_bind]. pose proof (rp_scores _ _ _ _ Hr) as Hsc. rewrite Forall_app, Forall_cons in Hsc. destruct Hsc as (_ & Hsx & _).
    destruct (delete_spec F h _ _ (i_score X) (i_ele X) Hr Hsx) as (h' & zsl' & -> & Hr'). cbn [mbind option_bind]. rewrite without_mid in Hr' by done.
    assert (existsb (same_key (i_score X, i_ele X)) (contents (A ++ X :: B)) = true) as ->.
    { rewrite contents_app, existsb_app. apply orb_true_iff. right. apply orb_true_iff. left. by apply (same_key_spec (i_score X, i_ele X) (pair_of X) Hsx Hsx). }
    cbn [negb]. rewrite ele_map_delete in Hd' by done. destruct (resize_spec d' _ Hd') as (d2 & -> & Hd2). cbn [mbind option_bind].
    exists h', (mkZset d2 zsl'), (A ++ B). rewrite score_in_mid, bool_decide_eq_true_2 by (done || by eexists). split; [done|]. split; [|by rewrite remove_mid].
    constructor; [done|done|]. by apply nodup_mid in Hnd as [_ ?].
  - rewrite E. cbn. rewrite score_in_none, bool_decide_eq_false_2 by (done || by intros []). exists h, (mkZset d' (zs_zsl zs)), l. split; [done|].
    split; [|by rewrite remove_none]. constructor; [done| |done]. rewrite delete_id in Hd' by done. done.
Qed.

(** ** Removing ranges *)

Lemma zremrangebyscore_spec F h zs l range : zset_ok F h zs l -> range_valid range -> exists h' zs' l',
  zremrangebyscore hash dict_can_resize h zs range = Some (h', zs', Z.of_nat (length (List.filter (pair_in_range range) (contents l)))) /\
  zset_ok F h' zs' l' /\ contents l' = List.filter (fun q => negb (pair_in_range range q)) (contents l).
Proof.
  intros [Hr Hd Hnd] [Hmin Hmax]. rewrite !contents_filter, length_contents. change (fun x => pair_in_range range (pair_of x)) with (in_range range).
  change (fun x => negb (pair_in_range range (pair_of x))) with (fun x => negb (in_range range x)). unfold zremrangebyscore.
  destruct (delete_by_score_spec hash F h _ l range _ _ Hr Hd Hmin Hmax) as (h' & zsl' & d' & -> & Hr' & Hd'). cbn [mbind option_bind].
  destruct (resize_spec _ _ Hd') as (d2 & -> & Hd2). cbn [mbind option_bind]. eexists h', (mkZset d2 zsl'), _. split; [done|]. split; [|done].
  destruct (range_split F h _ l range Hr Hmin Hmax) as (A & M & C & -> & _ & _ & _ & _ & _ & HA & HM & HC). destruct (filter_three _ A M C HA HM HC) as [E1 E2]. rewrite E1, E2 in *.
  constructor; [done| |]; cbn [zs_dict].
  - by rewrite ele_map_forget in Hd2.
  - rewrite !map_app in *. apply NoDup_app in Hnd as (? & Hdis & Hnd). apply NoDup_app in Hnd as (? & ? & ?). apply NoDup_app. split_and!; try done. set_solver.
Qed.

Lemma zremrangebyrank_spec F h zs l start end_ : zset_ok F h zs l -> is_long start -> is_long end_ -> exists h' zs' l',
  zremrangebyrank hash dict_can_resize h zs start end_ = Some (h', zs', Z.of_nat (length (slice start end_ (contents l)))) /\
  zset_ok F h' zs' l' /\ contents l' = slice_out start end_ (contents l).
Proof.
  intros Hok Hs He. pose proof Hok as [Hr Hd Hnd]. pose proof (rp_short _ _ _ _ Hr) as Hl. unfold zremrangebyrank, zsetLength. rewrite (rp_length _ _ _ _ Hr).
  rewrite (swrap_small 64) by (unfold in_s; lia). pose proof (slice_sanitize (contents l) start end_) as Hsl. rewrite length_contents in Hsl. specialize (Hsl Hl Hs He).
  destruct (sanitize _ start end_) as [[s e]|]; [|destruct Hsl as [-> ->]; by exists h, zs, l]. destruct Hsl as (Hse & Hel & -> & ->). rewrite !(uwrap_small 32) by lia.
  pose proof (delete_by_rank_spec hash F h _ l (Z.to_nat s + 1) (Z.to_nat e + 1) _ _ Hr Hd ltac:(lia)) as (h' & zsl' & d' & Hdel). cbv zeta in Hdel. destruct Hdel as (E & Hr' & Hd').
  replace (Z.of_nat (Z.to_nat s + 1)) with (s + 1) in E by lia. replace (Z.of_nat (Z.to_nat e + 1)) with (e + 1) in E by lia. rewrite E. cbn [mbind option_bind].
  replace (Z.to_nat s + 1 - 1)%nat with (Z.to_nat s) in * by lia. replace (Z.to_nat e + 1 - Z.to_nat s)%nat with (Z.to_nat (e - s + 1)) in * by lia.
  destruct (resize_spec _ _ Hd') as (d2 & -> & Hd2). cbn [mbind option_bind]. eexists h', (mkZset d2 zsl'), _.
  rewrite <- !contents_drop, <- !contents_take, <- contents_app, length_contents. split; [done|]. split; [|done].
  set (A := take (Z.to_nat s) l) in *. set (M := take (Z.to_nat (e - s + 1)) (drop (Z.to_nat s) l)) in *. set (C := drop (Z.to_nat (e - s + 1)) (drop (Z.to_nat s) l)) in *.
  assert (l = A ++ M ++ C) as El by (subst A M C; by rewrite !take_drop). rewrite El in Hnd, Hd2. constructor; [done| |]; cbn [zs_dict].
  - by rewrite ele_map_forget in Hd2.
  - rewrite !map_app in *. apply NoDup_app in Hnd as (? & Hdis & Hnd). apply NoDup_app in Hnd as (? & ? & ?). apply NoDup_app. split_and!; try done. set_solver.
Qed.


Context (zmalloc : heap -> ptr) (junk_level : zskiplistLevel) (junk_backward : option ptr) (junk_value : ptr).

(** ** Adding *)

Section add.
Context (zmalloc_fresh : forall h, zmalloc h ∉ dom h).

Lemma nodup_other A X B A' B' Y : NoDup (map i_ele (A ++ X :: B)) -> A ++ B = A' ++ B' -> i_ele Y = i_ele X -> NoDup (map i_ele (A' ++ Y :: B')).
Proof. rewrite !nodup_mid. intros [Hn Hnd] <- ->. by split. Qed.

Lemma update_in_zset F h zs l rnd s' A X B : zset_ok F h zs l -> l = A ++ X :: B -> isnan s' = false -> is_Some (zslRandomLevel rnd) -> exists h' zsl' rnd2 x l',
  zslUpdateScore zmalloc junk_level junk_backward h (zs_zsl zs) rnd (i_score X) (i_ele X) s' = Some (h', zsl', rnd2, x) /\
  zset_ok F h' (mkZset (dictSetVal (zs_dict zs) (i_ele X) x) zsl') l' /\ contents l' = sorted_add (s', i_ele X) (remove_ele (i_ele X) (contents l)).
Proof.
  intros [Hr Hd Hnd] -> Hs' [[level rnd'] Hrnd]. pose proof (rp_scores _ _ _ _ Hr) as Hsc. rewrite Forall_app, Forall_cons in Hsc. destruct Hsc as (_ & Hsx & _).
  destruct (update_spec zmalloc junk_level junk_backward zmalloc_fresh F h _ _ rnd rnd' level (i_score X) (i_ele X) s' Hr Hsx Hs' Hnd) as (A0 & B0 & X0 & k & h' & zsl' & x & rnd2 & El & He & E & A' & B' & EAB & Hr' & Hc).
  { rewrite contents_app, existsb_app. apply orb_true_iff. right. apply orb_true_iff. left. by apply (same_key_spec (i_score X, i_ele X) (pair_of X) Hsx Hsx). }
  { done. }
  exists h', zsl', rnd2, x, (A' ++ mkItem x k s' (i_ele X) :: B'). split; [done|]. rewrite El in Hnd.
  assert (NoDup (map i_ele (A' ++ mkItem x k s' (i_ele X) :: B'))) as Hnd' by by apply (nodup_other A0 X0 B0).
  split; [constructor; [done| |done]|].
  - pose proof (dictSetVal_spec hash _ _ (i_ele X) x Hd) as Hset. rewrite El, ele_map_mid, He, insert_insert_eq in Hset by done.
    rewrite ele_map_mid, <- EAB by done. apply Hset. rewrite lookup_insert_eq. by eexists.
  - rewrite Hc. f_equal. rewrite <- contents_without. rewrite <- El in Hnd. by rewrite without_mid, remove_mid.
Qed.

Lemma insert_in_zset F h zs l rnd s e : zset_ok F h zs l -> e ∉ map i_ele l -> isnan s = false -> Z.of_nat (length l) + 1 < 2 ^ 32 -> is_Some (zslRandomLevel rnd) ->
  exists h' zsl' rnd2 x d' l', zslInsert zmalloc junk_level junk_backward h (zs_zsl zs) rnd s e = Some (h', zsl', rnd2, x) /\
  dictAdd hash junk_value dict_can_resize (zs_dict zs) e x = Some (d', true) /\
  zset_ok F h' (mkZset d' zsl') l' /\ contents l' = sorted_add (s, e) (contents l).
Proof.
  intros Hok He Hs Hlen [[level rnd'] Hrnd]. pose proof (dict_short _ _ _ _ Hok) as Hsz. destruct Hok as [Hr Hd Hnd].
  destruct (zslInsert_spec zmalloc junk_level junk_backward zmalloc_fresh F h _ l rnd rnd' level s e Hr Hs) as (A & B & h' & zsl' & x & -> & _ & Hadd & E & Hr'); try done.
  { apply Forall_forall. intros y Hy [_ Ey]. apply He. rewrite <- Ey. by apply list_elem_of_fmap_2. }
  destruct (dictAdd_spec hash junk_value dict_can_resize _ _ e x Hd Hsz) as (d' & Ed & Hd'). rewrite (ele_map_none _ _ He) in Ed, Hd'. rewrite bool_decide_eq_true_2 in Ed by done.
  exists h', zsl', rnd', x, d', (A ++ mkItem x level s e :: B). split_and!; [done|done| |done].
  assert (NoDup (map i_ele (A ++ mkItem x level s e :: B))) as Hnd' by by apply nodup_mid.
  constructor; [done| |done]. by rewrite ele_map_mid.
Qed.

Lemma zsetAdd_spec F h zs l rnd score e flags : zset_ok F h zs l -> Z.of_nat (length l) + 1 < 2 ^ 32 -> is_Some (zslRandomLevel rnd) -> exists h' zs' l',
  zsetAdd zmalloc junk_level junk_backward hash junk_value dict_can_resize h zs rnd score e flags = Some (h', zs', (spec_add (contents l) score e flags).2) /\
  zset_ok F h' zs' l' /\ contents l' = (spec_add (contents l) score e flags).1.
Proof.
  intros Hok Hlen Hrnd. unfold zsetAdd, spec_add. rewrite (flag_bit flags ZADD_INCR 0), (flag_bit flags ZADD_NX 1), (flag_bit flags ZADD_XX 2) by done.
  destruct (isnan score) eqn:Hs; [by exists h, zs, l|]. destruct (find_spec F h zs l e Hok) as (d' & Hd' & Hf). set (zs1 := mkZset d' (zs_zsl zs)).
  assert (zset_ok F h zs1 l) as Hok1 by (destruct Hok; by constructor). pose proof (zo_list _ _ _ _ Hok) as Hr. pose proof (zo_nodup _ _ _ _ Hok) as Hnd.
  destruct Hf as [(A & X & B & El & <- & ->)|[He ->]]; cbn [mbind option_bind fst snd]; fold zs1.
  - rewrite El in Hnd, Hr. assert (score_in (contents l) (i_ele X) = Some (i_score X)) as -> by (rewrite El; by apply score_in_mid). rewrite (score_at_spec _ _ _ _ _ _ Hr). cbn [mbind option_bind].
    destruct (Z.testbit flags 1); [by exists h, zs1, l|]. set (new := if Z.testbit flags 0 then _ else _).
    assert ((Z.testbit flags 0 && isnan new) = isnan new) as -> by (subst new; destruct (Z.testbit flags 0); [done|by rewrite Hs]).
    destruct (isnan new) eqn:Hn; [by exists h, zs1, l|]. destruct (deq new (i_score X)); cbn [negb]; [by exists h, zs1, l|].
    destruct (update_in_zset F h zs1 l rnd new A X B Hok1 El Hn Hrnd) as (h' & zsl' & rnd2 & x & l' & -> & Hok' & Hc). cbn [mbind option_bind].
    exists h', (mkZset (dictSetVal (zs_dict zs1) (i_ele X) x) zsl'), l'. by split_and!.
  - rewrite (score_in_none _ _ He). destruct (Z.testbit flags 2); [by exists h, zs1, l|].
    destruct (insert_in_zset F h zs1 l rnd score e Hok1 He Hs Hlen Hrnd) as (h' & zsl' & rnd2 & x & d2 & l' & -> & Ed & Hok' & Hc). cbn [mbind option_bind]. rewrite Ed. cbn [mbind option_bind negb fst snd].
    exists h', (mkZset d2 zsl'), l'. by split_and!.
Qed.
End add.


(** ** Sequences of calls *)

Definition zset_step (st : heap * zset) (o : zop) : option (heap * zset * zreply) :=
  let '(h, zs) := st in
  match o with
  | ZAdd rnd score e flags =>
      r ← zsetAdd zmalloc junk_level junk_backward hash junk_value dict_can_resize h zs rnd score e flags; let '(h, zs, a) := r in Some (h, zs, RAdded a)
  | ZRem e => r ← zsetDel hash dict_can_resize h zs e; let '(h, zs, n) := r in Some (h, zs, RInt n)
  | ZScore e => r ← zsetScore hash h zs e; Some (h, r.1, RScore r.2)
  | ZRank e reverse => r ← zsetRank hash h zs e reverse; Some (h, r.1, RInt r.2)
  | ZCount range => n ← zcount h zs range; Some (h, zs, RInt n)
  | ZRange start end_ reverse => l ← zrange h zs start end_ reverse; Some (h, zs, RPairs l)
  | ZRangeByScore range offset limit reverse => l ← zrangebyscore h zs range offset limit reverse; Some (h, zs, RPairs l)
  | ZRemRangeByScore range => r ← zremrangebyscore hash dict_can_resize h zs range; let '(h, zs, n) := r in Some (h, zs, RInt n)
  | ZRemRangeByRank start end_ => r ← zremrangebyrank hash dict_can_resize h zs start end_; let '(h, zs, n) := r in Some (h, zs, RInt n)
  end.

Fixpoint zset_run (st : heap * zset) (os : list zop) : option (heap * zset * list zreply) :=
  match os with
  | [] => Some (st, [])
  | o :: os => r ← zset_step st o; q ← zset_run r.1 os; Some (q.1, r.2 :: q.2)
  end.

Fixpoint spec_run L (os : list zop) : list (Z * list byte) * list zreply :=
  match os with
  | [] => (L, [])
  | o :: os => let r := spec_step L o in let q := spec_run r.1 os in (q.1, r.2 :: q.2)
  end.

Section run.
Context (zmalloc_fresh : forall h, zmalloc h ∉ dom h).

Lemma zset_step_spec F h zs l o : zset_ok F h zs l -> op_valid o -> Z.of_nat (length l) + 1 < 2 ^ 32 -> exists h' zs' l',
  zset_step (h, zs) o = Some (h', zs', (spec_step (contents l) o).2) /\ zset_ok F h' zs' l' /\ contents l' = (spec_step (contents l) o).1.
Proof.
  intros Hok Hv Hlen. destruct o as [rnd score ele flags|ele|ele|ele rv|range|start end_ rv|range offset limit rv|range|start end_]; cbn [zset_step op_valid] in *; unfold spec_step.
  - destruct (zsetAdd_spec zmalloc_fresh F h zs l rnd score ele flags Hok Hlen Hv) as (h' & zs' & l' & -> & ?). by exists h', zs', l'.
  - destruct (zsetDel_spec F h zs l ele Hok) as (h' & zs' & l' & -> & ?). by exists h', zs', l'.
  - destruct (zsetScore_spec F h zs l ele Hok) as (zs' & -> & ?). by exists h, zs', l.
  - destruct (zsetRank_spec F h zs l ele rv Hok) as (zs' & -> & ?). by exists h, zs', l.
  - rewrite (zcount_spec F h zs l) by done. by exists h, zs, l.
  - rewrite (zrange_spec F h zs l) by (done || apply Hv). by exists h, zs, l.
  - rewrite (zrangebyscore_spec F h zs l) by done. by exists h, zs, l.
  - destruct (zremrangebyscore_spec F h zs l range Hok Hv) as (h' & zs' & l' & -> & ?). by exists h', zs', l'.
  - destruct (zremrangebyrank_spec F h zs l start end_ Hok) as (h' & zs' & l' & -> & ?); [apply Hv..|]. by exists h', zs', l'.
Qed.

Lemma sorted_add_length p L : length (sorted_add p L) = S (length L).
Proof. induction L as [|q L IH]; [done|]. cbn. destruct (pair_ltb q p); cbn; [by rewrite IH|done]. Qed.

Lemma filter_length_le {A} (P : A -> bool) (o : list A) : (length (List.filter P o) <= length o)%nat.
Proof. induction o as [|x o IH]; cbn; [lia|]. destruct (P x); cbn; lia. Qed.

(** A call adds at most one element. *)
Lemma spec_step_length L o : (length (spec_step L o).1 <= S (length L))%nat.
Proof.
  destruct o as [rnd score ele flags|ele|ele|ele rv|range|start end_ rv|range offset limit rv|range|start end_]; cbn [spec_step fst]; try lia.
  - unfold spec_add. destruct (isnan score); cbn [fst]; [lia|]. destruct (score_in L ele) as [cur|].
    + destruct (Z.testbit flags 1); cbn [fst]; [lia|]. destruct (isnan _); cbn [fst]; [lia|]. destruct (deq _ _); cbn [fst]; [lia|].
      rewrite sorted_add_length. pose proof (filter_length_le (fun q => negb (bool_decide (q.2 = ele))) L). unfold remove_ele. lia.
    + destruct (Z.testbit flags 2); cbn [fst]; [lia|]. by rewrite sorted_add_length.
  - pose proof (filter_length_le (fun q => negb (bool_decide (q.2 = ele))) L). unfold remove_ele. lia.
  - pose proof (filter_length_le (fun q => negb (pair_in_range range q)) L). lia.
  - unfold slice_out. rewrite length_app, length_take, !length_drop. lia.
Qed.

Lemma zset_run_spec os : forall F h zs l, zset_ok F h zs l -> Forall op_valid os -> Z.of_nat (length l) + Z.of_nat (length os) < 2 ^ 32 -> exists h' zs' l',
  zset_run (h, zs) os = Some (h', zs', (spec_run (contents l) os).2) /\ zset_ok F h' zs' l' /\ contents l' = (spec_run (contents l) os).1.
Proof.
  induction os as [|o os IH]; intros F h zs l Hok Hv Hlen; cbn [zset_run spec_run].
  - by exists h, zs, l.
  - inversion Hv; subst. cbn [length] in Hlen. destruct (zset_step_spec F h zs l o Hok) as (h1 & zs1 & l1 & -> & Hok1 & Hc1); [done|lia|]. cbn [mbind option_bind fst snd].
    pose proof (spec_step_length (contents l) o) as Hle. rewrite <- Hc1, !length_contents in Hle.
    destruct (IH F h1 zs1 l1 Hok1) as (h2 & zs2 & l2 & -> & Hok2 & Hc2); [done|lia|]. cbn [mbind option_bind fst snd]. rewrite Hc1 in *. by exists h2, zs2, l2.
Qed.

Lemma createZset_ok h : exists h' zs, createZset zmalloc junk_level junk_backward h = Some (h', zs) /\ zset_ok (dom h) h' zs [].
Proof.
  destruct (create_spec zmalloc junk_level junk_backward h (zmalloc_fresh h)) as (h' & zsl & E & Hr & _). unfold createZset. rewrite E. cbn [mbind option_bind fst snd].
  eexists h', _. split; [done|]. constructor; [done|apply dictCreate_models|constructor].
Qed.
End run.
End proofs.

(** ** Reachable sorted sets *)

Inductive zset_reachable (zmalloc : heap -> ptr) (junk_level : zskiplistLevel) (junk_backward : option ptr) (hash : list byte -> Z) (junk_value : ptr)
    (h0 : heap) : heap -> zset -> Prop :=
  | reach_create h zs : createZset zmalloc junk_level junk_backward h0 = Some (h, zs) -> zset_reachable zmalloc junk_level junk_backward hash junk_value h0 h zs
  | reach_call dict_can_resize h zs o h' zs' r : zset_reachable zmalloc junk_level junk_backward hash junk_value h0 h zs -> op_valid o -> zsetLength zs + 1 < 2 ^ 32 ->
      zset_step hash dict_can_resize zmalloc junk_level junk_backward junk_value (h, zs) o = Some (h', zs', r) ->
      zset_reachable zmalloc junk_level junk_backward hash junk_value h0 h' zs'.

Section reach.
Context (zmalloc : heap -> ptr) (junk_level : zskiplistLevel) (junk_backward : option ptr) (hash : list byte -> Z) (junk_value : ptr) (h0 : heap).
Context (zmalloc_fresh : forall h : heap, zmalloc h ∉ dom h).

Lemma reachable_ok h zs : zset_reachable zmalloc junk_level junk_backward hash junk_value h0 h zs -> exists l, zset_ok hash (dom h0) h zs l.
Proof.
  induction 1 as [h zs E|cr h zs o h' zs' r _ [l Hok] Hv Hlen E].
  - destruct (createZset_ok hash zmalloc junk_level junk_backward zmalloc_fresh h0) as (h1 & zs1 & E1 & Hok). rewrite E in E1. injection E1 as <- <-. by exists [].
  - unfold zsetLength in Hlen. rewrite (rp_length _ _ _ _ (zo_list _ _ _ _ _ Hok)) in Hlen.
    destruct (zset_step_spec hash cr zmalloc junk_level junk_backward junk_value zmalloc_fresh (dom h0) h zs l o Hok Hv Hlen) as (h1 & zs1 & l' & E1 & Hok' & _).
    rewrite E in E1. injection E1 as <- <- _. by exists l'.
Qed.
End reach.

Lemma repr_size F h zsl l : repr F h zsl l -> size h = S (length l + size F).
Proof.
  intros Hr. rewrite <- size_dom, (rp_dom _ _ _ _ Hr). pose proof (rp_nodup _ _ _ _ Hr) as Hnd. pose proof (rp_frame _ _ _ _ Hr) as Hf.
  assert ({[z_header zsl]} ∪ list_to_set (ptrs l) =@{gset ptr} list_to_set (z_header zsl :: ptrs l)) as -> by done.
  rewrite size_union, size_list_to_set by (done || set_solver). cbn. unfold ptrs. by rewrite length_map.
Qed.

(** An address no block has: the one after the highest. *)
Definition next_address (h : heap) : ptr := (fold_right Pos.max 1%positive (map fst (map_to_list h)) + 1)%positive.

Lemma next_address_fresh h : next_address h ∉ dom h.
Proof.
  intros [n Hn]%elem_of_dom. apply elem_of_map_to_list in Hn. unfold next_address in Hn. revert Hn. generalize (map_to_list h). intros o Ho.
  assert (forall p n, (p, n) ∈ o -> (p <= fold_right Pos.max 1 (map fst o))%positive) as Hle.
  { clear. induction o as [|[q m] o IH]; intros p n Hin; [by apply not_elem_of_nil in Hin|]. cbn. apply elem_of_cons in Hin as [[= -> _]|Hin]; [lia|]. specialize (IH p n Hin). lia. }
  specialize (Hle _ _ Ho). lia.
Qed.

(** ** Results *)

(** C1: a sorted set behaves as a sorted list of (score, element) pairs: over
    every sequence of additions, increments, removals, lookups, ranks, counts,
    ranges and range deletions, every call returns, with the answer the list gives,
    and skip list and dictionary end up holding that list. *)
Theorem zset_refines zmalloc junk_level junk_backward hash junk_value dict_can_resize (h : heap) os :
  (forall h : heap, zmalloc h ∉ dom h) -> Forall op_valid os -> Z.of_nat (length os) < 2 ^ 32 -> exists h0 zs0 h' zs' l,
  createZset zmalloc junk_level junk_backward h = Some (h0, zs0) /\
  zset_run hash dict_can_resize zmalloc junk_level junk_backward junk_value (h0, zs0) os = Some (h', zs', (spec_run [] os).2) /\
  zset_ok hash (dom h) h' zs' l /\ contents l = (spec_run [] os).1.
Proof.
  intros Hfresh Hv Hlen. destruct (createZset_ok hash zmalloc junk_level junk_backward Hfresh h) as (h0 & zs0 & E & Hok).
  destruct (zset_run_spec hash dict_can_resize zmalloc junk_level junk_backward junk_value Hfresh os _ _ _ _ Hok Hv) as (h' & zs' & l & Hrun); [cbn; lia|].
  by exists h0, zs0, h', zs', l.
Qed.

(** C10: every sorted set that calls can produce is well formed: at each level the
    forward pointers and spans are those of the sorted sequence of nodes, backward
    pointers, tail, length and level agree with it, no score is NaN, and the
    dictionary has exactly one entry per node. *)
Theorem zset_wellformed zmalloc junk_level junk_backward hash junk_value (h0 h : heap) zs :
  (forall h : heap, zmalloc h ∉ dom h) -> zset_reachable zmalloc junk_level junk_backward hash junk_value h0 h zs -> exists l, zset_ok hash (dom h0) h zs l.
Proof. intros Hfresh Hreach. by apply (reachable_ok zmalloc junk_level junk_backward hash junk_value h0 Hfresh). Qed.

(** From every reachable sorted set, every valid call completes: no assertion
    fails, no pointer outside the set's nodes is followed and no loop fails to end. *)
Theorem zset_calls_complete zmalloc junk_level junk_backward hash junk_value dict_can_resize (h0 h : heap) zs o :
  (forall h : heap, zmalloc h ∉ dom h) -> zset_reachable zmalloc junk_level junk_backward hash junk_value h0 h zs -> op_valid o -> zsetLength zs + 1 < 2 ^ 32 ->
  is_Some (zset_step hash dict_can_resize zmalloc junk_level junk_backward junk_value (h, zs) o).
Proof.
  intros Hfresh Hreach Hv Hlen. destruct (reachable_ok zmalloc junk_level junk_backward hash junk_value h0 Hfresh h zs Hreach) as [l Hok].
  unfold zsetLength in Hlen. rewrite (rp_length _ _ _ _ (zo_list _ _ _ _ _ Hok)) in Hlen.
  destruct (zset_step_spec hash dict_can_resize zmalloc junk_level junk_backward junk_value Hfresh _ h zs l o Hok Hv Hlen) as (h' & zs' & l' & -> & _). by eexists.
Qed.

(** C30: the score pointers of the dictionary never dangle: every entry leads to a
    live node that holds the entry's own element; and nothing is leaked: besides the
    blocks that were there before, the heap has one block per element and the
    header. *)
Theorem zset_pointers_live zmalloc junk_level junk_backward hash junk_value (h0 h : heap) zs :
  (forall h : heap, zmalloc h ∉ dom h) -> zset_reachable zmalloc junk_level junk_backward hash junk_value h0 h zs ->
  (forall e d p, dictFind hash (zs_dict zs) e = Some (d, Some p) -> exists n, h !! p.2 = Some n /\ n_ele n = Some e) /\
  Z.of_nat (size h) = Z.of_nat (size h0) + 1 + zsetLength zs.
Proof.
  intros Hfresh Hreach. destruct (reachable_ok zmalloc junk_level junk_backward hash junk_value h0 Hfresh h zs Hreach) as [l Hok]. split.
  - intros e d p E. destruct (find_spec hash _ h zs l e Hok) as (d' & _ & [(A & X & B & -> & <- & E')|[_ E']]); rewrite E in E'; [|done]. injection E' as _ ->. cbn.
    destruct (node_of _ _ _ _ _ _ (zo_list _ _ _ _ _ Hok)) as (n & Hn & He & _). by exists n.
  - pose proof (zo_list _ _ _ _ _ Hok) as Hr. unfold zsetLength. rewrite (rp_length _ _ _ _ Hr), (repr_size _ _ _ _ Hr), size_dom. lia.
Qed.

Lemma index_of_lookup e L k : index_of e L = Some k -> exists s, L !! k = Some (s, e).
Proof.
  revert k. induction L as [|[s e'] L IH]; intros k; cbn [index_of snd]; [done|]. destruct (bool_decide (e' = e)) eqn:Hb.
  - intros [= <-]. apply bool_decide_eq_true in Hb as ->. by exists s.
  - destruct (index_of e L) as [j|]; [|done]. cbn. intros [= <-]. by apply IH.
Qed.

Lemma slice_one {A} (o : list A) k x : o !! k = Some x -> slice (Z.of_nat k) (Z.of_nat k) o = [x].
Proof.
  intros Hk. unfold slice, position. rewrite (proj2 (Z.ltb_ge (Z.of_nat k) 0)) by lia. replace (Z.to_nat (Z.max 0 (Z.of_nat k))) with k by lia.
  replace (Z.to_nat (Z.of_nat k + 1 - Z.max 0 (Z.of_nat k))) with 1%nat by lia. by rewrite (drop_S o x k Hk).
Qed.

(** Rank and range are inverse: the element at the rank that ZRANK (or
    ZREVRANK) reports for [e], as ZRANGE (or ZREVRANGE) returns it, is [e], with the
    score that ZSCORE reports; and only an element without a score has no rank. *)
Theorem zset_rank_roundtrip zmalloc junk_level junk_backward hash junk_value (h0 h : heap) zs e reverse :
  (forall h : heap, zmalloc h ∉ dom h) -> zset_reachable zmalloc junk_level junk_backward hash junk_value h0 h zs -> exists zs1 zs2 k s,
  zsetRank hash h zs e reverse = Some (zs1, k) /\ zsetScore hash h zs e = Some (zs2, s) /\
  match s with
  | Some s => zrange h zs k k reverse = Some [(s, e)]
  | None => k = -1
  end.
Proof.
  intros Hfresh Hreach. destruct (reachable_ok zmalloc junk_level junk_backward hash junk_value h0 Hfresh h zs Hreach) as [l Hok].
  destruct (zsetRank_spec hash _ h zs l e reverse Hok) as (zs1 & E1 & _). destruct (zsetScore_spec hash _ h zs l e Hok) as (zs2 & E2 & _).
  eexists zs1, zs2, _, _. split; [exact E1|]. split; [exact E2|]. pose proof (zo_list _ _ _ _ _ Hok) as Hr. pose proof (zo_nodup _ _ _ _ _ Hok) as Hnd. clear E1 E2.
  fold (walked reverse (contents l)). rewrite <- contents_walked. destruct (ele_map_lookup l e Hnd) as [(A & X & B & -> & <- & _)|[He _]].
  - rewrite score_in_mid by done. apply nodup_mid in Hnd as Hn. rewrite map_app, not_elem_of_app in Hn. pose proof (rp_short _ _ _ _ Hr) as Hs. rewrite length_app in Hs. cbn [length] in Hs.
    assert (exists a b, walked reverse (A ++ X :: B) = a ++ X :: b /\ (i_ele X ∉ map i_ele a) /\ (length a <= length A + length B)%nat) as (a & b & E & Ha & Hla).
    { destruct reverse; cbn [walked]; [|exists A, B; split_and!; [done|tauto|lia]]. exists (rev B), (rev A). rewrite rev_app_distr, length_rev. cbn. rewrite <- app_assoc. split_and!; [done|apply notin_rev; tauto|lia]. }
    rewrite (zrange_spec hash _ h zs _ _ _ reverse Hok), <- contents_walked, E, index_of_mid by (done || unfold is_long; rewrite ?E, ?index_of_mid by done; lia).
    f_equal. apply slice_one. rewrite contents_app. rewrite lookup_app_r; rewrite length_contents; [|done]. by rewrite Nat.sub_diag.
  - rewrite score_in_none by done. rewrite index_of_none; [done|]. destruct reverse; [by apply notin_rev|done].
Qed.

(** ** Concrete runs *)

Definition one : Z := 0x3ff0000000000000.
Definition two : Z := 0x4000000000000000.
Definition length_hash (e : list byte) : Z := Z.of_nat (length e).
Definition old_level : zskiplistLevel := mkLevel (Some 77%positive) 99.

Definition sample_calls : list zop :=
  [ZAdd [0; 0; 65535] two [97] 0; ZAdd [65535] one [98; 98] 0; ZRank [97] false; ZAdd [65535] one [97] ZADD_INCR; ZScore [97]; ZRange 0 (-1) true;
   ZCount (mkRange one two false false); ZRem [98; 98]; ZRange 0 (-1) false].

(** 1 + 2 = 3, and infinities cancel to NaN. *)
Example dadd_sample : dadd one two = 0x4008000000000000 /\ isnan (dadd 0x7ff0000000000000 0xfff0000000000000) = true.
Proof. by vm_compute. Qed.

Definition run_calls (os : list zop) : option (heap * zset * list zreply) :=
  st ← createZset next_address old_level None ∅;
  zset_run length_hash true next_address old_level None 1%positive st os.

Example sample_run_replies : snd <$> run_calls sample_calls = Some (spec_run [] sample_calls).2.
Proof. by vm_compute. Qed.

Lemma sample_valid : Forall op_valid sample_calls.
Proof. repeat constructor; first [by eexists|done|vm_compute; lia|idtac]. all: unfold is_long; lia. Qed.

Lemma zset_refines_witness : exists h0 zs0 h' zs' l,
  createZset next_address old_level None ∅ = Some (h0, zs0) /\
  zset_run length_hash true next_address old_level None 1%positive (h0, zs0) sample_calls = Some (h', zs', (spec_run [] sample_calls).2) /\
  zset_ok length_hash (dom (∅ : heap)) h' zs' l /\ contents l = [(0x4008000000000000, [97])].
Proof. exact (zset_refines next_address old_level None length_hash 1%positive true ∅ sample_calls next_address_fresh sample_valid eq_refl). Defined.

(** A set that calls have produced. *)
Definition sample_reachable (h : heap) (zs : zset) : Prop := zset_reachable next_address old_level None length_hash 1%positive ∅ h zs.

Lemma sample_reached : exists h zs, sample_reachable h zs /\ zsetLength zs = 1.
Proof.
  destruct (createZset next_address old_level None ∅) as [[h0 zs0]|] eqn:E0; [|by vm_compute in E0].
  destruct (zset_step length_hash true next_address old_level None 1%positive (h0, zs0) (ZAdd [0; 65535] two [97] 0)) as [[[h1 zs1] r]|] eqn:E1.
  - exists h1, zs1. split.
    + eapply reach_call; [by apply reach_create| |  |exact E1]; [by eexists|]. vm_compute in E0. injection E0 as <- <-. done.
    + vm_compute in E0. injection E0 as <- <-. vm_compute in E1. injection E1 as <- <- <-. done.
  - vm_compute in E0. injection E0 as <- <-. by vm_compute in E1.
Qed.

Lemma zset_wellformed_witness : exists h zs l, zsetLength zs = 1 /\ zset_ok length_hash (dom (∅ : heap)) h zs l.
Proof.
  destruct sample_reached as (h & zs & Hreach & Hl). exists h, zs.
  destruct (zset_wellformed next_address old_level None length_hash 1%positive ∅ h zs next_address_fresh Hreach) as [l Hok]. by exists l.
Defined.

Lemma zset_calls_complete_witness : exists h zs, zsetLength zs = 1 /\
  is_Some (zset_step length_hash true next_address old_level None 1%positive (h, zs) (ZAdd [65535] one [98] 0)).
Proof.
  destruct sample_reached as (h & zs & Hreach & Hl). exists h, zs. split; [done|].
  apply (zset_calls_complete next_address old_level None length_hash 1%positive true ∅ h zs (ZAdd [65535] one [98] 0) next_address_fresh Hreach); [by eexists|by rewrite Hl].
Defined.

Lemma zset_pointers_live_witness : exists (h : heap) zs, zsetLength zs = 1 /\ Z.of_nat (size h) = 2.
Proof.
  destruct sample_reached as (h & zs & Hreach & Hl). exists h, zs. split; [done|].
  destruct (zset_pointers_live next_address old_level None length_hash 1%positive ∅ h zs next_address_fresh Hreach) as [_ Hs]. by rewrite Hs, Hl.
Defined.

Lemma zset_rank_roundtrip_witness : exists h zs zs1 zs2 k s, zsetLength zs = 1 /\
  zsetRank length_hash h zs [97] true = Some (zs1, k) /\ zsetScore length_hash h zs [97] = Some (zs2, s) /\
  match s with Some s => zrange h zs k k true = Some [(s, [97])] | None => k = -1 end.
Proof.
  destruct sample_reached as (h & zs & Hreach & Hl).
  destruct (zset_rank_roundtrip next_address old_level None length_hash 1%positive ∅ h zs [97] true next_address_fresh Hreach) as (zs1 & zs2 & k & s & Hrank).
  by exists h, zs, zs1, zs2, k, s.
Defined.
