(* ===== verification/Stream.v ===== *)
(** * Streams of commands (src/redis-5.0.7/src/replication.c, aof.c)

    The stream for the replicas and the append only file are sequences of requests,
    in which SELECT says to which database the commands that follow belong.  Here is
    what both have in common: the SELECT command, the bytes of a command, and what
    the commands of a stream are, each with its database, for the one who reads it. *)

From S2P Require Import Prelude Util Sds ServerDefs Protocol Reply.
From stdpp Require Import strings.

Local Open Scope Z_scope.

(** ** C strings *)

(** The bytes before the terminator, and [strcasecmp(a,b) == 0]. *)
Fixpoint cstr (l : list byte) : list byte := match l with [] => [] | b :: l => if b =? 0 then [] else b :: cstr l end.
Definition strcaseeq (a b : list byte) : bool := bool_decide (map tolower (cstr a) = map tolower (cstr b)).

(** ** Commands *)

(** The SELECT command of a stream. *)
Definition select_cmd (dictid : Z) : list byte :=
  bytes_of "*2" ++ CRLF ++ bytes_of "$6" ++ CRLF ++ bytes_of "SELECT" ++ CRLF ++
  bytes_of "$" ++ decimal (Z.of_nat (length (decimal dictid))) ++ CRLF ++ decimal dictid ++ CRLF.

Lemma select_cmd_request dictid : select_cmd dictid = request [bytes_of "SELECT"; decimal dictid].
Proof. unfold select_cmd, request, bulks, bulk. cbn [length mbind list_bind app]. rewrite app_nil_r. by rewrite <- !app_assoc. Qed.

Definition obj_ok (o : robj) : Prop := match o with OInt n => in_s 64 n | OSds p => Z.of_nat (length p) < 2 ^ 62 end.

Definition command_bytes (argv : list robj) : list byte := request (map robj_bytes argv).

Lemma requests_cons cmd R : requests (cmd :: R) = request cmd ++ requests R.
Proof. done. Qed.

Lemma requests_app R1 R2 : requests (R1 ++ R2) = requests R1 ++ requests R2.
Proof. apply bind_app. Qed.

(** ** Reading a stream *)

(** SELECT as the reader runs it. *)
Definition selected (cmd : list (list byte)) : option Z :=
  match cmd with
  | [name; db] => if bool_decide (map tolower name = bytes_of "select") then string2ll db else None
  | _ => None
  end.

(** The commands, each with its database, from the one selected. *)
Fixpoint replay (db : Z) (R : list (list (list byte))) : list (Z * list (list byte)) :=
  match R with
  | [] => []
  | cmd :: R => match selected cmd with Some n => replay n R | None => (db, cmd) :: replay db R end
  end.

(** The database selected afterwards. *)
Fixpoint last_db (db : Z) (R : list (list (list byte))) : Z :=
  match R with
  | [] => db
  | cmd :: R => match selected cmd with Some n => last_db n R | None => last_db db R end
  end.

Lemma selected_cmd dictid : 0 <= dictid < 2 ^ 31 -> selected [bytes_of "SELECT"; decimal dictid] = Some dictid.
Proof. intros Hd. cbn [selected]. rewrite bool_decide_eq_true_2 by reflexivity. apply string2ll_complete. unfold in_s. lia. Qed.

Lemma replay_app R1 R2 : forall db, replay db (R1 ++ R2) = replay db R1 ++ replay (last_db db R1) R2.
Proof. induction R1 as [|c R1 IH]; intros db; [done|]. cbn. destruct (selected c); [apply IH|]. cbn. by rewrite IH. Qed.

Lemma last_db_app R1 R2 : forall db, last_db db (R1 ++ R2) = last_db (last_db db R1) R2.
Proof. induction R1 as [|c R1 IH]; intros db; [done|]. cbn. destruct (selected c); apply IH. Qed.
