(* ===== verification/Repl.v ===== *)
(** * Replication: the backlog and partial resynchronization (src/redis-5.0.7/src/replication.c)

    A master numbers the bytes of its replication stream.  The most recent ones are
    kept in a circular buffer, the backlog, from which a replica that lost its
    connection is sent what it missed.  Here are the master's side of SYNC and PSYNC,
    the feeding of backlog and replicas, and the change of replication IDs when a
    replica becomes a master.  What is added to a replica's output buffers is the
    encoding of the answers (Reply.v); what is written to its socket directly is kept
    apart.  Results of system calls and random IDs are parameters. *)

From S2P Require Import Prelude Util Sds ServerDefs Protocol Reply Stream.
From stdpp Require Import strings.

Create HintDb repl.

Local Open Scope Z_scope.

Definition SLAVE_STATE_WAIT_BGSAVE_START : Z := 6.
Definition SLAVE_STATE_WAIT_BGSAVE_END : Z := 7.
Definition SLAVE_STATE_SEND_BULK : Z := 8.
Definition SLAVE_STATE_ONLINE : Z := 9.
Definition SLAVE_CAPA_EOF : Z := Z.shiftl 1 0.
Definition SLAVE_CAPA_PSYNC2 : Z := Z.shiftl 1 1.
Definition CONFIG_REPL_BACKLOG_MIN_SIZE : Z := 1024 * 16.
Definition CONFIG_RUN_ID_SIZE : nat := 40.
Definition LONG_STR_SIZE : Z := 21.

(** ** State *)

(** A client as far as replication is concerned.  [sl_line]: bytes written to the
    socket directly; [sl_out]: bytes added to the output buffers, those already sent
    included; [sl_closing]: it will be freed soon. *)
Record slave := mkSlave {
  sl_id : Z;
  sl_state : Z;
  sl_capa : Z;
  sl_pre_psync : bool;
  sl_initial : Z;
  sl_line : list byte;
  sl_out : list byte;
  sl_closing : bool
}.

Record backlog := mkLog {
  bl_buf : option (list byte);
  bl_size : Z;
  bl_histlen : Z;
  bl_idx : Z;
  bl_off : Z
}.

Record server := mkServer {
  masterhost : bool;
  replid : list byte;
  replid2 : list byte;
  second_replid_offset : Z;
  master_repl_offset : Z;
  repl_backlog : backlog;
  slaveseldb : Z;
  slaves : list slave
}.

Definition with_log (s : server) (off : Z) (b : backlog) : server :=
  mkServer (masterhost s) (replid s) (replid2 s) (second_replid_offset s) off b (slaveseldb s) (slaves s).
Definition with_ids (s : server) (id id2 : list byte) (off2 : Z) : server :=
  mkServer (masterhost s) id id2 off2 (master_repl_offset s) (repl_backlog s) (slaveseldb s) (slaves s).
Definition with_slaves (s : server) (l : list slave) : server :=
  mkServer (masterhost s) (replid s) (replid2 s) (second_replid_offset s) (master_repl_offset s) (repl_backlog s) (slaveseldb s) l.
Definition with_seldb (s : server) (db : Z) : server :=
  mkServer (masterhost s) (replid s) (replid2 s) (second_replid_offset s) (master_repl_offset s) (repl_backlog s) db (slaves s).
Definition with_masterhost (s : server) (b : bool) : server :=
  mkServer b (replid s) (replid2 s) (second_replid_offset s) (master_repl_offset s) (repl_backlog s) (slaveseldb s) (slaves s).

Definition sl_with_state (c : slave) (st initial : Z) : slave :=
  mkSlave (sl_id c) st (sl_capa c) (sl_pre_psync c) initial (sl_line c) (sl_out c) (sl_closing c).
Definition sl_with_line (c : slave) (l : list byte) : slave :=
  mkSlave (sl_id c) (sl_state c) (sl_capa c) (sl_pre_psync c) (sl_initial c) l (sl_out c) (sl_closing c).
Definition sl_with_out (c : slave) (o : list byte) : slave :=
  mkSlave (sl_id c) (sl_state c) (sl_capa c) (sl_pre_psync c) (sl_initial c) (sl_line c) o (sl_closing c).
Definition sl_with_pre_psync (c : slave) : slave :=
  mkSlave (sl_id c) (sl_state c) (sl_capa c) true (sl_initial c) (sl_line c) (sl_out c) (sl_closing c).

(** The reply functions. *)
Definition add_answer (c : slave) (a : answer) : slave := sl_with_out c (sl_out c ++ encode a).
Definition freeClientAsync (c : slave) : slave :=
  mkSlave (sl_id c) (sl_state c) (sl_capa c) (sl_pre_psync c) (sl_initial c) (sl_line c) (sl_out c) true.

Section code.
Context (junk : nat -> byte).

(** ** The backlog *)

Definition createReplicationBacklog (s : server) : option server :=
  let b := repl_backlog s in
  match bl_buf b with
  | Some _ => None
  | None => Some (with_log s (master_repl_offset s) (mkLog (Some (malloc junk (bl_size b))) (bl_size b) 0 0 (s64 (master_repl_offset s + 1))))
  end.

Definition resizeReplicationBacklog (s : server) (newsize : Z) : server :=
  let newsize := if newsize <? CONFIG_REPL_BACKLOG_MIN_SIZE then CONFIG_REPL_BACKLOG_MIN_SIZE else newsize in
  let b := repl_backlog s in
  if bl_size b =? newsize then s
  else
    match bl_buf b with
    | Some _ => with_log s (master_repl_offset s) (mkLog (Some (malloc junk newsize)) newsize 0 0 (s64 (master_repl_offset s + 1)))
    | None => with_log s (master_repl_offset s) (mkLog None newsize (bl_histlen b) (bl_idx b) (bl_off b))
    end.

Definition freeReplicationBacklog (s : server) : option server :=
  let b := repl_backlog s in
  match slaves s with
  | [] => Some (with_log s (master_repl_offset s) (mkLog None (bl_size b) (bl_histlen b) (bl_idx b) (bl_off b)))
  | _ => None
  end.

(** [while(len)]: [p] is what is still to be copied. *)
Fixpoint feed_loop (fuel : nat) (b : backlog) (p : list byte) : option backlog :=
  match p with
  | [] => Some b
  | _ =>
      match fuel with
      | O => None
      | S fuel =>
          buf ← bl_buf b;
          let thislen := u64 (bl_size b - bl_idx b) in
          let thislen := if thislen >? Z.of_nat (length p) then Z.of_nat (length p) else thislen in
          buf ← store buf (bl_idx b) (take (Z.to_nat thislen) p);
          let idx := s64 (bl_idx b + thislen) in
          let idx := if idx =? bl_size b then 0 else idx in
          feed_loop fuel (mkLog (Some buf) (bl_size b) (s64 (bl_histlen b + thislen)) idx (bl_off b)) (drop (Z.to_nat thislen) p)
      end
  end.

Definition feedReplicationBacklog (s : server) (p : list byte) : option server :=
  let off := s64 (master_repl_offset s + Z.of_nat (length p)) in
  b ← feed_loop (length p) (repl_backlog s) p;
  let histlen := if bl_histlen b >? bl_size b then bl_size b else bl_histlen b in
  Some (with_log s off (mkLog (bl_buf b) (bl_size b) histlen (bl_idx b) (s64 (off - histlen + 1)))).

Definition feedReplicationBacklogWithObject (s : server) (o : robj) : option server :=
  match o with
  | OInt n =>
      r ← ll2string (malloc junk LONG_STR_SIZE) LONG_STR_SIZE n;
      p ← load r.1 0 r.2;
      feedReplicationBacklog s p
  | OSds p => feedReplicationBacklog s p
  end.

(** [while(len)] of [addReplyReplicationBacklog]: the bytes sent. *)
Fixpoint backlog_bytes (fuel : nat) (buf : list byte) (size j len : Z) : option (list byte) :=
  if len =? 0 then Some []
  else
    match fuel with
    | O => None
    | S fuel =>
        let thislen := if size - j <? len then size - j else len in
        p ← load buf j thislen;
        rest ← backlog_bytes fuel buf size 0 (len - thislen);
        Some (p ++ rest)
    end.

(** The bytes, and the value returned. *)
Definition addReplyReplicationBacklog (b : backlog) (offset : Z) : option (list byte * Z) :=
  if bl_histlen b =? 0 then Some ([], 0)
  else
    let skip := s64 (offset - bl_off b) in
    if bl_size b =? 0 then None
    else
      let j := Z.rem (bl_idx b + (bl_size b - bl_histlen b)) (bl_size b) in
      let j := Z.rem (j + skip) (bl_size b) in
      let len := bl_histlen b - skip in
      buf ← bl_buf b;
      p ← backlog_bytes 2 buf (bl_size b) j len;
      Some (p, bl_histlen b - skip).

(** ** Feeding *)

(** [aux] with a prefix and a number: the line, and its length without the ending. *)
Definition feed_header (s : server) (prefix : byte) (n : Z) : option server :=
  r ← ll2string (malloc junk (LONG_STR_SIZE + 2)) (LONG_STR_SIZE + 2) n;
  digits ← load r.1 0 r.2;
  feedReplicationBacklog s (prefix :: digits ++ CRLF).

Definition stringObjectLen (o : robj) : Z := match o with OSds p => Z.of_nat (length p) | OInt n => sdigits10 n end.

Fixpoint feed_args (s : server) (argv : list robj) : option server :=
  match argv with
  | [] => Some s
  | o :: argv =>
      s ← feed_header s 36 (stringObjectLen o);
      s ← feedReplicationBacklogWithObject s o;
      s ← feedReplicationBacklog s CRLF;
      feed_args s argv
  end.

Definition waiting_start (c : slave) : bool := sl_state c =? SLAVE_STATE_WAIT_BGSAVE_START.

Definition feed_slaves (l : list slave) (f : slave -> slave) : list slave := map (fun c => if waiting_start c then c else f c) l.

Definition add_command (argv : list robj) (c : slave) : slave :=
  fold_left (fun c o => add_answer c (Bulk o)) argv (add_answer c (MultiBulkLen (Z.of_nat (length argv)))).

Definition has_backlog (s : server) : bool := bool_decide (is_Some (bl_buf (repl_backlog s))).

Definition feed_select (s : server) (dictid : Z) : option server :=
  if slaveseldb s =? dictid then Some s
  else
    s ← (if has_backlog s then feedReplicationBacklogWithObject s (OSds (select_cmd dictid)) else Some s);
    Some (with_slaves s (feed_slaves (slaves s) (fun c => add_answer c (Raw (OSds (select_cmd dictid)))))).

Definition replicationFeedSlaves (s : server) (dictid : Z) (argv : list robj) : option server :=
  if masterhost s then Some s
  else if negb (has_backlog s) && (length (slaves s) =? 0)%nat then Some s
  else if negb (length (slaves s) =? 0)%nat && negb (has_backlog s) then None
  else
    s ← feed_select s dictid;
    let s := with_seldb s dictid in
    s ← (if has_backlog s then s ← feed_header s 42 (Z.of_nat (length argv)); feed_args s argv else Some s);
    Some (with_slaves s (feed_slaves (slaves s) (add_command argv))).

Definition replicationFeedSlavesFromMasterStream (s : server) (buf : list byte) : option server :=
  s ← (if has_backlog s then feedReplicationBacklog s buf else Some s);
  Some (with_slaves s (feed_slaves (slaves s) (fun c => add_answer c (Raw (OSds buf))))).

(** ** Replication IDs *)

(** [newid]: the random characters. *)
Definition changeReplicationId (s : server) (newid : list byte) : server := with_ids s newid (replid2 s) (second_replid_offset s).
Definition clearReplicationId2 (s : server) : server := with_ids s (replid s) (replicate CONFIG_RUN_ID_SIZE 48) (-1).
Definition shiftReplicationId (s : server) (newid : list byte) : server :=
  changeReplicationId (with_ids s (replid s) (replid s) (s64 (master_repl_offset s + 1))) newid.

(** ** Synchronization *)

Definition not_integer : list byte := bytes_of "value is not an integer or out of range".

Definition getLongLongFromObject (o : robj) : option Z := match o with OSds p => string2ll p | OInt n => Some n end.

(** [wrote]: the socket took the line.  The flag is C_OK. *)
Definition masterTryPartialResynchronization (s : server) (c : slave) (master_replid : list byte) (offset : robj) (wrote : bool)
    : option (server * slave * bool) :=
  match getLongLongFromObject offset with
  | None => Some (s, add_answer c (Error not_integer), false)
  | Some psync_offset =>
      if negb (strcaseeq master_replid (replid s)) &&
         (negb (strcaseeq master_replid (replid2 s)) || (psync_offset >? second_replid_offset s))
      then Some (s, c, false)
      else
        let b := repl_backlog s in
        if negb (has_backlog s) || (psync_offset <? bl_off b) || (psync_offset >? s64 (bl_off b + bl_histlen b))
        then Some (s, c, false)
        else
          let c := sl_with_state c SLAVE_STATE_ONLINE (sl_initial c) in
          if wrote then
            let line := if flag_on (sl_capa c) SLAVE_CAPA_PSYNC2 then bytes_of "+CONTINUE " ++ replid s ++ CRLF else bytes_of "+CONTINUE" ++ CRLF in
            r ← addReplyReplicationBacklog b psync_offset;
            let c := add_answer (sl_with_line c (sl_line c ++ line)) (Raw (OSds r.1)) in
            Some (with_slaves s (slaves s ++ [c]), c, true)
          else
            let c := freeClientAsync c in
            Some (with_slaves s (slaves s ++ [c]), c, true)
  end.

Definition replicationSetupSlaveForFullResync (s : server) (c : slave) (offset : Z) (wrote : bool) : server * slave :=
  let c := sl_with_state c SLAVE_STATE_WAIT_BGSAVE_END offset in
  let s := with_seldb s (-1) in
  if sl_pre_psync c then (s, c)
  else if wrote then (s, sl_with_line c (sl_line c ++ bytes_of "+FULLRESYNC " ++ replid s ++ bytes_of " " ++ decimal offset ++ CRLF))
  else (s, freeClientAsync c).

(** The loop over the slaves that wait for a BGSAVE. *)
Fixpoint setup_waiting (s : server) (l : list slave) (wrote : Z -> bool) : server * list slave :=
  match l with
  | [] => (s, [])
  | c :: l =>
      if waiting_start c then
        let r := replicationSetupSlaveForFullResync s c (master_repl_offset s) (wrote (sl_id c)) in
        let q := setup_waiting r.1 l wrote in
        (q.1, r.2 :: q.2)
      else let q := setup_waiting s l wrote in (q.1, c :: q.2)
  end.

(** [ok]: the child was started.  Slaves that cannot be served leave the list.  With
    sockets as the target the same set up is done by the function that saves. *)
Definition startBgsaveForReplication (s : server) (ok : bool) (wrote : Z -> bool) : server :=
  if ok then let r := setup_waiting s (slaves s) wrote in with_slaves r.1 r.2
  else with_slaves s (List.filter (fun c => negb (waiting_start c)) (slaves s)).

(** The child process that saves, when the command arrives. *)
Inductive child := NoChild | AofChild | RdbDisk | RdbSocket.

Definition copyClientOutputBuffer (dst src : slave) : slave := sl_with_out dst (sl_out src).

Fixpoint replace_slave (l : list slave) (c : slave) : list slave :=
  match l with
  | [] => []
  | d :: l => if sl_id d =? sl_id c then c :: l else d :: replace_slave l c
  end.

(** [psync]: the arguments of PSYNC, [None] for SYNC; [delayed]: the start of the
    child is left to the cron.  The client is a slave when its id is in the list. *)
Definition syncCommand (s : server) (c : slave) (psync : option (list byte * robj)) (running : child) (delayed link_ok started : bool)
    (wrote : Z -> bool) (newid : list byte) : option server :=
  if existsb (fun d => sl_id d =? sl_id c) (slaves s) then Some s
  else if masterhost s && negb link_ok then Some s
  else if negb (length (sl_out c) =? 0)%nat then Some s
  else
    r ← (match psync with
         | Some (id, off) => masterTryPartialResynchronization s c id off (wrote (sl_id c))
         | None => Some (s, sl_with_pre_psync c, false)
         end);
    let '(s, c, partial) := (r : server * slave * bool) in
    if partial then Some s
    else
      let c := sl_with_state c SLAVE_STATE_WAIT_BGSAVE_START (sl_initial c) in
      let s := with_slaves s (slaves s ++ [c]) in
      s ← (if (length (slaves s) =? 1)%nat && negb (has_backlog s)
           then createReplicationBacklog (clearReplicationId2 (changeReplicationId s newid)) else Some s);
      match running with
      | RdbDisk =>
          match List.find (fun d => sl_state d =? SLAVE_STATE_WAIT_BGSAVE_END) (slaves s) with
          | Some d =>
              if Z.land (sl_capa c) (sl_capa d) =? sl_capa d then
                let r := replicationSetupSlaveForFullResync s (copyClientOutputBuffer c d) (sl_initial d) (wrote (sl_id c)) in
                Some (with_slaves r.1 (replace_slave (slaves r.1) r.2))
              else Some s
          | None => Some s
          end
      | RdbSocket => Some s
      | NoChild => if delayed then Some s else Some (startBgsaveForReplication s started wrote)
      | AofChild => Some s
      end.

(** One slave when the child has ended; [None]: it is freed. *)
Definition after_bgsave (socket ok : bool) (opens : Z -> bool) (c : slave) : option slave :=
  if sl_state c =? SLAVE_STATE_WAIT_BGSAVE_END then
    if socket then Some (sl_with_state c SLAVE_STATE_ONLINE (sl_initial c))
    else if ok && opens (sl_id c) then Some (sl_with_state c SLAVE_STATE_SEND_BULK (sl_initial c)) else None
  else Some c.

Definition updateSlavesWaitingBgsave (s : server) (socket ok : bool) (opens : Z -> bool) (started : bool) (wrote : Z -> bool) : server :=
  let again := existsb waiting_start (slaves s) in
  let s := with_slaves s (omap (after_bgsave socket ok opens) (slaves s)) in
  if again then startBgsaveForReplication s started wrote else s.

(** The file was sent. *)
Definition putSlaveOnline (s : server) (id : Z) (registered : bool) : server :=
  with_slaves s (if registered then map (fun c => if sl_id c =? id then sl_with_state c SLAVE_STATE_ONLINE (sl_initial c) else c) (slaves s)
                 else List.filter (fun c => negb (sl_id c =? id)) (slaves s)).

Definition freeClient (s : server) (id : Z) : server := with_slaves s (List.filter (fun c => negb (sl_id c =? id)) (slaves s)).
Definition disconnectSlaves (s : server) : server := with_slaves s [].

(** ** Changes of role *)

Definition replicationUnsetMaster (s : server) (newid : list byte) : server :=
  if masterhost s then with_seldb (disconnectSlaves (shiftReplicationId (with_masterhost s false) newid)) (-1) else s.

(** The master's answer +CONTINUE with an ID: [cached] is the ID of the master this
    server was connected to. *)
Definition continue_with (s : server) (cached new : list byte) : option server :=
  let s := if bool_decide (cached = new) then s else disconnectSlaves (with_ids s new cached (s64 (master_repl_offset s + 1))) in
  if has_backlog s then Some s else createReplicationBacklog s.

(** The backlog of a master without slaves is freed after some time. *)
Definition cron_free_backlog (s : server) (idle : bool) (newid : list byte) : option server :=
  if (length (slaves s) =? 0)%nat && has_backlog s && negb (masterhost s) && idle
  then freeReplicationBacklog (clearReplicationId2 (changeReplicationId s newid)) else Some s.
End code.

(** ** The ring *)

(** The last [c] bytes of [H], written up to [idx]. *)
Definition ring (buf : list byte) (size idx : Z) (H : list byte) (c : Z) : Prop :=
  forall k, 1 <= k <= c -> buf !! Z.to_nat ((idx - k) mod size) = H !! Z.to_nat (Z.of_nat (length H) - k).

Record log_ok (lg : backlog) (buf : list byte) (b : Z) (H : list byte) : Prop := {
  lo_buf : bl_buf lg = Some buf;
  lo_size : 0 < bl_size lg < 2 ^ 62;
  lo_length : Z.of_nat (length buf) = bl_size lg;
  lo_idx : 0 <= bl_idx lg < bl_size lg;
  lo_hist : 0 <= bl_histlen lg <= bl_size lg;
  lo_hist_H : bl_histlen lg <= Z.of_nat (length H);
  lo_off : bl_off lg = b + Z.of_nat (length H) - bl_histlen lg + 1;
  lo_ring : ring buf (bl_size lg) (bl_idx lg) H (bl_histlen lg)
}.

Lemma store_inv buf off p buf' : store buf off p = Some buf' -> 0 <= off /\ off + Z.of_nat (length p) <= Z.of_nat (length buf) /\
  buf' = take (Z.to_nat off) buf ++ p ++ drop (Z.to_nat off + length p) buf.
Proof.
  unfold store. destruct ((0 <=? off) && (off + Z.of_nat (length p) <=? Z.of_nat (length buf))) eqn:E; [|done]. rewrite andb_true_iff, !Z.leb_le in E. intros [= <-]. destruct E. by split_and!.
Qed.

Lemma store_lookup buf off p buf' i : store buf off p = Some buf' -> 0 <= off ->
  buf' !! i = (if decide ((Z.to_nat off <= i < Z.to_nat off + length p)%nat) then p !! (i - Z.to_nat off)%nat else buf !! i).
Proof.
  intros Hs Ho. apply store_inv in Hs as (_ & Hb & ->). destruct (decide _) as [Hin|Hout].
  - rewrite lookup_app_r; rewrite length_take; [|lia]. rewrite lookup_app_l by lia. f_equal. lia.
  - destruct (decide (i < Z.to_nat off)%nat) as [Hlt|Hge].
    + rewrite lookup_app_l by (rewrite length_take; lia). by rewrite lookup_take_lt.
    + rewrite lookup_app_r; rewrite length_take; [|lia]. rewrite lookup_app_r by lia. rewrite lookup_drop. f_equal. lia.
Qed.

(** Writing one piece that does not wrap. *)
Lemma ring_write buf size idx H c p buf' : 0 < size -> 0 <= idx < size -> Z.of_nat (length buf) = size -> 0 <= c ->
  0 < Z.of_nat (length p) <= size - idx -> store buf idx p = Some buf' -> ring buf size idx H (Z.min c size) -> Z.min c size <= Z.of_nat (length H) ->
  ring buf' size ((idx + Z.of_nat (length p)) mod size) (H ++ p) (Z.min (c + Z.of_nat (length p)) size).
Proof.
  intros Hs Hi Hl Hc Hp Hst Hr HH k Hk. set (n := Z.of_nat (length p)) in *. rewrite length_app.
  rewrite Zminus_mod_idemp_l. rewrite (store_lookup _ _ _ _ _ Hst) by lia.
  destruct (Z.le_gt_cases k n) as [Hkn|Hkn].
  - rewrite Z.mod_small by lia. rewrite decide_True by lia. rewrite lookup_app_r by lia. f_equal. lia.
  - specialize (Hr (k - n) ltac:(lia)). replace (idx + n - k) with (idx - (k - n)) by lia. rewrite decide_False, Hr.
    + rewrite lookup_app_l by lia. f_equal. lia.
    + intros Hin. destruct (Z.le_gt_cases (k - n) idx) as [Hle|Hgt].
      * rewrite Z.mod_small in Hin by lia. lia.
      * replace ((idx - (k - n)) mod size) with (idx - (k - n) + size) in Hin by (apply (Z.mod_unique _ _ (-1)); lia). lia.
Qed.

Lemma feed_loop_spec fuel : forall lg buf H p, (length p <= fuel)%nat -> bl_buf lg = Some buf -> 0 < bl_size lg < 2 ^ 62 -> Z.of_nat (length buf) = bl_size lg ->
  0 <= bl_idx lg < bl_size lg -> 0 <= bl_histlen lg -> bl_histlen lg + Z.of_nat (length p) < 2 ^ 63 -> Z.min (bl_histlen lg) (bl_size lg) <= Z.of_nat (length H) ->
  ring buf (bl_size lg) (bl_idx lg) H (Z.min (bl_histlen lg) (bl_size lg)) -> exists buf' idx',
  feed_loop fuel lg p = Some (mkLog (Some buf') (bl_size lg) (bl_histlen lg + Z.of_nat (length p)) idx' (bl_off lg)) /\ 0 <= idx' < bl_size lg /\
  Z.of_nat (length buf') = bl_size lg /\ ring buf' (bl_size lg) idx' (H ++ p) (Z.min (bl_histlen lg + Z.of_nat (length p)) (bl_size lg)).
Proof.
  induction fuel as [|fuel IH]; intros lg buf H p Hf Hb Hs Hl Hi Hh Hh2 HH Hr.
  all: destruct p as [|x p]; [exists buf, (bl_idx lg); cbn [feed_loop length]; rewrite app_nil_r, Z.add_0_r; split_and!; try done; [destruct lg; cbn in *; by subst|lia..]|].
  { cbn in Hf; lia. }
  cbn [feed_loop]. rewrite Hb. cbn [mbind option_bind]. rewrite (uwrap_small 64) by lia. set (q := x :: p) in *.
  set (n := if bl_size lg - bl_idx lg >? Z.of_nat (length q) then Z.of_nat (length q) else bl_size lg - bl_idx lg).
  assert (0 < n <= Z.of_nat (length q) /\ n <= bl_size lg - bl_idx lg) as [Hn1 Hn2].
  { subst n q. cbn [length]. destruct (Z.gtb_spec (bl_size lg - bl_idx lg) (Z.of_nat (S (length p)))); lia. }
  assert (Z.of_nat (length (take (Z.to_nat n) q)) = n) as Hln by (rewrite length_take; lia).
  destruct (store buf (bl_idx lg) (take (Z.to_nat n) q)) as [buf1|] eqn:Est; [|rewrite store_Some in Est by lia; done].
  cbn [mbind option_bind]. rewrite (swrap_small 64 (bl_idx lg + n)), (swrap_small 64 (bl_histlen lg + n)) by (unfold in_s; lia).
  assert ((if bl_idx lg + n =? bl_size lg then 0 else bl_idx lg + n) = (bl_idx lg + n) mod bl_size lg) as ->.
  { destruct (Z.eqb_spec (bl_idx lg + n) (bl_size lg)) as [->|]; [by rewrite Z.mod_same by lia|rewrite Z.mod_small; lia]. }
  pose proof (ring_write buf (bl_size lg) (bl_idx lg) H (bl_histlen lg) (take (Z.to_nat n) q) buf1 ltac:(lia) Hi Hl ltac:(lia) ltac:(lia) Est Hr HH) as Hr1. rewrite Hln in Hr1.
  assert (Z.of_nat (length (drop (Z.to_nat n) q)) = Z.of_nat (length q) - n) as Hld by (rewrite length_drop; lia).
  pose proof (Z.mod_pos_bound (bl_idx lg + n) (bl_size lg) ltac:(lia)) as Hmod.
  edestruct (IH (mkLog (Some buf1) (bl_size lg) (bl_histlen lg + n) ((bl_idx lg + n) mod bl_size lg) (bl_off lg)) buf1 (H ++ take (Z.to_nat n) q) (drop (Z.to_nat n) q)) as (buf' & idx' & E & ? & ? & Hring);
    cbn [bl_buf bl_size bl_idx bl_histlen bl_off]; try done; try lia.
  - apply store_inv in Est as (_ & _ & ->). rewrite !length_app, length_take, length_drop. lia.
  - rewrite length_app. lia.
  - cbn [bl_size bl_histlen bl_off] in *. exists buf', idx'. rewrite Hld in E, Hring. rewrite <- app_assoc, take_drop in Hring.
    replace (bl_histlen lg + n + (Z.of_nat (length q) - n)) with (bl_histlen lg + Z.of_nat (length q)) in E, Hring by lia. rewrite E. split_and!; done || lia.
Qed.

Lemma feed_spec s lg buf b H p : repl_backlog s = lg -> log_ok lg buf b H -> master_repl_offset s = b + Z.of_nat (length H) -> 0 <= b -> b + Z.of_nat (length (H ++ p)) < 2 ^ 62 ->
  exists lg' buf', feedReplicationBacklog s p = Some (with_log s (b + Z.of_nat (length (H ++ p))) lg') /\ log_ok lg' buf' b (H ++ p) /\ bl_size lg' = bl_size lg.
Proof.
  intros <- [Hb Hs Hl Hi Hh HhH Hoff Hring] Ho Hb0 Hlt. rewrite length_app in Hlt. unfold feedReplicationBacklog. rewrite Ho, (swrap_small 64 (b + _ + _)) by (unfold in_s; lia).
  destruct (feed_loop_spec (length p) (repl_backlog s) buf H p) as (buf' & idx' & -> & Hi' & Hl' & Hr'); try done; try lia.
  { by rewrite Z.min_l by lia. }
  cbn [mbind option_bind bl_histlen bl_size bl_buf bl_idx]. set (hl := if _ >? _ then _ else _).
  assert (hl = Z.min (bl_histlen (repl_backlog s) + Z.of_nat (length p)) (bl_size (repl_backlog s))) as Ehl by (subst hl; destruct (Z.gtb_spec (bl_histlen (repl_backlog s) + Z.of_nat (length p)) (bl_size (repl_backlog s))); lia).
  rewrite (swrap_small 64) by (unfold in_s; lia). rewrite length_app. rewrite Nat2Z.inj_add, Z.add_assoc.
  eexists _, buf'. split; [done|]. split; [|done]. constructor; cbn [bl_buf bl_size bl_idx bl_histlen bl_off]; try done; rewrite ?length_app; try lia. by rewrite Ehl.
Qed.

(** Reading the last [len] bytes. *)
Lemma ring_read buf size idx H c len : 0 < size -> Z.of_nat (length buf) = size -> c <= size -> c <= Z.of_nat (length H) -> ring buf size idx H c -> 0 <= len <= c ->
  backlog_bytes 2 buf size ((idx - len) mod size) len = Some (drop (length H - Z.to_nat len) H).
Proof.
  intros Hs Hl Hc HcH Hr Hlen. pose proof (Z.mod_pos_bound (idx - len) size Hs) as Hj. set (j := (idx - len) mod size) in *.
  assert (forall i, 0 <= i < len -> buf !! Z.to_nat ((j + i) mod size) = H !! Z.to_nat (Z.of_nat (length H) - len + i)) as Hget.
  { intros i Hi. subst j. rewrite Zplus_mod_idemp_l. replace (idx - len + i) with (idx - (len - i)) by lia. rewrite (Hr (len - i)) by lia. f_equal. lia. }
  cbn [backlog_bytes]. destruct (Z.eqb_spec len 0) as [->|Hne].
  { rewrite Z2Nat.inj_0, Nat.sub_0_r, drop_all. done. }
  assert (forall off n, 0 <= off -> 0 <= n -> off + n <= size -> load buf off n = Some (take (Z.to_nat n) (drop (Z.to_nat off) buf))) as Hload.
  { intros off n ? ? ?. apply load_Some; lia. }
  destruct (Z.ltb_spec (size - j) len) as [Hw|Hw].
  - rewrite (Hload j (size - j)) by lia. cbn [mbind option_bind]. rewrite (proj2 (Z.eqb_neq (len - (size - j)) 0)) by lia. rewrite Z.sub_0_r, (proj2 (Z.ltb_ge size (len - (size - j)))) by lia.
    rewrite (Hload 0 (len - (size - j))) by lia. cbn [mbind option_bind]. rewrite Z.sub_diag. cbn [Z.eqb mbind option_bind]. rewrite app_nil_r. f_equal. apply list_eq. intros i. rewrite lookup_drop.
    destruct (decide (i < Z.to_nat len)%nat) as [Hil|Hil].
    + specialize (Hget (Z.of_nat i) ltac:(lia)). replace (length H - Z.to_nat len + i)%nat with (Z.to_nat (Z.of_nat (length H) - len + Z.of_nat i)) by lia. rewrite <- Hget.
      destruct (decide (i < Z.to_nat (size - j))%nat).
      * rewrite lookup_app_l by (rewrite length_take, length_drop; lia). rewrite lookup_take_lt, lookup_drop by lia. f_equal. rewrite Z.mod_small by lia. lia.
      * rewrite lookup_app_r by (rewrite length_take, length_drop; lia). rewrite length_take, length_drop. rewrite lookup_take_lt, lookup_drop by lia. f_equal.
        replace ((j + Z.of_nat i) mod size) with (j + Z.of_nat i - size) by (apply (Z.mod_unique _ _ 1); lia). lia.
    + rewrite lookup_ge_None_2 by (rewrite length_app, !length_take, !length_drop; lia). rewrite lookup_ge_None_2 by lia. done.
  - rewrite (Hload j len) by lia. cbn [mbind option_bind]. rewrite Z.sub_diag. cbn [Z.eqb mbind option_bind]. rewrite app_nil_r. f_equal. apply list_eq. intros i. rewrite lookup_drop.
    destruct (decide (i < Z.to_nat len)%nat) as [Hil|Hil].
    + specialize (Hget (Z.of_nat i) ltac:(lia)). replace (length H - Z.to_nat len + i)%nat with (Z.to_nat (Z.of_nat (length H) - len + Z.of_nat i)) by lia. rewrite <- Hget.
      rewrite lookup_take_lt, lookup_drop by lia. f_equal. rewrite Z.mod_small by lia. lia.
    + rewrite lookup_ge_None_2 by (rewrite length_take, length_drop; lia). rewrite lookup_ge_None_2 by lia. done.
Qed.

(** What a replica that asks for [offset] is sent. *)
Lemma backlog_spec lg buf b H offset : log_ok lg buf b H -> 0 <= b -> b + Z.of_nat (length H) < 2 ^ 62 -> bl_off lg <= offset <= bl_off lg + bl_histlen lg ->
  addReplyReplicationBacklog lg offset = Some (drop (Z.to_nat (offset - 1 - b)) H, b + Z.of_nat (length H) + 1 - offset).
Proof.
  intros [Hb Hs Hl Hi Hh HhH Hoff Hring] Hb0 Hlt Ho. unfold addReplyReplicationBacklog. destruct (Z.eqb_spec (bl_histlen lg) 0) as [E0|E0].
  { rewrite drop_ge by lia. do 2 f_equal. lia. }
  rewrite (proj2 (Z.eqb_neq (bl_size lg) 0)) by lia. rewrite (swrap_small 64) by (unfold in_s; lia). rewrite Hb. cbn [mbind option_bind]. set (skip := offset - bl_off lg).
  assert (Z.rem (Z.rem (bl_idx lg + (bl_size lg - bl_histlen lg)) (bl_size lg) + skip) (bl_size lg) = (bl_idx lg - (bl_histlen lg - skip)) mod bl_size lg) as ->.
  { pose proof (Z.mod_pos_bound (bl_idx lg + (bl_size lg - bl_histlen lg)) (bl_size lg) ltac:(lia)). rewrite (Z.rem_mod_nonneg (bl_idx lg + _)) by lia. rewrite Z.rem_mod_nonneg by lia.
    rewrite Zplus_mod_idemp_l. replace (bl_idx lg + (bl_size lg - bl_histlen lg) + skip) with (bl_idx lg - (bl_histlen lg - skip) + 1 * bl_size lg) by lia. by rewrite Z.mod_add by lia. }
  rewrite (ring_read buf (bl_size lg) (bl_idx lg) H (bl_histlen lg)) by (done || lia). cbn [mbind option_bind]. do 2 f_equal; [f_equal|]; lia.
Qed.

(** ** The stream *)

Lemma encode_bulk o : encode (Bulk o) = bulk (robj_bytes o).
Proof. unfold encode, strings, bulk, bulk_header. cbn [concat]. rewrite app_nil_r. cbn [app]. by rewrite <- !app_assoc. Qed.

Lemma add_args_out argv : forall c, fold_left (fun c o => add_answer c (Bulk o)) argv c = sl_with_out c (sl_out c ++ bulks (map robj_bytes argv)).
Proof.
  induction argv as [|o argv IH]; intros c; cbn [fold_left map].
  - unfold bulks. cbn. rewrite app_nil_r. by destruct c.
  - rewrite IH, bulks_cons. unfold add_answer. rewrite encode_bulk. unfold sl_with_out. cbn [sl_id sl_state sl_capa sl_pre_psync sl_initial sl_line sl_out sl_closing]. by rewrite <- app_assoc.
Qed.

Lemma add_command_out argv c : add_command argv c = sl_with_out c (sl_out c ++ command_bytes argv).
Proof.
  unfold add_command, command_bytes. rewrite add_args_out. unfold add_answer, sl_with_out. cbn [sl_id sl_state sl_capa sl_pre_psync sl_initial sl_line sl_out sl_closing].
  rewrite <- app_assoc. do 2 f_equal. unfold request, encode, strings, array_header. rewrite length_map. cbn [concat]. rewrite app_nil_r. cbn [app]. by rewrite <- app_assoc.
Qed.

(** [s'] is [s] after [p] was added to the history [H]. *)
Record appended (b : Z) (H p : list byte) (s s' : server) : Prop := {
  ap_eq : s' = with_log s (b + Z.of_nat (length (H ++ p))) (repl_backlog s');
  ap_log : exists buf, log_ok (repl_backlog s') buf b (H ++ p);
  ap_size : bl_size (repl_backlog s') = bl_size (repl_backlog s)
}.

Section feed.
Context (junk : nat -> byte) (b : Z) (Hb : 0 <= b).

(** Ready to be fed. *)
Definition fed_ready (H : list byte) (s : server) : Prop := (exists buf, log_ok (repl_backlog s) buf b H) /\ master_repl_offset s = b + Z.of_nat (length H).

Lemma feed_appends H s p : fed_ready H s -> b + Z.of_nat (length (H ++ p)) < 2 ^ 62 -> exists s', feedReplicationBacklog s p = Some s' /\ appended b H p s s'.
Proof.
  intros [[buf Hlog] Ho] Hlt. destruct (feed_spec s _ buf b H p eq_refl Hlog Ho Hb Hlt) as (lg' & buf' & -> & Hlog' & Hsz). eexists. split; [done|].
  constructor; cbn; [done|by exists buf'|done].
Qed.

Lemma appended_ready H p s s' : appended b H p s s' -> fed_ready (H ++ p) s'.
Proof. intros [Heq Hlog _]. split; [done|]. rewrite Heq. done. Qed.

Lemma appended_trans H p q s s1 s2 : appended b H p s s1 -> appended b (H ++ p) q s1 s2 -> appended b H (p ++ q) s s2.
Proof.
  intros [E1 _ S1] [E2 L2 S2]. rewrite <- app_assoc in E2, L2. constructor; [|done|by rewrite S2]. rewrite E2. rewrite E1. done.
Qed.

Lemma header_appends H s prefix n : fed_ready H s -> in_s 64 n -> b + Z.of_nat (length (H ++ prefix :: decimal n ++ CRLF)) < 2 ^ 62 -> exists s',
  feed_header junk s prefix n = Some s' /\ appended b H (prefix :: decimal n ++ CRLF) s s'.
Proof.
  intros Hr Hn Hlt. unfold feed_header. destruct (print_ll junk (LONG_STR_SIZE + 2) n Hn) as (r & -> & Hl); [unfold LONG_STR_SIZE; lia|]. cbn [mbind option_bind]. rewrite Hl. cbn [mbind option_bind].
  by apply feed_appends.
Qed.

Lemma object_appends H s o : fed_ready H s -> obj_ok o -> b + Z.of_nat (length (H ++ robj_bytes o)) < 2 ^ 62 -> exists s',
  feedReplicationBacklogWithObject junk s o = Some s' /\ appended b H (robj_bytes o) s s'.
Proof.
  intros Hr Ho Hlt. destruct o as [p|n]; cbn [feedReplicationBacklogWithObject robj_bytes obj_ok] in *; [by apply feed_appends|].
  destruct (print_ll junk LONG_STR_SIZE n Ho) as (r & -> & Hl); [done|]. cbn [mbind option_bind]. rewrite Hl. cbn [mbind option_bind]. by apply feed_appends.
Qed.

Lemma object_len o : obj_ok o -> stringObjectLen o = Z.of_nat (length (robj_bytes o)) /\ in_s 64 (stringObjectLen o).
Proof.
  destruct o as [p|n]; cbn [obj_ok stringObjectLen robj_bytes]; intros Ho.
  - split; [done|]. unfold in_s. lia.
  - rewrite sdigits10_correct by done. split; [done|]. pose proof (decimal_short n Ho). unfold in_s. lia.
Qed.

Lemma args_appends argv : forall H s, fed_ready H s -> Forall obj_ok argv -> b + Z.of_nat (length (H ++ bulks (map robj_bytes argv))) < 2 ^ 62 -> exists s',
  feed_args junk s argv = Some s' /\ appended b H (bulks (map robj_bytes argv)) s s'.
Proof.
  induction argv as [|o argv IH]; intros H s Hr Ho Hlt; cbn [feed_args map].
  - exists s. split; [done|]. destruct Hr as [Hlog Hoff]. unfold bulks. cbn. constructor; rewrite ?app_nil_r; [|done|done]. rewrite <- Hoff. by destruct s.
  - inversion Ho as [|? ? Hobj Hrest]; subst. destruct (object_len o Hobj) as [El Hin]. rewrite El in *. cbn [map] in Hlt. rewrite bulks_cons in *. unfold bulk in *.
    set (p1 := 36 :: decimal (Z.of_nat (length (robj_bytes o))) ++ CRLF) in *. rewrite !length_app in Hlt. cbn [length] in Hlt. rewrite !length_app in Hlt.
    change (length Protocol.CRLF) with 2%nat in Hlt.
    destruct (header_appends H s 36 _ Hr Hin) as (s1 & -> & Ha1); [fold p1; rewrite length_app; subst p1; cbn [length]; rewrite length_app; cbn; lia|]. cbn [mbind option_bind]. fold p1 in Ha1.
    destruct (object_appends _ _ o (appended_ready _ _ _ _ Ha1) Hobj) as (s2 & -> & Ha2); [rewrite !length_app; subst p1; cbn [length]; rewrite length_app; cbn; lia|]. cbn [mbind option_bind].
    pose proof (appended_trans _ _ _ _ _ _ Ha1 Ha2) as Ha12.
    destruct (feed_appends _ _ CRLF (appended_ready _ _ _ _ Ha12)) as (s3 & -> & Ha3); [rewrite !length_app; subst p1; cbn [length]; rewrite length_app; cbn; lia|]. cbn [mbind option_bind].
    pose proof (appended_trans _ _ _ _ _ _ Ha12 Ha3) as Ha123.
    destruct (IH _ _ (appended_ready _ _ _ _ Ha123) Hrest) as (s4 & -> & Ha4); [rewrite !length_app; subst p1; cbn [length]; rewrite length_app; cbn; lia|].
    exists s4. split; [done|]. pose proof (appended_trans _ _ _ _ _ _ Ha123 Ha4) as Ha. subst p1. revert Ha. cbn [app]. rewrite <- !app_assoc. done.
Qed.
End feed.

(** ** The invariant *)

(** [G]: how many bytes of the history were there when each client joined.  A
    client that waits for a BGSAVE has been sent nothing; every other one has been
    sent the history since it joined. *)
Definition slave_ok (b : Z) (H : list byte) (G : Z -> nat) (c : slave) : Prop :=
  if waiting_start c then sl_out c = []
  else sl_closing c = false \/ sl_state c = SLAVE_STATE_WAIT_BGSAVE_END ->
    (G (sl_id c) <= length H)%nat /\ sl_out c = drop (G (sl_id c)) H /\ (sl_state c = SLAVE_STATE_WAIT_BGSAVE_END -> sl_initial c = b + Z.of_nat (G (sl_id c))).

(** The history [H] follows the first [b] bytes. *)
Record inv (b : Z) (s : server) (H : list byte) (G : Z -> nat) : Prop := {
  iv_base : 0 <= b;
  iv_off : master_repl_offset s = b + Z.of_nat (length H);
  iv_short : b + Z.of_nat (length H) < 2 ^ 62;
  iv_size : 0 < bl_size (repl_backlog s) < 2 ^ 62;
  iv_log buf : bl_buf (repl_backlog s) = Some buf -> log_ok (repl_backlog s) buf b H;
  iv_slaves : slaves s <> [] -> is_Some (bl_buf (repl_backlog s));
  iv_ids : NoDup (map sl_id (slaves s));
  iv_each : Forall (slave_ok b H G) (slaves s)
}.

Lemma inv_with_slaves b s H G G' l : inv b s H G -> NoDup (map sl_id l) -> Forall (slave_ok b H G') l -> (l <> [] -> is_Some (bl_buf (repl_backlog s))) ->
  inv b (with_slaves s l) H G'.
Proof. intros [] Hn Hf Hl. by constructor. Qed.

Lemma inv_with_ids b s H G id id2 off : inv b s H G -> inv b (with_ids s id id2 off) H G.
Proof. intros []. by constructor. Qed.

Lemma inv_with_seldb b s H G db : inv b s H G -> inv b (with_seldb s db) H G.
Proof. intros []. by constructor. Qed.

Lemma inv_with_masterhost b s H G m : inv b s H G -> inv b (with_masterhost s m) H G.
Proof. intros []. by constructor. Qed.

Lemma has_backlog_true s : has_backlog s = true <-> is_Some (bl_buf (repl_backlog s)).
Proof. apply bool_decide_eq_true. Qed.

Lemma inv_ready b s H G : inv b s H G -> has_backlog s = true -> fed_ready b H s.
Proof. intros Hi [buf Hb]%has_backlog_true. split; [exists buf; by apply (iv_log _ _ _ _ Hi)|apply Hi]. Qed.

(** Everybody is sent what the backlog gets. *)
Definition feed_all (p : list byte) (l : list slave) : list slave := feed_slaves l (fun c => sl_with_out c (sl_out c ++ p)).

Lemma feed_all_ids p l : map sl_id (feed_all p l) = map sl_id l.
Proof. induction l as [|c l IH]; [done|]. cbn. rewrite <- IH. by destruct (waiting_start c). Qed.

Lemma feed_all_ok b H G p l : Forall (slave_ok b H G) l -> Forall (slave_ok b (H ++ p) G) (feed_all p l).
Proof.
  induction 1 as [|c l Hc _ IH]; [constructor|]. cbn. constructor; [|exact IH]. unfold slave_ok in *. destruct (waiting_start c) eqn:Hw; [by rewrite Hw|].
  change (waiting_start (sl_with_out c (sl_out c ++ p))) with (waiting_start c). rewrite Hw. cbn [sl_with_out sl_closing sl_state sl_id sl_out sl_initial]. intros Hcl. destruct (Hc Hcl) as (Hle & Ho & Hin).
  rewrite length_app. split_and!; [lia| |done]. rewrite Ho, drop_app_le by done. done.
Qed.

Lemma feed_all_app p q l : feed_all q (feed_all p l) = feed_all (p ++ q) l.
Proof.
  unfold feed_all, feed_slaves. rewrite map_map. apply map_ext. intros c. destruct (waiting_start c) eqn:Hw; [by rewrite Hw|].
  change (waiting_start (sl_with_out c (sl_out c ++ p))) with (waiting_start c). rewrite Hw. unfold sl_with_out. cbn. by rewrite <- app_assoc.
Qed.

Lemma feed_inv b s s' H G p : inv b s H G -> b + Z.of_nat (length (H ++ p)) < 2 ^ 62 -> appended b H p s s' -> inv b (with_slaves s' (feed_all p (slaves s'))) (H ++ p) G.
Proof.
  intros [Hb Ho Hs Hz Hl Hsl Hid He] Hlt [Eq [buf Hlog] Hsz]. assert (slaves s' = slaves s) as Es by by rewrite Eq. assert (master_repl_offset s' = b + Z.of_nat (length (H ++ p))) as Eo by by rewrite Eq.
  constructor; cbn [with_slaves master_repl_offset repl_backlog slaves]; rewrite ?Es, ?Hsz; try done.
  - intros buf' Hbuf'. by rewrite (lo_buf _ _ _ _ Hlog) in Hbuf'; injection Hbuf' as <-.
  - intros _. rewrite (lo_buf _ _ _ _ Hlog). by eexists.
  - by rewrite feed_all_ids.
  - by apply feed_all_ok.
Qed.

(** ** Events *)

Inductive event :=
  | EFeed (dictid : Z) (argv : list robj)
  | EStream (buf : list byte)
  | ESync (c : slave) (psync : option (list byte * robj)) (running : child) (delayed link_ok started : bool) (wrote : Z -> bool) (newid : list byte)
  | EBgsave (started : bool) (wrote : Z -> bool)
  | EBgsaveDone (socket ok : bool) (opens : Z -> bool) (started : bool) (wrote : Z -> bool)
  | EOnline (id : Z) (registered : bool)
  | EClose (id : Z)
  | EUnset (newid : list byte)
  | EContinue (cached new : list byte)
  | EResize (newsize : Z)
  | ECron (idle : bool) (newid : list byte).

Definition repl_step (junk : nat -> byte) (s : server) (e : event) : option server :=
  match e with
  | EFeed dictid argv => replicationFeedSlaves junk s dictid argv
  | EStream buf => replicationFeedSlavesFromMasterStream s buf
  | ESync c psync running delayed link_ok started wrote newid => syncCommand junk s c psync running delayed link_ok started wrote newid
  | EBgsave started wrote => Some (startBgsaveForReplication s started wrote)
  | EBgsaveDone socket ok opens started wrote => Some (updateSlavesWaitingBgsave s socket ok opens started wrote)
  | EOnline id registered => Some (putSlaveOnline s id registered)
  | EClose id => Some (freeClient s id)
  | EUnset newid => Some (replicationUnsetMaster s newid)
  | EContinue cached new => continue_with junk s cached new
  | EResize newsize => Some (resizeReplicationBacklog junk s newsize)
  | ECron idle newid => cron_free_backlog s idle newid
  end.

(** The bytes an event adds to the stream. *)
Definition fed (s : server) (e : event) : list byte :=
  match e with
  | EFeed dictid argv =>
      if masterhost s || negb (has_backlog s) then [] else (if slaveseldb s =? dictid then [] else select_cmd dictid) ++ command_bytes argv
  | EStream buf => if has_backlog s then buf else []
  | _ => []
  end.

(** A file is sent to a slave only when its BGSAVE has ended; an offset in a
    request is a number. *)
Definition event_ok (s : server) (e : event) : Prop :=
  match e with
  | EFeed _ argv => Forall obj_ok argv
  | ESync c psync _ _ _ _ _ _ => sl_closing c = false /\ match psync with Some (_, o) => exists n, getLongLongFromObject o = Some n | None => True end
  | EOnline id _ => Forall (fun c => sl_id c = id -> sl_state c = SLAVE_STATE_SEND_BULK) (slaves s)
  | EResize newsize => newsize < 2 ^ 62
  | _ => True
  end.

Section steps.
Context (junk : nat -> byte).

Lemma feed_all_nil l : feed_all [] l = l.
Proof.
  unfold feed_all, feed_slaves. rewrite <- (map_id l) at 2. apply map_ext. intros c. rewrite app_nil_r. unfold sl_with_out. destruct c; cbn. by destruct (waiting_start _).
Qed.

Lemma feed_raw p l : feed_slaves l (fun c => add_answer c (Raw (OSds p))) = feed_all p l.
Proof. unfold feed_all, feed_slaves, add_answer. apply map_ext. intros c. unfold encode, strings. cbn [concat robj_bytes]. by rewrite app_nil_r. Qed.

Lemma feed_command argv l : feed_slaves l (add_command argv) = feed_all (command_bytes argv) l.
Proof. unfold feed_all, feed_slaves. apply map_ext. intros c. by rewrite add_command_out. Qed.

Lemma appended_backlog b H p s s' : appended b H p s s' -> has_backlog s' = true.
Proof. intros [_ [buf Hl] _]. apply has_backlog_true. rewrite (lo_buf _ _ _ _ Hl). by eexists. Qed.

Lemma inv_no_backlog b s H G : inv b s H G -> has_backlog s = false -> slaves s = [].
Proof.
  intros Hi Hb. destruct (slaves s) eqn:E; [done|]. exfalso. pose proof (iv_slaves _ _ _ _ Hi) as Hs. rewrite E in Hs. apply not_true_iff_false in Hb. apply Hb, has_backlog_true, Hs. done.
Qed.

Lemma stream_inv b s H G buf : inv b s H G -> b + Z.of_nat (length (H ++ fed s (EStream buf))) < 2 ^ 62 -> exists s',
  repl_step junk s (EStream buf) = Some s' /\ inv b s' (H ++ fed s (EStream buf)) G.
Proof.
  intros Hi Hlt. cbn [repl_step fed] in *. unfold replicationFeedSlavesFromMasterStream. destruct (has_backlog s) eqn:Hb.
  - destruct (feed_appends b (iv_base _ _ _ _ Hi) H s buf (inv_ready _ _ _ _ Hi Hb) Hlt) as (s1 & -> & Ha). cbn [mbind option_bind]. eexists. split; [done|]. rewrite feed_raw. by apply (feed_inv b s).
  - cbn [mbind option_bind]. rewrite feed_raw, app_nil_r, (inv_no_backlog _ _ _ _ Hi Hb). eexists. split; [done|]. apply (inv_with_slaves b s H G); [done|constructor|constructor|done].
Qed.

Lemma select_inv b s H G dictid : inv b s H G -> has_backlog s = true -> let p := if slaveseldb s =? dictid then [] else select_cmd dictid in
  b + Z.of_nat (length (H ++ p)) < 2 ^ 62 -> exists s', feed_select junk s dictid = Some s' /\ inv b s' (H ++ p) G /\ has_backlog s' = true.
Proof.
  intros Hi Hb p Hlt. unfold feed_select. subst p. destruct (slaveseldb s =? dictid); [rewrite app_nil_r; by exists s|]. rewrite Hb. cbn [feedReplicationBacklogWithObject].
  destruct (feed_appends b (iv_base _ _ _ _ Hi) H s (select_cmd dictid) (inv_ready _ _ _ _ Hi Hb) Hlt) as (s1 & -> & Ha). cbn [mbind option_bind]. eexists. split; [done|]. rewrite feed_raw.
  split; [by apply (feed_inv b s)|]. exact (appended_backlog _ _ _ _ _ Ha).
Qed.

Lemma command_inv b s H G argv : inv b s H G -> has_backlog s = true -> Forall obj_ok argv -> b + Z.of_nat (length (H ++ command_bytes argv)) < 2 ^ 62 -> exists s1,
  (s ← feed_header junk s 42 (Z.of_nat (length argv)); feed_args junk s argv) = Some s1 /\ inv b (with_slaves s1 (feed_slaves (slaves s1) (add_command argv))) (H ++ command_bytes argv) G.
Proof.
  intros Hi Hb Ho Hlt. pose proof (iv_base _ _ _ _ Hi) as Hb0. unfold command_bytes, request in *. rewrite length_map in *.
  assert (forall n, (length (bulks n) >= length n)%nat) as Hbl.
  { intros n. induction n as [|x n IH]; [cbn; lia|]. rewrite bulks_cons, length_app. unfold bulk. cbn [length]. lia. }
  pose proof (Hbl (map robj_bytes argv)) as Hn. rewrite length_map in Hn.
  set (p1 := 42 :: decimal (Z.of_nat (length argv)) ++ CRLF). assert (42 :: decimal (Z.of_nat (length argv)) ++ Protocol.CRLF ++ bulks (map robj_bytes argv) = p1 ++ bulks (map robj_bytes argv)) as E by (subst p1; cbn [app]; by rewrite <- app_assoc).
  assert (b + Z.of_nat (length H) + Z.of_nat (length p1) + Z.of_nat (length (bulks (map robj_bytes argv))) < 2 ^ 62) as Hlt2.
  { revert Hlt. cbn [app]. rewrite E, !length_app. lia. }
  destruct (header_appends junk b Hb0 H s 42 (Z.of_nat (length argv)) (inv_ready _ _ _ _ Hi Hb)) as (s1 & -> & Ha1); [unfold in_s; lia|fold p1; rewrite length_app; lia|]. cbn [mbind option_bind].
  destruct (args_appends junk b Hb0 argv _ s1 (appended_ready _ _ _ _ _ Ha1) Ho) as (s2 & -> & Ha2); [fold p1; rewrite !length_app; lia|]. exists s2. split; [done|].
  pose proof (appended_trans _ _ _ _ _ _ _ Ha1 Ha2) as Ha. rewrite feed_command. unfold command_bytes, request. rewrite length_map. cbn [app]. cbn [app] in Ha. rewrite <- app_assoc in Ha.
  apply (feed_inv b s); [done| |exact Ha]. exact Hlt.
Qed.

Lemma feed_command_inv b s H G dictid argv : inv b s H G -> Forall obj_ok argv -> b + Z.of_nat (length (H ++ fed s (EFeed dictid argv))) < 2 ^ 62 -> exists s',
  repl_step junk s (EFeed dictid argv) = Some s' /\ inv b s' (H ++ fed s (EFeed dictid argv)) G.
Proof.
  intros Hi Ho Hlt. cbn [repl_step fed] in *. unfold replicationFeedSlaves. destruct (masterhost s); cbn [orb] in *; [rewrite app_nil_r; by exists s|].
  destruct (has_backlog s) eqn:Hb; cbn [negb andb] in *.
  2:{ rewrite (inv_no_backlog _ _ _ _ Hi Hb) in *. cbn. rewrite app_nil_r. by exists s. }
  rewrite andb_false_r. rewrite app_assoc in *.
  destruct (select_inv b s H G dictid Hi Hb) as (s1 & -> & Hi1 & Hb1); [rewrite length_app in Hlt; lia|]. cbn [mbind option_bind].
  change (has_backlog (with_seldb s1 dictid)) with (has_backlog s1). rewrite Hb1.
  destruct (command_inv b (with_seldb s1 dictid) _ G argv (inv_with_seldb _ _ _ _ _ Hi1) Hb1 Ho Hlt) as (s2 & -> & Hi2). cbn [mbind option_bind]. by eexists.
Qed.


(** A new backlog is empty. *)
Lemma new_log_ok b s H G size : inv b s H G -> 0 < size < 2 ^ 62 ->
  log_ok (mkLog (Some (malloc junk size)) size 0 0 (s64 (master_repl_offset s + 1))) (malloc junk size) b H.
Proof.
  intros Hi Hs. pose proof (iv_short _ _ _ _ Hi). pose proof (iv_base _ _ _ _ Hi). rewrite (iv_off _ _ _ _ Hi), swrap_small by (unfold in_s; lia).
  constructor; cbn [bl_buf bl_size bl_idx bl_histlen bl_off]; try done; try lia; [apply malloc_length; lia|]. intros k Hk. lia.
Qed.

Lemma inv_new_log b s H G size : inv b s H G -> 0 < size < 2 ^ 62 ->
  inv b (with_log s (master_repl_offset s) (mkLog (Some (malloc junk size)) size 0 0 (s64 (master_repl_offset s + 1)))) H G.
Proof.
  intros Hi Hs. pose proof (new_log_ok b s H G size Hi Hs) as Hl. destruct Hi. constructor; cbn [with_log master_repl_offset repl_backlog slaves bl_size bl_buf]; try done.
  by intros buf [= <-].
Qed.

Lemma inv_free_log b s H G : inv b s H G -> slaves s = [] ->
  inv b (with_log s (master_repl_offset s) (mkLog None (bl_size (repl_backlog s)) (bl_histlen (repl_backlog s)) (bl_idx (repl_backlog s)) (bl_off (repl_backlog s)))) H G.
Proof. intros [] Hs. constructor; cbn [with_log master_repl_offset repl_backlog slaves bl_size bl_buf]; try done; rewrite Hs; done. Qed.

(** Clients that are attached keep their place. *)
Definition kept (l : list slave) (G G' : Z -> nat) : Prop := forall c, c ∈ l -> waiting_start c = false -> G' (sl_id c) = G (sl_id c).

Lemma slave_ok_ext b H G G' c : G' (sl_id c) = G (sl_id c) -> slave_ok b H G c -> slave_ok b H G' c.
Proof. intros E. unfold slave_ok. by rewrite E. Qed.

(** ** Full resynchronization *)

Lemma setup_ok b H G s c offset wrote : waiting_start c = true -> (exists n, offset = b + Z.of_nat n /\ (n <= length H)%nat /\ sl_out c = drop n H /\ G (sl_id c) = n) ->
  slave_ok b H G (replicationSetupSlaveForFullResync s c offset wrote).2 /\ sl_id (replicationSetupSlaveForFullResync s c offset wrote).2 = sl_id c /\
  (replicationSetupSlaveForFullResync s c offset wrote).1 = with_seldb s (-1).
Proof.
  intros Hw (n & Ho & Hn & Hout & HG). unfold replicationSetupSlaveForFullResync. cbn [sl_with_state sl_pre_psync]. destruct (sl_pre_psync c); [|destruct wrote]; cbn [fst snd].
  all: split; [|done]; unfold slave_ok; cbn; rewrite HG; done.
Qed.

(** The clients that were waiting join now. *)
Definition joined (H : list byte) (l : list slave) (G : Z -> nat) (id : Z) : nat :=
  if existsb (fun c => waiting_start c && (sl_id c =? id)) l then length H else G id.

Lemma joined_other H l G c : NoDup (map sl_id l) -> c ∈ l -> waiting_start c = false -> joined H l G (sl_id c) = G (sl_id c).
Proof.
  intros Hnd Hin Hw. unfold joined. destruct (existsb _ l) eqn:E; [|done]. apply existsb_exists in E as (d & Hd%list_elem_of_In & Hd2). apply andb_true_iff in Hd2 as [Hdw Hid%Z.eqb_eq].
  assert (c = d) as ->; [|congruence]. apply list_elem_of_lookup in Hin as [i Hi]. apply list_elem_of_lookup in Hd as [j Hj].
  assert (i = j) as ->; [|congruence]. apply (NoDup_lookup (map sl_id l) i j (sl_id c) Hnd); rewrite list_lookup_fmap; [by rewrite Hi|rewrite Hj; cbn; by rewrite Hid].
Qed.

Lemma joined_waiting H l G c : c ∈ l -> waiting_start c = true -> joined H l G (sl_id c) = length H.
Proof.
  intros Hin Hw. unfold joined. destruct (existsb _ l) eqn:E; [done|]. rewrite <- not_true_iff_false in E. destruct E. apply existsb_exists. exists c. split; [by apply list_elem_of_In|].
  by rewrite Hw, Z.eqb_refl.
Qed.

Lemma setup_waiting_ok b H G wrote l : forall s, master_repl_offset s = b + Z.of_nat (length H) ->
  Forall (fun c => if waiting_start c then sl_out c = [] /\ G (sl_id c) = length H else slave_ok b H G c) l ->
  Forall (slave_ok b H G) (setup_waiting s l wrote).2 /\ map sl_id (setup_waiting s l wrote).2 = map sl_id l /\
  exists db, (setup_waiting s l wrote).1 = with_seldb s db.
Proof.
  induction l as [|c l IH]; intros s Ho Hf; [split_and!; [constructor|done|exists (slaveseldb s); by destruct s]|]. inversion Hf as [|? ? Hc Hl]; subst. cbn [setup_waiting].
  destruct (waiting_start c) eqn:Hw.
  - destruct Hc as [Hout HG]. destruct (setup_ok b H G s c (master_repl_offset s) (wrote (sl_id c)) Hw) as (Hok & Hid & Hs).
    { exists (length H). split_and!; [done|done|by rewrite Hout, drop_all|done]. }
    rewrite Hs. destruct (IH (with_seldb s (-1)) Ho Hl) as (IH1 & IH2 & db & IH3). cbn [fst snd]. split_and!; [by constructor|cbn [map]; by rewrite Hid, IH2|exists db; by rewrite IH3].
  - destruct (IH s Ho Hl) as (IH1 & IH2 & db & IH3). cbn [fst snd]. split_and!; [by constructor|cbn [map]; by rewrite IH2|by exists db].
Qed.

Lemma Forall_filter_keep {A} (P : A -> Prop) (f : A -> bool) (l : list A) : Forall P l -> Forall P (List.filter f l).
Proof. induction 1 as [|x l Hx _ IH]; cbn; [constructor|]. destruct (f x); [by constructor|done]. Qed.

Lemma NoDup_filter_keep (f : slave -> bool) l : NoDup (map sl_id l) -> NoDup (map sl_id (List.filter f l)).
Proof.
  induction l as [|x l IH]; [done|]. cbn [map List.filter]. rewrite NoDup_cons. intros [Hn Hnd]. destruct (f x); [|by apply IH]. cbn [map]. rewrite NoDup_cons. split; [|by apply IH].
  intros (y & E & Hy)%list_elem_of_fmap. apply Hn. rewrite E. apply list_elem_of_fmap_2. apply list_elem_of_In. apply list_elem_of_In in Hy. by apply filter_In in Hy as [? _].
Qed.

Lemma filter_inv b s H G f : inv b s H G -> inv b (with_slaves s (List.filter f (slaves s))) H G.
Proof.
  intros Hi. apply (inv_with_slaves b s H G); [done|apply NoDup_filter_keep, Hi|apply Forall_filter_keep, Hi|]. intros Hne. apply (iv_slaves _ _ _ _ Hi). intros E. apply Hne. by rewrite E.
Qed.

Lemma bgsave_inv b s H G started wrote : inv b s H G -> exists G', inv b (startBgsaveForReplication s started wrote) H G' /\ kept (slaves s) G G'.
Proof.
  intros Hi. unfold startBgsaveForReplication. destruct started; [|exists G; split; [by apply filter_inv|done]].
  exists (joined H (slaves s) G). split; [|intros c Hc Hw; apply joined_other; [apply Hi|done..]].
  destruct (setup_waiting_ok b H (joined H (slaves s) G) wrote (slaves s) s (iv_off _ _ _ _ Hi)) as (Hok & Hids & db & Hs).
  { apply Forall_forall. intros c Hc. pose proof (iv_each _ _ _ _ Hi) as He. rewrite Forall_forall in He. specialize (He c Hc). destruct (waiting_start c) eqn:Hw.
    - split; [unfold slave_ok in He; by rewrite Hw in He|by apply joined_waiting].
    - eapply slave_ok_ext; [apply joined_other; [apply Hi|done..]|done]. }
  rewrite Hs. apply (inv_with_slaves b (with_seldb s db) H G); [by apply inv_with_seldb|rewrite Hids; apply Hi|done|].
  intros Hne. apply (iv_slaves _ _ _ _ Hi). intros E. apply Hne, (map_eq_nil sl_id). by rewrite Hids, E.
Qed.

(** ** Partial resynchronization *)

(** The request is granted. *)
Definition psync_accepts (s : server) (master_replid : list byte) (offset : Z) : bool :=
  (strcaseeq master_replid (replid s) || (strcaseeq master_replid (replid2 s) && (offset <=? second_replid_offset s))) &&
  has_backlog s && (bl_off (repl_backlog s) <=? offset) && (offset <=? bl_off (repl_backlog s) + bl_histlen (repl_backlog s)).

Definition place (G : Z -> nat) (id : Z) (n : nat) : Z -> nat := fun i => if i =? id then n else G i.

Lemma place_same G id n : place G id n id = n.
Proof. unfold place. by rewrite Z.eqb_refl. Qed.

Lemma place_other G id n i : i <> id -> place G id n i = G i.
Proof. intros Hi. unfold place. by rewrite (proj2 (Z.eqb_neq _ _) Hi). Qed.

(** A client that just got its place. *)
Lemma place_ok b H G l id n : id ∉ map sl_id l -> Forall (slave_ok b H G) l -> Forall (slave_ok b H (place G id n)) l.
Proof.
  intros Hid Hl. rewrite Forall_forall in *. intros d Hd. eapply slave_ok_ext; [|by apply Hl]. apply place_other. intros E. apply Hid. rewrite <- E. by apply list_elem_of_fmap_2.
Qed.

Lemma place_kept l G id n : id ∉ map sl_id l -> kept l G (place G id n).
Proof. intros Hid c Hc _. apply place_other. intros E. apply Hid. rewrite <- E. by apply list_elem_of_fmap_2. Qed.

Lemma psync_spec b s H G c id o n wrote : inv b s H G -> getLongLongFromObject o = Some n -> sl_out c = [] -> sl_closing c = false ->
  if psync_accepts s id n then exists c', masterTryPartialResynchronization s c id o wrote = Some (with_slaves s (slaves s ++ [c']), c', true) /\
    sl_id c' = sl_id c /\ sl_state c' = SLAVE_STATE_ONLINE /\ b + 1 <= n <= b + Z.of_nat (length H) + 1 /\ has_backlog s = true /\ sl_closing c' = negb wrote /\
    (wrote = true -> sl_out c' = drop (Z.to_nat (n - 1 - b)) H)
  else masterTryPartialResynchronization s c id o wrote = Some (s, c, false).
Proof.
  intros Hi Ho Hout Hcl. unfold masterTryPartialResynchronization, psync_accepts. rewrite Ho. destruct (strcaseeq id (replid s) || (strcaseeq id (replid2 s) && (n <=? second_replid_offset s))) eqn:Eid.
  2:{ assert (negb (strcaseeq id (replid s)) && (negb (strcaseeq id (replid2 s)) || (n >? second_replid_offset s)) = true) as -> by (rewrite Z.gtb_ltb, Z.ltb_antisym, <- negb_andb, <- negb_orb, Eid; done). done. }
  assert (negb (strcaseeq id (replid s)) && (negb (strcaseeq id (replid2 s)) || (n >? second_replid_offset s)) = false) as -> by (rewrite Z.gtb_ltb, Z.ltb_antisym, <- negb_andb, <- negb_orb, Eid; done).
  cbn [andb]. destruct (has_backlog s) eqn:Hb; cbn [negb orb andb]; [|done]. pose proof Hb as [buf Hbuf]%has_backlog_true. pose proof (iv_log _ _ _ _ Hi buf Hbuf) as Hlog.
  pose proof Hlog as [_ Hsz _ _ Hh HhH Hoff _]. pose proof (iv_base _ _ _ _ Hi) as Hb0. pose proof (iv_short _ _ _ _ Hi) as Hs.
  rewrite (swrap_small 64) by (unfold in_s; lia). rewrite Z.gtb_ltb. destruct (Z.ltb_spec n (bl_off (repl_backlog s))) as [H1|H1]; cbn [orb].
  { rewrite (proj2 (Z.leb_gt _ _)) by lia. done. }
  rewrite (proj2 (Z.leb_le _ _)) by lia. cbn [andb]. rewrite Z.ltb_antisym. destruct (n <=? bl_off (repl_backlog s) + bl_histlen (repl_backlog s)) eqn:H2; cbn [negb]; [|done]. apply Z.leb_le in H2.
  destruct wrote.
  - rewrite (backlog_spec _ buf b H n Hlog Hb0 Hs) by lia. cbn [mbind option_bind fst]. eexists. split; [done|]. cbn [add_answer sl_with_out sl_with_line sl_with_state sl_id sl_state sl_out sl_closing].
    split_and!; try done; try lia. intros _. rewrite Hout. unfold encode, strings. cbn [concat robj_bytes app]. apply app_nil_r.
  - eexists. split; [done|]. cbn [freeClientAsync sl_with_state sl_id sl_state sl_out sl_closing]. split_and!; done || lia.
Qed.

(** ** SYNC and PSYNC *)

Lemma replace_last l c d : sl_id c = sl_id d -> sl_id c ∉ map sl_id l -> replace_slave (l ++ [c]) d = l ++ [d].
Proof.
  intros E. induction l as [|x l IH]; cbn; intros Hn; [by rewrite E, Z.eqb_refl|]. rewrite (proj2 (Z.eqb_neq _ _)) by (rewrite <- E; set_solver). f_equal. apply IH. set_solver.
Qed.

Lemma NoDup_snoc l c : NoDup (map sl_id l) -> sl_id c ∉ map sl_id l -> NoDup (map sl_id (l ++ [c])).
Proof. intros Hn Hc. rewrite map_app. apply NoDup_app. split_and!; [done| |apply NoDup_singleton]. intros x Hx ->%list_elem_of_singleton. done. Qed.

(** After the client was put on the list, with a backlog if there was none. *)
Lemma sync_join b s H G c newid : inv b s H G -> sl_id c ∉ map sl_id (slaves s) -> waiting_start c = true -> sl_out c = [] ->
  let s1 := with_slaves s (slaves s ++ [c]) in exists s2,
  (if (length (slaves s1) =? 1)%nat && negb (has_backlog s1) then createReplicationBacklog junk (clearReplicationId2 (changeReplicationId s1 newid)) else Some s1) = Some s2 /\
  inv b s2 H G /\ slaves s2 = slaves s ++ [c].
Proof.
  intros Hi Hid Hw Hout s1. assert (Forall (slave_ok b H G) (slaves s ++ [c])) as Hf.
  { apply Forall_app. split; [apply Hi|]. constructor; [|done]. unfold slave_ok. by rewrite Hw. }
  pose proof (NoDup_snoc _ _ (iv_ids _ _ _ _ Hi) Hid) as Hnd. destruct (has_backlog s1) eqn:Hb.
  - rewrite andb_false_r. exists s1. split_and!; [done| |done]. apply (inv_with_slaves b s H G); [done..|]. intros _. by apply has_backlog_true.
  - assert (slaves s = []) as Es by by apply (inv_no_backlog b s H G). subst s1. cbn [slaves with_slaves]. rewrite Es in *. cbn [app length Nat.eqb negb andb].
    unfold createReplicationBacklog. cbn [clearReplicationId2 changeReplicationId with_ids with_slaves repl_backlog].
    destruct (bl_buf (repl_backlog s)) eqn:Eb; [exfalso; apply not_true_iff_false in Hb; apply Hb, has_backlog_true; cbn; rewrite Eb; by eexists|].
    eexists. split; [done|]. split; [|done]. pose proof (inv_new_log b s H G (bl_size (repl_backlog s)) Hi (iv_size _ _ _ _ Hi)) as Hi2. destruct Hi2. constructor; try done.
Qed.

Lemma sync_inv b s H G c psync running delayed link_ok started wrote newid : inv b s H G -> event_ok s (ESync c psync running delayed link_ok started wrote newid) -> exists s' G',
  syncCommand junk s c psync running delayed link_ok started wrote newid = Some s' /\ inv b s' H G' /\ kept (slaves s) G G'.
Proof.
  intros Hi [Hcl Hps]. unfold syncCommand. destruct (existsb (fun d => sl_id d =? sl_id c) (slaves s)) eqn:Ein; [exists s, G; by split_and!|].
  assert (sl_id c ∉ map sl_id (slaves s)) as Hid.
  { intros (d & E & Hd)%list_elem_of_fmap. rewrite <- not_true_iff_false in Ein. apply Ein, existsb_exists. exists d. split; [by apply list_elem_of_In|]. rewrite E. apply Z.eqb_refl. }
  destruct (masterhost s && negb link_ok); [exists s, G; by split_and!|]. destruct (length (sl_out c) =? 0)%nat eqn:Hout; cbn [negb]; [|exists s, G; by split_and!].
  apply Nat.eqb_eq in Hout. apply length_zero_iff_nil in Hout.
  assert (exists s1 c1 partial G1, (match psync with Some (id, off) => masterTryPartialResynchronization s c id off (wrote (sl_id c)) | None => Some (s, sl_with_pre_psync c, false) end) = Some (s1, c1, partial) /\
    kept (slaves s) G G1 /\ if partial : bool then inv b s1 H G1 else s1 = s /\ G1 = G /\ sl_id c1 = sl_id c /\ sl_out c1 = [] /\ sl_closing c1 = false) as (s1 & c1 & partial & G1 & -> & Hk & Hcase).
  { destruct psync as [[id off]|]; [|by exists s, (sl_with_pre_psync c), false, G]. destruct Hps as [n Hn]. pose proof (psync_spec b s H G c id off n (wrote (sl_id c)) Hi Hn Hout Hcl) as Hsp.
    destruct (psync_accepts s id n); [|by exists s, c, false, G]. destruct Hsp as (c' & E & Hid' & Hst & Hrange & Hb & Hcl' & Hout').
    exists (with_slaves s (slaves s ++ [c'])), c', true, (place G (sl_id c) (Z.to_nat (n - 1 - b))). split_and!; [done|by apply place_kept|].
    apply (inv_with_slaves b s H G); [done|apply NoDup_snoc; [apply Hi|by rewrite Hid']| |intros _; by apply has_backlog_true].
    apply Forall_app. split; [apply place_ok; [done|apply Hi]|]. constructor; [|done]. unfold slave_ok. assert (waiting_start c' = false) as -> by (unfold waiting_start; by rewrite Hst).
    rewrite Hst, Hid', place_same, Hcl'. intros [Hw|Hw]; [|done]. apply negb_false_iff in Hw. split_and!; [lia|by apply Hout'|done]. }
  cbn [mbind option_bind]. destruct partial; [by exists s1, G1|]. destruct Hcase as (-> & -> & Hid1 & Hout1 & Hcl1).
  set (c2 := sl_with_state c1 SLAVE_STATE_WAIT_BGSAVE_START (sl_initial c1)). assert (sl_id c2 ∉ map sl_id (slaves s)) as Hid2 by (cbn; by rewrite Hid1).
  destruct (sync_join b s H G c2 newid Hi Hid2 eq_refl Hout1) as (s2 & -> & Hi2 & Es2). cbn [mbind option_bind].
  assert (kept (slaves s) G G) as Hk0 by done. destruct running.
  - destruct delayed; [by exists s2, G|]. destruct (bgsave_inv b s2 H G started wrote Hi2) as (G2 & Hi3 & Hk2). eexists _, G2. split_and!; [done|done|]. intros d Hd Hw. apply Hk2; [|done]. rewrite Es2. apply elem_of_app. by left.
  - by exists s2, G.
  - destruct (List.find _ (slaves s2)) as [d|] eqn:Ed; [|by exists s2, G]. destruct (Z.land _ _ =? _); [|by exists s2, G].
    apply find_some in Ed as [Hd%list_elem_of_In Hst%Z.eqb_eq]. pose proof (iv_each _ _ _ _ Hi2) as He. rewrite Forall_forall in He. specialize (He d Hd). unfold slave_ok in He.
    assert (waiting_start d = false) as Hwd by (unfold waiting_start; by rewrite Hst). rewrite Hwd in He. destruct (He (or_intror Hst)) as (Hle & Hod & Hini).
    destruct (setup_ok b H (place G (sl_id c2) (G (sl_id d))) s2 (copyClientOutputBuffer c2 d) (sl_initial d) (wrote (sl_id c2))) as (Hok & Hidr & Hs3); [done|exists (G (sl_id d)); cbn [copyClientOutputBuffer sl_with_out sl_out sl_id]; rewrite place_same; split_and!; auto|].
    set (r := replicationSetupSlaveForFullResync s2 (copyClientOutputBuffer c2 d) (sl_initial d) (wrote (sl_id c2))) in *.
    eexists _, (place G (sl_id c2) (G (sl_id d))). split_and!; [done| |by apply place_kept]. rewrite Hs3. cbn [with_seldb slaves]. rewrite Es2, replace_last by (done || by rewrite Hidr).
    apply (inv_with_slaves b (with_seldb s2 (-1)) H G); [by apply inv_with_seldb| | |].
    + apply NoDup_snoc; [apply Hi|by rewrite Hidr].
    + apply Forall_app. split; [apply place_ok; [done|apply Hi]|by constructor].
    + intros _. apply (iv_slaves _ _ _ _ Hi2). rewrite Es2. by destruct (slaves s).
  - by exists s2, G.
Qed.

(** ** Every event keeps the invariant *)

Definition attached (s : server) (id : Z) : Prop := exists c, c ∈ slaves s /\ sl_id c = id /\ waiting_start c = false.

(** Whoever stays attached keeps its place. *)
Definition keeps_place (s s' : server) (G G' : Z -> nat) : Prop := forall id, attached s id -> attached s' id -> G' id = G id.

Lemma kept_keeps_place s s' G G' : kept (slaves s) G G' -> keeps_place s s' G G'.
Proof. intros Hk id (c & Hc & <- & Hw) _. by apply Hk. Qed.

Lemma keeps_place_refl s s' G : keeps_place s s' G G.
Proof. by intros id _ _. Qed.

Lemma after_bgsave_ok b H G socket ok opens c c' : after_bgsave socket ok opens c = Some c' -> slave_ok b H G c -> slave_ok b H G c' /\ sl_id c' = sl_id c /\ waiting_start c' = waiting_start c.
Proof.
  unfold after_bgsave. destruct (Z.eqb_spec (sl_state c) SLAVE_STATE_WAIT_BGSAVE_END) as [E|E]; [|by intros [= <-]]. unfold slave_ok, waiting_start. rewrite E. cbn [Z.eqb].
  destruct socket; [|destruct (ok && opens (sl_id c)); [|done]]; intros [= <-]; cbn; intros Hc; (split; [|done]); intros [Hcl|Hst]; try done; destruct (Hc (or_introl Hcl)) as (? & ? & _); by split_and!.
Qed.

Lemma omap_ids b H G socket ok opens l : NoDup (map sl_id l) -> Forall (slave_ok b H G) l ->
  NoDup (map sl_id (omap (after_bgsave socket ok opens) l)) /\ Forall (slave_ok b H G) (omap (after_bgsave socket ok opens) l).
Proof.
  intros Hnd Hf. induction l as [|c l IH]; [split; constructor|]. cbn [map] in Hnd. apply NoDup_cons in Hnd as [Hn Hnd]. inversion Hf; subst. destruct (IH Hnd) as [IH1 IH2]; [done|]. cbn.
  destruct (after_bgsave socket ok opens c) as [c'|] eqn:E; [|done]. destruct (after_bgsave_ok b H G _ _ _ _ _ E) as (Hok & Hid & _); [done|]. split; [|by constructor]. cbn [map]. apply NoDup_cons. split; [|done].
  rewrite Hid. intros (d & Ed & Hd)%list_elem_of_fmap. apply list_elem_of_omap in Hd as (d0 & Hd0 & Ed0). apply Hn. rewrite Ed. rewrite Forall_forall in *.
  destruct (after_bgsave_ok b H G _ _ _ _ _ Ed0) as (_ & -> & _); [auto|]. by apply list_elem_of_fmap_2.
Qed.

Lemma same_id l c d : NoDup (map sl_id l) -> c ∈ l -> d ∈ l -> sl_id c = sl_id d -> c = d.
Proof.
  intros Hnd [i Hi]%list_elem_of_lookup [j Hj]%list_elem_of_lookup E. assert (i = j) as ->; [|congruence]. apply (NoDup_lookup (map sl_id l) i j (sl_id c) Hnd); rewrite list_lookup_fmap.
  - by rewrite Hi.
  - rewrite Hj. cbn. by rewrite E.
Qed.

Lemma bgsave_ids s started wrote id : attached (startBgsaveForReplication s started wrote) id -> id ∈ map sl_id (slaves s).
Proof.
  intros (c & Hc & <- & _). unfold startBgsaveForReplication in Hc. destruct started; cbn [with_slaves slaves] in Hc.
  - assert (forall l s0, map sl_id (setup_waiting s0 l wrote).2 = map sl_id l) as E.
    { induction l as [|d l IH]; intros s0; [done|]. cbn [setup_waiting]. destruct (waiting_start d); cbn [snd map]; rewrite IH; [|done]. f_equal.
      unfold replicationSetupSlaveForFullResync. cbn [sl_with_state sl_pre_psync]. destruct (sl_pre_psync d); [done|]. by destruct (wrote (sl_id d)). }
    rewrite <- (E (slaves s) s). by apply list_elem_of_fmap_2.
  - apply list_elem_of_In in Hc. apply filter_In in Hc as [Hc _]. apply list_elem_of_fmap_2. by apply list_elem_of_In.
Qed.

Lemma done_inv b s H G socket ok opens started wrote : inv b s H G -> exists G', inv b (updateSlavesWaitingBgsave s socket ok opens started wrote) H G' /\
  keeps_place s (updateSlavesWaitingBgsave s socket ok opens started wrote) G G'.
Proof.
  intros Hi. unfold updateSlavesWaitingBgsave. destruct (omap_ids b H G socket ok opens (slaves s) (iv_ids _ _ _ _ Hi) (iv_each _ _ _ _ Hi)) as [Hnd Hf].
  set (s1 := with_slaves s (omap (after_bgsave socket ok opens) (slaves s))). assert (inv b s1 H G) as Hi1.
  { apply (inv_with_slaves b s H G); [done..|]. intros Hne. apply (iv_slaves _ _ _ _ Hi). intros E. apply Hne. by rewrite E. }
  destruct (existsb waiting_start (slaves s)); [|exists G; by split]. destruct (bgsave_inv b s1 H G started wrote Hi1) as (G' & Hi' & Hk). exists G'. split; [done|].
  intros id (c & Hc & <- & Hw) Hat%bgsave_ids. apply list_elem_of_fmap in Hat as (c1 & E1 & Hc1). rewrite E1. pose proof Hc1 as (c0 & Hc0 & E0)%list_elem_of_omap.
  pose proof (iv_each _ _ _ _ Hi) as He. rewrite Forall_forall in He. destruct (after_bgsave_ok b H G _ _ _ _ _ E0 (He c0 Hc0)) as (_ & Hid & Hw0).
  assert (c0 = c) as -> by (apply (same_id (slaves s)); [apply Hi|done|done|congruence]). apply Hk; [done|congruence].
Qed.

Lemma online_inv b s H G id registered : inv b s H G -> event_ok s (EOnline id registered) -> inv b (putSlaveOnline s id registered) H G.
Proof.
  intros Hi Hok. unfold putSlaveOnline. destruct registered; [|by apply filter_inv]. cbn [event_ok] in Hok.
  assert (forall l, map sl_id (map (fun c => if sl_id c =? id then sl_with_state c SLAVE_STATE_ONLINE (sl_initial c) else c) l) = map sl_id l) as Hids.
  { intros l. rewrite map_map. apply map_ext. intros c. by destruct (sl_id c =? id). }
  apply (inv_with_slaves b s H G); [done|rewrite Hids; apply Hi| |].
  - pose proof (iv_each _ _ _ _ Hi) as He. induction (slaves s) as [|c l IH]; [constructor|]. inversion He as [|? ? Hc Hl]; inversion Hok as [|? ? Hst Hok']; subst. cbn [map]. constructor; [|by apply IH].
    destruct (Z.eqb_spec (sl_id c) id) as [E|E]; [|done]. unfold slave_ok, waiting_start in *. rewrite (Hst E) in Hc. cbn in *. intros [Hcl|?]; [|done]. destruct (Hc (or_introl Hcl)) as (? & ? & _). by split_and!.
  - intros Hne. apply (iv_slaves _ _ _ _ Hi). intros E. apply Hne. by rewrite E.
Qed.

Lemma step_inv b s H G e : inv b s H G -> event_ok s e -> b + Z.of_nat (length (H ++ fed s e)) < 2 ^ 62 -> exists s' G',
  repl_step junk s e = Some s' /\ inv b s' (H ++ fed s e) G' /\ keeps_place s s' G G'.
Proof.
  intros Hi Hok Hlt. destruct e as [dictid argv|buf|c psync running delayed link_ok started wrote newid|started wrote|socket ok opens started wrote|id registered|id|newid|cached new|newsize|idle newid];
    try (cbn [repl_step fed]; rewrite app_nil_r).
  - destruct (feed_command_inv b s H G dictid argv Hi Hok Hlt) as (s' & E & Hi'). exists s', G. split_and!; [done|done|apply keeps_place_refl].
  - destruct (stream_inv b s H G buf Hi Hlt) as (s' & E & Hi'). exists s', G. split_and!; [done|done|apply keeps_place_refl].
  - destruct (sync_inv b s H G c psync running delayed link_ok started wrote newid Hi Hok) as (s' & G' & E & Hi' & Hk). exists s', G'. split_and!; [done|done|by apply kept_keeps_place].
  - destruct (bgsave_inv b s H G started wrote Hi) as (G' & Hi' & Hk). eexists _, G'. split_and!; [done|done|by apply kept_keeps_place].
  - destruct (done_inv b s H G socket ok opens started wrote Hi) as (G' & Hi' & Hk). by eexists _, G'.
  - eexists _, G. split_and!; [done|by apply online_inv|apply keeps_place_refl].
  - eexists _, G. split_and!; [done|by apply filter_inv|apply keeps_place_refl].
  - eexists _, G. split_and!; [done| |apply keeps_place_refl]. unfold replicationUnsetMaster. destruct (masterhost s); [|done].
    apply inv_with_seldb, (inv_with_slaves b (shiftReplicationId (with_masterhost s false) newid) H G); [|constructor|constructor|done]. by apply inv_with_ids, inv_with_ids, inv_with_masterhost.
  - unfold continue_with. set (s1 := if bool_decide (cached = new) then s else disconnectSlaves (with_ids s new cached (s64 (master_repl_offset s + 1)))).
    assert (inv b s1 H G) as Hi1.
    { subst s1. destruct (bool_decide _); [done|]. apply (inv_with_slaves b (with_ids s new cached (s64 (master_repl_offset s + 1))) H G); [by apply inv_with_ids|constructor|constructor|done]. }
    destruct (has_backlog s1) eqn:Hb; [exists s1, G; split_and!; [done|done|apply keeps_place_refl]|]. unfold createReplicationBacklog.
    destruct (bl_buf (repl_backlog s1)) eqn:Eb; [exfalso; apply not_true_iff_false in Hb; apply Hb, has_backlog_true; rewrite Eb; by eexists|].
    eexists _, G. split_and!; [done| |apply keeps_place_refl]. apply inv_new_log; [done|apply Hi1].
  - eexists _, G. split_and!; [done| |apply keeps_place_refl]. unfold resizeReplicationBacklog. cbn [event_ok] in Hok.
    set (n := if newsize <? CONFIG_REPL_BACKLOG_MIN_SIZE then CONFIG_REPL_BACKLOG_MIN_SIZE else newsize).
    assert (0 < n < 2 ^ 62) as Hn by (subst n; unfold CONFIG_REPL_BACKLOG_MIN_SIZE; destruct (Z.ltb_spec newsize (1024 * 16)); lia).
    destruct (bl_size (repl_backlog s) =? n); [done|]. destruct (bl_buf (repl_backlog s)) eqn:Eb; [by apply inv_new_log|].
    destruct Hi. constructor; cbn [with_log master_repl_offset repl_backlog slaves bl_size bl_buf]; try done. by rewrite Eb in *.
  - unfold cron_free_backlog. destruct ((length (slaves s) =? 0)%nat && has_backlog s && negb (masterhost s) && idle) eqn:Eg; [|exists s, G; split_and!; [done|done|apply keeps_place_refl]].
    rewrite !andb_true_iff in Eg. destruct Eg as [[[El _] _] _]. apply Nat.eqb_eq, length_zero_iff_nil in El. unfold freeReplicationBacklog. cbn [clearReplicationId2 changeReplicationId with_ids slaves]. rewrite El.
    eexists _, G. split_and!; [done| |apply keeps_place_refl]. apply (inv_free_log b (clearReplicationId2 (changeReplicationId s newid)) H G); [by apply inv_with_ids, inv_with_ids|done].
Qed.
End steps.

(** ** What the feeding leaves alone *)

Definition only_log (s s' : server) : Prop := exists off lg, s' = with_log s off lg.

Lemma only_log_refl s : only_log s s.
Proof. exists (master_repl_offset s), (repl_backlog s). by destruct s. Qed.

Lemma only_log_trans s1 s2 s3 : only_log s1 s2 -> only_log s2 s3 -> only_log s1 s3.
Proof. intros (o1 & l1 & ->) (o2 & l2 & ->). by exists o2, l2. Qed.

(** Feeding changes the backlog, the output of clients and the selected database. *)
Record only_fed (s s' : server) : Prop := {
  of_master : masterhost s' = masterhost s;
  of_id : replid s' = replid s;
  of_id2 : replid2 s' = replid2 s;
  of_second : second_replid_offset s' = second_replid_offset s;
  of_states : map (fun c => (sl_state c, sl_initial c)) (slaves s') = map (fun c => (sl_state c, sl_initial c)) (slaves s)
}.

Lemma only_fed_trans s1 s2 s3 : only_fed s1 s2 -> only_fed s2 s3 -> only_fed s1 s3.
Proof. intros [] []. constructor; congruence. Qed.

Lemma only_log_fed s s' p : only_log s s' -> only_fed s (with_slaves s' (feed_all p (slaves s'))) /\ slaveseldb s' = slaveseldb s.
Proof.
  intros (off & lg & ->). split; [|done]. constructor; try done. cbn [with_slaves with_log slaves]. unfold feed_all, feed_slaves. rewrite map_map. apply map_ext. intros c. by destruct (waiting_start c).
Qed.

Section only.
Context (junk : nat -> byte).

Lemma feed_only_log s p s' : feedReplicationBacklog s p = Some s' -> only_log s s'.
Proof. unfold feedReplicationBacklog. intros (lg & _ & [= <-])%bind_Some. by eexists _, _. Qed.

Lemma header_only_log s prefix n s' : feed_header junk s prefix n = Some s' -> only_log s s'.
Proof. unfold feed_header. intros (r & _ & (d & _ & E)%bind_Some)%bind_Some. by apply feed_only_log in E. Qed.

Lemma object_only_log s o s' : feedReplicationBacklogWithObject junk s o = Some s' -> only_log s s'.
Proof. destruct o; [apply feed_only_log|]. intros (r & _ & (d & _ & E)%bind_Some)%bind_Some. by apply feed_only_log in E. Qed.

Lemma args_only_log argv : forall s s', feed_args junk s argv = Some s' -> only_log s s'.
Proof.
  induction argv as [|o argv IH]; cbn [feed_args]; intros s s'; [intros [= <-]; apply only_log_refl|].
  intros (s1 & E1 & (s2 & E2 & (s3 & E3 & E4)%bind_Some)%bind_Some)%bind_Some. apply header_only_log in E1. apply object_only_log in E2. apply feed_only_log in E3. apply IH in E4.
  eauto using only_log_trans.
Qed.

Lemma select_only_fed s dictid s' : feed_select junk s dictid = Some s' -> only_fed s s'.
Proof.
  unfold feed_select. destruct (slaveseldb s =? dictid); [intros [= <-]; done|]. intros (s1 & E1 & [= <-])%bind_Some. rewrite feed_raw. apply only_log_fed.
  destruct (has_backlog s); [by apply object_only_log in E1|injection E1 as <-; apply only_log_refl].
Qed.

(** Afterwards the database of the stream is the one of the command. *)
Lemma command_only_fed s dictid argv s' : replicationFeedSlaves junk s dictid argv = Some s' ->
  only_fed s s' /\ slaveseldb s' = if masterhost s || negb (has_backlog s) then slaveseldb s else dictid.
Proof.
  unfold replicationFeedSlaves. destruct (masterhost s); [by intros [= <-]|]. cbn [orb]. destruct (has_backlog s) eqn:Hb; cbn [negb andb].
  - rewrite andb_false_r. intros (s1 & E1%select_only_fed & (s2 & E2 & [= <-])%bind_Some)%bind_Some. rewrite feed_command.
    assert (only_log (with_seldb s1 dictid) s2) as Hl.
    { destruct (has_backlog (with_seldb s1 dictid)); [|injection E2 as <-; apply only_log_refl]. apply bind_Some in E2 as (s3 & E3%header_only_log & E4%args_only_log). by apply (only_log_trans _ s3). }
    destruct (only_log_fed _ _ (command_bytes argv) Hl) as [Hf Hdb]. split; [|exact Hdb]. apply (only_fed_trans _ s1); [done|]. apply (only_fed_trans _ (with_seldb s1 dictid)); [|done]. by constructor.
  - destruct (length (slaves s) =? 0)%nat; cbn [negb andb]; [by intros [= <-]|done].
Qed.

Lemma stream_only_fed s buf s' : replicationFeedSlavesFromMasterStream s buf = Some s' -> only_fed s s'.
Proof.
  unfold replicationFeedSlavesFromMasterStream. intros (s1 & E1 & [= <-])%bind_Some. rewrite feed_raw. apply only_log_fed.
  destruct (has_backlog s); [by apply feed_only_log in E1|injection E1 as <-; apply only_log_refl].
Qed.
End only.

(** ** What the other events change *)

(** The role stays; the database is kept or forgotten, the second ID too. *)
Record mild (s s' : server) : Prop := {
  mi_master : masterhost s' = masterhost s;
  mi_seldb : slaveseldb s' = slaveseldb s \/ slaveseldb s' = -1;
  mi_ids : (replid2 s' = replid2 s /\ second_replid_offset s' = second_replid_offset s) \/ second_replid_offset s' = -1
}.

Lemma mild_refl s : mild s s.
Proof. constructor; auto. Qed.

Lemma mild_trans s1 s2 s3 : mild s1 s2 -> mild s2 s3 -> mild s1 s3.
Proof. intros [M1 D1 I1] [M2 D2 I2]. constructor; [congruence| |]; intuition congruence. Qed.

Lemma mild_slaves s l : mild s (with_slaves s l).
Proof. constructor; auto. Qed.

Lemma mild_forget s : mild s (with_seldb s (-1)).
Proof. constructor; auto. Qed.

Lemma mild_log s off lg : mild s (with_log s off lg).
Proof. constructor; auto. Qed.

Lemma mild_clear s newid : mild s (clearReplicationId2 (changeReplicationId s newid)).
Proof. constructor; auto. Qed.
#[local] Hint Resolve mild_refl mild_slaves mild_forget mild_log mild_clear : repl.

Lemma setup_mild s c offset wrote : (replicationSetupSlaveForFullResync s c offset wrote).1 = with_seldb s (-1).
Proof. unfold replicationSetupSlaveForFullResync. cbn [sl_with_state sl_pre_psync]. by destruct (sl_pre_psync c), wrote. Qed.

Lemma setup_waiting_mild wrote l : forall s, mild s (setup_waiting s l wrote).1 /\ (existsb waiting_start l = true -> slaveseldb (setup_waiting s l wrote).1 = -1) /\
  (slaveseldb s = -1 -> slaveseldb (setup_waiting s l wrote).1 = -1).
Proof.
  induction l as [|c l IH]; intros s; cbn [setup_waiting existsb]; [split_and!; auto with repl; done|]. destruct (waiting_start c); cbn [fst orb]; [|by apply IH].
  rewrite setup_mild. destruct (IH (with_seldb s (-1))) as (Hm & _ & Hdb). split_and!; [by eapply mild_trans; [apply mild_forget|]|by intros _; apply Hdb|by intros _; apply Hdb].
Qed.

Lemma bgsave_mild s started wrote : mild s (startBgsaveForReplication s started wrote).
Proof. unfold startBgsaveForReplication. destruct started; [|auto with repl]. eapply mild_trans; [apply setup_waiting_mild|auto with repl]. Qed.

Lemma psync_mild s c id off wrote s' c' r : masterTryPartialResynchronization s c id off wrote = Some (s', c', r) -> mild s s'.
Proof.
  unfold masterTryPartialResynchronization. destruct (getLongLongFromObject off) as [n|]; [|by intros [= <- _ _]; auto with repl].
  destruct (negb (strcaseeq id (replid s)) && _); [by intros [= <- _ _]; auto with repl|]. destruct (negb (has_backlog s) || _ || _); [by intros [= <- _ _]; auto with repl|].
  destruct wrote; [intros (? & _ & [= <- _ _])%bind_Some|intros [= <- _ _]]; auto with repl.
Qed.

Lemma sync_mild junk s c psync running delayed link_ok started wrote newid s' : syncCommand junk s c psync running delayed link_ok started wrote newid = Some s' -> mild s s'.
Proof.
  unfold syncCommand. destruct (existsb _ _); [intros [= <-]; auto with repl|]. destruct (_ && _); [intros [= <-]; auto with repl|]. destruct (negb _); [intros [= <-]; auto with repl|].
  intros ([[s1 c1] partial] & E1 & E)%bind_Some.
  assert (mild s s1) as H1 by (destruct psync as [[id off]|]; [by eapply psync_mild|injection E1 as <- _ _; auto with repl]). apply (mild_trans s s1); [done|]. destruct partial; [injection E as <-; auto with repl|].
  apply bind_Some in E as (s2 & E2 & E). set (s1' := with_slaves s1 _) in E2. assert (mild s1 s2) as H2.
  { apply (mild_trans _ s1'); [apply mild_slaves|]. destruct (_ && _); [|injection E2 as <-; auto with repl]. revert E2. unfold createReplicationBacklog. destruct (bl_buf _); [done|]. intros [= <-].
    eapply mild_trans; [apply (mild_clear s1' newid)|apply mild_log]. }
  apply (mild_trans _ s2); [done|]. destruct running; try (injection E as <-; auto with repl).
  - destruct delayed; injection E as <-; [auto with repl|apply bgsave_mild].
  - destruct (List.find _ _) as [d|]; [|injection E as <-; auto with repl]. destruct (_ =? _); [|injection E as <-; auto with repl]. injection E as <-. rewrite setup_mild. eapply mild_trans; [apply mild_forget|apply mild_slaves].
Qed.

(** Every event but a command, a change of role and a new master ID is mild. *)
Lemma step_mild junk s e s' : repl_step junk s e = Some s' ->
  match e with
  | EFeed _ _ | EStream _ => only_fed s s'
  | EUnset _ => masterhost s' = false /\ (if masterhost s then slaveseldb s' = -1 else s' = s)
  | EContinue _ _ => masterhost s' = masterhost s /\ slaveseldb s' = slaveseldb s
  | _ => mild s s'
  end.
Proof.
  destruct e; cbn [repl_step]; intros E.
  - by apply command_only_fed in E as [? _].
  - by apply stream_only_fed in E.
  - by apply sync_mild in E.
  - injection E as <-. apply bgsave_mild.
  - injection E as <-. unfold updateSlavesWaitingBgsave. destruct (existsb _ _); [|apply mild_slaves]. eapply mild_trans; [apply mild_slaves|apply bgsave_mild].
  - injection E as <-. apply mild_slaves.
  - injection E as <-. apply mild_slaves.
  - injection E as <-. unfold replicationUnsetMaster. by destruct (masterhost s) eqn:Hm.
  - unfold continue_with in E. set (s1 := if bool_decide (cached = new) then s else disconnectSlaves (with_ids s new cached (s64 (master_repl_offset s + 1)))) in E. assert (masterhost s1 = masterhost s /\ slaveseldb s1 = slaveseldb s) as Hs by (subst s1; by destruct (bool_decide _)).
    destruct (has_backlog s1); [by injection E as <-|]. revert E. unfold createReplicationBacklog. destruct (bl_buf _); [done|]. by intros [= <-].
  - injection E as <-. unfold resizeReplicationBacklog. destruct (_ =? _); [auto with repl|]. destruct (bl_buf _); apply mild_log.
  - unfold cron_free_backlog in E. destruct (_ && _); [|injection E as <-; auto with repl]. revert E. unfold freeReplicationBacklog. destruct (slaves _); [|done]. intros [= <-].
    eapply mild_trans; [apply (mild_clear s newid)|apply mild_log].
Qed.

(** ** Runs *)

Definition ending (c : slave) : bool := sl_state c =? SLAVE_STATE_WAIT_BGSAVE_END.

(** Slaves that wait for the end of a BGSAVE wait for a child that runs: none is
    started while there are any. *)
Definition child_ok (s : server) (e : event) : Prop :=
  match e with
  | EBgsave _ _ => existsb ending (slaves s) = false
  | ESync _ _ NoChild _ _ _ _ _ => existsb ending (slaves s) = false
  | _ => True
  end.

(** How much of the history there was when the last child was started, which saves
    the data set of that moment. *)
Definition forked (s : server) (H : list byte) (F : nat) (e : event) : nat :=
  match e with
  | EBgsave true _ => length H
  | ESync _ _ NoChild false _ true _ _ => length H
  | EBgsaveDone _ _ _ true _ => if existsb waiting_start (slaves s) then length H else F
  | _ => F
  end.

(** The IDs given up, with how much of the history they named. *)
Definition abandoned (s : server) (H : list byte) (e : event) : list (list byte * nat) :=
  match e with
  | EUnset _ => if masterhost s then [(replid s, length H)] else []
  | EContinue cached new => if bool_decide (cached = new) then [] else [(cached, length H)]
  | _ => []
  end.

(** A server without replicas and backlog, at the offset [b]. *)
Record fresh (b : Z) (s : server) : Prop := {
  fr_base : 0 <= b < 2 ^ 62;
  fr_off : master_repl_offset s = b;
  fr_second : second_replid_offset s = -1;
  fr_size : 0 < bl_size (repl_backlog s) < 2 ^ 62;
  fr_log : bl_buf (repl_backlog s) = None;
  fr_slaves : slaves s = []
}.

(** [H]: the history; [T]: the IDs given up; [F]: the length of the history when a
    child was last started. *)
Inductive reach (junk : nat -> byte) (b : Z) : server -> list byte -> list (list byte * nat) -> nat -> Prop :=
  | reach_fresh s : fresh b s -> reach junk b s [] [] 0
  | reach_step s H T F e s' : reach junk b s H T F -> event_ok s e -> child_ok s e -> b + Z.of_nat (length (H ++ fed s e)) < 2 ^ 62 -> repl_step junk s e = Some s' ->
      reach junk b s' (H ++ fed s e) (abandoned s H e ++ T) (forked s H F e).

(** A run during which the client [id] is attached. *)
Inductive attached_run (junk : nat -> byte) (b id : Z) (s : server) (H : list byte) : server -> list byte -> Prop :=
  | run_refl : attached_run junk b id s H s H
  | run_step s1 H1 e s2 : attached_run junk b id s H s1 H1 -> event_ok s1 e -> b + Z.of_nat (length (H1 ++ fed s1 e)) < 2 ^ 62 -> repl_step junk s1 e = Some s2 -> attached s2 id ->
      attached_run junk b id s H s2 (H1 ++ fed s1 e).

Lemma fresh_inv b s : fresh b s -> inv b s [] (fun _ => 0%nat).
Proof. intros []. constructor; rewrite ?fr_slaves0; cbn [length]; try lia; try done; [by rewrite fr_log0|apply NoDup_nil_2]. Qed.

Lemma reach_inv junk b s H T F : reach junk b s H T F -> exists G, inv b s H G.
Proof.
  induction 1 as [s Hf|s H T F e s' _ [G Hi] Hok _ Hlt E]; [eexists; by apply fresh_inv|]. destruct (step_inv junk b s H G e Hi Hok Hlt) as (s2 & G' & E2 & Hi' & _).
  rewrite E in E2. injection E2 as <-. by exists G'.
Qed.

Lemma run_inv junk b id s H s2 H2 G : attached_run junk b id s H s2 H2 -> inv b s H G -> attached s id -> exists G2, inv b s2 H2 G2 /\ G2 id = G id /\ attached s2 id.
Proof.
  intros Hr Hi Ha. induction Hr as [|s1 H1 e s2 Hr (G1 & Hi1 & HG1 & Ha1) Hok Hlt E Ha2]; [by exists G|].
  destruct (step_inv junk b s1 H1 G1 e Hi1 Hok Hlt) as (s3 & G' & E3 & Hi' & Hst). rewrite E in E3. injection E3 as <-. exists G'. split_and!; [done| |done]. by rewrite (Hst id).
Qed.

(** The output of an attached client is the history since its place. *)
Lemma attached_out b s H G c : inv b s H G -> c ∈ slaves s -> waiting_start c = false -> sl_closing c = false -> take (G (sl_id c)) H ++ sl_out c = H.
Proof.
  intros Hi Hc Hw Hcl. pose proof (iv_each _ _ _ _ Hi) as He. rewrite Forall_forall in He. specialize (He c Hc). unfold slave_ok in He. rewrite Hw in He.
  destruct (He (or_introl Hcl)) as (_ & -> & _). apply take_drop.
Qed.

(** ** The second ID *)

Definition lineage (b : Z) (s : server) (H : list byte) (T : list (list byte * nat)) : Prop :=
  second_replid_offset s = -1 \/ exists n, (replid2 s, n) ∈ T /\ (n <= length H)%nat /\ second_replid_offset s = b + Z.of_nat n + 1.

Lemma lineage_mild b s s' H T p : lineage b s H T -> (replid2 s' = replid2 s /\ second_replid_offset s' = second_replid_offset s) \/ second_replid_offset s' = -1 -> lineage b s' (H ++ p) T.
Proof.
  intros [Hl|(n & Ht & Hn & Hs)] [[E1 E2]|E]; unfold lineage; rewrite ?E1, ?E2; auto. right. exists n. rewrite length_app. split_and!; [done|lia|done].
Qed.

Lemma reach_lineage junk b s H T F : reach junk b s H T F -> lineage b s H T.
Proof.
  induction 1 as [s Hf|s H T F e s' Hr IH Hok _ Hlt E]; [left; apply Hf|]. destruct (reach_inv _ _ _ _ _ _ Hr) as [G Hi]. pose proof (iv_off _ _ _ _ Hi) as Ho. pose proof (iv_short _ _ _ _ Hi). pose proof (iv_base _ _ _ _ Hi).
  pose proof (step_mild _ _ _ _ E) as Hm. destruct e; cbn [abandoned app]; try (apply (lineage_mild b s); [done|apply Hm]).
  - apply (lineage_mild b s); [done|]. left. split; apply Hm.
  - apply (lineage_mild b s); [done|]. left. split; apply Hm.
  - destruct Hm as [_ Hm]. cbn [fed]. rewrite app_nil_r. cbn [repl_step] in E. injection E as <-. unfold replicationUnsetMaster in *. destruct (masterhost s); [|done]. right. exists (length H). cbn [shiftReplicationId changeReplicationId with_ids with_seldb disconnectSlaves with_slaves with_masterhost replid2 replid second_replid_offset master_repl_offset].
    split_and!; [left|done|]. rewrite Ho, swrap_small by (unfold in_s; lia). done.
  - cbn [fed]. rewrite app_nil_r. cbn [repl_step] in E. unfold continue_with in E. destruct (bool_decide (cached = new)).
    + cbn [app]. destruct (has_backlog s); [by injection E as <-|]. revert E. unfold createReplicationBacklog. destruct (bl_buf _); [done|]. by intros [= <-].
    + right. exists (length H). assert (replid2 s' = cached /\ second_replid_offset s' = s64 (master_repl_offset s + 1)) as [-> ->].
      { destruct (has_backlog _); [by injection E as <-|]. revert E. unfold createReplicationBacklog. destruct (bl_buf _); [done|]. by intros [= <-]. }
      split_and!; [left|done|]. rewrite Ho, swrap_small by (unfold in_s; lia). done.
Qed.

(** ** The children *)

(** Every slave that waits for a child gets the same offset, that of the data saved. *)
Definition ends_at (o : Z) (l : list slave) : Prop := Forall (fun c => ending c = true -> sl_initial c = o) l.

Lemma no_ends o l : existsb ending l = false -> ends_at o l.
Proof. intros E. apply Forall_forall. intros c Hc Hd. rewrite <- not_true_iff_false in E. destruct E. apply existsb_exists. exists c. split; [by apply list_elem_of_In|done]. Qed.

Lemma ends_filter o f l : ends_at o l -> ends_at o (List.filter f l).
Proof. apply Forall_filter_keep. Qed.

Lemma ends_snoc o l c : ends_at o l -> (ending c = true -> sl_initial c = o) -> ends_at o (l ++ [c]).
Proof. intros Hl Hc. apply Forall_app. split; [done|]. by constructor. Qed.

Lemma ends_replace o l c : ends_at o l -> sl_initial c = o -> ends_at o (replace_slave l c).
Proof. intros Hl Hc. induction Hl as [|x l Hx Hl IH]; [constructor|]. cbn [replace_slave]. destruct (sl_id x =? sl_id c); constructor; auto. Qed.

Lemma ends_map o l l' : map (fun c => (sl_state c, sl_initial c)) l' = map (fun c => (sl_state c, sl_initial c)) l -> ends_at o l -> ends_at o l'.
Proof.
  revert l'. induction l as [|c l IH]; intros [|c' l']; try done. cbn [map]. intros [= Es Ei E] Hl. inversion Hl as [|? ? Hc Hl']; subst. constructor; [|by apply IH]. unfold ending in *. rewrite Es, Ei. done.
Qed.

Lemma setup_initial s c offset wrote : sl_initial (replicationSetupSlaveForFullResync s c offset wrote).2 = offset.
Proof. unfold replicationSetupSlaveForFullResync. cbn [sl_with_state sl_pre_psync]. by destruct (sl_pre_psync c), wrote. Qed.

Lemma setup_ends wrote o l : forall s, master_repl_offset s = o -> ends_at o l -> ends_at o (setup_waiting s l wrote).2.
Proof.
  induction l as [|c l IH]; intros s Ho Hl; [constructor|]. inversion Hl as [|? ? Hc Hl']; subst. cbn [setup_waiting]. destruct (waiting_start c); cbn [snd]; (constructor; [|apply IH]); try done.
  - intros _. apply setup_initial.
  - by rewrite setup_mild.
Qed.

Lemma bgsave_ends s started wrote o : existsb ending (slaves s) = false -> (started = true -> o = master_repl_offset s) -> ends_at o (slaves (startBgsaveForReplication s started wrote)).
Proof.
  intros Hno Ho. unfold startBgsaveForReplication. destruct started; cbn [with_slaves slaves]; [|by apply ends_filter, no_ends]. apply setup_ends; [by rewrite Ho|by apply no_ends].
Qed.

Lemma psync_ends s c id off wrote s' c' r o : masterTryPartialResynchronization s c id off wrote = Some (s', c', r) -> ends_at o (slaves s) ->
  (existsb ending (slaves s) = false -> existsb ending (slaves s') = false) /\ ends_at o (slaves s') /\ master_repl_offset s' = master_repl_offset s.
Proof.
  unfold masterTryPartialResynchronization. intros E He. destruct (getLongLongFromObject off) as [n|]; [|by injection E as <- _ _].
  destruct (negb (strcaseeq id (replid s)) && _); [by injection E as <- _ _|]. destruct (negb (has_backlog s) || _ || _); [by injection E as <- _ _|].
  destruct wrote; [apply bind_Some in E as (? & _ & [= <- _ _])|injection E as <- _ _]; cbn [with_slaves slaves]; (split_and!; [intros Hno; by rewrite existsb_app, Hno|by apply ends_snoc|done]).
Qed.

Lemma sync_ends junk s c psync running delayed link_ok started wrote newid s' o : syncCommand junk s c psync running delayed link_ok started wrote newid = Some s' ->
  ends_at o (slaves s) -> (running = NoChild -> existsb ending (slaves s) = false) -> (running = NoChild -> delayed = false -> started = true -> o = master_repl_offset s) -> ends_at o (slaves s').
Proof.
  unfold syncCommand. intros E He Hno Ho. destruct (existsb _ _); [by injection E as <-|]. destruct (_ && _); [by injection E as <-|]. destruct (negb _); [by injection E as <-|].
  apply bind_Some in E as ([[s1 c1] partial] & E1 & E).
  assert ((existsb ending (slaves s) = false -> existsb ending (slaves s1) = false) /\ ends_at o (slaves s1) /\ master_repl_offset s1 = master_repl_offset s) as (Hno1 & He1 & Ho1).
  { destruct psync as [[id off]|]; [|by injection E1 as <- _ _]. by apply (psync_ends _ _ _ _ _ _ _ _ o E1). }
  destruct partial; [by injection E as <-|]. apply bind_Some in E as (s2 & E2 & E).
  set (c2 := sl_with_state c1 SLAVE_STATE_WAIT_BGSAVE_START (sl_initial c1)) in *. assert (slaves s2 = slaves s1 ++ [c2] /\ master_repl_offset s2 = master_repl_offset s1) as [Es Eo].
  { destruct (_ && _); [|by injection E2 as <-]. revert E2. unfold createReplicationBacklog. destruct (bl_buf _); [done|]. by intros [= <-]. }
  assert (ends_at o (slaves s2)) as He2 by (rewrite Es; by apply ends_snoc). destruct running; try by injection E as <-.
  - destruct delayed; injection E as <-; [done|]. apply bgsave_ends; [|intros ->; rewrite Eo, Ho1; by apply Ho]. rewrite Es, existsb_app, Hno1 by auto. done.
  - destruct (List.find _ _) as [d|] eqn:Ed; [|by injection E as <-]. destruct (_ =? _); [|by injection E as <-]. injection E as <-. rewrite setup_mild. cbn [with_seldb with_slaves slaves].
    apply find_some in Ed as [Hd%list_elem_of_In Hst]. pose proof He2 as He3. unfold ends_at in He3. rewrite Forall_forall in He3. specialize (He3 d Hd Hst). apply ends_replace; [done|]. by rewrite setup_initial.
Qed.

Lemma after_ends socket ok opens l : existsb ending (omap (after_bgsave socket ok opens) l) = false.
Proof.
  induction l as [|c l IH]; [done|]. cbn. unfold after_bgsave at 1. destruct (sl_state c =? SLAVE_STATE_WAIT_BGSAVE_END) eqn:E.
  - destruct socket; [by cbn; rewrite IH|]. destruct (ok && opens (sl_id c)); cbn; by rewrite IH.
  - cbn. unfold ending at 1. by rewrite E, IH.
Qed.

Lemma reach_ends junk b s H T F : reach junk b s H T F -> ends_at (b + Z.of_nat F) (slaves s) /\ (F <= length H)%nat.
Proof.
  induction 1 as [s Hf|s H T F e s' Hr [IH IHF] Hok Hch Hlt E]; [rewrite (fr_slaves _ _ Hf); split; [constructor|cbn; lia]|].
  destruct (reach_inv _ _ _ _ _ _ Hr) as [G Hi]. pose proof (iv_off _ _ _ _ Hi) as Ho. split.
  2:{ rewrite length_app. destruct e as [| |? ? [] [] ? [] ? ?|[] ?|? ? ? [] ?| | | | | |]; cbn [forked]; try lia. destruct (existsb _ _); lia. }
  destruct e as [dictid argv|buf|c psync running delayed link_ok started wrote newid|started wrote|socket ok opens started wrote|id registered|id|newid|cached new|newsize|idle newid]; cbn [repl_step] in E.
  - apply (ends_map _ (slaves s)); [by apply command_only_fed in E as [[] _]|done].
  - apply (ends_map _ (slaves s)); [by apply stream_only_fed in E as []|done].
  - apply (sync_ends _ _ _ _ _ _ _ _ _ _ _ _ E).
    + destruct running; try done. by apply no_ends.
    + intros ->. done.
    + intros -> -> ->. by rewrite Ho.
  - injection E as <-. apply bgsave_ends; [done|]. intros ->. by rewrite Ho.
  - injection E as <-. unfold updateSlavesWaitingBgsave. cbn [forked]. destruct (existsb waiting_start (slaves s)); [|cbn [with_slaves slaves]; apply no_ends, after_ends].
    apply bgsave_ends; [apply after_ends|]. intros ->. cbn. by rewrite Ho.
  - injection E as <-. unfold putSlaveOnline. cbn [with_slaves slaves forked]. destruct registered; [|by apply ends_filter]. apply Forall_map. eapply Forall_impl; [exact IH|]. intros c Hc. by destruct (sl_id c =? id).
  - injection E as <-. by apply ends_filter.
  - injection E as <-. unfold replicationUnsetMaster. destruct (masterhost s); [constructor|done].
  - unfold continue_with in E. set (s1 := if bool_decide (cached = new) then s else disconnectSlaves (with_ids s new cached (s64 (master_repl_offset s + 1)))) in E.
    assert (slaves s' = slaves s1) as -> by (destruct (has_backlog s1); [by injection E as <-|]; revert E; unfold createReplicationBacklog; destruct (bl_buf _); [done|]; by intros [= <-]).
    subst s1. destruct (bool_decide _); [done|constructor].
  - injection E as <-. unfold resizeReplicationBacklog. destruct (_ =? _); [done|]. by destruct (bl_buf _).
  - unfold cron_free_backlog in E. destruct (_ && _); [|by injection E as <-]. revert E. unfold freeReplicationBacklog. destruct (slaves _) eqn:Es; [|done]. intros [= <-]. cbn [clearReplicationId2 changeReplicationId with_ids with_log slaves] in *. rewrite Es. constructor.
Qed.

(** ** The databases of the commands *)

Section streams.
Context (junk : nat -> byte).

Fixpoint repl_run (s : server) (es : list event) : option server :=
  match es with [] => Some s | e :: es => s ← repl_step junk s e; repl_run s es end.

(** What a run adds to the stream, and the commands it was asked to feed. *)
Fixpoint streamed (s : server) (es : list event) : list byte :=
  match es with [] => [] | e :: es => fed s e ++ match repl_step junk s e with Some s => streamed s es | None => [] end end.

Definition command_of (s : server) (e : event) : list (Z * list (list byte)) :=
  match e with EFeed dictid argv => if has_backlog s then [(dictid, map robj_bytes argv)] else [] | _ => [] end.

Fixpoint commands (s : server) (es : list event) : list (Z * list (list byte)) :=
  match es with [] => [] | e :: es => command_of s e ++ match repl_step junk s e with Some s => commands s es | None => [] end end.
End streams.

(** Commands of this server, not of a master of it, with a database. *)
Definition own_command (e : event) : Prop :=
  match e with
  | EFeed dictid argv => 0 <= dictid < 2 ^ 31 /\ selected (map robj_bytes argv) = None
  | EStream _ => False
  | _ => True
  end.

Lemma streamed_commands junk es : forall s s', repl_run junk s es = Some s' -> masterhost s = false -> Forall own_command es -> exists R,
  streamed junk s es = requests R /\ forall db, slaveseldb s = -1 \/ slaveseldb s = db -> replay db R = commands junk s es.
Proof.
  induction es as [|e es IH]; cbn [repl_run streamed commands]; intros s s' Hr Hm Hok; [by exists []|]. inversion Hok as [|? ? He Hes]; subst. apply bind_Some in Hr as (s1 & E & Hr). rewrite E.
  destruct e as [dictid argv|buf|c psync running delayed link_ok started wrote newid|started wrote|socket ok opens started wrote|id registered|id|newid|cached new|newsize|idle newid].
  { destruct He as [Hd Hsel]. cbn [repl_step] in E. destruct (command_only_fed _ _ _ _ _ E) as [Hf Hdb]. rewrite Hm in Hdb. cbn [orb] in Hdb. destruct (IH s1 s' Hr) as (R & Hst & Hrep); [rewrite (of_master _ _ Hf); done|done|].
    cbn [fed command_of]. rewrite Hm. cbn [orb]. destruct (has_backlog s); cbn [negb] in *; [|exists R; cbn [app]; rewrite Hst; split; [done|]; intros db Hs; apply Hrep; by rewrite Hdb].
    exists ((if slaveseldb s =? dictid then [] else [[bytes_of "SELECT"; decimal dictid]]) ++ map robj_bytes argv :: R). rewrite Hst. split.
    - destruct (slaveseldb s =? dictid); cbn [app]; rewrite !requests_cons; [done|]. by rewrite <- select_cmd_request, <- app_assoc.
    - intros db Hs. assert (replay dictid (map robj_bytes argv :: R) = (dictid, map robj_bytes argv) :: commands junk s1 es) as Hlast by (cbn [replay]; rewrite Hsel, Hrep by (right; exact Hdb); done).
      destruct (Z.eqb_spec (slaveseldb s) dictid) as [Ed|Ed]; cbn [app].
      + destruct Hs as [Hs|Hs]; [lia|]. by rewrite <- Hs, Ed.
      + cbn [replay]. rewrite (selected_cmd dictid Hd). exact Hlast. }
  { done. }
  all: assert (masterhost s1 = false /\ (slaveseldb s1 = slaveseldb s \/ slaveseldb s1 = -1)) as [Hm1 Hdb1];
    [pose proof (step_mild _ _ _ _ E) as Hmild; cbn in Hmild; rewrite ?Hm in Hmild|destruct (IH s1 s' Hr Hm1 Hes) as (R & Hst & Hrep); exists R; cbn [fed command_of app]; split; [done|]; intros db Hs; apply Hrep; destruct Hdb1 as [-> | ->]; auto].
  all: try (split; [rewrite (mi_master _ _ Hmild); done|apply Hmild]).
  - destruct Hmild as [_ ->]. auto.
  - destruct Hmild as [-> ->]. auto.
Qed.

(** ** Properties *)

(** The histories an ID stands for: the server's own, or what it was when the ID was
    given up. *)
Definition names (s : server) (H : list byte) (T : list (list byte * nat)) (id P : list byte) : Prop :=
  (strcaseeq id (replid s) = true /\ P = H) \/ exists i n, (i, n) ∈ T /\ strcaseeq id i = true /\ P = take n H.

Lemma accepted_prefix junk b s H T F id n D : reach junk b s H T F -> psync_accepts s id n = true -> Z.of_nat (length D) = n - 1 - b ->
  (forall P, names s H T id P -> D `prefix_of` P \/ P `prefix_of` D) -> b + 1 <= n <= b + Z.of_nat (length H) + 1 -> take (length D) H = D.
Proof.
  intros Hr Ha HD Hn Hrange. unfold psync_accepts in Ha. rewrite !andb_true_iff in Ha. destruct Ha as [[[Hid _] _] _]. apply orb_true_iff in Hid as [Hid|Hid].
  - destruct (Hn H) as [[k ->]|Hp]; [by left|by rewrite take_app_length|]. apply prefix_length_eq in Hp; [subst; by rewrite take_ge|lia].
  - apply andb_true_iff in Hid as [Hid Hle%Z.leb_le]. destruct (reach_lineage _ _ _ _ _ _ Hr) as [Hs|(m & Hin & Hm & Hs)]; [pose proof (proj1 Hrange); destruct (reach_inv _ _ _ _ _ _ Hr) as [G Hi]; pose proof (iv_base _ _ _ _ Hi); lia|].
    assert (length D <= m)%nat as HDm by lia. assert (D `prefix_of` take m H) as [k Hk].
    { destruct (Hn (take m H)) as [Hp|Hp]; [right; by exists (replid2 s), m|done|]. apply prefix_length_eq in Hp; [by rewrite Hp|rewrite length_take; lia]. }
    rewrite <- (Nat.min_l (length D) m HDm) at 1. rewrite <- take_take, Hk. apply take_app_length.
Qed.

Lemma run_prefix junk b id s H s2 H2 : attached_run junk b id s H s2 H2 -> H `prefix_of` H2.
Proof. induction 1; [done|by apply prefix_app_r]. Qed.

Section properties.
Context (junk : nat -> byte) (b : Z).

(** C2: Partial resynchronization is sound across changes of master.  When PSYNC is
    granted to a replica whose data is, as far as the ID it gives tells, in line with
    the history (a prefix of, or longer than, what the ID stands for: the server's
    history, or the history at the time the ID was given up), then whatever happens
    afterwards, while it stays attached, its data and the bytes it was sent are the
    history, without a gap, an overlap or a foreign byte. *)
Theorem psync_consistent s H T F c id o n D s1 c1 s2 H2 c2 : reach junk b s H T F -> getLongLongFromObject o = Some n -> sl_out c = [] -> sl_closing c = false ->
  (sl_id c ∉ map sl_id (slaves s)) -> masterTryPartialResynchronization s c id o true = Some (s1, c1, true) ->
  Z.of_nat (length D) = n - 1 - b -> (forall P, names s H T id P -> D `prefix_of` P \/ P `prefix_of` D) ->
  attached_run junk b (sl_id c) s1 H s2 H2 -> c2 ∈ slaves s2 -> sl_id c2 = sl_id c -> sl_closing c2 = false ->
  D ++ sl_out c2 = H2.
Proof.
  intros Hr Ho Hout Hcl Hid E HD Hn Hrun Hc2 Hid2 Hcl2. destruct (reach_inv _ _ _ _ _ _ Hr) as [G Hi]. pose proof (psync_spec b s H G c id o n true Hi Ho Hout Hcl) as Hsp.
  destruct (psync_accepts s id n) eqn:Hacc; [|congruence]. destruct Hsp as (c' & E' & Hid' & Hst & Hrange & Hb & Hcl' & Hout'). rewrite E in E'. injection E' as -> ->.
  pose proof (accepted_prefix _ _ _ _ _ _ _ _ _ Hr Hacc HD Hn Hrange) as Hpre.
  assert (waiting_start c' = false) as Hw by (unfold waiting_start; by rewrite Hst).
  assert (inv b (with_slaves s (slaves s ++ [c'])) H (place G (sl_id c) (length D))) as Hi1.
  { apply (inv_with_slaves b s H G); [done|apply NoDup_snoc; [apply Hi|by rewrite Hid']| |intros _; by apply has_backlog_true].
    apply Forall_app. split; [apply place_ok; [done|apply Hi]|]. constructor; [|done]. unfold slave_ok. rewrite Hw, Hst, Hid', place_same.
    intros _. split_and!; [lia| |done]. rewrite Hout' by done. f_equal. lia. }
  destruct (run_inv _ _ _ _ _ _ _ _ Hrun Hi1) as (G2 & Hi2 & HG2 & (d & Hd & Hidd & Hwd)); [exists c'; split_and!; [cbn; apply elem_of_app; right; left|done|done]|].
  assert (d = c2) as -> by (apply (same_id (slaves s2)); [apply Hi2|done|done|congruence]). rewrite <- (attached_out b s2 H2 G2 c2 Hi2 Hc2 Hwd Hcl2), Hid2, HG2, place_same. f_equal.
  destruct (run_prefix _ _ _ _ _ _ _ Hrun) as [k ->]. rewrite take_app_le by lia. done.
Qed.

(** C28: A replica that waits for a dump gets the bytes that follow it.  All the
    replicas that wait for the end of a BGSAVE, those that joined one in progress
    too, wait for the child started last; while such a replica stays attached, the
    history up to the start of that child and the bytes it was sent are the history. *)
Theorem full_resync_consistent s H T F c s2 H2 c2 : reach junk b s H T F -> c ∈ slaves s -> sl_state c = SLAVE_STATE_WAIT_BGSAVE_END ->
  attached_run junk b (sl_id c) s H s2 H2 -> c2 ∈ slaves s2 -> sl_id c2 = sl_id c -> sl_closing c2 = false -> take F H ++ sl_out c2 = H2.
Proof.
  intros Hr Hc Hst Hrun Hc2 Hid2 Hcl2. destruct (reach_inv _ _ _ _ _ _ Hr) as [G Hi]. destruct (reach_ends _ _ _ _ _ _ Hr) as [Hend HF].
  assert (waiting_start c = false) as Hw by (unfold waiting_start; by rewrite Hst).
  assert (G (sl_id c) = F) as HG.
  { pose proof (iv_each _ _ _ _ Hi) as He. unfold ends_at in Hend. rewrite Forall_forall in He, Hend. specialize (He c Hc). specialize (Hend c Hc). unfold slave_ok in He. rewrite Hw in He.
    destruct (He (or_intror Hst)) as (_ & _ & Hin). unfold ending in Hend. rewrite Hst in Hend. specialize (Hin Hst). specialize (Hend eq_refl). lia. }
  destruct (run_inv _ _ _ _ _ _ _ _ Hrun Hi) as (G2 & Hi2 & HG2 & (d & Hd & Hidd & Hwd)); [by exists c|].
  assert (d = c2) as -> by (apply (same_id (slaves s2)); [apply Hi2|done|done|congruence]). rewrite <- (attached_out b s2 H2 G2 c2 Hi2 Hc2 Hwd Hcl2), Hid2, HG2, HG. f_equal.
  destruct (run_prefix _ _ _ _ _ _ _ Hrun) as [k ->]. by rewrite take_app_le.
Qed.

(** C29: No event stops the replication: from every state that can be reached each
    event returns, no assertion fails and nothing is stored or read outside the
    backlog; the offset grows by exactly the bytes that were fed, and a server with
    replicas has a backlog. *)
Theorem replication_progress s H T F e : reach junk b s H T F -> event_ok s e -> b + Z.of_nat (length (H ++ fed s e)) < 2 ^ 62 -> exists s',
  repl_step junk s e = Some s' /\ master_repl_offset s' = master_repl_offset s + Z.of_nat (length (fed s e)) /\ (slaves s' <> [] -> has_backlog s' = true).
Proof.
  intros Hr Hok Hlt. destruct (reach_inv _ _ _ _ _ _ Hr) as [G Hi]. destruct (step_inv junk b s H G e Hi Hok Hlt) as (s' & G' & E & Hi' & _). exists s'. split_and!; [done| |].
  - rewrite (iv_off _ _ _ _ Hi'), (iv_off _ _ _ _ Hi), length_app. lia.
  - intros Hs. apply has_backlog_true. by apply (iv_slaves _ _ _ _ Hi').
Qed.
End properties.

(** Replicas run every command in its database.  From the start of a BGSAVE for a
    replica that waits, whatever else happens, the stream is a sequence of requests,
    and a replica that runs them, whatever database it has selected, runs exactly the
    commands that were fed, in order, each in its database. *)
Theorem replica_databases junk s wrote es s' : existsb waiting_start (slaves s) = true -> masterhost s = false ->
  repl_run junk (startBgsaveForReplication s true wrote) es = Some s' -> Forall own_command es -> exists R,
  streamed junk (startBgsaveForReplication s true wrote) es = requests R /\ forall db, replay db R = commands junk (startBgsaveForReplication s true wrote) es.
Proof.
  intros Hw Hm Hr Hok. destruct (streamed_commands junk es _ _ Hr) as (R & Hs & Hrep); [by rewrite (mi_master _ _ (bgsave_mild s true wrote))|done|]. exists R. split; [done|]. intros db. apply Hrep. left.
  unfold startBgsaveForReplication. cbn [with_slaves slaveseldb]. by apply (proj1 (proj2 (setup_waiting_mild wrote (slaves s) s))).
Qed.

(** The request of a replica whose offset is not a number: it is answered with an
    error, and the replica still waits for a dump, after which the answer will be
    found in its stream. *)
Lemma unparsable_offset_answered s c id p wrote : string2ll p = None ->
  masterTryPartialResynchronization s c id (OSds p) wrote = Some (s, add_answer c (Error not_integer), false).
Proof. intros E. unfold masterTryPartialResynchronization, getLongLongFromObject. by rewrite E. Qed.

(** ** Examples *)

Module ReplTests.
Definition zero (k : nat) : byte := 0.
Definition new_client (id : Z) : slave := mkSlave id 0 SLAVE_CAPA_PSYNC2 false 0 [] [] false.
Definition start : server := mkServer false (bytes_of "aaaa") (bytes_of "0000") (-1) 0 (mkLog None 64 0 0 0) (-1) [].
Definition set_x : event := EFeed 3 [OSds (bytes_of "SET"); OSds (bytes_of "x"); OInt 7].
Definition full (id : Z) : event := ESync (new_client id) None NoChild false true true (fun _ => true) (bytes_of "bbbb").
Definition joins (id : Z) : event := ESync (new_client id) None RdbDisk false true true (fun _ => true) (bytes_of "cccc").

Lemma start_fresh : fresh 0 start.
Proof. constructor; cbn [start master_repl_offset second_replid_offset repl_backlog bl_size bl_buf slaves]; lia || done. Qed.

Definition stepped (s : server) (e : event) : server := default start (repl_step zero s e).
Definition s1 : server := Eval vm_compute in stepped start (full 1).
Definition s2 : server := Eval vm_compute in stepped s1 set_x.
Definition h2 : list byte := Eval vm_compute in fed s1 set_x.
Definition s3 : server := Eval vm_compute in stepped s2 (joins 2).

Definition c3 : slave := Eval vm_compute in default (new_client 0) (slaves s3 !! 1%nat).

Lemma reach1 : reach zero 0 s1 [] [] 0.
Proof. apply (reach_step zero 0 start [] [] 0 (full 1) s1 (reach_fresh _ _ _ start_fresh)); cbn; try done. Qed.

Lemma reach2 : reach zero 0 s2 h2 [] 0.
Proof. apply (reach_step zero 0 s1 [] [] 0 set_x s2 reach1); try done. repeat constructor; cbn; lia. Qed.

Lemma reach3 : reach zero 0 s3 h2 [] 0.
Proof. pose proof (reach_step zero 0 s2 h2 [] 0 (joins 2) s3 reach2) as Hr. rewrite app_nil_r in Hr. by apply Hr. Qed.

(** The server becomes the replica's replica and a master again: its old ID is the
    second one. *)
Definition slave_start : server := with_masterhost start true.
Definition from_master : event := EStream (bytes_of "abcdef").
Definition m1 : server := Eval vm_compute in stepped slave_start (EContinue (bytes_of "aaaa") (bytes_of "aaaa")).
Definition m2 : server := Eval vm_compute in stepped m1 from_master.
Definition m3 : server := Eval vm_compute in stepped m2 (EUnset (bytes_of "dddd")).
Definition m4 : server := Eval vm_compute in stepped m3 set_x.
Definition h4 : list byte := Eval vm_compute in bytes_of "abcdef" ++ fed m3 set_x.
Definition asks : robj := OSds (bytes_of "5").
Definition r5 : server * slave * bool :=
  Eval vm_compute in default (m4, new_client 5, false) (masterTryPartialResynchronization m4 (new_client 5) (bytes_of "AAAA") asks true).
Definition m6 : server := Eval vm_compute in stepped r5.1.1 set_x.
Definition h6 : list byte := Eval vm_compute in h4 ++ fed r5.1.1 set_x.
Definition c6 : slave := Eval vm_compute in default (new_client 0) (slaves m6 !! 0%nat).

Lemma reach4 : reach zero 0 m4 h4 [(bytes_of "aaaa", 6%nat)] 0.
Proof.
  assert (fresh 0 slave_start) as Hf by (constructor; cbn [start slave_start with_masterhost master_repl_offset second_replid_offset repl_backlog bl_size bl_buf slaves]; lia || done).
  assert (reach zero 0 m1 [] [] 0) as R1 by by apply (reach_step zero 0 slave_start [] [] 0 (EContinue (bytes_of "aaaa") (bytes_of "aaaa")) m1 (reach_fresh _ _ _ Hf)).
  assert (reach zero 0 m2 (bytes_of "abcdef") [] 0) as R2 by by apply (reach_step zero 0 m1 [] [] 0 from_master m2 R1).
  assert (reach zero 0 m3 (bytes_of "abcdef") [(bytes_of "aaaa", 6%nat)] 0) as R3 by by apply (reach_step zero 0 m2 (bytes_of "abcdef") [] 0 (EUnset (bytes_of "dddd")) m3 R2).
  apply (reach_step zero 0 m3 (bytes_of "abcdef") [(bytes_of "aaaa", 6%nat)] 0 set_x m4 R3); try done. repeat constructor; cbn; lia.
Qed.

(** A replica that waits for the cron. *)
Definition waits : server := Eval vm_compute in stepped start (ESync (new_client 1) None NoChild true true true (fun _ => true) (bytes_of "bbbb")).
Definition waited : server := Eval vm_compute in stepped (stepped (stepped (startBgsaveForReplication waits true (fun _ => true)) set_x) (EClose 1)) set_x.
End ReplTests.

(** A replica of the former master, which missed its last two bytes. *)
Lemma psync_consistent_witness : bytes_of "abcd" ++ sl_out ReplTests.c6 = ReplTests.h6.
Proof.
  apply (psync_consistent ReplTests.zero 0 ReplTests.m4 ReplTests.h4 [(bytes_of "aaaa", 6%nat)] 0 (ReplTests.new_client 5) (bytes_of "AAAA") ReplTests.asks 5 (bytes_of "abcd")
    ReplTests.r5.1.1 ReplTests.r5.1.2 ReplTests.m6 ReplTests.h6 ReplTests.c6 ReplTests.reach4); try (vm_compute; reflexivity).
  - apply not_elem_of_nil.
  - intros P [[E _]|(i & n & Hin & _ & ->)]; [vm_compute in E; discriminate E|]. apply list_elem_of_singleton in Hin. injection Hin as -> ->. left. by eexists.
  - apply (run_step ReplTests.zero 0 5 ReplTests.r5.1.1 ReplTests.h4 ReplTests.r5.1.1 ReplTests.h4 ReplTests.set_x ReplTests.m6);
      [constructor|repeat constructor; cbn; lia|vm_compute; reflexivity|vm_compute; reflexivity|].
    exists ReplTests.c6. split_and!; [left|reflexivity|reflexivity].
  - left.
Defined.

(** The second replica joins the BGSAVE of the first after a command. *)
Lemma full_resync_consistent_witness : ReplTests.c3 ∈ slaves ReplTests.s3 /\ sl_id ReplTests.c3 = 2 /\ take 0 ReplTests.h2 ++ sl_out ReplTests.c3 = ReplTests.h2.
Proof.
  split; [right; left|]. split; [reflexivity|].
  apply (full_resync_consistent ReplTests.zero 0 ReplTests.s3 ReplTests.h2 [] 0 ReplTests.c3 ReplTests.s3 ReplTests.h2 ReplTests.c3 ReplTests.reach3); [right; left|reflexivity|constructor|right; left|reflexivity|reflexivity].
Defined.

Lemma replication_progress_witness : exists s, repl_step ReplTests.zero ReplTests.s3 (EResize 100000) = Some s /\ master_repl_offset s = 50.
Proof.
  destruct (replication_progress ReplTests.zero 0 ReplTests.s3 ReplTests.h2 [] 0 (EResize 100000) ReplTests.reach3) as (s & E & Ho & _); [cbn; lia|vm_compute; reflexivity|]. exists s. split; [exact E|]. exact Ho.
Defined.

Lemma replica_databases_witness : exists R, streamed ReplTests.zero (startBgsaveForReplication ReplTests.waits true (fun _ => true)) [ReplTests.set_x; EClose 1; ReplTests.set_x] = requests R /\
  forall db, replay db R = [(3, [bytes_of "SET"; bytes_of "x"; bytes_of "7"]); (3, [bytes_of "SET"; bytes_of "x"; bytes_of "7"])].
Proof.
  destruct (replica_databases ReplTests.zero ReplTests.waits (fun _ => true) [ReplTests.set_x; EClose 1; ReplTests.set_x] ReplTests.waited) as (R & E1 & E2);
    [reflexivity|reflexivity|vm_compute; reflexivity|repeat constructor; cbn; lia|]. exists R. split; [exact E1|]. intros db. rewrite E2. vm_compute. reflexivity.
Defined.
