(* ===== verification/AofLoad.v ===== *)
(** * Loading and checking the append only file (src/redis-5.0.7/src/aof.c,
      redis-check-aof.c)

    The file is a sequence of requests, those of a transaction between MULTI and
    EXEC.  After a crash its last part may be missing.  Here are the loader, which
    runs the commands in a fake client and removes an incomplete end, and the
    checker, which finds where the valid part ends.  What an ordinary command does to
    the data, and which commands exist, are parameters, and so is the loading of a
    dump at the start of the file.  Reads do not fail other than at the end. *)

From S2P Require Import Prelude Util Sds ServerDefs Protocol Reply Rdb Stream.
From stdpp Require Import strings.

Local Open Scope Z_scope.

Local Abbreviation CRLF := Protocol.CRLF.

(** ** Reading the file *)

(** At most [n] bytes, to the end of the line. *)
Fixpoint read_line (n : nat) (file : list byte) : list byte * list byte :=
  match n, file with
  | S n, b :: r => if b =? 10 then ([b], r) else let q := read_line n r in (b :: q.1, q.2)
  | _, _ => ([], file)
  end.

(** fgets(3): the line and the rest; [None] at the end of the file. *)
Definition fgets (size : Z) (file : list byte) : option (list byte * list byte) :=
  match file with [] => None | _ => Some (read_line (Z.to_nat (size - 1)) file) end.

(** fread(3) of one item: [None] if the file ends first. *)
Definition fread (n : Z) (file : list byte) : option (list byte * list byte) :=
  if n <=? Z.of_nat (length file) then Some (take (Z.to_nat n) file, drop (Z.to_nat n) file) else None.

(** How reading ends: with a value, with an error ([eof]: at the end of the file),
    with a format error; [Undefined]: the code has no defined result. *)
Inductive read (A : Type) :=
  | Got (a : A)
  | ReadErr (eof : bool)
  | FmtErr
  | Undefined.
Arguments Got {A}.
Arguments ReadErr {A}.
Arguments FmtErr {A}.
Arguments Undefined {A}.

Definition rbind {A B} (r : read A) (f : A -> read B) : read B :=
  match r with Got a => f a | ReadErr e => ReadErr e | FmtErr => FmtErr | Undefined => Undefined end.
Definition at_end {A} (o : option A) : read A := match o with Some a => Got a | None => ReadErr true end.
Definition defined {A} (o : option A) : read A := match o with Some a => Got a | None => Undefined end.
Notation "'rlet' x := r 'in' k" := (rbind r (fun x => k)) (at level 10, x pattern, r at level 200, k at level 200).

(** One argument: the body of [for (j = 0; j < argc; j++)]. *)
Definition load_arg (file : list byte) : read (list byte * list byte) :=
  rlet (line, file) := at_end (fgets 128 file) in
  match line with
  | 36 :: l =>
      rlet (v, _) := defined (strtoll (l ++ [0])) in
      let len := u64 v in
      rlet _ := defined (sds_alloc len) in
      rlet (arg, file) := (if len =? 0 then Got ([], file) else at_end (fread len file)) in
      rlet (_, file) := at_end (fread 2 file) in
      Got (arg, file)
  | _ => FmtErr
  end.

Fixpoint load_args (n : nat) (file : list byte) : read (list (list byte) * list byte) :=
  match n with
  | O => Got ([], file)
  | S n =>
      rlet (arg, file) := load_arg file in
      rlet (args, file) := load_args n file in
      Got (arg :: args, file)
  end.

(** The header, read into 128 bytes, and the arguments. *)
Definition load_argv (line file : list byte) : read (list (list byte) * list byte) :=
  match line with
  | 42 :: l =>
      if bool_decide (head (l ++ [0]) = Some 0) then ReadErr ((length line <? 127)%nat && negb (bool_decide (last line = Some 10)))
      else
        rlet (v, _) := defined (strtoll (l ++ [0])) in
        let argc := s32 v in
        if argc <? 1 then FmtErr else load_args (Z.to_nat argc) file
  | _ => FmtErr
  end.

(** ** Running the commands *)

Definition named (name : list byte) (argv : list (list byte)) : bool :=
  match argv with n :: _ => bool_decide (map tolower n = name) | [] => false end.

Section load.
Context {data : Type} (apply : data -> Z -> list (list byte) -> data) (known : list byte -> bool) (dbnum : Z).

(** The fake client, and the data set. *)
Record fake := mkFake { fk_multi : bool; fk_queue : list (list (list byte)); fk_db : Z; fk_data : data }.

(** A command in the context of the client: SELECT changes its database; MULTI inside
    of a transaction is an error that changes nothing. *)
Definition run_proc (f : fake) (argv : list (list byte)) : fake :=
  if named (bytes_of "multi") argv then f
  else
    match selected argv with
    | Some n => if (0 <=? n) && (n <? dbnum) then mkFake (fk_multi f) (fk_queue f) n (fk_data f) else f
    | None => mkFake (fk_multi f) (fk_queue f) (fk_db f) (apply (fk_data f) (fk_db f) argv)
    end.

Definition exec_queued (f : fake) : fake :=
  if negb (fk_multi f) then f
  else let g := fold_left run_proc (fk_queue f) f in mkFake false [] (fk_db g) (fk_data g).

(** [None]: there is no such command. *)
Definition run_argv (f : fake) (argv : list (list byte)) : option fake :=
  match argv with
  | [] => None
  | name :: _ =>
      if negb (known name) then None
      else if fk_multi f && negb (named (bytes_of "exec") argv)
      then Some (mkFake true (fk_queue f ++ [argv]) (fk_db f) (fk_data f))
      else if named (bytes_of "multi") argv then Some (mkFake true (fk_queue f) (fk_db f) (fk_data f))
      else if named (bytes_of "exec") argv then Some (exec_queued f)
      else Some (run_proc f argv)
  end.

(** [while(1)]: the client at the end of the file or at an error, and the two offsets. *)
Inductive stopped :=
  | AtEof (f : fake) (valid_up_to valid_before_multi : Z)
  | AtError (eof : bool) (f : fake) (valid_up_to valid_before_multi : Z)
  | Exits
  | Hangs.

Fixpoint load_loop (fuel : nat) (aof_load_truncated : bool) (size : Z) (f : fake) (file : list byte) (valid_up_to valid_before_multi : Z) : stopped :=
  match fuel with
  | O => Hangs
  | S fuel =>
      match fgets 128 file with
      | None => AtEof f valid_up_to valid_before_multi
      | Some (line, file) =>
          match load_argv line file with
          | ReadErr eof => AtError eof f valid_up_to valid_before_multi
          | FmtErr => Exits
          | Undefined => Hangs
          | Got (argv, file) =>
              match run_argv f argv with
              | None => Exits
              | Some f' =>
                  let before := if named (bytes_of "multi") argv then valid_up_to else valid_before_multi in
                  let upto := if aof_load_truncated then size - Z.of_nat (length file) else valid_up_to in
                  load_loop fuel aof_load_truncated size f' file upto before
              end
          end
      end
  end.

(** C_OK with the data and the file, C_ERR for an empty file, or the process exits. *)
Inductive load_outcome := Loaded (d : data) (file : list byte) | EmptyFile | LoadExits | LoadHangs.

(** [uxeof] *)
Definition unexpected_eof (aof_load_truncated truncate_ok seek_ok : bool) (f : fake) (file : list byte) (valid_up_to : Z) : load_outcome :=
  if aof_load_truncated && truncate_ok && seek_ok then Loaded (fk_data f) (take (Z.to_nat valid_up_to) file) else LoadExits.

(** [preamble]: the data in a dump at the start of the file, and the rest. *)
Definition loadAppendOnlyFile (preamble : data -> list byte -> option (data * list byte)) (aof_load_truncated truncate_ok seek_ok : bool)
    (d : data) (file : list byte) : load_outcome :=
  match file with
  | [] => EmptyFile
  | _ =>
      let start := if bool_decide (take 5 file = bytes_of "REDIS") then preamble d file else Some (d, file) in
      match start with
      | None => LoadExits
      | Some (d, rest) =>
          match load_loop (S (length rest)) aof_load_truncated (Z.of_nat (length file)) (mkFake false [] 0 d) rest 0 0 with
          | AtEof f valid_up_to valid_before_multi =>
              if fk_multi f then unexpected_eof aof_load_truncated truncate_ok seek_ok f file valid_before_multi else Loaded (fk_data f) file
          | AtError eof f valid_up_to _ => if eof then unexpected_eof aof_load_truncated truncate_ok seek_ok f file valid_up_to else LoadExits
          | Exits => LoadExits
          | Hangs => LoadHangs
          end
      end
  end.
End load.

(** ** Lines *)

(** [p] is [l] without its end. *)
Definition cut (p l : list byte) : Prop := exists k, k <> [] /\ l = p ++ k.

Lemma cut_app p l m : cut p (l ++ m) -> cut p l \/ exists q, p = l ++ q /\ cut q m.
Proof.
  intros (k & Hk & E). revert l E. induction p as [|x p IH]; intros l E.
  - destruct l as [|y l]; [right; exists []; split; [done|by exists k]|left; by exists (y :: l)].
  - destruct l as [|y l]; [right; exists (x :: p); split; [done|by exists k]|]. cbn in E. injection E as -> E. destruct (IH l E) as [(k' & Hk' & ->)|(q & -> & Hq)]; [left; by exists k'|right; by exists q].
Qed.

Lemma cut_short p l : cut p l -> (length p < length l)%nat.
Proof. intros (k & Hk & ->). rewrite length_app. destruct k; [done|cbn; lia]. Qed.

Lemma prefix_cut p l : p `prefix_of` l -> p = l \/ cut p l.
Proof. intros [k ->]. destruct k as [|x k]; [left; by rewrite app_nil_r|right; by exists (x :: k)]. Qed.

Lemma read_line_full p r : Forall (fun c => c <> 10) p -> forall n, (length p < n)%nat -> read_line n (p ++ 10 :: r) = (p ++ [10], r).
Proof.
  induction 1 as [|c p Hc _ IH]; intros n Hn; (destruct n as [|n]; [cbn in Hn; lia|]); [done|]. cbn [app read_line]. rewrite (proj2 (Z.eqb_neq _ _) Hc). cbn in Hn. by rewrite IH by lia.
Qed.

Lemma read_line_end p : Forall (fun c => c <> 10) p -> forall n, (length p <= n)%nat -> read_line n p = (p, []).
Proof.
  induction 1 as [|c p Hc _ IH]; intros n Hn; [by destruct n|]. destruct n as [|n]; [cbn in Hn; lia|]. cbn [read_line]. rewrite (proj2 (Z.eqb_neq _ _) Hc). cbn in Hn. by rewrite IH by lia.
Qed.

Lemma fgets_full p r : Forall (fun c => c <> 10) p -> (length p < 127)%nat -> fgets 128 (p ++ 10 :: r) = Some (p ++ [10], r).
Proof. intros Hp Hl. unfold fgets. replace (Z.to_nat (128 - 1)) with 127%nat by done. rewrite (read_line_full p r Hp 127 Hl). by destruct p. Qed.

Lemma fgets_end p : Forall (fun c => c <> 10) p -> (length p < 127)%nat -> p <> [] -> fgets 128 p = Some (p, []).
Proof. intros Hp Hl Hne. unfold fgets. replace (Z.to_nat (128 - 1)) with 127%nat by done. rewrite (read_line_end p Hp 127) by lia. by destruct p. Qed.

(** ** Numbers *)

(** What is left of a number when its line is cut. *)
Lemma cut_digits v p : 0 <= v < 2 ^ 63 -> p <> [] -> p `prefix_of` decimal v -> Forall digit p /\ 0 <= dval 0 p <= v /\ (1 <= v -> 1 <= dval 0 p).
Proof.
  intros Hv Hne [k E]. destruct (decimal_digits v Hv) as (Hd & _ & Hval). rewrite E in Hd, Hval. apply Forall_app in Hd as [Hp Hk]. rewrite dval_app in Hval.
  pose proof (dval_mono p Hp 0 ltac:(lia)). pose proof (dval_mono k Hk (dval 0 p) ltac:(lia)). split_and!; [done|lia|lia|]. intros Hv1.
  destruct p as [|d p]; [done|]. assert (49 <= d) as Hd1.
  { unfold decimal in E. rewrite (proj2 (Z.ltb_ge v 0)) in E by lia. destruct (dec_canonical v) as (c & ds & Ec & Hc & _); [assert (2 ^ 63 < 10 ^ 20) by done; lia|]. rewrite Ec in E. injection E as -> _. lia. }
  inversion Hp as [|? ? Hd Hp']; subst. unfold dval. cbn [foldl]. fold (dval (0 * 10 + (d - 48)) p). pose proof (dval_mono p Hp' (0 * 10 + (d - 48)) ltac:(lia)). lia.
Qed.

Lemma digits_no_newline p : Forall digit p -> Forall (fun c => c <> 10) p.
Proof. intros Hp. eapply Forall_impl; [exact Hp|]. unfold digit. intros. lia. Qed.

(** A header line: complete, or cut to a shorter one. *)
Lemma header_full prefix v r : 0 <= v < 2 ^ 63 -> prefix <> 10 -> fgets 128 (prefix :: decimal v ++ CRLF ++ r) = Some (prefix :: decimal v ++ CRLF, r).
Proof.
  intros Hv Hp. destruct (decimal_digits v Hv) as (Hd & _ & _). pose proof (decimal_length v).
  replace (prefix :: decimal v ++ CRLF ++ r) with ((prefix :: decimal v ++ [13]) ++ 10 :: r) by (cbn; by rewrite <- app_assoc).
  rewrite fgets_full; [cbn; by rewrite <- app_assoc| |cbn; rewrite length_app; cbn; lia]. constructor; [done|]. apply Forall_app. split; [by apply digits_no_newline|by constructor].
Qed.

Lemma number_full v : 0 <= v < 2 ^ 63 -> strtoll ((decimal v ++ CRLF) ++ [0]) = Some (v, [13; 10; 0]).
Proof.
  intros Hv. destruct (decimal_digits v Hv) as (Hd & Hne & Hval). rewrite <- app_assoc. cbn [app CRLF]. rewrite digit_first; [by rewrite Hval|done|done|by apply not_digit; right|]. rewrite Hval. unfold LLONG_MAX. lia.
Qed.

Lemma header_cut prefix v p : 0 <= v < 2 ^ 63 -> prefix <> 10 -> p <> [] -> cut p (prefix :: decimal v ++ CRLF) -> exists l,
  p = prefix :: l /\ fgets 128 p = Some (p, []) /\ Forall (fun c => c <> 10) p /\ (length p < 127)%nat /\
  (l = [] \/ exists w e, head (l ++ [0]) <> Some 0 /\ strtoll (l ++ [0]) = Some (w, e) /\ take 2 e <> CRLF /\ 0 <= w <= v /\ (1 <= v -> 1 <= w)).
Proof.
  intros Hv Hpre Hne (k & Hk & E). destruct p as [|x l]; [done|]. cbn in E. injection E as <- E. exists l. pose proof (decimal_length v) as Hl.
  destruct (decimal_digits v Hv) as (Hd & Hdne & Hval).
  assert ((l `prefix_of` decimal v) \/ l = decimal v ++ [13]) as Hcase.
  { replace (decimal v ++ Protocol.CRLF) with ((decimal v ++ [13]) ++ [10]) in E by by rewrite <- app_assoc. assert (cut l ((decimal v ++ [13]) ++ [10])) as Hcut. { exists k. split; [exact Hk|]. exact E. } apply cut_app in Hcut as [Hc|(q & -> & (k' & Hk' & E'))].
    - apply cut_app in Hc as [(k' & _ & ->)|(q & -> & (k' & Hk' & E'))]; [left; by exists k'|left]. destruct q; [by rewrite app_nil_r|]. destruct q, k'; try done.
    - right. destruct q; [by rewrite app_nil_r|]. destruct q, k'; done. }
  assert (Forall (fun c => c <> 10) (prefix :: l)) as Hnl.
  { constructor; [done|]. destruct Hcase as [[k' E']| ->]; [rewrite E' in Hd; apply Forall_app in Hd as [Hd _]; by apply digits_no_newline|]. apply Forall_app. split; [by apply digits_no_newline|by constructor]. }
  assert (length (prefix :: l) < 127)%nat as Hlen.
  { cbn. destruct Hcase as [[k' E']| ->]; [apply (f_equal length) in E'; rewrite length_app in E'; lia|rewrite length_app; cbn; lia]. }
  split_and!; [done|by apply fgets_end|done|done|]. destruct Hcase as [Hp| ->].
  - destruct l as [|d l]; [by left|]. right. destruct (cut_digits v (d :: l) Hv) as (Hdl & Hr & H1); [done|done|]. exists (dval 0 (d :: l)), [0]. split_and!; [|apply digit_first; [done|done|by apply not_digit; left|unfold LLONG_MAX; lia]|done|lia|lia|done].
    inversion Hdl; subst. unfold digit in *. intros [= ->]. lia.
  - right. exists v, [13; 0]. split_and!; [| |done|lia|lia|done].
    + destruct (decimal v) as [|d ds]; [done|]. inversion Hd; subst. unfold digit in *. intros [= ->]. lia.
    + rewrite <- app_assoc. cbn [app]. rewrite digit_first; [by rewrite Hval|done|done|by apply not_digit; right|]. rewrite Hval. unfold LLONG_MAX. lia.
Qed.

(** ** Arguments and commands *)

Definition arg_ok (a : list byte) : Prop := Z.of_nat (length a) < 2 ^ 62.

Lemma fread_app a r : fread (Z.of_nat (length a)) (a ++ r) = Some (a, r).
Proof. unfold fread. rewrite length_app, (proj2 (Z.leb_le _ _)) by lia. by rewrite Nat2Z.id, take_app_length, drop_app_length. Qed.

Lemma fread_short n file : Z.of_nat (length file) < n -> fread n file = None.
Proof. intros Hn. unfold fread. by rewrite (proj2 (Z.leb_gt _ _) Hn). Qed.

Lemma sds_alloc_ok len : len < 2 ^ 62 -> sds_alloc len = Some tt.
Proof. intros Hl. unfold sds_alloc. rewrite (proj2 (Z.leb_le _ _)); [done|]. unfold ULLONG_MAX. lia. Qed.

Lemma load_arg_full a r : arg_ok a -> load_arg (bulk a ++ r) = Got (a, r).
Proof.
  intros Ha. unfold arg_ok in Ha. unfold bulk. cbn [app]. rewrite <- !app_assoc. unfold load_arg. rewrite header_full by lia || done. cbn [at_end rbind].
  rewrite number_full by lia. cbn [defined rbind]. rewrite uwrap_small by lia. rewrite sds_alloc_ok by done. cbn [defined rbind].
  assert ((if Z.of_nat (length a) =? 0 then Got ([], a ++ CRLF ++ r) else at_end (fread (Z.of_nat (length a)) (a ++ CRLF ++ r))) = Got (a, CRLF ++ r)) as ->.
  { destruct (Z.eqb_spec (Z.of_nat (length a)) 0) as [E|E]; [destruct a; [done|cbn in E; lia]|]. by rewrite fread_app. }
  cbn [rbind]. change 2 with (Z.of_nat (length CRLF)). by rewrite fread_app.
Qed.

Lemma load_arg_cut a p : arg_ok a -> cut p (bulk a) -> load_arg p = ReadErr true.
Proof.
  intros Ha Hc. unfold arg_ok in Ha. destruct p as [|x p']; [done|]. set (p := x :: p') in *. assert (p <> []) as Hne by done. clearbody p. clear x p'. unfold bulk in Hc. 
  replace (36 :: decimal (Z.of_nat (length a)) ++ CRLF ++ a ++ CRLF) with ((36 :: decimal (Z.of_nat (length a)) ++ CRLF) ++ a ++ CRLF) in Hc by (cbn; by rewrite <- !app_assoc).
  apply cut_app in Hc as [Hc|(q & -> & Hq)].
  - destruct (header_cut 36 (Z.of_nat (length a)) p) as (l & -> & Hf & _ & _ & Hcase); [lia|done|done|done|]. unfold load_arg. rewrite Hf. cbn [at_end rbind]. destruct Hcase as [->|(w & e & _ & -> & _ & Hw & _)]; [by vm_compute|].
    cbn [defined rbind]. rewrite uwrap_small, sds_alloc_ok by lia. cbn [defined rbind]. destruct (Z.eqb_spec w 0); [done|]. by rewrite fread_short by (cbn; lia).
  - cbn [app]. rewrite <- app_assoc. unfold load_arg. rewrite header_full by lia || done. cbn [at_end rbind]. rewrite number_full by lia. cbn [defined rbind]. rewrite uwrap_small, sds_alloc_ok by lia. cbn [defined rbind].
    assert (forall q, cut q CRLF -> fread 2 q = None) as Hshort by (intros q' Hq'%cut_short; apply fread_short; cbn in Hq'; lia).
    apply cut_app in Hq as [Hq|(q' & -> & Hq')].
    + apply cut_short in Hq as Hlen. destruct (Z.eqb_spec (Z.of_nat (length a)) 0); [lia|]. by rewrite fread_short by lia.
    + destruct (Z.eqb_spec (Z.of_nat (length a)) 0) as [E|E]; [destruct a; [|cbn in E; lia]; cbn [app rbind]; by rewrite Hshort|]. rewrite fread_app. cbn [at_end rbind]. by rewrite Hshort.
Qed.

Lemma load_args_full args r : Forall arg_ok args -> load_args (length args) (bulks args ++ r) = Got (args, r).
Proof. induction 1 as [|a args Ha _ IH]; [done|]. cbn [length load_args]. rewrite bulks_cons, <- app_assoc, load_arg_full by done. cbn [rbind]. by rewrite IH. Qed.

Lemma load_args_cut args p : Forall arg_ok args -> cut p (bulks args) -> load_args (length args) p = ReadErr true.
Proof.
  intros Ha. revert p. induction Ha as [|a args Ha _ IH]; intros p Hc; [apply cut_short in Hc; cbn in Hc; lia|]. cbn [length load_args]. rewrite bulks_cons in Hc.
  apply cut_app in Hc as [Hc|(q & -> & Hq)]; [by rewrite (load_arg_cut a)|]. rewrite load_arg_full by done. cbn [rbind]. by rewrite IH.
Qed.

Definition argv_ok (argv : list (list byte)) : Prop := argv <> [] /\ Z.of_nat (length argv) < 2 ^ 31 /\ Forall arg_ok argv.

Lemma request_split argv : request argv = (42 :: decimal (Z.of_nat (length argv)) ++ CRLF) ++ bulks argv.
Proof. unfold request. cbn. by rewrite <- app_assoc. Qed.

Lemma argv_header n file : (1 <= n)%nat -> Z.of_nat n < 2 ^ 31 -> load_argv (42 :: decimal (Z.of_nat n) ++ CRLF) file = load_args n file.
Proof.
  intros Hn Hlen. unfold load_argv. destruct (decimal_digits (Z.of_nat n) ltac:(lia)) as (Hd & Hdne & _). rewrite bool_decide_eq_false_2.
  2:{ destruct (decimal (Z.of_nat n)) as [|d ds]; [done|]. inversion Hd; subst. unfold digit in *. intros [= ->]. lia. }
  rewrite number_full by lia. cbn [defined rbind]. rewrite swrap_small by (unfold in_s; lia). rewrite (proj2 (Z.ltb_ge _ _)) by lia. by rewrite Nat2Z.id.
Qed.

Lemma load_command_full argv r : argv_ok argv -> exists line file, fgets 128 (request argv ++ r) = Some (line, file) /\ load_argv line file = Got (argv, r).
Proof.
  intros (Hne & Hlen & Hargs). assert (1 <= length argv)%nat by (destruct argv; [done|cbn; lia]). eexists _, _. rewrite request_split, <- app_assoc. cbn [app]. rewrite <- app_assoc, header_full by lia || done. split; [done|].
  rewrite argv_header by lia. by apply load_args_full.
Qed.

Lemma load_command_cut argv p : argv_ok argv -> p <> [] -> cut p (request argv) -> exists line file, fgets 128 p = Some (line, file) /\ load_argv line file = ReadErr true.
Proof.
  intros (Hne & Hlen & Hargs) Hp Hc. assert (1 <= length argv)%nat by (destruct argv; [done|cbn; lia]). rewrite request_split in Hc. apply cut_app in Hc as [Hc|(q & -> & Hq)].
  - destruct (header_cut 42 (Z.of_nat (length argv)) p) as (l & -> & Hf & Hnl & Hlen2 & Hcase); [lia|done|done|done|]. eexists _, _. split; [done|]. unfold load_argv. destruct Hcase as [->|(w & e & Hh & -> & _ & Hw & Hw1)]; [done|].
    rewrite bool_decide_eq_false_2 by done. cbn [defined rbind]. rewrite swrap_small by (unfold in_s; lia). rewrite (proj2 (Z.ltb_ge _ _)) by lia. destruct (Z.to_nat w) eqn:E; [lia|]. done.
  - eexists _, _. cbn [app]. rewrite <- app_assoc, header_full by lia || done. split; [done|]. rewrite argv_header by lia. by apply load_args_cut.
Qed.

(** ** The loop *)

Lemma request_pos argv : (0 < length (request argv))%nat.
Proof. cbn. lia. Qed.

Section loop.
Context {data : Type} (apply : data -> Z -> list (list byte) -> data) (known : list byte -> bool) (dbnum : Z).
Local Abbreviation run_argv := (run_argv apply known dbnum).

Fixpoint run_all (f : fake) (R : list (list (list byte))) : option (fake (data := data)) :=
  match R with [] => Some f | argv :: R => f ← run_argv f argv; run_all f R end.

Lemma run_all_app R1 R2 : forall f, run_all f (R1 ++ R2) = f' ← run_all f R1; run_all f' R2.
Proof. induction R1 as [|c R1 IH]; intros f; [done|]. cbn [app run_all]. destruct (run_argv f c); [apply IH|done]. Qed.

(** The two offsets after the commands [R], which start at [pos]. *)
Fixpoint offsets (truncated : bool) (pos u m : Z) (R : list (list (list byte))) : Z * Z :=
  match R with
  | [] => (u, m)
  | argv :: R =>
      let next := pos + Z.of_nat (length (request argv)) in
      offsets truncated next (if truncated then next else u) (if named (bytes_of "multi") argv then u else m) R
  end.

Lemma offsets_app truncated R1 R2 : forall pos u m, offsets truncated pos u m (R1 ++ R2) =
  offsets truncated (pos + Z.of_nat (length (requests R1))) (offsets truncated pos u m R1).1 (offsets truncated pos u m R1).2 R2.
Proof.
  induction R1 as [|c R1 IH]; intros pos u m; cbn [app offsets fst snd]; [cbn; by rewrite Z.add_0_r|]. rewrite IH, requests_cons, length_app. f_equal. lia.
Qed.

(** The last offset is the end of the commands. *)
Lemma offsets_end R : forall pos u m, u = pos -> (offsets true pos u m R).1 = pos + Z.of_nat (length (requests R)).
Proof.
  induction R as [|c R IH]; intros pos u m Hu; cbn [offsets fst]; [cbn; lia|]. rewrite IH by done. rewrite requests_cons, length_app. lia.
Qed.

Lemma loop_run truncated size R : forall fuel f f' p u m, Forall argv_ok R -> run_all f R = Some f' -> (length (requests R ++ p) < fuel)%nat ->
  Z.of_nat (length (requests R ++ p)) <= size -> exists fuel', (length p < fuel')%nat /\
  load_loop apply known dbnum fuel truncated size f (requests R ++ p) u m =
    load_loop apply known dbnum fuel' truncated size f' p (offsets truncated (size - Z.of_nat (length (requests R ++ p))) u m R).1 (offsets truncated (size - Z.of_nat (length (requests R ++ p))) u m R).2.
Proof.
  induction R as [|argv R IH]; intros fuel f f' p u m Hok Hr Hfuel Hs; cbn [offsets fst snd].
  - cbn in Hr. injection Hr as <-. exists fuel. by split.
  - inversion Hok as [|? ? Ha HR]; subst. cbn [run_all] in Hr. apply bind_Some in Hr as (f1 & E1 & Hr). rewrite requests_cons, <- app_assoc in *. rewrite length_app in Hfuel, Hs. pose proof (request_pos argv).
    destruct fuel as [|fuel]; [lia|]. destruct (load_command_full argv (requests R ++ p) Ha) as (line & file & Hg & Hl). cbn [load_loop]. rewrite Hg, Hl, E1.
    destruct (IH fuel f1 f' p (if truncated then size - Z.of_nat (length (requests R ++ p)) else u) (if named (bytes_of "multi") argv then u else m) HR Hr) as (fuel' & Hf' & ->); [lia|lia|].
    exists fuel'. split; [done|]. replace (size - Z.of_nat (length (request argv ++ requests R ++ p)) + Z.of_nat (length (request argv))) with (size - Z.of_nat (length (requests R ++ p))) by (rewrite !length_app; lia).
    done.
Qed.

(** At the end, or at a command that is cut. *)
Lemma loop_end truncated size fuel f argv p u m : argv_ok argv -> cut p (request argv) -> (length p < fuel)%nat ->
  load_loop apply known dbnum fuel truncated size f p u m = if bool_decide (p = []) then AtEof f u m else AtError true f u m.
Proof.
  intros Ha Hc Hf. destruct fuel as [|fuel]; [lia|]. destruct (bool_decide_reflect (p = [])) as [->|Hne]; [done|]. destruct (load_command_cut argv p Ha Hne Hc) as (line & file & Hg & Hl). cbn [load_loop]. by rewrite Hg, Hl.
Qed.
End loop.

(** ** Logs *)

(** A log: single commands and transactions. *)
Inductive item := Single (argv : list (list byte)) | Tx (body : list (list (list byte))).

Definition MULTI : list (list byte) := [bytes_of "MULTI"].
Definition EXEC : list (list byte) := [bytes_of "EXEC"].

Definition flat (i : item) : list (list (list byte)) := match i with Single argv => [argv] | Tx body => MULTI :: body ++ [EXEC] end.
Definition body_of (i : item) : list (list (list byte)) := match i with Single argv => [argv] | Tx body => body end.
Definition flats (L : list item) : list (list (list byte)) := L ≫= flat.
Definition log_commands (L : list item) : list (list (list byte)) := L ≫= body_of.

Lemma flats_app L1 L2 : flats (L1 ++ L2) = flats L1 ++ flats L2.
Proof. apply bind_app. Qed.

Lemma flats_cons i L : flats (i :: L) = flat i ++ flats L.
Proof. done. Qed.

(** Where a sequence of commands of the log ends: after whole items and the first
    commands of the next one. *)
Lemma flats_split L R1 c R2 : flats L = R1 ++ c :: R2 -> exists L1 i L2 part rest, L = L1 ++ i :: L2 /\ R1 = flats L1 ++ part /\ flat i = part ++ c :: rest.
Proof.
  revert R1. induction L as [|i L IH]; intros R1 E; [by destruct R1|]. rewrite flats_cons in E.
  destruct (decide (length R1 < length (flat i))%nat) as [Hlt|Hge].
  - exists [], i, L, R1. assert (flat i = R1 ++ drop (length R1) (flat i)) as Ef.
    { rewrite <- (take_drop (length R1) (flat i)) at 1. f_equal. apply (f_equal (take (length R1))) in E. rewrite take_app_length, take_app_le in E by lia. done. }
    rewrite Ef, <- app_assoc in E. apply app_inv_head in E. destruct (drop (length R1) (flat i)) as [|c' rest] eqn:Ed; [apply (f_equal length) in Ed; rewrite length_drop in Ed; cbn in Ed; lia|].
    cbn in E. injection E as -> _. exists rest. done.
  - assert (R1 = flat i ++ drop (length (flat i)) R1) as Er.
    { rewrite <- (take_drop (length (flat i)) R1) at 1. f_equal. apply (f_equal (take (length (flat i)))) in E. rewrite take_app_length, take_app_le in E by lia. done. }
    rewrite Er, <- app_assoc in E. apply app_inv_head in E. destruct (IH _ E) as (L1 & i' & L2 & part & rest & -> & Ep & Ef). exists (i :: L1), i', L2, part, rest. rewrite Er, Ep, flats_cons, app_assoc. done.
Qed.

(** The start of an item: nothing yet, or a transaction that is open. *)
Lemma flat_start i part c rest : flat i = part ++ c :: rest -> part = [] \/ exists body body1 body2, i = Tx body /\ part = MULTI :: body1 /\ body = body1 ++ body2.
Proof.
  destruct part as [|m part]; [by left|]. destruct i as [argv|body]; cbn; [intros [= _ E]; by destruct part|]. intros [= <- E]. right.
  destruct (exists_last (l := c :: rest)) as (r & x & Er); [done|]. rewrite Er, app_assoc in E. apply app_inj_tail in E as [E _]. by exists body, part, r.
Qed.

(** A file that is cut somewhere. *)
Lemma requests_cut R F : F `prefix_of` requests R -> F = requests R \/ exists R1 c R2 p, R = R1 ++ c :: R2 /\ F = requests R1 ++ p /\ cut p (request c).
Proof.
  intros [->|Hc]%prefix_cut; [by left|right]. revert F Hc. induction R as [|c R IH]; intros F Hc; [apply cut_short in Hc; cbn in Hc; lia|]. rewrite requests_cons in Hc.
  apply cut_app in Hc as [Hc|(q & -> & Hq)]; [by exists [], c, R, F|]. destruct (IH q Hq) as (R1 & c' & R2 & p & -> & -> & Hp). exists (c :: R1), c', R2, p. rewrite requests_cons, app_assoc. done.
Qed.

Section logs.
Context {data : Type} (apply : data -> Z -> list (list byte) -> data) (known : list byte -> bool) (dbnum : Z).
Context (Hmulti : known (bytes_of "MULTI") = true) (Hexec : known (bytes_of "EXEC") = true).
Local Abbreviation run_proc := (run_proc (data := data) apply dbnum).
Local Abbreviation run_all := (run_all (data := data) apply known dbnum).
Local Abbreviation run_argv := (run_argv (data := data) apply known dbnum).

(** An ordinary command. *)
Record plain (argv : list (list byte)) : Prop := {
  pl_ok : argv_ok argv;
  pl_name : Forall (fun c => c <> 0) (hd [] argv);
  pl_known : match argv with name :: _ => known name = true | [] => False end;
  pl_multi : named (bytes_of "multi") argv = false;
  pl_exec : named (bytes_of "exec") argv = false;
  pl_db n : selected argv = Some n -> 0 <= n < dbnum
}.

Definition item_ok (i : item) : Prop := Forall plain (body_of i).

Lemma flat_argv_ok i : item_ok i -> Forall argv_ok (flat i).
Proof.
  assert (argv_ok MULTI /\ argv_ok EXEC) as [Hm He] by (split; repeat constructor; done). intros Hi. assert (Forall argv_ok (body_of i)) as Hb by (eapply Forall_impl; [exact Hi|]; by intros ? []).
  destruct i as [argv|body]; [done|]. cbn. constructor; [done|]. apply Forall_app. split; [done|by constructor].
Qed.

Lemma flats_argv_ok L : Forall item_ok L -> Forall argv_ok (flats L).
Proof. induction 1 as [|i L Hi _ IH]; [constructor|]. rewrite flats_cons. apply Forall_app. split; [by apply flat_argv_ok|done]. Qed.

(** The data after commands, each in its database. *)
Definition run_commands (db : Z) (cmds : list (list (list byte))) (d : data) : data := fold_left (fun d c => apply d c.1 c.2) (replay db cmds) d.

Lemma run_commands_app db c1 c2 d : run_commands db (c1 ++ c2) d = run_commands (last_db db c1) c2 (run_commands db c1 d).
Proof. unfold run_commands. by rewrite replay_app, fold_left_app. Qed.

Lemma procs_run cmds : Forall plain cmds -> forall f, fold_left run_proc cmds f = mkFake (fk_multi f) (fk_queue f) (last_db (fk_db f) cmds) (run_commands (fk_db f) cmds (fk_data f)).
Proof.
  induction 1 as [|c cmds Hc _ IH]; intros f; [by destruct f|]. cbn [fold_left last_db]. rewrite IH. unfold run_commands. cbn [replay]. unfold AofLoad.run_proc. rewrite (pl_multi _ Hc).
  destruct (selected c) as [n|] eqn:E; [|done]. pose proof (pl_db _ Hc n E). rewrite (proj2 (Z.leb_le _ _)), (proj2 (Z.ltb_lt _ _)) by lia. done.
Qed.

Lemma run_plain f argv : plain argv -> run_argv f argv = Some (if fk_multi f then mkFake true (fk_queue f ++ [argv]) (fk_db f) (fk_data f) else run_proc f argv).
Proof.
  intros Hp. pose proof (pl_known _ Hp) as Hk. unfold AofLoad.run_argv. destruct argv as [|name args]; [done|]. rewrite Hk, (pl_multi _ Hp), (pl_exec _ Hp). cbn [negb]. rewrite andb_true_r. by destruct (fk_multi f).
Qed.

Lemma run_queue body : Forall plain body -> forall q db d, run_all (mkFake true q db d) body = Some (mkFake true (q ++ body) db d).
Proof.
  induction 1 as [|c body Hc _ IH]; intros q db d; cbn [AofLoad.run_all]; [by rewrite app_nil_r|]. rewrite run_plain by done. cbn [fk_multi fk_queue fk_db fk_data mbind option_bind]. by rewrite IH, <- app_assoc.
Qed.

Lemma run_MULTI q db d : run_argv (mkFake false q db d) MULTI = Some (mkFake true q db d).
Proof. unfold AofLoad.run_argv, MULTI. rewrite Hmulti. done. Qed.

Lemma run_EXEC q db d : run_argv (mkFake true q db d) EXEC = Some (exec_queued apply dbnum (mkFake true q db d)).
Proof. unfold AofLoad.run_argv, EXEC. rewrite Hexec. done. Qed.

Lemma run_open body db d : Forall plain body -> run_all (mkFake false [] db d) (MULTI :: body) = Some (mkFake true body db d).
Proof. intros Hb. cbn [AofLoad.run_all]. rewrite run_MULTI. cbn [mbind option_bind]. by rewrite run_queue. Qed.

Lemma run_item i db d : item_ok i -> run_all (mkFake false [] db d) (flat i) = Some (mkFake false [] (last_db db (body_of i)) (run_commands db (body_of i) d)).
Proof.
  intros Hi. destruct i as [argv|body]; cbn [flat body_of].
  - inversion Hi; subst. cbn [AofLoad.run_all]. rewrite run_plain by done. cbn [fk_multi mbind option_bind]. f_equal. by apply (procs_run [argv]).
  - rewrite app_comm_cons, run_all_app, run_open by done. cbn [mbind option_bind AofLoad.run_all]. rewrite run_EXEC. cbn [mbind option_bind]. f_equal.
    unfold exec_queued. cbn [fk_multi negb fk_queue]. by rewrite procs_run.
Qed.

Lemma run_flats L : Forall item_ok L -> forall db d, run_all (mkFake false [] db d) (flats L) = Some (mkFake false [] (last_db db (log_commands L)) (run_commands db (log_commands L) d)).
Proof.
  induction 1 as [|i L Hi _ IH]; intros db d; [done|]. rewrite flats_cons, run_all_app, run_item by done. cbn [mbind option_bind]. rewrite IH. unfold log_commands. cbn [mbind list_bind]. by rewrite last_db_app, run_commands_app.
Qed.
End logs.

(** ** Loading *)

Section theorems.
Context {data : Type} (apply : data -> Z -> list (list byte) -> data) (known : list byte -> bool) (dbnum : Z).
Context (preamble : data -> list byte -> option (data * list byte)).
Context (Hmulti : known (bytes_of "MULTI") = true) (Hexec : known (bytes_of "EXEC") = true).
Local Abbreviation load := (loadAppendOnlyFile apply known dbnum preamble).
Local Abbreviation item_ok := (item_ok known dbnum).
Local Abbreviation plain := (plain known dbnum).

Lemma no_preamble F R : F <> [] -> F `prefix_of` requests R -> take 5 F <> bytes_of "REDIS".
Proof.
  intros Hne [k E]. destruct F as [|x F]; [done|]. destruct R as [|c R]; [done|]. rewrite requests_cons in E. unfold request in E. cbn [app] in E. injection E as <- _. cbn. by intros [=].
Qed.

Lemma offsets_body body : Forall plain body -> forall pos u m, (offsets true pos u m body).2 = m.
Proof. induction 1 as [|c body Hc _ IH]; intros pos u m; [done|]. cbn [offsets]. rewrite IH. by rewrite (pl_multi _ _ _ Hc). Qed.

(** The whole load, when the file ends in or before the command [c]. *)
Lemma load_split d R1 f c p truncated : Forall argv_ok R1 -> argv_ok c -> run_all apply known dbnum (mkFake false [] 0 d) R1 = Some f -> cut p (request c) -> requests R1 ++ p <> [] ->
  load truncated true true d (requests R1 ++ p) =
    if bool_decide (p = []) then
      if fk_multi f then unexpected_eof truncated true true f (requests R1 ++ p) (offsets truncated 0 0 0 R1).2 else Loaded (fk_data f) (requests R1 ++ p)
    else unexpected_eof truncated true true f (requests R1 ++ p) (offsets truncated 0 0 0 R1).1.
Proof.
  intros HR Hc Hrun Hcut Hne. unfold loadAppendOnlyFile. destruct (requests R1 ++ p) as [|x l] eqn:EF; [done|]. rewrite <- EF in *. rewrite bool_decide_eq_false_2.
  2:{ apply (no_preamble _ (R1 ++ [c])); [done|]. rewrite requests_app. apply prefix_app. destruct Hcut as (k & _ & E). exists k. by rewrite requests_cons, app_nil_r. }
  destruct (loop_run apply known dbnum truncated (Z.of_nat (length (requests R1 ++ p))) R1 (S (length (requests R1 ++ p))) _ f p 0 0 HR Hrun) as (fuel & Hfuel & ->); [lia|lia|].
  rewrite Z.sub_diag, (loop_end apply known dbnum truncated _ fuel f c p) by done. by destruct (bool_decide (p = [])).
Qed.

Lemma take_requests R p : take (Z.to_nat (Z.of_nat (length (requests R)))) (requests R ++ p) = requests R.
Proof. by rewrite Nat2Z.id, take_app_length. Qed.

(** What is left of the log [L] in the file [F], and what the loader leaves in it. *)
Inductive remains (L : list item) (F : list byte) : list item -> list (list (list byte)) -> Prop :=
  | remains_all : F = requests (flats L) -> remains L F L []
  | remains_item L1 i L2 p : L = L1 ++ i :: L2 -> F = requests (flats L1) ++ p -> cut p (request (hd [] (flat i))) -> remains L F L1 []
  | remains_open L1 body body1 body2 L2 : L = L1 ++ Tx body :: L2 -> body = body1 ++ body2 -> F = requests (flats L1 ++ MULTI :: body1) -> remains L F L1 []
  | remains_broken L1 body body1 body2 L2 c p : L = L1 ++ Tx body :: L2 -> body ++ [EXEC] = body1 ++ c :: body2 -> F = requests (flats L1 ++ MULTI :: body1) ++ p -> p <> [] -> cut p (request c) ->
      remains L F L1 (MULTI :: body1).

Lemma prefix_remains L F : F `prefix_of` requests (flats L) -> exists L1 open, remains L F L1 open.
Proof.
  intros [->|(R1 & c & R2 & p & E & -> & Hc)]%requests_cut; [eexists _, _; by apply remains_all|]. destruct (flats_split _ _ _ _ E) as (L1 & i & L2 & part & rest & -> & -> & Ei).
  destruct (flat_start _ _ _ _ Ei) as [->|(body & body1 & body2 & -> & -> & ->)].
  - eexists _, _. apply (remains_item _ _ L1 i L2 p); [done|by rewrite app_nil_r|]. by rewrite Ei.
  - destruct (decide (p = [])) as [->|Hp].
    + eexists _, _. rewrite app_nil_r. by apply (remains_open _ _ L1 (body1 ++ body2) body1 body2 L2).
    + eexists _, _. apply (remains_broken _ _ L1 (body1 ++ body2) body1 rest L2 c p); try done. cbn in Ei. by injection Ei.
Qed.

Lemma remains_prefix L F L1 open : remains L F L1 open -> L1 `prefix_of` L.
Proof. intros []; subst; [done|by apply prefix_app_r..]. Qed.

(** The file holds the items [L1] and not the whole next one. *)
Lemma remains_longest L F L1 open : remains L F L1 open -> requests (flats L1) `prefix_of` F /\
  forall L2, L2 `prefix_of` L -> (length (requests (flats L2)) <= length F)%nat -> L2 `prefix_of` L1.
Proof.
  assert (forall L1 i L2 n, (n < length (requests (flats L1 ++ flat i)))%nat -> forall L3, L3 `prefix_of` L1 ++ i :: L2 -> (length (requests (flats L3)) <= n)%nat -> L3 `prefix_of` L1) as Hmax.
  { intros M1 i M2 n Hn L3 Hp Hl. destruct (prefix_weak_total L3 M1 (M1 ++ i :: M2) Hp) as [?|[k Ek]]; [by apply prefix_app_r|done|]. destruct k as [|x k]; [rewrite app_nil_r in Ek; by subst|].
    subst L3. destruct Hp as [k' Ek']. rewrite <- app_assoc in Ek'. apply app_inv_head in Ek'. cbn in Ek'. injection Ek' as <- _. rewrite flats_app, flats_cons, app_assoc, requests_app, length_app in Hl. lia. }
  intros [->|M1 i M2 p -> -> Hc|M1 body body1 body2 M2 -> -> ->|M1 body body1 body2 M2 c p -> E -> Hp Hc].
  - split; [done|]. intros L2 Hp _. done.
  - split; [by apply prefix_app_r|]. apply Hmax. rewrite requests_app, !length_app. apply cut_short in Hc. assert (flat i = hd [] (flat i) :: tl (flat i)) as -> by (by destruct i). rewrite requests_cons, length_app. lia.
  - split; [rewrite requests_app; by apply prefix_app_r|]. apply Hmax. cbn [flat]. rewrite <- app_assoc, app_comm_cons, app_assoc, (requests_app (_ ++ _)), length_app. cbn [body_of]. pose proof (request_pos EXEC).
    assert (0 < length (requests (body2 ++ [EXEC])))%nat by (rewrite requests_app, length_app, requests_cons, length_app; lia). lia.
  - split; [rewrite requests_app, <- app_assoc; by apply prefix_app_r|]. apply Hmax. cbn [flat]. rewrite E, app_comm_cons, app_assoc, (requests_app (_ ++ _) (c :: _)), !length_app, requests_cons, length_app. apply cut_short in Hc. lia.
Qed.

Lemma load_remains truncated L F L1 open d : Forall item_ok L -> F <> [] -> remains L F L1 open ->
  load truncated true true d F = if truncated || bool_decide (F = requests (flats L1)) then Loaded (run_commands apply 0 (log_commands L1) d) (requests (flats L1 ++ open)) else LoadExits.
Proof.
  intros HL Hne Hrem. assert (Forall item_ok L1) as HL1 by (destruct (remains_prefix _ _ _ _ Hrem) as [k ->]; by apply Forall_app in HL as [? _]).
  pose proof (flats_argv_ok _ _ _ HL1) as Hok1. pose proof (run_flats apply known dbnum Hmulti Hexec L1 HL1 0 d) as Hrun1. assert (argv_ok MULTI) as HM by (repeat constructor; done).
  assert ((offsets true 0 0 0 (flats L1)).1 = Z.of_nat (length (requests (flats L1)))) as Ho by by rewrite offsets_end.
  assert (forall R p, R <> [] \/ p <> [] -> requests (flats L1 ++ R) ++ p <> requests (flats L1)) as Hlonger.
  { intros R p Hn E. rewrite requests_app, <- app_assoc in E. apply (f_equal (drop (length (requests (flats L1))))) in E. rewrite drop_app_length, drop_all in E. apply app_eq_nil in E as [ER ->]. destruct R; [by destruct Hn|]. rewrite requests_cons in ER. by apply app_eq_nil in ER as [? _]. }
  destruct Hrem as [->|M1 i M2 p -> -> Hc|M1 body body1 body2 M2 -> -> ->|M1 body body1 body2 M2 c p -> E -> Hp Hc].
  - pose proof (load_split d (flats L) _ MULTI [] truncated Hok1 HM Hrun1) as Hl. rewrite app_nil_r in Hl. rewrite Hl; [by rewrite (bool_decide_eq_true_2 (requests _ = _)), orb_true_r, app_nil_r by done|by exists (request MULTI)|done].
  - rewrite (load_split d (flats M1) _ (hd [] (flat i)) p truncated Hok1) by (done || (apply Forall_app in HL as [_ [Hi%flat_argv_ok _]%Forall_cons]; by destruct i; inversion Hi)). rewrite app_nil_r.
    destruct (bool_decide_reflect (p = [])) as [->|Hp]; [cbn [fk_multi]; rewrite app_nil_r; by rewrite (bool_decide_eq_true_2 (requests _ = _)), orb_true_r by done|].
    rewrite (bool_decide_eq_false_2 (requests _ ++ p = _)) by (pose proof (Hlonger [] p (or_intror Hp)) as Hn; by rewrite app_nil_r in Hn). unfold unexpected_eof. destruct truncated; [|done]. cbn [andb orb]. by rewrite Ho, take_requests.
  - apply Forall_app in HL as [_ [Hb _]%Forall_cons]. apply Forall_app in Hb as [Hb _]. rewrite (bool_decide_eq_false_2 (requests (_ ++ _) = _)) by (pose proof (Hlonger (MULTI :: body1) [] ltac:(by left)) as Hn; by rewrite app_nil_r in Hn).
    pose proof (load_split d (flats M1 ++ MULTI :: body1) (mkFake true body1 (last_db 0 (log_commands M1)) (run_commands apply 0 (log_commands M1) d)) MULTI [] truncated) as Hl. rewrite app_nil_r in Hl. rewrite Hl; try done.
    + cbn [fk_multi]. rewrite bool_decide_eq_true_2 by done. unfold unexpected_eof. destruct truncated; [|done]. cbn [andb orb]. rewrite offsets_app, Ho. cbn [offsets]. rewrite offsets_body by done. rewrite requests_app, app_nil_r. change (named (bytes_of "multi") MULTI) with true. cbn iota. by rewrite take_requests.
    + apply Forall_app. split; [done|]. constructor; [done|]. eapply Forall_impl; [exact Hb|]. by intros ? [].
    + rewrite run_all_app, Hrun1. cbn [mbind option_bind]. by apply run_open.
    + by exists (request MULTI).
  - apply Forall_app in HL as [_ [Hb _]%Forall_cons]. pose proof (flat_argv_ok _ _ _ Hb) as Hflat. cbn [flat] in Hflat. rewrite E in Hflat. apply Forall_cons in Hflat as [_ [Hok [Hokc _]%Forall_cons]%Forall_app].
    assert (Forall plain body1) as Hb1.
    { destruct (exists_last (l := c :: body2)) as (r & x & Er); [done|]. rewrite Er, app_assoc in E. apply app_inj_tail in E as [-> _]. by apply Forall_app in Hb as [? _]. }
    rewrite (bool_decide_eq_false_2 (_ ++ p = _)) by (apply Hlonger; by right). rewrite (load_split d (flats M1 ++ MULTI :: body1) (mkFake true body1 (last_db 0 (log_commands M1)) (run_commands apply 0 (log_commands M1) d)) c p truncated); try done.
    + rewrite bool_decide_eq_false_2 by done. unfold unexpected_eof. destruct truncated; [|done]. cbn [andb orb fk_data]. by rewrite offsets_end, Z.add_0_l, take_requests by done.
    + apply Forall_app. split; [done|]. by constructor.
    + rewrite run_all_app, Hrun1. cbn [mbind option_bind]. by apply run_open.
Qed.

(** C26: A truncated append only file.  However a log of commands and transactions is
    cut, with aof-load-truncated the loader runs exactly the commands and the whole
    transactions that the file still holds, and removes the rest: the file it leaves
    is the log of what was run.  There is one exception: when the cut is inside a
    command of a transaction, the file ends with the transaction's first commands
    and without EXEC. *)
Theorem aof_truncated_load L F d : Forall item_ok L -> F <> [] -> F `prefix_of` requests (flats L) -> exists L1 open, remains L F L1 open /\
  load true true true d F = Loaded (run_commands apply 0 (log_commands L1) d) (requests (flats L1 ++ open)) /\
  L1 `prefix_of` L /\ (forall L2, L2 `prefix_of` L -> (length (requests (flats L2)) <= length F)%nat <-> L2 `prefix_of` L1).
Proof.
  intros HL Hne Hp. destruct (prefix_remains L F Hp) as (L1 & open & Hrem). exists L1, open. pose proof (remains_prefix _ _ _ _ Hrem) as Hpre. destruct (remains_longest _ _ _ _ Hrem) as [Hin Hmax].
  split_and!; [done| |done|].
  2:{ intros L2 Hp2. split; [by apply Hmax|]. intros [k ->]. apply prefix_length in Hin. rewrite flats_app, requests_app, length_app in Hin. lia. }
  by apply (load_remains true L).
Qed.

(** The append only file and the data.  A log of commands and transactions, as
    requests in a file, is loaded completely, each command in its database and those
    of a transaction too, and the file is left as it is, whether aof-load-truncated
    is set or not; without it, a log that is cut in a command or in a transaction is
    refused. *)
Theorem aof_strict_load L F d : Forall item_ok L -> F <> [] -> F `prefix_of` requests (flats L) ->
  load false true true d F = LoadExits \/ exists L1, L1 `prefix_of` L /\ F = requests (flats L1) /\
  forall truncated, load truncated true true d F = Loaded (run_commands apply 0 (log_commands L1) d) F.
Proof.
  intros HL Hne Hp. assert (forall L1, L1 `prefix_of` L -> F = requests (flats L1) -> forall truncated, load truncated true true d F = Loaded (run_commands apply 0 (log_commands L1) d) F) as Hwhole.
  { intros L1 [k ->] EF truncated. apply Forall_app in HL as [HL1 _]. assert (argv_ok MULTI) as HM by (repeat constructor; done).
    pose proof (load_split d (flats L1) _ MULTI [] truncated (flats_argv_ok _ _ _ HL1) HM (run_flats apply known dbnum Hmulti Hexec L1 HL1 0 d)) as Hl. rewrite app_nil_r, <- EF in Hl. apply Hl; [by exists (request MULTI)|done]. }
  destruct (prefix_remains L F Hp) as (L1 & open & Hrem). pose proof (remains_prefix _ _ _ _ Hrem) as Hpre.
  pose proof (load_remains false L F L1 open d HL Hne Hrem) as Hl. destruct (bool_decide_reflect (F = requests (flats L1))) as [EF|]; [|by left]. right. exists L1. split_and!; [done|done|by apply Hwhole].
Qed.

(** A transaction that the loader left without its end takes in what is appended:
    single commands that are appended to the file afterwards are removed, together
    with it, by the next load. *)
Lemma broken_transaction_swallows L1 body1 L2 d : Forall item_ok L1 -> Forall plain body1 -> Forall item_ok L2 -> (forall i, i ∈ L2 -> exists argv, i = Single argv) ->
  load true true true d (requests (flats L1 ++ MULTI :: body1) ++ requests (flats L2)) = Loaded (run_commands apply 0 (log_commands L1) d) (requests (flats L1)).
Proof.
  intros H1 Hb H2 Hs. assert (flats L2 = log_commands L2 /\ Forall plain (log_commands L2)) as [E Hp].
  { clear - H2 Hs. induction L2 as [|i L2 IH]; [split; [done|constructor]|]. inversion H2 as [|? ? Hi H2']; subst. destruct (Hs i) as [argv ->]; [left|]. destruct IH as [E Hf]; [done|intros j Hj; apply Hs; by right|].
    rewrite flats_cons, E. split; [done|]. by apply Forall_app. }
  rewrite <- requests_app, <- app_assoc, <- app_comm_cons, E. rewrite (load_remains true (L1 ++ [Tx (body1 ++ log_commands L2)]) _ L1 [] d); [by rewrite app_nil_r| | |].
  - apply Forall_app. split; [done|]. constructor; [|done]. by apply Forall_app.
  - rewrite requests_app, requests_cons. intros [_ [??]%app_eq_nil]%app_eq_nil. done.
  - by apply (remains_open _ _ L1 (body1 ++ log_commands L2) (body1 ++ log_commands L2) [] []); rewrite ?app_nil_r.
Qed.
End theorems.

(** ** redis-check-aof *)

(** [strncmp(buf,"\r\n",2) == 0] *)
Definition consumeNewline (buf : list byte) : bool := bool_decide (take 2 buf = CRLF).

(** The number and the rest of the file; [None]: it returns zero. *)
Definition readLong (prefix : byte) (file : list byte) : option (Z * list byte) :=
  match fgets 128 file with
  | Some (c :: l, file) =>
      if c =? prefix then
        match strtoll (l ++ [0]) with Some (v, e) => if consumeNewline e then Some (v, file) else None | None => None end
      else None
  | _ => None
  end.

(** [Got None]: it returns zero.  With a negative length the code reads in front of
    the block, or asks for a block as large as the memory. *)
Definition readString (file : list byte) : read (option (list byte * list byte)) :=
  match readLong 36 file with
  | None => Got None
  | Some (len, file) =>
      if (len <? 0) || (len + 2 >? LLONG_MAX) then Undefined
      else
        match fread (len + 2) file with
        | None => Got None
        | Some (target, file) => if consumeNewline (drop (Z.to_nat len) target) then Got (Some (take (Z.to_nat len) target, file)) else Got None
        end
  end.

(** The loop over the arguments: [None] when it is left early, else the count of
    open transactions and the rest. *)
Fixpoint check_args (n : nat) (first : bool) (multi : Z) (file : list byte) : read (option (Z * list byte)) :=
  match n with
  | O => Got (Some (multi, file))
  | S n =>
      rlet s := readString file in
      match s with
      | None => Got None
      | Some (str, file) =>
          if first && strcaseeq str (bytes_of "multi") then
            if multi =? 0 then check_args n false (multi + 1) file else Got None
          else if first && strcaseeq str (bytes_of "exec") then
            if multi - 1 =? 0 then check_args n false (multi - 1) file else Got None
          else check_args n false multi file
      end
  end.

(** The offset up to which the file is valid. *)
Fixpoint process (fuel : nat) (size pos multi : Z) (file : list byte) : read Z :=
  match fuel with
  | O => Undefined
  | S fuel =>
      let pos := if multi =? 0 then size - Z.of_nat (length file) else pos in
      match readLong 42 file with
      | None => Got pos
      | Some (argc, file) =>
          rlet r := check_args (Z.to_nat argc) true multi file in
          match r with
          | None => Got pos
          | Some (multi, file) => process fuel size pos multi file
          end
      end
  end.

(** How it ends: the status, and the file.  [yes]: the user agrees; [preamble]: what
    follows a dump at the start of the file, if that is sound. *)
Inductive check_outcome := CheckExit (status : Z) (file : list byte) | CheckHangs.

Definition redis_check_aof (preamble : list byte -> option (list byte)) (fix_it yes truncate_ok : bool) (file : list byte) : check_outcome :=
  match file with
  | [] => CheckExit 1 []
  | _ =>
      let size := Z.of_nat (length file) in
      match (if (8 <=? size) && bool_decide (take 5 file = bytes_of "REDIS") then preamble file else Some file) with
      | None => CheckExit 1 file
      | Some rest =>
          match process (S (length rest)) size 0 0 rest with
          | Got pos =>
              if size - pos >? 0 then
                if fix_it && yes && truncate_ok then CheckExit 0 (take (Z.to_nat pos) file) else CheckExit 1 file
              else CheckExit 0 file
          | _ => CheckHangs
          end
      end
  end.

(** ** The checker on a log *)

Lemma readLong_full prefix v r : 0 <= v < 2 ^ 63 -> prefix <> 10 -> readLong prefix (prefix :: decimal v ++ CRLF ++ r) = Some (v, r).
Proof. intros Hv Hp. unfold readLong. rewrite header_full by done. rewrite Z.eqb_refl, number_full by done. done. Qed.

Lemma readLong_cut prefix v p : 0 <= v < 2 ^ 63 -> prefix <> 10 -> cut p (prefix :: decimal v ++ CRLF) -> readLong prefix p = None.
Proof.
  intros Hv Hpre Hc. destruct p as [|x p']; [done|]. destruct (header_cut prefix v (x :: p') Hv Hpre) as (l & E & Hf & _ & _ & Hcase); [done|done|]. injection E as -> ->. unfold readLong. rewrite Hf, Z.eqb_refl.
  destruct Hcase as [->|(w & e & _ & -> & He & _)]; [done|]. unfold consumeNewline. by rewrite bool_decide_eq_false_2.
Qed.

Lemma readString_full a r : arg_ok a -> readString (bulk a ++ r) = Got (Some (a, r)).
Proof.
  intros Ha. unfold arg_ok in Ha. unfold readString, bulk. cbn [app]. rewrite <- !app_assoc, readLong_full by lia || done. rewrite Z.gtb_ltb, (proj2 (Z.ltb_ge _ 0)), (proj2 (Z.ltb_ge LLONG_MAX _)) by (unfold LLONG_MAX; lia). cbn [orb].
  replace (Z.of_nat (length a) + 2) with (Z.of_nat (length (a ++ CRLF))) by (rewrite length_app; cbn; lia). rewrite (app_assoc a), fread_app, Nat2Z.id, drop_app_length, take_app_length. done.
Qed.

Lemma readString_cut a p : arg_ok a -> cut p (bulk a) -> readString p = Got None.
Proof.
  intros Ha Hc. unfold arg_ok in Ha. unfold bulk in Hc. unfold readString.
  replace (36 :: decimal (Z.of_nat (length a)) ++ CRLF ++ a ++ CRLF) with ((36 :: decimal (Z.of_nat (length a)) ++ CRLF) ++ a ++ CRLF) in Hc by (cbn; by rewrite <- !app_assoc).
  apply cut_app in Hc as [Hc|(q & -> & Hq)]; [by rewrite (readLong_cut 36 (Z.of_nat (length a))) by lia || done|]. cbn [app]. rewrite <- app_assoc, readLong_full by lia || done.
  rewrite Z.gtb_ltb, (proj2 (Z.ltb_ge _ 0)), (proj2 (Z.ltb_ge LLONG_MAX _)) by (unfold LLONG_MAX; lia). cbn [orb]. apply cut_short in Hq. rewrite length_app in Hq. cbn in Hq. by rewrite fread_short by lia.
Qed.

Lemma check_rest args r : Forall arg_ok args -> forall multi, check_args (length args) false multi (bulks args ++ r) = Got (Some (multi, r)).
Proof. induction 1 as [|a args Ha _ IH]; intros multi; [done|]. cbn [length check_args]. rewrite bulks_cons, <- app_assoc, readString_full by done. cbn [rbind andb]. by rewrite IH. Qed.

Lemma check_rest_cut args p : Forall arg_ok args -> forall multi, cut p (bulks args) -> check_args (length args) false multi p = Got None.
Proof.
  intros Ha. revert p. induction Ha as [|a args Ha _ IH]; intros p multi Hc; [apply cut_short in Hc; cbn in Hc; lia|]. cbn [length check_args]. rewrite bulks_cons in Hc.
  apply cut_app in Hc as [Hc|(q & -> & Hq)]; [by rewrite (readString_cut a)|]. rewrite readString_full by done. cbn [rbind andb]. by rewrite IH.
Qed.

(** The count of open transactions after a command. *)
Definition counts (argv : list (list byte)) (multi : Z) : option Z :=
  if strcaseeq (hd [] argv) (bytes_of "multi") then if multi =? 0 then Some 1 else None
  else if strcaseeq (hd [] argv) (bytes_of "exec") then if multi =? 1 then Some 0 else None
  else Some multi.

Lemma check_argv argv r multi multi' : argv_ok argv -> counts argv multi = Some multi' -> check_args (length argv) true multi (bulks argv ++ r) = Got (Some (multi', r)).
Proof.
  intros (Hne & _ & Hok) Hc. destruct argv as [|a args]; [done|]. inversion Hok as [|? ? Ha Hargs]; subst. cbn [length check_args]. rewrite bulks_cons, <- app_assoc, readString_full by done. cbn [rbind andb]. unfold counts in Hc. cbn [hd] in Hc.
  destruct (strcaseeq a (bytes_of "multi")); [destruct (Z.eqb_spec multi 0) as [->|]; [|done]; injection Hc as <-; by rewrite check_rest|].
  destruct (strcaseeq a (bytes_of "exec")); [|injection Hc as <-; by rewrite check_rest]. destruct (Z.eqb_spec multi 1) as [->|]; [|done]. injection Hc as <-. by rewrite check_rest.
Qed.

Lemma check_argv_cut argv p multi multi' : argv_ok argv -> counts argv multi = Some multi' -> cut p (bulks argv) -> check_args (length argv) true multi p = Got None.
Proof.
  intros (Hne & _ & Hok) Hc Hp. destruct argv as [|a args]; [done|]. inversion Hok as [|? ? Ha Hargs]; subst. cbn [length check_args]. rewrite bulks_cons in Hp. apply cut_app in Hp as [Hp|(q & -> & Hq)]; [by rewrite (readString_cut a)|].
  rewrite readString_full by done. cbn [rbind andb]. unfold counts in Hc. cbn [hd] in Hc. destruct (strcaseeq a (bytes_of "multi")); [destruct (Z.eqb_spec multi 0) as [->|]; [|done]; by rewrite check_rest_cut|].
  destruct (strcaseeq a (bytes_of "exec")); [|by rewrite check_rest_cut]. destruct (Z.eqb_spec multi 1) as [->|]; [|done]. by rewrite check_rest_cut.
Qed.

Lemma readLong_request argv r : argv_ok argv -> readLong 42 (request argv ++ r) = Some (Z.of_nat (length argv), bulks argv ++ r).
Proof. intros (_ & Hlen & _). rewrite request_split, <- app_assoc. cbn [app]. by rewrite <- app_assoc, readLong_full by lia || done. Qed.

(** The offset and the count after commands. *)
Fixpoint checked (size pos multi : Z) (R : list (list (list byte))) (p : list byte) : option (Z * Z) :=
  match R with
  | [] => Some (pos, multi)
  | argv :: R => m ← counts argv multi; checked size (if multi =? 0 then size - Z.of_nat (length (requests (argv :: R) ++ p)) else pos) m R p
  end.

Lemma process_run size R : forall fuel pos multi p pos' multi', Forall argv_ok R -> checked size pos multi R p = Some (pos', multi') -> (length (requests R ++ p) < fuel)%nat -> exists fuel',
  (length p < fuel')%nat /\ process fuel size pos multi (requests R ++ p) = process fuel' size pos' multi' p.
Proof.
  induction R as [|argv R IH]; intros fuel pos multi p pos' multi' Hok Hc Hfuel; cbn [checked] in Hc; [injection Hc as <- <-; by exists fuel|]. apply bind_Some in Hc as (m & Em & Hc). inversion Hok as [|? ? Ha HR]; subst.
  destruct fuel as [|fuel]; [lia|]. cbn [process]. rewrite requests_cons, <- app_assoc in *. rewrite length_app in Hfuel. pose proof (request_pos argv).
  destruct (IH fuel _ m p pos' multi' HR Hc) as (fuel' & Hf' & E); [lia|]. exists fuel'. split; [done|]. rewrite <- E. rewrite readLong_request by done.
  rewrite Nat2Z.id, (check_argv argv _ multi m) by done. done.
Qed.

Lemma process_end size fuel pos multi argv p m : argv_ok argv -> counts argv multi = Some m -> cut p (request argv) -> (0 < fuel)%nat ->
  process fuel size pos multi p = Got (if multi =? 0 then size - Z.of_nat (length p) else pos).
Proof.
  intros Ha Hm Hc Hf. destruct fuel as [|fuel]; [lia|]. pose proof Ha as (_ & Hlen & _). cbn [process]. rewrite request_split in Hc. apply cut_app in Hc as [Hc|(q & -> & Hq)]; [by rewrite (readLong_cut 42 (Z.of_nat (length argv))) by lia || done|].
  cbn [app]. rewrite <- app_assoc, readLong_full by lia || done. rewrite Nat2Z.id, (check_argv_cut argv q multi m) by done. done.
Qed.

Lemma checked_app size R1 R2 p : forall pos multi, checked size pos multi (R1 ++ R2) p = pm ← checked size pos multi R1 (requests R2 ++ p); checked size pm.1 pm.2 R2 p.
Proof.
  induction R1 as [|c R1 IH]; intros pos multi; [done|]. cbn [app checked]. destruct (counts c multi) as [m|]; [|done]. cbn [mbind option_bind]. rewrite IH. by rewrite !requests_cons, requests_app, <- !app_assoc.
Qed.

Lemma cstr_id l : Forall (fun c => c <> 0) l -> cstr l = l.
Proof. induction 1 as [|c l Hc _ IH]; [done|]. cbn. by rewrite (proj2 (Z.eqb_neq _ _) Hc), IH. Qed.

Section check.
Context (known : list byte -> bool) (dbnum : Z).
Local Abbreviation plain := (plain known dbnum).
Local Abbreviation item_ok := (item_ok known dbnum).

Lemma counts_plain argv multi : plain argv -> counts argv multi = Some multi.
Proof.
  intros [(Hne & _) Hn _ Hm He _]. destruct argv as [|name args]; [done|]. unfold counts. cbn [hd] in *. unfold strcaseeq. rewrite cstr_id by done. unfold named in Hm, He. rewrite !bool_decide_eq_false in *.
  rewrite !bool_decide_eq_false_2; [done|exact He|exact Hm].
Qed.

Lemma checked_body size body p : Forall plain body -> forall pos, checked size pos 1 body p = Some (pos, 1).
Proof. induction 1 as [|c body Hc _ IH]; intros pos; [done|]. cbn [checked]. rewrite counts_plain by done. cbn [mbind option_bind]. change (1 =? 0) with false. cbn iota. apply IH. Qed.

Lemma checked_open size body p pos : Forall plain body -> checked size pos 0 (MULTI :: body) p = Some (size - Z.of_nat (length (requests (MULTI :: body) ++ p)), 1).
Proof. intros Hb. cbn [checked]. change (counts MULTI 0) with (Some 1). cbn [mbind option_bind]. rewrite checked_body by done. done. Qed.

Lemma checked_flats size L p : Forall item_ok L -> forall pos, exists pos', checked size pos 0 (flats L) p = Some (pos', 0).
Proof.
  intros HL. revert p. induction HL as [|i L Hi _ IH]; intros p pos; [by exists pos|]. rewrite flats_cons, checked_app.
  assert (exists pos1, checked size pos 0 (flat i) (requests (flats L) ++ p) = Some (pos1, 0)) as [pos1 ->].
  { destruct i as [argv|body]; cbn [flat].
    - inversion Hi; subst. cbn [checked]. rewrite counts_plain by done. by eexists.
    - rewrite app_comm_cons, checked_app, checked_open by done. cbn [mbind option_bind fst snd checked]. change (counts EXEC 1) with (Some 0). by eexists. }
  cbn [mbind option_bind fst snd]. apply IH.
Qed.

Lemma process_closed L1 c p m : Forall item_ok L1 -> argv_ok c -> counts c 0 = Some m -> cut p (request c) ->
  process (S (length (requests (flats L1) ++ p))) (Z.of_nat (length (requests (flats L1) ++ p))) 0 0 (requests (flats L1) ++ p) = Got (Z.of_nat (length (requests (flats L1)))).
Proof.
  intros HL Hc Hm Hp. destruct (checked_flats (Z.of_nat (length (requests (flats L1) ++ p))) L1 p HL 0) as [pos' Hck].
  destruct (process_run _ (flats L1) (S (length (requests (flats L1) ++ p))) 0 0 p pos' 0 (flats_argv_ok _ _ _ HL) Hck) as (fuel & Hf & ->); [lia|]. rewrite (process_end _ _ _ _ c p m) by (done || lia).
  rewrite length_app. f_equal. cbn. lia.
Qed.

Lemma process_open L1 body1 c p m F : Forall item_ok L1 -> Forall plain body1 -> argv_ok c -> counts c 1 = Some m -> cut p (request c) -> F = requests (flats L1 ++ MULTI :: body1) ++ p ->
  process (S (length F)) (Z.of_nat (length F)) 0 0 F = Got (Z.of_nat (length (requests (flats L1)))).
Proof.
  intros HL Hb Hc Hm Hp EF. destruct (checked_flats (Z.of_nat (length F)) L1 (requests (MULTI :: body1) ++ p) HL 0) as [pos' Hck].
  destruct (process_run (Z.of_nat (length F)) (flats L1 ++ MULTI :: body1) (S (length F)) 0 0 p (Z.of_nat (length F) - Z.of_nat (length (requests (MULTI :: body1) ++ p))) 1) as (fuel & Hf & E0).
  - apply Forall_app. split; [by apply flats_argv_ok in HL|]. constructor; [repeat constructor; done|]. eapply Forall_impl; [exact Hb|]. by intros ? [].
  - rewrite checked_app, Hck. cbn [mbind option_bind fst snd]. by rewrite checked_open.
  - rewrite EF. lia.
  - rewrite <- EF in E0. rewrite E0, (process_end _ _ _ _ c p m) by (done || lia). cbn [Z.eqb]. rewrite EF, requests_app, <- app_assoc, length_app. f_equal. lia.
Qed.

(** The checker finds the end of the last whole item. *)
Lemma process_remains L F L1 open : Forall item_ok L -> remains L F L1 open -> process (S (length F)) (Z.of_nat (length F)) 0 0 F = Got (Z.of_nat (length (requests (flats L1)))).
Proof.
  intros HL Hrem. assert (Forall item_ok L1) as HL1 by (destruct (remains_prefix _ _ _ _ Hrem) as [k ->]; by apply Forall_app in HL as [? _]).
  assert (argv_ok MULTI /\ argv_ok EXEC) as [HM HE] by (split; repeat constructor; done).
  destruct Hrem as [->|M1 i M2 p -> -> Hc|M1 body body1 body2 M2 -> -> ->|M1 body body1 body2 M2 c p -> E -> Hp Hc].
  - pose proof (process_closed L MULTI [] 1 HL1 HM eq_refl) as Hcl. rewrite app_nil_r in Hcl. apply Hcl. by exists (request MULTI).
  - apply Forall_app in HL as [_ [Hi _]%Forall_cons]. destruct i as [argv|body]; cbn [flat hd] in Hc; [|by apply (process_closed M1 MULTI p 1)]. inversion Hi as [|? ? Ha _]; subst. apply (process_closed M1 argv p 0); [done|apply Ha|by apply counts_plain|done].
  - apply Forall_app in HL as [_ [Hb _]%Forall_cons]. apply Forall_app in Hb as [Hb _]. apply (process_open M1 body1 EXEC [] 0); try done; [by exists (request EXEC)|by rewrite app_nil_r].
  - apply Forall_app in HL as [_ [Hb _]%Forall_cons]. cbn [AofLoad.item_ok body_of] in Hb. assert (Forall plain body1 /\ (plain c \/ c = EXEC)) as [Hb1 Hcc].
    { destruct body2 as [|x body2]; [apply app_inj_tail in E as [-> <-]; auto|]. destruct (exists_last (l := x :: body2)) as (r & y & Er); [done|]. rewrite Er, app_comm_cons, app_assoc in E. apply app_inj_tail in E as [-> _].
      apply Forall_app in Hb as [? [? _]%Forall_cons]. auto. }
    destruct Hcc as [Hpl| ->]; [apply (process_open M1 body1 c p 1); try done; [apply Hpl|by apply counts_plain]|by apply (process_open M1 body1 EXEC p 0)].
Qed.
End check.

Section agreement.
Context {data : Type} (apply : data -> Z -> list (list byte) -> data) (known : list byte -> bool) (dbnum : Z).
Context (preamble : data -> list byte -> option (data * list byte)) (check_preamble : list byte -> option (list byte)).
Context (Hmulti : known (bytes_of "MULTI") = true) (Hexec : known (bytes_of "EXEC") = true).
Local Abbreviation load := (loadAppendOnlyFile apply known dbnum preamble).
Local Abbreviation item_ok := (item_ok known dbnum).

(** C27: redis-check-aof agrees with the loader.  However a log is cut, the checker with
    --fix leaves exactly the commands and whole transactions that the file still
    holds; the data the server loads from the file as it was is the data it loads
    from the file that was fixed, and that file is complete: a strict server takes it
    too, and the checker finds nothing more to fix. *)
Theorem aof_check_agrees L F d : Forall item_ok L -> F <> [] -> F `prefix_of` requests (flats L) -> exists L1 F1, L1 `prefix_of` L /\ F1 = requests (flats L1) /\
  (forall L2, L2 `prefix_of` L -> (length (requests (flats L2)) <= length F)%nat <-> L2 `prefix_of` L1) /\
  redis_check_aof check_preamble true true true F = CheckExit 0 F1 /\ (exists F2, load true true true d F = Loaded (run_commands apply 0 (log_commands L1) d) F2) /\
  (F1 <> [] -> load false true true d F1 = Loaded (run_commands apply 0 (log_commands L1) d) F1 /\ redis_check_aof check_preamble false false true F1 = CheckExit 0 F1).
Proof.
  intros HL Hne Hp. destruct (prefix_remains L F Hp) as (L1 & open & Hrem). pose proof (remains_prefix _ _ _ _ Hrem) as Hpre. destruct (remains_longest _ _ _ _ Hrem) as [Hin Hmax].
  assert (Forall item_ok L1) as HL1 by (destruct Hpre as [k ->]; by apply Forall_app in HL as [? _]).
  assert (forall M G M1 o fix_it yes, Forall item_ok M -> G <> [] -> G `prefix_of` requests (flats M) -> remains M G M1 o -> (fix_it && yes = true \/ G = requests (flats M1)) ->
    redis_check_aof check_preamble fix_it yes true G = CheckExit 0 (requests (flats M1))) as Hcheck.
  { intros M G M1 o fix_it yes HM HG HpG HrG Hfix. unfold redis_check_aof. destruct G as [|x G'] eqn:EG; [done|]. rewrite <- EG in *. rewrite (bool_decide_eq_false_2 (take 5 G = _)), andb_false_r by by apply (no_preamble _ (flats M)).
    rewrite (process_remains known dbnum M G M1 o) by done. destruct (remains_longest _ _ _ _ HrG) as [[k Ek] _]. rewrite Z.gtb_ltb. destruct (Z.ltb_spec 0 (Z.of_nat (length G) - Z.of_nat (length (requests (flats M1))))) as [Hlt|Hge].
    - destruct Hfix as [->|E]; [|rewrite E in Hlt; lia]. cbn [andb]. by rewrite Ek, take_requests.
    - assert (length k = 0)%nat as ->%nil_length_inv by (apply (f_equal length) in Ek; rewrite length_app in Ek; lia). by rewrite Ek, app_nil_r. }
  exists L1, (requests (flats L1)). split_and!; [done|done| | | |].
  - intros L2 Hp2. split; [by apply Hmax|]. intros [k ->]. apply prefix_length in Hin. rewrite flats_app, requests_app, length_app in Hin. lia.
  - apply (Hcheck L F L1 open); auto.
  - eexists. by apply (load_remains apply known dbnum preamble Hmulti Hexec true L F L1 open).
  - intros HF1. assert (remains L1 (requests (flats L1)) L1 []) as Hr1 by by apply remains_all. split; [|by apply (Hcheck L1 _ L1 []); auto].
    rewrite (load_remains apply known dbnum preamble Hmulti Hexec false L1 _ L1 [] d HL1 HF1 Hr1). by rewrite bool_decide_eq_true_2, app_nil_r by done.
Qed.
End agreement.

(** ** Examples *)

Module AofTests.
Definition journal (d : list (Z * list (list byte))) (db : Z) (argv : list (list byte)) : list (Z * list (list byte)) := d ++ [(db, argv)].
Definition all_known (name : list byte) : bool := true.
Definition no_dump (d : list (Z * list (list byte))) (file : list byte) : option (list (Z * list (list byte)) * list byte) := None.
Definition sel : list (list byte) := [bytes_of "SELECT"; bytes_of "3"].
Definition set_a : list (list byte) := [bytes_of "SET"; bytes_of "a"; bytes_of "1"].
Definition set_b : list (list byte) := [bytes_of "SET"; bytes_of "b"; bytes_of "2"].
Definition log : list item := [Single sel; Single set_a; Tx [set_b; set_a]].
(** The last four bytes are missing. *)
Definition damaged : list byte := Eval vm_compute in take (length (requests (flats log)) - 4) (requests (flats log)).

Lemma plain_sel : plain all_known 16 sel.
Proof. constructor; [repeat constructor; done|repeat constructor; done|done|done|done|]. intros n E. vm_compute in E. injection E as <-. lia. Qed.

Lemma plain_set argv : argv = set_a \/ argv = set_b -> plain all_known 16 argv.
Proof. intros [-> | ->]; (constructor; [repeat constructor; done|repeat constructor; done|done|done|done|done]). Qed.

Lemma log_ok : Forall (item_ok all_known 16) log.
Proof.
  pose proof plain_sel. pose proof (plain_set set_a). pose proof (plain_set set_b). unfold log, item_ok. repeat apply Forall_cons_2; cbn [body_of]; repeat apply Forall_cons_2; auto using Forall_nil_2.
Qed.

Lemma damaged_prefix : damaged `prefix_of` requests (flats log).
Proof. exists (drop (length (requests (flats log)) - 4) (requests (flats log))). by vm_compute. Qed.
End AofTests.

Lemma aof_truncated_load_witness : exists L1 open, remains AofTests.log AofTests.damaged L1 open /\
  loadAppendOnlyFile AofTests.journal AofTests.all_known 16 AofTests.no_dump true true true [] AofTests.damaged =
    Loaded (run_commands AofTests.journal 0 (log_commands L1) []) (requests (flats L1 ++ open)).
Proof.
  destruct (aof_truncated_load AofTests.journal AofTests.all_known 16 AofTests.no_dump eq_refl eq_refl AofTests.log AofTests.damaged [] AofTests.log_ok ltac:(discriminate) AofTests.damaged_prefix)
    as (L1 & open & Hr & Hl & _). exists L1, open. split; [exact Hr|exact Hl].
Defined.

Lemma aof_strict_load_witness : loadAppendOnlyFile AofTests.journal AofTests.all_known 16 AofTests.no_dump false true true [] AofTests.damaged = LoadExits \/
  exists L1, L1 `prefix_of` AofTests.log /\ AofTests.damaged = requests (flats L1).
Proof.
  destruct (aof_strict_load AofTests.journal AofTests.all_known 16 AofTests.no_dump eq_refl eq_refl AofTests.log AofTests.damaged [] AofTests.log_ok ltac:(discriminate) AofTests.damaged_prefix) as [E|(L1 & Hp & E & _)];
    [left; exact E|right; exists L1; split; [exact Hp|exact E]].
Defined.

Lemma aof_check_agrees_witness : exists L1, redis_check_aof (fun _ => None) true true true AofTests.damaged = CheckExit 0 (requests (flats L1)) /\ L1 `prefix_of` AofTests.log.
Proof.
  destruct (aof_check_agrees AofTests.journal AofTests.all_known 16 AofTests.no_dump (fun _ => None) eq_refl eq_refl AofTests.log AofTests.damaged [] AofTests.log_ok ltac:(discriminate) AofTests.damaged_prefix)
    as (L1 & F1 & Hp & -> & _ & Hc & _). exists L1. split; [exact Hc|exact Hp].
Defined.

(** The transaction that lost its end takes the next command with it: the data loaded
    after another start has neither. *)
Example lost_command : exists file, loadAppendOnlyFile AofTests.journal AofTests.all_known 16 AofTests.no_dump true true true [] AofTests.damaged = Loaded [(3, AofTests.set_a)] file /\
  loadAppendOnlyFile AofTests.journal AofTests.all_known 16 AofTests.no_dump true true true [] (file ++ request AofTests.set_b) = Loaded [(3, AofTests.set_a)] (requests [AofTests.sel; AofTests.set_a]).
Proof. eexists. split; [vm_compute; reflexivity|]. vm_compute. reflexivity. Qed.

(** A log that begins inside of a transaction, as a rewrite that is started by a
    command of the transaction leaves it: the server loads all of it, the checker
    finds it damaged at EXEC and removes what follows. *)
Example exec_without_multi : let file := requests [AofTests.set_b; EXEC; AofTests.set_a] in
  loadAppendOnlyFile AofTests.journal AofTests.all_known 16 AofTests.no_dump true true true [] file = Loaded [(0, AofTests.set_b); (0, AofTests.set_a)] file /\
  redis_check_aof (fun _ => None) false false true file = CheckExit 1 file /\ redis_check_aof (fun _ => None) true true true file = CheckExit 0 (requests [AofTests.set_b]).
Proof. split_and!; vm_compute; reflexivity. Qed.
