(* ===== verification/Aof.v ===== *)
(** * Writing the append only file (src/redis-5.0.7/src/aof.c)

    Commands are appended, as requests, to a buffer, which is written to the file
    before the event loop waits.  A rewrite replaces the file: a child writes the
    data set as it is, the commands that come in meanwhile are kept in blocks, sent to
    the child over a pipe until it asks to stop, and the rest is appended by the
    parent before the new file takes the place of the old one.  Results of system
    calls, the time and what the child writes for the data set are parameters. *)

From S2P Require Import Prelude Util Sds ServerDefs Protocol Reply Rdb Stream.
From stdpp Require Import strings.

Local Open Scope Z_scope.

Definition AOF_RW_BUF_BLOCK_SIZE : Z := 1024 * 1024 * 10.

(** ** State *)

Inductive aof_state := AOF_OFF | AOF_ON | AOF_WAIT_REWRITE.
Inductive aof_fsync := AOF_FSYNC_NO | AOF_FSYNC_ALWAYS | AOF_FSYNC_EVERYSEC.
Global Instance aof_state_eq_dec : EqDecision aof_state.
Proof. solve_decision. Defined.
Global Instance aof_fsync_eq_dec : EqDecision aof_fsync.
Proof. solve_decision. Defined.

(** [bk_used]: the bytes in use. *)
Record aofrwblock := mkBlock { bk_used : list byte; bk_free : Z }.

(** The child: what it writes for the data set, the differences it has read, whether
    it asked to stop, whether the answer was sent, and the file when it is done. *)
Record aof_child := mkChild { ch_dump : list byte; ch_diff : list byte; ch_asked : bool; ch_acked : bool; ch_file : option (list byte) }.

(** [a_file]: the bytes of the file; [a_open]: there is a descriptor for it; [a_disk]:
    how many bytes of the file the last fsync was for; [a_pipe]: bytes on the way to
    the child. *)
Record aof := mkAof {
  a_state : aof_state;
  a_open : bool;
  a_file : list byte;
  a_disk : Z;
  a_buf : list byte;
  a_current_size : Z;
  a_fsync_offset : Z;
  a_last_fsync : Z;
  a_postponed : Z;
  a_write_ok : bool;
  a_selected_db : Z;
  a_blocks : list aofrwblock;
  a_child : option aof_child;
  a_pipe : list byte;
  a_stop : bool;
  a_scheduled : bool
}.

Definition with_written (a : aof) (file buf : list byte) (size : Z) (postponed : Z) (ok : bool) : aof :=
  mkAof (a_state a) (a_open a) file (a_disk a) buf size (a_fsync_offset a) (a_last_fsync a) postponed ok (a_selected_db a) (a_blocks a) (a_child a) (a_pipe a) (a_stop a) (a_scheduled a).
Definition with_postponed (a : aof) (t : Z) : aof := with_written a (a_file a) (a_buf a) (a_current_size a) t (a_write_ok a).
Definition with_synced (a : aof) (disk offset last : Z) : aof :=
  mkAof (a_state a) (a_open a) (a_file a) disk (a_buf a) (a_current_size a) offset last (a_postponed a) (a_write_ok a) (a_selected_db a) (a_blocks a) (a_child a) (a_pipe a) (a_stop a) (a_scheduled a).
Definition with_appended (a : aof) (buf : list byte) (db : Z) (blocks : list aofrwblock) : aof :=
  mkAof (a_state a) (a_open a) (a_file a) (a_disk a) buf (a_current_size a) (a_fsync_offset a) (a_last_fsync a) (a_postponed a) (a_write_ok a) db blocks (a_child a) (a_pipe a) (a_stop a) (a_scheduled a).
Definition with_rewrite (a : aof) (db : Z) (blocks : list aofrwblock) (child : option aof_child) (pipe : list byte) (stop scheduled : bool) : aof :=
  mkAof (a_state a) (a_open a) (a_file a) (a_disk a) (a_buf a) (a_current_size a) (a_fsync_offset a) (a_last_fsync a) (a_postponed a) (a_write_ok a) db blocks child pipe stop scheduled.
Definition with_state (a : aof) (st : aof_state) (opened : bool) (db last : Z) : aof :=
  mkAof st opened (a_file a) (a_disk a) (a_buf a) (a_current_size a) (a_fsync_offset a) last (a_postponed a) (a_write_ok a) db (a_blocks a) (a_child a) (a_pipe a) (a_stop a) (a_scheduled a).
Definition with_file (a : aof) (file : list byte) : aof :=
  with_written a file (a_buf a) (a_current_size a) (a_postponed a) (a_write_ok a).

(** ** The rewrite buffer *)

Definition aofRewriteBufferSize (blocks : list aofrwblock) : Z := fold_left (fun size b => u64 (size + Z.of_nat (length (bk_used b)))) blocks 0.

(** The piece that still fits in the last block. *)
Definition fill_last (blocks : list aofrwblock) (s : list byte) : option (list aofrwblock * list byte) :=
  match last blocks with
  | Some b =>
      let thislen := if bk_free b <? Z.of_nat (length s) then bk_free b else Z.of_nat (length s) in
      if thislen =? 0 then Some (blocks, s)
      else if Z.of_nat (length (bk_used b)) + thislen >? AOF_RW_BUF_BLOCK_SIZE then None
      else
        let b' := mkBlock (bk_used b ++ take (Z.to_nat thislen) s) (bk_free b - thislen) in
        Some (take (length blocks - 1) blocks ++ [b'], drop (Z.to_nat thislen) s)
  | None => Some (blocks, s)
  end.

(** [while(len)] *)
Fixpoint aofRewriteBufferAppend (fuel : nat) (blocks : list aofrwblock) (s : list byte) : option (list aofrwblock) :=
  match s with
  | [] => Some blocks
  | _ =>
      match fuel with
      | O => None
      | S fuel =>
          r ← fill_last blocks s;
          match r.2 with
          | [] => Some r.1
          | s => aofRewriteBufferAppend fuel (r.1 ++ [mkBlock [] AOF_RW_BUF_BLOCK_SIZE]) s
          end
      end
  end.

(** [results]: what the writes to the pipe return, at most what was asked for.  The
    blocks left and the bytes sent. *)
Fixpoint aofChildWriteDiffData (fuel : nat) (stop : bool) (blocks : list aofrwblock) (results : list Z) : option (list aofrwblock * list byte) :=
  match fuel with
  | O => None
  | S fuel =>
      match blocks with
      | [] => Some (blocks, [])
      | b :: rest =>
          if stop then Some (blocks, [])
          else if 0 <? Z.of_nat (length (bk_used b)) then
            match results with
            | [] => Some (blocks, [])
            | r :: results =>
                let nwritten := Z.min r (Z.of_nat (length (bk_used b))) in
                if nwritten <=? 0 then Some (blocks, [])
                else
                  let b' := mkBlock (drop (Z.to_nat nwritten) (bk_used b)) (bk_free b + nwritten) in
                  let blocks := if (length (bk_used b') =? 0)%nat then rest else b' :: rest in
                  q ← aofChildWriteDiffData fuel stop blocks results;
                  Some (q.1, take (Z.to_nat nwritten) (bk_used b) ++ q.2)
            end
          else aofChildWriteDiffData fuel stop rest results
      end
  end.

(** [ok]: whether a write takes all of the block.  The bytes written, [None] in the
    pair for -1. *)
Fixpoint aofRewriteBufferWrite (blocks : list aofrwblock) (ok : list bool) : option (list byte) :=
  match blocks with
  | [] => Some []
  | b :: blocks =>
      if (length (bk_used b) =? 0)%nat then aofRewriteBufferWrite blocks ok
      else if default true (head ok) then q ← aofRewriteBufferWrite blocks (drop 1 ok); Some (bk_used b ++ q) else None
  end.

(** ** Writing *)

(** What write(2) returns: a number of bytes, EINTR, or another error. *)
Inductive write_result := Wrote (n : Z) | Interrupted | Failed.

(** The bytes written before the end or an error; the flag tells an error. *)
Fixpoint aof_write_loop (results : list write_result) (buf : list byte) : list byte * bool :=
  match buf with
  | [] => ([], false)
  | _ =>
      match results with
      | Wrote n :: results =>
          let n := Z.to_nat (Z.min (Z.max 0 n) (Z.of_nat (length buf))) in
          let q := aof_write_loop results (drop n buf) in
          (take n buf ++ q.1, q.2)
      | Interrupted :: results => aof_write_loop results buf
      | _ => ([], true)
      end
  end.

(** The bytes written and the value returned. *)
Definition aofWrite (results : list write_result) (buf : list byte) : list byte * Z :=
  let q := aof_write_loop results buf in
  (q.1, if q.2 then (if (length q.1 =? 0)%nat then -1 else Z.of_nat (length q.1)) else Z.of_nat (length q.1)).

Definition ftruncate (file : list byte) (size : Z) : list byte := take (Z.to_nat size) (file ++ replicate (Z.to_nat size) 0).

(** [try_fsync]; [saving]: a child is active and no-appendfsync-on-rewrite is set. *)
Definition try_fsync (a : aof) (policy : aof_fsync) (saving sync_in_progress : bool) (now : Z) : aof :=
  if saving then a
  else
    match policy with
    | AOF_FSYNC_ALWAYS => with_synced a (Z.of_nat (length (a_file a))) (a_current_size a) now
    | AOF_FSYNC_EVERYSEC =>
        if a_last_fsync a <? now then
          if sync_in_progress then with_synced a (a_disk a) (a_fsync_offset a) now
          else with_synced a (Z.of_nat (length (a_file a))) (a_current_size a) now
        else a
    | AOF_FSYNC_NO => a
    end.

(** The write went wrong. [None]: the process exits. *)
Definition write_failed (a : aof) (policy : aof_fsync) (written : list byte) (nwritten : Z) (truncate_ok : bool) : option aof :=
  let undone := (nwritten =? -1) || truncate_ok in
  let file := if nwritten =? -1 then a_file a else if truncate_ok then ftruncate (a_file a ++ written) (a_current_size a) else a_file a ++ written in
  let nwritten := if undone then -1 else nwritten in
  match policy with
  | AOF_FSYNC_ALWAYS => None
  | _ =>
      if 0 <? nwritten then Some (with_written a file (drop (Z.to_nat nwritten) (a_buf a)) (a_current_size a + nwritten) 0 false)
      else Some (with_written a file (a_buf a) (a_current_size a) 0 false)
  end.

(** A write to a closed descriptor fails. *)
Definition write_buffer (a : aof) (policy : aof_fsync) (results : list write_result) (truncate_ok saving sync_in_progress : bool) (now : Z) : option aof :=
  let w := aofWrite (if a_open a then results else []) (a_buf a) in
  if w.2 =? Z.of_nat (length (a_buf a)) then
    Some (try_fsync (with_written a (a_file a ++ w.1) [] (a_current_size a + w.2) 0 true) policy saving sync_in_progress now)
  else write_failed a policy w.1 w.2 truncate_ok.

(** [busy]: an fsync is in progress in the background. *)
Definition flushAppendOnlyFile (a : aof) (policy : aof_fsync) (force busy saving : bool) (now : Z) (results : list write_result) (truncate_ok : bool) : option aof :=
  let every := bool_decide (policy = AOF_FSYNC_EVERYSEC) in
  if (length (a_buf a) =? 0)%nat then
    if every && negb (a_fsync_offset a =? a_current_size a) && (a_last_fsync a <? now) && negb busy
    then Some (try_fsync a policy saving false now) else Some a
  else
    let sync_in_progress := every && busy in
    if every && negb force && sync_in_progress then
      if a_postponed a =? 0 then Some (with_postponed a now)
      else if now - a_postponed a <? 2 then Some a
      else write_buffer a policy results truncate_ok saving sync_in_progress now
    else write_buffer a policy results truncate_ok saving sync_in_progress now.

(** ** Commands *)

(** The commands that are translated. *)
Inductive command_proc := ExpireCommand | PexpireCommand | ExpireatCommand | SetexCommand | PsetexCommand | SetCommand | OtherCommand.

Section code.
Context (junk : nat -> byte).

(** The header of a command or an argument in the 32 bytes of [buf]. *)
Definition header (prefix : byte) (n : Z) : option (list byte) :=
  r ← ll2string (malloc junk 31) 31 n;
  digits ← load r.1 0 r.2;
  Some (prefix :: digits ++ CRLF).

Definition getDecodedObject (o : robj) : option (list byte) :=
  match o with
  | OSds s => Some s
  | OInt n => r ← ll2string (malloc junk 32) 32 n; load r.1 0 r.2
  end.

(** [for (j = 0; j < argc; j++)] *)
Fixpoint cat_args (dst : list byte) (argv : list robj) : option (list byte) :=
  match argv with
  | [] => Some dst
  | o :: argv =>
      s ← getDecodedObject o;
      h ← header 36 (Z.of_nat (length s));
      cat_args (dst ++ h ++ s ++ CRLF) argv
  end.

Definition catAppendOnlyGenericCommand (dst : list byte) (argv : list robj) : option (list byte) :=
  h ← header 42 (Z.of_nat (length argv));
  cat_args (dst ++ h) argv.

(** [seconds], [relative]: what [cmd] says of the argument. *)
Definition catAppendOnlyExpireAtCommand (buf : list byte) (seconds relative : bool) (key arg : robj) (now : Z) : option (list byte) :=
  s ← getDecodedObject arg;
  r ← strtoll (s ++ [0]);
  let when := r.1 in
  let when := if seconds then s64 (when * 1000) else when in
  let when := if relative then s64 (when + now) else when in
  catAppendOnlyGenericCommand buf [OSds (bytes_of "PEXPIREAT"); key; OInt when].

(** The options of SET: the arguments of EX and PX. *)
Fixpoint set_options (args : list robj) (exarg pxarg : option robj) : option (option robj * option robj) :=
  match args with
  | [] => Some (exarg, pxarg)
  | OInt _ :: _ => None
  | OSds s :: args =>
      let is_ex := strcaseeq s (bytes_of "ex") in
      let is_px := strcaseeq s (bytes_of "px") in
      if (is_ex || is_px) && (length args =? 0)%nat then None
      else set_options args (if is_ex then head args else exarg) (if is_px then head args else pxarg)
  end.

(** The bytes of a command after a SELECT. *)
Definition translate (buf : list byte) (proc : command_proc) (argv : list robj) (now : Z) : option (list byte) :=
  match proc with
  | ExpireCommand | PexpireCommand | ExpireatCommand =>
      match argv with
      | _ :: key :: arg :: _ =>
          catAppendOnlyExpireAtCommand buf (match proc with PexpireCommand => false | _ => true end) (match proc with ExpireatCommand => false | _ => true end) key arg now
      | _ => None
      end
  | SetexCommand | PsetexCommand =>
      match argv with
      | _ :: key :: arg :: value :: _ =>
          buf ← catAppendOnlyGenericCommand buf [OSds (bytes_of "SET"); key; value];
          catAppendOnlyExpireAtCommand buf (match proc with SetexCommand => true | _ => false end) true key arg now
      | _ => None
      end
  | SetCommand =>
      match argv with
      | name :: key :: value :: _ :: _ =>
          buf ← catAppendOnlyGenericCommand buf [name; key; value];
          o ← set_options (drop 3 argv) None None;
          match o with
          | (Some _, Some _) => None
          | (Some arg, None) => catAppendOnlyExpireAtCommand buf true true key arg now
          | (None, Some arg) => catAppendOnlyExpireAtCommand buf false true key arg now
          | (None, None) => Some buf
          end
      | _ => catAppendOnlyGenericCommand buf argv
      end
  | OtherCommand => catAppendOnlyGenericCommand buf argv
  end.

Definition feedAppendOnlyFile (a : aof) (proc : command_proc) (dictid : Z) (argv : list robj) (now : Z) : option aof :=
  let buf := if a_selected_db a =? dictid then [] else select_cmd dictid in
  buf ← translate buf proc argv now;
  let out := if bool_decide (a_state a = AOF_ON) then a_buf a ++ buf else a_buf a in
  blocks ← (match a_child a with
            | Some _ => aofRewriteBufferAppend (S (length buf)) (a_blocks a) buf
            | None => Some (a_blocks a)
            end);
  Some (with_appended a out dictid blocks).
End code.

(** ** Rewriting *)

(** [rdb]: a child saves a dump; [pipes], [forked]: the system calls succeed.  The
    flag is C_OK. *)
Definition rewriteAppendOnlyFileBackground (a : aof) (rdb pipes forked : bool) (dump : list byte) : aof * bool :=
  match a_child a with
  | Some _ => (a, false)
  | None =>
      if rdb || negb pipes then (a, false)
      else if negb forked then (with_rewrite a (a_selected_db a) (a_blocks a) None (a_pipe a) false (a_scheduled a), false)
      else (with_rewrite a (-1) (a_blocks a) (Some (mkChild dump [] false false None)) [] false false, true)
  end.

Definition killAppendOnlyChild (a : aof) : aof :=
  match a_child a with
  | None => a
  | Some _ => with_rewrite a (a_selected_db a) [] None [] (a_stop a) (a_scheduled a)
  end.

(** The write handler of the pipe. *)
Definition send_diff (a : aof) (results : list Z) : option aof :=
  match a_child a with
  | None => Some a
  | Some _ =>
      q ← aofChildWriteDiffData (S (length (a_blocks a) + length results)) (a_stop a) (a_blocks a) results;
      Some (with_rewrite a (a_selected_db a) q.1 (a_child a) (a_pipe a ++ q.2) (a_stop a) (a_scheduled a))
  end.

(** *** The child *)

(** [aofReadDiffFromParent]: what is in the pipe now, [n] bytes. *)
Definition aofReadDiffFromParent (c : aof_child) (pipe : list byte) (n : nat) : aof_child * list byte :=
  (mkChild (ch_dump c) (ch_diff c ++ take n pipe) (ch_asked c) (ch_acked c) (ch_file c), drop n pipe).

Definition child_reads (a : aof) (n : nat) : aof :=
  match a_child a with
  | Some c => let r := aofReadDiffFromParent c (a_pipe a) n in with_rewrite a (a_selected_db a) (a_blocks a) (Some r.1) r.2 (a_stop a) (a_scheduled a)
  | None => a
  end.

(** It asks the parent to stop. *)
Definition child_asks (a : aof) : aof :=
  match a_child a with
  | Some c => with_rewrite a (a_selected_db a) (a_blocks a) (Some (mkChild (ch_dump c) (ch_diff c) true (ch_acked c) (ch_file c))) (a_pipe a) (a_stop a) (a_scheduled a)
  | None => a
  end.

(** The parent answers; [sent]: the answer could be written. *)
Definition aofChildPipeReadable (a : aof) (sent : bool) : aof :=
  match a_child a with
  | Some c =>
      if ch_asked c then
        with_rewrite a (a_selected_db a) (a_blocks a) (Some (mkChild (ch_dump c) (ch_diff c) true (ch_acked c || sent) (ch_file c))) (a_pipe a) true (a_scheduled a)
      else a
  | None => a
  end.

(** After the answer it reads the rest, writes the differences and ends. *)
Definition child_finishes (a : aof) : aof :=
  match a_child a with
  | Some c =>
      if ch_acked c && negb (bool_decide (is_Some (ch_file c))) then
        let r := aofReadDiffFromParent c (a_pipe a) (length (a_pipe a)) in
        with_rewrite a (a_selected_db a) (a_blocks a)
          (Some (mkChild (ch_dump c) (ch_diff r.1) true true (Some (ch_dump c ++ ch_diff r.1)))) r.2 (a_stop a) (a_scheduled a)
      else a
  | None => a
  end.

(** The child has ended: [exited]: with status zero; [opened], [ok], [renamed]: the
    results of the system calls.  The file takes the place of the old one. *)
Definition rewritten (a : aof) (base diff : list byte) (policy : aof_fsync) : aof :=
  let tmp := base ++ diff in
  if a_open a then
    let disk := match policy with AOF_FSYNC_NO => Z.of_nat (length base) | _ => Z.of_nat (length tmp) end in
    mkAof (if bool_decide (a_state a = AOF_WAIT_REWRITE) then AOF_ON else a_state a) true tmp disk [] (Z.of_nat (length tmp)) (Z.of_nat (length tmp)) (a_last_fsync a) (a_postponed a)
      (a_write_ok a) (-1) (a_blocks a) (a_child a) (a_pipe a) (a_stop a) (a_scheduled a)
  else with_file (with_state a (if bool_decide (a_state a = AOF_WAIT_REWRITE) then AOF_ON else a_state a) false (a_selected_db a) (a_last_fsync a)) tmp.

Definition backgroundRewriteDoneHandler (a : aof) (exited opened : bool) (ok : list bool) (renamed : bool) (policy : aof_fsync) : aof :=
  match a_child a with
  | None => a
  | Some c =>
      let a :=
        match ch_file c, exited && opened with
        | Some base, true =>
            match aofRewriteBufferWrite (a_blocks a) ok with
            | Some diff => if renamed then rewritten a base diff policy else a
            | None => a
            end
        | _, _ => a
        end in
      with_rewrite a (a_selected_db a) [] None [] (a_stop a) (bool_decide (a_state a = AOF_WAIT_REWRITE) || a_scheduled a)
  end.

(** ** Switching it on and off *)

Definition stopAppendOnly (a : aof) (policy : aof_fsync) (busy saving : bool) (now : Z) (results : list write_result) (truncate_ok : bool) : option aof :=
  if bool_decide (a_state a = AOF_OFF) then None
  else
    a ← flushAppendOnlyFile a policy true busy saving now results truncate_ok;
    let a := with_synced a (Z.of_nat (length (a_file a))) (a_fsync_offset a) (a_last_fsync a) in
    Some (killAppendOnlyChild (with_state a AOF_OFF false (-1) (a_last_fsync a))).

(** The flag is C_OK. *)
Definition startAppendOnly (a : aof) (opened rdb pipes forked : bool) (dump : list byte) (now : Z) : option (aof * bool) :=
  if negb (bool_decide (a_state a = AOF_OFF)) then None
  else if negb opened then Some (a, false)
  else if rdb then Some (with_state (with_rewrite a (a_selected_db a) (a_blocks a) (a_child a) (a_pipe a) (a_stop a) true) AOF_WAIT_REWRITE true (a_selected_db a) now, true)
  else
    let r := rewriteAppendOnlyFileBackground (killAppendOnlyChild a) false pipes forked dump in
    if r.2 then Some (with_state r.1 AOF_WAIT_REWRITE true (a_selected_db r.1) now, true) else Some (r.1, false).

(** ** The bytes of a command *)

(** When a key expires, from the argument of a command. *)
Definition expire_at (seconds relative : bool) (arg : robj) (now : Z) : Z :=
  let v := match strtoll (robj_bytes arg ++ [0]) with Some r => r.1 | None => 0 end in
  let v := if seconds then s64 (v * 1000) else v in
  if relative then s64 (v + now) else v.

Definition pexpireat (seconds relative : bool) (key arg : robj) (now : Z) : list (list byte) :=
  [bytes_of "PEXPIREAT"; robj_bytes key; decimal (expire_at seconds relative arg now)].

(** What is logged for a command: expirations are absolute. *)
Definition aof_commands (proc : command_proc) (argv : list robj) (now : Z) : option (list (list (list byte))) :=
  match proc, argv with
  | ExpireCommand, _ :: key :: arg :: _ => Some [pexpireat true true key arg now]
  | PexpireCommand, _ :: key :: arg :: _ => Some [pexpireat false true key arg now]
  | ExpireatCommand, _ :: key :: arg :: _ => Some [pexpireat true false key arg now]
  | SetexCommand, _ :: key :: arg :: value :: _ => Some [[bytes_of "SET"; robj_bytes key; robj_bytes value]; pexpireat true true key arg now]
  | PsetexCommand, _ :: key :: arg :: value :: _ => Some [[bytes_of "SET"; robj_bytes key; robj_bytes value]; pexpireat false true key arg now]
  | SetCommand, name :: key :: value :: (_ :: _) as options =>
      o ← set_options (drop 3 argv) None None;
      let set := [robj_bytes name; robj_bytes key; robj_bytes value] in
      match o with
      | (Some _, Some _) => None
      | (Some arg, None) => Some [set; pexpireat true true key arg now]
      | (None, Some arg) => Some [set; pexpireat false true key arg now]
      | (None, None) => Some [set]
      end
  | SetCommand, _ => Some [map robj_bytes argv]
  | OtherCommand, _ => Some [map robj_bytes argv]
  | _, _ => None
  end.

Section bytes.
Context (junk : nat -> byte).

Lemma header_spec prefix n : in_s 64 n -> header junk prefix n = Some (prefix :: decimal n ++ CRLF).
Proof. intros Hn. unfold header. destruct (print_ll junk 31 n Hn) as (r & -> & Hl); [lia|]. cbn [mbind option_bind]. by rewrite Hl. Qed.

Lemma decoded_spec o : obj_ok o -> getDecodedObject junk o = Some (robj_bytes o).
Proof. destruct o as [s|n]; intros Ho; [done|]. cbn [getDecodedObject]. destruct (print_ll junk 32 n Ho) as (r & -> & Hl); [lia|]. cbn [mbind option_bind]. done. Qed.

Lemma robj_length o : obj_ok o -> in_s 64 (Z.of_nat (length (robj_bytes o))).
Proof. destruct o as [s|n]; cbn [obj_ok robj_bytes]; intros Ho; [|pose proof (decimal_short n Ho)]; unfold in_s; lia. Qed.

Lemma cat_args_spec argv : Forall obj_ok argv -> forall dst, cat_args junk dst argv = Some (dst ++ bulks (map robj_bytes argv)).
Proof.
  induction 1 as [|o argv Ho _ IH]; intros dst; cbn [cat_args map]; [unfold bulks; cbn; by rewrite app_nil_r|]. rewrite decoded_spec by done. cbn [mbind option_bind]. rewrite header_spec by by apply robj_length. cbn [mbind option_bind].
  rewrite IH, bulks_cons, <- !app_assoc. f_equal. f_equal. unfold bulk. cbn [app]. by rewrite <- !app_assoc.
Qed.

Lemma cat_spec dst argv : Forall obj_ok argv -> Z.of_nat (length argv) < 2 ^ 62 -> catAppendOnlyGenericCommand junk dst argv = Some (dst ++ request (map robj_bytes argv)).
Proof.
  intros Ho Hl. unfold catAppendOnlyGenericCommand. rewrite header_spec by (unfold in_s; lia). cbn [mbind option_bind]. rewrite cat_args_spec by done. unfold request. rewrite length_map, <- app_assoc. f_equal. f_equal. cbn. by rewrite <- app_assoc.
Qed.

Lemma expire_spec dst seconds relative key arg now : obj_ok key -> obj_ok arg -> catAppendOnlyExpireAtCommand junk dst seconds relative key arg now = Some (dst ++ request (pexpireat seconds relative key arg now)).
Proof.
  intros Hk Ha. unfold catAppendOnlyExpireAtCommand. rewrite decoded_spec by done. cbn [mbind option_bind]. destruct (strtoll_some (robj_bytes arg) []) as (v & e & E & Hv & _). unfold pexpireat, expire_at. rewrite E. cbn [mbind option_bind fst].
  assert (in_s 64 (if seconds then s64 (v * 1000) else v)) as H1 by (destruct seconds; [apply swrap_range; lia|done]). assert (in_s 64 (if relative then s64 ((if seconds then s64 (v * 1000) else v) + now) else if seconds then s64 (v * 1000) else v)) as H2 by (destruct relative; [apply swrap_range; lia|done]).
  rewrite cat_spec; [done| |done]. repeat apply Forall_cons_2; [done|done|exact H2|by apply Forall_nil_2].
Qed.

Lemma options_ok args : Forall obj_ok args -> forall ex px o, set_options args ex px = Some o -> (forall a, ex = Some a \/ px = Some a -> obj_ok a) -> forall a, o.1 = Some a \/ o.2 = Some a -> obj_ok a.
Proof.
  induction 1 as [|x args Hx Hargs IH]; intros ex px o E Hok; cbn [set_options] in E; [by injection E as <-|]. destruct x as [s|n]; [|done]. destruct (_ && _); [done|].
  apply (IH _ _ _ E). intros b Hb. assert (forall c, head args = Some c -> obj_ok c) as Hh by (intros c Hc; destruct Hargs; [done|]; by injection Hc as <-). destruct (strcaseeq s (bytes_of "ex")), (strcaseeq s (bytes_of "px")); naive_solver.
Qed.

Lemma translate_spec dst proc argv now : Forall obj_ok argv -> Z.of_nat (length argv) < 2 ^ 62 ->
  translate junk dst proc argv now = cmds ← aof_commands proc argv now; Some (dst ++ requests cmds).
Proof.
  intros Ho Hl. assert (forall d, requests [d] = request d) as R1 by (intros d; rewrite requests_cons; apply app_nil_r). assert (forall d e, requests [d; e] = request d ++ request e) as R2 by (intros d e; rewrite requests_cons; by rewrite R1).
  assert (forall q, Some (dst ++ requests [map robj_bytes q]) = Some (dst ++ request (map robj_bytes q))) as R0 by (intros q; by rewrite R1).
  destruct proc; cbn [translate aof_commands]; try (cbn [mbind option_bind]; rewrite R0; by apply cat_spec);
    (destruct argv as [|o1 [|o2 [|o3 rest]]]; try done; try (cbn [mbind option_bind]; rewrite R0; by apply cat_spec); pose proof Ho as (Hk1 & (Hk2 & (Hk3 & Ho3)%Forall_cons)%Forall_cons)%Forall_cons).
  1-3: cbn [mbind option_bind]; rewrite R1; by apply expire_spec.
  1-2: destruct rest as [|o4 rest]; [done|]; apply Forall_cons in Ho3 as [Hk4 _]; rewrite cat_spec by (done || by repeat constructor); cbn [mbind option_bind]; rewrite expire_spec by done; by rewrite R2, app_assoc.
  destruct rest as [|o4 rest]; [cbn [mbind option_bind]; rewrite R0; by apply cat_spec|]. rewrite cat_spec by (done || by repeat constructor). cbn [mbind option_bind].
  change (drop 3 (o1 :: o2 :: o3 :: o4 :: rest)) with (o4 :: rest). destruct (set_options (o4 :: rest) None None) as [o|] eqn:Eo; [|done]. cbn [mbind option_bind].
  pose proof (options_ok _ Ho3 _ _ _ Eo ltac:(intros ? [?|?]; done)) as Hargs. destruct o as [[e|] [q|]]; [done| | |]; cbn [mbind option_bind]; [rewrite expire_spec by (auto; apply Hargs; auto); by rewrite R2, app_assoc..|by rewrite R1].
Qed.
End bytes.

(** ** What the log says of a command *)

(** An option of SET, and the ways to write a list of them: the words in any case,
    the times in decimal. *)
Inductive set_option := NX | XX | EX (seconds : Z) | PX (milliseconds : Z).

Definition word (w : list byte) (o : robj) : Prop := exists s, o = OSds s /\ Forall (fun c => c <> 0) s /\ map tolower s = w.

Inductive spells : list robj -> list set_option -> Prop :=
  | spells_nil : spells [] []
  | spells_nx o args l : word (bytes_of "nx") o -> spells args l -> spells (o :: args) (NX :: l)
  | spells_xx o args l : word (bytes_of "xx") o -> spells args l -> spells (o :: args) (XX :: l)
  | spells_ex o v args l : word (bytes_of "ex") o -> in_s 64 v -> spells args l -> spells (o :: OSds (decimal v) :: args) (EX v :: l)
  | spells_px o v args l : word (bytes_of "px") o -> in_s 64 v -> spells args l -> spells (o :: OSds (decimal v) :: args) (PX v :: l).

(** The time to live in milliseconds that the options ask for: the last one counts. *)
Fixpoint ttl (l : list set_option) : option Z :=
  match l with
  | [] => None
  | o :: l =>
      match ttl l, o with
      | Some t, _ => Some t
      | None, EX v => Some (v * 1000)
      | None, PX v => Some v
      | None, _ => None
      end
  end.

(** SET refuses options with both EX and PX. *)
Definition one_unit (l : list set_option) : Prop := (forall v, EX v ∉ l) \/ (forall v, PX v ∉ l).

(** The command that makes [key] expire at [time], within the range of the clock. *)
Definition expires (key : robj) (time : Z) : list (list byte) := [bytes_of "PEXPIREAT"; robj_bytes key; decimal time].

(** How a command that ran is to be logged at the time [now], in milliseconds: the
    command itself, with times to live replaced by the time of expiration. *)
Inductive logged_as (now : Z) : command_proc -> list robj -> list (list (list byte)) -> Prop :=
  | logged_expire name key arg v rest : robj_bytes arg = decimal v -> in_s 64 v -> in_s 64 (v * 1000) -> in_s 64 (v * 1000 + now) ->
      logged_as now ExpireCommand (name :: key :: arg :: rest) [expires key (v * 1000 + now)]
  | logged_pexpire name key arg v rest : robj_bytes arg = decimal v -> in_s 64 v -> in_s 64 (v + now) ->
      logged_as now PexpireCommand (name :: key :: arg :: rest) [expires key (v + now)]
  | logged_expireat name key arg v rest : robj_bytes arg = decimal v -> in_s 64 v -> in_s 64 (v * 1000) ->
      logged_as now ExpireatCommand (name :: key :: arg :: rest) [expires key (v * 1000)]
  | logged_setex name key arg v value rest : robj_bytes arg = decimal v -> in_s 64 v -> in_s 64 (v * 1000) -> in_s 64 (v * 1000 + now) ->
      logged_as now SetexCommand (name :: key :: arg :: value :: rest) [[bytes_of "SET"; robj_bytes key; robj_bytes value]; expires key (v * 1000 + now)]
  | logged_psetex name key arg v value rest : robj_bytes arg = decimal v -> in_s 64 v -> in_s 64 (v + now) ->
      logged_as now PsetexCommand (name :: key :: arg :: value :: rest) [[bytes_of "SET"; robj_bytes key; robj_bytes value]; expires key (v + now)]
  | logged_set name key value args l : spells args l -> one_unit l ->
      (forall t, ttl l = Some t -> in_s 64 t /\ in_s 64 (t + now)) ->
      logged_as now SetCommand (name :: key :: value :: args)
        ([robj_bytes name; robj_bytes key; robj_bytes value] :: match ttl l with Some t => [expires key (t + now)] | None => [] end)
  | logged_other argv : logged_as now OtherCommand argv [map robj_bytes argv].

Lemma strtoll_decimal v : in_s 64 v -> exists e, strtoll (decimal v ++ [0]) = Some (v, e).
Proof.
  intros Hv. unfold in_s in Hv. change (64 - 1) with 63 in Hv. destruct (decide (0 <= v)) as [Hp|Hneg].
  - destruct (decimal_digits v) as (Hd & Hne & Hval); [lia|]. rewrite (digit_first (decimal v) 0 []); [rewrite Hval; by eexists|done|done|by apply not_digit; left|].
    rewrite Hval. unfold LLONG_MAX. lia.
  - unfold decimal. rewrite (proj2 (Z.ltb_lt v 0)) by lia. destruct (decimal_chars v) as [Hd _]; [unfold in_s; change (64 - 1) with 63; lia|].
    unfold decimal in Hd. rewrite (proj2 (Z.ltb_lt v 0)) in Hd by lia. change (drop 1 (45 :: dec 20 (- v))) with (dec 20 (- v)) in Hd.
    unfold strtoll. cbn [app skip_spaces isspace Z.eqb Z.leb Z.compare Pos.compare Pos.compare_cont Pos.eqb orb andb mbind option_bind head drop].
    rewrite (digits_read (dec 20 (- v)) 0 []) by (done || (apply not_digit; by left)). cbn [mbind option_bind].
    assert (length (dec 20 (- v)) <> 0%nat) as Hl by (assert (2 ^ 63 < 10 ^ 20) by done; pose proof (dec_length_pos (- v)); lia).
    rewrite (proj2 (Nat.eqb_neq _ _) Hl). cbn [orb negb]. rewrite dec_dval by (assert (2 ^ 63 < 10 ^ 20) by done; lia).
    eexists. do 2 f_equal. unfold LLONG_MIN, LLONG_MAX. lia.
Qed.

Lemma expire_at_decimal seconds relative arg v now : robj_bytes arg = decimal v -> in_s 64 v -> (seconds = true -> in_s 64 (v * 1000)) ->
  let t := if seconds then v * 1000 else v in (relative = true -> in_s 64 (t + now)) -> expire_at seconds relative arg now = if relative then t + now else t.
Proof.
  intros Ea Hv Hs t Hr. unfold expire_at. rewrite Ea. destruct (strtoll_decimal v Hv) as [e ->]. cbn [fst].
  assert ((if seconds then s64 (v * 1000) else v) = t) as -> by (subst t; destruct seconds; [apply swrap_small; [done|auto]|done]).
  destruct relative; [|done]. apply swrap_small; [done|auto].
Qed.

Lemma word_cstr s w : Forall (fun c => c <> 0) s -> map tolower s = w -> map tolower (cstr s) = w.
Proof. intros Hs <-. f_equal. induction Hs as [|c s Hc _ IH]; [done|]. cbn [cstr]. by rewrite (proj2 (Z.eqb_neq _ _) Hc), IH. Qed.

Lemma word_eq o w : word w o -> exists s, o = OSds s /\ forall x, strcaseeq s (bytes_of x) = bool_decide (w = map tolower (cstr (bytes_of x))).
Proof. intros (s & -> & H0 & Hw). exists s. split; [done|]. intros x. unfold strcaseeq. by rewrite (word_cstr s w H0 Hw). Qed.

(** A number is not taken for an option. *)
Lemma decimal_no_option v : in_s 64 v -> strcaseeq (decimal v) (bytes_of "ex") = false /\ strcaseeq (decimal v) (bytes_of "px") = false.
Proof.
  intros Hv. assert (exists c r, decimal v = c :: r /\ (c = 45 \/ digit c)) as (c & r & -> & Hc).
  { destruct (decimal_chars v Hv) as [Hd Hh]. pose proof (decimal_length v) as Hl. destruct (decimal v) as [|c r]; [cbn in Hl; lia|].
    exists c, r. split; [done|]. destruct (v <? 0) eqn:E; zbool; [left; specialize (Hh E); by injection Hh|right; by inversion Hd]. }
  unfold strcaseeq. assert (c <> 0) as Hc0 by (unfold digit in Hc; lia). cbn [cstr]. rewrite (proj2 (Z.eqb_neq _ _) Hc0). cbn [map].
  assert (tolower c = c) as -> by (unfold tolower; destruct (_ && _) eqn:E; zbool; unfold digit in Hc; lia).
  change (map tolower (cstr (bytes_of "ex"))) with [101; 120]. change (map tolower (cstr (bytes_of "px"))) with [112; 120].
  split; apply bool_decide_eq_false_2; intros [= E _]; unfold digit in Hc; lia.
Qed.

(** The last argument of each of the two options. *)
Fixpoint last_ex (l : list set_option) : option Z :=
  match l with [] => None | o :: l => match last_ex l, o with Some v, _ => Some v | None, EX v => Some v | None, _ => None end end.
Fixpoint last_px (l : list set_option) : option Z :=
  match l with [] => None | o :: l => match last_px l, o with Some v, _ => Some v | None, PX v => Some v | None, _ => None end end.

Lemma set_options_spec args l : spells args l -> forall ex px,
  set_options args ex px = Some (match last_ex l with Some v => Some (OSds (decimal v)) | None => ex end, match last_px l with Some v => Some (OSds (decimal v)) | None => px end).
Proof.
  induction 1 as [|o args l Hw _ IH|o args l Hw _ IH|o v args l Hw Hv _ IH|o v args l Hw Hv _ IH]; intros ex px; [done|..];
    destruct (word_eq o _ Hw) as (s & -> & Hs); pose proof (Hs "ex"%string) as W1; pose proof (Hs "px"%string) as W2;
    match type of W1 with _ = ?b => let v := eval vm_compute in b in change b with v in W1 end;
    match type of W2 with _ = ?b => let v := eval vm_compute in b in change b with v in W2 end; cbn [set_options]; rewrite W1, W2.
  1,2: cbn [orb andb]; rewrite IH; cbn [last_ex last_px]; by destruct (last_ex l), (last_px l).
  all: destruct (decimal_no_option v Hv) as [E1 E2]; cbn [orb andb length Nat.eqb head]; rewrite E1, E2; cbn [orb andb];
    rewrite IH; cbn [last_ex last_px]; by destruct (last_ex l), (last_px l).
Qed.

Lemma ttl_last l : one_unit l -> match last_ex l, last_px l with
  | Some _, Some _ => False
  | Some v, None => ttl l = Some (v * 1000)
  | None, Some v => ttl l = Some v
  | None, None => ttl l = None
  end.
Proof.
  induction l as [|o l IH]; intros Hone; [done|]. assert (one_unit l) as Hone' by (destruct Hone as [H|H]; [left|right]; intros v Hv; apply (H v); by right).
  specialize (IH Hone'). cbn [last_ex last_px ttl].
  assert (forall v w, last_ex l = Some v -> o <> PX w) as Hex.
  { intros v w E ->. assert (EX v ∈ l) as Hin.
    { clear -E. revert v E. induction l as [|o l IH]; intros v E; cbn [last_ex] in E; [done|]. destruct (last_ex l) as [v'|]; [right; apply IH; congruence|]. destruct o; simplify_eq; left. }
    destruct Hone as [H|H]; [apply (H v); by right|apply (H w); by left]. }
  assert (forall v w, last_px l = Some v -> o <> EX w) as Hpx.
  { intros v w E ->. assert (PX v ∈ l) as Hin.
    { clear -E. revert v E. induction l as [|o l IH]; intros v E; cbn [last_px] in E; [done|]. destruct (last_px l) as [v'|]; [right; apply IH; congruence|]. destruct o; simplify_eq; left. }
    destruct Hone as [H|H]; [apply (H w); by left|apply (H v); by right]. }
  destruct (last_ex l) as [v|], (last_px l) as [w|]; try done.
  - rewrite IH. destruct o as [| |x|x]; try done. by destruct (Hex v x).
  - rewrite IH. destruct o as [| |x|x]; try done. by destruct (Hpx w x).
  - rewrite IH. by destruct o.
Qed.

(** The model of the code agrees. *)
Lemma logged_commands now proc argv cmds : logged_as now proc argv cmds -> aof_commands proc argv now = Some cmds.
Proof.
  intros H. destruct H; cbn [aof_commands]; unfold pexpireat, expires; try (by erewrite expire_at_decimal by done); [|done].
  rename H into Hsp, H0 into Hone, H1 into Ht. pose proof (ttl_last l Hone) as Hl. pose proof (set_options_spec args l Hsp None None) as Hset.
  destruct args as [|o args].
  { inversion Hsp; subst. done. }
  change (drop 3 (name :: key :: value :: o :: args)) with (o :: args). rewrite Hset. cbn [mbind option_bind].
  assert (forall v, last_ex l = Some v \/ last_px l = Some v -> in_s 64 v) as Hrange.
  { clear -Hsp. induction Hsp as [|o1 args1 l _ _ IH|o1 args1 l _ _ IH|o1 v args1 l _ Hv _ IH|o1 v args1 l _ Hv _ IH]; cbn [last_ex last_px]; intros x;
      [by intros [[=]|[=]]|destruct (last_ex l), (last_px l); naive_solver..]. }
  revert Hl Hrange. destruct (last_ex l) as [v|], (last_px l) as [w|]; intros Hl Hrange; [done|..]; rewrite Hl; cbn [mbind option_bind].
  - destruct (Ht _ Hl). rewrite (expire_at_decimal true true _ v); auto.
  - destruct (Ht _ Hl). rewrite (expire_at_decimal false true _ w); auto. done.
  - done.
Qed.

(** ** The blocks *)

Definition block_ok (b : aofrwblock) : Prop := 0 <= bk_free b /\ Z.of_nat (length (bk_used b)) + bk_free b = AOF_RW_BUF_BLOCK_SIZE.

Definition content (blocks : list aofrwblock) : list byte := blocks ≫= bk_used.

Lemma content_app b1 b2 : content (b1 ++ b2) = content b1 ++ content b2.
Proof. apply bind_app. Qed.

Lemma fill_last_spec blocks s : Forall block_ok blocks -> exists blocks' s', fill_last blocks s = Some (blocks', s') /\ Forall block_ok blocks' /\ content blocks' ++ s' = content blocks ++ s /\
  (length s' <= length s)%nat /\ (forall b, last blocks = Some b -> 0 < bk_free b -> s <> [] -> (length s' < length s)%nat).
Proof.
  intros Hok. unfold fill_last. destruct (last blocks) as [b|] eqn:El; [|by exists blocks, s]. apply last_Some in El as [init ->]. apply Forall_app in Hok as [Hi [Hb _]%Forall_cons]. destruct Hb as [Hf Hs].
  set (t := if bk_free b <? Z.of_nat (length s) then bk_free b else Z.of_nat (length s)). assert (0 <= t <= Z.of_nat (length s) /\ t <= bk_free b) as Ht by (subst t; destruct (Z.ltb_spec (bk_free b) (Z.of_nat (length s))); lia).
  destruct (Z.eqb_spec t 0) as [Et|Et].
  - exists (init ++ [b]), s. split_and!; [done|by apply Forall_app; repeat constructor|done|done|]. intros b' [= <-] Hpos Hne. exfalso. subst t. destruct s; [done|]. cbn [length] in *. destruct (Z.ltb_spec (bk_free b) (Z.of_nat (S (length s)))); lia.
  - rewrite Z.gtb_ltb, (proj2 (Z.ltb_ge _ _)) by lia. rewrite length_app. cbn [length]. replace (length init + 1 - 1)%nat with (length init) by lia. rewrite take_app_length. eexists _, _. split; [done|].
    split_and!; [|rewrite !content_app; unfold content; cbn; rewrite !app_nil_r, <- !app_assoc; by rewrite take_drop|rewrite length_drop; lia|rewrite length_drop; intros; lia].
    apply Forall_app. split; [done|]. constructor; [|done]. unfold block_ok. cbn. rewrite length_app, length_take. lia.
Qed.

Lemma append_spec fuel : forall blocks s, Forall block_ok blocks -> (length s < fuel)%nat \/ ((length s <= fuel)%nat /\ exists b, last blocks = Some b /\ 0 < bk_free b) -> exists blocks',
  aofRewriteBufferAppend fuel blocks s = Some blocks' /\ Forall block_ok blocks' /\ content blocks' = content blocks ++ s.
Proof.
  induction fuel as [|fuel IH]; intros blocks s Hok Hfuel; (destruct s as [|x s]; [exists blocks; cbn; rewrite app_nil_r; done|]); [cbn in Hfuel; lia|]. cbn [aofRewriteBufferAppend].
  destruct (fill_last_spec blocks (x :: s) Hok) as (blocks1 & s1 & -> & Hok1 & Hc & Hle & Hlt). cbn [mbind option_bind fst snd]. destruct s1 as [|y s1]; [exists blocks1; rewrite app_nil_r in Hc; done|].
  destruct (IH (blocks1 ++ [mkBlock [] AOF_RW_BUF_BLOCK_SIZE]) (y :: s1)) as (blocks' & -> & Hok' & Hc').
  - apply Forall_app. split; [done|]. constructor; [|done]. by split.
  - right. split; [|exists (mkBlock [] AOF_RW_BUF_BLOCK_SIZE); by rewrite last_snoc]. destruct Hfuel as [Hf|[Hf (b & Hb & Hpos)]]; [lia|]. pose proof (Hlt b Hb Hpos ltac:(done)). lia.
  - exists blocks'. split_and!; [done|done|]. rewrite Hc', content_app, <- Hc. unfold content at 2. cbn. by rewrite app_nil_r.
Qed.

Lemma send_spec fuel : forall stop blocks results, Forall block_ok blocks -> (length blocks + length results < fuel)%nat -> exists blocks' sent,
  aofChildWriteDiffData fuel stop blocks results = Some (blocks', sent) /\ Forall block_ok blocks' /\ sent ++ content blocks' = content blocks /\ (stop = true -> sent = []).
Proof.
  induction fuel as [|fuel IH]; intros stop blocks results Hok Hfuel; [lia|]. cbn [aofChildWriteDiffData]. destruct blocks as [|b rest]; [by exists [], []|]. destruct stop; [by exists (b :: rest), []|].
  inversion Hok as [|? ? [Hf Hs] Hrest]; subst. destruct (Z.ltb_spec 0 (Z.of_nat (length (bk_used b)))) as [Hpos|Hz].
  - destruct results as [|r results]; [by exists (b :: rest), []|]. set (n := Z.min r (Z.of_nat (length (bk_used b)))). destruct (Z.leb_spec n 0) as [Hn|Hn]; [by exists (b :: rest), []|].
    set (b' := mkBlock (drop (Z.to_nat n) (bk_used b)) (bk_free b + n)). assert (block_ok b') as Hb' by (split; cbn; [lia|rewrite length_drop; lia]). cbn [length] in Hfuel.
    set (blocks1 := if (length (bk_used b') =? 0)%nat then rest else b' :: rest). assert (Forall block_ok blocks1 /\ (length blocks1 <= S (length rest))%nat /\ take (Z.to_nat n) (bk_used b) ++ content blocks1 = content (b :: rest)) as (Hok1 & Hl1 & Hc1).
    { subst blocks1. destruct (length (bk_used b') =? 0)%nat eqn:E; [apply Nat.eqb_eq in E; cbn in E; rewrite length_drop in E|]; (split_and!; [try done; by constructor|cbn; lia|]); unfold content; cbn; [rewrite take_ge by lia; done|by rewrite app_assoc, take_drop]. }
    destruct (IH false blocks1 results Hok1) as (blocks' & sent & -> & Hok' & Hc' & _); [cbn; lia|]. cbn [mbind option_bind fst snd]. eexists _, _. split_and!; [done|done| |done]. by rewrite <- app_assoc, Hc'.
  - destruct (IH false rest results Hrest) as (blocks' & sent & -> & Hok' & Hc' & Hst); [cbn in Hfuel; lia|]. eexists _, _. split_and!; [done|done| |done]. rewrite Hc'. unfold content. cbn. assert (length (bk_used b) = 0%nat) as ->%nil_length_inv by lia. done.
Qed.

Lemma buffer_write_spec blocks : forall ok diff, aofRewriteBufferWrite blocks ok = Some diff -> diff = content blocks.
Proof.
  induction blocks as [|b blocks IH]; intros ok diff E; cbn [aofRewriteBufferWrite] in E; [by injection E as <-|]. destruct (length (bk_used b) =? 0)%nat eqn:El.
  - apply Nat.eqb_eq, nil_length_inv in El. unfold content. cbn. rewrite El. by apply (IH ok).
  - destruct (default true (head ok)); [|done]. apply bind_Some in E as (q & Eq & [= <-]). by rewrite (IH _ _ Eq).
Qed.

(** ** Writing *)

Lemma aof_write_loop_spec results : forall buf, exists rest, buf = (aof_write_loop results buf).1 ++ rest /\ ((aof_write_loop results buf).2 = false <-> rest = []).
Proof.
  induction results as [|r results IH]; intros buf; (destruct buf as [|x buf]; [by exists []|]); cbn [aof_write_loop fst snd]; [by exists (x :: buf)|]. destruct r as [n| |].
  - cbn [fst snd]. set (k := Z.to_nat (Z.min (Z.max 0 n) (Z.of_nat (length (x :: buf))))). destruct (IH (drop k (x :: buf))) as (rest & E & Hr). exists rest. split; [|done]. by rewrite <- app_assoc, <- E, take_drop.
  - destruct (IH (x :: buf)) as (rest & E & Hr). exists rest. by split.
  - by exists (x :: buf).
Qed.

Lemma aofWrite_spec results buf : exists rest, buf = (aofWrite results buf).1 ++ rest /\ ((aofWrite results buf).2 = Z.of_nat (length buf) <-> rest = []) /\
  ((aofWrite results buf).2 = Z.of_nat (length (aofWrite results buf).1) \/ ((aofWrite results buf).2 = -1 /\ (aofWrite results buf).1 = [])).
Proof.
  destruct (aof_write_loop_spec results buf) as (rest & E & Hr). exists rest. unfold aofWrite. cbn [fst snd]. split; [done|]. set (w := (aof_write_loop results buf).1) in *. destruct (aof_write_loop results buf).2.
  - assert (rest <> []) as Hne by (intros Hn; by apply Hr in Hn). assert (length rest <> 0)%nat as Hl by (by destruct rest). apply (f_equal length) in E. rewrite length_app in E.
    destruct (length w =? 0)%nat eqn:El; [apply Nat.eqb_eq, nil_length_inv in El; split; [split; [lia|done]|by right]|split; [split; [lia|done]|by left]].
  - assert (rest = []) as -> by by apply Hr. rewrite app_nil_r in E. split; [|by left]. split; [done|]. intros _. by rewrite <- E.
Qed.

(** ** Runs *)

Inductive aevent :=
  | AFeed (proc : command_proc) (dictid : Z) (argv : list robj) (now : Z)
  | AFlush (policy : aof_fsync) (force busy saving : bool) (now : Z) (results : list write_result) (truncate_ok : bool)
  | ARewrite (rdb pipes forked : bool) (dump : list byte)
  | ASend (results : list Z)
  | AChildRead (n : nat)
  | AChildAsk
  | AAck (sent : bool)
  | AChildDone
  | ADone (exited opened : bool) (ok : list bool) (renamed : bool) (policy : aof_fsync)
  | AStop (policy : aof_fsync) (busy saving : bool) (now : Z) (results : list write_result) (truncate_ok : bool)
  | AStart (opened rdb pipes forked : bool) (dump : list byte) (now : Z).

(** [None]: an assertion fails, or the process exits. *)
Definition aof_step (junk : nat -> byte) (a : aof) (e : aevent) : option aof :=
  match e with
  | AFeed proc dictid argv now => feedAppendOnlyFile junk a proc dictid argv now
  | AFlush policy force busy saving now results truncate_ok => flushAppendOnlyFile a policy force busy saving now results truncate_ok
  | ARewrite rdb pipes forked dump => Some (rewriteAppendOnlyFileBackground a rdb pipes forked dump).1
  | ASend results => send_diff a results
  | AChildRead n => Some (child_reads a n)
  | AChildAsk => Some (child_asks a)
  | AAck sent => Some (aofChildPipeReadable a sent)
  | AChildDone => Some (child_finishes a)
  | ADone exited opened ok renamed policy => Some (backgroundRewriteDoneHandler a exited opened ok renamed policy)
  | AStop policy busy saving now results truncate_ok => stopAppendOnly a policy busy saving now results truncate_ok
  | AStart opened rdb pipes forked dump now => r ← startAppendOnly a opened rdb pipes forked dump now; Some r.1
  end.

Definition aevent_ok (e : aevent) : Prop :=
  match e with
  | AFeed proc dictid argv now => Forall obj_ok argv /\ Z.of_nat (length argv) < 2 ^ 62 /\ 0 <= dictid < 2 ^ 31 /\
      exists cmds, aof_commands proc argv now = Some cmds /\ cmds <> [] /\ Forall (fun c => selected c = None) cmds
  | _ => True
  end.

(** The commands an event logs, with their database. *)
Definition logs (e : aevent) : list (Z * list (list byte)) :=
  match e with AFeed proc dictid argv now => map (pair dictid) (default [] (aof_commands proc argv now)) | _ => [] end.

Definition forks (a : aof) (e : aevent) : bool :=
  match e with
  | ARewrite rdb pipes forked _ => negb (bool_decide (is_Some (a_child a))) && negb rdb && pipes && forked
  | AStart opened rdb pipes forked _ _ => opened && negb rdb && pipes && forked
  | _ => false
  end.

(** The file is replaced. *)
Definition replaces (a : aof) (e : aevent) : bool :=
  match e with
  | ADone exited opened ok renamed _ =>
      match a_child a with
      | Some c => bool_decide (is_Some (ch_file c)) && exited && opened && bool_decide (is_Some (aofRewriteBufferWrite (a_blocks a) ok)) && renamed && a_open a
      | None => false
      end
  | _ => false
  end.

(** What is known of a log: the bytes it began with, and the commands since. *)
Abbreviation history := (list byte * list (Z * list (list byte)))%type.

Definition next_live (a : aof) (e : aevent) (live : history) (kid : option history) : history :=
  if replaces a e then default live kid else (live.1, live.2 ++ logs e).

Definition next_kid (a : aof) (e : aevent) (a' : aof) (kid : option history) : option history :=
  match a_child a' with
  | None => None
  | Some c => if forks a e then Some (ch_dump c, []) else (fun k => (k.1, k.2 ++ logs e)) <$> kid
  end.

(** A server that starts with the file [D], with or without writing to it. *)
Definition aof_start (a : aof) (D : list byte) : Prop :=
  a_file a = D /\ a_buf a = [] /\ a_current_size a = Z.of_nat (length D) /\ a_selected_db a = -1 /\ a_blocks a = [] /\ a_child a = None /\ a_pipe a = [] /\
  (a_state a = AOF_ON /\ a_open a = true \/ a_state a = AOF_OFF /\ a_open a = false).

Inductive areach (junk : nat -> byte) : aof -> history -> option history -> Prop :=
  | areach_start a D : aof_start a D -> areach junk a (D, []) None
  | areach_step a live kid e a' : areach junk a live kid -> aevent_ok e -> aof_step junk a e = Some a' -> areach junk a' (next_live a e live kid) (next_kid a e a' kid).

(** ** The invariant *)

(** Only databases of commands are selected. *)
Definition selects (R : list (list (list byte))) (C : list (Z * list (list byte))) : Prop :=
  Forall (fun c => selected c = None \/ exists n, c = [bytes_of "SELECT"; decimal n] /\ selected c = Some n /\ n ∈ map fst C) R.

(** [R] is made of the commands [C]; the next ones go to the database [sel]. *)
Definition follows (sel : Z) (R : list (list (list byte))) (C : list (Z * list (list byte))) : Prop :=
  (forall db, replay db R = C) /\ (sel = -1 \/ forall db, last_db db R = sel) /\ selects R C.

Lemma follows_nil : follows (-1) [] [].
Proof. split_and!; [done|by left|constructor]. Qed.

Lemma follows_forget sel R C : follows sel R C -> follows (-1) R C.
Proof. intros (Hr & _ & Hs). split_and!; [done|by left|done]. Qed.

Lemma selects_app R C C' : selects R C -> selects R (C ++ C').
Proof. intros H. eapply Forall_impl; [exact H|]. intros c [Hc|(n & E & Hs & Hn)]; [by left|right]. exists n. split_and!; [done|done|]. rewrite map_app. set_solver. Qed.

Lemma follows_feed sel R C dictid cmds : follows sel R C -> 0 <= dictid < 2 ^ 31 -> Forall (fun c => selected c = None) cmds -> cmds <> [] ->
  follows dictid (R ++ (if sel =? dictid then [] else [[bytes_of "SELECT"; decimal dictid]]) ++ cmds) (C ++ map (pair dictid) cmds).
Proof.
  intros (Hr & Hs & Hsel) Hd Hc Hne. assert (forall db, replay db cmds = map (pair db) cmds /\ last_db db cmds = db) as Hp.
  { intros db. clear - Hc. induction Hc as [|c cmds Hc _ [IH1 IH2]]; [done|]. cbn [replay last_db map]. by rewrite Hc, IH1, IH2. }
  split_and!; [intros db|right; intros db|].
  - rewrite replay_app, Hr. f_equal. destruct (Z.eqb_spec sel dictid) as [<-|Hnd]; [destruct Hs as [?|Hs]; [lia|]; rewrite Hs; apply Hp|]. cbn [app replay]. rewrite selected_cmd by done. apply Hp.
  - rewrite last_db_app. destruct (Z.eqb_spec sel dictid) as [<-|Hnd]; [destruct Hs as [?|Hs]; [lia|]; rewrite Hs; apply Hp|]. cbn [app last_db]. rewrite selected_cmd by done. apply Hp.
  - apply Forall_app. split; [by apply selects_app|]. apply Forall_app. split; [|eapply Forall_impl; [exact Hc|]; by left]. destruct (sel =? dictid); constructor; [|done]. right. exists dictid.
    split_and!; [done|by apply selected_cmd|]. destruct cmds as [|c cmds]; [done|]. rewrite map_app. apply elem_of_app. right. left.
Qed.

Definition live_ok (a : aof) (live : history) : Prop :=
  a_current_size a = Z.of_nat (length (a_file a)) /\ exists R, a_file a ++ a_buf a = live.1 ++ requests R /\ follows (a_selected_db a) R live.2.

(** What was read by the child, is on the way, and is still kept. *)
Definition child_inv (a : aof) (c : aof_child) (kid : history) : Prop :=
  ch_dump c = kid.1 /\ (ch_acked c = true -> a_stop a = true) /\
  (exists R, ch_diff c ++ a_pipe a ++ content (a_blocks a) = requests R /\ follows (a_selected_db a) R kid.2) /\
  forall f, ch_file c = Some f -> f = ch_dump c ++ ch_diff c /\ a_pipe a = [] /\ a_stop a = true.

Record aof_inv (a : aof) (live : history) (kid : option history) : Prop := {
  ai_blocks : Forall block_ok (a_blocks a);
  ai_open : a_open a = true <-> a_state a <> AOF_OFF;
  ai_live : a_state a = AOF_ON -> live_ok a live;
  ai_child : match a_child a, kid with Some c, Some k => child_inv a c k | None, None => a_blocks a = [] /\ a_pipe a = [] | _, _ => False end
}.

Lemma start_inv a D : aof_start a D -> aof_inv a (D, []) None.
Proof.
  intros (Hf & Hb & Hs & Hsel & Hbl & Hc & Hp & Hst). constructor.
  - rewrite Hbl. constructor.
  - destruct Hst as [[-> ->]|[-> ->]]; done.
  - intros _. split; [by rewrite Hf|]. exists []. rewrite Hf, Hb, Hsel. split; [done|apply follows_nil].
  - by rewrite Hc.
Qed.

(** ** Flushing *)

(** Writing changes the file, the buffer and what is known of them only. *)
Record writes (a a' : aof) : Prop := {
  wr_state : a_state a' = a_state a;
  wr_open : a_open a' = a_open a;
  wr_db : a_selected_db a' = a_selected_db a;
  wr_blocks : a_blocks a' = a_blocks a;
  wr_child : a_child a' = a_child a;
  wr_pipe : a_pipe a' = a_pipe a;
  wr_stop : a_stop a' = a_stop a
}.

Lemma writes_refl a : writes a a.
Proof. done. Qed.

(** Nothing is lost, and the size is known. *)
Definition nothing_lost (a a' : aof) : Prop :=
  a_current_size a = Z.of_nat (length (a_file a)) -> a_current_size a' = Z.of_nat (length (a_file a')) /\ a_file a' ++ a_buf a' = a_file a ++ a_buf a.

Lemma fsync_writes a policy saving sync now : writes a (try_fsync a policy saving sync now) /\ a_file (try_fsync a policy saving sync now) = a_file a /\
  a_buf (try_fsync a policy saving sync now) = a_buf a /\ a_current_size (try_fsync a policy saving sync now) = a_current_size a.
Proof. unfold try_fsync. destruct saving; [done|]. destruct policy; try done. destruct (_ <? _); [|done]. by destruct sync. Qed.

Lemma ftruncate_app (f w : list byte) : ftruncate (f ++ w) (Z.of_nat (length f)) = f.
Proof. unfold ftruncate. rewrite Nat2Z.id, <- app_assoc. apply take_app_length. Qed.

Lemma write_buffer_spec a policy results truncate_ok saving sync now a' : write_buffer a policy results truncate_ok saving sync now = Some a' -> writes a a' /\ nothing_lost a a'.
Proof.
  unfold write_buffer. set (res := if a_open a then results else []). destruct (aofWrite_spec res (a_buf a)) as (rest & Eb & Hall & Hret). set (w := aofWrite res (a_buf a)) in *. clearbody w.
  destruct (Z.eqb_spec w.2 (Z.of_nat (length (a_buf a)))) as [E|E].
  - intros [= <-]. apply Hall in E as ->. rewrite app_nil_r in Eb. set (a1 := with_written a (a_file a ++ w.1) [] (a_current_size a + w.2) 0 true). destruct (fsync_writes a1 policy saving sync now) as ([] & Hf & Hbu & Hsz).
    split; [by constructor|]. intros Hcs. rewrite Hf, Hbu, Hsz. cbn [a1 with_written a_file a_buf a_current_size]. rewrite <- Eb, app_nil_r, length_app. split; [|done]. pose proof (proj2 Hall eq_refl). lia.
  - unfold write_failed. intros Ef. assert (policy <> AOF_FSYNC_ALWAYS) as Hpol by (intros ->; done). set (undone := (w.2 =? -1) || truncate_ok) in Ef.
    assert (Some (if 0 <? (if undone then -1 else w.2) then
       with_written a (if w.2 =? -1 then a_file a else if truncate_ok then ftruncate (a_file a ++ w.1) (a_current_size a) else a_file a ++ w.1) (drop (Z.to_nat (if undone then -1 else w.2)) (a_buf a)) (a_current_size a + (if undone then -1 else w.2)) 0 false
       else with_written a (if w.2 =? -1 then a_file a else if truncate_ok then ftruncate (a_file a ++ w.1) (a_current_size a) else a_file a ++ w.1) (a_buf a) (a_current_size a) 0 false) = Some a') as Ef2 by (destruct policy; [|done|]; by destruct (0 <? _)).
    clear Ef. injection Ef2 as <-. split; [by destruct (0 <? _)|]. intros Hcs. subst undone. destruct Hret as [Hret|[Hret Hw]].
    + rewrite (proj2 (Z.eqb_neq w.2 (-1))) by lia. cbn [orb]. destruct truncate_ok; cbn [Z.ltb Z.compare]; [cbn [with_written a_file a_buf a_current_size]; by rewrite Hcs, ftruncate_app|].
      destruct (Z.ltb_spec 0 w.2) as [Hpos|Hz]; cbn [with_written a_file a_buf a_current_size].
      * rewrite Hret, Nat2Z.id, length_app. split; [lia|]. by rewrite Eb, drop_app_length, <- app_assoc.
      * assert (w.1 = []) as -> by (apply nil_length_inv; lia). by rewrite app_nil_r.
    + rewrite Hret. cbn. done.
Qed.

Lemma flush_spec a policy force busy saving now results truncate_ok a' : flushAppendOnlyFile a policy force busy saving now results truncate_ok = Some a' -> writes a a' /\ nothing_lost a a'.
Proof.
  unfold flushAppendOnlyFile. destruct (length (a_buf a) =? 0)%nat.
  - destruct (_ && _); intros [= <-]; [|done]. destruct (fsync_writes a policy saving false now) as (Hw & Hf & Hb & Hs). split; [done|]. intros Hcs. by rewrite Hf, Hb, Hs.
  - destruct (_ && _); [|apply write_buffer_spec]. destruct (a_postponed a =? 0); [by intros [= <-]|]. destruct (_ <? 2); [by intros [= <-]|apply write_buffer_spec].
Qed.

Lemma writes_inv a a' live kid : aof_inv a live kid -> writes a a' -> (a_state a = AOF_ON -> nothing_lost a a') -> aof_inv a' live kid.
Proof.
  intros [Hbl Hop Hli Hch] [Hst Ho Hdb Hb Hc Hp Hs] Hn. constructor.
  - by rewrite Hb.
  - by rewrite Ho, Hst.
  - rewrite Hst. intros Hon. destruct (Hli Hon) as (Hcs & R & E & Hf). destruct (Hn Hon Hcs) as [Hcs' E']. split; [done|]. exists R. by rewrite E', Hdb.
  - rewrite Hc. unfold child_inv. rewrite Hb, Hp, Hs, Hdb. done.
Qed.

(** ** Every event keeps the invariant *)

Section inv.
Context (junk : nat -> byte).

Lemma logged_inv a proc dictid argv now a' live kid : aof_inv a live kid -> aevent_ok (AFeed proc dictid argv now) -> aof_step junk a (AFeed proc dictid argv now) = Some a' ->
  aof_inv a' (next_live a (AFeed proc dictid argv now) live kid) (next_kid a (AFeed proc dictid argv now) a' kid).
Proof.
  intros [Hbl Hop Hli Hch] (Ho & Hl & Hd & cmds & Ec & Hne & Hsel) E. cbn [aof_step] in E. unfold feedAppendOnlyFile in E. apply bind_Some in E as (buf & Eb & E). apply bind_Some in E as (blocks & Ek & [= <-]).
  rewrite translate_spec, Ec in Eb by done. cbn [mbind option_bind] in Eb. injection Eb as <-. unfold next_live, next_kid. cbn [replaces forks logs]. rewrite Ec. cbn [default].
  set (pre := if a_selected_db a =? dictid then [] else [[bytes_of "SELECT"; decimal dictid]]). assert ((if a_selected_db a =? dictid then [] else select_cmd dictid) ++ requests cmds = requests (pre ++ cmds)) as Er.
  { subst pre. destruct (a_selected_db a =? dictid); [done|]. by rewrite select_cmd_request. }
  rewrite Er in *. constructor; cbn [with_appended a_blocks a_open a_state a_child].
  - destruct (a_child a); [|by injection Ek as <-]. destruct (append_spec (S (length (requests (pre ++ cmds)))) (a_blocks a) (requests (pre ++ cmds)) Hbl) as (bl & Ea & Hok & _); [left; lia|]. rewrite Ea in Ek. by injection Ek as <-.
  - done.
  - intros Hon. destruct (Hli Hon) as (Hcs & R & E & Hf). split; [done|]. exists (R ++ pre ++ cmds). cbn [with_appended a_file a_buf a_selected_db fst snd]. rewrite bool_decide_eq_true_2 by done. split; [by rewrite (app_assoc (a_file a)), E, (requests_app R), <- app_assoc|]. by apply follows_feed.
  - destruct (a_child a) as [c|], kid as [k|]; try done; [|by injection Ek as <-]. cbn. destruct Hch as (Hdump & Hack & (R & E & Hf) & Hfile).
    destruct (append_spec (S (length (requests (pre ++ cmds)))) (a_blocks a) (requests (pre ++ cmds)) Hbl) as (bl & Ea & _ & Hco); [left; lia|]. rewrite Ea in Ek. injection Ek as <-. split_and!; [done|done| |done].
    exists (R ++ pre ++ cmds). cbn [with_appended a_pipe a_blocks a_selected_db]. split; [by rewrite Hco, (requests_app R), <- E, <- !app_assoc|]. by apply follows_feed.
Qed.
Lemma same_live a e live kid : replaces a e = false -> logs e = [] -> next_live a e live kid = live.
Proof. intros Hr Hl. unfold next_live. rewrite Hr, Hl, app_nil_r. by destruct live. Qed.

Lemma same_kid a e a' kid : forks a e = false -> logs e = [] -> (a_child a' = None -> kid = None) -> next_kid a e a' kid = kid.
Proof. intros Hf Hl Hn. unfold next_kid. rewrite Hf, Hl. destruct (a_child a'); [|by rewrite Hn]. destruct kid as [[D C]|]; [|done]. cbn. by rewrite app_nil_r. Qed.

Lemma no_child a live kid : aof_inv a live kid -> a_child a = None -> kid = None /\ a_blocks a = [] /\ a_pipe a = [].
Proof. intros [_ _ _ Hc] E. rewrite E in Hc. by destruct kid. Qed.

Lemma kill_inv a live kid : aof_inv a live kid -> aof_inv (killAppendOnlyChild a) live None /\ a_child (killAppendOnlyChild a) = None.
Proof.
  intros Hi. unfold killAppendOnlyChild. destruct (a_child a) eqn:Ec; [|destruct (no_child _ _ _ Hi Ec) as (-> & _); by split]. split; [|done]. destruct Hi as [Hbl Hop Hli Hch]. by constructor.
Qed.

(** The fork: what follows goes to both logs, and begins with a SELECT. *)
Lemma fork_inv a rdb pipes forked dump live kid : aof_inv a live kid -> let r := rewriteAppendOnlyFileBackground a rdb pipes forked dump in
  r.2 = negb (bool_decide (is_Some (a_child a))) && negb rdb && pipes && forked /\ (if r.2 then a_child r.1 = Some (mkChild dump [] false false None) else a_child r.1 = a_child a) /\
  a_state r.1 = a_state a /\ aof_inv r.1 live (if r.2 then Some (dump, []) else kid).
Proof.
  intros Hi. unfold rewriteAppendOnlyFileBackground. destruct (a_child a) as [c|] eqn:Ec; cbn [fst snd]; [rewrite bool_decide_eq_true_2 by (by eexists); by rewrite ?Ec|]. rewrite bool_decide_eq_false_2 by (by intros [? ?]).
  destruct (no_child _ _ _ Hi Ec) as (-> & Hb & Hp). pose proof Hi as [Hbl Hop Hli Hch]. destruct rdb, pipes, forked; cbn [orb andb negb fst snd]; try (by rewrite ?Ec).
  split_and!; [done|done|done|]. constructor; cbn [with_rewrite a_blocks a_open a_state a_child]; [done|done| |].
  - intros Hon. destruct (Hli Hon) as (Hcs & R & E & Hf). split; [done|]. exists R. split; [done|]. by eapply follows_forget.
  - split_and!; [done|done| |done]. exists []. cbn [with_rewrite a_pipe a_blocks a_selected_db ch_diff app]. rewrite Hb. split; [done|apply follows_nil].
Qed.

Lemma send_inv a results live kid : aof_inv a live kid -> exists a', send_diff a results = Some a' /\ (a_child a' = a_child a) /\ aof_inv a' live kid.
Proof.
  intros Hi. unfold send_diff. destruct (a_child a) as [c|] eqn:Ec; [|by exists a]. pose proof Hi as [Hbl Hop Hli Hch]. rewrite Ec in Hch. destruct kid as [k|]; [|done]. destruct Hch as (Hd & Hack & (R & E & Hf) & Hfile).
  destruct (send_spec (S (length (a_blocks a) + length results)) (a_stop a) (a_blocks a) results Hbl) as (blocks & sent & -> & Hok & Hc & Hst); [lia|]. cbn [mbind option_bind fst snd]. eexists. split; [done|]. split; [done|].
  constructor; cbn [with_rewrite a_blocks a_open a_state a_child]; [done|done|done|]. split_and!; [done|done| |].
  - exists R. split; [|done]. cbn [with_rewrite a_pipe a_blocks]. by rewrite <- app_assoc, Hc.
  - intros f Ef. destruct (Hfile f Ef) as (? & Hp & Hs). cbn [with_rewrite a_pipe a_stop]. split_and!; [done| |done]. by rewrite Hp, Hst.
Qed.

(** The steps of the child, and the answer of the parent. *)
Lemma child_step_inv a (step : aof_child -> aof_child * list byte * bool) c live kid : aof_inv a live (Some kid) -> a_child a = Some c ->
  (let '(c', pipe, stop) := step c in ch_dump c' = ch_dump c /\ ch_diff c' ++ pipe = ch_diff c ++ a_pipe a /\ (a_stop a = true -> stop = true) /\ (ch_acked c' = true -> stop = true) /\
     (forall f, ch_file c' = Some f -> f = ch_dump c' ++ ch_diff c' /\ pipe = [] /\ stop = true)) ->
  aof_inv (with_rewrite a (a_selected_db a) (a_blocks a) (Some (step c).1.1) (step c).1.2 (step c).2 (a_scheduled a)) live (Some kid).
Proof.
  intros [Hbl Hop Hli Hch] Ec. rewrite Ec in Hch. destruct Hch as (Hd & Hack & (R & E & Hf) & Hfile). destruct (step c) as [[c' pipe] stop]. intros (Hd' & Hdiff & Hst & Ha & Hf'). cbn [fst snd].
  constructor; cbn [with_rewrite a_blocks a_open a_state a_child]; [done|done|done|]. split_and!; [congruence|done| |done]. exists R. split; [|done]. cbn [with_rewrite a_pipe a_blocks]. by rewrite app_assoc, Hdiff, <- app_assoc.
Qed.

Lemma child_steps_inv a e a' live kid : aof_inv a live kid -> (exists n, e = AChildRead n) \/ e = AChildAsk \/ (exists sent, e = AAck sent) \/ e = AChildDone -> aof_step junk a e = Some a' ->
  aof_inv a' live kid /\ (a_child a' = None -> a_child a = None).
Proof.
  intros Hi He E. destruct (a_child a) as [c|] eqn:Ec.
  2:{ assert (a' = a) as -> by (destruct He as [[n ->]|[-> |[[sent ->]| ->]]]; cbn [aof_step] in E; unfold child_reads, child_asks, aofChildPipeReadable, child_finishes in E; rewrite Ec in E; by injection E). done. }
  pose proof (ai_child _ _ _ Hi) as Hch. rewrite Ec in Hch. destruct kid as [k|]; [|done]. destruct Hch as (_ & Hack & _ & Hfile).
  destruct He as [[n ->]|[-> |[[sent ->]| ->]]]; cbn [aof_step] in E; unfold child_reads, child_asks, aofChildPipeReadable, child_finishes, aofReadDiffFromParent in E; rewrite Ec in E; cbn [fst snd ch_diff] in E.
  - injection E as <-. split; [|done]. apply (child_step_inv a (fun c => (mkChild (ch_dump c) (ch_diff c ++ take n (a_pipe a)) (ch_asked c) (ch_acked c) (ch_file c), drop n (a_pipe a), a_stop a)) c live k Hi Ec). cbn.
    split_and!; [done|by rewrite <- app_assoc, take_drop|done|done|]. intros f Ef. destruct (Hfile f Ef) as (-> & -> & ->). by rewrite take_nil, drop_nil, app_nil_r.
  - injection E as <-. split; [|done]. by apply (child_step_inv a (fun c => (mkChild (ch_dump c) (ch_diff c) true (ch_acked c) (ch_file c), a_pipe a, a_stop a)) c live k Hi Ec).
  - destruct (ch_asked c); injection E as <-; (split; [|intros Hn; congruence || done]); [|done].
    apply (child_step_inv a (fun c => (mkChild (ch_dump c) (ch_diff c) true (ch_acked c || sent) (ch_file c), a_pipe a, true)) c live k Hi Ec). split_and!; try done. intros f Ef. by destruct (Hfile f Ef) as (? & ? & _).
  - destruct (ch_acked c && _) eqn:Ea; injection E as <-; (split; [|intros Hn; congruence || done]); [|done]. apply andb_true_iff in Ea as [Ea _].
    apply (child_step_inv a (fun c => (mkChild (ch_dump c) (ch_diff c ++ take (length (a_pipe a)) (a_pipe a)) true true (Some (ch_dump c ++ ch_diff c ++ take (length (a_pipe a)) (a_pipe a))), drop (length (a_pipe a)) (a_pipe a), a_stop a)) c live k Hi Ec). cbn.
    rewrite take_ge, drop_all by done. split_and!; [done|by rewrite app_nil_r|done|by intros _; apply Hack|]. intros f [= <-]. by auto.
Qed.

Lemma rewrite_done_inv a exited opened ok renamed policy live kid : aof_inv a live kid -> let a' := backgroundRewriteDoneHandler a exited opened ok renamed policy in
  a_child a' = None /\ aof_inv a' (next_live a (ADone exited opened ok renamed policy) live kid) None.
Proof.
  intros Hi a'. subst a'. unfold backgroundRewriteDoneHandler, next_live. cbn [replaces logs]. destruct (a_child a) as [c|] eqn:Ec.
  2:{ destruct (no_child _ _ _ Hi Ec) as (-> & _). rewrite app_nil_r. split; [done|]. by destruct live. }
  split; [done|]. pose proof Hi as [Hbl Hop Hli Hch]. rewrite Ec in Hch. destruct kid as [k|]; [|done]. destruct Hch as (Hd & _ & (R & E & Hf) & Hfile). cbn [default].
  assert (forall b, b = false -> aof_inv (with_rewrite a (a_selected_db a) [] None [] (a_stop a) (bool_decide (a_state a = AOF_WAIT_REWRITE) || a_scheduled a)) (if b : bool then k else (live.1, live.2 ++ [])) None) as Hkeep.
  { intros b ->. rewrite app_nil_r. destruct live. by constructor. }
  destruct (ch_file c) as [base|] eqn:Ef; [|by apply Hkeep]. destruct (Hfile base eq_refl) as (-> & Hp & _). rewrite (bool_decide_eq_true_2 (is_Some (Some _))) by by eexists. cbn [andb].
  destruct (exited && opened); [|by apply Hkeep]. destruct (aofRewriteBufferWrite (a_blocks a) ok) as [diff|] eqn:Ew; [|rewrite (bool_decide_eq_false_2 (is_Some None)) by (by intros [? ?]); by apply Hkeep]. rewrite (bool_decide_eq_true_2 (is_Some (Some diff))) by by eexists. cbn [andb].
  destruct renamed; [|by apply Hkeep]. cbn [andb]. unfold rewritten. destruct (a_open a) eqn:Eo.
  - assert (a_state a <> AOF_OFF) as Hst by by apply Hop. constructor; cbn [with_rewrite a_blocks a_open a_state a_child]; [done| | |done].
    + destruct (a_state a); [done| |]; done.
    + intros _. split; [done|]. exists R. cbn [with_rewrite a_file a_buf a_selected_db]. apply buffer_write_spec in Ew as ->. rewrite app_nil_r, Hp in *. split; [|by eapply follows_forget]. rewrite <- app_assoc, Hd. f_equal. done.
  - assert (a_state a = AOF_OFF) as Hoff by (destruct (a_state a) eqn:Es; try done; exfalso; assert (false = true) by (apply Hop; done); done).
    rewrite Hoff. constructor; cbn [with_rewrite with_file with_written with_state a_blocks a_open a_state a_child]; done.
Qed.

Lemma stop_inv a policy busy saving now results truncate_ok a' live kid : aof_inv a live kid -> stopAppendOnly a policy busy saving now results truncate_ok = Some a' -> aof_inv a' live None /\ a_child a' = None.
Proof.
  intros Hi. unfold stopAppendOnly. destruct (bool_decide _); [done|]. intros (a1 & E1%flush_spec & [= <-])%bind_Some. destruct E1 as [Hw Hn]. pose proof (writes_inv _ _ _ _ Hi Hw ltac:(done)) as [Hbl Hop Hli Hch].
  set (a2 := with_state _ _ _ _ _). assert (a_child a2 = a_child a1) as E2 by done. unfold killAppendOnlyChild. rewrite E2. destruct (a_child a1) as [c|] eqn:Ec.
  - split; [|done]. by constructor.
  - destruct kid; [done|]. split; [|done]. constructor; cbn [a2 with_state with_synced a_blocks a_open a_state a_child a_pipe]; try done. by rewrite Ec.
Qed.

Lemma started_inv a opened rdb pipes forked dump now r live kid : aof_inv a live kid -> startAppendOnly a opened rdb pipes forked dump now = Some r ->
  aof_inv r.1 live (next_kid a (AStart opened rdb pipes forked dump now) r.1 kid).
Proof.
  intros Hi. unfold startAppendOnly. destruct (bool_decide_reflect (a_state a = AOF_OFF)) as [Hoff|]; cbn [negb]; [|done]. destruct opened; cbn [negb].
  2:{ intros [= <-]. cbn [fst]. rewrite same_kid; [done|done|done|]. intros Hn. by apply (no_child a live). }
  assert (forall a1 k, aof_inv a1 live k -> forall db, db = a_selected_db a1 -> aof_inv (with_state a1 AOF_WAIT_REWRITE true db now) live k) as Hwait.
  { intros a1 k [Hbl Hop Hli Hch] db ->. by constructor. }
  destruct rdb.
  - intros [= <-]. cbn [fst]. rewrite same_kid; [|done|done|intros Hn; by apply (no_child a live)]. apply Hwait; [|done]. destruct Hi. by constructor.
  - destruct (kill_inv a live kid Hi) as [Hk Hkc]. destruct (fork_inv _ false pipes forked dump live None Hk) as (Hr & Hc & Hst & Hi2). rewrite Hkc in Hr. destruct (rewriteAppendOnlyFileBackground _ _ _ _ _) as [a1 f]. cbn [fst snd] in *.
    rewrite bool_decide_eq_false_2 in Hr by (by intros [? ?]). cbn [negb andb] in Hr. unfold next_kid. cbn [forks negb andb]. rewrite <- Hr. destruct f; intros [= <-]; cbn [fst with_state a_child].
    + rewrite Hc. cbn [ch_dump]. by apply Hwait.
    + by rewrite Hc, Hkc.
Qed.

Lemma astep_inv a e a' live kid : aof_inv a live kid -> aevent_ok e -> aof_step junk a e = Some a' -> aof_inv a' (next_live a e live kid) (next_kid a e a' kid).
Proof.
  intros Hi Hok E. destruct e as [proc dictid argv now|policy force busy saving now results tr|rdb pipes forked dump|results|n| |sent| |exited opened ok renamed policy|policy busy saving now results tr|opened rdb pipes forked dump now].
  { by apply logged_inv. }
  all: try (rewrite same_live by done). all: cbn [aof_step] in E.
  - destruct (flush_spec _ _ _ _ _ _ _ _ _ E) as [Hw Hn]. rewrite same_kid; [by apply (writes_inv a)|done|done|]. rewrite (wr_child _ _ Hw). apply (no_child a live kid Hi).
  - injection E as <-. destruct (fork_inv a rdb pipes forked dump live kid Hi) as (Hr & Hc & _ & Hi2). unfold next_kid. cbn [forks logs]. rewrite <- Hr. destruct (rewriteAppendOnlyFileBackground a rdb pipes forked dump) as [a1 f]. cbn [fst snd] in *.
    destruct f; rewrite Hc; [done|]. destruct (a_child a) eqn:Ec; [|destruct (no_child _ _ _ Hi Ec) as (-> & _); done]. destruct kid as [[D C]|]; cbn; [by rewrite app_nil_r|done].
  - destruct (send_inv a results live kid Hi) as (a1 & E1 & Hc & Hi1). rewrite E in E1. injection E1 as <-. rewrite same_kid; [done|done|done|]. rewrite Hc. apply (no_child a live kid Hi).
  - destruct (child_steps_inv a (AChildRead n) a' live kid Hi) as [Hi' Hn]; [left; by exists n|done|]. rewrite same_kid; [done|done|done|]. intros Hc. apply (no_child a live kid Hi). by apply Hn.
  - destruct (child_steps_inv a AChildAsk a' live kid Hi) as [Hi' Hn]; [by auto|done|]. rewrite same_kid; [done|done|done|]. intros Hc. apply (no_child a live kid Hi). by apply Hn.
  - destruct (child_steps_inv a (AAck sent) a' live kid Hi) as [Hi' Hn]; [right; right; left; by exists sent|done|]. rewrite same_kid; [done|done|done|]. intros Hc. apply (no_child a live kid Hi). by apply Hn.
  - destruct (child_steps_inv a AChildDone a' live kid Hi) as [Hi' Hn]; [by auto|done|]. rewrite same_kid; [done|done|done|]. intros Hc. apply (no_child a live kid Hi). by apply Hn.
  - injection E as <-. destruct (rewrite_done_inv a exited opened ok renamed policy live kid Hi) as [Hc Hi']. unfold next_kid. by rewrite Hc.
  - destruct (stop_inv _ _ _ _ _ _ _ _ _ _ Hi E) as [Hi' Hc]. unfold next_kid. by rewrite Hc.
  - apply bind_Some in E as (r & E & [= <-]). by apply (started_inv a).
Qed.

Lemma areach_inv a live kid : areach junk a live kid -> aof_inv a live kid.
Proof. induction 1; [by apply start_inv|by apply astep_inv]. Qed.

(** ** Properties *)

(** C22: The append only file is complete.  In every state that can be reached in which
    logging is on (and does not wait for the first rewrite), whatever writes, truncations and rewrites do, its bytes and
    those still in the buffer are what the file began with (at the start, or what the
    child of the last rewrite wrote for the data set) followed by requests that make
    a reader run exactly the commands logged since, in order and each in its database.
    The size the server believes the file to have is right. *)
Theorem aof_log_complete a live kid : areach junk a live kid -> a_state a = AOF_ON ->
  a_current_size a = Z.of_nat (length (a_file a)) /\ exists R, a_file a ++ a_buf a = live.1 ++ requests R /\ forall db, replay db R = live.2.
Proof. intros Hr Hon. destruct (ai_live _ _ _ (areach_inv _ _ _ Hr) Hon) as (Hs & R & E & Hf & _). split; [done|]. exists R. by split. Qed.

(** C23: A rewrite loses no command.  When the new file takes the place of the old one,
    it is what the child wrote for the data set at the fork followed by requests for
    exactly the commands that were logged since the fork: those read by the child
    before and after it asked to stop, and those the parent had kept; nothing is
    left in the buffer. *)
Theorem aof_rewrite_complete a live kid exited opened ok renamed policy : areach junk a live (Some kid) -> replaces a (ADone exited opened ok renamed policy) = true ->
  let a' := backgroundRewriteDoneHandler a exited opened ok renamed policy in
  a_state a' = AOF_ON /\ a_buf a' = [] /\ exists R, a_file a' = kid.1 ++ requests R /\ forall db, replay db R = kid.2.
Proof.
  intros Hr Hrep a'. pose proof (areach_inv _ _ _ Hr) as Hi. destruct (rewrite_done_inv a exited opened ok renamed policy live (Some kid) Hi) as [_ Hi']. unfold next_live in Hi'. rewrite Hrep in Hi'. cbn [default] in Hi'. fold a' in Hi'.
  assert (a_state a' = AOF_ON /\ a_buf a' = []) as [Hon Hb].
  { subst a'. unfold backgroundRewriteDoneHandler. cbn [replaces] in Hrep. destruct (a_child a) as [c|]; [|done]. rewrite !andb_true_iff in Hrep. destruct Hrep as [[[[[Hf Hex] Hop] Hw] Hren] Ho].
    apply bool_decide_eq_true in Hf as [f ->]. apply bool_decide_eq_true in Hw as [w ->]. subst exited opened renamed. cbn [andb]. pose proof (proj1 (ai_open _ _ _ Hi) Ho) as Hst. unfold rewritten. rewrite Ho. by destruct (a_state a). }
  split_and!; [done|done|]. destruct (ai_live _ _ _ Hi' Hon) as (_ & R & E & Hf & _). rewrite Hb, app_nil_r in E. exists R. by split.
Qed.

(** C24: What is logged.  From every state that can be reached, a command that ran is
    logged without failure: in the buffer while the file is written, and in the
    rewrite buffer while a child runs, a SELECT if its database is not the last one and
    then what [logged_as] asks for.  That is the command itself, but times to live,
    of EXPIRE, PEXPIRE, SETEX, PSETEX and of the options EX and PX of SET (in any
    case and mixed with NX and XX, the last one counts), and the seconds of EXPIREAT,
    become a PEXPIREAT with the time of expiration in milliseconds.  The times are
    decimal numbers for which seconds, milliseconds and the sum with the clock fit in
    64 bits, and SET does not have both EX and PX. *)
Theorem aof_feed_logs a live kid proc dictid argv now cmds : areach junk a live kid -> logged_as now proc argv cmds ->
  Forall obj_ok argv -> Z.of_nat (length argv) < 2 ^ 62 -> exists a',
  feedAppendOnlyFile junk a proc dictid argv now = Some a' /\
  let bytes := requests ((if a_selected_db a =? dictid then [] else [[bytes_of "SELECT"; decimal dictid]]) ++ cmds) in
  a_buf a' = (if bool_decide (a_state a = AOF_ON) then a_buf a ++ bytes else a_buf a) /\
  content (a_blocks a') = (if bool_decide (is_Some (a_child a)) then content (a_blocks a) ++ bytes else content (a_blocks a)) /\ a_selected_db a' = dictid.
Proof.
  intros Hr Hlog Ho Hl. pose proof (logged_commands _ _ _ _ Hlog) as Ec. pose proof (ai_blocks _ _ _ (areach_inv _ _ _ Hr)) as Hbl. unfold feedAppendOnlyFile. rewrite translate_spec, Ec by done. cbn [mbind option_bind].
  set (pre := if a_selected_db a =? dictid then [] else [[bytes_of "SELECT"; decimal dictid]]). assert ((if a_selected_db a =? dictid then [] else select_cmd dictid) ++ requests cmds = requests (pre ++ cmds)) as ->.
  { subst pre. destruct (a_selected_db a =? dictid); [done|]. by rewrite select_cmd_request. }
  destruct (a_child a).
  - destruct (append_spec (S (length (requests (pre ++ cmds)))) (a_blocks a) (requests (pre ++ cmds)) Hbl) as (bl & -> & _ & Hc); [left; lia|]. cbn [mbind option_bind]. eexists _. split_and!; [done|done| |done].
    cbn [with_appended a_blocks]. by rewrite (bool_decide_eq_true_2 (is_Some (Some _))) by by eexists.
  - cbn [mbind option_bind]. eexists _. split_and!; [done|done| |done]. by rewrite (bool_decide_eq_false_2 (is_Some None)) by (by intros [? ?]).
Qed.

(** What a disk that takes something at every call returns. *)
Definition accepts (r : write_result) : bool := match r with Wrote n => 0 <? n | _ => false end.

Lemma aof_write_loop_all results : forall buf, Forall (fun r => accepts r = true \/ r = Interrupted) results -> (length buf <= length (List.filter accepts results))%nat -> aof_write_loop results buf = (buf, false).
Proof.
  induction results as [|r results IH]; intros buf Hok Hl; (destruct buf as [|x buf]; [done|]); [cbn in Hl; lia|]. inversion Hok as [|? ? Hr Hok']; subst. destruct r as [n| |]; cbn [aof_write_loop].
  - destruct Hr as [Hr|]; [|done]. cbn [List.filter] in Hl. rewrite Hr in Hl. apply Z.ltb_lt in Hr. set (k := Z.to_nat (Z.min (Z.max 0 n) (Z.of_nat (length (x :: buf))))). assert (1 <= k)%nat by (subst k; cbn [length]; lia).
    rewrite IH by (done || (rewrite length_drop; cbn [length] in *; lia)). cbn [fst snd]. by rewrite take_drop.
  - by apply IH.
  - destruct Hr; done.
Qed.

(** C25: A flush makes the log durable.  Logging is on and the buffer is not empty; the
    policy is always, or everysec when a second has passed since the last fsync and
    no background fsync is in progress; and fsync is not suspended by
    no-appendfsync-on-rewrite during a save.  Then, when the disk takes something at
    every call, a flush writes the whole buffer, and asks for an fsync that covers the
    whole file, before it returns. *)
Theorem aof_flush_durable a live kid policy force busy now results truncate_ok : areach junk a live kid -> a_state a = AOF_ON -> a_buf a <> [] -> policy <> AOF_FSYNC_NO ->
  (policy = AOF_FSYNC_EVERYSEC -> a_last_fsync a < now /\ busy = false) ->
  Forall (fun r => accepts r = true \/ r = Interrupted) results -> (length (a_buf a) <= length (List.filter accepts results))%nat -> exists a',
  flushAppendOnlyFile a policy force busy false now results truncate_ok = Some a' /\ a_file a' = a_file a ++ a_buf a /\ a_buf a' = [] /\ a_disk a' = Z.of_nat (length (a_file a')).
Proof.
  intros Hr Hon Hb Hpol Hsec Hres Hlen. pose proof (areach_inv _ _ _ Hr) as Hi. assert (a_open a = true) as Ho by (apply (ai_open _ _ _ Hi); by rewrite Hon). unfold flushAppendOnlyFile. destruct (a_buf a) as [|x buf] eqn:Eb; [done|]. cbn [length Nat.eqb].
  assert (bool_decide (policy = AOF_FSYNC_EVERYSEC) && busy = false) as -> by (case_bool_decide as Hp; [by destruct (Hsec Hp) as [_ ->]|done]). rewrite andb_false_r.
  unfold write_buffer, aofWrite. rewrite Ho, Eb, aof_write_loop_all by done. cbn [fst snd]. rewrite Z.eqb_refl. eexists. split; [done|]. unfold try_fsync. destruct policy; [done|done|]. cbn [with_written a_last_fsync]. destruct (Hsec eq_refl) as [Hnow _]. by rewrite (proj2 (Z.ltb_lt _ _) Hnow).
Qed.
End inv.

(** ** Examples *)

Module AofWriteTests.
Definition zero (k : nat) : byte := 0.
Definition begin : aof := mkAof AOF_ON true [] 0 [] 0 0 0 0 true (-1) [] None [] false false.
Definition setex : aevent := AFeed SetexCommand 3 [OSds (bytes_of "SETEX"); OSds (bytes_of "k"); OSds (bytes_of "10"); OInt 7] 1000.
Definition del : aevent := AFeed OtherCommand 5 [OSds (bytes_of "DEL"); OSds (bytes_of "k")] 2000.
Definition step (a : aof) (e : aevent) : aof := default begin (aof_step zero a e).
Definition dump : list byte := bytes_of "dump".

Definition a1 : aof := Eval vm_compute in step begin setex.
Definition a2 : aof := Eval vm_compute in step a1 (ARewrite false true true dump).
Definition a3 : aof := Eval vm_compute in step a2 del.
Definition a4 : aof := Eval vm_compute in step a3 (ASend [5; 2]).
Definition a5 : aof := Eval vm_compute in step a4 AChildAsk.
Definition a6 : aof := Eval vm_compute in step a5 (AAck true).
Definition a7 : aof := Eval vm_compute in step a6 setex.
Definition a8 : aof := Eval vm_compute in step a7 AChildDone.

Lemma begin_ok : aof_start begin [].
Proof. by repeat split; left. Qed.

Lemma setex_ok : aevent_ok setex.
Proof. split; [repeat constructor; cbn; lia|]. split; [done|]. split; [lia|]. eexists. split; [vm_compute; reflexivity|]. split; [done|]. repeat constructor. Qed.

Lemma del_ok : aevent_ok del.
Proof. split; [repeat constructor; cbn; lia|]. split; [done|]. split; [lia|]. eexists. split; [vm_compute; reflexivity|]. split; [done|]. repeat constructor. Qed.

Definition logged1 : list (Z * list (list byte)) := logs setex.

Lemma reached1 : areach zero a1 ([], logged1) None.
Proof. apply (areach_step zero begin ([], []) None setex a1 (areach_start _ _ _ begin_ok) setex_ok). vm_compute. reflexivity. Qed.

Lemma reached8 : areach zero a8 ([], logged1 ++ logs del ++ logs setex) (Some (dump, logs del ++ logs setex)).
Proof.
  assert (areach zero a2 ([], logged1) (Some (dump, []))) as R2 by (apply (areach_step zero a1 ([], logged1) None (ARewrite false true true dump) a2 reached1 I); vm_compute; reflexivity).
  assert (areach zero a3 ([], logged1 ++ logs del) (Some (dump, logs del))) as R3 by (apply (areach_step zero a2 _ _ del a3 R2 del_ok); vm_compute; reflexivity).
  assert (areach zero a4 ([], logged1 ++ logs del) (Some (dump, logs del))) as R4 by (apply (areach_step zero a3 _ _ (ASend [5; 2]) a4 R3 I); vm_compute; reflexivity).
  assert (areach zero a5 ([], logged1 ++ logs del) (Some (dump, logs del))) as R5 by (apply (areach_step zero a4 _ _ AChildAsk a5 R4 I); vm_compute; reflexivity).
  assert (areach zero a6 ([], logged1 ++ logs del) (Some (dump, logs del))) as R6 by (apply (areach_step zero a5 _ _ (AAck true) a6 R5 I); vm_compute; reflexivity).
  assert (areach zero a7 ([], logged1 ++ logs del ++ logs setex) (Some (dump, logs del ++ logs setex))) as R7 by (apply (areach_step zero a6 _ _ setex a7 R6 setex_ok); vm_compute; reflexivity).
  apply (areach_step zero a7 _ _ AChildDone a8 R7 I). vm_compute. reflexivity.
Qed.
End AofWriteTests.

Lemma aof_log_complete_witness : exists R, a_file AofWriteTests.a8 ++ a_buf AofWriteTests.a8 = requests R /\ replay 0 R = AofWriteTests.logged1 ++ logs AofWriteTests.del ++ logs AofWriteTests.setex.
Proof. destruct (aof_log_complete AofWriteTests.zero _ _ _ AofWriteTests.reached8 eq_refl) as (_ & R & E & Hr). exists R. split; [exact E|exact (Hr 0)]. Defined.

Lemma aof_rewrite_complete_witness : exists R, a_file (backgroundRewriteDoneHandler AofWriteTests.a8 true true [true] true AOF_FSYNC_EVERYSEC) = AofWriteTests.dump ++ requests R /\
  replay 0 R = logs AofWriteTests.del ++ logs AofWriteTests.setex.
Proof.
  destruct (aof_rewrite_complete AofWriteTests.zero _ _ _ true true [true] true AOF_FSYNC_EVERYSEC AofWriteTests.reached8 eq_refl) as (_ & _ & R & E & Hr). exists R. split; [exact E|exact (Hr 0)].
Defined.

Definition set_px : list robj := [OSds (bytes_of "set"); OSds (bytes_of "k"); OInt 7; OSds (bytes_of "nx"); OSds (bytes_of "Px"); OSds (bytes_of "1500")].

Lemma set_px_logged : logged_as 1000 SetCommand set_px
  [[bytes_of "set"; bytes_of "k"; bytes_of "7"]; [bytes_of "PEXPIREAT"; bytes_of "k"; bytes_of "2500"]].
Proof.
  assert (forall x, Forall (fun c => c <> 0) (bytes_of x) -> word (map tolower (bytes_of x)) (OSds (bytes_of x))) as Hw by (intros x Hx; by exists (bytes_of x)).
  apply (logged_set 1000 (OSds (bytes_of "set")) (OSds (bytes_of "k")) (OInt 7) [OSds (bytes_of "nx"); OSds (bytes_of "Px"); OSds (bytes_of "1500")] [NX; PX 1500]).
  - apply spells_nx; [apply (Hw "nx"%string); by repeat constructor|]. apply (spells_px _ 1500); [apply (Hw "Px"%string); by repeat constructor|by unfold in_s|constructor].
  - left. intros v Hv. apply elem_of_cons in Hv as [[=]|Hv]. apply elem_of_cons in Hv as [[=]|Hv]. by apply not_elem_of_nil in Hv.
  - intros t [= <-]. by unfold in_s.
Qed.

Lemma aof_feed_logs_witness : exists a', feedAppendOnlyFile AofWriteTests.zero AofWriteTests.a1 SetCommand 3 set_px 1000 = Some a' /\
  a_buf a' = a_buf AofWriteTests.a1 ++ requests [[bytes_of "set"; bytes_of "k"; bytes_of "7"]; [bytes_of "PEXPIREAT"; bytes_of "k"; bytes_of "2500"]].
Proof.
  destruct (aof_feed_logs AofWriteTests.zero _ _ _ SetCommand 3 set_px 1000 _ AofWriteTests.reached1 set_px_logged) as (a' & E & Hb & _).
  - repeat constructor; cbn; lia.
  - done.
  - exists a'. split; [exact E|exact Hb].
Defined.

Lemma aof_flush_durable_witness : exists a', flushAppendOnlyFile AofWriteTests.a1 AOF_FSYNC_ALWAYS false true false 3 (Interrupted :: replicate 200 (Wrote 1)) true = Some a' /\ a_buf a' = [] /\ a_disk a' = Z.of_nat (length (a_file a')).
Proof.
  destruct (aof_flush_durable AofWriteTests.zero _ _ _ AOF_FSYNC_ALWAYS false true 3 (Interrupted :: replicate 200 (Wrote 1)) true AofWriteTests.reached1 eq_refl) as (a' & E & _ & Hb & Hd).
  - discriminate.
  - discriminate.
  - discriminate.
  - constructor; [right; reflexivity|]. apply Forall_replicate. left. reflexivity.
  - vm_compute. lia.
  - exists a'. split; [exact E|]. split; [exact Hb|exact Hd].
Defined.
