(* ===== verification/AofCrash.v ===== *)
(** * Crashes (src/redis-5.0.7/src/aof.c)

    The writer of [Aof] and the loader of [AofLoad] together: whatever part of the
    append only file is on the disk after a crash, the server comes back with the data
    of whole commands and transactions, a beginning of those that were logged. *)

From S2P Require Import Prelude Util Sds ServerDefs Protocol Reply Stream AofLoad Aof.
From stdpp Require Import strings.

Local Open Scope Z_scope.

(** ** The items of a log with its SELECT commands *)

Definition unselected (c : list (list byte)) : bool := bool_decide (selected c = None).

(** An item without SELECT commands. *)
Definition strip (i : item) : list item :=
  match i with
  | Single c => if unselected c then [Single c] else []
  | Tx body => [Tx (List.filter unselected body)]
  end.

Lemma replay_commands R : forall db, map snd (replay db R) = List.filter unselected R.
Proof. induction R as [|c R IH]; intros db; [done|]. cbn [replay List.filter]. unfold unselected at 1. destruct (selected c); cbn [map]; by rewrite IH. Qed.

Lemma filter_cons_split {A} (f : A -> bool) R : forall X y Y, List.filter f R = X ++ y :: Y -> exists B R', R = B ++ y :: R' /\ List.filter f B = X /\ List.filter f R' = Y /\ f y = true.
Proof.
  induction R as [|c R IH]; intros X y Y E; [by destruct X|]. cbn [List.filter] in E. destruct (f c) eqn:Ef.
  - destruct X as [|x X]; injection E as -> E; [by exists [], R|]. destruct (IH X y Y E) as (B & R' & -> & EB & ER & Hy). exists (x :: B), R'. cbn. by rewrite Ef, EB.
  - destruct (IH X y Y E) as (B & R' & -> & EB & ER & Hy). exists (c :: B), R'. cbn. by rewrite Ef, EB.
Qed.

Lemma filter_flat i : flats (strip i) = List.filter unselected (flat i).
Proof.
  destruct i as [c|body]; cbn [strip flat].
  - cbn [List.filter]. by destruct (unselected c).
  - unfold flats. cbn [mbind list_bind flat]. rewrite app_nil_r. change (List.filter unselected (MULTI :: body ++ [EXEC])) with (MULTI :: List.filter unselected (body ++ [EXEC])). by rewrite List.filter_app.
Qed.

Lemma filter_flats L : flats (L ≫= strip) = List.filter unselected (flats L).
Proof. induction L as [|i L IH]; [done|]. rewrite bind_cons, flats_app, flats_cons, List.filter_app, IH. f_equal. apply filter_flat. Qed.

Section items.
Context (known : list byte -> bool) (dbnum : Z).
Local Abbreviation plain := (plain known dbnum).
Local Abbreviation item_ok := (item_ok known dbnum).

Lemma selects_items S : Forall plain S -> List.filter unselected S = [] -> (map Single S ≫= strip) = [] /\ flats (map Single S) = S /\ Forall item_ok (map Single S).
Proof.
  induction 1 as [|c S Hc _ IH]; [done|]. cbn [List.filter]. intros E. destruct (unselected c) eqn:Eu; [done|]. destruct (IH E) as (E1 & E2 & Hok). cbn [map]. rewrite bind_cons, flats_cons, E1, E2. cbn [strip flat]. rewrite Eu. split_and!; [done|done|].
  constructor; [by constructor|done].
Qed.

(** SELECT commands between the items and inside of transactions. *)
Lemma itemize L : forall R, List.filter unselected R = flats L -> Forall item_ok L -> Forall (fun c => unselected c = true \/ plain c) R -> exists L', R = flats L' /\ (L' ≫= strip) = L /\ Forall item_ok L'.
Proof.
  assert (forall S, List.filter unselected S = [] -> Forall (fun c => unselected c = true \/ plain c) S -> Forall plain S) as Hsel.
  { intros S E Hf. induction Hf as [|c S [Hc|Hc] _ IH]; [constructor| |]; cbn [List.filter] in E; [by rewrite Hc in E|]. constructor; [done|]. apply IH. by destruct (unselected c). }
  induction L as [|i L IH]; intros R E HL HR.
  - destruct (selects_items R (Hsel R E HR) E) as (E1 & E2 & Hok). by exists (map Single R).
  - inversion HL as [|? ? Hi HL']; subst. rewrite flats_cons in E. destruct i as [c|body]; cbn [flat app] in E.
    + destruct (filter_cons_split unselected R [] c (flats L) E) as (S & R' & -> & ES & ER & Hc). apply Forall_app in HR as [HS [_ HR']%Forall_cons]. destruct (selects_items S (Hsel S ES HS) ES) as (E1 & E2 & HokS).
      destruct (IH R' ER HL' HR') as (L' & -> & EL & Hok). exists (map Single S ++ Single c :: L'). rewrite flats_app, flats_cons, bind_app, bind_cons, E1, E2, EL. cbn [strip]. rewrite Hc. split_and!; [done|done|]. apply Forall_app. split; [done|]. by constructor.
    + destruct (filter_cons_split unselected R [] MULTI ((body ++ [EXEC]) ++ flats L) E) as (S & R' & -> & ES & ER & _). apply Forall_app in HR as [HS [_ HR']%Forall_cons]. destruct (selects_items S (Hsel S ES HS) ES) as (E1 & E2 & HokS).
      rewrite <- app_assoc in ER. destruct (filter_cons_split unselected R' body EXEC (flats L) ER) as (B & R'' & -> & EB & ER'' & _). apply Forall_app in HR' as [HB [_ HR'']%Forall_cons].
      destruct (IH R'' ER'' HL' HR'') as (L' & -> & EL & Hok). exists (map Single S ++ Tx B :: L'). rewrite flats_app, flats_cons, bind_app, bind_cons, E1, E2, EL. cbn [strip flat]. rewrite EB. split_and!; [cbn; by rewrite <- app_assoc|done|].
      apply Forall_app. split; [done|]. constructor; [|done]. unfold AofLoad.item_ok in Hi |- *. cbn [body_of] in *. rewrite Forall_forall in *. intros x Hx. destruct (HB x Hx) as [Hu|]; [|done]. apply Hi. rewrite <- EB. apply list_elem_of_In, filter_In. by split; [apply list_elem_of_In|].
Qed.

(** ** The commands without MULTI and EXEC *)

Definition effective (c : list (list byte)) : bool := negb (named (bytes_of "multi") c) && negb (named (bytes_of "exec") c).

Lemma plain_effective cmds : Forall plain cmds -> forall db, List.filter (fun c => effective c.2) (replay db cmds) = replay db cmds.
Proof.
  induction 1 as [|c cmds Hc _ IH]; intros db; [done|]. cbn [replay]. destruct (selected c); [apply IH|]. cbn [List.filter snd]. unfold effective at 1. rewrite (pl_multi _ _ _ Hc), (pl_exec _ _ _ Hc). cbn [negb andb]. by rewrite IH.
Qed.

Lemma replay_items L : Forall item_ok L -> forall db, replay db (log_commands L) = List.filter (fun c => effective c.2) (replay db (flats L)) /\ last_db db (log_commands L) = last_db db (flats L).
Proof.
  assert (forall i, item_ok i -> forall db, replay db (body_of i) = List.filter (fun c => effective c.2) (replay db (flat i)) /\ last_db db (body_of i) = last_db db (flat i)) as Hitem.
  { intros i Hi db. destruct i as [c|body]; cbn [body_of flat]; [by rewrite plain_effective|]. change (replay db (MULTI :: body ++ [EXEC])) with ((db, MULTI) :: replay db (body ++ [EXEC])). change (last_db db (MULTI :: body ++ [EXEC])) with (last_db db (body ++ [EXEC])).
    rewrite replay_app, last_db_app. cbn [List.filter snd]. change (effective MULTI) with false. cbn iota. rewrite List.filter_app, plain_effective by done. change (List.filter (fun c => effective c.2) (replay (last_db db body) [EXEC])) with (@nil (Z * list (list byte))). by rewrite app_nil_r. }
  induction 1 as [|i L Hi _ IH]; intros db; [done|]. destruct (Hitem i Hi db) as [E1 E2]. unfold log_commands in *. rewrite bind_cons, flats_cons, !replay_app, !last_db_app, List.filter_app, E1, E2. destruct (IH (last_db db (flat i))) as [E3 E4]. by rewrite E3, E4.
Qed.
End items.

(** ** What comes back *)

Section crash.
Context {data : Type} (apply : data -> Z -> list (list byte) -> data) (known : list byte -> bool) (dbnum : Z).
Context (preamble : data -> list byte -> option (data * list byte)) (junk : nat -> byte).
Context (Hmulti : known (bytes_of "MULTI") = true) (Hexec : known (bytes_of "EXEC") = true) (Hselect : known (bytes_of "SELECT") = true).
Local Abbreviation plain := (plain known dbnum).
Local Abbreviation item_ok := (item_ok known dbnum).

Lemma select_plain n : selected [bytes_of "SELECT"; decimal n] = Some n -> 0 <= n < dbnum -> plain [bytes_of "SELECT"; decimal n].
Proof.
  intros Hs Hn. pose proof (decimal_length n) as Hl. constructor; [|repeat constructor; done|done|done|done|].
  - split; [done|]. split; [done|]. repeat apply Forall_cons_2; [done| |by apply Forall_nil_2]. unfold arg_ok. lia.
  - intros m E. rewrite Hs in E. by injection E as <-.
Qed.

(** The data after the commands of the log [C] that are not MULTI or EXEC. *)
Definition run_log (C : list (Z * list (list byte))) (d : data) : data := fold_left (fun d c => apply d c.1 c.2) (List.filter (fun c => effective c.2) C) d.

(** A log in two parts, of which something of the second is missing. *)
Lemma load_beginning L0 L' C L F d open M : Forall item_ok L0 -> Forall item_ok L' -> (L' ≫= strip) = L -> (forall db, replay db (flats L') = C) -> remains (L0 ++ L') F M open -> requests (flats L0) `prefix_of` F -> F <> [] ->
  exists L1 file, L1 `prefix_of` L /\ loadAppendOnlyFile apply known dbnum preamble true true true d F = Loaded (run_log (take (length (flats L1)) C) (run_commands apply 0 (log_commands L0) d)) file /\
  (F = requests (flats (L0 ++ L')) -> L1 = L).
Proof.
  intros H0 H' EL HC Hrem Hpre Hne. destruct (remains_longest _ _ _ _ Hrem) as [_ Hmax]. destruct (Hmax L0) as [L1' ->]; [by apply prefix_app_r|by apply prefix_length|].
  assert (L1' `prefix_of` L') as [L2' EL']. { destruct (remains_prefix _ _ _ _ Hrem) as [k Ek]. rewrite <- app_assoc in Ek. apply app_inv_head in Ek. by exists k. }
  assert (Forall item_ok L1') as H1 by (rewrite EL' in H'; by apply Forall_app in H' as [? _]). exists (L1' ≫= strip), (requests (flats (L0 ++ L1') ++ open)). split_and!.
  - rewrite <- EL, EL', bind_app. by apply prefix_app_r.
  - rewrite (load_remains apply known dbnum preamble Hmulti Hexec true (L0 ++ L') F (L0 ++ L1') open d); [|by apply Forall_app|done|done]. cbn [orb]. f_equal. unfold log_commands. rewrite bind_app, run_commands_app. fold (log_commands L0) (log_commands L1').
    unfold run_commands at 1, run_log. destruct (replay_items known dbnum L1' H1 (last_db 0 (log_commands L0))) as [-> _]. f_equal. f_equal. rewrite <- (HC (last_db 0 (log_commands L0))), EL', flats_app, replay_app.
    assert (length (flats (L1' ≫= strip)) = length (replay (last_db 0 (log_commands L0)) (flats L1'))) as -> by by rewrite filter_flats, <- (replay_commands (flats L1') (last_db 0 (log_commands L0))), length_map. by rewrite take_app_length.
  - intros EF. destruct (Hmax (L0 ++ L')) as [k Ek]; [done|by rewrite EF|]. rewrite <- app_assoc in Ek. apply app_inv_head in Ek. assert (L1' = L') as ->; [|done]. rewrite EL' in Ek at 1. rewrite <- app_assoc in Ek.
    apply (f_equal length) in Ek. rewrite EL', !length_app in *. assert (length L2' = 0)%nat as ->%nil_length_inv by lia. by rewrite app_nil_r.
Qed.

(** C3: Crash consistency.  In every state that can be reached with logging on, let the
    file begin with a log of commands and whole transactions (not with an RDB
    preamble), and let commands and whole transactions have been logged since.  Whatever part of the bytes that were
    ever given to be written is found on the disk afterwards, if it holds the log it
    began with, the server started with aof-load-truncated loads the data after a
    number of the commands and transactions, each completely and in its database,
    and after all of them if no byte is missing. *)
Theorem aof_crash_consistent a L0 C kid L F d : areach junk a (requests (flats L0), C) kid -> a_state a = AOF_ON ->
  Forall item_ok L0 -> map snd C = flats L -> Forall item_ok L -> (forall n, n ∈ map fst C -> 0 <= n < dbnum) ->
  F `prefix_of` a_file a ++ a_buf a -> requests (flats L0) `prefix_of` F -> F <> [] ->
  exists L1 file, L1 `prefix_of` L /\ loadAppendOnlyFile apply known dbnum preamble true true true d F = Loaded (run_log (take (length (flats L1)) C) (run_commands apply 0 (log_commands L0) d)) file /\
  (F = a_file a ++ a_buf a -> L1 = L).
Proof.
  intros Hr Hon H0 HC HL Hdb HF Hpre Hne. destruct (ai_live _ _ _ (areach_inv junk _ _ _ Hr) Hon) as (_ & R & E & Hrep & _ & Hsel). cbn [fst snd] in *.
  destruct (itemize known dbnum L R) as (L' & -> & EL & H'); [by rewrite <- (replay_commands R 0), Hrep|done| |].
  { eapply Forall_impl; [exact Hsel|]. intros c [Hc|(n & -> & Hs & Hn)]; [left; by apply bool_decide_eq_true|right]. apply select_plain; [done|by apply Hdb]. }
  rewrite <- requests_app, <- flats_app in E. rewrite E in *. destruct (prefix_remains (L0 ++ L') F HF) as (M & open & Hrem). by apply (load_beginning L0 L' C L F d open M).
Qed.
End crash.

(** The log of a transaction in two databases; the disk has lost its last bytes. *)
Module CrashTests.
Definition sets (db : Z) (k : String.string) : aevent := AFeed OtherCommand db [OSds (bytes_of "SET"); OSds (bytes_of k); OInt 1] 0.
Definition word (db : Z) (w : String.string) : aevent := AFeed OtherCommand db [OSds (bytes_of w)] 0.
Definition b1 : aof := Eval vm_compute in AofWriteTests.step AofWriteTests.begin (sets 2 "a").
Definition b2 : aof := Eval vm_compute in AofWriteTests.step b1 (word 2 "MULTI").
Definition b3 : aof := Eval vm_compute in AofWriteTests.step b2 (sets 2 "b").
Definition b4 : aof := Eval vm_compute in AofWriteTests.step b3 (sets 4 "c").
Definition b5 : aof := Eval vm_compute in AofWriteTests.step b4 (word 4 "EXEC").
Definition logged : list (Z * list (list byte)) := Eval vm_compute in (((([] ++ logs (sets 2 "a")) ++ logs (word 2 "MULTI")) ++ logs (sets 2 "b")) ++ logs (sets 4 "c")) ++ logs (word 4 "EXEC").
Definition set_of (k : String.string) : list (list byte) := [bytes_of "SET"; bytes_of k; bytes_of "1"].
Definition items : list item := [Single (set_of "a"); Tx [set_of "b"; set_of "c"]].
Definition lost : list byte := Eval vm_compute in take (length (a_buf b5) - 10) (a_buf b5).

Lemma feed_ok db argv : (exists k, argv = [OSds (bytes_of "SET"); OSds (bytes_of k); OInt 1] /\ Z.of_nat (length (bytes_of k)) < 100) \/ argv = [OSds (bytes_of "MULTI")] \/ argv = [OSds (bytes_of "EXEC")] -> 0 <= db < 16 -> aevent_ok (AFeed OtherCommand db argv 0).
Proof.
  intros Ha Hdb. destruct Ha as [(k & -> & Hk)|[-> | ->]]; (split; [repeat apply Forall_cons_2; try apply Forall_nil_2; cbn [obj_ok]; try (unfold in_s; lia); done|]; split; [done|]; split; [lia|]; eexists; split; [reflexivity|]; split; [done|]; repeat constructor).
Qed.

Lemma reached5 : areach AofWriteTests.zero b5 (requests (flats []), logged) None.
Proof.
  assert (areach AofWriteTests.zero b1 ([], logs (sets 2 "a")) None) as R1 by (apply (areach_step _ AofWriteTests.begin ([], []) None (sets 2 "a") b1 (areach_start _ _ _ AofWriteTests.begin_ok)); [apply feed_ok; [left; by eexists|lia]|vm_compute; reflexivity]).
  assert (areach AofWriteTests.zero b2 ([], logs (sets 2 "a") ++ logs (word 2 "MULTI")) None) as R2 by (apply (areach_step _ b1 _ None (word 2 "MULTI") b2 R1); [apply feed_ok; [auto|lia]|vm_compute; reflexivity]).
  assert (areach AofWriteTests.zero b3 ([], (logs (sets 2 "a") ++ logs (word 2 "MULTI")) ++ logs (sets 2 "b")) None) as R3 by (apply (areach_step _ b2 _ None (sets 2 "b") b3 R2); [apply feed_ok; [left; by eexists|lia]|vm_compute; reflexivity]).
  assert (areach AofWriteTests.zero b4 ([], ((logs (sets 2 "a") ++ logs (word 2 "MULTI")) ++ logs (sets 2 "b")) ++ logs (sets 4 "c")) None) as R4 by (apply (areach_step _ b3 _ None (sets 4 "c") b4 R3); [apply feed_ok; [left; by eexists|lia]|vm_compute; reflexivity]).
  apply (areach_step _ b4 _ None (word 4 "EXEC") b5 R4); [apply feed_ok; [auto|lia]|vm_compute; reflexivity].
Qed.

Lemma items_ok : Forall (item_ok AofTests.all_known 16) items.
Proof.
  assert (forall k, k = "a" \/ k = "b" \/ k = "c" -> plain AofTests.all_known 16 (set_of k)) as Hp by (intros k [-> |[-> | ->]]; (constructor; [repeat constructor; done|repeat constructor; done|done|done|done|done])).
  unfold items, item_ok. repeat apply Forall_cons_2; cbn [body_of]; repeat apply Forall_cons_2; auto using Forall_nil_2.
Qed.
End CrashTests.

Lemma aof_crash_consistent_witness : exists L1 file, L1 `prefix_of` CrashTests.items /\
  loadAppendOnlyFile AofTests.journal AofTests.all_known 16 AofTests.no_dump true true true [] CrashTests.lost = Loaded (run_log AofTests.journal (take (length (flats L1)) CrashTests.logged) []) file.
Proof.
  destruct (aof_crash_consistent AofTests.journal AofTests.all_known 16 AofTests.no_dump AofWriteTests.zero eq_refl eq_refl eq_refl CrashTests.b5 [] CrashTests.logged None CrashTests.items CrashTests.lost [] CrashTests.reached5 eq_refl)
    as (L1 & file & Hp & E & _); [constructor|vm_compute; reflexivity|exact CrashTests.items_ok| |exists (drop (length (a_buf CrashTests.b5) - 10) (a_buf CrashTests.b5)); vm_compute; reflexivity|exists CrashTests.lost; reflexivity|discriminate|].
  - intros n Hn. assert (n = 2 \/ n = 4) as Hc by (vm_compute in Hn; set_solver). lia.
  - exists L1, file. split; [exact Hp|exact E].
Defined.
