(* ===== verification/ZiplistDefs.v ===== *)
(** * Ziplists (src/redis-5.0.7/src/ziplist.c, ziplist.h): the code

    A ziplist is one block of bytes: a header (total bytes, offset of the last entry,
    number of entries), the entries and an end byte.  An entry starts with the length
    of the entry before it, in one byte or in five, so that the list is read in both
    directions; its encoding byte says whether an integer or a string follows.  As an
    entry can grow when the one before it does, inserting or deleting may rewrite
    many entries: __ziplistCascadeUpdate.

    The block is a list of bytes, a pointer into it an offset, NULL an inner [None];
    an access outside the block, a failed assertion and panic() have no value. *)

From S2P Require Import Prelude Endian Util.
From stdpp Require Import strings.
Local Open Scope Z_scope.

(** ** Constants and macros *)

Definition ZIP_END : Z := 255.
Definition ZIP_BIG_PREVLEN : Z := 254.
Definition ZIP_STR_MASK : Z := 0xc0.
Definition ZIP_STR_06B : Z := Z.shiftl 0 6.
Definition ZIP_STR_14B : Z := Z.shiftl 1 6.
Definition ZIP_STR_32B : Z := Z.shiftl 2 6.
Definition ZIP_INT_16B : Z := Z.lor 0xc0 (Z.shiftl 0 4).
Definition ZIP_INT_32B : Z := Z.lor 0xc0 (Z.shiftl 1 4).
Definition ZIP_INT_64B : Z := Z.lor 0xc0 (Z.shiftl 2 4).
Definition ZIP_INT_24B : Z := Z.lor 0xc0 (Z.shiftl 3 4).
Definition ZIP_INT_8B : Z := 0xfe.
Definition ZIP_INT_IMM_MASK : Z := 0x0f.
Definition ZIP_INT_IMM_MIN : Z := 0xf1.
Definition ZIP_INT_IMM_MAX : Z := 0xfd.
Definition INT24_MAX : Z := 0x7fffff.
Definition INT24_MIN : Z := - INT24_MAX - 1.
Definition INT8_MIN : Z := - 2 ^ 7.
Definition INT8_MAX : Z := 2 ^ 7 - 1.
Definition UINT16_MAX : Z := 65535.
Definition UCHAR_MAX : Z := 255.

Definition ZIPLIST_HEAD : Z := 0.
Definition ZIPLIST_TAIL : Z := 1.
Definition ZIPLIST_HEADER_SIZE : Z := 4 * 2 + 2.
Definition ZIPLIST_END_SIZE : Z := 1.

Definition ZIP_IS_STR (enc : Z) : bool := Z.land enc ZIP_STR_MASK <? ZIP_STR_MASK.

Section ziplist.
Context `{Host} (junk : nat -> byte).
Implicit Types zl s : list byte.

(** The header fields, read and assigned as integers of the host. *)
Definition ZIPLIST_BYTES zl : option Z := host_val <$> load zl 0 4.
Definition set_ZIPLIST_BYTES zl (v : Z) : option (list byte) := store zl 0 (host_bytes 4 v).
Definition ZIPLIST_TAIL_OFFSET zl : option Z := host_val <$> load zl 4 4.
Definition set_ZIPLIST_TAIL_OFFSET zl (v : Z) : option (list byte) := store zl 4 (host_bytes 4 v).
Definition ZIPLIST_LENGTH zl : option Z := host_val <$> load zl 8 2.
Definition set_ZIPLIST_LENGTH zl (v : Z) : option (list byte) := store zl 8 (host_bytes 2 v).

Definition ZIPLIST_ENTRY_HEAD : Z := ZIPLIST_HEADER_SIZE.
Definition ZIPLIST_ENTRY_TAIL zl : option Z := t ← ZIPLIST_TAIL_OFFSET zl; Some (intrev32ifbe t).
Definition ZIPLIST_ENTRY_END zl : option Z := n ← ZIPLIST_BYTES zl; Some (intrev32ifbe n - 1).

Definition ZIPLIST_INCR_LENGTH zl (incr : Z) : option (list byte) :=
  n ← ZIPLIST_LENGTH zl;
  if n <? UINT16_MAX then set_ZIPLIST_LENGTH zl (intrev16ifbe (u16 (intrev16ifbe n + incr)))
  else Some zl.

(** ** Encoding of entries *)

Record zlentry := mkZlentry {
  prevrawlensize : Z;
  prevrawlen : Z;
  lensize : Z;
  len : Z;
  headersize : Z;
  encoding : Z;
  entry_p : Z;
}.

Definition ZIP_ENTRY_ENCODING zl (ptr : Z) : option Z :=
  b ← getb zl ptr;
  Some (if b <? ZIP_STR_MASK then Z.land b ZIP_STR_MASK else b).

Definition zipIntSize (encoding : Z) : option Z :=
  if encoding =? ZIP_INT_8B then Some 1
  else if encoding =? ZIP_INT_16B then Some 2
  else if encoding =? ZIP_INT_24B then Some 3
  else if encoding =? ZIP_INT_32B then Some 4
  else if encoding =? ZIP_INT_64B then Some 8
  else if (encoding >=? ZIP_INT_IMM_MIN) && (encoding <=? ZIP_INT_IMM_MAX) then Some 0
  else None.

(** The bytes [buf] that zipStoreEntryEncoding() writes; their number is what it
    returns, also for a NULL pointer. *)
Definition encoding_buf (encoding rawlen : Z) : list byte :=
  if ZIP_IS_STR encoding then
    if rawlen <=? 0x3f then [Z.lor ZIP_STR_06B rawlen]
    else if rawlen <=? 0x3fff then
      [Z.lor ZIP_STR_14B (Z.land (Z.shiftr rawlen 8) 0x3f); Z.land rawlen 0xff]
    else
      [ZIP_STR_32B; Z.land (Z.shiftr rawlen 24) 0xff; Z.land (Z.shiftr rawlen 16) 0xff;
       Z.land (Z.shiftr rawlen 8) 0xff; Z.land rawlen 0xff]
  else [encoding].

Definition zipEntryEncodingSize (encoding rawlen : Z) : Z := Z.of_nat (length (encoding_buf encoding rawlen)).

Definition zipStoreEntryEncoding zl (p encoding rawlen : Z) : option (list byte * Z) :=
  zl ← store zl p (encoding_buf encoding rawlen);
  Some (zl, zipEntryEncodingSize encoding rawlen).

(** Returns [encoding], [lensize] and [len].  The four bytes of a 32-bit length are
    combined in an int and converted to unsigned. *)
Definition ZIP_DECODE_LENGTH zl (ptr : Z) : option (Z * Z * Z) :=
  encoding ← ZIP_ENTRY_ENCODING zl ptr;
  if encoding <? ZIP_STR_MASK then
    if encoding =? ZIP_STR_06B then
      b0 ← getb zl ptr; Some (encoding, 1, Z.land b0 0x3f)
    else if encoding =? ZIP_STR_14B then
      b0 ← getb zl ptr; b1 ← getb zl (ptr + 1);
      Some (encoding, 2, Z.lor (Z.shiftl (Z.land b0 0x3f) 8) b1)
    else if encoding =? ZIP_STR_32B then
      b1 ← getb zl (ptr + 1); b2 ← getb zl (ptr + 2); b3 ← getb zl (ptr + 3); b4 ← getb zl (ptr + 4);
      Some (encoding, 5, u32 (Z.lor (Z.lor (Z.lor (Z.shiftl b1 24) (Z.shiftl b2 16)) (Z.shiftl b3 8)) b4))
    else None
  else len ← zipIntSize encoding; Some (encoding, 1, len).

(** Returns the block and the number of bytes written. *)
Definition zipStorePrevEntryLengthLarge zl (p len : Z) : option (list byte * Z) :=
  zl ← put zl p ZIP_BIG_PREVLEN;
  zl ← store zl (p + 1) (host_bytes 4 len);
  x ← load zl (p + 1) 4;
  zl ← store zl (p + 1) (memrev32ifbe x);
  Some (zl, 1 + 4).

(** zipStorePrevEntryLength() with a NULL pointer. *)
Definition zipPrevEntryLengthSize (len : Z) : Z := if len <? ZIP_BIG_PREVLEN then 1 else 4 + 1.

Definition zipStorePrevEntryLength zl (p len : Z) : option (list byte * Z) :=
  if len <? ZIP_BIG_PREVLEN then zl ← put zl p (u8 len); Some (zl, 1)
  else zipStorePrevEntryLengthLarge zl p len.

Definition ZIP_DECODE_PREVLENSIZE zl (ptr : Z) : option Z :=
  b ← getb zl ptr; Some (if b <? ZIP_BIG_PREVLEN then 1 else 5).

(** Returns [prevlensize] and [prevlen]. *)
Definition ZIP_DECODE_PREVLEN zl (ptr : Z) : option (Z * Z) :=
  prevlensize ← ZIP_DECODE_PREVLENSIZE zl ptr;
  if prevlensize =? 1 then b ← getb zl ptr; Some (prevlensize, b)
  else x ← load zl (ptr + 1) 4; Some (prevlensize, host_val (memrev32ifbe x)).

Definition zipPrevLenByteDiff zl (p len : Z) : option Z :=
  prevlensize ← ZIP_DECODE_PREVLENSIZE zl p;
  Some (s32 (u32 (zipPrevEntryLengthSize len - prevlensize))).

Definition zipRawEntryLength zl (p : Z) : option Z :=
  prevlensize ← ZIP_DECODE_PREVLENSIZE zl p;
  r ← ZIP_DECODE_LENGTH zl (p + prevlensize);
  let '(_, lensize, len) := r in
  Some (u32 (prevlensize + lensize + len)).

(** Returns [*v] and [*encoding] when the string is an integer. *)
Definition zipTryEncoding (entry : list byte) : option (Z * Z) :=
  if (Z.of_nat (length entry) >=? 32) || (Z.of_nat (length entry) =? 0) then None
  else
    value ← string2ll entry;
    Some (value,
      if (value >=? 0) && (value <=? 12) then u8 (ZIP_INT_IMM_MIN + value)
      else if (value >=? INT8_MIN) && (value <=? INT8_MAX) then ZIP_INT_8B
      else if (value >=? INT16_MIN) && (value <=? INT16_MAX) then ZIP_INT_16B
      else if (value >=? INT24_MIN) && (value <=? INT24_MAX) then ZIP_INT_24B
      else if (value >=? INT32_MIN) && (value <=? INT32_MAX) then ZIP_INT_32B
      else ZIP_INT_64B).

(** [memcpy(p,&i,n)] and the conversion of the bytes in place. *)
Definition store_rev (n : nat) (memrev : list byte -> list byte) zl (p value : Z) : option (list byte) :=
  zl ← store zl p (host_bytes n value);
  x ← load zl p (Z.of_nat n);
  store zl p (memrev x).

Definition zipSaveInteger zl (p value encoding : Z) : option (list byte) :=
  if encoding =? ZIP_INT_8B then put zl p (u8 value)
  else if encoding =? ZIP_INT_16B then store_rev 2 memrev16ifbe zl p value
  else if encoding =? ZIP_INT_24B then
    store zl p (drop 1 (memrev32ifbe (host_bytes 4 (Z.shiftl value 8))))
  else if encoding =? ZIP_INT_32B then store_rev 4 memrev32ifbe zl p value
  else if encoding =? ZIP_INT_64B then store_rev 8 memrev64ifbe zl p value
  else if (encoding >=? ZIP_INT_IMM_MIN) && (encoding <=? ZIP_INT_IMM_MAX) then Some zl
  else None.

Definition zipLoadInteger zl (p encoding : Z) : option Z :=
  if encoding =? ZIP_INT_8B then b ← getb zl p; Some (s8 b)
  else if encoding =? ZIP_INT_16B then
    x ← load zl p 2; Some (s16 (host_val (memrev16ifbe x)))
  else if encoding =? ZIP_INT_32B then
    x ← load zl p 4; Some (s32 (host_val (memrev32ifbe x)))
  else if encoding =? ZIP_INT_24B then
    x ← load zl p 3; Some (Z.shiftr (s32 (host_val (memrev32ifbe (0 :: x)))) 8)
  else if encoding =? ZIP_INT_64B then
    x ← load zl p 8; Some (s64 (host_val (memrev64ifbe x)))
  else if (encoding >=? ZIP_INT_IMM_MIN) && (encoding <=? ZIP_INT_IMM_MAX) then
    Some (Z.land encoding ZIP_INT_IMM_MASK - 1)
  else None.

Definition zipEntry zl (p : Z) : option zlentry :=
  a ← ZIP_DECODE_PREVLEN zl p;
  let '(prevrawlensize, prevrawlen) := a in
  b ← ZIP_DECODE_LENGTH zl (p + prevrawlensize);
  let '(encoding, lensize, len) := b in
  Some (mkZlentry prevrawlensize prevrawlen lensize len (prevrawlensize + lensize) encoding p).

(** ** Creation, cascade, deletion, insertion *)

Definition ziplistNew : option (list byte) :=
  let bytes := ZIPLIST_HEADER_SIZE + ZIPLIST_END_SIZE in
  let zl := malloc junk bytes in
  zl ← set_ZIPLIST_BYTES zl (intrev32ifbe bytes);
  zl ← set_ZIPLIST_TAIL_OFFSET zl (intrev32ifbe ZIPLIST_HEADER_SIZE);
  zl ← set_ZIPLIST_LENGTH zl 0;
  put zl (bytes - 1) ZIP_END.

(** The parameter is an unsigned int. *)
Definition ziplistResize zl (len : Z) : option (list byte) :=
  let len := u32 len in
  let zl := realloc junk zl len in
  zl ← set_ZIPLIST_BYTES zl (intrev32ifbe len);
  put zl (len - 1) ZIP_END.

(** Adds to the tail offset. *)
Definition move_tail zl (d : Z) : option (list byte) :=
  t ← ZIPLIST_TAIL_OFFSET zl;
  set_ZIPLIST_TAIL_OFFSET zl (intrev32ifbe (u32 (intrev32ifbe t + d))).

(** The [while (p[0] != ZIP_END)] loop: each round moves to the next entry. *)
Fixpoint cascade_loop (fuel : nat) zl (p curlen : Z) : option (list byte) :=
  b ← getb zl p;
  if b =? ZIP_END then Some zl
  else
    match fuel with
    | O => None
    | S fuel =>
        cur ← zipEntry zl p;
        let rawlen := u32 (headersize cur + len cur) in
        let rawlensize := zipPrevEntryLengthSize rawlen in
        b ← getb zl (p + rawlen);
        if b =? ZIP_END then Some zl
        else
          next ← zipEntry zl (p + rawlen);
          if prevrawlen next =? rawlen then Some zl
          else if prevrawlensize next <? rawlensize then
            let extra := rawlensize - prevrawlensize next in
            zl ← ziplistResize zl (curlen + extra);
            let np := p + rawlen in
            let noffset := np in
            t ← ZIPLIST_TAIL_OFFSET zl;
            zl ← (if intrev32ifbe t =? np then Some zl else move_tail zl extra);
            zl ← memmove zl (np + rawlensize) (np + prevrawlensize next)
                   (u64 (curlen - noffset - prevrawlensize next - 1));
            r ← zipStorePrevEntryLength zl np rawlen;
            let '(zl, _) := r in
            cascade_loop fuel zl (p + rawlen) (curlen + extra)
          else if prevrawlensize next >? rawlensize then
            r ← zipStorePrevEntryLengthLarge zl (p + rawlen) rawlen;
            Some (fst r)
          else
            r ← zipStorePrevEntryLength zl (p + rawlen) rawlen;
            Some (fst r)
    end.

Definition __ziplistCascadeUpdate zl (p : Z) : option (list byte) :=
  n ← ZIPLIST_BYTES zl;
  cascade_loop (length zl) zl p (intrev32ifbe n).

(** [for (i = 0; p[0] != ZIP_END && i < num; i++)]; returns [p] and [deleted].  Each
    round passes an entry. *)
Fixpoint delete_loop (fuel : nat) zl (p i num deleted : Z) : option (Z * Z) :=
  b ← getb zl p;
  if negb (b =? ZIP_END) && (i <? num) then
    match fuel with
    | O => None
    | S fuel =>
        n ← zipRawEntryLength zl p;
        delete_loop fuel zl (p + n) (u32 (i + 1)) num (u32 (deleted + 1))
    end
  else Some (p, deleted).

Definition __ziplistDelete zl (p num : Z) : option (list byte) :=
  first ← zipEntry zl p;
  r ← delete_loop (length zl) zl p 0 num 0;
  let '(p, deleted) := r in
  let totlen := u32 (p - entry_p first) in
  if totlen >? 0 then
    b ← getb zl p;
    r ← (if negb (b =? ZIP_END) then
           nextdiff ← zipPrevLenByteDiff zl p (prevrawlen first);
           let p := p - nextdiff in
           r ← zipStorePrevEntryLength zl p (prevrawlen first);
           let '(zl, _) := r in
           zl ← move_tail zl (- totlen);
           tail ← zipEntry zl p;
           b ← getb zl (p + u32 (headersize tail + len tail));
           zl ← (if negb (b =? ZIP_END) then move_tail zl nextdiff else Some zl);
           n ← ZIPLIST_BYTES zl;
           zl ← memmove zl (entry_p first) p (u64 (intrev32ifbe n - p - 1));
           Some (zl, nextdiff)
         else
           zl ← set_ZIPLIST_TAIL_OFFSET zl (intrev32ifbe (u32 (entry_p first - prevrawlen first)));
           Some (zl, 0));
    let '(zl, nextdiff) := r in
    let offset := entry_p first in
    n ← ZIPLIST_BYTES zl;
    zl ← ziplistResize zl (intrev32ifbe n - totlen + nextdiff);
    zl ← ZIPLIST_INCR_LENGTH zl (- deleted);
    if negb (nextdiff =? 0) then __ziplistCascadeUpdate zl offset else Some zl
  else Some zl.

(** The length of the entry before [p]. *)
Definition insert_prevlen zl (p : Z) : option Z :=
  b ← getb zl p;
  if negb (b =? ZIP_END) then
    r ← ZIP_DECODE_PREVLEN zl p; Some (snd r)
  else
    ptail ← ZIPLIST_ENTRY_TAIL zl;
    b ← getb zl ptail;
    if negb (b =? ZIP_END) then zipRawEntryLength zl ptail else Some 0.

(** Makes room for an entry of [reqlen] bytes at [p], from the resizing to the
    cascade. *)
Definition insert_room zl (p curlen reqlen nextdiff : Z) (forcelarge : bool) : option (list byte) :=
  zl ← ziplistResize zl (u64 (curlen + reqlen + nextdiff));
  b ← getb zl p;
  zl ← (if negb (b =? ZIP_END) then
          zl ← memmove zl (p + reqlen) (p - nextdiff) (u64 (curlen - p - 1 + nextdiff));
          r ← (if forcelarge then zipStorePrevEntryLengthLarge zl (p + reqlen) (u32 reqlen)
               else zipStorePrevEntryLength zl (p + reqlen) (u32 reqlen));
          let '(zl, _) := r in
          zl ← move_tail zl reqlen;
          tail ← zipEntry zl (p + reqlen);
          b ← getb zl (p + (reqlen + headersize tail + len tail));
          if negb (b =? ZIP_END) then move_tail zl nextdiff else Some zl
        else set_ZIPLIST_TAIL_OFFSET zl (intrev32ifbe (u32 p)));
  if negb (nextdiff =? 0) then __ziplistCascadeUpdate zl (p + reqlen) else Some zl.

(** Writes the entry in the room at [p]. *)
Definition insert_write zl (p prevlen value encoding : Z) s : option (list byte) :=
  r ← zipStorePrevEntryLength zl p prevlen;
  let '(zl, n) := r in
  let p := p + n in
  r ← zipStoreEntryEncoding zl p encoding (Z.of_nat (length s));
  let '(zl, n) := r in
  let p := p + n in
  if ZIP_IS_STR encoding then store zl p s else zipSaveInteger zl p value encoding.

Definition __ziplistInsert zl (p : Z) s : option (list byte) :=
  let slen := Z.of_nat (length s) in
  n ← ZIPLIST_BYTES zl;
  let curlen := intrev32ifbe n in
  prevlen ← insert_prevlen zl p;
  let '(value, encoding) := match zipTryEncoding s with
                            | Some r => r
                            | None => (123456789, 0)
                            end in
  reqlen ← (match zipTryEncoding s with
            | Some _ => zipIntSize encoding
            | None => Some slen
            end);
  let reqlen := reqlen + zipPrevEntryLengthSize prevlen in
  let reqlen := reqlen + zipEntryEncodingSize encoding slen in
  b ← getb zl p;
  nextdiff ← (if negb (b =? ZIP_END) then zipPrevLenByteDiff zl p (u32 reqlen) else Some 0);
  let forcelarge := (nextdiff =? -4) && (reqlen <? 4) in
  let nextdiff := if forcelarge then 0 else nextdiff in
  zl ← insert_room zl p curlen reqlen nextdiff forcelarge;
  zl ← insert_write zl p prevlen value encoding s;
  ZIPLIST_INCR_LENGTH zl 1.

(** [first] and [second] are the blocks the arguments point to, [None] for a NULL
    argument or pointer, [same] whether they are one block.  Returns NULL, or the
    merged block with what the two pointers are set to. *)
Definition ziplistMerge (first second : option (list byte)) (same : bool)
    : option (option (list byte * option (list byte) * option (list byte))) :=
  match first, second with
  | Some first, Some second =>
      if (same : bool) then Some None
      else
        n ← ZIPLIST_BYTES first;
        let first_bytes := intrev32ifbe n in
        n ← ZIPLIST_LENGTH first;
        let first_len := intrev16ifbe n in
        n ← ZIPLIST_BYTES second;
        let second_bytes := intrev32ifbe n in
        n ← ZIPLIST_LENGTH second;
        let second_len := intrev16ifbe n in
        let append := first_len >=? second_len in
        let '(target, target_bytes, source, source_bytes) :=
          if append then (first, first_bytes, second, second_bytes)
          else (second, second_bytes, first, first_bytes) in
        let zlbytes := u64 (first_bytes + second_bytes - ZIPLIST_HEADER_SIZE - ZIPLIST_END_SIZE) in
        let zllength := first_len + second_len in
        let zllength := if zllength <? UINT16_MAX then zllength else UINT16_MAX in
        n ← ZIPLIST_TAIL_OFFSET first;
        let first_offset := intrev32ifbe n in
        n ← ZIPLIST_TAIL_OFFSET second;
        let second_offset := intrev32ifbe n in
        let target := realloc junk target zlbytes in
        target ← (if append then
                    bs ← load source ZIPLIST_HEADER_SIZE (u64 (source_bytes - ZIPLIST_HEADER_SIZE));
                    store target (target_bytes - ZIPLIST_END_SIZE) bs
                  else
                    target ← memmove target (source_bytes - ZIPLIST_END_SIZE) ZIPLIST_HEADER_SIZE
                               (u64 (target_bytes - ZIPLIST_HEADER_SIZE));
                    bs ← load source 0 (u64 (source_bytes - ZIPLIST_END_SIZE));
                    store target 0 bs);
        target ← set_ZIPLIST_BYTES target (intrev32ifbe (u32 zlbytes));
        target ← set_ZIPLIST_LENGTH target (intrev16ifbe (u16 zllength));
        target ← set_ZIPLIST_TAIL_OFFSET target
                   (intrev32ifbe (u32 ((first_bytes - ZIPLIST_END_SIZE) +
                                       (second_offset - ZIPLIST_HEADER_SIZE))));
        target ← __ziplistCascadeUpdate target first_offset;
        Some (Some (if append then (target, Some target, None) else (target, None, Some target)))
  | _, _ => Some None
  end.

Definition ziplistPush zl s (where_ : Z) : option (list byte) :=
  p ← (if where_ =? ZIPLIST_HEAD then Some ZIPLIST_ENTRY_HEAD else ZIPLIST_ENTRY_END zl);
  __ziplistInsert zl p s.

(** ** Navigation and access *)

(** [while (prevlen > 0 && index--)]; returns [p] and [index]. *)
Fixpoint index_backward (fuel : nat) zl (p prevlen index : Z) : option (Z * Z) :=
  if prevlen >? 0 then
    if index =? 0 then Some (p, index - 1)
    else
      match fuel with
      | O => None
      | S fuel =>
          let p := p - prevlen in
          r ← ZIP_DECODE_PREVLEN zl p;
          index_backward fuel zl p (snd r) (index - 1)
      end
  else Some (p, index).

(** [while (p[0] != ZIP_END && index--)]. *)
Fixpoint index_forward (fuel : nat) zl (p index : Z) : option (Z * Z) :=
  b ← getb zl p;
  if negb (b =? ZIP_END) then
    if index =? 0 then Some (p, index - 1)
    else
      match fuel with
      | O => None
      | S fuel => n ← zipRawEntryLength zl p; index_forward fuel zl (p + n) (index - 1)
      end
  else Some (p, index).

(** [-index] overflows for INT_MIN: there is no value. *)
Definition ziplistIndex zl (index : Z) : option (option Z) :=
  r ← (if index <? 0 then
         if index =? INT32_MIN then None
         else
           let index := - index - 1 in
           p ← ZIPLIST_ENTRY_TAIL zl;
           b ← getb zl p;
           if negb (b =? ZIP_END) then
             r ← ZIP_DECODE_PREVLEN zl p;
             index_backward (length zl) zl p (snd r) index
           else Some (p, index)
       else index_forward (length zl) zl ZIPLIST_ENTRY_HEAD index);
  let '(p, index) := r in
  b ← getb zl p;
  Some (if (b =? ZIP_END) || (index >? 0) then None else Some p).

Definition ziplistNext zl (p : Z) : option (option Z) :=
  b ← getb zl p;
  if b =? ZIP_END then Some None
  else
    n ← zipRawEntryLength zl p;
    let p := p + n in
    b ← getb zl p;
    Some (if b =? ZIP_END then None else Some p).

Definition ziplistPrev zl (p : Z) : option (option Z) :=
  b ← getb zl p;
  if b =? ZIP_END then
    p ← ZIPLIST_ENTRY_TAIL zl;
    b ← getb zl p;
    Some (if b =? ZIP_END then None else Some p)
  else if p =? ZIPLIST_ENTRY_HEAD then Some None
  else
    r ← ZIP_DECODE_PREVLEN zl p;
    let '(_, prevlen) := r in
    if prevlen >? 0 then Some (Some (p - prevlen)) else None.

(** What ziplistGet() stores: a string at an offset with its length, or an integer. *)
Inductive zl_value := ZlStr (sstr slen : Z) | ZlInt (sval : Z).

Definition ziplistGet zl (p : option Z) : option (option zl_value) :=
  match p with
  | None => Some None
  | Some p =>
      b ← getb zl p;
      if b =? ZIP_END then Some None
      else
        entry ← zipEntry zl p;
        if ZIP_IS_STR (encoding entry) then Some (Some (ZlStr (p + headersize entry) (len entry)))
        else v ← zipLoadInteger zl (p + headersize entry) (encoding entry); Some (Some (ZlInt v))
  end.

Definition ziplistInsert zl (p : Z) s : option (list byte) := __ziplistInsert zl p s.

(** Returns the block and [*p]. *)
Definition ziplistDelete zl (p : Z) : option (list byte * Z) :=
  let offset := p in
  zl ← __ziplistDelete zl p 1;
  Some (zl, offset).

Definition ziplistDeleteRange zl (index num : Z) : option (list byte) :=
  p ← ziplistIndex zl index;
  match p with
  | None => Some zl
  | Some p => __ziplistDelete zl p num
  end.

Definition ziplistCompare zl (p : Z) (sstr : list byte) : option bool :=
  let slen := Z.of_nat (length sstr) in
  b ← getb zl p;
  if b =? ZIP_END then Some false
  else
    entry ← zipEntry zl p;
    if ZIP_IS_STR (encoding entry) then
      if len entry =? slen then
        x ← load zl (p + headersize entry) slen; Some (bool_decide (x = sstr))
      else Some false
    else
      match zipTryEncoding sstr with
      | Some (sval, _) =>
          zval ← zipLoadInteger zl (p + headersize entry) (encoding entry);
          Some (zval =? sval)
      | None => Some false
      end.

(** The [while] loop with [skipcnt], [vencoding] and [vll]. *)
Fixpoint find_loop (fuel : nat) zl (p : Z) (vstr : list byte) (skip skipcnt vencoding vll : Z)
    : option (option Z) :=
  let vlen := Z.of_nat (length vstr) in
  b ← getb zl p;
  if b =? ZIP_END then Some None
  else
    match fuel with
    | O => None
    | S fuel =>
        prevlensize ← ZIP_DECODE_PREVLENSIZE zl p;
        r ← ZIP_DECODE_LENGTH zl (p + prevlensize);
        let '(encoding, lensize, len) := r in
        let q := p + prevlensize + lensize in
        if skipcnt =? 0 then
          if ZIP_IS_STR encoding then
            found ← (if len =? vlen then x ← load zl q vlen; Some (bool_decide (x = vstr))
                     else Some false);
            if (found : bool) then Some (Some p)
            else find_loop fuel zl (q + len) vstr skip (s32 skip) vencoding vll
          else
            let '(vencoding, vll) :=
              if vencoding =? 0 then
                match zipTryEncoding vstr with
                | Some (vll, vencoding) => (vencoding, vll)
                | None => (UCHAR_MAX, vll)
                end
              else (vencoding, vll) in
            if vencoding =? 0 then None
            else
              found ← (if negb (vencoding =? UCHAR_MAX) then
                         ll ← zipLoadInteger zl q encoding; Some (ll =? vll)
                       else Some false);
              if (found : bool) then Some (Some p)
              else find_loop fuel zl (q + len) vstr skip (s32 skip) vencoding vll
        else find_loop fuel zl (q + len) vstr skip (skipcnt - 1) vencoding vll
    end.

Definition ziplistFind zl (p : Z) (vstr : list byte) (skip : Z) : option (option Z) :=
  find_loop (length zl) zl p vstr skip 0 0 0.

(** The loop that counts the entries. *)
Fixpoint len_loop (fuel : nat) zl (p len : Z) : option Z :=
  b ← getb zl p;
  if b =? ZIP_END then Some len
  else
    match fuel with
    | O => None
    | S fuel => n ← zipRawEntryLength zl p; len_loop fuel zl (p + n) (u32 (len + 1))
    end.

(** Returns the block, whose header may be updated, and the number. *)
Definition ziplistLen zl : option (list byte * Z) :=
  n ← ZIPLIST_LENGTH zl;
  if intrev16ifbe n <? UINT16_MAX then Some (zl, intrev16ifbe n)
  else
    len ← len_loop (length zl) zl ZIPLIST_HEADER_SIZE 0;
    zl ← (if len <? UINT16_MAX then set_ZIPLIST_LENGTH zl (intrev16ifbe len) else Some zl);
    Some (zl, len).

Definition ziplistBlobLen zl : option Z := n ← ZIPLIST_BYTES zl; Some (intrev32ifbe n).
End ziplist.
