(* ===== verification/Ziplist.v ===== *)
(** * Ziplists: representation, navigation and access

    A block represents a list of elements, each with the size of its prevlen field:
    a field of five bytes may hold a length that one byte could hold.  The lemmas say
    what the encoders write, what the decoders read back, and where the cursors of
    the code point. *)

From S2P Require Import Prelude Endian Util Listpack ZiplistDefs.
Local Open Scope Z_scope.

(** ** Stored elements *)

(** The encoding an element is inserted with (0 for a string), its header and its
    data. *)
Definition zl_enc (e : list byte) : Z :=
  match zipTryEncoding e with Some (_, enc) => enc | None => 0 end.
Definition zl_hdr (e : list byte) : list byte := encoding_buf (zl_enc e) (Z.of_nat (length e)).
Definition int_width (enc : Z) : nat := Z.to_nat (default 0 (zipIntSize enc)).
Definition zl_data (e : list byte) : list byte :=
  match zipTryEncoding e with Some (v, enc) => le_bytes (int_width enc) v | None => e end.
Definition zl_payload (e : list byte) : list byte := zl_hdr e ++ zl_data e.

(** The encoding read back: that of strings says the size of the header. *)
Definition read_enc (e : list byte) : Z :=
  match zipTryEncoding e with
  | Some (_, enc) => enc
  | None => let n := Z.of_nat (length e) in
            if n <=? 0x3f then ZIP_STR_06B else if n <=? 0x3fff then ZIP_STR_14B else ZIP_STR_32B
  end.

(** The elements the code can store without overflow of its lengths. *)
Definition zele_ok (e : list byte) : Prop := Z.of_nat (length e) < 2 ^ 32 - 32.

(** An integer encoding with a value that it holds. *)
Inductive int_enc (v : Z) : Z -> Prop :=
  | Enc4 : 0 <= v <= 12 -> int_enc v (0xf1 + v)
  | Enc8 : in_s 8 v -> int_enc v ZIP_INT_8B
  | Enc16 : in_s 16 v -> int_enc v ZIP_INT_16B
  | Enc24 : in_s 24 v -> int_enc v ZIP_INT_24B
  | Enc32 : in_s 32 v -> int_enc v ZIP_INT_32B
  | Enc64 : in_s 64 v -> int_enc v ZIP_INT_64B.

Lemma string2ll_empty : string2ll [] = None.
Proof. done. Qed.

Lemma try_encoding_none e : zipTryEncoding e = None <-> string2ll e = None.
Proof.
  unfold zipTryEncoding. destruct (string2ll e) as [v|] eqn:Ev.
  - apply string2ll_sound in Ev as [Hv ->]. pose proof (decimal_length v). pose proof (decimal_short v Hv).
    rewrite (proj2 (orb_false_iff _ _)) by (split; zlia). done.
  - by destruct (_ || _).
Qed.

Lemma try_encoding_some e v enc : zipTryEncoding e = Some (v, enc) ->
  string2ll e = Some v /\ in_s 64 v /\ e = decimal v /\ int_enc v enc.
Proof.
  unfold zipTryEncoding. destruct (_ || _); [done|]. destruct (string2ll e) as [w|] eqn:Ew; [|done].
  cbn [mbind option_bind]. intros [= -> <-]. apply string2ll_sound in Ew as Hw. destruct Hw as [Hw ->].
  split_and!; [done..|]. unfold INT8_MIN, INT8_MAX, INT24_MIN, INT24_MAX, INT16_MIN, INT16_MAX, INT32_MIN, INT32_MAX.
  repeat case_match; zbool; try (constructor; unfold in_s; lia); [|by constructor].
  rewrite uwrap_small by (unfold ZIP_INT_IMM_MIN; lia). by constructor.
Qed.

(** The bytes of an integer encoding, for a case analysis over them. *)
Lemma imm_cases (P : Z -> Prop) v : 0 <= v <= 12 ->
  P 0 -> P 1 -> P 2 -> P 3 -> P 4 -> P 5 -> P 6 -> P 7 -> P 8 -> P 9 -> P 10 -> P 11 -> P 12 -> P v.
Proof.
  intros Hv. intros. assert (v = 0 \/ v = 1 \/ v = 2 \/ v = 3 \/ v = 4 \/ v = 5 \/ v = 6 \/ v = 7 \/
    v = 8 \/ v = 9 \/ v = 10 \/ v = 11 \/ v = 12) as Hc by lia.
  destruct_or! Hc; by subst.
Qed.

Lemma int_enc_byte v enc : int_enc v enc ->
  ZIP_IS_STR enc = false /\ 0xc0 <= enc < 255 /\
  zipIntSize enc = Some (Z.of_nat (int_width enc)) /\ (int_width enc <= 8)%nat.
Proof.
  intros [Hv|Hv|Hv|Hv|Hv|Hv]; [pattern v; apply (imm_cases _ v Hv)|..];
    split_and!; vm_compute; (done || lia).
Qed.

Lemma read_enc_is_str e : ZIP_IS_STR (read_enc e) = bool_decide (zipTryEncoding e = None).
Proof.
  unfold read_enc. destruct (zipTryEncoding e) as [[v enc]|] eqn:E.
  - apply try_encoding_some in E as (_ & _ & _ & He). apply int_enc_byte in He as [He _]. done.
  - rewrite bool_decide_eq_true_2 by done. by repeat case_match.
Qed.

Lemma zl_enc_is_str e : ZIP_IS_STR (zl_enc e) = bool_decide (zipTryEncoding e = None).
Proof.
  unfold zl_enc. destruct (zipTryEncoding e) as [[v enc]|] eqn:E; [|done].
  apply try_encoding_some in E as (_ & _ & _ & He). by apply int_enc_byte in He as [He _].
Qed.

Lemma zl_hdr_int e v enc : zipTryEncoding e = Some (v, enc) -> zl_hdr e = [enc].
Proof.
  intros E. unfold zl_hdr, zl_enc. rewrite E. apply try_encoding_some in E as (_ & _ & _ & He).
  unfold encoding_buf. by apply int_enc_byte in He as [-> _].
Qed.

Lemma zl_hdr_str e : zipTryEncoding e = None -> zl_hdr e = encoding_buf 0 (Z.of_nat (length e)).
Proof. intros E. unfold zl_hdr, zl_enc. by rewrite E. Qed.

Lemma zl_hdr_length e : (1 <= length (zl_hdr e) <= 5)%nat.
Proof. unfold zl_hdr, encoding_buf. repeat case_match; simpl; lia. Qed.

Lemma zl_data_length e : Z.of_nat (length (zl_data e)) <= Z.of_nat (length e) + 8.
Proof.
  unfold zl_data. destruct (zipTryEncoding e) as [[v enc]|] eqn:E; [|lia].
  apply try_encoding_some in E as (_ & _ & _ & He). apply int_enc_byte in He as (_ & _ & _ & He).
  rewrite le_bytes_length. lia.
Qed.

Lemma zl_data_size e : (match zipTryEncoding e with Some _ => zipIntSize (zl_enc e) | None => Some (Z.of_nat (length e)) end)
  = Some (Z.of_nat (length (zl_data e))).
Proof.
  unfold zl_data, zl_enc. destruct (zipTryEncoding e) as [[v enc]|] eqn:E; [|done].
  apply try_encoding_some in E as (_ & _ & _ & He). apply int_enc_byte in He as (_ & _ & He & _).
  by rewrite le_bytes_length.
Qed.

Lemma payload_length e : zele_ok e -> 1 <= Z.of_nat (length (zl_payload e)) <= Z.of_nat (length e) + 13.
Proof.
  intros _. unfold zl_payload. rewrite length_app. pose proof (zl_hdr_length e). pose proof (zl_data_length e). lia.
Qed.

(** ** Decoding *)

(** An element with the size of its prevlen field: five bytes or one. *)
Abbreviation rentry := (bool * list byte)%type.

Section decoding.
Context `{HH : Host}.

(** The low six bits of a byte with a two-bit tag. *)
Lemma tagged_byte t n : 0 <= n < 64 -> t = 0 \/ t = 1 \/ t = 2 ->
  Z.land (Z.lor (Z.shiftl t 6) n) 0xc0 = Z.shiftl t 6 /\ Z.land (Z.lor (Z.shiftl t 6) n) 0x3f = n /\
  0 <= Z.lor (Z.shiftl t 6) n < 0xc0.
Proof.
  intros Hn Ht. revert n Hn.
  refine (decide_below 64 (fun n => Z.land (Z.lor (Z.shiftl t 6) n) 0xc0 = Z.shiftl t 6 /\
    Z.land (Z.lor (Z.shiftl t 6) n) 0x3f = n /\ 0 <= Z.lor (Z.shiftl t 6) n < 0xc0) _).
  destruct_or! Ht; subst t; vm_compute; reflexivity.
Qed.

Lemma big_endian_bytes n : 0 <= n < 2 ^ 32 ->
  Z.lor (Z.lor (Z.lor (Z.shiftl (Z.land (Z.shiftr n 24) 0xff) 24) (Z.shiftl (Z.land (Z.shiftr n 16) 0xff) 16))
    (Z.shiftl (Z.land (Z.shiftr n 8) 0xff) 8)) (Z.land n 0xff) = n.
Proof.
  intros Hn. set (b3 := Z.land (Z.shiftr n 24) 0xff). set (b2 := Z.land (Z.shiftr n 16) 0xff).
  set (b1 := Z.land (Z.shiftr n 8) 0xff).
  transitivity (Z.lor (Z.lor (Z.lor (Z.land n 0xff) (Z.shiftl b1 8)) (Z.shiftl b2 16)) (Z.shiftl b3 24)).
  { generalize (Z.land n 0xff) (Z.shiftl b1 8) (Z.shiftl b2 16) (Z.shiftl b3 24). intros w x y z.
    by rewrite (Z.lor_comm _ w), (Z.lor_comm _ x), (Z.lor_comm _ y), !Z.lor_assoc. }
  rewrite or32_le' by (subst b1 b2 b3; unfold is_byte; rewrite ?byte_of, ?land_255 by lia; apply Z.mod_pos_bound; lia).
  subst b1 b2 b3. rewrite <- le_bytes_4, le_val_bytes. by apply uwrap_small.
Qed.

Lemma decode_length P e R : zele_ok e ->
  ZIP_DECODE_LENGTH (P ++ zl_hdr e ++ R) (Z.of_nat (length P)) =
    Some (read_enc e, Z.of_nat (length (zl_hdr e)), Z.of_nat (length (zl_data e))).
Proof.
  intros He. unfold zele_ok in He. unfold ZIP_DECODE_LENGTH, ZIP_ENTRY_ENCODING, read_enc.
  destruct (zipTryEncoding e) as [[v enc]|] eqn:E.
  - pose proof (zl_data_size e) as Hd. unfold zl_enc in Hd. rewrite E in Hd.
    rewrite (zl_hdr_int e v enc E). cbn [app]. rewrite (getb_app P enc R) by done. cbn [mbind option_bind].
    apply try_encoding_some in E as (_ & _ & _ & Hi). apply int_enc_byte in Hi as (_ & Hb & _).
    rewrite (proj2 (Z.ltb_ge enc ZIP_STR_MASK)) by (unfold ZIP_STR_MASK; lia).
    rewrite (proj2 (Z.ltb_ge enc ZIP_STR_MASK)) by (unfold ZIP_STR_MASK; lia). by rewrite Hd.
  - rewrite (zl_hdr_str e E). unfold zl_data. rewrite E. set (n := Z.of_nat (length e)) in *.
    unfold encoding_buf. change (ZIP_IS_STR 0) with true. cbn [app].
    assert (0 <= n) by lia. clearbody n.
    destruct (n <=? 0x3f) eqn:E1; [|destruct (n <=? 0x3fff) eqn:E2]; zbool; cbn [app].
    + rewrite !(getb_app P _ R) by done. cbn [mbind option_bind].
      destruct (tagged_byte 0 n) as (T1 & T2 & T3); [lia|auto|].
      unfold ZIP_STR_06B. rewrite (proj2 (Z.ltb_lt (Z.lor (Z.shiftl 0 6) n) ZIP_STR_MASK)) by (unfold ZIP_STR_MASK; lia).
      unfold ZIP_STR_MASK. rewrite T1. cbn -[Z.lor Z.shiftl]. rewrite T2. done.
    + rewrite (getb_app P _ (Z.land n 255 :: R)) by done. rewrite (getb_at P _ 1) by lia. cbn [mbind option_bind].
      destruct (tagged_byte 1 (Z.land (Z.shiftr n 8) 63)) as (T1 & T2 & T3); [|auto|].
      { rewrite (Z.land_ones _ 6) by lia. apply Z.mod_pos_bound. lia. }
      unfold ZIP_STR_14B. rewrite (proj2 (Z.ltb_lt (Z.lor (Z.shiftl 1 6) (Z.land (Z.shiftr n 8) 63)) ZIP_STR_MASK)) by (unfold ZIP_STR_MASK; lia).
      unfold ZIP_STR_MASK. rewrite T1. change (Z.shiftl 1 6 <? 192) with true. change (Z.shiftl 1 6 =? ZIP_STR_06B) with false.
      change (Z.shiftl 1 6 =? Z.shiftl 1 6) with true. cbv iota. rewrite (getb_S _ _ 1), getb_0 by lia.
      cbn [mbind option_bind]. rewrite T2. do 2 f_equal.
      rewrite Z.lor_comm, lor_shiftl by (try lia; rewrite land_255; apply Z.mod_pos_bound; lia).
      rewrite land_255, (Z.land_ones _ 6), Z.shiftr_div_pow2 by lia. change (2 ^ 8) with 256. change (2 ^ 6) with 64.
      rewrite (Z.mod_small (n / 256)) by (split; [apply Z.div_pos; lia|apply Z.div_lt_upper_bound; lia]).
      pose proof (Z.div_mod n 256). lia.
    + rewrite (getb_app P _ _) by done. rewrite !(getb_at P) by lia. cbn [mbind option_bind].
      change (ZIP_STR_32B <? ZIP_STR_MASK) with true. cbv iota. change (Z.land ZIP_STR_32B ZIP_STR_MASK) with 128.
      change (128 <? ZIP_STR_MASK) with true. change (128 =? ZIP_STR_06B) with false.
      change (128 =? ZIP_STR_14B) with false. change (128 =? ZIP_STR_32B) with true.
      cbn -[Z.lor Z.shiftl Z.land Z.shiftr uwrap].
      change (Z.to_nat 1) with 1%nat. change (Z.to_nat 2) with 2%nat. change (Z.to_nat 3) with 3%nat.
      change (Z.to_nat 4) with 4%nat. cbn [lookup list_lookup mbind option_bind].
      rewrite big_endian_bytes by lia. rewrite uwrap_small by lia. done.
Qed.

(** Reading and writing integers that are kept in little-endian order. *)
Lemma rev_le_16 v : host_val (memrev16ifbe (le_bytes 2 v)) = u16 v /\ memrev16ifbe (host_bytes 2 v) = le_bytes 2 v.
Proof. by destruct (ifbe_stores_little_endian v) as [[-> ->] _]. Qed.
Lemma rev_le_32 v : host_val (memrev32ifbe (le_bytes 4 v)) = u32 v /\ memrev32ifbe (host_bytes 4 v) = le_bytes 4 v.
Proof. by destruct (ifbe_stores_little_endian v) as [_ [[-> ->] _]]. Qed.
Lemma rev_le_64 v : host_val (memrev64ifbe (le_bytes 8 v)) = u64 v /\ memrev64ifbe (host_bytes 8 v) = le_bytes 8 v.
Proof. by destruct (ifbe_stores_little_endian v) as [_ [_ [-> ->]]]. Qed.

Lemma le_bytes_shift v : le_bytes 4 (Z.shiftl v 8) = 0 :: le_bytes 3 v.
Proof.
  rewrite Z.shiftl_mul_pow2, le_bytes_S by lia. change (2 ^ 8) with 256. rewrite Z.mod_mul, Z.div_mul by lia. done.
Qed.

Lemma shift_signed v : in_s 24 v -> Z.shiftr (s32 (u32 (Z.shiftl v 8))) 8 = v.
Proof.
  unfold in_s. intros Hv. rewrite swrap_uwrap, Z.shiftl_mul_pow2 by lia.
  rewrite swrap_small by (unfold in_s; lia). rewrite Z.shiftr_div_pow2 by lia. apply Z.div_mul. lia.
Qed.

Lemma load_integer P v enc R : int_enc v enc ->
  zipLoadInteger (P ++ le_bytes (int_width enc) v ++ R) (Z.of_nat (length P)) enc = Some v.
Proof.
  intros He. unfold zipLoadInteger. destruct He as [Hv|Hv|Hv|Hv|Hv|Hv].
  - pattern v. apply (imm_cases _ v Hv); reflexivity.
  - change (ZIP_INT_8B =? ZIP_INT_8B) with true. change (int_width ZIP_INT_8B) with 1%nat. cbv iota.
    rewrite le_bytes_S. cbn [app]. rewrite getb_app by done. cbn [mbind option_bind].
    change (v mod 256) with (u8 v). rewrite swrap_uwrap, swrap_small by (try lia; done). done.
  - change (int_width ZIP_INT_16B) with 2%nat. change (ZIP_INT_16B =? ZIP_INT_8B) with false.
    change (ZIP_INT_16B =? ZIP_INT_16B) with true. cbv iota.
    rewrite load_app by (rewrite ?le_bytes_length; done). cbn [mbind option_bind].
    rewrite (proj1 (rev_le_16 v)), swrap_uwrap, swrap_small by (try lia; done). done.
  - change (int_width ZIP_INT_24B) with 3%nat. change (ZIP_INT_24B =? ZIP_INT_8B) with false.
    change (ZIP_INT_24B =? ZIP_INT_16B) with false. change (ZIP_INT_24B =? ZIP_INT_32B) with false.
    change (ZIP_INT_24B =? ZIP_INT_24B) with true. cbv iota.
    rewrite load_app by (rewrite ?le_bytes_length; done). cbn [mbind option_bind].
    rewrite <- le_bytes_shift, (proj1 (rev_le_32 _)), shift_signed by done. done.
  - change (int_width ZIP_INT_32B) with 4%nat. change (ZIP_INT_32B =? ZIP_INT_8B) with false.
    change (ZIP_INT_32B =? ZIP_INT_16B) with false. change (ZIP_INT_32B =? ZIP_INT_32B) with true. cbv iota.
    rewrite load_app by (rewrite ?le_bytes_length; done). cbn [mbind option_bind].
    rewrite (proj1 (rev_le_32 v)), swrap_uwrap, swrap_small by (try lia; done). done.
  - change (int_width ZIP_INT_64B) with 8%nat. change (ZIP_INT_64B =? ZIP_INT_8B) with false.
    change (ZIP_INT_64B =? ZIP_INT_16B) with false. change (ZIP_INT_64B =? ZIP_INT_32B) with false.
    change (ZIP_INT_64B =? ZIP_INT_24B) with false. change (ZIP_INT_64B =? ZIP_INT_64B) with true. cbv iota.
    rewrite load_app by (rewrite ?le_bytes_length; done). cbn [mbind option_bind].
    rewrite (proj1 (rev_le_64 v)), swrap_uwrap, swrap_small by (try lia; done). done.
Qed.

Lemma store_rev_spec n memrev P x R v : memrev (host_bytes n v) = le_bytes n v -> length x = n ->
  store_rev n memrev (P ++ x ++ R) (Z.of_nat (length P)) v = Some (P ++ le_bytes n v ++ R).
Proof.
  intros Hm Hx. unfold store_rev. rewrite store_app by (rewrite ?host_bytes_length; done). cbn [mbind option_bind].
  rewrite load_app by (rewrite ?host_bytes_length; done). cbn [mbind option_bind].
  rewrite Hm. apply store_app; [done|]. by rewrite host_bytes_length, le_bytes_length.
Qed.

Lemma zsave_integer P x v enc R : int_enc v enc -> length x = int_width enc ->
  zipSaveInteger (P ++ x ++ R) (Z.of_nat (length P)) v enc = Some (P ++ le_bytes (int_width enc) v ++ R).
Proof.
  intros He. unfold zipSaveInteger. destruct He as [Hv|Hv|Hv|Hv|Hv|Hv]; intros Hx.
  - revert Hx. pattern v. apply (imm_cases _ v Hv); by intros ->%nil_length_inv.
  - change (u8 v) with (v mod 256). change (int_width ZIP_INT_8B) with 1%nat. rewrite le_bytes_S. by apply store_app.
  - change (int_width ZIP_INT_16B) with 2%nat. by apply store_rev_spec; [apply rev_le_16|].
  - change (int_width ZIP_INT_24B) with 3%nat.
    change (zipSaveInteger (P ++ x ++ R) (Z.of_nat (length P)) v ZIP_INT_24B = Some (P ++ le_bytes 3 v ++ R)).
    unfold zipSaveInteger. change (ZIP_INT_24B =? ZIP_INT_8B) with false.
    change (ZIP_INT_24B =? ZIP_INT_16B) with false. change (ZIP_INT_24B =? ZIP_INT_24B) with true. cbv iota.
    rewrite (proj2 (rev_le_32 _)), le_bytes_shift. by apply store_app.
  - change (int_width ZIP_INT_32B) with 4%nat. by apply store_rev_spec; [apply rev_le_32|].
  - change (int_width ZIP_INT_64B) with 8%nat. by apply store_rev_spec; [apply rev_le_64|].
Qed.

(** ** The prevlen field *)

Definition prev_size (b : bool) : Z := if b then 5 else 1.
Definition prev_field (b : bool) (n : Z) : list byte := if b then ZIP_BIG_PREVLEN :: le_bytes 4 n else [n].
Definition prev_ok (b : bool) (n : Z) : Prop := 0 <= n < 2 ^ 32 /\ (b = false -> n < 254).
Definition needs_big (n : Z) : bool := 254 <=? n.

Lemma prev_field_length b n : Z.of_nat (length (prev_field b n)) = prev_size b.
Proof. by destruct b. Qed.

Lemma prev_size_needs n : zipPrevEntryLengthSize n = prev_size (needs_big n).
Proof. unfold zipPrevEntryLengthSize, needs_big, ZIP_BIG_PREVLEN. destruct (n <? 254) eqn:E; zbool; by (rewrite (proj2 (Z.leb_gt 254 n)) by lia) || (rewrite (proj2 (Z.leb_le 254 n)) by lia). Qed.

Lemma needs_big_ok n : 0 <= n < 2 ^ 32 -> prev_ok (needs_big n) n.
Proof. intros. split; [done|]. unfold needs_big. intros. zlia. Qed.

Lemma prev_ok_big n : 0 <= n < 2 ^ 32 -> prev_ok true n.
Proof. done. Qed.

Lemma decode_prevlensize P b n R : prev_ok b n ->
  ZIP_DECODE_PREVLENSIZE (P ++ prev_field b n ++ R) (Z.of_nat (length P)) = Some (prev_size b).
Proof.
  intros [Hn Hb]. unfold ZIP_DECODE_PREVLENSIZE. destruct b; cbn [prev_field app]; rewrite getb_app by done; [done|].
  cbn [mbind option_bind]. rewrite (proj2 (Z.ltb_lt n ZIP_BIG_PREVLEN)) by (unfold ZIP_BIG_PREVLEN; specialize (Hb eq_refl); lia).
  done.
Qed.

Lemma decode_prevlen P b n R : prev_ok b n ->
  ZIP_DECODE_PREVLEN (P ++ prev_field b n ++ R) (Z.of_nat (length P)) = Some (prev_size b, n).
Proof.
  intros Hok. unfold ZIP_DECODE_PREVLEN. rewrite decode_prevlensize by done. destruct Hok as [Hn Hb].
  cbn [mbind option_bind]. destruct b; cbn [prev_size prev_field].
  - change (5 =? 1) with false. cbv iota.
    replace (P ++ (ZIP_BIG_PREVLEN :: le_bytes 4 n) ++ R) with ((P ++ [ZIP_BIG_PREVLEN]) ++ le_bytes 4 n ++ R)
      by (by rewrite <- app_assoc).
    rewrite load_app by (rewrite ?length_app, ?le_bytes_length; simpl; lia). cbn [mbind option_bind].
    rewrite (proj1 (rev_le_32 n)), uwrap_small by lia. done.
  - change (1 =? 1) with true. cbv iota. cbn [app]. by rewrite getb_app.
Qed.

Lemma store_prevlen_large P x n R : Z.of_nat (length x) = 5 ->
  zipStorePrevEntryLengthLarge (P ++ x ++ R) (Z.of_nat (length P)) n = Some (P ++ prev_field true n ++ R, 5).
Proof.
  intros Hx. unfold zipStorePrevEntryLengthLarge. destruct x as [|x0 x]; [done|]. simpl in Hx.
  unfold put. change (P ++ (x0 :: x) ++ R) with (P ++ [x0] ++ (x ++ R)). rewrite store_app by done. cbn [mbind option_bind].
  replace (P ++ [ZIP_BIG_PREVLEN] ++ x ++ R) with ((P ++ [ZIP_BIG_PREVLEN]) ++ x ++ R) by (by rewrite <- app_assoc).
  rewrite store_app by (rewrite ?length_app, ?host_bytes_length; simpl; lia). cbn [mbind option_bind].
  rewrite load_app by (rewrite ?length_app, ?host_bytes_length; simpl; lia). cbn [mbind option_bind].
  rewrite (proj2 (rev_le_32 n)).
  rewrite store_app by (rewrite ?length_app, ?host_bytes_length, ?le_bytes_length; simpl; lia). cbn [mbind option_bind].
  by rewrite <- app_assoc.
Qed.

Lemma store_prevlen P x n R : 0 <= n < 2 ^ 32 -> Z.of_nat (length x) = prev_size (needs_big n) ->
  zipStorePrevEntryLength (P ++ x ++ R) (Z.of_nat (length P)) n =
    Some (P ++ prev_field (needs_big n) n ++ R, prev_size (needs_big n)).
Proof.
  intros Hn. unfold zipStorePrevEntryLength, needs_big, ZIP_BIG_PREVLEN. destruct (n <? 254) eqn:E; zbool.
  - rewrite (proj2 (Z.leb_gt 254 n)) by lia. cbn [prev_size]. intros Hx. unfold put. rewrite uwrap_small by lia.
    rewrite store_app by (simpl; lia). done.
  - rewrite (proj2 (Z.leb_le 254 n)) by lia. cbn [prev_size]. apply store_prevlen_large.
Qed.

Lemma prevlen_diff P b n R m : prev_ok b n ->
  zipPrevLenByteDiff (P ++ prev_field b n ++ R) (Z.of_nat (length P)) m =
    Some (prev_size (needs_big m) - prev_size b).
Proof.
  intros Hok. unfold zipPrevLenByteDiff. rewrite decode_prevlensize by done. cbn [mbind option_bind].
  rewrite prev_size_needs. f_equal. by destruct (needs_big m), b.
Qed.

(** ** Entries and the list of entries *)

Definition raw (n : Z) (r : rentry) : list byte := prev_field r.1 n ++ zl_payload r.2.
Definition rlen (r : rentry) : Z := prev_size r.1 + Z.of_nat (length (zl_payload r.2)).

(** The entries after one of [n] bytes, and what the code needs of them: every
    prevlen field has room for the length it holds. *)
Fixpoint zbody (n : Z) (rs : list rentry) : list byte :=
  match rs with [] => [] | r :: rs => raw n r ++ zbody (rlen r) rs end.
Fixpoint chain (n : Z) (rs : list rentry) : Prop :=
  match rs with [] => True | r :: rs => prev_ok r.1 n /\ zele_ok r.2 /\ chain (rlen r) rs end.
Fixpoint zlen (rs : list rentry) : Z := match rs with [] => 0 | r :: rs => rlen r + zlen rs end.

(** The length of the entry before what follows [rs]. *)
Fixpoint zout (n : Z) (rs : list rentry) : Z := match rs with [] => n | r :: rs => zout (rlen r) rs end.

Lemma rlen_range r : zele_ok r.2 -> 2 <= rlen r < 2 ^ 32.
Proof.
  intros He. pose proof (payload_length _ He). unfold zele_ok, rlen in *. destruct r as [[] e]; simpl in *; lia.
Qed.

Lemma raw_length n r : Z.of_nat (length (raw n r)) = rlen r.
Proof. unfold raw, rlen. rewrite length_app, <- prev_field_length with (n := n). lia. Qed.

Lemma zbody_length n rs : Z.of_nat (length (zbody n rs)) = zlen rs.
Proof.
  revert n. induction rs as [|r rs IH]; intros n; cbn [zbody zlen]; [done|].
  rewrite length_app, Nat2Z.inj_add, raw_length, IH. done.
Qed.

Lemma zbody_app n rs1 rs2 : zbody n (rs1 ++ rs2) = zbody n rs1 ++ zbody (zout n rs1) rs2.
Proof. revert n. induction rs1 as [|r rs1 IH]; intros n; [done|]. cbn. by rewrite IH, app_assoc. Qed.

Lemma chain_app n rs1 rs2 : chain n (rs1 ++ rs2) <-> chain n rs1 /\ chain (zout n rs1) rs2.
Proof. revert n. induction rs1 as [|r rs1 IH]; intros n; cbn; [tauto|]. rewrite IH. tauto. Qed.

Lemma zlen_app rs1 rs2 : zlen (rs1 ++ rs2) = zlen rs1 + zlen rs2.
Proof. induction rs1 as [|r rs1 IH]; cbn; [done|]. rewrite IH. lia. Qed.

Lemma zout_snoc n rs r : zout n (rs ++ [r]) = rlen r.
Proof. revert n. induction rs as [|x rs IH]; intros n; cbn; [done|apply IH]. Qed.

Lemma zout_app n rs1 rs2 : zout n (rs1 ++ rs2) = zout (zout n rs1) rs2.
Proof. revert n. induction rs1 as [|r rs1 IH]; intros n; cbn; [done|apply IH]. Qed.

Lemma chain_entries n rs : chain n rs -> Forall (fun r : rentry => zele_ok r.2) rs.
Proof. revert n. induction rs as [|r rs IH]; intros n; [constructor|]. cbn. intros (_ & ? & ?). constructor; eauto. Qed.

Lemma zlen_range rs : Forall (fun r : rentry => zele_ok r.2) rs -> 2 * Z.of_nat (length rs) <= zlen rs.
Proof. induction 1 as [|r rs Hr _ IH]; cbn; [done|]. pose proof (rlen_range r Hr). lia. Qed.

Lemma zlen_nonneg rs : 0 <= zlen rs.
Proof. rewrite <- (zbody_length 0). lia. Qed.

Lemma zout_range n rs : 0 <= n < 2 ^ 32 -> chain n rs -> 0 <= zout n rs < 2 ^ 32.
Proof.
  revert n. induction rs as [|r rs IH]; intros n Hn; cbn; [done|]. intros (_ & He & Hc).
  apply IH; [|done]. pose proof (rlen_range r He). lia.
Qed.

(** The entry before [rs1]'s end lies within [rs1]. *)
Lemma zout_le rs : zout 0 rs <= zlen rs.
Proof.
  destruct rs as [|r rs _] using rev_ind; [done|]. rewrite zout_snoc, zlen_app. cbn. pose proof (zlen_nonneg rs). lia.
Qed.

Lemma zip_entry P n r R : prev_ok r.1 n -> zele_ok r.2 ->
  zipEntry (P ++ raw n r ++ R) (Z.of_nat (length P)) =
    Some (mkZlentry (prev_size r.1) n (Z.of_nat (length (zl_hdr r.2))) (Z.of_nat (length (zl_data r.2)))
            (prev_size r.1 + Z.of_nat (length (zl_hdr r.2))) (read_enc r.2) (Z.of_nat (length P))).
Proof.
  intros Hn He. unfold zipEntry, raw, zl_payload. rewrite <- !app_assoc, decode_prevlen by done.
  cbn [mbind option_bind]. rewrite app_assoc.
  replace (Z.of_nat (length P) + prev_size r.1) with (Z.of_nat (length (P ++ prev_field r.1 n)))
    by (rewrite length_app, <- prev_field_length with (n := n); lia).
  by rewrite decode_length.
Qed.

Lemma raw_entry_length P n r R : prev_ok r.1 n -> zele_ok r.2 ->
  zipRawEntryLength (P ++ raw n r ++ R) (Z.of_nat (length P)) = Some (rlen r).
Proof.
  intros Hn He. pose proof (rlen_range r He) as Hr. unfold zipRawEntryLength, raw, zl_payload.
  rewrite <- !app_assoc, decode_prevlensize by done. cbn [mbind option_bind]. rewrite app_assoc.
  replace (Z.of_nat (length P) + prev_size r.1) with (Z.of_nat (length (P ++ prev_field r.1 n)))
    by (rewrite length_app, <- prev_field_length with (n := n); lia).
  rewrite decode_length by done. cbn [mbind option_bind]. f_equal.
  replace (_ + _ + _) with (rlen r) by (unfold rlen, zl_payload; rewrite length_app; lia). apply uwrap_small. lia.
Qed.

(** The first byte of an entry is never the end byte. *)
Lemma zgetb_body P n rs R : chain n rs -> exists b,
  getb (P ++ zbody n rs ++ ZIP_END :: R) (Z.of_nat (length P)) = Some b /\ (b =? ZIP_END) = bool_decide (rs = []).
Proof.
  destruct rs as [|r rs]; cbn [zbody app]; intros Hc.
  - exists ZIP_END. split; [by apply getb_app|done].
  - destruct Hc as ([Hn Hb] & _). unfold raw, prev_field. destruct r.1; cbn [app]; rewrite getb_app by done; eexists; (split; [done|]).
    + done.
    + specialize (Hb eq_refl). rewrite (proj2 (Z.eqb_neq n ZIP_END)) by (unfold ZIP_END; lia). done.
Qed.

(** ** Blocks *)

Definition zheader (total tail num : Z) : list byte := le_bytes 4 total ++ le_bytes 4 tail ++ le_bytes 2 num.
Definition block (tail num : Z) (X : list byte) : list byte :=
  zheader (11 + Z.of_nat (length X)) tail num ++ X ++ [ZIP_END].

Lemma zheader_length total tail num : length (zheader total tail num) = 10%nat.
Proof. done. Qed.

Lemma block_length tail num X : Z.of_nat (length (block tail num X)) = 11 + Z.of_nat (length X).
Proof. unfold block. rewrite !length_app, zheader_length. simpl. lia. Qed.

Lemma host_val_le_32 v : 0 <= v < 2 ^ 32 -> host_val (le_bytes 4 v) = intrev32ifbe v.
Proof.
  intros Hv. unfold intrev32ifbe. rewrite intrev32_val. unfold host_val, host_bytes. destruct big_endian.
  - by rewrite reverse_involutive.
  - rewrite le_val_bytes. by apply uwrap_small.
Qed.

Lemma host_bytes_le_32 v : 0 <= v < 2 ^ 32 -> host_bytes 4 (intrev32ifbe v) = le_bytes 4 v.
Proof.
  intros Hv. rewrite <- host_val_le_32 by done. rewrite <- (le_bytes_length 4 v) at 1.
  apply host_bytes_val. auto with redis.
Qed.

Lemma intrev16_val v : intrev16 v = host_val (reverse (host_bytes 2 v)).
Proof.
  unfold intrev16. rewrite <- (app_nil_r (host_bytes 2 v)) at 1.
  by rewrite memrev16_reverse, app_nil_r by apply host_bytes_length.
Qed.

Lemma host_val_le_16 v : 0 <= v < 2 ^ 16 -> host_val (le_bytes 2 v) = intrev16ifbe v.
Proof.
  intros Hv. unfold intrev16ifbe. rewrite intrev16_val. unfold host_val, host_bytes. destruct big_endian.
  - by rewrite reverse_involutive.
  - rewrite le_val_bytes. by apply uwrap_small.
Qed.

Lemma host_bytes_le_16 v : 0 <= v < 2 ^ 16 -> host_bytes 2 (intrev16ifbe v) = le_bytes 2 v.
Proof.
  intros Hv. rewrite <- host_val_le_16 by done. rewrite <- (le_bytes_length 2 v) at 1.
  apply host_bytes_val. auto with redis.
Qed.

Lemma intrev16ifbe_involutive v : 0 <= v < 2 ^ 16 -> intrev16ifbe (intrev16ifbe v) = v.
Proof.
  intros Hv. unfold intrev16ifbe. destruct big_endian eqn:E; [|done].
  rewrite !intrev16_val, reverse_swap_involutive. by apply uwrap_small.
Qed.

Section header.
Context (total tail num : Z) (R : list byte).
Hypothesis Htotal : 0 <= total < 2 ^ 32.
Hypothesis Htail : 0 <= tail < 2 ^ 32.
Hypothesis Hnum : 0 <= num < 2 ^ 16.

Lemma get_bytes : ZIPLIST_BYTES (zheader total tail num ++ R) = Some (intrev32ifbe total).
Proof.
  unfold ZIPLIST_BYTES, zheader. rewrite <- app_assoc. rewrite (load_app [] (le_bytes 4 total) _ 0 4 eq_refl eq_refl : load (le_bytes 4 total ++ _) 0 4 = _).
  cbn [fmap option_fmap option_map].
  by rewrite host_val_le_32.
Qed.

Lemma get_tail : ZIPLIST_TAIL_OFFSET (zheader total tail num ++ R) = Some (intrev32ifbe tail).
Proof.
  unfold ZIPLIST_TAIL_OFFSET, zheader. rewrite <- !app_assoc, (load_app _ (le_bytes 4 tail)) by done.
  cbn [fmap option_fmap option_map]. by rewrite host_val_le_32.
Qed.

Lemma get_num : ZIPLIST_LENGTH (zheader total tail num ++ R) = Some (intrev16ifbe num).
Proof.
  unfold ZIPLIST_LENGTH, zheader. rewrite app_assoc, <- app_assoc, (load_app _ (le_bytes 2 num)) by done.
  cbn [fmap option_fmap option_map]. by rewrite host_val_le_16.
Qed.
End header.

Lemma set_bytes h rest v : length h = 4%nat -> 0 <= v < 2 ^ 32 ->
  set_ZIPLIST_BYTES (h ++ rest) (intrev32ifbe v) = Some (le_bytes 4 v ++ rest).
Proof. intros Hh Hv. unfold set_ZIPLIST_BYTES. rewrite host_bytes_le_32 by done. by apply (store_app []). Qed.

Lemma set_tail total tail num R v : 0 <= v < 2 ^ 32 ->
  set_ZIPLIST_TAIL_OFFSET (zheader total tail num ++ R) (intrev32ifbe v) = Some (zheader total v num ++ R).
Proof.
  intros Hv. unfold set_ZIPLIST_TAIL_OFFSET, zheader. rewrite host_bytes_le_32, <- !app_assoc by done.
  by apply store_app.
Qed.

Lemma zset_num total tail num R v : 0 <= v < 2 ^ 16 ->
  set_ZIPLIST_LENGTH (zheader total tail num ++ R) (intrev16ifbe v) = Some (zheader total tail v ++ R).
Proof.
  intros Hv. unfold set_ZIPLIST_LENGTH, zheader. rewrite host_bytes_le_16, !app_assoc, <- app_assoc by done.
  rewrite store_app by done. by rewrite <- app_assoc.
Qed.

Lemma move_tail_spec total tail num R d : 0 <= tail < 2 ^ 32 -> 0 <= tail + d < 2 ^ 32 ->
  move_tail (zheader total tail num ++ R) d = Some (zheader total (tail + d) num ++ R).
Proof.
  intros Ht Hd. unfold move_tail. rewrite get_tail by done. cbn [mbind option_bind].
  rewrite intrev32ifbe_involutive, uwrap_small by done. by apply set_tail.
Qed.
End decoding.

(** ** The representation *)

Definition zpos (rs1 : list rentry) : Z := 10 + zlen rs1.
Definition zcursor (rs1 rs2 : list rentry) : option Z :=
  match rs2 with [] => None | _ :: _ => Some (zpos rs1) end.

(** The offset of the last entry, or of the end when there is none. *)
Definition ztail (rs : list rentry) : Z := zpos rs - zout 0 rs.

(** The count of the header, which is unknown from 65535 on. *)
Definition num_ok (num : Z) (n : nat) : Prop := num = Z.of_nat n /\ num < UINT16_MAX \/ num = UINT16_MAX.

Definition zl_repr (zl : list byte) (rs : list rentry) : Prop :=
  exists num, zl = block (ztail rs) num (zbody 0 rs) /\ 11 + zlen rs < 2 ^ 32 /\ chain 0 rs /\ num_ok num (length rs).

Lemma num_ok_range num n : num_ok num n -> 0 <= num < 2 ^ 16.
Proof. unfold num_ok, UINT16_MAX. lia. Qed.

Lemma zpos_snoc rs r : zpos (rs ++ [r]) = zpos rs + rlen r.
Proof. unfold zpos. rewrite zlen_app. cbn. lia. Qed.

Lemma ztail_snoc rs r : ztail (rs ++ [r]) = zpos rs.
Proof. unfold ztail. rewrite zpos_snoc, zout_snoc. lia. Qed.

Lemma ztail_range rs : 10 <= ztail rs <= 10 + zlen rs.
Proof.
  destruct rs as [|r rs _] using rev_ind; [by vm_compute|]. rewrite ztail_snoc, zlen_app. unfold zpos. cbn.
  pose proof (zlen_nonneg rs). unfold rlen. destruct r.1; simpl; lia.
Qed.

(** Reads the byte at the cursor that [H] gives. *)
Ltac read_byte H :=
  let b := fresh "b" in let Hb := fresh "Hb" in let He := fresh "He" in
  destruct H as (b & Hb & He); rewrite Hb; cbn [mbind option_bind]; rewrite He; clear b Hb He.

Section reading.
Context `{HH : Host} (zl : list byte).

Lemma zsplit rs1 rs2 : zl_repr zl (rs1 ++ rs2) -> exists P,
  zl = P ++ zbody (zout 0 rs1) rs2 ++ [ZIP_END] /\ zpos rs1 = Z.of_nat (length P) /\ chain (zout 0 rs1) rs2.
Proof.
  intros (num & -> & _ & Hc & _). apply chain_app in Hc as [_ Hc]. unfold block. rewrite zbody_app.
  exists (zheader (11 + Z.of_nat (length (zbody 0 rs1 ++ zbody (zout 0 rs1) rs2))) (ztail (rs1 ++ rs2)) num ++ zbody 0 rs1).
  split_and!; [by rewrite <- !app_assoc| |done].
  rewrite length_app, zheader_length. unfold zpos. rewrite <- (zbody_length 0). lia.
Qed.

Lemma zrepr_fuel rs : zl_repr zl rs -> (2 * length rs + 11 <= length zl)%nat.
Proof.
  intros (num & -> & _ & Hc & _). apply chain_entries in Hc. apply zlen_range in Hc.
  pose proof (block_length (ztail rs) num (zbody 0 rs)) as Hl. rewrite zbody_length in Hl. lia.
Qed.

Lemma byte_at rs1 rs2 : zl_repr zl (rs1 ++ rs2) -> exists b,
  getb zl (zpos rs1) = Some b /\ (b =? ZIP_END) = bool_decide (rs2 = []).
Proof. intros Hr. apply zsplit in Hr as (P & -> & -> & Hc). by apply zgetb_body. Qed.

Lemma entry_at rs1 r rs2 : zl_repr zl (rs1 ++ r :: rs2) ->
  zipEntry zl (zpos rs1) =
    Some (mkZlentry (prev_size r.1) (zout 0 rs1) (Z.of_nat (length (zl_hdr r.2))) (Z.of_nat (length (zl_data r.2)))
            (prev_size r.1 + Z.of_nat (length (zl_hdr r.2))) (read_enc r.2) (zpos rs1)) /\
  zipRawEntryLength zl (zpos rs1) = Some (rlen r) /\
  ZIP_DECODE_PREVLENSIZE zl (zpos rs1) = Some (prev_size r.1) /\
  ZIP_DECODE_PREVLEN zl (zpos rs1) = Some (prev_size r.1, zout 0 rs1) /\
  ZIP_DECODE_LENGTH zl (zpos rs1 + prev_size r.1) =
    Some (read_enc r.2, Z.of_nat (length (zl_hdr r.2)), Z.of_nat (length (zl_data r.2))).
Proof.
  intros Hr. apply zsplit in Hr as (P & -> & -> & Hn & He & _). cbn [zbody]. rewrite <- app_assoc.
  split_and!; [by apply zip_entry|by apply raw_entry_length|..]; unfold raw; rewrite <- ?app_assoc.
  - by apply decode_prevlensize.
  - by apply decode_prevlen.
  - unfold zl_payload. rewrite <- app_assoc, app_assoc.
    replace (Z.of_nat (length P) + prev_size r.1) with (Z.of_nat (length (P ++ prev_field r.1 (zout 0 rs1))))
      by (rewrite length_app, <- prev_field_length with (n := zout 0 rs1); lia).
    by apply decode_length.
Qed.

Lemma data_at rs1 r rs2 : zl_repr zl (rs1 ++ r :: rs2) ->
  let q := zpos rs1 + prev_size r.1 + Z.of_nat (length (zl_hdr r.2)) in
  match zipTryEncoding r.2 with
  | Some (v, enc) => zipLoadInteger zl q enc = Some v
  | None => load zl q (Z.of_nat (length r.2)) = Some r.2
  end.
Proof.
  intros Hr. apply zsplit in Hr as (P & -> & -> & Hn & He & _). cbn [zbody]. unfold raw, zl_payload.
  rewrite <- !app_assoc, (app_assoc P), (app_assoc (P ++ _)). cbv zeta.
  replace (Z.of_nat (length P) + prev_size r.1 + Z.of_nat (length (zl_hdr r.2)))
    with (Z.of_nat (length ((P ++ prev_field r.1 (zout 0 rs1)) ++ zl_hdr r.2)))
    by (rewrite !length_app, <- prev_field_length with (n := zout 0 rs1); lia).
  unfold zl_data. destruct (zipTryEncoding r.2) as [[v enc]|] eqn:E; [|by apply load_app].
  apply try_encoding_some in E as (_ & _ & _ & Hi). by apply load_integer.
Qed.

Lemma header_at rs : zl_repr zl rs -> exists num,
  ZIPLIST_BYTES zl = Some (intrev32ifbe (11 + zlen rs)) /\ intrev32ifbe (intrev32ifbe (11 + zlen rs)) = 11 + zlen rs /\
  ZIPLIST_ENTRY_TAIL zl = Some (ztail rs) /\
  ZIPLIST_LENGTH zl = Some (intrev16ifbe num) /\ intrev16ifbe (intrev16ifbe num) = num /\ num_ok num (length rs).
Proof.
  intros (num & -> & Hs & Hc & Hn). exists num. pose proof (num_ok_range _ _ Hn). pose proof (ztail_range rs).
  pose proof (zlen_nonneg rs). unfold block. rewrite zbody_length. unfold ZIPLIST_ENTRY_TAIL.
  rewrite get_bytes, get_tail, get_num by lia. cbn [mbind option_bind].
  rewrite !intrev32ifbe_involutive, intrev16ifbe_involutive by lia. done.
Qed.

Lemma znext_repr rs1 r rs2 : zl_repr zl (rs1 ++ r :: rs2) ->
  ziplistNext zl (zpos rs1) = Some (zcursor (rs1 ++ [r]) rs2).
Proof.
  intros Hr. unfold ziplistNext. read_byte (byte_at _ _ Hr).
  rewrite bool_decide_eq_false_2 by done. destruct (entry_at _ _ _ Hr) as (_ & -> & _). cbn [mbind option_bind].
  rewrite <- zpos_snoc. rewrite (app_assoc rs1 [r] rs2 : rs1 ++ r :: rs2 = _) in Hr.
  read_byte (byte_at _ _ Hr). by destruct rs2.
Qed.

Lemma next_end rs : zl_repr zl rs -> ziplistNext zl (zpos rs) = Some None.
Proof.
  intros Hr. unfold ziplistNext. rewrite <- (app_nil_r rs) in Hr. read_byte (byte_at _ _ Hr). done.
Qed.

Lemma zprev_repr rs1 r rs2 : zl_repr zl (rs1 ++ r :: rs2) ->
  ziplistPrev zl (zpos (rs1 ++ [r])) = Some (Some (zpos rs1)).
Proof.
  intros Hr. unfold ziplistPrev. destruct (byte_at _ _ Hr) as (b1 & Hb1 & He1). pose proof Hr as Hr'.
  rewrite (app_assoc rs1 [r] rs2 : rs1 ++ r :: rs2 = _) in Hr'.
  read_byte (byte_at _ _ Hr'). destruct rs2 as [|r2 rs2].
  - cbn [bool_decide decide_rel]. rewrite bool_decide_eq_true_2 by done.
    destruct (header_at _ Hr) as (num & _ & _ & -> & _). cbn [mbind option_bind]. rewrite ztail_snoc, Hb1.
    cbn [mbind option_bind]. rewrite He1. done.
  - rewrite bool_decide_eq_false_2 by done.
    assert (zele_ok r.2) as Hok.
    { destruct Hr as (num & _ & _ & Hc & _). apply chain_entries in Hc. apply Forall_app in Hc as [_ Hc].
      by apply Forall_cons in Hc as [Hc _]. }
    apply rlen_range in Hok. pose proof (zlen_nonneg rs1).
    rewrite zpos_snoc. rewrite (proj2 (Z.eqb_neq (zpos rs1 + rlen r) ZIPLIST_ENTRY_HEAD))
      by (unfold ZIPLIST_ENTRY_HEAD, ZIPLIST_HEADER_SIZE, zpos; lia).
    rewrite <- zpos_snoc. destruct (entry_at _ _ _ Hr') as (_ & _ & _ & -> & _). cbn [mbind option_bind].
    rewrite zout_snoc, (proj2 (Z.gtb_lt (rlen r) 0)) by lia. rewrite zpos_snoc. do 2 f_equal. lia.
Qed.

Lemma prev_head rs : zl_repr zl rs -> ziplistPrev zl (zpos []) = Some None.
Proof.
  intros Hr. unfold ziplistPrev. destruct (byte_at [] rs Hr) as (b & Hb & He). rewrite Hb. cbn [mbind option_bind].
  rewrite He. case_bool_decide as E.
  - subst. destruct (header_at _ Hr) as (num & _ & _ & -> & _). cbn [mbind option_bind].
    change (ztail []) with (zpos []). rewrite Hb. cbn [mbind option_bind]. rewrite He. done.
  - done.
Qed.
End reading.

(** ** Access *)

(** The element at [p] as a string. *)
Definition zl_string `{Host} (zl : list byte) (p : option Z) : option (option (list byte)) :=
  v ← ziplistGet zl p;
  match v with
  | None => Some None
  | Some (ZlStr sstr slen) => bs ← load zl sstr slen; Some (Some bs)
  | Some (ZlInt sval) => Some (Some (decimal sval))
  end.

(** The first element equal to [v] among those at distance [skip]+1 of each other,
    the first one after [cnt]. *)
Fixpoint find_spec (es : list (list byte)) (v : list byte) (skip cnt : nat) : option nat :=
  match es with
  | [] => None
  | e :: es =>
      match cnt with
      | O => if bool_decide (e = v) then Some O else S <$> find_spec es v skip skip
      | S cnt => S <$> find_spec es v skip cnt
      end
  end.

Lemma find_spec_some es v skip : forall cnt k, find_spec es v skip cnt = Some k ->
  es !! k = Some v /\ (cnt <= k)%nat /\ ((k - cnt) mod (skip + 1) = 0)%nat.
Proof.
  induction es as [|e es IH]; intros cnt k; cbn [find_spec]; [done|]. destruct cnt as [|cnt].
  - case_bool_decide as E; [intros [= <-]; subst; split_and!; [done|lia|apply Nat.Div0.mod_0_l]|].
    destruct (find_spec es v skip skip) as [j|] eqn:F; [|done]. intros [= <-]. apply IH in F as (F1 & F2 & F3).
    split_and!; [done|lia|]. replace (S j - 0)%nat with ((j - skip) + 1 * (skip + 1))%nat by lia.
    by rewrite Nat.Div0.mod_add.
  - destruct (find_spec es v skip cnt) as [j|] eqn:F; [|done]. intros [= <-]. apply IH in F as (F1 & F2 & F3).
    split_and!; [done|lia|]. by replace (S j - S cnt)%nat with (j - cnt)%nat by lia.
Qed.

Lemma find_spec_first es v skip : forall cnt i, es !! (cnt + i * (skip + 1))%nat = Some v ->
  exists k, find_spec es v skip cnt = Some k /\ (k <= cnt + i * (skip + 1))%nat.
Proof.
  induction es as [|e es IH]; intros cnt i; cbn [find_spec]; [done|]. destruct cnt as [|cnt].
  - case_bool_decide as E; [intros _; exists O; split; [done|lia]|]. destruct i as [|i]; [by intros [= ->]|].
    replace (0 + S i * (skip + 1))%nat with (S (skip + i * (skip + 1))) by lia. cbn. intros (k & -> & Hk)%IH.
    exists (S k). split; [done|lia].
  - cbn. intros (k & -> & Hk)%IH. exists (S k). split; [done|lia].
Qed.

Section access.
Context `{HH : Host} (zl : list byte).

Lemma zget_repr rs1 r rs2 : zl_repr zl (rs1 ++ r :: rs2) -> zl_string zl (Some (zpos rs1)) = Some (Some r.2).
Proof.
  intros Hr. unfold zl_string, ziplistGet. read_byte (byte_at _ _ _ Hr). rewrite bool_decide_eq_false_2 by done.
  destruct (entry_at _ _ _ _ Hr) as (-> & _). cbn [mbind option_bind encoding headersize len].
  pose proof (data_at _ _ _ _ Hr) as Hd. cbv zeta in Hd. rewrite read_enc_is_str. unfold read_enc, zl_data.
  destruct (zipTryEncoding r.2) as [[v enc]|] eqn:E.
  - rewrite bool_decide_eq_false_2 by done. rewrite Z.add_assoc, Hd. cbn [mbind option_bind].
    by apply try_encoding_some in E as (_ & _ & -> & _).
  - rewrite bool_decide_eq_true_2 by done. cbn [mbind option_bind]. rewrite Z.add_assoc, Hd. done.
Qed.

Lemma get_end rs : zl_repr zl rs -> zl_string zl (Some (zpos rs)) = Some None.
Proof.
  intros Hr. unfold zl_string, ziplistGet. rewrite <- (app_nil_r rs) in Hr. by read_byte (byte_at _ _ _ Hr).
Qed.

(** Comparison of an entry with a string, as integers when the entry is one. *)
Lemma entry_equal rs1 r rs2 s : zl_repr zl (rs1 ++ r :: rs2) ->
  let q := zpos rs1 + prev_size r.1 + Z.of_nat (length (zl_hdr r.2)) in
  if ZIP_IS_STR (read_enc r.2) then
    (if Z.of_nat (length (zl_data r.2)) =? Z.of_nat (length s)
     then x ← load zl q (Z.of_nat (length s)); Some (bool_decide (x = s)) else Some false)
    = Some (bool_decide (r.2 = s))
  else exists v, zipLoadInteger zl q (read_enc r.2) = Some v /\
    bool_decide (r.2 = s) = match zipTryEncoding s with Some (sval, _) => v =? sval | None => false end.
Proof.
  intros Hr. pose proof (data_at _ _ _ _ Hr) as Hd. cbv zeta in *. rewrite read_enc_is_str. unfold zl_data, read_enc.
  destruct (zipTryEncoding r.2) as [[v enc]|] eqn:E.
  - rewrite bool_decide_eq_false_2 by done. exists v. split; [done|].
    pose proof E as E'. apply try_encoding_some in E' as (E1 & Hv & E2 & _).
    destruct (zipTryEncoding s) as [[w enc']|] eqn:F.
    + apply try_encoding_some in F as (F1 & _ & F2 & _). apply Bool.eq_iff_eq_true.
      rewrite bool_decide_eq_true, Z.eqb_eq. split; [intros <-; congruence|intros ->; congruence].
    + apply bool_decide_eq_false_2. intros <-. congruence.
  - rewrite bool_decide_eq_true_2 by done. destruct (_ =? _) eqn:El; zbool.
    + rewrite <- El, Hd. done.
    + rewrite (bool_decide_eq_false_2 (r.2 = s)); [done|]. intros <-. lia.
Qed.

Lemma compare_repr rs1 r rs2 s : zl_repr zl (rs1 ++ r :: rs2) ->
  ziplistCompare zl (zpos rs1) s = Some (bool_decide (r.2 = s)).
Proof.
  intros Hr. unfold ziplistCompare. read_byte (byte_at _ _ _ Hr). rewrite (bool_decide_eq_false_2 (r :: rs2 = [])) by done.
  destruct (entry_at _ _ _ _ Hr) as (-> & _). cbn [mbind option_bind encoding headersize len].
  pose proof (entry_equal _ _ _ s Hr) as Hd. cbv zeta in Hd. rewrite Z.add_assoc.
  destruct (ZIP_IS_STR _); [done|]. destruct Hd as (v & -> & ->). cbn [mbind option_bind].
  by destruct (zipTryEncoding s) as [[w enc]|].
Qed.

(** What is known of the searched string. *)
Definition venc_ok (v : list byte) (vencoding vll : Z) : Prop :=
  vencoding = 0 \/ vencoding = UCHAR_MAX /\ zipTryEncoding v = None \/ zipTryEncoding v = Some (vll, vencoding).

Lemma venc_step v vencoding vll : venc_ok v vencoding vll -> exists venc' vll',
  (if vencoding =? 0 then match zipTryEncoding v with Some (vll, vencoding) => (vencoding, vll) | None => (UCHAR_MAX, vll) end
   else (vencoding, vll)) = (venc', vll') /\ venc_ok v venc' vll' /\ venc' <> 0 /\
  match zipTryEncoding v with Some (w, enc) => venc' = enc /\ vll' = w /\ enc <> UCHAR_MAX | None => venc' = UCHAR_MAX end.
Proof.
  assert (forall w enc, zipTryEncoding v = Some (w, enc) -> enc <> 0 /\ enc <> UCHAR_MAX) as Hr.
  { intros w enc E. apply try_encoding_some in E as (_ & _ & _ & E). apply int_enc_byte in E as (_ & E & _).
    unfold UCHAR_MAX. lia. }
  unfold venc_ok. destruct (vencoding =? 0) eqn:E0; zbool.
  - intros _. destruct (zipTryEncoding v) as [[w enc]|] eqn:E; eexists _, _; (split; [reflexivity|]).
    + destruct (Hr w enc eq_refl). naive_solver.
    + naive_solver.
  - intros [? | [[-> E] | E]]; [done|..]; eexists _, _; (split; [reflexivity|]); rewrite E.
    + naive_solver.
    + destruct (Hr _ _ E). naive_solver.
Qed.

Lemma find_loop_repr v skip rs2 : Z.of_nat skip < 2 ^ 31 -> forall rs1 fuel cnt vencoding vll,
  zl_repr zl (rs1 ++ rs2) -> (length rs2 <= fuel)%nat -> venc_ok v vencoding vll ->
  find_loop fuel zl (zpos rs1) v (Z.of_nat skip) (Z.of_nat cnt) vencoding vll =
    Some ((fun k => zpos (rs1 ++ take k rs2)) <$> find_spec (rs2.*2) v skip cnt).
Proof.
  intros Hskip. induction rs2 as [|r rs2 IH]; intros rs1 fuel cnt vencoding vll Hr Hf Hv.
  { destruct fuel; cbn [find_loop]; by read_byte (byte_at _ _ _ Hr). }
  destruct fuel as [|fuel]; [simpl in Hf; lia|]. simpl in Hf. cbn [find_loop].
  read_byte (byte_at _ _ _ Hr). rewrite (bool_decide_eq_false_2 (r :: rs2 = [])) by done.
  destruct (entry_at _ _ _ _ Hr) as (_ & _ & Hs & _ & Hl). rewrite Hs. cbn [mbind option_bind]. rewrite Hl.
  cbn [mbind option_bind].
  pose proof (entry_equal _ _ _ v Hr) as Hd. cbv zeta in Hd.
  assert (zpos rs1 + prev_size r.1 + Z.of_nat (length (zl_hdr r.2)) + Z.of_nat (length (zl_data r.2)) = zpos (rs1 ++ [r])) as Hq.
  { rewrite zpos_snoc. unfold rlen, zl_payload. rewrite length_app. lia. }
  rewrite Hq. rewrite swrap_small by (unfold in_s; lia).
  assert (forall cnt venc vll, venc_ok v venc vll -> find_loop fuel zl (zpos (rs1 ++ [r])) v (Z.of_nat skip) (Z.of_nat cnt) venc vll
    = Some ((fun k => zpos (rs1 ++ take k (r :: rs2))) <$> (S <$> find_spec rs2.*2 v skip cnt))) as Hgo.
  { intros c ve vl Hve. rewrite IH by (done || lia || by rewrite <- app_assoc). f_equal. rewrite <- option_fmap_compose.
    apply option_fmap_ext. intros k. cbn. by rewrite <- app_assoc. }
  cbn [fmap list_fmap find_spec]. destruct cnt as [|cnt].
  - change (Z.of_nat 0 =? 0) with true. cbv iota. destruct (ZIP_IS_STR (read_enc r.2)).
    + rewrite Hd. cbn [mbind option_bind]. case_bool_decide; [|by apply Hgo].
      cbn [fmap option_fmap option_map take]. by rewrite app_nil_r.
    + destruct Hd as (w & Hw & Hd). destruct (venc_step v vencoding vll Hv) as (ve & vl & -> & Hve & Hne & Hcase).
      rewrite (proj2 (Z.eqb_neq ve 0)) by done. rewrite Hd. destruct (zipTryEncoding v) as [[x enc]|].
      * destruct Hcase as (-> & -> & Hu). rewrite (proj2 (Z.eqb_neq enc UCHAR_MAX)) by done. cbn [negb].
        rewrite Hw. cbn [mbind option_bind]. destruct (w =? x); [|by apply Hgo].
        cbn [fmap option_fmap option_map take]. by rewrite app_nil_r.
      * subst ve. change (UCHAR_MAX =? UCHAR_MAX) with true. cbn [negb mbind option_bind]. by apply Hgo.
  - rewrite (proj2 (Z.eqb_neq (Z.of_nat (S cnt)) 0)) by lia. replace (Z.of_nat (S cnt) - 1) with (Z.of_nat cnt) by lia.
    by apply Hgo.
Qed.

Lemma find_repr rs1 rs2 v skip : zl_repr zl (rs1 ++ rs2) -> Z.of_nat skip < 2 ^ 31 ->
  ziplistFind zl (zpos rs1) v (Z.of_nat skip) = Some ((fun k => zpos (rs1 ++ take k rs2)) <$> find_spec (rs2.*2) v skip 0).
Proof.
  intros Hr Hs. unfold ziplistFind. change 0 with (Z.of_nat 0) at 1. apply find_loop_repr; [done..| |by left].
  apply zrepr_fuel in Hr. rewrite length_app in Hr. lia.
Qed.
End access.

(** ** Positions and length *)

Section positions.
Context `{HH : Host} (zl : list byte).

Lemma index_forward_repr rs2 : forall rs1 fuel i, zl_repr zl (rs1 ++ rs2) -> (length rs2 <= fuel)%nat -> 0 <= i ->
  index_forward fuel zl (zpos rs1) i =
    Some (zpos (rs1 ++ take (Z.to_nat i) rs2), if i <? Z.of_nat (length rs2) then -1 else i - Z.of_nat (length rs2)).
Proof.
  induction rs2 as [|r rs2 IH]; intros rs1 fuel i Hr Hf Hi.
  { destruct fuel; cbn [index_forward]; read_byte (byte_at _ _ _ Hr); cbn [length];
      rewrite take_nil, app_nil_r, Z.sub_0_r, (proj2 (Z.ltb_ge i (Z.of_nat 0))) by lia; done. }
  assert (forall fuel, index_forward fuel zl (zpos rs1) i = if i =? 0 then Some (zpos rs1, i - 1) else
    match fuel with O => None | S fuel => index_forward fuel zl (zpos (rs1 ++ [r])) (i - 1) end) as ->.
  { intros [|f]; cbn [index_forward]; read_byte (byte_at _ _ _ Hr); rewrite (bool_decide_eq_false_2 (r :: rs2 = [])) by done; [done|].
    destruct (entry_at _ _ _ _ Hr) as (_ & -> & _). cbn [mbind option_bind negb]. by rewrite zpos_snoc. }
  destruct (i =? 0) eqn:E; zbool.
  - subst. cbn [Z.to_nat take]. rewrite app_nil_r. done.
  - destruct fuel as [|fuel]; [simpl in Hf; lia|]. simpl in Hf. rewrite IH by (lia || by rewrite <- app_assoc).
    replace (Z.to_nat i) with (S (Z.to_nat (i - 1))) by lia. cbn [take length]. rewrite <- app_assoc. cbn [app]. do 2 f_equal.
    destruct (i - 1 <? _) eqn:E1, (i <? _) eqn:E2; zbool; lia.
Qed.

Lemma index_backward_repr rs1 : forall fuel r rs2 i, zl_repr zl (rs1 ++ r :: rs2) -> (length rs1 <= fuel)%nat -> 0 <= i ->
  index_backward fuel zl (zpos rs1) (zout 0 rs1) i =
    Some (zpos (take (length rs1 - Z.to_nat i) rs1), if i <? Z.of_nat (length rs1) then -1 else i - Z.of_nat (length rs1)).
Proof.
  induction rs1 as [|r' rs1 IH] using rev_ind; intros fuel r rs2 i Hr Hf Hi.
  { cbn [zout length]. rewrite take_nil, Z.sub_0_r, (proj2 (Z.ltb_ge i (Z.of_nat 0))) by lia. by destruct fuel. }
  rewrite <- app_assoc in Hr. cbn [app] in Hr. rewrite length_app in Hf |- *. simpl in Hf |- *. rewrite zout_snoc.
  assert (zele_ok r'.2) as Hok.
  { destruct Hr as (num & _ & _ & Hc & _). apply chain_entries in Hc. apply Forall_app in Hc as [_ Hc].
    by apply Forall_cons in Hc as [Hc _]. }
  apply rlen_range in Hok.
  assert (forall fuel, index_backward fuel zl (zpos (rs1 ++ [r'])) (rlen r') i =
    if i =? 0 then Some (zpos (rs1 ++ [r']), i - 1) else
    match fuel with O => None | S fuel => index_backward fuel zl (zpos rs1) (zout 0 rs1) (i - 1) end) as ->.
  { intros [|f]; cbn [index_backward]; rewrite (proj2 (Z.gtb_lt (rlen r') 0)) by lia; [done|].
    rewrite zpos_snoc. replace (zpos rs1 + rlen r' - rlen r') with (zpos rs1) by lia.
    destruct (entry_at _ _ _ _ Hr) as (_ & _ & _ & -> & _). done. }
  destruct (i =? 0) eqn:E; zbool.
  - subst. rewrite take_ge by (rewrite ?length_app; simpl; lia). rewrite (proj2 (Z.ltb_lt 0 _)) by lia. done.
  - destruct fuel as [|fuel]; [lia|]. rewrite (IH fuel r' (r :: rs2)) by (done || lia).
    rewrite take_app_le by lia. replace (length rs1 + 1 - Z.to_nat i)%nat with (length rs1 - Z.to_nat (i - 1))%nat by lia.
    do 2 f_equal. destruct (i - 1 <? _) eqn:E1, (i <? _) eqn:E2; zbool; lia.
Qed.

Lemma index_repr rs i : zl_repr zl rs -> INT32_MIN < i ->
  ziplistIndex zl i = Some ((fun k => zpos (take k rs)) <$> index_of (rs.*2) i).
Proof.
  intros Hr Hi. unfold ziplistIndex, index_of. rewrite length_fmap. destruct (i <? 0) eqn:Es; zbool.
  - rewrite (proj2 (Z.eqb_neq i INT32_MIN)) by lia. destruct (header_at _ _ Hr) as (num & _ & _ & -> & _). cbn [mbind option_bind].
    destruct rs as [|r rs _] using rev_ind.
    + change (ztail []) with (zpos []). read_byte (byte_at _ [] [] Hr).
      rewrite bool_decide_eq_true_2 by done. cbn [negb mbind option_bind].
      read_byte (byte_at _ [] [] Hr). cbn [length]. rewrite (proj2 (Z.leb_gt 0 (Z.of_nat 0 + i))) by lia. done.
    + rewrite ztail_snoc. read_byte (byte_at _ rs [r] Hr). rewrite bool_decide_eq_false_2 by done. cbn [negb].
      destruct (entry_at _ _ _ _ Hr) as (_ & _ & _ & -> & _). cbn [mbind option_bind snd].
      rewrite (index_backward_repr rs _ r []) by (done || lia || (apply zrepr_fuel in Hr; rewrite length_app in Hr; simpl in Hr; lia)).
      cbn [mbind option_bind]. set (k := (length rs - Z.to_nat (- i - 1))%nat).
      rewrite length_app. simpl length.
      assert (zl_repr zl (take k rs ++ drop k rs ++ [r])) as Hk by (by rewrite app_assoc, take_drop).
      read_byte (byte_at _ _ _ Hk). rewrite (bool_decide_eq_false_2 (drop k rs ++ [r] = [])) by (by destruct (drop k rs)). cbn [orb].
      destruct (- i - 1 <? Z.of_nat (length rs)) eqn:E; zbool.
      * change (-1 >? 0) with false. cbv iota. rewrite (proj2 (Z.leb_le 0 _)), (proj2 (Z.ltb_lt _ _)) by lia. cbn.
        rewrite take_app_le by lia. do 4 f_equal. lia.
      * destruct (- i - 1 - Z.of_nat (length rs) >? 0) eqn:E1; zbool.
        { rewrite (proj2 (Z.leb_gt 0 _)) by lia. done. }
        rewrite (proj2 (Z.leb_le 0 _)), (proj2 (Z.ltb_lt _ _)) by lia. cbn. rewrite take_app_le by lia. do 4 f_equal. lia.
  - change ZIPLIST_ENTRY_HEAD with (zpos []). rewrite (index_forward_repr rs [] _ i) by (done || lia || (apply zrepr_fuel in Hr; lia)).
    cbn [app mbind option_bind]. set (k := Z.to_nat i).
    assert (zl_repr zl (take k rs ++ drop k rs)) as Hk by (by rewrite take_drop).
    read_byte (byte_at _ _ _ Hk). rewrite (proj2 (Z.leb_le 0 i)) by lia. cbn [andb].
    destruct (i <? Z.of_nat (length rs)) eqn:E; zbool.
    + rewrite (bool_decide_eq_false_2 (drop k rs = [])); cycle 1. { intros Hd. apply (f_equal length) in Hd. rewrite length_drop in Hd.
      simpl in Hd. lia. }
      done.
    + rewrite (bool_decide_eq_true_2 (drop k rs = [])) by (apply drop_ge; lia).
      done.
Qed.

Lemma len_loop_repr rs2 : forall rs1 fuel n, zl_repr zl (rs1 ++ rs2) -> (length rs2 <= fuel)%nat -> 0 <= n ->
  n + Z.of_nat (length rs2) < 2 ^ 32 -> len_loop fuel zl (zpos rs1) n = Some (n + Z.of_nat (length rs2)).
Proof.
  induction rs2 as [|r rs2 IH]; intros rs1 fuel n Hr Hf Hn Hlt.
  { destruct fuel; cbn [len_loop]; read_byte (byte_at _ _ _ Hr); cbn [bool_decide length]; f_equal; lia. }
  destruct fuel as [|fuel]; [simpl in Hf; lia|]. simpl in Hf, Hlt. cbn [len_loop]. read_byte (byte_at _ _ _ Hr).
  rewrite (bool_decide_eq_false_2 (r :: rs2 = [])) by done.
  destruct (entry_at _ _ _ _ Hr) as (_ & -> & _). cbn [mbind option_bind]. rewrite <- zpos_snoc, uwrap_small by lia.
  rewrite IH by (lia || by rewrite <- app_assoc). simpl. f_equal. lia.
Qed.
End positions.

Lemma repr_with_num `{Host} zl rs v : zl_repr zl rs -> num_ok v (length rs) ->
  exists zl', set_ZIPLIST_LENGTH zl (intrev16ifbe v) = Some zl' /\ zl_repr zl' rs.
Proof.
  intros (num & -> & Hs & Hc & _) Hv. unfold block. rewrite zset_num by (by eapply num_ok_range). eexists. split; [done|].
  by exists v.
Qed.

Lemma len_repr `{Host} zl rs : zl_repr zl rs ->
  exists zl', ziplistLen zl = Some (zl', Z.of_nat (length rs)) /\ zl_repr zl' rs.
Proof.
  intros Hr. unfold ziplistLen. destruct (header_at zl rs Hr) as (num & _ & _ & _ & -> & Hi & Hn). cbn [mbind option_bind].
  rewrite Hi. destruct (num <? UINT16_MAX) eqn:E; zbool.
  { assert (num = Z.of_nat (length rs)) as -> by (unfold num_ok in Hn; lia). by exists zl. }
  assert (2 * Z.of_nat (length rs) < 2 ^ 32) as Hlt.
  { destruct Hr as (? & _ & Hs & Hc & _). apply chain_entries in Hc. apply zlen_range in Hc. lia. }
  change ZIPLIST_HEADER_SIZE with (zpos []). rewrite (len_loop_repr zl rs [] _ 0) by (done || lia || (apply zrepr_fuel in Hr; lia)).
  cbn [mbind option_bind]. rewrite Z.add_0_l. destruct (Z.of_nat (length rs) <? UINT16_MAX) eqn:E1; zbool.
  - destruct (repr_with_num zl rs (Z.of_nat (length rs)) Hr) as (zl' & -> & Hr'); [by left|]. by exists zl'.
  - by exists zl.
Qed.
