(* ===== verification/ZiplistOps.v ===== *)
(** * Ziplists: insertion, deletion, merging

    The operations that change the block.  [fixup] says which prevlen fields
    __ziplistCascadeUpdate() grows; insertion, deletion and merging are list operations
    on the elements, followed by it.  A ziplist then refines a list of byte strings. *)

From S2P Require Import Prelude Endian Util Listpack ZiplistDefs Ziplist.
Local Open Scope Z_scope.

(** ** Resizing and moving *)

Lemma memmove_suffix (m m' E : list byte) dst src n : memmove m dst src n = Some m' ->
  memmove (m ++ E) dst src n = Some (m' ++ E).
Proof.
  unfold memmove, load, store. rewrite length_app, Nat2Z.inj_add.
  destruct (_ && _) eqn:Hl in |- *; [|done]. zbool. cbn [mbind option_bind].
  set (bs := take _ _) in |- *. destruct (_ && _) eqn:Hs in |- *; [|done]. zbool. intros [= <-].
  rewrite !(proj2 (Z.leb_le _ _)) by lia. cbn [andb mbind option_bind].
  assert (take (Z.to_nat n) (drop (Z.to_nat src) (m ++ E)) = bs) as ->.
  { rewrite drop_app_le by lia. apply take_app_le. rewrite length_drop. lia. }
  rewrite !(proj2 (Z.leb_le _ _)) by lia. cbn [andb]. f_equal.
  rewrite take_app_le, drop_app_le by lia. by rewrite <- !app_assoc.
Qed.

Section modification.
Context `{HH : Host} (junk : nat -> byte).

(** Growing keeps the entries and the old end byte, and writes a new end byte. *)
Lemma resize_grow T tail num Y k : 0 <= k -> T = 11 + Z.of_nat (length Y) -> T + k < 2 ^ 32 -> exists J,
  ziplistResize junk (zheader T tail num ++ Y ++ [ZIP_END]) (T + k) =
    Some (zheader (T + k) tail num ++ Y ++ J ++ [ZIP_END]) /\
  Z.of_nat (length J) = k /\ (0 < k -> exists J', J = ZIP_END :: J').
Proof.
  intros Hk HT Hlt. unfold ziplistResize. rewrite uwrap_small by lia.
  destruct (realloc_grow junk (zheader T tail num ++ Y ++ [ZIP_END]) (T + k)) as (q & -> & Hq).
  { rewrite !length_app, zheader_length. simpl. lia. }
  rewrite !length_app, zheader_length in Hq. simpl in Hq. unfold zheader. rewrite <- !app_assoc.
  rewrite set_bytes by (done || lia). cbn [mbind option_bind].
  set (h := le_bytes 4 (T + k) ++ le_bytes 4 tail ++ le_bytes 2 num).
  replace (le_bytes 4 (T + k) ++ le_bytes 4 tail ++ le_bytes 2 num ++ Y ++ [ZIP_END] ++ q)
    with (h ++ Y ++ [ZIP_END] ++ q) by (subst h; by rewrite <- !app_assoc).
  assert (length h = 10%nat) as Hh by done.
  replace (le_bytes 4 (T + k) ++ le_bytes 4 tail ++ le_bytes 2 num) with h by done. clearbody h.
  destruct q as [|x q _] using rev_ind.
  - exists []. simpl in Hq. split_and!; [|simpl; lia|lia]. rewrite !app_nil_r, app_assoc. unfold put.
    replace ((h ++ Y) ++ [ZIP_END]) with ((h ++ Y) ++ [ZIP_END] ++ []) by done.
    rewrite store_app by (rewrite ?length_app; simpl; lia). by rewrite <- app_assoc.
  - exists (ZIP_END :: q). rewrite length_app in Hq. simpl in Hq. split_and!; [|simpl; lia|eauto].
    unfold put. replace (h ++ Y ++ [ZIP_END] ++ q ++ [x]) with ((h ++ Y ++ ZIP_END :: q) ++ [x] ++ []) by (by rewrite <- !app_assoc).
    rewrite store_app by (rewrite ?length_app; simpl; lia). by rewrite <- !app_assoc.
Qed.

(** ** The cascade *)

(** The entries after one that now takes [n] bytes: the field of the next one grows
    when it has to, and then the one after it may have to. *)
Fixpoint fixup (n : Z) (rs : list rentry) : list rentry :=
  match rs with
  | [] => []
  | r :: rs => if r.1 || negb (needs_big n) then r :: rs else (true, r.2) :: fixup (rlen (true, r.2)) rs
  end.

Lemma fixup_elements n rs : (fixup n rs).*2 = rs.*2.
Proof. revert n. induction rs as [|[b e] rs IH]; intros n; [done|]. cbn. destruct (_ || _); [done|]. cbn. by rewrite IH. Qed.

Lemma fixup_ok n b : 0 <= n < 2 ^ 32 -> b || negb (needs_big n) = true -> prev_ok b n.
Proof. intros Hn. unfold prev_ok, needs_big. destruct b; [done|]. cbn. intros Hb. split; [done|]. intros _. zlia. Qed.

Lemma fixup_chain n q rs : 0 <= n < 2 ^ 32 -> chain q rs -> chain n (fixup n rs).
Proof.
  revert n q. induction rs as [|r rs IH]; intros n q Hn; [done|]. cbn. intros (_ & He & Hc).
  destruct (_ || _) eqn:E; [by split_and!; [apply fixup_ok|..]|]. split_and!; [done|done|].
  eapply IH; [|done]. pose proof (rlen_range (true, r.2) He). lia.
Qed.

Lemma fixup_same n rs : chain n rs -> fixup n rs = rs.
Proof.
  destruct rs as [|r rs]; [done|]. cbn. intros ([Hn Hb] & _). unfold needs_big.
  destruct r.1; [done|]. rewrite (proj2 (Z.leb_gt 254 n)); [done|]. by apply Hb.
Qed.

Lemma fixup_zlen n rs : zlen rs <= zlen (fixup n rs).
Proof.
  revert n. induction rs as [|[b e] rs IH]; intros n; [done|]. cbn [fixup fst snd]. destruct (b || negb _) eqn:E; [done|].
  destruct b; [done|]. cbn [zlen]. specialize (IH (rlen (true, e))). unfold rlen in *. cbn [fst snd prev_size] in *. lia.
Qed.

(** The offset of the last of the entries [rs], which start [x] bytes after the
    header. *)
Definition ctail (x : Z) (rs : list rentry) : Z := 10 + x + zlen rs - zout 0 rs.

Lemma ctail_cons2 x r r2 rs : ctail x (r :: r2 :: rs) = ctail (x + rlen r) (r2 :: rs).
Proof. unfold ctail. cbn. lia. Qed.

Lemma ctail_range x r rs : Forall (fun r : rentry => zele_ok r.2) (r :: rs) ->
  10 + x <= ctail x (r :: rs) < 10 + x + zlen (r :: rs) /\ (ctail x (r :: rs) = 10 + x <-> rs = []).
Proof.
  revert x r. induction rs as [|r2 rs IH]; intros x r Hf; inversion Hf as [|?? Hr Hrs]; subst; pose proof (rlen_range r Hr).
  - unfold ctail. cbn. split; [lia|split; [done|lia]].
  - rewrite ctail_cons2. specialize (IH (x + rlen r) r2 Hrs). cbn [zlen] in *. split; [lia|]. split; [lia|done].
Qed.

Lemma ctail_grow x e rs : ctail x ((true, e) :: rs) = ctail x ((false, e) :: rs) + (if bool_decide (rs = []) then 0 else 4).
Proof.
  unfold ctail. destruct rs as [|r rs]; cbn [zlen zout]; unfold rlen at 1; cbn [fst snd prev_size].
  - rewrite bool_decide_eq_true_2 by done. cbn [zout]. unfold rlen. cbn. lia.
  - rewrite bool_decide_eq_false_2 by done. unfold rlen at 3. cbn. lia.
Qed.

Lemma block_split tail num X Y :
  block tail num (X ++ Y) = (zheader (11 + Z.of_nat (length (X ++ Y))) tail num ++ X) ++ Y ++ [ZIP_END].
Proof. unfold block. by rewrite <- !app_assoc. Qed.

(** The bytes of a block past the header, as the code sees them at an offset. *)
Lemma at_offset T tail num X : 10 + Z.of_nat (length X) = Z.of_nat (length (zheader T tail num ++ X)).
Proof. rewrite length_app, zheader_length. lia. Qed.

(** The room of the prevlen field of the entry after [X] grows from one byte to
    five. *)
Lemma grow_field T tail num X q e rs :
  T = 11 + Z.of_nat (length (X ++ zbody q ((false, e) :: rs))) -> T + 4 < 2 ^ 32 ->
  ctail (Z.of_nat (length X)) ((false, e) :: rs) = tail -> 0 <= tail < 2 ^ 32 -> chain q ((false, e) :: rs) ->
  exists x, length x = 5%nat /\ forall (k : list byte -> option (list byte)),
    (zl ← ziplistResize junk (zheader T tail num ++ X ++ zbody q ((false, e) :: rs) ++ [ZIP_END]) (T + 4);
     t ← ZIPLIST_TAIL_OFFSET zl;
     zl ← (if intrev32ifbe t =? 10 + Z.of_nat (length X) then Some zl else move_tail zl 4);
     zl ← memmove zl (10 + Z.of_nat (length X) + 5) (10 + Z.of_nat (length X) + 1)
            (u64 (T - (10 + Z.of_nat (length X)) - 1 - 1));
     k zl)
    = k (zheader (T + 4) (ctail (Z.of_nat (length X)) ((true, e) :: rs)) num ++ X ++ x ++
         zl_payload e ++ zbody (rlen (false, e)) rs ++ [ZIP_END]).
Proof.
  intros HT Hlt Htail Hrange Hc. rewrite (app_assoc X).
  destruct (resize_grow T tail num (X ++ zbody q ((false, e) :: rs)) 4) as (J & -> & HJ & _); [lia..|].
  cbn [mbind option_bind]. rewrite get_tail by lia. cbn [mbind option_bind]. rewrite intrev32ifbe_involutive by lia.
  pose proof (chain_entries _ _ Hc) as Hall.
  destruct (ctail_range (Z.of_nat (length X)) (false, e) rs Hall) as [Hct Hiff]. rewrite Htail in Hct, Hiff.
  assert (ctail (Z.of_nat (length X)) ((true, e) :: rs) < 2 ^ 32) as Hct'.
  { rewrite ctail_grow, Htail. case_bool_decide; [lia|]. rewrite length_app, Nat2Z.inj_add, zbody_length in HT. lia. }
  set (zl := zheader (T + 4) tail num ++ (X ++ zbody q ((false, e) :: rs)) ++ J ++ [ZIP_END]).
  assert ((if tail =? 10 + Z.of_nat (length X) then Some zl else move_tail zl 4) =
    Some (zheader (T + 4) (ctail (Z.of_nat (length X)) ((true, e) :: rs)) num ++ (X ++ zbody q ((false, e) :: rs)) ++ J ++ [ZIP_END])) as ->.
  { rewrite ctail_grow, Htail in Hct' |- *. subst zl. destruct (_ =? _) eqn:E; zbool.
    - rewrite bool_decide_eq_true_2 by (apply Hiff; lia). by rewrite Z.add_0_r.
    - rewrite bool_decide_eq_false_2 in Hct' |- * by (intros ?%Hiff; lia). apply move_tail_spec; lia. }
  cbn [mbind option_bind]. clear zl. set (t' := ctail _ ((true, e) :: rs)) in *. clearbody t'.
  cbn [zbody]. unfold raw. cbn [fst snd prev_field].
  destruct (memmove_tail (zheader (T + 4) t' num ++ X) [q] (zl_payload e ++ zbody (rlen (false, e)) rs) J 5
    (10 + Z.of_nat (length X) + 5) (10 + Z.of_nat (length X) + 1) (u64 (T - (10 + Z.of_nat (length X)) - 1 - 1)))
    as (x & y & Hm & Hx & Hy).
  - rewrite (at_offset (T + 4) t' num X). lia.
  - rewrite (at_offset (T + 4) t' num X). simpl. lia.
  - rewrite length_app, Nat2Z.inj_add, zbody_length in HT. cbn [zlen] in HT. unfold rlen in HT. cbn [fst snd prev_size] in HT.
    rewrite length_app, Nat2Z.inj_add, zbody_length. rewrite uwrap_small; [lia|].
    pose proof (zlen_nonneg rs). lia.
  - simpl. lia.
  - exists x. split; [done|]. intros k. assert (y = []) as -> by (apply nil_length_inv; simpl in Hy; lia).
    rewrite app_nil_r in Hm. apply (memmove_suffix _ _ [ZIP_END]) in Hm. rewrite <- !app_assoc in Hm |- *.
    cbn [app] in Hm |- *. rewrite <- !app_assoc in Hm. by rewrite Hm.
Qed.

(** The start of a round: the entry at [p] and the byte after it. *)
Lemma cascade_round fuel X m r q rs tail num k : prev_ok r.1 m -> zele_ok r.2 -> chain q rs ->
  cascade_loop junk (S fuel) (block tail num (X ++ zbody m [r] ++ zbody q rs)) (10 + Z.of_nat (length X)) k =
  match rs with
  | [] => Some (block tail num (X ++ zbody m [r] ++ zbody q rs))
  | r2 :: rs' =>
      let zl := block tail num (X ++ zbody m [r] ++ zbody q rs) in
      let np := 10 + Z.of_nat (length (X ++ zbody m [r])) in
      if q =? rlen r then Some zl
      else if prev_size r2.1 <? prev_size (needs_big (rlen r)) then
        let extra := prev_size (needs_big (rlen r)) - prev_size r2.1 in
        zl ← ziplistResize junk zl (k + extra);
        t ← ZIPLIST_TAIL_OFFSET zl;
        zl ← (if intrev32ifbe t =? np then Some zl else move_tail zl extra);
        zl ← memmove zl (np + prev_size (needs_big (rlen r))) (np + prev_size r2.1) (u64 (k - np - prev_size r2.1 - 1));
        r' ← zipStorePrevEntryLength zl np (rlen r);
        let '(zl, _) := r' in
        cascade_loop junk fuel zl np (k + extra)
      else if prev_size r2.1 >? prev_size (needs_big (rlen r)) then
        r' ← zipStorePrevEntryLengthLarge zl np (rlen r); Some (fst r')
      else r' ← zipStorePrevEntryLength zl np (rlen r); Some (fst r')
  end.
Proof.
  intros Hm He Hc. pose proof (rlen_range r He) as Hrl. set (np := 10 + Z.of_nat (length (X ++ zbody m [r]))).
  set (zl := block tail num (X ++ zbody m [r] ++ zbody q rs)).
  assert (zl = (zheader (11 + Z.of_nat (length (X ++ zbody m [r] ++ zbody q rs))) tail num ++ X) ++
    raw m r ++ zbody q rs ++ [ZIP_END]) as E1.
  { subst zl. rewrite block_split. cbn [zbody]. rewrite app_nil_r, <- !app_assoc. done. }
  assert (zl = (zheader (11 + Z.of_nat (length (X ++ zbody m [r] ++ zbody q rs))) tail num ++ X ++ zbody m [r]) ++
    zbody q rs ++ [ZIP_END]) as E2.
  { rewrite E1. cbn [zbody]. rewrite app_nil_r, <- !app_assoc. done. }
  assert (np = 10 + Z.of_nat (length X) + rlen r) as Hnp.
  { subst np. rewrite length_app, Nat2Z.inj_add, zbody_length. cbn [zlen]. lia. }
  cbn [cascade_loop].
  assert (exists b, getb zl (10 + Z.of_nat (length X)) = Some b /\ (b =? ZIP_END) = false) as Hb1.
  { rewrite E2. replace ((zheader _ _ _ ++ X ++ zbody m [r]) ++ zbody q rs ++ [ZIP_END]) with
      ((zheader (11 + Z.of_nat (length (X ++ zbody m [r] ++ zbody q rs))) tail num ++ X) ++ zbody m [r] ++ (zbody q rs ++ [ZIP_END]))
      by (by rewrite <- !app_assoc). cbn [zbody]. unfold raw, prev_field. destruct Hm as [Hm Hb].
    rewrite (at_offset (11 + Z.of_nat (length (X ++ zbody m [r] ++ zbody q rs))) tail num X).
    destruct r.1; cbn [app]; rewrite getb_app by done; eexists; (split; [done|]); [done|].
    specialize (Hb eq_refl). apply Z.eqb_neq. unfold ZIP_END. lia. }
  read_byte Hb1.
  assert (zipEntry zl (10 + Z.of_nat (length X)) = Some (mkZlentry (prev_size r.1) m (Z.of_nat (length (zl_hdr r.2)))
    (Z.of_nat (length (zl_data r.2))) (prev_size r.1 + Z.of_nat (length (zl_hdr r.2))) (read_enc r.2) (10 + Z.of_nat (length X)))) as ->.
  { rewrite E1 at 1. rewrite (at_offset (11 + Z.of_nat (length (X ++ zbody m [r] ++ zbody q rs))) tail num X). by apply zip_entry. }
  cbn [mbind option_bind headersize len].
  replace (prev_size r.1 + Z.of_nat (length (zl_hdr r.2)) + Z.of_nat (length (zl_data r.2))) with (rlen r)
    by (unfold rlen, zl_payload; rewrite length_app; lia).
  rewrite uwrap_small by lia. rewrite <- Hnp, prev_size_needs.
  assert (exists b, getb zl np = Some b /\ (b =? ZIP_END) = bool_decide (rs = [])) as Hb2.
  { rewrite E2. unfold np. rewrite (at_offset (11 + Z.of_nat (length (X ++ zbody m [r] ++ zbody q rs))) tail num (X ++ zbody m [r])).
    by apply zgetb_body. }
  read_byte Hb2. destruct rs as [|r2 rs]; [done|]. rewrite bool_decide_eq_false_2 by done.
  destruct Hc as (Hq & He2 & _).
  assert (zipEntry zl np = Some (mkZlentry (prev_size r2.1) q (Z.of_nat (length (zl_hdr r2.2)))
    (Z.of_nat (length (zl_data r2.2))) (prev_size r2.1 + Z.of_nat (length (zl_hdr r2.2))) (read_enc r2.2) np)) as ->.
  { rewrite E2 at 1. unfold np. rewrite (at_offset (11 + Z.of_nat (length (X ++ zbody m [r] ++ zbody q (r2 :: rs)))) tail num (X ++ zbody m [r])).
    cbn [zbody]. rewrite <- (app_assoc (raw q r2)). by apply zip_entry. }
  reflexivity.
Qed.

(** Storing a length in a field that has room for it. *)
Lemma store_field tail num X b n q e rs : 0 <= n < 2 ^ 32 -> b || negb (needs_big n) = true ->
  let zl := block tail num (X ++ zbody q ((b, e) :: rs)) in
  (if prev_size b >? prev_size (needs_big n) then
     r ← zipStorePrevEntryLengthLarge zl (10 + Z.of_nat (length X)) n; Some (fst r)
   else r ← zipStorePrevEntryLength zl (10 + Z.of_nat (length X)) n; Some (fst r))
  = Some (block tail num (X ++ zbody n ((b, e) :: rs))).
Proof.
  intros Hn Hb zl. pose proof (prev_field_length b q) as Hl.
  assert (forall w, length (X ++ zbody w ((b, e) :: rs)) = length (X ++ zbody q ((b, e) :: rs))) as Hw.
  { intros w. apply Nat2Z.inj. rewrite !length_app, !Nat2Z.inj_add, !zbody_length. done. }
  assert (forall w, block tail num (X ++ zbody w ((b, e) :: rs)) =
    (zheader (11 + Z.of_nat (length (X ++ zbody q ((b, e) :: rs)))) tail num ++ X) ++ prev_field b w ++
    zl_payload e ++ zbody (rlen (b, e)) rs ++ [ZIP_END]) as Hv.
  { intros w. rewrite block_split, Hw. cbn [zbody]. unfold raw. cbn [fst snd]. by rewrite <- !app_assoc. }
  subst zl. rewrite !Hv. rewrite (at_offset (11 + Z.of_nat (length (X ++ zbody q ((b, e) :: rs)))) tail num X).
  destruct b, (needs_big n) eqn:En; try done; cbn [prev_size] in *.
  - change (5 >? 5) with false. cbv iota. rewrite store_prevlen by (rewrite ?En; done). cbn [mbind option_bind fst]. by rewrite En.
  - change (5 >? 1) with true. cbv iota. by rewrite store_prevlen_large.
  - change (1 >? 1) with false. cbv iota. rewrite store_prevlen by (rewrite ?En; done). cbn [mbind option_bind fst]. by rewrite En.
Qed.

Lemma cascade_loop_spec num rs : forall fuel X m r q, (length rs < fuel)%nat ->
  prev_ok r.1 m -> zele_ok r.2 -> chain q rs ->
  11 + Z.of_nat (length X) + rlen r + zlen (fixup (rlen r) rs) < 2 ^ 32 ->
  cascade_loop junk fuel (block (ctail (Z.of_nat (length X)) (r :: rs)) num (X ++ zbody m [r] ++ zbody q rs))
    (10 + Z.of_nat (length X)) (11 + Z.of_nat (length X) + rlen r + zlen rs) =
  Some (block (ctail (Z.of_nat (length X)) (r :: fixup (rlen r) rs)) num
          (X ++ zbody m [r] ++ zbody (rlen r) (fixup (rlen r) rs))).
Proof.
  induction rs as [|r2 rs IH]; intros fuel X m r q Hf Hm He Hc Hs; (destruct fuel as [|fuel]; [simpl in Hf; lia|]);
    pose proof (rlen_range r He) as Hrl; rewrite cascade_round by done; [done|]. cbv zeta.
  destruct (q =? rlen r) eqn:Eq; zbool; [subst q; by rewrite fixup_same|].
  set (X' := X ++ zbody m [r]). assert (Z.of_nat (length X') = Z.of_nat (length X) + rlen r) as HX'.
  { subst X'. rewrite length_app, Nat2Z.inj_add, zbody_length. cbn [zlen]. lia. }
  rewrite !(app_assoc X (zbody m [r])). fold X'. rewrite !ctail_cons2. pose proof Hc as (Hq & He2 & Hc2).
  destruct r2 as [b2 e2]. cbn [fst snd fixup] in *. destruct (b2 || negb (needs_big (rlen r))) eqn:Efix.
  - (* the field has room *)
    replace (prev_size b2 <? prev_size (needs_big (rlen r))) with false by (by destruct b2, (needs_big (rlen r))).
    rewrite ctail_cons2, <- HX'. apply store_field; [lia|done].
  - (* the field grows *)
    destruct b2; [done|]. destruct (needs_big (rlen r)) eqn:Eb; [|done]. cbn [prev_size].
    change (1 <? 5) with true. change (5 - 1) with 4. cbv iota. rewrite !ctail_cons2, <- HX' in *.
    set (T := 11 + Z.of_nat (length X) + rlen r + zlen ((false, e2) :: rs)).
    assert (T = 11 + Z.of_nat (length (X' ++ zbody q ((false, e2) :: rs)))) as HT.
    { rewrite length_app, Nat2Z.inj_add, zbody_length, HX'. subst T. lia. }
    pose proof (fixup_zlen (rlen (true, e2)) rs) as Hz. pose proof (zlen_nonneg rs).
    assert (rlen (true, e2) = rlen (false, e2) + 4) as Hr2 by (unfold rlen; cbn; lia).
    assert (T + 4 < 2 ^ 32) as HT4 by (subst T; cbn [zlen] in *; lia).
    destruct (ctail_range (Z.of_nat (length X')) (false, e2) rs) as [Hct _]; [by eapply (chain_entries q)|].
    cbn [zlen] in Hct.
    destruct (grow_field T (ctail (Z.of_nat (length X')) ((false, e2) :: rs)) num X' q e2 rs) as (x & Hx & Hgrow);
      [done|done|done|subst T; cbn [zlen] in *; lia|done|].
    unfold block at 1. rewrite <- HT, <- (app_assoc X'). rewrite Hgrow. clear Hgrow.
    set (t' := ctail (Z.of_nat (length X')) ((true, e2) :: rs)).
    rewrite (app_assoc (zheader (T + 4) t' num)), (at_offset (T + 4) t' num X').
    rewrite store_prevlen by (rewrite ?Eb; simpl; lia). cbn [mbind option_bind]. rewrite Eb, <- (at_offset (T + 4) t' num X').
    replace ((zheader (T + 4) t' num ++ X') ++ prev_field true (rlen r) ++ zl_payload e2 ++ zbody (rlen (false, e2)) rs ++ [ZIP_END])
      with (block t' num (X' ++ zbody (rlen r) [(true, e2)] ++ zbody (rlen (false, e2)) rs)).
    2: { unfold block. cbn [zbody]. unfold raw. cbn [fst snd]. rewrite app_nil_r. rewrite <- !app_assoc. f_equal. f_equal.
         rewrite HT. rewrite !length_app, !Nat2Z.inj_add, !zbody_length. cbn [zlen]. unfold rlen. cbn [fst snd prev_size].
         rewrite prev_field_length. cbn [prev_size]. lia. }
    replace (T + 4) with (11 + Z.of_nat (length X') + rlen (true, e2) + zlen rs) by (subst T; cbn [zlen]; lia).
    unfold t'. rewrite (IH fuel X' (rlen r) (true, e2) (rlen (false, e2))); [|simpl in Hf; lia|by apply prev_ok_big; lia|done|done|].
    + cbn [zbody]. rewrite app_nil_r. done.
    + cbn [zlen] in Hs. lia.
Qed.

Lemma block_bytes tail num X : 11 + Z.of_nat (length X) < 2 ^ 32 ->
  ZIPLIST_BYTES (block tail num X) = Some (intrev32ifbe (11 + Z.of_nat (length X))) /\
  intrev32ifbe (intrev32ifbe (11 + Z.of_nat (length X))) = 11 + Z.of_nat (length X).
Proof. intros Hx. unfold block. rewrite get_bytes by lia. split; [done|]. apply intrev32ifbe_involutive. lia. Qed.

Lemma cascade_spec num X m r q rs : prev_ok r.1 m -> zele_ok r.2 -> chain q rs ->
  11 + Z.of_nat (length X) + rlen r + zlen (fixup (rlen r) rs) < 2 ^ 32 ->
  __ziplistCascadeUpdate junk (block (ctail (Z.of_nat (length X)) (r :: rs)) num (X ++ zbody m [r] ++ zbody q rs))
    (10 + Z.of_nat (length X)) =
  Some (block (ctail (Z.of_nat (length X)) (r :: fixup (rlen r) rs)) num
          (X ++ zbody m [r] ++ zbody (rlen r) (fixup (rlen r) rs))).
Proof.
  intros Hm He Hc Hs. pose proof (fixup_zlen (rlen r) rs) as Hz. unfold __ziplistCascadeUpdate.
  assert (Z.of_nat (length (X ++ zbody m [r] ++ zbody q rs)) = Z.of_nat (length X) + rlen r + zlen rs) as Hl.
  { rewrite !length_app, !Nat2Z.inj_add, !zbody_length. cbn [zlen]. lia. }
  set (zl := block _ _ _). destruct (block_bytes (ctail (Z.of_nat (length X)) (r :: rs)) num (X ++ zbody m [r] ++ zbody q rs)) as [Hb Hi]; [lia|].
  fold zl in Hb. rewrite Hb. cbn [mbind option_bind]. rewrite Hi, Hl.
  replace (11 + (Z.of_nat (length X) + rlen r + zlen rs)) with (11 + Z.of_nat (length X) + rlen r + zlen rs) by lia.
  apply (cascade_loop_spec num rs (length zl) X m r q); try done.
  subst zl. apply chain_entries, zlen_range in Hc. apply Nat2Z.inj_lt. rewrite block_length, Hl.
  pose proof (rlen_range r He). lia.
Qed.

(** ** Moving entries to make room *)

Lemma shift_entries (HA F R J : list byte) nd reqlen :
  0 <= reqlen -> - Z.of_nat (length F) <= nd <= Z.of_nat (length HA) -> Z.of_nat (length J) = reqlen + nd ->
  exists x w, memmove (HA ++ F ++ R ++ J) (Z.of_nat (length HA) + reqlen) (Z.of_nat (length HA) - nd)
      (Z.of_nat (length F) + Z.of_nat (length R) + nd) = Some (HA ++ x ++ w ++ R) /\
    Z.of_nat (length x) = reqlen /\ Z.of_nat (length w) = Z.of_nat (length F) + nd.
Proof.
  intros Hr Hn HJ. exists (take (Z.to_nat reqlen) (F ++ R ++ J)), (drop (Z.to_nat (Z.of_nat (length HA) - nd)) (HA ++ F)).
  unfold memmove. rewrite load_Some by (rewrite ?length_app; lia). cbn [mbind option_bind].
  assert (take (Z.to_nat (Z.of_nat (length F) + Z.of_nat (length R) + nd))
    (drop (Z.to_nat (Z.of_nat (length HA) - nd)) (HA ++ F ++ R ++ J)) =
    drop (Z.to_nat (Z.of_nat (length HA) - nd)) (HA ++ F) ++ R) as ->.
  { rewrite !app_assoc, <- (app_assoc (HA ++ F)), drop_app_le by (rewrite length_app; lia). rewrite app_assoc.
    rewrite take_app_length'; [done|]. rewrite length_app, length_drop, length_app. lia. }
  rewrite store_Some by (rewrite ?length_app, ?length_drop, ?length_app; lia). split_and!.
  - rewrite (drop_ge (HA ++ F ++ R ++ J)) by (rewrite ?length_app, ?length_drop, ?length_app; lia). rewrite app_nil_r.
    replace (Z.to_nat (Z.of_nat (length HA) + reqlen)) with (length HA + Z.to_nat reqlen)%nat by lia.
    rewrite take_app_add, <- !app_assoc. done.
  - rewrite length_take, !length_app. lia.
  - rewrite length_drop, length_app. lia.
Qed.

Lemma ctail_resize x b b' e rs :
  ctail x ((b', e) :: rs) = ctail x ((b, e) :: rs) + (if bool_decide (rs = []) then 0 else prev_size b' - prev_size b).
Proof.
  pose proof (ctail_grow x e rs). destruct b, b'; cbn [prev_size]; case_bool_decide; lia.
Qed.

(** ** Writing an entry *)

(** What the code keeps of a string it could not encode is not used. *)
Definition zl_val (e : list byte) : Z := match zipTryEncoding e with Some (v, _) => v | None => 123456789 end.

Lemma zl_try e : match zipTryEncoding e with Some r => r | None => (123456789, 0) end = (zl_val e, zl_enc e).
Proof. unfold zl_val, zl_enc. by destruct (zipTryEncoding e) as [[]|]. Qed.

Lemma hdr_size e : zipEntryEncodingSize (zl_enc e) (Z.of_nat (length e)) = Z.of_nat (length (zl_hdr e)).
Proof. done. Qed.

Lemma zwrite_entry HA x n e R : 0 <= n < 2 ^ 32 -> Z.of_nat (length x) = rlen (needs_big n, e) ->
  insert_write (HA ++ x ++ R) (Z.of_nat (length HA)) n (zl_val e) (zl_enc e) e
  = Some (HA ++ raw n (needs_big n, e) ++ R).
Proof.
  intros Hn Hx. unfold insert_write. unfold rlen in Hx. cbn [fst snd] in Hx. unfold zl_payload in Hx. rewrite length_app in Hx.
  pose proof (prev_field_length (needs_big n) n) as Hp.
  assert (exists x1 x2 x3, x = x1 ++ x2 ++ x3 /\ Z.of_nat (length x1) = prev_size (needs_big n) /\
    length x2 = length (zl_hdr e) /\ length x3 = length (zl_data e)) as (x1 & x2 & x3 & -> & H1 & H2 & H3).
  { exists (take (Z.to_nat (prev_size (needs_big n))) x),
      (take (length (zl_hdr e)) (drop (Z.to_nat (prev_size (needs_big n))) x)),
      (drop (length (zl_hdr e)) (drop (Z.to_nat (prev_size (needs_big n))) x)).
    rewrite !take_drop, !length_take, !length_drop. destruct (needs_big n); cbn [prev_size] in *; split_and!; lia || done. }
  rewrite <- !app_assoc, store_prevlen by done. cbn [mbind option_bind]. unfold zipStoreEntryEncoding.
  replace (Z.of_nat (length HA) + prev_size (needs_big n)) with (Z.of_nat (length (HA ++ prev_field (needs_big n) n)))
    by (rewrite length_app, Nat2Z.inj_add, Hp; lia).
  rewrite app_assoc. rewrite store_app by done. cbn [mbind option_bind]. rewrite hdr_size. fold (zl_hdr e).
  set (P := HA ++ prev_field (needs_big n) n).
  replace (Z.of_nat (length P) + Z.of_nat (length (zl_hdr e))) with (Z.of_nat (length (P ++ zl_hdr e))) by (rewrite length_app; lia).
  rewrite (app_assoc P). rewrite zl_enc_is_str. unfold raw, zl_payload. cbn [fst snd].
  transitivity (Some ((P ++ zl_hdr e) ++ zl_data e ++ R)); [|subst P; by rewrite <- !app_assoc].
  generalize (P ++ zl_hdr e). clear - H3. intros P.
  unfold zl_data, zl_enc, zl_val in *. destruct (zipTryEncoding e) as [[v enc]|] eqn:E.
  - rewrite bool_decide_eq_false_2 by done. apply try_encoding_some in E as (_ & _ & _ & Hi).
    apply zsave_integer; [done|]. by rewrite H3, le_bytes_length.
  - rewrite bool_decide_eq_true_2 by done. by apply store_app.
Qed.

(** ** The count of entries *)

Lemma incr_length T tail num R n d : num_ok num n -> 0 <= Z.of_nat n + d <= UINT16_MAX \/ num = UINT16_MAX ->
  (d <= 1) -> exists num', num_ok num' (Z.to_nat (Z.of_nat n + d)) /\
  ZIPLIST_INCR_LENGTH (zheader T tail num ++ R) d = Some (zheader T tail num' ++ R).
Proof.
  intros Hn Hd Hd1. pose proof (num_ok_range _ _ Hn) as Hr. unfold ZIPLIST_INCR_LENGTH. rewrite get_num by done.
  cbn [mbind option_bind]. rewrite intrev16ifbe_involutive by done.
  destruct (decide (num = UINT16_MAX)) as [-> | Hne].
  - assert (intrev16ifbe UINT16_MAX = UINT16_MAX) as ->.
    { unfold intrev16ifbe. destruct (@big_endian HH) eqn:Eb; [|done]. rewrite intrev16_val.
      unfold host_val, host_bytes. by rewrite Eb. }
    change (UINT16_MAX <? UINT16_MAX) with false. exists UINT16_MAX. split; [by right|done].
  - assert ((intrev16ifbe num <? UINT16_MAX) = true) as ->.
    { apply Z.ltb_lt. assert (0 <= intrev16ifbe num < 2 ^ 16 /\ intrev16ifbe num <> UINT16_MAX) as [? ?]; [|unfold UINT16_MAX in *; lia].
      split.
      - rewrite <- host_val_le_16 by done. unfold host_val.
        destruct big_endian; (match goal with |- 0 <= le_val ?x < _ => pose proof (le_val_range x) as Hv end);
          rewrite ?length_reverse, le_bytes_length in Hv; apply Hv; [apply Forall_reverse|]; auto with redis.
      - intros Hx. apply Hne. rewrite <- (intrev16ifbe_involutive num), Hx by done.
        unfold intrev16ifbe. destruct (@big_endian HH) eqn:Eb; [|done]. rewrite intrev16_val.
        unfold host_val, host_bytes. by rewrite Eb. }
    destruct Hn as [[Hn Hlt]|]; [|done]. destruct Hd as [Hd|]; [|done]. subst num. unfold UINT16_MAX in *.
    exists (Z.of_nat n + d). rewrite uwrap_small by lia. rewrite zset_num by lia. split; [|done].
    unfold num_ok, UINT16_MAX. lia.
Qed.

(** ** Insertion *)

(** The field of the entry after one of [n] bytes: it shrinks back to one byte, except
    that a very short entry leaves a large field as it is. *)
Definition next_big (n : Z) (b : bool) : bool := needs_big n || b && (n <? 4).
Definition next_fixed (n : Z) (rs : list rentry) : list rentry :=
  match rs with [] => [] | r :: rs => (next_big n r.1, r.2) :: fixup (rlen (next_big n r.1, r.2)) rs end.
Definition new_entry (rs1 : list rentry) (e : list byte) : rentry := (needs_big (zout 0 rs1), e).
Definition insert_rs (rs1 : list rentry) (e : list byte) (rs2 : list rentry) : list rentry :=
  rs1 ++ new_entry rs1 e :: next_fixed (rlen (new_entry rs1 e)) rs2.

Lemma next_big_ok n b : 0 <= n < 2 ^ 32 -> prev_ok (next_big n b) n.
Proof.
  intros Hn. split; [done|]. unfold next_big, needs_big. intros Hb%orb_false_iff. destruct Hb as [Hb _]. zlia.
Qed.

Lemma insert_prevlen_repr zl rs1 rs2 : zl_repr zl (rs1 ++ rs2) -> insert_prevlen zl (zpos rs1) = Some (zout 0 rs1).
Proof.
  intros Hr. unfold insert_prevlen. read_byte (byte_at _ _ _ Hr). destruct rs2 as [|r rs2].
  - rewrite bool_decide_eq_true_2 by done. cbn [negb]. rewrite app_nil_r in Hr.
    destruct (header_at _ _ Hr) as (num & _ & _ & -> & _). cbn [mbind option_bind].
    destruct rs1 as [|r rs1 _] using rev_ind.
    + change (ztail []) with (zpos []). read_byte (byte_at _ [] [] Hr). by rewrite bool_decide_eq_true_2.
    + rewrite ztail_snoc. read_byte (byte_at _ rs1 [r] Hr). rewrite bool_decide_eq_false_2 by done. cbn [negb].
      destruct (entry_at _ _ _ _ Hr) as (_ & -> & _). by rewrite zout_snoc.
  - rewrite bool_decide_eq_false_2 by done. cbn [negb]. destruct (entry_at _ _ _ _ Hr) as (_ & _ & _ & -> & _). done.
Qed.

(** The last entry of a list that is not empty. *)
Lemma ztail_app rs1 r rs2 : ztail (rs1 ++ r :: rs2) = ctail (zlen rs1) (r :: rs2).
Proof. unfold ztail, zpos, ctail. rewrite zlen_app, zout_app. cbn [zlen zout]. lia. Qed.

(** The room for an entry of [n] bytes, and what follows it. *)
Lemma room_at_end num rs1 n tail : 0 < n -> 11 + zlen rs1 + n < 2 ^ 32 -> exists x,
  insert_room junk (block tail num (zbody 0 rs1)) (zpos rs1) (11 + zlen rs1) n 0 false =
    Some (block (zpos rs1) num (zbody 0 rs1 ++ x)) /\ Z.of_nat (length x) = n.
Proof.
  intros Hn Hlt. pose proof (zlen_nonneg rs1). unfold insert_room, block.
  destruct (resize_grow (11 + Z.of_nat (length (zbody 0 rs1))) tail num (zbody 0 rs1) n) as (J & Hres & HJ & HJ');
    rewrite ?zbody_length in *; [lia..|].
  destruct HJ' as [J' ->]; [done|]. rewrite (uwrap_small 64 (11 + zlen rs1 + n + 0)) by lia.
  rewrite (Z.add_0_r (11 + zlen rs1 + n)), Hres. cbn [mbind option_bind].
  assert (getb (zheader (11 + zlen rs1 + n) tail num ++ zbody 0 rs1 ++ (ZIP_END :: J') ++ [ZIP_END]) (zpos rs1) = Some ZIP_END) as ->.
  { rewrite app_assoc. apply getb_app. rewrite <- at_offset, zbody_length. done. }
  cbn [mbind option_bind].
  change (ZIP_END =? ZIP_END) with true. cbn [negb]. rewrite (uwrap_small 32 (zpos rs1)) by (unfold zpos; lia).
  rewrite set_tail by (unfold zpos; lia). cbn [mbind option_bind]. change (0 =? 0) with true. cbn [negb].
  exists (ZIP_END :: J'). split; [|done]. rewrite length_app, Nat2Z.inj_add, HJ, zbody_length, Z.add_assoc, <- !app_assoc. done.
Qed.

Lemma getb_raw P n r R : prev_ok r.1 n -> exists b,
  getb (P ++ raw n r ++ R) (Z.of_nat (length P)) = Some b /\ (b =? ZIP_END) = false.
Proof.
  intros [Hn Hb]. unfold raw, prev_field. destruct r.1; cbn [app]; rewrite getb_app by done; eexists; (split; [done|]); [done|].
  specialize (Hb eq_refl). apply Z.eqb_neq. unfold ZIP_END. lia.
Qed.

Lemma u32_add x y : u32 (u32 x + y) = u32 (x + y).
Proof. unfold uwrap. by rewrite Z.add_mod_idemp_l by lia. Qed.

Lemma move_tail_wraps total tail num R d : 0 <= tail < 2 ^ 32 ->
  move_tail (zheader total tail num ++ R) d = Some (zheader total (u32 (tail + d)) num ++ R).
Proof.
  intros Ht. unfold move_tail. rewrite get_tail by done. cbn [mbind option_bind].
  rewrite intrev32ifbe_involutive by done. apply set_tail. by apply uwrap_range.
Qed.

(** The tail offset after the entry at [p] has been given a new field: [d] is added,
    and the change of size when it is not the last entry. *)
Lemma adjust_tail T num HX n b' e rs q tail d nd p (off : zlentry -> Z) (R := zl_payload e ++ zbody q rs ++ [ZIP_END]) :
  prev_ok b' n -> zele_ok e -> chain q rs -> 0 <= tail < 2 ^ 32 ->
  0 <= tail + d + (if bool_decide (rs = []) then 0 else nd) < 2 ^ 32 -> p = 10 + Z.of_nat (length HX) ->
  (forall t, headersize t + len t = rlen (b', e) -> off t = p + rlen (b', e)) ->
  (zl ← move_tail (zheader T tail num ++ HX ++ prev_field b' n ++ R) d;
   tail ← zipEntry zl p;
   b ← getb zl (off tail);
   if negb (b =? ZIP_END) then move_tail zl nd else Some zl) =
  Some (zheader T (tail + d + (if bool_decide (rs = []) then 0 else nd)) num ++ HX ++ prev_field b' n ++ R).
Proof.
  intros Hb He Hc Ht Hnd Hp Hoff. rewrite move_tail_wraps by done. cbn [mbind option_bind].
  set (t := u32 (tail + d)). assert (0 <= t < 2 ^ 32) as Htr by (by apply uwrap_range).
  assert (HX ++ prev_field b' n ++ R = HX ++ raw n (b', e) ++ zbody q rs ++ [ZIP_END]) as ->.
  { subst R. unfold raw. cbn [fst snd]. by rewrite <- !app_assoc. }
  rewrite (app_assoc (zheader T t num)). rewrite (at_offset T t num HX) in Hp. rewrite Hp.
  rewrite (zip_entry _ n (b', e)) by done. cbn [mbind option_bind]. rewrite Hoff.
  2: { cbn [headersize len fst snd]. unfold rlen, zl_payload. cbn [fst snd]. rewrite length_app. lia. }
  replace (p + rlen (b', e)) with (Z.of_nat (length ((zheader T t num ++ HX) ++ raw n (b', e))))
    by (rewrite length_app, Nat2Z.inj_add, raw_length; lia).
  rewrite (app_assoc (zheader T t num ++ HX)). read_byte (zgetb_body ((zheader T t num ++ HX) ++ raw n (b', e)) q rs [] Hc).
  revert Hnd. case_bool_decide; intros Hnd; cbn [negb].
  - rewrite Z.add_0_r in Hnd |- *. subst t. rewrite uwrap_small by lia. by rewrite <- !app_assoc.
  - rewrite <- !app_assoc, move_tail_wraps by lia. subst t. by rewrite u32_add, uwrap_small by lia.
Qed.

Lemma room_in_middle num rs1 b e rs n : let q := zout 0 rs1 in
  chain q ((b, e) :: rs) -> 2 <= n -> 11 + zlen rs1 + n + zlen (next_fixed n ((b, e) :: rs)) < 2 ^ 32 ->
  let diff := prev_size (needs_big n) - prev_size b in let force := (diff =? -4) && (n <? 4) in
  exists x, insert_room junk (block (ctail (zlen rs1) ((b, e) :: rs)) num (zbody 0 rs1 ++ zbody q ((b, e) :: rs)))
      (zpos rs1) (11 + zlen rs1 + zlen ((b, e) :: rs)) n (if force then 0 else diff) force =
    Some (block (ctail (zlen rs1 + n) (next_fixed n ((b, e) :: rs))) num
            (zbody 0 rs1 ++ x ++ zbody n (next_fixed n ((b, e) :: rs)))) /\ Z.of_nat (length x) = n.
Proof.
  intros q Hc Hn Hs diff force. set (b' := next_big n b). set (nd := if force then 0 else diff).
  assert (nd = prev_size b' - prev_size b /\ 0 <= n + nd /\ -4 <= nd <= 4 /\ (force = false -> b' = needs_big n)
          /\ (force = true -> b' = true)) as (Hnd & Hnd4 & Hndr & Hf0 & Hf1).
  { subst nd force diff b'. unfold next_big. destruct b, (needs_big n), (n <? 4) eqn:E; zbool; cbn [prev_size orb andb];
      try change (5 - 5 =? -4) with false; try change (1 - 5 =? -4) with true; try change (5 - 1 =? -4) with false;
      try change (1 - 1 =? -4) with false; cbn [andb]; split_and!; intros; (done || lia). }
  clearbody nd. assert (rlen (b', e) = rlen (b, e) + nd) as Hrl by (unfold rlen; cbn [fst snd]; lia).
  cbn [next_fixed fst snd] in *. fold b' in Hs |- *. pose proof (fixup_zlen (rlen (b', e)) rs) as Hz.
  pose proof (zlen_nonneg rs). pose proof (zlen_nonneg rs1). cbn [zlen] in Hs |- *.
  destruct Hc as (Hq & He & Hc). cbn [fst snd] in *. pose proof (rlen_range (b, e) He) as Hr. pose proof (rlen_range (b', e) He) as Hr'.
  set (A := zbody 0 rs1). assert (Z.of_nat (length A) = zlen rs1) as HA by apply zbody_length.
  set (R := zl_payload e ++ zbody (rlen (b, e)) rs).
  assert (zbody q ((b, e) :: rs) = prev_field b q ++ R) as HB by (cbn [zbody]; unfold raw, R; cbn [fst snd]; by rewrite <- app_assoc).
  assert (Z.of_nat (length R) = rlen (b, e) - prev_size b + zlen rs) as HR.
  { subst R. rewrite length_app, Nat2Z.inj_add, zbody_length. unfold rlen. cbn [fst snd]. lia. }
  pose proof (prev_field_length b q) as HF. pose proof (prev_field_length b' n) as HF'.
  destruct (ctail_range (zlen rs1) (b, e) rs) as [Hct _]; [constructor; [done|by eapply chain_entries]|]. cbn [zlen] in Hct.
  destruct (ctail_range (zlen rs1) (b', e) rs) as [Hct' _]; [constructor; [done|by eapply chain_entries]|]. cbn [zlen] in Hct'.
  set (tail := ctail (zlen rs1) ((b, e) :: rs)) in *.
  set (T := 11 + zlen rs1 + (rlen (b, e) + zlen rs)).
  unfold insert_room, block at 1. rewrite HB.
  replace (11 + Z.of_nat (length (A ++ prev_field b q ++ R))) with T by (rewrite !length_app, !Nat2Z.inj_add, HF, HR, HA; subst T; lia).
  destruct (resize_grow T tail num (A ++ prev_field b q ++ R) (n + nd)) as (J & Hres & HJ & _).
  { done. }
  { rewrite !length_app, !Nat2Z.inj_add, HF, HR, HA. subst T. lia. }
  { subst T. lia. }
  rewrite (uwrap_small 64 (T + n + nd)) by (subst T; lia). rewrite <- Z.add_assoc, Hres. cbn [mbind option_bind].
  set (Hh := zheader (T + (n + nd)) tail num).
  assert (zpos rs1 = Z.of_nat (length (Hh ++ A))) as Hp by (subst Hh; rewrite <- at_offset, HA; done).
  assert (exists c, getb (Hh ++ (A ++ prev_field b q ++ R) ++ J ++ [ZIP_END]) (zpos rs1) = Some c /\ (c =? ZIP_END) = false) as Hb.
  { rewrite Hp, <- HB. cbn [zbody]. rewrite <- !app_assoc, (app_assoc Hh). by apply (getb_raw _ q (b, e)). }
  read_byte Hb. cbn [negb].
  destruct (shift_entries (Hh ++ A) (prev_field b q) R J nd n) as (x & w & Hm & Hx & Hw); [lia| |done|].
  { rewrite HF, <- Hp. unfold zpos. destruct b, b'; cbn [prev_size] in *; lia. }
  assert (memmove (Hh ++ (A ++ prev_field b q ++ R) ++ J ++ [ZIP_END]) (zpos rs1 + n) (zpos rs1 - nd) (u64 (T - zpos rs1 - 1 + nd)) =
    Some ((Hh ++ A ++ x) ++ w ++ R ++ [ZIP_END])) as ->.
  { apply (memmove_suffix _ _ [ZIP_END]) in Hm. rewrite <- Hp, HF, HR in Hm.
    replace (u64 (T - zpos rs1 - 1 + nd)) with (prev_size b + (rlen (b, e) - prev_size b + zlen rs) + nd).
    2: { unfold zpos. subst T. rewrite uwrap_small; lia. }
    replace (Hh ++ (A ++ prev_field b q ++ R) ++ J ++ [ZIP_END]) with (((Hh ++ A) ++ prev_field b q ++ R ++ J) ++ [ZIP_END])
      by (by rewrite <- !app_assoc).
    rewrite Hm. by rewrite <- !app_assoc. }
  cbn [mbind option_bind]. rewrite (uwrap_small 32 n) by lia.
  replace (zpos rs1 + n) with (Z.of_nat (length (Hh ++ A ++ x))) by (rewrite app_assoc, length_app, Nat2Z.inj_add, <- Hp; lia).
  assert (exists k, (if force then zipStorePrevEntryLengthLarge ((Hh ++ A ++ x) ++ w ++ R ++ [ZIP_END]) (Z.of_nat (length (Hh ++ A ++ x))) n
    else zipStorePrevEntryLength ((Hh ++ A ++ x) ++ w ++ R ++ [ZIP_END]) (Z.of_nat (length (Hh ++ A ++ x))) n) =
    Some ((Hh ++ A ++ x) ++ prev_field b' n ++ R ++ [ZIP_END], k)) as [k ->].
  { rewrite HF in Hw. destruct force.
    - rewrite Hf1 in Hnd |- * by done. eexists. apply store_prevlen_large. cbn [prev_size] in Hnd. lia.
    - rewrite Hf0 in Hnd |- * by done. eexists. apply store_prevlen; lia. }
  cbn [mbind option_bind].
  assert (length x = Z.to_nat n) as Hxn by lia. pose proof (ctail_resize (zlen rs1) b b' e rs) as Hres'. fold tail in Hres'.
  rewrite <- Hnd in Hres'. rewrite <- (app_assoc Hh). subst Hh.
  assert (R ++ [ZIP_END] = zl_payload e ++ zbody (rlen (b, e)) rs ++ [ZIP_END]) as -> by (subst R; by rewrite <- app_assoc).
  rewrite (adjust_tail (T + (n + nd)) num (A ++ x) n b' e rs (rlen (b, e)) tail n nd); try done.
  2: { apply next_big_ok. lia. }
  2: { lia. }
  2: { revert Hres'. case_bool_decide; lia. }
  2: { by rewrite <- at_offset. }
  2: { intros t Ht. rewrite app_assoc, length_app, Nat2Z.inj_add, <- Hp. lia. }
  cbn [mbind option_bind].
  assert (Z.of_nat (length (A ++ x)) = zlen rs1 + n) as HAx by (rewrite length_app, Nat2Z.inj_add, HA; lia).
  set (zl := zheader _ _ num ++ (A ++ x) ++ _).
  assert (zl = block (ctail (Z.of_nat (length (A ++ x))) ((b', e) :: rs)) num ((A ++ x) ++ zbody n [(b', e)] ++ zbody (rlen (b, e)) rs)) as ->.
  { subst zl. unfold block. cbn [zbody]. unfold raw. cbn [fst snd]. rewrite app_nil_r, <- !app_assoc. f_equal. f_equal.
    - rewrite !length_app, !Nat2Z.inj_add, zbody_length, HA, HF'. unfold T. unfold rlen at 1. cbn [fst snd]. lia.
    - rewrite HAx. replace (ctail (zlen rs1 + n) ((b', e) :: rs)) with (ctail (zlen rs1) ((b', e) :: rs) + n) by (unfold ctail; lia). lia. }
  exists x. split; [|done]. rewrite <- (app_assoc A x). rewrite <- HAx.
  destruct (nd =? 0) eqn:E0; zbool; cbn [negb].
  - rewrite E0, Z.add_0_r in Hrl. rewrite <- Hrl in Hc |- *. rewrite fixup_same by done. cbn [zbody].
    rewrite app_nil_r. by rewrite <- ?app_assoc.
  - rewrite <- at_offset. rewrite (app_assoc A x). rewrite cascade_spec; [|by apply next_big_ok; lia|done|done|cbn [fst snd]; lia].
    cbn [zbody]. rewrite app_nil_r. by rewrite <- ?app_assoc.
Qed.

(** The new entry is written and counted. *)
Lemma write_and_count num rs1 x e rs2 tail : let r := new_entry rs1 e in
  chain 0 rs1 -> chain (rlen r) rs2 -> zele_ok e -> Z.of_nat (length x) = rlen r -> num_ok num (length (rs1 ++ rs2)) ->
  11 + zlen (rs1 ++ r :: rs2) < 2 ^ 32 -> tail = ztail (rs1 ++ r :: rs2) ->
  exists zl', (zl ← insert_write (block tail num (zbody 0 rs1 ++ x ++ zbody (rlen r) rs2)) (zpos rs1) (zout 0 rs1) (zl_val e) (zl_enc e) e;
    ZIPLIST_INCR_LENGTH zl 1) = Some zl' /\ zl_repr zl' (rs1 ++ r :: rs2).
Proof.
  intros r Hc1 Hc2 He Hx Hn Hs ->. assert (0 <= zout 0 rs1 < 2 ^ 32) as Hz by (by apply zout_range).
  set (T := 11 + zlen (rs1 ++ r :: rs2)). set (t := ztail (rs1 ++ r :: rs2)).
  assert (forall num', block t num' (zbody 0 (rs1 ++ r :: rs2)) = zheader T t num' ++ zbody 0 rs1 ++ raw (zout 0 rs1) r ++ zbody (rlen r) rs2 ++ [ZIP_END]) as Hblk.
  { intros num'. unfold block. rewrite zbody_length, zbody_app. cbn [zbody]. by rewrite <- !app_assoc. }
  assert (block t num (zbody 0 rs1 ++ x ++ zbody (rlen r) rs2) = (zheader T t num ++ zbody 0 rs1) ++ x ++ zbody (rlen r) rs2 ++ [ZIP_END]) as ->.
  { unfold block. rewrite <- !app_assoc. f_equal. f_equal. rewrite !length_app, !Nat2Z.inj_add, !zbody_length, Hx.
    subst T. rewrite zlen_app. cbn [zlen]. lia. }
  replace (zpos rs1) with (Z.of_nat (length (zheader T t num ++ zbody 0 rs1))) by (by rewrite <- at_offset, zbody_length).
  rewrite zwrite_entry by done. cbn [mbind option_bind]. rewrite <- app_assoc.
  destruct (incr_length T t num (zbody 0 rs1 ++ raw (zout 0 rs1) r ++ zbody (rlen r) rs2 ++ [ZIP_END]) (length (rs1 ++ rs2)) 1)
    as (num' & Hn' & Hi); [done|unfold num_ok in Hn; lia|lia|].
  eexists. split; [apply Hi|]. exists num'. split_and!; [by rewrite <- Hblk|done| |].
  - apply chain_app. split; [done|]. cbn. split_and!; [by apply needs_big_ok|done|done].
  - replace (length (rs1 ++ r :: rs2)) with (Z.to_nat (Z.of_nat (length (rs1 ++ rs2)) + 1)) by (rewrite !length_app; simpl; lia).
    done.
Qed.

Lemma next_fixed_chain n q rs : 0 <= n < 2 ^ 32 -> chain q rs -> chain n (next_fixed n rs).
Proof.
  intros Hn. destruct rs as [|[b e] rs]; [done|]. cbn. intros (_ & He & Hc). split_and!; [by apply next_big_ok|done|].
  eapply fixup_chain; [|done]. pose proof (rlen_range (next_big n b, e) He). lia.
Qed.

Lemma zinsert_repr zl rs1 rs2 e : zl_repr zl (rs1 ++ rs2) -> zele_ok e -> 11 + zlen (insert_rs rs1 e rs2) < 2 ^ 32 ->
  exists zl', __ziplistInsert junk zl (zpos rs1) e = Some zl' /\ zl_repr zl' (insert_rs rs1 e rs2).
Proof.
  intros Hr He Hs. unfold __ziplistInsert. pose proof Hr as (num & Hzl & Hsz & Hc & Hn).
  pose proof Hc as [Hc1 Hc2]%chain_app. assert (0 <= zout 0 rs1 < 2 ^ 32) as Hz by (by apply zout_range).
  destruct (header_at _ _ Hr) as (num0 & -> & Hi & _). cbn [mbind option_bind]. rewrite Hi. clear num0 Hi.
  rewrite (insert_prevlen_repr zl rs1 rs2 Hr). cbn [mbind option_bind]. rewrite zl_try, zl_data_size. cbn [mbind option_bind].
  rewrite hdr_size, prev_size_needs. set (r := new_entry rs1 e).
  replace (Z.of_nat (length (zl_data e)) + prev_size (needs_big (zout 0 rs1)) + Z.of_nat (length (zl_hdr e))) with (rlen r)
    by (unfold r, new_entry, rlen, zl_payload; cbn [fst snd]; rewrite length_app; lia).
  pose proof (rlen_range r He) as Hrl. unfold insert_rs in Hs |- *. fold r in Hs |- *.
  assert (chain (rlen r) (next_fixed (rlen r) rs2)) as Hcf by (eapply next_fixed_chain; [lia|done]).
  rewrite zlen_app in Hs. cbn [zlen] in Hs. pose proof (zlen_nonneg rs1).
  read_byte (byte_at _ _ _ Hr). rewrite (uwrap_small 32 (rlen r)) by lia. rewrite Hzl.
  assert (num_ok num (length (rs1 ++ next_fixed (rlen r) rs2))) as Hn'.
  { rewrite length_app in Hn |- *. replace (length (next_fixed (rlen r) rs2)) with (length rs2); [done|].
    destruct rs2 as [|[b x] rs2]; [done|]. cbn. f_equal. rewrite <- !(length_fmap snd), fixup_elements. done. }
  destruct rs2 as [|[b x] rs2].
  - rewrite bool_decide_eq_true_2 by done. cbn [negb mbind option_bind]. change ((0 =? -4) && _) with false. cbv iota.
    rewrite app_nil_r in *. cbn [next_fixed] in *. rewrite ?app_nil_r in Hn'.
    destruct (room_at_end num rs1 (rlen r) (ztail rs1)) as (y & -> & Hy); [lia|cbn in Hs; lia|]. cbn [mbind option_bind].
    rewrite <- (app_nil_r y). apply (write_and_count num rs1 y e []); try done.
    + by rewrite app_nil_r.
    + rewrite zlen_app. cbn [zlen] in *. fold r. lia.
    + by rewrite ztail_snoc.
  - rewrite bool_decide_eq_false_2 by done. cbn [negb].
    rewrite <- Hzl. assert (zipPrevLenByteDiff zl (zpos rs1) (rlen r) = Some (prev_size (needs_big (rlen r)) - prev_size b)) as ->.
    { unfold zipPrevLenByteDiff. destruct (entry_at _ _ _ _ Hr) as (_ & _ & -> & _). cbn [mbind option_bind fst].
      rewrite prev_size_needs. f_equal. by destruct (needs_big (rlen r)), b. }
    rewrite Hzl. cbn [mbind option_bind]. rewrite ztail_app, zbody_app, zlen_app.
    replace (11 + (zlen rs1 + zlen ((b, x) :: rs2))) with (11 + zlen rs1 + zlen ((b, x) :: rs2)) by lia.
    destruct (room_in_middle num rs1 b x rs2 (rlen r)) as (y & -> & Hy); [done|lia|lia|]. cbn [mbind option_bind].
    apply (write_and_count num rs1 y e (next_fixed (rlen r) ((b, x) :: rs2))); try done.
    + rewrite zlen_app. cbn [zlen]. fold r. lia.
    + rewrite ztail_app. cbn [next_fixed]. by rewrite ctail_cons2.
Qed.

(** ** Deletion *)

Definition delete_next (n : Z) (rs : list rentry) : list rentry :=
  match rs with [] => [] | r :: rs => (needs_big n, r.2) :: fixup (rlen (needs_big n, r.2)) rs end.
Definition delete_rs (rs1 rs2 : list rentry) : list rentry := rs1 ++ delete_next (zout 0 rs1) rs2.

Lemma resize_shrink T tail num Y E len : len = 11 + Z.of_nat (length Y) -> (0 < length E)%nat -> len < 2 ^ 32 ->
  ziplistResize junk (zheader T tail num ++ Y ++ E) len = Some (zheader len tail num ++ Y ++ [ZIP_END]).
Proof.
  intros Hlen HE Hlt. destruct E as [|x E]; [simpl in HE; lia|]. unfold ziplistResize. rewrite uwrap_small by lia.
  rewrite realloc_shrink by (rewrite !length_app, zheader_length; simpl; lia).
  replace (take (Z.to_nat len) (zheader T tail num ++ Y ++ x :: E)) with ((zheader T tail num ++ Y) ++ [x] ++ []).
  2: { change (x :: E) with ([x] ++ E). rewrite !app_assoc, take_app_le, take_ge, app_nil_r;
         rewrite ?length_app, ?zheader_length; simpl; (done || lia). }
  unfold zheader. rewrite <- !app_assoc, set_bytes by (done || lia). cbn [mbind option_bind]. unfold put.
  replace (le_bytes 4 len ++ le_bytes 4 tail ++ le_bytes 2 num ++ Y ++ [x] ++ [])
    with ((zheader len tail num ++ Y) ++ [x] ++ []) by (unfold zheader; by rewrite <- !app_assoc).
  rewrite store_app by (rewrite ?length_app, ?zheader_length; simpl; lia). unfold zheader. by rewrite <- !app_assoc.
Qed.

Lemma delete_loop_repr zl ds : forall rs1 rs2 fuel i num deleted, zl_repr zl (rs1 ++ ds ++ rs2) -> (length ds <= fuel)%nat ->
  0 <= i -> i + Z.of_nat (length ds) <= num -> num < 2 ^ 32 -> (rs2 = [] \/ i + Z.of_nat (length ds) = num) ->
  0 <= deleted -> deleted + Z.of_nat (length ds) < 2 ^ 32 ->
  delete_loop fuel zl (zpos rs1) i num deleted = Some (zpos (rs1 ++ ds), deleted + Z.of_nat (length ds)).
Proof.
  induction ds as [|r ds IH]; intros rs1 rs2 fuel i num deleted Hr Hf Hi Hle Hnum Hend Hd Hdl.
  - rewrite app_nil_r, Z.add_0_r in *. simpl in *. assert (exists b, getb zl (zpos rs1) = Some b /\
      negb (b =? ZIP_END) && (i <? num) = false) as (b & Hb & Hc).
    { destruct (byte_at _ _ _ Hr) as (b & Hb & He). exists b. split; [done|]. rewrite He. destruct Hend as [-> | ->]; [done|].
      rewrite ?Z.add_0_r, Z.ltb_irrefl. apply andb_false_r. }
    destruct fuel; cbn [delete_loop]; rewrite Hb; cbn [mbind option_bind]; by rewrite Hc.
  - destruct fuel as [|fuel]; [simpl in Hf; lia|]. simpl in Hf, Hle, Hdl, Hend. cbn [delete_loop].
    read_byte (byte_at _ _ _ Hr). rewrite bool_decide_eq_false_2 by done. rewrite (proj2 (Z.ltb_lt i num)) by lia. cbn [negb andb].
    destruct (entry_at _ _ _ _ Hr) as (_ & -> & _). cbn [mbind option_bind]. rewrite <- zpos_snoc, !uwrap_small by lia.
    rewrite (IH (rs1 ++ [r]) rs2); try lia; [|by rewrite <- app_assoc|destruct Hend; [by left|right; lia]].
    rewrite <- app_assoc. simpl. do 2 f_equal. lia.
Qed.

Lemma bind_last {A B C D : Type} (m : option A) (f : A -> option B) (g : A -> B -> option C) (h : A -> C -> option A)
    (k : A -> option D) :
  (zl ← m; t ← f zl; b ← g zl t; zl ← h zl b; k zl) = (zl ← m; t ← f zl; b ← g zl t; h zl b) ≫= k.
Proof. destruct m as [x|]; cbn; [|done]. destruct (f x) as [t|]; cbn; [|done]. by destruct (g x t). Qed.

(** The state before the cascade: the entries [ds] are gone and the field of the next
    entry holds the length of the entry before them. *)
Lemma close_gap num rs1 ds b e rs : let q := zout 0 rs1 in let b' := needs_big q in let nd := prev_size b' - prev_size b in
  chain 0 (rs1 ++ ds ++ (b, e) :: rs) -> ds <> [] -> 11 + zlen (rs1 ++ ds ++ (b, e) :: rs) < 2 ^ 32 ->
  let p := zpos (rs1 ++ ds) in let totlen := zlen ds in
  let Y := zbody 0 rs1 ++ zbody q [(b', e)] ++ zbody (rlen (b, e)) rs in
  exists E, (r ← zipStorePrevEntryLength (block (ztail (rs1 ++ ds ++ (b, e) :: rs)) num (zbody 0 (rs1 ++ ds ++ (b, e) :: rs))) (p - nd) q;
   let '(zl, _) := r in
   zl ← move_tail zl (- totlen);
   tail ← zipEntry zl (p - nd);
   b ← getb zl (p - nd + u32 (headersize tail + len tail));
   zl ← (if negb (b =? ZIP_END) then move_tail zl nd else Some zl);
   n ← ZIPLIST_BYTES zl;
   zl ← memmove zl (zpos rs1) (p - nd) (u64 (intrev32ifbe n - (p - nd) - 1));
   Some (zl, nd)) =
  Some (zheader (11 + zlen (rs1 ++ ds ++ (b, e) :: rs)) (ctail (zlen rs1) ((b', e) :: rs)) num ++ Y ++ E, nd) /\
  (0 < length E)%nat /\ Z.of_nat (length Y) = zlen rs1 + rlen (b', e) + zlen rs /\
  nd + zlen (rs1 ++ ds ++ (b, e) :: rs) = totlen + Z.of_nat (length Y).
Proof.
  intros q b' nd Hc Hds Hs p totlen Y. pose proof Hc as [Hc1 [Hcd Hc2]%chain_app]%chain_app. fold q in Hcd, Hc2.
  assert (0 <= q < 2 ^ 32) as Hq by (by apply zout_range).
  destruct Hc2 as (Hq2 & He & Hc2). cbn [fst snd] in *. set (q2 := zout q ds) in *.
  assert (0 <= totlen - nd) as Hgap.
  { subst nd totlen. destruct ds as [|r ds]; [done|]. cbn in Hcd |- *. destruct Hcd as ([_ Hr] & Hok & _).
    pose proof (zlen_nonneg ds). pose proof (payload_length _ Hok). unfold rlen. destruct b'  eqn:Eb', r.1, b; cbn [prev_size]; try lia.
    specialize (Hr eq_refl). subst b'. unfold needs_big in Eb'. zlia. }
  set (A := zbody 0 rs1). set (R := zl_payload e ++ zbody (rlen (b, e)) rs). set (S := zbody q ds ++ prev_field b q2).
  rewrite !zlen_app in *. cbn [zlen] in *. pose proof (zlen_nonneg rs1). pose proof (zlen_nonneg rs). pose proof (zlen_nonneg ds).
  assert (Z.of_nat (length A) = zlen rs1) as HA by apply zbody_length.
  assert (Z.of_nat (length S) = totlen + prev_size b) as HS.
  { subst S. by rewrite length_app, Nat2Z.inj_add, zbody_length, prev_field_length. }
  assert (Z.of_nat (length R) = rlen (b, e) - prev_size b + zlen rs) as HR.
  { subst R. rewrite length_app, Nat2Z.inj_add, zbody_length. unfold rlen. cbn [fst snd]. lia. }
  assert (exists D w, S = D ++ w /\ Z.of_nat (length D) = totlen - nd /\ Z.of_nat (length w) = prev_size b') as (D & w & HDw & HD & Hw).
  { exists (take (Z.to_nat (totlen - nd)) S), (drop (Z.to_nat (totlen - nd)) S). rewrite take_drop, length_take, length_drop.
    split; [done|]. subst nd. destruct b, b'; cbn [prev_size] in *; lia. }
  set (T := 11 + (zlen rs1 + (zlen ds + (rlen (b, e) + zlen rs)))) in *. set (tail := ztail (rs1 ++ ds ++ (b, e) :: rs)).
  assert (tail = ctail (zlen rs1) ((b, e) :: rs) + totlen) as Htail.
  { subst tail. rewrite app_assoc, ztail_app, zlen_app. unfold ctail, totlen. lia. }
  destruct (ctail_range (zlen rs1) (b, e) rs) as [Hct _]; [constructor; [done|by eapply chain_entries]|].
  pose proof (ctail_resize (zlen rs1) b b' e rs) as Hres'. fold nd in Hres'.
  destruct (ctail_range (zlen rs1) (b', e) rs) as [Hct' _]; [constructor; [done|by eapply chain_entries]|].
  assert (rlen (b', e) = rlen (b, e) + nd) as Hrl by (unfold rlen; subst nd; cbn [fst snd]; lia). cbn [zlen] in Hct, Hct'.
  pose proof (rlen_range (b, e) He) as Hr. pose proof (rlen_range (b', e) He) as Hr'. cbn [fst snd] in *.
  assert (prev_size b <= rlen (b, e)) as Hpr by (unfold rlen; cbn [fst snd]; lia).
  assert (prev_size b = 1 \/ prev_size b = 5) as Hpb by (destruct b; auto).
  assert (nd <= 4) as Hnd4 by (subst nd; destruct b, b'; cbn [prev_size]; lia).
  unfold block. rewrite zbody_length, !zbody_app, !zlen_app. cbn [zlen]. fold q T q2 A.
  replace (zheader T tail num ++ (A ++ zbody q ds ++ zbody q2 ((b, e) :: rs)) ++ [ZIP_END])
    with ((zheader T tail num ++ A ++ D) ++ w ++ R ++ [ZIP_END]).
  2: { transitivity (zheader T tail num ++ A ++ (D ++ w) ++ R ++ [ZIP_END]); [by rewrite <- !app_assoc|]. rewrite <- HDw.
       subst S R. cbn [zbody]. unfold raw. cbn [fst snd]. by rewrite <- !app_assoc. }
  assert (p - nd = 10 + Z.of_nat (length (A ++ D))) as Hp.
  { rewrite length_app, Nat2Z.inj_add, HA, HD. subst p totlen. unfold zpos. rewrite zlen_app. lia. }
  assert (zipStorePrevEntryLength ((zheader T tail num ++ A ++ D) ++ w ++ R ++ [ZIP_END]) (p - nd) q =
    Some (zheader T tail num ++ (A ++ D) ++ prev_field b' q ++ R ++ [ZIP_END], prev_size b')) as ->.
  { rewrite Hp, (at_offset T tail num (A ++ D)). rewrite store_prevlen by done. by rewrite <- app_assoc. }
  cbn [mbind option_bind].
  assert (R ++ [ZIP_END] = zl_payload e ++ zbody (rlen (b, e)) rs ++ [ZIP_END]) as HRE by (subst R; by rewrite <- app_assoc).
  rewrite HRE. rewrite bind_last.
  rewrite (adjust_tail T num (A ++ D) q b' e rs (rlen (b, e)) tail (- totlen) nd (p - nd)); try done.
  2: { by apply needs_big_ok. }
  2: { subst T tail. lia. }
  2: { revert Hres'. case_bool_decide; lia. }
  2: { intros t ->. by rewrite uwrap_small by lia. }
  replace (tail + - totlen + (if bool_decide (rs = []) then 0 else nd)) with (ctail (zlen rs1) ((b', e) :: rs)) by lia.
  set (t' := ctail (zlen rs1) ((b', e) :: rs)). cbn [mbind option_bind]. rewrite <- HRE, get_bytes by lia. cbn [mbind option_bind].
  rewrite intrev32ifbe_involutive by lia.
  destruct (memmove_tail (zheader T t' num ++ A) D (prev_field b' q ++ R) [ZIP_END] 0 (zpos rs1) (p - nd) (u64 (T - (p - nd) - 1)))
    as (x & E & Hm & Hx & HE).
  { rewrite <- at_offset, HA. unfold zpos. lia. }
  { rewrite Nat2Z.inj_add, <- at_offset, Hp, length_app. lia. }
  { rewrite length_app, Nat2Z.inj_add, prev_field_length, HR, Hp, length_app, Nat2Z.inj_add, HA, HD. subst T.
    rewrite uwrap_small by lia. lia. }
  { simpl. lia. }
  apply nil_length_inv in Hx as ->. exists E. rewrite <- !app_assoc in Hm |- *. cbn [app] in Hm. rewrite <- ?app_assoc in Hm. rewrite Hm. cbn [mbind option_bind].
  assert (Y = A ++ prev_field b' q ++ R) as HY.
  { subst Y R. cbn [zbody]. unfold raw. cbn [fst snd]. by rewrite app_nil_r, <- !app_assoc. }
  rewrite HY, !length_app, !Nat2Z.inj_add, prev_field_length, HR, HA, <- !app_assoc.
  split_and!; [done|simpl in HE; lia|lia|subst totlen; lia].
Qed.

(** The count, and the cascade when the next entry changed its size. *)
Lemma count_and_cascade num rs1 b e rs k (b' := needs_big (zout 0 rs1)) (nd := prev_size b' - prev_size b)
    (Y := zbody 0 rs1 ++ zbody (zout 0 rs1) [(b', e)] ++ zbody (rlen (b, e)) rs) :
  chain 0 rs1 -> zele_ok e -> chain (rlen (b, e)) rs -> num_ok num (length rs1 + (k + S (length rs))) ->
  11 + zlen (delete_rs rs1 ((b, e) :: rs)) < 2 ^ 32 ->
  exists zl', (zl ← ZIPLIST_INCR_LENGTH (block (ctail (zlen rs1) ((b', e) :: rs)) num Y) (- Z.of_nat k);
    if negb (nd =? 0) then __ziplistCascadeUpdate junk zl (zpos rs1) else Some zl) = Some zl' /\
  zl_repr zl' (delete_rs rs1 ((b, e) :: rs)).
Proof.
  intros Hc1 He Hc Hn Hs. assert (0 <= zout 0 rs1 < 2 ^ 32) as Hq by (by apply zout_range).
  assert (rlen (b', e) = rlen (b, e) + nd) as Hrl by (unfold rlen, nd; cbn [fst snd]; lia).
  unfold delete_rs in *. cbn [delete_next fst snd] in *. fold b' in Hs |- *. rewrite zlen_app in Hs. cbn [zlen] in Hs.
  pose proof (rlen_range (b', e) He) as Hr. cbn [fst snd] in *. unfold block at 1.
  destruct (incr_length (11 + Z.of_nat (length Y)) (ctail (zlen rs1) ((b', e) :: rs)) num (Y ++ [ZIP_END])
    (length rs1 + (k + S (length rs))) (- Z.of_nat k)) as (num' & Hn' & ->); [done| |lia|].
  { unfold num_ok in Hn. lia. }
  cbn [mbind option_bind]. fold (block (ctail (zlen rs1) ((b', e) :: rs)) num' Y).
  assert (prev_ok b' (zout 0 rs1)) as Hb' by (by apply needs_big_ok).
  assert (forall zl, zl = block (ctail (zlen rs1) ((b', e) :: fixup (rlen (b', e)) rs)) num'
    (zbody 0 rs1 ++ zbody (zout 0 rs1) [(b', e)] ++ zbody (rlen (b', e)) (fixup (rlen (b', e)) rs)) ->
    zl_repr zl (rs1 ++ (b', e) :: fixup (rlen (b', e)) rs)) as Hfin.
  { intros zl ->. exists num'. rewrite ztail_app, zbody_app, zlen_app. cbn [zbody zlen]. rewrite app_nil_r. split_and!; [done|done| |].
    - apply chain_app. split; [done|]. cbn. split_and!; [done..|]. eapply fixup_chain; [lia|done].
    - rewrite length_app. simpl. rewrite <- (length_fmap snd (fixup _ _)), fixup_elements, length_fmap.
      by replace (length rs1 + S (length rs))%nat with (Z.to_nat (Z.of_nat (length rs1 + (k + S (length rs))) + - Z.of_nat k)) by lia. }
  destruct (nd =? 0) eqn:E; zbool; cbn [negb].
  - eexists. split; [reflexivity|]. apply Hfin. rewrite E, Z.add_0_r in Hrl. subst Y. rewrite <- Hrl in Hc |- *.
    by rewrite fixup_same.
  - unfold Y, zpos. rewrite <- (zbody_length 0 rs1). rewrite cascade_spec; [|done|done|done|].
    + eexists. split; [reflexivity|]. apply Hfin. by rewrite zbody_length.
    + rewrite zbody_length. cbn [fst snd]. lia.
Qed.

Lemma zdelete_repr zl rs1 ds rs2 num : zl_repr zl (rs1 ++ ds ++ rs2) -> ds <> [] ->
  Z.of_nat (length ds) <= num -> num < 2 ^ 32 -> (rs2 = [] \/ Z.of_nat (length ds) = num) ->
  11 + zlen (delete_rs rs1 rs2) < 2 ^ 32 ->
  exists zl', __ziplistDelete junk zl (zpos rs1) num = Some zl' /\ zl_repr zl' (delete_rs rs1 rs2).
Proof.
  intros Hr Hds Hle Hnum Hend Hs. unfold __ziplistDelete. destruct ds as [|r0 ds0] eqn:Eds; [done|]. rewrite <- Eds in *. clear Hds.
  assert (zl_repr zl (rs1 ++ r0 :: (ds0 ++ rs2))) as Hr0 by (by rewrite Eds in Hr).
  destruct (entry_at _ _ _ _ Hr0) as (-> & _). cbn [mbind option_bind entry_p prevrawlen].
  rewrite (delete_loop_repr zl ds rs1 rs2); try done; [|apply zrepr_fuel in Hr; rewrite !length_app in Hr; lia|lia].
  cbn [mbind option_bind]. rewrite Z.add_0_l. pose proof Hr as (num0 & Hzl & Hsz & Hc & Hn).
  pose proof Hc as [Hc1 Hcr]%chain_app. rewrite !zlen_app in Hsz.
  pose proof (zlen_nonneg rs1). pose proof (zlen_nonneg rs2).
  assert (0 < zlen ds) as Hd.
  { apply chain_app in Hcr as [Hcd _]. apply chain_entries, zlen_range in Hcd. assert (0 < length ds)%nat by (subst ds; simpl; lia). lia. }
  replace (zpos (rs1 ++ ds) - zpos rs1) with (zlen ds) by (unfold zpos; rewrite zlen_app; lia).
  rewrite (uwrap_small 32 (zlen ds)) by lia. rewrite (proj2 (Z.gtb_lt (zlen ds) 0)) by lia.
  rewrite app_assoc in Hr. read_byte (byte_at _ _ _ Hr). rewrite !length_app in Hn.
  destruct rs2 as [|[b e] rs].
  - rewrite bool_decide_eq_true_2 by done. cbn [negb]. rewrite Hzl. unfold block. rewrite app_nil_r in *.
    change (zpos rs1 - zout 0 rs1) with (ztail rs1). pose proof (ztail_range rs1). rewrite (uwrap_small 32 (ztail rs1)) by lia.
    rewrite set_tail by lia. cbn [mbind option_bind]. rewrite zbody_length, !zlen_app, get_bytes by lia. cbn [mbind option_bind].
    rewrite intrev32ifbe_involutive by lia. rewrite zbody_app, <- (app_assoc (zbody 0 rs1)).
    rewrite resize_shrink by (rewrite ?zbody_length, ?length_app; simpl; lia). cbn [mbind option_bind].
    destruct (incr_length (11 + (zlen rs1 + zlen ds) - zlen ds + 0) (ztail rs1) num0 (zbody 0 rs1 ++ [ZIP_END]) (length rs1 + length ds)
      (- Z.of_nat (length ds))) as (num' & Hn' & ->); [by rewrite Nat.add_0_r in Hn|unfold num_ok in Hn; simpl in Hn; lia|lia|].
    cbn [mbind option_bind]. change (0 =? 0) with true. cbn [negb]. eexists. split; [reflexivity|].
    unfold delete_rs. cbn [delete_next]. rewrite app_nil_r. exists num'. split_and!; [|lia|done|].
    + unfold block. rewrite zbody_length. do 2 f_equal. lia.
    + replace (length rs1) with (Z.to_nat (Z.of_nat (length rs1 + length ds) + - Z.of_nat (length ds))) by lia. done.
  - rewrite bool_decide_eq_false_2 by done. cbn [negb].
    assert (zipPrevLenByteDiff zl (zpos (rs1 ++ ds)) (zout 0 rs1) = Some (prev_size (needs_big (zout 0 rs1)) - prev_size b)) as ->.
    { unfold zipPrevLenByteDiff. destruct (entry_at _ _ _ _ Hr) as (_ & _ & -> & _). cbn [mbind option_bind fst].
      rewrite prev_size_needs. f_equal. by destruct (needs_big (zout 0 rs1)), b. }
    cbn [mbind option_bind]. rewrite Hzl.
    destruct (close_gap num0 rs1 ds b e rs) as (E & -> & HE & HY & Hsum); [done|by subst ds|by rewrite !zlen_app|].
    cbn [mbind option_bind]. rewrite get_bytes by (rewrite !zlen_app; lia). cbn [mbind option_bind].
    rewrite intrev32ifbe_involutive by (rewrite !zlen_app; lia).
    pose proof Hs as Hs'. unfold delete_rs in Hs'. cbn [delete_next fst snd] in Hs'. rewrite zlen_app in Hs'. cbn [zlen] in Hs'.
    pose proof (fixup_zlen (rlen (needs_big (zout 0 rs1), e)) rs).
    set (Y := zbody 0 rs1 ++ zbody (zout 0 rs1) [(needs_big (zout 0 rs1), e)] ++ zbody (rlen (b, e)) rs) in *.
    rewrite (resize_shrink _ _ _ Y) by lia. cbn [mbind option_bind].
    replace (11 + zlen (rs1 ++ ds ++ (b, e) :: rs) - zlen ds + (prev_size (needs_big (zout 0 rs1)) - prev_size b))
      with (11 + Z.of_nat (length Y)) by lia.
    apply chain_app in Hcr as [_ (_ & He & Hcr)]. by apply count_and_cascade.
Qed.

(** ** Merging *)

Definition merge_rs (rs1 rs2 : list rentry) : list rentry := rs1 ++ fixup (zout 0 rs1) rs2.

(** The cascade from the seam: a list that is not empty is followed by entries whose
    first one still says that nothing comes before it. *)
Lemma cascade_seam num rs1 rs2 : rs2 <> [] -> chain 0 rs1 -> chain 0 rs2 -> num_ok num (length rs1 + length rs2) ->
  11 + zlen (merge_rs rs1 rs2) < 2 ^ 32 ->
  exists zl', __ziplistCascadeUpdate junk (block (ctail (zlen rs1) rs2) num (zbody 0 rs1 ++ zbody 0 rs2)) (ztail rs1) = Some zl' /\
    zl_repr zl' (merge_rs rs1 rs2).
Proof.
  intros Hne Hc1 Hc2 Hn Hs. destruct rs2 as [|r2 rs2]; [done|]. clear Hne. unfold merge_rs in *. rewrite zlen_app in Hs.
  destruct rs1 as [|r rs1 _] using rev_ind.
  - cbn [zout zlen app zbody] in *. rewrite fixup_same in * by done. destruct Hc2 as (Hp & He & Hc2).
    pose proof (cascade_spec num [] 0 r2 (rlen r2) rs2 Hp He Hc2) as Hcas. cbn [length app] in Hcas. cbn [zbody] in Hcas.
    rewrite app_nil_r, (fixup_same (rlen r2) rs2 Hc2) in Hcas. change (ztail []) with (10 + Z.of_nat 0).
    change 0 with (Z.of_nat 0) at 1. rewrite Hcas by (cbn [zlen] in Hs; lia). eexists. split; [reflexivity|].
    exists num. split_and!; [|done|done|done]. f_equal.
  - rewrite zout_snoc, ztail_snoc in *. rewrite zbody_app, zlen_app. cbn [zbody zlen]. rewrite Z.add_0_r.
    apply chain_app in Hc1 as [Hc1 (Hp & He & _)]. rewrite zlen_app in Hs. cbn [zlen] in Hs.
    rewrite <- ctail_cons2. unfold zpos. rewrite <- (zbody_length 0 rs1), <- (app_assoc (zbody 0 rs1)).
    change (raw (zout 0 rs1) r ++ []) with (zbody (zout 0 rs1) [r]). change (raw 0 r2 ++ zbody (rlen r2) rs2) with (zbody 0 (r2 :: rs2)).
    rewrite cascade_spec; [|done..|rewrite zbody_length; lia]. eexists. split; [reflexivity|].
    assert (chain (rlen r) (fixup (rlen r) (r2 :: rs2))) as Hcf.
    { eapply fixup_chain; [|done]. pose proof (rlen_range r He). lia. }
    exists num. rewrite <- (app_assoc rs1 [r]). cbn [app]. split_and!.
    + rewrite ztail_app, zbody_app, zbody_length. cbn [zbody]. by rewrite app_nil_r.
    + rewrite zlen_app. cbn [zlen]. lia.
    + apply chain_app. split; [done|]. by cbn.
    + rewrite length_app in Hn |- *. cbn [length] in Hn |- *. rewrite <- (length_fmap snd (fixup _ _)), fixup_elements, length_fmap.
      cbn [length]. by replace (length rs1 + S (S (length rs2)))%nat with (length rs1 + 1 + S (length rs2))%nat by lia.
Qed.

(** The two ways of joining the bytes. *)
Lemma join_append T t n T' t' n' A B len : len = 11 + Z.of_nat (length A) + Z.of_nat (length B) ->
  (bs ← load (zheader T' t' n' ++ B ++ [ZIP_END]) ZIPLIST_HEADER_SIZE (1 + Z.of_nat (length B));
   store (realloc junk (zheader T t n ++ A ++ [ZIP_END]) len) (10 + Z.of_nat (length A)) bs)
  = Some (zheader T t n ++ A ++ B ++ [ZIP_END]).
Proof.
  intros Hlen. destruct (realloc_grow junk (zheader T t n ++ A ++ [ZIP_END]) len) as (q & -> & Hq).
  { rewrite !length_app, zheader_length. simpl. lia. }
  rewrite !length_app, zheader_length in Hq. simpl in Hq.
  rewrite <- (app_nil_r (B ++ [ZIP_END])). rewrite load_app by (rewrite ?length_app; simpl; lia || done). cbn [mbind option_bind].
  replace ((zheader T t n ++ A ++ [ZIP_END]) ++ q) with ((zheader T t n ++ A) ++ ([ZIP_END] ++ q) ++ []) by (by rewrite app_nil_r, <- !app_assoc).
  rewrite store_app by (rewrite ?length_app, ?zheader_length; simpl; lia). by rewrite app_nil_r, <- !app_assoc.
Qed.

Lemma join_prepend T t n T' t' n' A B len : len = 11 + Z.of_nat (length A) + Z.of_nat (length B) ->
  (target ← memmove (realloc junk (zheader T' t' n' ++ B ++ [ZIP_END]) len) (10 + Z.of_nat (length A)) ZIPLIST_HEADER_SIZE (1 + Z.of_nat (length B));
   bs ← load (zheader T t n ++ A ++ [ZIP_END]) 0 (10 + Z.of_nat (length A));
   store target 0 bs)
  = Some (zheader T t n ++ A ++ B ++ [ZIP_END]).
Proof.
  intros Hlen. destruct (realloc_grow junk (zheader T' t' n' ++ B ++ [ZIP_END]) len) as (q & -> & Hq).
  { rewrite !length_app, zheader_length. simpl. lia. }
  rewrite !length_app, zheader_length in Hq. simpl in Hq.
  destruct (memmove_tail (zheader T' t' n') [] (B ++ [ZIP_END]) q (length A) (10 + Z.of_nat (length A)) ZIPLIST_HEADER_SIZE (1 + Z.of_nat (length B)))
    as (x & y & Hm & Hx & Hy); [by rewrite zheader_length|done|rewrite length_app; simpl; lia|simpl; lia|].
  cbn [app] in Hm. rewrite <- (app_assoc (zheader T' t' n')), Hm. cbn [mbind option_bind].
  assert (y = []) as -> by (apply nil_length_inv; simpl in Hy; lia).
  rewrite (app_assoc (zheader T t n)).
  assert (load ((zheader T t n ++ A) ++ [ZIP_END]) 0 (10 + Z.of_nat (length A)) = Some (zheader T t n ++ A)) as ->.
  { apply (load_app [] (zheader T t n ++ A) [ZIP_END]); [done|]. by rewrite <- at_offset. }
  cbn [mbind option_bind]. rewrite app_nil_r, (app_assoc _ x).
  assert (store ((zheader T' t' n' ++ x) ++ B ++ [ZIP_END]) 0 (zheader T t n ++ A) = Some ((zheader T t n ++ A) ++ B ++ [ZIP_END])) as ->.
  { apply (store_app [] (zheader T' t' n' ++ x)); [done|]. by rewrite !length_app, !zheader_length, Hx. }
  by rewrite <- app_assoc.
Qed.

Lemma zset_total T t n R v : 0 <= v < 2 ^ 32 ->
  set_ZIPLIST_BYTES (zheader T t n ++ R) (intrev32ifbe v) = Some (zheader v t n ++ R).
Proof. intros Hv. unfold zheader. rewrite <- !app_assoc. by rewrite set_bytes. Qed.

Lemma merge_repr zl1 zl2 rs1 rs2 : zl_repr zl1 rs1 -> zl_repr zl2 rs2 -> rs2 <> [] -> 11 + zlen (merge_rs rs1 rs2) < 2 ^ 32 ->
  exists zl first second, ziplistMerge junk (Some zl1) (Some zl2) false = Some (Some (zl, first, second)) /\
    zl_repr zl (merge_rs rs1 rs2) /\ (first = Some zl /\ second = None \/ first = None /\ second = Some zl).
Proof.
  intros H1 H2 Hne Hs. destruct (header_at zl1 rs1 H1) as (n1 & Hb1 & Hbi1 & Ht1 & Hn1 & Hni1 & Hok1).
  destruct (header_at zl2 rs2 H2) as (n2 & Hb2 & Hbi2 & Ht2 & Hn2 & Hni2 & Hok2).
  assert (exists t, ZIPLIST_TAIL_OFFSET zl1 = Some t /\ intrev32ifbe t = ztail rs1) as (t1 & Ht1' & Hti1).
  { unfold ZIPLIST_ENTRY_TAIL in Ht1. destruct (ZIPLIST_TAIL_OFFSET zl1) as [t|]; [|done]. injection Ht1 as <-. eauto. }
  assert (exists t, ZIPLIST_TAIL_OFFSET zl2 = Some t /\ intrev32ifbe t = ztail rs2) as (t2 & Ht2' & Hti2).
  { unfold ZIPLIST_ENTRY_TAIL in Ht2. destruct (ZIPLIST_TAIL_OFFSET zl2) as [t|]; [|done]. injection Ht2 as <-. eauto. }
  unfold ziplistMerge. rewrite Hb1. cbn [mbind option_bind]. rewrite Hn1. cbn [mbind option_bind].
  rewrite Hb2. cbn [mbind option_bind]. rewrite Hn2. cbn [mbind option_bind]. rewrite Ht1', Ht2'. cbn [mbind option_bind].
  rewrite Hbi1, Hbi2, Hni1, Hni2, Hti1, Hti2. clear Hb1 Hb2 Hn1 Hn2 Ht1 Ht2 Ht1' Ht2' Hbi1 Hbi2 Hni1 Hni2 Hti1 Hti2 t1 t2.
  destruct H1 as (m1 & Hz1 & Hs1 & Hc1 & _). destruct H2 as (m2 & Hz2 & Hs2 & Hc2 & _).
  set (A := zbody 0 rs1). set (B := zbody 0 rs2). fold A in Hz1. fold B in Hz2.
  assert (Z.of_nat (length A) = zlen rs1) as HA by apply zbody_length. assert (Z.of_nat (length B) = zlen rs2) as HB by apply zbody_length.
  pose proof (zlen_nonneg rs1). pose proof (zlen_nonneg rs2). pose proof (fixup_zlen (zout 0 rs1) rs2).
  unfold merge_rs in Hs. rewrite zlen_app in Hs.
  pose proof (num_ok_range _ _ Hok1) as Hr1. pose proof (num_ok_range _ _ Hok2) as Hr2.
  pose proof (ztail_range rs2) as Htr.
  set (num := if n1 + n2 <? UINT16_MAX then n1 + n2 else UINT16_MAX).
  assert (num_ok num (length rs1 + length rs2)) as Hnum.
  { subst num. unfold num_ok in *. destruct (_ <? _) eqn:E; zbool; unfold UINT16_MAX in *; lia. }
  assert (u16 num = num /\ 0 <= num < 2 ^ 16) as [Hu Hur].
  { pose proof (num_ok_range _ _ Hnum). split; [by apply uwrap_small|done]. }
  rewrite Hu. clearbody num.
  assert (forall T t n (k : list byte -> option (option (list byte * option (list byte) * option (list byte)))), (target ← set_ZIPLIST_BYTES (zheader T t n ++ A ++ B ++ [ZIP_END]) (intrev32ifbe (u32 (11 + zlen rs1 + zlen rs2)));
     target ← set_ZIPLIST_LENGTH target (intrev16ifbe num);
     target ← set_ZIPLIST_TAIL_OFFSET target (intrev32ifbe (u32 (11 + zlen rs1 - ZIPLIST_END_SIZE + (ztail rs2 - ZIPLIST_HEADER_SIZE))));
     target ← __ziplistCascadeUpdate junk target (ztail rs1); k target) =
     __ziplistCascadeUpdate junk (block (ctail (zlen rs1) rs2) num (A ++ B)) (ztail rs1) ≫= k) as Hfin.
  { intros T t n k. rewrite zset_total by (apply uwrap_range; lia). cbn [mbind option_bind]. rewrite zset_num by done. cbn [mbind option_bind].
    rewrite set_tail by (apply uwrap_range; lia). cbn [mbind option_bind]. unfold block.
    rewrite !uwrap_small by (unfold ZIPLIST_END_SIZE, ZIPLIST_HEADER_SIZE; lia). rewrite length_app, Nat2Z.inj_add, HA, HB, <- !app_assoc.
    unfold ztail, zpos, ctail, ZIPLIST_END_SIZE, ZIPLIST_HEADER_SIZE. do 4 f_equal; lia. }
  destruct (cascade_seam num rs1 rs2 Hne Hc1 Hc2 Hnum) as (zl & Hcas & Hrep); [unfold merge_rs; rewrite zlen_app; lia|].
  fold A B in Hcas.
  replace (u64 (11 + zlen rs1 + (11 + zlen rs2) - ZIPLIST_HEADER_SIZE - ZIPLIST_END_SIZE)) with (11 + zlen rs1 + zlen rs2)
    by (unfold ZIPLIST_END_SIZE, ZIPLIST_HEADER_SIZE; rewrite uwrap_small; lia).
  replace (11 + zlen rs1 - ZIPLIST_END_SIZE) with (10 + Z.of_nat (length A)) in * by (unfold ZIPLIST_END_SIZE; lia).
  rewrite Hz1, Hz2. unfold block in Hz1, Hz2 |- *. destruct (n1 >=? n2); cbv beta iota;
    replace (11 + zlen rs1 - ZIPLIST_END_SIZE) with (10 + Z.of_nat (length A)) by (unfold ZIPLIST_END_SIZE; lia).
  - replace (u64 (11 + zlen rs2 - ZIPLIST_HEADER_SIZE)) with (1 + Z.of_nat (length B))
      by (unfold ZIPLIST_HEADER_SIZE; rewrite uwrap_small; lia).
    rewrite join_append by lia. cbn [mbind option_bind]. rewrite Hfin, Hcas. cbn [mbind option_bind]. eauto 10.
  - replace (u64 (11 + zlen rs2 - ZIPLIST_HEADER_SIZE)) with (1 + Z.of_nat (length B))
      by (unfold ZIPLIST_HEADER_SIZE; rewrite uwrap_small; lia).
    rewrite (uwrap_small 64 (10 + Z.of_nat (length A))) by lia.
    rewrite join_prepend by lia. cbn [mbind option_bind]. rewrite Hfin, Hcas. cbn [mbind option_bind]. eauto 10.
Qed.

Lemma delete_none zl rs1 r rs2 : zl_repr zl (rs1 ++ r :: rs2) -> __ziplistDelete junk zl (zpos rs1) 0 = Some zl.
Proof.
  intros Hr. unfold __ziplistDelete. destruct (entry_at _ _ _ _ Hr) as (-> & _). cbn [mbind option_bind entry_p].
  rewrite (delete_loop_repr zl [] rs1 (r :: rs2)) by first [done|simpl; lia|by right]. cbn [mbind option_bind].
  rewrite app_nil_r. replace (zpos rs1 - zpos rs1) with 0 by lia. done.
Qed.

Lemma znew_repr : exists zl, ziplistNew junk = Some zl /\ zl_repr zl [].
Proof.
  unfold ziplistNew. change (ZIPLIST_HEADER_SIZE + ZIPLIST_END_SIZE) with 11. change ZIPLIST_HEADER_SIZE with 10.
  assert (exists x0 x1 x2 x3, malloc junk 11 = x0 ++ x1 ++ x2 ++ x3 /\ length x0 = 4%nat /\ length x1 = 4%nat /\ length x2 = 2%nat /\ length x3 = 1%nat)
    as (x0 & x1 & x2 & x3 & -> & H0 & H1 & H2 & H3).
  { exists (take 4 (malloc junk 11)), (take 4 (drop 4 (malloc junk 11))), (take 2 (drop 8 (malloc junk 11))), (drop 10 (malloc junk 11)).
    done. }
  rewrite set_bytes by (done || lia). cbn [mbind option_bind]. unfold set_ZIPLIST_TAIL_OFFSET. rewrite host_bytes_le_32 by lia.
  rewrite store_app by (rewrite ?le_bytes_length; done). cbn [mbind option_bind]. unfold set_ZIPLIST_LENGTH.
  assert (host_bytes 2 0 = le_bytes 2 0) as -> by (unfold host_bytes; by destruct big_endian).
  rewrite app_assoc, store_app by (rewrite ?length_app, ?le_bytes_length; done). cbn [mbind option_bind]. unfold put.
  rewrite app_assoc, <- (app_nil_r x3), store_app by (rewrite ?length_app, ?le_bytes_length; done).
  eexists. split; [reflexivity|]. exists 0. split_and!; [|done|done|by left]. unfold block, zheader. cbn [zbody app length].
  by rewrite <- !app_assoc.
Qed.
End modification.

(** ** Refinement of a list of byte strings *)

(** An upper bound of the size, whatever the prevlen fields take. *)
Definition zbound (es : list (list byte)) : Z := 11 + Z.of_nat (sum_list_with (fun e => 18 + length e)%nat es).

Lemma zbound_zlen rs : Forall zele_ok (rs.*2) -> 11 + zlen rs <= zbound (rs.*2).
Proof.
  rewrite Forall_fmap. unfold zbound, compose. induction 1 as [|[b e] rs He _ IH]; [done|]. cbn [zlen fmap list_fmap sum_list_with snd] in *.
  pose proof (payload_length e He). unfold rlen. cbn [fst snd]. destruct b; cbn [prev_size]; lia.
Qed.

Lemma zbound_app es1 es2 : zbound (es1 ++ es2) = zbound es1 + zbound es2 - 11.
Proof. unfold zbound. rewrite sum_list_with_app. lia. Qed.

Lemma zbound_mono es1 es2 : zbound es1 <= zbound (es1 ++ es2).
Proof. rewrite zbound_app. unfold zbound. lia. Qed.

Definition zl_holds (zl : list byte) (es : list (list byte)) : Prop := exists rs, zl_repr zl rs /\ rs.*2 = es.

(** The commands of a client: pushing, inserting before an element, deleting, and
    merging with a second ziplist that was built by pushing elements. *)
Inductive zl_cmd :=
  | ZPush (where_ : Z) (e : list byte)
  | ZInsert (index : Z) (e : list byte)
  | ZDelete (index : Z)
  | ZDeleteRange (index num : Z)
  | ZMerge (es : list (list byte)).

Definition zl_push_all `{Host} (junk : nat -> byte) (zl : list byte) (es : list (list byte)) : option (list byte) :=
  foldl (fun r e => zl ← r; ziplistPush junk zl e ZIPLIST_TAIL) (Some zl) es.

Definition zl_exec `{Host} (junk : nat -> byte) (zl : list byte) (c : zl_cmd) : option (list byte) :=
  match c with
  | ZPush where_ e => ziplistPush junk zl e where_
  | ZInsert index e =>
      p ← ziplistIndex zl index;
      match p with None => Some zl | Some p => ziplistInsert junk zl p e end
  | ZDelete index =>
      p ← ziplistIndex zl index;
      match p with None => Some zl | Some p => r ← ziplistDelete junk zl p; Some (fst r) end
  | ZDeleteRange index num => ziplistDeleteRange junk zl index num
  | ZMerge es =>
      zl2 ← ziplistNew junk;
      zl2 ← zl_push_all junk zl2 es;
      r ← ziplistMerge junk (Some zl) (Some zl2) false;
      match r with Some (zl, _, _) => Some zl | None => None end
  end.

Fixpoint zl_execs `{Host} (junk : nat -> byte) (zl : list byte) (cs : list zl_cmd) : option (list byte) :=
  match cs with [] => Some zl | c :: cs => zl ← zl_exec junk zl c; zl_execs junk zl cs end.

Definition zspec (es : list (list byte)) (c : zl_cmd) : list (list byte) :=
  match c with
  | ZPush where_ e => if where_ =? ZIPLIST_HEAD then e :: es else es ++ [e]
  | ZInsert index e => match index_of es index with None => es | Some k => take k es ++ e :: drop k es end
  | ZDelete index => match index_of es index with None => es | Some k => take k es ++ drop (S k) es end
  | ZDeleteRange index num => match index_of es index with None => es | Some k => take k es ++ drop (k + Z.to_nat num) es end
  | ZMerge es' => es ++ es'
  end.

Definition zspecs (es : list (list byte)) (cs : list zl_cmd) : list (list byte) := foldl zspec es cs.

Definition zcmd_ok (c : zl_cmd) : Prop :=
  match c with
  | ZPush _ e => zele_ok e
  | ZInsert index e => INT32_MIN < index /\ zele_ok e
  | ZDelete index => INT32_MIN < index
  | ZDeleteRange index num => INT32_MIN < index /\ 0 <= num < 2 ^ 32
  | ZMerge es => es <> [] /\ Forall zele_ok es
  end.

(** No list on the way is too large for the 32-bit sizes. *)
Fixpoint zfits (es : list (list byte)) (cs : list zl_cmd) : Prop :=
  match cs with [] => True | c :: cs => zbound (zspec es c) < 2 ^ 32 /\ zfits (zspec es c) cs end.

Section refinement.
Context `{HH : Host} (junk : nat -> byte).

Lemma next_fixed_elements n rs : (next_fixed n rs).*2 = rs.*2.
Proof. destruct rs as [|r rs]; [done|]. cbn. by rewrite fixup_elements. Qed.

Lemma insert_elements rs1 e rs2 : (insert_rs rs1 e rs2).*2 = rs1.*2 ++ e :: rs2.*2.
Proof. unfold insert_rs. rewrite fmap_app. cbn. by rewrite next_fixed_elements. Qed.

Lemma delete_elements rs1 rs2 : (delete_rs rs1 rs2).*2 = rs1.*2 ++ rs2.*2.
Proof. unfold delete_rs. rewrite fmap_app. f_equal. destruct rs2 as [|r rs2]; [done|]. cbn. by rewrite fixup_elements. Qed.

Lemma merge_elements rs1 rs2 : (merge_rs rs1 rs2).*2 = rs1.*2 ++ rs2.*2.
Proof. unfold merge_rs. by rewrite fmap_app, fixup_elements. Qed.

Lemma repr_elements zl rs : zl_repr zl rs -> Forall zele_ok (rs.*2).
Proof. intros (num & _ & _ & Hc & _). apply Forall_fmap. by apply chain_entries in Hc. Qed.

(** The operations on the elements. *)
Lemma holds_insert zl rs1 rs2 e : zl_repr zl (rs1 ++ rs2) -> zele_ok e -> zbound (rs1.*2 ++ e :: rs2.*2) < 2 ^ 32 ->
  exists zl', __ziplistInsert junk zl (zpos rs1) e = Some zl' /\ zl_holds zl' (rs1.*2 ++ e :: rs2.*2).
Proof.
  intros Hr He Hb. pose proof (repr_elements _ _ Hr) as Hok. rewrite fmap_app in Hok. apply Forall_app in Hok as [Hok1 Hok2].
  destruct (zinsert_repr junk zl rs1 rs2 e Hr He) as (zl' & Hi & Hr').
  - rewrite <- insert_elements in Hb. eapply Z.le_lt_trans; [apply zbound_zlen|exact Hb]. rewrite insert_elements.
    apply Forall_app. split; [done|]. by constructor.
  - exists zl'. split; [done|]. eexists. split; [done|]. apply insert_elements.
Qed.

Lemma holds_delete zl rs1 ds rs2 num : zl_repr zl (rs1 ++ ds ++ rs2) -> ds <> [] ->
  Z.of_nat (length ds) <= num -> num < 2 ^ 32 -> (rs2 = [] \/ Z.of_nat (length ds) = num) ->
  zbound (rs1.*2 ++ rs2.*2) < 2 ^ 32 ->
  exists zl', __ziplistDelete junk zl (zpos rs1) num = Some zl' /\ zl_holds zl' (rs1.*2 ++ rs2.*2).
Proof.
  intros Hr Hds Hle Hnum Hend Hb. pose proof (repr_elements _ _ Hr) as Hok. rewrite !fmap_app, !Forall_app in Hok.
  destruct (zdelete_repr junk zl rs1 ds rs2 num) as (zl' & Hi & Hr'); try done.
  - rewrite <- delete_elements in Hb. eapply Z.le_lt_trans; [apply zbound_zlen|exact Hb]. rewrite delete_elements.
    apply Forall_app. naive_solver.
  - exists zl'. split; [done|]. eexists. split; [done|]. apply delete_elements.
Qed.

(** What ziplistGet() finds at an entry. *)
Lemma zvalue_repr zl rs1 r rs2 : zl_repr zl (rs1 ++ r :: rs2) -> exists v, ziplistGet zl (Some (zpos rs1)) = Some (Some v) /\
  match v with
  | ZlStr p n => load zl p n = Some r.2 /\ string2ll r.2 = None
  | ZlInt n => string2ll r.2 = Some n /\ in_s 64 n /\ r.2 = decimal n
  end.
Proof.
  intros Hr. unfold ziplistGet. read_byte (byte_at _ _ _ Hr). rewrite bool_decide_eq_false_2 by done.
  destruct (entry_at _ _ _ _ Hr) as (-> & _). cbn [mbind option_bind encoding headersize len].
  pose proof (data_at _ _ _ _ Hr) as Hd. cbv zeta in Hd. rewrite read_enc_is_str. unfold read_enc, zl_data.
  destruct (zipTryEncoding r.2) as [[v enc]|] eqn:E.
  - rewrite bool_decide_eq_false_2 by done. rewrite Z.add_assoc, Hd. cbn [mbind option_bind].
    apply try_encoding_some in E as (Es & Hv & E & _). by exists (ZlInt v).
  - rewrite bool_decide_eq_true_2 by done. rewrite Z.add_assoc. eexists. split; [done|]. split; [exact Hd|].
    by apply try_encoding_none in E.
Qed.

(** Delete one entry; the entries before it keep their offsets. *)
Lemma delete_at zl rsA r rsB : zl_repr zl (rsA ++ r :: rsB) -> zbound (rsA.*2 ++ rsB.*2) < 2 ^ 32 ->
  exists zl' rsB', ziplistDelete junk zl (zpos rsA) = Some (zl', zpos rsA) /\ zl_repr zl' (rsA ++ rsB') /\ rsB'.*2 = rsB.*2.
Proof.
  intros Hr Hb. pose proof (repr_elements _ _ Hr) as Hok. rewrite fmap_app, Forall_app in Hok. destruct Hok as [HA Hok].
  apply Forall_cons in Hok as [_ HB]. destruct (zdelete_repr junk zl rsA [r] rsB 1 Hr) as (zl' & Hd & Hr'); try done; [by right| |].
  - rewrite <- delete_elements in Hb. eapply Z.le_lt_trans; [apply zbound_zlen|exact Hb]. rewrite delete_elements. by apply Forall_app.
  - exists zl', (delete_next (zout 0 rsA) rsB). unfold ziplistDelete. rewrite Hd. split_and!; [done|done|].
    pose proof (delete_elements rsA rsB) as E. unfold delete_rs in E. rewrite fmap_app in E. by apply app_inv_head in E.
Qed.

Lemma holds_push zl es e where_ : zl_holds zl es -> zele_ok e -> zbound (zspec es (ZPush where_ e)) < 2 ^ 32 ->
  exists zl', ziplistPush junk zl e where_ = Some zl' /\ zl_holds zl' (zspec es (ZPush where_ e)).
Proof.
  intros (rs & Hr & <-) He Hb. unfold ziplistPush. cbn [zspec] in *. destruct (where_ =? ZIPLIST_HEAD).
  - cbn [mbind option_bind]. by apply (holds_insert zl [] rs e).
  - unfold ZIPLIST_ENTRY_END. destruct (header_at _ _ Hr) as (num & -> & Hi & _). cbn [mbind option_bind]. rewrite Hi.
    replace (11 + zlen rs - 1) with (zpos rs) by (unfold zpos; lia).
    apply (holds_insert zl rs [] e); [by rewrite app_nil_r|done|done].
Qed.

Lemma holds_push_all es2 : forall zl es, zl_holds zl es -> Forall zele_ok es2 -> zbound (es ++ es2) < 2 ^ 32 ->
  exists zl', zl_push_all junk zl es2 = Some zl' /\ zl_holds zl' (es ++ es2).
Proof.
  induction es2 as [|e es2 IH]; intros zl es Hh Hf Hb; [exists zl; by rewrite app_nil_r|].
  apply Forall_cons in Hf as [He Hf]. destruct (holds_push zl es e ZIPLIST_TAIL Hh He) as (zl1 & Hp & Hh1).
  { cbn. eapply Z.le_lt_trans; [apply (zbound_mono _ es2)|]. by rewrite <- app_assoc. }
  cbn [zspec] in Hh1. change (ZIPLIST_TAIL =? ZIPLIST_HEAD) with false in Hh1. cbv iota in Hh1.
  destruct (IH zl1 (es ++ [e]) Hh1 Hf) as (zl' & Hq & Hh'); [by rewrite <- app_assoc|].
  exists zl'. rewrite <- app_assoc in Hh'. split; [|done]. unfold zl_push_all in *. cbn [foldl mbind option_bind]. by rewrite Hp.
Qed.

(** The block cut at the index that the code looks for. *)
Lemma cut_at zl rs k : zl_repr zl rs -> (k < length rs)%nat -> exists r, zl_repr zl (take k rs ++ r :: drop (S k) rs) /\
  rs = take k rs ++ r :: drop (S k) rs.
Proof.
  intros Hr Hk. destruct (lookup_lt_is_Some_2 rs k Hk) as [r Hl]. exists r. pose proof (take_drop_middle rs k r Hl) as E. by rewrite E.
Qed.

Lemma index_of_lt es i k : index_of es i = Some k -> (k < length es)%nat.
Proof. unfold index_of. destruct (_ && _) eqn:E; [|done]. intros [= <-]. zbool. lia. Qed.

Lemma zexec_repr zl es c : zl_holds zl es -> zcmd_ok c -> zbound (zspec es c) < 2 ^ 32 ->
  exists zl', zl_exec junk zl c = Some zl' /\ zl_holds zl' (zspec es c).
Proof.
  intros Hh Hok Hb. destruct c as [w e|i e|i|i num|es2]; cbn [zl_exec zcmd_ok] in *.
  - by apply holds_push.
  - destruct Hh as (rs & Hr & <-), Hok as [Hi He]. cbn [zspec] in *. rewrite (index_repr zl rs i Hr Hi). cbn [mbind option_bind].
    destruct (index_of rs.*2 i) as [k|] eqn:E; [|exists zl; split; [done|by exists rs]].
    cbn [fmap option_fmap option_map]. rewrite <- fmap_take, <- fmap_drop in *. apply holds_insert; [by rewrite take_drop|done|done].
  - destruct Hh as (rs & Hr & <-). cbn [zspec] in *. rewrite (index_repr zl rs i Hr Hok). cbn [mbind option_bind].
    destruct (index_of rs.*2 i) as [k|] eqn:E; [|exists zl; split; [done|by exists rs]].
    apply index_of_lt in E. rewrite length_fmap in E. destruct (cut_at zl rs k Hr E) as (r & Hr' & _).
    cbn [fmap option_fmap option_map]. unfold ziplistDelete. rewrite <- fmap_take, <- fmap_drop in *.
    destruct (holds_delete zl (take k rs) [r] (drop (S k) rs) 1) as (zl' & -> & Hh'); try done; [by right|]. by exists zl'.
  - destruct Hh as (rs & Hr & <-), Hok as [Hi Hn]. cbn [zspec] in *. unfold ziplistDeleteRange. rewrite (index_repr zl rs i Hr Hi).
    cbn [mbind option_bind]. destruct (index_of rs.*2 i) as [k|] eqn:E; [|exists zl; split; [done|by exists rs]].
    apply index_of_lt in E. rewrite length_fmap in E. destruct (cut_at zl rs k Hr E) as (r & Hr' & Hcut).
    cbn [fmap option_fmap option_map]. destruct (decide (num = 0)) as [-> | Hne].
    + rewrite (delete_none junk zl _ r _ Hr'). exists zl. split; [done|]. exists rs. split; [done|].
      change (Z.to_nat 0) with O. by rewrite Nat.add_0_r, take_drop.
    + rewrite <- fmap_take, <- fmap_drop in *. rewrite <- drop_drop in *. set (rest := drop k rs) in *.
      apply (holds_delete zl (take k rs) (take (Z.to_nat num) rest) (drop (Z.to_nat num) rest)).
      * subst rest. by rewrite !take_drop.
      * intros Hx. apply (f_equal length) in Hx. rewrite length_take in Hx. subst rest. rewrite length_drop in Hx. simpl in Hx. lia.
      * rewrite length_take. lia.
      * lia.
      * destruct (decide (length rest <= Z.to_nat num)%nat); [left; by apply drop_ge|right; rewrite length_take; lia].
      * done.
  - destruct Hok as [Hne Hf]. destruct (znew_repr junk) as (zl2 & -> & Hr2). cbn [mbind option_bind zspec] in *.
    assert (zbound es2 < 2 ^ 32) as Hb2 by (rewrite zbound_app in Hb; unfold zbound in *; lia).
    destruct (holds_push_all es2 zl2 []) as (zl2' & -> & rs2 & Hr2' & He2); [by exists []|done|done|]. cbn [mbind option_bind app] in *.
    destruct Hh as (rs & Hr & <-). pose proof (repr_elements _ _ Hr) as Hok1.
    destruct (merge_repr junk zl zl2' rs rs2 Hr Hr2') as (zl' & f & s & -> & Hr' & _).
    + intros ->. by subst es2.
    + rewrite <- He2, <- merge_elements in Hb. eapply Z.le_lt_trans; [apply zbound_zlen|exact Hb].
      rewrite merge_elements. apply Forall_app. split; [done|by rewrite He2].
    + cbn [mbind option_bind]. exists zl'. split; [done|]. exists (merge_rs rs rs2). split; [done|]. by rewrite merge_elements, He2.
Qed.

Lemma zexecs_repr cs : forall zl es, zl_holds zl es -> Forall zcmd_ok cs -> zfits es cs ->
  exists zl', zl_execs junk zl cs = Some zl' /\ zl_holds zl' (zspecs es cs).
Proof.
  induction cs as [|c cs IH]; intros zl es Hh Hok Hf; [by exists zl|]. apply Forall_cons in Hok as [Hc Hok]. destruct Hf as [Hb Hf].
  destruct (zexec_repr zl es c Hh Hc Hb) as (zl1 & E & Hh1). cbn [zl_execs]. rewrite E. cbn [mbind option_bind].
  by apply (IH zl1 (zspec es c)).
Qed.

(** Reading the element at an index. *)
Definition zl_nth (zl : list byte) (index : Z) : option (option (list byte)) :=
  p ← ziplistIndex zl index; zl_string zl p.

Lemma znth_repr zl es i : zl_holds zl es -> INT32_MIN < i -> zl_nth zl i = Some (k ← index_of es i; es !! k).
Proof.
  intros (rs & Hr & <-) Hi. unfold zl_nth. rewrite (index_repr zl rs i Hr Hi). cbn [mbind option_bind].
  destruct (index_of rs.*2 i) as [k|] eqn:E; [|done]. apply index_of_lt in E. rewrite length_fmap in E.
  destruct (lookup_lt_is_Some_2 rs k E) as [r Hl]. cbn [fmap option_fmap option_map mbind option_bind].
  rewrite list_lookup_fmap, Hl. rewrite <- (take_drop_middle rs k r Hl) in Hr. by rewrite (zget_repr zl _ r _ Hr).
Qed.
End refinement.

(** ** Properties *)

(** C14: a ziplist refines a list of byte strings.  From ziplistNew(), any sequence of
    pushes at either end, insertions and deletions at positive or negative indexes,
    deletions of ranges and merges with another ziplist that is not empty, no list on
    the way being too large for 32-bit sizes, runs without leaving the block, whatever
    prevlen fields the cascades grow on the way; the block then holds the elements of
    the list, in order, read at every index from the head or from the tail, and their
    number. *)
Theorem ziplist_refines_list `{HH : Host} (junk : nat -> byte) cs : Forall zcmd_ok cs -> zfits [] cs ->
  let es := zspecs [] cs in
  exists zl0 zl zl', ziplistNew junk = Some zl0 /\ zl_execs junk zl0 cs = Some zl /\
    (forall i, INT32_MIN < i -> zl_nth zl i = Some (k ← index_of es i; es !! k)) /\
    ziplistLen zl = Some (zl', Z.of_nat (length es)).
Proof.
  intros Hok Hf es. destruct (znew_repr junk) as (zl0 & Hnew & Hr0).
  destruct (zexecs_repr junk cs zl0 []) as (zl & He & Hh); [by exists []|done|done|].
  pose proof Hh as (rs & Hr & Hes). destruct (len_repr zl rs Hr) as (zl' & Hl & _). exists zl0, zl, zl'. split_and!; [done..| |].
  - intros i Hi. by apply znth_repr.
  - subst es. by rewrite <- Hes, length_fmap.
Qed.

(** The search of a ziplist.  ziplistFind() from the first entry, skipping [skip]
    entries between comparisons, returns NULL when no element at a multiple of
    [skip]+1 is the string, and otherwise the offset of the first such element: the
    element there is the string, and none before it at such a position is.  Integers
    and strings are found alike, however they are encoded. *)
Theorem ziplist_find_correct `{HH : Host} zl rs v skip : zl_repr zl rs -> Z.of_nat skip < 2 ^ 31 ->
  exists r, ziplistFind zl ZIPLIST_ENTRY_HEAD v (Z.of_nat skip) = Some r /\
  match r with
  | None => forall i, rs.*2 !! (i * (skip + 1))%nat <> Some v
  | Some p => exists i, p = zpos (take (i * (skip + 1)) rs) /\ rs.*2 !! (i * (skip + 1))%nat = Some v /\
                zl_string zl (Some p) = Some (Some v) /\
                (forall j, (j < i)%nat -> rs.*2 !! (j * (skip + 1))%nat <> Some v)
  end.
Proof.
  intros Hr Hs. pose proof (find_repr zl [] rs v skip Hr Hs) as Hf. change (zpos []) with ZIPLIST_ENTRY_HEAD in Hf.
  eexists. split; [exact Hf|]. destruct (find_spec rs.*2 v skip 0) as [k|] eqn:E; cbn.
  - apply find_spec_some in E as Hk. destruct Hk as (Hl & _ & Hm). rewrite Nat.sub_0_r in Hm.
    exists (k / (skip + 1))%nat. pose proof (Nat.div_mod_eq k (skip + 1)) as Hd.
    assert (k / (skip + 1) * (skip + 1) = k)%nat as -> by lia. split_and!; [done|done| |].
    + rewrite list_lookup_fmap in Hl. destruct (rs !! k) as [r|] eqn:Er; [|done]. injection Hl as <-.
      rewrite <- (take_drop_middle rs k r Er) in Hr. by apply (zget_repr zl (take k rs) r (drop (S k) rs)).
    + intros j Hj Hv. destruct (find_spec_first rs.*2 v skip 0 j Hv) as (k' & E' & Hle). rewrite E in E'. injection E' as <-. nia.
  - intros i Hv. destruct (find_spec_first rs.*2 v skip 0 i Hv) as (k' & E' & _). congruence.
Qed.

(** Walking a ziplist.  From the head, ziplistNext() visits the entries in order and
    returns NULL after the last one; ziplistPrev() goes back over the same entries,
    from the end byte to the head, where it returns NULL: at every entry the two are
    inverse of each other. *)
Theorem ziplist_walk `{HH : Host} zl rs1 r rs2 : zl_repr zl (rs1 ++ r :: rs2) ->
  zl_string zl (Some (zpos rs1)) = Some (Some r.2) /\
  ziplistNext zl (zpos rs1) = Some (zcursor (rs1 ++ [r]) rs2) /\
  ziplistPrev zl (zpos (rs1 ++ [r])) = Some (Some (zpos rs1)) /\
  ziplistPrev zl (zpos []) = Some None /\ ziplistNext zl (zpos (rs1 ++ r :: rs2)) = Some None.
Proof.
  intros Hr. split_and!; [by eapply zget_repr|by apply znext_repr|by eapply zprev_repr|by eapply prev_head|by apply next_end].
Qed.

(** ** Examples and witnesses *)

Local Instance zl_little : Host := false.
Definition junk_zl (i : nat) : byte := Z.of_nat i mod 256.

(** An entry of 250 bytes before a chain of entries of 253 bytes. *)
Definition long (n : nat) : list byte := replicate n 65.
Definition zl_script : list zl_cmd :=
  [ZPush ZIPLIST_TAIL (long 250); ZPush ZIPLIST_TAIL (long 250); ZPush ZIPLIST_TAIL (long 249);
   ZPush ZIPLIST_TAIL (decimal (-70000)); ZPush ZIPLIST_HEAD (long 300); ZInsert (-2) (decimal 7);
   ZMerge [decimal 12; long 3]; ZDelete 0; ZDeleteRange 1 2].

Lemma short_ok e : (length e <=? 1000)%nat = true -> zele_ok e.
Proof. intros He%Nat.leb_le. unfold zele_ok. lia. Qed.

Lemma ziplist_refines_list_witness : exists zl0 zl zl', ziplistNew junk_zl = Some zl0 /\
  zl_execs junk_zl zl0 zl_script = Some zl /\ zl_nth zl (-3) = Some (Some (decimal (-70000))) /\ ziplistLen zl = Some (zl', 5).
Proof.
  destruct (ziplist_refines_list junk_zl zl_script) as (zl0 & zl & zl' & H0 & H1 & H2 & H3).
  - repeat (apply Forall_cons_2; [try split; try (apply short_ok; reflexivity)|]); [done..| |done|split; [done|lia]|apply Forall_nil_2].
    repeat (apply Forall_cons_2; [apply short_ok; reflexivity|]). apply Forall_nil_2.
  - vm_compute. done.
  - exists zl0, zl, zl'. split; [exact H0|]. split; [exact H1|]. split; [|exact H3]. rewrite H2 by done. vm_compute. reflexivity.
Defined.

(** A block whose last prevlen field is larger than it has to be. *)
Definition zl_rs : list rentry := [(false, [102; 111; 111]); (false, decimal 1024); (true, decimal 7)].
Definition zl_block : list byte := block (ztail zl_rs) 3 (zbody 0 zl_rs).

Lemma zl_block_repr : zl_repr zl_block zl_rs.
Proof.
  exists 3. split; [done|]. split; [by vm_compute|]. split; [|by left].
  unfold zl_rs. cbn [chain fst snd]. split_and!; try done; try (apply short_ok; reflexivity); try (vm_compute; done).
Qed.

Lemma ziplist_find_correct_witness : zl_repr zl_block zl_rs /\
  exists r, ziplistFind zl_block ZIPLIST_ENTRY_HEAD (decimal 7) (Z.of_nat 1) = Some r /\ r = Some 19.
Proof.
  split; [exact zl_block_repr|]. destruct (ziplist_find_correct zl_block zl_rs (decimal 7) 1 zl_block_repr) as (r & Hr & _); [done|].
  exists r. split; [exact Hr|]. vm_compute in Hr. by injection Hr as <-.
Defined.

Lemma ziplist_walk_witness : ziplistNext zl_block 15 = Some (Some 19) /\ ziplistPrev zl_block 19 = Some (Some 15).
Proof.
  destruct (ziplist_walk zl_block [(false, [102; 111; 111])] (false, decimal 1024) [(true, decimal 7)] zl_block_repr) as (_ & H1 & H2 & _).
  split; [exact H1|exact H2].
Defined.

(** Merging with an empty second ziplist leaves the tail offset on the end byte.  The
    next push at the tail then records that nothing comes before it: from the end, the
    list of two elements has only one. *)
Example merge_empty_second :
  (zl0 ← ziplistNew junk_zl; zl1 ← ziplistPush junk_zl zl0 [102; 111; 111] ZIPLIST_TAIL;
   r ← ziplistMerge junk_zl (Some zl1) (Some zl0) false;
   match r with
   | None => None
   | Some (zl, _, _) =>
       last ← zl_nth zl (-1);
       zl ← ziplistPush junk_zl zl [98; 97; 114] ZIPLIST_TAIL;
       e0 ← zl_nth zl 0; e1 ← zl_nth zl 1; back ← zl_nth zl (-2); Some (last, e0, e1, back)
   end) = Some (None, Some [102; 111; 111], Some [98; 97; 114], None).
Proof. vm_compute. reflexivity. Qed.
