(* ===== verification/THash.v ===== *)
(** * Hash objects (src/redis-5.0.7/src/t_hash.c)

    A hash is a ziplist of fields and values in turn while it is small, and a
    dictionary of sds strings otherwise.  The operations dispatch on the encoding and
    convert when a limit is passed; the commands are handlers over them, given what is
    found at the key: they return what they leave there, the replies as answers of [Reply],
    the changes they count and the events.  HSCAN, whose handler is in [db.c], is left
    out.  Strings are given by their contents; the limits of the configuration, the hash
    function and whether dictionaries may be resized are section variables.  A failed
    assertion has no value.

    Every operation is specified against a finite map ([hash_models]), every handler against
    an abstract command on such a map ([hspec]); the bound [B] of these lemmas keeps the
    size a ziplist can reach below the 4 GB of its header. *)

From S2P Require Import Prelude Endian Intset Util Sds SdsText Dict DictIter TSet Listpack Reply.
From S2P Require Import ZiplistDefs Ziplist ZiplistOps.
From stdpp Require Import gmap strings.
Local Open Scope Z_scope.

Definition OBJ_HASH_KEY : Z := 1.
Definition OBJ_HASH_VALUE : Z := 2.
Definition OBJ_ENCODING_HT : Z := 2.
Definition OBJ_ENCODING_ZIPLIST : Z := 5.

Section thash.
Context `{Host} (junk : nat -> byte).
Context (hash : list byte -> Z).            (* dictSdsHash *)
Context (dict_can_resize : bool).
Context (hash_max_ziplist_entries hash_max_ziplist_value : Z).   (* server.hash_max_ziplist_* *)

Abbreviation sdict := (dict (list byte) (list byte)).

(** ** The object and look-up *)

Inductive hashobj := HashZL (zl : list byte) | HashHT (d : sdict).

(** What a look-up stores: a string in [*vstr] and [*vlen], or an integer in [*vll]. *)
Inductive hash_value := HVStr (vstr : list byte) | HVInt (vll : Z).

Definition createHashObject : option hashobj := zl ← ziplistNew junk; Some (HashZL zl).

(** [ziplistIndex(zl, ZIPLIST_HEAD)], then [ziplistFind] from there. *)
Definition find_field (zl field : list byte) : option (option Z) :=
  fptr ← ziplistIndex zl ZIPLIST_HEAD;
  match fptr with None => Some None | Some fptr => ziplistFind zl fptr field 1 end.

(** The entry at [p], which is not the end. *)
Definition get_entry (zl : list byte) (p : Z) : option hash_value :=
  r ← ziplistGet zl (Some p);
  match r with
  | None => None (* serverAssert *)
  | Some (ZlStr sstr slen) => s ← load zl sstr slen; Some (HVStr s)
  | Some (ZlInt sval) => Some (HVInt sval)
  end.

(** The value after the field at [fptr]. *)
Definition value_ptr (zl : list byte) (fptr : Z) : option Z :=
  vptr ← ziplistNext zl fptr; vptr (* serverAssert *).

Definition hashTypeGetFromZiplist (zl field : list byte) : option (option hash_value) :=
  fptr ← find_field zl field;
  match fptr with
  | None => Some None
  | Some fptr => vptr ← value_ptr zl fptr; v ← get_entry zl vptr; Some (Some v)
  end.

(** A look-up in a dictionary may rehash it. *)
Definition hashTypeGetFromHashTable (d : sdict) (field : list byte) : option (sdict * option (list byte)) :=
  r ← dictFind hash d field; Some (r.1, option_map snd r.2).

Definition hashTypeGetValue (o : hashobj) (field : list byte) : option (hashobj * option hash_value) :=
  match o with
  | HashZL zl => v ← hashTypeGetFromZiplist zl field; Some (o, v)
  | HashHT d => r ← hashTypeGetFromHashTable d field; Some (HashHT r.1, option_map HVStr r.2)
  end.

(** The value as a new string object. *)
Definition hashTypeGetValueObject (o : hashobj) (field : list byte) : option (hashobj * option robj) :=
  r ← hashTypeGetValue o field;
  Some (r.1, option_map (fun v => match v with HVStr s => OSds s | HVInt n => OInt n end) r.2).

Definition hashTypeGetValueLength (o : hashobj) (field : list byte) : option (hashobj * Z) :=
  match o with
  | HashZL zl =>
      v ← hashTypeGetFromZiplist zl field;
      Some (o, match v with
               | None => 0
               | Some (HVStr s) => Z.of_nat (length s)
               | Some (HVInt v) => sdigits10 v
               end)
  | HashHT d =>
      r ← hashTypeGetFromHashTable d field;
      Some (HashHT r.1, match r.2 with None => 0 | Some aux => Z.of_nat (length aux) end)
  end.

Definition hashTypeExists (o : hashobj) (field : list byte) : option (hashobj * bool) :=
  match o with
  | HashZL zl => v ← hashTypeGetFromZiplist zl field; Some (o, bool_decide (is_Some v))
  | HashHT d => r ← hashTypeGetFromHashTable d field; Some (HashHT r.1, bool_decide (is_Some r.2))
  end.

(** ziplistLen() may store the count in the header. *)
Definition hashTypeLength (o : hashobj) : option (hashobj * Z) :=
  match o with
  | HashZL zl => r ← ziplistLen zl; Some (HashZL r.1, r.2 / 2)
  | HashHT d => Some (o, dictSize d)
  end.

(** ** Iteration *)

Inductive hashTypeIterator :=
  | HIzl (cursor : option (Z * Z))                      (* fptr and vptr *)
  | HIht (di : dictIterator (K := list byte) (V := list byte)) (de : option (list byte * list byte)).

Definition hashTypeInitIterator (o : hashobj) : hashTypeIterator :=
  match o with HashZL _ => HIzl None | HashHT _ => HIht dictGetIterator None end.

Definition hashTypeReleaseIterator (tables : Z * Z) (o : hashobj) (hi : hashTypeIterator) : option hashobj :=
  match o, hi with
  | HashHT d, HIht di _ => d ← dictReleaseIterator tables d di; Some (HashHT d)
  | HashZL _, HIzl _ => Some o
  | _, _ => None
  end.

(** [false] is C_ERR.  The iterator of the dictionary is not a safe one, so the
    dictionary does not change; [tables] are the addresses its fingerprint reads. *)
Definition hashTypeNext (tables : Z * Z) (o : hashobj) (hi : hashTypeIterator) : option (hashTypeIterator * bool) :=
  match o, hi with
  | HashZL zl, HIzl cursor =>
      fptr ← (match cursor with None => ziplistIndex zl 0 | Some (_, vptr) => ziplistNext zl vptr end);
      match fptr with
      | None => Some (hi, false)
      | Some fptr => vptr ← value_ptr zl fptr; Some (HIzl (Some (fptr, vptr)), true)
      end
  | HashHT d, HIht di _ =>
      r ← dictNext tables d di;
      Some (HIht r.1.2 r.2, bool_decide (is_Some r.2))
  | _, _ => None
  end.

Definition hashTypeCurrentFromZiplist (zl : list byte) (cursor : option (Z * Z)) (what : Z) : option hash_value :=
  match cursor with
  | None => None (* ziplistGet(NULL) fails the assertion *)
  | Some (fptr, vptr) => get_entry zl (if negb (Z.land what OBJ_HASH_KEY =? 0) then fptr else vptr)
  end.

Definition hashTypeCurrentFromHashTable (de : option (list byte * list byte)) (what : Z) : option (list byte) :=
  e ← de; Some (if negb (Z.land what OBJ_HASH_KEY =? 0) then e.1 else e.2).

Definition hashTypeCurrentObject (o : hashobj) (hi : hashTypeIterator) (what : Z) : option hash_value :=
  match o, hi with
  | HashZL zl, HIzl cursor => hashTypeCurrentFromZiplist zl cursor what
  | HashHT _, HIht _ de => s ← hashTypeCurrentFromHashTable de what; Some (HVStr s)
  | _, _ => None
  end.

(** A new sds with the value. *)
Definition new_sds (v : hash_value) : option (list byte) :=
  match v with
  | HVStr s => x ← sdsnewlen junk (InitBytes s) (Z.of_nat (length s)); sds_bytes x
  | HVInt n => x ← sdsfromlonglong junk n; sds_bytes x
  end.

Definition hashTypeCurrentObjectNewSds (o : hashobj) (hi : hashTypeIterator) (what : Z) : option (list byte) :=
  v ← hashTypeCurrentObject o hi what; new_sds v.

(** ** Conversion *)

(** The [while] loop over the ziplist; an entry that is there already is a
    corruption of the ziplist and panics. *)
Fixpoint hash_convert_loop (fuel : nat) (tables : Z * Z) (o : hashobj) (hi : hashTypeIterator) (d : sdict) : option sdict :=
  match fuel with
  | O => None
  | S fuel =>
      r ← hashTypeNext tables o hi;
      let '(hi, ok) := r in
      if negb ok then Some d
      else
        key ← hashTypeCurrentObjectNewSds o hi OBJ_HASH_KEY;
        value ← hashTypeCurrentObjectNewSds o hi OBJ_HASH_VALUE;
        r ← dictAdd hash [] dict_can_resize d key value;
        let '(d, ok) := r in
        if (ok : bool) then hash_convert_loop fuel tables o hi d else None
  end.

Definition hashTypeConvertZiplist (zl : list byte) (enc : Z) : option hashobj :=
  if enc =? OBJ_ENCODING_ZIPLIST then Some (HashZL zl)
  else if enc =? OBJ_ENCODING_HT then
    d ← hash_convert_loop (length zl) (0, 0) (HashZL zl) (hashTypeInitIterator (HashZL zl)) dictCreate;
    Some (HashHT d)
  else None. (* serverPanic *)

Definition hashTypeConvert (o : hashobj) (enc : Z) : option hashobj :=
  match o with
  | HashZL zl => hashTypeConvertZiplist zl enc
  | HashHT _ => None (* serverPanic *)
  end.

(** [argv] are the arguments from [start] to [end]. *)
Fixpoint hashTypeTryConversion (o : hashobj) (argv : list robj) : option hashobj :=
  match o with
  | HashHT _ => Some o
  | HashZL _ =>
      match argv with
      | [] => Some o
      | OSds s :: argv =>
          if Z.of_nat (length s) >? hash_max_ziplist_value then hashTypeConvert o OBJ_ENCODING_HT
          else hashTypeTryConversion o argv
      | OInt _ :: argv => hashTypeTryConversion o argv
      end
  end.

(** ** Changes *)

(** The value of a field that is there is deleted, and the new one inserted in its
    place; a new field goes to the tail.  Returns the ziplist and [update]. *)
Definition hash_set_ziplist (zl field value : list byte) : option (list byte * bool) :=
  fptr ← find_field zl field;
  match fptr with
  | Some fptr =>
      vptr ← value_ptr zl fptr;
      d ← ziplistDelete junk zl vptr;
      let '(zl, vptr) := d in
      zl ← ziplistInsert junk zl vptr value;
      Some (zl, true)
  | None =>
      zl ← ziplistPush junk zl field ZIPLIST_TAIL;
      zl ← ziplistPush junk zl value ZIPLIST_TAIL;
      Some (zl, false)
  end.

(** Returns the object and whether the field was there.  The flags only say who frees
    the strings. *)
Definition hashTypeSet (o : hashobj) (field value : list byte) : option (hashobj * bool) :=
  match o with
  | HashZL zl =>
      r ← hash_set_ziplist zl field value;
      let '(zl, update) := r in
      n ← hashTypeLength (HashZL zl);
      let '(o, len) := n in
      o ← (if len >? hash_max_ziplist_entries then hashTypeConvert o OBJ_ENCODING_HT else Some o);
      Some (o, update)
  | HashHT d =>
      r ← dictFind hash d field;
      let '(d, de) := r in
      match de with
      | Some _ => Some (HashHT (dictSetVal d field value), true)
      | None => r ← dictAdd hash [] dict_can_resize d field value; Some (HashHT r.1, false)
      end
  end.

(** Returns the object and whether the field was there. *)
Definition hashTypeDelete (o : hashobj) (field : list byte) : option (hashobj * bool) :=
  match o with
  | HashZL zl =>
      fptr ← find_field zl field;
      match fptr with
      | Some fptr =>
          r ← ziplistDelete junk zl fptr;
          let '(zl, fptr) := r in
          r ← ziplistDelete junk zl fptr;
          Some (HashZL r.1, true)
      | None => Some (o, false)
      end
  | HashHT d =>
      r ← dictDelete hash d field;
      let '(d, ok) := r in
      if (ok : bool) then
        if htNeedsResize d then q ← dictResize dict_can_resize d; Some (HashHT q.1, true)
        else Some (HashHT d, true)
      else Some (HashHT d, false)
  end.

(** ** Commands *)

(** What lookupKeyRead() and lookupKeyWrite() find at the key. *)
Inductive keyval := KNone | KHash (o : hashobj) | KOther.

(** What a handler leaves: the value at the key (none when the key is deleted), the
    replies, the changes counted in [server.dirty], whether the key was signalled as
    modified, the events. *)
Record outcome := mkOutcome {
  out_key : keyval;
  out_replies : list answer;
  out_dirty : Z;
  out_signal : bool;
  out_events : list string
}.

(** A handler that only replies. *)
Definition reads (k : keyval) (replies : list answer) : option outcome := Some (mkOutcome k replies 0 false []).

Definition wrongtypeerr : answer :=
  Raw (OSds (bytes_of "-WRONGTYPE Operation against a key holding the wrong kind of value" ++ CRLF)).
Definition shared_ok : answer := Raw (OSds (bytes_of "+OK" ++ CRLF)).
Definition emptymultibulk : answer := Raw (OSds (bytes_of "*0" ++ CRLF)).
Definition nullbulk : answer := Raw shared_nullbulk.
Definition czero : answer := Raw shared_czero.
Definition cone : answer := Raw shared_cone.

(** The inner [None] is the reply that the type is wrong. *)
Definition hashTypeLookupWriteOrCreate (k : keyval) : option (option hashobj) :=
  match k with
  | KNone => o ← createHashObject; Some (Some o)
  | KHash o => Some (Some o)
  | KOther => Some None
  end.

(** lookupKeyReadOrReply() or lookupKeyWriteOrReply(), then checkType(). *)
Definition lookup_hash (k : keyval) (missing : answer) : hashobj + answer :=
  match k with KNone => inr missing | KHash o => inl o | KOther => inr wrongtypeerr end.

Definition hsetnxCommand (k : keyval) (argv : list (list byte)) : option outcome :=
  r ← hashTypeLookupWriteOrCreate k;
  match r with
  | None => reads k [wrongtypeerr]
  | Some o =>
      field ← argv !! 2%nat; value ← argv !! 3%nat;
      o ← hashTypeTryConversion o [OSds field; OSds value];
      r ← hashTypeExists o field;
      let '(o, exists_) := r in
      if (exists_ : bool) then reads (KHash o) [czero]
      else
        r ← hashTypeSet o field value;
        Some (mkOutcome (KHash r.1) [cone] 1 true ["hset"%string])
  end.

(** [for (i = 2; i < c->argc; i += 2)] *)
Fixpoint hset_loop (o : hashobj) (args : list (list byte)) (created : Z) : option (hashobj * Z) :=
  match args with
  | [] => Some (o, created)
  | [_] => None (* reads past the arguments *)
  | f :: v :: args =>
      r ← hashTypeSet o f v;
      let '(o, update) := r in
      hset_loop o args (s32 (created + (if (update : bool) then 0 else 1)))
  end.

Definition hsetCommand (k : keyval) (argv : list (list byte)) : option outcome :=
  if Z.of_nat (length argv) mod 2 =? 1 then reads k [Error (bytes_of "wrong number of arguments for HMSET")]
  else
    r ← hashTypeLookupWriteOrCreate k;
    match r with
    | None => reads k [wrongtypeerr]
    | Some o =>
        o ← hashTypeTryConversion o (OSds <$> drop 2 argv);
        r ← hset_loop o (drop 2 argv) 0;
        let '(o, created) := r in
        cmdname ← argv !! 0%nat;
        c1 ← getb (cmdname ++ [0]) 1;
        let reply := if (c1 =? 115) || (c1 =? 83) then Integer created else shared_ok in
        Some (mkOutcome (KHash o) [reply] 1 true ["hset"%string])
    end.

Definition hincrbyCommand (k : keyval) (argv : list (list byte)) : option outcome :=
  field ← argv !! 2%nat; increment ← argv !! 3%nat;
  match string2ll increment with
  | None => reads k [Error (bytes_of "value is not an integer or out of range")]
  | Some incr =>
      r ← hashTypeLookupWriteOrCreate k;
      match r with
      | None => reads k [wrongtypeerr]
      | Some o =>
          r ← hashTypeGetValue o field;
          let '(o, v) := r in
          match (match v with
                 | Some (HVStr vstr) => string2ll vstr
                 | Some (HVInt value) => Some value
                 | None => Some 0
                 end) with
          | None => reads (KHash o) [Error (bytes_of "hash value is not an integer")]
          | Some oldvalue =>
              if (incr <? 0) && (oldvalue <? 0) && (incr <? LLONG_MIN - oldvalue) ||
                 (incr >? 0) && (oldvalue >? 0) && (incr >? LLONG_MAX - oldvalue)
              then reads (KHash o) [Error (bytes_of "increment or decrement would overflow")]
              else
                let value := oldvalue + incr in
                x ← sdsfromlonglong junk value;
                new ← sds_bytes x;
                r ← hashTypeSet o field new;
                Some (mkOutcome (KHash r.1) [Integer value] 1 true ["hincrby"%string])
          end
      end
  end.

Definition addHashFieldToReply (o : option hashobj) (field : list byte) : option (option hashobj * answer) :=
  match o with
  | None => Some (None, nullbulk)
  | Some (HashZL zl) =>
      v ← hashTypeGetFromZiplist zl field;
      Some (o, match v with
               | None => nullbulk
               | Some (HVStr vstr) => BulkBuffer vstr
               | Some (HVInt vll) => BulkInteger vll
               end)
  | Some (HashHT d) =>
      r ← hashTypeGetFromHashTable d field;
      Some (Some (HashHT r.1), match r.2 with None => nullbulk | Some value => BulkBuffer value end)
  end.

Definition key_of (o : option hashobj) : keyval := match o with Some o => KHash o | None => KNone end.

Definition hgetCommand (k : keyval) (argv : list (list byte)) : option outcome :=
  field ← argv !! 2%nat;
  match lookup_hash k nullbulk with
  | inr reply => reads k [reply]
  | inl o => r ← addHashFieldToReply (Some o) field; reads (key_of r.1) [r.2]
  end.

Fixpoint hmget_loop (o : option hashobj) (fields : list (list byte)) : option (option hashobj * list answer) :=
  match fields with
  | [] => Some (o, [])
  | f :: fields =>
      r ← addHashFieldToReply o f;
      q ← hmget_loop r.1 fields;
      Some (q.1, r.2 :: q.2)
  end.

(** A key that is not there is an empty hash. *)
Definition hmgetCommand (k : keyval) (argv : list (list byte)) : option outcome :=
  let mget o := r ← hmget_loop o (drop 2 argv);
                reads (key_of r.1) (MultiBulkLen (Z.of_nat (length argv) - 2) :: r.2) in
  match k with
  | KOther => reads k [wrongtypeerr]
  | KNone => mget None
  | KHash o => mget (Some o)
  end.

(** The loop stops when the hash is empty; the last component is [keyremoved]. *)
Fixpoint hdel_loop (o : hashobj) (fields : list (list byte)) (deleted : Z) : option (hashobj * Z * bool) :=
  match fields with
  | [] => Some (o, deleted, false)
  | f :: fields =>
      r ← hashTypeDelete o f;
      let '(o, ok) := r in
      if (ok : bool) then
        n ← hashTypeLength o;
        let '(o, len) := n in
        if len =? 0 then Some (o, s32 (deleted + 1), true) else hdel_loop o fields (s32 (deleted + 1))
      else hdel_loop o fields deleted
  end.

Definition hdelCommand (k : keyval) (argv : list (list byte)) : option outcome :=
  match lookup_hash k czero with
  | inr reply => reads k [reply]
  | inl o =>
      r ← hdel_loop o (drop 2 argv) 0;
      let '(o, deleted, keyremoved) := r in
      let k := if (keyremoved : bool) then KNone else KHash o in
      Some (if negb (deleted =? 0)
            then mkOutcome k [Integer deleted] deleted true ("hdel" :: (if (keyremoved : bool) then ["del"] else []))%string
            else mkOutcome k [Integer deleted] 0 false [])
  end.

Definition hlenCommand (k : keyval) : option outcome :=
  match lookup_hash k czero with
  | inr reply => reads k [reply]
  | inl o => r ← hashTypeLength o; reads (KHash r.1) [Integer r.2]
  end.

Definition hstrlenCommand (k : keyval) (argv : list (list byte)) : option outcome :=
  field ← argv !! 2%nat;
  match lookup_hash k czero with
  | inr reply => reads k [reply]
  | inl o => r ← hashTypeGetValueLength o field; reads (KHash r.1) [Integer r.2]
  end.

Definition hexistsCommand (k : keyval) (argv : list (list byte)) : option outcome :=
  field ← argv !! 2%nat;
  match lookup_hash k czero with
  | inr reply => reads k [reply]
  | inl o => r ← hashTypeExists o field; reads (KHash r.1) [if (r.2 : bool) then cone else czero]
  end.

Definition addHashIteratorCursorToReply (o : hashobj) (hi : hashTypeIterator) (what : Z) : option answer :=
  match o, hi with
  | HashZL zl, HIzl cursor =>
      v ← hashTypeCurrentFromZiplist zl cursor what;
      Some (match v with HVStr vstr => BulkBuffer vstr | HVInt vll => BulkInteger vll end)
  | HashHT _, HIht _ de => value ← hashTypeCurrentFromHashTable de what; Some (BulkBuffer value)
  | _, _ => None
  end.

(** [if (flags & what) { addHashIteratorCursorToReply(c, hi, what); count++; }] *)
Definition hgetall_item (o : hashobj) (hi : hashTypeIterator) (flags what : Z) : option (list answer) :=
  if negb (Z.land flags what =? 0) then a ← addHashIteratorCursorToReply o hi what; Some [a] else Some [].

Fixpoint hgetall_loop (fuel : nat) (tables : Z * Z) (o : hashobj) (hi : hashTypeIterator) (flags : Z)
    : option (hashTypeIterator * list answer) :=
  match fuel with
  | O => None
  | S fuel =>
      r ← hashTypeNext tables o hi;
      let '(hi, ok) := r in
      if negb ok then Some (hi, [])
      else
        ks ← hgetall_item o hi flags OBJ_HASH_KEY;
        vs ← hgetall_item o hi flags OBJ_HASH_VALUE;
        r ← hgetall_loop fuel tables o hi flags;
        Some (r.1, ks ++ vs ++ r.2)
  end.

(** The length is announced first; the number of elements sent is asserted. *)
Definition genericHgetallCommand (fuel : nat) (tables : Z * Z) (k : keyval) (flags : Z) : option outcome :=
  match lookup_hash k emptymultibulk with
  | inr reply => reads k [reply]
  | inl o =>
      let multiplier := (if negb (Z.land flags OBJ_HASH_KEY =? 0) then 1 else 0) +
                        (if negb (Z.land flags OBJ_HASH_VALUE =? 0) then 1 else 0) in
      n ← hashTypeLength o;
      let '(o, len) := n in
      let length := s32 (len * multiplier) in
      r ← hgetall_loop fuel tables o (hashTypeInitIterator o) flags;
      o ← hashTypeReleaseIterator tables o r.1;
      if s32 (Z.of_nat (List.length r.2)) =? length then reads (KHash o) (MultiBulkLen length :: r.2) else None
  end.

Definition hkeysCommand (fuel : nat) (tables : Z * Z) (k : keyval) := genericHgetallCommand fuel tables k OBJ_HASH_KEY.
Definition hvalsCommand (fuel : nat) (tables : Z * Z) (k : keyval) := genericHgetallCommand fuel tables k OBJ_HASH_VALUE.
Definition hgetallCommand (fuel : nat) (tables : Z * Z) (k : keyval) := genericHgetallCommand fuel tables k (Z.lor OBJ_HASH_KEY OBJ_HASH_VALUE).

(** *** HINCRBYFLOAT *)

(** The C library's [long double], whose format depends on the platform: what
    strtold() returns, how many characters it reads and errno; the classification, conversion and addition of numbers; what "%.17Lf" prints. *)
Record long_double := mkLongDouble {
  LD : Type;
  strtold : list byte -> LD * Z * Z;
  ld_isnan : LD -> bool;
  ld_isinf : LD -> bool;
  ld_extreme : LD -> bool;                     (* HUGE_VAL, -HUGE_VAL or 0 *)
  ld_positive : LD -> bool;
  ld_of_ll : Z -> LD;
  ld_add : LD -> LD -> LD;
  ld_print : LD -> list byte
}.

Definition EINVAL : Z := 22.
Definition ERANGE : Z := 34.
Definition MAX_LONG_DOUBLE_CHARS : Z := 5 * 1024.

Definition getLongDoubleFromObject (F : long_double) (o : robj) : option (LD F) :=
  match o with
  | OSds p =>
      let '(value, consumed, errno) := strtold F (p ++ [0]) in
      match p with
      | [] => None
      | c :: _ =>
          if isspace c || negb (consumed =? Z.of_nat (length p)) || (errno =? ERANGE) && ld_extreme F value || ld_isnan F value
          then None else Some value
      end
  | OInt n => Some (ld_of_ll F n)
  end.

(** The text is copied and terminated; [eptr[0]] is the character strtold() stopped at. *)
Definition string2ld (F : long_double) (s : list byte) : option (LD F) :=
  if Z.of_nat (length s) >=? MAX_LONG_DOUBLE_CHARS then None
  else
    let buf := s ++ [0] in
    let '(value, consumed, errno) := strtold F buf in
    c0 ← getb buf 0;
    e0 ← getb buf consumed;
    if isspace c0 || negb (e0 =? 0) || (errno =? ERANGE) && ld_extreme F value || (errno =? EINVAL) || ld_isnan F value then None else Some value.

(** Trailing zeroes, counted from the end of the text. *)
Fixpoint trim_zeroes (rev_text : list byte) : list byte :=
  match rev_text with 48 :: rest => trim_zeroes rest | _ => rev_text end.

(** [ld2string(buf, len, value, 1)], the text it leaves. *)
Definition ld2string_human (F : long_double) (len : Z) (value : LD F) : list byte :=
  if ld_isinf F value then
    if len <? 5 then [] else if ld_positive F value then bytes_of "inf" else bytes_of "-inf"
  else
    let text := ld_print F value in
    if Z.of_nat (length text) + 1 >? len then []
    else if bool_decide (46 ∈ text) then
      rev (match trim_zeroes (rev text) with 46 :: rest => rest | rest => rest end)
    else text.

(** The outcome, and the command that is propagated when it is rewritten. *)
Definition hincrbyfloatCommand (F : long_double) (k : keyval) (argv : list (list byte)) : option (outcome * option (list (list byte))) :=
  let only r := o ← r; Some (o, None) in
  field ← argv !! 2%nat; increment ← argv !! 3%nat;
  match getLongDoubleFromObject F (OSds increment) with
  | None => only (reads k [Error (bytes_of "value is not a valid float")])
  | Some incr =>
      r ← hashTypeLookupWriteOrCreate k;
      match r with
      | None => only (reads k [wrongtypeerr])
      | Some o =>
          r ← hashTypeGetValue o field;
          let '(o, v) := r in
          match (match v with
                 | Some (HVStr vstr) => string2ld F vstr
                 | Some (HVInt ll) => Some (ld_of_ll F ll)
                 | None => Some (ld_of_ll F 0)
                 end) with
          | None => only (reads (KHash o) [Error (bytes_of "hash value is not a float")])
          | Some value =>
              let value := ld_add F value incr in
              if ld_isnan F value || ld_isinf F value
              then only (reads (KHash o) [Error (bytes_of "increment would produce NaN or Infinity")])
              else
                let buf := ld2string_human F MAX_LONG_DOUBLE_CHARS value in
                x ← sdsnewlen junk (InitBytes buf) (Z.of_nat (length buf));
                new ← sds_bytes x;
                r ← hashTypeSet o field new;
                Some (mkOutcome (KHash r.1) [BulkBuffer buf] 1 true ["hincrbyfloat"%string],
                      Some (<[3%nat := buf]> (<[0%nat := bytes_of "HSET"]> argv)))
          end
      end
  end.


(** ** Representation *)

(** Fields and values in turn. *)
Definition flat (kvs : list (list byte * list byte)) : list (list byte) := kvs ≫= (fun kv : list byte * list byte => [kv.1; kv.2]).

(** The ziplist holds the pairs, each field once, few of them and short ones. *)
Context (lim : Z).
Record zl_pairs (zl : list byte) (kvs : list (list byte * list byte)) : Prop := {
  zp_holds : zl_holds zl (flat kvs);
  zp_nodup : NoDup kvs.*1;
  zp_count : Z.of_nat (length kvs) <= hash_max_ziplist_entries;
  zp_short : Forall (fun kv : list byte * list byte => Z.of_nat (length kv.1) <= lim /\ Z.of_nat (length kv.2) <= lim) kvs
}.

(** The object is well formed and stands for the map [m]; [B] bounds its size. *)
Definition hash_models (o : hashobj) (m : gmap (list byte) (list byte)) (B : Z) : Prop :=
  match o with
  | HashZL zl => exists kvs, zl_pairs zl kvs /\ m = list_to_map kvs /\ zbound (flat kvs) <= B
  | HashHT d => Dict.models hash d m /\ 36 * Z.of_nat (size m) <= B
  end.

Lemma hflat_app kvs1 kvs2 : flat (kvs1 ++ kvs2) = flat kvs1 ++ flat kvs2.
Proof. apply bind_app. Qed.

Lemma hflat_length kvs : length (flat kvs) = (2 * length kvs)%nat.
Proof. induction kvs as [|kv kvs IH]; [done|]. cbn in *. unfold flat in IH. lia. Qed.

Lemma find_flat kvs f :
  (exists A v B, kvs = A ++ (f, v) :: B /\ (f ∉ A.*1) /\ find_spec (flat kvs) f 1 0 = Some (length (flat A))) \/
  ((f ∉ kvs.*1) /\ find_spec (flat kvs) f 1 0 = None).
Proof.
  induction kvs as [|[k v] kvs IH]; [right; split; [set_solver|done]|].
  change (flat ((k, v) :: kvs)) with (k :: v :: flat kvs). cbn [find_spec]. case_bool_decide as E.
  - subst k. left. exists [], v, kvs. split_and!; [done|set_solver|done].
  - destruct IH as [(A & w & B & -> & HA & ->)|[Hn ->]].
    + left. exists ((k, v) :: A), w, B. split_and!; [done|set_solver|done].
    + right. split; [set_solver|done].
Qed.

Lemma find_field_spec zl rs kvs f : zl_repr zl rs -> rs.*2 = flat kvs ->
  (exists A v B rsA rf rv rsB, kvs = A ++ (f, v) :: B /\ (f ∉ A.*1) /\ rs = rsA ++ rf :: rv :: rsB /\ rsA.*2 = flat A /\
     rf.2 = f /\ rv.2 = v /\ rsB.*2 = flat B /\ find_field zl f = Some (Some (zpos rsA))) \/
  ((f ∉ kvs.*1) /\ find_field zl f = Some None).
Proof.
  intros Hr Hf. unfold find_field. change ZIPLIST_HEAD with 0. rewrite (index_repr zl rs 0 Hr) by done. cbn [mbind option_bind].
  assert (index_of rs.*2 0 = match rs with [] => None | _ => Some O end) as ->.
  { unfold index_of. destruct rs as [|r rs]; [done|]. change (0 <? 0) with false. cbv zeta iota.
    rewrite (proj2 (Z.ltb_lt 0 (Z.of_nat (length (r :: rs).*2)))) by (rewrite length_fmap; simpl; lia). done. }
  pose proof (find_repr zl [] rs f 1 Hr) as Hfind. rewrite Hf in Hfind. change (Z.of_nat 1) with 1 in Hfind.
  destruct (find_flat kvs f) as [(A & v & B & -> & HA & E)|[Hn E]].
  - left. rewrite hflat_app in Hf. change (flat ((f, v) :: B)) with (f :: v :: flat B) in Hf.
    apply fmap_app_inv in Hf as (rsA & rs' & HrA & Hr' & ->). symmetry in Hr'.
    apply fmap_cons_inv in Hr' as (rf & rs1 & -> & Hr1 & ->). symmetry in Hr1.
    apply fmap_cons_inv in Hr1 as (rv & rsB & -> & HrB & ->).
    exists A, rv.2, B, rsA, rf, rv, rsB. split_and!; try done.
    destruct (rsA ++ rf :: rv :: rsB) as [|r0 rest] eqn:Ers; [by destruct rsA|]. rewrite <- Ers in *.
    cbn [fmap option_fmap option_map]. change (zpos (take 0 (rsA ++ rf :: rv :: rsB))) with (zpos []). rewrite Hfind by done. rewrite E.
    cbn [fmap option_fmap option_map app]. rewrite HrA, length_fmap, take_app_length. done.
  - right. split; [done|]. destruct rs as [|r rs]; [done|]. cbn [fmap option_fmap option_map].
    change (zpos (take 0 (r :: rs))) with (zpos []). rewrite Hfind by done. by rewrite E.
Qed.

Lemma value_ptr_spec zl rsA rf rv rsB : zl_repr zl (rsA ++ rf :: rv :: rsB) -> value_ptr zl (zpos rsA) = Some (zpos (rsA ++ [rf])).
Proof. intros Hr. unfold value_ptr. rewrite (znext_repr zl rsA rf (rv :: rsB) Hr). done. Qed.

(** The string a value stands for. *)
Definition hv_bytes (v : hash_value) : list byte := match v with HVStr s => s | HVInt n => decimal n end.
Definition hv_ok (v : hash_value) : Prop := match v with HVStr s => Z.of_nat (length s) < 2 ^ 32 | HVInt n => in_s 64 n end.

Lemma get_entry_spec zl rs1 r rs2 : zl_repr zl (rs1 ++ r :: rs2) -> exists v, get_entry zl (zpos rs1) = Some v /\ hv_bytes v = r.2 /\ hv_ok v /\
  v = match string2ll r.2 with Some n => HVInt n | None => HVStr r.2 end.
Proof.
  intros Hr. unfold get_entry. destruct (zvalue_repr zl rs1 r rs2 Hr) as (v & -> & Hv). cbn [mbind option_bind].
  destruct v as [p n|n]; [destruct Hv as [-> Es]|destruct Hv as (Es & Hn & E)]; cbn [mbind option_bind]; rewrite Es; eexists; split_and!; try done.
  apply repr_elements in Hr. rewrite fmap_app in Hr. apply Forall_app in Hr as [_ Hr]. apply Forall_cons in Hr as [Hr _]. unfold zele_ok in Hr. cbn. lia.
Qed.

Implicit Types m : gmap (list byte) (list byte).
Implicit Types kvs : list (list byte * list byte).

Lemma split_map A f v B : NoDup (A ++ (f, v) :: B).*1 -> let m0 := list_to_map (A ++ B) : gmap (list byte) (list byte) in
  m0 !! f = None /\ NoDup (A ++ B).*1 /\ forall w, NoDup (A ++ (f, w) :: B).*1 /\ list_to_map (A ++ (f, w) :: B) = <[f:=w]> m0.
Proof.
  intros Hnd m0. assert (forall w, (A ++ (f, w) :: B).*1 ≡ₚ f :: (A ++ B).*1) as Hp.
  { intros w. rewrite !fmap_app. cbn. by rewrite Permutation_middle. }
  pose proof Hnd as Hnd'. rewrite Hp in Hnd'. apply NoDup_cons in Hnd' as [Hf Hab]. split_and!; [by apply not_elem_of_list_to_map_1|done|].
  intros w. split; [rewrite Hp; by constructor|].
  rewrite (list_to_map_proper (A ++ (f, w) :: B) ((f, w) :: A ++ B)); [done| |by rewrite Permutation_middle].
  rewrite Hp. by constructor.
Qed.

Lemma size_kvs kvs : NoDup kvs.*1 -> size (list_to_map kvs : gmap (list byte) (list byte)) = length kvs.
Proof. intros. rewrite map_size_list_to_map; [done|done]. Qed.

Lemma holds_ok zl es : zl_holds zl es -> Forall zele_ok es.
Proof. intros (rs & Hr & <-). by apply (repr_elements zl). Qed.

(** ** Look-up *)

Definition stored (s : list byte) : hash_value := match string2ll s with Some n => HVInt n | None => HVStr s end.

Lemma stored_bytes s : hv_bytes (stored s) = s.
Proof. unfold stored. destruct (string2ll s) as [n|] eqn:E; [|done]. by apply string2ll_sound in E as [_ ->]. Qed.

Lemma get_zl_spec zl kvs f : zl_pairs zl kvs ->
  hashTypeGetFromZiplist zl f = Some (stored <$> (list_to_map kvs : gmap (list byte) (list byte)) !! f).
Proof.
  intros [(rs & Hr & Hf) Hnd _ _]. unfold hashTypeGetFromZiplist.
  destruct (find_field_spec zl rs kvs f Hr Hf) as [(A & v & B & rsA & rf & rv & rsB & -> & _ & -> & _ & _ & Hv & _ & ->)|[Hn ->]].
  - cbn [mbind option_bind]. rewrite (value_ptr_spec zl rsA rf rv rsB Hr). cbn [mbind option_bind].
    rewrite (app_assoc rsA [rf] (rv :: rsB) : rsA ++ rf :: rv :: rsB = _) in Hr.
    destruct (get_entry_spec zl (rsA ++ [rf]) rv rsB Hr) as (w & -> & _ & _ & ->). cbn [mbind option_bind].
    destruct (split_map A f v B Hnd) as (_ & _ & Hm). destruct (Hm v) as [_ ->]. rewrite lookup_insert_eq. cbn. by rewrite Hv.
  - cbn [mbind option_bind]. by rewrite not_elem_of_list_to_map_1.
Qed.

Lemma get_ht_spec d m f : Dict.models hash d m ->
  exists d', hashTypeGetFromHashTable d f = Some (d', m !! f) /\ Dict.models hash d' m.
Proof.
  intros Hm. unfold hashTypeGetFromHashTable. destruct (dictFind_spec hash d m f Hm) as (d' & -> & Hm').
  exists d'. cbn [mbind option_bind fst snd]. split; [|done]. by destruct (m !! f).
Qed.

(** Integers are returned only for texts that are read back as them. *)
Definition hv_faithful (v : hash_value) : Prop := match v with HVInt n => string2ll (decimal n) = Some n | HVStr _ => True end.

Lemma hashTypeGetValue_spec o m B f : hash_models o m B ->
  exists o' v, hashTypeGetValue o f = Some (o', v) /\ hash_models o' m B /\ hv_bytes <$> v = m !! f /\
    (forall w, v = Some w -> hv_faithful w) /\ ((exists zl, o' = HashZL zl) -> exists zl, o = HashZL zl).
Proof.
  destruct o as [zl|d]; cbn [hash_models hashTypeGetValue].
  - intros (kvs & Hp & -> & Hb). rewrite (get_zl_spec zl kvs f Hp). cbn [mbind option_bind]. eexists _, _.
    split; [done|]. split; [by exists kvs|]. split; [|split; [|by exists zl]].
    + destruct (list_to_map kvs !! f) as [s|]; [|done]. cbn. by rewrite stored_bytes.
    + intros w. destruct (list_to_map kvs !! f) as [s|]; [|done]. intros [= <-]. unfold stored.
      destruct (string2ll s) as [n|] eqn:E; [|done]. cbn. pose proof E as E'. by apply string2ll_sound in E' as [_ <-].
  - intros [Hm Hb]. destruct (get_ht_spec d m f Hm) as (d' & -> & Hm'). cbn [mbind option_bind fst snd]. eexists _, _.
    split; [done|]. split; [done|]. split; [by destruct (m !! f)|]. split; [|by intros [? [=]]]. destruct (m !! f); by intros ? [= <-].
Qed.

Lemma hashTypeExists_spec o m B f : hash_models o m B ->
  exists o', hashTypeExists o f = Some (o', bool_decide (is_Some (m !! f))) /\ hash_models o' m B /\
    ((exists zl, o' = HashZL zl) -> exists zl, o = HashZL zl).
Proof.
  destruct o as [zl|d]; cbn [hash_models hashTypeExists].
  - intros (kvs & Hp & -> & Hb). rewrite (get_zl_spec zl kvs f Hp). cbn [mbind option_bind]. exists (HashZL zl).
    split; [|by split; [exists kvs|]]. do 2 f_equal. apply bool_decide_ext. by rewrite fmap_is_Some.
  - intros [Hm Hb]. destruct (get_ht_spec d m f Hm) as (d' & -> & Hm'). exists (HashHT d'). by split_and!; [..|intros [? [=]]].
Qed.

Lemma hashTypeGetValueLength_spec o m B f : hash_models o m B ->
  exists o', hashTypeGetValueLength o f = Some (o', match m !! f with Some s => Z.of_nat (length s) | None => 0 end) /\ hash_models o' m B.
Proof.
  destruct o as [zl|d]; cbn [hash_models hashTypeGetValueLength].
  - intros (kvs & Hp & -> & Hb). rewrite (get_zl_spec zl kvs f Hp). cbn [mbind option_bind]. exists (HashZL zl).
    split; [|by exists kvs]. do 2 f_equal. destruct (list_to_map kvs !! f) as [s|]; [|done]. cbn. unfold stored.
    destruct (string2ll s) as [n|] eqn:E; [|done]. apply string2ll_sound in E as [Hn ->]. by apply sdigits10_correct.
  - intros [Hm Hb]. destruct (get_ht_spec d m f Hm) as (d' & -> & Hm'). by exists (HashHT d').
Qed.

Lemma length_zl_spec zl kvs : zl_holds zl (flat kvs) ->
  exists zl', hashTypeLength (HashZL zl) = Some (HashZL zl', Z.of_nat (length kvs)) /\ zl_holds zl' (flat kvs).
Proof.
  intros (rs & Hr & Hf). cbn [hashTypeLength]. destruct (len_repr zl rs Hr) as (zl' & -> & Hr').
  cbn [mbind option_bind fst snd]. exists zl'. split; [|by exists rs]. do 2 f_equal.
  pose proof (f_equal length Hf) as Hl. rewrite length_fmap, hflat_length in Hl. rewrite Hl.
  rewrite Nat2Z.inj_mul, Z.mul_comm. by apply Z.div_mul.
Qed.

Lemma hashTypeLength_spec o m B : hash_models o m B ->
  exists o', hashTypeLength o = Some (o', Z.of_nat (size m)) /\ hash_models o' m B.
Proof.
  destruct o as [zl|d]; cbn [hash_models].
  - intros (kvs & [Hh Hnd Hc Hs] & -> & Hb). destruct (length_zl_spec zl kvs Hh) as (zl' & -> & Hh').
    exists (HashZL zl'). rewrite size_kvs by done. split; [done|]. by exists kvs.
  - intros [Hm Hb]. exists (HashHT d). cbn [hashTypeLength]. by rewrite (dictSize_models hash d m Hm).
Qed.

(** ** Iteration *)

(** The iterator has exactly the pairs [kvs] left. *)
Definition hiter_left (tables : Z * Z) (o : hashobj) (hi : hashTypeIterator) kvs : Prop :=
  match o, hi with
  | HashZL zl, HIzl cursor =>
      exists rsA rsB, zl_repr zl (rsA ++ rsB) /\ rsB.*2 = flat kvs /\
        match cursor with
        | None => rsA = []
        | Some (fptr, vptr) => exists rsA' rf rv, rsA = rsA' ++ [rf; rv] /\ fptr = zpos rsA' /\ vptr = zpos (rsA' ++ [rf])
        end
  | HashHT d, HIht di _ => walkable d /\ iter_inv tables d di /\ it_safe di = false /\ kvs = remaining d di
  | _, _ => False
  end.

(** What the iterator points to, in the three ways the code reads it. *)
Record current (o : hashobj) (hi : hashTypeIterator) (what : Z) (s : list byte) : Prop := {
  cur_value : exists v, hashTypeCurrentObject o hi what = Some v /\ hv_bytes v = s;
  cur_sds : match o with HashZL _ => hashTypeCurrentObjectNewSds o hi what = Some s | HashHT _ => True end;
  cur_reply : exists a, addHashIteratorCursorToReply o hi what = Some a /\ Reply.encode a = Reply.encode (BulkBuffer s)
}.

Lemma new_sds_spec v : hv_ok v -> new_sds v = Some (hv_bytes v).
Proof.
  destruct v as [s|n]; cbn [hv_ok new_sds hv_bytes]; intros Hv.
  - destruct (sdsnewlen_spec junk s []) as (x & Hx & [_ Hl _ [tail Hb]]); [unfold max_sds; lia|]. rewrite app_nil_r in Hx.
    rewrite Hx. cbn [mbind option_bind]. unfold sds_bytes. rewrite Hl, Hb. by apply load_prefix.
  - destruct (sdsfromlonglong_key junk n Hv) as (x & -> & Hx). done.
Qed.

Lemma current_zl zl rs1 r rs2 fptr vptr what : zl_repr zl (rs1 ++ r :: rs2) ->
  (if negb (Z.land what OBJ_HASH_KEY =? 0) then fptr else vptr) = zpos rs1 ->
  current (HashZL zl) (HIzl (Some (fptr, vptr))) what r.2.
Proof.
  intros Hr Hp. destruct (get_entry_spec zl rs1 r rs2 Hr) as (v & Hg & Hv & Hok & _).
  assert (hashTypeCurrentFromZiplist zl (Some (fptr, vptr)) what = Some v) as Hc by (cbn; by rewrite Hp).
  split; cbn [hashTypeCurrentObject addHashIteratorCursorToReply].
  - exists v. by rewrite Hc.
  - unfold hashTypeCurrentObjectNewSds. cbn [hashTypeCurrentObject]. rewrite Hc. cbn [mbind option_bind]. by rewrite new_sds_spec, Hv.
  - rewrite Hc. cbn [mbind option_bind]. eexists. split; [done|]. rewrite <- Hv. by destruct v.
Qed.

Lemma current_ht d di e what : current (HashHT d) (HIht di (Some e)) what (if negb (Z.land what OBJ_HASH_KEY =? 0) then e.1 else e.2).
Proof. split; [by eexists|done|by eexists]. Qed.

Lemma hashTypeNext_spec tables o hi kvs : hiter_left tables o hi kvs ->
  exists hi', hashTypeNext tables o hi = Some (hi', bool_decide (is_Some (head kvs))) /\ hiter_left tables o hi' (tail kvs) /\
    match kvs with [] => True | kv :: _ => current o hi' OBJ_HASH_KEY kv.1 /\ current o hi' OBJ_HASH_VALUE kv.2 end.
Proof.
  destruct o as [zl|d], hi as [cursor|di de]; try done.
  - intros (rsA & rsB & Hr & Hf & Hc). cbn [hashTypeNext].
    assert (match cursor with None => ziplistIndex zl 0 | Some (_, vptr) => ziplistNext zl vptr end = Some (zcursor rsA rsB)) as ->.
    { destruct cursor as [[fptr vptr]|].
      - destruct Hc as (rsA' & rf & rv & -> & _ & ->). assert (rsA' ++ [rf; rv] = (rsA' ++ [rf]) ++ [rv]) as E by (by rewrite <- app_assoc).
        rewrite E in *. rewrite <- (app_assoc _ [rv] rsB) in Hr. by rewrite (znext_repr zl (rsA' ++ [rf]) rv rsB Hr).
      - subst rsA. rewrite (index_repr zl rsB 0 Hr) by done. cbn [app]. unfold index_of. change (0 <? 0) with false. cbv zeta iota.
        destruct rsB as [|r rs]; [done|]. rewrite (proj2 (Z.ltb_lt 0 (Z.of_nat (length (r :: rs).*2)))) by (rewrite length_fmap; simpl; lia). done. }
    cbn [mbind option_bind]. destruct kvs as [|[k v] kvs].
    + destruct rsB; [|done]. cbn [zcursor head]. eexists. split; [by rewrite bool_decide_eq_false_2 by (by intros [? [=]])|].
      split; [|done]. cbn [tail hiter_left]. by exists rsA, [].
    + change (flat ((k, v) :: kvs)) with (k :: v :: flat kvs) in Hf. destruct rsB as [|rf [|rv rsB]]; [done|done|].
      injection Hf as <- <- Hf. cbn [zcursor]. rewrite (value_ptr_spec zl rsA rf rv rsB Hr). cbn [mbind option_bind].
      eexists. split; [by rewrite bool_decide_eq_true_2 by done|]. cbn [tail fst snd]. split_and!.
      * exists (rsA ++ [rf; rv]), rsB. rewrite <- app_assoc. split_and!; [done|done|]. by exists rsA, rf, rv.
      * by apply (current_zl zl rsA rf (rv :: rsB)).
      * apply (current_zl zl (rsA ++ [rf]) rv rsB); [by rewrite <- app_assoc|done].
  - intros (Hw & Hinv & Hs & ->). cbn [hashTypeNext]. destruct (dictNext_spec tables d di Hw Hinv) as (di' & Hn & Hinv' & Hrem & Hs').
    assert (counted d di = d) as Hcd by (unfold counted; by rewrite Hs). rewrite Hcd in Hn. rewrite Hn. cbn [mbind option_bind fst snd].
    eexists. split; [done|]. split; [split_and!; [done|done|congruence|done]|].
    destruct (remaining d di) as [|e es]; [done|]. split; apply (current_ht d di' e).
Qed.

Lemma hashTypeInitIterator_spec tables o m B : hash_models o m B ->
  exists kvs, hiter_left tables o (hashTypeInitIterator o) kvs /\ NoDup kvs.*1 /\ m = list_to_map kvs.
Proof.
  destruct o as [zl|d].
  - intros (kvs & [(rs & Hr & Hf) Hnd _ _] & -> & _). exists kvs. split_and!; [|done|done]. by exists [], rs.
  - intros [Hm _]. set (it := dictGetIterator : dictIterator (K := list byte) (V := list byte)). exists (remaining d it).
    assert (remaining d it = dict_entries d) as -> by (by apply (fresh_remaining hash d m false)). split_and!.
    + cbn. split_and!; [by apply (state_walkable hash), (m_state _ _ _ Hm)|by split; [left|..]|done|].
      symmetry. by apply (fresh_remaining hash d m false).
    + rewrite (m_entries _ _ _ Hm). apply NoDup_fst_map_to_list.
    + symmetry. rewrite (list_to_map_proper _ (map_to_list m)); [by apply list_to_map_to_list| |by apply (m_entries _ _ _ Hm)].
      rewrite (m_entries _ _ _ Hm). apply NoDup_fst_map_to_list.
Qed.


Lemma hashTypeReleaseIterator_spec tables o hi kvs : hiter_left tables o hi kvs -> hashTypeReleaseIterator tables o hi = Some o.
Proof.
  destruct o as [zl|d], hi as [c|di de]; try done. intros (_ & [_ Hfp _] & Hs & _). cbn [hashTypeReleaseIterator].
  unfold dictReleaseIterator. fold (started di). rewrite Hs. destruct (started di) eqn:Es; [|done]. by rewrite Hfp, Z.eqb_refl.
Qed.

(** ** Conversion *)

Lemma hash_convert_loop_spec zl fuel : forall hi kvs d done_, hiter_left (0, 0) (HashZL zl) hi kvs -> (length kvs < fuel)%nat ->
  Dict.models hash d (list_to_map done_) -> NoDup (done_ ++ kvs).*1 -> Z.of_nat (length (done_ ++ kvs)) < max_entries ->
  exists d', hash_convert_loop fuel (0, 0) (HashZL zl) hi d = Some d' /\ Dict.models hash d' (list_to_map (done_ ++ kvs)).
Proof.
  induction fuel as [|fuel IH]; intros hi kvs d done_ Hl Hfuel Hm Hnd Hmax; [lia|]. cbn [hash_convert_loop].
  destruct (hashTypeNext_spec _ _ _ _ Hl) as (hi' & -> & Hl' & Hc). cbn [mbind option_bind].
  destruct kvs as [|[k v] kvs]; cbn [head tail fst snd] in *.
  { rewrite bool_decide_eq_false_2 by (by intros [? [=]]). exists d. by rewrite app_nil_r. }
  rewrite bool_decide_eq_true_2 by done. cbn [negb]. destruct Hc as [[_ Hk _] [_ Hv _]]. rewrite Hk, Hv. cbn [mbind option_bind].
  assert (done_ ++ (k, v) :: kvs = (done_ ++ [(k, v)]) ++ kvs) as E by (by rewrite <- app_assoc). rewrite E in *.
  assert (k ∉ done_.*1) as Hkd.
  { intros Hin. rewrite !fmap_app in Hnd. apply NoDup_app in Hnd as (Hnd & _). apply NoDup_app in Hnd as (_ & Hnd & _). apply (Hnd k Hin). cbn. set_solver. }
  assert (NoDup done_.*1) as Hnd0 by (rewrite !fmap_app in Hnd; apply NoDup_app in Hnd as (Hnd & _); by apply NoDup_app in Hnd as (? & _)).
  destruct (dictAdd_spec hash [] dict_can_resize d _ k v Hm) as (d' & -> & Hm').
  { rewrite size_kvs by done. rewrite !length_app in Hmax. cbn [length] in Hmax. lia. }
  rewrite (not_elem_of_list_to_map_1 done_ k) in * by done. rewrite bool_decide_eq_true_2 by done. cbn [mbind option_bind].
  rewrite <- list_to_map_snoc in Hm' by done. apply IH; try done. cbn [length] in Hfuel. lia.
Qed.

Lemma kvs_bound kvs : 11 + 36 * Z.of_nat (length kvs) <= zbound (flat kvs).
Proof.
  induction kvs as [|kv kvs IH]; [unfold zbound; simpl; lia|]. change (flat (kv :: kvs)) with ([kv.1; kv.2] ++ flat kvs).
  rewrite zbound_app. unfold zbound at 1. cbn [length sum_list_with]. lia.
Qed.

Lemma convert_zl_spec zl kvs B : zl_holds zl (flat kvs) -> NoDup kvs.*1 -> zbound (flat kvs) <= B -> B < 2 ^ 32 ->
  exists d, hashTypeConvert (HashZL zl) OBJ_ENCODING_HT = Some (HashHT d) /\ hash_models (HashHT d) (list_to_map kvs) B.
Proof.
  intros (rs & Hr & Hf) Hnd Hb HB. pose proof (kvs_bound kvs) as Hk. pose proof (zrepr_fuel zl rs Hr) as Hfuel.
  pose proof (f_equal length Hf) as Hl. rewrite length_fmap, hflat_length in Hl.
  cbn [hashTypeConvert]. unfold hashTypeConvertZiplist. change (OBJ_ENCODING_HT =? OBJ_ENCODING_ZIPLIST) with false.
  change (OBJ_ENCODING_HT =? OBJ_ENCODING_HT) with true. cbv iota.
  destruct (hash_convert_loop_spec zl (length zl) (hashTypeInitIterator (HashZL zl)) kvs dictCreate []) as (d & -> & Hd).
  - by exists [], rs.
  - lia.
  - apply dictCreate_models.
  - done.
  - cbn [app]. unfold max_entries. lia.
  - exists d. split; [done|]. split; [done|]. rewrite size_kvs by done. lia.
Qed.

(** ** Changes *)

Definition pair_cost (f v : list byte) : Z := 36 + Z.of_nat (length f) + Z.of_nat (length v).

Lemma zbound_pair A f v B : zbound (flat (A ++ (f, v) :: B)) = zbound (flat (A ++ B)) + pair_cost f v.
Proof.
  rewrite !hflat_app, !zbound_app. change (flat ((f, v) :: B)) with ([f; v] ++ flat B). rewrite zbound_app.
  unfold zbound at 2. cbn [sum_list_with]. unfold pair_cost. lia.
Qed.

Lemma zbound_ge es : 11 <= zbound es.
Proof. unfold zbound. lia. Qed.

Lemma NoDup_pairs_snoc kvs f (v : list byte) : NoDup kvs.*1 -> f ∉ kvs.*1 -> NoDup (kvs ++ [(f, v)]).*1.
Proof. intros Hnd Hf. rewrite fmap_app. apply NoDup_app. split_and!; [done|set_solver|]. cbn. apply NoDup_singleton. Qed.

(** The part of hashTypeSet() that changes the ziplist. *)
Lemma set_zl_spec zl kvs f v : zl_holds zl (flat kvs) -> NoDup kvs.*1 -> zbound (flat kvs) + pair_cost f v < 2 ^ 32 ->
  exists zl' kvs', hash_set_ziplist zl f v = Some (zl', bool_decide (is_Some ((list_to_map kvs : gmap (list byte) (list byte)) !! f))) /\
    zl_holds zl' (flat kvs') /\ NoDup kvs'.*1 /\ (forall kv, kv ∈ kvs' -> kv ∈ kvs \/ kv.2 = v /\ (kv.1 = f \/ kv.1 ∈ kvs.*1)) /\
    zbound (flat kvs') <= zbound (flat kvs) + pair_cost f v /\
    list_to_map kvs' = <[f:=v]> (list_to_map kvs : gmap (list byte) (list byte)).
Proof.
  intros (rs & Hr & Hf) Hnd Hb. unfold hash_set_ziplist. pose proof (zbound_ge (flat kvs)) as H11.
  assert (zele_ok f /\ zele_ok v) as [Hfok Hvok] by (unfold zele_ok, pair_cost in *; lia).
  destruct (find_field_spec zl rs kvs f Hr Hf) as [(A & w & B & rsA & rf & rv & rsB & -> & HfA & -> & HA & Hrf & Hrv & HB & ->)|[Hn ->]]; cbn [mbind option_bind].
  - rewrite (value_ptr_spec zl rsA rf rv rsB Hr). cbn [mbind option_bind]. rewrite zbound_pair in Hb |- *.
    assert (rsA ++ rf :: rv :: rsB = (rsA ++ [rf]) ++ rv :: rsB) as E by (by rewrite <- app_assoc). rewrite E in Hr.
    destruct (delete_at junk zl (rsA ++ [rf]) rv rsB Hr) as (zl1 & rsB' & -> & Hr1 & HB').
    { rewrite fmap_app, HA, HB. cbn [fmap list_fmap]. rewrite <- app_assoc. cbn [app]. rewrite Hrf.
      rewrite hflat_app in Hb. unfold zbound in *. rewrite sum_list_with_app in *. cbn [sum_list_with]. unfold pair_cost in *. lia. }
    cbn [mbind option_bind]. unfold ziplistInsert. destruct (holds_insert junk zl1 (rsA ++ [rf]) rsB' v Hr1 Hvok) as (zl2 & -> & Hh2).
    { rewrite HB', HB, fmap_app, HA. cbn [fmap list_fmap]. rewrite <- app_assoc. cbn [app]. rewrite Hrf.
      rewrite hflat_app in Hb. unfold zbound in *. rewrite sum_list_with_app in *. cbn [sum_list_with]. unfold pair_cost in *. lia. }
    cbn [mbind option_bind]. rewrite HB', HB, fmap_app, HA in Hh2. cbn [fmap list_fmap] in Hh2. rewrite <- app_assoc, Hrf in Hh2.
    destruct (split_map A f w B Hnd) as (Hmf & _ & Hm). destruct (Hm v) as [Hnd' Hmv]. destruct (Hm w) as [_ Hmw].
    exists zl2, (A ++ (f, v) :: B). rewrite Hmw, Hmv, lookup_insert_eq, insert_insert_eq, bool_decide_eq_true_2 by done.
    split_and!; [done|by rewrite hflat_app|done| |rewrite zbound_pair; unfold pair_cost; lia|done].
    intros [k x]. rewrite !elem_of_app, !elem_of_cons. intros [?|[[= -> ->]|?]]; auto.
  - destruct (holds_push junk zl (flat kvs) f ZIPLIST_TAIL) as (zl1 & -> & Hh1); [by exists rs|done| |].
    { cbn [zspec]. change (ZIPLIST_TAIL =? ZIPLIST_HEAD) with false. cbv iota. rewrite zbound_app.
      unfold zbound at 2. cbn [sum_list_with]. unfold pair_cost in *. lia. }
    cbn [zspec] in Hh1. change (ZIPLIST_TAIL =? ZIPLIST_HEAD) with false in Hh1. cbv iota in Hh1. cbn [mbind option_bind].
    destruct (holds_push junk zl1 (flat kvs ++ [f]) v ZIPLIST_TAIL) as (zl2 & -> & Hh2); [done|done| |].
    { cbn [zspec]. change (ZIPLIST_TAIL =? ZIPLIST_HEAD) with false. cbv iota. rewrite !zbound_app.
      unfold zbound at 2 3. cbn [sum_list_with]. unfold pair_cost in *. lia. }
    cbn [zspec] in Hh2. change (ZIPLIST_TAIL =? ZIPLIST_HEAD) with false in Hh2. cbv iota in Hh2. cbn [mbind option_bind].
    exists zl2, (kvs ++ [(f, v)]). rewrite not_elem_of_list_to_map_1, bool_decide_eq_false_2 by (done || by intros [? [=]]).
    split_and!; [done|by rewrite hflat_app; rewrite <- app_assoc in Hh2|by apply NoDup_pairs_snoc| | |by apply list_to_map_snoc].
    + intros [k x]. rewrite elem_of_app, list_elem_of_singleton. intros [?|[= -> ->]]; auto.
    + rewrite zbound_pair, app_nil_r. lia.
Qed.

Lemma size_insert_le m f v : Z.of_nat (size (<[f:=v]> m)) <= Z.of_nat (size m) + 1.
Proof.
  destruct (m !! f) as [w|] eqn:E; [rewrite map_size_insert_Some by (by exists w); lia|rewrite map_size_insert_None by done; lia].
Qed.

Lemma hashTypeSet_spec o m B f v : hash_models o m B -> B + pair_cost f v < 2 ^ 32 ->
  ((exists zl, o = HashZL zl) -> Z.of_nat (length f) <= lim /\ Z.of_nat (length v) <= lim) ->
  exists o', hashTypeSet o f v = Some (o', bool_decide (is_Some (m !! f))) /\ hash_models o' (<[f:=v]> m) (B + pair_cost f v) /\
    ((exists zl, o' = HashZL zl) -> exists zl, o = HashZL zl).
Proof.
  intros Hm HB Hlim. destruct o as [zl|d]; cbn [hashTypeSet].
  - destruct Hm as (kvs & [Hh Hnd Hc Hs] & -> & Hb). destruct (Hlim ltac:(by exists zl)) as [Hlf Hlv].
    destruct (set_zl_spec zl kvs f v Hh Hnd) as (zl1 & kvs' & -> & Hh1 & Hnd' & Hin & Hb' & <-); [lia|]. cbn [mbind option_bind].
    destruct (length_zl_spec zl1 kvs' Hh1) as (zl2 & -> & Hh2). cbn [mbind option_bind].
    destruct (_ >? _) eqn:E; rewrite Z.gtb_ltb in E.
    + destruct (convert_zl_spec zl2 kvs' (B + pair_cost f v)) as (d & -> & Hd); [done|done|lia|lia|]. exists (HashHT d). by split_and!; [..|intros [? [=]]].
    + exists (HashZL zl2). split; [done|]. split; [|by exists zl]. apply Z.ltb_ge in E. exists kvs'. split_and!; [|done|lia]. split; [done|done|done|].
      apply Forall_forall. rewrite Forall_forall in Hs. intros kv [Hkv|[Hv Hk]]%Hin; [by apply Hs|]. rewrite Hv.
      split; [|done]. destruct Hk as [->|(kv' & -> & Hk)%list_elem_of_fmap]; [done|]. by apply Hs.
  - destruct Hm as [Hm Hb]. destruct (dictFind_spec hash d m f Hm) as (d1 & -> & Hm1). cbn [mbind option_bind].
    pose proof (size_insert_le m f v) as Hsz. assert (36 <= pair_cost f v) as Hpc by (unfold pair_cost; lia).
    destruct (m !! f) as [w|] eqn:E; cbn [fmap option_fmap option_map].
    + eexists. rewrite bool_decide_eq_true_2 by done. split; [done|]. split; [|by intros [? [=]]]. split; [|lia]. apply dictSetVal_spec; [done|by exists w].
    + destruct (dictAdd_spec hash [] dict_can_resize d1 m f v Hm1) as (d2 & -> & Hm2); [unfold max_entries; lia|]. cbn [mbind option_bind fst].
      rewrite E in Hm2. exists (HashHT d2). rewrite bool_decide_eq_false_2 by (by intros [? [=]]). split; [done|]. split; [split; [done|lia]|by intros [? [=]]].
Qed.

Lemma hashTypeDelete_spec o m B f : hash_models o m B -> B < 2 ^ 32 ->
  exists o', hashTypeDelete o f = Some (o', bool_decide (is_Some (m !! f))) /\ hash_models o' (delete f m) B.
Proof.
  intros Hm HB. destruct o as [zl|d]; cbn [hashTypeDelete].
  - destruct Hm as (kvs & [Hh Hnd Hc Hs] & -> & Hb). pose proof Hh as (rs & Hr & Hf).
    destruct (find_field_spec zl rs kvs f Hr Hf) as [(A & w & C & rsA & rf & rv & rsB & -> & HfA & -> & HA & Hrf & Hrv & HC & ->)|[Hn ->]]; cbn [mbind option_bind].
    + rewrite zbound_pair in Hb. rewrite hflat_app in Hb. assert (0 <= pair_cost f w) as Hpc by (unfold pair_cost; lia).
      destruct (delete_at junk zl rsA rf (rv :: rsB) Hr) as (zl1 & rsB1 & -> & Hr1 & HB1).
      { rewrite HA. cbn [fmap list_fmap]. rewrite HC, Hrv. unfold zbound, pair_cost in *. rewrite sum_list_with_app in *. cbn [sum_list_with]. lia. }
      cbn [mbind option_bind]. destruct rsB1 as [|r1 rsB1]; [done|]. assert (rsB1.*2 = rsB.*2) as HB1' by (by injection HB1). clear HB1. rename HB1' into HB1.
      destruct (delete_at junk zl1 rsA r1 rsB1 Hr1) as (zl2 & rsB2 & -> & Hr2 & HB2); [rewrite HA, HB1, HC; lia|]. cbn [mbind option_bind fst].
      destruct (split_map A f w C Hnd) as (Hmf & Hnd' & Hm). destruct (Hm w) as [_ ->]. rewrite lookup_insert_eq, bool_decide_eq_true_2 by done.
      exists (HashZL zl2). split; [done|]. rewrite delete_insert_id by done. exists (A ++ C). split_and!; [|done|rewrite hflat_app; lia].
      split; [|done| |].
      * exists (rsA ++ rsB2). split; [done|]. by rewrite fmap_app, HA, HB2, HB1, HC, hflat_app.
      * rewrite length_app in *. cbn [length] in Hc. lia.
      * apply Forall_app in Hs as [HsA HsC]. apply Forall_cons in HsC as [_ HsC]. by apply Forall_app.
    + exists (HashZL zl). rewrite not_elem_of_list_to_map_1, bool_decide_eq_false_2 by (done || by intros [? [=]]).
      split; [done|]. rewrite delete_id by (by apply not_elem_of_list_to_map_1). by exists kvs.
  - destruct Hm as [Hm Hb]. unfold dictDelete. destruct (dictGenericDelete_spec hash d m f Hm) as (d1 & -> & Hm1).
    cbn [mbind option_bind fst snd]. assert (36 * Z.of_nat (size (delete f m)) <= B) as Hsz.
    { pose proof (map_subseteq_size (delete f m) m (delete_subseteq m f)). lia. }
    assert (bool_decide (is_Some (pair f <$> m !! f)) = bool_decide (is_Some (m !! f))) as -> by (apply bool_decide_ext, fmap_is_Some).
    case_bool_decide; [|by exists (HashHT d1)]. destruct (htNeedsResize d1); [|by exists (HashHT d1)].
    destruct (dictResize_spec hash dict_can_resize d1 _ Hm1) as (d2 & ok & -> & Hm2). by exists (HashHT d2).
Qed.

(** After the check of the arguments a hash is a dictionary, or they are all short. *)
Lemma hashTypeTryConversion_spec o m B argv : hash_models o m B -> B < 2 ^ 32 ->
  exists o', hashTypeTryConversion o (OSds <$> argv) = Some o' /\ hash_models o' m B /\
    ((exists zl, o' = HashZL zl) -> Forall (fun s : list byte => Z.of_nat (length s) <= hash_max_ziplist_value) argv).
Proof.
  intros Hm HB. destruct o as [zl|d]; [|exists (HashHT d); destruct argv; by split_and!; [..|intros [? [=]]]].
  induction argv as [|s argv IH]; [by exists (HashZL zl)|]. cbn [fmap list_fmap hashTypeTryConversion].
  destruct (_ >? _) eqn:E; rewrite Z.gtb_ltb in E.
  - destruct Hm as (kvs & [Hh Hnd Hc Hs] & -> & Hb). destruct (convert_zl_spec zl kvs B) as (d & -> & Hd); [done..|].
    exists (HashHT d). by split_and!; [..|intros [? [=]]].
  - destruct IH as (o' & -> & Hm' & Ho'). exists o'. split_and!; [done|done|]. intros Hz. constructor; [by apply Z.ltb_ge in E|auto].
Qed.

(** ** The commands against a finite map *)

(** A command with its arguments after the key; HSET and HMSET with their name. *)
Inductive hcmd :=
  | HSET (name : list byte) (args : list (list byte))
  | HSETNX (field value : list byte)
  | HINCRBY (field increment : list byte)
  | HDEL (fields : list (list byte))
  | HGET (field : list byte)
  | HMGET (fields : list (list byte))
  | HLEN
  | HSTRLEN (field : list byte)
  | HEXISTS (field : list byte).

(** The handler of the command, for the key [key]. *)
Definition hexec (key : list byte) (k : keyval) (c : hcmd) : option outcome :=
  let argv name args := name :: key :: args in
  match c with
  | HSET name args => hsetCommand k (argv name args)
  | HSETNX f v => hsetnxCommand k (argv (bytes_of "hsetnx") [f; v])
  | HINCRBY f i => hincrbyCommand k (argv (bytes_of "hincrby") [f; i])
  | HDEL fs => hdelCommand k (argv (bytes_of "hdel") fs)
  | HGET f => hgetCommand k (argv (bytes_of "hget") [f])
  | HMGET fs => hmgetCommand k (argv (bytes_of "hmget") fs)
  | HLEN => hlenCommand k
  | HSTRLEN f => hstrlenCommand k (argv (bytes_of "hstrlen") [f])
  | HEXISTS f => hexistsCommand k (argv (bytes_of "hexists") [f])
  end.

(** What the rest of the server sees of an outcome: the bytes of the replies, the
    changes, whether the key is signalled, the events. *)
Definition wire (l : list answer) : list byte := concat (map Reply.encode l).
Record observed := mkObserved { ob_wire : list byte; ob_dirty : Z; ob_signal : bool; ob_events : list string }.
Definition observe (r : outcome) : observed := mkObserved (wire (out_replies r)) (out_dirty r) (out_signal r) (out_events r).

Fixpoint hexecs (key : list byte) (k : keyval) (cs : list hcmd) : option (keyval * list observed) :=
  match cs with
  | [] => Some (k, [])
  | c :: cs =>
      r ← hexec key k c;
      q ← hexecs key (out_key r) cs;
      Some (q.1, observe r :: q.2)
  end.

(** The specification: a key that is not there is the empty map. *)
Fixpoint pairs_of (args : list (list byte)) : list (list byte * list byte) :=
  match args with f :: v :: args => (f, v) :: pairs_of args | _ => [] end.

Definition insert_all m (l : list (list byte * list byte)) := foldl (fun m (kv : list byte * list byte) => <[kv.1:=kv.2]> m) m l.
Definition delete_all m (fs : list (list byte)) := foldl (fun m f => delete f m) m fs.
Definition told (l : list answer) (changes : Z) (events : list string) : observed :=
  mkObserved (wire l) changes (negb (changes =? 0)) events.
Definition bulk_of m f : answer := match m !! f with Some v => BulkBuffer v | None => BulkString None end.
Definition is_hset (name : list byte) : bool := bool_decide (name !! 1%nat = Some 115 \/ name !! 1%nat = Some 83).

Definition hspec m (c : hcmd) : gmap (list byte) (list byte) * observed :=
  match c with
  | HSET name args =>
      if Nat.odd (length args) then (m, told [Error (bytes_of "wrong number of arguments for HMSET")] 0 [])
      else
        let m' := insert_all m (pairs_of args) in
        let created := Z.of_nat (size m') - Z.of_nat (size m) in
        (m', told [if is_hset name then Integer created else Status (bytes_of "OK")] 1 ["hset"%string])
  | HSETNX f v =>
      match m !! f with
      | Some _ => (m, told [Integer 0] 0 [])
      | None => (<[f:=v]> m, told [Integer 1] 1 ["hset"%string])
      end
  | HINCRBY f i =>
      match string2ll i, match m !! f with Some s => string2ll s | None => Some 0 end with
      | None, _ => (m, told [Error (bytes_of "value is not an integer or out of range")] 0 [])
      | Some _, None => (m, told [Error (bytes_of "hash value is not an integer")] 0 [])
      | Some incr, Some old =>
          if bool_decide (LLONG_MIN <= old + incr <= LLONG_MAX)
          then (<[f:=decimal (old + incr)]> m, told [Integer (old + incr)] 1 ["hincrby"%string])
          else (m, told [Error (bytes_of "increment or decrement would overflow")] 0 [])
      end
  | HDEL fs =>
      let m' := delete_all m fs in
      let n := Z.of_nat (size m) - Z.of_nat (size m') in
      (m', told [Integer n] n (if n =? 0 then [] else ("hdel" :: if bool_decide (m' = ∅) then ["del"] else [])%string))
  | HGET f => (m, told [bulk_of m f] 0 [])
  | HMGET fs => (m, told (MultiBulkLen (Z.of_nat (length fs)) :: map (bulk_of m) fs) 0 [])
  | HLEN => (m, told [Integer (Z.of_nat (size m))] 0 [])
  | HSTRLEN f => (m, told [Integer (match m !! f with Some v => Z.of_nat (length v) | None => 0 end)] 0 [])
  | HEXISTS f => (m, told [Integer (if bool_decide (is_Some (m !! f)) then 1 else 0)] 0 [])
  end.

Fixpoint hspecs m (cs : list hcmd) : gmap (list byte) (list byte) * list observed :=
  match cs with
  | [] => (m, [])
  | c :: cs => let '(m', o) := hspec m c in let '(m'', os) := hspecs m' cs in (m'', o :: os)
  end.

(** The arity the command table asks for: a name, a key and at least two arguments. *)
Definition hcmd_ok (c : hcmd) : Prop :=
  match c with HSET name args => (2 <= length name)%nat /\ (2 <= length args)%nat | _ => True end.

(** What a command can add to the size of the ziplist; 20 characters are enough for
    an integer. *)
Definition args_cost (args : list (list byte)) : Z := Z.of_nat (sum_list_with (fun a => 18 + length a)%nat args).
Definition hcost (c : hcmd) : Z :=
  match c with
  | HSET _ args => args_cost args
  | HSETNX f v => pair_cost f v
  | HINCRBY f _ => pair_cost f (replicate 20 0)
  | _ => 0
  end.
Definition hcosts (cs : list hcmd) : Z := foldr (fun c n => hcost c + n) 0 cs.

(** The strings a command can put into a ziplist are at most [lim] bytes long. *)
Definition hshort (c : hcmd) : Prop :=
  match c with
  | HSET _ args => hash_max_ziplist_value <= lim \/ Forall (fun s : list byte => Z.of_nat (length s) <= lim) args
  | HSETNX f v => hash_max_ziplist_value <= lim \/ Z.of_nat (length f) <= lim /\ Z.of_nat (length v) <= lim
  | HINCRBY f _ => Z.of_nat (length f) <= lim /\ 20 <= lim
  | _ => True
  end.

Definition key_models (k : keyval) m (B : Z) : Prop :=
  match k with
  | KNone => m = ∅ /\ 11 <= B
  | KHash o => m <> ∅ /\ hash_models o m B
  | KOther => False
  end.

Context (entries_nonneg : 0 <= hash_max_ziplist_entries).

Lemma hash_models_mono o m B B' : hash_models o m B -> B <= B' -> hash_models o m B'.
Proof. destruct o; [intros (kvs & ? & ? & ?) ?; exists kvs; split_and!; try done; lia|intros [? ?] ?; split; [done|lia]]. Qed.

Lemma key_models_mono k m B B' : key_models k m B -> B <= B' -> key_models k m B'.
Proof. destruct k; cbn; [intros [? ?] ?; split; [done|lia]|intros [? ?] ?; split; [done|by eapply hash_models_mono]|done]. Qed.

Lemma lookup_write k m B : key_models k m B -> exists o, hashTypeLookupWriteOrCreate k = Some (Some o) /\ hash_models o m B.
Proof.
  destruct k as [|o|]; [|by intros [_ ?]; exists o|done]. intros [-> HB]. cbn. unfold createHashObject.
  destruct (znew_repr junk) as (zl & -> & Hr). cbn [mbind option_bind]. exists (HashZL zl). split; [done|].
  exists []. split_and!; [|done|by unfold zbound; cbn; lia]. split; [by exists []|constructor|done|constructor].
Qed.

(** A command that reads: either the key is not there, or its hash is. *)
Lemma lookup_read k m B missing : key_models k m B ->
  (k = KNone /\ m = ∅ /\ lookup_hash k missing = inr missing) \/
  (exists o, k = KHash o /\ m <> ∅ /\ hash_models o m B /\ lookup_hash k missing = inl o).
Proof. destruct k as [|o|]; cbn; [left; naive_solver|right; exists o; naive_solver|done]. Qed.

Lemma insert_key_models o m B f v : hash_models o (<[f:=v]> m) B -> key_models (KHash o) (<[f:=v]> m) B.
Proof. split; [apply insert_non_empty|done]. Qed.

(** *** HSET and HMSET *)

Lemma args_cost_pair f v args : args_cost (f :: v :: args) = pair_cost f v + args_cost args.
Proof. unfold args_cost, pair_cost. cbn [sum_list_with]. lia. Qed.

Lemma args_cost_nonneg args : 0 <= args_cost args.
Proof. unfold args_cost. lia. Qed.

Lemma size_bound o m B : hash_models o m B -> 36 * Z.of_nat (size m) <= B.
Proof.
  destruct o; [|by intros [_ ?]]. intros (kvs & [_ Hnd _ _] & -> & Hb). rewrite size_kvs by done. pose proof (kvs_bound kvs). lia.
Qed.


Lemma hset_loop_spec n : forall args o m B c0, (length args <= n)%nat -> Nat.even (length args) = true -> hash_models o m B ->
  B + args_cost args < 2 ^ 32 -> ((exists zl, o = HashZL zl) -> Forall (fun s : list byte => Z.of_nat (length s) <= lim) args) ->
  0 <= c0 <= Z.of_nat (size m) ->
  exists o', hset_loop o args (Z.of_nat (size m) - c0) = Some (o', Z.of_nat (size (insert_all m (pairs_of args))) - c0) /\
    hash_models o' (insert_all m (pairs_of args)) (B + args_cost args).
Proof.
  induction n as [|n IH]; intros args o m B c0 Hn Hev Hm HB Hs Hc.
  { destruct args; [|cbn [length] in Hn; lia]. exists o. split; [done|]. by rewrite Z.add_0_r. }
  destruct args as [|f [|v args]]; [by exists o; rewrite Z.add_0_r|done|]. rewrite args_cost_pair in *. cbn [hset_loop].
  pose proof (args_cost_nonneg args) as Hac.
  destruct (hashTypeSet_spec o m B f v Hm) as (o1 & -> & Hm1 & Hz); [lia|by intros [H1 [H2 _]%Forall_cons]%Hs%Forall_cons|].
  cbn [mbind option_bind]. pose proof (size_bound _ _ _ Hm1) as Hsz.
  replace (s32 _) with (Z.of_nat (size (<[f:=v]> m)) - c0).
  - destruct (IH args o1 (<[f:=v]> m) (B + pair_cost f v) c0) as (o' & He & Hm'); try done; [cbn [length] in Hn; lia|lia| | |].
    + intros H1%Hz%Hs. by apply Forall_cons in H1 as [_ [_ ?]%Forall_cons].
    + case_eq (m !! f); [intros w Hw; rewrite map_size_insert_Some by (by exists w)|intros Hw; rewrite map_size_insert_None by done]; lia.
    + exists o'. rewrite Z.add_assoc. done.
  - symmetry. rewrite swrap_small; [| done|].
    + case_bool_decide as Hf; [rewrite map_size_insert_Some by done; lia|].
      rewrite map_size_insert_None by (by apply eq_None_not_Some). lia.
    + limits. assert (Z.of_nat (size m) <= Z.of_nat (size (<[f:=v]> m))) as Hle.
      { case_eq (m !! f); [intros w Hw; rewrite map_size_insert_Some by (by exists w)|intros Hw; rewrite map_size_insert_None by done]; lia. }
      case_bool_decide; lia.
Qed.

Lemma pairs_ne args : (2 <= length args)%nat -> exists f v rest, pairs_of args = (f, v) :: rest.
Proof. destruct args as [|f [|v args]]; cbn [length]; [lia|lia|]. intros _. by exists f, v, (pairs_of args). Qed.

Lemma insert_all_ne l : forall m, m <> ∅ \/ l <> [] -> insert_all m l <> ∅.
Proof.
  induction l as [|[f v] l IH]; intros m; [by intros [?|?]|]. intros _. cbn. apply IH. left. apply insert_non_empty.
Qed.

Lemma odd_args (name key : list byte) args : (Z.of_nat (length (name :: key :: args)) mod 2 =? 1) = Nat.odd (length args).
Proof.
  cbn [length]. rewrite !Nat2Z.inj_succ. unfold Z.succ. rewrite <- Z.add_assoc. change (1 + 1) with (1 * 2). rewrite Z_mod_plus_full.
  rewrite Zmod_odd. assert (Z.odd (Z.of_nat (length args)) = Nat.odd (length args)) as ->; [|by destruct (Nat.odd _)].
  apply eq_true_iff_eq. rewrite Z.odd_spec, Nat.odd_spec. split; intros [j Hj]; [exists (Z.to_nat j)|exists (Z.of_nat j)]; lia.
Qed.

Lemma hset_spec key k m B name args : key_models k m B -> hcmd_ok (HSET name args) -> hshort (HSET name args) ->
  B + args_cost args < 2 ^ 32 ->
  exists r, hsetCommand k (name :: key :: args) = Some r /\ observe r = (hspec m (HSET name args)).2 /\
    key_models (out_key r) (hspec m (HSET name args)).1 (B + args_cost args).
Proof.
  intros Hk [Hname Hargs] Hs HB. pose proof (args_cost_nonneg args) as Hac. unfold hsetCommand, hspec.
  rewrite odd_args.
  destruct (Nat.odd (length args)) eqn:Eo.
  - eexists. split; [done|]. split; [done|]. apply (key_models_mono k m B); [done|lia].
  - destruct (lookup_write k m B Hk) as (o & -> & Hm). cbn [mbind option_bind]. change (drop 2 (name :: key :: args)) with args.
    destruct (hashTypeTryConversion_spec o m B args Hm) as (o1 & -> & Hm1 & Hz); [lia|]. cbn [mbind option_bind].
    destruct (hset_loop_spec (length args) args o1 m B (Z.of_nat (size m))) as (o2 & Hl & Hm2); try done.
    + by rewrite <- Nat.negb_odd, Eo.
    + intros Hsh%Hz. destruct Hs as [Hs|Hs]; [|done]. eapply Forall_impl; [exact Hsh|]. cbn. intros. lia.
    + lia.
    + rewrite Z.sub_diag in Hl. rewrite Hl. cbn [mbind option_bind lookup list_lookup].
      destruct name as [|n0 [|n1 name]]; [cbn in Hname; lia..|]. cbn [app].
      change (getb (n0 :: n1 :: name ++ [0]) 1) with (Some n1). cbn [mbind option_bind].
      eexists. split; [done|]. cbn [out_key fst snd]. split.
      * unfold observe, told, is_hset. cbn [out_replies out_dirty out_signal out_events]. f_equal. cbn [lookup list_lookup].
        assert (bool_decide (Some n1 = Some 115 \/ Some n1 = Some 83) = (n1 =? 115) || (n1 =? 83)) as ->.
        { apply eq_true_iff_eq. rewrite bool_decide_eq_true, orb_true_iff, !Z.eqb_eq. naive_solver. }
        by destruct (_ || _).
      * split; [|done]. apply insert_all_ne. right. destruct (pairs_ne args) as (? & ? & ? & ->); [done|done].
Qed.

Lemma hsetnx_spec key k m B f v : key_models k m B -> hshort (HSETNX f v) -> B + pair_cost f v < 2 ^ 32 ->
  exists r, hexec key k (HSETNX f v) = Some r /\ observe r = (hspec m (HSETNX f v)).2 /\
    key_models (out_key r) (hspec m (HSETNX f v)).1 (B + pair_cost f v).
Proof.
  intros Hk Hs HB. assert (0 <= pair_cost f v) as Hpc by (unfold pair_cost; lia). cbn [hexec]. unfold hsetnxCommand.
  destruct (lookup_write k m B Hk) as (o & -> & Hm). cbn [mbind option_bind lookup list_lookup].
  change [OSds f; OSds v] with (OSds <$> [f; v]). destruct (hashTypeTryConversion_spec o m B [f; v] Hm) as (o1 & -> & Hm1 & Hz); [lia|].
  cbn [mbind option_bind]. destruct (hashTypeExists_spec o1 m B f Hm1) as (o2 & -> & Hm2 & Hz2). cbn [mbind option_bind hspec].
  destruct (m !! f) as [w|] eqn:E.
  - rewrite bool_decide_eq_true_2 by done. eexists. split; [done|]. split; [done|]. cbn [out_key fst]. split.
    + intros ->. by rewrite lookup_empty in E.
    + eapply hash_models_mono; [done|lia].
  - rewrite bool_decide_eq_false_2 by (by intros [? [=]]).
    destruct (hashTypeSet_spec o2 m B f v Hm2) as (o3 & -> & Hm3 & _); [lia| |].
    { intros Hsh%Hz2%Hz. apply Forall_cons in Hsh as [? [? _]%Forall_cons]. cbn in Hs. destruct Hs as [?|?]; [|done]. lia. }
    eexists. split; [done|]. split; [done|]. by apply insert_key_models.
Qed.

(** *** HINCRBY *)

(** The two comparisons are the check that the sum is a 64-bit integer. *)
Lemma incr_overflow old incr : in_s 64 old -> in_s 64 incr ->
  ((incr <? 0) && (old <? 0) && (incr <? LLONG_MIN - old) || (incr >? 0) && (old >? 0) && (incr >? LLONG_MAX - old)) =
  negb (bool_decide (LLONG_MIN <= old + incr <= LLONG_MAX)).
Proof.
  intros Ho Hi. limits. rewrite !Z.gtb_ltb. case_bool_decide; cbn [negb].
  - apply orb_false_iff. rewrite !andb_false_iff, !Z.ltb_ge. lia.
  - apply orb_true_iff. rewrite !andb_true_iff, !Z.ltb_lt. lia.
Qed.

Lemma hincrby_spec key k m B f i : key_models k m B -> hshort (HINCRBY f i) -> B + hcost (HINCRBY f i) < 2 ^ 32 ->
  exists r, hexec key k (HINCRBY f i) = Some r /\ observe r = (hspec m (HINCRBY f i)).2 /\
    key_models (out_key r) (hspec m (HINCRBY f i)).1 (B + hcost (HINCRBY f i)).
Proof.
  intros Hk [Hf Hlim] HB. assert (0 <= hcost (HINCRBY f i)) as Hpc by (cbn; unfold pair_cost; lia). cbn [hexec]. unfold hincrbyCommand.
  cbn [mbind option_bind lookup list_lookup hspec]. destruct (string2ll i) as [incr|] eqn:Ei.
  2: { eexists. split; [done|]. split; [done|]. eapply key_models_mono; [done|lia]. }
  destruct (lookup_write k m B Hk) as (o & -> & Hm). cbn [mbind option_bind].
  destruct (hashTypeGetValue_spec o m B f Hm) as (o1 & v & -> & Hm1 & Hv & Hfa & _). cbn [mbind option_bind].
  assert (match v with Some (HVStr vstr) => string2ll vstr | Some (HVInt value) => Some value | None => Some 0 end =
          match m !! f with Some s => string2ll s | None => Some 0 end) as ->.
  { rewrite <- Hv. destruct v as [[s|n]|]; [done| |done]. cbn. by rewrite (Hfa _ eq_refl). }
  assert (m !! f <> None -> m <> ∅) as Hne by (intros Hn ->; by rewrite lookup_empty in Hn).
  destruct (match m !! f with Some s => string2ll s | None => Some 0 end) as [old|] eqn:Eo.
  - assert (in_s 64 old) as Hold.
    { destruct (m !! f) as [s|]; [by apply string2ll_sound in Eo as [? _]|]. injection Eo as <-. limits. lia. }
    pose proof Ei as [Hincr _]%string2ll_sound. rewrite incr_overflow by done. case_bool_decide as Hr; cbn [negb].
    + assert (in_s 64 (old + incr)) as Hval by (limits; lia). pose proof (decimal_short _ Hval) as Hsh.
      destruct (sdsfromlonglong_key junk (old + incr) Hval) as (x & -> & Hx). cbn [mbind option_bind]. rewrite Hx. cbn [mbind option_bind].
      assert (pair_cost f (decimal (old + incr)) <= hcost (HINCRBY f i)) as Hc by (cbn [hcost]; unfold pair_cost; rewrite length_replicate; lia).
      destruct (hashTypeSet_spec o1 m B f (decimal (old + incr)) Hm1) as (o2 & -> & Hm2 & _); [lia|by intros _; lia|].
      eexists. split; [done|]. split; [done|]. cbn [out_key fst]. eapply key_models_mono; [by apply insert_key_models|lia].
    + eexists. split; [done|]. split; [done|]. cbn [out_key fst]. split; [|eapply hash_models_mono; [done|lia]].
      apply Hne. intros E. rewrite E in Eo. injection Eo as <-. limits. lia.
  - eexists. split; [done|]. split; [done|]. cbn [out_key fst]. split; [|eapply hash_models_mono; [done|lia]].
    apply Hne. intros E. by rewrite E in Eo.
Qed.

(** *** HDEL *)

Lemma delete_all_empty fs : delete_all ∅ fs = ∅.
Proof. induction fs as [|f fs IH]; [done|]. cbn. by rewrite delete_empty. Qed.

Lemma delete_all_size fs : forall m, (size (delete_all m fs) <= size m)%nat.
Proof.
  induction fs as [|f fs IH]; intros m; [done|]. cbn. etransitivity; [apply IH|]. apply map_subseteq_size, delete_subseteq.
Qed.

Lemma hdel_loop_spec fs : forall o m B c0, hash_models o m B -> B < 2 ^ 32 -> m <> ∅ -> Z.of_nat (size m) <= c0 < 2 ^ 31 ->
  exists o', hdel_loop o fs (c0 - Z.of_nat (size m)) = Some (o', c0 - Z.of_nat (size (delete_all m fs)), bool_decide (delete_all m fs = ∅)) /\
    hash_models o' (delete_all m fs) B.
Proof.
  induction fs as [|f fs IH]; intros o m B c0 Hm HB Hne Hc; cbn [hdel_loop].
  { exists o. cbn. by rewrite bool_decide_eq_false_2. }
  destruct (hashTypeDelete_spec o m B f Hm HB) as (o1 & -> & Hm1). cbn [mbind option_bind]. change (delete_all m (f :: fs)) with (delete_all (delete f m) fs).
  case_bool_decide as Hf.
  - destruct (hashTypeLength_spec o1 _ B Hm1) as (o2 & -> & Hm2). cbn [mbind option_bind].
    destruct Hf as [w Hw]. pose proof (map_size_delete_Some f m (mk_is_Some _ _ Hw)) as Hsz.
    assert (size m <> 0)%nat as Hs0 by (by rewrite map_size_ne_0_lookup; eexists).
    assert (s32 (c0 - Z.of_nat (size m) + 1) = c0 - Z.of_nat (size (delete f m))) as -> by (rewrite swrap_small; [lia|done|limits; lia]).
    destruct (_ =? 0) eqn:E0.
    + apply Z.eqb_eq in E0. assert (delete f m = ∅) as Hd by (apply map_size_empty_iff; lia).
      exists o2. rewrite Hd, delete_all_empty. rewrite Hd in Hm2. by rewrite bool_decide_eq_true_2.
    + apply Z.eqb_neq in E0. apply IH; try done; [|lia]. intros Hd. rewrite Hd, map_size_empty in E0. done.
  - assert (delete f m = m) as Hd by (apply delete_id; by apply eq_None_not_Some). rewrite Hd in *. by apply IH.
Qed.

Lemma hdel_spec key k m B fs : key_models k m B -> B < 2 ^ 32 ->
  exists r, hexec key k (HDEL fs) = Some r /\ observe r = (hspec m (HDEL fs)).2 /\ key_models (out_key r) (hspec m (HDEL fs)).1 B.
Proof.
  intros Hk HB. cbn [hexec]. unfold hdelCommand. cbn [hspec fst snd].
  destruct (lookup_read k m B czero Hk) as [(-> & -> & ->)|(o & -> & Hne & Hm & ->)].
  - eexists. split; [done|]. rewrite delete_all_empty, map_size_empty. split; [done|]. done.
  - change (drop 2 _) with fs. pose proof (size_bound _ _ _ Hm) as Hsz.
    destruct (hdel_loop_spec fs o m B (Z.of_nat (size m)) Hm HB Hne) as (o' & Hl & Hm'); [limits; lia|].
    rewrite Z.sub_diag in Hl. rewrite Hl. cbn [mbind option_bind]. eexists. split; [done|].
    assert (0 < size m)%nat as Hpos by (apply map_size_non_empty_iff in Hne; lia).
    assert (key_models (if bool_decide (delete_all m fs = ∅) then KNone else KHash o') (delete_all m fs) B) as Hk'.
    { case_bool_decide as E; [|done]. split; [done|]. lia. }
    destruct (_ =? 0) eqn:E0; cbn [negb]; (split; [|done]); unfold observe, told; cbn; rewrite ?E0; [|done].
    apply Z.eqb_eq in E0. rewrite E0. done.
Qed.

(** *** Commands that read *)

Lemma field_reply_spec o m B f : hash_models o m B ->
  exists o' a, addHashFieldToReply (Some o) f = Some (Some o', a) /\ hash_models o' m B /\ Reply.encode a = Reply.encode (bulk_of m f).
Proof.
  destruct o as [zl|d]; cbn [addHashFieldToReply].
  - intros (kvs & Hp & -> & Hb). rewrite (get_zl_spec zl kvs f Hp). cbn [mbind option_bind]. eexists _, _. split; [done|]. split; [by exists kvs|].
    unfold bulk_of. destruct (list_to_map kvs !! f) as [s|]; [|done]. cbn [fmap option_fmap option_map].
    pose proof (stored_bytes s) as Hs. destruct (stored s) as [s'|n]; cbn in Hs; by rewrite <- Hs.
  - intros [Hm Hb]. destruct (get_ht_spec d m f Hm) as (d' & -> & Hm'). cbn [mbind option_bind fst snd]. eexists _, _.
    split; [done|]. split; [done|]. unfold bulk_of. by destruct (m !! f).
Qed.

Lemma wire_cons a l : wire (a :: l) = Reply.encode a ++ wire l.
Proof. done. Qed.

Lemma hmget_loop_spec fs : forall o m B, hash_models o m B ->
  exists o' l, hmget_loop (Some o) fs = Some (Some o', l) /\ hash_models o' m B /\ wire l = wire (map (bulk_of m) fs).
Proof.
  induction fs as [|f fs IH]; intros o m B Hm; cbn [hmget_loop]; [by exists o, []|].
  destruct (field_reply_spec o m B f Hm) as (o1 & a & -> & Hm1 & Ha). cbn [mbind option_bind fst snd].
  destruct (IH o1 m B Hm1) as (o2 & l & -> & Hm2 & Hl). cbn [mbind option_bind fst snd]. exists o2, (a :: l). split; [done|]. split; [done|].
  cbn [map]. by rewrite !wire_cons, Ha, Hl.
Qed.

Lemma hmget_none fs : exists l, hmget_loop None fs = Some (None, l) /\ wire l = wire (map (bulk_of ∅) fs).
Proof.
  induction fs as [|f fs [l [IH Hl]]]; [by exists []|]. cbn [hmget_loop addHashFieldToReply mbind option_bind fst snd]. rewrite IH.
  cbn [mbind option_bind fst snd]. eexists. split; [done|]. cbn [map]. by rewrite !wire_cons, Hl.
Qed.

Lemma hread_spec key k m B c : key_models k m B ->
  match c with HGET _ | HMGET _ | HLEN | HSTRLEN _ | HEXISTS _ => True | _ => False end ->
  exists r, hexec key k c = Some r /\ observe r = (hspec m c).2 /\ key_models (out_key r) (hspec m c).1 B.
Proof.
  intros Hk. destruct c as [| | | |f|fs| |f|f]; intros Hc; try done; clear Hc; cbn [hexec hspec fst snd].
  - unfold hgetCommand. cbn [mbind option_bind lookup list_lookup]. destruct (lookup_read k m B nullbulk Hk) as [(-> & -> & ->)|(o & -> & Hne & Hm & ->)]; [by eexists|].
    destruct (field_reply_spec o m B f Hm) as (o1 & a & -> & Hm1 & Ha). eexists. split; [done|]. split; [|done].
    unfold observe, told. cbn [out_replies]. rewrite !wire_cons. cbn [snd]. by rewrite Ha.
  - unfold hmgetCommand. change (drop 2 _) with fs. replace (Z.of_nat _ - 2) with (Z.of_nat (length fs)) by (cbn [length]; lia). destruct k as [|o|]; [| |done].
    + destruct Hk as [-> ?]. destruct (hmget_none fs) as (l & -> & Hl). eexists. split; [done|]. split; [|done].
      unfold observe, told. cbn [out_replies]. rewrite !wire_cons. cbn [snd]. by rewrite Hl.
    + destruct Hk as [Hne Hm]. destruct (hmget_loop_spec fs o m B Hm) as (o1 & l & -> & Hm1 & Hl). eexists. split; [done|]. split; [|done].
      unfold observe, told. cbn [out_replies]. rewrite !wire_cons. cbn [snd]. by rewrite Hl.
  - unfold hlenCommand. destruct (lookup_read k m B czero Hk) as [(-> & -> & ->)|(o & -> & Hne & Hm & ->)]; [by eexists|].
    destruct (hashTypeLength_spec o m B Hm) as (o1 & -> & Hm1). by eexists.
  - unfold hstrlenCommand. cbn [mbind option_bind lookup list_lookup]. destruct (lookup_read k m B czero Hk) as [(-> & -> & ->)|(o & -> & Hne & Hm & ->)]; [by eexists|].
    destruct (hashTypeGetValueLength_spec o m B f Hm) as (o1 & -> & Hm1). by eexists.
  - unfold hexistsCommand. cbn [mbind option_bind lookup list_lookup]. destruct (lookup_read k m B czero Hk) as [(-> & -> & ->)|(o & -> & Hne & Hm & ->)]; [by eexists|].
    destruct (hashTypeExists_spec o m B f Hm) as (o1 & -> & Hm1 & _). eexists. split; [done|]. split; [|done]. cbn [mbind option_bind snd]. by case_bool_decide.
Qed.

(** *** Sequences of commands *)

Lemma hexec_spec key k m B c : key_models k m B -> hcmd_ok c -> hshort c -> B + hcost c < 2 ^ 32 ->
  exists r, hexec key k c = Some r /\ observe r = (hspec m c).2 /\ key_models (out_key r) (hspec m c).1 (B + hcost c).
Proof.
  intros Hk Hok Hs HB. destruct c as [name args|f v|f i|fs| | | | |]; [by apply hset_spec|by apply hsetnx_spec|by apply hincrby_spec|..];
    cbn [hcost] in *; rewrite Z.add_0_r in *; [by apply hdel_spec|by apply hread_spec..].
Qed.

Lemma hcost_nonneg c : 0 <= hcost c.
Proof. destruct c; cbn; unfold args_cost, pair_cost; lia. Qed.

Lemma hcosts_nonneg cs : 0 <= hcosts cs.
Proof. induction cs as [|c cs IH]; [done|]. change (hcosts (c :: cs)) with (hcost c + hcosts cs). pose proof (hcost_nonneg c). lia. Qed.

Lemma hexecs_spec key cs : forall k m B, key_models k m B -> Forall hcmd_ok cs -> Forall hshort cs -> B + hcosts cs < 2 ^ 32 ->
  exists k', hexecs key k cs = Some (k', (hspecs m cs).2) /\ key_models k' (hspecs m cs).1 (B + hcosts cs).
Proof.
  induction cs as [|c cs IH]; intros k m B Hk Hok Hs HB; cbn [hexecs hspecs hcosts foldr]; [by exists k; rewrite Z.add_0_r|].
  apply Forall_cons in Hok as [Hc Hok]. apply Forall_cons in Hs as [Hsc Hs]. cbn [hcosts foldr] in HB. fold (hcosts cs) in *.
  pose proof (hcosts_nonneg cs). destruct (hexec_spec key k m B c) as (r & -> & Ho & Hk'); try done; [lia|]. cbn [mbind option_bind].
  destruct (hspec m c) as [m' ob] eqn:Em. cbn [fst snd] in *. subst ob.
  destruct (IH (out_key r) m' (B + hcost c)) as (k' & -> & Hk''); try done; [lia|]. cbn [mbind option_bind fst snd].
  destruct (hspecs m' cs) as [m'' os] eqn:Es. exists k'. cbn [fst snd] in *. split; [done|]. by rewrite Z.add_assoc.
Qed.

(** *** HGETALL, HKEYS and HVALS *)

(** What is sent for a pair. *)
Definition sent_of (flags : Z) (kv : list byte * list byte) : list answer :=
  (if negb (Z.land flags OBJ_HASH_KEY =? 0) then [BulkBuffer kv.1] else []) ++
  (if negb (Z.land flags OBJ_HASH_VALUE =? 0) then [BulkBuffer kv.2] else []).

Definition per_pair (flags : Z) : Z :=
  (if negb (Z.land flags OBJ_HASH_KEY =? 0) then 1 else 0) + (if negb (Z.land flags OBJ_HASH_VALUE =? 0) then 1 else 0).

Lemma wire_app l l' : wire (l ++ l') = wire l ++ wire l'.
Proof. unfold wire. by rewrite map_app, concat_app. Qed.

Lemma hgetall_item_spec o hi flags what s : current o hi what s ->
  exists l, hgetall_item o hi flags what = Some l /\ wire l = wire (if negb (Z.land flags what =? 0) then [BulkBuffer s] else []) /\
    Z.of_nat (length l) = if negb (Z.land flags what =? 0) then 1 else 0.
Proof.
  intros [_ _ (a & Ha & He)]. unfold hgetall_item. destruct (negb _); [|by exists []]. rewrite Ha. exists [a].
  split_and!; [done| |done]. by rewrite !wire_cons, He.
Qed.

Lemma hgetall_loop_spec tables o flags fuel : forall hi kvs, hiter_left tables o hi kvs -> (length kvs < fuel)%nat ->
  exists hi' l, hgetall_loop fuel tables o hi flags = Some (hi', l) /\ hiter_left tables o hi' [] /\
    wire l = wire (kvs ≫= sent_of flags) /\ Z.of_nat (length l) = Z.of_nat (length kvs) * per_pair flags.
Proof.
  induction fuel as [|fuel IH]; intros hi kvs Hl Hf; [lia|]. cbn [hgetall_loop].
  destruct (hashTypeNext_spec tables o hi kvs Hl) as (hi1 & -> & Hl1 & Hc). cbn [mbind option_bind].
  destruct kvs as [|kv kvs]; cbn [head tail] in *; [rewrite bool_decide_eq_false_2 by (by intros [? [=]]); exists hi1, []; by split_and!|].
  rewrite bool_decide_eq_true_2 by done. cbn [negb]. destruct Hc as [Hk Hv].
  destruct (hgetall_item_spec o hi1 flags _ _ Hk) as (l1 & -> & Hw1 & Hn1). destruct (hgetall_item_spec o hi1 flags _ _ Hv) as (l2 & -> & Hw2 & Hn2).
  cbn [mbind option_bind]. destruct (IH hi1 kvs Hl1) as (hi2 & l & -> & Hl2 & Hw & Hn); [cbn [length] in Hf; lia|]. cbn [mbind option_bind fst snd].
  eexists _, _. split; [done|]. split; [done|]. split.
  - rewrite bind_cons, !wire_app, Hw1, Hw2, Hw. unfold sent_of at 2. by rewrite wire_app, <- app_assoc.
  - rewrite !length_app, !Nat2Z.inj_add, Hn1, Hn2, Hn. cbn [length]. unfold per_pair. lia.
Qed.

Lemma hgetall_spec tables k m B flags : key_models k m B -> B < 2 ^ 32 ->
  exists r kvs, genericHgetallCommand (S (size m)) tables k flags = Some r /\ kvs ≡ₚ map_to_list m /\ key_models (out_key r) m B /\
    observe r = told (MultiBulkLen (Z.of_nat (size m) * per_pair flags) :: (kvs ≫= sent_of flags)) 0 [].
Proof.
  intros Hk HB. unfold genericHgetallCommand. destruct (lookup_read k m B emptymultibulk Hk) as [(-> & -> & ->)|(o & -> & Hne & Hm & ->)].
  { eexists _, []. split; [done|]. rewrite map_to_list_empty, map_size_empty. by split_and!. }
  destruct (hashTypeLength_spec o m B Hm) as (o1 & -> & Hm1). cbn [mbind option_bind].
  destruct (hashTypeInitIterator_spec tables o1 m B Hm1) as (kvs & Hl & Hnd & Em).
  assert (size m = length kvs) as Hsz by (rewrite Em; by apply size_kvs).
  destruct (hgetall_loop_spec tables o1 flags (S (size m)) (hashTypeInitIterator o1) kvs Hl) as (hi & l & -> & Hl' & Hw & Hn); [lia|].
  cbn [mbind option_bind fst snd]. rewrite (hashTypeReleaseIterator_spec tables o1 hi [] Hl'). cbn [mbind option_bind].
  fold (per_pair flags). rewrite Hn, Hsz, Z.eqb_refl. eexists _, kvs. split; [done|]. split_and!; [|done|].
  - rewrite Em. symmetry. by apply map_to_list_to_map.
  - unfold observe, told, reads. cbn [out_replies]. rewrite !wire_cons, Hw. rewrite swrap_small; [done|done|].
    pose proof (size_bound _ _ _ Hm). assert (0 <= per_pair flags <= 2) as Hp by (unfold per_pair; repeat destruct (negb _); lia). limits. nia.
Qed.

(** What a sequence of commands leaves at the key. *)
Lemma reach_models key cs k obs : Forall hcmd_ok cs -> Forall hshort cs -> 11 + hcosts cs < 2 ^ 32 ->
  hexecs key KNone cs = Some (k, obs) -> key_models k (hspecs ∅ cs).1 (11 + hcosts cs).
Proof.
  intros Hok Hs HB He. destruct (hexecs_spec key cs KNone ∅ 11) as (k' & He' & Hk); try done. rewrite He in He'. by injection He' as <- _.
Qed.

(** *** HINCRBYFLOAT *)

(** When the sum with 0 is infinite, the key that was created stays, with an empty hash. *)
Lemma hincrbyfloat_leaves_empty F key f i x : getLongDoubleFromObject F (OSds i) = Some x ->
  ld_isinf F (ld_add F (ld_of_ll F 0) x) = true ->
  exists o, hincrbyfloatCommand F KNone [bytes_of "hincrbyfloat"; key; f; i] =
      Some (mkOutcome (KHash o) [Error (bytes_of "increment would produce NaN or Infinity")] 0 false [], None) /\
    exists o', hashTypeLength o = Some (o', 0).
Proof.
  intros Hx Hinf. unfold hincrbyfloatCommand. cbn [mbind option_bind lookup list_lookup]. rewrite Hx.
  destruct (lookup_write KNone ∅ 11) as (o & -> & Hm); [done|]. cbn [mbind option_bind].
  destruct (hashTypeGetValue_spec o ∅ 11 f Hm) as (o1 & v & -> & Hm1 & Hv & _). cbn [mbind option_bind]. rewrite lookup_empty in Hv.
  destruct v; [done|]. rewrite Hinf, orb_true_r. eexists. split; [done|]. by destruct (hashTypeLength_spec o1 ∅ 11 Hm1) as (o2 & -> & _); exists o2.
Qed.
End thash.

(** ** Properties *)

(** The sizes a sequence of commands asks for are below the 4 GB of a ziplist. *)
Lemma hshort_all value cs : 11 + hcosts cs < 2 ^ 32 -> Forall (hshort value (2 ^ 32)) cs.
Proof.
  intros HB. apply Forall_forall. intros c Hc. assert (hcost c < 2 ^ 32) as Hcost.
  { revert HB. induction cs as [|c' cs IH]; [by apply not_elem_of_nil in Hc|].
    change (hcosts (c' :: cs)) with (hcost c' + hcosts cs). pose proof (hcost_nonneg c'). pose proof (hcosts_nonneg cs).
    apply elem_of_cons in Hc as [->|Hc]; [lia|]. intros. apply IH; [done|lia]. }
  destruct c as [name args|f v|f i| | | | | |]; try done; cbn [hcost hshort] in *.
  - right. apply Forall_forall. intros s Hs. unfold args_cost in Hcost. clear -Hs Hcost.
    induction args as [|a args IH]; [by apply not_elem_of_nil in Hs|]. cbn [sum_list_with] in Hcost. apply elem_of_cons in Hs as [->|Hs]; [lia|].
    apply IH; [lia|done].
  - right. unfold pair_cost in Hcost. lia.
  - unfold pair_cost in Hcost. lia.
Qed.

(** C13: the hash commands refine a finite map.  For any sequence of HSET, HMSET, HSETNX,
    HINCRBY, HDEL, HGET, HMGET, HLEN, HSTRLEN and HEXISTS on a key that is not there at first,
    any limits of the configuration, any hash function and any decision about resizing, as
    long as the arguments sum up to less than a ziplist can hold, every handler
    completes, and the bytes it replies, the changes it counts, the signal and the events
    are the ones of a finite map in which a key that does not exist is the empty map;
    so the encoding of the hash, its conversions and the rehashing of its dictionary are not
    observable, and the key exists exactly while the map is not empty. *)
Theorem hash_commands_refine `{HH : Host} (junk : nat -> byte) (hash : list byte -> Z) dict_can_resize entries value key cs :
  0 <= entries -> Forall hcmd_ok cs -> 11 + hcosts cs < 2 ^ 32 ->
  exists k, hexecs junk hash dict_can_resize entries value key KNone cs = Some (k, (hspecs ∅ cs).2) /\
    (k = KNone <-> (hspecs ∅ cs).1 = ∅) /\ k <> KOther.
Proof.
  intros He Hok HB. destruct (hexecs_spec junk hash dict_can_resize entries value (2 ^ 32) He key cs KNone ∅ 11) as (k & -> & Hk); try done.
  { by apply hshort_all. }
  exists k. split; [done|]. destruct k as [|o|]; cbn in Hk; [naive_solver|split; [|done]; split; [done|naive_solver]|done].
Qed.

(** C33: the limits of the compact encoding.  When every HINCRBY is on a field within the
    limit of the configuration for strings, and that limit is at least 20, the length of
    an integer in decimal, a hash that is still a ziplist has at most as many fields as the
    configuration allows, and no field or value is longer than it allows. *)
Theorem hash_encoding_limits `{HH : Host} (junk : nat -> byte) (hash : list byte -> Z) dict_can_resize entries value key cs zl obs :
  0 <= entries -> 20 <= value -> Forall hcmd_ok cs -> 11 + hcosts cs < 2 ^ 32 ->
  Forall (fun c => match c with HINCRBY f _ => Z.of_nat (length f) <= value | _ => True end) cs ->
  hexecs junk hash dict_can_resize entries value key KNone cs = Some (KHash (HashZL zl), obs) ->
  Z.of_nat (size (hspecs ∅ cs).1) <= entries /\
  map_Forall (fun f v => Z.of_nat (length f) <= value /\ Z.of_nat (length v) <= value) (hspecs ∅ cs).1.
Proof.
  intros He Hv Hok HB Hs Hrun. pose proof (reach_models junk hash dict_can_resize entries value value He key cs (KHash (HashZL zl)) obs Hok) as Hm.
  destruct Hm as [_ Hm]; [|done|exact Hrun|].
  { eapply Forall_impl; [exact Hs|]. intros [] Hc; cbn in *; auto; lia. }
  destruct Hm as (kvs & [_ Hnd Hc Hsh] & -> & _). split; [by rewrite size_kvs|].
  intros f v Hf. apply elem_of_list_to_map_2 in Hf. rewrite Forall_forall in Hsh. by apply (Hsh (f, v)).
Qed.

(** C34: reading a whole hash.  After any sequence of commands HGETALL, HKEYS and HVALS
    complete, with an iterator that never meets a changed dictionary; the length that
    is announced is the number of strings that follow, and these are the fields, the values or
    both of every pair of the map, each pair once, in some order.  Nothing changes. *)
Theorem hgetall_complete `{HH : Host} (junk : nat -> byte) (hash : list byte -> Z) dict_can_resize entries value key cs k obs tables flags :
  0 <= entries -> Forall hcmd_ok cs -> 11 + hcosts cs < 2 ^ 32 ->
  hexecs junk hash dict_can_resize entries value key KNone cs = Some (k, obs) ->
  exists r kvs, genericHgetallCommand (S (size (hspecs ∅ cs).1)) tables k flags = Some r /\
    kvs ≡ₚ map_to_list (hspecs ∅ cs).1 /\
    observe r = told (MultiBulkLen (Z.of_nat (length kvs) * per_pair flags) :: (kvs ≫= sent_of flags)) 0 [].
Proof.
  intros He Hok HB Hrun. pose proof (reach_models junk hash dict_can_resize entries value (2 ^ 32) He key cs _ _ Hok (hshort_all _ _ HB) HB Hrun) as Hk.
  destruct (hgetall_spec junk hash entries (2 ^ 32) tables k _ _ flags Hk HB) as (r & kvs & Hr & Hp & _ & Ho). exists r, kvs. split; [done|]. split; [done|].
  by rewrite Ho, (Permutation_length Hp), length_map_to_list.
Qed.

(** ** Examples and witnesses *)

Local Instance th_little : Host := false.
Definition th_key : list byte := bytes_of "k".
Definition th_hash (s : list byte) : Z := Z.of_nat (length s).

(** A hash with room for two fields, so that the third one converts it. *)
Definition th_script : list hcmd :=
  [HSET (bytes_of "hset") [bytes_of "a"; bytes_of "1"; bytes_of "bb"; bytes_of "x"];
   HINCRBY (bytes_of "a") (bytes_of "41"); HINCRBY (bytes_of "bb") (bytes_of "1"); HSETNX (bytes_of "ccc") (bytes_of "y");
   HDEL [bytes_of "bb"; bytes_of "zz"]; HMGET [bytes_of "a"; bytes_of "bb"]].

Lemma th_script_ok : Forall hcmd_ok th_script.
Proof. repeat constructor. Qed.

Lemma th_script_cost : 11 + hcosts th_script < 2 ^ 32.
Proof. by vm_compute. Qed.

Lemma hash_commands_refine_witness : Forall hcmd_ok th_script /\ 11 + hcosts th_script < 2 ^ 32 /\
  exists k, hexecs junk_zl th_hash true 2 64 th_key KNone th_script = Some (k, (hspecs ∅ th_script).2).
Proof.
  split; [exact th_script_ok|]. split; [exact th_script_cost|].
  destruct (hash_commands_refine junk_zl th_hash true 2 64 th_key th_script) as (k & Hk & _);
    [lia|exact th_script_ok|exact th_script_cost|]. by exists k.
Defined.

Definition th_final : keyval := default KOther (fst <$> hexecs junk_zl th_hash true 9 64 th_key KNone th_script).
Definition th_zl : list byte := match th_final with KHash (HashZL zl) => zl | _ => [] end.

Lemma hash_encoding_limits_witness : exists obs,
  hexecs junk_zl th_hash true 9 64 th_key KNone th_script = Some (KHash (HashZL th_zl), obs) /\
  Z.of_nat (size (hspecs ∅ th_script).1) <= 9.
Proof.
  exists (hspecs ∅ th_script).2.
  assert (hexecs junk_zl th_hash true 9 64 th_key KNone th_script = Some (KHash (HashZL th_zl), (hspecs ∅ th_script).2)) as Hr
    by (vm_compute; reflexivity).
  split; [exact Hr|].
  refine (proj1 (hash_encoding_limits junk_zl th_hash true 9 64 th_key th_script th_zl _ _ _ _ _ _ Hr));
    [lia|lia|exact th_script_ok|exact th_script_cost|]. repeat constructor; vm_compute; discriminate.
Defined.

Lemma hgetall_complete_witness : exists k obs r kvs,
  hexecs junk_zl th_hash true 2 64 th_key KNone th_script = Some (k, obs) /\
  genericHgetallCommand (S (size (hspecs ∅ th_script).1)) (0, 0) k 3 = Some r /\ kvs ≡ₚ map_to_list (hspecs ∅ th_script).1.
Proof.
  destruct (hexecs junk_zl th_hash true 2 64 th_key KNone th_script) as [[k obs]|] eqn:E; [|vm_compute in E; discriminate].
  destruct (hgetall_complete junk_zl th_hash true 2 64 th_key th_script k obs (0, 0) 3) as (r & kvs & Hr & Hp & _);
    [lia|exact th_script_ok|exact th_script_cost|exact E|]. exists k, obs, r, kvs. by split_and!.
Defined.

(** HINCRBY does not look at the length of a new field: the hash stays a ziplist
    although the field is longer than the configuration allows. *)
Example hincrby_long_field :
  match hexecs junk_zl th_hash true 9 64 th_key KNone [HINCRBY (long 100) (bytes_of "1")] with
  | Some (KHash (HashZL _), _) => True
  | _ => False
  end.
Proof. vm_compute. exact I. Qed.

(** With HSET the same field converts the hash. *)
Example hset_long_field :
  match hexecs junk_zl th_hash true 9 64 th_key KNone [HSET (bytes_of "hset") [long 100; bytes_of "1"]] with
  | Some (KHash (HashHT _), _) => True
  | _ => False
  end.
Proof. vm_compute. exact I. Qed.

(** A library with one infinite number and integers. *)
Definition toy_double : long_double :=
  mkLongDouble (option Z)
    (fun s => if bool_decide (take 3 s = bytes_of "inf") then (None, 3, 0) else (Some 0, 0, 0))
    (fun _ => false) (fun x => bool_decide (x = None)) (fun x => bool_decide (x = None \/ x = Some 0)) (fun _ => true)
    Some (fun x y => match x, y with Some x, Some y => Some (x + y) | _, _ => None end) (fun _ => []).

(** "HINCRBYFLOAT k f inf" on a key that is not there replies an error and leaves an
    empty hash. *)
Example hincrbyfloat_inf : exists o,
  hincrbyfloatCommand junk_zl th_hash true 9 toy_double KNone [bytes_of "hincrbyfloat"; th_key; bytes_of "f"; bytes_of "inf"] =
    Some (mkOutcome (KHash o) [Error (bytes_of "increment would produce NaN or Infinity")] 0 false [], None) /\
  exists o', hashTypeLength o = Some (o', 0).
Proof. apply (hincrbyfloat_leaves_empty junk_zl th_hash true 9 64 ltac:(lia) toy_double _ _ _ None); reflexivity. Qed.
