(* ===== verification/QuicklistDefs.v ===== *)
(** * Quicklists: the code (src/redis-5.0.7/src/quicklist.c)

    A quicklist is a doubly linked list of nodes that hold a ziplist each, compressed
    with LZF when the node is far enough from both ends.  The nodes are a list in the
    order of the links; [head] and [tail] are its ends, and a pointer to a node is its
    position, [None] for NULL.  The counters [count] and [len] are fields of their own,
    as in the code, which changes links and counters at different times.  The memory
    at [zl] is the block of bytes itself: a ziplist, or a quicklistLZF, the 32-bit size
    followed by the code; what the code does with it depends on [encoding], so a
    compressed block that is taken for a ziplist is read as one.

    [attempted_compress] exists for tests only and [container] never changes; both are left
    out, as is quicklistRelease(), which only frees. *)

From S2P Require Import Prelude Endian Util Lzf ZiplistDefs.
Local Open Scope Z_scope.

Definition SIZE_SAFETY_LIMIT : Z := 8192.
Definition MIN_COMPRESS_BYTES : Z := 48.
Definition MIN_COMPRESS_IMPROVE : Z := 8.
Definition optimization_level : list Z := [4096; 8192; 16384; 32768; 65536].
Definition COMPRESS_MAX : Z := 2 ^ 16.
Definition FILL_MAX : Z := 2 ^ 15.
Definition QUICKLIST_HEAD : Z := 0.
Definition QUICKLIST_TAIL : Z := -1.
Definition QUICKLIST_NODE_ENCODING_RAW : Z := 1.
Definition QUICKLIST_NODE_ENCODING_LZF : Z := 2.
Definition AL_START_HEAD : Z := 0.
Definition AL_START_TAIL : Z := 1.

Record quicklistNode := mkNode {
  n_zl : list byte;
  n_sz : Z;
  n_count : Z;
  n_encoding : Z;
  n_recompress : bool
}.

Record quicklist := mkQuicklist {
  q_nodes : list quicklistNode;
  q_count : Z;
  q_len : Z;
  q_fill : Z;                  (* a signed field of 16 bits *)
  q_compress : Z               (* an unsigned field of 16 bits *)
}.

Definition n_with_zl (n : quicklistNode) (zl : list byte) : quicklistNode :=
  mkNode zl (n_sz n) (n_count n) (n_encoding n) (n_recompress n).
Definition n_with_count (n : quicklistNode) (c : Z) : quicklistNode :=
  mkNode (n_zl n) (n_sz n) (u16 c) (n_encoding n) (n_recompress n).
Definition n_with_recompress (n : quicklistNode) (b : bool) : quicklistNode :=
  mkNode (n_zl n) (n_sz n) (n_count n) (n_encoding n) b.
Definition q_with_nodes (q : quicklist) (l : list quicklistNode) : quicklist :=
  mkQuicklist l (q_count q) (q_len q) (q_fill q) (q_compress q).
Definition q_with_count (q : quicklist) (c : Z) : quicklist :=
  mkQuicklist (q_nodes q) (u64 c) (q_len q) (q_fill q) (q_compress q).
Definition q_with_len (q : quicklist) (n : Z) : quicklist :=
  mkQuicklist (q_nodes q) (q_count q) (u64 n) (q_fill q) (q_compress q).

Definition q_head (q : quicklist) : option nat := match q_nodes q with [] => None | _ => Some 0%nat end.
Definition q_tail (q : quicklist) : option nat := match q_nodes q with [] => None | l => Some (length l - 1)%nat end.
Definition q_next (q : quicklist) (i : nat) : option nat := if bool_decide (S i < length (q_nodes q))%nat then Some (S i) else None.
Definition q_prev (i : nat) : option nat := match i with O => None | S i => Some i end.

(** Write back a node that was changed. *)
Definition q_set (q : quicklist) (i : nat) (n : quicklistNode) : quicklist := q_with_nodes q (<[i:=n]> (q_nodes q)).

(** ** Creation and options *)

Definition quicklistCreate : quicklist := mkQuicklist [] 0 0 (-2) 0.

Definition quicklistSetCompressDepth (q : quicklist) (compress : Z) : quicklist :=
  let compress := if compress >? COMPRESS_MAX then COMPRESS_MAX else if compress <? 0 then 0 else compress in
  mkQuicklist (q_nodes q) (q_count q) (q_len q) (q_fill q) (u16 compress).

Definition quicklistSetFill (q : quicklist) (fill : Z) : quicklist :=
  let fill := if fill >? FILL_MAX then FILL_MAX else if fill <? -5 then -5 else fill in
  mkQuicklist (q_nodes q) (q_count q) (q_len q) (s16 fill) (q_compress q).

Definition quicklistSetOptions (q : quicklist) (fill depth : Z) : quicklist :=
  quicklistSetCompressDepth (quicklistSetFill q fill) depth.

Definition quicklistNew (fill compress : Z) : quicklist := quicklistSetOptions quicklistCreate fill compress.

(** [zl] is NULL at first; every caller stores a block there. *)
Definition quicklistCreateNode (zl : list byte) : quicklistNode := mkNode zl 0 0 QUICKLIST_NODE_ENCODING_RAW false.

Definition quicklistCount (q : quicklist) : Z := q_count q.

Section quicklist.
Context `{Host} (junk : nat -> byte).
Context (uninit : Z -> Z).                    (* the hash table of lzf_compress() *)

(** ** Compression *)

(** The fields of a quicklistLZF. *)
Definition lzf_sz (lzf : list byte) : option Z := host_val <$> load lzf 0 4.
Definition lzf_compressed (lzf : list byte) : option (list byte) := sz ← lzf_sz lzf; load lzf 4 sz.

(** Returns the node and whether it was compressed. *)
Definition __quicklistCompressNode (n : quicklistNode) : option (quicklistNode * bool) :=
  if n_sz n <? MIN_COMPRESS_BYTES then Some (n, false)
  else
    zl ← load (n_zl n) 0 (n_sz n);
    r ← lzf_compress uninit zl (malloc junk (n_sz n));
    let '(out, sz) := r in
    if (sz =? 0) || (u32 (sz + MIN_COMPRESS_IMPROVE) >=? n_sz n) then Some (n, false)
    else
      code ← load out 0 sz;
      Some (mkNode (host_bytes 4 sz ++ code) (n_sz n) (n_count n) QUICKLIST_NODE_ENCODING_LZF false, true).

Definition quicklistCompressNode (n : quicklistNode) : option quicklistNode :=
  if n_encoding n =? QUICKLIST_NODE_ENCODING_RAW then r ← __quicklistCompressNode n; Some r.1 else Some n.

(** Returns the node and whether it was decompressed. *)
Definition __quicklistDecompressNode (n : quicklistNode) : option (quicklistNode * bool) :=
  code ← lzf_compressed (n_zl n);
  r ← lzf_decompress code (malloc junk (n_sz n));
  let '(decompressed, len, _) := r in
  if len =? 0 then Some (n, false)
  else Some (mkNode decompressed (n_sz n) (n_count n) QUICKLIST_NODE_ENCODING_RAW (n_recompress n), true).

Definition quicklistDecompressNode (n : quicklistNode) : option quicklistNode :=
  if n_encoding n =? QUICKLIST_NODE_ENCODING_LZF then r ← __quicklistDecompressNode n; Some r.1 else Some n.

Definition quicklistDecompressNodeForUse (n : quicklistNode) : option quicklistNode :=
  if n_encoding n =? QUICKLIST_NODE_ENCODING_LZF
  then r ← __quicklistDecompressNode n; Some (n_with_recompress r.1 true) else Some n.

(** A macro on a node that may be NULL. *)
Definition on_node (f : quicklistNode -> option quicklistNode) (q : quicklist) (i : option nat) : option quicklist :=
  match i with
  | None => Some q
  | Some i => n ← q_nodes q !! i; n ← f n; Some (q_set q i n)
  end.

(** The code of a compressed node. *)
Definition quicklistGetLzf (n : quicklistNode) : option (list byte) := lzf_compressed (n_zl n).

Definition quicklistAllowsCompression (q : quicklist) : bool := negb (q_compress q =? 0).

(** The [while] loop, [steps] rounds from the end; [inl] is the return from inside the loop,
    otherwise [forward], [reverse] and [in_depth] are returned. *)
Fixpoint compress_ends (steps : nat) (q : quicklist) (forward reverse node : option nat) (in_depth : bool)
    : option (quicklist + quicklist * option nat * option nat * bool) :=
  match steps with
  | O => Some (inr (q, forward, reverse, in_depth))
  | S steps =>
      q ← on_node quicklistDecompressNode q forward;
      q ← on_node quicklistDecompressNode q reverse;
      let in_depth := in_depth || bool_decide (forward = node \/ reverse = node) in
      if bool_decide (forward = reverse) then Some (inl q)
      else
        f ← forward; r ← reverse;               (* forward->next, reverse->prev *)
        compress_ends steps q (q_next q f) (q_prev r) node in_depth
  end.

Definition __quicklistCompress (q : quicklist) (node : option nat) : option quicklist :=
  if negb (quicklistAllowsCompression q) || (q_len q <? u32 (q_compress q * 2)) then Some q
  else
    r ← compress_ends (Z.to_nat (q_compress q)) q (q_head q) (q_tail q) node false;
    match r with
    | inl q => Some q
    | inr (q, forward, reverse, in_depth) =>
        q ← (if (in_depth : bool) then Some q else on_node quicklistCompressNode q node);
        if q_compress q + 1 >? 2 then
          q ← on_node quicklistCompressNode q forward;
          on_node quicklistCompressNode q reverse
        else Some q
    end.

Definition quicklistCompress (q : quicklist) (i : nat) : option quicklist :=
  n ← q_nodes q !! i;
  if n_recompress n then on_node quicklistCompressNode q (Some i) else __quicklistCompress q (Some i).

Definition quicklistRecompressOnly (q : quicklist) (i : nat) : option quicklist :=
  n ← q_nodes q !! i;
  if n_recompress n then on_node quicklistCompressNode q (Some i) else Some q.

(** ** Nodes *)

(** [new_node] after or before [old_node].  Without an old node it becomes the only one of
    an empty list; in another one it would not be linked. *)
Definition __quicklistInsertNode (q : quicklist) (old_node : option nat) (new_node : quicklistNode) (after : bool) : option quicklist :=
  q ← (match old_node with
       | Some i =>
           let k := if after then S i else i in
           let q := q_with_nodes q (take k (q_nodes q) ++ new_node :: drop k (q_nodes q)) in
           quicklistCompress q (if after then i else S i)
       | None => Some (if q_len q =? 0 then q_with_nodes q [new_node] else q)
       end);
  Some (q_with_len q (q_len q + 1)).

Definition _quicklistInsertNodeBefore (q : quicklist) (old_node : option nat) (new_node : quicklistNode) : option quicklist :=
  __quicklistInsertNode q old_node new_node false.

Definition _quicklistInsertNodeAfter (q : quicklist) (old_node : option nat) (new_node : quicklistNode) : option quicklist :=
  __quicklistInsertNode q old_node new_node true.

Definition _quicklistNodeSizeMeetsOptimizationRequirement (sz fill : Z) : bool :=
  if fill >=? 0 then false
  else match optimization_level !! Z.to_nat (- fill - 1) with Some l => sz <=? l | None => false end.

Definition sizeMeetsSafetyLimit (sz : Z) : bool := sz <=? SIZE_SAFETY_LIMIT.

Definition _quicklistNodeAllowInsert (node : option quicklistNode) (fill sz : Z) : bool :=
  match node with
  | None => false
  | Some n =>
      let ziplist_overhead := (if sz <? 254 then 1 else 5) + (if sz <? 64 then 1 else if sz <? 16384 then 2 else 5) in
      let new_sz := u32 (n_sz n + sz + ziplist_overhead) in
      if _quicklistNodeSizeMeetsOptimizationRequirement new_sz fill then true
      else if negb (sizeMeetsSafetyLimit new_sz) then false
      else n_count n <? fill
  end.

Definition _quicklistNodeAllowMerge (a b : option quicklistNode) (fill : Z) : bool :=
  match a, b with
  | Some a, Some b =>
      let merge_sz := u32 (n_sz a + n_sz b - 11) in
      if _quicklistNodeSizeMeetsOptimizationRequirement merge_sz fill then true
      else if negb (sizeMeetsSafetyLimit merge_sz) then false
      else n_count a + n_count b <=? fill
  | _, _ => false
  end.

Definition quicklistNodeUpdateSz (n : quicklistNode) : option quicklistNode :=
  sz ← ziplistBlobLen (n_zl n);
  Some (mkNode (n_zl n) sz (n_count n) (n_encoding n) (n_recompress n)).

(** The node at a pointer that may be NULL. *)
Definition node_at (q : quicklist) (i : option nat) : option quicklistNode := i ← i; q_nodes q !! i.

(** A node with one more element in its ziplist, and a new node with one element. *)
Definition push_into (n : quicklistNode) (value : list byte) (where_ : Z) : option quicklistNode :=
  zl ← ziplistPush junk (n_zl n) value where_;
  quicklistNodeUpdateSz (n_with_zl n zl).

Definition new_node_with (value : list byte) (where_ : Z) : option quicklistNode :=
  zl ← ziplistNew junk;
  zl ← ziplistPush junk zl value where_;
  quicklistNodeUpdateSz (quicklistCreateNode zl).

(** [node->count++] *)
Definition bump (q : quicklist) (i : option nat) : option quicklist :=
  i ← i; n ← q_nodes q !! i;
  Some (q_set q i (n_with_count n (n_count n + 1))).

(** ** Pushing *)

(** Returns the list and whether a node was added. *)
Definition quicklistPushHead (q : quicklist) (value : list byte) : option (quicklist * bool) :=
  let allowed := _quicklistNodeAllowInsert (node_at q (q_head q)) (q_fill q) (Z.of_nat (length value)) in
  q ← (if allowed then
         h ← node_at q (q_head q);
         h ← push_into h value ZIPLIST_HEAD;
         Some (q_set q 0 h)
       else
         node ← new_node_with value ZIPLIST_HEAD;
         _quicklistInsertNodeBefore q (q_head q) node);
  q ← bump (q_with_count q (q_count q + 1)) (q_head q);
  Some (q, negb allowed).

Definition quicklistPushTail (q : quicklist) (value : list byte) : option (quicklist * bool) :=
  let allowed := _quicklistNodeAllowInsert (node_at q (q_tail q)) (q_fill q) (Z.of_nat (length value)) in
  q ← (if allowed then
         i ← q_tail q; t ← q_nodes q !! i;
         t ← push_into t value ZIPLIST_TAIL;
         Some (q_set q i t)
       else
         node ← new_node_with value ZIPLIST_TAIL;
         _quicklistInsertNodeAfter q (q_tail q) node);
  q ← bump (q_with_count q (q_count q + 1)) (q_tail q);
  Some (q, negb allowed).

Definition quicklistPush (q : quicklist) (value : list byte) (where_ : Z) : option quicklist :=
  if where_ =? QUICKLIST_HEAD then r ← quicklistPushHead q value; Some r.1
  else if where_ =? QUICKLIST_TAIL then r ← quicklistPushTail q value; Some r.1
  else Some q.

(** A ziplist as a node of its own. *)
Definition quicklistAppendZiplist (q : quicklist) (zl : list byte) : option quicklist :=
  r ← ziplistLen zl;
  let '(zl, len) := r in
  sz ← ziplistBlobLen zl;
  let node := mkNode zl sz (u16 len) QUICKLIST_NODE_ENCODING_RAW false in
  q ← _quicklistInsertNodeAfter q (q_tail q) node;
  Some (q_with_count q (q_count q + n_count node)).

(** The value at an entry as a string: integers are printed into a buffer. *)
Definition entry_string (zl : list byte) (v : zl_value) : option (list byte) :=
  match v with
  | ZlStr p n => load zl p n
  | ZlInt longval => r ← ll2string (replicate 32 0) 32 longval; load r.1 0 r.2
  end.

Fixpoint append_values (fuel : nat) (q : quicklist) (zl : list byte) (p : option Z) : option quicklist :=
  match fuel with
  | O => None
  | S fuel =>
      r ← ziplistGet zl p;
      match r, p with
      | Some v, Some p =>
          value ← entry_string zl v;
          r ← quicklistPushTail q value;
          p ← ziplistNext zl p;
          append_values fuel r.1 zl p
      | _, _ => Some q
      end
  end.

Definition quicklistAppendValuesFromZiplist (q : quicklist) (zl : list byte) : option quicklist :=
  p ← ziplistIndex zl 0;
  append_values (length zl) q zl p.

Definition quicklistCreateFromZiplist (fill compress : Z) (zl : list byte) : option quicklist :=
  quicklistAppendValuesFromZiplist (quicklistNew fill compress) zl.

(** ** Deletion *)

Definition __quicklistDelNode (q : quicklist) (i : nat) : option quicklist :=
  node ← q_nodes q !! i;
  let q := q_with_nodes q (delete i (q_nodes q)) in
  q ← __quicklistCompress q None;
  let q := q_with_count q (q_count q - n_count node) in
  Some (q_with_len q (q_len q - 1)).

(** Returns the list, the pointer to the next entry and whether the node was deleted. *)
Definition quicklistDelIndex (q : quicklist) (i : nat) (p : Z) : option (quicklist * Z * bool) :=
  node ← q_nodes q !! i;
  r ← ziplistDelete junk (n_zl node) p;
  let '(zl, p) := r in
  let node := n_with_count (n_with_zl node zl) (n_count node - 1) in
  r ← (if n_count node =? 0 then
         q ← __quicklistDelNode (q_set q i node) i; Some (q, true)
       else
         node ← quicklistNodeUpdateSz node; Some (q_set q i node, false));
  let '(q, gone) := r in
  Some (q_with_count q (q_count q - 1), p, gone).

Record quicklistIter := mkQIter { it_current : option nat; it_zi : option Z; it_offset : Z; it_direction : Z }.

(** The value is that of ziplistGet(); it is absent before the first one is read. *)
Record quicklistEntry := mkEntry { en_node : option nat; en_zi : option Z; en_value : option zl_value; en_offset : Z }.

Definition initEntry : quicklistEntry := mkEntry None None None 123456789.

(** Returns the list and the iterator.  When the node of the entry is gone, the node that
    followed it has its position. *)
Definition quicklistDelEntry (q : quicklist) (iter : quicklistIter) (entry : quicklistEntry) : option (quicklist * quicklistIter) :=
  i ← en_node entry; zi ← en_zi entry;
  let has_next := bool_decide (is_Some (q_next q i)) in
  r ← quicklistDelIndex q i zi;
  let '(q, _, deleted_node) := r in
  Some (q,
    if (deleted_node : bool) then
      if it_direction iter =? AL_START_HEAD then mkQIter (if (has_next : bool) then Some i else None) None 0 (it_direction iter)
      else if it_direction iter =? AL_START_TAIL then mkQIter (q_prev i) None (-1) (it_direction iter)
      else mkQIter (it_current iter) None (it_offset iter) (it_direction iter)
    else mkQIter (it_current iter) None (it_offset iter) (it_direction iter)).

(** ** Look-up *)

(** The [while] loop over the nodes, from either end; [rest] are the nodes from the one at
    [i] on in that direction.  Returns the position and [accum]. *)
Fixpoint index_node (rest : list quicklistNode) (forward : bool) (i : nat) (accum index : Z) : option (nat * Z) :=
  match rest with
  | [] => None
  | n :: rest =>
      if u64 (accum + n_count n) >? index then Some (i, accum)
      else index_node rest forward (if forward then S i else i - 1)%nat (u64 (accum + n_count n)) index
  end.

(** Returns the list, whose node may be decompressed, and the entry, [None] for 0. *)
Definition quicklistIndex (q : quicklist) (idx : Z) : option (quicklist * option quicklistEntry) :=
  if idx =? LLONG_MIN then None                   (* -idx overflows *)
  else
  let forward := negb (idx <? 0) in
  let index := if forward then idx else - idx - 1 in
  if index >=? q_count q then Some (q, None)
  else
    match (if forward then index_node (q_nodes q) true 0 0 index
           else index_node (rev (q_nodes q)) false (length (q_nodes q) - 1) 0 index) with
    | None => Some (q, None)
    | Some (i, accum) =>
        let offset := s32 (if forward then index - accum else - index - 1 + accum) in
        q ← on_node quicklistDecompressNodeForUse q (Some i);
        n ← q_nodes q !! i;
        zi ← ziplistIndex (n_zl n) offset;
        v ← ziplistGet (n_zl n) zi;
        Some (q, Some (mkEntry (Some i) zi v offset))
    end.

Definition quicklistReplaceAtIndex (q : quicklist) (index : Z) (data : list byte) : option (quicklist * bool) :=
  r ← quicklistIndex q index;
  match r with
  | (q, None) => Some (q, false)
  | (q, Some entry) =>
      i ← en_node entry; zi ← en_zi entry; n ← q_nodes q !! i;
      r ← ziplistDelete junk (n_zl n) zi;
      let '(zl, zi) := r in
      zl ← ziplistInsert junk zl zi data;
      n ← quicklistNodeUpdateSz (n_with_zl n zl);
      q ← quicklistCompress (q_set q i n) i;
      Some (q, true)
  end.

(** ** Merging and splitting *)

(** [a] and [b] are neighbours; returns the position of the node that is kept, [None] for
    NULL. *)
Definition _quicklistZiplistMerge (q : quicklist) (a b : nat) : option (quicklist * option nat) :=
  q ← on_node quicklistDecompressNode q (Some a);
  q ← on_node quicklistDecompressNode q (Some b);
  na ← q_nodes q !! a; nb ← q_nodes q !! b;
  r ← ziplistMerge junk (Some (n_zl na)) (Some (n_zl nb)) (bool_decide (a = b));
  match r with
  | None => Some (q, None)
  | Some (merged, first, second) =>
      let '(keep, nokeep) := match first with None => (b, a) | Some _ => (a, b) end in
      k ← q_nodes q !! keep; k' ← q_nodes q !! nokeep;
      r ← ziplistLen merged;
      k ← quicklistNodeUpdateSz (n_with_count (n_with_zl k r.1) r.2);
      let q := q_set (q_set q keep k) nokeep (n_with_count k' 0) in
      q ← __quicklistDelNode q nokeep;
      let keep := if bool_decide (nokeep < keep)%nat then (keep - 1)%nat else keep in
      q ← quicklistCompress q keep;
      Some (q, Some keep)
  end.

(** A merge that removes a node moves the positions of the nodes after it. *)
Definition merge_if (q : quicklist) (a b : option nat) (allowed : bool) : option (quicklist * option nat * bool) :=
  if allowed then
    a ← a; b ← b;
    r ← _quicklistZiplistMerge q a b; Some (r.1, r.2, true)
  else Some (q, None, false).

Definition _quicklistMergeNodes (q : quicklist) (center : nat) : option quicklist :=
  let fill := q_fill q in
  let prev := q_prev center in
  let prev_prev := prev ≫= q_prev in
  r ← merge_if q prev_prev prev (_quicklistNodeAllowMerge (node_at q prev) (node_at q prev_prev) fill);
  let '(q, kept, _) := r in
  let center := match kept with Some _ => (center - 1)%nat | None => center end in
  let next := q_next q center in
  let next_next := next ≫= q_next q in
  r ← merge_if q next next_next (_quicklistNodeAllowMerge (node_at q next) (node_at q next_next) fill);
  let '(q, _, _) := r in
  r ← merge_if q (q_prev center) (Some center) (_quicklistNodeAllowMerge (node_at q (Some center)) (node_at q (q_prev center)) fill);
  let '(q, target, merged) := r in
  target ← (if (merged : bool) then target else Some center);        (* target->next *)
  r ← merge_if q (Some target) (q_next q target)
        (_quicklistNodeAllowMerge (node_at q (Some target)) (node_at q (q_next q target)) fill);
  Some r.1.1.

(** Returns the node with what it keeps, and the new node. *)
Definition _quicklistSplitNode (node : quicklistNode) (offset : Z) (after : bool) : option (quicklistNode * quicklistNode) :=
  copy ← load (n_zl node) 0 (n_sz node);
  let orig_start := if after then offset + 1 else 0 in
  let orig_extent := if after then -1 else offset in
  let new_start := if after then 0 else offset in
  let new_extent := if after then offset + 1 else -1 in
  zl ← ziplistDeleteRange junk (n_zl node) orig_start (u32 orig_extent);
  r ← ziplistLen zl;
  node ← quicklistNodeUpdateSz (n_with_count (n_with_zl node r.1) r.2);
  zl ← ziplistDeleteRange junk copy new_start (u32 new_extent);
  r ← ziplistLen zl;
  new_node ← quicklistNodeUpdateSz (n_with_count (quicklistCreateNode r.1) r.2);
  Some (node, new_node).

(** ** Insertion *)

(** [quicklistDecompressNodeForUse(n)], a change of the ziplist, [n->count++], the new size,
    [quicklistRecompressOnly(ql, n)] *)
Definition insert_into (q : quicklist) (i : nat) (change : list byte -> option (list byte)) : option quicklist :=
  q ← on_node quicklistDecompressNodeForUse q (Some i);
  n ← q_nodes q !! i;
  zl ← change (n_zl n);
  n ← quicklistNodeUpdateSz (n_with_count (n_with_zl n zl) (n_count n + 1));
  quicklistRecompressOnly (q_set q i n) i.

Definition insert_after_entry (zi : option Z) (value zl : list byte) : option (list byte) :=
  zi ← zi;
  next ← ziplistNext zl zi;
  match next with
  | None => ziplistPush junk zl value ZIPLIST_TAIL
  | Some next => ziplistInsert junk zl next value
  end.

Definition insert_before_entry (zi : option Z) (value zl : list byte) : option (list byte) :=
  zi ← zi; ziplistInsert junk zl zi value.

(** The node is full: it is split and the value goes between the parts. *)
Definition split_and_insert (q : quicklist) (i : nat) (offset : Z) (value : list byte) (after : bool) : option quicklist :=
  q ← on_node quicklistDecompressNodeForUse q (Some i);
  n ← q_nodes q !! i;
  r ← _quicklistSplitNode n offset after;
  let '(n, new_node) := r in
  zl ← ziplistPush junk (n_zl new_node) value (if after then ZIPLIST_HEAD else ZIPLIST_TAIL);
  new_node ← quicklistNodeUpdateSz (n_with_count (n_with_zl new_node zl) (n_count new_node + 1));
  q ← __quicklistInsertNode (q_set q i n) (Some i) new_node after;
  _quicklistMergeNodes q (if after then i else S i).

Definition _quicklistInsert (q : quicklist) (entry : quicklistEntry) (value : list byte) (after : bool) : option quicklist :=
  let fill := q_fill q in
  let sz := Z.of_nat (length value) in
  match en_node entry with
  | None =>
      zl ← ziplistNew junk;
      zl ← ziplistPush junk zl value ZIPLIST_HEAD;
      q ← __quicklistInsertNode q None (n_with_count (quicklistCreateNode zl) 1) after;
      Some (q_with_count q (q_count q + 1))
  | Some i =>
      n ← q_nodes q !! i;
      let full := negb (_quicklistNodeAllowInsert (Some n) fill sz) in
      let at_tail := after && (en_offset entry =? n_count n) in
      let full_next := at_tail && negb (_quicklistNodeAllowInsert (node_at q (q_next q i)) fill sz) in
      let at_head := negb after && (en_offset entry =? 0) in
      let full_prev := at_head && negb (_quicklistNodeAllowInsert (node_at q (q_prev i)) fill sz) in
      q ← (if negb full && after then insert_into q i (insert_after_entry (en_zi entry) value)
           else if negb full && negb after then insert_into q i (insert_before_entry (en_zi entry) value)
           else
             match q_next q i, q_prev i with
             | next, prev =>
                 if full && at_tail && bool_decide (is_Some next) && negb full_next && after then
                   k ← next; insert_into q k (fun zl => ziplistPush junk zl value ZIPLIST_HEAD)
                 else if full && at_head && bool_decide (is_Some prev) && negb full_prev && negb after then
                   k ← prev; insert_into q k (fun zl => ziplistPush junk zl value ZIPLIST_TAIL)
                 else if full && (at_tail && bool_decide (is_Some next) && full_next && after ||
                                  at_head && bool_decide (is_Some prev) && full_prev && negb after) then
                   new_node ← new_node_with value ZIPLIST_HEAD;
                   __quicklistInsertNode q (Some i) (n_with_count new_node 1) after
                 else if full then split_and_insert q i (en_offset entry) value after
                 else Some q
             end);
      Some (q_with_count q (q_count q + 1))
  end.

Definition quicklistInsertBefore (q : quicklist) (entry : quicklistEntry) (value : list byte) : option quicklist :=
  _quicklistInsert q entry value false.

Definition quicklistInsertAfter (q : quicklist) (entry : quicklistEntry) (value : list byte) : option quicklist :=
  _quicklistInsert q entry value true.

(** ** Ranges *)

(** Whether the whole node goes, and how many elements do. *)
Definition range_part (count offset extent : Z) : bool * Z :=
  if (offset =? 0) && (extent >=? count) then (true, count)
  else if (offset >=? 0) && (extent >=? count) then (false, count - offset)
  else if offset <? 0 then (false, if u64 (- offset) >? extent then extent else u64 (- offset))
  else (false, extent).

(** A round of the loop on the node at [i]; returns the list and the position of the node
    that was the next one. *)
Definition del_part (q : quicklist) (i : nat) (n : quicklistNode) (offset : Z) (entire : bool) (del : Z) : option (quicklist * nat) :=
  if entire then q ← __quicklistDelNode q i; Some (q, i)
  else
    n ← quicklistDecompressNodeForUse n;
    zl ← ziplistDeleteRange junk (n_zl n) offset (u32 del);
    n ← quicklistNodeUpdateSz (n_with_zl n zl);
    let n := n_with_count n (n_count n - del) in
    let q := q_with_count (q_set q i n) (q_count q - del) in
    if n_count n =? 0 then q ← __quicklistDelNode q i; Some (q, i)
    else q ← quicklistRecompressOnly q i; Some (q, S i).

Fixpoint del_range_loop (fuel : nat) (q : quicklist) (i : nat) (offset extent : Z) : option quicklist :=
  if extent =? 0 then Some q
  else
    match fuel with
    | O => None
    | S fuel =>
        n ← q_nodes q !! i;
        let '(entire, del) := range_part (n_count n) offset extent in
        r ← del_part q i n offset entire del;
        del_range_loop fuel r.1 r.2 0 (u64 (extent - del))
    end.

Definition quicklistDelRange (q : quicklist) (start count : Z) : option (quicklist * bool) :=
  if count <=? 0 then Some (q, false)
  else
    let extent := if (start >=? 0) && (count >? u64 (q_count q - start)) then u64 (q_count q - start)
                  else if (start <? 0) && (count >? u64 (- start)) then u64 (- start) else count in
    r ← quicklistIndex q start;
    match r with
    | (q, None) => Some (q, false)
    | (q, Some entry) =>
        i ← en_node entry;
        q ← del_range_loop (length (q_nodes q)) q i (en_offset entry) extent;
        Some (q, true)
    end.

(** ** Iteration *)

Definition quicklistGetIterator (q : quicklist) (direction : Z) : quicklistIter :=
  if direction =? AL_START_HEAD then mkQIter (q_head q) None 0 direction
  else mkQIter (q_tail q) None (-1) direction.

(** Returns the list, whose node may be decompressed, and the iterator or NULL. *)
Definition quicklistGetIteratorAtIdx (q : quicklist) (direction idx : Z) : option (quicklist * option quicklistIter) :=
  r ← quicklistIndex q idx;
  match r with
  | (q, None) => Some (q, None)
  | (q, Some entry) => Some (q, Some (mkQIter (en_node entry) None (en_offset entry) direction))
  end.

Definition quicklistReleaseIterator (q : quicklist) (iter : quicklistIter) : option quicklist :=
  match it_current iter with Some i => quicklistCompress q i | None => Some q end.

(** The recursion goes from node to node.  Returns the list, the iterator and the entry,
    [None] for 0. *)
Fixpoint next_loop (fuel : nat) (q : quicklist) (iter : quicklistIter) : option (quicklist * quicklistIter * option quicklistEntry) :=
  match it_current iter with
  | None => Some (q, iter, None)
  | Some i =>
      match fuel with
      | O => None
      | S fuel =>
          let dir := it_direction iter in
          r ← (match it_zi iter with
               | None =>
                   q ← on_node quicklistDecompressNodeForUse q (Some i);
                   n ← q_nodes q !! i;
                   zi ← ziplistIndex (n_zl n) (s32 (it_offset iter));
                   Some (q, zi, it_offset iter)
               | Some zi =>
                   n ← q_nodes q !! i;
                   if dir =? AL_START_HEAD then zi ← ziplistNext (n_zl n) zi; Some (q, zi, it_offset iter + 1)
                   else zi ← ziplistPrev (n_zl n) zi; Some (q, zi, it_offset iter - 1)
               end);
          let '(q, zi, offset) := r in
          match zi with
          | Some p =>
              n ← q_nodes q !! i;
              v ← ziplistGet (n_zl n) (Some p);
              Some (q, mkQIter (Some i) zi offset dir, Some (mkEntry (Some i) zi v (s32 offset)))
          | None =>
              q ← quicklistCompress q i;
              next_loop fuel q
                (if dir =? AL_START_HEAD then mkQIter (q_next q i) None 0 dir else mkQIter (q_prev i) None (-1) dir)
          end
      end
  end.

Definition quicklistNext (q : quicklist) (iter : quicklistIter) : option (quicklist * quicklistIter * option quicklistEntry) :=
  next_loop (S (length (q_nodes q))) q iter.

(** ** Copies, rotation, pop *)

Definition dup_node (current : quicklistNode) : option quicklistNode :=
  zl ← (if n_encoding current =? QUICKLIST_NODE_ENCODING_LZF then sz ← lzf_sz (n_zl current); load (n_zl current) 0 (4 + sz)
        else load (n_zl current) 0 (n_sz current));
  Some (mkNode zl (n_sz current) (n_count current) (n_encoding current) false).

Fixpoint dup_loop (copy : quicklist) (l : list quicklistNode) : option quicklist :=
  match l with
  | [] => Some copy
  | current :: l =>
      node ← dup_node current;
      copy ← _quicklistInsertNodeAfter (q_with_count copy (q_count copy + n_count node)) (q_tail copy) node;
      dup_loop copy l
  end.

Definition quicklistDup (orig : quicklist) : option quicklist :=
  dup_loop (quicklistNew (q_fill orig) (q_compress orig)) (q_nodes orig).

Definition quicklistRotate (q : quicklist) : option quicklist :=
  if q_count q <=? 1 then Some q
  else
    t ← node_at q (q_tail q);
    p ← ziplistIndex (n_zl t) (-1);
    v ← ziplistGet (n_zl t) p;
    v ← v;
    value ← entry_string (n_zl t) v;
    r ← quicklistPushHead q value;
    let q := r.1 in
    i ← q_tail q; t ← q_nodes q !! i;
    p ← (if q_len q =? 1 then ziplistIndex (n_zl t) (-1) else Some p);
    p ← p;
    r ← quicklistDelIndex q i p;
    Some r.1.1.

(** What a pop stores: a saved string or an integer. *)
Inductive popped := PopData (data : list byte) | PopInt (sval : Z).

Definition quicklistPopCustom (q : quicklist) (where_ : Z) : option (quicklist * option popped) :=
  let pos := if where_ =? QUICKLIST_HEAD then 0 else -1 in
  if q_count q =? 0 then Some (q, None)
  else
    match (if where_ =? QUICKLIST_HEAD then q_head q else if where_ =? QUICKLIST_TAIL then q_tail q else None) with
    | None => Some (q, None)
    | Some i =>
        n ← q_nodes q !! i;
        p ← ziplistIndex (n_zl n) pos;
        v ← ziplistGet (n_zl n) p;
        match v, p with
        | Some v, Some p =>
            d ← (match v with ZlStr s len => d ← load (n_zl n) s len; Some (PopData d) | ZlInt vlong => Some (PopInt vlong) end);
            r ← quicklistDelIndex q i p;
            Some (r.1.1, Some d)
        | _, _ => Some (q, None)
        end
    end.

Definition quicklistPop (q : quicklist) (where_ : Z) : option (quicklist * option popped) :=
  if q_count q =? 0 then Some (q, None) else quicklistPopCustom q where_.

Definition quicklistCompare (zl : list byte) (p1 : Z) (p2 : list byte) : option bool := ziplistCompare zl p1 p2.
End quicklist.
