(* ===== verification/Quicklist.v ===== *)
(** * Quicklists: what they represent

    A node represents the elements of its ziplist, compressed or not; a quicklist
    represents the concatenation of its nodes, none of which is empty.  [comp_ok] says
    which nodes are never compressed: all of them without compression, otherwise the
    two ends, and all of a list with fewer nodes than twice the depth.  Operations that
    only work at the ends keep it for every depth; the ones that decompress a node for
    use are specified for lists without compression. *)

From S2P Require Import Prelude Endian Util Lzf Listpack ZiplistDefs Ziplist ZiplistOps QuicklistDefs.
Local Open Scope Z_scope.

(** All the elements of a list together would fit into one ziplist. *)
Abbreviation ql_max := (2 ^ 32 - 64).

Section quicklist.
Context `{HH : Host} (junk : nat -> byte) (uninit : Z -> Z).
Implicit Types n : quicklistNode.
Implicit Types q : quicklist.
Implicit Types es : list (list byte).
Implicit Types ess : list (list (list byte)).
Implicit Types x : list (list byte) * Z.           (* the elements of a node and its count *)
Implicit Types xs : list (list (list byte) * Z).

(** ** Nodes *)

Definition raw n : Prop := n_encoding n = QUICKLIST_NODE_ENCODING_RAW.

Definition node_zl n (zl : list byte) : Prop :=
  raw n /\ n_zl n = zl \/
  n_encoding n = QUICKLIST_NODE_ENCODING_LZF /\
  exists code, code <> [] /\ Z.of_nat (length code) < 2 ^ 32 /\ n_zl n = host_bytes 4 (Z.of_nat (length code)) ++ code /\ decodes code zl.

Record node_ok n x : Prop := {
  nk_zl : exists zl, node_zl n zl /\ zl_holds zl x.1 /\ n_sz n = Z.of_nat (length zl);
  nk_count : n_count n = x.2;
  nk_recompress : n_recompress n = false
}.

Lemma zrepr_length zl rs : zl_repr zl rs -> Z.of_nat (length zl) = 11 + zlen rs.
Proof.
  intros (num & -> & _ & _ & _). unfold block. rewrite !length_app, zheader_length. cbn [length].
  rewrite <- (zbody_length 0 rs). lia.
Qed.

Lemma holds_length zl es : zl_holds zl es -> 11 + 2 * Z.of_nat (length es) <= Z.of_nat (length zl) < 2 ^ 32.
Proof.
  intros (rs & Hr & <-). pose proof (zrepr_fuel zl rs Hr). pose proof (zrepr_length zl rs Hr) as Hl.
  destruct Hr as (num & _ & Hs & _). rewrite length_fmap. lia.
Qed.

Lemma holds_bound zl es : zl_holds zl es -> Z.of_nat (length zl) <= zbound es.
Proof. intros (rs & Hr & <-). rewrite (zrepr_length zl rs Hr). apply zbound_zlen. by apply (repr_elements zl). Qed.

Lemma bloblen_holds zl es : zl_holds zl es -> ziplistBlobLen zl = Some (Z.of_nat (length zl)).
Proof.
  intros (rs & Hr & _). unfold ziplistBlobLen. destruct (header_at zl rs Hr) as (num & -> & Hi & _). cbn [mbind option_bind].
  by rewrite Hi, (zrepr_length zl rs Hr).
Qed.

Lemma update_sz zl es s c e r : zl_holds zl es ->
  quicklistNodeUpdateSz (mkNode zl s c e r) = Some (mkNode zl (Z.of_nat (length zl)) c e r).
Proof. intros Hh. unfold quicklistNodeUpdateSz. cbn [n_zl]. by rewrite (bloblen_holds _ _ Hh). Qed.

(** The node that holds [es] in [zl]. *)
Definition plain_node (zl : list byte) (count : Z) : quicklistNode := mkNode zl (Z.of_nat (length zl)) count QUICKLIST_NODE_ENCODING_RAW false.

Lemma plain_ok zl es c : zl_holds zl es -> node_ok (plain_node zl c) (es, c).
Proof. intros Hh. split; [|done|done]. exists zl. split; [by left|]. done. Qed.

Lemma raw_holds n x : node_ok n x -> raw n -> zl_holds (n_zl n) x.1 /\ n = plain_node (n_zl n) x.2.
Proof.
  intros [(zl & [[_ E]|[E _]] & Hh & Hsz) Hc Hrc] Hr; [|unfold raw in Hr; rewrite E in Hr; done]. subst zl. split; [done|].
  destruct n as [z s c e r]; cbn in *. unfold plain_node. unfold raw in Hr. cbn in Hr. by subst.
Qed.

Lemma load_whole (m : list byte) : load m 0 (Z.of_nat (length m)) = Some m.
Proof. rewrite load_Some by lia. by rewrite Nat2Z.id, drop_0, firstn_all. Qed.

(** ** Compression of a node *)

Lemma compress_node_ok n x : node_ok n x -> exists n', quicklistCompressNode junk uninit n = Some n' /\ node_ok n' x.
Proof.
  intros Hn. unfold quicklistCompressNode. destruct (_ =? _) eqn:E; [|by exists n]. apply Z.eqb_eq in E.
  destruct (raw_holds n x Hn E) as [Hh En]. pose proof (holds_length _ _ Hh) as Hl. set (zl := n_zl n) in *. rewrite En.
  pose proof (plain_ok zl x.1 x.2 Hh) as Hp. rewrite <- surjective_pairing in Hp. unfold __quicklistCompressNode. cbn [n_sz n_zl plain_node n_count].
  destruct (_ <? _) eqn:E48; [by eexists|]. apply Z.ltb_ge in E48. unfold MIN_COMPRESS_BYTES in E48.
  rewrite load_whole. cbn [mbind option_bind]. pose proof (malloc_length junk (Z.of_nat (length zl)) ltac:(lia)) as Hml.
  destruct (lzf_compress_spec uninit zl (malloc junk (Z.of_nat (length zl)))) as (out & sz & -> & Hlo & Hsz & Hres); [lia|lia|lia|].
  cbn [mbind option_bind]. destruct (_ || _) eqn:Ec; [by eexists|].
  apply orb_false_iff in Ec as [E0 _]. apply Z.eqb_neq in E0. destruct Hres as [[? _]|[Hd _]]; [done|].
  rewrite load_Some by lia. cbn [mbind option_bind]. eexists. split; [done|]. change (drop (Z.to_nat 0) out) with out.
  assert (Z.of_nat (length (take (Z.to_nat sz) out)) = sz) as Ht by (rewrite length_take; lia).
  split; [|done|done]. exists zl. split; [|done]. right. split; [done|]. exists (take (Z.to_nat sz) out). cbn [n_zl].
  rewrite Ht. split_and!; [|lia|done|done]. intros Hnil. rewrite Hnil in Ht. cbn in Ht. lia.
Qed.

Lemma decompress_node_ok n x : node_ok n x ->
  exists n', quicklistDecompressNode junk n = Some n' /\ node_ok n' x /\ raw n' /\ (raw n -> n' = n).
Proof.
  intros Hn. unfold quicklistDecompressNode. destruct Hn as [(zl & Hz & Hh & Hsz) Hc Hr]. destruct Hz as [[Er Ez]|[El (code & Hne & Hlc & Ez & Hd)]].
  - rewrite Er. exists n. split; [done|]. split_and!; [|done|done]. split; [|done|done]. exists zl. split; [by left|done].
  - rewrite El. change (_ =? _) with true. cbv iota. unfold __quicklistDecompressNode, lzf_compressed, lzf_sz. rewrite Ez.
    pose proof (host_bytes_length 4 (Z.of_nat (length code))) as Hhb. pose proof (holds_length _ _ Hh) as Hl.
    assert (load (host_bytes 4 (Z.of_nat (length code)) ++ code) 0 4 = Some (host_bytes 4 (Z.of_nat (length code)))) as ->
      by (apply (load_app [] _ code); [done|by rewrite Hhb]).
    cbn [fmap option_fmap option_map mbind option_bind].
    rewrite host_val_bytes. change (8 * Z.of_nat 4) with 32. rewrite uwrap_small by lia.
    assert (load (host_bytes 4 (Z.of_nat (length code)) ++ code) 4 (Z.of_nat (length code)) = Some code) as ->
      by (rewrite <- (app_nil_r code) at 2; apply load_app; [by rewrite Hhb|done]).
    cbn [mbind option_bind]. rewrite Hsz. pose proof (malloc_length junk (Z.of_nat (length zl)) ltac:(lia)) as Hml.
    rewrite (lzf_decompress_decodes code zl) by (done || lia). cbn [mbind option_bind]. rewrite (proj2 (Z.eqb_neq (Z.of_nat (length zl)) 0)) by lia.
    cbn [mbind option_bind fst]. rewrite drop_ge by lia. rewrite app_nil_r, Hr. eexists. split; [done|]. split_and!; [|done|].
    + rewrite Hc. destruct x as [es c]. by apply plain_ok.
    + unfold raw. intros Hx. rewrite El in Hx. done.
Qed.

Lemma raw_decompress n : raw n -> quicklistDecompressNode junk n = Some n.
Proof. unfold raw, quicklistDecompressNode. by intros ->. Qed.

Lemma raw_for_use n : raw n -> quicklistDecompressNodeForUse junk n = Some n.
Proof. unfold raw, quicklistDecompressNodeForUse. by intros ->. Qed.

(** ** Compression of a list *)

Definition raw_at (l : list quicklistNode) (j : nat) : Prop := forall n, l !! j = Some n -> raw n.

(** The nodes that are not compressed, for a depth. *)
Record comp_ok (c : Z) (l : list quicklistNode) : Prop := {
  co_off : c = 0 -> Forall raw l;
  co_head : raw_at l 0;
  co_tail : raw_at l (length l - 1);
  co_short : Z.of_nat (length l) < 2 * c -> Forall raw l
}.

Lemma raw_all l : Forall raw l -> forall j, raw_at l j.
Proof. intros Hf j n Hn. rewrite Forall_forall in Hf. apply Hf. by eapply list_elem_of_lookup_2. Qed.

Lemma all_raw l : (forall j, (j < length l)%nat -> raw_at l j) -> Forall raw l.
Proof. intros Hf. apply Forall_lookup. intros j n Hn. apply (Hf j); [by eapply lookup_lt_Some|done]. Qed.

Lemma comp_ok_all c l : Forall raw l -> comp_ok c l.
Proof. intros Hf. split; [done|by apply raw_all|by apply raw_all|done]. Qed.

(** Only the nodes changed. *)
Definition same_but_nodes q q' : Prop :=
  q_count q' = q_count q /\ q_len q' = q_len q /\ q_fill q' = q_fill q /\ q_compress q' = q_compress q.

Lemma same_trans q1 q2 q3 : same_but_nodes q1 q2 -> same_but_nodes q2 q3 -> same_but_nodes q1 q3.
Proof. unfold same_but_nodes. intuition congruence. Qed.

Lemma Forall2_update l xs i n x n' : Forall2 node_ok l xs -> l !! i = Some n -> xs !! i = Some x -> node_ok n' x ->
  Forall2 node_ok (<[i:=n']> l) xs.
Proof. intros Hf Hn Hx0 Hok. rewrite <- (list_insert_id xs i x Hx0). by apply Forall2_insert. Qed.

Lemma on_decompress q xs i : Forall2 node_ok (q_nodes q) xs -> (i < length (q_nodes q))%nat ->
  exists q', on_node (quicklistDecompressNode junk) q (Some i) = Some q' /\ same_but_nodes q q' /\ Forall2 node_ok (q_nodes q') xs /\
    raw_at (q_nodes q') i /\ (forall j, raw_at (q_nodes q) j -> raw_at (q_nodes q') j).
Proof.
  intros Hf Hi. destruct (lookup_lt_is_Some_2 _ _ Hi) as [n Hn]. destruct (Forall2_lookup_l _ _ _ _ _ Hf Hn) as (x0 & Hx0 & Hok).
  cbn [on_node]. rewrite Hn. cbn [mbind option_bind]. destruct (decompress_node_ok n x0 Hok) as (n' & -> & Hok' & Hraw & _). cbn [mbind option_bind].
  eexists. split; [done|]. split; [done|]. cbn [q_nodes q_set q_with_nodes]. split; [by eapply Forall2_update|]. split.
  - intros x. rewrite list_lookup_insert_eq by done. by intros [= <-].
  - intros j Hj x Hx. apply list_lookup_insert_Some in Hx as [(-> & <- & _)|[_ Hx]]; [done|by apply Hj].
Qed.

Lemma on_compress q xs i : Forall2 node_ok (q_nodes q) xs -> (forall k, i = Some k -> (k < length (q_nodes q))%nat) ->
  exists q', on_node (quicklistCompressNode junk uninit) q i = Some q' /\ same_but_nodes q q' /\ Forall2 node_ok (q_nodes q') xs /\
    (forall j, raw_at (q_nodes q) j -> i <> Some j -> raw_at (q_nodes q') j).
Proof.
  intros Hf Hi. destruct i as [i|]; [|by exists q]. destruct (lookup_lt_is_Some_2 _ _ (Hi i eq_refl)) as [n Hn].
  destruct (Forall2_lookup_l _ _ _ _ _ Hf Hn) as (x0 & Hx0 & Hok).
  cbn [on_node]. rewrite Hn. cbn [mbind option_bind]. destruct (compress_node_ok n x0 Hok) as (n' & -> & Hok'). cbn [mbind option_bind].
  eexists. split; [done|]. split; [done|]. cbn [q_nodes q_set q_with_nodes]. split; [by eapply Forall2_update|].
  intros j Hj Hne x Hx. apply list_lookup_insert_Some in Hx as [(-> & _ & _)|[_ Hx]]; [done|by apply Hj].
Qed.

(** The loop leaves the nodes of the first and the last [t] rounds uncompressed. *)
Definition ends_raw (t : nat) (l : list quicklistNode) : Prop := forall j, (j < t \/ length l - t <= j)%nat -> raw_at l j.

Lemma compress_ends_spec xs node c steps : forall t q in_depth, (t + steps = c)%nat -> (1 <= c)%nat -> Forall2 node_ok (q_nodes q) xs ->
  (2 * c <= S (length xs))%nat -> (2 * t <= length xs)%nat -> ends_raw t (q_nodes q) ->
  exists r, compress_ends junk steps q (Some t) (Some (length xs - 1 - t)%nat) node in_depth = Some r /\
  match r with
  | inl q' => same_but_nodes q q' /\ Forall2 node_ok (q_nodes q') xs /\ Forall raw (q_nodes q')
  | inr (q', f, r, d) => same_but_nodes q q' /\ Forall2 node_ok (q_nodes q') xs /\ ends_raw c (q_nodes q') /\
      (2 * c <= length xs)%nat /\ f = Some c /\ r = Some (length xs - 1 - c)%nat /\
      (d = false -> in_depth = false /\ forall j, (t <= j < c)%nat -> node <> Some j /\ node <> Some (length xs - 1 - j)%nat)
  end.
Proof.
  induction steps as [|steps IH]; intros t q d Ht Hc Hf Hlen Ht2 Hr; cbn [compress_ends].
  { assert (t = c) by lia. subst t. eexists. split; [done|]. cbn. split_and!; try done. intros ->. split; [done|]. intros j Hj. lia. }
  pose proof (Forall2_length _ _ _ Hf) as Hl.
  destruct (on_decompress q xs t Hf) as (q1 & -> & Hs1 & Hf1 & Hr1 & Hk1); [lia|]. cbn [mbind option_bind].
  pose proof (Forall2_length _ _ _ Hf1) as Hl1.
  destruct (on_decompress q1 xs (length xs - 1 - t) Hf1) as (q2 & -> & Hs2 & Hf2 & Hr2 & Hk2); [lia|]. cbn [mbind option_bind].
  pose proof (Forall2_length _ _ _ Hf2) as Hl2. pose proof (same_trans _ _ _ Hs1 Hs2) as Hs.
  assert (ends_raw (S t) (q_nodes q2)) as Her.
  { intros j Hj. destruct (decide (j = t)) as [->|Hjt]; [by apply Hk2|].
    destruct (decide (j = length xs - 1 - t)%nat) as [->|Hjr]; [done|]. apply Hk2, Hk1, Hr. lia. }
  case_bool_decide as Efr.
  - eexists. split; [done|]. cbn. split_and!; try done. apply all_raw. intros j Hj. apply Her. injection Efr as E. lia.
  - assert (t <> length xs - 1 - t)%nat as Hne by congruence. unfold q_next. rewrite bool_decide_eq_true_2 by lia.
    assert (q_prev (length xs - 1 - t) = Some (length xs - 1 - S t)%nat) as ->.
    { destruct (length xs - 1 - t)%nat eqn:E; [lia|]. cbn. f_equal. lia. }
    destruct (IH (S t) q2 (d || bool_decide (Some t = node \/ Some (length xs - 1 - t)%nat = node))) as (r & -> & Hres); try done; [lia|lia|].
    eexists. split; [done|]. destruct r as [q'|[[[q' f] r] d']].
    + destruct Hres as (? & ? & ?). split_and!; try done. by eapply same_trans.
    + destruct Hres as (? & ? & ? & ? & ? & ? & Hd). split_and!; try done; [by eapply same_trans|]. intros Hd'. destruct (Hd Hd') as [Hor Hj].
      apply orb_false_iff in Hor as [-> Hb]. apply bool_decide_eq_false in Hb. split; [done|]. intros j Hjr.
      destruct (decide (j = t)) as [->|]; [split; intros E; apply Hb; rewrite E; auto|apply Hj; lia].
Qed.

(** What __quicklistCompress() relies on when it is called with the length [len]. *)
Definition comp_pre (c len : Z) (l : list quicklistNode) : Prop :=
  0 <= c < 2 ^ 16 /\ (c = 0 -> Forall raw l) /\ (len < 2 * c -> Forall raw l).

Lemma compress_list_spec q xs node : Forall2 node_ok (q_nodes q) xs -> comp_pre (q_compress q) (q_len q) (q_nodes q) ->
  q_len q <= Z.of_nat (length xs) + 1 -> (forall k, node = Some k -> (k < length xs)%nat) ->
  exists q', __quicklistCompress junk uninit q node = Some q' /\ same_but_nodes q q' /\ Forall2 node_ok (q_nodes q') xs /\
    comp_ok (q_compress q) (q_nodes q') /\ (q_compress q = 0 -> q' = q).
Proof.
  intros Hf (Hc & H0 & Hsh) Hlen Hnode. unfold __quicklistCompress, quicklistAllowsCompression. rewrite negb_involutive.
  rewrite (uwrap_small 32 (q_compress q * 2)) by (change (2 ^ 16) with 65536 in Hc; lia).
  destruct (q_compress q =? 0) eqn:E0; cbn [orb].
  { apply Z.eqb_eq in E0. exists q. split; [done|]. split; [done|]. split; [done|]. split; [by apply comp_ok_all, H0|done]. }
  apply Z.eqb_neq in E0. destruct (_ <? _) eqn:El.
  { apply Z.ltb_lt in El. exists q. split; [done|]. split; [done|]. split; [done|]. split; [apply comp_ok_all, Hsh; lia|done]. }
  apply Z.ltb_ge in El. set (c := Z.to_nat (q_compress q)). assert (Z.of_nat c = q_compress q) as Hcc by lia.
  pose proof (Forall2_length _ _ _ Hf) as Hl. assert (1 <= length xs)%nat as H1 by lia.
  assert (q_head q = Some 0%nat) as -> by (unfold q_head; destruct (q_nodes q); [cbn in Hl; lia|done]).
  assert (q_tail q = Some (length xs - 1 - 0)%nat) as -> by (unfold q_tail; destruct (q_nodes q); [cbn in Hl; lia|by rewrite Hl, Nat.sub_0_r]).
  destruct (compress_ends_spec xs node c c 0 q false) as (r & -> & Hr); try done; [lia|lia|lia|intros j Hj; intros x Hx%lookup_lt_Some; lia|].
  cbn [mbind option_bind]. destruct r as [q1|[[[q1 f] r] d]].
  { destruct Hr as (Hs & Hf1 & Hraw). exists q1. split; [done|]. split; [done|]. split; [done|]. split; [by apply comp_ok_all|done]. }
  destruct Hr as (Hs1 & Hf1 & Her & H2c & -> & -> & Hd). pose proof (Forall2_length _ _ _ Hf1) as Hl1.
  assert (exists q2, (if d then Some q1 else on_node (quicklistCompressNode junk uninit) q1 node) = Some q2 /\ same_but_nodes q1 q2 /\
            Forall2 node_ok (q_nodes q2) xs /\ ends_raw 1 (q_nodes q2)) as (q2 & -> & Hs2 & Hf2 & Hr2).
  { destruct d. { exists q1. split_and!; try done. intros j Hj. apply Her. lia. }
    destruct (on_compress q1 xs node Hf1) as (q2 & -> & Hs2 & Hf2 & Hk2); [intros k Hk; rewrite Hl1; by apply Hnode|].
    exists q2. split_and!; try done. pose proof (Forall2_length _ _ _ Hf2). destruct (Hd eq_refl) as [_ Hnd].
    intros j Hj x Hx. pose proof (lookup_lt_Some _ _ _ Hx). apply (Hk2 j); [apply Her; lia| |done]. destruct (Hnd 0%nat ltac:(lia)) as [Hn0 Hn1].
    destruct (decide (j = 0)%nat) as [->|]; [done|]. replace j with (length xs - 1 - 0)%nat by lia. done. }
  cbn [mbind option_bind]. pose proof (same_trans _ _ _ Hs1 Hs2) as Hs12. assert (q_compress q2 = q_compress q) as -> by apply Hs12.
  pose proof (Forall2_length _ _ _ Hf2) as Hl2.
  assert (forall qx, Forall2 node_ok (q_nodes qx) xs -> ends_raw 1 (q_nodes qx) -> comp_ok (q_compress q) (q_nodes qx)) as Hfin.
  { intros qx Hfx Hrx. pose proof (Forall2_length _ _ _ Hfx). split; [done|apply Hrx; lia|apply Hrx; lia|lia]. }
  destruct (_ >? _) eqn:E2; [|exists q2; split_and!; try done; by apply Hfin].
  rewrite Z.gtb_ltb in E2. apply Z.ltb_lt in E2.
  destruct (on_compress q2 xs (Some c) Hf2) as (q3 & -> & Hs3 & Hf3 & Hk3); [intros k [= <-]; lia|]. cbn [mbind option_bind].
  pose proof (Forall2_length _ _ _ Hf3) as Hl3.
  destruct (on_compress q3 xs (Some (length xs - 1 - c)%nat) Hf3) as (q4 & -> & Hs4 & Hf4 & Hk4); [intros k [= <-]; lia|].
  pose proof (Forall2_length _ _ _ Hf4) as Hl4. exists q4. split; [done|]. split; [by eapply same_trans; [|eapply same_trans]|]. split; [done|].
  split; [|done]. apply Hfin; [done|]. intros j Hj x Hx. pose proof (lookup_lt_Some _ _ _ Hx).
  apply (Hk4 j); [apply Hk3; [apply Hr2; lia|]| |done]; intros [= E]; lia.
Qed.

Lemma node_recompress l xs i n : Forall2 node_ok l xs -> l !! i = Some n -> n_recompress n = false.
Proof. intros Hf Hn. destruct (Forall2_lookup_l _ _ _ _ _ Hf Hn) as (x0 & _ & Hok). apply Hok. Qed.

Lemma quicklistCompress_ok q xs i : Forall2 node_ok (q_nodes q) xs -> (i < length xs)%nat ->
  quicklistCompress junk uninit q i = __quicklistCompress junk uninit q (Some i).
Proof.
  intros Hf Hi. unfold quicklistCompress. pose proof (Forall2_length _ _ _ Hf) as Hl.
  destruct (lookup_lt_is_Some_2 (q_nodes q) i) as [n Hn]; [lia|]. rewrite Hn. cbn [mbind option_bind]. by rewrite (node_recompress _ _ _ _ Hf Hn).
Qed.

Lemma recompressOnly_ok q xs i : Forall2 node_ok (q_nodes q) xs -> (i < length xs)%nat -> quicklistRecompressOnly junk uninit q i = Some q.
Proof.
  intros Hf Hi. unfold quicklistRecompressOnly. pose proof (Forall2_length _ _ _ Hf) as Hl.
  destruct (lookup_lt_is_Some_2 (q_nodes q) i) as [n Hn]; [lia|]. rewrite Hn. cbn [mbind option_bind]. by rewrite (node_recompress _ _ _ _ Hf Hn).
Qed.

(** ** Adding and removing nodes *)

Lemma Forall_insert_at (l : list quicklistNode) k n : Forall raw l -> raw n -> Forall raw (take k l ++ n :: drop k l).
Proof. intros Hl Hn. apply Forall_app. split; [by apply Forall_take|]. constructor; [done|by apply Forall_drop]. Qed.

(** [new] goes between the nodes of [xs1] and those of [xs2]. *)
Lemma insert_node_spec q xs1 xs2 x new old (after : bool) : Forall2 node_ok (q_nodes q) (xs1 ++ xs2) ->
  comp_pre (q_compress q) (q_len q) (q_nodes q) -> q_len q = Z.of_nat (length (xs1 ++ xs2)) -> q_len q + 1 < 2 ^ 64 ->
  node_ok new x -> raw new ->
  old = (if after then match xs1 with [] => None | _ => Some (length xs1 - 1)%nat end else match xs2 with [] => None | _ => Some (length xs1) end) ->
  (old = None -> xs1 = [] /\ xs2 = []) ->
  exists q', __quicklistInsertNode junk uninit q old new after = Some q' /\ Forall2 node_ok (q_nodes q') (xs1 ++ x :: xs2) /\
    q_len q' = q_len q + 1 /\ q_count q' = q_count q /\ q_fill q' = q_fill q /\ q_compress q' = q_compress q /\
    comp_ok (q_compress q) (q_nodes q').
Proof.
  intros Hf Hpre Hlen Hmax Hnew Hraw Hold Hnone. unfold __quicklistInsertNode. pose proof (Forall2_length _ _ _ Hf) as Hl.
  destruct old as [i|].
  - set (k := if after then S i else i). assert (k = length xs1) as Hk.
    { subst k. destruct after; [destruct xs1; [done|]|destruct xs2; [done|]]; injection Hold as ->; cbn [length]; lia. }
    assert ((if after then i else S i) < length (xs1 ++ x :: xs2))%nat as Hi.
    { rewrite length_app. cbn [length]. subst k. destruct after; [lia|]. destruct xs2; [done|]. cbn [length]. lia. }
    apply Forall2_app_inv_r in Hf as (l1 & l2 & Hf1 & Hf2 & Hq). pose proof (Forall2_length _ _ _ Hf1) as Hl1.
    set (q1 := q_with_nodes q (take k (q_nodes q) ++ new :: drop k (q_nodes q))).
    assert (Forall2 node_ok (q_nodes q1) (xs1 ++ x :: xs2)) as Hq1.
    { subst q1. cbn [q_nodes q_with_nodes]. rewrite Hq, Hk, <- Hl1, take_app_length, drop_app_length. apply Forall2_app; [done|]. by constructor. }
    rewrite (quicklistCompress_ok q1 _ _ Hq1 Hi).
    destruct (compress_list_spec q1 (xs1 ++ x :: xs2) (Some (if after then i else S i)) Hq1) as (q2 & -> & Hs & Hf' & Hc & _).
    + destruct Hpre as (? & H0 & H1). split; [done|]. subst q1. cbn [q_nodes q_with_nodes q_compress q_len].
      split; intros Hx; apply Forall_insert_at; auto.
    + change (q_len q1) with (q_len q). rewrite Hlen, !length_app. cbn [length]. lia.
    + by intros ? [= <-].
    + cbn [mbind option_bind]. destruct Hs as (Hs1 & Hs2 & Hs3 & Hs4). eexists. split; [done|]. cbn [q_nodes q_with_len q_len q_count q_fill q_compress].
      rewrite Hs2, Hs1, Hs3, Hs4. change (q_len q1) with (q_len q). rewrite uwrap_small by lia. by split_and!.
  - destruct (Hnone eq_refl) as [-> ->]. cbn [app length] in *. rewrite Hlen. change (Z.of_nat 0 =? 0) with true. cbn [mbind option_bind].
    eexists. split; [done|]. cbn [q_nodes q_with_len q_with_nodes q_len q_count q_fill q_compress]. rewrite Hlen, uwrap_small by lia.
    split_and!; try done; [by apply Forall2_cons|]. apply comp_ok_all. by apply Forall_singleton.
Qed.

Lemma del_node_spec q l1 n l2 xs1 xs2 : q_nodes q = l1 ++ n :: l2 -> Forall2 node_ok l1 xs1 -> Forall2 node_ok l2 xs2 ->
  comp_pre (q_compress q) (q_len q) (q_nodes q) -> q_len q = Z.of_nat (length (q_nodes q)) -> q_len q < 2 ^ 64 ->
  exists q', __quicklistDelNode junk uninit q (length l1) = Some q' /\ Forall2 node_ok (q_nodes q') (xs1 ++ xs2) /\
    q_len q' = q_len q - 1 /\ q_count q' = u64 (q_count q - n_count n) /\ q_fill q' = q_fill q /\ q_compress q' = q_compress q /\
    comp_ok (q_compress q) (q_nodes q').
Proof.
  intros Hq Hf1 Hf2 Hpre Hlen Hmax. unfold __quicklistDelNode. rewrite Hq, list_lookup_middle by done. cbn [mbind option_bind].
  rewrite delete_middle. rewrite Hq, length_app in Hlen. cbn [length] in Hlen. pose proof (Forall2_length _ _ _ Hf1) as Hlf1. pose proof (Forall2_length _ _ _ Hf2) as Hlf2.
  destruct (compress_list_spec (q_with_nodes q (l1 ++ l2)) (xs1 ++ xs2) None) as (q2 & -> & Hs & Hf' & Hc & _); cbn [q_nodes q_with_nodes q_compress q_len].
  - by apply Forall2_app.
  - destruct Hpre as (? & H0 & H1). split; [done|]. rewrite Hq in *.
    assert (Forall raw (l1 ++ n :: l2) -> Forall raw (l1 ++ l2)) as Hx by (rewrite !Forall_app, Forall_cons; naive_solver). auto.
  - rewrite !length_app. lia.
  - done.
  - cbn [mbind option_bind]. destruct Hs as (Hs1 & Hs2 & Hs3 & Hs4). eexists. split; [done|]. cbn [q_nodes q_with_len q_with_count q_len q_count q_fill q_compress].
    rewrite Hs2, Hs1, Hs3, Hs4. cbn [q_len q_with_nodes q_count q_fill q_compress].
    rewrite (uwrap_small 64 (q_len q - 1)) by lia. by split_and!.
Qed.

(** ** Lists *)

Definition full es : list (list byte) * Z := (es, Z.of_nat (length es)).

(** A well-formed list whose nodes hold [ess]. *)
Record ql_repr q ess : Prop := {
  qr_nodes : Forall2 node_ok (q_nodes q) (full <$> ess);
  qr_ne : Forall (fun es => es <> [] /\ Z.of_nat (length es) < 2 ^ 16) ess;
  qr_count : q_count q = Z.of_nat (length (concat ess));
  qr_len : q_len q = Z.of_nat (length ess);
  qr_comp : comp_ok (q_compress q) (q_nodes q);
  qr_depth : 0 <= q_compress q < 2 ^ 16;
  qr_fill : in_s 16 (q_fill q);
  qr_bound : zbound (concat ess) < ql_max
}.

Lemma comp_ok_pre c len l : comp_ok c l -> 0 <= c < 2 ^ 16 -> len = Z.of_nat (length l) -> comp_pre c len l.
Proof. intros [H0 _ _ H1] Hc ->. split; [done|]. split; [done|]. exact H1. Qed.

Lemma repr_pre q ess : ql_repr q ess -> comp_pre (q_compress q) (q_len q) (q_nodes q).
Proof.
  intros [Hn _ _ Hl Hc Hd _ _]. apply comp_ok_pre; [done|done|]. apply Forall2_length in Hn. rewrite length_fmap in Hn. by rewrite Hl, Hn.
Qed.

Lemma concat_length_le ess : Forall (fun es => es <> [] /\ Z.of_nat (length es) < 2 ^ 16) ess -> (length ess <= length (concat ess))%nat.
Proof.
  induction 1 as [|es ess [Hne _] _ IH]; [done|]. cbn [concat length]. rewrite length_app. destruct es; [done|]. cbn [length]. lia.
Qed.

Lemma zbound_length es : 11 + 18 * Z.of_nat (length es) <= zbound es.
Proof. unfold zbound. induction es as [|e es IH]; cbn [sum_list_with length] in *; lia. Qed.

Lemma zbound_mid es1 es es2 : zbound es <= zbound (es1 ++ es ++ es2).
Proof. rewrite !zbound_app. pose proof (zbound_length es1). pose proof (zbound_length es2). lia. Qed.

Lemma concat_mid ess1 es ess2 : concat (ess1 ++ es :: ess2) = concat ess1 ++ es ++ concat ess2.
Proof. rewrite concat_app. done. Qed.

Lemma node_bound ess1 es ess2 : zbound (concat (ess1 ++ es :: ess2)) < ql_max -> zbound es < ql_max.
Proof. rewrite concat_mid. pose proof (zbound_mid (concat ess1) es (concat ess2)). lia. Qed.

Lemma len_small q ess : ql_repr q ess -> q_len q + 1 < 2 ^ 64 /\ q_count q + 1 < 2 ^ 64.
Proof.
  intros [_ Hne Hc Hl _ _ _ Hb]. pose proof (concat_length_le ess Hne). pose proof (zbound_length (concat ess)).
  change (2 ^ 64) with 18446744073709551616. lia.
Qed.

Lemma bound_ele e es : zbound (e :: es) < ql_max -> zele_ok e.
Proof. pose proof (zbound_length es). change (e :: es) with ([e] ++ es). rewrite zbound_app. unfold zbound at 1, zele_ok. cbn [sum_list_with]. lia. Qed.

(** ** What the size limits imply *)

Lemma optimization_bound sz fill : _quicklistNodeSizeMeetsOptimizationRequirement sz fill = true -> sz <= 65536.
Proof.
  unfold _quicklistNodeSizeMeetsOptimizationRequirement. destruct (_ >=? _); [done|]. destruct (_ !! _) as [l|] eqn:E; [|done].
  intros H%Z.leb_le. etransitivity; [exact H|]. unfold optimization_level in E. apply list_elem_of_lookup_2 in E.
  repeat (apply elem_of_cons in E as [->|E]; [lia|]). by apply not_elem_of_nil in E.
Qed.

(** A node that takes one more element has fewer than 2^16 - 1. *)
Lemma allow_insert_small n es fill sz : node_ok n (full es) -> in_s 16 fill -> 0 <= sz -> zbound es + sz + 18 < 2 ^ 32 ->
  _quicklistNodeAllowInsert (Some n) fill sz = true -> Z.of_nat (length es) + 1 < 2 ^ 16.
Proof.
  intros [(zl & _ & Hh & Hsz) Hc _] Hfill Hs Hb. pose proof (holds_length _ _ Hh) as Hl. pose proof (holds_bound _ _ Hh) as Hlb. cbn [fst snd full] in *.
  unfold _quicklistNodeAllowInsert. set (o := (if sz <? 254 then 1 else 5) + _). assert (2 <= o <= 10) as Ho by (subst o; destruct (sz <? 254), (sz <? 64), (sz <? 16384); lia).
  rewrite Hsz, Hc, uwrap_small by lia.
  destruct (_quicklistNodeSizeMeetsOptimizationRequirement _ _) eqn:E; [apply optimization_bound in E; lia|].
  destruct (negb _); [done|]. limits. rewrite Z.ltb_lt. lia.
Qed.

(** ** Pushing *)

Lemma push_into_spec n x v where_ : node_ok n x -> raw n -> zele_ok v -> zbound (zspec x.1 (ZPush where_ v)) < ql_max ->
  exists zl, push_into junk n v where_ = Some (plain_node zl x.2) /\ zl_holds zl (zspec x.1 (ZPush where_ v)).
Proof.
  intros Hn Hr Hv Hb. destruct (raw_holds n x Hn Hr) as [Hh En]. unfold push_into.
  destruct (holds_push junk (n_zl n) x.1 v where_ Hh Hv ltac:(lia)) as (zl & -> & Hh'). cbn [mbind option_bind]. exists zl. split; [|done].
  unfold n_with_zl. rewrite (update_sz _ _ _ _ _ _ Hh'), (nk_count _ _ Hn), (nk_recompress _ _ Hn). unfold raw in Hr. by rewrite Hr.
Qed.

Lemma new_node_spec v where_ : zbound [v] < ql_max ->
  exists zl, new_node_with junk v where_ = Some (plain_node zl 0) /\ zl_holds zl [v].
Proof.
  intros Hb. unfold new_node_with. destruct (znew_repr junk) as (zl0 & -> & Hr). cbn [mbind option_bind].
  pose proof (bound_ele v [] Hb) as Hv.
  destruct (holds_push junk zl0 [] v where_) as (zl & -> & Hh); [by exists []|done|by cbn; destruct (_ =? _); cbn [app]; lia|]. cbn [mbind option_bind].
  assert (zspec [] (ZPush where_ v) = [v]) as E by (cbn; by destruct (_ =? _)). rewrite E in Hh. exists zl. split; [|done].
  unfold quicklistCreateNode. by rewrite (update_sz _ _ _ _ _ _ Hh).
Qed.

Lemma comp_ok_replace c l i n : comp_ok c l -> raw n -> comp_ok c (<[i:=n]> l).
Proof.
  intros [H0 Hh Ht Hs] Hn. assert (forall j, raw_at l j -> raw_at (<[i:=n]> l) j) as Hk.
  { intros j Hj y Hy. apply list_lookup_insert_Some in Hy as [(_ & <- & _)|[_ Hy]]; [done|by apply Hj]. }
  split; rewrite ?length_insert; [|by apply Hk|by apply Hk|]; intros Hx; apply all_raw; intros j _; apply Hk, raw_all; auto.
Qed.

Lemma fmap_full_middle ess1 es ess2 : full <$> (ess1 ++ es :: ess2) = (full <$> ess1) ++ full es :: (full <$> ess2).
Proof. rewrite fmap_app. done. Qed.

(** [node->count++] on a node that got an element. *)
Lemma bump_spec q xs1 es xs2 : Forall2 node_ok (q_nodes q) (xs1 ++ (es, Z.of_nat (length es) - 1) :: xs2) -> Z.of_nat (length es) < 2 ^ 16 ->
  exists q', bump q (Some (length xs1)) = Some q' /\ Forall2 node_ok (q_nodes q') (xs1 ++ full es :: xs2) /\ same_but_nodes q q' /\
    (comp_ok (q_compress q) (q_nodes q) -> comp_ok (q_compress q) (q_nodes q')).
Proof.
  intros Hf Hs. pose proof Hf as Hf0. apply Forall2_app_inv_r in Hf0 as (l1 & l2 & Hf1 & Hf2 & Hq). pose proof (Forall2_length _ _ _ Hf1) as Hl1.
  apply Forall2_cons_inv_r in Hf2 as (n & l2' & Hn & Hf2 & ->). unfold bump. cbn [mbind option_bind].
  assert (q_nodes q !! length xs1 = Some n) as Hlk by (rewrite Hq, <- Hl1; by apply list_lookup_middle). rewrite Hlk. cbn [mbind option_bind].
  eexists. split; [done|]. cbn [q_nodes q_set q_with_nodes]. split; [|split; [done|]].
  - rewrite Hq, <- Hl1, insert_app_r_alt, Nat.sub_diag by done. cbn [insert list_insert]. apply Forall2_app; [done|]. apply Forall2_cons. split; [|done].
    destruct Hn as [Hz Hc Hr]. split; [exact Hz| |done]. cbn [n_count n_with_count]. rewrite Hc. cbn [snd full]. rewrite uwrap_small by lia. lia.
  - intros [H0 Hh Ht Hsh]. assert (forall j, raw_at (q_nodes q) j -> raw_at (<[length xs1:=n_with_count n (n_count n + 1)]> (q_nodes q)) j) as Hk.
    { intros j Hj y Hy. apply list_lookup_insert_Some in Hy as [(<- & <- & _)|[_ Hy]]; [exact (Hj n Hlk)|by apply Hj]. }
    split; rewrite ?length_insert; [|by apply Hk|by apply Hk|]; intros Hx; apply all_raw; intros j _; apply Hk, raw_all; auto.
Qed.

(** The options do not change. *)
Definition same_options q q' : Prop := q_fill q' = q_fill q /\ q_compress q' = q_compress q.

Lemma bump_repr q ess1 es ess2 : Forall2 node_ok (q_nodes q) ((full <$> ess1) ++ (es, Z.of_nat (length es) - 1) :: (full <$> ess2)) ->
  Forall (fun es => es <> [] /\ Z.of_nat (length es) < 2 ^ 16) (ess1 ++ es :: ess2) -> q_count q = Z.of_nat (length (concat (ess1 ++ es :: ess2))) ->
  q_len q = Z.of_nat (length (ess1 ++ es :: ess2)) -> comp_ok (q_compress q) (q_nodes q) -> 0 <= q_compress q < 2 ^ 16 -> in_s 16 (q_fill q) ->
  zbound (concat (ess1 ++ es :: ess2)) < ql_max ->
  exists q', bump q (Some (length ess1)) = Some q' /\ ql_repr q' (ess1 ++ es :: ess2) /\ same_options q q'.
Proof.
  intros Hf Hne Hc Hl Hco Hd Hfi Hb. pose proof Hne as Hs. apply Forall_app in Hs as [_ Hs]. apply Forall_cons in Hs as [[_ Hs] _].
  rewrite <- (length_fmap full ess1). destruct (bump_spec q _ es _ Hf Hs) as (q' & -> & Hf' & (Hs1 & Hs2 & Hs3 & Hs4) & Hco').
  exists q'. split; [done|]. split; [|done]. split; rewrite ?Hs1, ?Hs2, ?Hs3, ?Hs4; try done; [by rewrite fmap_full_middle|auto].
Qed.

(** An element that goes into a node that takes it. *)
Lemma allow_mid q ess1 es ess2 n sz : ql_repr q (ess1 ++ es :: ess2) -> node_ok n (full es) -> 0 <= sz ->
  zbound (concat (ess1 ++ es :: ess2)) + 18 + sz < ql_max -> _quicklistNodeAllowInsert (Some n) (q_fill q) sz = true ->
  forall es', length es' = S (length es) -> Forall (fun es => es <> [] /\ Z.of_nat (length es) < 2 ^ 16) (ess1 ++ es' :: ess2).
Proof.
  intros Hq Hn Hsz Hb Ha es' Hl. pose proof (zbound_mid (concat ess1) es (concat ess2)) as Hm. rewrite <- concat_mid in Hm.
  pose proof (allow_insert_small n es (q_fill q) sz Hn (qr_fill _ _ Hq) Hsz ltac:(lia) Ha) as Hs.
  pose proof (qr_ne _ _ Hq) as Hne. apply Forall_app in Hne as [H1 H2]. apply Forall_cons in H2 as [_ H2]. apply Forall_app. split; [done|].
  constructor; [|done]. split; [by destruct es'|lia].
Qed.

Lemma nodes_split q ess1 es ess2 : ql_repr q (ess1 ++ es :: ess2) -> exists l1 n l2, q_nodes q = l1 ++ n :: l2 /\ length l1 = length ess1 /\
  Forall2 node_ok l1 (full <$> ess1) /\ node_ok n (full es) /\ Forall2 node_ok l2 (full <$> ess2) /\ q_nodes q !! length ess1 = Some n.
Proof.
  intros Hq. pose proof (qr_nodes _ _ Hq) as Hf. rewrite fmap_full_middle in Hf. apply Forall2_app_inv_r in Hf as (l1 & l2 & Hf1 & Hf2 & E).
  apply Forall2_cons_inv_r in Hf2 as (n & l2' & Hn & Hf2 & ->). pose proof (Forall2_length _ _ _ Hf1) as Hl. rewrite length_fmap in Hl.
  exists l1, n, l2'. split_and!; try done. rewrite E, <- Hl. by apply list_lookup_middle.
Qed.

Lemma replace_middle (l1 l2 : list quicklistNode) n n' : <[length l1:=n']> (l1 ++ n :: l2) = l1 ++ n' :: l2.
Proof. rewrite insert_app_r_alt, Nat.sub_diag by done. done. Qed.

Lemma zbound_cons v es : zbound (v :: es) = zbound es + 18 + Z.of_nat (length v).
Proof. unfold zbound. cbn [sum_list_with]. lia. Qed.

Lemma zbound_snoc v es : zbound (es ++ [v]) = zbound es + 18 + Z.of_nat (length v).
Proof. rewrite zbound_app. unfold zbound at 2. cbn [sum_list_with]. lia. Qed.

Lemma empty_repr q : ql_repr q [] -> q_nodes q = [].
Proof. intros Hq. pose proof (qr_nodes _ _ Hq) as Hf. cbn in Hf. by apply Forall2_nil_inv_r in Hf. Qed.

(** The ziplist of a node gets the element [v]; its count and that of the list follow. *)
Lemma add_to_node q ess1 es ess2 n zl es' v : ql_repr q (ess1 ++ es :: ess2) -> q_nodes q !! length ess1 = Some n -> node_ok n (full es) ->
  _quicklistNodeAllowInsert (Some n) (q_fill q) (Z.of_nat (length v)) = true -> zl_holds zl es' -> length es' = S (length es) ->
  zbound es' = zbound es + 18 + Z.of_nat (length v) -> zbound (v :: concat (ess1 ++ es :: ess2)) < ql_max ->
  exists q', bump (q_with_count (q_set q (length ess1) (plain_node zl (Z.of_nat (length es)))) (q_count q + 1)) (Some (length ess1)) = Some q' /\
    ql_repr q' (ess1 ++ es' :: ess2) /\ same_options q q'.
Proof.
  intros Hq Hlk Hn Ha Hh Hl Hz Hb. destruct (len_small _ _ Hq) as [_ Hc64]. rewrite zbound_cons in Hb.
  destruct (nodes_split q ess1 es ess2 Hq) as (l1 & n0 & l2 & Eq & El & Hf1 & _ & Hf2 & _). rewrite <- El in Hlk. rewrite Eq, list_lookup_middle in Hlk by done.
  injection Hlk as ->. destruct (bump_repr (q_with_count (q_set q (length ess1) (plain_node zl (Z.of_nat (length es)))) (q_count q + 1)) ess1 es' ess2)
    as (q2 & Eb & Hq2 & Ho2); cbn [q_nodes q_with_count q_set q_with_nodes q_compress q_fill q_len q_count]; try apply Hq.
  - rewrite Eq, <- El, replace_middle. apply Forall2_app; [done|]. apply Forall2_cons. split; [|done].
    replace (Z.of_nat (length es') - 1) with (Z.of_nat (length es)) by lia. by apply plain_ok.
  - by apply (allow_mid q ess1 es ess2 n (Z.of_nat (length v))); [..|lia|lia| |].
  - rewrite uwrap_small by (rewrite (qr_count _ _ Hq) in *; lia). rewrite (qr_count _ _ Hq), !concat_mid, !length_app. lia.
  - rewrite (qr_len _ _ Hq), !length_app. cbn [length]. done.
  - apply comp_ok_replace; [apply Hq|done].
  - rewrite concat_mid in *. rewrite !zbound_app in *. lia.
  - by exists q2.
Qed.

(** A new node for the element [v]. *)
Lemma add_new_node q ess1 ess2 zl v old (after : bool) : ql_repr q (ess1 ++ ess2) -> zl_holds zl [v] -> zbound (v :: concat (ess1 ++ ess2)) < ql_max ->
  old = (if after then match ess1 with [] => None | _ => Some (length ess1 - 1)%nat end else match ess2 with [] => None | _ => Some (length ess1) end) ->
  (old = None -> ess1 = [] /\ ess2 = []) ->
  exists q1 q', __quicklistInsertNode junk uninit q old (plain_node zl 0) after = Some q1 /\ length (q_nodes q1) = S (length ess1 + length ess2) /\
    bump (q_with_count q1 (q_count q1 + 1)) (Some (length ess1)) = Some q' /\ ql_repr q' (ess1 ++ [v] :: ess2) /\ same_options q q'.
Proof.
  intros Hq Hh Hb Hold Hnone. destruct (len_small _ _ Hq) as [Hl64 Hc64]. rewrite zbound_cons in Hb. pose proof (qr_nodes _ _ Hq) as Hf. rewrite fmap_app in Hf.
  destruct (insert_node_spec q (full <$> ess1) (full <$> ess2) ([v], 0) (plain_node zl 0) old after Hf) as (q1 & -> & Hf1 & Hl1 & Hc1 & Hfi1 & Hco1 & Hcmp1).
  - by apply (repr_pre q (ess1 ++ ess2)).
  - rewrite (qr_len _ _ Hq), <- fmap_app, length_fmap. done.
  - done.
  - by apply plain_ok.
  - done.
  - rewrite Hold, length_fmap. destruct after; [by destruct ess1|by destruct ess2].
  - intros E. destruct (Hnone E) as [-> ->]. done.
  - pose proof (qr_ne _ _ Hq) as Hne. apply Forall_app in Hne as [Hn1 Hn2]. exists q1. pose proof (Forall2_length _ _ _ Hf1) as Hll.
    rewrite length_app in Hll. cbn [length] in Hll. rewrite !length_fmap in Hll.
    destruct (bump_repr (q_with_count q1 (q_count q1 + 1)) ess1 [v] ess2) as (q3 & Eb & Hq3 & Ho3); cbn [q_nodes q_with_count q_compress q_fill q_len q_count].
    + exact Hf1.
    + apply Forall_app. split; [done|]. constructor; [split; [done|cbn; lia]|done].
    + rewrite Hc1, (qr_count _ _ Hq) in *. rewrite uwrap_small by lia. rewrite concat_mid, concat_app, !length_app. cbn [length]. lia.
    + rewrite Hl1, (qr_len _ _ Hq), !length_app. cbn [length]. lia.
    + by rewrite Hco1.
    + rewrite Hco1. apply Hq.
    + rewrite Hfi1. apply Hq.
    + rewrite concat_mid, concat_app in *. change ([v] ++ concat ess2) with (v :: concat ess2). rewrite zbound_app, zbound_cons. rewrite zbound_app in Hb. lia.
    + exists q3. split; [done|]. split; [lia|]. split; [done|]. split; [done|]. destruct Ho3 as [Ho3 Ho4]. cbn in Ho3, Ho4. split; congruence.
Qed.

Lemma single_bound v es : zbound (v :: es) < ql_max -> zbound [v] < ql_max.
Proof. rewrite !zbound_cons. pose proof (zbound_length es). unfold zbound at 2. cbn [sum_list_with]. lia. Qed.

Lemma nodes_length q ess : ql_repr q ess -> length (q_nodes q) = length ess.
Proof. intros Hq. pose proof (Forall2_length _ _ _ (qr_nodes _ _ Hq)) as Hl. by rewrite length_fmap in Hl. Qed.

Lemma head_repr q ess : ql_repr q ess -> q_head q = match ess with [] => None | _ => Some 0%nat end.
Proof. intros Hq. pose proof (nodes_length q ess Hq). unfold q_head. by destruct (q_nodes q), ess. Qed.

Lemma tail_repr q ess : ql_repr q ess -> q_tail q = match ess with [] => None | _ => Some (length ess - 1)%nat end.
Proof. intros Hq. pose proof (nodes_length q ess Hq) as Hl. unfold q_tail. destruct (q_nodes q), ess; try done. by rewrite Hl. Qed.

Lemma quicklistPushHead_spec q ess v : ql_repr q ess -> zbound (v :: concat ess) < ql_max ->
  exists q' b ess', quicklistPushHead junk uninit q v = Some (q', b) /\ ql_repr q' ess' /\ concat ess' = v :: concat ess /\ same_options q q'.
Proof.
  intros Hq Hb. unfold quicklistPushHead. rewrite (head_repr q ess Hq). destruct (_quicklistNodeAllowInsert _ _ _) eqn:Ea.
  - destruct ess as [|es ess]; [done|]. destruct (nodes_split q [] es ess Hq) as (l1 & n & l2 & Eq & El & _ & Hn & Hf2 & Hlk).
    unfold node_at in *. cbn [mbind option_bind length] in *. rewrite Hlk in *. cbn [mbind option_bind].
    pose proof (co_head _ _ (qr_comp _ _ Hq) n Hlk) as Hr. pose proof (node_bound [] es ess (qr_bound _ _ Hq)) as Hm.
    assert (zbound (v :: es) < ql_max) as Hb'.
    { cbn [concat] in Hb. rewrite zbound_cons in Hb |- *. rewrite zbound_app in Hb. pose proof (zbound_length (concat ess)). lia. }
    destruct (push_into_spec n (full es) v ZIPLIST_HEAD Hn Hr) as (zl & -> & Hh); [by apply (bound_ele v (concat (es :: ess)))|done|]. cbn [mbind option_bind].
    change (q_head (q_set q 0 _)) with (q_head (q_with_nodes q (<[0%nat:=plain_node zl (full es).2]> (q_nodes q)))).
    assert (q_head (q_with_nodes q (<[0%nat:=plain_node zl (full es).2]> (q_nodes q))) = Some 0%nat) as ->.
    { unfold q_head. cbn [q_nodes q_with_nodes]. pose proof (nodes_length q _ Hq) as Hl. destruct (q_nodes q); done. }
    destruct (add_to_node q [] es ess n zl (v :: es) v Hq Hlk Hn Ea Hh) as (q' & Eb & Hq' & Ho); [done|by rewrite zbound_cons|done|].
    cbn [length] in Eb. change (q_count (q_set q 0 _)) with (q_count q). cbn [snd full]. rewrite Eb. cbn [mbind option_bind].
    by exists q', (negb true), ((v :: es) :: ess).
  - destruct (new_node_spec v ZIPLIST_HEAD (single_bound _ _ Hb)) as (zl & -> & Hh). cbn [mbind option_bind]. unfold _quicklistInsertNodeBefore.
    destruct (add_new_node q [] ess zl v (match ess with [] => None | _ => Some 0%nat end) false Hq Hh Hb) as (q1 & q' & -> & Hl1 & Eb & Hq' & Ho);
      [done|by destruct ess|]. cbn [mbind option_bind length] in *.
    assert (q_head q1 = Some 0%nat) as -> by (unfold q_head; by destruct (q_nodes q1)). rewrite Eb. cbn [mbind option_bind].
    by exists q', (negb false), ([v] :: ess).
Qed.

Lemma ess_snoc ess : ess <> [] -> exists ess1 es, ess = ess1 ++ [es].
Proof. intros Hne. destruct (exists_last Hne) as (ess1 & es & ->). by exists ess1, es. Qed.

Lemma quicklistPushTail_spec q ess v : ql_repr q ess -> zbound (v :: concat ess) < ql_max ->
  exists q' b ess', quicklistPushTail junk uninit q v = Some (q', b) /\ ql_repr q' ess' /\ concat ess' = concat ess ++ [v] /\ same_options q q'.
Proof.
  intros Hq Hb. unfold quicklistPushTail. rewrite (tail_repr q ess Hq). destruct (_quicklistNodeAllowInsert _ _ _) eqn:Ea.
  - destruct (ess_snoc ess) as (ess1 & es & ->); [intros ->; done|].
    assert (match ess1 ++ [es] with [] => None | _ => Some (length (ess1 ++ [es]) - 1)%nat end = Some (length ess1)) as Et.
    { rewrite length_app. cbn [length]. destruct ess1; cbn; f_equal; lia. }
    rewrite Et in *. destruct (nodes_split q ess1 es [] Hq) as (l1 & n & l2 & Eq & El & _ & Hn & Hf2 & Hlk).
    unfold node_at in *. cbn [mbind option_bind length] in *. rewrite Hlk in *. cbn [mbind option_bind].
    pose proof (nodes_length q _ Hq) as Hl. rewrite length_app in Hl. cbn [length] in Hl.
    assert (raw n) as Hr. { apply (co_tail _ _ (qr_comp _ _ Hq) n). rewrite Hl. by replace (length ess1 + 1 - 1)%nat with (length ess1) by lia. }
    assert (zbound (es ++ [v]) < ql_max) as Hb'.
    { rewrite zbound_cons, concat_mid, zbound_app, zbound_app in Hb. rewrite zbound_snoc. pose proof (zbound_length (concat ess1)). cbn in Hb. unfold zbound in Hb at 3. cbn in Hb. lia. }
    destruct (push_into_spec n (full es) v ZIPLIST_TAIL Hn Hr) as (zl & -> & Hh); [by eapply bound_ele|done|]. cbn [mbind option_bind].
    assert (q_tail (q_set q (length ess1) (plain_node zl (full es).2)) = Some (length ess1)) as ->.
    { unfold q_tail. cbn [q_nodes q_set q_with_nodes]. destruct (<[_:=_]> _) eqn:E.
      - apply (f_equal length) in E. rewrite length_insert in E. cbn in E. lia.
      - rewrite <- E, length_insert. f_equal. lia. }
    destruct (add_to_node q ess1 es [] n zl (es ++ [v]) v Hq Hlk Hn Ea Hh) as (q' & Eb & Hq' & Ho); [by rewrite length_app, Nat.add_comm|by rewrite zbound_snoc|done|].
    change (q_count (q_set q _ _)) with (q_count q). cbn [snd full]. rewrite Eb. cbn [mbind option_bind].
    exists q', (negb true), (ess1 ++ [es ++ [v]]). split; [done|]. split; [done|]. split; [|done]. rewrite !concat_app. cbn. by rewrite !app_nil_r, <- app_assoc.
  - destruct (new_node_spec v ZIPLIST_TAIL (single_bound _ _ Hb)) as (zl & -> & Hh). cbn [mbind option_bind]. unfold _quicklistInsertNodeAfter.
    rewrite <- (app_nil_r ess) in Hq, Hb.
    destruct (add_new_node q ess [] zl v (match ess with [] => None | _ => Some (length ess - 1)%nat end) true Hq Hh Hb) as (q1 & q' & -> & Hl1 & Eb & Hq' & Ho);
      [done|by destruct ess|]. cbn [mbind option_bind length] in *.
    assert (q_tail q1 = Some (length ess)) as ->.
    { unfold q_tail. destruct (q_nodes q1) as [|n l] eqn:E; [done|]. rewrite <- E in *. f_equal. lia. }
    rewrite Eb. cbn [mbind option_bind].
    exists q', (negb false), (ess ++ [[v]]). split; [done|]. split; [done|]. split; [|done]. by rewrite concat_app.
Qed.

(** ** Deleting and popping *)

Lemma comp_same_raw c l l' : comp_ok c l -> length l' = length l -> (forall j, raw_at l j -> raw_at l' j) -> comp_ok c l'.
Proof.
  intros [H0 Hh Ht Hs] Hl Hk. split; rewrite ?Hl; [|by apply Hk|by apply Hk|]; intros Hx; apply all_raw; intros j _; apply Hk, raw_all; auto.
Qed.

Lemma raw_at_update (l : list quicklistNode) i n n' : l !! i = Some n -> (raw n -> raw n') -> forall j, raw_at l j -> raw_at (<[i:=n']> l) j.
Proof.
  intros Hn Hr j Hj y Hy. apply list_lookup_insert_Some in Hy as [(<- & <- & _)|[_ Hy]]; [by apply Hr, Hj|by apply Hj].
Qed.

(** The list after elements of a node are gone. *)
Definition without ess1 es ess2 : list (list (list byte)) := match es with [] => ess1 ++ ess2 | _ => ess1 ++ es :: ess2 end.

Lemma concat_without ess1 es ess2 : concat (without ess1 es ess2) = concat ess1 ++ es ++ concat ess2.
Proof. destruct es; cbn [without]; [by rewrite concat_app|by rewrite concat_mid]. Qed.

(** A node is put back with [es'], fewer elements than before, and deleted when it is empty. *)
Lemma shrink_repr q q1 ess1 es ess2 n zl es' : ql_repr q (ess1 ++ es :: ess2) -> q_nodes q !! length ess1 = Some n -> raw n ->
  zl_holds zl es' -> es' <> [] -> (length es' <= length es)%nat -> zbound es' <= zbound es ->
  q1 = q_with_count (q_set q (length ess1) (plain_node zl (Z.of_nat (length es')))) (q_count q - (Z.of_nat (length es) - Z.of_nat (length es'))) ->
  ql_repr q1 (ess1 ++ es' :: ess2) /\ same_options q q1.
Proof.
  intros Hq Hlk Hr Hh Hne Hle Hz ->. split; [|done]. destruct (len_small _ _ Hq) as [_ Hc64].
  destruct (nodes_split q ess1 es ess2 Hq) as (l1 & n0 & l2 & Eq & El & Hf1 & Hn & Hf2 & Hlk'). rewrite Hlk in Hlk'. injection Hlk' as <-.
  pose proof (qr_ne _ _ Hq) as Hs. apply Forall_app in Hs as [Hs1 Hs2]. apply Forall_cons in Hs2 as [[_ Hs] Hs2].
  split; cbn [q_nodes q_with_count q_set q_with_nodes q_compress q_fill q_len q_count]; try apply Hq.
  - rewrite Eq, <- El, replace_middle, fmap_full_middle. apply Forall2_app; [done|]. apply Forall2_cons. split; [by apply plain_ok|done].
  - apply Forall_app. split; [done|]. constructor; [|done]. split; [done|lia].
  - rewrite (qr_count _ _ Hq) in *. rewrite !concat_mid, !length_app in *. rewrite uwrap_small by lia. lia.
  - rewrite (qr_len _ _ Hq), !length_app. done.
  - eapply comp_same_raw; [apply Hq|by rewrite length_insert|]. by eapply raw_at_update.
  - pose proof (qr_bound _ _ Hq) as Hb. rewrite concat_mid in *. rewrite !zbound_app in *. lia.
Qed.

(** A node whose count is zero is deleted; [d] of its elements were counted. *)
Lemma gone_repr q ess1 es ess2 n d : ql_repr q (ess1 ++ es :: ess2) -> (raw n \/ q_nodes q !! length ess1 = Some n) ->
  n_count n = Z.of_nat (length es) - d -> 0 <= d <= Z.of_nat (length es) ->
  exists q', __quicklistDelNode junk uninit (q_set q (length ess1) n) (length ess1) = Some q' /\
    ql_repr (q_with_count q' (q_count q' - d)) (ess1 ++ ess2) /\ same_options q q' /\ q_count q' = Z.of_nat (length (concat (ess1 ++ ess2))) + d.
Proof.
  intros Hq Hr Hn Hd. destruct (len_small _ _ Hq) as [Hl64 Hc64].
  destruct (nodes_split q ess1 es ess2 Hq) as (l1 & n0 & l2 & Eq & El & Hf1 & Hn0 & Hf2 & Hlk).
  assert (q_nodes (q_set q (length ess1) n) = l1 ++ n :: l2) as E1 by (cbn; by rewrite Eq, <- El, replace_middle).
  assert (comp_ok (q_compress q) (l1 ++ n :: l2)) as Hco.
  { rewrite <- E1. cbn [q_set q_with_nodes q_nodes]. eapply comp_same_raw; [apply Hq|by rewrite length_insert|]. eapply raw_at_update; [done|].
    destruct Hr as [Hr|Hr]; [done|]. rewrite Hlk in Hr. injection Hr as ->. done. }
  assert (Z.of_nat (length (l1 ++ n :: l2)) = q_len q) as Hlen.
  { rewrite (qr_len _ _ Hq), !length_app. cbn [length]. rewrite (Forall2_length _ _ _ Hf2), length_fmap. lia. }
  rewrite <- El. destruct (del_node_spec (q_set q (length l1) n) l1 n l2 (full <$> ess1) (full <$> ess2)) as (q' & Hdel & Hf' & Hl' & Hc' & Hfi & Hcm & Hco'); try done.
  - by rewrite El.
  - rewrite El, E1. apply comp_ok_pre; [done|apply Hq|]. by rewrite Hlen.
  - rewrite El, E1. by rewrite Hlen.
  - cbn. lia.
  - exists q'. split; [done|]. cbn [q_compress q_set q_with_nodes q_len q_fill q_count] in *.
    pose proof (qr_ne _ _ Hq) as Hs. apply Forall_app in Hs as [Hs1 Hs2]. apply Forall_cons in Hs2 as [_ Hs2].
    assert (q_count q' = Z.of_nat (length (concat (ess1 ++ ess2))) + d) as Hcc.
    { rewrite Hc', Hn, (qr_count _ _ Hq) in *. rewrite concat_mid, concat_app, !length_app in *. rewrite uwrap_small by lia. lia. }
    split; [|done]. split; cbn [q_nodes q_with_count q_compress q_fill q_len q_count]; rewrite ?Hfi, ?Hcm, ?Hl', ?Hcc; try apply Hq; try done.
    + by rewrite fmap_app.
    + by apply Forall_app.
    + rewrite (qr_count _ _ Hq) in *. rewrite concat_mid, concat_app, !length_app in *. rewrite uwrap_small by lia. lia.
    + rewrite (qr_len _ _ Hq), !length_app. cbn [length]. lia.
    + pose proof (qr_bound _ _ Hq) as Hb. rewrite concat_mid, concat_app in *. rewrite !zbound_app in *. pose proof (zbound_length es). lia.
Qed.

Lemma quicklistDelIndex_spec q ess1 es ess2 n rsA r rsB : ql_repr q (ess1 ++ es :: ess2) -> q_nodes q !! length ess1 = Some n -> raw n ->
  zl_repr (n_zl n) (rsA ++ r :: rsB) -> es = rsA.*2 ++ r.2 :: rsB.*2 ->
  exists q', quicklistDelIndex junk uninit q (length ess1) (zpos rsA) = Some (q', zpos rsA, bool_decide (rsA.*2 ++ rsB.*2 = [])) /\
    ql_repr q' (without ess1 (rsA.*2 ++ rsB.*2) ess2) /\ same_options q q'.
Proof.
  intros Hq Hlk Hr Hz ->. set (es := rsA.*2 ++ r.2 :: rsB.*2) in *. set (es' := rsA.*2 ++ rsB.*2).
  destruct (nodes_split q ess1 es ess2 Hq) as (_ & n0 & _ & _ & _ & _ & Hn & _ & Hlk'). rewrite Hlk in Hlk'. injection Hlk' as <-.
  assert (length es = S (length es')) as Hl by (subst es es'; rewrite !length_app; cbn [length]; lia).
  assert (zbound es' <= zbound es) as Hzb by (subst es es'; rewrite !zbound_app, zbound_cons; lia).
  pose proof (node_bound _ _ _ (qr_bound _ _ Hq)) as Hb. pose proof (qr_ne _ _ Hq) as Hs. apply Forall_app in Hs as [_ Hs]. apply Forall_cons in Hs as [[_ Hs] _].
  unfold quicklistDelIndex. rewrite Hlk. cbn [mbind option_bind].
  destruct (delete_at junk (n_zl n) rsA r rsB Hz) as (zl & rsB' & -> & Hr' & HB'); [fold es'; lia|]. cbn [mbind option_bind].
  assert (zl_holds zl es') as Hh by (exists (rsA ++ rsB'); split; [done|]; by rewrite fmap_app, HB').
  assert (n_with_count (n_with_zl n zl) (n_count n - 1) = mkNode zl (n_sz n) (Z.of_nat (length es')) QUICKLIST_NODE_ENCODING_RAW false) as ->.
  { unfold n_with_count, n_with_zl. cbn. rewrite (nk_count _ _ Hn), (nk_recompress _ _ Hn). unfold raw in Hr. rewrite Hr. cbn [snd full].
    rewrite Hl, uwrap_small by lia. f_equal. lia. }
  cbn [n_count]. destruct es' as [|e es''] eqn:Ees.
  - change (Z.of_nat (length []) =? 0) with true. cbv iota.
    destruct (gone_repr q ess1 es ess2 (mkNode zl (n_sz n) (Z.of_nat (@length (list byte) [])) QUICKLIST_NODE_ENCODING_RAW false) 1 Hq) as (q' & -> & Hq' & Ho & _);
      [by left|cbn; rewrite Hl; done|rewrite Hl; cbn; lia|].
    cbn [mbind option_bind]. eexists. rewrite bool_decide_eq_true_2 by done. split; [done|]. split; [exact Hq'|done].
  - rewrite (proj2 (Z.eqb_neq (Z.of_nat (length (e :: es''))) 0)) by (cbn [length]; lia). rewrite (update_sz _ _ _ _ _ _ Hh). cbn [mbind option_bind].
    rewrite bool_decide_eq_false_2 by done. eexists. split; [done|]. cbn [without].
    apply (shrink_repr q _ ess1 es ess2 n zl (e :: es'')); try done; [lia|]. rewrite Hl. unfold plain_node.
    change (q_count (q_set q _ _)) with (q_count q). f_equal. lia.
Qed.

(** ** Reading an entry, popping, rotating *)

Definition pop_bytes (p : popped) : list byte := match p with PopData d => d | PopInt n => decimal n end.

Lemma entry_string_spec zl rs1 r rs2 : zl_repr zl (rs1 ++ r :: rs2) ->
  exists v, ziplistGet zl (Some (zpos rs1)) = Some (Some v) /\ entry_string zl v = Some r.2.
Proof.
  intros Hr. destruct (zvalue_repr zl rs1 r rs2 Hr) as (v & Hg & Hv). exists v. split; [done|].
  destruct v as [p n|n]; cbn [entry_string]; [apply Hv|]. destruct Hv as (_ & Hn & ->). pose proof (decimal_short n Hn) as Hs.
  change 32 with (Z.of_nat (length (replicate 32 0))). rewrite (ll2string_spec _ _ Hn). change (length (replicate 32 0)) with 32%nat.
  rewrite (proj2 (Z.ltb_lt _ _)) by lia. cbn [mbind option_bind fst snd]. by apply (load_app [] (decimal n)).
Qed.

(** The first and the last element of a ziplist. *)
Lemma index_first zl r rs : zl_repr zl (r :: rs) -> ziplistIndex zl 0 = Some (Some (zpos [])).
Proof.
  intros Hr. rewrite (index_repr zl (r :: rs) 0 Hr) by done. unfold index_of. change (0 <? 0) with false. cbv zeta iota.
  rewrite (proj2 (Z.ltb_lt 0 _)) by (rewrite length_fmap; cbn [length]; lia). done.
Qed.

Lemma index_last zl rs r : zl_repr zl (rs ++ [r]) -> ziplistIndex zl (-1) = Some (Some (zpos rs)).
Proof.
  intros Hr. rewrite (index_repr zl (rs ++ [r]) (-1) Hr) by done. unfold index_of. change (-1 <? 0) with true. cbv zeta iota.
  rewrite length_fmap, length_app. cbn [length]. replace (Z.of_nat (length rs + 1) + -1) with (Z.of_nat (length rs)) by lia.
  rewrite (proj2 (Z.leb_le 0 _)) by lia. rewrite (proj2 (Z.ltb_lt _ _)) by lia. cbn [andb fmap option_fmap option_map].
  by rewrite Nat2Z.id, take_app_length.
Qed.

(** The node at an end with its first or last element. *)
Lemma end_entry q ess where_ : ql_repr q ess -> ess <> [] -> where_ = QUICKLIST_HEAD \/ where_ = QUICKLIST_TAIL ->
  exists ess1 es ess2 n rsA r rsB, ess = ess1 ++ es :: ess2 /\ q_nodes q !! length ess1 = Some n /\ raw n /\ zl_repr (n_zl n) (rsA ++ r :: rsB) /\
    es = rsA.*2 ++ r.2 :: rsB.*2 /\ (if where_ =? QUICKLIST_HEAD then q_head q else q_tail q) = Some (length ess1) /\
    ziplistIndex (n_zl n) (if where_ =? QUICKLIST_HEAD then 0 else -1) = Some (Some (zpos rsA)) /\
    concat ess = (if where_ =? QUICKLIST_HEAD then [r.2] else []) ++ concat ess1 ++ (rsA.*2 ++ rsB.*2) ++ concat ess2 ++ (if where_ =? QUICKLIST_HEAD then [] else [r.2]).
Proof.
  intros Hq Hne Hw. destruct Hw as [->| ->].
  - change (QUICKLIST_HEAD =? QUICKLIST_HEAD) with true. cbv iota. destruct ess as [|es ess2]; [done|].
    destruct (nodes_split q [] es ess2 Hq) as (l1 & n & l2 & _ & _ & _ & Hn & _ & Hlk). pose proof (co_head _ _ (qr_comp _ _ Hq) n Hlk) as Hr.
    pose proof (qr_ne _ _ Hq) as Hes. apply Forall_cons in Hes as [[Hes _] _]. destruct (raw_holds n _ Hn Hr) as [(rs & Hz & Hrs) _]. cbn [fst full] in Hrs. subst es.
    destruct rs as [|r rs]; [done|]. exists [], ((r :: rs).*2), ess2, n, [], r, rs. split_and!; try done; [by rewrite (head_repr q _ Hq)|by eapply index_first|].
    cbn. by rewrite app_nil_r.
  - change (QUICKLIST_TAIL =? QUICKLIST_HEAD) with false. cbv iota. destruct (ess_snoc ess Hne) as (ess1 & es & ->).
    destruct (nodes_split q ess1 es [] Hq) as (l1 & n & l2 & _ & _ & _ & Hn & _ & Hlk). pose proof (nodes_length q _ Hq) as Hl. rewrite length_app in Hl. cbn [length] in Hl.
    assert (raw n) as Hr. { apply (co_tail _ _ (qr_comp _ _ Hq) n). rewrite Hl. by replace (length ess1 + 1 - 1)%nat with (length ess1) by lia. }
    pose proof (qr_ne _ _ Hq) as Hes. apply Forall_app in Hes as [_ Hes]. apply Forall_cons in Hes as [[Hes _] _].
    destruct (raw_holds n _ Hn Hr) as [(rs & Hz & Hrs) _]. cbn [fst full] in Hrs. subst es.
    destruct (exists_last (l := rs)) as (rsA & r & ->); [by intros ->|]. exists ess1, ((rsA ++ [r]).*2), [], n, rsA, r, []. split_and!; try done.
    + by rewrite fmap_app.
    + rewrite (tail_repr q _ Hq), length_app. cbn [length]. destruct ess1; cbn; f_equal; lia.
    + by eapply index_last.
    + rewrite concat_app, fmap_app. cbn. by rewrite !app_nil_r.
Qed.

Lemma count_nonzero q ess : ql_repr q ess -> (q_count q =? 0) = bool_decide (ess = []).
Proof.
  intros Hq. rewrite (qr_count _ _ Hq). pose proof (concat_length_le ess (qr_ne _ _ Hq)). case_bool_decide as E; [by subst|].
  apply Z.eqb_neq. destruct ess; [done|]. cbn [length] in *. lia.
Qed.

Lemma quicklistPop_spec q ess where_ : ql_repr q ess -> where_ = QUICKLIST_HEAD \/ where_ = QUICKLIST_TAIL ->
  exists q' v ess', quicklistPop junk uninit q where_ = Some (q', v) /\ ql_repr q' ess' /\ same_options q q' /\
    match v with
    | None => concat ess = [] /\ concat ess' = []
    | Some p => concat ess = if where_ =? QUICKLIST_HEAD then pop_bytes p :: concat ess' else concat ess' ++ [pop_bytes p]
    end.
Proof.
  intros Hq Hw. unfold quicklistPop, quicklistPopCustom. rewrite (count_nonzero q ess Hq). case_bool_decide as E0; [subst; by exists q, None, []|].
  destruct (end_entry q ess where_ Hq E0 Hw) as (ess1 & es & ess2 & n & rsA & r & rsB & -> & Hlk & Hr & Hz & Hes & Hend & Hix & Hcc).
  assert ((if where_ =? QUICKLIST_HEAD then q_head q else if where_ =? QUICKLIST_TAIL then q_tail q else None) = Some (length ess1)) as ->.
  { destruct Hw as [-> | ->]; [done|]. exact Hend. }
  rewrite Hlk. cbn [mbind option_bind]. rewrite Hix. cbn [mbind option_bind].
  destruct (zvalue_repr (n_zl n) rsA r rsB Hz) as (v & -> & Hv). cbn [mbind option_bind].
  assert (exists d, (match v with ZlStr s len => d ← load (n_zl n) s len; Some (PopData d) | ZlInt vlong => Some (PopInt vlong) end) = Some d /\ pop_bytes d = r.2) as (d & -> & Hd).
  { destruct v as [s len|x]; [destruct Hv as [-> _]; by eexists|]. destruct Hv as (_ & _ & E). by eexists. }
  cbn [mbind option_bind]. destruct (quicklistDelIndex_spec q ess1 es ess2 n rsA r rsB Hq Hlk Hr Hz Hes) as (q' & -> & Hq' & Ho). cbn [mbind option_bind fst].
  eexists _, _, _. split; [done|]. split; [exact Hq'|]. split; [done|]. rewrite Hd, Hcc, concat_without. destruct (_ =? _); [by rewrite app_nil_r|]. cbn [app]. by rewrite !app_assoc.
Qed.

Lemma quicklistPush_spec q ess v where_ : ql_repr q ess -> zbound (v :: concat ess) < ql_max -> where_ = QUICKLIST_HEAD \/ where_ = QUICKLIST_TAIL ->
  exists q' ess', quicklistPush junk uninit q v where_ = Some q' /\ ql_repr q' ess' /\ same_options q q' /\
    concat ess' = if where_ =? QUICKLIST_HEAD then v :: concat ess else concat ess ++ [v].
Proof.
  intros Hq Hb Hw. unfold quicklistPush. destruct Hw as [-> | ->].
  - change (QUICKLIST_HEAD =? QUICKLIST_HEAD) with true. cbv iota. destruct (quicklistPushHead_spec q ess v Hq Hb) as (q' & b & ess' & -> & ? & ? & ?). by exists q', ess'.
  - change (QUICKLIST_TAIL =? QUICKLIST_HEAD) with false. change (QUICKLIST_TAIL =? QUICKLIST_TAIL) with true. cbv iota.
    destruct (quicklistPushTail_spec q ess v Hq Hb) as (q' & b & ess' & -> & ? & ? & ?). by exists q', ess'.
Qed.

(** ** Both ends *)

Inductive qcmd := QPush (where_ : Z) (v : list byte) | QPop (where_ : Z).

Definition qcmd_ok (c : qcmd) : Prop := match c with QPush w _ | QPop w => w = QUICKLIST_HEAD \/ w = QUICKLIST_TAIL end.

(** The code: the list and what the pops gave, as strings. *)
Fixpoint q_run (q : quicklist) (cs : list qcmd) : option (quicklist * list (option (list byte))) :=
  match cs with
  | [] => Some (q, [])
  | QPush w v :: cs => q ← quicklistPush junk uninit q v w; q_run q cs
  | QPop w :: cs =>
      r ← quicklistPop junk uninit q w;
      s ← q_run r.1 cs;
      Some (s.1, option_map pop_bytes r.2 :: s.2)
  end.

(** A double-ended queue. *)
Definition deque_pop (w : Z) es : list (list byte) * option (list byte) :=
  if w =? QUICKLIST_HEAD then (tail es, head es) else (removelast es, last es).
Definition deque_push (w : Z) (v : list byte) es : list (list byte) := if w =? QUICKLIST_HEAD then v :: es else es ++ [v].

Fixpoint deque_run es (cs : list qcmd) : list (list byte) * list (option (list byte)) :=
  match cs with
  | [] => (es, [])
  | QPush w v :: cs => deque_run (deque_push w v es) cs
  | QPop w :: cs => let r := deque_pop w es in let s := deque_run r.1 cs in (s.1, r.2 :: s.2)
  end.

(** The bytes that the pushes ask for. *)
Definition qcost (cs : list qcmd) : Z := foldr (fun c acc => match c with QPush _ v => 18 + Z.of_nat (length v) + acc | QPop _ => acc end) 0 cs.

Lemma qcost_nonneg cs : 0 <= qcost cs.
Proof. induction cs as [|[] cs IH]; cbn [qcost foldr] in *; unfold qcost in *; lia. Qed.

Lemma pop_deque w es es' p : w = QUICKLIST_HEAD \/ w = QUICKLIST_TAIL ->
  es = (if w =? QUICKLIST_HEAD then p :: es' else es' ++ [p]) -> deque_pop w es = (es', Some p).
Proof.
  intros [-> | ->] ->; unfold deque_pop; [done|]. change (QUICKLIST_TAIL =? QUICKLIST_HEAD) with false. cbv iota. by rewrite removelast_last, last_snoc.
Qed.

Lemma q_run_spec cs : forall q ess, ql_repr q ess -> Forall qcmd_ok cs -> zbound (concat ess) + qcost cs < ql_max ->
  exists q' ess', q_run q cs = Some (q', (deque_run (concat ess) cs).2) /\ ql_repr q' ess' /\ concat ess' = (deque_run (concat ess) cs).1.
Proof.
  induction cs as [|c cs IH]; intros q ess Hq Hok Hb; [by exists q, ess|]. apply Forall_cons in Hok as [Hc Hok]. pose proof (qcost_nonneg cs).
  destruct c as [w v|w]; cbn [q_run deque_run qcost foldr] in *; fold (qcost cs) in Hb.
  - destruct (quicklistPush_spec q ess v w Hq) as (q1 & ess1 & -> & Hq1 & _ & E1); [rewrite zbound_cons; lia|done|]. cbn [mbind option_bind].
    fold (deque_push w v (concat ess)) in E1. rewrite <- E1. apply IH; [done|done|]. rewrite E1. unfold deque_push. destruct (_ =? _); rewrite ?zbound_cons, ?zbound_snoc; lia.
  - destruct (quicklistPop_spec q ess w Hq Hc) as (q1 & v & ess1 & -> & Hq1 & _ & E1). cbn [mbind option_bind fst snd].
    assert (deque_pop w (concat ess) = (concat ess1, option_map pop_bytes v)) as ->.
    { destruct v as [p|]; [by apply pop_deque|]. destruct E1 as [-> ->]. unfold deque_pop. by destruct (_ =? _). }
    cbn [fst snd]. destruct (IH q1 ess1 Hq1 Hok) as (q2 & ess2 & -> & Hq2 & E2); [|by exists q2, ess2].
    destruct v as [p|]; [|destruct E1 as [E1 ->]; rewrite E1 in Hb; lia]. assert (zbound (concat ess1) <= zbound (concat ess)); [|lia].
    rewrite E1. destruct (_ =? _); rewrite ?zbound_cons, ?zbound_snoc; lia.
Qed.

Lemma qnew_repr fill depth : ql_repr (quicklistNew fill depth) [].
Proof.
  split; cbn [quicklistNew quicklistSetOptions quicklistSetFill quicklistSetCompressDepth quicklistCreate q_nodes q_count q_len q_fill q_compress];
    first [by apply uwrap_range|by apply swrap_range|apply comp_ok_all; constructor|done].
Qed.
End quicklist.

(** ** Properties *)

(** C12: a quicklist is a double-ended queue.  For any fill factor and any compression
    depth, and any sequence of pushes and pops at both ends whose values sum up to less than
    4 GB, every call completes, the pops return what the pops of a list return, in both
    cases the strings that were pushed, and the count of elements is that of the list: how the
    elements are spread over nodes, and which nodes are compressed, is not observable. *)
Theorem quicklist_deque_refines `{HH : Host} (junk : nat -> byte) (uninit : Z -> Z) fill depth cs :
  Forall qcmd_ok cs -> 11 + qcost cs < ql_max ->
  exists q, q_run junk uninit (quicklistNew fill depth) cs = Some (q, (deque_run [] cs).2) /\
    quicklistCount q = Z.of_nat (length (deque_run [] cs).1).
Proof.
  intros Hok Hb. destruct (q_run_spec junk uninit cs (quicklistNew fill depth) [] (qnew_repr fill depth) Hok Hb) as (q & ess & Hr & Hq & E).
  exists q. split; [exact Hr|]. unfold quicklistCount. by rewrite (qr_count _ _ Hq), E.
Qed.

(** ** Examples and witnesses *)

Local Instance ql_little : Host := false.

(** Nodes of one element, all but the ends compressed. *)
Definition ql_value (k : Z) : list byte := replicate 60 k.
Definition ql_script : list qcmd :=
  [QPush QUICKLIST_TAIL (ql_value 1); QPush QUICKLIST_TAIL (ql_value 2); QPush QUICKLIST_TAIL (ql_value 3); QPush QUICKLIST_HEAD (decimal 7);
   QPop QUICKLIST_HEAD; QPop QUICKLIST_TAIL; QPop QUICKLIST_HEAD; QPop QUICKLIST_HEAD; QPop QUICKLIST_TAIL].

Lemma quicklist_deque_refines_witness : Forall qcmd_ok ql_script /\ 11 + qcost ql_script < ql_max /\
  exists q, q_run junk_zl (fun _ => 0) (quicklistNew 1 1) ql_script =
    Some (q, [Some (decimal 7); Some (ql_value 3); Some (ql_value 1); Some (ql_value 2); None]).
Proof.
  assert (Forall qcmd_ok ql_script) as H1 by (repeat constructor; first [by left|by right]).
  assert (11 + qcost ql_script < ql_max) as H2 by (by vm_compute).
  split; [exact H1|]. split; [exact H2|]. destruct (quicklist_deque_refines junk_zl (fun _ => 0) 1 1 ql_script H1 H2) as (q & Hq & _).
  exists q. exact Hq.
Defined.

(** The node in the middle is compressed after the first three pushes. *)
Example ql_compressed :
  match q_run junk_zl (fun _ => 0) (quicklistNew 1 1) (take 3 ql_script) with
  | Some (q, _) => n_encoding <$> q_nodes q = [QUICKLIST_NODE_ENCODING_RAW; QUICKLIST_NODE_ENCODING_LZF; QUICKLIST_NODE_ENCODING_RAW]
  | None => False
  end.
Proof. vm_compute. reflexivity. Qed.
