(* ===== verification/QuicklistOps.v ===== *)
(** * Quicklists without compression: insertion, ranges, iteration

    The operations in the middle of a list, for lists whose nodes are not compressed (the
    default of the configuration): look-up from either end, insertion with splitting and
    merging of nodes, replacement, deletion of ranges, iterators in both directions with
    deletion on the way. *)

From S2P Require Import Prelude Endian Util Lzf Listpack ZiplistDefs Ziplist ZiplistOps QuicklistDefs Quicklist.
Local Open Scope Z_scope.

Section uncompressed.
Context `{HH : Host} (junk : nat -> byte) (uninit : Z -> Z).
Implicit Types n : quicklistNode.
Implicit Types q : quicklist.
Implicit Types es : list (list byte).
Implicit Types ess : list (list (list byte)).

(** ** Lists without compression *)

(** A place in the list: the element [r] of the node [n], uncompressed. *)
Record located q ess1 es ess2 n rsA (r : rentry) rsB : Prop := {
  lc_repr : ql_repr q (ess1 ++ es :: ess2);
  lc_node : q_nodes q !! length ess1 = Some n;
  lc_raw : raw n;
  lc_zl : zl_repr (n_zl n) (rsA ++ r :: rsB);
  lc_es : es = rsA.*2 ++ r.2 :: rsB.*2
}.

Lemma q_set_id q i n : q_nodes q !! i = Some n -> q_set q i n = q.
Proof. intros Hn. unfold q_set, q_with_nodes. rewrite list_insert_id by done. by destruct q. Qed.

Lemma for_use_raw q i n : q_nodes q !! i = Some n -> raw n -> on_node (quicklistDecompressNodeForUse junk) q (Some i) = Some q.
Proof. intros Hn Hr. cbn [on_node]. rewrite Hn. cbn [mbind option_bind]. rewrite (raw_for_use junk) by done. cbn [mbind option_bind]. by rewrite q_set_id. Qed.

Lemma decompress_raw q i n : q_nodes q !! i = Some n -> raw n -> on_node (quicklistDecompressNode junk) q (Some i) = Some q.
Proof. intros Hn Hr. cbn [on_node]. rewrite Hn. cbn [mbind option_bind]. rewrite (raw_decompress junk) by done. cbn [mbind option_bind]. by rewrite q_set_id. Qed.

Lemma compress_off q i : q_compress q = 0 -> __quicklistCompress junk uninit q i = Some q.
Proof. intros E. unfold __quicklistCompress, quicklistAllowsCompression. by rewrite E. Qed.

Lemma all_nodes_raw q ess : ql_repr q ess -> q_compress q = 0 -> Forall raw (q_nodes q).
Proof. intros Hq Hc. by apply (co_off _ _ (qr_comp _ _ Hq)). Qed.

(** A node is replaced by one with other elements. *)
Lemma qreplace_repr q q1 ess1 es ess2 n zl es' : ql_repr q (ess1 ++ es :: ess2) -> q_nodes q !! length ess1 = Some n -> raw n ->
  zl_holds zl es' -> es' <> [] -> Z.of_nat (length es') < 2 ^ 16 -> zbound (concat (ess1 ++ es' :: ess2)) < ql_max ->
  q1 = q_with_count (q_set q (length ess1) (plain_node zl (Z.of_nat (length es')))) (q_count q + (Z.of_nat (length es') - Z.of_nat (length es))) ->
  ql_repr q1 (ess1 ++ es' :: ess2) /\ same_options q q1.
Proof.
  intros Hq Hlk Hr Hh Hne Hs Hb ->. split; [|done]. destruct (len_small _ _ Hq) as [_ Hc64].
  destruct (nodes_split q ess1 es ess2 Hq) as (l1 & n0 & l2 & Eq & El & Hf1 & Hn & Hf2 & Hlk'). rewrite Hlk in Hlk'. injection Hlk' as <-.
  pose proof (qr_ne _ _ Hq) as Hs0. apply Forall_app in Hs0 as [Hs1 Hs2]. apply Forall_cons in Hs2 as [[_ Hs0] Hs2].
  split; cbn [q_nodes q_with_count q_set q_with_nodes q_compress q_fill q_len q_count]; try apply Hq.
  - rewrite Eq, <- El, replace_middle, fmap_full_middle. apply Forall2_app; [done|]. apply Forall2_cons. split; [by apply plain_ok|done].
  - apply Forall_app. split; [done|]. constructor; [|done]. split; [done|lia].
  - rewrite (qr_count _ _ Hq) in *. rewrite !concat_mid, !length_app in *. pose proof (zbound_length (concat ess1 ++ es' ++ concat ess2)) as Hz.
    rewrite !length_app in Hz. change (2 ^ 64) with 18446744073709551616 in *. rewrite uwrap_small by lia. lia.
  - rewrite (qr_len _ _ Hq), !length_app. done.
  - eapply comp_same_raw; [apply Hq|by rewrite length_insert|]. by eapply raw_at_update.
  - done.
Qed.

(** *** Look-up *)

(** The node an index falls into, from either end. *)
Lemma index_node_spec (fwd : bool) index ess1 es : forall ess2 l i a, Forall2 node_ok l (full <$> (ess1 ++ es :: ess2)) ->
  0 <= a -> a + Z.of_nat (length (concat (ess1 ++ es :: ess2))) < 2 ^ 64 ->
  a + Z.of_nat (length (concat ess1)) <= index < a + Z.of_nat (length (concat ess1)) + Z.of_nat (length es) ->
  index_node l fwd i a index = Some ((if fwd then i + length ess1 else i - length ess1)%nat, a + Z.of_nat (length (concat ess1))).
Proof.
  induction ess1 as [|es1 ess1 IH]; intros ess2 l i a Hf Ha Hmax Hi; cbn [app fmap list_fmap] in Hf;
    apply Forall2_cons_inv_r in Hf as (n & l' & Hn & Hf & ->); cbn [index_node]; rewrite (nk_count _ _ Hn); cbn [snd full concat app length] in *.
  - rewrite length_app in Hmax. rewrite uwrap_small by lia. rewrite (proj2 (Z.gtb_lt _ _)) by lia. rewrite Nat.add_0_r, Nat.sub_0_r, Z.add_0_r. by destruct fwd.
  - rewrite !length_app in *. rewrite uwrap_small by lia. rewrite Z.gtb_ltb, (proj2 (Z.ltb_ge _ _)) by lia.
    rewrite (IH ess2) by (done || rewrite ?length_app; lia). f_equal. f_equal; [destruct fwd; lia|lia].
Qed.

Lemma split_at_index ess k : (k < length (concat ess))%nat -> exists ess1 es ess2, ess = ess1 ++ es :: ess2 /\
  (length (concat ess1) <= k < length (concat ess1) + length es)%nat.
Proof.
  revert k. induction ess as [|es ess IH]; intros k Hk; cbn in Hk; [lia|]. rewrite length_app in Hk. destruct (decide (k < length es)%nat) as [Hl|Hl].
  - exists [], es, ess. cbn. split; [done|]. lia.
  - destruct (IH (k - length es)%nat) as (ess1 & es' & ess2 & -> & Hk'); [lia|]. exists (es :: ess1), es', ess2. split; [done|]. cbn. rewrite length_app. lia.
Qed.

Lemma locate q ess1 es ess2 k : ql_repr q (ess1 ++ es :: ess2) -> q_compress q = 0 -> (k < length es)%nat ->
  exists n rsA r rsB, located q ess1 es ess2 n rsA r rsB /\ length rsA = k.
Proof.
  intros Hq Hc Hk. destruct (nodes_split q ess1 es ess2 Hq) as (_ & n & _ & _ & _ & _ & Hn & _ & Hlk).
  pose proof (raw_all _ (all_nodes_raw _ _ Hq Hc) _ n Hlk) as Hr. destruct (raw_holds n _ Hn Hr) as [(rs & Hz & Hrs) _]. cbn [fst full] in Hrs.
  assert (k < length rs)%nat as Hkr by (rewrite <- (length_fmap snd rs), Hrs; done).
  destruct (cut_at (n_zl n) rs k Hz Hkr) as (r & Hz' & E). exists n, (take k rs), r, (drop (S k) rs). split.
  - split; try done. rewrite <- Hrs. rewrite E at 1. rewrite fmap_app. done.
  - rewrite length_take. lia.
Qed.

Lemma concat_rev_length ess : length (concat (rev ess)) = length (concat ess).
Proof. induction ess as [|es ess IH]; [done|]. cbn [rev]. rewrite concat_app. cbn. rewrite app_nil_r, !length_app, IH. lia. Qed.

Lemma Forall2_rev_full l ess : Forall2 node_ok l (full <$> ess) -> Forall2 node_ok (rev l) (full <$> rev ess).
Proof.
  revert l. induction ess as [|es ess IH]; intros l Hf; cbn [fmap list_fmap] in Hf.
  - apply Forall2_nil_inv_r in Hf as ->. constructor.
  - apply Forall2_cons_inv_r in Hf as (n & l' & Hn & Hf & ->). cbn [rev]. rewrite fmap_app. apply Forall2_app; [by apply IH|]. by apply Forall2_cons.
Qed.

(** The entry of quicklistIndex() for the element [r] of a place. *)
Lemma quicklistIndex_spec q ess idx : ql_repr q ess -> q_compress q = 0 -> LLONG_MIN < idx ->
  match index_of (concat ess) idx with
  | None => quicklistIndex junk q idx = Some (q, None)
  | Some k => exists ess1 es ess2 n rsA r rsB v, ess = ess1 ++ es :: ess2 /\ located q ess1 es ess2 n rsA r rsB /\
      k = (length (concat ess1) + length rsA)%nat /\ ziplistGet (n_zl n) (Some (zpos rsA)) = Some (Some v) /\ 
      quicklistIndex junk q idx = Some (q, Some (mkEntry (Some (length ess1)) (Some (zpos rsA)) (Some v)
        (if idx <? 0 then Z.of_nat (length rsA) - Z.of_nat (length es) else Z.of_nat (length rsA))))
  end.
Proof.
  intros Hq Hc Hidx. destruct (len_small _ _ Hq) as [_ Hc64]. unfold quicklistIndex. rewrite (proj2 (Z.eqb_neq idx LLONG_MIN)) by lia.
  rewrite (qr_count _ _ Hq) in *. unfold index_of. set (T := length (concat ess)) in *. destruct (_ && _) eqn:E.
  2: { assert (((if negb (idx <? 0) then idx else - idx - 1) >=? Z.of_nat T) = true) as ->; [|done]. rewrite Z.geb_leb. apply Z.leb_le.
       apply andb_false_iff in E as [E|E]; zbool; destruct (idx <? 0) eqn:Ei; cbn [negb]; zbool; lia. }
  zbool. set (k := Z.to_nat (if idx <? 0 then Z.of_nat T + idx else idx)). assert (k < T)%nat as Hk by lia.
  destruct (split_at_index ess k Hk) as (ess1 & es & ess2 & Ess & Hk12). rewrite Ess in Hq.
  destruct (locate q ess1 es ess2 (k - length (concat ess1)) Hq Hc) as (n & rsA & r & rsB & Hloc & HA); [lia|].
  destruct (zvalue_repr _ _ _ _ (lc_zl _ _ _ _ _ _ _ _ Hloc)) as (v & Hv & _).
  exists ess1, es, ess2, n, rsA, r, rsB, v. split; [done|]. split; [done|]. split; [lia|]. split; [done|].
  pose proof (zbound_length (concat ess)) as Hzb. pose proof (qr_bound _ _ Hq) as Hb. rewrite <- Ess in Hb. fold T in Hzb.
  assert (T = length (concat ess1) + length es + length (concat ess2))%nat as HT by (subst T; rewrite Ess, concat_mid, !length_app; lia).
  pose proof (qr_nodes _ _ Hq) as Hf. pose proof (nodes_length _ _ Hq) as Hnl. rewrite length_app in Hnl. cbn [length] in Hnl.
  pose proof (lc_node _ _ _ _ _ _ _ _ Hloc) as Hlk. pose proof (lc_raw _ _ _ _ _ _ _ _ Hloc) as Hr.
  pose proof (lc_zl _ _ _ _ _ _ _ _ Hloc) as Hz. pose proof (lc_es _ _ _ _ _ _ _ _ Hloc) as Hes.
  assert (rsA.*2 ++ r.2 :: rsB.*2 = (rsA ++ r :: rsB).*2) as Ers by (by rewrite fmap_app).
  assert (length es = S (length rsA + length rsB)) as Hle by (rewrite Hes, length_app; cbn [length]; rewrite !length_fmap; lia).
  assert (forall o, INT32_MIN < o -> index_of es o = Some (length rsA) -> ziplistIndex (n_zl n) o = Some (Some (zpos rsA))) as Hix.
  { intros o Ho Hi. rewrite (index_repr _ _ o Hz Ho). rewrite <- Ers, <- Hes, Hi. cbn. by rewrite take_app_length. }
  destruct (idx <? 0) eqn:Ei; cbn [negb]; zbool.
  - rewrite Z.geb_leb, (proj2 (Z.leb_gt _ _)) by lia.
    assert (rev ess = rev ess2 ++ es :: rev ess1) as Hrev by (rewrite Ess, rev_app_distr; cbn; by rewrite <- app_assoc).
    rewrite (index_node_spec false (- idx - 1) (rev ess2) es (rev ess1)).
    + cbv beta iota. rewrite concat_rev_length, length_rev. replace (length (q_nodes q) - 1 - length ess2)%nat with (length ess1) by lia.
      rewrite (for_use_raw q _ n Hlk Hr). cbn [mbind option_bind]. rewrite Hlk. cbn [mbind option_bind].
      replace (- (- idx - 1) - 1 + (0 + Z.of_nat (length (concat ess2)))) with (Z.of_nat (length rsA) - Z.of_nat (length es)) by lia.
      rewrite swrap_small by (done || limits; lia). rewrite Hix; [|limits; lia|].
      * cbn [mbind option_bind]. by rewrite Hv.
      * unfold index_of. rewrite (proj2 (Z.ltb_lt (Z.of_nat (length rsA) - Z.of_nat (length es)) 0)) by lia. cbv zeta.
        rewrite (proj2 (Z.leb_le 0 _)), (proj2 (Z.ltb_lt _ (Z.of_nat (length es)))) by lia. cbn [andb]. f_equal. lia.
    + rewrite <- Hrev, Ess. by apply Forall2_rev_full.
    + lia.
    + rewrite <- Hrev, concat_rev_length. fold T. lia.
    + rewrite concat_rev_length. lia.
  - rewrite Z.geb_leb, (proj2 (Z.leb_gt _ _)) by lia.
    rewrite (index_node_spec true idx ess1 es ess2) by (done || rewrite <- ?Ess; fold T; lia). cbv beta iota. rewrite Nat.add_0_l, Z.add_0_l.
    rewrite (for_use_raw q _ n Hlk Hr). cbn [mbind option_bind]. rewrite Hlk. cbn [mbind option_bind].
    replace (idx - Z.of_nat (length (concat ess1))) with (Z.of_nat (length rsA)) by lia. rewrite swrap_small by (done || limits; lia).
    rewrite Hix; [|limits; lia|].
    + cbn [mbind option_bind]. by rewrite Hv.
    + unfold index_of. rewrite (proj2 (Z.ltb_ge (Z.of_nat (length rsA)) 0)) by lia. cbv zeta.
      rewrite (proj2 (Z.leb_le 0 _)), (proj2 (Z.ltb_lt _ (Z.of_nat (length es)))) by lia. cbn [andb]. by rewrite Nat2Z.id.
Qed.

(** *** Replacement and insertion into a node *)

Lemma recompress_plain q i zl c : (i < length (q_nodes q))%nat -> quicklistRecompressOnly junk uninit (q_set q i (plain_node zl c)) i = Some (q_set q i (plain_node zl c)).
Proof. intros Hi. unfold quicklistRecompressOnly. cbn [q_nodes q_set q_with_nodes]. by rewrite list_lookup_insert_eq. Qed.

Lemma compress_plain q i zl c : (i < length (q_nodes q))%nat -> q_compress q = 0 ->
  quicklistCompress junk uninit (q_set q i (plain_node zl c)) i = Some (q_set q i (plain_node zl c)).
Proof.
  intros Hi Hc. unfold quicklistCompress. cbn [q_nodes q_set q_with_nodes]. rewrite list_lookup_insert_eq by done. cbn [mbind option_bind plain_node n_recompress].
  by apply compress_off.
Qed.

Lemma located_node q ess1 es ess2 n rsA r rsB : located q ess1 es ess2 n rsA r rsB -> node_ok n (full es) /\ (length ess1 < length (q_nodes q))%nat.
Proof.
  intros Hl. destruct (nodes_split q ess1 es ess2 (lc_repr _ _ _ _ _ _ _ _ Hl)) as (_ & n' & _ & _ & _ & _ & Hn & _ & Hlk).
  pose proof (lc_node _ _ _ _ _ _ _ _ Hl) as Hlk'. rewrite Hlk in Hlk'. injection Hlk' as ->. split; [done|]. by eapply lookup_lt_Some.
Qed.

Lemma node_fields n es : node_ok n (full es) -> raw n -> n_count n = Z.of_nat (length es) /\ n_encoding n = QUICKLIST_NODE_ENCODING_RAW /\ n_recompress n = false.
Proof. intros [_ Hc Hr] Hraw. done. Qed.

Lemma count_same q : 0 <= q_count q < 2 ^ 64 -> q_with_count q (q_count q) = q.
Proof. intros Hc. unfold q_with_count. rewrite uwrap_small by done. by destruct q. Qed.

Lemma quicklistReplaceAtIndex_spec q ess idx v : ql_repr q ess -> q_compress q = 0 -> LLONG_MIN < idx -> zbound (v :: concat ess) < ql_max ->
  exists q' ess', quicklistReplaceAtIndex junk uninit q idx v = Some (q', bool_decide (is_Some (index_of (concat ess) idx))) /\ ql_repr q' ess' /\
    same_options q q' /\ concat ess' = match index_of (concat ess) idx with None => concat ess | Some k => <[k:=v]> (concat ess) end.
Proof.
  intros Hq Hc Hidx Hb. unfold quicklistReplaceAtIndex. pose proof (quicklistIndex_spec q ess idx Hq Hc Hidx) as Hix.
  destruct (index_of (concat ess) idx) as [k|].
  2: { rewrite Hix. exists q, ess. by rewrite bool_decide_eq_false_2 by (by intros [? [=]]). }
  destruct Hix as (ess1 & es & ess2 & n & rsA & r & rsB & val & -> & Hloc & -> & _ & ->). cbn [mbind option_bind en_node en_zi].
  destruct (located_node _ _ _ _ _ _ _ _ Hloc) as [Hn Hlt]. pose proof Hloc as [_ Hlk Hr Hz Hes]. rewrite Hlk. cbn [mbind option_bind].
  destruct (node_fields n es Hn Hr) as (Ec & Ee & Er). rewrite zbound_cons in Hb. pose proof (zbound_mid (concat ess1) es (concat ess2)) as Hm. rewrite <- concat_mid in Hm.
  assert (zbound (rsA.*2 ++ v :: rsB.*2) + 18 + Z.of_nat (length r.2) = zbound es + 18 + Z.of_nat (length v)) as Hzb by (rewrite Hes, !zbound_app, !zbound_cons; lia).
  destruct (delete_at junk (n_zl n) rsA r rsB Hz) as (zl & rsB' & -> & Hr' & HB'); [rewrite zbound_app in *; rewrite zbound_cons in Hzb; lia|]. cbn [mbind option_bind].
  unfold ziplistInsert. destruct (holds_insert junk zl rsA rsB' v Hr') as (zl' & -> & Hh); [unfold zele_ok; pose proof (zbound_length (concat (ess1 ++ es :: ess2))); lia|rewrite HB'; lia|].
  rewrite HB' in Hh. cbn [mbind option_bind]. unfold n_with_zl. rewrite (update_sz _ _ _ _ _ _ Hh), Ec, Ee, Er. cbn [mbind option_bind].
  change (mkNode zl' _ _ _ _) with (plain_node zl' (Z.of_nat (length es))). rewrite compress_plain by done. cbn [mbind option_bind].
  rewrite bool_decide_eq_true_2 by done. set (es' := rsA.*2 ++ v :: rsB.*2) in *.
  assert (length es' = length es) as Hl by (subst es'; rewrite Hes, !length_app; done).
  destruct (len_small _ _ Hq) as [_ Hc64]. pose proof (qr_count _ _ Hq) as Hqc. pose proof (qr_ne _ _ Hq) as Hs. apply Forall_app in Hs as [_ Hs]. apply Forall_cons in Hs as [[_ Hs] _].
  destruct (qreplace_repr q (q_set q (length ess1) (plain_node zl' (Z.of_nat (length es)))) ess1 es ess2 n zl' es') as [Hq' Ho]; try done.
  - by destruct (rsA.*2).
  - by rewrite Hl.
  - rewrite concat_mid, !zbound_app in *. lia.
  - rewrite Hl, Z.sub_diag, Z.add_0_r. symmetry. apply (count_same (q_set q _ _)). cbn. lia.
  - eexists _, _. split; [done|]. split; [exact Hq'|]. split; [done|]. rewrite !concat_mid. subst es'. rewrite Hes.
    rewrite insert_app_r. f_equal. rewrite <- (length_fmap snd rsA), <- !app_assoc. cbn [app].
    rewrite <- (Nat.add_0_r (length rsA.*2)), insert_app_r. done.
Qed.

Lemma insert_into_spec q ess1 es ess2 n change zl es' : ql_repr q (ess1 ++ es :: ess2) -> q_nodes q !! length ess1 = Some n -> raw n -> node_ok n (full es) ->
  change (n_zl n) = Some zl -> zl_holds zl es' -> length es' = S (length es) -> Z.of_nat (length es') < 2 ^ 16 -> zbound (concat (ess1 ++ es' :: ess2)) < ql_max ->
  exists q', insert_into junk uninit q (length ess1) change = Some q' /\ ql_repr (q_with_count q' (q_count q' + 1)) (ess1 ++ es' :: ess2) /\ same_options q q'.
Proof.
  intros Hq Hlk Hr Hn Hch Hh Hl Hs Hb. unfold insert_into. rewrite (for_use_raw q _ n Hlk Hr). cbn [mbind option_bind]. rewrite Hlk. cbn [mbind option_bind].
  rewrite Hch. cbn [mbind option_bind]. destruct (node_fields n es Hn Hr) as (Ec & Ee & Er). unfold n_with_count, n_with_zl. cbn [n_zl n_sz n_count n_encoding n_recompress].
  rewrite (update_sz _ _ _ _ _ _ Hh), Ec, Ee, Er, uwrap_small by lia. cbn [mbind option_bind].
  replace (Z.of_nat (length es) + 1) with (Z.of_nat (length es')) by lia. change (mkNode zl _ _ _ _) with (plain_node zl (Z.of_nat (length es'))).
  rewrite recompress_plain by (by eapply lookup_lt_Some). eexists. split; [done|].
  destruct (qreplace_repr q (q_with_count (q_set q (length ess1) (plain_node zl (Z.of_nat (length es')))) (q_count q + 1)) ess1 es ess2 n zl es') as [Hq' Ho]; try done.
  - by destruct es'.
  - f_equal. lia.
Qed.

(** *** Merging *)

(** A list without compression whose count of elements is not up to date. *)
Record ql_shape q ess : Prop := {
  qs_nodes : Forall2 node_ok (q_nodes q) (full <$> ess);
  qs_ne : Forall (fun es => es <> [] /\ Z.of_nat (length es) < 2 ^ 16) ess;
  qs_len : q_len q = Z.of_nat (length ess);
  qs_raw : Forall raw (q_nodes q);
  qs_off : q_compress q = 0;
  qs_fill : in_s 16 (q_fill q);
  qs_bound : zbound (concat ess) < ql_max;
  qs_count : 0 <= q_count q < 2 ^ 64
}.

Lemma shape_repr q ess c : ql_shape q ess -> c = Z.of_nat (length (concat ess)) -> ql_repr (q_with_count q c) ess.
Proof.
  intros [Hn Hne Hl Hr Hc Hf Hb _] ->. pose proof (zbound_length (concat ess)). split; cbn; rewrite ?Hc; try done.
  - change (2 ^ 64) with 18446744073709551616. rewrite uwrap_small by (change (2 ^ 64) with 18446744073709551616; lia). done.
  - by apply comp_ok_all.
Qed.

Lemma repr_shape q ess : ql_repr q ess -> q_compress q = 0 -> ql_shape q ess.
Proof.
  intros Hq Hc. destruct (len_small _ _ Hq) as [_ ?]. split; [apply Hq|apply Hq|apply Hq|by apply (all_nodes_raw q ess)|done|apply Hq|apply Hq|rewrite (qr_count _ _ Hq) in *; lia].
Qed.

Lemma allow_merge_small a b A B fill : node_ok a (full A) -> node_ok b (full B) -> in_s 16 fill -> zbound (A ++ B) < ql_max ->
  _quicklistNodeAllowMerge (Some a) (Some b) fill = true -> Z.of_nat (length A) + Z.of_nat (length B) < 2 ^ 16.
Proof.
  intros [(za & _ & Ha & Hsa) Hca _] [(zb & _ & Hb & Hsb) Hcb _] Hfill Hbd. cbn [fst snd full] in *. rewrite zbound_app in Hbd.
  pose proof (holds_length _ _ Ha). pose proof (holds_length _ _ Hb). pose proof (holds_bound _ _ Ha). pose proof (holds_bound _ _ Hb).
  unfold _quicklistNodeAllowMerge. rewrite Hsa, Hsb, Hca, Hcb, uwrap_small by lia.
  destruct (_quicklistNodeSizeMeetsOptimizationRequirement _ _) eqn:E; [apply optimization_bound in E; lia|].
  destruct (negb _); [done|]. limits. rewrite Z.leb_le. lia.
Qed.

Lemma shape_split q ess1 es ess2 : ql_shape q (ess1 ++ es :: ess2) -> exists l1 n l2, q_nodes q = l1 ++ n :: l2 /\ length l1 = length ess1 /\
  Forall2 node_ok l1 (full <$> ess1) /\ node_ok n (full es) /\ Forall2 node_ok l2 (full <$> ess2) /\ Forall raw l1 /\ raw n /\ Forall raw l2.
Proof.
  intros Hq. pose proof (qs_nodes _ _ Hq) as Hf. rewrite fmap_full_middle in Hf. apply Forall2_app_inv_r in Hf as (l1 & l2 & Hf1 & Hf2 & E).
  apply Forall2_cons_inv_r in Hf2 as (n & l2' & Hn & Hf2 & ->). pose proof (Forall2_length _ _ _ Hf1) as Hl. rewrite length_fmap in Hl.
  pose proof (qs_raw _ _ Hq) as Hr. rewrite E in Hr. apply Forall_app in Hr as [Hr1 Hr2]. apply Forall_cons in Hr2 as [Hr2 Hr3].
  exists l1, n, l2'. by split_and!.
Qed.

(** A node of count zero is taken out of a list. *)
Lemma del_empty q l1 k l2 : q_nodes q = l1 ++ k :: l2 -> n_count k = 0 ->
  q_compress q = 0 -> q_len q = Z.of_nat (length (q_nodes q)) -> q_len q < 2 ^ 64 -> 0 <= q_count q < 2 ^ 64 ->
  exists q', __quicklistDelNode junk uninit q (length l1) = Some q' /\ q_nodes q' = l1 ++ l2 /\ q_len q' = q_len q - 1 /\ q_count q' = q_count q /\
    q_fill q' = q_fill q /\ q_compress q' = 0.
Proof.
  intros Hq Hk Hc Hl Hl64 Hcnt. unfold __quicklistDelNode. rewrite Hq, list_lookup_middle by done. cbn [mbind option_bind].
  rewrite delete_middle, compress_off by done. cbn [mbind option_bind]. eexists. split; [done|]. cbn [q_nodes q_with_len q_with_count q_with_nodes q_len q_count q_fill q_compress].
  rewrite Hq, length_app in Hl. cbn [length] in Hl. rewrite Hk, Z.sub_0_r, !uwrap_small by lia. by split_and!.
Qed.

Lemma shape_len q ess : ql_shape q ess -> q_len q = Z.of_nat (length (q_nodes q)) /\ q_len q < 2 ^ 64.
Proof.
  intros Hq. pose proof (Forall2_length _ _ _ (qs_nodes _ _ Hq)) as Hl. rewrite length_fmap in Hl. rewrite (qs_len _ _ Hq). split; [lia|].
  pose proof (concat_length_le _ (qs_ne _ _ Hq)). pose proof (zbound_length (concat ess)). pose proof (qs_bound _ _ Hq).
  change (2 ^ 64) with 18446744073709551616. lia.
Qed.

(** The ziplist of both nodes, with its length counted. *)
Lemma merge_holds za zb A B : zl_holds za A -> zl_holds zb B -> B <> [] -> zbound (A ++ B) < 2 ^ 32 ->
  exists zl first second zl', ziplistMerge junk (Some za) (Some zb) false = Some (Some (zl, first, second)) /\
    ziplistLen zl = Some (zl', Z.of_nat (length (A ++ B))) /\ zl_holds zl' (A ++ B) /\ (first = Some zl /\ second = None \/ first = None /\ second = Some zl).
Proof.
  intros (rsa & Hza & <-) (rsb & Hzb & <-) HB Hb. destruct (merge_repr junk za zb rsa rsb Hza Hzb) as (zl & first & second & Hm & Hzm & Hfs).
  { intros ->. done. }
  { eapply Z.le_lt_trans; [apply zbound_zlen|]; rewrite merge_elements; [|done]. apply Forall_app. split; by eapply repr_elements. }
  destruct (len_repr zl _ Hzm) as (zl' & Hlen & Hzm'). exists zl, first, second, zl'. split; [done|]. rewrite <- merge_elements, length_fmap. split; [done|]. split; [by eexists|done].
Qed.

(** The list once the node [k] has taken the place of two nodes. *)
Lemma merged_shape q ess1 A B ess2 l1 k l2 q' : ql_shape q (ess1 ++ A :: B :: ess2) -> length l1 = length ess1 -> Forall2 node_ok l1 (full <$> ess1) ->
  Forall2 node_ok l2 (full <$> ess2) -> Forall raw l1 -> Forall raw l2 -> node_ok k (full (A ++ B)) -> raw k -> Z.of_nat (length A) + Z.of_nat (length B) < 2 ^ 16 ->
  q_nodes q' = l1 ++ k :: l2 -> q_len q' = q_len q - 1 -> q_count q' = q_count q -> q_fill q' = q_fill q -> q_compress q' = 0 ->
  quicklistCompress junk uninit q' (length ess1) = Some q' /\ ql_shape q' (ess1 ++ (A ++ B) :: ess2) /\ q_count q' = q_count q /\ same_options q q'.
Proof.
  intros Hq El Hf1 Hf2 Hr1 Hr2 Hk Hrk Hs E1 E2 E3 E4 E5. split; [|split; [|split; [done|split; [done|by rewrite E5, (qs_off _ _ Hq)]]]].
  - unfold quicklistCompress. rewrite E1, <- El, list_lookup_middle by done. cbn [mbind option_bind]. rewrite (nk_recompress _ _ Hk). by apply compress_off.
  - pose proof (qs_ne _ _ Hq) as Hne. apply Forall_app in Hne as [Hn1 Hne]. apply Forall_cons in Hne as [[HA _] Hne]. apply Forall_cons in Hne as [[HB _] Hn2].
    pose proof (qs_bound _ _ Hq) as Hb. split; rewrite ?E1, ?E2, ?E3, ?E4, ?E5; try done; try apply Hq.
    + rewrite fmap_full_middle. apply Forall2_app; [done|]. by apply Forall2_cons.
    + apply Forall_app. split; [done|]. constructor; [|done]. split; [by destruct A|rewrite length_app; lia].
    + rewrite (qs_len _ _ Hq), !length_app. cbn [length]. lia.
    + apply Forall_app. split; [done|]. by constructor.
    + rewrite !concat_mid in *. cbn [concat] in Hb. by rewrite <- (app_assoc A).
Qed.

Lemma merge_spec q ess1 A B ess2 : ql_shape q (ess1 ++ A :: B :: ess2) -> Z.of_nat (length A) + Z.of_nat (length B) < 2 ^ 16 ->
  exists q', _quicklistZiplistMerge junk uninit q (length ess1) (S (length ess1)) = Some (q', Some (length ess1)) /\
    ql_shape q' (ess1 ++ (A ++ B) :: ess2) /\ q_count q' = q_count q /\ same_options q q'.
Proof.
  intros Hq Hs. destruct (shape_split q ess1 A (B :: ess2) Hq) as (l1 & na & lb & Eq & El & Hf1 & Hna & Hfb & Hr1 & Hra & Hrb). destruct (shape_len q _ Hq) as [Hln H64].
  cbn [fmap list_fmap] in Hfb. apply Forall2_cons_inv_r in Hfb as (nb & l2 & Hnb & Hf2 & ->). apply Forall_cons in Hrb as [Hrb Hr2].
  assert (q_nodes q !! length ess1 = Some na) as Hla by (rewrite Eq, <- El; by apply list_lookup_middle).
  assert (q_nodes q !! S (length ess1) = Some nb) as Hlb.
  { rewrite Eq, <- El, lookup_app_r by lia. replace (S (length l1) - length l1)%nat with 1%nat by lia. done. }
  unfold _quicklistZiplistMerge. rewrite (decompress_raw q _ na Hla Hra). cbn [mbind option_bind]. rewrite (decompress_raw q _ nb Hlb Hrb). cbn [mbind option_bind].
  rewrite Hla, Hlb. cbn [mbind option_bind]. rewrite bool_decide_eq_false_2 by lia.
  destruct (raw_holds na _ Hna Hra) as [Hha _]. destruct (raw_holds nb _ Hnb Hrb) as [Hhb _]. cbn [fst full] in Hha, Hhb.
  pose proof (qs_ne _ _ Hq) as Hne. apply Forall_app in Hne as [_ Hne]. apply Forall_cons in Hne as [_ Hne]. apply Forall_cons in Hne as [[HB _] _].
  pose proof (qs_bound _ _ Hq) as Hb. replace (concat (ess1 ++ A :: B :: ess2)) with (concat (ess1 ++ (A ++ B) :: ess2)) in Hb by (rewrite !concat_mid; cbn; by rewrite <- app_assoc).
  pose proof (node_bound _ _ _ Hb) as Hab. destruct (merge_holds _ _ A B Hha Hhb HB ltac:(lia)) as (zl & first & second & zl' & -> & Hlen & Hh & Hfs). cbn [mbind option_bind].
  set (k := plain_node zl' (Z.of_nat (length (A ++ B)))).
  assert (forall n x, node_ok n x -> raw n -> quicklistNodeUpdateSz (n_with_count (n_with_zl n zl') (Z.of_nat (length (A ++ B)))) = Some k) as Hk.
  { intros n x [_ _ Hrc] Hr. unfold n_with_count, n_with_zl. cbn [n_zl n_sz n_count n_encoding n_recompress]. rewrite (update_sz _ _ _ _ _ _ Hh), Hrc. unfold raw in Hr.
    rewrite Hr, uwrap_small by (rewrite length_app; lia). done. }
  destruct Hfs as [[-> ->]|[-> ->]]; cbv beta iota; rewrite Hla, Hlb; cbn [mbind option_bind]; rewrite Hlen; cbn [mbind option_bind fst snd].
  - rewrite (Hk na _ Hna Hra). cbn [mbind option_bind]. set (q1 := q_set _ _ _). assert (q_nodes q1 = (l1 ++ [k]) ++ n_with_count nb 0 :: l2) as E1.
    { subst q1. cbn [q_set q_with_nodes q_nodes]. rewrite Eq, <- El, replace_middle. rewrite (app_assoc l1 [k] (nb :: l2) : l1 ++ k :: nb :: l2 = _).
      replace (S (length l1)) with (length (l1 ++ [k])) by (rewrite length_app; cbn; lia). by rewrite replace_middle. }
    destruct (del_empty q1 (l1 ++ [k]) (n_with_count nb 0) l2 E1) as (q2 & Hd & E2 & E3 & E4 & E5 & E6); try apply Hq; try done.
    { change (q_len q1) with (q_len q). rewrite Hln, Eq, E1, !length_app. cbn [length]. lia. }
    rewrite length_app in Hd. cbn [length] in Hd. rewrite Nat.add_1_r, El in Hd. rewrite Hd. cbn [mbind option_bind]. rewrite bool_decide_eq_false_2 by lia. rewrite <- app_assoc in E2.
    destruct (merged_shape q ess1 A B ess2 l1 k l2 q2 Hq) as (-> & Hsh); try done; [by apply plain_ok|]. by exists q2.
  - rewrite (Hk nb _ Hnb Hrb). cbn [mbind option_bind]. set (q1 := q_set _ _ _). assert (q_nodes q1 = l1 ++ n_with_count na 0 :: k :: l2) as E1.
    { subst q1. cbn [q_set q_with_nodes q_nodes]. rewrite Eq, <- El. rewrite (app_assoc l1 [na] (nb :: l2) : l1 ++ na :: nb :: l2 = _).
      replace (S (length l1)) with (length (l1 ++ [na])) by (rewrite length_app; cbn; lia). rewrite replace_middle, <- app_assoc. cbn [app]. by rewrite replace_middle. }
    destruct (del_empty q1 l1 (n_with_count na 0) (k :: l2) E1) as (q2 & Hd & E2 & E3 & E4 & E5 & E6); try apply Hq; try done.
    { change (q_len q1) with (q_len q). rewrite Hln, Eq, E1, !length_app. done. }
    rewrite El in Hd. rewrite Hd. cbn [mbind option_bind]. rewrite bool_decide_eq_true_2 by lia. replace (S (length ess1) - 1)%nat with (length ess1) by lia.
    destruct (merged_shape q ess1 A B ess2 l1 k l2 q2 Hq) as (-> & Hsh); try done; [by apply plain_ok|]. by exists q2.
Qed.

Lemma shape_node q ess i : ql_shape q ess -> node_at q (Some i) = q_nodes q !! i.
Proof. done. Qed.

Lemma allow_merge_comm a b fill : _quicklistNodeAllowMerge a b fill = _quicklistNodeAllowMerge b a fill.
Proof. destruct a as [a|], b as [b|]; try done. unfold _quicklistNodeAllowMerge. by rewrite (Z.add_comm (n_sz a)), (Z.add_comm (n_count a)). Qed.

(** A step of _quicklistMergeNodes() on the neighbours [a] and [b]. *)
Lemma merge_step q ess a b : ql_shape q ess -> (forall i, a = Some i -> b = Some (S i) \/ b = None) ->
  exists q' kept ok ess', merge_if junk uninit q a b (_quicklistNodeAllowMerge (node_at q a) (node_at q b) (q_fill q)) = Some (q', kept, ok) /\
    ql_shape q' ess' /\ concat ess' = concat ess /\ q_count q' = q_count q /\ same_options q q' /\
    (if ok : bool then exists i, a = Some i /\ kept = a /\ length ess = S (length ess') /\ (S i < length ess)%nat else kept = None /\ ess' = ess).
Proof.
  intros Hq Hab. unfold merge_if. destruct (_quicklistNodeAllowMerge _ _ _) eqn:Ea; [|by exists q, None, false, ess].
  destruct (node_at q a) as [na|] eqn:Hna; [|done]. destruct (node_at q b) as [nb|] eqn:Hnb; [|done]. destruct a as [i|]; [|done].
  destruct (Hab i eq_refl) as [-> | ->]; [|done]. cbn in Hna, Hnb. pose proof (lookup_lt_Some _ _ _ Hnb) as Hlt.
  pose proof (Forall2_length _ _ _ (qs_nodes _ _ Hq)) as Hl. rewrite length_fmap in Hl.
  destruct (lookup_lt_is_Some_2 ess i) as [A HA]; [lia|]. destruct (lookup_lt_is_Some_2 ess (S i)) as [B HB]; [lia|].
  assert (ess = take i ess ++ A :: B :: drop (S (S i)) ess) as Ess by (rewrite <- (drop_S ess B (S i)), <- (drop_S ess A i), take_drop; done).
  assert (length (take i ess) = i) as Hti by (rewrite length_take; lia). set (ess1 := take i ess) in *. set (ess2 := drop (S (S i)) ess) in *.
  assert (node_ok na (full A) /\ node_ok nb (full B)) as [Hoka Hokb].
  { pose proof (qs_nodes _ _ Hq) as Hf. split; (eapply Forall2_lookup_lr; [exact Hf|done|]); rewrite list_lookup_fmap; by rewrite ?HA, ?HB. }
  assert (concat ess = concat (ess1 ++ (A ++ B) :: ess2)) as Ecc by (rewrite Ess at 1; rewrite !concat_mid; cbn; by rewrite <- app_assoc).
  pose proof (qs_bound _ _ Hq) as Hb. rewrite Ecc in Hb. pose proof (node_bound _ _ _ Hb) as Hab'.
  pose proof (allow_merge_small na nb A B _ Hoka Hokb (qs_fill _ _ Hq) Hab' Ea) as Hs. rewrite Ess in Hq.
  destruct (merge_spec q ess1 A B ess2 Hq Hs) as (q' & Hm & Hq' & Hc & Ho). rewrite Hti in Hm. cbn [mbind option_bind]. rewrite Hm. cbn [mbind option_bind fst snd].
  eexists q', (Some i), true, _. split; [done|]. split; [exact Hq'|]. split; [done|]. split; [done|]. split; [done|].
  exists i. split; [done|]. split; [done|]. split; [|lia]. rewrite Ess at 1. rewrite !length_app. cbn [length]. lia.
Qed.

Lemma same_options_trans q1 q2 q3 : same_options q1 q2 -> same_options q2 q3 -> same_options q1 q3.
Proof. unfold same_options. intuition congruence. Qed.

Lemma shape_length q ess : ql_shape q ess -> length (q_nodes q) = length ess.
Proof. intros Hq. pose proof (Forall2_length _ _ _ (qs_nodes _ _ Hq)) as Hl. by rewrite length_fmap in Hl. Qed.

Lemma next_some q i j : q_next q i = Some j -> j = S i.
Proof. unfold q_next. case_bool_decide; [by intros [= <-]|done]. Qed.

Lemma merge_nodes_spec q ess center : ql_shape q ess -> (center < length ess)%nat ->
  exists q' ess', _quicklistMergeNodes junk uninit q center = Some q' /\ ql_shape q' ess' /\ concat ess' = concat ess /\ q_count q' = q_count q /\ same_options q q'.
Proof.
  intros Hq Hc. unfold _quicklistMergeNodes. rewrite (allow_merge_comm (node_at q (q_prev center))).
  destruct (merge_step q ess (q_prev center ≫= q_prev) (q_prev center) Hq) as (q1 & k1 & ok1 & ess1 & -> & Hq1 & Hcc1 & Hct1 & Ho1 & Hk1).
  { intros i. destruct center as [|[|c]]; cbn; [done|done|]. intros [= <-]. by left. }
  cbn [mbind option_bind]. set (center1 := match k1 with Some _ => (center - 1)%nat | None => center end).
  assert (center1 < length ess1)%nat as Hc1.
  { subst center1. destruct ok1; [destruct Hk1 as (i & Hi & -> & Hl & _)|destruct Hk1 as [-> ->]; done]. rewrite Hi.
    destruct center; [done|lia]. }
  assert (q_fill q = q_fill q1) as -> by (by rewrite (proj1 Ho1)).
  destruct (merge_step q1 ess1 (q_next q1 center1) (q_next q1 center1 ≫= q_next q1) Hq1) as (q2 & k2 & ok2 & ess2 & -> & Hq2 & Hcc2 & Hct2 & Ho2 & Hk2).
  { intros i Hi. rewrite Hi. cbn. destruct (q_next q1 i) as [j|] eqn:E; [|by right]. left. f_equal. by apply next_some in E. }
  cbn [mbind option_bind]. assert (q_fill q1 = q_fill q2) as -> by (by rewrite (proj1 Ho2)).
  assert (center1 < length ess2)%nat as Hc2.
  { destruct ok2; [|by destruct Hk2 as [_ ->]]. destruct Hk2 as (i & Hi & _ & Hl & Hlt). apply next_some in Hi. lia. }
  rewrite (allow_merge_comm (node_at q2 (Some center1))).
  destruct (merge_step q2 ess2 (q_prev center1) (Some center1) Hq2) as (q3 & k3 & ok3 & ess3 & -> & Hq3 & Hcc3 & Hct3 & Ho3 & Hk3).
  { intros i. destruct center1 as [|c]; cbn; [done|]. intros [= <-]. by left. }
  cbn [mbind option_bind]. assert (q_fill q2 = q_fill q3) as -> by (by rewrite (proj1 Ho3)).
  assert (exists t, (if ok3 then k3 else Some center1) = Some t) as (t & ->).
  { destruct ok3; [|by exists center1]. destruct Hk3 as (i & Hi & -> & _). by exists i. }
  cbn [mbind option_bind].
  destruct (merge_step q3 ess3 (Some t) (q_next q3 t) Hq3) as (q4 & k4 & ok4 & ess4 & -> & Hq4 & Hcc4 & Hct4 & Ho4 & _).
  { intros i [= <-]. destruct (q_next q3 t) as [j|] eqn:E; [|by right]. left. f_equal. by apply next_some in E. }
  cbn [mbind option_bind fst]. exists q4, ess4. split; [done|]. split; [done|]. split_and!; [congruence|congruence|].
  eapply same_options_trans; [|exact Ho4]. eapply same_options_trans; [|exact Ho3]. by eapply same_options_trans.
Qed.

(** *** Splitting *)

Lemma delete_range_spec zl es i num : zl_holds zl es -> INT32_MIN < i -> 0 <= num < 2 ^ 32 -> zbound es < ql_max ->
  exists zl', ziplistDeleteRange junk zl i num = Some zl' /\
    zl_holds zl' (match index_of es i with None => es | Some k => take k es ++ drop (k + Z.to_nat num) es end).
Proof.
  intros Hh Hi Hn Hb. destruct (zexec_repr junk zl es (ZDeleteRange i num) Hh) as (zl' & Hd & Hh'); [done| |by exists zl'].
  cbn [zspec]. destruct (index_of es i) as [k|]; [|lia]. eapply Z.le_lt_trans; [|exact (Z.lt_trans _ _ (2 ^ 32) Hb ltac:(lia))].
  rewrite <- (take_drop k es) at 3. rewrite !zbound_app. rewrite <- drop_drop. rewrite <- (take_drop (Z.to_nat num) (drop k es)) at 2. rewrite zbound_app.
  pose proof (zbound_length (take (Z.to_nat num) (drop k es))). lia.
Qed.

Lemma len_holds zl es : zl_holds zl es -> exists zl', ziplistLen zl = Some (zl', Z.of_nat (length es)) /\ zl_holds zl' es.
Proof. intros (rs & Hr & <-). destruct (len_repr zl rs Hr) as (zl' & -> & Hr'). exists zl'. split; [by rewrite length_fmap|by exists rs]. Qed.

Lemma index_nonneg es k : index_of es (Z.of_nat k) = if decide (k < length es)%nat then Some k else None.
Proof.
  unfold index_of. rewrite (proj2 (Z.ltb_ge (Z.of_nat k) 0)) by lia. cbv zeta. rewrite (proj2 (Z.leb_le 0 _)) by lia. cbn [andb].
  destruct (decide _); [rewrite (proj2 (Z.ltb_lt _ _)) by lia; by rewrite Nat2Z.id|rewrite (proj2 (Z.ltb_ge _ _)) by lia; done].
Qed.

Lemma split_spec n es k (after : bool) : node_ok n (full es) -> raw n -> (k < length es)%nat -> Z.of_nat (length es) < 2 ^ 16 -> zbound es < ql_max ->
  exists zl zl', _quicklistSplitNode junk n (Z.of_nat k) after = Some (plain_node zl (Z.of_nat (length (if after then take (S k) es else drop k es))),
      plain_node zl' (Z.of_nat (length (if after then drop (S k) es else take k es)))) /\
    zl_holds zl (if after then take (S k) es else drop k es) /\ zl_holds zl' (if after then drop (S k) es else take k es).
Proof.
  intros Hn Hr Hk Hs Hb. destruct (raw_holds n _ Hn Hr) as [Hh En]. cbn [fst snd full] in *. destruct (node_fields n es Hn Hr) as (Ec & Ee & Er).
  assert (n_sz n = Z.of_nat (length (n_zl n))) as Hsz by (rewrite En; done). unfold _quicklistSplitNode. rewrite Hsz, load_whole. cbn [mbind option_bind].
  assert (forall zl es', zl_holds zl es' -> Z.of_nat (length es') < 2 ^ 16 -> exists zl', ziplistLen zl = Some (zl', Z.of_nat (length es')) /\ zl_holds zl' es' /\
    quicklistNodeUpdateSz (n_with_count (n_with_zl n zl') (Z.of_nat (length es'))) = Some (plain_node zl' (Z.of_nat (length es'))) /\
    quicklistNodeUpdateSz (n_with_count (quicklistCreateNode zl') (Z.of_nat (length es'))) = Some (plain_node zl' (Z.of_nat (length es')))) as Hfin.
  { intros zl es' Hz Hl. destruct (len_holds zl es' Hz) as (zl' & Hlen & Hz'). exists zl'. split; [done|]. split; [done|].
    unfold n_with_count, n_with_zl, quicklistCreateNode. cbn [n_zl n_sz n_count n_encoding n_recompress]. rewrite !(update_sz _ _ _ _ _ _ Hz'), Ee, Er, uwrap_small by lia. done. }
  set (keep := if after then take (S k) es else drop k es). set (give := if after then drop (S k) es else take k es).
  assert (length keep <= length es /\ length give <= length es)%nat as [Hlk Hlg] by (subst keep give; destruct after; rewrite ?length_take, ?length_drop; lia).
  destruct (delete_range_spec (n_zl n) es (if after then Z.of_nat k + 1 else 0) (u32 (if after then -1 else Z.of_nat k)) Hh) as (z1 & -> & Hz1);
    [destruct after; limits; lia|apply uwrap_range; lia|done|]. cbn [mbind option_bind].
  replace (match index_of es _ with None => es | Some k0 => _ end) with keep in Hz1.
  2: { subst keep. destruct after.
       - change (Z.of_nat k + 1) with (Z.of_nat k + Z.of_nat 1). rewrite <- Nat2Z.inj_add, index_nonneg, Nat.add_1_r. destruct (decide _).
         + rewrite (drop_ge es (S k + _)); [by rewrite app_nil_r|]. change (Z.to_nat (u32 (-1))) with (Z.to_nat 4294967295). lia.
         + rewrite take_ge by lia. done.
       - change (index_of es 0) with (index_of es (Z.of_nat 0)). rewrite index_nonneg. destruct (decide _); [|lia]. rewrite uwrap_small by lia. by rewrite Nat2Z.id. }
  destruct (Hfin z1 keep Hz1) as (z1' & -> & Hz1' & Hu1 & _); [lia|]. cbn [mbind option_bind fst snd]. rewrite Hu1. cbn [mbind option_bind].
  destruct (delete_range_spec (n_zl n) es (if after then 0 else Z.of_nat k) (u32 (if after then Z.of_nat k + 1 else -1)) Hh) as (z2 & -> & Hz2);
    [destruct after; limits; lia|apply uwrap_range; lia|done|]. cbn [mbind option_bind].
  replace (match index_of es _ with None => es | Some k0 => _ end) with give in Hz2.
  2: { subst give. destruct after.
       - change (index_of es 0) with (index_of es (Z.of_nat 0)). rewrite index_nonneg. destruct (decide _); [|lia]. rewrite uwrap_small by lia. replace (0 + Z.to_nat (Z.of_nat k + 1))%nat with (S k) by lia. done.
       - rewrite index_nonneg. destruct (decide _); [|lia]. rewrite (drop_ge es (k + _)); [by rewrite app_nil_r|].
         change (Z.to_nat (u32 (-1))) with (Z.to_nat 4294967295). lia. }
  destruct (Hfin z2 give Hz2) as (z2' & -> & Hz2' & _ & Hu2); [lia|]. cbn [mbind option_bind fst snd]. rewrite Hu2. cbn [mbind option_bind].
  by exists z1', z2'.
Qed.

(** *** Insertion next to an element *)

Definition fits_node es : Prop := es <> [] /\ Z.of_nat (length es) < 2 ^ 16.

Lemma shape_replace q ess1 es ess2 zl es' : ql_shape q (ess1 ++ es :: ess2) -> zl_holds zl es' -> fits_node es' -> zbound (concat (ess1 ++ es' :: ess2)) < ql_max ->
  ql_shape (q_set q (length ess1) (plain_node zl (Z.of_nat (length es')))) (ess1 ++ es' :: ess2).
Proof.
  intros Hq Hh Hfit Hb. destruct (shape_split q ess1 es ess2 Hq) as (l1 & n & l2 & Eq & El & Hf1 & _ & Hf2 & Hr1 & _ & Hr2).
  pose proof (qs_ne _ _ Hq) as Hs. apply Forall_app in Hs as [Hs1 Hs2]. apply Forall_cons in Hs2 as [_ Hs2].
  split; cbn [q_nodes q_set q_with_nodes q_compress q_fill q_len q_count]; try apply Hq; try done.
  - rewrite Eq, <- El, replace_middle, fmap_full_middle. apply Forall2_app; [done|]. apply Forall2_cons. split; [by apply plain_ok|done].
  - apply Forall_app. split; [done|]. by constructor.
  - rewrite (qs_len _ _ Hq), !length_app. done.
  - rewrite Eq, <- El, replace_middle. apply Forall_app. split; [done|]. by constructor.
Qed.

Lemma shape_insert q ess1 ess2 zl es old (after : bool) : ql_shape q (ess1 ++ ess2) -> zl_holds zl es -> fits_node es -> zbound (concat (ess1 ++ es :: ess2)) < ql_max ->
  (if after then ess1 <> [] /\ old = (length ess1 - 1)%nat else ess2 <> [] /\ old = length ess1) ->
  exists q', __quicklistInsertNode junk uninit q (Some old) (plain_node zl (Z.of_nat (length es))) after = Some q' /\ ql_shape q' (ess1 ++ es :: ess2) /\
    q_count q' = q_count q /\ same_options q q'.
Proof.
  intros Hq Hh Hfit Hb Hold. pose proof (qs_nodes _ _ Hq) as Hf. rewrite fmap_app in Hf. pose proof (qs_len _ _ Hq) as Hl.
  pose proof (qs_ne _ _ Hq) as Hs. apply Forall_app in Hs as [Hs1 Hs2].
  assert (Forall fits_node (ess1 ++ es :: ess2)) as Hne by (apply Forall_app; split; [done|by constructor]).
  destruct (insert_node_spec junk uninit q (full <$> ess1) (full <$> ess2) (full es) (plain_node zl (Z.of_nat (length es))) (Some old) after Hf) as (q' & Hi & Hf' & Hl' & Hc' & Hfi & Hcm & Hco).
  - rewrite (qs_off _ _ Hq). split; [lia|]. split; intros _; apply Hq.
  - rewrite Hl, !length_app, !length_fmap. done.
  - pose proof (concat_length_le _ Hne) as Hx. pose proof (zbound_length (concat (ess1 ++ es :: ess2))). rewrite length_app in Hx. cbn [length] in Hx.
    rewrite Hl, length_app. change (2 ^ 64) with 18446744073709551616. lia.
  - by apply plain_ok.
  - done.
  - rewrite !length_fmap. destruct after; [destruct Hold as [? ->]; by destruct ess1|destruct Hold as [? ->]; by destruct ess2].
  - done.
  - exists q'. split; [done|]. split; [|done]. split; rewrite ?Hfi, ?Hcm, ?Hl', ?Hc'; try apply Hq; try done.
    + by rewrite fmap_full_middle.
    + rewrite Hl, !length_app. cbn [length]. lia.
    + by apply (co_off _ _ Hco), Hq.
Qed.

(** What is inserted next to the element [e]. *)
Definition beside (after : bool) (e v : list byte) : list (list byte) := if after then [e; v] else [v; e].

Lemma beside_mid (after : bool) (A : list (list byte)) e v B :
  A ++ beside after e v ++ B = if after then (A ++ [e]) ++ v :: B else A ++ v :: e :: B.
Proof. destruct after; [by rewrite <- app_assoc|done]. Qed.

Lemma insert_entry_spec (after : bool) zl rsA r rsB v val : zl_repr zl (rsA ++ r :: rsB) -> zele_ok v -> zbound (rsA.*2 ++ beside after r.2 v ++ rsB.*2) < 2 ^ 32 ->
  val = Some (zpos rsA) ->
  exists zl', (if after then insert_after_entry junk val v zl else insert_before_entry junk val v zl) = Some zl' /\
    zl_holds zl' (rsA.*2 ++ beside after r.2 v ++ rsB.*2).
Proof.
  intros Hz Hv Hb ->. rewrite beside_mid in *. destruct after.
  - unfold insert_after_entry. cbn [mbind option_bind]. rewrite (znext_repr zl rsA r rsB Hz). cbn [mbind option_bind]. change [r.2] with ([r].*2) in *. rewrite <- fmap_app in *.
    rewrite (app_assoc rsA [r] rsB : rsA ++ r :: rsB = _) in Hz. destruct rsB as [|r2 rsB]; cbn [zcursor].
    + rewrite app_nil_r in Hz. destruct (holds_push junk zl (rsA ++ [r]).*2 v ZIPLIST_TAIL) as (zl' & Hp & Hh); [by eexists|done|exact Hb|]. by exists zl'.
    + unfold ziplistInsert. by apply holds_insert.
  - unfold insert_before_entry, ziplistInsert. cbn [mbind option_bind]. change (r.2 :: rsB.*2) with ((r :: rsB).*2). by apply holds_insert.
Qed.

Lemma split_insert_spec q ess1 es ess2 n A e B v (after : bool) : ql_repr q (ess1 ++ es :: ess2) -> q_compress q = 0 -> q_nodes q !! length ess1 = Some n -> raw n ->
  node_ok n (full es) -> es = A ++ e :: B -> zbound (v :: concat (ess1 ++ es :: ess2)) < ql_max ->
  exists q' ess', split_and_insert junk uninit q (length ess1) (Z.of_nat (length A)) v after = Some q' /\ ql_repr (q_with_count q' (q_count q' + 1)) ess' /\ same_options q q' /\
    concat ess' = concat ess1 ++ (A ++ beside after e v ++ B) ++ concat ess2.
Proof.
  intros Hq Hc Hlk Hr Hn Hes Hb. pose proof (repr_shape q _ Hq Hc) as Hsh. rewrite zbound_cons in Hb.
  pose proof (node_bound _ _ _ (qr_bound _ _ Hq)) as Hnb. pose proof (qr_ne _ _ Hq) as Hs. apply Forall_app in Hs as [_ Hs]. apply Forall_cons in Hs as [[_ Hs] _].
  unfold split_and_insert. rewrite (for_use_raw q _ n Hlk Hr). cbn [mbind option_bind]. rewrite Hlk. cbn [mbind option_bind].
  destruct (split_spec n es (length A) after Hn Hr) as (zl & zl2 & -> & Hh & Hh2); [rewrite Hes, length_app; cbn; lia|done|done|]. cbn [mbind option_bind n_zl n_count plain_node].
  assert (take (length A) es = A /\ drop (length A) es = e :: B /\ take (S (length A)) es = A ++ [e] /\ drop (S (length A)) es = B) as (E1 & E2 & E3 & E4).
  { subst es. split; [by rewrite take_app_length|]. split; [by rewrite drop_app_length|]. rewrite (app_assoc A [e] B : A ++ e :: B = _).
    replace (S (length A)) with (length (A ++ [e])) by (rewrite length_app; cbn; lia). by rewrite take_app_length, drop_app_length. }
  rewrite E1, E2, E3, E4 in *. set (keep := if after then A ++ [e] else e :: B) in *. set (give := if after then B else A) in *.
  set (new := if after then v :: give else give ++ [v]).
  assert (zbound keep + zbound new = zbound es + 29 + Z.of_nat (length v)) as Hzs.
  { subst keep new give. destruct after; rewrite ?zbound_app, ?zbound_cons, Hes, ?zbound_app, ?zbound_cons; unfold zbound; cbn [sum_list_with]; lia. }
  pose proof (zbound_length keep) as Hzk. pose proof (zbound_length new) as Hzn. pose proof (zbound_mid (concat ess1) es (concat ess2)) as Hzm. rewrite <- concat_mid in Hzm.
  assert (fits_node keep /\ fits_node new /\ length new = S (length give)) as (Hfk & Hfn & Hln).
  { unfold fits_node. subst es keep new give. rewrite length_app in Hs. cbn [length] in Hs. destruct after; rewrite ?length_app; cbn [length];
      (split; [|split]); try split; try lia; try done; by destruct A. }
  destruct (holds_push junk zl2 give v (if after then ZIPLIST_HEAD else ZIPLIST_TAIL) Hh2) as (zl3 & -> & Hh3).
  { unfold zele_ok. pose proof (zbound_length es). lia. }
  { replace (zspec _ _) with new; [lia|]. by destruct after. }
  replace (zspec _ _) with new in Hh3 by (by destruct after). cbn [mbind option_bind]. unfold n_with_count, n_with_zl. cbn [n_zl n_sz n_count n_encoding n_recompress plain_node].
  rewrite (update_sz _ _ _ _ _ _ Hh3). cbn [mbind option_bind]. rewrite uwrap_small by (destruct Hfn as [_ ?]; lia). replace (Z.of_nat (length give) + 1) with (Z.of_nat (length new)) by lia.
  change (mkNode zl3 _ _ _ _) with (plain_node zl3 (Z.of_nat (length new))).
  rewrite concat_mid, !zbound_app in Hb.
  assert (zbound (concat (ess1 ++ keep :: ess2)) < ql_max) as Hbk by (rewrite concat_mid, !zbound_app; lia).
  pose proof (shape_replace q ess1 es ess2 zl keep Hsh Hh Hfk Hbk) as Hsh1. set (q1 := q_set q _ _) in *.
  set (ess' := ess1 ++ (if after then keep :: new :: ess2 else new :: keep :: ess2)).
  assert (concat ess' = concat ess1 ++ (A ++ beside after e v ++ B) ++ concat ess2) as Hcc.
  { subst ess' keep new give. rewrite concat_app. f_equal. destruct after; cbn; by rewrite <- ?app_assoc. }
  assert (zbound (concat ess') < ql_max) as Hb'.
  { subst ess'. rewrite concat_app, zbound_app. destruct after; cbn [concat]; rewrite !zbound_app; lia. }
  assert (exists q2, __quicklistInsertNode junk uninit q1 (Some (length ess1)) (plain_node zl3 (Z.of_nat (length new))) after = Some q2 /\ ql_shape q2 ess' /\
    q_count q2 = q_count q1 /\ same_options q1 q2) as (q2 & -> & Hsh2 & Hc2 & Ho2).
  { subst ess'. destruct after.
    - rewrite (app_assoc ess1 [keep] (new :: ess2) : ess1 ++ keep :: new :: ess2 = _) in *. apply shape_insert; try done; [by rewrite <- app_assoc|].
      split; [by destruct ess1|]. rewrite length_app. cbn [length]. lia.
    - by apply shape_insert. }
  cbn [mbind option_bind].
  destruct (merge_nodes_spec q2 ess' (if after then length ess1 else S (length ess1)) Hsh2) as (q3 & ess3 & -> & Hsh3 & Hcc3 & Hc3 & Ho3).
  { subst ess'. rewrite length_app. destruct after; cbn [length]; lia. }
  exists q3, ess3. split; [done|]. split; [|split; [by eapply same_options_trans, Ho3|congruence]].
  apply shape_repr; [done|]. rewrite Hc3, Hc2, Hcc3, Hcc. change (q_count q1) with (q_count q). rewrite (qr_count _ _ Hq), concat_mid, Hes.
  destruct after; cbn; rewrite !length_app; cbn [length]; rewrite ?length_app; cbn [length]; lia.
Qed.

Lemma length_beside (after : bool) (A : list (list byte)) e v B : length (A ++ beside after e v ++ B) = S (length (A ++ e :: B)).
Proof. rewrite !length_app. destruct after; cbn; lia. Qed.

Lemma zbound_beside (after : bool) (A : list (list byte)) e v B : zbound (A ++ beside after e v ++ B) = zbound (A ++ e :: B) + 18 + Z.of_nat (length v).
Proof. rewrite beside_mid. destruct after; rewrite ?zbound_app, ?zbound_cons, ?zbound_app; unfold zbound; cbn [sum_list_with]; lia. Qed.

(** A node that has room gets one more element, which a change of its ziplist adds. *)
Lemma add_with_room q ess1 es ess2 n change zl es' v : ql_repr q (ess1 ++ es :: ess2) -> q_nodes q !! length ess1 = Some n -> raw n -> node_ok n (full es) ->
  _quicklistNodeAllowInsert (Some n) (q_fill q) (Z.of_nat (length v)) = true -> zbound (v :: concat (ess1 ++ es :: ess2)) < ql_max ->
  change (n_zl n) = Some zl -> zl_holds zl es' -> length es' = S (length es) -> zbound es' = zbound es + 18 + Z.of_nat (length v) ->
  exists q', insert_into junk uninit q (length ess1) change = Some q' /\ ql_repr (q_with_count q' (q_count q' + 1)) (ess1 ++ es' :: ess2) /\ same_options q q'.
Proof.
  intros Hq Hlk Hr Hn Ha Hb Hch Hh Hl Hz. rewrite zbound_cons in Hb. eapply insert_into_spec; try done.
  - pose proof (zbound_mid (concat ess1) es (concat ess2)) as Hm. rewrite <- concat_mid in Hm.
    pose proof (allow_insert_small n es (q_fill q) (Z.of_nat (length v)) Hn (qr_fill _ _ Hq) ltac:(lia) ltac:(lia) Ha). lia.
  - rewrite concat_mid, !zbound_app in *. lia.
Qed.

Lemma quicklistInsert_spec q ess1 es ess2 n rsA r rsB v val (after : bool) : located q ess1 es ess2 n rsA r rsB -> q_compress q = 0 ->
  zbound (v :: concat (ess1 ++ es :: ess2)) < ql_max ->
  exists q' ess', _quicklistInsert junk uninit q (mkEntry (Some (length ess1)) (Some (zpos rsA)) val (Z.of_nat (length rsA))) v after = Some q' /\
    ql_repr q' ess' /\ same_options q q' /\ concat ess' = concat ess1 ++ (rsA.*2 ++ beside after r.2 v ++ rsB.*2) ++ concat ess2.
Proof.
  intros Hloc Hc Hb. destruct (located_node _ _ _ _ _ _ _ _ Hloc) as [Hn Hlt]. pose proof Hloc as [Hq Hlk Hr Hz Hes].
  unfold _quicklistInsert. cbn [en_node en_zi en_offset]. rewrite Hlk. cbn [mbind option_bind].
  pose proof (node_bound _ _ _ (qr_bound _ _ Hq)) as Hnb. pose proof (zbound_mid (concat ess1) es (concat ess2)) as Hm. rewrite <- concat_mid in Hm.
  pose proof (bound_ele _ _ Hb) as Hv. pose proof Hb as Hb0. rewrite zbound_cons in Hb0.
  destruct (_quicklistNodeAllowInsert (Some n) _ _) eqn:Ea; cbn [negb andb orb].
  - destruct (insert_entry_spec after (n_zl n) rsA r rsB v (Some (zpos rsA)) Hz Hv) as (zl & Hi & Hh); [rewrite zbound_beside, <- Hes; lia|done|].
    destruct (add_with_room q ess1 es ess2 n (if after then insert_after_entry junk (Some (zpos rsA)) v else insert_before_entry junk (Some (zpos rsA)) v) zl _ v
      Hq Hlk Hr Hn Ea Hb ltac:(by destruct after) Hh) as (q' & Hii & Hq' & Ho); [by rewrite length_beside, <- Hes|by rewrite zbound_beside, <- Hes|].
    exists (q_with_count q' (q_count q' + 1)), (ess1 ++ (rsA.*2 ++ beside after r.2 v ++ rsB.*2) :: ess2). split; [destruct after; cbn [negb andb]; by rewrite Hii|]. split; [done|]. split; [done|]. by rewrite concat_mid.
  - rewrite (proj2 (Z.eqb_neq (Z.of_nat (length rsA)) (n_count n))).
    2: { rewrite (nk_count _ _ Hn), Hes. cbn [snd full]. rewrite length_app. cbn [length]. rewrite length_fmap. lia. }
    rewrite andb_false_r. cbn [andb orb].
    destruct (negb after && (Z.of_nat (length rsA) =? 0) && bool_decide (is_Some (q_prev (length ess1)))) eqn:Eh.
    2: { cbn [andb]. destruct (split_insert_spec q ess1 es ess2 n rsA.*2 r.2 rsB.*2 v after Hq Hc Hlk Hr Hn Hes Hb) as (q' & ess' & Hsp & Hq' & Ho & Hcc).
         rewrite length_fmap in Hsp. rewrite Hsp. cbn [mbind option_bind]. by exists (q_with_count q' (q_count q' + 1)), ess'. }
    cbn [andb]. apply andb_true_iff in Eh as [Eh Hp]. apply andb_true_iff in Eh as [Eaf E0]. destruct after; [done|]. cbn [negb andb orb].
    apply Z.eqb_eq in E0. destruct rsA as [|]; [|cbn in E0; lia]. cbn [length] in *. change (Z.of_nat 0 =? 0) with true. cbn [andb].
    apply bool_decide_eq_true in Hp. destruct (exists_last (l := ess1)) as (ess0 & esp & ->); [intros ->; by destruct Hp|].
    rewrite length_app. cbn [length]. rewrite Nat.add_1_r. cbn [q_prev mbind option_bind node_at].
    rewrite <- app_assoc in Hq, Hb. cbn [app] in Hq, Hb.
    destruct (nodes_split q ess0 esp (es :: ess2) Hq) as (_ & np & _ & _ & _ & _ & Hnp & _ & Hlkp). rewrite Hlkp.
    pose proof (raw_all _ (all_nodes_raw _ _ Hq Hc) _ np Hlkp) as Hrp. destruct (_quicklistNodeAllowInsert (Some np) _ _) eqn:Ep; cbn [negb].
    + destruct (raw_holds np _ Hnp Hrp) as [Hhp _]. cbn [fst full] in Hhp. pose proof (node_bound _ _ _ (qr_bound _ _ Hq)) as Hpb.
      pose proof (zbound_mid (concat ess0) esp (concat (es :: ess2))) as Hm2. rewrite <- concat_mid in Hm2. rewrite zbound_cons in Hb.
      destruct (holds_push junk (n_zl np) esp v ZIPLIST_TAIL Hhp Hv) as (zl & Hpu & Hh); [change (zspec _ _) with (esp ++ [v]); rewrite zbound_snoc; lia|].
      change (zspec _ _) with (esp ++ [v]) in Hh.
      destruct (add_with_room q ess0 esp (es :: ess2) np (fun zl => ziplistPush junk zl v ZIPLIST_TAIL) zl (esp ++ [v]) v Hq Hlkp Hrp Hnp Ep) as (q' & -> & Hq' & Ho);
        [by rewrite zbound_cons|done|done|rewrite length_app; cbn; lia|by rewrite zbound_snoc|].
      cbn [mbind option_bind]. eexists _, _. split; [done|]. split; [exact Hq'|]. split; [done|]. rewrite Hes. rewrite !concat_app. cbn. by rewrite ?app_nil_r, <- ?app_assoc.
    + destruct (new_node_spec junk v ZIPLIST_HEAD (single_bound _ _ Hb)) as (zl & -> & Hh). cbn [mbind option_bind].
      unfold n_with_count. cbn [plain_node n_zl n_sz n_count n_encoding n_recompress]. change (mkNode zl _ _ _ _) with (plain_node zl (Z.of_nat (length [v]))).
      pose proof (repr_shape q _ Hq Hc) as Hsh. rewrite (app_assoc ess0 [esp] (es :: ess2) : ess0 ++ esp :: es :: ess2 = _) in Hsh.
      destruct (shape_insert q (ess0 ++ [esp]) (es :: ess2) zl [v] (S (length ess0)) false Hsh Hh) as (q' & -> & Hsh' & Hc' & Ho).
      { by split. }
      { rewrite zbound_cons, (app_assoc ess0 [esp] (es :: ess2) : ess0 ++ esp :: es :: ess2 = _), concat_app, zbound_app in Hb.
        rewrite concat_mid, !zbound_app, zbound_cons. change (zbound []) with 11. lia. }
      { split; [done|]. rewrite length_app. cbn. lia. }
      cbn [mbind option_bind]. eexists _, _. split; [done|]. split; [apply (shape_repr q' _ _ Hsh')|split; [done|]].
      * rewrite Hc', (qr_count _ _ Hq), !concat_app, !length_app. cbn. rewrite !length_app. cbn. lia.
      * rewrite Hes, !concat_mid. cbn. by rewrite <- ?app_assoc.
Qed.

(** *** Ranges *)

Lemma zindex_mid (A : list (list byte)) e B o : o = Z.of_nat (length A) \/ o = - Z.of_nat (S (length B)) -> index_of (A ++ e :: B) o = Some (length A).
Proof.
  intros Ho. unfold index_of. rewrite length_app. cbn [length]. destruct (o <? 0) eqn:E; zbool;
    rewrite (proj2 (Z.leb_le 0 _)), (proj2 (Z.ltb_lt _ (Z.of_nat (length A + S (length B))))) by lia; cbn [andb]; f_equal; lia.
Qed.

(** Part of a node goes. *)
Lemma del_part_spec q ess1 es ess2 n A D B offset : ql_repr q (ess1 ++ es :: ess2) -> q_compress q = 0 -> q_nodes q !! length ess1 = Some n -> es = A ++ D ++ B -> D <> [] ->
  INT32_MIN < offset -> index_of es offset = Some (length A) ->
  exists q', del_part junk uninit q (length ess1) n offset false (Z.of_nat (length D)) = Some (q', if bool_decide (A ++ B = []) then length ess1 else S (length ess1)) /\
    ql_repr q' (without ess1 (A ++ B) ess2) /\ same_options q q'.
Proof.
  intros Hq Hc Hlk Hes HD Hoff Hi. pose proof (raw_all _ (all_nodes_raw _ _ Hq Hc) _ n Hlk) as Hr. pose proof (repr_shape q _ Hq Hc) as Hsh.
  destruct (nodes_split q ess1 es ess2 Hq) as (l1 & n0 & l2 & Eq & El & Hf1 & Hn & Hf2 & Hlk'). rewrite Hlk in Hlk'. injection Hlk' as <-.
  pose proof (node_bound _ _ _ (qr_bound _ _ Hq)) as Hb. pose proof (zbound_length es) as Hzl. destruct (raw_holds n _ Hn Hr) as [Hh _]. cbn [fst full] in Hh.
  pose proof (qr_ne _ _ Hq) as Hs. apply Forall_app in Hs as [Hs1 Hs2]. apply Forall_cons in Hs2 as [[_ Hs] Hs2]. destruct (node_fields n es Hn Hr) as (Ec & Ee & Er).
  assert (length es = length (A ++ B) + length D)%nat as Hl by (subst es; rewrite !length_app; lia).
  unfold del_part. rewrite raw_for_use by done. cbn [mbind option_bind]. rewrite uwrap_small by lia.
  destruct (delete_range_spec (n_zl n) es offset (Z.of_nat (length D)) Hh Hoff) as (zl & -> & Hh'); [lia|done|]. rewrite Hi in Hh'. cbn [mbind option_bind].
  assert (take (length A) es ++ drop (length A + Z.to_nat (Z.of_nat (length D))) es = A ++ B) as E.
  { subst es. rewrite Nat2Z.id, take_app_length, <- length_app, app_assoc, drop_app_length. done. }
  rewrite E in Hh'. unfold n_with_zl. rewrite (update_sz _ _ _ _ _ _ Hh'), Ec, Ee, Er. cbn [mbind option_bind]. unfold n_with_count. cbn [n_zl n_sz n_count n_encoding n_recompress].
  rewrite uwrap_small by lia. replace (Z.of_nat (length es) - Z.of_nat (length D)) with (Z.of_nat (length (A ++ B))) by lia.
  change (mkNode zl _ _ _ _) with (plain_node zl (Z.of_nat (length (A ++ B)))). change (q_count (q_set q _ _)) with (q_count q).
  destruct (len_small _ _ Hq) as [Hl64 Hc64]. pose proof (qr_count _ _ Hq) as Hqc. rewrite concat_mid, !length_app, Hl in Hqc.
  pose proof (zbound_app (concat ess1) (es ++ concat ess2)) as Zb. rewrite (zbound_app es) in Zb. pose proof (qr_bound _ _ Hq) as Hqb. rewrite concat_mid in Hqb.
  case_bool_decide as Ene.
  - rewrite Ene in *. cbn [length without]. change (Z.of_nat 0 =? 0) with true. cbv iota. set (q1 := q_with_count _ _).
    assert (q_nodes q1 = l1 ++ plain_node zl 0 :: l2) as E1 by (subst q1; cbn; by rewrite Eq, <- El, replace_middle).
    assert (q_count q1 = Z.of_nat (length (concat (ess1 ++ ess2)))) as Hc1 by (subst q1; cbn [q_count q_with_count]; rewrite concat_app, length_app; cbn [length] in Hqc; rewrite uwrap_small by lia; lia).
    assert (q_len q1 = Z.of_nat (length (q_nodes q1))) as Hl1.
    { rewrite E1. change (q_len q1) with (q_len q). rewrite (qr_len _ _ Hq), !length_app. cbn [length]. rewrite (Forall2_length _ _ _ Hf2), length_fmap. lia. }
    pose proof (qs_raw _ _ Hsh) as Hraws. rewrite Eq in Hraws. apply Forall_app in Hraws as [Hr1 Hr2]. apply Forall_cons in Hr2 as [_ Hr2].
    destruct (del_empty q1 l1 (plain_node zl 0) l2 E1) as (q2 & Hd & E2 & E3 & E4 & E5 & E6); try done.
    { change (q_len q1) with (q_len q). lia. }
    { rewrite Hc1, concat_app, length_app. lia. }
    rewrite El in Hd. rewrite Hd. cbn [mbind option_bind]. exists q2. split; [done|]. split; [|split; [done|by rewrite E6, Hc]].
    split; rewrite ?E2, ?E3, ?E4, ?E5, ?E6; try apply Hq; try done.
    + rewrite fmap_app. by apply Forall2_app.
    + by apply Forall_app.
    + change (q_len q1) with (q_len q). rewrite (qr_len _ _ Hq), !length_app. cbn [length]. lia.
    + apply comp_ok_all, Forall_app. done.
    + rewrite concat_app, zbound_app. lia.
  - rewrite (proj2 (Z.eqb_neq (Z.of_nat (length (A ++ B))) 0)) by (destruct (A ++ B); [done|cbn [length]; lia]).
    set (q1 := q_with_count _ _). assert (q_nodes q1 !! length ess1 = Some (plain_node zl (Z.of_nat (length (A ++ B))))) as Hlk1.
    { subst q1. cbn. apply list_lookup_insert_eq. by eapply lookup_lt_Some. }
    unfold quicklistRecompressOnly. rewrite Hlk1. cbn [mbind option_bind plain_node n_recompress]. exists q1. split; [done|].
    destruct (shrink_repr q q1 ess1 es ess2 n zl (A ++ B)) as [Hq' Ho]; try done; [lia|subst es; rewrite !zbound_app; pose proof (zbound_length D); lia| |].
    + subst q1. f_equal. lia.
    + split; [|done]. destruct (A ++ B); [done|]. exact Hq'.
Qed.

(** Whole nodes go, then the first elements of one. *)
Lemma del_range_loop_spec rest : forall fuel q ess1 extent, ql_repr q (ess1 ++ rest) -> q_compress q = 0 -> (length rest <= fuel)%nat ->
  0 <= extent <= Z.of_nat (length (concat rest)) ->
  exists q' ess', del_range_loop junk uninit fuel q (length ess1) 0 extent = Some q' /\ ql_repr q' ess' /\ same_options q q' /\
    concat ess' = concat ess1 ++ drop (Z.to_nat extent) (concat rest).
Proof.
  induction rest as [|es rest IH]; intros fuel q ess1 extent Hq Hc Hf He.
  - cbn in He. assert (extent = 0) as -> by lia. exists q, (ess1 ++ []). split; [by destruct fuel|]. split; [done|]. split; [done|]. by rewrite concat_app.
  - destruct fuel as [|fuel]; [cbn in Hf; lia|]. cbn [del_range_loop]. destruct (extent =? 0) eqn:E0; zbool.
    { subst. exists q, (ess1 ++ es :: rest). split; [done|]. split; [done|]. split; [done|]. by rewrite concat_mid. }
    destruct (nodes_split q ess1 es rest Hq) as (_ & n & _ & _ & _ & _ & Hn & _ & Hlk). rewrite Hlk. cbn [mbind option_bind].
    rewrite (nk_count _ _ Hn). cbn [snd full]. unfold range_part. change (0 =? 0) with true. change (0 >=? 0) with true. change (0 <? 0) with false. cbn [andb].
    pose proof (qr_bound _ _ Hq) as Hqb. pose proof (zbound_length (concat (ess1 ++ es :: rest))) as Hzl. rewrite concat_mid, !length_app in Hzl. rewrite concat_mid in Hqb.
    pose proof (qr_ne _ _ Hq) as Hs. apply Forall_app in Hs as [_ Hs]. apply Forall_cons in Hs as [[_ Hs] _].
    cbn [concat] in He. rewrite length_app in He. rewrite Z.geb_leb. destruct (_ <=? _) eqn:E1; zbool.
    + unfold del_part. destruct (gone_repr junk uninit q ess1 es rest n 0 Hq) as (q' & Hd & Hq' & Ho & Hcnt); [by right|rewrite (nk_count _ _ Hn); cbn; lia|lia|].
      rewrite q_set_id in Hd by done. rewrite Hd. cbn [mbind option_bind fst snd]. rewrite Z.sub_0_r, count_same in Hq' by (rewrite Hcnt, concat_app, length_app; rewrite ?concat_mid in *; change (2 ^ 64) with 18446744073709551616; lia).
      rewrite uwrap_small by (change (2 ^ 64) with 18446744073709551616; lia).
      destruct (IH fuel q' ess1 (extent - Z.of_nat (length es)) Hq') as (q2 & ess' & -> & Hq2 & Ho2 & Hcc); [by rewrite (proj2 Ho)|cbn in Hf; lia|lia|].
      exists q2, ess'. split; [done|]. split; [done|]. split; [by eapply same_options_trans|]. rewrite Hcc. f_equal. cbn [concat]. rewrite drop_app_ge by lia. f_equal. lia.
    + set (D := take (Z.to_nat extent) es). set (B := drop (Z.to_nat extent) es). assert (length D = Z.to_nat extent) as HlD by (subst D; rewrite length_take; lia).
      destruct (del_part_spec q ess1 es rest n [] D B 0 Hq Hc Hlk) as (q' & Hd & Hq' & Ho).
      * subst D B. by rewrite take_drop.
      * intros ED. rewrite ED in HlD. cbn in HlD. lia.
      * limits. lia.
      * destruct es as [|e es']; [cbn in *; lia|]. apply (zindex_mid [] e es' 0). by left.
      * rewrite HlD, Z2Nat.id in Hd by lia. rewrite Hd. cbn [mbind option_bind fst snd]. rewrite Z.sub_diag. change (u64 0) with 0.
        exists q', (without ess1 B rest). cbn [app] in Hq'. split; [by destruct fuel|]. split; [done|]. split; [done|]. rewrite concat_without. cbn [concat].
        rewrite drop_app_le by lia. done.
Qed.

(** A range from an element on, given by its offset from the end of its node. *)
Lemma del_range_inside q ess1 es ess2 n rsA r rsB extent fuel : located q ess1 es ess2 n rsA r rsB -> q_compress q = 0 -> (length ess2 <= fuel)%nat ->
  1 <= extent <= Z.of_nat (length (r.2 :: rsB.*2 ++ concat ess2)) ->
  exists q' ess', del_range_loop junk uninit (S fuel) q (length ess1) (Z.of_nat (length rsA) - Z.of_nat (length es)) extent = Some q' /\ ql_repr q' ess' /\ same_options q q' /\
    concat ess' = (concat ess1 ++ rsA.*2) ++ drop (Z.to_nat extent) (r.2 :: rsB.*2 ++ concat ess2).
Proof.
  intros Hloc Hc Hf He. destruct (located_node _ _ _ _ _ _ _ _ Hloc) as [Hn Hlt]. pose proof Hloc as [Hq Hlk Hr Hz Hes].
  pose proof (qr_ne _ _ Hq) as Hs. apply Forall_app in Hs as [_ Hs]. apply Forall_cons in Hs as [[_ Hs] _]. pose proof (qr_bound _ _ Hq) as Hb. pose proof (zbound_length (concat (ess1 ++ es :: ess2))) as Hzb.
  rewrite concat_mid, !length_app in Hzb. rewrite concat_mid in Hb. set (tl := r.2 :: rsB.*2) in *. change (r.2 :: rsB.*2 ++ concat ess2) with (tl ++ concat ess2) in *.
  assert (length tl = S (length rsB) /\ length es = length rsA + length tl)%nat as [Htl Hle] by (rewrite Hes, length_app; subst tl; cbn [length]; rewrite !length_fmap; lia).
  rewrite length_app in He. cbn [del_range_loop]. rewrite (proj2 (Z.eqb_neq extent 0)) by lia. rewrite Hlk. cbn [mbind option_bind].
  set (off := Z.of_nat (length rsA) - Z.of_nat (length es)). assert (off = - Z.of_nat (S (length rsB))) as Hoff by (subst off; lia).
  unfold range_part. rewrite (proj2 (Z.eqb_neq off 0)) by lia. rewrite (Z.geb_leb off 0), (proj2 (Z.leb_gt 0 off)) by lia. cbn [andb]. rewrite (proj2 (Z.ltb_lt off 0)) by lia.
  rewrite (uwrap_small 64 (- off)) by (change (2 ^ 64) with 18446744073709551616; lia).
  set (del := if - off >? extent then extent else - off). assert (del = Z.min extent (- off)) as Hdel by (subst del; rewrite Z.gtb_ltb; destruct (_ <? _) eqn:Eg; zbool; lia). clearbody del.
  set (D := take (Z.to_nat del) tl). set (B := drop (Z.to_nat del) tl). assert (length D = Z.to_nat del) as HlD by (subst D; rewrite length_take; lia).
  destruct (del_part_spec q ess1 es ess2 n rsA.*2 D B off Hq Hc Hlk) as (q1 & Hd & Hq1 & Ho1).
  - subst D B. by rewrite take_drop.
  - intros ED. rewrite ED in HlD. cbn in HlD. lia.
  - limits. lia.
  - rewrite Hes. subst tl. apply zindex_mid. right. by rewrite length_fmap.
  - rewrite HlD, Z2Nat.id in Hd by lia. rewrite Hd. cbn [mbind option_bind fst snd]. rewrite uwrap_small by (change (2 ^ 64) with 18446744073709551616; lia).
    assert (exists essf, without ess1 (rsA.*2 ++ B) ess2 = essf ++ ess2 /\ (if bool_decide (rsA.*2 ++ B = []) then length ess1 else S (length ess1)) = length essf /\
      concat essf = concat ess1 ++ rsA.*2 ++ B) as (essf & Hef & -> & Hcf).
    { case_bool_decide as Ew; [exists ess1; rewrite Ew; split; [done|]; split; [done|]; by rewrite app_nil_r|]. exists (ess1 ++ [rsA.*2 ++ B]).
      rewrite length_app, concat_app, <- app_assoc. cbn. rewrite app_nil_r. split; [by destruct (rsA.*2 ++ B)|]. split; [lia|done]. }
    rewrite Hef in Hq1. destruct (del_range_loop_spec ess2 fuel q1 essf (extent - del) Hq1) as (q2 & ess' & -> & Hq2 & Ho2 & Hcc); [by rewrite (proj2 Ho1)|lia|lia|].
    exists q2, ess'. split; [done|]. split; [done|]. split; [by eapply same_options_trans|]. rewrite Hcc, Hcf, drop_app, <- !app_assoc. do 2 f_equal. subst B. f_equal.
    + destruct (decide (extent <= - off)); [f_equal; lia|by rewrite !drop_ge by lia].
    + f_equal. lia.
Qed.

(** The number of elements that quicklistDelRange() deletes. *)
Lemma range_extent (T k : nat) start count : start <= 0 -> LLONG_MIN < start -> 0 < count < 2 ^ 63 -> Z.of_nat T < 2 ^ 63 ->
  Z.of_nat k = (if start <? 0 then Z.of_nat T + start else start) -> (k < T)%nat ->
  (if (start >=? 0) && (count >? u64 (Z.of_nat T - start)) then u64 (Z.of_nat T - start)
   else if (start <? 0) && (count >? u64 (- start)) then u64 (- start) else count) = Z.min count (Z.of_nat T - Z.of_nat k).
Proof.
  intros H0 Hmin Hc HT Hk Hlt. limits. rewrite Z.geb_leb, !Z.gtb_ltb. destruct (start <? 0) eqn:E; zbool.
  - rewrite (proj2 (Z.leb_gt 0 start)) by lia. cbn [andb]. rewrite uwrap_small by lia. destruct (_ <? _) eqn:E2; zbool; lia.
  - assert (start = 0) as -> by lia. change (0 <=? 0) with true. cbn [andb]. rewrite Z.sub_0_r, uwrap_small by lia. destruct (_ <? _) eqn:E2; zbool; lia.
Qed.

(** The range that is cut from the list; the start is 0 or counted from the end. *)
Lemma quicklistDelRange_spec q ess start count : ql_repr q ess -> q_compress q = 0 -> LLONG_MIN < start <= 0 -> in_s 64 count ->
  exists q' ess' b, quicklistDelRange junk uninit q start count = Some (q', b) /\ ql_repr q' ess' /\ same_options q q' /\
    concat ess' = if count <=? 0 then concat ess else
      match index_of (concat ess) start with None => concat ess | Some k => take k (concat ess) ++ drop (k + Z.to_nat count) (concat ess) end.
Proof.
  intros Hq Hc Hst Hcnt. unfold quicklistDelRange. destruct (count <=? 0) eqn:E0; zbool; [by exists q, ess, false|].
  pose proof (quicklistIndex_spec q ess start Hq Hc ltac:(lia)) as Hix. destruct (len_small _ _ Hq) as [_ Hc64]. pose proof (zbound_length (concat ess)) as Hzb. pose proof (qr_bound _ _ Hq) as Hb.
  rewrite (qr_count _ _ Hq). destruct (index_of (concat ess) start) as [k|] eqn:Ei; [|rewrite Hix; cbn [mbind option_bind]; by exists q, ess, false].
  assert (Z.of_nat k = (if start <? 0 then Z.of_nat (length (concat ess)) + start else start) /\ (k < length (concat ess))%nat) as [Hk Hkl].
  { pose proof (index_of_lt _ _ _ Ei). split; [|done]. unfold index_of in Ei. destruct (_ && _) eqn:E in Ei; [|done]. injection Ei as <-. zbool. destruct (start <? 0); lia. }
  rewrite (range_extent _ k) by (limits; lia || done). set (extent := Z.min _ _). assert (1 <= extent <= Z.of_nat (length (concat ess)) - Z.of_nat k) as Hext by (subst extent; lia).
  assert (drop (k + Z.to_nat count) (concat ess) = drop (k + Z.to_nat extent) (concat ess)) as ->.
  { destruct (decide (count <= Z.of_nat (length (concat ess)) - Z.of_nat k)); [by replace extent with count by (subst extent; lia)|]. rewrite !drop_ge by (subst extent; lia). done. }
  clearbody extent. destruct Hix as (ess1 & es & ess2 & n & rsA & r & rsB & v & -> & Hloc & -> & _ & ->). cbn [mbind option_bind en_node en_offset].
  rewrite (nodes_length q _ Hq), length_app. cbn [length]. rewrite Nat.add_succ_r. set (P := concat ess1 ++ rsA.*2) in *.
  assert (concat (ess1 ++ es :: ess2) = P ++ r.2 :: rsB.*2 ++ concat ess2) as Ecc by (rewrite concat_mid, (lc_es _ _ _ _ _ _ _ _ Hloc); subst P; by rewrite <- !app_assoc).
  assert (length P = (length (concat ess1) + length rsA)%nat) as HP by (subst P; by rewrite length_app, length_fmap). rewrite Ecc, <- HP in *. rewrite length_app in Hext.
  rewrite take_app_length, <- drop_drop, drop_app_length. destruct (start <? 0) eqn:Es; zbool.
  - destruct (del_range_inside q ess1 es ess2 n rsA r rsB extent (length ess1 + length ess2) Hloc Hc) as (q' & ess' & -> & Hq' & Ho & Hcc); [lia|lia|].
    cbn [mbind option_bind]. by exists q', ess', true.
  - assert (length P = 0)%nat as HP0 by lia. assert (rsA = []) as -> by (destruct rsA; [done|cbn [length] in *; lia]). pose proof (qr_ne _ _ Hq) as Hne. apply Forall_app in Hne as [Hne1 _].
    pose proof (concat_length_le ess1 Hne1). destruct ess1; [|cbn [length] in *; lia]. subst P. cbn [length app concat fmap list_fmap] in *. change (Z.of_nat 0) with 0.
    destruct (del_range_loop_spec (es :: ess2) (S (length ess2)) q [] extent Hq Hc) as (q' & ess' & Hd & Hq' & Ho & Hcc); [done|cbn [concat]; rewrite Ecc; cbn [length] in *; lia|].
    cbn [length Nat.add] in *. rewrite Hd. cbn [mbind option_bind]. exists q', ess', true. split; [done|]. split; [done|]. split; [done|]. by rewrite Hcc, <- Ecc.
Qed.

(** *** Iteration *)

Definition dir_of (fwd : bool) : Z := if fwd then AL_START_HEAD else AL_START_TAIL.

(** The offset of an element, and what is left after it, in the direction of the iterator. *)
Definition offset_of (fwd : bool) (before after : nat) : Z := if fwd then Z.of_nat before else - Z.of_nat (S after).
Definition left_after (fwd : bool) ess1 (A B : list (list byte)) ess2 : list (list byte) := if fwd then B ++ concat ess2 else rev (concat ess1 ++ A).

(** What an iterator that stands at an element, at an offset or at the end has still to
    give. *)
Inductive next_from q ess (fwd : bool) : quicklistIter -> list (list byte) -> Prop :=
| from_end zi o : next_from q ess fwd (mkQIter None zi o (dir_of fwd)) []
| from_offset ess1 A B ess2 : ess = ess1 ++ (A ++ B) :: ess2 ->
    next_from q ess fwd (mkQIter (Some (length ess1)) None (if fwd then Z.of_nat (length A) else - Z.of_nat (S (length B))) (dir_of fwd)) (left_after fwd ess1 A B ess2)
| from_entry ess1 es ess2 n rsA r rsB : ess = ess1 ++ es :: ess2 -> located q ess1 es ess2 n rsA r rsB ->
    next_from q ess fwd (mkQIter (Some (length ess1)) (Some (zpos rsA)) (offset_of fwd (length rsA) (length rsB)) (dir_of fwd)) (left_after fwd ess1 rsA.*2 rsB.*2 ess2).

(** The entry that a call of quicklistNext() gives. *)
Definition yields q ess (fwd : bool) (rest : list (list byte)) (res : option (quicklist * quicklistIter * option quicklistEntry)) : Prop :=
  match rest with
  | [] => exists it, res = Some (q, it, None)
  | e :: rest => exists ess1 es ess2 n rsA r rsB v, let o := offset_of fwd (length rsA) (length rsB) in
      ess = ess1 ++ es :: ess2 /\ located q ess1 es ess2 n rsA r rsB /\ r.2 = e /\ rest = left_after fwd ess1 rsA.*2 rsB.*2 ess2 /\
      ziplistGet (n_zl n) (Some (zpos rsA)) = Some (Some v) /\
      res = Some (q, mkQIter (Some (length ess1)) (Some (zpos rsA)) o (dir_of fwd), Some (mkEntry (Some (length ess1)) (Some (zpos rsA)) (Some v) o))
  end.

Lemma left_before (fwd : bool) ess1 A e B ess2 : left_after fwd ess1 (if fwd then A else A ++ [e]) (if fwd then e :: B else B) ess2 = e :: left_after fwd ess1 A B ess2.
Proof. destruct fwd; cbn; [done|]. by rewrite app_assoc, rev_app_distr. Qed.

Lemma offset_small q ess1 es ess2 n rsA r rsB fwd : located q ess1 es ess2 n rsA r rsB -> let o := offset_of fwd (length rsA) (length rsB) in
  INT32_MIN < o /\ s32 o = o /\ index_of es o = Some (length rsA).
Proof.
  intros Hl. pose proof (qr_ne _ _ (lc_repr _ _ _ _ _ _ _ _ Hl)) as Hs. apply Forall_app in Hs as [_ Hs]. apply Forall_cons in Hs as [[_ Hs] _].
  rewrite (lc_es _ _ _ _ _ _ _ _ Hl) in *. rewrite length_app in Hs. cbn [length] in Hs. rewrite !length_fmap in Hs. cbv zeta.
  assert (- 65536 < offset_of fwd (length rsA) (length rsB) < 65536) as Ho by (destruct fwd; cbn [offset_of]; lia). split; [limits; lia|]. split; [apply swrap_small; [done|limits; lia]|].
  rewrite <- (length_fmap snd rsA). apply zindex_mid. rewrite !length_fmap. destruct fwd; [by left|by right].
Qed.

(** One step at an offset within a node. *)
Lemma next_at_offset q ess1 es ess2 n rsA r rsB fwd fuel : located q ess1 es ess2 n rsA r rsB ->
  yields q (ess1 ++ es :: ess2) fwd (r.2 :: left_after fwd ess1 rsA.*2 rsB.*2 ess2)
    (next_loop junk uninit (S fuel) q (mkQIter (Some (length ess1)) None (offset_of fwd (length rsA) (length rsB)) (dir_of fwd))).
Proof.
  intros Hl. destruct (offset_small _ _ _ _ _ _ _ _ fwd Hl) as (Ho1 & Ho2 & Ho3). pose proof Hl as [Hq Hlk Hr Hz Hes].
  destruct (zvalue_repr _ _ _ _ Hz) as (v & Hv & _). exists ess1, es, ess2, n, rsA, r, rsB, v. cbv zeta. split_and!; try done.
  set (o := offset_of fwd _ _) in *. cbn [next_loop it_current it_zi it_offset it_direction]. rewrite (for_use_raw q _ n Hlk Hr). cbn [mbind option_bind]. rewrite Hlk. cbn [mbind option_bind].
  rewrite Ho2, (index_repr (n_zl n) (rsA ++ r :: rsB) o Hz Ho1), fmap_app. cbn [fmap list_fmap]. rewrite <- Hes, Ho3. cbn [fmap option_fmap option_map mbind option_bind].
  rewrite take_app_length, Hlk. cbn [mbind option_bind]. rewrite Hv. cbn [mbind option_bind]. by rewrite Ho2.
Qed.

(** One step from an element to the next one of its node. *)
Lemma next_in_node q ess1 es ess2 n (rsA : list rentry) r (rsB : list rentry) (r0 : rentry) (fwd : bool) fuel :
  located q ess1 es ess2 n rsA r rsB -> (if fwd then exists rsA', rsA = rsA' ++ [r0] else exists rsB', rsB = r0 :: rsB') ->
  yields q (ess1 ++ es :: ess2) fwd (r.2 :: left_after fwd ess1 rsA.*2 rsB.*2 ess2)
    (next_loop junk uninit (S fuel) q (mkQIter (Some (length ess1)) (Some (if fwd then zpos (removelast rsA) else zpos (rsA ++ [r])))
       (if fwd then offset_of fwd (length rsA - 1) 0 else offset_of fwd 0 (length rsB - 1)) (dir_of fwd))).
Proof.
  intros Hl Hr0. destruct (offset_small _ _ _ _ _ _ _ _ fwd Hl) as (_ & Ho2 & _). pose proof Hl as [Hq Hlk Hr Hz Hes].
  destruct (zvalue_repr _ _ _ _ Hz) as (v & Hv & _). exists ess1, es, ess2, n, rsA, r, rsB, v. cbv zeta. split_and!; try done.
  cbn [next_loop it_current it_zi it_offset it_direction]. rewrite Hlk. cbn [mbind option_bind]. destruct fwd; cbn [dir_of offset_of] in *.
  - destruct Hr0 as (rsA' & ->). change (AL_START_HEAD =? AL_START_HEAD) with true. cbv iota. rewrite removelast_last.
    rewrite (znext_repr (n_zl n) rsA' r0 (r :: rsB)) by (by rewrite <- app_assoc in Hz). cbn [mbind option_bind zcursor]. rewrite Hlk. cbn [mbind option_bind]. rewrite Hv. cbn [mbind option_bind].
    rewrite length_app in *. cbn [length] in *. replace (Z.of_nat (length rsA' + 1 - 1) + 1) with (Z.of_nat (length rsA' + 1)) by lia. by rewrite Ho2.
  - destruct Hr0 as (rsB' & ->). change (AL_START_TAIL =? AL_START_HEAD) with false. cbv iota.
    rewrite (zprev_repr (n_zl n) rsA r (r0 :: rsB') Hz). cbn [mbind option_bind]. rewrite Hlk. cbn [mbind option_bind]. rewrite Hv. cbn [mbind option_bind length] in *.
    replace (- Z.of_nat (S (S (length rsB') - 1)) - 1) with (- Z.of_nat (S (S (length rsB')))) by lia. by rewrite Ho2.
Qed.

Lemma compress_still q ess i : ql_repr q ess -> q_compress q = 0 -> (i < length ess)%nat -> quicklistCompress junk uninit q i = Some q.
Proof. intros Hq Hc Hi. rewrite (quicklistCompress_ok junk uninit q (full <$> ess)) by (rewrite ?length_fmap; done || apply Hq). by apply compress_off. Qed.

(** The node next to one that is exhausted. *)
Lemma next_node q ess1 es ess2 fwd fuel : ql_repr q (ess1 ++ es :: ess2) -> q_compress q = 0 ->
  yields q (ess1 ++ es :: ess2) fwd (if fwd then concat ess2 else rev (concat ess1))
    (next_loop junk uninit (S fuel) q
      (if dir_of fwd =? AL_START_HEAD then mkQIter (q_next q (length ess1)) None 0 (dir_of fwd) else mkQIter (q_prev (length ess1)) None (-1) (dir_of fwd))).
Proof.
  intros Hq Hc. pose proof (nodes_length q _ Hq) as Hnl. rewrite length_app in Hnl. cbn [length] in Hnl. pose proof (qr_ne _ _ Hq) as Hne.
  assert (forall a b1 k, ess1 ++ es :: ess2 = a ++ b1 :: k -> b1 <> []) as Hb.
  { intros a b1 k E. rewrite E in Hne. apply Forall_app in Hne as [_ Hne]. by apply Forall_cons in Hne as [[? _] _]. }
  destruct fwd; cbn [dir_of].
  - change (AL_START_HEAD =? AL_START_HEAD) with true. cbv iota. unfold q_next. destruct ess2 as [|es2 ess2].
    + rewrite bool_decide_eq_false_2 by (cbn in Hnl; lia). cbn. by eexists.
    + rewrite bool_decide_eq_true_2 by (cbn in Hnl; lia). rewrite (app_assoc ess1 [es] (es2 :: ess2) : ess1 ++ es :: es2 :: ess2 = _) in *.
      destruct (locate q (ess1 ++ [es]) es2 ess2 0 Hq Hc) as (n & rsA & r & rsB & Hl & HA); [specialize (Hb _ _ _ eq_refl); destruct es2; [done|cbn; lia]|].
      destruct rsA; [|done]. pose proof (next_at_offset q _ _ _ _ _ _ _ true fuel Hl) as Hy. rewrite (lc_es _ _ _ _ _ _ _ _ Hl) at 2.
      replace (S (length ess1)) with (length (ess1 ++ [es])) by (rewrite length_app; cbn; lia). exact Hy.
  - change (AL_START_TAIL =? AL_START_HEAD) with false. cbv iota. destruct (decide (ess1 = [])) as [->|Hn1].
    + cbn. by eexists.
    + destruct (exists_last Hn1) as (ess0 & es1 & ->). rewrite length_app. cbn [length]. rewrite Nat.add_1_r. cbn [q_prev]. rewrite <- app_assoc in *. cbn [app] in *.
      specialize (Hb _ _ _ eq_refl). destruct (locate q ess0 es1 (es :: ess2) (length es1 - 1) Hq Hc) as (n & rsA & r & rsB & Hl & HA); [destruct es1; [done|cbn; lia]|].
      pose proof (lc_es _ _ _ _ _ _ _ _ Hl) as Hes. assert (rsB = []) as ->.
      { apply (f_equal length) in Hes. rewrite length_app in Hes. cbn [length] in Hes. rewrite !length_fmap in Hes. destruct rsB; [done|]. cbn [length] in Hes. lia. }
      pose proof (next_at_offset q _ _ _ _ _ _ _ false fuel Hl) as Hy. rewrite concat_app. cbn [concat]. rewrite app_nil_r. rewrite Hes at 2. rewrite app_assoc, rev_app_distr. exact Hy.
Qed.

Abbreviation offset_at fwd A B := (if (fwd : bool) then Z.of_nat (length (A : list (list byte))) else - Z.of_nat (S (length (B : list (list byte))))).

(** The iterator stands past the elements of its node: it goes on with the next node. *)
Lemma next_exhausted q ess1 (A B : list (list byte)) ess2 (fwd : bool) : ql_repr q (ess1 ++ (A ++ B) :: ess2) -> q_compress q = 0 -> (if fwd then B else A) = [] ->
  yields q (ess1 ++ (A ++ B) :: ess2) fwd (left_after fwd ess1 A B ess2)
    (quicklistNext junk uninit q (mkQIter (Some (length ess1)) None (offset_at fwd A B) (dir_of fwd))).
Proof.
  intros Hq Hc E. unfold quicklistNext. pose proof (nodes_length q _ Hq) as Hnl. rewrite length_app in Hnl. cbn [length] in Hnl.
  assert (INT32_MIN < offset_at fwd A B < 65536) as Ho.
  { pose proof (qr_ne _ _ Hq) as Hs. apply Forall_app in Hs as [_ Hs]. apply Forall_cons in Hs as [[_ Hs] _]. rewrite length_app in Hs. destruct fwd; limits; lia. }
  replace (left_after fwd ess1 A B ess2) with (if fwd then concat ess2 else rev (concat ess1)) by (destruct fwd; subst; cbn; by rewrite ?app_nil_r).
  rewrite Hnl, Nat.add_succ_r. remember (S (length ess1 + length ess2)) as fuel eqn:Ef.
  destruct (nodes_split q ess1 (A ++ B) ess2 Hq) as (_ & n & _ & _ & _ & _ & Hn & _ & Hlk). pose proof (raw_all _ (all_nodes_raw _ _ Hq Hc) _ n Hlk) as Hr.
  destruct (raw_holds n _ Hn Hr) as [(rs & Hz & Hrs) _]. cbn [fst full] in Hrs.
  cbn [next_loop it_current it_zi it_offset it_direction]. rewrite (for_use_raw q _ n Hlk Hr). cbn [mbind option_bind]. rewrite Hlk. cbn [mbind option_bind].
  rewrite swrap_small by (done || limits; lia). rewrite (index_repr _ _ _ Hz) by lia. rewrite Hrs.
  assert (index_of (A ++ B) (offset_at fwd A B) = None) as ->.
  { unfold index_of. destruct fwd; subst; rewrite ?app_nil_r; cbn [app].
    - rewrite (proj2 (Z.ltb_ge (Z.of_nat (length A)) 0)) by lia. rewrite (Z.ltb_irrefl (Z.of_nat (length A))). by rewrite andb_false_r.
    - rewrite (proj2 (Z.ltb_lt _ 0)) by lia. cbv zeta. rewrite (proj2 (Z.leb_gt 0 _)) by lia. done. }
  cbn [fmap option_fmap option_map mbind option_bind]. rewrite (compress_still q _ _ Hq Hc) by (rewrite length_app; cbn; lia). cbn [mbind option_bind].
  subst fuel. by apply next_node.
Qed.

(** The iterator stands at an element by its offset. *)
Lemma next_offset q ess1 (A B : list (list byte)) ess2 (fwd : bool) : ql_repr q (ess1 ++ (A ++ B) :: ess2) -> q_compress q = 0 -> (if fwd then B else A) <> [] ->
  yields q (ess1 ++ (A ++ B) :: ess2) fwd (left_after fwd ess1 A B ess2)
    (quicklistNext junk uninit q (mkQIter (Some (length ess1)) None (offset_at fwd A B) (dir_of fwd))).
Proof.
  intros Hq Hc E. unfold quicklistNext.
  assert (exists A' e B', A ++ B = A' ++ e :: B' /\ left_after fwd ess1 A B ess2 = e :: left_after fwd ess1 A' B' ess2 /\
    offset_at fwd A B = offset_of fwd (length A') (length B')) as (A' & e & B' & EAB & Hla & Hoff).
  { destruct fwd.
    - destruct B as [|e B']; [done|]. by exists A, e, B'.
    - destruct (exists_last E) as (A' & e & ->). exists A', e, B. rewrite <- app_assoc. split; [done|]. split; [exact (left_before false ess1 A' e B ess2)|done]. }
  rewrite Hla, Hoff, EAB in *.
  destruct (locate q ess1 (A' ++ e :: B') ess2 (length A') Hq Hc) as (n & rsA & r & rsB & Hl & HA); [rewrite length_app; cbn; lia|].
  pose proof (lc_es _ _ _ _ _ _ _ _ Hl) as Hes. apply app_inj_1 in Hes as [-> Hes]; [|by rewrite length_fmap]. injection Hes as -> ->.
  rewrite !length_fmap. apply (next_at_offset q _ _ _ _ _ _ _ fwd _ Hl).
Qed.

(** The iterator stands at the entry it gave last. *)
Lemma next_entry q ess1 es ess2 n rsA r rsB fwd : located q ess1 es ess2 n rsA r rsB -> q_compress q = 0 ->
  yields q (ess1 ++ es :: ess2) fwd (left_after fwd ess1 rsA.*2 rsB.*2 ess2)
    (quicklistNext junk uninit q (mkQIter (Some (length ess1)) (Some (zpos rsA)) (offset_of fwd (length rsA) (length rsB)) (dir_of fwd))).
Proof.
  intros Hl Hc. unfold quicklistNext. pose proof Hl as [Hq Hlk Hr Hz Hes]. pose proof (nodes_length q _ Hq) as Hnl. rewrite length_app in Hnl. cbn [length] in Hnl. destruct fwd.
  - destruct rsB as [|r' rsB].
    + cbn [left_after fmap list_fmap app]. rewrite Hnl, Nat.add_succ_r. remember (S (length ess1 + length ess2)) as fuel eqn:Ef.
      cbn [next_loop it_current it_zi it_offset it_direction dir_of offset_of]. change (AL_START_HEAD =? AL_START_HEAD) with true. cbv iota. rewrite Hlk. cbn [mbind option_bind].
      rewrite (znext_repr _ _ _ _ Hz). cbn [zcursor mbind option_bind]. rewrite (compress_still q _ _ Hq Hc) by (rewrite length_app; cbn; lia). cbn [mbind option_bind].
      subst fuel. by apply (next_node q ess1 es ess2 true).
    + assert (located q ess1 es ess2 n (rsA ++ [r]) r' rsB) as Hl'.
      { split; try done; [by rewrite <- app_assoc|]. rewrite Hes, fmap_app, <- app_assoc. done. }
      pose proof (next_in_node q _ _ _ _ _ _ _ r true (length (q_nodes q)) Hl' ltac:(by exists rsA)) as Hy.
      rewrite removelast_last, length_app, Nat.add_sub in Hy. exact Hy.
  - destruct (decide (rsA = [])) as [->|Hne].
    + cbn [left_after fmap list_fmap]. rewrite app_nil_r, Hnl, Nat.add_succ_r. remember (S (length ess1 + length ess2)) as fuel eqn:Ef.
      cbn [next_loop it_current it_zi it_offset it_direction dir_of offset_of]. change (AL_START_TAIL =? AL_START_HEAD) with false. cbv iota. rewrite Hlk. cbn [mbind option_bind].
      rewrite (prev_head _ _ Hz). cbn [mbind option_bind]. rewrite (compress_still q _ _ Hq Hc) by (rewrite length_app; cbn; lia). cbn [mbind option_bind].
      subst fuel. by apply (next_node q ess1 es ess2 false).
    + destruct (exists_last Hne) as (rsA' & r' & ->).
      assert (located q ess1 es ess2 n rsA' r' (r :: rsB)) as Hl'.
      { split; try done; [by rewrite <- app_assoc in Hz|]. rewrite Hes, fmap_app, <- app_assoc. done. }
      pose proof (next_in_node q _ _ _ _ _ _ _ r false (length (q_nodes q)) Hl' ltac:(by exists rsB)) as Hy. cbn [length] in Hy. rewrite Nat.sub_succ, Nat.sub_0_r in Hy.
      pose proof (left_before false ess1 rsA'.*2 r'.2 (r :: rsB).*2 ess2) as E. cbv iota in E. rewrite fmap_app. cbn [fmap list_fmap] in *.
      replace (left_after false ess1 (rsA'.*2 ++ [r'.2]) rsB.*2 ess2) with (r'.2 :: left_after false ess1 rsA'.*2 (r.2 :: rsB.*2) ess2) by (by rewrite <- E). exact Hy.
Qed.

(** A call of quicklistNext() gives the first of what is left, and the iterator then stands
    at it. *)
Lemma quicklistNext_spec q ess fwd it rest : ql_repr q ess -> q_compress q = 0 -> next_from q ess fwd it rest -> yields q ess fwd rest (quicklistNext junk uninit q it).
Proof.
  intros Hq Hc Hit. destruct Hit as [zi o|ess1 A B ess2 ->|ess1 es ess2 n rsA r rsB -> Hl].
  - cbn. by eexists.
  - destruct (decide ((if fwd then B else A) = [])) as [E|E]; [by apply next_exhausted|by apply next_offset].
  - by eapply next_entry.
Qed.

(** The element an iterator stands at is deleted; the iterator goes on with what was left. *)
Lemma quicklistDelEntry_spec q ess1 es ess2 n rsA r rsB fwd v : located q ess1 es ess2 n rsA r rsB -> let o := offset_of fwd (length rsA) (length rsB) in
  exists q' it, quicklistDelEntry junk uninit q (mkQIter (Some (length ess1)) (Some (zpos rsA)) o (dir_of fwd)) (mkEntry (Some (length ess1)) (Some (zpos rsA)) v o) = Some (q', it) /\
    ql_repr q' (without ess1 (rsA.*2 ++ rsB.*2) ess2) /\ same_options q q' /\
    next_from q' (without ess1 (rsA.*2 ++ rsB.*2) ess2) fwd it (left_after fwd ess1 rsA.*2 rsB.*2 ess2).
Proof.
  intros [Hq Hlk Hr Hz Hes] o. pose proof (nodes_length q _ Hq) as Hnl. rewrite length_app in Hnl. cbn [length] in Hnl.
  unfold quicklistDelEntry. cbn [en_node en_zi mbind option_bind it_direction it_current it_offset].
  destruct (quicklistDelIndex_spec junk uninit q ess1 es ess2 n rsA r rsB Hq Hlk Hr Hz Hes) as (q' & -> & Hq' & Ho). cbn [mbind option_bind].
  eexists q', _. split; [done|]. split; [done|]. split; [done|]. case_bool_decide as E.
  2: { subst o. replace (without ess1 (rsA.*2 ++ rsB.*2) ess2) with (ess1 ++ (rsA.*2 ++ rsB.*2) :: ess2) by (by destruct (rsA.*2 ++ rsB.*2)).
       replace (offset_of fwd (length rsA) (length rsB)) with (if fwd then Z.of_nat (length rsA.*2) else - Z.of_nat (S (length rsB.*2))) by (rewrite !length_fmap; by destruct fwd).
       by apply from_offset. }
  rewrite E. cbn [without]. apply app_eq_nil in E as [-> ->]. destruct fwd; cbn [dir_of left_after app].
  - change (AL_START_HEAD =? AL_START_HEAD) with true. cbv iota. unfold q_next. destruct ess2 as [|es2 ess2].
    + rewrite (bool_decide_eq_false_2 (S (length ess1) < length (q_nodes q))%nat) by (cbn in Hnl; lia). rewrite bool_decide_eq_false_2 by (by intros [? [=]]). apply (from_end q' _ true).
    + rewrite (bool_decide_eq_true_2 (S (length ess1) < length (q_nodes q))%nat) by (cbn in Hnl; lia). rewrite bool_decide_eq_true_2 by done.
      exact (from_offset q' _ true ess1 [] es2 ess2 eq_refl).
  - change (AL_START_TAIL =? AL_START_HEAD) with false. change (AL_START_TAIL =? AL_START_TAIL) with true. cbv iota. rewrite app_nil_r. destruct (decide (ess1 = [])) as [->|Hne].
    + apply (from_end q' _ false).
    + destruct (exists_last Hne) as (ess0 & es1 & ->). rewrite length_app. cbn [length]. rewrite Nat.add_1_r. cbn [q_prev].
      pose proof (from_offset q' ((ess0 ++ [es1]) ++ ess2) false ess0 es1 [] ess2) as Hf. rewrite app_nil_r, <- app_assoc in Hf. specialize (Hf eq_refl).
      rewrite <- app_assoc. cbn [left_after] in Hf. rewrite concat_app. cbn [concat]. rewrite app_nil_r. exact Hf.
Qed.

(** Where an iterator at an index starts. *)
Lemma iterator_at_spec q ess (fwd : bool) idx : ql_repr q ess -> q_compress q = 0 -> LLONG_MIN < idx -> (if fwd then 0 <= idx else idx < 0) ->
  match index_of (concat ess) idx with
  | None => quicklistGetIteratorAtIdx junk q (dir_of fwd) idx = Some (q, None)
  | Some k => exists it, quicklistGetIteratorAtIdx junk q (dir_of fwd) idx = Some (q, Some it) /\
      next_from q ess fwd it (if fwd then drop k (concat ess) else rev (take (S k) (concat ess)))
  end.
Proof.
  intros Hq Hc Hidx Hd. unfold quicklistGetIteratorAtIdx. pose proof (quicklistIndex_spec q ess idx Hq Hc Hidx) as Hix.
  destruct (index_of _ _) as [k|]; [|by rewrite Hix]. destruct Hix as (ess1 & es & ess2 & n & rsA & r & rsB & v & -> & Hl & -> & _ & ->).
  cbn [mbind option_bind en_node en_offset]. eexists. split; [done|]. pose proof (lc_es _ _ _ _ _ _ _ _ Hl) as Hes. rewrite concat_mid, Hes.
  rewrite <- (length_fmap snd rsA), <- length_app. set (P := concat ess1 ++ rsA.*2). destruct fwd.
  - rewrite (proj2 (Z.ltb_ge idx 0)) by done.
    replace (concat ess1 ++ (rsA.*2 ++ r.2 :: rsB.*2) ++ concat ess2) with (P ++ (r.2 :: rsB.*2) ++ concat ess2) by (subst P; by rewrite <- !app_assoc).
    rewrite drop_app_length. exact (from_offset q _ true ess1 rsA.*2 (r.2 :: rsB.*2) ess2 eq_refl).
  - rewrite (proj2 (Z.ltb_lt idx 0)) by done.
    replace (concat ess1 ++ (rsA.*2 ++ r.2 :: rsB.*2) ++ concat ess2) with ((P ++ [r.2]) ++ rsB.*2 ++ concat ess2) by (subst P; by rewrite <- !app_assoc).
    replace (S (length P)) with (length (P ++ [r.2])) by (rewrite length_app; cbn; lia). rewrite take_app_length.
    pose proof (from_offset q (ess1 ++ ((rsA.*2 ++ [r.2]) ++ rsB.*2) :: ess2) false ess1 (rsA.*2 ++ [r.2]) rsB.*2 ess2 eq_refl) as Hf. cbn [left_after] in Hf.
    subst P. rewrite <- !app_assoc in Hf. rewrite <- !app_assoc. cbn [app] in *. rewrite length_fmap, length_app. cbn [length]. rewrite !length_fmap.
    replace (Z.of_nat (length rsA) - Z.of_nat (length rsA + S (length rsB))) with (- Z.of_nat (S (length rsB))) by lia. by rewrite length_fmap in Hf.
Qed.
End uncompressed.

(** ** Examples *)

Local Instance qo_little : Host := false.

(** Ten elements in two nodes. *)
Definition qo_list : quicklist :=
  match q_run junk_zl (fun _ => 0) (quicklistNew 5 0) (map (fun k => QPush QUICKLIST_TAIL (decimal k)) [0; 1; 2; 3; 4; 5; 6; 7; 8; 9]) with
  | Some (q, _) => q
  | None => quicklistCreate
  end.

Definition qo_counts (q : quicklist) : list (Z * option Z) := (fun n => (n_count n, snd <$> ziplistLen (n_zl n))) <$> q_nodes q.

(** A range that starts inside a node, is shorter than the node and goes beyond it: only the
    elements up to the end of the node are deleted, all of the range is counted, and the node is left
    with a count that is not that of its ziplist. *)
Example delrange_inside :
  match quicklistDelRange junk_zl (fun _ => 0) qo_list 3 4 with
  | Some (q, _) => quicklistCount q = 6 /\ qo_counts q = [(1, Some 3); (5, Some 5)]
  | None => False
  end.
Proof. vm_compute. split; reflexivity. Qed.

(** From the end the same range is deleted as a whole. *)
Example delrange_from_end :
  match quicklistDelRange junk_zl (fun _ => 0) qo_list (-7) 4 with
  | Some (q, _) => quicklistCount q = 6 /\ qo_counts q = [(3, Some 3); (3, Some 3)]
  | None => False
  end.
Proof. vm_compute. split; reflexivity. Qed.

(** The largest fill factor wraps to a negative one, and the largest depth to none. *)
Example options_wrap : q_fill (quicklistNew 40000 70000) = -32768 /\ q_compress (quicklistNew 40000 70000) = 0.
Proof. split; reflexivity. Qed.
