(* ===== verification/TList.v ===== *)
(** * List objects (src/redis-5.0.7/src/t_list.c)

    A list is a quicklist.  The functions of the type and the handlers of the commands that
    do not block are translated over a key space: a finite map from keys to quicklists, where
    [VOther] stands for a value of another type.  A handler returns the key space,
    the replies as answers of [Reply], the changes counted in [server.dirty], the keys
    signalled as modified and the events.  A quicklist is a shared object: what a handler does
    to it is stored under its key at once, so that RPOPLPUSH on one key pushes to the list it
    popped from.  The options of the configuration are section variables.  Waking up
    clients that wait for a list is left out, as are the blocking commands.

    The handlers are specified against lists of byte strings ([lspec]), for the compression
    depth 0 of the default configuration and any fill factor. *)

From S2P Require Import Prelude Endian Util Sds Lzf Listpack Reply Stream ZiplistDefs Ziplist ZiplistOps QuicklistDefs Quicklist QuicklistOps.
From stdpp Require Import gmap strings.
Local Open Scope Z_scope.

Definition LIST_HEAD : Z := 0.
Definition LIST_TAIL : Z := 1.

Inductive listval := VList (q : quicklist) | VOther.
Abbreviation keyspace := (gmap (list byte) listval).

Record loutcome := mkLOut {
  lo_db : keyspace;
  lo_replies : list answer;
  lo_dirty : Z;
  lo_signalled : list (list byte);
  lo_events : list (string * list byte)
}.

(** A handler that only replies. *)
Definition lreads (db : keyspace) (replies : list answer) : option loutcome := Some (mkLOut db replies 0 [] []).

Definition l_wrongtypeerr : answer :=
  Raw (OSds (bytes_of "-WRONGTYPE Operation against a key holding the wrong kind of value" ++ CRLF)).
Definition l_ok : answer := Raw (OSds (bytes_of "+OK" ++ CRLF)).
Definition l_syntaxerr : answer := Raw (OSds (bytes_of "-ERR syntax error" ++ CRLF)).
Definition l_nokeyerr : answer := Raw (OSds (bytes_of "-ERR no such key" ++ CRLF)).
Definition l_outofrangeerr : answer := Raw (OSds (bytes_of "-ERR index out of range" ++ CRLF)).
Definition l_emptymultibulk : answer := Raw (OSds (bytes_of "*0" ++ CRLF)).
Definition l_cnegone : answer := Raw (OSds (bytes_of ":-1" ++ CRLF)).
Definition l_nullbulk : answer := Raw shared_nullbulk.
Definition l_czero : answer := Raw shared_czero.
Definition l_notinteger : answer := Error (bytes_of "value is not an integer or out of range").

Section tlist.
Context `{HH : Host} (junk : nat -> byte) (uninit : Z -> Z).
Context (list_max_ziplist_size list_compress_depth : Z).        (* server.list_* *)

(** ** The list type *)

Definition listTypePush (q : quicklist) (value : robj) (where_ : Z) : option quicklist :=
  let pos := if where_ =? LIST_HEAD then QUICKLIST_HEAD else QUICKLIST_TAIL in
  quicklistPush junk uninit q (robj_bytes value) pos.

Definition listTypePop (q : quicklist) (where_ : Z) : option (quicklist * option robj) :=
  let ql_where := if where_ =? LIST_HEAD then QUICKLIST_HEAD else QUICKLIST_TAIL in
  r ← quicklistPopCustom junk uninit q ql_where;
  Some (r.1, option_map (fun p => match p with PopData d => OSds d | PopInt n => OInt n end) r.2).

Definition listTypeLength (q : quicklist) : Z := quicklistCount q.

(** LIST_HEAD moves towards the head.  The iterator is [None] when the index is out of range. *)
Definition listTypeInitIterator (q : quicklist) (index direction : Z) : option (quicklist * option quicklistIter) :=
  let iter_direction := if direction =? LIST_HEAD then AL_START_TAIL else AL_START_HEAD in
  quicklistGetIteratorAtIdx junk q iter_direction index.

Definition listTypeNext (q : quicklist) (li : option quicklistIter) : option (quicklist * option quicklistIter * option quicklistEntry) :=
  match li with
  | None => Some (q, None, None)
  | Some it => r ← quicklistNext junk uninit q it; let '(q, it, e) := r in Some (q, Some it, e)
  end.

(** The fields [value] and [longval] of an entry. *)
Definition entry_robj (q : quicklist) (e : quicklistEntry) : option robj :=
  i ← en_node e; n ← q_nodes q !! i; v ← en_value e;
  match v with
  | ZlStr p len => s ← load (n_zl n) p len; Some (OSds s)
  | ZlInt longval => Some (OInt longval)
  end.

Definition listTypeGet (q : quicklist) (e : quicklistEntry) : option robj := entry_robj q e.

Definition listTypeInsert (q : quicklist) (e : quicklistEntry) (value : robj) (where_ : Z) : option quicklist :=
  if where_ =? LIST_TAIL then quicklistInsertAfter junk uninit q e (robj_bytes value)
  else if where_ =? LIST_HEAD then quicklistInsertBefore junk uninit q e (robj_bytes value)
  else Some q.

Definition listTypeEqual (q : quicklist) (e : quicklistEntry) (o : list byte) : option bool :=
  i ← en_node e; n ← q_nodes q !! i; zi ← en_zi e;
  quicklistCompare (n_zl n) zi o.

Definition listTypeDelete (q : quicklist) (li : option quicklistIter) (e : quicklistEntry) : option (quicklist * option quicklistIter) :=
  it ← li;
  r ← quicklistDelEntry junk uninit q it e;
  Some (r.1, Some r.2).

(** A list that is a single ziplist, in an old dump. *)
Definition listTypeConvert (zl : list byte) : option quicklist :=
  quicklistCreateFromZiplist junk uninit list_max_ziplist_size list_compress_depth zl.

(** ** Commands *)

Definition createQuicklistObject : quicklist := quicklistCreate.

(** The new object of pushGenericCommand() and rpoplpushHandlePush(). *)
Definition new_list : quicklist := quicklistSetOptions createQuicklistObject list_max_ziplist_size list_compress_depth.

(** lookupKeyReadOrReply() or lookupKeyWriteOrReply(), then checkType(). *)
Definition lookup_list (db : keyspace) (key : list byte) (missing : answer) : quicklist + answer :=
  match db !! key with None => inr missing | Some (VList q) => inl q | Some VOther => inr l_wrongtypeerr end.

(** [for (j = 2; j < c->argc; j++)] *)
Fixpoint push_loop (q : quicklist) (args : list (list byte)) (where_ : Z) : option quicklist :=
  match args with
  | [] => Some q
  | v :: args => q ← listTypePush q (OSds v) where_; push_loop q args where_
  end.

Definition push_event (where_ : Z) : string := if where_ =? LIST_HEAD then "lpush" else "rpush".
Definition pop_event (where_ : Z) : string := if where_ =? LIST_HEAD then "lpop" else "rpop".

(** What is told after [pushed] values were added to the list at [key]. *)
Definition pushed_outcome (db : keyspace) (key : list byte) (len pushed where_ : Z) : option loutcome :=
  Some (mkLOut db [Integer len] pushed (if pushed =? 0 then [] else [key]) (if pushed =? 0 then [] else [(push_event where_, key)])).

Definition pushGenericCommand (db : keyspace) (argv : list (list byte)) (where_ : Z) : option loutcome :=
  key ← argv !! 1%nat;
  let args := drop 2 argv in
  let pushed := Z.of_nat (length args) in
  match db !! key with
  | Some VOther => lreads db [l_wrongtypeerr]
  | Some (VList q) =>
      q ← push_loop q args where_;
      pushed_outcome (<[key := VList q]> db) key (listTypeLength q) pushed where_
  | None =>
      match args with
      | [] => pushed_outcome db key 0 0 where_
      | _ =>
          q ← push_loop new_list args where_;
          pushed_outcome (<[key := VList q]> db) key (listTypeLength q) pushed where_
      end
  end.

Definition lpushCommand (db : keyspace) (argv : list (list byte)) : option loutcome := pushGenericCommand db argv LIST_HEAD.
Definition rpushCommand (db : keyspace) (argv : list (list byte)) : option loutcome := pushGenericCommand db argv LIST_TAIL.

Definition pushxGenericCommand (db : keyspace) (argv : list (list byte)) (where_ : Z) : option loutcome :=
  key ← argv !! 1%nat;
  match lookup_list db key l_czero with
  | inr reply => lreads db [reply]
  | inl q =>
      q ← push_loop q (drop 2 argv) where_;
      pushed_outcome (<[key := VList q]> db) key (listTypeLength q) (Z.of_nat (length (drop 2 argv))) where_
  end.

Definition lpushxCommand (db : keyspace) (argv : list (list byte)) : option loutcome := pushxGenericCommand db argv LIST_HEAD.
Definition rpushxCommand (db : keyspace) (argv : list (list byte)) : option loutcome := pushxGenericCommand db argv LIST_TAIL.

(** The [while] loop of LINSERT; returns the list and [inserted]. *)
Fixpoint linsert_loop (fuel : nat) (q : quicklist) (iter : option quicklistIter) (pivot value : list byte) (where_ : Z) : option (quicklist * bool) :=
  match fuel with
  | O => None
  | S fuel =>
      r ← listTypeNext q iter;
      let '(q, iter, entry) := r in
      match entry with
      | None => Some (q, false)
      | Some entry =>
          eq ← listTypeEqual q entry pivot;
          if (eq : bool) then q ← listTypeInsert q entry (OSds value) where_; Some (q, true)
          else linsert_loop fuel q iter pivot value where_
      end
  end.

Definition linsertCommand (db : keyspace) (argv : list (list byte)) : option loutcome :=
  key ← argv !! 1%nat; place ← argv !! 2%nat; pivot ← argv !! 3%nat; value ← argv !! 4%nat;
  match (if strcaseeq place (bytes_of "after") then Some LIST_TAIL
         else if strcaseeq place (bytes_of "before") then Some LIST_HEAD else None) with
  | None => lreads db [l_syntaxerr]
  | Some where_ =>
      match lookup_list db key l_czero with
      | inr reply => lreads db [reply]
      | inl q =>
          r ← listTypeInitIterator q 0 LIST_TAIL;
          let '(q, iter) := r in
          r ← linsert_loop (S (Z.to_nat (listTypeLength q))) q iter pivot value where_;
          let '(q, inserted) := r in
          let db := <[key := VList q]> db in
          if (inserted : bool) then Some (mkLOut db [Integer (listTypeLength q)] 1 [key] [("linsert"%string, key)])
          else lreads db [l_cnegone]
      end
  end.

Definition llenCommand (db : keyspace) (argv : list (list byte)) : option loutcome :=
  key ← argv !! 1%nat;
  match lookup_list db key l_czero with
  | inr reply => lreads db [reply]
  | inl q => lreads db [Integer (listTypeLength q)]
  end.

Definition lindexCommand (db : keyspace) (argv : list (list byte)) : option loutcome :=
  key ← argv !! 1%nat; arg ← argv !! 2%nat;
  match lookup_list db key l_nullbulk with
  | inr reply => lreads db [reply]
  | inl q =>
      match string2ll arg with
      | None => lreads db [l_notinteger]
      | Some index =>
          r ← quicklistIndex junk q index;
          let '(q, entry) := r in
          let db := <[key := VList q]> db in
          match entry with
          | Some entry => value ← entry_robj q entry; lreads db [Bulk value]
          | None => lreads db [l_nullbulk]
          end
      end
  end.

Definition lsetCommand (db : keyspace) (argv : list (list byte)) : option loutcome :=
  key ← argv !! 1%nat; arg ← argv !! 2%nat; value ← argv !! 3%nat;
  match lookup_list db key l_nokeyerr with
  | inr reply => lreads db [reply]
  | inl q =>
      match string2ll arg with
      | None => lreads db [l_notinteger]
      | Some index =>
          r ← quicklistReplaceAtIndex junk uninit q index value;
          let '(q, replaced) := r in
          let db := <[key := VList q]> db in
          if (replaced : bool) then Some (mkLOut db [l_ok] 1 [key] [("lset"%string, key)]) else lreads db [l_outofrangeerr]
      end
  end.

(** The key is deleted when its list is empty; the events are those of the deletion. *)
Definition drop_empty (db : keyspace) (key : list byte) (q : quicklist) : keyspace * list (string * list byte) :=
  if listTypeLength q =? 0 then (delete key db, [("del"%string, key)]) else (db, []).

Definition popGenericCommand (db : keyspace) (argv : list (list byte)) (where_ : Z) : option loutcome :=
  key ← argv !! 1%nat;
  match lookup_list db key l_nullbulk with
  | inr reply => lreads db [reply]
  | inl q =>
      r ← listTypePop q where_;
      let '(q, value) := r in
      let db := <[key := VList q]> db in
      match value with
      | None => lreads db [l_nullbulk]
      | Some value =>
          let d := drop_empty db key q in
          Some (mkLOut d.1 [Bulk value] 1 [key] ((pop_event where_, key) :: d.2))
      end
  end.

Definition lpopCommand (db : keyspace) (argv : list (list byte)) : option loutcome := popGenericCommand db argv LIST_HEAD.
Definition rpopCommand (db : keyspace) (argv : list (list byte)) : option loutcome := popGenericCommand db argv LIST_TAIL.

(** [start] and [end] as LRANGE and LTRIM convert them. *)
Definition convert_range (start end_ llen : Z) : Z * Z :=
  let start := if start <? 0 then llen + start else start in
  let end_ := if end_ <? 0 then llen + end_ else end_ in
  (if start <? 0 then 0 else start, end_).

(** [while (rangelen--)]; the result of listTypeNext() is not looked at, and an entry that
    was not filled in has the value -123456789. *)
Fixpoint lrange_loop (rangelen : nat) (q : quicklist) (iter : option quicklistIter) : option (quicklist * list answer) :=
  match rangelen with
  | O => Some (q, [])
  | S rangelen =>
      r ← listTypeNext q iter;
      let '(q, iter, entry) := r in
      a ← (match entry with
           | None => Some (BulkInteger (-123456789))
           | Some entry => v ← entry_robj q entry; Some (match v with OSds s => BulkBuffer s | OInt n => BulkInteger n end)
           end);
      s ← lrange_loop rangelen q iter;
      Some (s.1, a :: s.2)
  end.

Definition lrangeCommand (db : keyspace) (argv : list (list byte)) : option loutcome :=
  key ← argv !! 1%nat; arg2 ← argv !! 2%nat; arg3 ← argv !! 3%nat;
  match string2ll arg2, string2ll arg3 with
  | Some start, Some end_ =>
      match lookup_list db key l_emptymultibulk with
      | inr reply => lreads db [reply]
      | inl q =>
          let llen := listTypeLength q in
          let '(start, end_) := convert_range start end_ llen in
          if (start >? end_) || (start >=? llen) then lreads db [l_emptymultibulk]
          else
            let end_ := if end_ >=? llen then llen - 1 else end_ in
            let rangelen := end_ - start + 1 in
            r ← listTypeInitIterator q start LIST_TAIL;
            s ← lrange_loop (Z.to_nat rangelen) r.1 r.2;
            lreads (<[key := VList s.1]> db) (MultiBulkLen rangelen :: s.2)
      end
  | _, _ => lreads db [l_notinteger]
  end.

Definition ltrimCommand (db : keyspace) (argv : list (list byte)) : option loutcome :=
  key ← argv !! 1%nat; arg2 ← argv !! 2%nat; arg3 ← argv !! 3%nat;
  match string2ll arg2, string2ll arg3 with
  | Some start, Some end_ =>
      match lookup_list db key l_ok with
      | inr reply => lreads db [reply]
      | inl q =>
          let llen := listTypeLength q in
          let '(start, end_) := convert_range start end_ llen in
          let '(ltrim, rtrim) :=
            if (start >? end_) || (start >=? llen) then (llen, 0)
            else let end_ := if end_ >=? llen then llen - 1 else end_ in (start, llen - end_ - 1) in
          r ← quicklistDelRange junk uninit q 0 ltrim;
          r ← quicklistDelRange junk uninit r.1 (- rtrim) rtrim;
          let d := drop_empty (<[key := VList r.1]> db) key r.1 in
          Some (mkLOut d.1 [l_ok] 1 [key] (("ltrim"%string, key) :: d.2))
      end
  | _, _ => lreads db [l_notinteger]
  end.

(** The [while] loop of LREM; returns the list and [removed]. *)
Fixpoint lrem_loop (fuel : nat) (q : quicklist) (li : option quicklistIter) (obj : list byte) (toremove removed : Z) : option (quicklist * Z) :=
  match fuel with
  | O => None
  | S fuel =>
      r ← listTypeNext q li;
      let '(q, li, entry) := r in
      match entry with
      | None => Some (q, removed)
      | Some entry =>
          eq ← listTypeEqual q entry obj;
          if (eq : bool) then
            r ← listTypeDelete q li entry;
            let removed := removed + 1 in
            if negb (toremove =? 0) && (removed =? toremove) then Some (r.1, removed)
            else lrem_loop fuel r.1 r.2 obj toremove removed
          else lrem_loop fuel q li obj toremove removed
      end
  end.

(** [-toremove] of the smallest [long] overflows. *)
Definition lremCommand (db : keyspace) (argv : list (list byte)) : option loutcome :=
  key ← argv !! 1%nat; arg ← argv !! 2%nat; obj ← argv !! 3%nat;
  match string2ll arg with
  | None => lreads db [l_notinteger]
  | Some toremove =>
      match lookup_list db key l_czero with
      | inr reply => lreads db [reply]
      | inl q =>
          if toremove =? LLONG_MIN then None
          else
            r ← (if toremove <? 0 then listTypeInitIterator q (-1) LIST_HEAD else listTypeInitIterator q 0 LIST_TAIL);
            let '(q, li) := r in
            r ← lrem_loop (S (Z.to_nat (listTypeLength q))) q li obj (Z.abs toremove) 0;
            let '(q, removed) := r in
            let d := drop_empty (<[key := VList q]> db) key q in
            Some (mkLOut d.1 [Integer removed] removed (if removed =? 0 then [] else [key])
                    ((if removed =? 0 then [] else [("lrem"%string, key)]) ++ d.2))
      end
  end.

(** The list at [dstkey] is looked up in the key space as it is after the pop. *)
Definition rpoplpushHandlePush (db : keyspace) (dstkey : list byte) (value : robj) : option (keyspace * answer * (string * list byte)) :=
  let dst := match db !! dstkey with Some (VList q) => q | _ => new_list end in
  q ← listTypePush dst value LIST_HEAD;
  Some (<[dstkey := VList q]> db, Bulk value, ("lpush"%string, dstkey)).

Definition rpoplpushCommand (db : keyspace) (argv : list (list byte)) : option loutcome :=
  src ← argv !! 1%nat; dst ← argv !! 2%nat;
  match lookup_list db src l_nullbulk with
  | inr reply => lreads db [reply]
  | inl q =>
      if listTypeLength q =? 0 then lreads db [l_nullbulk]
      else
        match db !! dst with
        | Some VOther => lreads db [l_wrongtypeerr]
        | _ =>
            r ← listTypePop q LIST_TAIL;
            let '(q, value) := r in
            value ← value;
            r ← rpoplpushHandlePush (<[src := VList q]> db) dst value;
            let '(db, reply, ev) := r in
            sobj ← db !! src;
            match sobj with
            | VOther => None
            | VList sobj =>
                let d := drop_empty db src sobj in
                Some (mkLOut d.1 [reply] 1 [dst; src] (ev :: ("rpop"%string, src) :: d.2))
            end
        end
  end.

(** ** Sequences of commands *)

Inductive lcmd :=
  | PUSH (head onlyx : bool) (key : list byte) (vs : list (list byte))      (* LPUSH, RPUSH, LPUSHX, RPUSHX *)
  | POP (head : bool) (key : list byte)
  | LINSERT (key place pivot v : list byte)
  | LLEN (key : list byte)
  | LINDEX (key index : list byte)
  | LSET (key index v : list byte)
  | LRANGE (key start stop : list byte)
  | LTRIM (key start stop : list byte)
  | LREM (key count v : list byte)
  | RPOPLPUSH (src dst : list byte).

Definition lexec (db : keyspace) (c : lcmd) : option loutcome :=
  match c with
  | PUSH true false k vs => lpushCommand db (bytes_of "lpush" :: k :: vs)
  | PUSH false false k vs => rpushCommand db (bytes_of "rpush" :: k :: vs)
  | PUSH true true k vs => lpushxCommand db (bytes_of "lpushx" :: k :: vs)
  | PUSH false true k vs => rpushxCommand db (bytes_of "rpushx" :: k :: vs)
  | POP true k => lpopCommand db [bytes_of "lpop"; k]
  | POP false k => rpopCommand db [bytes_of "rpop"; k]
  | LINSERT k p x v => linsertCommand db [bytes_of "linsert"; k; p; x; v]
  | LLEN k => llenCommand db [bytes_of "llen"; k]
  | LINDEX k i => lindexCommand db [bytes_of "lindex"; k; i]
  | LSET k i v => lsetCommand db [bytes_of "lset"; k; i; v]
  | LRANGE k s e => lrangeCommand db [bytes_of "lrange"; k; s; e]
  | LTRIM k s e => ltrimCommand db [bytes_of "ltrim"; k; s; e]
  | LREM k n v => lremCommand db [bytes_of "lrem"; k; n; v]
  | RPOPLPUSH s d => rpoplpushCommand db [bytes_of "rpoplpush"; s; d]
  end.

(** What a client and the rest of the server see of a command. *)
Record lobserved := mkLObs { lob_wire : list byte; lob_dirty : Z; lob_signalled : list (list byte); lob_events : list (string * list byte) }.
Definition lwire (l : list answer) : list byte := concat (map Reply.encode l).
Definition lobserve (r : loutcome) : lobserved := mkLObs (lwire (lo_replies r)) (lo_dirty r) (lo_signalled r) (lo_events r).

Fixpoint lexecs (db : keyspace) (cs : list lcmd) : option (keyspace * list lobserved) :=
  match cs with
  | [] => Some (db, [])
  | c :: cs =>
      r ← lexec db c;
      s ← lexecs (lo_db r) cs;
      Some (s.1, lobserve r :: s.2)
  end.

(** ** The abstract commands *)

Inductive aval := AList (l : list (list byte)) | AOther.
Abbreviation akeys := (gmap (list byte) aval).
Implicit Types a : akeys.

Definition lsays (l : list answer) : lobserved := mkLObs (lwire l) 0 [] [].

(** A key exists while its list is not empty. *)
Definition put a (k : list byte) (l : list (list byte)) : akeys := match l with [] => delete k a | _ => <[k := AList l]> a end.
Definition del_event (k : list byte) (l : list (list byte)) : list (string * list byte) := match l with [] => [("del"%string, k)] | _ => [] end.

(** The command on the list at a key, if it is one; what is said when there is none. *)
Definition with_list a (k : list byte) (missing : answer) (f : list (list byte) -> akeys * lobserved) : akeys * lobserved :=
  match a !! k with None => (a, lsays [missing]) | Some AOther => (a, lsays [l_wrongtypeerr]) | Some (AList l) => f l end.

Definition push_all (head : bool) (l vs : list (list byte)) : list (list byte) := if head then rev vs ++ l else l ++ vs.
Definition where_of (head : bool) : Z := if head then LIST_HEAD else LIST_TAIL.

Definition pushed_spec a (k : list byte) (head : bool) (l vs : list (list byte)) : akeys * lobserved :=
  (put a k (push_all head l vs),
   mkLObs (lwire [Integer (Z.of_nat (length l + length vs))]) (Z.of_nat (length vs))
     (if bool_decide (vs = []) then [] else [k]) (if bool_decide (vs = []) then [] else [(push_event (where_of head), k)])).

Definition pop_list (front : bool) (l : list (list byte)) : list (list byte) * option (list byte) := if front then (tail l, head l) else (removelast l, last l).

(** [v] next to the first element equal to [p]. *)
Fixpoint insert_beside (after : bool) (p v : list byte) (l : list (list byte)) : option (list (list byte)) :=
  match l with
  | [] => None
  | e :: l => if bool_decide (e = p) then Some (beside after e v ++ l) else cons e <$> insert_beside after p v l
  end.

(** The elements from [s] to [e], both included. *)
Definition slice (s e : Z) (l : list (list byte)) : list (list byte) :=
  let n := Z.of_nat (length l) in
  let s := Z.max 0 (if s <? 0 then n + s else s) in
  let e := if e <? 0 then n + e else e in
  take (Z.to_nat (e - s + 1)) (drop (Z.to_nat s) l).

(** The first elements equal to [v] are removed, all of them when there is no limit. *)
Fixpoint remove_up_to (limit : option nat) (v : list byte) (l : list (list byte)) : list (list byte) :=
  match l, limit with
  | [], _ => []
  | _, Some O => l
  | e :: l, _ => if bool_decide (e = v) then remove_up_to (pred <$> limit) v l else e :: remove_up_to limit v l
  end.

Definition remove_spec (count : Z) (v : list byte) (l : list (list byte)) : list (list byte) :=
  let limit := if count =? 0 then None else Some (Z.to_nat (Z.abs count)) in
  if count <? 0 then rev (remove_up_to limit v (rev l)) else remove_up_to limit v l.

Definition lspec a (c : lcmd) : akeys * lobserved :=
  match c with
  | PUSH head onlyx k vs =>
      match a !! k with
      | Some AOther => (a, lsays [l_wrongtypeerr])
      | Some (AList l) => pushed_spec a k head l vs
      | None => if (onlyx : bool) then (a, lsays [l_czero]) else pushed_spec a k head [] vs
      end
  | POP head k => with_list a k l_nullbulk (fun l =>
      let r := pop_list head l in
      (put a k r.1, mkLObs (lwire [BulkString r.2]) 1 [k] ((pop_event (where_of head), k) :: del_event k r.1)))
  | LINSERT k place p v =>
      let after := strcaseeq place (bytes_of "after") in
      if negb (after || strcaseeq place (bytes_of "before")) then (a, lsays [l_syntaxerr])
      else with_list a k l_czero (fun l =>
        match insert_beside after p v l with
        | None => (a, lsays [Integer (-1)])
        | Some l' => (put a k l', mkLObs (lwire [Integer (Z.of_nat (length l'))]) 1 [k] [("linsert"%string, k)])
        end)
  | LLEN k => with_list a k l_czero (fun l => (a, lsays [Integer (Z.of_nat (length l))]))
  | LINDEX k i => with_list a k l_nullbulk (fun l =>
      match string2ll i with
      | None => (a, lsays [l_notinteger])
      | Some i => (a, lsays [BulkString (j ← index_of l i; l !! j)])
      end)
  | LSET k i v => with_list a k l_nokeyerr (fun l =>
      match string2ll i with
      | None => (a, lsays [l_notinteger])
      | Some i =>
          match index_of l i with
          | None => (a, lsays [l_outofrangeerr])
          | Some j => (put a k (<[j := v]> l), mkLObs (lwire [l_ok]) 1 [k] [("lset"%string, k)])
          end
      end)
  | LRANGE k s e =>
      match string2ll s, string2ll e with
      | Some s, Some e => with_list a k l_emptymultibulk (fun l =>
          (a, lsays (MultiBulkLen (Z.of_nat (length (slice s e l))) :: map BulkBuffer (slice s e l))))
      | _, _ => (a, lsays [l_notinteger])
      end
  | LTRIM k s e =>
      match string2ll s, string2ll e with
      | Some s, Some e => with_list a k l_ok (fun l =>
          (put a k (slice s e l), mkLObs (lwire [l_ok]) 1 [k] (("ltrim"%string, k) :: del_event k (slice s e l))))
      | _, _ => (a, lsays [l_notinteger])
      end
  | LREM k n v =>
      match string2ll n with
      | None => (a, lsays [l_notinteger])
      | Some n => with_list a k l_czero (fun l =>
          let l' := remove_spec n v l in
          let removed := Z.of_nat (length l) - Z.of_nat (length l') in
          (put a k l', mkLObs (lwire [Integer removed]) removed (if removed =? 0 then [] else [k])
             ((if removed =? 0 then [] else [("lrem"%string, k)]) ++ del_event k l')))
      end
  | RPOPLPUSH s d => with_list a s l_nullbulk (fun l =>
      match a !! d, last l with
      | Some AOther, _ => (a, lsays [l_wrongtypeerr])
      | _, None => (a, lsays [l_nullbulk])
      | dv, Some v =>
          let rest := removelast l in
          let same := bool_decide (s = d) in
          let dl := if same then rest else match dv with Some (AList dl) => dl | _ => [] end in
          let left := if same then v :: rest else rest in
          (<[d := AList (v :: dl)]> (put a s left),
           mkLObs (lwire [BulkBuffer v]) 1 [d; s] (("lpush"%string, d) :: ("rpop"%string, s) :: del_event s left))
      end)
  end.

Fixpoint lspecs a (cs : list lcmd) : akeys * list lobserved :=
  match cs with
  | [] => (a, [])
  | c :: cs => let r := lspec a c in let s := lspecs r.1 cs in (s.1, r.2 :: s.2)
  end.

(** The smallest number of 64 bits cannot be negated. *)
Definition lcmd_ok (c : lcmd) : Prop :=
  match c with LINDEX _ i | LSET _ i _ | LREM _ i _ => string2ll i <> Some LLONG_MIN | _ => True end.

(** The bytes that a command adds to a list, and the room for them. *)
Definition vals_cost (vs : list (list byte)) : Z := Z.of_nat (sum_list_with (fun v => 18 + length v)%nat vs).
Definition lcost a (c : lcmd) : Z :=
  match c with
  | PUSH _ _ _ vs => vals_cost vs
  | LINSERT _ _ _ v | LSET _ _ v => vals_cost [v]
  | RPOPLPUSH s _ => match a !! s with Some (AList l) => vals_cost (default [] (last l) :: []) | _ => 0 end
  | _ => 0
  end.
Definition lroom a (c : lcmd) : Prop :=
  11 + lcost a c < ql_max /\ map_Forall (fun _ w => match w with AList l => zbound l + lcost a c < ql_max | AOther => True end) a.
Fixpoint lfits a (cs : list lcmd) : Prop := match cs with [] => True | c :: cs => lroom a c /\ lfits (lspec a c).1 cs end.

#[global] Instance lroom_dec a c : Decision (lroom a c).
Proof. apply and_dec; [apply _|]. apply map_Forall_dec. intros k [l|]; apply _. Defined.
#[global] Instance lfits_dec cs : forall a, Decision (lfits a cs).
Proof. induction cs as [|c cs IH]; intros a; [by left|]. cbn [lfits]. apply and_dec; apply _. Defined.

(** ** The type refines lists *)

Hypothesis uncompressed : list_compress_depth = 0.
Implicit Types q : quicklist.
Implicit Types l rest seen : list (list byte).

Definition list_models q l : Prop := exists ess, ql_repr q ess /\ q_compress q = 0 /\ concat ess = l.

Lemma models_intro q q0 ess l : ql_repr q ess -> same_options q0 q -> q_compress q0 = 0 -> concat ess = l -> list_models q l.
Proof. intros Hq [_ Hc] H0 <-. exists ess. by rewrite Hc. Qed.

Lemma new_list_models : list_models new_list [].
Proof.
  exists []. split; [apply (qnew_repr list_max_ziplist_size list_compress_depth)|]. split; [|done].
  unfold new_list, quicklistSetOptions, quicklistSetCompressDepth. by rewrite uncompressed.
Qed.

Lemma lmodels_length q l : list_models q l -> listTypeLength q = Z.of_nat (length l).
Proof. intros (ess & Hq & _ & <-). unfold listTypeLength, quicklistCount. apply Hq. Qed.

Lemma models_bound q l : list_models q l -> zbound l < ql_max.
Proof. intros (ess & Hq & _ & <-). apply Hq. Qed.

Lemma where_end (front : bool) : (if where_of front =? LIST_HEAD then QUICKLIST_HEAD else QUICKLIST_TAIL) = if front then QUICKLIST_HEAD else QUICKLIST_TAIL.
Proof. by destruct front. Qed.

Lemma end_cases (front : bool) : let w := if front then QUICKLIST_HEAD else QUICKLIST_TAIL in w = QUICKLIST_HEAD \/ w = QUICKLIST_TAIL.
Proof. destruct front; [by left|by right]. Qed.

Lemma listTypePush_spec q l o front : list_models q l -> zbound l + 18 + Z.of_nat (length (robj_bytes o)) < ql_max ->
  exists q', listTypePush q o (where_of front) = Some q' /\ list_models q' (push_all front l [robj_bytes o]).
Proof.
  intros (ess & Hq & Hc & <-) Hb. unfold listTypePush. rewrite where_end.
  destruct (quicklistPush_spec junk uninit q ess (robj_bytes o) (if front then QUICKLIST_HEAD else QUICKLIST_TAIL) Hq) as (q' & ess' & -> & Hq' & Ho & E); [rewrite zbound_cons; lia|apply end_cases|].
  exists q'. split; [done|]. eapply models_intro; [done|done|done|]. rewrite E. by destruct front.
Qed.

Lemma push_all_cons front l v vs : push_all front (push_all front l [v]) vs = push_all front l (v :: vs).
Proof. destruct front; cbn; by rewrite <- app_assoc. Qed.

Lemma vals_cost_cons v vs : vals_cost (v :: vs) = 18 + Z.of_nat (length v) + vals_cost vs.
Proof. unfold vals_cost. cbn [sum_list_with]. lia. Qed.

Lemma zbound_push front l v : zbound (push_all front l [v]) = zbound l + 18 + Z.of_nat (length v).
Proof. destruct front; cbn [push_all rev app]; [by rewrite zbound_cons|by rewrite zbound_snoc]. Qed.

Lemma push_loop_spec front vs : forall q l, list_models q l -> zbound l + vals_cost vs < ql_max ->
  exists q', push_loop q vs (where_of front) = Some q' /\ list_models q' (push_all front l vs).
Proof.
  induction vs as [|v vs IH]; intros q l Hq Hb; cbn [push_loop]; [exists q; split; [done|]; destruct front; cbn; by rewrite ?app_nil_r|].
  rewrite vals_cost_cons in Hb. assert (0 <= vals_cost vs) by (unfold vals_cost; lia).
  destruct (listTypePush_spec q l (OSds v) front Hq) as (q1 & -> & Hq1); [cbn; lia|]. cbn [mbind option_bind robj_bytes] in *.
  destruct (IH q1 _ Hq1) as (q2 & -> & Hq2); [rewrite zbound_push; lia|]. exists q2. by rewrite push_all_cons in Hq2.
Qed.

Lemma length_push_all front l vs : length (push_all front l vs) = (length l + length vs)%nat.
Proof. destruct front; cbn; rewrite length_app, ?length_rev; lia. Qed.

Lemma listTypePop_spec q l front : list_models q l ->
  exists q' r, listTypePop q (where_of front) = Some (q', r) /\ list_models q' (pop_list front l).1 /\ robj_bytes <$> r = (pop_list front l).2.
Proof.
  intros (ess & Hq & Hc & <-). unfold listTypePop. rewrite where_end.
  destruct (quicklistPop_spec junk uninit q ess (if front then QUICKLIST_HEAD else QUICKLIST_TAIL) Hq (end_cases front)) as (q' & v & ess' & Hp & Hq' & Ho & E).
  assert (quicklistPopCustom junk uninit q (if front then QUICKLIST_HEAD else QUICKLIST_TAIL) = Some (q', v)) as ->.
  { unfold quicklistPop in Hp. destruct (q_count q =? 0) eqn:E0; [|done]. unfold quicklistPopCustom. by rewrite E0. }
  cbn [mbind option_bind fst snd]. eexists q', _. split; [done|]. split.
  - eapply models_intro; [done|done|done|]. destruct v as [p|]; [|destruct E as [-> ->]; by destruct front].
    destruct front; cbn in E; rewrite E; cbn; [done|by rewrite removelast_last].
  - destruct v as [p|]; [|destruct E as [-> _]; by destruct front]. cbn [option_map fmap option_fmap].
    assert (robj_bytes (match p with PopData d => OSds d | PopInt n => OInt n end) = pop_bytes p) as -> by (by destruct p).
    destruct front; cbn in E; rewrite E; cbn; [done|by rewrite last_snoc].
Qed.

(** *** Iterators *)

(** The list with what an iterator has passed and what is left. *)
Definition whole (fwd : bool) seen rest : list (list byte) := if fwd then seen ++ rest else rev rest ++ seen.

Record walks q l (fwd : bool) (li : option quicklistIter) rest : Prop := {
  wk_ess : exists ess, ql_repr q ess /\ q_compress q = 0 /\ concat ess = l /\ match li with None => rest = [] | Some it => next_from q ess fwd it rest end
}.

(** The iterator and the entry at the element [v]. *)
Definition stands q l (fwd : bool) (li : option quicklistIter) (e : quicklistEntry) (v : list byte) rest : Prop :=
  exists ess1 es ess2 n rsA r rsB val, let o := offset_of fwd (length rsA) (length rsB) in
    located q ess1 es ess2 n rsA r rsB /\ q_compress q = 0 /\ concat (ess1 ++ es :: ess2) = l /\ r.2 = v /\ rest = left_after fwd ess1 rsA.*2 rsB.*2 ess2 /\
    ziplistGet (n_zl n) (Some (zpos rsA)) = Some (Some val) /\
    li = Some (mkQIter (Some (length ess1)) (Some (zpos rsA)) o (dir_of fwd)) /\ e = mkEntry (Some (length ess1)) (Some (zpos rsA)) (Some val) o.

Lemma listTypeNext_spec q l fwd li rest : walks q l fwd li rest ->
  exists li' e, listTypeNext q li = Some (q, li', e) /\
    match rest with [] => e = None | v :: rest => exists en, e = Some en /\ stands q l fwd li' en v rest end.
Proof.
  intros [(ess & Hq & Hc & <- & Hli)]. unfold listTypeNext. destruct li as [it|]; [|subst rest; by eexists _, _].
  pose proof (quicklistNext_spec junk uninit q ess fwd it rest Hq Hc Hli) as Hy. destruct rest as [|v rest]; cbn [yields] in Hy.
  - destruct Hy as (it' & ->). cbn [mbind option_bind]. by eexists _, _.
  - destruct Hy as (ess1 & es & ess2 & n & rsA & r & rsB & val & -> & Hl & Hv & Hrest & Hg & ->). cbn [mbind option_bind]. eexists _, _. split; [done|].
    eexists. split; [done|]. exists ess1, es, ess2, n, rsA, r, rsB, val. by split_and!.
Qed.

Lemma stands_walks q l fwd li e v rest : stands q l fwd li e v rest -> walks q l fwd li rest.
Proof.
  intros (ess1 & es & ess2 & n & rsA & r & rsB & val & Hl & Hc & <- & _ & -> & _ & -> & _). split. eexists. split; [apply (lc_repr _ _ _ _ _ _ _ _ Hl)|].
  split; [done|]. split; [done|]. by eapply from_entry.
Qed.

Lemma stands_value q l fwd li e v rest : stands q l fwd li e v rest -> exists o, entry_robj q e = Some o /\ robj_bytes o = v.
Proof.
  intros (ess1 & es & ess2 & n & rsA & r & rsB & val & Hl & _ & _ & <- & _ & Hg & _ & ->). unfold entry_robj. cbn [en_node en_value mbind option_bind].
  pose proof Hl as [_ Hlk _ Hz _]. rewrite Hlk. cbn [mbind option_bind]. destruct (zvalue_repr _ _ _ _ Hz) as (val' & Hg' & Hv). rewrite Hg in Hg'. injection Hg' as <-.
  destruct val as [p len|x]; [destruct Hv as [-> _]; by eexists|]. destruct Hv as (_ & _ & ->). by eexists.
Qed.

Lemma listTypeEqual_spec q l fwd li e v rest s : stands q l fwd li e v rest -> listTypeEqual q e s = Some (bool_decide (v = s)).
Proof.
  intros (ess1 & es & ess2 & n & rsA & r & rsB & val & Hl & _ & _ & <- & _ & _ & _ & ->). unfold listTypeEqual. cbn [en_node en_zi mbind option_bind].
  pose proof Hl as [_ Hlk _ Hz _]. rewrite Hlk. cbn [mbind option_bind]. by apply (compare_repr _ rsA r rsB).
Qed.

Lemma located_concat q ess1 es ess2 n rsA r rsB : located q ess1 es ess2 n rsA r rsB ->
  concat (ess1 ++ es :: ess2) = (concat ess1 ++ rsA.*2) ++ r.2 :: rsB.*2 ++ concat ess2.
Proof. intros Hl. rewrite concat_mid, (lc_es _ _ _ _ _ _ _ _ Hl), <- !app_assoc. done. Qed.

(** What has been passed, as the place in the list tells it. *)
Lemma stands_seen fwd v rest seen ess1 A B ess2 : whole fwd seen (v :: rest) = (concat ess1 ++ A) ++ v :: B ++ concat ess2 -> rest = left_after fwd ess1 A B ess2 ->
  seen = if fwd then concat ess1 ++ A else B ++ concat ess2.
Proof.
  intros E ->. destruct fwd; cbn [whole left_after] in E.
  - by apply app_inv_tail in E.
  - cbn [rev] in E. rewrite rev_involutive, <- !app_assoc in E. apply app_inv_head in E. apply app_inv_head in E. by injection E.
Qed.

Lemma listTypeInsert_spec q l li e v rest seen x (after : bool) : stands q l true li e v rest -> l = whole true seen (v :: rest) -> zbound l + 18 + Z.of_nat (length x) < ql_max ->
  exists q', listTypeInsert q e (OSds x) (if after then LIST_TAIL else LIST_HEAD) = Some q' /\ list_models q' (seen ++ beside after v x ++ rest).
Proof.
  intros (ess1 & es & ess2 & n & rsA & r & rsB & val & Hl & Hc & El & <- & Hrest & _ & _ & ->) E Hb.
  destruct (quicklistInsert_spec junk uninit q ess1 es ess2 n rsA r rsB x (Some val) after Hl Hc) as (q' & ess' & Hi & Hq' & Ho & Hcc); [rewrite zbound_cons, El; lia|].
  exists q'. split; [destruct after; exact Hi|]. eapply models_intro; [done|done|done|]. rewrite Hcc.
  rewrite (located_concat _ _ _ _ _ _ _ _ Hl) in El. rewrite (stands_seen true r.2 rest seen ess1 rsA.*2 rsB.*2 ess2); [|by rewrite <- E|done].
  rewrite Hrest. cbn [left_after]. by rewrite <- !app_assoc.
Qed.

Lemma listTypeDelete_spec q l fwd li e v rest seen : stands q l fwd li e v rest -> l = whole fwd seen (v :: rest) ->
  exists q' li', listTypeDelete q li e = Some (q', li') /\ walks q' (whole fwd seen rest) fwd li' rest.
Proof.
  intros (ess1 & es & ess2 & n & rsA & r & rsB & val & Hl & Hc & El & <- & Hrest & _ & -> & ->) E. unfold listTypeDelete. cbn [mbind option_bind].
  destruct (quicklistDelEntry_spec junk uninit q ess1 es ess2 n rsA r rsB fwd (Some val) Hl) as (q' & it & -> & Hq' & Ho & Hn). cbn [mbind option_bind fst snd].
  eexists q', _. split; [done|]. split. eexists. split; [exact Hq'|]. split; [by rewrite (proj2 Ho)|]. split; [|by rewrite Hrest].
  rewrite concat_without. rewrite (located_concat _ _ _ _ _ _ _ _ Hl) in El. rewrite (stands_seen fwd r.2 rest seen ess1 rsA.*2 rsB.*2 ess2); [|by rewrite <- E|done].
  rewrite Hrest. destruct fwd; cbn [whole left_after]; rewrite ?rev_involutive, <- !app_assoc; done.
Qed.

Lemma walks_models q l fwd li rest : walks q l fwd li rest -> list_models q l.
Proof. intros [(ess & Hq & Hc & E & _)]. by exists ess. Qed.

Lemma init_forward q l k : list_models q l -> (k < length l)%nat ->
  exists li, listTypeInitIterator q (Z.of_nat k) LIST_TAIL = Some (q, li) /\ walks q l true li (drop k l).
Proof.
  intros (ess & Hq & Hc & <-) Hk. unfold listTypeInitIterator. change (LIST_TAIL =? LIST_HEAD) with false. cbv iota.
  pose proof (iterator_at_spec junk q ess true (Z.of_nat k) Hq Hc ltac:(limits; lia) ltac:(cbv iota; lia)) as Hi. rewrite index_nonneg in Hi.
  destruct (decide _); [|lia]. destruct Hi as (it & Hi & Hn). exists (Some it). split; [exact Hi|]. split. by exists ess.
Qed.

Lemma init_backward q l : list_models q l -> l <> [] ->
  exists li, listTypeInitIterator q (-1) LIST_HEAD = Some (q, li) /\ walks q l false li (rev l).
Proof.
  intros (ess & Hq & Hc & <-) Hne. unfold listTypeInitIterator. change (LIST_HEAD =? LIST_HEAD) with true. cbv iota.
  pose proof (iterator_at_spec junk q ess false (-1) Hq Hc ltac:(limits; lia) ltac:(cbv iota; lia)) as Hi.
  destruct (exists_last Hne) as (l' & v & E). rewrite E in *. rewrite (zindex_mid l' v [] (-1)) in Hi by (by right). destruct Hi as (it & Hi & Hn).
  exists (Some it). split; [exact Hi|]. split. exists ess. split; [done|]. split; [done|]. split; [done|].
  rewrite take_ge in Hn; [done|]. rewrite length_app. cbn. lia.
Qed.

(** *** Loops *)

Lemma linsert_loop_spec x p (after : bool) fuel : forall q l li rest seen, walks q l true li rest -> l = seen ++ rest -> (length rest < fuel)%nat ->
  zbound l + 18 + Z.of_nat (length x) < ql_max ->
  exists q' b, linsert_loop fuel q li p x (if after then LIST_TAIL else LIST_HEAD) = Some (q', b) /\
    match insert_beside after p x rest with None => b = false /\ list_models q' l | Some rest' => b = true /\ list_models q' (seen ++ rest') end.
Proof.
  induction fuel as [|fuel IH]; intros q l li rest seen Hw E Hf Hb; [lia|]. cbn [linsert_loop].
  destruct (listTypeNext_spec q l true li rest Hw) as (li' & e & -> & He). cbn [mbind option_bind].
  destruct rest as [|v rest]; [subst e; exists q, false; split; [done|]; split; [done|by eapply walks_models]|]. destruct He as (en & -> & Hst). cbn [mbind option_bind].
  rewrite (listTypeEqual_spec _ _ _ _ _ _ _ p Hst). cbn [mbind option_bind insert_beside]. case_bool_decide as Ev.
  - destruct (listTypeInsert_spec q l li' en v rest seen x after Hst E Hb) as (q' & -> & Hq'). cbn [mbind option_bind]. by exists q', true.
  - destruct (IH q l li' rest (seen ++ [v]) (stands_walks _ _ _ _ _ _ _ Hst)) as (q' & b & -> & Hq'); [by rewrite <- app_assoc|cbn in Hf; lia|done|].
    exists q', b. split; [done|]. destruct (insert_beside after p x rest); [|done]. cbn [fmap option_fmap option_map]. by rewrite <- app_assoc in Hq'.
Qed.

Lemma whole_snoc (fwd : bool) seen v rest : whole fwd (if fwd then seen ++ [v] else v :: seen) rest = whole fwd seen (v :: rest).
Proof. destruct fwd; cbn; by rewrite <- app_assoc. Qed.

Definition limit_of (T R : Z) : option nat := if T =? 0 then None else Some (Z.to_nat (T - R)).

Lemma lrem_loop_spec x (fwd : bool) T fuel : forall q l li rest seen R, walks q l fwd li rest -> l = whole fwd seen rest -> (length rest < fuel)%nat ->
  (T = 0 \/ R < T) ->
  exists q', lrem_loop fuel q li x T R = Some (q', R + (Z.of_nat (length rest) - Z.of_nat (length (remove_up_to (limit_of T R) x rest)))) /\
    list_models q' (whole fwd seen (remove_up_to (limit_of T R) x rest)).
Proof.
  induction fuel as [|fuel IH]; intros q l li rest seen R Hw E Hf HT; [lia|]. cbn [lrem_loop].
  destruct (listTypeNext_spec q l fwd li rest Hw) as (li' & e & -> & He). cbn [mbind option_bind].
  destruct rest as [|v rest]; [subst e; exists q; cbn [remove_up_to length]; split; [do 2 f_equal; lia|rewrite <- E; by eapply walks_models]|].
  destruct He as (en & -> & Hst). cbn [mbind option_bind]. rewrite (listTypeEqual_spec _ _ _ _ _ _ _ x Hst). cbn [mbind option_bind].
  assert (exists k, (limit_of T R = None /\ T = 0 \/ limit_of T R = Some (S k) /\ T <> 0 /\ T - R = Z.of_nat (S k))) as (k & Hk).
  { unfold limit_of. destruct (T =? 0) eqn:E0; zbool; [exists O; by left|]. exists (Z.to_nat (T - R) - 1)%nat. right. split; [f_equal; lia|]. lia. }
  assert (remove_up_to (limit_of T R) x (v :: rest) = if bool_decide (v = x) then remove_up_to (pred <$> limit_of T R) x rest else v :: remove_up_to (limit_of T R) x rest) as ->.
  { destruct Hk as [[-> _]|[-> _]]; done. }
  case_bool_decide as Ev.
  - destruct (listTypeDelete_spec q l fwd li' en v rest seen Hst E) as (q1 & li1 & -> & Hw1). cbn [mbind option_bind fst snd].
    destruct Hk as [[El ->]|(El & HT0 & Hk)]; rewrite El; cbn [fmap option_fmap option_map pred].
    + change (0 =? 0) with true. cbn [negb andb]. destruct (IH q1 _ li1 rest seen (R + 1) Hw1 eq_refl) as (q2 & -> & Hq2); [cbn in Hf; lia|by left|].
      change (limit_of 0 (R + 1)) with (@None nat) in *. exists q2. split; [|done]. cbn [length]. do 2 f_equal. lia.
    + rewrite (proj2 (Z.eqb_neq T 0)) by done. cbn [negb andb]. destruct (R + 1 =? T) eqn:E1; zbool.
      * assert (k = 0)%nat as -> by lia. assert (remove_up_to (Some 0%nat) x rest = rest) as -> by (by destruct rest).
        exists q1. split; [cbn [length]; do 2 f_equal; lia|by eapply walks_models].
      * destruct (IH q1 _ li1 rest seen (R + 1) Hw1 eq_refl) as (q2 & -> & Hq2); [cbn in Hf; lia|right; lia|].
        assert (limit_of T (R + 1) = Some k) as El' by (unfold limit_of; rewrite (proj2 (Z.eqb_neq T 0)) by done; f_equal; lia). rewrite El' in *.
        exists q2. split; [|done]. cbn [length]. do 2 f_equal. lia.
  - destruct (IH q l li' rest (if fwd then seen ++ [v] else v :: seen) R (stands_walks _ _ _ _ _ _ _ Hst)) as (q2 & -> & Hq2); [by rewrite whole_snoc|cbn in Hf; lia|done|].
    exists q2. rewrite whole_snoc in Hq2. split; [|done]. cbn [length]. do 2 f_equal. lia.
Qed.

Lemma lwire_cons x y : lwire (x :: y) = Reply.encode x ++ lwire y.
Proof. done. Qed.

Lemma lrange_loop_spec n : forall q l li rest, walks q l true li rest -> (n <= length rest)%nat ->
  exists s, lrange_loop n q li = Some (q, s) /\ lwire s = lwire (map BulkBuffer (take n rest)).
Proof.
  induction n as [|n IH]; intros q l li rest Hw Hn; cbn [lrange_loop]; [by exists []|].
  destruct (listTypeNext_spec q l true li rest Hw) as (li' & e & -> & He). cbn [mbind option_bind]. destruct rest as [|v rest]; [cbn in Hn; lia|].
  destruct He as (en & -> & Hst). destruct (stands_value _ _ _ _ _ _ _ Hst) as (o & -> & Ho). cbn [mbind option_bind].
  destruct (IH q l li' rest (stands_walks _ _ _ _ _ _ _ Hst)) as (s & -> & Hs); [cbn in Hn; lia|]. cbn [mbind option_bind fst snd].
  eexists. split; [done|]. cbn [take map]. rewrite !lwire_cons, Hs. f_equal. rewrite <- Ho. by destruct o.
Qed.

(** ** The commands refine their specifications *)

Definition val_models (v : listval) (w : aval) : Prop :=
  match v, w with VList q, AList l => l <> [] /\ list_models q l | VOther, AOther => True | _, _ => False end.

Definition db_models (db : keyspace) a : Prop := forall k, option_Forall2 val_models (db !! k) (a !! k).

(** A handler does what an abstract command says. *)
Definition agrees (x : option loutcome) (s : akeys * lobserved) : Prop :=
  exists r, x = Some r /\ lobserve r = s.2 /\ db_models (lo_db r) s.1.

Lemma lookup_cases db a k : db_models db a ->
  (db !! k = None /\ a !! k = None) \/ (db !! k = Some VOther /\ a !! k = Some AOther) \/
  (exists q l, db !! k = Some (VList q) /\ a !! k = Some (AList l) /\ l <> [] /\ list_models q l).
Proof.
  intros Hd. specialize (Hd k). inversion Hd as [v w Hvw E1 E2|E1 E2]; [|by left]. right.
  destruct v as [q|], w as [l|]; try done; [right|by left]. destruct Hvw. by exists q, l.
Qed.

Lemma lmodels_insert db a k q l : db_models db a -> list_models q l -> l <> [] -> db_models (<[k := VList q]> db) (<[k := AList l]> a).
Proof. intros Hd Hq Hl k'. destruct (decide (k = k')) as [<-|Hk]; [rewrite !lookup_insert_eq; by constructor|rewrite !lookup_insert_ne by done; apply Hd]. Qed.

Lemma lmodels_delete db a k : db_models db a -> db_models (delete k db) (delete k a).
Proof. intros Hd k'. destruct (decide (k = k')) as [<-|Hk]; [rewrite !lookup_delete_eq; constructor|rewrite !lookup_delete_ne by done; apply Hd]. Qed.

Lemma put_nonempty a k l : l <> [] -> put a k l = <[k := AList l]> a.
Proof. by destruct l. Qed.

Lemma models_put db a k q l : db_models db a -> list_models q l -> l <> [] -> db_models (<[k := VList q]> db) (put a k l).
Proof. intros. rewrite put_nonempty by done. by apply lmodels_insert. Qed.

Lemma models_same db a k q l : db_models db a -> a !! k = Some (AList l) -> l <> [] -> list_models q l -> db_models (<[k := VList q]> db) a.
Proof. intros Hd Ha Hl Hq. rewrite <- (insert_id a k (AList l) Ha). by apply lmodels_insert. Qed.

Lemma drop_empty_spec db a k q l : db_models db a -> list_models q l ->
  db_models (drop_empty (<[k := VList q]> db) k q).1 (put a k l) /\ (drop_empty (<[k := VList q]> db) k q).2 = del_event k l.
Proof.
  intros Hd Hq. unfold drop_empty. rewrite (lmodels_length q l Hq). destruct l as [|v l].
  - cbn [length]. change (Z.of_nat 0 =? 0) with true. cbv iota. cbn [fst snd put del_event]. split; [|done]. rewrite delete_insert_eq. by apply lmodels_delete.
  - rewrite (proj2 (Z.eqb_neq (Z.of_nat (length (v :: l))) 0)) by (cbn [length]; lia). cbn [fst snd]. split; [|done]. by apply models_put.
Qed.

Lemma agrees_reads db a (x y : list answer) : db_models db a -> lwire x = lwire y -> agrees (lreads db x) (a, lsays y).
Proof. intros Hd Hl. eexists. split; [done|]. split; [|done]. unfold lobserve, lsays. cbn [lo_replies lo_dirty lo_signalled lo_events snd]. by rewrite Hl. Qed.

(** The look-up of a list that many handlers start with. *)
Lemma with_list_spec db a k missing g f : db_models db a ->
  (forall q l, db !! k = Some (VList q) -> a !! k = Some (AList l) -> l <> [] -> list_models q l -> agrees (g q) (f l)) ->
  agrees (match lookup_list db k missing with inr reply => lreads db [reply] | inl q => g q end) (with_list a k missing f).
Proof.
  intros Hd Hg. unfold lookup_list, with_list. destruct (lookup_cases db a k Hd) as [[-> ->]|[[-> ->]|(q & l & Eq & El & Hl & Hq)]].
  - by apply agrees_reads.
  - by apply agrees_reads.
  - rewrite Eq, El. by apply Hg.
Qed.

Lemma room_list a c k l : lroom a c -> a !! k = Some (AList l) -> zbound l + lcost a c < ql_max.
Proof. intros [_ Hr] Ha. exact (Hr k (AList l) Ha). Qed.

Lemma pushed_agrees db a k front q l vs : db_models db a -> list_models q (push_all front l vs) -> l <> [] \/ vs <> [] ->
  agrees (pushed_outcome (<[k := VList q]> db) k (listTypeLength q) (Z.of_nat (length vs)) (where_of front)) (pushed_spec a k front l vs).
Proof.
  intros Hd Hq Hne. eexists. split; [done|]. assert ((Z.of_nat (length vs) =? 0) = bool_decide (vs = [])) as E.
  { destruct vs; [done|]. rewrite bool_decide_eq_false_2 by done. apply Z.eqb_neq. cbn [length]. lia. }
  unfold lobserve, pushed_spec. cbn [lo_replies lo_dirty lo_signalled lo_events lo_db fst snd]. rewrite E, (lmodels_length q _ Hq), length_push_all. split; [done|].
  apply models_put; [done|done|]. intros Hx. apply (f_equal length) in Hx. rewrite length_push_all in Hx. destruct l, vs; try done. by destruct Hne.
Qed.

Lemma push_spec db a front onlyx k vs : db_models db a -> lroom a (PUSH front onlyx k vs) -> agrees (lexec db (PUSH front onlyx k vs)) (lspec a (PUSH front onlyx k vs)).
Proof.
  intros Hd Hr. cbn [lspec]. destruct onlyx.
  - replace (lexec db (PUSH front true k vs)) with (pushxGenericCommand db ((if front then bytes_of "lpushx" else bytes_of "rpushx") :: k :: vs) (where_of front)) by (by destruct front).
    unfold pushxGenericCommand. cbn [lookup list_lookup mbind option_bind]. change (drop 2 (_ :: _ :: vs)) with vs. unfold lookup_list.
    destruct (lookup_cases db a k Hd) as [[-> ->]|[[-> ->]|(q & l & -> & El & Hl & Hq)]]; [by apply agrees_reads|by apply agrees_reads|]. rewrite El.
    destruct (push_loop_spec front vs q l Hq (room_list a _ k l Hr El)) as (q' & -> & Hq'). cbn [mbind option_bind]. apply pushed_agrees; [done|done|by left].
  - replace (lexec db (PUSH front false k vs)) with (pushGenericCommand db ((if front then bytes_of "lpush" else bytes_of "rpush") :: k :: vs) (where_of front)) by (by destruct front).
    unfold pushGenericCommand. cbn [lookup list_lookup mbind option_bind]. change (drop 2 (_ :: _ :: vs)) with vs.
    destruct (lookup_cases db a k Hd) as [[-> Ea]|[[-> ->]|(q & l & -> & El & Hl & Hq)]]; [|by apply agrees_reads|].
    + rewrite Ea. destruct vs as [|v vs].
      * eexists. split; [done|]. split; [by destruct front|]. cbn [lo_db pushed_spec fst]. destruct front; cbn [push_all rev app put]; by rewrite delete_id.
      * destruct (push_loop_spec front (v :: vs) new_list [] new_list_models) as (q' & -> & Hq'); [exact (proj1 Hr)|]. cbn [mbind option_bind]. apply pushed_agrees; [done|done|by right].
    + rewrite El. destruct (push_loop_spec front vs q l Hq (room_list a _ k l Hr El)) as (q' & -> & Hq'). cbn [mbind option_bind]. apply pushed_agrees; [done|done|by left].
Qed.

Lemma pop_nonempty front l : l <> [] -> exists v, (pop_list front l).2 = Some v.
Proof. intros Hl. destruct front; cbn; [destruct l; [done|by eexists]|]. destruct (last l) eqn:E; [by eexists|]. by apply last_None in E. Qed.

Lemma encode_bulk_robj o v : robj_bytes o = v -> Reply.encode (Bulk o) = Reply.encode (BulkString (Some v)).
Proof. by intros <-. Qed.

Lemma pop_spec db a front k : db_models db a -> agrees (lexec db (POP front k)) (lspec a (POP front k)).
Proof.
  intros Hd. replace (lexec db (POP front k)) with (popGenericCommand db [if front then bytes_of "lpop" else bytes_of "rpop"; k] (where_of front)) by (by destruct front).
  unfold popGenericCommand. cbn [lookup list_lookup mbind option_bind lspec]. apply with_list_spec; [done|]. intros q l Eq El Hl Hq.
  destruct (listTypePop_spec q l front Hq) as (q' & r & -> & Hq' & Hr). cbn [mbind option_bind]. destruct (pop_nonempty front l Hl) as (v & Ev). rewrite Ev in Hr.
  destruct r as [o|]; [|done]. injection Hr as Hr. destruct (drop_empty_spec db a k q' _ Hd Hq') as [Hd' He]. eexists. split; [done|]. split; [|exact Hd'].
  unfold lobserve. cbn [lo_replies lo_dirty lo_signalled lo_events snd]. rewrite He, Ev, !lwire_cons. by rewrite (encode_bulk_robj o v Hr).
Qed.

Lemma llen_spec db a k : db_models db a -> agrees (lexec db (LLEN k)) (lspec a (LLEN k)).
Proof.
  intros Hd. cbn [lexec lspec]. unfold llenCommand. cbn [lookup list_lookup mbind option_bind]. apply with_list_spec; [done|]. intros q l Eq El Hl Hq.
  rewrite (lmodels_length q l Hq). by apply agrees_reads.
Qed.

Lemma linsert_spec db a k place p v : db_models db a -> lroom a (LINSERT k place p v) -> agrees (lexec db (LINSERT k place p v)) (lspec a (LINSERT k place p v)).
Proof.
  intros Hd Hr. cbn [lexec lspec]. unfold linsertCommand. cbn [lookup list_lookup mbind option_bind].
  set (after := strcaseeq place (bytes_of "after")). assert (forall b, (if after then Some LIST_TAIL else if (b : bool) then Some LIST_HEAD else None) =
    if negb (after || b) then None else Some (if after then LIST_TAIL else LIST_HEAD)) as -> by (intros b; by destruct after, b).
  destruct (negb _); [by apply agrees_reads|]. apply with_list_spec; [done|]. intros q l Eq El Hl Hq.
  destruct (init_forward q l 0 Hq) as (li & Hi & Hw); [destruct l; [done|cbn; lia]|]. change (Z.of_nat 0) with 0 in Hi. rewrite Hi. cbn [mbind option_bind].
  rewrite (lmodels_length q l Hq), Nat2Z.id. pose proof (room_list a _ k l Hr El) as Hroom. cbn [lcost] in Hroom. rewrite vals_cost_cons in Hroom. change (vals_cost []) with 0 in Hroom.
  destruct (linsert_loop_spec v p after (S (length l)) q l li l [] Hw eq_refl) as (q' & b & -> & Hb); [lia|lia|]. cbn [mbind option_bind].
  destruct (insert_beside after p v l) as [l'|] eqn:Ei; destruct Hb as [-> Hq'].
  - cbn [app] in Hq'. rewrite (lmodels_length q' l' Hq'). eexists. split; [done|]. split; [done|]. apply models_put; [done|done|].
    intros ->. destruct l as [|e l]; [done|]. cbn [insert_beside] in Ei. case_bool_decide; [by destruct after|]. by destruct (insert_beside _ _ _ _).
  - apply agrees_reads; [|done]. by apply (models_same _ _ _ _ l).
Qed.

Lemma index_range (arg : list byte) i : string2ll arg <> Some LLONG_MIN -> string2ll arg = Some i -> LLONG_MIN < i.
Proof. intros Hne Hs. pose proof (proj1 (string2ll_sound _ _ Hs)). assert (i <> LLONG_MIN) by congruence. limits. lia. Qed.

Lemma index_value q l i : list_models q l -> LLONG_MIN < i ->
  exists q' e, quicklistIndex junk q i = Some (q', e) /\ list_models q' l /\
    match e with
    | None => index_of l i = None
    | Some e => exists j o, index_of l i = Some j /\ entry_robj q' e = Some o /\ l !! j = Some (robj_bytes o)
    end.
Proof.
  intros (ess & Hq & Hc & <-) Hi. pose proof (quicklistIndex_spec junk q ess i Hq Hc Hi) as Hx. destruct (index_of (concat ess) i) as [j|].
  2: { rewrite Hx. exists q, None. split; [done|]. split; [by exists ess|done]. }
  destruct Hx as (ess1 & es & ess2 & n & rsA & r & rsB & v & -> & Hl & -> & Hg & ->). eexists q, _. split; [done|]. split; [by eexists|].
  pose proof Hl as [_ Hlk _ Hz _]. destruct (zvalue_repr _ _ _ _ Hz) as (v' & Hg' & Hv). rewrite Hg in Hg'. injection Hg' as <-.
  assert (exists o, entry_robj q (mkEntry (Some (length ess1)) (Some (zpos rsA)) (Some v) (if i <? 0 then Z.of_nat (length rsA) - Z.of_nat (length es) else Z.of_nat (length rsA))) = Some o /\ robj_bytes o = r.2) as (o & Ho & Er).
  { unfold entry_robj. cbn [en_node en_value mbind option_bind]. rewrite Hlk. cbn [mbind option_bind].
    destruct v as [p len|x]; [destruct Hv as [-> _]; by eexists|]. destruct Hv as (_ & _ & ->). by eexists. }
  exists (length (concat ess1) + length rsA)%nat, o. split; [done|]. split; [exact Ho|]. rewrite (located_concat _ _ _ _ _ _ _ _ Hl), Er.
  apply list_lookup_middle. by rewrite length_app, length_fmap.
Qed.

Lemma lindex_spec db a k arg : db_models db a -> lcmd_ok (LINDEX k arg) -> agrees (lexec db (LINDEX k arg)) (lspec a (LINDEX k arg)).
Proof.
  intros Hd Hok. cbn [lexec lspec]. unfold lindexCommand. cbn [lookup list_lookup mbind option_bind]. apply with_list_spec; [done|]. intros q l Eq El Hl Hq.
  cbn [lcmd_ok] in Hok. destruct (string2ll arg) as [i|] eqn:Es; [|by apply agrees_reads].
  destruct (index_value q l i Hq) as (q' & e & -> & Hq' & He); [by apply (index_range arg); [rewrite Es|]|]. cbn [mbind option_bind].
  pose proof (models_same db a k q' l Hd El Hl Hq') as Hd'. destruct e as [e|].
  - destruct He as (j & o & -> & -> & Hj). cbn [mbind option_bind]. rewrite Hj. by apply agrees_reads.
  - rewrite He. by apply agrees_reads.
Qed.

Lemma lset_spec db a k arg v : db_models db a -> lcmd_ok (LSET k arg v) -> lroom a (LSET k arg v) -> agrees (lexec db (LSET k arg v)) (lspec a (LSET k arg v)).
Proof.
  intros Hd Hok Hr. cbn [lexec lspec]. unfold lsetCommand. cbn [lookup list_lookup mbind option_bind]. apply with_list_spec; [done|]. intros q l Eq El Hl Hq.
  cbn [lcmd_ok] in Hok. destruct (string2ll arg) as [i|] eqn:Es; [|by apply agrees_reads].
  pose proof (room_list a _ k l Hr El) as Hroom. cbn [lcost] in Hroom. rewrite vals_cost_cons in Hroom. change (vals_cost []) with 0 in Hroom.
  destruct Hq as (ess & Hq & Hc & <-).
  destruct (quicklistReplaceAtIndex_spec junk uninit q ess i v Hq Hc) as (q' & ess' & -> & Hq' & Ho & E); [by apply (index_range arg); [rewrite Es|]|rewrite zbound_cons; lia|].
  cbn [mbind option_bind]. destruct (index_of (concat ess) i) as [j|].
  - rewrite bool_decide_eq_true_2 by done. eexists. split; [done|]. split; [done|]. apply models_put; [done|by eapply models_intro|].
    intros Hx. apply (f_equal length) in Hx. rewrite length_insert in Hx. by destruct (concat ess).
  - rewrite bool_decide_eq_false_2 by (by intros [? [=]]). apply agrees_reads; [|done]. eapply models_same; [done|done|done|]. by eapply models_intro.
Qed.

(** The range that LRANGE and LTRIM work on. *)
Lemma range_cases start end_ l : let n := Z.of_nat (length l) in let r := convert_range start end_ n in
  0 <= r.1 /\
  (if (r.1 >? r.2) || (r.1 >=? n) then slice start end_ l = []
   else let e := if r.2 >=? n then n - 1 else r.2 in r.1 <= e < n /\ slice start end_ l = take (Z.to_nat (e - r.1 + 1)) (drop (Z.to_nat r.1) l)).
Proof.
  intros n r. unfold slice. fold n. set (s := Z.max 0 _). set (e := if end_ <? 0 then n + end_ else end_).
  assert (r = (s, e)) as ->.
  { subst r s e. unfold convert_range. f_equal. destruct (start <? 0) eqn:E; zbool; [destruct (n + start <? 0) eqn:E2; zbool; lia|]. rewrite (proj2 (Z.ltb_ge start 0)) by lia. lia. }
  cbn [fst snd]. split; [lia|]. destruct (_ || _) eqn:E.
  - apply orb_true_iff in E as [E|E]; zbool; [by replace (Z.to_nat (e - s + 1)) with 0%nat by lia|]. rewrite drop_ge by lia. apply take_nil.
  - apply orb_false_iff in E as [E1 E2]. rewrite Z.gtb_ltb in E1. rewrite Z.geb_leb in E2 |- *. zbool. destruct (n <=? e) eqn:E3; zbool; split; try lia; [|done].
    rewrite !take_ge by (rewrite length_drop; lia). done.
Qed.

Lemma lrange_spec db a k s e : db_models db a -> agrees (lexec db (LRANGE k s e)) (lspec a (LRANGE k s e)).
Proof.
  intros Hd. cbn [lexec lspec]. unfold lrangeCommand. cbn [lookup list_lookup mbind option_bind].
  destruct (string2ll s) as [start|]; [|by apply agrees_reads]. destruct (string2ll e) as [end_|]; [|by apply agrees_reads].
  apply with_list_spec; [done|]. intros q l Eq El Hl Hq. rewrite (lmodels_length q l Hq). cbv zeta. pose proof (range_cases start end_ l) as Hr. cbv zeta in Hr.
  destruct (convert_range start end_ (Z.of_nat (length l))) as [s' e']. cbn [fst snd] in Hr. destruct Hr as [Hs Hr]. destruct (_ || _).
  { rewrite Hr. by apply agrees_reads. }
  set (e1 := if e' >=? Z.of_nat (length l) then Z.of_nat (length l) - 1 else e') in *. destruct Hr as [He Hsl].
  destruct (init_forward q l (Z.to_nat s') Hq) as (li & Hi & Hw); [lia|]. rewrite Z2Nat.id in Hi by lia. rewrite Hi. cbn [mbind option_bind fst snd].
  destruct (lrange_loop_spec (Z.to_nat (e1 - s' + 1)) q l li _ Hw) as (x & -> & Hx); [rewrite length_drop; lia|]. cbn [mbind option_bind fst snd].
  apply agrees_reads; [by apply (models_same _ _ _ _ l)|]. rewrite !lwire_cons, Hx, Hsl. do 3 f_equal. rewrite length_take, length_drop. lia.
Qed.

Lemma del_range_models q l start count : list_models q l -> LLONG_MIN < start <= 0 -> in_s 64 count ->
  exists q' b, quicklistDelRange junk uninit q start count = Some (q', b) /\
    list_models q' (if count <=? 0 then l else match index_of l start with None => l | Some k => take k l ++ drop (k + Z.to_nat count) l end).
Proof.
  intros (ess & Hq & Hc & <-) Hs Hn. destruct (quicklistDelRange_spec junk uninit q ess start count Hq Hc Hs Hn) as (q' & ess' & b & -> & Hq' & Ho & E).
  exists q', b. split; [done|]. by eapply models_intro.
Qed.

Lemma drop_range q l n : list_models q l -> 0 <= n <= Z.of_nat (length l) ->
  exists q' b, quicklistDelRange junk uninit q 0 n = Some (q', b) /\ list_models q' (drop (Z.to_nat n) l).
Proof.
  intros Hq Hn. pose proof (models_bound q l Hq). pose proof (zbound_length l).
  destruct (del_range_models q l 0 n Hq) as (q' & b & Hd & Hq'); [limits; lia|limits; lia|]. exists q', b. split; [done|].
  destruct (n <=? 0) eqn:E; zbool; [by replace n with 0 by lia|]. destruct l as [|v l]; [cbn in *; lia|].
  pose proof (zindex_mid [] v l 0 (or_introl eq_refl)) as Hi. cbn [app length] in Hi. rewrite Hi in Hq'. exact Hq'.
Qed.

Lemma trim_range q l n : list_models q l -> 0 <= n <= Z.of_nat (length l) ->
  exists q' b, quicklistDelRange junk uninit q (- n) n = Some (q', b) /\ list_models q' (take (length l - Z.to_nat n) l).
Proof.
  intros Hq Hn. pose proof (models_bound q l Hq). pose proof (zbound_length l).
  destruct (del_range_models q l (- n) n Hq) as (q' & b & Hd & Hq'); [limits; lia|limits; lia|]. exists q', b. split; [done|].
  destruct (n <=? 0) eqn:E; zbool; [rewrite take_ge by lia; done|].
  assert (index_of l (- n) = Some (length l - Z.to_nat n)%nat) as Ei.
  { unfold index_of. rewrite (proj2 (Z.ltb_lt (- n) 0)) by lia. cbv zeta. rewrite (proj2 (Z.leb_le 0 _)), (proj2 (Z.ltb_lt _ (Z.of_nat (length l)))) by lia. cbn [andb]. f_equal. lia. }
  rewrite Ei in Hq'. rewrite (drop_ge l) in Hq' by lia. by rewrite app_nil_r in Hq'.
Qed.

Lemma ltrim_spec db a k s e : db_models db a -> agrees (lexec db (LTRIM k s e)) (lspec a (LTRIM k s e)).
Proof.
  intros Hd. cbn [lexec lspec]. unfold ltrimCommand. cbn [lookup list_lookup mbind option_bind].
  destruct (string2ll s) as [start|]; [|by apply agrees_reads]. destruct (string2ll e) as [end_|]; [|by apply agrees_reads].
  apply with_list_spec; [done|]. intros q l Eq El Hl Hq. rewrite (lmodels_length q l Hq). cbv zeta. pose proof (range_cases start end_ l) as Hr. cbv zeta in Hr.
  destruct (convert_range start end_ (Z.of_nat (length l))) as [s' e']. cbn [fst snd] in Hr. destruct Hr as [Hs Hr].
  set (t := if _ || _ then _ else _). assert (0 <= t.1 <= Z.of_nat (length l) /\ 0 <= t.2 <= Z.of_nat (length l) - t.1 /\
    slice start end_ l = take (length l - Z.to_nat t.1 - Z.to_nat t.2) (drop (Z.to_nat t.1) l)) as (H1 & H2 & Hsl).
  { subst t. destruct (_ || _); cbn [fst snd]; [split; [lia|]; split; [lia|]; rewrite Hr, drop_ge by lia; by rewrite take_nil|].
    destruct Hr as [He ->]. split; [lia|]. split; [lia|]. f_equal. lia. }
  destruct t as [ltrim rtrim]. cbn [fst snd] in *.
  destruct (drop_range q l ltrim Hq H1) as (q1 & b1 & -> & Hq1). cbn [mbind option_bind fst].
  destruct (trim_range q1 _ rtrim Hq1) as (q2 & b2 & -> & Hq2); [rewrite length_drop; lia|]. cbn [mbind option_bind fst].
  rewrite length_drop, <- Hsl in Hq2. destruct (drop_empty_spec db a k q2 _ Hd Hq2) as [Hd' He]. eexists. split; [done|]. split; [|exact Hd'].
  unfold lobserve. cbn [lo_replies lo_dirty lo_signalled lo_events snd]. by rewrite He.
Qed.

Lemma lrem_spec db a k n v : db_models db a -> lcmd_ok (LREM k n v) -> agrees (lexec db (LREM k n v)) (lspec a (LREM k n v)).
Proof.
  intros Hd Hok. cbn [lexec lspec]. unfold lremCommand. cbn [lookup list_lookup mbind option_bind]. cbn [lcmd_ok] in Hok.
  destruct (string2ll n) as [c|] eqn:Es; [|by apply agrees_reads]. apply with_list_spec; [done|]. intros q l Eq El Hl Hq.
  rewrite (proj2 (Z.eqb_neq c LLONG_MIN)) by congruence. set (fwd := negb (c <? 0)).
  assert (exists li, (if c <? 0 then listTypeInitIterator q (-1) LIST_HEAD else listTypeInitIterator q 0 LIST_TAIL) = Some (q, li) /\
    walks q l fwd li (if fwd then l else rev l)) as (li & -> & Hw).
  { subst fwd. destruct (c <? 0); cbn [negb]; [by apply init_backward|]. apply (init_forward q l 0 Hq). destruct l; [done|cbn; lia]. }
  cbn [mbind option_bind]. rewrite (lmodels_length q l Hq), Nat2Z.id.
  assert (length (if fwd then l else rev l) = length l) as Hlen by (destruct fwd; [done|apply length_rev]).
  destruct (lrem_loop_spec v fwd (Z.abs c) (S (length l)) q l li (if fwd then l else rev l) [] 0 Hw) as (q' & -> & Hq').
  { destruct fwd; cbn [whole]; [done|]. by rewrite rev_involutive, app_nil_r. }
  { lia. }
  { lia. }
  cbn [mbind option_bind]. assert (whole fwd [] (remove_up_to (limit_of (Z.abs c) 0) v (if fwd then l else rev l)) = remove_spec c v l) as Er.
  { unfold remove_spec, limit_of. rewrite Z.sub_0_r. replace (Z.abs c =? 0) with (c =? 0) by (destruct (c =? 0) eqn:E0; symmetry; [apply Z.eqb_eq|apply Z.eqb_neq]; zbool; lia).
    subst fwd. destruct (c <? 0); cbn [negb whole]; by rewrite ?app_nil_r. }
  rewrite Er in Hq'. assert (length (remove_up_to (limit_of (Z.abs c) 0) v (if fwd then l else rev l)) = length (remove_spec c v l)) as Hl'.
  { rewrite <- Er. destruct fwd; cbn [whole app]; [done|]. by rewrite app_nil_r, length_rev. }
  rewrite Hl', Hlen, Z.add_0_l. destruct (drop_empty_spec db a k q' _ Hd Hq') as [Hd' He]. eexists. split; [done|]. split; [|exact Hd'].
  unfold lobserve. cbn [lo_replies lo_dirty lo_signalled lo_events snd]. by rewrite He.
Qed.

Lemma last_cost l v : last l = Some v -> zbound l = zbound (removelast l) + 18 + Z.of_nat (length v) /\ l = removelast l ++ [v].
Proof. intros (l' & ->)%last_Some. rewrite removelast_last, zbound_snoc. done. Qed.

Lemma rpoplpush_spec db a s d : db_models db a -> lroom a (RPOPLPUSH s d) -> agrees (lexec db (RPOPLPUSH s d)) (lspec a (RPOPLPUSH s d)).
Proof.
  intros Hd Hr. cbn [lexec lspec]. unfold rpoplpushCommand. cbn [lookup list_lookup mbind option_bind]. apply with_list_spec; [done|]. intros q l Eq El Hl Hq.
  rewrite (lmodels_length q l Hq), (proj2 (Z.eqb_neq (Z.of_nat (length l)) 0)) by (destruct l; [done|cbn [length]; lia]).
  destruct (pop_nonempty false l Hl) as (v & Ev). cbn [pop_list snd] in Ev. destruct (last_cost l v Ev) as [Hz _]. rewrite Ev.
  destruct (listTypePop_spec q l false Hq) as (q1 & r & Hp & Hq1 & Hv). change (where_of false) with LIST_TAIL in Hp. cbn [pop_list fst snd] in Hq1, Hv. rewrite Ev in Hv.
  destruct r as [o|]; [|done]. injection Hv as Hv. pose proof (models_bound q l Hq) as Hlb.
  assert (lcost a (RPOPLPUSH s d) = 18 + Z.of_nat (length v)) as Hcost by (cbn [lcost]; rewrite El, Ev; change (default [] (Some v)) with v; rewrite vals_cost_cons; change (vals_cost []) with 0; lia).
  set (dl := if bool_decide (s = d) then removelast l else match a !! d with Some (AList dl) => dl | _ => [] end).
  assert ((db !! d = Some VOther /\ a !! d = Some AOther) \/ (db !! d <> Some VOther /\ a !! d <> Some AOther /\
    list_models (match <[s := VList q1]> db !! d with Some (VList q) => q | _ => new_list end) dl /\ zbound dl + 18 + Z.of_nat (length v) < ql_max)) as [[-> ->]|(Hnd & Hna & Hdl & Hb)].
  { destruct (decide (s = d)) as [<-|Hsd].
    - right. rewrite Eq, El. split; [done|]. split; [done|]. subst dl. rewrite bool_decide_eq_true_2, lookup_insert_eq by done. split; [done|lia].
    - rewrite lookup_insert_ne by done. subst dl. rewrite bool_decide_eq_false_2 by done.
      destruct (lookup_cases db a d Hd) as [[-> ->]|[[-> ->]|(qd & dl & -> & Ed & _ & Hqd)]]; [|by left|].
      + right. split; [done|]. split; [done|]. split; [apply new_list_models|]. pose proof (proj1 Hr). change (zbound []) with 11. lia.
      + right. rewrite Ed. split; [done|]. split; [done|]. split; [done|]. pose proof (room_list a _ d dl Hr Ed). lia. }
  { by apply agrees_reads. }
  assert (forall (X : Type) (x y : X), match db !! d with Some VOther => x | _ => y end = y) as Hm1 by (intros; by destruct (db !! d) as [[]|]). rewrite Hm1.
  rewrite Hp. cbn [mbind option_bind]. unfold rpoplpushHandlePush.
  destruct (listTypePush_spec _ dl o true Hdl) as (q2 & Hpu & Hq2); [by rewrite Hv|]. change (where_of true) with LIST_HEAD in Hpu. rewrite Hpu. cbn [mbind option_bind].
  rewrite Hv in Hq2. change (push_all true dl [v]) with (v :: dl) in Hq2.
  set (left := if bool_decide (s = d) then v :: removelast l else removelast l).
  replace (match a !! d with Some AOther => _ | _ => _ end) with
    (<[d := AList (v :: dl)]> (put a s left), mkLObs (lwire [BulkBuffer v]) 1 [d; s] (("lpush"%string, d) :: ("rpop"%string, s) :: del_event s left))
    by (subst left dl; by destruct (a !! d) as [[]|]).
  assert (exists q3 db' a', <[d := VList q2]> (<[s := VList q1]> db) = <[s := VList q3]> db' /\ list_models q3 left /\ db_models db' a' /\
    put a' s left = <[d := AList (v :: dl)]> (put a s left)) as (q3 & db' & a' & Edb & Hm3 & Hd' & Ea').
  { destruct (decide (s = d)) as [<-|Hsd].
    - assert (left = v :: dl) as E3 by (subst left dl; by rewrite !bool_decide_eq_true_2 by done). exists q2, db, a. rewrite E3. cbn [put]. by rewrite !insert_insert_eq.
    - assert (left = removelast l) as E3 by (subst left; by rewrite bool_decide_eq_false_2 by done). exists q1, (<[d := VList q2]> db), (<[d := AList (v :: dl)]> a). rewrite E3.
      split; [by rewrite insert_insert_ne|]. split; [done|]. split; [by apply lmodels_insert|]. destruct (removelast l); cbn [put]; [by rewrite delete_insert_ne|by rewrite insert_insert_ne]. }
  rewrite Edb, lookup_insert_eq. cbn [mbind option_bind]. destruct (drop_empty_spec db' a' s q3 left Hd' Hm3) as [Hd3 He]. rewrite Ea' in Hd3.
  eexists. split; [done|]. split; [|exact Hd3]. unfold lobserve. cbn [lo_replies lo_dirty lo_signalled lo_events snd]. rewrite He, !lwire_cons. by rewrite (encode_bulk_robj o v Hv).
Qed.

Lemma lexec_spec db a c : db_models db a -> lcmd_ok c -> lroom a c -> agrees (lexec db c) (lspec a c).
Proof.
  intros Hd Hok Hr. destruct c; [by apply push_spec|by apply pop_spec|by apply linsert_spec|by apply llen_spec|by apply lindex_spec|by apply lset_spec|by apply lrange_spec|
    by apply ltrim_spec|by apply lrem_spec|by apply rpoplpush_spec].
Qed.

Lemma lexecs_spec cs : forall db a, db_models db a -> Forall lcmd_ok cs -> lfits a cs ->
  exists db', lexecs db cs = Some (db', (lspecs a cs).2) /\ db_models db' (lspecs a cs).1.
Proof.
  induction cs as [|c cs IH]; intros db a Hd Hok Hf; [by exists db|]. apply Forall_cons in Hok as [Hc Hok]. destruct Hf as [Hr Hf].
  destruct (lexec_spec db a c Hd Hc Hr) as (r & Hx & Ho & Hd'). cbn [lexecs lspecs]. rewrite Hx. cbn [mbind option_bind].
  destruct (IH (lo_db r) _ Hd' Hok Hf) as (db2 & -> & Hd2). cbn [mbind option_bind fst snd]. exists db2. by rewrite Ho.
Qed.

Lemma others_model (db : keyspace) : map_Forall (fun _ v => v = VOther) db -> db_models db ((fun _ => AOther) <$> db).
Proof. intros Hd k. rewrite lookup_fmap. destruct (db !! k) as [v|] eqn:E; [|constructor]. pose proof (Hd k v E) as ->. by constructor. Qed.
End tlist.

(** ** Properties *)

(** C11: the list commands refine lists of byte strings.  Without compression and for any
    fill factor, for any sequence of LPUSH, RPUSH, LPUSHX, RPUSHX, LPOP, RPOP, LINSERT, LLEN,
    LINDEX, LSET, LRANGE, LTRIM, LREM and RPOPLPUSH over a key space whose keys hold values of
    other types at first, no index of LINDEX and LSET and no count of LREM being the smallest
    64-bit number, every handler completes as long as no list reaches 4 GB, and the
    bytes it replies, the changes it counts, the keys it signals and its events are those of
    the commands on plain lists, where a key exists while its list is not empty; so the
    nodes, their splitting and merging, and what LREM and LINSERT do to a list while
    they iterate over it, are not observable.  At the end the keys are those of the lists and
    no quicklist is empty. *)
Theorem list_commands_refine `{HH : Host} (junk : nat -> byte) (uninit : Z -> Z) fill db cs :
  map_Forall (fun _ v => v = VOther) db -> Forall lcmd_ok cs -> lfits ((fun _ => AOther) <$> db) cs ->
  exists db', lexecs junk uninit fill 0 db cs = Some (db', (lspecs ((fun _ => AOther) <$> db) cs).2) /\
    forall k, match db' !! k, (lspecs ((fun _ => AOther) <$> db) cs).1 !! k with
              | None, None | Some VOther, Some AOther => True
              | Some (VList q), Some (AList l) => quicklistCount q = Z.of_nat (length l) /\ 0 < quicklistCount q
              | _, _ => False
              end.
Proof.
  intros Hdb Hok Hf. destruct (lexecs_spec junk uninit fill 0 eq_refl cs db _ (others_model db Hdb) Hok Hf) as (db' & Hr & Hd). exists db'. split; [done|]. intros k.
  specialize (Hd k). inversion Hd as [v w Hvw E1 E2|E1 E2]; [|done]. destruct v as [q|], w as [l|]; try done. destruct Hvw as [Hl Hq].
  pose proof (lmodels_length q l Hq) as Hlen. unfold listTypeLength in Hlen. rewrite Hlen. split; [done|]. destruct l; [done|cbn; lia].
Qed.

(** ** Examples and witnesses *)

Local Instance tl_little : Host := false.
Definition tl_key : list byte := bytes_of "l".
Definition tl_dst : list byte := bytes_of "m".
Definition tl_set : list byte := bytes_of "set".

Definition tl_script : list lcmd :=
  [PUSH false false tl_key [bytes_of "a"; bytes_of "1"; bytes_of "c"; bytes_of "d"; bytes_of "e"; bytes_of "a"];
   PUSH true true tl_key [bytes_of "x"]; PUSH true false tl_set [bytes_of "x"];
   LINSERT tl_key (bytes_of "AFTER") (bytes_of "c") (bytes_of "new"); LINSERT tl_key (bytes_of "before") (bytes_of "x") (bytes_of "first");
   LRANGE tl_key (bytes_of "1") (bytes_of "-2"); LINDEX tl_key (bytes_of "-3"); LSET tl_key (bytes_of "2") (bytes_of "77");
   LREM tl_key (bytes_of "-1") (bytes_of "a"); LREM tl_key (bytes_of "0") (bytes_of "77"); LLEN tl_key;
   RPOPLPUSH tl_key tl_dst; RPOPLPUSH tl_key tl_key; RPOPLPUSH tl_dst tl_key; RPOPLPUSH tl_key tl_set;
   LTRIM tl_key (bytes_of "1") (bytes_of "3"); LRANGE tl_key (bytes_of "0") (bytes_of "-1"); POP true tl_key; POP false tl_key; POP true tl_key; POP true tl_key].

Definition tl_db : keyspace := {[ tl_set := VOther ]}.

Lemma tl_script_fits : lfits ((fun _ => AOther) <$> tl_db) tl_script.
Proof. apply (bool_decide_unpack _). vm_compute. exact I. Qed.

Lemma list_commands_refine_witness : Forall lcmd_ok tl_script /\
  exists db', lexecs junk_zl (fun _ => 0) 2 0 tl_db tl_script = Some (db', (lspecs ((fun _ => AOther) <$> tl_db) tl_script).2).
Proof.
  assert (Forall lcmd_ok tl_script) as Hok by (repeat constructor; vm_compute; discriminate). split; [exact Hok|].
  destruct (list_commands_refine junk_zl (fun _ => 0) 2 tl_db tl_script) as (db' & Hr & _); [apply map_Forall_singleton; reflexivity|exact Hok|exact tl_script_fits|].
  exists db'. exact Hr.
Defined.

Definition tl_value (k : Z) : list byte := replicate 60 k.

(** With a compression depth of 1: a read of the middle of the list by LINDEX, a pop that
    makes the node it read the head, and a walk over the list by LRANGE. *)
Definition tl_compress_script : list lcmd :=
  [PUSH false false tl_key [tl_value 1; tl_value 2; tl_value 3]; LINDEX tl_key (bytes_of "1"); POP true tl_key; LRANGE tl_key (bytes_of "0") (bytes_of "-1")].

(** The head of the list is compressed then. *)
Example list_head_compressed :
  match lexecs junk_zl (fun _ => 0) 1 1 ∅ tl_compress_script with
  | Some (db, _) =>
      match db !! tl_key with
      | Some (VList q) => n_encoding <$> q_nodes q = [QUICKLIST_NODE_ENCODING_LZF; QUICKLIST_NODE_ENCODING_RAW]
      | _ => False
      end
  | None => False
  end.
Proof. vm_compute. reflexivity. Qed.

(** LPOP takes the compressed block for a ziplist and reads outside of it. *)
Example lpop_of_compressed_head : lexecs junk_zl (fun _ => 0) 1 1 ∅ (tl_compress_script ++ [POP true tl_key]) = None.
Proof. vm_compute. reflexivity. Qed.

(** Without the read by LINDEX the commands work. *)
Example lpop_without_read :
  match lexecs junk_zl (fun _ => 0) 1 1 ∅ (take 1 tl_compress_script ++ drop 2 tl_compress_script ++ [POP true tl_key]) with
  | Some _ => True
  | None => False
  end.
Proof. vm_compute. exact I. Qed.

(** The smallest 64-bit number as an index or a count: the negation overflows. *)
Definition tl_minimum : list byte := bytes_of "-9223372036854775808".

Example smallest_index_overflows c : c ∈ [LINDEX tl_key tl_minimum; LSET tl_key tl_minimum (bytes_of "x"); LREM tl_key tl_minimum (bytes_of "x")] ->
  lexecs junk_zl (fun _ => 0) 2 0 ∅ [PUSH false false tl_key [bytes_of "a"]; c] = None.
Proof. intros Hc. repeat (apply elem_of_cons in Hc as [-> |Hc]; [vm_compute; reflexivity|]). by apply not_elem_of_nil in Hc. Qed.
